(* ===== verification/_CoqProject ===== *)
-Q . S2P
Prelude.v
CMem.v
Cells.v
Stack.v
StackSort.v
StackSpec.v
Lhash.v
LhashSpec.v
Refcount.v
BioPair.v
BioPairSpec.v
PbCommon.v
PbStream.v
PbConcrete.v
PbScalar.v
PbRoundtrip.v
PbEncode.v
PbSizing.v
PbDecode.v
PbIter.v
PbPosition.v
PbSafe.v
PbSafeDecode.v
PbSample.v
ConstantTime.v
PosixTime.v
PosixTimeSpec.v
Cbs.v
Cbb.v
Unicode.v
Ber.v
Base64.v
Der.v
DerInt.v
CbbSpec.v
Buf.v
BufSpec.v
CbbNest.v
CbbCodec.v
CbbError.v
Utf8Range.v
Utf8Spec.v
Words.v
Md32.v
Md32Spec.v
Sha1.v
Sha1Spec.v
Sha1Prf.v
Md5.v
Md4.v
MdSpec.v
Sha2.v
Sha256.v
Sha256Spec.v
Sha512.v
Sha512Spec.v
Evp.v
EvpSpec.v
Digests.v
Hmac.v
HmacSpec.v
Kdf.v
KdfSpec.v
Chacha.v
Poly1305.v
Poly1305Spec.v
Gf2.v
Ghash.v
GhashSpec.v
Aead.v
AeadSpec.v
ChachaPoly.v
ChachaPolySpec.v
Gcm.v
GcmSpec.v
Owned.v
Err.v
ErrSpec.v
ErrQueueSpec.v
ErrTextSpec.v
