(* ===== verification/Prelude.v ===== *)
(** * Verified models of the C libraries under src/InstagramClone/Pods/

    The repository is an iOS application; the C code in it is that of the libraries
    its Pods bring along.  This development models the parts of that C code that
    carry data across a trust boundary or keep state for the rest, and proves them
    correct.

    ** The parts and how they interact

    - nanopb (Pods/nanopb) turns C structures into protocol buffer messages and
      back, for Firestore.  A message type is an array of field descriptors
      (pb.h), walked together with the structure by the iterator of pb_common.c;
      pb_encode.c writes to output streams and pb_decode.c reads input streams, both
      recursively through submessages.
    - BoringSSL (Pods/BoringSSL-GRPC/src/crypto) is the TLS library of gRPC.  CBS
      (bytestring/cbs.c) parses byte strings and DER, CBB (cbb.c) builds them,
      ber.c, unicode.c and asn1_compat.c stand on both; base64/, asn1/posix_time.c,
      internal.h (constant time, byte order), stack/stack.c, lhash/lhash.c,
      bio/pair.c with the part of bio/bio.c it needs, refcount.c, buf/buf.c,
      err/err.c (the error queue of a thread) and chacha/chacha.c are independent of
      each other.
    - The digests of BoringSSL (fipsmodule/md4, md5, sha) collect their input into
      blocks with digest/md32_common.h, SHA-512 by itself; digest.c and digests.c
      put them behind one interface, EVP_MD, and hmac.c, hkdf.c and evp/pbkdf.c are
      written against that interface.
    - ChaCha20-Poly1305 is put together from chacha/chacha.c and poly1305/poly1305.c
      by cipher_extra/e_chacha20poly1305.c, which fills tables of functions for the
      interface of authenticated encryption, fipsmodule/cipher/aead.c; the TLS
      record layer calls that interface.
    - Galois/counter mode (fipsmodule/modes/gcm.c) encrypts with any block cipher and
      authenticates with the hash of gcm_nohw.c, which also serves POLYVAL
      (polyval.c).
    - utf8_range (Pods/gRPC-Core/third_party/utf8_range) validates the strings of
      protocol buffers for upb.

    ** Files

    Foundations: Prelude (integers of machine width, byte lists, tactics, hints),
    CMem (memory, heap and the monad of C functions over a stream),
    Cells (arrays that belong to one object).

    nanopb, in the order of the code: PbCommon (descriptors, [field_iter], the
    functions of pb_common.c), PbStream ([istream], [ostream]; pb_read, pb_write;
    the class [PbEnv] of what users supply), PbScalar (varints, fixed width,
    tags, substreams), PbEncode, PbDecode.  An entry of a C function table is an
    [option]; a pointer is its address; the recursion of [pb_encode] and
    [pb_decode] is opened, each level takes the function of the next one ([rec]).
    Theorems: PbSafe and PbSafeDecode (untrusted input), PbSizing (announced and
    written size), PbPosition (position in the input), PbIter (iterator, required
    fields), PbRoundtrip (scalars); PbConcrete and PbSample instantiate and run it.

    CBS and CBB: Cbs, Cbb, Unicode, Ber are the code.  A CBS is the list of its
    bytes; CBBs are objects in a store over the memory of CMem, so that children,
    flushing and reallocation are as in the code.  Theorems: Der and DerInt
    (what DER is; the parsers accept exactly that), CbbSpec, CbbNest,
    CbbCodec (a Hoare-style account of the builder, the class [Codec] through
    which readers and writers are put together, and the formats made of them),
    CbbError (the error state).

    Digests: Words (loads, stores, rotations, registers that change names,
    schedules), Md32 (md32_common.h, the Merkle-Damgard construction) and Md32Spec
    (that the one is the other, for any block function in the class
    [BlockFunction]); Md4, Md5, MdSpec; Sha1, Sha1Spec, Sha1Prf; Sha2 (the rounds of
    both widths), Sha256, Sha256Spec, Sha512, Sha512Spec.  Evp is digest.c over the
    class [Digests], EvpSpec the ownership of blocks and the class [DigestLaws];
    Digests (digests.c) has the nine tables and their instance.  Hmac and HmacSpec,
    Kdf and KdfSpec are proved against the classes.

    Authenticated encryption: Poly1305 is poly1305.c; Poly1305Spec has the
    polynomial modulo 2^130 - 5 of RFC 8439 and relates the limbs to it.  Aead is
    aead.c over a table of functions, in a monad over memory that also collects the
    reasons of errors; AeadSpec is the contract of an algorithm, the class
    [AeadAlgorithm], and what the interface makes of it.  ChachaPoly is
    e_chacha20poly1305.c, and ChachaPolySpec shows that both of its algorithms are
    instances of the class.

    Galois/counter mode: Gf2 has the polynomials over the field of two elements, as
    bits of a number, with their ring and congruence modulo a polynomial.  Ghash is
    gcm_nohw.c and polyval.c, GhashSpec proves its multiplication without carries, its
    reduction, GHASH and POLYVAL.  Gcm is gcm.c, its context threaded by the monad and
    the data in memory; GcmSpec relates a context to the associated data and the
    ciphertext so far ([authenticating], [messaging]) and proves every call against
    that.

    The error queue: Err is err.c, with the texts of the errors as strings in the
    memory of CMem, and the messages; Owned has the blocks that a structure owns, so that freeing
    them leaves the memory there was; ErrSpec has the queue that a ring represents and
    what each function does to it, ErrQueueSpec the operations together, ErrTextSpec
    what the messages look like.

    The others, code and theorems: ConstantTime; Buf and BufSpec; Base64; PosixTime
    and PosixTimeSpec; Stack, StackSort and StackSpec; Lhash and LhashSpec; BioPair
    and BioPairSpec; Refcount; Utf8Range and Utf8Spec; Chacha.

    ** What the theorems show

    - Safety on untrusted input: [PbSafeDecode.pb_decode_safe] (any bytes, any
      message type whose members are stored in place: the decoder returns, touches
      nothing but the structure and leaves it initialised), [CbbCodec.heap_life],
      [StackSpec.stack_invariant], [ErrQueueSpec.err_thread_leaves_nothing] (no block is
      lost), [Refcount.refcount_concurrent] (any interleaving).
    - Refinement of an abstract data type: a stack is a list
      ([StackSpec.stack_op_correct]), a hash table a finite map
      ([LhashSpec.lhash_is_map]), a BIO pair two bounded queues
      ([BioPairSpec.bio_pair_is_two_queues]), an HMAC context a key and a message
      ([HmacSpec.hmac_refines]), a BUF_MEM a string of bytes
      ([BufSpec.buf_mem_is_string]), the ring of errors a queue of fifteen
      ([ErrQueueSpec.err_queue_correct]), a stream cipher a key stream
      ([Chacha.chacha20_correct]), a CBB a sequence of bytes
      ([CbbCodec.format_roundtrip], for any nesting of the things it writes).
    - Formats: what DER parsing accepts ([Der.get_any_asn1_element_iff],
      [DerInt]), UTF-8 ([Utf8Spec]), and round trips of base64, varints, integers
      and dates ([Base64], [PbRoundtrip], [CbbCodec], [PosixTimeSpec]); error messages
      that fit any buffer ([ErrTextSpec.error_string_fields]).
    - Standards: the digests are those of RFC 1320, RFC 1321 and FIPS 180-4, with
      the constants computed from roots of primes ([MdSpec], [Sha1Spec],
      [Sha256Spec], [Sha512Spec], [Digests.evp_digest_correct]); HMAC, HKDF and
      PBKDF2 are those of RFC 2104, 5869 and 8018 ([HmacSpec], [KdfSpec]), whichever
      allocations fail, with every block freed.
    - Authenticated encryption: ChaCha20 is the cipher of RFC 8439, whose block
      function is written out in Chacha ([chacha20_block]), and ChaCha20-Poly1305 its
      AEAD but for the residues of [carry_lost] below
      ([ChachaPolySpec.chachapoly_correct], [Poly1305Spec.poly1305_correct]).  For any
      algorithm that keeps the contract, in place or not, what is sealed opens
      ([AeadSpec.aead_roundtrip]) and nothing else does ([AeadSpec.aead_open_correct]);
      for any algorithm at all a failure leaves only zeros
      ([AeadSpec.aead_failure_clears]).
    - Galois/counter mode is that of NIST SP 800-38D, whatever the pieces of a message,
      for any block cipher ([GcmSpec.gcm_encrypt_correct]); decryption inverts it and
      accepts exactly the right tag ([GcmSpec.gcm_decrypt_correct]); the limits on lengths
      hold ([GcmSpec.gcm_limits]).  GHASH and POLYVAL are those of SP 800-38D and RFC 8452
      ([GhashSpec.ghash_correct], [GhashSpec.polyval_correct]).
    - Agreement of two computations: the multiplications with and without 128-bit
      integers ([GhashSpec.gcm_mul64_correct]), the counting and the writing pass of nanopb
      (readable messages are written, and with the size that was announced:
      [PbSizing.encoded_size_exact]), ChaCha20 with and without assembly, the two
      block functions of SHA-512, the bit set of required fields and the set
      ([PbIter.required_check_correct]).
    - Errors, overflow and termination: [PbRoundtrip.varint32_exact],
      [CbbError.errors_stick], [BioPairSpec.new_pair_no_leak],
      [LhashSpec.lhash_load_bounded], [Refcount.refcount_lock_free] (liveness,
      counting the spurious failures of the weak compare-and-swap),
      [StackSort.sort_correct] and [PbIter.iter_find_correct].
    - Where the code fails its intent the theorem says so: for 105 of the
      residues modulo 2^130 - 5 the final reduction of Poly1305 loses a carry
      (the theorems about tags exclude them by [carry_lost], and
      [Poly1305Spec.poly1305_loses_carry] runs one);
      a restored error queue has no marks ([ErrQueueSpec.err_save_restore]);
      [StackSpec.set_breaks_find], [PbSample.empty_message_field_0],
      [PbSample.small_fixed_array_overrun].

    ** Undefined behaviour, fuel and bounds

    A C function either returns, or is undefined ([UB]: an access outside an
    object, a read of an indeterminate byte, a failed assertion, a double free, a
    null call, signed overflow), or runs out of fuel.  Loops get a fuel computed
    from their data: the bytes left in the stream, the length of the array, the
    number of bits; the theorems above show that it is enough wherever they state
    that a call returns.  The fuel of [pb_encode] and [pb_decode] bounds the
    nesting of message types; more than the depth of the type suffices
    ([pb_decode_safe]).  The recursion of ber.c is bounded by its own [kMaxDepth].

    ** Not modelled

    - Allocation is the class [Allocator] (a fresh block or failure, by its own
      choice; what the error queue may lose is stated by the requests that are
      refused, [Owned.refused]); for stacks, tables, BIOs and digests it is a boolean
      per request.
    - Poly1305 is the portable one, not the vector code; ChaCha20-Poly1305 is that
      of a build without the assembly that seals and opens as a whole.
    - Galois/counter mode is that of a build without assembly; AES is a parameter with its
      block length as the only law, and an AES key is a string of bytes.  The
      multiplication of gcm_nohw.c for SSE2 without 128-bit integers is vector code.
    - Digests are those in C; the assembly routines for them are not modelled.  The
      FIPS service indicator is not in this build.  Of EVP_PKEY_CTX in a digest
      context only the pointer, and the functions for it as parameters.
    - User callbacks are parameters: of nanopb ([PbEnv]), of stacks and tables
      (comparison, hash, copy, free).  [pb_decode_safe] is about message types
      without callbacks, pointers and extensions; these are modelled, and
      [PbPosition] and [PbSizing] cover them under hypotheses on the callbacks.
    - Configurations that are not built: PB_BUFFER_ONLY, PB_NO_ERRMSG,
      PB_WITHOUT_64BIT, the 32-bit limbs of BoringSSL.
    - The parts of BoringSSL do not share the error queue: a function that reports an
      error does not call Err, but AEADs return the reasons.
    - OPENSSL_free where it only releases memory, BIOs other than pairs, vector code,
      assembly (its contract is a hypothesis).
    - C++, Objective-C and Swift code, generated tables and descriptors.

    ** What is left

    The block ciphers and their other modes, the elliptic curves and big numbers of
    BoringSSL, memory BIOs, the layout of the messages that [pb_encode] can read,
    pointer fields in [pb_decode] on untrusted input, and upb's hash table and wire
    decoder are C code of the same kind that this development does not reach. *)
From Stdlib Require Import ZArith Lia.
From stdpp Require Import prelude strings gmap list numbers.
Local Open Scope Z_scope.

(** ** Machine integers

    C integers are [Z]; a conversion to a [w]-bit type is written out with
    [wrap] (unsigned) or [swrap] (two's complement). *)

Definition wrap (w z : Z) : Z := z mod 2 ^ w.
Definition swrap (w z : Z) : Z := (z + 2 ^ (w - 1)) mod 2 ^ w - 2 ^ (w - 1).
Definition u8 (z : Z) : Z := wrap 8 z.
Definition u16 (z : Z) : Z := wrap 16 z.
Definition u32 (z : Z) : Z := wrap 32 z.
Definition u64 (z : Z) : Z := wrap 64 z.
Definition s8 (z : Z) : Z := swrap 8 z.
Definition s16 (z : Z) : Z := swrap 16 z.
Definition s32 (z : Z) : Z := swrap 32 z.
Definition s64 (z : Z) : Z := swrap 64 z.

(** A byte is a [Z] between 0 and 255. *)
Definition is_byte (z : Z) : Prop := 0 <= z < 256.
Abbreviation bytes := (list Z).
Definition bytes_ok (bs : bytes) : Prop := Forall is_byte bs.

#[global] Instance is_byte_dec z : Decision (is_byte z).
Proof. unfold is_byte. apply _. Defined.
#[global] Instance bytes_ok_dec bs : Decision (bytes_ok bs).
Proof. unfold bytes_ok. apply _. Defined.

(** Turns every wrap in sight into [mod] by a literal, so that [lia] decides. *)
Ltac unfold_wrap :=
  unfold u8, u16, u32, u64, s8, s16, s32, s64, wrap, swrap in *;
  change (2 ^ 8) with 256 in *; change (2 ^ 16) with 65536 in *;
  change (2 ^ 32) with 4294967296 in *;
  change (2 ^ 64) with 18446744073709551616 in *;
  change (2 ^ (8 - 1)) with 128 in *; change (2 ^ (16 - 1)) with 32768 in *;
  change (2 ^ (32 - 1)) with 2147483648 in *;
  change (2 ^ (64 - 1)) with 9223372036854775808 in *.
Ltac wrap_lia := unfold_wrap; unfold is_byte in *; Z.div_mod_to_equations; lia.

Lemma wrap_small w z : 0 <= z < 2 ^ w -> wrap w z = z.
Proof. intros; unfold wrap; by apply Z.mod_small. Qed.

Lemma wrap_range w z : 0 <= w -> 0 <= wrap w z < 2 ^ w.
Proof. intros; unfold wrap. apply Z.mod_pos_bound, Z.pow_pos_nonneg; lia. Qed.

Lemma wrap_wrap w z : 0 <= w -> wrap w (wrap w z) = wrap w z.
Proof. intros. apply wrap_small, wrap_range; lia. Qed.

Lemma pow2_half w : 0 < w -> 2 ^ w = 2 * 2 ^ (w - 1).
Proof.
  intros. replace w with (Z.succ (w - 1)) at 1 by lia. rewrite Z.pow_succ_r by lia. done.
Qed.

Lemma swrap_small w z :
  0 < w -> - 2 ^ (w - 1) <= z < 2 ^ (w - 1) -> swrap w z = z.
Proof.
  intros Hw Hz. unfold swrap. rewrite Z.mod_small; [lia|].
  rewrite (pow2_half w) by lia. lia.
Qed.

Lemma swrap_range w z : 0 < w -> - 2 ^ (w - 1) <= swrap w z < 2 ^ (w - 1).
Proof.
  intros Hw. unfold swrap.
  pose proof (Z.mod_pos_bound (z + 2 ^ (w - 1)) (2 ^ w)
    ltac:(apply Z.pow_pos_nonneg; lia)).
  rewrite (pow2_half w) in * by lia. lia.
Qed.

Lemma swrap_wrap w z : 0 < w -> swrap w (wrap w z) = swrap w z.
Proof.
  intros. unfold swrap, wrap. by rewrite Zplus_mod_idemp_l.
Qed.

Lemma wrap_swrap w z : 0 < w -> wrap w (swrap w z) = wrap w z.
Proof.
  intros. unfold swrap, wrap.
  rewrite Zminus_mod_idemp_l. f_equal. lia.
Qed.

(** ** Bit operations as arithmetic *)

Lemma land_mask a k : 0 <= k -> Z.land a (2 ^ k - 1) = a mod 2 ^ k.
Proof. intros. rewrite <- Z.land_ones by lia. by rewrite Z.ones_equiv, Z.sub_1_r. Qed.

Lemma land_7F a : Z.land a 127 = a mod 128.
Proof. apply (land_mask a 7); lia. Qed.

Lemma land_FF a : Z.land a 255 = a mod 256.
Proof. apply (land_mask a 8); lia. Qed.

(** Setting bits above the ones in use is an addition. *)
Lemma lor_shiftl_add a b k :
  0 <= k -> 0 <= a < 2 ^ k -> Z.lor a (Z.shiftl b k) = a + b * 2 ^ k.
Proof.
  intros Hk Ha. rewrite Z.shiftl_mul_pow2 by lia.
  assert (Z.land a (b * 2 ^ k) = 0) as Hz.
  { apply Z.bits_inj'; intros n Hn. rewrite Z.land_spec, Z.bits_0.
    destruct (decide (n < k)).
    - rewrite Z.mul_pow2_bits_low by lia. apply andb_false_r.
    - rewrite <- (Z.mod_small a (2 ^ k)) by lia.
      rewrite Z.mod_pow2_bits_high by lia. done. }
  symmetry. rewrite <- Z.lxor_lor by done. by apply Z.add_nocarry_lxor.
Qed.

(** ... and so is setting bits below those in use. *)
Lemma lor_low_add x y k :
  0 <= k -> 0 <= y < 2 ^ k -> x mod 2 ^ k = 0 -> Z.lor x y = x + y.
Proof.
  intros Hk Hy Hx. assert (0 < 2 ^ k) by (apply Z.pow_pos_nonneg; lia).
  assert (x = x / 2 ^ k * 2 ^ k) as E by (Z.div_mod_to_equations; lia).
  rewrite Z.lor_comm. rewrite E at 1.
  rewrite <- Z.shiftl_mul_pow2, lor_shiftl_add by lia. lia.
Qed.

Lemma lor_80 a : 0 <= a < 128 -> Z.lor a 128 = a + 128.
Proof. intros. apply (lor_shiftl_add a 1 7); lia. Qed.

Lemma shiftr_div a k : 0 <= k -> Z.shiftr a k = a / 2 ^ k.
Proof. intros. by apply Z.shiftr_div_pow2. Qed.

Lemma land_80 b : is_byte b -> Z.land b 128 = if decide (b < 128) then 0 else 128.
Proof.
  unfold is_byte. intros Hb.
  assert (Forall (fun b => Z.land b 128 = if decide (b < 128) then 0 else 128)
    (seqZ 0 256)) as H by (apply (bool_decide_unpack _); vm_compute; exact I).
  rewrite Forall_forall in H. apply H, list_elem_of_In, elem_of_seqZ. lia.
Qed.

(** ** Little-endian integers *)

Fixpoint le_bytes (n : nat) (v : Z) : bytes :=
  match n with
  | O => []
  | S k => v mod 256 :: le_bytes k (v / 256)
  end.

Fixpoint le_val (bs : bytes) : Z :=
  match bs with
  | [] => 0
  | b :: r => b + 256 * le_val r
  end.

Lemma length_le_bytes n v : length (le_bytes n v) = n.
Proof. revert v; induction n; intros; simpl; auto. Qed.

Lemma le_bytes_ok n v : bytes_ok (le_bytes n v).
Proof.
  revert v; induction n; intros; simpl; constructor; [|apply IHn].
  unfold is_byte; apply Z.mod_pos_bound; lia.
Qed.

Lemma le_val_bytes n v : le_val (le_bytes n v) = v mod 2 ^ (8 * Z.of_nat n).
Proof.
  revert v; induction n as [|n IH]; intros v.
  - simpl. by rewrite Z.mod_1_r.
  - cbn [le_bytes le_val]. rewrite IH.
    replace (8 * Z.of_nat (S n)) with (8 + 8 * Z.of_nat n) by lia.
    rewrite Z.pow_add_r by lia. change (2 ^ 8) with 256.
    rewrite Z.rem_mul_r; lia.
Qed.

Lemma le_val_bound bs : bytes_ok bs -> 0 <= le_val bs < 2 ^ (8 * Z.of_nat (length bs)).
Proof.
  induction 1 as [|b bs Hb Hbs IH]; cbn [le_val length]; [lia|].
  unfold is_byte in Hb.
  replace (8 * Z.of_nat (S (length bs))) with (8 + 8 * Z.of_nat (length bs)) by lia.
  rewrite Z.pow_add_r by lia. change (2 ^ 8) with 256. lia.
Qed.

Lemma le_bytes_val bs : bytes_ok bs -> le_bytes (length bs) (le_val bs) = bs.
Proof.
  induction 1 as [|b bs Hb Hbs IH]; cbn [le_val length le_bytes]; [done|].
  unfold is_byte in Hb.
  replace ((b + 256 * le_val bs) mod 256) with b by (Z.div_mod_to_equations; lia).
  replace ((b + 256 * le_val bs) / 256) with (le_val bs) by (Z.div_mod_to_equations; lia).
  by rewrite IH.
Qed.

Lemma lor_range n a b : 0 <= n -> 0 <= a < 2 ^ n -> 0 <= b < 2 ^ n -> 0 <= Z.lor a b < 2 ^ n.
Proof.
  intros Hn Ha Hb. split; [apply Z.lor_nonneg; lia|].
  rewrite <- (Z.mod_small a (2 ^ n)), <- (Z.mod_small b (2 ^ n)) by lia.
  rewrite <- !Z.land_ones by lia. rewrite <- Z.land_lor_distr_l, Z.land_ones by lia.
  apply Z.mod_pos_bound. lia.
Qed.

(** ** Hints shared by the components *)

Create HintDb cdev.
#[export] Hint Resolve le_bytes_ok : cdev.
#[export] Hint Constructors Forall : cdev.
Create Rewrite HintDb cdev.
#[export] Hint Rewrite length_le_bytes land_7F land_FF : cdev.
