(* ===== verification/CMem.v ===== *)
(** * C memory, heap and control: the machine the nanopb model runs on

    Byte-addressed memory, the C library's allocator as an interface, and the
    monad in which a C function is written: it threads the stream object it is
    given and the world (memory and heap), and either returns, or reaches
    undefined behaviour, or runs out of the fuel of a loop. *)
From Stdlib Require Import ZArith Lia.
From stdpp Require Import prelude strings gmap list numbers.
From S2P Require Import Prelude.
Local Open Scope Z_scope.

(** ** Memory

    [m !! a] is [None] where the program may not access address [a],
    [Some None] where the byte is allocated but indeterminate, and
    [Some (Some b)] where it holds the byte [b]. *)

Abbreviation mem := (gmap Z (option Z)).

Definition load1 (m : mem) (a : Z) : option Z := mjoin (m !! a).

Definition store1 (m : mem) (a b : Z) : option mem :=
  match m !! a with
  | None => None
  | Some _ => Some (<[a := Some b]> m)
  end.

Fixpoint load (m : mem) (a : Z) (n : nat) : option bytes :=
  match n with
  | O => Some []
  | S k =>
      match load1 m a, load m (a + 1) k with
      | Some b, Some r => Some (b :: r)
      | _, _ => None
      end
  end.

Fixpoint store (m : mem) (a : Z) (bs : bytes) : option mem :=
  match bs with
  | [] => Some m
  | b :: r =>
      match store1 m a b with
      | None => None
      | Some m' => store m' (a + 1) r
      end
  end.

(** [for (i = 0; i < n; i++) dst[i] = src[i];] one byte at a time. *)
Fixpoint copy_loop (m : mem) (dst src : Z) (n : nat) : option mem :=
  match n with
  | O => Some m
  | S k =>
      match load1 m src with
      | None => None
      | Some b =>
          match store1 m dst b with
          | None => None
          | Some m' => copy_loop m' (dst + 1) (src + 1) k
          end
      end
  end.

(** Every initialised cell holds a byte. *)
Definition mem_ok (m : mem) : Prop := forall a b, m !! a = Some (Some b) -> is_byte b.

(** [n] accessible bytes from [a] on. *)
Definition accessible (m : mem) (a : Z) (n : Z) : Prop :=
  forall i, a <= i < a + n -> is_Some (m !! i).

Definition agree_on (P : Z -> Prop) (m m' : mem) : Prop :=
  forall a, P a -> m !! a = m' !! a.

Lemma load_length m a n bs : load m a n = Some bs -> length bs = n.
Proof.
  revert a bs; induction n as [|n IH]; intros a bs; cbn [load].
  - by intros [= <-].
  - destruct (load1 m a); [|done]. destruct (load m (a + 1) n) eqn:E; [|done].
    intros [= <-]. cbn. f_equal. eauto.
Qed.

Lemma load_ext m m' a n :
  agree_on (fun i => a <= i < a + Z.of_nat n) m m' -> load m a n = load m' a n.
Proof.
  revert a; induction n as [|n IH]; intros a H; cbn [load]; [done|].
  unfold load1. rewrite (H a) by lia. destruct (mjoin (m' !! a)); [|done].
  rewrite (IH (a + 1)); [done|]. intros i Hi. apply H. lia.
Qed.

Lemma load_app m a n k :
  load m a (n + k) =
    match load m a n, load m (a + Z.of_nat n) k with
    | Some x, Some y => Some (x ++ y)
    | _, _ => None
    end.
Proof.
  revert a; induction n as [|n IH]; intros a.
  - cbn [load Nat.add]. rewrite Z.add_0_r. by destruct (load m a k).
  - cbn [load Nat.add]. rewrite IH.
    replace (a + Z.of_nat (S n)) with (a + 1 + Z.of_nat n) by lia.
    destruct (load1 m a); [|done]. destruct (load m (a + 1) n); [|done].
    by destruct (load m _ k).
Qed.

Lemma load_take m a n k bs :
  load m a n = Some bs -> (k <= n)%nat -> load m a k = Some (take k bs).
Proof.
  intros H Hk. replace n with (k + (n - k))%nat in H by lia. rewrite load_app in H.
  destruct (load m a k) eqn:E1; [|done].
  destruct (load m (a + Z.of_nat k) (n - k)) eqn:E2; [|done].
  simplify_eq. rewrite take_app_length'; [done|]. symmetry. by eapply load_length.
Qed.

Lemma load_drop m a n k bs :
  load m a n = Some bs -> (k <= n)%nat ->
  load m (a + Z.of_nat k) (n - k) = Some (drop k bs).
Proof.
  intros H Hk. replace n with (k + (n - k))%nat in H by lia. rewrite load_app in H.
  destruct (load m a k) eqn:E1; [|done].
  destruct (load m (a + Z.of_nat k) (n - k)) eqn:E2; [|done].
  simplify_eq. rewrite drop_app_length'; [done|]. symmetry. by eapply load_length.
Qed.

Lemma load_bytes_ok m a n bs : mem_ok m -> load m a n = Some bs -> bytes_ok bs.
Proof.
  intros Hm. revert a bs; induction n as [|n IH]; intros a bs; cbn [load].
  - intros [= <-]. constructor.
  - unfold load1. destruct (m !! a) as [[b|]|] eqn:E; cbn; try done.
    destruct (load m (a + 1) n) eqn:E'; [|done].
    intros [= <-]. constructor; [by eapply Hm | by eapply IH].
Qed.

Lemma load_accessible m a n bs :
  load m a n = Some bs -> accessible m a (Z.of_nat n).
Proof.
  revert a bs; induction n as [|n IH]; intros a bs; cbn [load].
  - intros _ i Hi. lia.
  - unfold load1. destruct (m !! a) as [[b|]|] eqn:E; cbn; try done.
    destruct (load m (a + 1) n) eqn:E'; [|done]. intros [= <-] i Hi.
    destruct (decide (i = a)) as [->|]; [by eexists|]. eapply IH; [done|lia].
Qed.

(** The memory after a store, address by address. *)
Lemma store_lookup m a bs m' i :
  store m a bs = Some m' ->
  m' !! i = if decide (a <= i < a + Z.of_nat (length bs))
            then Some (bs !! Z.to_nat (i - a)) else m !! i.
Proof.
  revert m a; induction bs as [|b bs IH]; intros m a; cbn [store length].
  - intros [= <-]. rewrite decide_False; [done|lia].
  - unfold store1. destruct (m !! a) eqn:E; [|done]. intros H.
    rewrite (IH _ _ H). destruct (decide (i = a)) as [->|].
    + rewrite decide_False by lia. rewrite decide_True by lia.
      rewrite Z.sub_diag, lookup_insert_eq. done.
    + rewrite lookup_insert_ne by done. repeat case_decide; try lia; [|done].
      replace (Z.to_nat (i - a)) with (S (Z.to_nat (i - (a + 1)))) by lia. done.
Qed.

Lemma store_total m a bs :
  accessible m a (Z.of_nat (length bs)) -> exists m', store m a bs = Some m'.
Proof.
  revert m a; induction bs as [|b bs IH]; intros m a H; cbn [store]; [eauto|].
  unfold store1. destruct (H a) as [c Hc]; [cbn; lia|]. rewrite Hc.
  apply IH. intros i Hi. destruct (decide (i = a)) as [->|].
  - rewrite lookup_insert_eq. eauto.
  - rewrite lookup_insert_ne by done. apply H. cbn; lia.
Qed.

Lemma store_accessible m a bs m' :
  store m a bs = Some m' -> accessible m a (Z.of_nat (length bs)).
Proof.
  revert m a; induction bs as [|b bs IH]; intros m a; cbn [store].
  - intros _ i Hi. cbn in Hi; lia.
  - unfold store1. destruct (m !! a) eqn:E; [|done]. intros H i Hi.
    destruct (decide (i = a)) as [->|]; [by eexists|].
    specialize (IH _ _ H i). rewrite lookup_insert_ne in IH by done.
    apply IH. cbn in Hi; lia.
Qed.

Lemma load_store_eq m a bs m' :
  store m a bs = Some m' -> load m' a (length bs) = Some bs.
Proof.
  revert m a; induction bs as [|b bs IH]; intros m a; cbn [store length load]; [done|].
  unfold store1. destruct (m !! a) eqn:E; [|done]. intros H.
  rewrite (IH _ _ H). unfold load1. rewrite (store_lookup _ _ _ _ a H).
  rewrite decide_False by lia. by rewrite lookup_insert_eq.
Qed.

Lemma load_store_disj m a bs m' b n :
  store m a bs = Some m' ->
  b + Z.of_nat n <= a \/ a + Z.of_nat (length bs) <= b ->
  load m' b n = load m b n.
Proof.
  intros H Hd. apply load_ext. intros i Hi. rewrite (store_lookup _ _ _ _ i H).
  rewrite decide_False; [done|lia].
Qed.

Lemma store_dom m a bs m' : store m a bs = Some m' -> dom m' = dom m.
Proof.
  revert m a; induction bs as [|b bs IH]; intros m a; cbn [store].
  - by intros [= <-].
  - unfold store1. destruct (m !! a) eqn:E; [|done]. intros H.
    rewrite (IH _ _ H), dom_insert_L. apply elem_of_dom_2 in E. set_solver.
Qed.

Lemma store_mem_ok m a bs m' :
  mem_ok m -> bytes_ok bs -> store m a bs = Some m' -> mem_ok m'.
Proof.
  intros Hm Hbs Hs i b. rewrite (store_lookup _ _ _ _ i Hs). case_decide; [|apply Hm].
  intros [= Hl]. unfold bytes_ok in Hbs. rewrite Forall_lookup in Hbs. eauto.
Qed.

Lemma store_app m a bs cs :
  store m a (bs ++ cs) =
    match store m a bs with
    | Some m' => store m' (a + Z.of_nat (length bs)) cs
    | None => None
    end.
Proof.
  revert m a; induction bs as [|b bs IH]; intros m a; cbn [store app length].
  - by rewrite Z.add_0_r.
  - destruct (store1 m a b); [|done]. rewrite IH.
    by replace (a + Z.of_nat (S (length bs))) with (a + 1 + Z.of_nat (length bs)) by lia.
Qed.

(** Cells with their contents, set or not: what [memmove] moves. *)
Fixpoint load_cells (m : mem) (a : Z) (n : nat) : option (list (option Z)) :=
  match n with
  | O => Some []
  | S k =>
      match m !! a, load_cells m (a + 1) k with
      | Some c, Some r => Some (c :: r)
      | _, _ => None
      end
  end.
Fixpoint store_cells (m : mem) (a : Z) (cs : list (option Z)) : option mem :=
  match cs with
  | [] => Some m
  | c :: r => match m !! a with Some _ => store_cells (<[a := c]> m) (a + 1) r | None => None end
  end.

Lemma load_cells_load m a n bs : load m a n = Some bs -> load_cells m a n = Some (map Some bs).
Proof.
  revert a bs; induction n as [|n IH]; intros a bs; cbn [load load_cells].
  - by intros [= <-].
  - unfold load1. destruct (m !! a) as [[b|]|]; try done.
    destruct (load m (a + 1) n) as [r|] eqn:E; [|done].
    intros [= <-]. by rewrite (IH _ _ E).
Qed.

Lemma store_cells_store m a bs : store_cells m a (map Some bs) = store m a bs.
Proof.
  revert m a; induction bs as [|b bs IH]; intros m a; cbn [store store_cells map]; [done|].
  unfold store1. destruct (m !! a); [apply IH|done].
Qed.

(** A forward copy between disjoint ranges is a load and a store. *)
Lemma copy_loop_disjoint m dst src n bs :
  load m src n = Some bs ->
  dst + Z.of_nat n <= src \/ src + Z.of_nat n <= dst ->
  copy_loop m dst src n = store m dst bs.
Proof.
  revert m dst src bs; induction n as [|n IH]; intros m dst src bs; cbn [load copy_loop].
  - by intros [= <-].
  - destruct (load1 m src) as [b|] eqn:E1; [|done].
    destruct (load m (src + 1) n) as [r|] eqn:E2; [|done].
    intros [= <-] Hd. cbn [store]. destruct (store1 m dst b) as [m'|] eqn:E3; [|done].
    apply IH; [|lia]. rewrite <- E2. apply load_ext. intros i Hi.
    unfold store1 in E3. destruct (m !! dst); simplify_eq.
    rewrite lookup_insert_ne by lia. done.
Qed.

(** ** The heap of the C library *)

Record world := World {
  w_mem : mem;
  w_blocks : gmap Z Z  (** live blocks: base address to size *)
}.

Definition set_mem (m : mem) (w : world) : world := World m (w_blocks w).

Fixpoint alloc_range (m : mem) (a : Z) (cells : list (option Z)) : mem :=
  match cells with
  | [] => m
  | c :: r => <[a := c]> (alloc_range m (a + 1) r)
  end.

Fixpoint free_range (m : mem) (a : Z) (n : nat) : mem :=
  match n with
  | O => m
  | S k => delete a (free_range m (a + 1) k)
  end.

Fixpoint read_cells (m : mem) (a : Z) (n : nat) : list (option Z) :=
  match n with
  | O => []
  | S k => mjoin (m !! a) :: read_cells m (a + 1) k
  end.

(** What the C library promises of [malloc] and [realloc]: the block it hands
    out is a range of the address space no live object occupies, and no live block
    (even one of no bytes) has the same base.  Which block,
    and whether there is one, is its own choice. *)
Class Allocator := {
  choose : world -> Z -> option Z;
  choose_fresh w size a :
    choose w size = Some a ->
    0 < a /\ a + size <= 2 ^ 64 /\
    (forall i, a <= i < a + size -> w_mem w !! i = None) /\ w_blocks w !! a = None
}.

Inductive res (A : Type) : Type :=
| Ret (a : A)
| UB
| OutOfFuel.
Arguments Ret {A} _.
Arguments UB {A}.
Arguments OutOfFuel {A}.

Definition drop_block (p size : Z) (w : world) : world :=
  World (free_range (w_mem w) p (Z.to_nat size)) (delete p (w_blocks w)).

Definition add_block (a size : Z) (cells : list (option Z)) (w : world) : world :=
  World (alloc_range (w_mem w) a cells) (<[a := size]> (w_blocks w)).

(** [free(p)]: a null pointer is ignored, a pointer that is not the base of a
    live block is undefined behaviour (double free included). *)
Definition c_free (p : Z) (w : world) : res world :=
  if p =? 0 then Ret w
  else match w_blocks w !! p with
       | None => UB
       | Some size => Ret (drop_block p size w)
       end.

(** [realloc(p, size)]: the new block starts with the contents of the old one,
    the rest is indeterminate; on failure the result is null and the old block
    stays. *)
Definition c_realloc `{Allocator} (p size : Z) (w : world) : res (Z * world) :=
  if p =? 0 then
    match choose w size with
    | None => Ret (0, w)
    | Some a => Ret (a, add_block a size (replicate (Z.to_nat size) None) w)
    end
  else
    match w_blocks w !! p with
    | None => UB
    | Some old =>
        let w' := drop_block p old w in
        match choose w' size with
        | None => Ret (0, w)
        | Some a =>
            let keep := read_cells (w_mem w) p (Z.to_nat (Z.min old size)) in
            Ret (a, add_block a size
                      (keep ++ replicate (Z.to_nat (size - old)) None) w')
        end
    end.

(** ** The monad of a C function

    [S] is the stream object the function is passed by reference. *)

Definition M (S A : Type) : Type := S -> world -> res (A * S * world).

Definition ret {S A} (a : A) : M S A := fun s w => Ret (a, s, w).
Definition bind {S A B} (m : M S A) (k : A -> M S B) : M S B :=
  fun s w =>
    match m s w with
    | Ret (a, s', w') => k a s' w'
    | UB => UB
    | OutOfFuel => OutOfFuel
    end.
(** [if (!f(...)) return false;] *)
Definition bindo {S A B} (m : M S (option A)) (k : A -> M S (option B)) :
    M S (option B) :=
  bind m (fun o => match o with Some a => k a | None => ret None end).

Definition ub {S A} : M S A := fun _ _ => UB.
Definition out_of_fuel {S A} : M S A := fun _ _ => OutOfFuel.
Definition get_stream {S} : M S S := fun s w => Ret (s, s, w).
Definition put_stream {S} (s : S) : M S unit := fun _ w => Ret (tt, s, w).
Definition get_mem {S} : M S mem := fun s w => Ret (w_mem w, s, w).
Definition put_mem {S} (m : mem) : M S unit := fun s w => Ret (tt, s, set_mem m w).

(** An access the memory refuses is undefined behaviour. *)
Definition of_option {S A} (o : option A) : M S A :=
  fun s w => match o with Some a => Ret (a, s, w) | None => UB end.

(** Runs [m] on another stream object, in the same world. *)
Definition on_stream {S T A} (t : T) (m : M T A) : M S (A * T) :=
  fun s w =>
    match m t w with
    | Ret (a, t', w') => Ret ((a, t'), s, w')
    | UB => UB
    | OutOfFuel => OutOfFuel
    end.

Definition m_free {S} (p : Z) : M S unit :=
  fun s w =>
    match c_free p w with
    | Ret w' => Ret (tt, s, w')
    | UB => UB
    | OutOfFuel => OutOfFuel
    end.

Definition m_realloc `{Allocator} {S} (p size : Z) : M S Z :=
  fun s w =>
    match c_realloc p size w with
    | Ret (a, w') => Ret (a, s, w')
    | UB => UB
    | OutOfFuel => OutOfFuel
    end.

Declare Scope c_scope.
Delimit Scope c_scope with c.
Bind Scope c_scope with M.
Notation "x <- m ;; k" := (bind m (fun x => k))
  (at level 100, m at next level, right associativity) : c_scope.
Notation "m ;; k" := (bind m (fun _ => k)) (at level 100, right associativity) : c_scope.
Notation "x <-? m ;; k" := (bindo m (fun x => k))
  (at level 100, m at next level, right associativity) : c_scope.
Notation "'must' m ;; k" := (bindo m (fun _ => k))
  (at level 100, m at next level, right associativity) : c_scope.
Local Open Scope c_scope.

(** A C function that returns [true] with nothing else, and [false]. *)
Definition return_true {S} : M S (option unit) := ret (Some tt).
Definition return_false {S A} : M S (option A) := ret None.

Definition load_bytes {S} (a : Z) (n : Z) : M S bytes :=
  m <- get_mem ;; of_option (load m a (Z.to_nat n)).
Definition store_bytes {S} (a : Z) (bs : bytes) : M S unit :=
  m <- get_mem ;; m' <- of_option (store m a bs) ;; put_mem m'.
(** [*(uintN_t* )a] for an [n]-byte type. *)
Definition load_u {S} (n : nat) (a : Z) : M S Z :=
  bs <- load_bytes a (Z.of_nat n) ;; ret (le_val bs).
Definition load_s {S} (n : nat) (a : Z) : M S Z :=
  v <- load_u n a ;; ret (swrap (8 * Z.of_nat n) v).
Definition store_u {S} (n : nat) (a v : Z) : M S unit := store_bytes a (le_bytes n v).
(** Pointers are 64 bits wide. *)
Definition load_ptr {S} (a : Z) : M S Z := load_u 8 a.
Definition store_ptr {S} (a p : Z) : M S unit := store_u 8 a p.
(** [memset(a, b, n)] and [memcpy(dst, src, n)]. *)
Definition c_memset {S} (a b n : Z) : M S unit :=
  store_bytes a (replicate (Z.to_nat n) b).
Definition c_memcpy {S} (dst src n : Z) : M S unit :=
  bs <- load_bytes src n ;; store_bytes dst bs.

(** [memmove(dst, src, n)]: the ranges may overlap. *)
Definition c_memmove {S} (dst src n : Z) : M S unit :=
  m <- get_mem ;;
  cs <- of_option (load_cells m src (Z.to_nat n)) ;;
  m' <- of_option (store_cells m dst cs) ;; put_mem m'.

(** ** Reasoning about the monad

    [spec U F m Q s w]: run from stream [s] and world [w], [m] returns with
    [Q], or has undefined behaviour and [U], or runs out of fuel and [F]. *)
Section spec.
Context {S : Type} (U F : Prop).

Definition spec {A} (m : M S A) (Q : A -> S -> world -> Prop) (s : S) (w : world) : Prop :=
  match m s w with
  | Ret (a, s', w') => Q a s' w'
  | UB => U
  | OutOfFuel => F
  end.

Lemma spec_ret {A} (a : A) (Q : A -> S -> world -> Prop) s w : Q a s w -> spec (ret a) Q s w.
Proof. done. Qed.

Lemma spec_bind {A B} (m : M S A) (k : A -> M S B) Q s w :
  spec m (fun a => spec (k a) Q) s w -> spec (bind m k) Q s w.
Proof. unfold spec, bind. by destruct (m s w) as [[[??]?]| |]. Qed.

Lemma spec_bindo {A B} (m : M S (option A)) (k : A -> M S (option B)) Q s w :
  spec m (fun o => match o with Some a => spec (k a) Q | None => Q None end) s w ->
  spec (bindo m k) Q s w.
Proof.
  intros H. apply spec_bind. revert H. unfold spec.
  by destruct (m s w) as [[[[a|]?]?]| |].
Qed.

Lemma spec_mono {A} (m : M S A) (Q Q' : A -> S -> world -> Prop) s w :
  spec m Q s w -> (forall a s' w', Q a s' w' -> Q' a s' w') -> spec m Q' s w.
Proof. unfold spec. destruct (m s w) as [[[??]?]| |]; auto. Qed.

(** The equation of a computation gives its specification and back. *)
Lemma spec_run {A} (m : M S A) (Q : A -> S -> world -> Prop) s w a s' w' :
  spec m Q s w -> m s w = Ret (a, s', w') -> Q a s' w'.
Proof. unfold spec. intros H E. by rewrite E in H. Qed.

Lemma spec_get_stream (Q : S -> S -> world -> Prop) s w :
  Q s s w -> spec get_stream Q s w.
Proof. done. Qed.
Lemma spec_put_stream t (Q : unit -> S -> world -> Prop) s w :
  Q tt t w -> spec (put_stream t) Q s w.
Proof. done. Qed.
Lemma spec_get_mem (Q : mem -> S -> world -> Prop) s w :
  Q (w_mem w) s w -> spec get_mem Q s w.
Proof. done. Qed.
Lemma spec_put_mem m (Q : unit -> S -> world -> Prop) s w :
  Q tt s (set_mem m w) -> spec (put_mem m) Q s w.
Proof. done. Qed.
Lemma spec_of_option {A} (o : option A) (Q : A -> S -> world -> Prop) s w :
  (forall a, o = Some a -> Q a s w) -> (o = None -> U) -> spec (of_option o) Q s w.
Proof. unfold spec, of_option. destruct o; auto. Qed.
Lemma spec_out_of_fuel {A} (Q : A -> S -> world -> Prop) s w : F -> spec out_of_fuel Q s w.
Proof. done. Qed.
Lemma spec_ub {A} (Q : A -> S -> world -> Prop) s w : U -> spec ub Q s w.
Proof. done. Qed.
End spec.

Lemma spec_on_stream {S T A} U F (t : T) (m : M T A)
    (Q : A * T -> S -> world -> Prop) s w :
  spec U F m (fun a t' w' => Q (a, t') s w') t w -> spec U F (on_stream t m) Q s w.
Proof. unfold spec, on_stream. by destruct (m t w) as [[[??]?]| |]. Qed.

(** A step of a computation whose run is known. *)
Lemma bind_ret_run {S A B} (m : M S A) (k : A -> M S B) s w a s' w' :
  m s w = Ret (a, s', w') -> bind m k s w = k a s' w'.
Proof. unfold bind. by intros ->. Qed.
Lemma bindo_some_run {S A B} (m : M S (option A)) (k : A -> M S (option B)) s w a s' w' :
  m s w = Ret (Some a, s', w') -> bindo m k s w = k a s' w'.
Proof. unfold bindo, bind. by intros ->. Qed.
Lemma bindo_none_run {S A B} (m : M S (option A)) (k : A -> M S (option B)) s w s' w' :
  m s w = Ret (None, s', w') -> bindo m k s w = Ret (None, s', w').
Proof. unfold bindo, bind. by intros ->. Qed.
Lemma on_stream_run {S T A} (t : T) (m : M T A) (s : S) w a t' w' :
  m t w = Ret (a, t', w') -> on_stream t m s w = Ret ((a, t'), s, w').
Proof. unfold on_stream. by intros ->. Qed.

Lemma load_bytes_run {S} a n bs (s : S) w :
  load (w_mem w) a (Z.to_nat n) = Some bs -> load_bytes a n s w = Ret (bs, s, w).
Proof. unfold load_bytes, bind, get_mem, of_option. by intros ->. Qed.
Lemma store_bytes_run {S} a bs m' (s : S) w :
  store (w_mem w) a bs = Some m' -> store_bytes a bs s w = Ret (tt, s, set_mem m' w).
Proof. unfold store_bytes, bind, get_mem, of_option, put_mem. by intros ->. Qed.
Lemma c_memmove_run {S} dst src n bs m' (s : S) w :
  load (w_mem w) src (Z.to_nat n) = Some bs -> store (w_mem w) dst bs = Some m' ->
  c_memmove dst src n s w = Ret (tt, s, set_mem m' w).
Proof.
  intros H1 H2. unfold c_memmove, bind, get_mem, of_option, put_mem.
  by rewrite (load_cells_load _ _ _ _ H1), store_cells_store, H2.
Qed.
Lemma load_u_run {S} n a bs (s : S) w :
  load (w_mem w) a n = Some bs -> load_u n a s w = Ret (le_val bs, s, w).
Proof.
  intros H. unfold load_u. erewrite bind_ret_run; [done|].
  apply load_bytes_run. by rewrite Nat2Z.id.
Qed.

#[global] Arguments load_bytes : simpl never.
#[global] Arguments store_bytes : simpl never.
#[global] Arguments load_u : simpl never.
#[global] Arguments load_s : simpl never.
#[global] Arguments store_u : simpl never.
#[global] Arguments load : simpl nomatch.
#[global] Arguments store : simpl nomatch.

(** ** The heap: what [realloc] keeps

    Lemmas on the block operations of [CMem]: a reallocated block starts with the
    bytes of the old one and everything outside the two blocks is as it was. *)

Lemma alloc_range_lookup m a cells i :
  alloc_range m a cells !! i =
    if decide (a <= i < a + Z.of_nat (length cells)) then cells !! Z.to_nat (i - a) else m !! i.
Proof.
  revert a; induction cells as [|c r IH]; intros a; cbn [alloc_range length].
  - by rewrite decide_False by lia.
  - destruct (decide (i = a)) as [->|Hn].
    + rewrite lookup_insert_eq, decide_True by lia. by rewrite Z.sub_diag.
    + rewrite lookup_insert_ne, IH by done. repeat case_decide; try lia; [|done].
      by replace (Z.to_nat (i - a)) with (S (Z.to_nat (i - (a + 1)))) by lia.
Qed.

Lemma free_range_lookup m a n i :
  free_range m a n !! i = if decide (a <= i < a + Z.of_nat n) then None else m !! i.
Proof.
  revert a; induction n as [|n IH]; intros a; cbn [free_range].
  - by rewrite decide_False by lia.
  - destruct (decide (i = a)) as [->|Hn].
    + rewrite lookup_delete_eq, decide_True by lia. done.
    + rewrite lookup_delete_ne, IH by done. repeat case_decide; try lia; done.
Qed.

Lemma length_read_cells m a n : length (read_cells m a n) = n.
Proof. revert a; induction n; intros; cbn; auto. Qed.

Lemma read_cells_lookup m a n i :
  (i < n)%nat -> read_cells m a n !! i = Some (mjoin (m !! (a + Z.of_nat i))).
Proof.
  revert a i; induction n as [|n IH]; intros a i Hi; [lia|]. cbn [read_cells].
  destruct i as [|i]; cbn [lookup list_lookup]; [by rewrite Z.add_0_r|].
  etrans; [apply IH; lia|]. do 3 f_equal. lia.
Qed.

Lemma load_S m a n :
  load m a (S n) =
    match load1 m a, load m (a + 1) n with
    | Some b, Some r => Some (b :: r)
    | _, _ => None
    end.
Proof. cbv delta [load]. cbn. by destruct (load1 m a). Qed.

(** Loading is looking up each address. *)
Lemma load_lookup m a n bs :
  load m a n = Some bs ->
  length bs = n /\ forall i b, bs !! i = Some b -> m !! (a + Z.of_nat i) = Some (Some b).
Proof.
  intros Hl. split; [by eapply load_length|]. revert a bs Hl.
  induction n as [|n IH]; intros a bs.
  - intros [= <-] i b Hi. done.
  - rewrite load_S. unfold load1. destruct (m !! a) as [[x|]|] eqn:E; try done.
    destruct (load m (a + 1) n) as [r|] eqn:Er; [|done].
    intros [= <-] [|i] b Hi; cbn in Hi.
    + injection Hi as <-. by rewrite Z.add_0_r.
    + rewrite <- (IH _ _ Er i b Hi). f_equal. lia.
Qed.

Lemma lookup_load m a bs :
  (forall i b, bs !! i = Some b -> m !! (a + Z.of_nat i) = Some (Some b)) ->
  load m a (length bs) = Some bs.
Proof.
  revert a; induction bs as [|b bs IH]; intros a H; cbn [length]; [done|].
  rewrite load_S. unfold load1. pose proof (H 0%nat b eq_refl) as H0. rewrite Z.add_0_r in H0.
  rewrite H0. cbn [mjoin option_join]. rewrite IH; [done|].
  intros i c Hi. rewrite <- (H (S i) c Hi). f_equal. lia.
Qed.

(** [x] is outside the [n] bytes at [a]. *)
Definition outside (a n x : Z) : Prop := ~ (a <= x < a + n).

Section realloc.
Context `{Allocator}.

(** A null pointer stands for an empty block. *)
Definition block (p size : Z) (w : world) : Prop :=
  (p = 0 /\ size = 0) \/ (0 < p /\ w_blocks w !! p = Some size).

Lemma realloc_spec p old size w bs :
  block p old w -> 0 <= old <= size -> Z.of_nat (length bs) <= old ->
  load (w_mem w) p (length bs) = Some bs ->
  exists a w', c_realloc p size w = Ret (a, w') /\
    (a = 0 -> w' = w) /\
    (a <> 0 ->
       0 < a /\ a + size <= 2 ^ 64 /\ load (w_mem w') a (length bs) = Some bs /\
       accessible (w_mem w') a size /\ w_blocks w' !! a = Some size /\
       (forall x, outside p old x -> w_mem w !! x <> None ->
          outside a size x /\ w_mem w' !! x = w_mem w !! x) /\
       (forall q n, q <> p -> w_blocks w !! q = Some n -> q <> a /\ w_blocks w' !! q = Some n)).
Proof.
  intros Hblk Hs Hbs Hl. unfold c_realloc. destruct (Z.eqb_spec p 0) as [->|Hp].
  - assert (old = 0) as -> by (destruct Hblk; lia).
    destruct bs as [|]; [|cbn in Hbs; lia].
    destruct (choose w size) as [a|] eqn:E; [|by exists 0, w].
    destruct (choose_fresh _ _ _ E) as (Ha & Hae & Hfr & Hbf).
    eexists _, _. split; [done|]. split; [lia|]. intros _.
    split; [done|]. split; [done|]. split; [done|]. cbn.
    split; [|split; [|split]].
    + intros i Hi. rewrite alloc_range_lookup, length_replicate, decide_True by lia.
      rewrite lookup_replicate_2 by lia. eauto.
    + apply lookup_insert_eq.
    + intros x _ Hx. assert (outside a size x) as Ho.
      { intros Hi. by rewrite Hfr in Hx. }
      split; [done|]. rewrite alloc_range_lookup, length_replicate, decide_False; [done|].
      unfold outside in Ho. lia.
    + intros q n Hq Hqb. assert (q <> a) by congruence. split; [done|].
      by rewrite lookup_insert_ne.
  - destruct Hblk as [[? _]|[Hp0 Hb]]; [done|]. rewrite Hb.
    destruct (choose (drop_block p old w) size) as [a|] eqn:E; [|by exists 0, w].
    destruct (choose_fresh _ _ _ E) as (Ha & Hae & Hfr & Hbf). cbn in Hfr, Hbf.
    eexists _, _. split; [done|]. split; [lia|]. intros _.
    rewrite Z.min_l by lia. set (cells := read_cells (w_mem w) p (Z.to_nat old) ++ _).
    assert (Z.of_nat (length cells) = size) as Hc.
    { unfold cells. rewrite length_app, length_read_cells, length_replicate. lia. }
    assert (forall i, (i < length cells)%nat -> exists c, cells !! i = Some c) as Hcl
      by (intros i Hi; by apply lookup_lt_is_Some_2).
    split; [done|]. split; [done|]. cbn. split; [|split; [|split; [|split]]].
    + apply lookup_load. intros i b Hi. pose proof (lookup_lt_Some _ _ _ Hi) as Hlt.
      rewrite alloc_range_lookup, decide_True by lia.
      replace (Z.to_nat (a + Z.of_nat i - a)) with i by lia.
      unfold cells. rewrite lookup_app_l by (rewrite length_read_cells; lia).
      rewrite read_cells_lookup by lia. destruct (load_lookup _ _ _ _ Hl) as [_ Hm].
      by rewrite (Hm i b Hi).
    + intros i Hi. rewrite alloc_range_lookup, decide_True by lia. apply Hcl. lia.
    + apply lookup_insert_eq.
    + intros x Ho Hx. assert (free_range (w_mem w) p (Z.to_nat old) !! x = w_mem w !! x) as Ef.
      { rewrite free_range_lookup, decide_False; [done|]. unfold outside in Ho. lia. }
      assert (outside a size x) as Ho2.
      { intros Hi. apply Hx. rewrite <- Ef. by apply Hfr. }
      split; [done|]. rewrite alloc_range_lookup, decide_False; [done|].
      unfold outside in Ho2. lia.
    + intros q n Hq Hqb. assert (q <> a) as Hqa.
      { intros ->. rewrite lookup_delete_ne in Hbf by done. congruence. }
      split; [done|]. by rewrite lookup_insert_ne, lookup_delete_ne.
Qed.

End realloc.

(** Storing changes nothing outside. *)
Lemma store_outside m a bs m' x :
  store m a bs = Some m' -> outside a (Z.of_nat (length bs)) x -> m' !! x = m !! x.
Proof.
  intros H Ho. rewrite (store_lookup _ _ _ _ x H). by rewrite decide_False.
Qed.

Lemma store_mapped m a bs m' x : store m a bs = Some m' -> m !! x <> None -> m' !! x <> None.
Proof.
  intros H Hx. apply store_dom in H. rewrite <- not_elem_of_dom, H, not_elem_of_dom. done.
Qed.

Lemma store_access m a bs m' b n :
  store m a bs = Some m' -> accessible m b n -> accessible m' b n.
Proof.
  intros H Hacc i Hi. rewrite <- elem_of_dom, (store_dom _ _ _ _ H), elem_of_dom. by apply Hacc.
Qed.

Lemma accessible_sub m a n b k :
  accessible m a n -> a <= b -> b + k <= a + n -> accessible m b k.
Proof. intros H H1 H2 i Hi. apply H. lia. Qed.

(** Appending to what is loaded. *)
Lemma load_store_append m a xs ys m' :
  load m a (length xs) = Some xs -> store m (a + Z.of_nat (length xs)) ys = Some m' ->
  load m' a (length (xs ++ ys)) = Some (xs ++ ys).
Proof.
  intros Hl Hs. rewrite length_app, load_app.
  rewrite (load_store_disj _ _ _ _ a (length xs) Hs) by lia. rewrite Hl.
  by rewrite (load_store_eq _ _ _ _ Hs).
Qed.
