(* ===== verification/Cells.v ===== *)
(** * Arrays of one object

    The containers below own the arrays they work on, so such an array is a list
    of cells rather than a range of the memory of CMem.v; a cell is [None] while
    it is indeterminate.  Reading an indeterminate cell and leaving the array are
    undefined behaviour. *)
From Stdlib Require Import ZArith Lia.
From stdpp Require Import prelude list numbers.
From S2P Require Import Prelude CMem.
Local Open Scope Z_scope.

Definition rbind {A B} (m : res A) (k : A -> res B) : res B :=
  match m with
  | Ret a => k a
  | UB => UB
  | OutOfFuel => OutOfFuel
  end.
Declare Scope res_scope.
Delimit Scope res_scope with res.
Notation "x <- m ;; k" := (rbind m (fun x => k))
  (at level 100, m at next level, right associativity) : res_scope.
Local Open Scope res_scope.

(** [assert(b)] *)
Definition c_assert (b : bool) : res unit := if b then Ret tt else UB.

(** The answer of an allocator that may fail. *)
Definition alloc_cells (ok : bool) (n : Z) : option (list (option Z)) :=
  if ok then Some (replicate (Z.to_nat n) None) else None.

Section cells.
Context {A : Type}.
Implicit Types d : list (option A).

(** [d[i]] and [d[i] = v] *)
Definition rd d (i : Z) : res A :=
  if i <? 0 then UB
  else match d !! Z.to_nat i with Some (Some v) => Ret v | _ => UB end.
Definition wr d (i : Z) (v : A) : res (list (option A)) :=
  if (i <? 0) || (Z.of_nat (length d) <=? i) then UB else Ret (<[Z.to_nat i := Some v]> d).

(** [n] cells from [i] on, and storing cells from [i] on. *)
Definition in_cells d (i n : Z) : bool :=
  (0 <=? i) && (0 <=? n) && (i + n <=? Z.of_nat (length d)).
Definition slice d (i n : Z) : res (list (option A)) :=
  if in_cells d i n then Ret (take (Z.to_nat n) (drop (Z.to_nat i) d)) else UB.
Definition splice d (i : Z) (cs : list (option A)) : res (list (option A)) :=
  if in_cells d i (Z.of_nat (length cs))
  then Ret (take (Z.to_nat i) d ++ cs ++ drop (Z.to_nat i + length cs) d) else UB.

(** [memmove(&d[dst], &d[src], n)], counted in elements. *)
Definition cmove d (dst src n : Z) : res (list (option A)) :=
  cs <- slice d src n ;; splice d dst cs.

(** [realloc] to [n] elements: what fits is kept, the rest is indeterminate. *)
Definition cresize d (n : Z) : list (option A) :=
  take (Z.to_nat n) d ++ replicate (Z.to_nat n - length d) None.

(** ** What a prefix of initialised cells holds *)

(** [d] starts with the values [l]. *)
Definition holds d (l : list A) : Prop := exists rest, d = (Some <$> l) ++ rest.

Lemma holds_length d l : holds d l -> (length l <= length d)%nat.
Proof. intros [r ->]. rewrite length_app, length_fmap. lia. Qed.

Lemma rd_lookup d l i v :
  holds d l -> l !! Z.to_nat i = Some v -> 0 <= i -> rd d i = Ret v.
Proof.
  intros [r ->] Hv Hi. unfold rd. rewrite (proj2 (Z.ltb_ge _ _)) by lia.
  rewrite lookup_app_l by (rewrite length_fmap; by eapply lookup_lt_Some).
  by rewrite list_lookup_fmap, Hv.
Qed.
Lemma rd_holds `{Inhabited A} d l i :
  holds d l -> 0 <= i < Z.of_nat (length l) -> rd d i = Ret (l !!! Z.to_nat i).
Proof. intros Hd Hi. eapply rd_lookup; [done| |lia]. apply list_lookup_lookup_total_lt. lia. Qed.

Lemma wr_holds d l i v :
  holds d l -> 0 <= i < Z.of_nat (length l) ->
  exists d', wr d i v = Ret d' /\ holds d' (<[Z.to_nat i := v]> l) /\ length d' = length d.
Proof.
  intros Hd Hi. pose proof (holds_length _ _ Hd) as Hl. unfold wr.
  rewrite (proj2 (Z.ltb_ge _ _)), (proj2 (Z.leb_gt _ _)) by lia. eexists. split; [done|].
  rewrite length_insert. split; [|done]. destruct Hd as [r ->]. exists r.
  rewrite insert_app_l by (rewrite length_fmap; lia). by rewrite list_fmap_insert.
Qed.
Lemma wr_snoc d l v :
  holds d l -> (length l < length d)%nat ->
  exists d', wr d (Z.of_nat (length l)) v = Ret d' /\ holds d' (l ++ [v]) /\ length d' = length d.
Proof.
  intros [r ->] Hl. rewrite length_app, length_fmap in Hl. unfold wr.
  rewrite (proj2 (Z.ltb_ge _ _)), (proj2 (Z.leb_gt _ _)); [|rewrite length_app, length_fmap; lia|lia].
  eexists. split; [done|]. rewrite length_insert. split; [|done]. rewrite Nat2Z.id.
  destruct r as [|c r]; [cbn in Hl; lia|]. exists r.
  rewrite insert_app_r_alt by (rewrite length_fmap; lia).
  rewrite length_fmap, Nat.sub_diag, fmap_app. cbn. by rewrite <- app_assoc.
Qed.

Lemma holds_take d l n : holds d l -> holds d (take n l).
Proof.
  intros [r ->]. exists ((Some <$> drop n l) ++ r).
  by rewrite app_assoc, <- fmap_app, take_drop.
Qed.
Lemma holds_resize d l n :
  holds d l -> Z.of_nat (length l) <= n -> holds (cresize d n) l /\ length (cresize d n) = Z.to_nat n.
Proof.
  intros [r ->] Hn. unfold cresize. split.
  2: { rewrite !length_app, length_take, length_replicate, length_app, length_fmap. lia. }
  rewrite take_app_ge by (rewrite length_fmap; lia). rewrite <- app_assoc. by eexists.
Qed.

Lemma slice_holds d l i n :
  holds d l -> 0 <= i -> 0 <= n -> i + n <= Z.of_nat (length l) ->
  slice d i n = Ret (Some <$> take (Z.to_nat n) (drop (Z.to_nat i) l)).
Proof.
  intros Hd Hi Hn Hl. pose proof (holds_length _ _ Hd). unfold slice, in_cells.
  rewrite !(proj2 (Z.leb_le _ _)) by lia. cbn [andb]. f_equal. destruct Hd as [r ->].
  rewrite drop_app_le by (rewrite length_fmap; lia).
  rewrite take_app_le by (rewrite length_drop, length_fmap; lia).
  by rewrite fmap_take, fmap_drop.
Qed.
Lemma splice_holds d l i cs :
  holds d l -> 0 <= i <= Z.of_nat (length l) ->
  i + Z.of_nat (length cs) <= Z.of_nat (length d) ->
  exists d', splice d i (Some <$> cs) = Ret d' /\ length d' = length d /\
    holds d' (take (Z.to_nat i) l ++ cs ++ drop (Z.to_nat i + length cs) l).
Proof.
  intros Hd Hi Hl. pose proof (holds_length _ _ Hd) as Hle. unfold splice, in_cells.
  rewrite length_fmap, !(proj2 (Z.leb_le _ _)) by lia. cbn [andb]. eexists. split; [done|].
  split; [rewrite !length_app, length_take, length_drop, length_fmap; lia|].
  destruct Hd as [r ->]. rewrite take_app_le by (rewrite length_fmap; lia).
  destruct (le_lt_dec (Z.to_nat i + length cs) (length l)).
  - rewrite drop_app_le by (rewrite length_fmap; lia). exists r.
    by rewrite !fmap_app, fmap_take, fmap_drop, <- !app_assoc.
  - rewrite drop_app_ge by (rewrite length_fmap; lia).
    rewrite (drop_ge l), app_nil_r by lia. eexists.
    by rewrite fmap_app, fmap_take, <- app_assoc.
Qed.

Lemma holds_app_l d l1 l2 : holds d (l1 ++ l2) -> holds d l1.
Proof. intros Hd. rewrite <- (take_app_length l1 l2). by apply holds_take. Qed.

(** Moving up and storing inserts, moving down deletes. *)
Lemma cmove_insert d l i v :
  holds d l -> 0 <= i <= Z.of_nat (length l) -> (length l < length d)%nat ->
  exists d' d'', cmove d (i + 1) i (Z.of_nat (length l) - i) = Ret d' /\ wr d' i v = Ret d'' /\
    holds d'' (take (Z.to_nat i) l ++ v :: drop (Z.to_nat i) l) /\ length d'' = length d.
Proof.
  intros Hd Hi Hl. unfold cmove. rewrite (slice_holds d l) by (done || lia). cbn [rbind].
  rewrite take_ge by (rewrite length_drop; lia).
  destruct (decide (i = Z.of_nat (length l))) as [->|Hn].
  - rewrite Nat2Z.id, drop_ge by lia. unfold splice, in_cells. cbn [fmap list_fmap length app].
    rewrite !(proj2 (Z.leb_le _ _)) by lia. cbn [andb]. rewrite Nat.add_0_r, take_drop.
    eexists. destruct (wr_snoc d l v Hd Hl) as (d' & E & H1 & H2). exists d'.
    by rewrite take_ge by lia.
  - destruct (splice_holds d l (i + 1) (drop (Z.to_nat i) l)) as (d' & E & H1 & H2);
      [done|lia|rewrite length_drop; lia|].
    rewrite E. exists d'.
    destruct (wr_holds d' _ i v H2) as (d'' & E2 & H3 & H4);
      [rewrite !length_app, length_take, length_drop; lia|].
    exists d''. split; [done|]. split; [done|]. split; [|congruence].
    replace (Z.to_nat (i + 1)) with (S (Z.to_nat i)) in H3 by lia.
    rewrite (drop_ge l (_ + _)), app_nil_r in H3 by (rewrite length_drop; lia).
    destruct (lookup_lt_is_Some_2 l (Z.to_nat i)) as [x Hx]; [lia|].
    rewrite (take_S_r l _ x Hx), <- app_assoc in H3.
    rewrite insert_app_r_alt in H3 by (rewrite length_take; lia).
    rewrite length_take, Nat.min_l, Nat.sub_diag in H3 by lia. done.
Qed.

Lemma cmove_delete d l i :
  holds d l -> 0 <= i < Z.of_nat (length l) ->
  exists d', cmove d i (i + 1) (Z.of_nat (length l) - i - 1) = Ret d' /\
    holds d' (take (Z.to_nat i) l ++ drop (S (Z.to_nat i)) l) /\ length d' = length d.
Proof.
  intros Hd Hi. pose proof (holds_length _ _ Hd). unfold cmove.
  rewrite (slice_holds d l) by (done || lia). cbn [rbind].
  replace (Z.to_nat (i + 1)) with (S (Z.to_nat i)) by lia.
  rewrite take_ge by (rewrite length_drop; lia).
  destruct (splice_holds d l i (drop (S (Z.to_nat i)) l)) as (d' & E & H1 & H2);
    [done|lia|rewrite length_drop; lia|].
  exists d'. split; [done|]. split; [|done]. rewrite app_assoc in H2. by eapply holds_app_l.
Qed.

End cells.
