(* ===== verification/Stack.v ===== *)
(** * BoringSSL: stacks (crypto/stack/stack.c)

    A stack is an array of pointers with room to grow, a comparison function and a
    flag that says whether the array is sorted.  Pointers are [Z], null is 0, and a
    stack pointer that may be null is an [option].  The functions the user passes
    ([call_cmp_func] and the others, with the function they call) are the fields of
    [StackEnv]; those with effects work on a state [usr] of the user.  Allocation
    failure is a boolean per request: [true] when the allocator has memory. *)
From Stdlib Require Import ZArith Lia.
From stdpp Require Import prelude list numbers.
From S2P Require Import Prelude CMem Cells.
Local Open Scope Z_scope.
Local Open Scope res_scope.

Record stack := Stack {
  st_num : Z;
  st_data : list (option Z);
  st_sorted : bool;
  st_num_alloc : Z;
  st_comp : Z
}.

Class StackEnv := {
  usr : Type;
  call_cmp : Z -> Z -> Z -> Z;               (** the function, two elements *)
  call_free : Z -> Z -> usr -> usr;
  call_delete_if : Z -> Z -> Z -> usr -> bool * usr;   (** the function, element, data *)
  call_copy : Z -> Z -> usr -> Z * usr
}.

Definition kMinSize : Z := 4.
Definition INT_MAX : Z := 2 ^ 31 - 1.

Definition set_data (d : list (option Z)) (s : stack) : stack :=
  Stack (st_num s) d (st_sorted s) (st_num_alloc s) (st_comp s).
Definition set_num (n : Z) (s : stack) : stack :=
  Stack n (st_data s) (st_sorted s) (st_num_alloc s) (st_comp s).
Definition set_sorted (b : bool) (s : stack) : stack :=
  Stack (st_num s) (st_data s) b (st_num_alloc s) (st_comp s).

Section stack.
Context `{StackEnv}.

Definition OPENSSL_sk_new (comp : Z) (ok_struct ok_data : bool) : option stack :=
  if ok_struct && ok_data
  then Some (Stack 0 (replicate (Z.to_nat kMinSize) (Some 0)) false kMinSize comp)
  else None.
Definition OPENSSL_sk_new_null (ok_struct ok_data : bool) : option stack :=
  OPENSSL_sk_new 0 ok_struct ok_data.

Definition OPENSSL_sk_num (sk : option stack) : Z :=
  match sk with None => 0 | Some s => st_num s end.

Definition OPENSSL_sk_zero (sk : option stack) : res (option stack) :=
  match sk with
  | None => Ret sk
  | Some s =>
      if st_num s =? 0 then Ret sk
      else
        d <- splice (st_data s) 0 (replicate (Z.to_nat (st_num s)) (Some 0)) ;;
        Ret (Some (Stack 0 d false (st_num_alloc s) (st_comp s)))
  end.

Definition OPENSSL_sk_value (sk : option stack) (i : Z) : res Z :=
  match sk with
  | None => Ret 0
  | Some s => if st_num s <=? i then Ret 0 else rd (st_data s) i
  end.

Definition OPENSSL_sk_set (sk : option stack) (i value : Z) : res (Z * option stack) :=
  match sk with
  | None => Ret (0, sk)
  | Some s =>
      if st_num s <=? i then Ret (0, sk)
      else d <- wr (st_data s) i value ;; Ret (value, Some (set_data d s))
  end.

Fixpoint pop_free_loop (n : nat) (i : Z) (d : list (option Z)) (func : Z) (u : usr) : res usr :=
  match n with
  | O => Ret u
  | S k =>
      p <- rd d i ;;
      pop_free_loop k (i + 1) d func (if negb (p =? 0) then call_free func p u else u)
  end.
(** The stack is gone afterwards, what is left is the user's state. *)
Definition OPENSSL_sk_pop_free_ex (sk : option stack) (func : Z) (u : usr) : res usr :=
  match sk with
  | None => Ret u
  | Some s => pop_free_loop (Z.to_nat (st_num s)) 0 (st_data s) func u
  end.

(** Room for one more element. *)
Definition grow (s : stack) (ok : bool) : option stack :=
  if st_num_alloc s <=? u64 (st_num s + 1) then
    let new_alloc := u64 (Z.shiftl (st_num_alloc s) 1) in
    let alloc_size := u64 (new_alloc * 8) in
    let '(new_alloc, alloc_size) :=
      if (new_alloc <? st_num_alloc s) || negb (alloc_size / 8 =? new_alloc)
      then let new_alloc := u64 (st_num_alloc s + 1) in (new_alloc, u64 (new_alloc * 8))
      else (new_alloc, alloc_size) in
    if (new_alloc <? st_num_alloc s) || negb (alloc_size / 8 =? new_alloc) then None
    else if ok then
      Some (Stack (st_num s) (cresize (st_data s) new_alloc) (st_sorted s) new_alloc (st_comp s))
    else None
  else Some s.

Definition OPENSSL_sk_insert (sk : option stack) (p where_ : Z) (ok : bool) :
    res (Z * option stack) :=
  match sk with
  | None => Ret (0, sk)
  | Some s =>
      if INT_MAX <=? st_num s then Ret (0, sk)
      else
        match grow s ok with
        | None => Ret (0, sk)
        | Some s =>
            d <- (if st_num s <=? where_ then wr (st_data s) (st_num s) p
                  else
                    d <- cmove (st_data s) (where_ + 1) where_ (st_num s - where_) ;;
                    wr d where_ p) ;;
            let num := u64 (st_num s + 1) in
            Ret (num, Some (Stack num d false (st_num_alloc s) (st_comp s)))
        end
  end.

Definition OPENSSL_sk_delete (sk : option stack) (where_ : Z) : res (Z * option stack) :=
  match sk with
  | None => Ret (0, sk)
  | Some s =>
      if st_num s <=? where_ then Ret (0, sk)
      else
        ret <- rd (st_data s) where_ ;;
        d <- (if negb (where_ =? u64 (st_num s - 1))
              then cmove (st_data s) where_ (where_ + 1) (st_num s - where_ - 1)
              else Ret (st_data s)) ;;
        Ret (ret, Some (set_num (u64 (st_num s - 1)) (set_data d s)))
  end.

(** The index of the first element equal to [p], from [i] on. *)
Fixpoint ptr_loop (n : nat) (i : Z) (d : list (option Z)) (p : Z) : res (option Z) :=
  match n with
  | O => Ret None
  | S k => q <- rd d i ;; if q =? p then Ret (Some i) else ptr_loop k (i + 1) d p
  end.

Definition OPENSSL_sk_delete_ptr (sk : option stack) (p : Z) : res (Z * option stack) :=
  match sk with
  | None => Ret (0, sk)
  | Some s =>
      o <- ptr_loop (Z.to_nat (st_num s)) 0 (st_data s) p ;;
      match o with
      | Some i => OPENSSL_sk_delete sk i
      | None => Ret (0, sk)
      end
  end.

Fixpoint delete_if_loop (n : nat) (i new_num : Z) (d : list (option Z)) (func data : Z)
    (u : usr) : res (Z * list (option Z) * usr) :=
  match n with
  | O => Ret (new_num, d, u)
  | S k =>
      p <- rd d i ;;
      let '(b, u) := call_delete_if func p data u in
      if b : bool then delete_if_loop k (i + 1) new_num d func data u
      else d <- wr d new_num p ;; delete_if_loop k (i + 1) (new_num + 1) d func data u
  end.

Definition OPENSSL_sk_delete_if (sk : option stack) (func data : Z) (u : usr) :
    res (option stack * usr) :=
  match sk with
  | None => Ret (sk, u)
  | Some s =>
      x <- delete_if_loop (Z.to_nat (st_num s)) 0 0 (st_data s) func data u ;;
      let '(n, d, u) := x in Ret (Some (set_num n (set_data d s)), u)
  end.

Definition OPENSSL_sk_is_sorted (sk : option stack) : bool :=
  match sk with
  | None => true
  | Some s => st_sorted s || (negb (st_comp s =? 0) && (st_num s <? 2))
  end.

Fixpoint cmp_loop (n : nat) (i : Z) (d : list (option Z)) (comp p : Z) : res (option Z) :=
  match n with
  | O => Ret None
  | S k =>
      q <- rd d i ;;
      if call_cmp comp p q =? 0 then Ret (Some i) else cmp_loop k (i + 1) d comp p
  end.

Fixpoint bsearch_loop (fuel : nat) (lo hi : Z) (d : list (option Z)) (comp p : Z) :
    res (option Z) :=
  if lo <? hi then
    match fuel with
    | O => OutOfFuel
    | S k =>
        let mid := lo + (hi - lo - 1) / 2 in
        _ <- c_assert ((lo <=? mid) && (mid <? hi)) ;;
        q <- rd d mid ;;
        let r := call_cmp comp p q in
        if 0 <? r then bsearch_loop k (mid + 1) hi d comp p
        else if r <? 0 then bsearch_loop k lo mid d comp p
        else if hi - lo =? 1 then Ret (Some mid)
        else
          _ <- c_assert (mid + 1 <? hi) ;;
          bsearch_loop k lo (mid + 1) d comp p
    end
  else _ <- c_assert (lo =? hi) ;; Ret None.

(** [Some i]: the function returns 1, and [i] through [out_index]. *)
Definition OPENSSL_sk_find (sk : option stack) (p : Z) : res (option Z) :=
  match sk with
  | None => Ret None
  | Some s =>
      let n := Z.to_nat (st_num s) in
      if st_comp s =? 0 then ptr_loop n 0 (st_data s) p
      else if p =? 0 then Ret None
      else if negb (OPENSSL_sk_is_sorted sk) then cmp_loop n 0 (st_data s) (st_comp s) p
      else bsearch_loop n 0 (st_num s) (st_data s) (st_comp s) p
  end.

Definition OPENSSL_sk_shift (sk : option stack) : res (Z * option stack) :=
  match sk with
  | None => Ret (0, sk)
  | Some s => if st_num s =? 0 then Ret (0, sk) else OPENSSL_sk_delete sk 0
  end.

Definition OPENSSL_sk_push (sk : option stack) (p : Z) (ok : bool) : res (Z * option stack) :=
  match sk with
  | None => UB   (* [sk->num] *)
  | Some s => OPENSSL_sk_insert sk p (st_num s) ok
  end.

Definition OPENSSL_sk_pop (sk : option stack) : res (Z * option stack) :=
  match sk with
  | None => Ret (0, sk)
  | Some s =>
      if st_num s =? 0 then Ret (0, sk) else OPENSSL_sk_delete sk (u64 (st_num s - 1))
  end.

(** [OPENSSL_memdup] copies all [num_alloc] cells. *)
Definition OPENSSL_sk_dup (sk : option stack) (ok_struct ok_data : bool) : res (option stack) :=
  match sk with
  | None => Ret None
  | Some s =>
      if ok_struct && ok_data then
        d <- slice (st_data s) 0 (st_num_alloc s) ;;
        Ret (Some (Stack (st_num s) d (st_sorted s) (st_num_alloc s) (st_comp s)))
      else Ret None
  end.

(** ** Sorting *)

Definition parent_idx (idx : Z) : res Z := _ <- c_assert (0 <? idx) ;; Ret ((idx - 1) / 2).
Definition left_idx (idx : Z) : res Z :=
  _ <- c_assert (idx <=? 2 ^ 63 - 1) ;; Ret (u64 (2 * idx + 1)).

Fixpoint down_heap_loop (fuel : nat) (comp : Z) (d : list (option Z)) (i num : Z) :
    res (list (option Z)) :=
  match fuel with
  | O => OutOfFuel
  | S k =>
      left <- left_idx i ;;
      if num <=? left then Ret d
      else
        a <- rd d i ;;
        b <- rd d left ;;
        let next := if call_cmp comp a b <? 0 then left else i in
        let right := u64 (left + 1) in
        next <- (if right <? num then
                   a <- rd d next ;;
                   b <- rd d right ;;
                   Ret (if call_cmp comp a b <? 0 then right else next)
                 else Ret next) ;;
        if i =? next then Ret d
        else
          tmp <- rd d i ;;
          x <- rd d next ;;
          d <- wr d i x ;;
          d <- wr d next tmp ;;
          down_heap_loop k comp d next num
  end.
(** The index at least doubles in every round. *)
Definition down_heap (s : stack) (i num : Z) : res stack :=
  _ <- c_assert ((i <? num) && (num <=? st_num s)) ;;
  d <- down_heap_loop (Z.to_nat num) (st_comp s) (st_data s) i num ;;
  Ret (set_data d s).

(** [for (size_t i = parent_idx(num - 1); i < num; i--)] *)
Fixpoint build_loop (fuel : nat) (s : stack) (i : Z) : res stack :=
  if i <? st_num s then
    match fuel with
    | O => OutOfFuel
    | S k => s <- down_heap s i (st_num s) ;; build_loop k s (u64 (i - 1))
    end
  else Ret s.

Fixpoint extract_loop (fuel : nat) (s : stack) (i : Z) : res stack :=
  if 0 <? i then
    match fuel with
    | O => OutOfFuel
    | S k =>
        tmp <- rd (st_data s) 0 ;;
        x <- rd (st_data s) i ;;
        d <- wr (st_data s) 0 x ;;
        d <- wr d i tmp ;;
        s <- down_heap (set_data d s) 0 i ;;
        extract_loop k s (i - 1)
    end
  else Ret s.

Definition OPENSSL_sk_sort (sk : option stack) : res (option stack) :=
  match sk with
  | None => Ret None
  | Some s =>
      if (st_comp s =? 0) || st_sorted s then Ret sk
      else
        s <- (if 2 <=? st_num s then
                i <- parent_idx (u64 (st_num s - 1)) ;;
                s <- build_loop (Z.to_nat (st_num s)) s i ;;
                extract_loop (Z.to_nat (st_num s)) s (u64 (st_num s - 1))
              else Ret s) ;;
        Ret (Some (set_sorted true s))
  end.

Definition OPENSSL_sk_set_cmp_func (s : stack) (comp : Z) : Z * stack :=
  (st_comp s,
   Stack (st_num s) (st_data s) (if negb (st_comp s =? comp) then false else st_sorted s)
         (st_num_alloc s) comp).

(** ** Deep copies *)

(** The elements before [i], when the copy of element [i] has failed. *)
Definition free_copies (d : list (option Z)) (i func : Z) (u : usr) : res usr :=
  pop_free_loop (Z.to_nat i) 0 d func u.

Fixpoint deep_copy_loop (n : nat) (i : Z) (d : list (option Z)) (copy_func free_func : Z)
    (u : usr) : res (option (list (option Z)) * usr) :=
  match n with
  | O => Ret (Some d, u)
  | S k =>
      p <- rd d i ;;
      if p =? 0 then deep_copy_loop k (i + 1) d copy_func free_func u
      else
        let '(q, u) := call_copy copy_func p u in
        d <- wr d i q ;;
        if q =? 0 then u <- free_copies d i free_func u ;; Ret (None, u)
        else deep_copy_loop k (i + 1) d copy_func free_func u
  end.

Definition OPENSSL_sk_deep_copy (sk : option stack) (copy_func free_func : Z)
    (ok_struct ok_data : bool) (u : usr) : res (option stack * usr) :=
  o <- OPENSSL_sk_dup sk ok_struct ok_data ;;
  match o with
  | None => Ret (None, u)
  | Some s =>
      x <- deep_copy_loop (Z.to_nat (st_num s)) 0 (st_data s) copy_func free_func u ;;
      let '(od, u) := x in
      Ret (match od with Some d => Some (set_data d s) | None => None end, u)
  end.

(** ** The old names *)

Definition sk_new_null := OPENSSL_sk_new_null.
Definition sk_num := OPENSSL_sk_num.
Definition sk_value := OPENSSL_sk_value.
Definition sk_push := OPENSSL_sk_push.
Definition sk_pop := OPENSSL_sk_pop.
Definition sk_pop_free_ex := OPENSSL_sk_pop_free_ex.
(** [call_free_func_legacy] calls the function it is given. *)
Definition sk_pop_free := OPENSSL_sk_pop_free_ex.

End stack.
