(* ===== verification/StackSort.v ===== *)
(** * BoringSSL: sorting and searching a stack

    [OPENSSL_sk_sort] is a heap sort written for stack.c, and [OPENSSL_sk_find] on
    a sorted stack a binary search for the first match.  [sift] is [down_heap] on
    the values of the array; the lemmas before [sort_correct] are about the heap
    order of an array from some index on. *)
From Stdlib Require Import ZArith Lia Sorted.
From stdpp Require Import prelude list numbers sorting.
From S2P Require Import Prelude CMem Cells Stack.
Local Open Scope Z_scope.

(** What a comparison function must be: the sign of a total preorder. *)
Class CmpOrder (c : Z -> Z -> Z) : Prop := {
  cmp_opp a b : 0 < c a b <-> c b a < 0;
  cmp_trans a b d : c a b <= 0 -> c b d <= 0 -> c a d <= 0
}.

Definition cmp_le (c : Z -> Z -> Z) (a b : Z) : Prop := c a b <= 0.
Definition sorted_by (c : Z -> Z -> Z) (l : list Z) : Prop := StronglySorted (cmp_le c) l.

Lemma sorted_by_lookup c l i j x y :
  sorted_by c l -> (i < j)%nat -> l !! i = Some x -> l !! j = Some y -> c x y <= 0.
Proof.
  intros Hs. revert i j. induction Hs as [|a l Hs IH Ha]; intros i j Hij Hx Hy; [done|].
  destruct j as [|j]; [lia|]. cbn in Hy. destruct i as [|i]; cbn in Hx.
  - injection Hx as ->. rewrite Forall_forall in Ha. by eapply Ha, list_elem_of_lookup_2.
  - apply (IH i j); [lia|done|done].
Qed.
Lemma sorted_by_intro c l :
  (forall i j x y, (i < j)%nat -> l !! i = Some x -> l !! j = Some y -> c x y <= 0) ->
  sorted_by c l.
Proof.
  induction l as [|a l IH]; intros Hl; [constructor|]. constructor.
  - apply IH. intros i j x y Hij Hx Hy. apply (Hl (S i) (S j)); [lia|done|done].
  - apply Forall_forall. intros x Hx.
    apply list_elem_of_lookup_1 in Hx as [j Hj]. apply (Hl 0%nat (S j)); [lia|done|done].
Qed.

Section order.
Context {c : Z -> Z -> Z} `{!CmpOrder c}.
Abbreviation le := (cmp_le c).

Lemma cmp_refl a : le a a.
Proof. unfold cmp_le. pose proof (cmp_opp a a). lia. Qed.
Lemma cmp_lt_le a b : c a b < 0 -> le a b.
Proof. unfold cmp_le. lia. Qed.
Lemma cmp_nlt_le a b : 0 <= c a b -> le b a.
Proof. unfold cmp_le. intros Hc. pose proof (cmp_opp b a). lia. Qed.
Lemma cmp_lt_trans a b d : le a b -> c b d < 0 -> c a d < 0.
Proof.
  unfold cmp_le. intros Hab Hbd. destruct (Z.lt_ge_cases (c a d) 0) as [|Hn]; [done|].
  pose proof (cmp_trans d a b (cmp_nlt_le a d Hn) Hab). pose proof (cmp_opp d b). lia.
Qed.

(** ** Heaps *)

Definition child (p q : nat) : Prop := (q = 2 * p + 1 \/ q = 2 * p + 2)%nat.
(** Heap order among the first [n] elements, for parents from [k] on... *)
Definition heap_from (l : list Z) (k n : nat) : Prop :=
  forall p q, (k <= p)%nat -> child p q -> (q < n)%nat -> le (l !!! q) (l !!! p).
(** ... except for [i], whose children are below its own parent. *)
Definition heap_but (l : list Z) (k n i : nat) : Prop :=
  (forall p q, (k <= p)%nat -> p <> i -> child p q -> (q < n)%nat -> le (l !!! q) (l !!! p)) /\
  (forall p q, (k <= p)%nat -> child p i -> child i q -> (q < n)%nat -> le (l !!! q) (l !!! p)).

Definition swap (l : list Z) (i j : nat) : list Z := <[j := l !!! i]> (<[i := l !!! j]> l).

Lemma swap_length l i j : length (swap l i j) = length l.
Proof. unfold swap. by rewrite !length_insert. Qed.
Lemma swap_lookup l i j k :
  (i < length l)%nat -> (j < length l)%nat ->
  swap l i j !!! k = if decide (k = j) then l !!! i else if decide (k = i) then l !!! j else l !!! k.
Proof.
  intros Hi Hj. unfold swap. rewrite list_lookup_total_insert, length_insert.
  rewrite list_lookup_total_insert. repeat case_decide; naive_solver lia.
Qed.
Lemma swap_perm l i j : (i < length l)%nat -> (j < length l)%nat -> swap l i j ≡ₚ l.
Proof. intros Hi Hj. by apply Permutation_insert_swap; apply list_lookup_lookup_total_lt. Qed.

(** The larger of [next] and [q], [q] counting only below [n]. *)
Definition larger (l : list Z) (n next q : nat) : nat :=
  if bool_decide (q < n)%nat && (c (l !!! next) (l !!! q) <? 0) then q else next.
Lemma larger_ge l n a q : le (l !!! a) (l !!! larger l n a q).
Proof.
  unfold larger. destruct (bool_decide _); [|apply cmp_refl]. cbn [andb].
  destruct (Z.ltb_spec (c (l !!! a) (l !!! q)) 0); [by apply cmp_lt_le|apply cmp_refl].
Qed.
Lemma larger_ge_r l n a q : (q < n)%nat -> le (l !!! q) (l !!! larger l n a q).
Proof.
  intros Hq. unfold larger. rewrite bool_decide_eq_true_2 by done. cbn [andb].
  destruct (Z.ltb_spec (c (l !!! a) (l !!! q)) 0); [apply cmp_refl|by apply cmp_nlt_le].
Qed.

Definition next_of (l : list Z) (n i : nat) : nat :=
  larger l n (larger l n i (2 * i + 1)) (2 * i + 2).

Lemma next_of_cases l n i :
  next_of l n i = i \/ child i (next_of l n i) /\ (next_of l n i < n)%nat.
Proof.
  unfold next_of, child. set (a := larger l n i (2 * i + 1)).
  assert (a = i \/ a = (2 * i + 1)%nat /\ (a < n)%nat) as Ha.
  { unfold a, larger. case_bool_decide; [|by left]. cbn [andb]. case_match; auto. }
  unfold larger. case_bool_decide; cbn [andb]; [|tauto]. case_match; [|tauto]. auto.
Qed.
Lemma next_of_max l n i :
  le (l !!! i) (l !!! next_of l n i) /\
  forall q, child i q -> (q < n)%nat -> le (l !!! q) (l !!! next_of l n i).
Proof.
  unfold next_of. set (a := larger l n i (2 * i + 1)). split.
  - eapply cmp_trans; [apply (larger_ge l n i (2 * i + 1))|apply larger_ge].
  - intros q [->| ->] Hq; [|by apply larger_ge_r].
    eapply cmp_trans; [by apply (larger_ge_r l n i (2 * i + 1))|apply larger_ge].
Qed.

Fixpoint sift (fuel : nat) (l : list Z) (i n : nat) : list Z :=
  match fuel with
  | O => l
  | S k =>
      let next := next_of l n i in
      if bool_decide (i = next) then l else sift k (swap l i next) next n
  end.

Lemma sift_length fuel l i n : length (sift fuel l i n) = length l.
Proof.
  revert l i; induction fuel as [|fuel IH]; intros l i; cbn [sift]; [done|].
  case_bool_decide; [done|]. by rewrite IH, swap_length.
Qed.

(** One step down. *)
Lemma swap_heap l k n i q :
  (n <= length l)%nat -> (k <= i)%nat -> child i q -> (q < n)%nat ->
  le (l !!! i) (l !!! q) -> (forall q', child i q' -> (q' < n)%nat -> le (l !!! q') (l !!! q)) ->
  heap_but l k n i -> heap_but (swap l i q) k n q.
Proof.
  intros Hn Hk Hc Hq Hiq Hmax [H1 H2]. unfold heap_but, child in *. split.
  - intros p r Hp Hpq Hr Hrn. rewrite !swap_lookup by lia.
    destruct (decide (p = q)); [done|]. destruct (decide (p = i)) as [->|Hpi].
    + destruct (decide (r = q)); [done|]. destruct (decide (r = i)); [lia|]. by apply Hmax.
    + destruct (decide (r = q)); [exfalso; lia|]. destruct (decide (r = i)) as [->|].
      * apply H2; [done|done|done|done].
      * by apply H1.
  - intros p r Hp Hpq Hqr Hrn. assert (p = i) as -> by lia. rewrite !swap_lookup by lia.
    destruct (decide (i = q)); [lia|]. destruct (decide (i = i)); [|done].
    destruct (decide (r = q)); [lia|]. destruct (decide (r = i)); [lia|].
    apply H1; [lia|lia|done|done].
Qed.

Lemma sift_heap fuel l k n i :
  (n <= length l)%nat -> (k <= i < n)%nat -> (n - i <= fuel)%nat ->
  heap_but l k n i -> heap_from (sift fuel l i n) k n.
Proof.
  revert l i; induction fuel as [|fuel IH]; intros l i Hn Hi Hf Hh; [lia|]. cbn [sift].
  pose proof (next_of_max l n i) as [Hge Hmax].
  destruct (next_of_cases l n i) as [E|[Hc Hlt]].
  - rewrite bool_decide_eq_true_2 by done. rewrite E in *. intros p q Hp Hpq Hq.
    destruct (decide (p = i)) as [->|]; [by apply Hmax|by apply (proj1 Hh)].
  - assert (i < next_of l n i)%nat by (unfold child in Hc; lia).
    rewrite bool_decide_eq_false_2 by lia.
    apply IH; [by rewrite swap_length|lia|lia|]. apply swap_heap; (done || lia).
Qed.

Lemma sift_perm fuel l n i :
  (n <= length l)%nat -> (i < n)%nat -> sift fuel l i n ≡ₚ l.
Proof.
  revert l i; induction fuel as [|fuel IH]; intros l i Hn Hi; cbn [sift]; [done|].
  case_bool_decide; [done|]. destruct (next_of_cases l n i) as [E|[Hc Hlt]]; [congruence|].
  rewrite IH by (rewrite ?swap_length; lia). apply swap_perm; lia.
Qed.
Lemma sift_outside fuel l n i j :
  (n <= length l)%nat -> (i < n)%nat -> (n <= j)%nat -> sift fuel l i n !!! j = l !!! j.
Proof.
  revert l i; induction fuel as [|fuel IH]; intros l i Hn Hi Hj; cbn [sift]; [done|].
  case_bool_decide; [done|]. destruct (next_of_cases l n i) as [E|[Hc Hlt]]; [congruence|].
  rewrite IH by (rewrite ?swap_length; lia). rewrite swap_lookup by lia. by rewrite !decide_False by lia.
Qed.
Lemma sift_inside fuel l n i (P : Z -> Prop) :
  (n <= length l)%nat -> (i < n)%nat -> (forall j, (j < n)%nat -> P (l !!! j)) ->
  forall j, (j < n)%nat -> P (sift fuel l i n !!! j).
Proof.
  revert l i; induction fuel as [|fuel IH]; intros l i Hn Hi HP; cbn [sift]; [done|].
  case_bool_decide; [done|]. destruct (next_of_cases l n i) as [E|[Hc Hlt]]; [congruence|].
  apply IH; [by rewrite swap_length|lia|]. intros j Hj. rewrite swap_lookup by lia.
  repeat case_decide; apply HP; lia.
Qed.

Lemma heap_root l n j : heap_from l 0 n -> (j < n)%nat -> le (l !!! j) (l !!! 0%nat).
Proof.
  intros Hh. induction j as [j IH] using lt_wf_ind. intros Hj.
  destruct j as [|j]; [apply cmp_refl|].
  pose proof (Nat.div_mod_eq (S j - 1) 2). pose proof (Nat.mod_upper_bound (S j - 1) 2).
  eapply cmp_trans; [apply (Hh ((S j - 1) / 2)%nat); [lia|unfold child; lia|lia]|apply IH; lia].
Qed.

(** ** The two passes *)

(** Heap order from [S i] on, [i] sifted down: heap order from [i] on. *)
Lemma heap_step l n i :
  heap_from l (S i) n -> heap_but l i n i.
Proof.
  intros Hh. split.
  - intros p q Hp Hpi. apply Hh. lia.
  - intros p q Hp Hpi. unfold child in Hpi. lia.
Qed.
Lemma heap_leaves l n k : (n <= 2 * k + 1)%nat -> heap_from l k n.
Proof. intros Hn p q Hp Hq Hlt. unfold child in Hq. lia. Qed.

(** Sorted from [n] on, with nothing before [n] above it. *)
Definition sorted_from (l : list Z) (n : nat) : Prop :=
  forall i j, (i < j)%nat -> (n <= j < length l)%nat -> le (l !!! i) (l !!! j).

(** The root goes to the end of the heap, and the rest is a heap again. *)
Lemma extract_step fuel l n :
  (0 < n < length l)%nat -> (n <= fuel)%nat -> heap_from l 0 (S n) -> sorted_from l (S n) ->
  let l' := sift fuel (swap l 0 n) 0 n in
  heap_from l' 0 n /\ sorted_from l' n /\ l' ≡ₚ l.
Proof.
  intros Hn Hf Hh Hs l'.
  assert (length (swap l 0 n) = length l) as Hl by apply swap_length.
  assert (forall j, (j < n)%nat -> le (swap l 0 n !!! j) (l !!! 0%nat)) as Hroot.
  { intros j Hj. rewrite swap_lookup by lia. rewrite decide_False by lia.
    case_decide; apply (heap_root l (S n)); (done || lia). }
  split; [|split].
  - apply sift_heap; [lia|lia|lia|]. split.
    + intros p q _ Hp Hpq Hq. assert (q <> 0%nat) by (unfold child in Hpq; lia).
      assert (p < q)%nat by (unfold child in Hpq; lia).
      rewrite !swap_lookup by lia. rewrite !decide_False by lia. apply Hh; [lia|done|lia].
    + intros p q _ Hp. unfold child in Hp. lia.
  - assert (forall j, (n <= j)%nat -> l' !!! j = if decide (j = n) then l !!! 0%nat else l !!! j) as Hout.
    { intros j Hj. unfold l'. rewrite sift_outside, swap_lookup by lia.
      case_decide; [done|]. by rewrite decide_False by lia. }
    intros i j Hij [Hj Hjl]. unfold l' in Hjl. rewrite sift_length, Hl in Hjl.
    destruct (le_lt_dec n i) as [Hi|Hi].
    + rewrite !Hout by lia. rewrite (decide_False (P := j = n)) by lia.
      case_decide; apply Hs; lia.
    + rewrite (Hout j) by lia. apply (sift_inside fuel (swap l 0 n) n 0 (fun x => le x _)); [lia|lia| |done].
      intros k Hk. case_decide; [by apply Hroot|].
      eapply cmp_trans; [by apply Hroot|]. apply Hs; lia.
  - unfold l'. rewrite sift_perm by (rewrite ?Hl; lia). apply swap_perm; lia.
Qed.

End order.

(** ** [OPENSSL_sk_sort] *)

(** The array of [s] holds [l], and [s] has room for what [num_alloc] says. *)
Record rep (s : stack) (l : list Z) : Prop := {
  rep_num : st_num s = Z.of_nat (length l);
  rep_data : holds (st_data s) l;
  rep_alloc : Z.of_nat (length (st_data s)) = st_num_alloc s;
  rep_size : kMinSize <= st_num_alloc s < 2 ^ 61;
  rep_max : st_num s <= INT_MAX
}.

Lemma rep_set_data s l l' d :
  rep s l -> holds d l' -> length d = length (st_data s) -> length l' = length l ->
  rep (set_data d s) l'.
Proof. intros [H1 H2 H3 H4 H5] Hd Hl Hl'. split; cbn; try done; [by rewrite Hl'|by rewrite Hl]. Qed.

Section sort.
Context `{StackEnv} (f : Z) `{!CmpOrder (call_cmp f)}.
Abbreviation c := (call_cmp f).

Lemma rd_nat d (l : list Z) (i : nat) :
  holds d l -> (i < length l)%nat -> rd d (Z.of_nat i) = Ret (l !!! i).
Proof. intros Hd Hi. rewrite (rd_holds d l) by (done || lia). by rewrite Nat2Z.id. Qed.

Lemma swap_cells d l i j :
  holds d l -> (i < length l)%nat -> (j < length l)%nat ->
  exists d' d'', wr d (Z.of_nat i) (l !!! j) = Ret d' /\
    wr d' (Z.of_nat j) (l !!! i) = Ret d'' /\ holds d'' (swap l i j) /\ length d'' = length d.
Proof.
  intros Hd Hi Hj. destruct (wr_holds d l (Z.of_nat i) (l !!! j) Hd) as (d' & E1 & H1 & L1); [lia|].
  destruct (wr_holds d' _ (Z.of_nat j) (l !!! i) H1) as (d'' & E2 & H2 & L2);
    [rewrite length_insert; lia|].
  rewrite !Nat2Z.id in H2. exists d', d''. rewrite L2. done.
Qed.

(** [down_heap] is [sift]; its fuel is enough. *)
Lemma down_heap_sift fuel d l i n :
  holds d l -> (n <= length l)%nat -> (i < n)%nat -> Z.of_nat n < 2 ^ 62 -> (n - i <= fuel)%nat ->
  exists d', down_heap_loop fuel f d (Z.of_nat i) (Z.of_nat n) = Ret d' /\
    holds d' (sift (c := c) fuel l i n) /\ length d' = length d.
Proof.
  revert d l i; induction fuel as [|fuel IH]; intros d l i Hd Hn Hi Hb Hf; [lia|].
  cbn [down_heap_loop sift]. unfold left_idx, c_assert. rewrite (proj2 (Z.leb_le _ _)) by lia.
  cbn [rbind]. unfold u64. rewrite (wrap_small 64 (2 * Z.of_nat i + 1)) by lia.
  destruct (Z.leb_spec (Z.of_nat n) (2 * Z.of_nat i + 1)) as [Hleaf|Hleft].
  - assert (next_of (c := c) l n i = i) as E.
    { unfold next_of, larger. by rewrite !bool_decide_eq_false_2 by lia. }
    rewrite E, bool_decide_eq_true_2 by done. by exists d.
  - replace (2 * Z.of_nat i + 1) with (Z.of_nat (2 * i + 1)) by lia.
    rewrite (rd_nat d l i), (rd_nat d l (2 * i + 1)) by (done || lia). cbn [rbind].
    replace (if c (l !!! i) (l !!! (2 * i + 1)%nat) <? 0 then Z.of_nat (2 * i + 1) else Z.of_nat i)
      with (Z.of_nat (larger (c := c) l n i (2 * i + 1)))
      by (unfold larger; rewrite bool_decide_eq_true_2 by lia; cbn [andb]; by case_match).
    rewrite wrap_small by lia.
    replace (Z.of_nat (2 * i + 1) + 1) with (Z.of_nat (2 * i + 2)) by lia.
    set (a := larger (c := c) l n i (2 * i + 1)).
    assert (a < n)%nat as Ha by (unfold a, larger; repeat case_match; lia).
    assert ((if Z.of_nat (2 * i + 2) <? Z.of_nat n
             then a0 <- rd d (Z.of_nat a) ;; b <- rd d (Z.of_nat (2 * i + 2)) ;;
                  Ret (if c a0 b <? 0 then Z.of_nat (2 * i + 2) else Z.of_nat a)
             else Ret (Z.of_nat a))%res = Ret (Z.of_nat (next_of (c := c) l n i))) as ->.
    { unfold next_of. fold a. unfold larger. destruct (Z.ltb_spec (Z.of_nat (2 * i + 2)) (Z.of_nat n)).
      - rewrite (rd_nat d l a), (rd_nat d l (2 * i + 2)) by (done || lia). cbn [rbind].
        rewrite bool_decide_eq_true_2 by lia. cbn [andb]. by case_match.
      - by rewrite bool_decide_eq_false_2 by lia. }
    cbn [rbind]. destruct (next_of_cases (c := c) l n i) as [E|[Hc Hlt]].
    + rewrite E, Z.eqb_refl, bool_decide_eq_true_2 by done. by exists d.
    + assert (i < next_of (c := c) l n i)%nat by (unfold child in Hc; lia).
      rewrite (proj2 (Z.eqb_neq _ _)), bool_decide_eq_false_2 by lia.
      cbn [rbind]. rewrite (rd_nat d l (next_of (c := c) l n i)) by (done || lia). cbn [rbind].
      destruct (swap_cells d l i (next_of (c := c) l n i) Hd) as (d' & d'' & E1 & E2 & H1 & L1); [lia|lia|].
      rewrite E1. cbn [rbind]. rewrite E2. cbn [rbind]. rewrite <- L1.
      apply IH; [done|by rewrite swap_length|lia|done|lia].
Qed.

Lemma down_heap_rep s l i n :
  rep s l -> st_comp s = f -> (n <= length l)%nat -> (i < n)%nat ->
  exists d, down_heap s (Z.of_nat i) (Z.of_nat n) = Ret (set_data d s) /\
    rep (set_data d s) (sift (c := c) n l i n).
Proof.
  intros Hr Hc Hn Hi. pose proof Hr as [H1 H2 H3 H4 H5]. unfold down_heap, c_assert, INT_MAX in *.
  rewrite (proj2 (Z.ltb_lt _ _)), (proj2 (Z.leb_le _ _)) by lia. cbn [andb rbind].
  rewrite Nat2Z.id, Hc.
  destruct (down_heap_sift n (st_data s) l i n H2 Hn Hi) as (d & E & Hd & Hl); [lia|lia|].
  rewrite E. cbn [rbind]. exists d. split; [done|].
  eapply rep_set_data; [done|done|done|apply sift_length].
Qed.

Lemma build_loop_heap fuel s l i :
  rep s l -> st_comp s = f -> heap_from (c := c) l (S i) (length l) -> (i < length l)%nat ->
  (i < fuel)%nat ->
  exists s' l', build_loop fuel s (Z.of_nat i) = Ret s' /\ rep s' l' /\ st_comp s' = f /\
    heap_from (c := c) l' 0 (length l') /\ l' ≡ₚ l.
Proof.
  revert s l i; induction fuel as [|fuel IH]; intros s l i Hr Hc Hh Hi Hf; [lia|].
  cbn [build_loop]. rewrite (rep_num _ _ Hr), (proj2 (Z.ltb_lt _ _)) by lia.
  destruct (down_heap_rep s l i (length l) Hr Hc) as (d & E & Hr'); [lia|lia|].
  rewrite E. cbn [rbind]. set (l' := sift (c := c) (length l) l i (length l)) in *.
  assert (length l' = length l) as Hl by apply sift_length.
  assert (l' ≡ₚ l) as Hp by (by apply sift_perm).
  assert (heap_from (c := c) l' i (length l)) as Hh' by (apply sift_heap; [lia|lia|lia|by apply heap_step]).
  destruct i as [|i].
  - exists (set_data d s), l'. assert (rep_num' := rep_num _ _ Hr').
    assert (build_loop fuel (set_data d s) (u64 (Z.of_nat 0 - 1)) = Ret (set_data d s)) as ->.
    { pose proof (rep_max _ _ Hr') as Hm. unfold INT_MAX in Hm. change (u64 (Z.of_nat 0 - 1)) with (2 ^ 64 - 1).
      destruct fuel; cbn [build_loop]; by rewrite (proj2 (Z.ltb_ge _ _)) by lia. }
    by rewrite Hl.
  - replace (u64 (Z.of_nat (S i) - 1)) with (Z.of_nat i).
    2: { pose proof (rep_max _ _ Hr) as Hm. rewrite (rep_num _ _ Hr) in Hm. unfold INT_MAX in Hm.
         unfold u64. rewrite wrap_small; lia. }
    destruct (IH (set_data d s) l' i Hr' Hc) as (s'' & l'' & E'' & H1 & H2 & H3 & H4);
      [by rewrite Hl|lia|lia|].
    exists s'', l''. split_and!; [done..|by rewrite H4].
Qed.

Lemma extract_loop_sorted fuel s l i :
  rep s l -> st_comp s = f -> (i < length l)%nat -> (i <= fuel)%nat ->
  heap_from (c := c) l 0 (S i) -> sorted_from (c := c) l (S i) ->
  exists s' l', extract_loop fuel s (Z.of_nat i) = Ret s' /\ rep s' l' /\ st_comp s' = f /\
    st_sorted s' = st_sorted s /\ sorted_from (c := c) l' 1 /\ l' ≡ₚ l.
Proof.
  revert s l i; induction fuel as [|fuel IH]; intros s l i Hr Hc Hi Hf Hh Hs.
  - assert (i = 0%nat) as -> by lia. exists s, l. done.
  - cbn [extract_loop]. destruct i as [|i]; [by exists s, l|].
    rewrite (proj2 (Z.ltb_lt _ _)) by lia.
    change (rd (st_data s) 0) with (rd (st_data s) (Z.of_nat 0)).
    change (wr (st_data s) 0) with (wr (st_data s) (Z.of_nat 0)).
    rewrite (rd_nat _ _ 0 (rep_data _ _ Hr) ltac:(lia)), (rd_nat _ _ (S i) (rep_data _ _ Hr) Hi).
    cbn [rbind].
    destruct (swap_cells _ l 0 (S i) (rep_data _ _ Hr)) as (d1 & d2 & E1 & E2 & Hd & Hl); [lia|lia|].
    rewrite E1. cbn [rbind]. rewrite E2. cbn [rbind].
    assert (rep (set_data d2 s) (swap l 0 (S i))) as Hr2
      by (eapply rep_set_data; [done|done|done|apply swap_length]).
    destruct (down_heap_rep (set_data d2 s) _ 0 (S i) Hr2 Hc) as (d3 & E3 & Hr3);
      [rewrite swap_length; lia|lia|].
    change (down_heap (set_data d2 s) 0) with (down_heap (set_data d2 s) (Z.of_nat 0)). rewrite E3. cbn [rbind].
    destruct (extract_step (c := c) (S i) l (S i)) as (H1 & H2 & H3); [lia|lia|done|done|].
    set (l' := sift (c := c) (S i) (swap l 0 (S i)) 0 (S i)) in *.
    replace (Z.of_nat (S i) - 1) with (Z.of_nat i) by lia.
    destruct (IH (set_data d3 (set_data d2 s)) l' i Hr3 Hc) as (s' & l'' & E & H4 & H5 & H6 & H7 & H8);
      [unfold l'; rewrite sift_length, swap_length; lia|lia|done|done|].
    exists s', l''. split_and!; [exact E|done..|by rewrite H8].
Qed.

Lemma sorted_from_by l : sorted_from (c := c) l 1 -> sorted_by c l.
Proof.
  intros Hs. apply sorted_by_intro. intros i j x y Hij Hx Hy.
  apply list_lookup_total_correct in Hx as <-.
  pose proof (lookup_lt_Some _ _ _ Hy). apply list_lookup_total_correct in Hy as <-.
  apply Hs; lia.
Qed.

Lemma sort_run s l :
  rep s l -> st_comp s = f -> f <> 0 -> st_sorted s = false ->
  exists s' l', OPENSSL_sk_sort (Some s) = Ret (Some s') /\ rep s' l' /\ st_comp s' = f /\
    st_sorted s' = true /\ sorted_by c l' /\ l' ≡ₚ l.
Proof.
  intros Hr Hc Hf0 Hs. unfold OPENSSL_sk_sort. rewrite Hc, Hs, (proj2 (Z.eqb_neq f 0) Hf0). cbn [orb].
  pose proof (rep_max _ _ Hr) as Hm. pose proof (rep_num _ _ Hr) as Hn. unfold INT_MAX in Hm.
  assert (forall t l', rep t l' -> rep (set_sorted true t) l') as Hflag by (by intros t l' []).
  destruct (Z.leb_spec 2 (st_num s)) as [H2|H2].
  - unfold parent_idx, c_assert, u64. rewrite (wrap_small 64 (st_num s - 1)) by lia.
    rewrite (proj2 (Z.ltb_lt _ _)) by lia. cbn [rbind].
    replace ((st_num s - 1 - 1) / 2) with (Z.of_nat ((length l - 2) / 2))
      by (rewrite Hn, Nat2Z.inj_div; f_equal; lia).
    pose proof (Nat.div_mod_eq (length l - 2) 2). pose proof (Nat.mod_upper_bound (length l - 2) 2).
    destruct (build_loop_heap (Z.to_nat (st_num s)) s l ((length l - 2) / 2) Hr Hc)
      as (s1 & l1 & E1 & Hr1 & Hc1 & Hh1 & Hp1); [apply heap_leaves; lia|lia|lia|].
    rewrite E1. cbn [rbind]. assert (length l1 = length l) as Hl1 by (by rewrite Hp1).
    rewrite (rep_num _ _ Hr1), Hl1, Nat2Z.id, wrap_small by lia.
    replace (Z.of_nat (length l) - 1) with (Z.of_nat (length l - 1)) by lia.
    destruct (extract_loop_sorted (length l) s1 l1 (length l - 1) Hr1 Hc1)
      as (s2 & l2 & E2 & Hr2 & Hc2 & _ & Hs2 & Hp2); [lia|lia| | |].
    { by replace (S (length l - 1)) with (length l1) by lia. }
    { intros a b Hab Hb. lia. }
    rewrite E2. cbn [rbind]. exists (set_sorted true s2), l2.
    split_and!; [done|by apply Hflag|done|done|by apply sorted_from_by|by rewrite Hp2].
  - cbn [rbind]. exists (set_sorted true s), l. split_and!; [done|by apply Hflag|done|done| |done].
    apply sorted_by_intro. intros i j x y Hij Hx Hy. apply lookup_lt_Some in Hy. lia.
Qed.

End sort.

(** C27: [OPENSSL_sk_sort], on a stack with a comparison function that is not known
    to be sorted: the function returns, no assertion fails and no cell outside the
    stack is touched, and the stack then holds a permutation of its elements in
    ascending order. *)
Theorem sort_correct `{StackEnv} f s l :
  CmpOrder (call_cmp f) -> rep s l -> st_comp s = f -> f <> 0 -> st_sorted s = false ->
  exists s' l', OPENSSL_sk_sort (Some s) = Ret (Some s') /\ rep s' l' /\ st_comp s' = f /\
    st_sorted s' = true /\ sorted_by (call_cmp f) l' /\ l' ≡ₚ l.
Proof. intros Ho. by apply sort_run. Qed.

(** ** [OPENSSL_sk_find] *)

(** [o] is the index of the first element of [l] with [P], if any. *)
Definition first_match (P : Z -> Prop) (l : list Z) (o : option Z) : Prop :=
  match o with
  | Some i =>
      0 <= i /\ (exists x, l !! Z.to_nat i = Some x /\ P x) /\
      forall j y, (j < Z.to_nat i)%nat -> l !! j = Some y -> ~ P y
  | None => forall j y, l !! j = Some y -> ~ P y
  end.

Section find.
Context `{StackEnv}.

(** A scan from [i] on, the elements before [i] having failed the test. *)
Lemma scan_first (P : Z -> Prop) (loop : nat -> Z -> res (option Z)) (test : Z -> bool) d l :
  holds d l -> (forall x, test x = true <-> P x) ->
  (forall i, loop 0%nat i = Ret None) ->
  (forall k i, loop (S k) i = (q <- rd d i ;; if test q then Ret (Some i) else loop k (i + 1))%res) ->
  forall n i, (i + n = length l)%nat -> (forall j y, (j < i)%nat -> l !! j = Some y -> ~ P y) ->
  exists o, loop n (Z.of_nat i) = Ret o /\ first_match P l o.
Proof.
  intros Hd Ht H0 HS. induction n as [|n IH]; intros i Hi Hb.
  - exists None. rewrite H0. split; [done|]. intros j y Hy. apply (Hb j); [|done].
    apply lookup_lt_Some in Hy. lia.
  - destruct (lookup_lt_is_Some_2 l i) as [x Hx]; [lia|].
    rewrite HS, (rd_lookup d l (Z.of_nat i) x) by (rewrite ?Nat2Z.id; (done || lia)). cbn [rbind].
    destruct (test x) eqn:Ex.
    + exists (Some (Z.of_nat i)). split; [done|]. cbn. rewrite Nat2Z.id. split; [lia|].
      split; [|done]. exists x. by rewrite <- Ht.
    + replace (Z.of_nat i + 1) with (Z.of_nat (S i)) by lia. apply IH; [lia|].
      intros j y Hj Hy. destruct (decide (j = i)) as [->|]; [|apply (Hb j); [lia|done]].
      rewrite <- Ht. congruence.
Qed.

Lemma ptr_loop_first s l p :
  rep s l -> exists o, ptr_loop (Z.to_nat (st_num s)) 0 (st_data s) p = Ret o /\
                       first_match (fun x => x = p) l o.
Proof.
  intros Hr. apply (scan_first _ (fun n i => ptr_loop n i (st_data s) p) (fun q => q =? p) (st_data s))
    with (i := 0%nat); try done; [apply Hr|intros x; apply Z.eqb_eq| |intros; lia].
  rewrite (rep_num _ _ Hr). lia.
Qed.
Lemma cmp_loop_first s l f p :
  rep s l -> exists o, cmp_loop (Z.to_nat (st_num s)) 0 (st_data s) f p = Ret o /\
                       first_match (fun x => call_cmp f p x = 0) l o.
Proof.
  intros Hr. apply (scan_first _ (fun n i => cmp_loop n i (st_data s) f p)
                      (fun q => call_cmp f p q =? 0) (st_data s))
    with (i := 0%nat); try done; [apply Hr|intros x; apply Z.eqb_eq| |intros; lia].
  rewrite (rep_num _ _ Hr). lia.
Qed.

Lemma bsearch_first f fuel d l lo hi p :
  CmpOrder (call_cmp f) -> holds d l -> sorted_by (call_cmp f) l ->
  (lo <= hi <= length l)%nat -> (hi - lo <= fuel)%nat ->
  (forall j y, (j < lo)%nat -> l !! j = Some y -> 0 < call_cmp f p y) ->
  (forall j y, l !! j = Some y -> call_cmp f p y = 0 ->
     exists k z, (lo <= k < hi)%nat /\ l !! k = Some z /\ call_cmp f p z = 0) ->
  exists o, bsearch_loop fuel (Z.of_nat lo) (Z.of_nat hi) d f p = Ret o /\
            first_match (fun x => call_cmp f p x = 0) l o.
Proof.
  intros Ho Hd Hs. revert lo hi. induction fuel as [|fuel IH]; intros lo hi Hlh Hf Hlow Hin;
    cbn [bsearch_loop]; (destruct (Z.ltb_spec (Z.of_nat lo) (Z.of_nat hi)) as [Hlt|Hge]; [|
      assert (lo = hi) as -> by lia; rewrite Z.eqb_refl; cbn [c_assert rbind]; exists None;
      split; [done|]; intros j y Hy Ey; destruct (Hin j y Hy Ey) as (k & z & Hk & _); lia]).
  { lia. }
  set (mid := (lo + (hi - lo - 1) / 2)%nat).
  pose proof (Nat.div_mod_eq (hi - lo - 1) 2). pose proof (Nat.mod_upper_bound (hi - lo - 1) 2).
  replace (Z.of_nat lo + (Z.of_nat hi - Z.of_nat lo - 1) / 2) with (Z.of_nat mid)
    by (unfold mid; rewrite Nat2Z.inj_add, Nat2Z.inj_div; f_equal; f_equal; lia).
  assert (lo <= mid < hi)%nat as Hmid by (unfold mid; lia).
  rewrite (proj2 (Z.leb_le _ _)), (proj2 (Z.ltb_lt _ _)) by lia. cbn [andb c_assert rbind].
  destruct (lookup_lt_is_Some_2 l mid) as [x Hx]; [lia|].
  rewrite (rd_lookup d l (Z.of_nat mid) x) by (rewrite ?Nat2Z.id; (done || lia)). cbn [rbind].
  destruct (Z.ltb_spec 0 (call_cmp f p x)) as [Hgt|Hng]; [|destruct (Z.ltb_spec (call_cmp f p x) 0)].
  - replace (Z.of_nat mid + 1) with (Z.of_nat (S mid)) by lia.
    assert (forall j y, (j < S mid)%nat -> l !! j = Some y -> 0 < call_cmp f p y) as Hlow'.
    { intros j y Hj Hy. destruct (decide (j = mid)) as [->|]; [congruence|].
      pose proof (sorted_by_lookup _ _ j mid y x Hs ltac:(lia) Hy Hx) as Hyx.
      apply cmp_opp in Hgt. apply cmp_opp. by eapply cmp_lt_trans. }
    apply IH; [lia|lia|done|]. intros j y Hy Ey.
    destruct (Hin j y Hy Ey) as (k & z & Hk & Hz & Ez). exists k, z. split; [|done].
    destruct (decide (k < S mid)%nat) as [Hlt'|]; [specialize (Hlow' k z Hlt' Hz)|]; lia.
  - apply IH; [lia|lia|done|]. intros j y Hy Ey.
    destruct (Hin j y Hy Ey) as (k & z & Hk & Hz & Ez). exists k, z. split; [|done].
    destruct (decide (k < mid)%nat); [lia|]. exfalso.
    assert (cmp_le (call_cmp f) x z) as Hxz.
    { destruct (decide (k = mid)) as [->|]; [rewrite Hx in Hz; injection Hz as ->; apply cmp_refl|].
      apply (sorted_by_lookup _ _ mid k x z Hs); [lia|done|done]. }
    assert (cmp_le (call_cmp f) z p) as Hzp by (apply cmp_nlt_le; lia).
    pose proof (cmp_trans x z p Hxz Hzp). pose proof (cmp_opp x p). lia.
  - assert (call_cmp f p x = 0) as Ex by lia.
    destruct (Z.eqb_spec (Z.of_nat hi - Z.of_nat lo) 1).
    + assert (mid = lo) as Em by lia. exists (Some (Z.of_nat mid)). split; [done|]. cbn.
      rewrite Nat2Z.id. split; [lia|]. split; [by exists x|]. intros j y Hj Hy.
      assert (j < lo)%nat as Hj' by lia. specialize (Hlow j y Hj' Hy). lia.
    + rewrite (proj2 (Z.ltb_lt _ _)) by lia. cbn [c_assert rbind].
      replace (Z.of_nat mid + 1) with (Z.of_nat (S mid)) by lia.
      apply IH; [lia|lia|done|]. intros j y Hy Ey. exists mid, x. split; [lia|done].
Qed.

End find.

(** What the flag of a stack promises. *)
Definition flag_ok `{StackEnv} (s : stack) (l : list Z) : Prop :=
  st_sorted s = true -> sorted_by (call_cmp (st_comp s)) l.

(** The binary search is only right if the flag of the stack tells the truth. *)
Lemma find_spec `{StackEnv} s l p :
  CmpOrder (call_cmp (st_comp s)) -> rep s l -> flag_ok s l -> st_comp s = 0 \/ p <> 0 ->
  exists o, OPENSSL_sk_find (Some s) p = Ret o /\
    first_match (fun x => if st_comp s =? 0 then x = p else call_cmp (st_comp s) p x = 0) l o.
Proof.
  intros Ho Hr Hfl Hp. unfold OPENSSL_sk_find.
  destruct (st_comp s =? 0) eqn:Ec; [by apply ptr_loop_first|].
  apply Z.eqb_neq in Ec as Ec0. destruct Hp as [Hp|Hp]; [done|].
  rewrite (proj2 (Z.eqb_neq p 0) Hp).
  destruct (OPENSSL_sk_is_sorted (Some s)) eqn:Es; cbn [negb]; [|by apply cmp_loop_first].
  assert (sorted_by (call_cmp (st_comp s)) l) as Hs.
  { unfold OPENSSL_sk_is_sorted in Es. destruct (st_sorted s) eqn:E; [by apply Hfl|].
    rewrite Ec in Es. cbn [negb orb andb] in Es. apply Z.ltb_lt in Es.
    rewrite (rep_num _ _ Hr) in Es. apply sorted_by_intro. intros i j x y Hij Hx Hy.
    apply lookup_lt_Some in Hy. lia. }
  pose proof (rep_num _ _ Hr) as Hn. rewrite Hn, Nat2Z.id.
  apply (bsearch_first _ _ _ _ 0 (length l)); [done|apply Hr|done|lia|lia|intros; lia|].
  intros j y Hy Ey. exists j, y. apply lookup_lt_Some in Hy as Hl. split; [lia|done].
Qed.
