(* ===== verification/StackSpec.v ===== *)
(** * BoringSSL: what the operations of a stack do

    Each operation of stack.c against the list of elements the stack holds, its
    comparison function and its [sorted] flag ([spec_op]), from which follows that
    every sequence of operations on a new stack keeps the representation in order and
    the flag honest, except for [OPENSSL_sk_set], which changes an element and leaves
    the flag alone. *)
From Stdlib Require Import ZArith Lia Sorted.
From stdpp Require Import prelude list numbers sorting.
From S2P Require Import Prelude CMem Cells Stack StackSort.
Local Open Scope Z_scope.
Local Open Scope res_scope.

Lemma sorted_by_sublist c l l' : sublist l' l -> sorted_by c l -> sorted_by c l'.
Proof.
  unfold sorted_by. intros Hl. induction Hl as [|x l1 l2 Hl IH|x l1 l2 Hl IH]; [done| |];
    rewrite !StronglySorted_cons; intros [Hx Hs]; [|by apply IH].
  split; [|by apply IH]. apply Forall_forall. intros y Hy. rewrite Forall_forall in Hx.
  by eapply Hx, elem_of_sublist.
Qed.

Section ops.
Context `{StackEnv}.

(** ** Operations and what they mean *)

Inductive op :=
| OpInsert (p where_ : Z) (ok : bool)
| OpPush (p : Z) (ok : bool)
| OpDelete (where_ : Z)
| OpDeletePtr (p : Z)
| OpDeleteIf (func data : Z)
| OpPop
| OpShift
| OpZero
| OpSet (i v : Z)
| OpSetCmp (comp : Z)
| OpSort
| OpFind (p : Z)
| OpValue (i : Z)
| OpNum.

(** The reply is a number, or for [OPENSSL_sk_find] the index that was found. *)
Definition run_op (o : op) (s : stack) (u : usr) : res (option Z * option stack * usr) :=
  let pure (m : res (Z * option stack)) := x <- m ;; Ret (Some (fst x), snd x, u) in
  match o with
  | OpInsert p w ok => pure (OPENSSL_sk_insert (Some s) p w ok)
  | OpPush p ok => pure (OPENSSL_sk_push (Some s) p ok)
  | OpDelete w => pure (OPENSSL_sk_delete (Some s) w)
  | OpDeletePtr p => pure (OPENSSL_sk_delete_ptr (Some s) p)
  | OpDeleteIf f d =>
      (x <- OPENSSL_sk_delete_if (Some s) f d u ;; Ret (Some 0, fst x, snd x))
  | OpPop => pure (OPENSSL_sk_pop (Some s))
  | OpShift => pure (OPENSSL_sk_shift (Some s))
  | OpZero => pure (x <- OPENSSL_sk_zero (Some s) ;; Ret (0, x))
  | OpSet i v => pure (OPENSSL_sk_set (Some s) i v)
  | OpSetCmp c => let '(old, s) := OPENSSL_sk_set_cmp_func s c in Ret (Some old, Some s, u)
  | OpSort => pure (x <- OPENSSL_sk_sort (Some s) ;; Ret (0, x))
  | OpFind p => x <- OPENSSL_sk_find (Some s) p ;; Ret (x, Some s, u)
  | OpValue i => pure (x <- OPENSSL_sk_value (Some s) i ;; Ret (x, Some s))
  | OpNum => pure (Ret (OPENSSL_sk_num (Some s), Some s))
  end.

(** The elements for which the user's function answers 0, in order. *)
Fixpoint kept_by (func data : Z) (l : list Z) (u : usr) : list Z * usr :=
  match l with
  | [] => ([], u)
  | p :: l =>
      let '(b, u) := call_delete_if func p data u in
      let '(r, u) := kept_by func data l u in
      (if b : bool then r else p :: r, u)
  end.

(** What a program sees of a stack. *)
Record view := View { v_list : list Z; v_comp : Z; v_sorted : bool }.
Definition view_of (s : stack) (l : list Z) : view := View l (st_comp s) (st_sorted s).
Definition with_list (l : list Z) (v : view) : view := View l (v_comp v) (v_sorted v).

Definition insert_spec (v : view) (p : Z) (w : nat) (ok : bool) (r : option Z) (v' : view) : Prop :=
  let l := v_list v in
  r = Some 0 /\ v' = v /\ (INT_MAX <= Z.of_nat (length l) \/ ok = false) \/
  r = Some (Z.of_nat (length l) + 1) /\ v' = View (take w l ++ p :: drop w l) (v_comp v) false.

(** By the comparison function, or by address if there is none. *)
Definition equal_to (comp p x : Z) : Prop := if comp =? 0 then x = p else call_cmp comp p x = 0.

(** The reply, the stack and the user's state after [o]. *)
Definition spec_op (o : op) (v : view) (u : usr) (r : option Z) (v' : view) (u' : usr) : Prop :=
  let l := v_list v in
  match o with
  | OpInsert p w ok => insert_spec v p (Z.to_nat w) ok r v' /\ u' = u
  | OpPush p ok => insert_spec v p (length l) ok r v' /\ u' = u
  | OpDelete w =>
      r = Some (default 0 (l !! Z.to_nat w)) /\ v' = with_list (delete (Z.to_nat w) l) v /\ u' = u
  | OpDeletePtr p =>
      u' = u /\
      ((exists i, l !! i = Some p /\ (p ∉ take i l) /\ r = Some p /\ v' = with_list (delete i l) v) \/
       (p ∉ l) /\ r = Some 0 /\ v' = v)
  | OpDeleteIf f d =>
      r = Some 0 /\ v' = with_list (fst (kept_by f d l u)) v /\ u' = snd (kept_by f d l u)
  | OpPop =>
      u' = u /\ (l = [] /\ r = Some 0 /\ v' = v \/
                exists l' x, l = l' ++ [x] /\ r = Some x /\ v' = with_list l' v)
  | OpShift =>
      u' = u /\ (l = [] /\ r = Some 0 /\ v' = v \/
                exists l' x, l = x :: l' /\ r = Some x /\ v' = with_list l' v)
  | OpZero =>
      r = Some 0 /\ u' = u /\ v' = match l with [] => v | _ => View [] (v_comp v) false end
  | OpSet i x =>
      u' = u /\ (if i <? Z.of_nat (length l) then r = Some x /\ v' = with_list (<[Z.to_nat i := x]> l) v
                 else r = Some 0 /\ v' = v)
  | OpSetCmp c =>
      r = Some (v_comp v) /\ v' = View l c (if v_comp v =? c then v_sorted v else false) /\ u' = u
  | OpSort =>
      r = Some 0 /\ u' = u /\
      if (v_comp v =? 0) || v_sorted v then v' = v
      else exists l', l' ≡ₚ l /\ sorted_by (call_cmp (v_comp v)) l' /\ v' = View l' (v_comp v) true
  | OpFind p =>
      v' = v /\ u' = u /\
      if negb (v_comp v =? 0) && (p =? 0) then r = None
      else first_match (equal_to (v_comp v) p) l r
  | OpValue i => r = Some (default 0 (l !! Z.to_nat i)) /\ v' = v /\ u' = u
  | OpNum => r = Some (Z.of_nat (length l)) /\ v' = v /\ u' = u
  end.

Definition args_ok (o : op) : Prop :=
  match o with
  | OpInsert _ w _ | OpDelete w => 0 <= w
  | OpSet i _ | OpValue i => 0 <= i
  | _ => True
  end.
(** [OPENSSL_sk_set] may leave a stack that calls itself sorted unsorted. *)
Definition keeps_flag (o : op) : bool := match o with OpSet _ _ => false | _ => true end.

(** ** Each operation *)

Lemma grow_spec s l ok :
  rep s l -> Z.of_nat (length l) < INT_MAX ->
  match grow s ok with
  | None => ok = false
  | Some s' => rep s' l /\ st_num s' = st_num s /\ (length l < length (st_data s'))%nat /\
               st_sorted s' = st_sorted s /\ st_comp s' = st_comp s
  end.
Proof.
  intros Hr Hm. pose proof Hr as [H1 H2 H3 H4 H5]. pose proof (holds_length _ _ H2). unfold grow, kMinSize, INT_MAX, u64 in *.
  cbv zeta. rewrite (wrap_small 64 (st_num s + 1)) by lia.
  destruct (Z.leb_spec (st_num_alloc s) (st_num s + 1)) as [Hfull|Hroom].
  - rewrite Z.shiftl_mul_pow2, (wrap_small 64 (st_num_alloc s * 2 ^ 1)) by lia.
    rewrite (wrap_small 64) by lia. rewrite Z.div_mul by lia.
    rewrite Z.eqb_refl, !(proj2 (Z.ltb_ge (st_num_alloc s * 2 ^ 1) _)) by lia. cbn [negb orb].
    rewrite Z.div_mul, Z.eqb_refl, (proj2 (Z.ltb_ge _ _)) by lia. cbn [negb orb].
    destruct ok; [|done].
    destruct (holds_resize _ _ (st_num_alloc s * 2 ^ 1) H2) as [Hd Hl]; [lia|].
    split; [|split; [done|split; [cbn [st_data]; lia|done]]].
    split; cbn [st_num st_data st_num_alloc]; unfold kMinSize, INT_MAX; try done; lia.
  - split; [done|]. split; [done|]. split; [lia|done].
Qed.

Lemma insert_run s l p w ok :
  rep s l -> 0 <= w ->
  exists r s' l', OPENSSL_sk_insert (Some s) p w ok = Ret (r, Some s') /\ rep s' l' /\
    insert_spec (view_of s l) p (Z.to_nat w) ok (Some r) (view_of s' l').
Proof.
  intros Hr Hw. unfold OPENSSL_sk_insert. pose proof (rep_num _ _ Hr) as Hn.
  destruct (Z.leb_spec INT_MAX (st_num s)) as [Hm|Hm].
  { exists 0, s, l. rewrite Hn in Hm. split_and!; [done|done|left; auto]. }
  pose proof (grow_spec s l ok Hr ltac:(lia)) as Hg. destruct (grow s ok) as [t|].
  2: { exists 0, s, l. split_and!; [done|done|left; auto]. }
  destruct Hg as (Ht & Hnt & Hroom & _ & Hct). pose proof Ht as [T1 T2 T3 T4 T5].
  unfold INT_MAX, u64 in *. rewrite Hnt, Hn in *.
  assert (forall (m : res (list (option Z))) d, m = Ret d ->
            holds d (take (Z.to_nat w) l ++ p :: drop (Z.to_nat w) l) ->
            length d = length (st_data t) ->
    exists r s' l', (d <- m ;; let num := wrap 64 (Z.of_nat (length l) + 1) in
        Ret (num, Some (Stack num d false (st_num_alloc t) (st_comp t))))%res = Ret (r, Some s') /\
      rep s' l' /\ insert_spec (view_of s l) p (Z.to_nat w) ok (Some r) (view_of s' l')) as Hfin.
  { intros m d -> Hd Hl. cbn [rbind]. rewrite wrap_small by lia. eexists _, _, _.
    split; [done|]. split; [|right; split; [done|]; unfold view_of; cbn; by rewrite Hct].
    split; cbn; [rewrite length_app; cbn [length]; rewrite <- (take_drop (Z.to_nat w) l) at 1;
      rewrite length_app; lia|done|congruence|done|unfold INT_MAX; lia]. }
  destruct (Z.leb_spec (Z.of_nat (length l)) w) as [Hend|Hmid].
  - destruct (wr_snoc _ _ p T2 Hroom) as (d & E & Hd & Hl).
    rewrite <- Hnt in E at 1. apply (Hfin _ d); [by rewrite <- E, Hnt| |done].
    by rewrite take_ge, drop_ge by lia.
  - destruct (cmove_insert _ _ w p T2) as (d1 & d & E1 & E2 & Hd & Hl); [lia|lia|].
    apply (Hfin _ d); [by rewrite E1|done|done].
Qed.

Lemma delete_run s l w :
  rep s l -> 0 <= w ->
  exists s', OPENSSL_sk_delete (Some s) w = Ret (default 0 (l !! Z.to_nat w), Some s') /\
    rep s' (delete (Z.to_nat w) l) /\ st_comp s' = st_comp s /\ st_sorted s' = st_sorted s.
Proof.
  intros Hr Hw. unfold OPENSSL_sk_delete. pose proof Hr as [H1 H2 H3 H4 H5]. rewrite H1.
  destruct (Z.leb_spec (Z.of_nat (length l)) w) as [Hout|Hin].
  { exists s. rewrite lookup_ge_None_2, delete_take_drop, take_ge, drop_ge, app_nil_r by lia. done. }
  destruct (lookup_lt_is_Some_2 l (Z.to_nat w)) as [x Hx]; [lia|].
  rewrite (rd_lookup _ _ _ _ H2 Hx), Hx by lia. cbn [rbind default].
  unfold u64, INT_MAX in *. rewrite wrap_small by lia.
  assert (forall d, holds d (delete (Z.to_nat w) l) -> length d = length (st_data s) ->
            rep (set_num (Z.of_nat (length l) - 1) (set_data d s)) (delete (Z.to_nat w) l)) as Hrep.
  { intros d Hd Hl. assert (length (delete (Z.to_nat w) l) = length l - 1)%nat as Hlen.
    { rewrite delete_take_drop, length_app, length_take, length_drop. lia. }
    split; cbn; [rewrite Hlen; lia|done|congruence|done|unfold INT_MAX; lia]. }
  destruct (Z.eqb_spec w (Z.of_nat (length l) - 1)) as [Hlast|Hnot]; cbn [negb rbind].
  - eexists. split; [done|]. split; [|done]. apply Hrep; [|done].
    rewrite delete_take_drop, (drop_ge l), app_nil_r by lia. by apply holds_take.
  - destruct (cmove_delete _ _ w H2) as (d & E & Hd & Hl); [lia|]. rewrite E. cbn [rbind].
    eexists. split; [done|]. split; [|done]. apply Hrep; [|done]. by rewrite delete_take_drop.
Qed.

Lemma delete_if_run f data d kept junk rest u :
  holds d (kept ++ junk ++ rest) ->
  let r := kept_by f data rest u in
  exists d', delete_if_loop (length rest) (Z.of_nat (length kept + length junk))
               (Z.of_nat (length kept)) d f data u =
               Ret (Z.of_nat (length (kept ++ fst r)), d', snd r) /\
    holds d' (kept ++ fst r) /\ length d' = length d.
Proof.
  revert d kept junk u; induction rest as [|p rest IH]; intros d kept junk u Hd r.
  - exists d. unfold r. cbn. rewrite app_nil_r. split; [done|]. split; [|done].
    by eapply holds_app_l.
  - cbn [length delete_if_loop]. unfold r. cbn [kept_by].
    rewrite (rd_lookup d _ _ p Hd);
      [|rewrite Nat2Z.id, app_assoc; apply list_lookup_middle; by rewrite length_app|lia].
    cbn [rbind]. destruct (call_delete_if f p data u) as [b u1].
    replace (Z.of_nat (length kept + length junk) + 1)
      with (Z.of_nat (length kept + S (length junk))) by lia.
    destruct b.
    + destruct (IH d kept (junk ++ [p]) u1) as (d' & E & H1 & H2); [by rewrite <- app_assoc|].
      destruct (kept_by f data rest u1) as [r1 u2]. cbn [fst snd] in *.
      rewrite length_app, Nat.add_1_r in E. exists d'. done.
    + destruct (wr_holds d _ (Z.of_nat (length kept)) p Hd) as (d1 & E1 & H1 & L1);
        [rewrite !length_app; cbn; lia|].
      rewrite E1. cbn [rbind]. rewrite Nat2Z.id in H1.
      assert (exists junk', length junk' = length junk /\ holds d1 ((kept ++ [p]) ++ junk' ++ rest))
        as (junk' & Hj & H1').
      { rewrite insert_app_r_alt, Nat.sub_diag in H1 by lia. destruct junk as [|j junk]; cbn in H1.
        - exists []. by rewrite <- app_assoc.
        - exists (junk ++ [p]). rewrite length_app, Nat.add_1_r. split; [done|].
          by rewrite <- !app_assoc. }
      destruct (IH d1 (kept ++ [p]) junk' u1 H1') as (d' & E & H2 & L2).
      destruct (kept_by f data rest u1) as [r1 u2]. cbn [fst snd] in *.
      rewrite !length_app, Hj in E. cbn [length] in E.
      rewrite <- app_assoc in H2. exists d'. split; [|split; [done|congruence]].
      replace (Z.of_nat (length kept) + 1) with (Z.of_nat (length kept + 1)) by lia.
      replace (length kept + S (length junk))%nat with (length kept + 1 + length junk)%nat by lia.
      rewrite E. rewrite length_app. cbn [length]. do 3 f_equal. lia.
Qed.

Lemma kept_by_sublist f data l u : sublist (fst (kept_by f data l u)) l.
Proof.
  revert u; induction l as [|p l IH]; intros u; cbn [kept_by]; [constructor|].
  destruct (call_delete_if f p data u) as [b u1]. specialize (IH u1).
  destruct (kept_by f data l u1) as [r u2]. cbn [fst] in *. destruct b; by constructor.
Qed.

(** The elements after an operation other than setting and sorting are a
    subsequence, unless the flag is cleared. *)
Lemma flag_sublist s s' l l' :
  flag_ok s l -> sublist l' l -> st_comp s' = st_comp s -> st_sorted s' = st_sorted s ->
  flag_ok s' l'.
Proof.
  unfold flag_ok. intros Hf Hl -> -> Hs. by eapply sorted_by_sublist; [|apply Hf].
Qed.

Lemma find_index_split l i p :
  first_match (fun x => x = p) l (Some i) ->
  exists k, i = Z.of_nat k /\ l !! k = Some p /\ (p ∉ take k l).
Proof.
  intros (Hi & (x & Hx & ->) & Hb). exists (Z.to_nat i). split; [lia|]. split; [done|].
  intros Hin. apply list_elem_of_lookup_1 in Hin as [j Hj]. rewrite lookup_take_Some in Hj.
  destruct Hj as [Hj Hlt]. by apply (Hb j p).
Qed.

(** The statement for one operation. *)
Definition op_correct (o : op) (s : stack) (l : list Z) (u : usr) : Prop :=
  exists r s' l' u', run_op o s u = Ret (r, Some s', u') /\ rep s' l' /\
    spec_op o (view_of s l) u r (view_of s' l') u' /\ (keeps_flag o = true -> flag_ok s' l').

(** An operation that comes down to [OPENSSL_sk_delete]. *)
Lemma deleted o s l u w :
  rep s l -> flag_ok s l -> 0 <= w ->
  run_op o s u = (x <- OPENSSL_sk_delete (Some s) w ;; Ret (Some (fst x), snd x, u)) ->
  spec_op o (view_of s l) u (Some (default 0 (l !! Z.to_nat w)))
    (with_list (delete (Z.to_nat w) l) (view_of s l)) u ->
  op_correct o s l u.
Proof.
  intros Hr Hf Hw E Hsp. destruct (delete_run s l w Hr Hw) as (s' & E' & H1 & H2 & H3).
  rewrite E' in E. eexists _, s', _, u. split_and!; [exact E|done| |].
  { unfold view_of at 2. rewrite H2, H3. exact Hsp. }
  intros _.
  eapply flag_sublist; [exact Hf|apply sublist_delete|done|done].
Qed.

(** An operation that leaves the stack as it is. *)
Lemma unchanged o s l u r :
  rep s l -> flag_ok s l -> run_op o s u = Ret (r, Some s, u) ->
  spec_op o (view_of s l) u r (view_of s l) u ->
  op_correct o s l u.
Proof. intros Hr Hf E Hsp. by exists r, s, l, u. Qed.

Lemma op_insert s l u p w ok :
  rep s l -> flag_ok s l -> 0 <= w -> op_correct (OpInsert p w ok) s l u.
Proof.
  intros Hr Hf Hw. destruct (insert_run s l p w ok Hr Hw) as (r & s' & l' & E & H1 & H2).
  exists (Some r), s', l', u. cbn [run_op]. rewrite E. split_and!; [done..|]. intros _. unfold flag_ok.
  destruct H2 as [(_ & [= -> -> ->] & _)|(_ & [= _ _ ->])]; done.
Qed.

Lemma op_push s l u p ok : rep s l -> flag_ok s l -> op_correct (OpPush p ok) s l u.
Proof.
  intros Hr Hf. destruct (op_insert s l u p (st_num s) ok Hr Hf) as (r & s' & l' & u' & E & H1 & [H2 ->] & H3).
  { rewrite (rep_num _ _ Hr). lia. }
  rewrite (rep_num _ _ Hr), Nat2Z.id in H2. by exists r, s', l', u.
Qed.

Lemma op_delete_ptr s l u p : rep s l -> flag_ok s l -> op_correct (OpDeletePtr p) s l u.
Proof.
  intros Hr Hf. destruct (ptr_loop_first s l p Hr) as (o & E & Ho). destruct o as [i|].
  - destruct (find_index_split l i p Ho) as (k & -> & Hk & Hnot).
    apply (deleted _ s l u (Z.of_nat k)); [done|done|lia| |].
    + cbn [run_op]. unfold OPENSSL_sk_delete_ptr. by rewrite E.
    + rewrite Nat2Z.id, Hk. split; [done|]. left. by exists k.
  - apply (unchanged _ s l u (Some 0)); [done|done| |].
    + cbn [run_op]. unfold OPENSSL_sk_delete_ptr. by rewrite E.
    + split; [done|]. right. split; [|done].
      intros Hin. apply list_elem_of_lookup_1 in Hin as [j Hj]. by apply (Ho j p).
Qed.

Lemma op_delete_if s l u f data : rep s l -> flag_ok s l -> op_correct (OpDeleteIf f data) s l u.
Proof.
  intros Hr Hf. cbn [run_op]. unfold op_correct. cbn [run_op]. unfold OPENSSL_sk_delete_if.
  rewrite (rep_num _ _ Hr), Nat2Z.id.
  destruct (delete_if_run f data (st_data s) [] [] l u (rep_data _ _ Hr)) as (d & E & Hd & Hl).
  cbn [length Nat.add app] in E, Hd. change (Z.of_nat 0) with 0 in E. rewrite E. cbn [rbind fst snd].
  pose proof (kept_by_sublist f data l u) as Hsub. pose proof (sublist_length _ _ Hsub).
  eexists (Some 0), _, _, _. split; [done|]. split; [|split].
  - pose proof Hr as [H1 H2 H3 H4 H5]. split; cbn [st_num st_data st_num_alloc set_num set_data];
      unfold INT_MAX in *; try done; [congruence|lia].
  - by split.
  - intros _. eapply flag_sublist; [exact Hf|exact Hsub|done|done].
Qed.

Lemma op_pop s l u : rep s l -> flag_ok s l -> op_correct OpPop s l u.
Proof.
  intros Hr Hf. pose proof (rep_num _ _ Hr) as Hn. pose proof (rep_max _ _ Hr) as Hm.
  unfold INT_MAX in Hm. destruct (Z.eqb_spec (st_num s) 0) as [E0|E0].
  - destruct l; [|cbn in Hn; lia]. apply (unchanged _ s [] u (Some 0)); [done|done| |split; auto].
    cbn [run_op]. unfold OPENSSL_sk_pop. by rewrite E0.
  - apply (deleted _ s l u (st_num s - 1)); [done|done|lia| |].
    + cbn [run_op]. unfold OPENSSL_sk_pop, u64.
      by rewrite (proj2 (Z.eqb_neq _ _)), wrap_small by lia.
    + split; [done|]. right. destruct l as [|x l _] using rev_ind; [cbn in Hn; lia|].
      exists l, x. split; [done|].
      replace (Z.to_nat (st_num s - 1)) with (length l) by (rewrite length_app in Hn; cbn in Hn; lia).
      rewrite list_lookup_middle by done. cbn [default].
      by rewrite delete_take_drop, take_app_length, drop_ge, app_nil_r by (rewrite length_app; cbn; lia).
Qed.

Lemma op_shift s l u : rep s l -> flag_ok s l -> op_correct OpShift s l u.
Proof.
  intros Hr Hf. pose proof (rep_num _ _ Hr) as Hn. destruct l as [|x l]; cbn [length] in Hn.
  - apply (unchanged _ s [] u (Some 0)); [done|done| |split; auto].
    cbn [run_op]. unfold OPENSSL_sk_shift. by rewrite (proj2 (Z.eqb_eq _ _)) by lia.
  - apply (deleted _ s _ u 0); [done|done|done| |split; [done|]; right; by exists l, x].
    cbn [run_op]. unfold OPENSSL_sk_shift. by rewrite (proj2 (Z.eqb_neq _ _)) by lia.
Qed.

Lemma op_zero s l u : rep s l -> flag_ok s l -> op_correct OpZero s l u.
Proof.
  intros Hr Hf. pose proof Hr as [H1 H2 H3 H4 H5]. unfold op_correct. cbn [run_op].
  unfold OPENSSL_sk_zero. destruct (Z.eqb_spec (st_num s) 0) as [E0|E0].
  - exists (Some 0), s, l, u. destruct l; [|cbn in H1; lia]. done.
  - replace (replicate (Z.to_nat (st_num s)) (Some 0))
      with (Some <$> replicate (Z.to_nat (st_num s)) 0) by apply fmap_replicate.
    destruct (splice_holds _ _ 0 (replicate (Z.to_nat (st_num s)) 0) H2) as (d & E & Hl & Hd);
      [lia|rewrite length_replicate; pose proof (holds_length _ _ H2); lia|].
    rewrite E. cbn [rbind]. eexists (Some 0), _, [], u. split_and!; [done| | |done].
    2: { split; [done|]. split; [done|]. destruct l; [cbn in H1; lia|done]. }
    split; cbn [st_num st_data st_num_alloc]; [done| |congruence|done|by unfold INT_MAX].
    by apply (holds_app_l d []) in Hd.
Qed.

Lemma op_set s l u i v : rep s l -> flag_ok s l -> 0 <= i -> op_correct (OpSet i v) s l u.
Proof.
  intros Hr Hf Hi. unfold op_correct. cbn [run_op spec_op keeps_flag]. unfold OPENSSL_sk_set.
  rewrite (rep_num _ _ Hr). cbn [view_of v_list].
  destruct (Z.leb_spec (Z.of_nat (length l)) i) as [Hout|Hin].
  - rewrite (proj2 (Z.ltb_ge _ _)) by lia. by exists (Some 0), s, l, u.
  - rewrite (proj2 (Z.ltb_lt _ _)) by lia.
    destruct (wr_holds _ _ i v (rep_data _ _ Hr)) as (d & E & Hd & Hl); [lia|].
    rewrite E. cbn [rbind]. eexists (Some v), _, _, u. split_and!; [done| |done..].
    eapply rep_set_data; [done|done|done|by rewrite length_insert].
Qed.

Lemma op_set_cmp s l u comp : rep s l -> flag_ok s l -> op_correct (OpSetCmp comp) s l u.
Proof.
  intros Hr Hf. exists (Some (st_comp s)). eexists _, l, u. split_and!; [done| | |].
  - destruct Hr. by split.
  - split; [done|]. split; [|done]. unfold view_of. cbn. by destruct (st_comp s =? comp).
  - intros _. unfold flag_ok in *. cbn [st_sorted st_comp].
    by destruct (Z.eqb_spec (st_comp s) comp) as [<-|].
Qed.

Lemma op_sort s l u :
  CmpOrder (call_cmp (st_comp s)) -> rep s l -> flag_ok s l -> op_correct OpSort s l u.
Proof.
  intros Hcmp Hr Hf. destruct (Z.eqb_spec (st_comp s) 0) as [E0|E0]; [|destruct (st_sorted s) eqn:Es].
  - apply (unchanged _ s l u (Some 0)); [done|done| |].
    + cbn [run_op]. unfold OPENSSL_sk_sort. by rewrite E0.
    + cbn. by rewrite E0.
  - apply (unchanged _ s l u (Some 0)); [done|done| |].
    + cbn [run_op]. unfold OPENSSL_sk_sort. by rewrite Es, orb_true_r.
    + cbn. by rewrite Es, orb_true_r.
  - destruct (sort_run (st_comp s) s l Hr eq_refl E0 Es) as (s' & l' & E & H1 & H2 & H3 & H4 & H5).
    exists (Some 0), s', l', u. cbn [run_op]. rewrite E. split_and!; [done|done| |].
    + cbn. rewrite (proj2 (Z.eqb_neq _ _) E0), Es. split_and!; [done..|]. exists l'.
      unfold view_of. by rewrite H2, H3.
    + intros _. unfold flag_ok. by rewrite H2.
Qed.

Lemma op_find s l u p :
  CmpOrder (call_cmp (st_comp s)) -> rep s l -> flag_ok s l -> op_correct (OpFind p) s l u.
Proof.
  intros Hcmp Hr Hf.
  assert (exists o, OPENSSL_sk_find (Some s) p = Ret o /\
    if negb (st_comp s =? 0) && (p =? 0) then o = None
    else first_match (equal_to (st_comp s) p) l o) as (o & E & Ho).
  { destruct (negb (st_comp s =? 0) && (p =? 0)) eqn:Eb.
    - exists None. unfold OPENSSL_sk_find. apply andb_true_iff in Eb as [E1 E2].
      apply negb_true_iff in E1. by rewrite E1, E2.
    - apply find_spec; [done|done|done|]. destruct (Z.eqb_spec (st_comp s) 0); [by left|].
      right. by apply Z.eqb_neq. }
  apply (unchanged _ s l u o); [done|done| |by split].
  cbn [run_op]. by rewrite E.
Qed.
Lemma op_value s l u i : rep s l -> flag_ok s l -> 0 <= i -> op_correct (OpValue i) s l u.
Proof.
  intros Hr Hf Hi. apply (unchanged _ s l u (Some (default 0 (l !! Z.to_nat i)))); [done|done| |by split].
  cbn [run_op]. unfold OPENSSL_sk_value. rewrite (rep_num _ _ Hr).
  destruct (Z.leb_spec (Z.of_nat (length l)) i) as [Hout|Hin].
  - by rewrite lookup_ge_None_2 by lia.
  - destruct (lookup_lt_is_Some_2 l (Z.to_nat i)) as [x Hx]; [lia|].
    by rewrite (rd_lookup _ _ _ _ (rep_data _ _ Hr) Hx), Hx by lia.
Qed.
Lemma op_num s l u : rep s l -> flag_ok s l -> op_correct OpNum s l u.
Proof.
  intros Hr Hf. apply (unchanged _ s l u (Some (Z.of_nat (length l)))); [done|done| |by split].
  cbn [run_op OPENSSL_sk_num]. by rewrite (rep_num _ _ Hr).
Qed.

(** All of them. *)
Lemma op_all o s l u :
  (forall f, CmpOrder (call_cmp f)) -> rep s l -> flag_ok s l -> args_ok o -> op_correct o s l u.
Proof.
  intros Hcmp Hr Hf Ha. destruct o as [p w ok|p ok|w|p|f data| | | |i v|comp| |p|i|].
  - by apply op_insert.
  - by apply op_push.
  - by apply (deleted _ s l u w).
  - by apply op_delete_ptr.
  - by apply op_delete_if.
  - by apply op_pop.
  - by apply op_shift.
  - by apply op_zero.
  - by apply op_set.
  - by apply op_set_cmp.
  - by apply op_sort.
  - by apply op_find.
  - by apply op_value.
  - by apply op_num.
Qed.

(** ** Sequences of operations *)

(** The stacks a program can get from [OPENSSL_sk_new], [OPENSSL_sk_set] aside. *)
Inductive reachable : stack -> usr -> Prop :=
| reach_new comp s u : OPENSSL_sk_new comp true true = Some s -> reachable s u
| reach_op o s u r s' u' :
    reachable s u -> args_ok o -> keeps_flag o = true -> run_op o s u = Ret (r, Some s', u') ->
    reachable s' u'.

Lemma new_rep comp s : OPENSSL_sk_new comp true true = Some s -> rep s [] /\ flag_ok s [].
Proof. intros [= <-]. split; [|done]. by split; [|exists (replicate 4 (Some 0))|..]. Qed.

Lemma reachable_rep s u :
  (forall f, CmpOrder (call_cmp f)) -> reachable s u -> exists l, rep s l /\ flag_ok s l.
Proof.
  intros Hcmp. induction 1 as [comp s u E|o s u r s' u' _ (l & Hr & Hf) Ha Hk E].
  - exists []. by eapply new_rep.
  - destruct (op_all o s l u Hcmp Hr Hf Ha) as (r1 & s1 & l1 & u1 & E1 & H1 & _ & H3).
    rewrite E in E1. injection E1 as -> -> ->. exists l1. auto.
Qed.

End ops.

(** C20: Insertion, push, the four deletions, pop, shift, zero, set, sort, find, value,
    num and the change of the comparison function.  On a stack that holds the list
    [l] each returns (no assertion fails, nothing outside the array is touched) with
    the reply of [spec_op], leaves a stack whose list, comparison function and
    [sorted] flag are those of [spec_op] (a sort leaves the ascending permutation and
    the flag set, find answers with the first equal element), and leaves the flag
    honest, except for [OPENSSL_sk_set]. *)
Theorem stack_op_correct `{StackEnv} o s l u :
  (forall f, CmpOrder (call_cmp f)) -> rep s l -> flag_ok s l -> args_ok o ->
  exists r s' l' u', run_op o s u = Ret (r, Some s', u') /\ rep s' l' /\
    spec_op o (view_of s l) u r (view_of s' l') u' /\ (keeps_flag o = true -> flag_ok s' l').
Proof. apply op_all. Qed.

(** C35: After any sequence of the operations other than [OPENSSL_sk_set] on a new
    stack the stack holds a list, within its capacity, the flag tells the truth about it,
    and the next operation (which may be [OPENSSL_sk_set]) returns: there is no way into undefined behaviour. *)
Theorem stack_invariant `{StackEnv} s u :
  (forall f, CmpOrder (call_cmp f)) -> reachable s u ->
  (exists l, rep s l /\ flag_ok s l) /\
  (forall o, args_ok o -> exists r s' u', run_op o s u = Ret (r, Some s', u')).
Proof.
  intros Hcmp Hs. destruct (reachable_rep s u Hcmp Hs) as (l & Hr & Hf). split; [by exists l|].
  intros o Ha. destruct (op_all o s l u Hcmp Hr Hf Ha) as (r & s' & l' & u' & E & _).
  by exists r, s', u'.
Qed.

(** ** A concrete stack *)

(** Elements are compared as numbers; odd ones are deleted; copies are the same. *)
#[export] Instance number_env : StackEnv := {|
  usr := unit;
  call_cmp _ a b := a - b;
  call_free _ _ u := u;
  call_delete_if _ p _ u := (Z.odd p, u);
  call_copy _ p u := (p, u)
|}.
#[export] Instance number_order f : CmpOrder (call_cmp (StackEnv := number_env) f).
Proof. split; cbn; lia. Qed.

Ltac sorted_list :=
  unfold sorted_by;
  repeat first [apply SSorted_nil | apply SSorted_cons | apply List.Forall_nil | apply List.Forall_cons];
  unfold cmp_le; cbn; lia.

Definition stack_of (l : list Z) (sorted : bool) : stack :=
  Stack (Z.of_nat (length l)) ((Some <$> l) ++ replicate (6 - length l) None) sorted 6 1.
Lemma stack_of_rep l sorted : (length l <= 5)%nat -> rep (stack_of l sorted) l.
Proof.
  intros Hl. split; cbn [st_num st_data st_num_alloc stack_of]; [done|by eexists| |done|].
  - rewrite length_app, length_fmap, length_replicate. lia.
  - unfold INT_MAX. lia.
Qed.

Lemma sort_correct_witness :
  exists s' l', OPENSSL_sk_sort (Some (stack_of [5; 2; 9; 2; 7] false)) = Ret (Some s') /\
    rep s' l' /\ st_comp s' = 1 /\ st_sorted s' = true /\
    sorted_by (call_cmp 1) l' /\ l' ≡ₚ [5; 2; 9; 2; 7].
Proof.
  apply (sort_correct 1 (stack_of [5; 2; 9; 2; 7] false) [5; 2; 9; 2; 7]);
    [apply number_order|apply stack_of_rep; cbn; lia|reflexivity|lia|reflexivity].
Defined.
Example sort_result :
  OPENSSL_sk_sort (Some (stack_of [5; 2; 9; 2; 7] false)) = Ret (Some (stack_of [2; 2; 5; 7; 9] true)).
Proof. reflexivity. Qed.

Definition user0 : usr (StackEnv := number_env) := tt.

Lemma stack_op_correct_witness :
  exists r s' l' u', run_op (OpInsert 4 1 true) (stack_of [2; 5; 7; 9; 9] true) user0 =
      Ret (r, Some s', u') /\ rep s' l' /\
    spec_op (OpInsert 4 1 true) (View [2; 5; 7; 9; 9] 1 true) user0 r (view_of s' l') u' /\
    (keeps_flag (OpInsert 4 1 true) = true -> flag_ok s' l').
Proof.
  apply (stack_op_correct (OpInsert 4 1 true) (stack_of [2; 5; 7; 9; 9] true) [2; 5; 7; 9; 9] user0);
    [intros f; apply number_order|apply stack_of_rep; cbn; lia| |cbn; lia].
  intros _. sorted_list.
Defined.

(** Two pushes and a sort. *)
Lemma pushed_reachable : reachable (Stack 2 [Some 3; Some 8; Some 0; Some 0] true 4 1) user0.
Proof.
  apply (reach_op OpSort (Stack 2 [Some 8; Some 3; Some 0; Some 0] false 4 1) user0 (Some 0)); [|done..].
  apply (reach_op (OpPush 3 true) (Stack 1 [Some 8; Some 0; Some 0; Some 0] false 4 1) user0 (Some 2)); [|done..].
  apply (reach_op (OpPush 8 true) (Stack 0 [Some 0; Some 0; Some 0; Some 0] false 4 1) user0 (Some 1)); [|done..].
  by apply (reach_new 1).
Qed.
Lemma stack_invariant_witness :
  (exists l, rep (Stack 2 [Some 3; Some 8; Some 0; Some 0] true 4 1) l /\
             flag_ok (Stack 2 [Some 3; Some 8; Some 0; Some 0] true 4 1) l) /\
  (forall o, args_ok o -> exists r s' u',
     run_op o (Stack 2 [Some 3; Some 8; Some 0; Some 0] true 4 1) user0 = Ret (r, Some s', u')).
Proof.
  apply (stack_invariant (Stack 2 [Some 3; Some 8; Some 0; Some 0] true 4 1) user0);
    [intros f; apply number_order|apply pushed_reachable].
Defined.

(** [OPENSSL_sk_set] keeps the [sorted] flag although it may break the order:
    after element 0 of the sorted stack [1; 3] is set to 5, [OPENSSL_sk_find] does
    not find 3, which is an element of the stack. *)
Theorem set_breaks_find :
  exists s, OPENSSL_sk_set (Some (stack_of [1; 3] true)) 0 5 = Ret (5, Some s) /\
    rep s [5; 3] /\ st_sorted s = true /\ OPENSSL_sk_find (Some s) 3 = Ret None.
Proof.
  exists (stack_of [5; 3] true). split; [reflexivity|]. split; [apply stack_of_rep; cbn; lia|].
  split; reflexivity.
Qed.
