(* ===== verification/Lhash.v ===== *)
(** * BoringSSL: hash tables (crypto/lhash/lhash.c)

    A table is an array of chains.  A chain is the list of its items, and the
    pointer to a [next] field (or to the bucket) that [get_next_ptr_and_hash]
    returns is a position in the chain: the item found, or the end.  The hash and
    comparison functions of the user are the fields of [LhEnv]; allocation failure
    is a boolean per request.  The callback of [OPENSSL_lh_doall_arg] works on a
    state of the user and does not change the table here. *)
From Stdlib Require Import ZArith Lia.
From stdpp Require Import prelude list numbers.
From S2P Require Import Prelude CMem Cells.
Local Open Scope Z_scope.
Local Open Scope res_scope.

Record lhash_item := LhItem { li_data : Z; li_hash : Z }.
Record lhash := Lhash {
  lh_num_items : Z;
  lh_buckets : list (list lhash_item);
  lh_num_buckets : Z;
  callback_depth : Z;
  lh_comp : Z;
  lh_hash : Z
}.

Class LhEnv := {
  call_hash_func : Z -> Z -> Z;           (** the function, the data *)
  call_cmp_func : Z -> Z -> Z -> Z
}.

Definition kMinNumBuckets : Z := 16.
Definition kMaxAverageChainLength : Z := 2.
Definition kMinAverageChainLength : Z := 1.
Definition UINT_MAX : Z := 2 ^ 32 - 1.

Definition set_buckets (b : list (list lhash_item)) (lh : lhash) : lhash :=
  Lhash (lh_num_items lh) b (lh_num_buckets lh) (callback_depth lh) (lh_comp lh) (lh_hash lh).
Definition set_num_items (n : Z) (lh : lhash) : lhash :=
  Lhash n (lh_buckets lh) (lh_num_buckets lh) (callback_depth lh) (lh_comp lh) (lh_hash lh).
Definition set_depth (n : Z) (lh : lhash) : lhash :=
  Lhash (lh_num_items lh) (lh_buckets lh) (lh_num_buckets lh) n (lh_comp lh) (lh_hash lh).

(** The chain of bucket [i]; there is none outside the array. *)
Definition rd_bucket (b : list (list lhash_item)) (i : Z) : res (list lhash_item) :=
  if i <? 0 then UB else match b !! Z.to_nat i with Some ch => Ret ch | None => UB end.

Section lhash.
Context `{LhEnv}.

Definition OPENSSL_lh_new (hash comp : Z) (ok_struct ok_buckets : bool) : option lhash :=
  if ok_struct && ok_buckets
  then Some (Lhash 0 (replicate (Z.to_nat kMinNumBuckets) []) kMinNumBuckets 0 comp hash)
  else None.

Definition OPENSSL_lh_num_items (lh : lhash) : Z := lh_num_items lh.

(** The position of the first item for which [eq] holds, or the end. *)
Fixpoint chain_pos (eq : Z -> bool) (ch : list lhash_item) : nat :=
  match ch with
  | [] => 0
  | cur :: next => if eq (li_data cur) then 0 else S (chain_pos eq next)
  end.

(** The hash, the bucket, its chain and the position. *)
Definition get_next_ptr_and_hash (lh : lhash) (data : Z) :
    res (Z * Z * list lhash_item * nat) :=
  let hash := call_hash_func (lh_hash lh) data in
  let i := hash mod lh_num_buckets lh in
  ch <- rd_bucket (lh_buckets lh) i ;;
  Ret (hash, i, ch, chain_pos (fun d => call_cmp_func (lh_comp lh) d data =? 0) ch).

Definition get_next_ptr_by_key (lh : lhash) (key key_hash : Z) (cmp_key : Z -> Z -> Z) :
    res (list lhash_item * nat) :=
  ch <- rd_bucket (lh_buckets lh) (key_hash mod lh_num_buckets lh) ;;
  Ret (ch, chain_pos (fun d => cmp_key key d =? 0) ch).

(** [*next_ptr == NULL ? NULL : ( *next_ptr)->data] *)
Definition data_at (ch : list lhash_item) (pos : nat) : Z :=
  match ch !! pos with Some it => li_data it | None => 0 end.

Definition OPENSSL_lh_retrieve (lh : lhash) (data : Z) : res Z :=
  x <- get_next_ptr_and_hash lh data ;;
  let '(_, _, ch, pos) := x in Ret (data_at ch pos).

Definition OPENSSL_lh_retrieve_key (lh : lhash) (key key_hash : Z) (cmp_key : Z -> Z -> Z) :
    res Z :=
  x <- get_next_ptr_by_key lh key key_hash cmp_key ;;
  let '(ch, pos) := x in Ret (data_at ch pos).

(** An item goes to the head of its new chain. *)
Definition move_item (new_num_buckets : Z) (new : list (list lhash_item)) (cur : lhash_item) :
    list (list lhash_item) :=
  alter (cons cur) (Z.to_nat (li_hash cur mod new_num_buckets)) new.

Definition lh_rebucket (lh : lhash) (new_num_buckets : Z) (ok : bool) : lhash :=
  let alloc_size := u64 (8 * new_num_buckets) in
  if negb (alloc_size / 8 =? new_num_buckets) then lh
  else if negb ok then lh
  else
    let new := foldl (foldl (move_item new_num_buckets))
                     (replicate (Z.to_nat new_num_buckets) []) (lh_buckets lh) in
    Lhash (lh_num_items lh) new new_num_buckets (callback_depth lh) (lh_comp lh) (lh_hash lh).

Definition lh_maybe_resize (lh : lhash) (ok : bool) : res lhash :=
  if 0 <? callback_depth lh then Ret lh
  else
    _ <- c_assert (kMinNumBuckets <=? lh_num_buckets lh) ;;
    let avg_chain_length := lh_num_items lh / lh_num_buckets lh in
    if kMaxAverageChainLength <? avg_chain_length then
      let new_num_buckets := u64 (lh_num_buckets lh * 2) in
      if lh_num_buckets lh <? new_num_buckets then Ret (lh_rebucket lh new_num_buckets ok)
      else Ret lh
    else if (avg_chain_length <? kMinAverageChainLength) &&
            (kMinNumBuckets <? lh_num_buckets lh) then
      let new_num_buckets := lh_num_buckets lh / 2 in
      let new_num_buckets :=
        if new_num_buckets <? kMinNumBuckets then kMinNumBuckets else new_num_buckets in
      Ret (lh_rebucket lh new_num_buckets ok)
    else Ret lh.

(** The result, [*old_data] and the table. *)
Definition OPENSSL_lh_insert (lh : lhash) (data : Z) (ok_item ok_buckets : bool) :
    res (bool * Z * lhash) :=
  x <- get_next_ptr_and_hash lh data ;;
  let '(hash, i, ch, pos) := x in
  match ch !! pos with
  | Some it =>
      let ch := <[pos := LhItem data (li_hash it)]> ch in
      Ret (true, li_data it, set_buckets (<[Z.to_nat i := ch]> (lh_buckets lh)) lh)
  | None =>
      if negb ok_item then Ret (false, 0, lh)
      else
        let ch := ch ++ [LhItem data hash] in
        let lh := set_buckets (<[Z.to_nat i := ch]> (lh_buckets lh)) lh in
        let lh := set_num_items (u64 (lh_num_items lh + 1)) lh in
        lh <- lh_maybe_resize lh ok_buckets ;;
        Ret (true, 0, lh)
  end.

Definition OPENSSL_lh_delete (lh : lhash) (data : Z) (ok_buckets : bool) : res (Z * lhash) :=
  x <- get_next_ptr_and_hash lh data ;;
  let '(hash, i, ch, pos) := x in
  match ch !! pos with
  | None => Ret (0, lh)
  | Some it =>
      let lh := set_buckets (<[Z.to_nat i := delete pos ch]> (lh_buckets lh)) lh in
      let lh := set_num_items (u64 (lh_num_items lh - 1)) lh in
      lh <- lh_maybe_resize lh ok_buckets ;;
      Ret (li_data it, lh)
  end.

(** [func(cur->data, arg)], a step of the user's state, for every item. *)
Definition OPENSSL_lh_doall_arg {St} (lh : lhash) (func : Z -> St -> St) (u : St)
    (ok_buckets : bool) : res (lhash * St) :=
  let lh := if callback_depth lh <? UINT_MAX then set_depth (callback_depth lh + 1) lh else lh in
  let u := foldl (foldl (fun u it => func (li_data it) u)) u (lh_buckets lh) in
  let lh := if callback_depth lh <? UINT_MAX then set_depth (u32 (callback_depth lh - 1)) lh
            else lh in
  lh <- lh_maybe_resize lh ok_buckets ;;
  Ret (lh, u).

End lhash.
