(* ===== verification/LhashSpec.v ===== *)
(** * BoringSSL: a hash table is a finite map

    The operations of lhash.c against a [gmap] from keys to data, where the key of
    an element is what the comparison function looks at.  Every operation keeps the
    representation, resizing included, and the load factor stays between its bounds
    as long as the allocator has memory. *)
From Stdlib Require Import ZArith Lia.
From stdpp Require Import prelude list gmap numbers.
From S2P Require Import Prelude CMem Cells Lhash.
Local Open Scope Z_scope.
Local Open Scope res_scope.

(** Changing one chain. *)
Lemma concat_insert {A} (b : list (list A)) i ch :
  b !! i = Some ch ->
  exists rest, concat b ≡ₚ ch ++ rest /\ forall ch', concat (<[i := ch']> b) ≡ₚ ch' ++ rest.
Proof.
  revert i; induction b as [|c b IH]; intros i Hi; [done|]. destruct i as [|i]; cbn in Hi.
  - injection Hi as ->. by exists (concat b).
  - destruct (IH i Hi) as (rest & H1 & H2). exists (c ++ rest). cbn. split; [|intros ch'].
    + rewrite H1. by rewrite Permutation_app_swap_app.
    + rewrite H2. by rewrite Permutation_app_swap_app.
Qed.

Lemma foldl_concat {A B} (f : A -> B -> A) (b : list (list B)) a :
  foldl (foldl f) a b = foldl f a (concat b).
Proof. revert a; induction b as [|c b IH]; intros a; [done|]. cbn. by rewrite foldl_app, IH. Qed.

Lemma concat_nils {A} n : concat (replicate n (@nil A)) = [].
Proof. induction n as [|n IH]; [done|]. exact IH. Qed.

Section spec.
Context {env : LhEnv} {K : Type} {K_eq : EqDecision K} {K_count : Countable K} (key : Z -> K) (hashf compf : Z).

(** The functions of the user look at the key only. *)
Class KeyFuncs : Prop := {
  cmp_key a b : call_cmp_func compf a b = 0 <-> key a = key b;
  hash_key a b : key a = key b -> call_hash_func hashf a = call_hash_func hashf b;
  hash_range a : 0 <= call_hash_func hashf a < 2 ^ 32
}.
Context `{!KeyFuncs}.

Definition entry (it : lhash_item) : K * Z := (key (li_data it), li_data it).

(** ** Lists of items and maps *)

Definition holds_map (its : list lhash_item) (m : gmap K Z) : Prop :=
  NoDup ((entry <$> its).*1) /\ list_to_map (entry <$> its) = m.

Lemma holds_map_perm its its' m : its ≡ₚ its' -> holds_map its m -> holds_map its' m.
Proof.
  intros Hp [Hn Hm]. split.
  - by rewrite <- Hp.
  - rewrite <- Hm. symmetry. apply list_to_map_proper; [done|]. by rewrite Hp.
Qed.
Lemma holds_map_size its m : holds_map its m -> size m = length its.
Proof.
  intros [Hn <-]. rewrite <- length_map_to_list, map_to_list_to_map by done. by rewrite length_fmap.
Qed.
Lemma holds_map_lookup its m k d :
  holds_map its m -> m !! k = Some d <-> exists it, (it ∈ its) /\ li_data it = d /\ key d = k.
Proof.
  intros [Hn <-]. rewrite <- elem_of_list_to_map by done. rewrite list_elem_of_fmap. split.
  - intros (it & E & Hin). injection E as -> ->. by exists it.
  - intros (it & Hin & <- & <-). by exists it.
Qed.
Lemma holds_map_cons it its m :
  holds_map (it :: its) m ->
  holds_map its (delete (key (li_data it)) m) /\ m !! key (li_data it) = Some (li_data it).
Proof.
  intros [Hn <-]. cbn in *. apply list.NoDup_cons in Hn as [Hnot Hn]. split; [split; [done|]|].
  - rewrite delete_insert_id; [done|]. by apply not_elem_of_list_to_map_1.
  - apply lookup_insert_eq.
Qed.
Lemma holds_map_add it its m :
  holds_map its m -> m !! key (li_data it) = None ->
  holds_map (it :: its) (<[key (li_data it) := li_data it]> m).
Proof.
  intros [Hn <-] Hm. split; [|done]. cbn. apply list.NoDup_cons. split; [|done].
  by apply not_elem_of_list_to_map_2 in Hm.
Qed.
(** Another element with the same key in place of one. *)
Lemma holds_map_replace it it' its m :
  holds_map (it :: its) m -> key (li_data it') = key (li_data it) ->
  holds_map (it' :: its) (<[key (li_data it') := li_data it']> m).
Proof.
  intros Hm E. destruct (holds_map_cons _ _ _ Hm) as [Hr _].
  rewrite <- (insert_delete_eq m). rewrite E in *. rewrite <- E at 1.
  apply (holds_map_add it'); [done|]. rewrite E. apply lookup_delete_eq.
Qed.

(** ** Tables *)

Record lrep (lh : lhash) (m : gmap K Z) : Prop := {
  lr_comp : lh_comp lh = compf;
  lr_hash : lh_hash lh = hashf;
  lr_num : lh_num_items lh = Z.of_nat (size m);
  lr_len : Z.of_nat (length (lh_buckets lh)) = lh_num_buckets lh;
  lr_size : kMinNumBuckets <= lh_num_buckets lh < 2 ^ 61;
  lr_place i ch it : lh_buckets lh !! i = Some ch -> it ∈ ch ->
    li_hash it = call_hash_func hashf (li_data it) /\
    li_hash it mod lh_num_buckets lh = Z.of_nat i;
  lr_map : holds_map (concat (lh_buckets lh)) m
}.

(** ** Searching *)

Lemma chain_pos_found eq ch it :
  ch !! chain_pos eq ch = Some it -> it ∈ ch /\ eq (li_data it) = true.
Proof.
  induction ch as [|c ch IH]; [done|]. cbn [chain_pos]. destruct (eq (li_data c)) eqn:E.
  - intros [= ->]. split; [by left|done].
  - cbn. intros Hi. destruct (IH Hi). split; [by right|done].
Qed.
Lemma chain_pos_none eq ch it :
  ch !! chain_pos eq ch = None -> it ∈ ch -> eq (li_data it) = false.
Proof.
  induction ch as [|c ch IH]; [intros _ Hi; by apply elem_of_nil in Hi|]. cbn [chain_pos].
  destruct (eq (li_data c)) eqn:E; [done|]. cbn. intros Hn Hi.
  apply elem_of_cons in Hi as [->|Hi]; auto.
Qed.

(** The chain in which an element with the key of [data] would be. *)
Lemma find_chain lh m (eq : Z -> bool) h k :
  lrep lh m -> (forall d, eq d = true <-> key d = k) ->
  (forall d, key d = k -> call_hash_func hashf d = h) -> 0 <= h ->
  exists ch, rd_bucket (lh_buckets lh) (h mod lh_num_buckets lh) = Ret ch /\
    lh_buckets lh !! Z.to_nat (h mod lh_num_buckets lh) = Some ch /\
    match ch !! chain_pos eq ch with
    | Some it => it ∈ ch /\ key (li_data it) = k /\ m !! k = Some (li_data it)
    | None => m !! k = None
    end.
Proof.
  intros Hr Heq Hh Hpos. pose proof Hr as [_ _ _ Hlen Hsz Hpl Hm].
  unfold kMinNumBuckets in *. pose proof (Z.mod_pos_bound h (lh_num_buckets lh) ltac:(lia)) as Hmod.
  destruct (lookup_lt_is_Some_2 (lh_buckets lh) (Z.to_nat (h mod lh_num_buckets lh))) as [ch Hch]; [lia|].
  exists ch. unfold rd_bucket. rewrite (proj2 (Z.ltb_ge _ _)), Hch by lia.
  split; [done|]. split; [done|]. destruct (ch !! chain_pos eq ch) as [it|] eqn:E.
  - apply chain_pos_found in E as [Hin He]. apply Heq in He. split; [done|]. split; [done|].
    apply (holds_map_lookup _ _ _ _ Hm). exists it. split; [|done].
    apply list_elem_of_In, in_concat. exists ch. split; apply list_elem_of_In; [|done].
    by eapply list_elem_of_lookup_2.
  - destruct (m !! k) as [d|] eqn:Ek; [|done]. exfalso.
    apply (holds_map_lookup _ _ _ _ Hm) in Ek as (it & Hin & <- & Hk).
    apply list_elem_of_In, in_concat in Hin as (ch' & Hch' & Hin).
    apply list_elem_of_In in Hch', Hin. apply list_elem_of_lookup_1 in Hch' as [i Hi].
    destruct (Hpl i ch' it Hi Hin) as [Hhash Hplace]. rewrite Hhash, (Hh _ Hk) in Hplace.
    assert (i = Z.to_nat (h mod lh_num_buckets lh)) as -> by lia.
    rewrite Hch in Hi. injection Hi as ->. pose proof (chain_pos_none _ _ _ E Hin) as Hf.
    by rewrite (proj2 (Heq _) Hk) in Hf.
Qed.

Lemma next_ptr lh m data :
  lrep lh m ->
  exists h i ch pos, get_next_ptr_and_hash lh data = Ret (h, i, ch, pos) /\
    h = call_hash_func hashf data /\ i = h mod lh_num_buckets lh /\
    lh_buckets lh !! Z.to_nat i = Some ch /\
    match ch !! pos with
    | Some it => it ∈ ch /\ key (li_data it) = key data /\ m !! key data = Some (li_data it)
    | None => m !! key data = None
    end.
Proof.
  intros Hr. unfold get_next_ptr_and_hash. rewrite (lr_hash _ _ Hr), (lr_comp _ _ Hr).
  destruct (find_chain lh m (fun d => call_cmp_func compf d data =? 0)
              (call_hash_func hashf data) (key data) Hr) as (ch & E & Hch & Hf).
  - intros d. rewrite Z.eqb_eq. apply cmp_key.
  - intros d. apply hash_key.
  - apply hash_range.
  - rewrite E. cbn [rbind]. eexists _, _, ch, _. split; [done|]. done.
Qed.

(** ** Resizing *)

Lemma move_items n its b :
  0 < n -> Z.of_nat (length b) = n ->
  (forall i ch it, b !! i = Some ch -> it ∈ ch -> li_hash it mod n = Z.of_nat i) ->
  let b' := foldl (move_item n) b its in
  Z.of_nat (length b') = n /\ concat b' ≡ₚ its ++ concat b /\
  (forall i ch it, b' !! i = Some ch -> it ∈ ch -> li_hash it mod n = Z.of_nat i).
Proof.
  intros Hn. revert b; induction its as [|it its IH]; intros b Hl Hp; [done|]. cbn [foldl].
  pose proof (Z.mod_pos_bound (li_hash it) n Hn) as Hmod.
  destruct (lookup_lt_is_Some_2 b (Z.to_nat (li_hash it mod n))) as [ch Hch]; [lia|].
  assert (move_item n b it = <[Z.to_nat (li_hash it mod n) := it :: ch]> b) as E.
  { unfold move_item. apply list_eq. intros j. destruct (decide (j = Z.to_nat (li_hash it mod n))) as [->|Hj].
    - rewrite list_lookup_alter_eq, Hch, list_lookup_insert_eq by (by eapply lookup_lt_Some). done.
    - by rewrite list_lookup_alter_ne, list_lookup_insert_ne by done. }
  destruct (IH (move_item n b it)) as (H1 & H2 & H3).
  - by rewrite E, length_insert.
  - intros i c x Hc Hx. rewrite E in Hc. apply list_lookup_insert_Some in Hc as [(<- & <- & _)|[_ Hc]].
    + apply elem_of_cons in Hx as [->|Hx]; [lia|]. by eapply Hp.
    + by eapply Hp.
  - split; [done|]. split; [|done]. rewrite H2, E.
    destruct (concat_insert b _ ch Hch) as (rest & Hb & Hb'). rewrite Hb', Hb. cbn.
    symmetry. apply Permutation_middle.
Qed.

Lemma rebucket_rep lh m n ok :
  lrep lh m -> kMinNumBuckets <= n < 2 ^ 62 -> lrep (lh_rebucket lh n ok) m.
Proof.
  intros Hr Hn. unfold lh_rebucket. destruct (Z.eqb_spec (u64 (8 * n) / 8) n) as [E|]; [|done].
  cbn [negb]. destruct ok; [|done]. cbn [negb]. unfold kMinNumBuckets in *.
  assert (n < 2 ^ 61) as Hn'.
  { rewrite <- E. apply Z.div_lt_upper_bound; [lia|]. apply (wrap_range 64). lia. }
  rewrite foldl_concat.
  destruct (move_items n (concat (lh_buckets lh)) (replicate (Z.to_nat n) []))
    as (H1 & H2 & H3); [lia|rewrite length_replicate; lia| |].
  { intros i ch it Hi Hin. apply lookup_replicate in Hi as [-> _]. by apply elem_of_nil in Hin. }
  pose proof (concat_nils (Z.to_nat n) (A := lhash_item)) as E0.
  rewrite E0, app_nil_r in H2. destruct Hr as [A1 A2 A3 A4 A5 A6 A7].
  split; cbn [lh_comp lh_hash lh_num_items lh_buckets lh_num_buckets]; try done.
  - unfold kMinNumBuckets. lia.
  - intros i ch it Hi Hin. split; [|by eapply H3].
    assert (it ∈ concat (lh_buckets lh)) as Hit.
    { rewrite <- H2. apply list_elem_of_In, in_concat. exists ch.
      split; apply list_elem_of_In; [by eapply list_elem_of_lookup_2|done]. }
    apply list_elem_of_In, in_concat in Hit as (c & Hc & Hit).
    apply list_elem_of_In in Hc, Hit. apply list_elem_of_lookup_1 in Hc as [j Hj].
    by eapply A6.
  - by eapply holds_map_perm; [symmetry|].
Qed.

Lemma resize_rep lh m ok :
  lrep lh m -> exists lh', lh_maybe_resize lh ok = Ret lh' /\ lrep lh' m.
Proof.
  intros Hr. pose proof (lr_size _ _ Hr) as Hs. unfold lh_maybe_resize, c_assert.
  destruct (0 <? callback_depth lh); [by exists lh|].
  rewrite (proj2 (Z.leb_le _ _)) by lia. cbn [rbind]. unfold kMinNumBuckets in *.
  destruct (_ <? _).
  - destruct (_ <? _); [|by exists lh]. eexists. split; [done|]. apply rebucket_rep; [done|].
    unfold u64, kMinNumBuckets. rewrite wrap_small by lia. lia.
  - destruct (_ && _) eqn:E; [|by exists lh]. eexists. split; [done|]. apply rebucket_rep; [done|].
    unfold kMinNumBuckets. destruct (Z.ltb_spec (lh_num_buckets lh / 2) 16); [lia|].
    pose proof (Z.div_mod (lh_num_buckets lh) 2). pose proof (Z.mod_pos_bound (lh_num_buckets lh) 2). lia.
Qed.

(** ** The operations *)

(** A table with another chain in bucket [i]. *)
Lemma lrep_chain lh m i ch ch' n m' :
  lrep lh m -> lh_buckets lh !! i = Some ch ->
  (forall it, it ∈ ch' -> li_hash it = call_hash_func hashf (li_data it) /\
                          li_hash it mod lh_num_buckets lh = Z.of_nat i) ->
  holds_map (concat (<[i := ch']> (lh_buckets lh))) m' -> n = Z.of_nat (size m') ->
  lrep (set_num_items n (set_buckets (<[i := ch']> (lh_buckets lh)) lh)) m'.
Proof.
  intros [A1 A2 A3 A4 A5 A6 A7] Hch Hp Hm Hn.
  split; cbn [lh_comp lh_hash lh_num_items lh_buckets lh_num_buckets set_num_items set_buckets];
    try done; [by rewrite length_insert|].
  intros j c it Hj Hin. apply list_lookup_insert_Some in Hj as [(<- & <- & _)|[_ Hj]]; [by apply Hp|].
  by eapply A6.
Qed.

Lemma chain_placed lh m i ch it :
  lrep lh m -> lh_buckets lh !! i = Some ch -> it ∈ ch ->
  li_hash it = call_hash_func hashf (li_data it) /\ li_hash it mod lh_num_buckets lh = Z.of_nat i.
Proof. intros Hr. apply (lr_place _ _ Hr). Qed.

Lemma bucket_index lh m h :
  lrep lh m -> Z.of_nat (Z.to_nat (h mod lh_num_buckets lh)) = h mod lh_num_buckets lh.
Proof.
  intros Hr. pose proof (lr_size _ _ Hr) as Hs. unfold kMinNumBuckets in Hs.
  pose proof (Z.mod_pos_bound h (lh_num_buckets lh)). lia.
Qed.

Lemma retrieve_run lh m data :
  lrep lh m -> OPENSSL_lh_retrieve lh data = Ret (default 0 (m !! key data)).
Proof.
  intros Hr. destruct (next_ptr lh m data Hr) as (h & i & ch & pos & E & _ & _ & _ & Hf).
  unfold OPENSSL_lh_retrieve, data_at. rewrite E. cbn [rbind].
  destruct (ch !! pos) as [it|]; [destruct Hf as (_ & _ & ->)|rewrite Hf]; done.
Qed.

Lemma replace_run lh m i ch pos it data :
  lrep lh m -> lh_buckets lh !! i = Some ch -> ch !! pos = Some it ->
  key (li_data it) = key data ->
  lrep (set_buckets (<[i := <[pos := LhItem data (li_hash it)]> ch]> (lh_buckets lh)) lh)
       (<[key data := data]> m).
Proof.
  intros Hr Hch Hpos Hk. set (it' := LhItem data (li_hash it)).
  destruct (concat_insert _ _ _ Hch) as (rest & Hb & Hb').
  pose proof (delete_Permutation _ _ _ Hpos) as Hd.
  assert (<[pos := it']> ch ≡ₚ it' :: delete pos ch) as Hd'.
  { rewrite insert_take_drop by (by eapply lookup_lt_Some). rewrite delete_take_drop.
    symmetry. apply Permutation_middle. }
  assert (holds_map (it :: delete pos ch ++ rest) m) as Hm.
  { eapply holds_map_perm; [|apply (lr_map _ _ Hr)]. etrans; [exact Hb|exact (Permutation_app_tail rest Hd)]. }
  pose proof (holds_map_cons _ _ _ Hm) as [_ Hin].
  apply (lrep_chain lh m i ch _ (lh_num_items lh)); [done|done| | |].
  - intros x Hx. rewrite Hd', elem_of_cons in Hx. destruct Hx as [->|Hx].
    + destruct (chain_placed lh m i ch it Hr Hch) as [H1 H2]; [by eapply list_elem_of_lookup_2|].
      cbn. split; [|done]. rewrite H1. by apply hash_key.
    + apply (chain_placed lh m i ch x Hr Hch). by eapply elem_of_sublist, sublist_delete.
  - eapply holds_map_perm; [|apply (holds_map_replace it it' _ m Hm); by cbn].
    by rewrite Hb', Hd'.
  - rewrite (lr_num _ _ Hr). rewrite map_size_insert_Some; [done|]. rewrite <- Hk. by eexists.
Qed.

Lemma append_run lh m i ch data :
  lrep lh m -> lh_buckets lh !! i = Some ch -> m !! key data = None ->
  i = Z.to_nat (call_hash_func hashf data mod lh_num_buckets lh) ->
  Z.of_nat (size m) < 2 ^ 64 - 1 ->
  lrep (set_num_items (u64 (lh_num_items lh + 1))
          (set_buckets (<[i := ch ++ [LhItem data (call_hash_func hashf data)]]> (lh_buckets lh)) lh))
       (<[key data := data]> m).
Proof.
  intros Hr Hch Hnone Hi Hsz. set (it := LhItem data (call_hash_func hashf data)).
  destruct (concat_insert _ _ _ Hch) as (rest & Hb & Hb').
  apply (lrep_chain lh m i ch); [done|done| | |].
  - intros x Hx. apply elem_of_app in Hx as [Hx|Hx]; [by apply (chain_placed lh m i ch x Hr Hch)|].
    apply list_elem_of_singleton in Hx as ->. split; [done|]. rewrite Hi. cbn. symmetry.
    by eapply bucket_index.
  - eapply holds_map_perm; [|apply (holds_map_add it (ch ++ rest) m); [|done]].
    + rewrite Hb'. rewrite <- app_assoc. apply Permutation_middle.
    + eapply holds_map_perm; [exact Hb|apply (lr_map _ _ Hr)].
  - rewrite map_size_insert_None, (lr_num _ _ Hr) by done. unfold u64. rewrite wrap_small; lia.
Qed.

Lemma remove_run lh m i ch pos it :
  lrep lh m -> lh_buckets lh !! i = Some ch -> ch !! pos = Some it ->
  Z.of_nat (size m) < 2 ^ 64 ->
  lrep (set_num_items (u64 (lh_num_items lh - 1))
          (set_buckets (<[i := delete pos ch]> (lh_buckets lh)) lh))
       (delete (key (li_data it)) m).
Proof.
  intros Hr Hch Hpos Hsz. destruct (concat_insert _ _ _ Hch) as (rest & Hb & Hb').
  pose proof (delete_Permutation _ _ _ Hpos) as Hd.
  assert (holds_map (it :: delete pos ch ++ rest) m) as Hm.
  { eapply holds_map_perm; [|apply (lr_map _ _ Hr)]. etrans; [exact Hb|exact (Permutation_app_tail rest Hd)]. }
  pose proof (holds_map_cons _ _ _ Hm) as [Hm' Hin].
  apply (lrep_chain lh m i ch); [done|done| | |].
  - intros x Hx. apply (chain_placed lh m i ch x Hr Hch). by eapply elem_of_sublist, sublist_delete.
  - eapply holds_map_perm; [|exact Hm']. by rewrite Hb'.
  - pose proof (holds_map_size _ _ Hm') as Hs'. pose proof (holds_map_size _ _ Hm) as Hs.
    cbn [length] in Hs. rewrite (lr_num _ _ Hr). unfold u64. rewrite wrap_small; lia.
Qed.

Lemma insert_lrep lh m data ok_item ok_buckets :
  lrep lh m -> Z.of_nat (size m) < 2 ^ 64 - 1 ->
  exists r old lh', OPENSSL_lh_insert lh data ok_item ok_buckets = Ret (r, old, lh') /\
    (if r : bool then lrep lh' (<[key data := data]> m) /\ old = default 0 (m !! key data)
     else lh' = lh /\ old = 0 /\ ok_item = false /\ m !! key data = None).
Proof.
  intros Hr Hsz. destruct (next_ptr lh m data Hr) as (h & i & ch & pos & E & -> & -> & Hch & Hf).
  unfold OPENSSL_lh_insert. rewrite E. cbn [rbind]. destruct (ch !! pos) as [it|] eqn:Epos.
  - destruct Hf as (_ & Hk & Hm). eexists true, _, _. split; [done|]. rewrite Hm.
    split; [|done]. by apply replace_run.
  - destruct ok_item; cbn [negb]; [|by exists false, 0, lh].
    pose proof (append_run lh m _ ch data Hr Hch Hf eq_refl Hsz) as Ha.
    destruct (resize_rep _ _ ok_buckets Ha) as (lh' & E' & Hr'). cbn [set_buckets lh_num_items] in *.
    rewrite E'. cbn [rbind]. eexists true, 0, lh'. split; [done|]. by rewrite Hf.
Qed.

Lemma delete_lrep lh m data ok_buckets :
  lrep lh m -> Z.of_nat (size m) < 2 ^ 64 ->
  exists lh', OPENSSL_lh_delete lh data ok_buckets = Ret (default 0 (m !! key data), lh') /\
    lrep lh' (delete (key data) m).
Proof.
  intros Hr Hsz. destruct (next_ptr lh m data Hr) as (h & i & ch & pos & E & -> & -> & Hch & Hf).
  unfold OPENSSL_lh_delete. rewrite E. cbn [rbind]. destruct (ch !! pos) as [it|] eqn:Epos.
  - destruct Hf as (_ & Hk & Hm). pose proof (remove_run lh m _ ch pos it Hr Hch Epos Hsz) as Ha.
    destruct (resize_rep _ _ ok_buckets Ha) as (lh' & E' & Hr'). cbn [set_buckets lh_num_items] in *.
    rewrite E'. cbn [rbind]. exists lh'. rewrite Hm, <- Hk. done.
  - exists lh. rewrite Hf. split; [done|]. by rewrite delete_id.
Qed.

Lemma doall_lrep {St} lh m (func : Z -> St -> St) u ok_buckets :
  lrep lh m ->
  exists lh' ds, OPENSSL_lh_doall_arg lh func u ok_buckets =
      Ret (lh', foldl (fun u d => func d u) u ds) /\
    lrep lh' m /\ ds ≡ₚ (map_to_list m).*2.
Proof.
  intros Hr. unfold OPENSSL_lh_doall_arg. set (b := lh_buckets _).
  assert (b = lh_buckets lh) as -> by (unfold b; by destruct (_ <? _)).
  match goal with |- context [lh_maybe_resize ?t _] => set (lh1 := t) end.
  assert (lrep lh1 m) as Hr1.
  { assert (forall t n, lrep t m -> lrep (set_depth n t) m) as Hd by (by intros t n []).
    unfold lh1. repeat case_match; auto. }
  destruct (resize_rep lh1 m ok_buckets Hr1) as (lh' & -> & Hr'). cbn [rbind].
  exists lh', (li_data <$> concat (lh_buckets lh)). split; [|split; [done|]].
  - do 2 f_equal. rewrite foldl_concat, foldl_fmap. done.
  - destruct (lr_map _ _ Hr) as [Hn <-]. rewrite map_to_list_to_map by done.
    by rewrite <- list_fmap_compose.
Qed.

Lemma new_lrep lh : OPENSSL_lh_new hashf compf true true = Some lh -> lrep lh ∅.
Proof.
  intros [= <-]. split; cbn [lh_comp lh_hash lh_num_items lh_buckets lh_num_buckets]; try done.
  - intros i ch it Hi Hin. apply (lookup_replicate 16 []) in Hi as [-> _]. by apply elem_of_nil in Hin.
  - split; [|done]. constructor.
Qed.

(** ** Sequences of operations *)

Inductive lh_op :=
| LInsert (data : Z) (ok_item ok_buckets : bool)
| LDelete (data : Z) (ok_buckets : bool)
| LRetrieve (data : Z)
| LCount.

(** The results are a flag and a pointer or number. *)
Definition lh_step (o : lh_op) (lh : lhash) : res (bool * Z * lhash) :=
  match o with
  | LInsert d ok1 ok2 => OPENSSL_lh_insert lh d ok1 ok2
  | LDelete d ok => (x <- OPENSSL_lh_delete lh d ok ;; Ret (true, fst x, snd x))
  | LRetrieve d => (r <- OPENSSL_lh_retrieve lh d ;; Ret (true, r, lh))
  | LCount => Ret (true, OPENSSL_lh_num_items lh, lh)
  end.
Fixpoint lh_run (os : list lh_op) (lh : lhash) : res (list (bool * Z) * lhash) :=
  match os with
  | [] => Ret ([], lh)
  | o :: os =>
      x <- lh_step o lh ;;
      y <- lh_run os (snd x) ;;
      Ret (fst x :: fst y, snd y)
  end.

(** The same on a finite map; an insertion fails when the allocator does. *)
Definition map_step (o : lh_op) (m : gmap K Z) : bool * Z * gmap K Z :=
  match o with
  | LInsert d ok1 _ =>
      match m !! key d with
      | Some old => (true, old, <[key d := d]> m)
      | None => if ok1 then (true, 0, <[key d := d]> m) else (false, 0, m)
      end
  | LDelete d _ => (true, default 0 (m !! key d), delete (key d) m)
  | LRetrieve d => (true, default 0 (m !! key d), m)
  | LCount => (true, Z.of_nat (size m), m)
  end.
Fixpoint map_run (os : list lh_op) (m : gmap K Z) : list (bool * Z) * gmap K Z :=
  match os with
  | [] => ([], m)
  | o :: os =>
      let x := map_step o m in
      let y := map_run os (snd x) in
      (fst x :: fst y, snd y)
  end.

Lemma step_lrep o lh m :
  lrep lh m -> Z.of_nat (size m) < 2 ^ 64 - 1 ->
  exists lh', lh_step o lh = Ret (fst (map_step o m), lh') /\ lrep lh' (snd (map_step o m)) /\
    (size (snd (map_step o m)) <= S (size m))%nat.
Proof.
  intros Hr Hsz. destruct o as [d ok1 ok2|d ok|d|]; cbn [lh_step map_step].
  - destruct (insert_lrep lh m d ok1 ok2 Hr Hsz) as (r & old & lh' & E & Hc). rewrite E. exists lh'.
    assert (size (<[key d := d]> m) <= S (size m))%nat as Hs.
    { destruct (m !! key d) eqn:Em; [rewrite map_size_insert_Some by (by eexists)|
        rewrite map_size_insert_None by done]; lia. }
    destruct r; [destruct Hc as [Hr' ->]|destruct Hc as (-> & -> & -> & Hn)].
    + destruct (m !! key d) eqn:Em; [done|]. destruct ok1; [done|]. exfalso.
      revert E. unfold OPENSSL_lh_insert. destruct (next_ptr lh m d Hr) as (h & i & ch & pos & -> & _ & _ & _ & Hf).
      cbn [rbind]. destruct (ch !! pos) as [it|]; [|done]. destruct Hf as (_ & _ & Hf). congruence.
    + rewrite Hn. split; [done|]. split; [done|]. cbn. lia.
  - destruct (delete_lrep lh m d ok Hr ltac:(lia)) as (lh' & E & Hr'). rewrite E. cbn [rbind fst snd].
    exists lh'. split; [done|]. split; [done|].
    cbn [snd]. rewrite map_size_delete. destruct (m !! key d); cbn; lia.
  - rewrite (retrieve_run lh m d Hr). cbn [rbind fst snd]. exists lh. split; [done|]. split; [done|lia].
  - exists lh. unfold OPENSSL_lh_num_items. rewrite (lr_num _ _ Hr). split; [done|]. split; [done|]. cbn. lia.
Qed.

Lemma run_lrep os lh m :
  lrep lh m -> Z.of_nat (size m) + Z.of_nat (length os) < 2 ^ 64 ->
  exists lh', lh_run os lh = Ret (fst (map_run os m), lh') /\ lrep lh' (snd (map_run os m)).
Proof.
  revert lh m; induction os as [|o os IH]; intros lh m Hr Hsz; [by exists lh|]. cbn [length] in Hsz.
  destruct (step_lrep o lh m Hr) as (lh1 & E & Hr1 & Hs1); [lia|]. cbn [lh_run map_run].
  rewrite E. cbn [rbind snd]. destruct (IH lh1 _ Hr1) as (lh2 & E2 & Hr2); [lia|].
  rewrite E2. exists lh2. done.
Qed.

(** ** The load *)

(** A table no iteration is running on, with at most two items per bucket on
    average (rounded down), and at least one unless it has the least size. *)
Definition load_ok (lh : lhash) : Prop :=
  callback_depth lh = 0 /\ lh_num_items lh < 3 * lh_num_buckets lh /\
  (lh_num_buckets lh = kMinNumBuckets \/ lh_num_buckets lh <= lh_num_items lh).

Lemma rebucket_size lh n :
  0 <= n < 2 ^ 61 ->
  lh_num_buckets (lh_rebucket lh n true) = n /\
  lh_num_items (lh_rebucket lh n true) = lh_num_items lh /\
  callback_depth (lh_rebucket lh n true) = callback_depth lh.
Proof.
  intros Hn. unfold lh_rebucket, u64. rewrite wrap_small by lia.
  rewrite (Z.mul_comm 8 n), Z.div_mul by lia. by rewrite Z.eqb_refl.
Qed.

(** What resizing repairs. *)
Lemma resize_load lh m lh' :
  lrep lh m -> callback_depth lh = 0 -> lh_num_items lh <= 3 * lh_num_buckets lh ->
  lh_num_items lh < 2 ^ 60 ->
  (lh_num_buckets lh = kMinNumBuckets \/ lh_num_buckets lh <= lh_num_items lh + 1) ->
  lh_maybe_resize lh true = Ret lh' -> load_ok lh'.
Proof.
  intros Hr Hd Hhi Hmax Hlo. pose proof (lr_size _ _ Hr) as Hs. pose proof (lr_num _ _ Hr) as Hn.
  unfold kMinNumBuckets in *. unfold lh_maybe_resize, c_assert, kMinNumBuckets,
    kMaxAverageChainLength, kMinAverageChainLength.
  rewrite Hd, (proj2 (Z.leb_le _ _)) by lia. cbn [Z.ltb Z.compare rbind].
  pose proof (Z.div_mod (lh_num_items lh) (lh_num_buckets lh) ltac:(lia)) as Hdm.
  pose proof (Z.mod_pos_bound (lh_num_items lh) (lh_num_buckets lh) ltac:(lia)) as Hmod.
  set (q := lh_num_items lh / lh_num_buckets lh) in *. unfold u64.
  rewrite (wrap_small 64) by lia. unfold load_ok, kMinNumBuckets.
  destruct (Z.ltb_spec 2 q) as [Hq|Hq].
  - rewrite (proj2 (Z.ltb_lt _ _)) by lia. intros [= <-].
    destruct (rebucket_size lh (lh_num_buckets lh * 2)) as (-> & -> & ->); [nia|]. nia.
  - destruct (Z.ltb_spec q 1) as [Hq1|Hq1]; cbn [andb].
    + destruct (Z.ltb_spec 16 (lh_num_buckets lh)) as [Hb|Hb].
      * intros [= <-]. pose proof (Z.div_mod (lh_num_buckets lh) 2 ltac:(lia)).
        pose proof (Z.mod_pos_bound (lh_num_buckets lh) 2 ltac:(lia)).
        destruct (Z.ltb_spec (lh_num_buckets lh / 2) 16);
          [destruct (rebucket_size lh 16) as (-> & -> & ->)|
           destruct (rebucket_size lh (lh_num_buckets lh / 2)) as (-> & -> & ->)]; nia.
      * intros [= <-]. nia.
    + intros [= <-]. nia.
Qed.

End spec.

(** C19: A hash table is a finite map.  Whatever sequence of insertions, deletions,
    look-ups and counts is performed on a new table, with any answers of the
    allocator, the results are those of the same operations on a finite map from
    keys to elements; the table never leaves its buckets, however often it resizes.
    Insertion returns the element it replaces, and fails only for want of memory. *)
Theorem lhash_is_map `{LhEnv} `{Countable K} (key : Z -> K) hashf compf os lh :
  KeyFuncs key hashf compf -> OPENSSL_lh_new hashf compf true true = Some lh ->
  Z.of_nat (length os) < 2 ^ 64 ->
  exists lh', lh_run os lh = Ret (fst (map_run key os ∅), lh') /\
              lrep key hashf compf lh' (snd (map_run key os ∅)).
Proof.
  intros Hk Hn Hl. apply run_lrep; [done|by apply new_lrep|]. rewrite map_size_empty. lia.
Qed.

(** [OPENSSL_lh_doall_arg] calls the function for every element of the table
    exactly once, in some order, and leaves the same elements in the table. *)
Theorem doall_visits_all `{LhEnv} `{Countable K} {St} (key : Z -> K) hashf compf lh m
    (func : Z -> St -> St) u ok :
  KeyFuncs key hashf compf -> lrep key hashf compf lh m ->
  exists lh' ds, OPENSSL_lh_doall_arg lh func u ok =
      Ret (lh', foldl (fun u d => func d u) u ds) /\
    lrep key hashf compf lh' m /\ ds ≡ₚ (map_to_list m).*2.
Proof. intros Hk. by apply doall_lrep. Qed.

(** The load of a hash table stays within its bounds: as long as there is
    memory (and fewer than 2^60 items), insertion and deletion leave less than three
    items per bucket on average, and at least one if the table has more than the
    minimum of 16 buckets. *)
Theorem lhash_load_bounded `{LhEnv} `{Countable K} (key : Z -> K) hashf compf lh m data r old lh1 d lh2 :
  KeyFuncs key hashf compf -> lrep key hashf compf lh m -> load_ok lh ->
  lh_num_items lh < 2 ^ 60 - 1 ->
  OPENSSL_lh_insert lh data true true = Ret (r, old, lh1) ->
  OPENSSL_lh_delete lh data true = Ret (d, lh2) ->
  load_ok lh1 /\ load_ok lh2.
Proof.
  intros Hk Hr (Hd & Hhi & Hlo) Hmax. pose proof (lr_num _ _ _ _ _ Hr) as Hn.
  pose proof (lr_size _ _ _ _ _ Hr) as Hs. unfold kMinNumBuckets in *.
  destruct (next_ptr key hashf compf lh m data Hr) as (h & i & ch & pos & E & -> & -> & Hch & Hf).
  unfold OPENSSL_lh_insert, OPENSSL_lh_delete. rewrite E. cbn [rbind negb].
  destruct (ch !! pos) as [it|] eqn:Epos.
  - intros [= <- <- <-]. split; [done|].
    pose proof (remove_run key hashf compf lh m _ ch pos it Hr Hch Epos ltac:(lia)) as Hr2.
    cbn [set_buckets lh_num_items] in *.
    match goal with E : rbind (lh_maybe_resize ?t true) _ = _ |- _ =>
      destruct (resize_rep key hashf compf t _ true Hr2) as (lh' & E' & _); rewrite E' in E; cbn [rbind] in E;
      injection E as _ <-; eapply resize_load; [exact Hr2|done| | | |exact E'] end;
    cbn [set_num_items set_buckets lh_num_items lh_num_buckets];
    (assert (1 <= lh_num_items lh) by
       (rewrite Hn; destruct Hf as (_ & _ & Hf);
        destruct (size m) eqn:Em; [apply map_size_empty_iff in Em; by rewrite Em, lookup_empty in Hf|lia]));
    unfold u64, kMinNumBuckets; rewrite wrap_small; lia.
  - intros E1 [= <- <-]. split; [|done].
    pose proof (append_run key hashf compf lh m _ ch data Hr Hch Hf eq_refl ltac:(lia)) as Hr1.
    cbn [set_buckets lh_num_items] in *.
    match type of E1 with rbind (lh_maybe_resize ?t true) _ = _ =>
      destruct (resize_rep key hashf compf t _ true Hr1) as (lh' & E' & _); rewrite E' in E1; cbn [rbind] in E1;
      injection E1 as _ _ <-; eapply resize_load; [exact Hr1|done| | | |exact E'] end;
    cbn [set_num_items set_buckets lh_num_items lh_num_buckets];
    unfold u64, kMinNumBuckets; rewrite wrap_small; lia.
Qed.

(** ** A concrete table *)

(** Elements are numbers, the key is all but the last digit. *)
#[export] Instance digit_env : LhEnv := {|
  call_hash_func _ d := (d / 10) mod 5;
  call_cmp_func _ a b := a / 10 - b / 10
|}.
Definition digit_key (d : Z) : Z := d / 10.
#[export] Instance digit_funcs : KeyFuncs (env := digit_env) digit_key 1 2.
Proof.
  split; unfold digit_key; cbn.
  - intros a b. lia.
  - by intros a b ->.
  - intros a. pose proof (Z.mod_pos_bound (a / 10) 5). lia.
Qed.

Definition digit_table : lhash := Lhash 0 (replicate 16 []) 16 0 2 1.
Definition digit_ops : list lh_op :=
  [LInsert 31 true true; LInsert 84 true true; LInsert 32 true true; LInsert 77 false true;
   LRetrieve 39; LDelete 80 true; LRetrieve 80; LCount].

Lemma lhash_is_map_witness :
  exists lh', lh_run digit_ops digit_table = Ret (fst (map_run digit_key digit_ops ∅), lh') /\
              lrep digit_key 1 2 lh' (snd (map_run digit_key digit_ops ∅)).
Proof.
  apply (lhash_is_map digit_key 1 2 digit_ops digit_table); [apply digit_funcs|reflexivity|cbn; lia].
Defined.
Example digit_results :
  fst (map_run digit_key digit_ops ∅) =
    [(true, 0); (true, 0); (true, 31); (false, 0); (true, 32); (true, 84); (true, 0); (true, 1)].
Proof. vm_compute. reflexivity. Qed.

Lemma digit_table_rep : lrep digit_key 1 2 digit_table ∅.
Proof. by apply new_lrep. Qed.

Lemma doall_visits_all_witness :
  exists lh' ds, OPENSSL_lh_doall_arg digit_table Z.add 0 true =
      Ret (lh', foldl (fun u d => d + u) 0 ds) /\
    lrep digit_key 1 2 lh' ∅ /\ ds ≡ₚ (map_to_list (∅ : gmap Z Z)).*2.
Proof.
  apply (doall_visits_all digit_key 1 2 digit_table ∅ Z.add 0 true);
    [apply digit_funcs|apply digit_table_rep].
Defined.

Lemma lhash_load_bounded_witness :
  exists r old lh1 d lh2,
    OPENSSL_lh_insert digit_table 31 true true = Ret (r, old, lh1) /\
    OPENSSL_lh_delete digit_table 31 true = Ret (d, lh2) /\ load_ok lh1 /\ load_ok lh2.
Proof.
  eexists _, _, _, _, _. split; [reflexivity|]. split; [reflexivity|].
  apply (lhash_load_bounded digit_key 1 2 digit_table ∅ 31 true 0 _ 0 _);
    [apply digit_funcs|apply digit_table_rep| |cbn; lia|reflexivity|reflexivity].
  split; [reflexivity|]. split; [cbn; lia|by left].
Defined.
