(* ===== verification/Refcount.v ===== *)
(** * BoringSSL: reference counts (crypto/refcount.c)

    The two functions are loops around an atomic load and a weak compare-and-swap.
    A thread in one of them is at the load, in the loop with its variable
    [expected], or has returned; the steps of several threads on one counter
    interleave in any order, and a compare-and-swap may fail for no reason.  What a
    thread does between two accesses to the counter is local, so it is part of one
    step.  [refcount_inc] and [refcount_dec] are what a function does on its own. *)
From Stdlib Require Import ZArith Lia.
From stdpp Require Import prelude list numbers relations.
From S2P Require Import Prelude CMem.
Local Open Scope Z_scope.

Definition CRYPTO_REFCOUNT_MAX : Z := 2 ^ 32 - 1.

(** [CRYPTO_atomic_compare_exchange_weak_u32]: its result, [*val] and [*expected]. *)
Definition compare_exchange_weak (spurious : bool) (val expected desired : Z) : bool * Z * Z :=
  if spurious || negb (val =? expected) then (false, val, val) else (true, desired, expected).

Inductive rc_op := RcInc | RcDec.
Inductive rc_pc :=
| RcStart
| RcExpects (expected : Z)
| RcDone (ret : bool)
| RcAborted.

(** One access to the counter. *)
Definition inc_step (spurious : bool) (count : Z) (pc : rc_pc) : option (Z * rc_pc) :=
  match pc with
  | RcStart => Some (count, RcExpects count)
  | RcExpects expected =>
      if negb (expected =? CRYPTO_REFCOUNT_MAX) then
        let new_value := u32 (expected + 1) in
        let '(ok, count, expected) := compare_exchange_weak spurious count expected new_value in
        Some (count, if ok : bool then RcDone false else RcExpects expected)
      else Some (count, RcDone false)
  | RcDone _ | RcAborted => None
  end.
Definition dec_step (spurious : bool) (count : Z) (pc : rc_pc) : option (Z * rc_pc) :=
  match pc with
  | RcStart => Some (count, RcExpects count)
  | RcExpects expected =>
      if expected =? 0 then Some (count, RcAborted)
      else if expected =? CRYPTO_REFCOUNT_MAX then Some (count, RcDone false)
      else
        let new_value := u32 (expected - 1) in
        let '(ok, count, expected) := compare_exchange_weak spurious count expected new_value in
        Some (count, if ok : bool then RcDone (new_value =? 0) else RcExpects expected)
  | RcDone _ | RcAborted => None
  end.

(** On its own; [UB] stands for [abort()]. *)
Definition refcount_inc (count : Z) : Z :=
  if negb (count =? CRYPTO_REFCOUNT_MAX) then u32 (count + 1) else count.
Definition refcount_dec (count : Z) : res (bool * Z) :=
  if count =? 0 then UB
  else if count =? CRYPTO_REFCOUNT_MAX then Ret (false, count)
  else Ret (u32 (count - 1) =? 0, u32 (count - 1)).

(** ** Several threads *)

Record rc_thread := RcThread { rc_fun : rc_op; rc_at : rc_pc }.
Definition rc_start (ops : list rc_op) : list rc_thread := (fun o => RcThread o RcStart) <$> ops.
Definition thread_step (spurious : bool) (count : Z) (t : rc_thread) : option (Z * rc_pc) :=
  match rc_fun t with
  | RcInc => inc_step spurious count (rc_at t)
  | RcDec => dec_step spurious count (rc_at t)
  end.

Inductive rc_step : bool -> Z * list rc_thread -> Z * list rc_thread -> Prop :=
| rc_step_thread spurious i t count ts count' pc' :
    ts !! i = Some t -> thread_step spurious count t = Some (count', pc') ->
    rc_step spurious (count, ts) (count', <[i := RcThread (rc_fun t) pc']> ts).
Definition rc_any (s s' : Z * list rc_thread) : Prop := exists spurious, rc_step spurious s s'.

(** A run: at which of its accesses the hardware let the compare-and-swap fail for
    no reason. *)
Inductive rc_run : list bool -> Z * list rc_thread -> Z * list rc_thread -> Prop :=
| rc_run_nil s : rc_run [] s s
| rc_run_cons spurious sps s1 s2 s3 :
    rc_step spurious s1 s2 -> rc_run sps s2 s3 -> rc_run (spurious :: sps) s1 s3.

(** ** Sums over the threads *)

Definition tsum (f : rc_thread -> Z) (ts : list rc_thread) : Z := foldr (fun t a => f t + a) 0 ts.
#[global] Arguments tsum : simpl never.

Lemma tsum_cons f t ts : tsum f (t :: ts) = f t + tsum f ts.
Proof. done. Qed.

Lemma tsum_insert f ts i t t' :
  ts !! i = Some t -> tsum f (<[i := t']> ts) = tsum f ts - f t + f t'.
Proof.
  revert i; induction ts as [|x ts IH]; intros [|i] Hi; try done;
    rewrite ?tsum_cons.
  - injection Hi as ->. change (<[0%nat := t']> (t :: ts)) with (t' :: ts). rewrite tsum_cons. lia.
  - change (<[S i := t']> (x :: ts)) with (x :: <[i := t']> ts). rewrite tsum_cons, (IH i Hi). lia.
Qed.
Lemma tsum_le f g ts :
  (forall t, t ∈ ts -> f t <= g t) -> tsum f ts <= tsum g ts.
Proof.
  induction ts as [|t ts IH]; intros Hle; [done|]. rewrite !tsum_cons.
  pose proof (Hle t ltac:(left)). specialize (IH ltac:(intros; apply Hle; by right)). lia.
Qed.
Lemma tsum_const k ts : tsum (fun _ => k) ts = k * Z.of_nat (length ts).
Proof. induction ts as [|t ts IH]; [unfold tsum; cbn; lia|]. rewrite tsum_cons, IH. cbn [length]. lia. Qed.

Definition done_inc (t : rc_thread) : Z :=
  match rc_fun t, rc_at t with RcInc, RcDone _ => 1 | _, _ => 0 end.
Definition done_dec (t : rc_thread) : Z :=
  match rc_fun t, rc_at t with RcDec, RcDone _ => 1 | _, _ => 0 end.
(** Told that it released the last reference. *)
Definition told_zero (t : rc_thread) : Z :=
  match rc_fun t, rc_at t with RcDec, RcDone true => 1 | _, _ => 0 end.
Definition is_inc (t : rc_thread) : Z := match rc_fun t with RcInc => 1 | RcDec => 0 end.
Definition is_dec (t : rc_thread) : Z := match rc_fun t with RcInc => 0 | RcDec => 1 end.
Definition incs (ops : list rc_op) : Z := tsum is_inc (rc_start ops).
Definition decs (ops : list rc_op) : Z := tsum is_dec (rc_start ops).

(** ** The invariant *)

Definition thread_ok (t : rc_thread) : Prop :=
  match rc_at t with
  | RcStart => True
  | RcExpects e => 0 <= e < CRYPTO_REFCOUNT_MAX /\ (rc_fun t = RcDec -> 1 <= e)
  | RcDone r => rc_fun t = RcInc -> r = false
  | RcAborted => False
  end.

Record rc_inv (n : Z) (ops : list rc_op) (s : Z * list rc_thread) : Prop := {
  ri_ops : rc_fun <$> s.2 = ops;
  ri_ok : Forall thread_ok s.2;
  ri_count : s.1 = n + tsum done_inc s.2 - tsum done_dec s.2;
  ri_zero : (tsum told_zero s.2 = 0 /\ 0 < s.1) \/ (tsum told_zero s.2 = 1 /\ tsum done_dec s.2 = n)
}.

Lemma tsum_fun (f : rc_op -> Z) ts : tsum (fun t => f (rc_fun t)) ts = tsum (fun t => f (rc_fun t)) (rc_start (rc_fun <$> ts)).
Proof. induction ts as [|t ts IH]; [done|]. change (rc_start _) with (RcThread (rc_fun t) RcStart :: rc_start (rc_fun <$> ts)). by rewrite !tsum_cons, IH. Qed.

(** A thread that has not finished leaves room below the number of threads. *)
Lemma tsum_lt f g ts i t :
  (forall t, t ∈ ts -> f t <= g t) -> ts !! i = Some t -> f t < g t -> tsum f ts < tsum g ts.
Proof.
  revert i; induction ts as [|x ts IH]; intros [|i] Hle Hi Hlt; try done;
    rewrite !tsum_cons; cbn in Hi.
  - injection Hi as ->. pose proof (tsum_le f g ts ltac:(intros; apply Hle; by right)). lia.
  - pose proof (Hle x ltac:(left)). specialize (IH i ltac:(intros; apply Hle; by right) Hi Hlt). lia.
Qed.

Section invariant.
Context (n : Z) (ops : list rc_op).
Context (Hn : 0 < n) (Hdec : decs ops <= n) (Hinc : n + incs ops < CRYPTO_REFCOUNT_MAX).

Lemma done_inc_le ts : tsum done_inc ts <= tsum is_inc ts.
Proof. apply tsum_le. intros [[] []] _; cbn; lia. Qed.
Lemma done_dec_le ts : tsum done_dec ts <= tsum is_dec ts.
Proof. apply tsum_le. intros [[] []] _; cbn; lia. Qed.
Lemma done_inc_nonneg ts : 0 <= tsum done_inc ts.
Proof. rewrite <- (Z.mul_0_l (Z.of_nat (length ts))), <- tsum_const. apply tsum_le. intros [[] []] _; cbn; lia. Qed.
Lemma done_dec_nonneg ts : 0 <= tsum done_dec ts.
Proof. rewrite <- (Z.mul_0_l (Z.of_nat (length ts))), <- tsum_const. apply tsum_le. intros [[] []] _; cbn; lia. Qed.

(** The counter between two steps, and under a thread that still has to finish. *)
Lemma count_range s : rc_inv n ops s -> 0 <= s.1 < CRYPTO_REFCOUNT_MAX.
Proof.
  intros [Ho _ Hc _]. pose proof (done_inc_le s.2). pose proof (done_dec_le s.2).
  pose proof (done_inc_nonneg s.2). pose proof (done_dec_nonneg s.2).
  pose proof (tsum_fun (fun o => match o with RcInc => 1 | RcDec => 0 end) s.2) as Hi.
  pose proof (tsum_fun (fun o => match o with RcInc => 0 | RcDec => 1 end) s.2) as Hd.
  rewrite Ho in Hi, Hd. unfold incs, decs, is_inc, is_dec in *. lia.
Qed.
Lemma dec_pending s i t :
  rc_inv n ops s -> s.2 !! i = Some t -> rc_fun t = RcDec -> (forall r, rc_at t <> RcDone r) ->
  1 <= s.1 /\ tsum told_zero s.2 = 0 /\ tsum done_dec s.2 < n.
Proof.
  intros [Ho _ Hc Hz] Hi Hf Ha. pose proof (done_inc_nonneg s.2).
  pose proof (tsum_fun (fun o => match o with RcInc => 0 | RcDec => 1 end) s.2) as Hd.
  rewrite Ho in Hd.
  assert (tsum done_dec s.2 < tsum is_dec s.2) as Hlt.
  { apply (tsum_lt _ _ _ i t); [intros [[] []] _; cbn; lia|done|].
    destruct t as [[] [| |r|]]; cbn in *; first [done|by destruct (Ha r)|lia]. }
  unfold decs, is_dec in *. lia.
Qed.

Lemma inv_start : rc_inv n ops (n, rc_start ops).
Proof.
  assert (forall f, (forall o, f (RcThread o RcStart) = 0) -> tsum f (rc_start ops) = 0) as Hz.
  { intros f Hf. clear Hdec Hinc. induction ops as [|o os IH]; [done|].
    change (rc_start _) with (RcThread o RcStart :: rc_start os). rewrite tsum_cons, Hf, IH. lia. }
  split; cbn [fst snd].
  - clear. induction ops as [|o os IH]; [done|]. cbn. by f_equal.
  - apply Forall_fmap, Forall_true. done.
  - rewrite !Hz by (by intros []). lia.
  - left. rewrite Hz by (by intros []). done.
Qed.

(** A step that leaves the counter and finishes nothing. *)
Lemma inv_wait c ts i t e :
  rc_inv n ops (c, ts) -> ts !! i = Some t -> (forall r, rc_at t <> RcDone r) -> rc_at t <> RcAborted ->
  thread_ok (RcThread (rc_fun t) (RcExpects e)) ->
  rc_inv n ops (c, <[i := RcThread (rc_fun t) (RcExpects e)]> ts).
Proof.
  intros [Ho Hok Hc Hz] Hi Ha Hb Ht. split; cbn in *.
  - rewrite list_fmap_insert. cbn. rewrite <- Ho. apply list_insert_id. by rewrite list_lookup_fmap, Hi.
  - by apply Forall_insert.
  - rewrite !(tsum_insert _ _ _ _ _ Hi).
    destruct t as [[] [| |r|]]; cbn; first [by destruct (Ha r)|done|lia].
  - rewrite !(tsum_insert _ _ _ _ _ Hi).
    destruct t as [[] [| |r|]]; cbn; first [by destruct (Ha r)|done|lia].
Qed.

Lemma inv_step s s' : rc_inv n ops s -> rc_any s s' -> rc_inv n ops s'.
Proof.
  intros HI [sp Hs]. destruct Hs as [sp i t c ts c' pc' Hi Ht].
  pose proof (count_range _ HI) as Hc. cbn in Hc. unfold CRYPTO_REFCOUNT_MAX in Hc.
  pose proof HI as [Ho Hok Hcnt Hz]. cbn [fst snd] in *.
  pose proof (Forall_lookup_1 _ _ _ _ Hok Hi) as Hto.
  assert (forall pc, rc_fun <$> <[i := RcThread (rc_fun t) pc]> ts = ops) as Ho'.
  { intros pc. rewrite list_fmap_insert. cbn. rewrite <- Ho. apply list_insert_id.
    by rewrite list_lookup_fmap, Hi. }
  unfold thread_step, inc_step, dec_step, compare_exchange_weak, CRYPTO_REFCOUNT_MAX in Ht.
  destruct t as [f pc]. cbn [rc_fun rc_at] in *.
  assert (f = RcDec -> (forall r, pc <> RcDone r) -> 1 <= c /\ tsum told_zero ts = 0 /\ tsum done_dec ts < n) as Hd.
  { intros -> Ha. by apply (dec_pending (c, ts) i (RcThread RcDec pc)). }
  destruct pc as [|e|r|]; [| |by destruct f|by destruct f].
  - assert (c' = c /\ pc' = RcExpects c) as [-> ->] by (by destruct f; injection Ht as <- <-).
    apply (inv_wait c ts i (RcThread f RcStart)); try done. split; cbn.
    + unfold CRYPTO_REFCOUNT_MAX. lia.
    + intros ->. apply Hd; done.
  - destruct Hto as [He Hed]. unfold CRYPTO_REFCOUNT_MAX in He. cbn in Hed.
    destruct (sp || negb (c =? e)) eqn:Ecas.
    + assert (c' = c /\ pc' = RcExpects c) as [-> ->].
      { destruct f.
        - rewrite (proj2 (Z.eqb_neq e _)) in Ht by lia. cbn in Ht. by injection Ht as <- <-.
        - rewrite !(proj2 (Z.eqb_neq e _)) in Ht by (try lia; specialize (Hed eq_refl); lia).
          by injection Ht as <- <-. }
      apply (inv_wait c ts i (RcThread f (RcExpects e))); try done. split; cbn.
      * unfold CRYPTO_REFCOUNT_MAX. lia.
      * intros ->. by apply Hd.
    + apply orb_false_iff in Ecas as [_ Ecas]. apply negb_false_iff, Z.eqb_eq in Ecas as <-.
      destruct f.
      * rewrite (proj2 (Z.eqb_neq c _)) in Ht by lia. cbn in Ht. injection Ht as <- <-.
        unfold u32. rewrite wrap_small by lia. split; cbn [fst snd]; [done|by apply Forall_insert| |];
          rewrite !(tsum_insert _ _ _ _ _ Hi); cbn; lia.
      * destruct (Hd eq_refl ltac:(done)) as (H1 & H2 & H3).
        rewrite !(proj2 (Z.eqb_neq c _)) in Ht by lia. injection Ht as <- <-.
        unfold u32. rewrite wrap_small by lia.
        split; cbn [fst snd]; [done|by apply Forall_insert| |]; rewrite !(tsum_insert _ _ _ _ _ Hi); cbn; [lia|].
        pose proof (done_inc_nonneg ts).
        destruct (Z.eqb_spec (c - 1) 0); cbn; lia.
Qed.
Lemma inv_run s s' : rtc rc_any s s' -> rc_inv n ops s -> rc_inv n ops s'.
Proof. induction 1 as [|s1 s2 s3 H12 H23 IH]; [done|]. intros HI. by apply IH, (inv_step s1). Qed.
End invariant.

(** ** How long it takes *)

Definition unfinished (t : rc_thread) : Z :=
  match rc_at t with RcStart | RcExpects _ => 1 | _ => 0 end.
(** The accesses a thread needs if nobody interferes. *)
Definition weight (count : Z) (t : rc_thread) : Z :=
  match rc_at t with
  | RcStart => 2
  | RcExpects e => if e =? count then 1 else 2
  | _ => 0
  end.
(** Whoever finishes may cost each of the others one more round. *)
Definition rc_measure (s : Z * list rc_thread) : Z :=
  tsum (weight s.1) s.2 + (Z.of_nat (length s.2) - 1) * tsum unfinished s.2.

Lemma tsum_add f g ts : tsum (fun t => f t + g t) ts = tsum f ts + tsum g ts.
Proof. induction ts as [|t ts IH]; [done|]. rewrite !tsum_cons, IH. lia. Qed.

(** The thread goes on, or it leaves with the counter changed or not. *)
Lemma thread_step_cases c t c' pc' :
  thread_step false c t = Some (c', pc') ->
  (c' = c /\ pc' = RcExpects c /\ weight c t = 2 /\ unfinished t = 1) \/
  (unfinished (RcThread (rc_fun t) pc') = 0 /\ weight c' (RcThread (rc_fun t) pc') = 0 /\
   unfinished t = 1 /\ 1 <= weight c t /\ (c' = c \/ weight c' t = 2)).
Proof.
  destruct t as [f pc]. unfold thread_step, inc_step, dec_step, compare_exchange_weak. cbn [rc_fun rc_at].
  assert (forall e, u32 (e + 1) <> e /\ u32 (e - 1) <> e) as Hw.
  { intros e. unfold u32, wrap. change (2 ^ 32) with 4294967296. split; intros He; Z.div_mod_to_equations; lia. }
  destruct pc as [|e|r|]; [| |by destruct f..].
  { destruct f; intros [= <- <-]; by left. }
  assert (1 <= weight c (RcThread f (RcExpects e))) as H1 by (cbn; destruct (e =? c); lia).
  destruct f; cbn [orb].
  - destruct (e =? CRYPTO_REFCOUNT_MAX); cbn [negb]; [intros [= <- <-]; right; split_and!; cbn; auto|].
    destruct (Z.eqb_spec c e) as [->|Hne]; cbn [negb]; intros [= <- <-].
    + right. cbn. split_and!; auto. right. by rewrite (proj2 (Z.eqb_neq _ _)) by (intros Hx; symmetry in Hx; by apply Hw in Hx).
    + left. cbn. by rewrite (proj2 (Z.eqb_neq e c)) by done.
  - destruct (e =? 0); [intros [= <- <-]; right; split_and!; cbn; auto|].
    destruct (e =? CRYPTO_REFCOUNT_MAX); [intros [= <- <-]; right; split_and!; cbn; auto|].
    destruct (Z.eqb_spec c e) as [->|Hne]; cbn [negb]; intros [= <- <-].
    + right. cbn. split_and!; auto. right. by rewrite (proj2 (Z.eqb_neq _ _)) by (intros Hx; symmetry in Hx; by apply Hw in Hx).
    + left. cbn. by rewrite (proj2 (Z.eqb_neq e c)) by done.
Qed.

Lemma measure_step s s' : rc_step false s s' -> rc_measure s' + 1 <= rc_measure s.
Proof.
  remember false as sp. intros Hs. destruct Hs as [sp i t c ts c' pc' Hi Ht]. subst sp.
  unfold rc_measure. cbn [fst snd]. rewrite length_insert, !(tsum_insert _ _ _ _ _ Hi).
  assert (1 <= Z.of_nat (length ts)) as HN by (apply lookup_lt_Some in Hi; lia).
  destruct (thread_step_cases c t c' pc' Ht) as [(-> & -> & Hw & Hu)|(Hu' & Hw' & Hu & Hw & Hc)].
  - cbn [unfinished rc_at]. rewrite Hw, Hu. unfold weight at 2. cbn [rc_at]. rewrite Z.eqb_refl. lia.
  - rewrite Hu', Hw', Hu. destruct Hc as [->|Hc]; [nia|]. rewrite Hc.
    assert (tsum (weight c') ts <= tsum (weight c) ts + 1 * Z.of_nat (length ts)) as Hle.
    { rewrite <- tsum_const, <- tsum_add. apply tsum_le. intros [f [|e| |]] _; cbn; try lia.
      destruct (e =? c), (e =? c'); lia. }
    lia.
Qed.

(** A spurious failure costs the access itself and nothing more: the thread has read
    the counter again. *)
Lemma thread_step_spurious c t c' pc' :
  thread_step true c t = Some (c', pc') ->
  c' = c /\ weight c (RcThread (rc_fun t) pc') <= weight c t /\
  unfinished (RcThread (rc_fun t) pc') <= unfinished t.
Proof.
  destruct t as [f pc]. unfold thread_step, inc_step, dec_step, compare_exchange_weak. cbn [rc_fun rc_at orb].
  assert (forall e, weight c (RcThread f (RcExpects c)) <= weight c (RcThread f (RcExpects e))) as Hw.
  { intros e. cbn. rewrite Z.eqb_refl. destruct (e =? c); lia. }
  destruct pc as [|e|r|]; [| |by destruct f..].
  { destruct f; intros [= <- <-]; cbn; rewrite Z.eqb_refl; lia. }
  pose proof (Hw e). destruct f.
  - destruct (e =? CRYPTO_REFCOUNT_MAX); cbn [negb]; intros [= <- <-]; cbn in *; destruct (e =? c); lia.
  - destruct (e =? 0); [|destruct (e =? CRYPTO_REFCOUNT_MAX)]; intros [= <- <-]; cbn in *; destruct (e =? c); lia.
Qed.
Lemma measure_spurious s s' : rc_step true s s' -> rc_measure s' <= rc_measure s.
Proof.
  remember true as sp. intros Hs. destruct Hs as [sp i t c ts c' pc' Hi Ht]. subst sp.
  unfold rc_measure. cbn [fst snd]. rewrite length_insert, !(tsum_insert _ _ _ _ _ Hi).
  assert (1 <= Z.of_nat (length ts)) as HN by (apply lookup_lt_Some in Hi; lia).
  destruct (thread_step_spurious c t c' pc' Ht) as (-> & Hw & Hu). nia.
Qed.
Lemma measure_nonneg s : 0 <= rc_measure s.
Proof.
  unfold rc_measure.
  assert (0 <= tsum (weight s.1) s.2).
  { rewrite <- (Z.mul_0_l (Z.of_nat (length s.2))), <- tsum_const. apply tsum_le.
    intros [f [|e| |]] _; cbn; try lia. destruct (e =? s.1); lia. }
  assert (0 <= tsum unfinished s.2).
  { rewrite <- (Z.mul_0_l (Z.of_nat (length s.2))), <- tsum_const. apply tsum_le.
    intros [f []] _; cbn; lia. }
  destruct s.2 as [|t ts]; [unfold tsum; cbn; lia|]. cbn [length] in *. nia.
Qed.

Definition failures (sps : list bool) : Z := Z.of_nat (length (filter (fun b : bool => b = true) sps)).
Lemma run_measure sps s s' :
  rc_run sps s s' -> rc_measure s' + Z.of_nat (length sps) <= rc_measure s + failures sps.
Proof.
  unfold failures. induction 1 as [s|sp sps s1 s2 s3 H12 _ IH]; [cbn; lia|].
  rewrite filter_cons. destruct sp; cbn [length].
  - apply measure_spurious in H12. rewrite decide_True by done. cbn [length]. lia.
  - apply measure_step in H12. rewrite decide_False by done. lia.
Qed.

Lemma rc_progress s :
  Forall (fun t => unfinished t = 0) s.2 \/ exists s', rc_step false s s'.
Proof.
  destruct s as [c ts]. cbn [snd]. destruct (decide (Forall (fun t => unfinished t = 0) ts)) as [Hf|Hf]; [by left|].
  right. apply not_Forall_Exists, Exists_exists in Hf as (t & Hin & Ht); [|apply _].
  apply list_elem_of_lookup in Hin as [i Hi].
  assert (exists x, thread_step false c t = Some x) as [[c' pc'] E].
  { destruct t as [f pc]. unfold thread_step, inc_step, dec_step, compare_exchange_weak. cbn in *.
    destruct pc; [destruct f; eauto| |done|done]. destruct f; repeat case_match; eauto. }
  eexists. by econstructor.
Qed.

Lemma start_measure n ops :
  rc_measure (n, rc_start ops) = Z.of_nat (length ops) * (Z.of_nat (length ops) + 1).
Proof.
  unfold rc_measure. cbn [fst snd].
  assert (forall k f, (forall o, f (RcThread o RcStart) = k) ->
    tsum f (rc_start ops) = k * Z.of_nat (length ops)) as Hk.
  { intros k f Hf. induction ops as [|o os IH]; [cbn; unfold tsum; cbn; lia|].
    change (rc_start _) with (RcThread o RcStart :: rc_start os). rewrite tsum_cons, Hf, IH. cbn [length]. lia. }
  rewrite (Hk 2), (Hk 1) by done. unfold rc_start. rewrite length_fmap. lia.
Qed.

(** ** The properties *)

(** C24: Reference counts under any interleaving: [n] references are held, at most
    [n] threads release one each while others take new ones.  In every reachable
    state no thread has aborted, the counter is exactly [n] plus the references
    taken minus those released, and at most one thread is told that it released the
    last one: exactly one if the counter is 0, and only after all [n] are gone. *)
Theorem refcount_concurrent n ops c ts :
  0 < n -> decs ops <= n -> n + incs ops < CRYPTO_REFCOUNT_MAX ->
  rtc rc_any (n, rc_start ops) (c, ts) ->
  Forall (fun t => rc_at t <> RcAborted) ts /\
  c = n + tsum done_inc ts - tsum done_dec ts /\
  tsum told_zero ts <= 1 /\
  (c = 0 -> tsum told_zero ts = 1) /\
  (tsum told_zero ts = 1 -> tsum done_dec ts = n).
Proof.
  intros Hn Hd Hi Hr.
  assert (rc_inv n ops (c, ts)) as HI.
  { by apply (inv_run n ops Hd Hi _ _ Hr), inv_start. }
  destruct HI as [_ Hok Hc Hz]. cbn [fst snd] in *. split; [|split; [done|]].
  - eapply Forall_impl; [exact Hok|]. intros [f []] Ht; cbn in *; done.
  - lia.
Qed.

(** C32: The loops are lock-free, with the weak compare-and-swap of the code: in a run
    in which it fails [f] times for no reason, [N] threads are done after at most
    [N (N + 1) + f] accesses to the counter, however they interleave and whatever the
    counter is; and as long as a thread is in a function some step is possible. *)
Theorem refcount_lock_free n ops sps s :
  rc_run sps (n, rc_start ops) s ->
  Z.of_nat (length sps) <= Z.of_nat (length ops) * (Z.of_nat (length ops) + 1) + failures sps /\
  (Forall (fun t => unfinished t = 0) s.2 \/ exists s', rc_step false s s').
Proof.
  intros Hs. split; [|apply rc_progress].
  rewrite <- (start_measure n). apply run_measure in Hs. pose proof (measure_nonneg s). lia.
Qed.

(** On its own a function does what [refcount_inc] and [refcount_dec] say. *)
Lemma refcount_alone count :
  nsteps (rc_step false) 2 (count, rc_start [RcInc]) (refcount_inc count, [RcThread RcInc (RcDone false)]) /\
  forall r count', refcount_dec count = Ret (r, count') ->
    nsteps (rc_step false) 2 (count, rc_start [RcDec]) (count', [RcThread RcDec (RcDone r)]).
Proof.
  assert (forall f c1 pc1 c2 pc2,
    thread_step false count (RcThread f RcStart) = Some (c1, pc1) ->
    thread_step false c1 (RcThread f pc1) = Some (c2, pc2) ->
    nsteps (rc_step false) 2 (count, rc_start [f]) (c2, [RcThread f pc2])) as Hs.
  { intros f c1 pc1 c2 pc2 H1 H2. eapply nsteps_l; [apply (rc_step_thread _ 0%nat); [done|exact H1]|].
    eapply nsteps_l; [apply (rc_step_thread _ 0%nat); [done|exact H2]|]. apply nsteps_O. }
  split.
  - eapply Hs; [done|]. unfold thread_step, inc_step, refcount_inc, compare_exchange_weak. cbn.
    destruct (count =? CRYPTO_REFCOUNT_MAX); cbn; [done|]. by rewrite Z.eqb_refl.
  - intros r c'. unfold refcount_dec. intros E. eapply Hs; [done|].
    unfold thread_step, dec_step, compare_exchange_weak. cbn. revert E.
    destruct (count =? 0); [done|].
    destruct (count =? CRYPTO_REFCOUNT_MAX); [by intros [= <- <-]|]. rewrite Z.eqb_refl. by intros [= <- <-].
Qed.

(** Two references, released by two threads that both load the counter first. *)
Definition race_end : Z * list rc_thread := (0, [RcThread RcDec (RcDone false); RcThread RcDec (RcDone true)]).
Lemma race_steps : nsteps (rc_step false) 5 (2, rc_start [RcDec; RcDec]) race_end.
Proof.
  eapply nsteps_l; [apply (rc_step_thread _ 0%nat); reflexivity|]. cbn.
  eapply nsteps_l; [apply (rc_step_thread _ 1%nat); reflexivity|]. cbn.
  eapply nsteps_l; [apply (rc_step_thread _ 0%nat); reflexivity|]. cbn.
  eapply nsteps_l; [apply (rc_step_thread _ 1%nat); reflexivity|]. cbn.
  eapply nsteps_l; [apply (rc_step_thread _ 1%nat); reflexivity|]. apply nsteps_O.
Qed.
Lemma race_reached : rtc rc_any (2, rc_start [RcDec; RcDec]) race_end.
Proof.
  eapply (rtc_subrel (rc_step false)); [intros s s' Hs; by exists false|].
  apply rtc_nsteps. exists 5%nat. exact race_steps.
Qed.

Lemma refcount_concurrent_witness :
  Forall (fun t => rc_at t <> RcAborted) race_end.2 /\
  race_end.1 = 2 + tsum done_inc race_end.2 - tsum done_dec race_end.2 /\
  tsum told_zero race_end.2 <= 1 /\
  (race_end.1 = 0 -> tsum told_zero race_end.2 = 1) /\
  (tsum told_zero race_end.2 = 1 -> tsum done_dec race_end.2 = 2).
Proof.
  apply (refcount_concurrent 2 [RcDec; RcDec]); [lia|vm_compute; discriminate|reflexivity|exact race_reached].
Defined.
(** The same race, with a spurious failure of each thread on the way. *)
Definition race_flags : list bool := [false; true; true; false; false; true; false].
Lemma race_run : rc_run race_flags (2, rc_start [RcDec; RcDec]) race_end.
Proof.
  eapply rc_run_cons; [apply (rc_step_thread _ 0%nat); reflexivity|]. cbn.
  eapply rc_run_cons; [apply (rc_step_thread _ 0%nat); reflexivity|]. cbn.
  eapply rc_run_cons; [apply (rc_step_thread _ 1%nat); reflexivity|]. cbn.
  eapply rc_run_cons; [apply (rc_step_thread _ 0%nat); reflexivity|]. cbn.
  eapply rc_run_cons; [apply (rc_step_thread _ 1%nat); reflexivity|]. cbn.
  eapply rc_run_cons; [apply (rc_step_thread _ 1%nat); reflexivity|]. cbn.
  eapply rc_run_cons; [apply (rc_step_thread _ 1%nat); reflexivity|]. apply rc_run_nil.
Qed.
Lemma refcount_lock_free_witness :
  Z.of_nat 7 <= 2 * (2 + 1) + failures race_flags /\ (Forall (fun t => unfinished t = 0) race_end.2 \/ exists s', rc_step false race_end s').
Proof. exact (refcount_lock_free 2 [RcDec; RcDec] race_flags race_end race_run). Defined.
