(* ===== verification/BioPair.v ===== *)
(** * BoringSSL: BIO pairs (crypto/bio/pair.c, and crypto/bio/bio.c on them)

    Two BIOs that are each other's peer: what is written to one is kept in its ring
    buffer until it is read from the other.  The BIOs live in a store, pointers to
    them are [Z] with 0 for null; the [bio_bio_st] behind [bio->ptr] belongs to its
    BIO alone and is a field of it.  Every BIO has the method table [methods_biop]
    here, so the dispatch of bio.c goes to the functions of pair.c.  A buffer of the
    caller is a list of cells, [None] if the pointer is null.  The queue of error
    codes is not modelled, the return values are. *)
From Stdlib Require Import ZArith Lia.
From stdpp Require Import prelude gmap list numbers.
From S2P Require Import Prelude CMem Cells Refcount.
Local Open Scope Z_scope.

Abbreviation cells := (list (option Z)).

(** [struct bio_bio_st] *)
Record bio_bio := BioBio {
  bb_peer : Z;
  bb_closed : bool;
  bb_len : Z;
  bb_offset : Z;
  bb_size : Z;
  bb_buf : option cells;
  bb_request : Z
}.
(** [struct bio_st] *)
Record bio := Bio {
  bio_init : bool;
  bio_shutdown : Z;
  bio_flags : Z;
  bio_retry_reason : Z;
  bio_references : Z;
  bio_ptr : option bio_bio;
  bio_next : Z;
  bio_num_read : Z;
  bio_num_write : Z
}.
Abbreviation bios := (gmap Z bio).

(** ** Functions on the store *)

Definition bio_m (A : Type) : Type := bios -> res (A * bios).
Definition bret {A} (a : A) : bio_m A := fun sg => Ret (a, sg).
Definition bub {A} : bio_m A := fun _ => UB.
Definition bbind {A B} (m : bio_m A) (k : A -> bio_m B) : bio_m B := fun sg =>
  match m sg with
  | Ret (a, sg) => k a sg
  | UB => UB
  | OutOfFuel => OutOfFuel
  end.
Definition blift {A} (r : res A) : bio_m A := fun sg =>
  match r with
  | Ret a => Ret (a, sg)
  | UB => UB
  | OutOfFuel => OutOfFuel
  end.
Declare Scope bio_scope.
Delimit Scope bio_scope with bio.
Notation "x <- m ;; k" := (bbind m (fun x => k))
  (at level 100, m at next level, right associativity) : bio_scope.
Local Open Scope bio_scope.

Definition bassert (b : bool) : bio_m unit := if b then bret tt else bub.

(** [*p] and [*p = b]; there must be a BIO at [p]. *)
Definition get_bio (p : Z) : bio_m bio := fun sg =>
  match sg !! p with Some b => Ret (b, sg) | None => UB end.
Definition put_bio (p : Z) (b : bio) : bio_m unit := fun sg =>
  match sg !! p with Some _ => Ret (tt, <[p := b]> sg) | None => UB end.
Definition upd_bio (p : Z) (f : bio -> bio) : bio_m unit :=
  b <- get_bio p ;; put_bio p (f b).

(** [bio->ptr], which the functions of pair.c assert not to be null. *)
Definition get_bb (p : Z) : bio_m bio_bio :=
  b <- get_bio p ;;
  match bio_ptr b with Some bb => bret bb | None => bub end.

Definition set_init (i : bool) (b : bio) : bio :=
  Bio i (bio_shutdown b) (bio_flags b) (bio_retry_reason b) (bio_references b) (bio_ptr b)
      (bio_next b) (bio_num_read b) (bio_num_write b).
Definition set_shutdown (n : Z) (b : bio) : bio :=
  Bio (bio_init b) n (bio_flags b) (bio_retry_reason b) (bio_references b) (bio_ptr b)
      (bio_next b) (bio_num_read b) (bio_num_write b).
Definition set_flags (f r : Z) (b : bio) : bio :=
  Bio (bio_init b) (bio_shutdown b) f r (bio_references b) (bio_ptr b) (bio_next b)
      (bio_num_read b) (bio_num_write b).
Definition set_references (n : Z) (b : bio) : bio :=
  Bio (bio_init b) (bio_shutdown b) (bio_flags b) (bio_retry_reason b) n (bio_ptr b)
      (bio_next b) (bio_num_read b) (bio_num_write b).
Definition set_ptr (bb : bio_bio) (b : bio) : bio :=
  Bio (bio_init b) (bio_shutdown b) (bio_flags b) (bio_retry_reason b) (bio_references b)
      (Some bb) (bio_next b) (bio_num_read b) (bio_num_write b).
Definition set_next (n : Z) (b : bio) : bio :=
  Bio (bio_init b) (bio_shutdown b) (bio_flags b) (bio_retry_reason b) (bio_references b)
      (bio_ptr b) n (bio_num_read b) (bio_num_write b).
Definition set_counts (r w : Z) (b : bio) : bio :=
  Bio (bio_init b) (bio_shutdown b) (bio_flags b) (bio_retry_reason b) (bio_references b)
      (bio_ptr b) (bio_next b) r w.
Definition set_bb (p : Z) (bb : bio_bio) : bio_m unit := upd_bio p (set_ptr bb).

Definition set_peer (p : Z) (b : bio_bio) : bio_bio :=
  BioBio p (bb_closed b) (bb_len b) (bb_offset b) (bb_size b) (bb_buf b) (bb_request b).
Definition set_closed (c : bool) (b : bio_bio) : bio_bio :=
  BioBio (bb_peer b) c (bb_len b) (bb_offset b) (bb_size b) (bb_buf b) (bb_request b).
Definition set_ring (len offset : Z) (buf : cells) (b : bio_bio) : bio_bio :=
  BioBio (bb_peer b) (bb_closed b) len offset (bb_size b) (Some buf) (bb_request b).
Definition set_span (len offset : Z) (b : bio_bio) : bio_bio :=
  BioBio (bb_peer b) (bb_closed b) len offset (bb_size b) (bb_buf b) (bb_request b).
Definition set_request (r : Z) (b : bio_bio) : bio_bio :=
  BioBio (bb_peer b) (bb_closed b) (bb_len b) (bb_offset b) (bb_size b) (bb_buf b) r.

(** ** Flags (bio.c) *)

Definition BIO_FLAGS_READ : Z := 1.
Definition BIO_FLAGS_WRITE : Z := 2.
Definition BIO_FLAGS_IO_SPECIAL : Z := 4.
Definition BIO_FLAGS_RWS : Z :=
  Z.lor (Z.lor BIO_FLAGS_READ BIO_FLAGS_WRITE) BIO_FLAGS_IO_SPECIAL.
Definition BIO_FLAGS_SHOULD_RETRY : Z := 8.
Definition kRetryFlags : Z := Z.lor BIO_FLAGS_RWS BIO_FLAGS_SHOULD_RETRY.

Definition BIO_clear_retry_flags (p : Z) : bio_m unit :=
  upd_bio p (fun b => set_flags (Z.land (bio_flags b) (Z.lnot kRetryFlags)) 0 b).
Definition BIO_set_retry_read (p : Z) : bio_m unit :=
  upd_bio p (fun b =>
    set_flags (Z.lor (bio_flags b) (Z.lor BIO_FLAGS_READ BIO_FLAGS_SHOULD_RETRY))
              (bio_retry_reason b) b).
Definition BIO_set_retry_write (p : Z) : bio_m unit :=
  upd_bio p (fun b =>
    set_flags (Z.lor (bio_flags b) (Z.lor BIO_FLAGS_WRITE BIO_FLAGS_SHOULD_RETRY))
              (bio_retry_reason b) b).
Definition BIO_test_flags (p flags : Z) : bio_m Z :=
  b <- get_bio p ;; bret (Z.land (bio_flags b) flags).
Definition BIO_should_read (p : Z) : bio_m Z := BIO_test_flags p BIO_FLAGS_READ.
Definition BIO_should_write (p : Z) : bio_m Z := BIO_test_flags p BIO_FLAGS_WRITE.
Definition BIO_should_retry (p : Z) : bio_m Z := BIO_test_flags p BIO_FLAGS_SHOULD_RETRY.

(** ** Creation and destruction *)

Definition bio_new (p : Z) (ok : bool) : bio_m Z :=
  if negb ok then bret 0
  else
    _ <- set_bb p (BioBio 0 false 0 0 (17 * 1024) None 0) ;;
    bret 1.

Definition bio_destroy_pair (p : Z) : bio_m unit :=
  B <- get_bio p ;;
  match bio_ptr B with
  | None => bret tt
  | Some b =>
      if bb_peer b =? 0 then bret tt
      else
        let peer_bio := bb_peer b in
        peer_b <- get_bb peer_bio ;;
        _ <- bassert (bb_peer peer_b =? p) ;;
        _ <- bassert (bool_decide (is_Some (bb_buf peer_b))) ;;
        _ <- set_bb peer_bio (set_span 0 0 (set_peer 0 peer_b)) ;;
        _ <- upd_bio peer_bio (set_init false) ;;
        b <- get_bb p ;;
        _ <- bassert (bool_decide (is_Some (bb_buf b))) ;;
        _ <- set_bb p (set_span 0 0 (set_peer 0 b)) ;;
        upd_bio p (set_init false)
  end.

(** What it frees belongs to the BIO, which [BIO_free] frees next. *)
Definition bio_free (p : Z) : bio_m Z :=
  b <- get_bb p ;;
  _ <- (if negb (bb_peer b =? 0) then bio_destroy_pair p else bret tt) ;;
  bret 1.

(** [BIO_new(bio_s_bio())]; [p] is the address the allocator gives. *)
Definition BIO_new (p : Z) (ok_bio ok_b : bool) : bio_m Z :=
  if negb ok_bio then bret 0
  else fun sg =>
    (r <- bio_new p ok_b ;;
     if r =? 0 then fun sg => Ret (0, delete p sg) else bret p)
      (<[p := Bio false 1 0 0 1 None 0 0 0]> sg).

Definition BIO_pop (p : Z) : bio_m Z :=
  if p =? 0 then bret 0
  else
    b <- get_bio p ;;
    _ <- put_bio p (set_next 0 b) ;;
    bret (bio_next b).

Fixpoint BIO_free_loop (fuel : nat) (p : Z) : bio_m Z :=
  if p =? 0 then bret 1
  else
    match fuel with
    | O => fun _ => OutOfFuel
    | S k =>
        b <- get_bio p ;;
        x <- blift (refcount_dec (bio_references b)) ;;
        _ <- put_bio p (set_references (snd x) b) ;;
        if negb (fst x) then bret 0
        else
          next_bio <- BIO_pop p ;;
          _ <- bio_free p ;;
          _ <- (fun sg => Ret (tt, delete p sg)) ;;
          BIO_free_loop k next_bio
    end.
(** Every round but the last removes a BIO. *)
Definition BIO_free (p : Z) : bio_m Z := fun sg => BIO_free_loop (S (size sg)) p sg.

Definition BIO_up_ref (p : Z) : bio_m Z :=
  _ <- upd_bio p (fun b => set_references (refcount_inc (bio_references b)) b) ;;
  bret 1.

(** Allocation of the buffer of [b]: the answer and the new [*b]. *)
Definition make_buf (writebuf_len : Z) (ok : bool) (b : bio_bio) : bool * bio_bio :=
  match bb_buf b with
  | Some _ => (true, b)
  | None =>
      let size := if negb (writebuf_len =? 0) then writebuf_len else bb_size b in
      if ok
      then (true, BioBio (bb_peer b) (bb_closed b) 0 0 size
                         (Some (replicate (Z.to_nat size) None)) (bb_request b))
      else (false, BioBio (bb_peer b) (bb_closed b) (bb_len b) (bb_offset b) size None
                          (bb_request b))
  end.

Definition bio_make_pair (bio1 bio2 writebuf1_len writebuf2_len : Z) (ok1 ok2 : bool) :
    bio_m Z :=
  b1 <- get_bb bio1 ;;
  b2 <- get_bb bio2 ;;
  if negb (bb_peer b1 =? 0) || negb (bb_peer b2 =? 0) then bret 0
  else
    let '(r, b1) := make_buf writebuf1_len ok1 b1 in
    _ <- set_bb bio1 b1 ;;
    if negb r then bret 0
    else
      b2 <- get_bb bio2 ;;
      let '(r, b2) := make_buf writebuf2_len ok2 b2 in
      _ <- set_bb bio2 b2 ;;
      if negb r then bret 0
      else
        b1 <- get_bb bio1 ;;
        _ <- set_bb bio1 (set_request 0 (set_closed false (set_peer bio2 b1))) ;;
        b2 <- get_bb bio2 ;;
        _ <- set_bb bio2 (set_request 0 (set_closed false (set_peer bio1 b2))) ;;
        _ <- upd_bio bio1 (set_init true) ;;
        _ <- upd_bio bio2 (set_init true) ;;
        bret 1.

(** The answers of the allocator: two BIOs, their states, their buffers. *)
Record pair_alloc := PairAlloc {
  pa_bio1 : bool; pa_b1 : bool; pa_bio2 : bool; pa_b2 : bool; pa_buf1 : bool; pa_buf2 : bool
}.
(** The result, [*bio1_p] and [*bio2_p]; [p1] and [p2] are fresh addresses. *)
Definition BIO_new_bio_pair (p1 p2 : Z) (a : pair_alloc) (writebuf1_len writebuf2_len : Z) :
    bio_m (Z * Z * Z) :=
  bio1 <- BIO_new p1 (pa_bio1 a) (pa_b1 a) ;;
  bio2 <- BIO_new p2 (pa_bio2 a) (pa_b2 a) ;;
  ok <- (if (bio1 =? 0) || (bio2 =? 0) then bret 0
         else bio_make_pair bio1 bio2 writebuf1_len writebuf2_len (pa_buf1 a) (pa_buf2 a)) ;;
  if ok =? 0 then
    _ <- BIO_free bio1 ;;
    _ <- BIO_free bio2 ;;
    bret (0, 0, 0)
  else bret (1, bio1, bio2).

(** ** Reading *)

(** The loop of [bio_read] from [pos] on in the buffer of the caller. *)
Fixpoint read_ring_loop (fuel : nat) (b : bio_bio) (out : cells) (pos rest : Z) :
    res (bio_bio * cells) :=
  match fuel, bb_buf b with
  | S k, Some ring =>
      if negb (rest <=? bb_len b) then UB
      else
        let chunk := if u64 (bb_offset b + rest) <=? bb_size b then rest
                     else u64 (bb_size b - bb_offset b) in
        if negb (u64 (bb_offset b + chunk) <=? bb_size b) then UB
        else
          match slice ring (bb_offset b) chunk with
          | Ret cs =>
              match splice out pos cs with
              | Ret out =>
                  let len := u64 (bb_len b - chunk) in
                  if negb (len =? 0) then
                    let offset := u64 (bb_offset b + chunk) in
                    if negb (offset <=? bb_size b) then UB
                    else
                      let offset := if offset =? bb_size b then 0 else offset in
                      let rest := u64 (rest - chunk) in
                      if rest =? 0 then Ret (set_span len offset b, out)
                      else read_ring_loop k (set_span len offset b) out (pos + chunk) rest
                  else if negb (chunk =? rest) then UB
                  else Ret (set_span len 0 b, out)
              | _ => UB
              end
          | _ => UB
          end
  | O, _ => OutOfFuel
  | _, None => UB
  end.

(** The result and the caller's buffer.  The source says that the loop runs once or
    twice. *)
Definition bio_read (p : Z) (buf : option cells) (size_ : Z) : bio_m (Z * option cells) :=
  let size := u64 size_ in
  _ <- BIO_clear_retry_flags p ;;
  B <- get_bio p ;;
  if negb (bio_init B) then bret (0, buf)
  else
    b <- get_bb p ;;
    _ <- bassert (negb (bb_peer b =? 0)) ;;
    peer_b <- get_bb (bb_peer b) ;;
    _ <- bassert (bool_decide (is_Some (bb_buf peer_b))) ;;
    let peer_b := set_request 0 peer_b in
    _ <- set_bb (bb_peer b) peer_b ;;
    match buf with
    | None => bret (0, buf)
    | Some out =>
        if size =? 0 then bret (0, buf)
        else if bb_len peer_b =? 0 then
          if bb_closed peer_b then bret (0, buf)
          else
            _ <- BIO_set_retry_read p ;;
            _ <- set_bb (bb_peer b)
                   (set_request (if size <=? bb_size peer_b then size else bb_size peer_b) peer_b) ;;
            bret (-1, buf)
        else
          let size := if bb_len peer_b <? size then bb_len peer_b else size in
          _ <- bassert (0 <? size) ;;
          x <- blift (read_ring_loop 2 peer_b out 0 size) ;;
          let '(peer_b, out) := x in
          _ <- set_bb (bb_peer b) peer_b ;;
          bret (s32 size, Some out)
    end.

(** ** Writing *)

(** The loop of [bio_write]; [data] is what is left of the caller's data, at least
    [rest] bytes. *)
Fixpoint write_ring_loop (fuel : nat) (b : bio_bio) (data : bytes) (rest : Z) : res bio_bio :=
  match fuel, bb_buf b with
  | S k, Some ring =>
      if negb (u64 (bb_len b + rest) <=? bb_size b) then UB
      else
        let write_offset := u64 (bb_offset b + bb_len b) in
        let write_offset := if bb_size b <=? write_offset then u64 (write_offset - bb_size b)
                            else write_offset in
        let chunk := if u64 (write_offset + rest) <=? bb_size b then rest
                     else u64 (bb_size b - write_offset) in
        if Z.of_nat (length data) <? chunk then UB
        else
          match splice ring write_offset (Some <$> take (Z.to_nat chunk) data) with
          | Ret ring =>
              let len := u64 (bb_len b + chunk) in
              if negb (len <=? bb_size b) then UB
              else
                let rest := u64 (rest - chunk) in
                let b := set_ring len (bb_offset b) ring b in
                if rest =? 0 then Ret b
                else write_ring_loop k b (drop (Z.to_nat chunk) data) rest
          | _ => UB
          end
  | O, _ => OutOfFuel
  | _, None => UB
  end.

Definition bio_write (p : Z) (buf : option bytes) (num_ : Z) : bio_m Z :=
  let num := u64 num_ in
  _ <- BIO_clear_retry_flags p ;;
  B <- get_bio p ;;
  match buf with
  | Some data =>
      if negb (bio_init B) || (num =? 0) then bret 0
      else
        b <- get_bb p ;;
        _ <- bassert (negb (bb_peer b =? 0)) ;;
        _ <- bassert (bool_decide (is_Some (bb_buf b))) ;;
        let b := set_request 0 b in
        _ <- set_bb p b ;;
        if bb_closed b then bret (-1)
        else
          _ <- bassert (bb_len b <=? bb_size b) ;;
          if bb_len b =? bb_size b then
            _ <- BIO_set_retry_write p ;;
            bret (-1)
          else
            let num := if u64 (bb_size b - bb_len b) <? num then u64 (bb_size b - bb_len b)
                       else num in
            _ <- bassert (0 <? num) ;;
            b <- blift (write_ring_loop 2 b data num) ;;
            _ <- set_bb p b ;;
            bret (s32 num)
  | None => bret 0
  end.

(** ** Control *)

Definition BIO_CTRL_EOF : Z := 2.
Definition BIO_CTRL_GET_CLOSE : Z := 8.
Definition BIO_CTRL_SET_CLOSE : Z := 9.
Definition BIO_CTRL_PENDING : Z := 10.
Definition BIO_CTRL_FLUSH : Z := 11.
Definition BIO_CTRL_WPENDING : Z := 13.
Definition BIO_C_GET_WRITE_BUF_SIZE : Z := 137.
Definition BIO_C_GET_WRITE_GUARANTEE : Z := 140.
Definition BIO_C_GET_READ_REQUEST : Z := 141.
Definition BIO_C_SHUTDOWN_WR : Z := 142.
Definition BIO_C_RESET_READ_REQUEST : Z := 147.

(** [ptr] is a BIO, for the one command that uses it. *)
Definition bio_ctrl (p cmd num ptr : Z) : bio_m Z :=
  b <- get_bb p ;;
  if cmd =? BIO_C_GET_WRITE_BUF_SIZE then bret (s64 (bb_size b))
  else if cmd =? BIO_C_GET_WRITE_GUARANTEE then
    if (bb_peer b =? 0) || bb_closed b then bret 0 else bret (s64 (bb_size b - bb_len b))
  else if cmd =? BIO_C_GET_READ_REQUEST then bret (s64 (bb_request b))
  else if cmd =? BIO_C_RESET_READ_REQUEST then
    _ <- set_bb p (set_request 0 b) ;; bret 1
  else if cmd =? BIO_C_SHUTDOWN_WR then
    _ <- set_bb p (set_closed true b) ;; bret 1
  else if cmd =? BIO_CTRL_GET_CLOSE then B <- get_bio p ;; bret (bio_shutdown B)
  else if cmd =? BIO_CTRL_SET_CLOSE then
    _ <- upd_bio p (set_shutdown (s32 num)) ;; bret 1
  else if cmd =? BIO_CTRL_PENDING then
    if negb (bb_peer b =? 0)
    then peer_b <- get_bb (bb_peer b) ;; bret (s64 (bb_len peer_b))
    else bret 0
  else if cmd =? BIO_CTRL_WPENDING then
    bret (match bb_buf b with Some _ => s64 (bb_len b) | None => 0 end)
  else if cmd =? BIO_CTRL_FLUSH then bret 1
  else if cmd =? BIO_CTRL_EOF then
    if negb (ptr =? 0)
    then other_b <- get_bb ptr ;; bret (Z.b2z ((bb_len other_b =? 0) && bb_closed other_b))
    else bret 1
  else bret 0.

(** ** The functions of bio.c *)

Definition BIO_read (p : Z) (buf : option cells) (len : Z) : bio_m (Z * option cells) :=
  if p =? 0 then bret (-2, buf)
  else
    b <- get_bio p ;;
    if negb (bio_init b) then bret (-2, buf)
    else if len <=? 0 then bret (0, buf)
    else
      x <- bio_read p buf len ;;
      let '(ret, buf) := x in
      _ <- (if 0 <? ret
            then upd_bio p (fun b => set_counts (u64 (bio_num_read b + ret)) (bio_num_write b) b)
            else bret tt) ;;
      bret (ret, buf).

Definition BIO_write (p : Z) (data : option bytes) (inl : Z) : bio_m Z :=
  if p =? 0 then bret (-2)
  else
    b <- get_bio p ;;
    if negb (bio_init b) then bret (-2)
    else if inl <=? 0 then bret 0
    else
      ret <- bio_write p data inl ;;
      _ <- (if 0 <? ret
            then upd_bio p (fun b => set_counts (bio_num_read b) (u64 (bio_num_write b + ret)) b)
            else bret tt) ;;
      bret ret.

Definition INT_MAX : Z := 2 ^ 31 - 1.

(** The data is at least [len] bytes. *)
Fixpoint BIO_write_all_loop (fuel : nat) (p : Z) (data : bytes) (len : Z) : bio_m Z :=
  if len =? 0 then bret 1
  else
    match fuel with
    | O => fun _ => OutOfFuel
    | S k =>
        ret <- BIO_write p (Some data) (if INT_MAX <? len then INT_MAX else s32 len) ;;
        if ret <=? 0 then bret 0
        else BIO_write_all_loop k p (drop (Z.to_nat ret) data) (u64 (len - ret))
    end.
(** Every round but the last writes something. *)
Definition BIO_write_all (p : Z) (data : bytes) (len : Z) : bio_m Z :=
  BIO_write_all_loop (Z.to_nat len) p data len.

Definition BIO_ctrl (p cmd larg parg : Z) : bio_m Z :=
  if p =? 0 then bret 0 else bio_ctrl p cmd larg parg.

Definition BIO_flush (p : Z) : bio_m Z :=
  r <- BIO_ctrl p BIO_CTRL_FLUSH 0 0 ;; bret (s32 r).
Definition BIO_eof (p : Z) : bio_m Z :=
  r <- BIO_ctrl p BIO_CTRL_EOF 0 0 ;; bret (s32 r).
Definition BIO_pending (p : Z) : bio_m Z :=
  r <- BIO_ctrl p BIO_CTRL_PENDING 0 0 ;;
  _ <- bassert (0 <=? r) ;;
  bret r.
Definition BIO_wpending (p : Z) : bio_m Z :=
  r <- BIO_ctrl p BIO_CTRL_WPENDING 0 0 ;;
  _ <- bassert (0 <=? r) ;;
  bret r.
Definition BIO_set_close (p close_flag : Z) : bio_m Z :=
  r <- BIO_ctrl p BIO_CTRL_SET_CLOSE close_flag 0 ;; bret (s32 r).
Definition BIO_number_read (p : Z) : bio_m Z := b <- get_bio p ;; bret (bio_num_read b).
Definition BIO_number_written (p : Z) : bio_m Z := b <- get_bio p ;; bret (bio_num_write b).

Definition BIO_ctrl_get_read_request (p : Z) : bio_m Z :=
  r <- BIO_ctrl p BIO_C_GET_READ_REQUEST 0 0 ;; bret (u64 r).
Definition BIO_ctrl_get_write_guarantee (p : Z) : bio_m Z :=
  r <- BIO_ctrl p BIO_C_GET_WRITE_GUARANTEE 0 0 ;; bret (u64 r).
Definition BIO_shutdown_wr (p : Z) : bio_m Z :=
  r <- BIO_ctrl p BIO_C_SHUTDOWN_WR 0 0 ;; bret (s32 r).
