(* ===== verification/BioPairSpec.v ===== *)
(** * A BIO pair is two queues

    The operations on a pair as operations on two queues, and what follows for the
    bytes that go through it. *)
From Stdlib Require Import ZArith Lia.
From stdpp Require Import prelude gmap list numbers.
From S2P Require Import Prelude CMem Cells Refcount BioPair.
Local Open Scope Z_scope.

(** ** The ring buffer of a BIO pair

    The ring as a bounded queue, and the two loops of bio/pair.c on it: each needs
    at most two rounds. *)

(** ** The ring buffer *)

(** The queue [q] lies in the ring from [off] on, around its end. *)
Record ring_rep (ring : cells) (off len : Z) (q : bytes) : Prop := {
  rr_size : Z.of_nat (length ring) < 2 ^ 62;
  rr_off : 0 <= off < Z.of_nat (length ring);
  rr_len : len = Z.of_nat (length q);
  rr_fits : (length q <= length ring)%nat;
  rr_cells i x : q !! i = Some x ->
    ring !! Z.to_nat ((off + Z.of_nat i) mod Z.of_nat (length ring)) = Some (Some x)
}.

Lemma mod_shift a b n : 0 < n -> 0 <= a < 2 * n -> b = (if n <=? a then a - n else a) -> a mod n = b.
Proof.
  intros Hn Ha ->. destruct (Z.leb_spec n a).
  - symmetry. apply (Z.mod_unique _ _ 1); lia.
  - apply Z.mod_small. lia.
Qed.

Lemma ring_slice ring off len q n :
  ring_rep ring off len q -> 0 <= n <= len -> off + n <= Z.of_nat (length ring) ->
  slice ring off n = Ret (Some <$> take (Z.to_nat n) q).
Proof.
  intros [Hs Ho Hl Hf Hc] Hn Hr. unfold slice, in_cells.
  rewrite !(proj2 (Z.leb_le _ _)) by lia. cbn [andb]. f_equal. apply list_eq_same_length with (Z.to_nat n).
  - rewrite length_fmap, length_take. lia.
  - rewrite length_take, length_drop. lia.
  - intros i x y Hi Hx Hy. rewrite lookup_take_lt, lookup_drop in Hx by lia.
    rewrite list_lookup_fmap, lookup_take_lt in Hy by lia.
    destruct (q !! i) as [z|] eqn:Hz; [|done]. cbn in Hy. injection Hy as <-.
    apply Hc in Hz. rewrite Z.mod_small in Hz by lia.
    replace (Z.to_nat (off + Z.of_nat i)) with (Z.to_nat off + i)%nat in Hz by lia. congruence.
Qed.

Lemma ring_drop ring off len q n :
  ring_rep ring off len q -> 0 <= n <= len -> off + n <= Z.of_nat (length ring) ->
  ring_rep ring (if off + n =? Z.of_nat (length ring) then 0 else off + n) (len - n)
           (drop (Z.to_nat n) q).
Proof.
  intros [Hs Ho Hl Hf Hc] Hn Hr. split; [done| |rewrite length_drop; lia|rewrite length_drop; lia|].
  - destruct (Z.eqb_spec (off + n) (Z.of_nat (length ring))); lia.
  - intros i x Hi. rewrite lookup_drop in Hi. apply Hc in Hi as Hv. rewrite <- Hv.
    apply lookup_lt_Some in Hi. f_equal. f_equal.
    destruct (Z.eqb_spec (off + n) (Z.of_nat (length ring))).
    + rewrite Z.mod_small by lia. symmetry. apply mod_shift; [lia|lia|].
      rewrite (proj2 (Z.leb_le _ _)) by lia. lia.
    + f_equal. lia.
Qed.

(** An empty queue may start anywhere. *)
Lemma ring_empty ring off : 
  Z.of_nat (length ring) < 2 ^ 62 -> 0 <= off < Z.of_nat (length ring) -> ring_rep ring off 0 [].
Proof. intros. by split; cbn; [| |lia|lia|]. Qed.

Lemma ring_append ring off len q w cs :
  ring_rep ring off len q -> w = (off + len) mod Z.of_nat (length ring) ->
  w + Z.of_nat (length cs) <= Z.of_nat (length ring) ->
  len + Z.of_nat (length cs) <= Z.of_nat (length ring) ->
  exists ring', splice ring w (Some <$> cs) = Ret ring' /\ length ring' = length ring /\
    ring_rep ring' off (len + Z.of_nat (length cs)) (q ++ cs).
Proof.
  intros [Hs Ho Hl Hf Hc] Hw Hr Hn.
  pose proof (Z.mod_pos_bound (off + len) (Z.of_nat (length ring)) ltac:(lia)) as Hb.
  rewrite <- Hw in Hb. unfold splice, in_cells.
  rewrite length_fmap, !(proj2 (Z.leb_le _ _)) by lia. cbn [andb].
  eexists. split; [done|].
  match goal with |- length ?r = _ /\ _ => set (ring' := r) end.
  assert (length ring' = length ring) as El.
  { unfold ring'. rewrite !length_app, length_take, length_fmap, length_drop. lia. }
  split; [done|]. split; rewrite ?El; [done|done|rewrite length_app; lia|rewrite length_app; lia|].
  intros i x Hi. destruct (decide (i < length q)%nat) as [Hq|Hq].
  - rewrite lookup_app_l in Hi by done. apply Hc in Hi as Hv. rewrite <- Hv.
    set (j := (off + Z.of_nat i) mod Z.of_nat (length ring)) in *.
    (* a cell of the old queue is not one of the new ones *)
    assert (0 <= j < Z.of_nat (length ring) /\ ~ (w <= j < w + Z.of_nat (length cs))) as [Hj Hout].
    { unfold j. split; [apply Z.mod_pos_bound; lia|].
      intros Hin. revert Hin Hw.
      rewrite (mod_shift (off + Z.of_nat i) _ (Z.of_nat (length ring)) ltac:(lia) ltac:(lia) eq_refl).
      rewrite (mod_shift (off + len) _ (Z.of_nat (length ring)) ltac:(lia) ltac:(lia) eq_refl).
      destruct (Z.leb_spec (Z.of_nat (length ring)) (off + Z.of_nat i)),
               (Z.leb_spec (Z.of_nat (length ring)) (off + len)); lia. }
    unfold ring'. destruct (decide (j < w)).
    + rewrite lookup_app_l by (rewrite ?length_take; lia). apply lookup_take_lt. lia.
    + rewrite lookup_app_r, length_take, Nat.min_l by (rewrite ?length_take; lia).
      rewrite lookup_app_r, length_fmap, lookup_drop by (rewrite ?length_fmap; lia). f_equal. lia.
  - rewrite lookup_app_r in Hi by lia. apply lookup_lt_Some in Hi as Hi'.
    assert ((off + Z.of_nat i) mod Z.of_nat (length ring) = w + Z.of_nat (i - length q)) as ->.
    { rewrite Hw. symmetry. rewrite <- (Z.mod_small (_ + Z.of_nat (i - _)) (Z.of_nat (length ring))) by lia.
      rewrite Zplus_mod_idemp_l. f_equal. lia. }
    unfold ring'. rewrite lookup_app_r, length_take, Nat.min_l by (rewrite ?length_take; lia).
    replace (Z.to_nat (w + Z.of_nat (i - length q)) - Z.to_nat w)%nat with (i - length q)%nat by lia.
    rewrite lookup_app_l, list_lookup_fmap, Hi by (rewrite ?length_fmap; lia). done.
Qed.

Definition bb_rep (b : bio_bio) (q : bytes) : Prop :=
  exists ring, bb_buf b = Some ring /\ bb_size b = Z.of_nat (length ring) /\
    ring_rep ring (bb_offset b) (bb_len b) q.

(** Overwriting the middle of the caller's buffer. *)
Lemma splice_mid (pre mid post : cells) cs :
  length cs = length mid ->
  splice (pre ++ mid ++ post) (Z.of_nat (length pre)) cs = Ret (pre ++ cs ++ post).
Proof.
  intros E. unfold splice, in_cells. rewrite !length_app, !(proj2 (Z.leb_le _ _)) by lia.
  cbn [andb]. rewrite Nat2Z.id, take_app_length, E, drop_app_add'. 2: done.
  by rewrite drop_app_length.
Qed.

(** ** The two loops *)

Lemma u64_of_small z : 0 <= z < 2 ^ 64 -> u64 z = z.
Proof. apply wrap_small. Qed.

Lemma set_span_rep b q len off :
  (exists ring, bb_buf b = Some ring /\ bb_size b = Z.of_nat (length ring) /\ ring_rep ring off len q) ->
  bb_rep (set_span len off b) q.
Proof. intros (r & E & Es & Hr). by exists r. Qed.

(** The last round of the read loop takes what does not go around the end. *)
Lemma read_last k b q pre mid post n :
  bb_rep b q -> 0 < n <= Z.of_nat (length q) -> bb_offset b + n <= bb_size b ->
  Z.of_nat (length mid) = n ->
  exists len off, read_ring_loop (S k) b (pre ++ mid ++ post) (Z.of_nat (length pre)) n =
      Ret (set_span len off b, pre ++ (Some <$> take (Z.to_nat n) q) ++ post) /\
    bb_rep (set_span len off b) (drop (Z.to_nat n) q).
Proof.
  intros (ring & Eb & Es & Hr) Hn Hw Hm. pose proof Hr as [Hs Ho Hl Hf _]. cbn [read_ring_loop].
  rewrite Eb, Es. rewrite (proj2 (Z.leb_le n _)) by lia. cbn [negb].
  rewrite (u64_of_small (bb_offset b + n)) by lia.
  rewrite !(proj2 (Z.leb_le (bb_offset b + n) _)) by lia.
  rewrite (u64_of_small (bb_offset b + n)), (proj2 (Z.leb_le (bb_offset b + n) _)) by lia. cbn [negb].
  rewrite (u64_of_small (bb_len b - n)), (u64_of_small (n - n)) by lia.
  rewrite (ring_slice _ _ _ _ n Hr) by lia.
  rewrite splice_mid by (rewrite length_fmap, length_take; lia).
  pose proof (ring_drop _ _ _ _ n Hr ltac:(lia) ltac:(lia)) as Hd.
  destruct (Z.eqb_spec (bb_len b - n) 0) as [E0|E0]; cbn [negb].
  - rewrite Z.eqb_refl. cbn [negb]. eexists _, _. split; [done|].
    rewrite drop_ge by lia. apply set_span_rep. exists ring. rewrite E0. split_and!; [done..|].
    apply ring_empty; lia.
  - rewrite Z.sub_diag. cbn [Z.eqb].
    eexists _, _. split; [done|]. apply set_span_rep. by exists ring.
Qed.

Lemma read_run b q out n :
  bb_rep b q -> 0 < n <= Z.of_nat (length q) -> n <= Z.of_nat (length out) ->
  exists len off, read_ring_loop 2 b out 0 n =
      Ret (set_span len off b, (Some <$> take (Z.to_nat n) q) ++ drop (Z.to_nat n) out) /\
    bb_rep (set_span len off b) (drop (Z.to_nat n) q).
Proof.
  intros Hb Hn Ho. pose proof (take_drop (Z.to_nat n) out) as Eo.
  set (mid := take (Z.to_nat n) out) in *. set (post := drop (Z.to_nat n) out) in *.
  assert (Z.of_nat (length mid) = n) as Hm by (unfold mid; rewrite length_take; lia).
  destruct (Z.le_gt_cases (bb_offset b + n) (bb_size b)) as [Hw|Hw].
  { pose proof (read_last 1 b q [] mid post n Hb Hn Hw Hm) as HL. by rewrite Eo in HL. }
  destruct Hb as (ring & Eb & Es & Hr). pose proof Hr as [Hs Hoff Hl Hf _].
  set (c := bb_size b - bb_offset b).
  assert (exists k, k = 1%nat) as [k Ek] by eauto. rewrite <- Ek.
  cbn [read_ring_loop]. rewrite Eb. rewrite (proj2 (Z.leb_le n _)) by lia. cbn [negb].
  rewrite (u64_of_small (bb_offset b + n)), !(proj2 (Z.leb_gt (bb_offset b + n) _)) by lia.
  rewrite (u64_of_small (bb_size b - bb_offset b)) by lia. fold c.
  rewrite (u64_of_small (bb_offset b + c)), (u64_of_small (bb_len b - c)) by (unfold c; lia).
  rewrite (proj2 (Z.leb_le (bb_offset b + c) _)) by (unfold c; lia). cbn [negb].
  rewrite (ring_slice _ _ _ _ c Hr) by (unfold c; lia).
  assert (Z.of_nat (length (take (Z.to_nat c) mid)) = c) as Hc by (rewrite length_take; unfold c; lia).
  rewrite <- Eo, <- (take_drop (Z.to_nat c) mid), <- app_assoc.
  pose proof (splice_mid [] (take (Z.to_nat c) mid) (drop (Z.to_nat c) mid ++ post)
    (Some <$> take (Z.to_nat c) q) ltac:(rewrite length_fmap, length_take; unfold c in *; lia)) as HS.
  cbn [app length] in HS. change (Z.of_nat 0) with 0 in HS. rewrite HS. clear HS.
  rewrite (proj2 (Z.eqb_neq (bb_len b - c) 0)) by (unfold c; lia). cbn [negb].
  rewrite (proj2 (Z.eqb_eq (bb_offset b + c) _)) by (unfold c; lia).
  rewrite (u64_of_small (n - c)), (proj2 (Z.eqb_neq (n - c) 0)) by (unfold c; lia).
  pose proof (ring_drop _ _ _ _ c Hr ltac:(unfold c; lia) ltac:(unfold c; lia)) as Hd.
  rewrite (proj2 (Z.eqb_eq (bb_offset b + c) _)) in Hd by (unfold c; lia).
  destruct (read_last 0 (set_span (bb_len b - c) 0 b) (drop (Z.to_nat c) q)
    (Some <$> take (Z.to_nat c) q) (drop (Z.to_nat c) mid) post (n - c)) as (len & off & E & HR).
  - apply set_span_rep. by exists ring.
  - rewrite length_drop. unfold c in *. lia.
  - cbn. unfold c. lia.
  - rewrite length_drop. lia.
  - rewrite length_fmap, length_take in E.
    replace (Z.of_nat (Z.to_nat c `min` length q)) with (0 + c) in E by (unfold c in *; lia).
    rewrite Ek, E. exists len, off. rewrite drop_drop in HR.
    replace (Z.to_nat c + Z.to_nat (n - c))%nat with (Z.to_nat n) in HR by (unfold c in *; lia).
    split; [|done]. do 2 f_equal. rewrite app_assoc, <- fmap_app. f_equal. f_equal.
    replace (Z.to_nat n) with (Z.to_nat c + Z.to_nat (n - c))%nat by (unfold c in *; lia).
    by rewrite take_take_drop.
Qed.

(** The same two rounds for writing; the write position is [w]. *)
Definition write_pos (b : bio_bio) : Z :=
  if bb_size b <=? bb_offset b + bb_len b then bb_offset b + bb_len b - bb_size b
  else bb_offset b + bb_len b.

Lemma write_round b q ring data c :
  bb_buf b = Some ring -> bb_size b = Z.of_nat (length ring) ->
  ring_rep ring (bb_offset b) (bb_len b) q ->
  0 < c <= Z.of_nat (length data) -> write_pos b + c <= bb_size b -> bb_len b + c <= bb_size b ->
  exists ring', splice ring (write_pos b) (Some <$> take (Z.to_nat c) data) = Ret ring' /\
    length ring' = length ring /\
    ring_rep ring' (bb_offset b) (bb_len b + c) (q ++ take (Z.to_nat c) data).
Proof.
  intros Eb Es Hr Hc Hw Hl. pose proof Hr as [Hs Ho Hlen Hf _].
  assert (Z.of_nat (length (take (Z.to_nat c) data)) = c) as Ec by (rewrite length_take; lia).
  destruct (ring_append ring (bb_offset b) (bb_len b) q (write_pos b) (take (Z.to_nat c) data) Hr)
    as (ring' & E1 & E2 & E3); [|lia|lia|].
  - symmetry. apply mod_shift; [lia|lia|]. unfold write_pos. by rewrite Es.
  - exists ring'. split; [done|]. split; [done|]. by rewrite Ec in E3.
Qed.

Lemma write_last k b q data n :
  bb_rep b q -> 0 < n <= Z.of_nat (length data) -> write_pos b + n <= bb_size b ->
  bb_len b + n <= bb_size b ->
  exists len ring, write_ring_loop (S k) b data n = Ret (set_ring len (bb_offset b) ring b) /\
    bb_rep (set_ring len (bb_offset b) ring b) (q ++ take (Z.to_nat n) data).
Proof.
  intros (ring & Eb & Es & Hr) Hn Hw Hl. pose proof Hr as [Hs Ho Hlen Hf _].
  destruct (write_round b q ring data n Eb Es Hr Hn Hw Hl) as (ring' & E1 & E2 & E3).
  cbn [write_ring_loop]. rewrite Eb.
  rewrite !(u64_of_small (bb_len b + n)), !(proj2 (Z.leb_le (bb_len b + n) _)) by lia. cbn [negb].
  rewrite (u64_of_small (bb_offset b + bb_len b)) by lia.
  assert ((if bb_size b <=? bb_offset b + bb_len b
           then u64 (bb_offset b + bb_len b - bb_size b) else bb_offset b + bb_len b) = write_pos b) as ->.
  { unfold write_pos. destruct (Z.leb_spec (bb_size b) (bb_offset b + bb_len b)); [|done].
    apply u64_of_small. lia. }
  assert (0 <= write_pos b) by
    (unfold write_pos; destruct (Z.leb_spec (bb_size b) (bb_offset b + bb_len b)); lia).
  rewrite (u64_of_small (write_pos b + n)), (proj2 (Z.leb_le (write_pos b + n) _)) by lia.
  rewrite (proj2 (Z.ltb_ge _ _)), E1, Z.sub_diag by lia.
  rewrite (u64_of_small (bb_len b + n)), (proj2 (Z.leb_le (bb_len b + n) _)) by lia. cbn [negb].
  change (u64 0 =? 0) with true. eexists _, _. split; [done|].
  exists ring'. split_and!; [done|cbn; lia|done].
Qed.

Lemma write_run b q data n :
  bb_rep b q -> 0 < n <= Z.of_nat (length data) -> bb_len b + n <= bb_size b ->
  exists len ring, write_ring_loop 2 b data n = Ret (set_ring len (bb_offset b) ring b) /\
    bb_rep (set_ring len (bb_offset b) ring b) (q ++ take (Z.to_nat n) data).
Proof.
  intros Hb Hn Hl. destruct (Z.le_gt_cases (write_pos b + n) (bb_size b)) as [Hw|Hw].
  { by apply write_last. }
  destruct Hb as (ring & Eb & Es & Hr). pose proof Hr as [Hs Ho Hlen Hf _].
  set (c := bb_size b - write_pos b).
  assert (0 <= write_pos b < bb_size b) as Hp by
    (unfold write_pos; destruct (Z.leb_spec (bb_size b) (bb_offset b + bb_len b)); lia).
  destruct (write_round b q ring data c Eb Es Hr) as (ring' & E1 & E2 & E3); [unfold c; lia..|].
  assert (exists k, k = 1%nat) as [k Ek] by eauto. rewrite <- Ek.
  cbn [write_ring_loop]. rewrite Eb.
  rewrite !(u64_of_small (bb_len b + n)), !(proj2 (Z.leb_le (bb_len b + n) _)) by lia. cbn [negb].
  rewrite (u64_of_small (bb_offset b + bb_len b)) by lia.
  assert ((if bb_size b <=? bb_offset b + bb_len b
           then u64 (bb_offset b + bb_len b - bb_size b) else bb_offset b + bb_len b) = write_pos b) as ->.
  { unfold write_pos. destruct (Z.leb_spec (bb_size b) (bb_offset b + bb_len b)); [|done].
    apply u64_of_small. lia. }
  rewrite (u64_of_small (write_pos b + n)), (proj2 (Z.leb_gt (write_pos b + n) _)) by lia.
  rewrite (u64_of_small (bb_size b - write_pos b)) by lia. fold c.
  rewrite (proj2 (Z.ltb_ge _ _)), E1 by (unfold c; lia).
  rewrite (u64_of_small (bb_len b + c)), (proj2 (Z.leb_le (bb_len b + c) _)) by (unfold c; lia). cbn [negb].
  rewrite (u64_of_small (n - c)), (proj2 (Z.eqb_neq (n - c) 0)) by (unfold c; lia).
  set (b1 := set_ring (bb_len b + c) (bb_offset b) ring' b).
  assert (write_pos b1 = 0) as Hp1.
  { assert (bb_offset b + (bb_len b + c) >= bb_size b) by
      (unfold c, write_pos; destruct (Z.leb_spec (bb_size b) (bb_offset b + bb_len b)); lia).
    assert (bb_offset b + bb_len b < bb_size b) by
      (revert Hw Hl; unfold write_pos; destruct (Z.leb_spec (bb_size b) (bb_offset b + bb_len b)); lia).
    unfold write_pos, b1. cbn. rewrite (proj2 (Z.leb_le _ _)) by lia.
    unfold c, write_pos. rewrite (proj2 (Z.leb_gt _ _)) by lia. lia. }
  destruct (write_last 0 b1 (q ++ take (Z.to_nat c) data) (drop (Z.to_nat c) data) (n - c))
    as (len & r & E & HR).
  - exists ring'. split_and!; [done|cbn; lia|done].
  - rewrite length_drop. unfold c in *. lia.
  - rewrite Hp1. cbn. unfold c. lia.
  - cbn. lia.
  - rewrite Ek, E. exists len, r. split; [done|]. rewrite <- app_assoc in HR.
    replace (Z.to_nat n) with (Z.to_nat c + Z.to_nat (n - c))%nat by (unfold c in *; lia).
    by rewrite <- take_take_drop.
Qed.

(** ** The specification *)

(** One end: what was written to it and not yet read from the other end. *)
Record half := Half {
  h_data : bytes;
  h_cap : Z;
  h_closed : bool;
  h_request : Z;
  h_flags : Z;
  h_nread : Z;
  h_nwrite : Z
}.

Definition clear_flags (h : half) : half :=
  Half (h_data h) (h_cap h) (h_closed h) (h_request h)
       (Z.land (h_flags h) (Z.lnot kRetryFlags)) (h_nread h) (h_nwrite h).
Definition retry (f : Z) (h : half) : half :=
  Half (h_data h) (h_cap h) (h_closed h) (h_request h)
       (Z.lor (h_flags h) (Z.lor f BIO_FLAGS_SHOULD_RETRY)) (h_nread h) (h_nwrite h).
Definition requested (n : Z) (h : half) : half :=
  Half (h_data h) (h_cap h) (h_closed h) n (h_flags h) (h_nread h) (h_nwrite h).
Definition h_len (h : half) : Z := Z.of_nat (length (h_data h)).

(** Appends as much as there is room for. *)
Definition spec_write (d : bytes) (h : half) : Z * half :=
  if Z.of_nat (length d) =? 0 then (0, h)
  else
    let h := requested 0 (clear_flags h) in
    if h_closed h then (-1, h)
    else if h_len h =? h_cap h then (-1, retry BIO_FLAGS_WRITE h)
    else
      let k := Z.min (Z.of_nat (length d)) (h_cap h - h_len h) in
      (k, Half (h_data h ++ take (Z.to_nat k) d) (h_cap h) (h_closed h) (h_request h)
               (h_flags h) (h_nread h) (u64 (h_nwrite h + k))).

(** Takes at most [n] bytes from the front of the other end. *)
Definition spec_read (n : Z) (h peer : half) : Z * cells * half * half :=
  let out := replicate (Z.to_nat n) None in
  if n <=? 0 then (0, out, h, peer)
  else
    let h := clear_flags h in
    let peer := requested 0 peer in
    if h_len peer =? 0 then
      if h_closed peer then (0, out, h, peer)
      else (-1, out, retry BIO_FLAGS_READ h, requested (Z.min n (h_cap peer)) peer)
    else
      let k := Z.min n (h_len peer) in
      (k, (Some <$> take (Z.to_nat k) (h_data peer)) ++ replicate (Z.to_nat (n - k)) None,
       Half (h_data h) (h_cap h) (h_closed h) (h_request h) (h_flags h)
            (u64 (h_nread h + k)) (h_nwrite h),
       Half (drop (Z.to_nat k) (h_data peer)) (h_cap peer) (h_closed peer) (h_request peer)
            (h_flags peer) (h_nread peer) (h_nwrite peer)).

(** All or as much as fits, in at most two writes. *)
Definition spec_write_all (d : bytes) (h : half) : Z * half :=
  if Z.of_nat (length d) =? 0 then (1, h)
  else
    let '(k, h) := spec_write d h in
    if k <=? 0 then (0, h)
    else
      let d := drop (Z.to_nat k) d in
      if Z.of_nat (length d) =? 0 then (1, h)
      else (0, snd (spec_write d h)).

Inductive pair_op :=
| PWrite (d : bytes)
| PWriteAll (d : bytes)
| PRead (n : Z)
| PShutdown
| PResetRequest
| PReadRequest
| PGuarantee
| PPending
| PWpending
| PBufSize
| PNumRead
| PNumWritten.

Definition spec_op (o : pair_op) (h peer : half) : Z * cells * half * half :=
  match o with
  | PWrite d => let '(r, h) := spec_write d h in (r, [], h, peer)
  | PWriteAll d => let '(r, h) := spec_write_all d h in (r, [], h, peer)
  | PRead n => spec_read n h peer
  | PShutdown => (1, [], Half (h_data h) (h_cap h) true (h_request h) (h_flags h) (h_nread h) (h_nwrite h), peer)
  | PResetRequest => (1, [], requested 0 h, peer)
  | PReadRequest => (h_request h, [], h, peer)
  | PGuarantee => (if h_closed h then 0 else h_cap h - h_len h, [], h, peer)
  | PPending => (h_len peer, [], h, peer)
  | PWpending => (h_len h, [], h, peer)
  | PBufSize => (h_cap h, [], h, peer)
  | PNumRead => (h_nread h, [], h, peer)
  | PNumWritten => (h_nwrite h, [], h, peer)
  end.

Local Open Scope bio_scope.

(** The same operation on the BIO [p]; a read offers a fresh buffer of [n] bytes. *)
Definition run_op (o : pair_op) (p : Z) : bio_m (Z * cells) :=
  let plain (m : bio_m Z) := (r <- m ;; bret (r, [])) in
  match o with
  | PWrite d => plain (BIO_write p (Some d) (Z.of_nat (length d)))
  | PWriteAll d => plain (BIO_write_all p d (Z.of_nat (length d)))
  | PRead n =>
      x <- BIO_read p (Some (replicate (Z.to_nat n) None)) n ;;
      bret (fst x, default [] (snd x))
  | PShutdown => plain (BIO_shutdown_wr p)
  | PResetRequest => plain (BIO_ctrl p BIO_C_RESET_READ_REQUEST 0 0)
  | PReadRequest => plain (BIO_ctrl_get_read_request p)
  | PGuarantee => plain (BIO_ctrl_get_write_guarantee p)
  | PPending => plain (BIO_pending p)
  | PWpending => plain (BIO_wpending p)
  | PBufSize => plain (BIO_ctrl p BIO_C_GET_WRITE_BUF_SIZE 0 0)
  | PNumRead => plain (BIO_number_read p)
  | PNumWritten => plain (BIO_number_written p)
  end.

(** Lengths are what an [int] can say. *)
Definition op_ok (o : pair_op) : Prop :=
  match o with
  | PWrite d | PWriteAll d => Z.of_nat (length d) <= INT_MAX
  | PRead n => n <= INT_MAX
  | _ => True
  end.

(** A sequence of operations, each with the end it is for. *)
Fixpoint run_ops (os : list (bool * pair_op)) (p1 p2 : Z) : bio_m (list (Z * cells)) :=
  match os with
  | [] => bret []
  | (s, o) :: os =>
      r <- run_op o (if s : bool then p1 else p2) ;;
      rs <- run_ops os p1 p2 ;;
      bret (r :: rs)
  end.
Fixpoint spec_ops (os : list (bool * pair_op)) (h1 h2 : half) :
    list (Z * cells) * half * half :=
  match os with
  | [] => ([], h1, h2)
  | (s, o) :: os =>
      let '(r, out, h1, h2) :=
        if s : bool then spec_op o h1 h2
        else let '(r, out, h2, h1) := spec_op o h2 h1 in (r, out, h1, h2) in
      let '(rs, h1, h2) := spec_ops os h1 h2 in
      ((r, out) :: rs, h1, h2)
  end.

(** ** The BIOs that represent the two ends *)

Record bb_of (b : bio_bio) (peer : Z) (h : half) : Prop := {
  bo_ring : bb_rep b (h_data h);
  bo_peer : bb_peer b = peer;
  bo_closed : bb_closed b = h_closed h;
  bo_cap : bb_size b = h_cap h;
  bo_request : bb_request b = h_request h;
  bo_request_ok : 0 <= h_request h <= h_cap h
}.
Record bio_of (B : bio) (peer : Z) (h : half) : Prop := {
  io_init : bio_init B = true;
  io_ptr : exists b, bio_ptr B = Some b /\ bb_of b peer h;
  io_flags : bio_flags B = h_flags h;
  io_nread : bio_num_read B = h_nread h;
  io_nwrite : bio_num_write B = h_nwrite h
}.
(** [frame]: the other BIOs. *)
Definition pair_rep (sg : bios) (frame : bios) (p1 p2 : Z) (h1 h2 : half) : Prop :=
  exists B1 B2, sg = <[p1 := B1]> (<[p2 := B2]> frame) /\ p1 <> p2 /\ p1 <> 0 /\ p2 <> 0 /\
    bio_of B1 p2 h1 /\ bio_of B2 p1 h2.

Lemma pair_swap sg fr p1 p2 h1 h2 : pair_rep sg fr p1 p2 h1 h2 -> pair_rep sg fr p2 p1 h2 h1.
Proof.
  intros (B1 & B2 & -> & Hne & H1 & H2 & R1 & R2). exists B2, B1. split_and!; try done.
  by apply insert_insert_ne.
Qed.

Section ops.
Context (p1 p2 : Z) (fr : bios) (Hne : p1 <> p2) (Hp1 : p1 <> 0) (Hp2 : p2 <> 0).

Definition both (B1 B2 : bio) : bios := <[p1 := B1]> (<[p2 := B2]> fr).

Lemma both_1 B1 B2 : both B1 B2 !! p1 = Some B1.
Proof. unfold both. apply lookup_insert_eq. Qed.
Lemma both_2 B1 B2 : both B1 B2 !! p2 = Some B2.
Proof. unfold both. rewrite lookup_insert_ne by done. apply lookup_insert_eq. Qed.
Lemma get_1 B1 B2 : get_bio p1 (both B1 B2) = Ret (B1, both B1 B2).
Proof. unfold get_bio. by rewrite both_1. Qed.
Lemma get_2 B1 B2 : get_bio p2 (both B1 B2) = Ret (B2, both B1 B2).
Proof. unfold get_bio. by rewrite both_2. Qed.
Lemma upd_1 f B1 B2 : upd_bio p1 f (both B1 B2) = Ret (tt, both (f B1) B2).
Proof.
  unfold upd_bio, bbind, put_bio. rewrite get_1, both_1. unfold both. by rewrite insert_insert_eq.
Qed.
Lemma upd_2 f B1 B2 : upd_bio p2 f (both B1 B2) = Ret (tt, both B1 (f B2)).
Proof.
  unfold upd_bio, bbind, put_bio. rewrite get_2, both_2. unfold both.
  by rewrite insert_insert_ne, insert_insert_eq.
Qed.
Lemma get_bb_1 B1 B2 b : bio_ptr B1 = Some b -> get_bb p1 (both B1 B2) = Ret (b, both B1 B2).
Proof. intros E. unfold get_bb, bbind. by rewrite get_1, E. Qed.
Lemma get_bb_2 B1 B2 b : bio_ptr B2 = Some b -> get_bb p2 (both B1 B2) = Ret (b, both B1 B2).
Proof. intros E. unfold get_bb, bbind. by rewrite get_2, E. Qed.
Lemma set_bb_1 B1 B2 b : set_bb p1 b (both B1 B2) = Ret (tt, both (set_ptr b B1) B2).
Proof. apply upd_1. Qed.
Lemma set_bb_2 B1 B2 b : set_bb p2 b (both B1 B2) = Ret (tt, both B1 (set_ptr b B2)).
Proof. apply upd_2. Qed.

Lemma rep_of B1 B2 h1 h2 :
  bio_of B1 p2 h1 -> bio_of B2 p1 h2 -> pair_rep (both B1 B2) fr p1 p2 h1 h2.
Proof. intros. by exists B1, B2. Qed.
End ops.

Lemma bbind_eq {A B} (m : bio_m A) (k : A -> bio_m B) sg a sg' R :
  m sg = Ret (a, sg') -> k a sg' = R -> bbind m k sg = R.
Proof. unfold bbind. by intros ->. Qed.
Lemma bassert_true b sg : b = true -> bassert b sg = Ret (tt, sg).
Proof. by intros ->. Qed.

(** Runs the next statement on the two BIOs. *)
Ltac bstep :=
  eapply bbind_eq;
  [ first
    [ by apply get_1 | by apply get_2 | by apply upd_1 | by apply upd_2
    | by apply set_bb_1 | by apply set_bb_2 | by eapply get_bb_1 | by eapply get_bb_2
    | apply bassert_true ]
  | cbv beta ].
(** The same inside a goal. *)
Ltac bgo :=
  match goal with
  | |- context [bbind ?m ?k ?sg] =>
      let E := fresh in
      eassert (bbind m k sg = _) as E;
        [eapply bbind_eq;
         [first [ by apply get_1 | by apply get_2 | by apply upd_1 | by apply upd_2
                | by apply set_bb_1 | by apply set_bb_2 | by eapply get_bb_1 | by eapply get_bb_2
                | apply bassert_true; done | reflexivity]
         | cbv beta; reflexivity ]
        | rewrite E; clear E ]
  end.

Lemma bb_of_ring b peer h : bb_of b peer h -> is_Some (bb_buf b).
Proof. intros [(r & -> & _) _ _ _ _]. by eexists. Qed.
Lemma bb_of_len b peer h : bb_of b peer h -> bb_len b = h_len h /\ 0 <= h_len h <= h_cap h /\ 0 < h_cap h < 2 ^ 62.
Proof.
  intros [(r & _ & Es & Hr) _ _ Ec _]. destruct Hr. unfold h_len. rewrite <- Ec, Es. lia.
Qed.

Lemma bio_write_op p1 p2 fr B1 B2 h1 d r h1' :
  p1 <> p2 -> p2 <> 0 -> bio_of B1 p2 h1 ->
  0 < Z.of_nat (length d) <= INT_MAX -> spec_write d h1 = (r, h1') ->
  exists B1', bio_write p1 (Some d) (Z.of_nat (length d)) (both p1 p2 fr B1 B2) =
      Ret (r, both p1 p2 fr B1' B2) /\
    bio_of (if 0 <? r then set_counts (bio_num_read B1') (u64 (bio_num_write B1' + r)) B1' else B1') p2 h1'.
Proof.
  intros Hne Hp2 [Hi (b & Eb & Hb) Hf Hr Hw] Hd. unfold spec_write, INT_MAX in *.
  rewrite (proj2 (Z.eqb_neq _ 0)) by lia. cbn -[BIO_FLAGS_WRITE].
  pose proof (bb_of_len b p2 h1 Hb) as (El & Hl & Hcap). intros E.
  assert (bb_of (set_request 0 b) p2 (requested 0 (clear_flags h1))) as Hb0.
  { destruct Hb as [(ring & Hring) ? ? ? ?]. split; cbn; try done; [by exists ring|lia]. }
  set (B := set_flags (Z.land (bio_flags B1) (Z.lnot kRetryFlags)) 0 B1).
  eassert (bio_write p1 (Some d) (Z.of_nat (length d)) (both p1 p2 fr B1 B2) = _) as ->.
  { unfold bio_write. rewrite (u64_of_small (Z.of_nat _)) by lia.
    bstep. bstep. cbn [bio_init set_flags]. rewrite Hi, (proj2 (Z.eqb_neq _ 0)) by lia.
    cbn [negb orb]. bstep.
    bstep; [by rewrite (bo_peer _ _ _ Hb), (proj2 (Z.eqb_neq _ 0)) by done|].
    bstep; [apply bool_decide_eq_true, (bb_of_ring _ _ _ Hb)|].
    bstep. rewrite (bo_closed _ _ _ Hb0). cbn [bb_len bb_size set_request]. 
    rewrite El, (bo_cap _ _ _ Hb). fold B. reflexivity. }
  cbn [requested clear_flags h_closed]. destruct (h_closed h1) eqn:Ecl.
  - injection E as <- <-. eexists. split; [reflexivity|].
    split; cbn; [done|by exists (set_request 0 b)|by rewrite Hf|done|done].
  - rewrite (proj2 (Z.leb_le _ _)) by lia. bgo.
    change (h_len (requested 0 (clear_flags h1))) with (h_len h1) in E.
    change (h_cap (requested 0 (clear_flags h1))) with (h_cap h1) in E.
    revert E. destruct (Z.eqb_spec (h_len h1) (h_cap h1)) as [Efull|Efull]; intros [= <- <-].
    + bgo.
      eexists. split; [reflexivity|].
      split; cbn; [done|exists (set_request 0 b)|by rewrite Hf|done|done].
      split; [done|]. by destruct Hb0.
    + rewrite !(u64_of_small (h_cap h1 - h_len h1)) by lia.
      set (k := Z.of_nat (length d) `min` (h_cap h1 - h_len h1)).
      assert ((if h_cap h1 - h_len h1 <? Z.of_nat (length d)
               then h_cap h1 - h_len h1 else Z.of_nat (length d)) = k) as ->.
      { unfold k. destruct (Z.ltb_spec (h_cap h1 - h_len h1) (Z.of_nat (length d))); lia. }
      rewrite (proj2 (Z.ltb_lt 0 k)) by lia. bgo.
      destruct (write_run (set_request 0 b) (h_data h1) d k) as (len & ring & Ew & Hw');
        [apply Hb0|lia|cbn; rewrite El, (bo_cap _ _ _ Hb); lia|].
      rewrite Ew. bgo. bgo.
      eexists. split; [unfold bret, s32; by rewrite swrap_small by lia|].
      split; cbn; [done|eexists; split; [reflexivity|]|by rewrite Hf|done|by rewrite Hw].
      clear Ew. destruct Hb0. split; cbn in *; done || congruence.
Qed.

Lemma write_op p1 p2 fr B1 B2 h1 d r h1' :
  p1 <> p2 -> p1 <> 0 -> p2 <> 0 -> bio_of B1 p2 h1 ->
  Z.of_nat (length d) <= INT_MAX -> spec_write d h1 = (r, h1') ->
  exists B1', BIO_write p1 (Some d) (Z.of_nat (length d)) (both p1 p2 fr B1 B2) =
      Ret (r, both p1 p2 fr B1' B2) /\ bio_of B1' p2 h1'.
Proof.
  intros Hne Hp1 Hp2 R1 Hd E. unfold BIO_write. rewrite (proj2 (Z.eqb_neq p1 0) Hp1). bgo.
  rewrite (io_init _ _ _ R1). cbn [negb].
  destruct (Z.leb_spec (Z.of_nat (length d)) 0).
  { unfold spec_write in E. rewrite (proj2 (Z.eqb_eq _ 0)) in E by lia. injection E as <- <-.
    by exists B1. }
  destruct (bio_write_op p1 p2 fr B1 B2 h1 d r h1') as (B1' & Ew & R'); [done..|lia|done|].
  unfold bbind at 1. rewrite Ew. destruct (0 <? r); bgo; by eexists.
Qed.

Lemma spec_write_len d h r h' b p :
  bb_of b p h -> spec_write d h = (r, h') -> -1 <= r <= Z.of_nat (length d).
Proof.
  intros Hb. pose proof (bb_of_len _ _ _ Hb) as (_ & Hl & _). unfold spec_write.
  destruct (Z.eqb_spec (Z.of_nat (length d)) 0); [intros [= <- <-]; lia|].
  change (h_len (requested 0 (clear_flags h))) with (h_len h).
  change (h_cap (requested 0 (clear_flags h))) with (h_cap h).
  destruct (h_closed _); [intros [= <- <-]; lia|].
  destruct (h_len h =? h_cap h); intros [= <- <-]; lia.
Qed.

(** After a write that did not take everything the ring is full or closed. *)
Lemma bspec_write_full d h r h' d' r' h'' b p :
  bb_of b p h -> spec_write d h = (r, h') -> 0 < r < Z.of_nat (length d) ->
  0 < Z.of_nat (length d') -> spec_write d' h' = (r', h'') -> r' = -1.
Proof.
  intros Hb. pose proof (bb_of_len _ _ _ Hb) as (_ & Hl & _). unfold spec_write.
  destruct (Z.eqb_spec (Z.of_nat (length d)) 0); [lia|].
  change (h_len (requested 0 (clear_flags h))) with (h_len h).
  change (h_cap (requested 0 (clear_flags h))) with (h_cap h).
  destruct (h_closed _) eqn:Ec; [intros [= <- <-]; lia|].
  destruct (Z.eqb_spec (h_len h) (h_cap h)); intros [= <- <-] Hr Hd'; [lia|].
  rewrite (proj2 (Z.eqb_neq _ 0)) by lia. cbn in Ec |- *. rewrite ?Ec. unfold h_len in *. cbn.
  rewrite length_app, length_take.
  rewrite (proj2 (Z.eqb_eq _ _)) by lia. by intros [= <- _].
Qed.

Lemma write_all_loop_op fuel p1 p2 fr B1 B2 h1 d r h1' :
  p1 <> p2 -> p1 <> 0 -> p2 <> 0 -> bio_of B1 p2 h1 -> (length d <= fuel)%nat ->
  Z.of_nat (length d) <= INT_MAX -> spec_write_all d h1 = (r, h1') ->
  exists B1', BIO_write_all_loop fuel p1 d (Z.of_nat (length d)) (both p1 p2 fr B1 B2) =
      Ret (r, both p1 p2 fr B1' B2) /\ bio_of B1' p2 h1'.
Proof.
  intros Hne Hp1 Hp2 R1 Hfu Hd. unfold spec_write_all.
  assert (forall n : Z, 0 <= n <= INT_MAX -> (if INT_MAX <? n then INT_MAX else s32 n) = n) as Hs.
  { unfold INT_MAX, s32. intros n Hn. rewrite (proj2 (Z.ltb_ge _ _)) by lia.
    apply swrap_small; lia. }
  destruct fuel as [|fuel]; cbn [BIO_write_all_loop].
  { destruct d; [|cbn in Hfu; lia]. cbn. intros [= <- <-]. by exists B1. }
  destruct (Z.eqb_spec (Z.of_nat (length d)) 0); [intros [= <- <-]; by exists B1|].
  destruct (spec_write d h1) as [k h] eqn:Ek.
  destruct (write_op p1 p2 fr B1 B2 h1 d k h) as (B & Ew & R); [done..|].
  pose proof (io_ptr _ _ _ R1) as (b & _ & Hb). pose proof (spec_write_len _ _ _ _ _ _ Hb Ek) as Hk.
  unfold bbind at 1. rewrite Hs by lia. rewrite Ew.
  destruct (Z.leb_spec k 0); [intros [= <- <-]; by exists B|].
  rewrite u64_of_small by (unfold INT_MAX in *; lia).
  assert (Z.of_nat (length (drop (Z.to_nat k) d)) = Z.of_nat (length d) - k) as Hdr by
    (rewrite length_drop; lia).
  rewrite <- Hdr. set (d' := drop (Z.to_nat k) d) in *.
  destruct fuel as [|fuel]; cbn [BIO_write_all_loop].
  { rewrite (proj2 (Z.eqb_eq (Z.of_nat (length d')) 0)) by lia. intros [= <- <-]. by exists B. }
  destruct (Z.eqb_spec (Z.of_nat (length d')) 0); [intros [= <- <-]; by exists B|].
  destruct (spec_write d' h) as [k' h'] eqn:Ek'.
  destruct (write_op p1 p2 fr B B2 h d' k' h') as (B' & Ew' & R'); [done|done|done|done|lia|done|].
  unfold bbind at 1. rewrite Hs by lia. rewrite Ew'.
  assert (k' = -1) as -> by (apply (bspec_write_full d h1 k h d' k' h' b p2); done || lia).
  intros [= <- <-]. by exists B'.
Qed.

Lemma bio_read_op p1 p2 fr B1 B2 h1 h2 n r out h1' h2' :
  p1 <> p2 -> p2 <> 0 -> bio_of B1 p2 h1 -> bio_of B2 p1 h2 ->
  0 < n <= INT_MAX -> spec_read n h1 h2 = (r, out, h1', h2') ->
  exists B1' B2', bio_read p1 (Some (replicate (Z.to_nat n) None)) n (both p1 p2 fr B1 B2) =
      Ret (r, Some out, both p1 p2 fr B1' B2') /\
    bio_of (if 0 <? r then set_counts (u64 (bio_num_read B1' + r)) (bio_num_write B1') B1' else B1') p2 h1' /\
    bio_of B2' p1 h2'.
Proof.
  intros Hne Hp2 [Hi1 (b1 & Eb1 & Hb1) Hf1 Hr1 Hw1] [Hi2 (b2 & Eb2 & Hb2) Hf2 Hr2 Hw2] Hn.
  unfold spec_read, INT_MAX in *. rewrite (proj2 (Z.leb_gt n 0)) by lia.
  pose proof (bb_of_len b2 p1 h2 Hb2) as (El & Hl & Hcap).
  change (h_len (requested 0 h2)) with (h_len h2). change (h_cap (requested 0 h2)) with (h_cap h2).
  change (h_closed (requested 0 h2)) with (h_closed h2). change (h_data (requested 0 h2)) with (h_data h2).
  set (B := set_flags (Z.land (bio_flags B1) (Z.lnot kRetryFlags)) 0 B1).
  assert (bb_of b1 p2 (clear_flags h1)) as Hb1' by (by destruct Hb1).
  assert (bb_of (set_request 0 b2) p1 (requested 0 h2)) as Hb0.
  { destruct Hb2 as [(ring & Hring) ? ? ? ?]. split; cbn; try done; [by exists ring|lia]. }
  eassert (bio_read p1 (Some (replicate (Z.to_nat n) None)) n (both p1 p2 fr B1 B2) = _) as ->.
  { unfold bio_read. rewrite (u64_of_small n) by lia. bstep. bstep. cbn [bio_init set_flags].
    rewrite Hi1. cbn [negb]. bstep. rewrite (bo_peer _ _ _ Hb1).
    bstep; [by rewrite (proj2 (Z.eqb_neq p2 0)) by done|]. bstep.
    bstep; [apply bool_decide_eq_true, (bb_of_ring _ _ _ Hb2)|]. bstep.
    rewrite (proj2 (Z.eqb_neq n 0)) by lia. cbn [bb_len bb_closed bb_size set_request].
    rewrite El, (bo_closed _ _ _ Hb2), (bo_cap _ _ _ Hb2). fold B. reflexivity. }
  destruct (Z.eqb_spec (h_len h2) 0) as [E0|E0].
  - destruct (h_closed h2) eqn:Ecl; intros [= <- <- <- <-].
    + eexists _, _. split; [reflexivity|]. split.
      * split; cbn; [done|by exists b1|by rewrite Hf1|done|done].
      * split; cbn; [done|by exists (set_request 0 b2)|done|done|done].
    + bgo. bgo. eexists _, _. split; [reflexivity|]. split.
      * split; cbn; [done|exists b1; split; [done|by destruct Hb1]|by rewrite Hf1|done|done].
      * split; cbn; [done|eexists; split; [reflexivity|]|done|done|done].
        assert ((if n <=? h_cap h2 then n else h_cap h2) = n `min` h_cap h2) as -> by
          (destruct (Z.leb_spec n (h_cap h2)); lia).
        destruct Hb2. split; cbn; try done; lia.
  - set (k := n `min` h_len h2).
    assert ((if h_len h2 <? n then h_len h2 else n) = k) as -> by
      (unfold k; destruct (Z.ltb_spec (h_len h2) n); lia).
    intros [= <- <- <- <-]. rewrite (proj2 (Z.ltb_lt 0 k)) by lia. bgo.
    destruct (read_run (set_request 0 b2) (h_data h2) (replicate (Z.to_nat n) None) k)
      as (len & off & Er & Hr'); [apply Hb0|unfold k, h_len in *; lia|rewrite length_replicate; lia|].
    rewrite Er. bgo. bgo.
    eexists _, _. split; [unfold bret, s32; rewrite swrap_small by lia; rewrite drop_replicate|split].
    + repeat f_equal. lia.
    + split; cbn; [done|exists b1; split; [done|by destruct Hb1]|by rewrite Hf1|by rewrite Hr1|done].
    + split; cbn; [done|eexists; split; [reflexivity|]|done|done|done].
      clear Er. destruct Hb0. split; cbn in *; done || congruence.
Qed.

Lemma read_op p1 p2 fr B1 B2 h1 h2 n r out h1' h2' :
  p1 <> p2 -> p1 <> 0 -> p2 <> 0 -> bio_of B1 p2 h1 -> bio_of B2 p1 h2 ->
  n <= INT_MAX -> spec_read n h1 h2 = (r, out, h1', h2') ->
  exists B1' B2', BIO_read p1 (Some (replicate (Z.to_nat n) None)) n (both p1 p2 fr B1 B2) =
      Ret (r, Some out, both p1 p2 fr B1' B2') /\ bio_of B1' p2 h1' /\ bio_of B2' p1 h2'.
Proof.
  intros Hne Hp1 Hp2 R1 R2 Hn E. unfold BIO_read. rewrite (proj2 (Z.eqb_neq p1 0) Hp1). bgo.
  rewrite (io_init _ _ _ R1). cbn [negb]. destruct (Z.leb_spec n 0).
  { unfold spec_read in E. rewrite (proj2 (Z.leb_le n 0)) in E by lia. injection E as <- <- <- <-.
    by exists B1, B2. }
  destruct (bio_read_op p1 p2 fr B1 B2 h1 h2 n r out h1' h2') as (B1' & B2' & Er & R1' & R2');
    [done..|lia|done|].
  unfold bbind at 1. rewrite Er. destruct (0 <? r); bgo; by eexists _, _.
Qed.

Lemma s64_small z : 0 <= z < 2 ^ 63 -> s64 z = z.
Proof. intros. apply swrap_small; lia. Qed.

Lemma pending_1 p1 p2 fr B1 B2 h1 h2 :
  p1 <> p2 -> p1 <> 0 -> p2 <> 0 -> bio_of B1 p2 h1 -> bio_of B2 p1 h2 ->
  BIO_pending p1 (both p1 p2 fr B1 B2) = Ret (Z.of_nat (length (h_data h2)), both p1 p2 fr B1 B2).
Proof.
  intros Hne Hp1 Hp2 [_ (b1 & Eb1 & Hb1) _ _ _] [_ (b2 & Eb2 & Hb2) _ _ _].
  destruct (bb_of_len _ _ _ Hb2) as (El2 & Hl2 & Hc2).
  unfold BIO_pending, BIO_ctrl. rewrite (proj2 (Z.eqb_neq p1 0) Hp1). eapply bbind_eq.
  - unfold bio_ctrl. bstep. cbn -[set_bb get_bb]. rewrite (bo_peer _ _ _ Hb1), (proj2 (Z.eqb_neq p2 0) Hp2).
    cbn [negb]. bstep. rewrite El2, s64_small by lia. reflexivity.
  - cbv beta. bstep; [apply Z.leb_le; lia|]. done.
Qed.

Lemma op_1 o p1 p2 fr B1 B2 h1 h2 r out h1' h2' :
  p1 <> p2 -> p1 <> 0 -> p2 <> 0 -> bio_of B1 p2 h1 -> bio_of B2 p1 h2 ->
  op_ok o -> spec_op o h1 h2 = (r, out, h1', h2') ->
  exists B1' B2', run_op o p1 (both p1 p2 fr B1 B2) = Ret (r, out, both p1 p2 fr B1' B2') /\
    bio_of B1' p2 h1' /\ bio_of B2' p1 h2'.
Proof.
  intros Hne Hp1 Hp2 R1 R2 Ho E.
  pose proof R1 as [Hi1 (b1 & Eb1 & Hb1) Hf1 Hr1 Hw1]. pose proof R2 as [Hi2 (b2 & Eb2 & Hb2) Hf2 Hr2 Hw2].
  destruct (bb_of_len _ _ _ Hb1) as (El1 & Hl1 & Hc1).
  destruct (bb_of_len _ _ _ Hb2) as (El2 & Hl2 & Hc2).
  pose proof (bo_request_ok _ _ _ Hb1) as Hq1.
  assert (forall cmd larg parg, BIO_ctrl p1 cmd larg parg = bio_ctrl p1 cmd larg parg) as Hctl.
  { intros. unfold BIO_ctrl. by rewrite (proj2 (Z.eqb_neq p1 0) Hp1). }
  assert (forall (m : bio_m Z) sg k, m sg = Ret (k, sg) ->
    (r <- m ;; bret (r, @nil (option Z))) sg = Ret (k, [], sg)) as Hpl.
  { intros m sg k Em. unfold bbind. by rewrite Em. }
  destruct o; cbn [spec_op] in E; cbv beta delta [run_op] iota zeta.
  - destruct (spec_write d h1) as [k h] eqn:Ew. injection E as <- <- <- <-.
    destruct (write_op p1 p2 fr B1 B2 h1 d k h) as (B & E & R); [done..|].
    exists B, B2. unfold bbind. by rewrite E.
  - destruct (spec_write_all d h1) as [k h] eqn:Ew. injection E as <- <- <- <-.
    destruct (write_all_loop_op (Z.to_nat (Z.of_nat (length d))) p1 p2 fr B1 B2 h1 d k h)
      as (B & E & R); [done..|lia|done|done|].
    exists B, B2. unfold bbind, BIO_write_all. by rewrite E.
  - destruct (read_op p1 p2 fr B1 B2 h1 h2 n r out h1' h2') as (B1' & B2' & Er & R); [done..|].
    exists B1', B2'. unfold bbind. rewrite Er. done.
  - injection E as <- <- <- <-. unfold BIO_shutdown_wr. rewrite Hctl.
    eexists _, B2. split; [|split; [|done]].
    + eapply bbind_eq; [eapply bbind_eq;
        [unfold bio_ctrl; bstep; cbn -[set_bb]; bstep; reflexivity|reflexivity]|reflexivity].
    + split; cbn; [done|eexists; split; [reflexivity|by destruct Hb1]|done..].
  - injection E as <- <- <- <-. rewrite Hctl. eexists _, B2. split; [|split; [|done]].
    + eapply bbind_eq; [unfold bio_ctrl; bstep; cbn -[set_bb]; bstep; reflexivity|reflexivity].
    + split; cbn; [done|eexists; split; [reflexivity|]|done..]. destruct Hb1. split; cbn; (done || lia).
  - injection E as <- <- <- <-. exists B1, B2. split; [|done]. apply Hpl.
    unfold BIO_ctrl_get_read_request. rewrite Hctl.
    eapply bbind_eq; [unfold bio_ctrl; bstep; reflexivity|cbv beta].
    by rewrite (bo_request _ _ _ Hb1), s64_small, u64_of_small by lia.
  - injection E as <- <- <- <-. exists B1, B2. split; [|done]. apply Hpl.
    unfold BIO_ctrl_get_write_guarantee. rewrite Hctl.
    eapply (bbind_eq _ _ _ (if h_closed h1 then 0 else h_cap h1 - h_len h1)).
    + unfold bio_ctrl. bstep. cbn -[Z.sub s64].
      rewrite (bo_peer _ _ _ Hb1), (proj2 (Z.eqb_neq p2 0) Hp2), (bo_closed _ _ _ Hb1). cbn [orb].
      rewrite El1, (bo_cap _ _ _ Hb1), s64_small by lia.
      by destruct (h_closed h1).
    + cbv beta. unfold bret. rewrite u64_of_small; [done|]. destruct (h_closed h1); lia.
  - injection E as <- <- <- <-. exists B1, B2. split; [|done]. apply Hpl.
    by eapply pending_1.
  - injection E as <- <- <- <-. exists B1, B2. split; [|done]. apply Hpl.
    unfold BIO_wpending. rewrite Hctl. eapply bbind_eq.
    + unfold bio_ctrl. bstep. cbn -[set_bb]. destruct (bb_of_ring _ _ _ Hb1) as [ring ->].
      rewrite El1, s64_small by lia. reflexivity.
    + cbv beta. bstep; [apply Z.leb_le; lia|]. done.
  - injection E as <- <- <- <-. exists B1, B2. split; [|done]. apply Hpl.
    rewrite Hctl. unfold bio_ctrl. bstep. cbn. by rewrite (bo_cap _ _ _ Hb1), s64_small by lia.
  - injection E as <- <- <- <-. exists B1, B2. split; [|done]. apply Hpl.
    unfold BIO_number_read. bgo. by rewrite Hr1.
  - injection E as <- <- <- <-. exists B1, B2. split; [|done]. apply Hpl.
    unfold BIO_number_written. bgo. by rewrite Hw1.
Qed.

(** ** Sequences of operations *)

Lemma both_swap p1 p2 fr B1 B2 : p1 <> p2 -> both p1 p2 fr B1 B2 = both p2 p1 fr B2 B1.
Proof. intros. by apply insert_insert_ne. Qed.

Lemma ops_run os p1 p2 fr B1 B2 h1 h2 rs h1' h2' :
  p1 <> p2 -> p1 <> 0 -> p2 <> 0 -> bio_of B1 p2 h1 -> bio_of B2 p1 h2 ->
  Forall (fun so => op_ok so.2) os -> spec_ops os h1 h2 = (rs, h1', h2') ->
  exists B1' B2', run_ops os p1 p2 (both p1 p2 fr B1 B2) = Ret (rs, both p1 p2 fr B1' B2') /\
    bio_of B1' p2 h1' /\ bio_of B2' p1 h2'.
Proof.
  intros Hne Hp1 Hp2. revert B1 B2 h1 h2 rs.
  induction os as [|[s o] os IH]; intros B1 B2 h1 h2 rs R1 R2 Hok; cbn [run_ops spec_ops].
  { intros [= <- <- <-]. by exists B1, B2. }
  apply Forall_cons_1 in Hok as [Ho Hok]. cbn in Ho.
  destruct (if s then spec_op o h1 h2 else let '(r, out, h3, h4) := spec_op o h2 h1 in (r, out, h4, h3))
    as [[[r out] k1] k2] eqn:E.
  destruct (spec_ops os k1 k2) as [[rs' q1] q2] eqn:Es. intros [= <- <- <-].
  assert (exists B1' B2', run_op o (if s then p1 else p2) (both p1 p2 fr B1 B2) =
    Ret (r, out, both p1 p2 fr B1' B2') /\ bio_of B1' p2 k1 /\ bio_of B2' p1 k2)
    as (B1' & B2' & E1 & R1' & R2').
  { destruct s.
    - by apply (op_1 o p1 p2 fr B1 B2 h1 h2).
    - destruct (spec_op o h2 h1) as [[[r' out'] k2'] k1'] eqn:E'. injection E as -> -> -> ->.
      rewrite both_swap by done.
      destruct (op_1 o p2 p1 fr B2 B1 h2 h1 r out k2 k1) as (B2' & B1' & E1 & ? & ?); [done..|].
      exists B1', B2'. rewrite (both_swap p1 p2) by done. done. }
  destruct (IH B1' B2' k1 k2 rs' R1' R2' Hok Es) as (C1 & C2 & E2 & Q1 & Q2).
  exists C1, C2. unfold bbind at 1. rewrite E1. unfold bbind at 1. by rewrite E2.
Qed.

(** What end [s] accepted of the data written to it, and what it handed out. *)
Fixpoint sent (s : bool) (os : list (bool * pair_op)) (rs : list (Z * cells)) : bytes :=
  match os, rs with
  | (s', PWrite d) :: os, (r, _) :: rs =>
      (if Bool.eqb s s' then take (Z.to_nat r) d else []) ++ sent s os rs
  | _ :: os, _ :: rs => sent s os rs
  | _, _ => []
  end.
Fixpoint received (s : bool) (os : list (bool * pair_op)) (rs : list (Z * cells)) : bytes :=
  match os, rs with
  | (s', PRead n) :: os, (r, out) :: rs =>
      (if Bool.eqb s s' then omap id (take (Z.to_nat r) out) else []) ++ received s os rs
  | _ :: os, _ :: rs => received s os rs
  | _, _ => []
  end.

(** [BIO_write_all] does not say how much it has written when it fails. *)
Definition tells (o : pair_op) : Prop := match o with PWriteAll _ => False | _ => True end.

Definition step_sent (o : pair_op) (r : Z) : bytes :=
  match o with PWrite d => take (Z.to_nat r) d | _ => [] end.
Definition step_received (o : pair_op) (r : Z) (out : cells) : bytes :=
  match o with PRead _ => omap id (take (Z.to_nat r) out) | _ => [] end.

Lemma sent_cons s s' o os r out rs :
  sent s ((s', o) :: os) ((r, out) :: rs) =
  (if Bool.eqb s s' then step_sent o r else []) ++ sent s os rs.
Proof. destruct o; cbn; try done; by destruct (Bool.eqb s s'). Qed.
Lemma received_cons s s' o os r out rs :
  received s ((s', o) :: os) ((r, out) :: rs) =
  (if Bool.eqb s s' then step_received o r out else []) ++ received s os rs.
Proof. destruct o; cbn; try done; by destruct (Bool.eqb s s'). Qed.

Lemma omap_some (l : bytes) : omap id (Some <$> l) = l.
Proof. induction l as [|x l IH]; [done|]. cbn. by f_equal. Qed.

(** One step: what is in the queues, before and after. *)
Lemma step_bytes o h peer r out h' peer' :
  tells o -> spec_op o h peer = (r, out, h', peer') ->
  h_data h ++ step_sent o r = h_data h' /\ h_data peer = step_received o r out ++ h_data peer'.
Proof.
  intros Ht. destruct o; cbn [spec_op step_sent step_received]; rewrite ?app_nil_r;
    try (by intros [= <- <- <- <-]); try done.
  - unfold spec_write. destruct (Z.eqb_spec (Z.of_nat (length d)) 0) as [E|E].
    { intros [= <- <- <- <-]. cbn. by rewrite app_nil_r. }
    destruct (h_closed _); [intros [= <- <- <- <-]; cbn; by rewrite app_nil_r|].
    destruct (_ =? _); intros [= <- <- <- <-]; cbn; [by rewrite app_nil_r|done].
  - unfold spec_read. destruct (n <=? 0); [by intros [= <- <- <- <-]|].
    destruct (_ =? 0); [destruct (h_closed _); by intros [= <- <- <- <-]|].
    intros [= <- <- <- <-]. cbn [h_data clear_flags requested]. split; [done|].
    set (k := n `min` h_len (requested 0 peer)).
    assert (0 < k -> (Z.to_nat k <= length (h_data peer))%nat) as Hk.
    { unfold k, h_len. cbn. lia. }
    destruct (Z.le_gt_cases k 0).
    { by replace (Z.to_nat k) with 0%nat by lia. }
    rewrite take_app_le by (rewrite length_fmap, length_take; lia).
    rewrite <- fmap_take, take_take, Nat.min_id, omap_some. by rewrite take_drop.
Qed.

Lemma ops_bytes os h1 h2 rs h1' h2' :
  Forall (fun so => tells so.2) os -> spec_ops os h1 h2 = (rs, h1', h2') ->
  h_data h1 ++ sent true os rs = received false os rs ++ h_data h1' /\
  h_data h2 ++ sent false os rs = received true os rs ++ h_data h2'.
Proof.
  intros Ht. revert h1 h2 rs. induction os as [|[s o] os IH]; intros h1 h2 rs; cbn [spec_ops].
  { intros [= <- <- <-]. cbn. by rewrite !app_nil_r. }
  apply Forall_cons_1 in Ht as [Hto Ht]. cbn in Hto.
  destruct (if s then spec_op o h1 h2 else let '(r, out, h3, h4) := spec_op o h2 h1 in (r, out, h4, h3))
    as [[[r out] k1] k2] eqn:E.
  destruct (spec_ops os k1 k2) as [[rs' q1] q2] eqn:Es. intros [= <- <- <-].
  destruct (IH Ht k1 k2 rs' Es) as [I1 I2]. rewrite !sent_cons, !received_cons.
  destruct s; cbn [Bool.eqb app].
  - apply step_bytes in E as [E1 E2]; [|done]. rewrite <- E1, <- app_assoc in I1.
    by rewrite I1, E2, <- !app_assoc, I2.
  - destruct (spec_op o h2 h1) as [[[r' out'] k2'] k1'] eqn:E'. injection E as -> -> -> ->.
    apply step_bytes in E' as [E1 E2]; [|done]. rewrite <- E1, <- app_assoc in I2.
    by rewrite I2, E2, <- !app_assoc, I1.
Qed.

(** ** Creation *)

Definition new_size (w : Z) : Z := if negb (w =? 0) then w else 17 * 1024.
Definition new_half (w : Z) : half := Half [] (new_size w) false 0 0 0 0.

Record fresh_pair (sg : bios) (p1 p2 : Z) : Prop := {
  fr_1 : sg !! p1 = None;
  fr_2 : sg !! p2 = None;
  fr_ne : p1 <> p2;
  fr_nz1 : p1 <> 0;
  fr_nz2 : p2 <> 0
}.
Definition all_ok : pair_alloc := PairAlloc true true true true true true.
Definition alloc_ok (a : pair_alloc) : bool :=
  pa_bio1 a && pa_b1 a && pa_bio2 a && pa_b2 a && pa_buf1 a && pa_buf2 a.

Definition fresh_bb : bio_bio := BioBio 0 false 0 0 (17 * 1024) None 0.
Definition fresh_bio (bb : bio_bio) : bio := Bio false 1 0 0 1 (Some bb) 0 0 0.

Lemma bio_new_run p ok_bio ok_b sg :
  sg !! p = None -> p <> 0 ->
  BIO_new p ok_bio ok_b sg =
    if ok_bio && ok_b then Ret (p, <[p := fresh_bio fresh_bb]> sg) else Ret (0, sg).
Proof.
  intros Hp Hz. unfold BIO_new, bio_new. destruct ok_bio, ok_b; cbn [negb andb]; [|idtac|done|done].
  - unfold set_bb, upd_bio, get_bio, put_bio, bbind. by rewrite !lookup_insert_eq, insert_insert_eq.
  - cbn. by rewrite delete_insert_id.
Qed.

(** A BIO without a peer is freed. *)
Lemma bio_free_run p sg bb :
  sg !! p = Some (fresh_bio bb) -> bb_peer bb = 0 -> p <> 0 ->
  BIO_free p sg = Ret (1, delete p sg).
Proof.
  intros Hp Hb Hz. unfold BIO_free. cbn [BIO_free_loop]. rewrite (proj2 (Z.eqb_neq p 0) Hz).
  assert (exists s', sg = <[p := fresh_bio bb]> s') as [s' ->] by (exists sg; by rewrite insert_id).
  unfold bbind, get_bio, put_bio, blift. rewrite !lookup_insert_eq. cbn [refcount_dec fresh_bio bio_references].
  change (refcount_dec 1) with (Ret (true, 0)). cbn [fst snd negb].
  unfold BIO_pop. rewrite (proj2 (Z.eqb_neq p 0) Hz).
  unfold bbind, get_bio, put_bio, bret. rewrite !insert_insert_eq, !lookup_insert_eq, !insert_insert_eq.
  unfold bio_free, get_bb, bbind, get_bio, bret. rewrite !lookup_insert_eq.
  cbn [bio_ptr set_next set_references fresh_bio]. rewrite Hb. cbn [Z.eqb negb bio_next].
  rewrite delete_insert_eq. unfold bret. cbn. destruct (size _); cbn; by rewrite delete_insert_eq.
Qed.

Definition ring_bb (peer : Z) (w : Z) : bio_bio :=
  BioBio peer false 0 0 (new_size w) (Some (replicate (Z.to_nat (new_size w)) None)) 0.

Lemma make_pair_run p1 p2 sg w1 w2 ok1 ok2 :
  p1 <> p2 ->
  exists B1 B2 r, bio_make_pair p1 p2 w1 w2 ok1 ok2 (both p1 p2 sg (fresh_bio fresh_bb) (fresh_bio fresh_bb)) =
      Ret (r, both p1 p2 sg B1 B2) /\
    if ok1 && ok2 then r = 1 /\ B1 = set_init true (fresh_bio (ring_bb p2 w1)) /\
                       B2 = set_init true (fresh_bio (ring_bb p1 w2))
    else r = 0 /\ (exists bb, B1 = fresh_bio bb /\ bb_peer bb = 0) /\
                  (exists bb, B2 = fresh_bio bb /\ bb_peer bb = 0).
Proof.
  intros Hne. unfold bio_make_pair, make_buf.
  bgo. bgo. cbn [bb_peer fresh_bb Z.eqb negb orb bb_buf]. fold (new_size w1).
  destruct ok1; cbn [bb_size bb_closed bb_len bb_offset bb_request fresh_bb]; bgo; cbn [negb andb].
  2: { eexists _, _, _. split; [reflexivity|]. split; [done|]. split; by eexists. }
  bgo. cbn [bb_buf bb_peer bb_size bb_closed bb_len bb_offset bb_request fresh_bb]. fold (new_size w2).
  destruct ok2; bgo; cbn [negb].
  2: { eexists _, _, _. split; [reflexivity|]. split; [done|]. split; by eexists. }
  bgo. bgo. bgo. bgo. bgo. bgo. eexists _, _, _. split; [reflexivity|]. done.
Qed.

Lemma new_bio_of p w : 0 <= w < 2 ^ 62 -> bio_of (set_init true (fresh_bio (ring_bb p w))) p (new_half w).
Proof.
  intros Hw. assert (0 < new_size w < 2 ^ 62) as Hs.
  { unfold new_size. destruct (Z.eqb_spec w 0); cbn [negb]; lia. }
  split; cbn; [done| |done..]. eexists. split; [done|]. split; cbn; try done; [|lia].
  eexists. split; [reflexivity|]. cbn. rewrite length_replicate. split; [lia|].
  apply ring_empty; rewrite length_replicate; lia.
Qed.

Lemma new_pair_run sg p1 p2 w1 w2 :
  fresh_pair sg p1 p2 -> 0 <= w1 < 2 ^ 62 -> 0 <= w2 < 2 ^ 62 ->
  exists B1 B2, BIO_new_bio_pair p1 p2 all_ok w1 w2 sg = Ret (1, p1, p2, both p1 p2 sg B1 B2) /\
    bio_of B1 p2 (new_half w1) /\ bio_of B2 p1 (new_half w2).
Proof.
  intros [H1 H2 Hne Hz1 Hz2] Hw1 Hw2.
  destruct (make_pair_run p1 p2 sg w1 w2 true true Hne) as (B1 & B2 & r & E & -> & -> & ->).
  eexists _, _. split; [|split; by apply new_bio_of].
  unfold BIO_new_bio_pair, all_ok. cbn [pa_bio1 pa_b1 pa_bio2 pa_b2 pa_buf1 pa_buf2].
  eapply bbind_eq; [rewrite bio_new_run by done; reflexivity|cbv beta].
  eapply bbind_eq; [rewrite bio_new_run by (rewrite ?lookup_insert_ne; done); reflexivity|cbv beta].
  rewrite (proj2 (Z.eqb_neq p1 0) Hz1), (proj2 (Z.eqb_neq p2 0) Hz2). cbn [orb].
  rewrite insert_insert_ne by done. eapply bbind_eq; [exact E|]. done.
Qed.

(** If memory runs out anywhere, what was created is gone again. *)
Lemma new_pair_fail sg p1 p2 a w1 w2 :
  fresh_pair sg p1 p2 -> alloc_ok a = false ->
  BIO_new_bio_pair p1 p2 a w1 w2 sg = Ret (0, 0, 0, sg).
Proof.
  intros [H1 H2 Hne Hz1 Hz2] Ha. unfold BIO_new_bio_pair.
  assert (forall sg', BIO_free 0 sg' = Ret (1, sg')) as Hf0 by done.
  assert (forall p bb, p <> 0 -> sg !! p = None -> bb_peer bb = 0 ->
    BIO_free p (<[p := fresh_bio bb]> sg) = Ret (1, sg)) as Hf1.
  { intros p bb Hz Hp Hb. erewrite bio_free_run; [|apply lookup_insert_eq|done|done].
    by rewrite delete_insert_id. }
  destruct (pa_bio1 a && pa_b1 a) eqn:E1.
  - eapply bbind_eq; [rewrite bio_new_run, E1 by done; reflexivity|cbv beta].
    destruct (pa_bio2 a && pa_b2 a) eqn:E2.
    + eapply bbind_eq; [rewrite bio_new_run, E2 by (rewrite ?lookup_insert_ne; done); reflexivity|cbv beta].
      rewrite (proj2 (Z.eqb_neq p1 0) Hz1), (proj2 (Z.eqb_neq p2 0) Hz2). cbn [orb].
      rewrite insert_insert_ne by done.
      destruct (make_pair_run p1 p2 sg w1 w2 (pa_buf1 a) (pa_buf2 a) Hne) as (B1 & B2 & r & E & HB).
      eapply bbind_eq; [exact E|cbv beta]. unfold alloc_ok in Ha.
      assert (pa_buf1 a && pa_buf2 a = false) as Hb.
      { revert Ha E1 E2. destruct (pa_bio1 a), (pa_b1 a), (pa_bio2 a), (pa_b2 a); cbn; done. }
      rewrite Hb in HB. destruct HB as (-> & (bb1 & -> & Hb1) & (bb2 & -> & Hb2)). cbn [Z.eqb].
      eapply bbind_eq; [eapply bio_free_run; [apply both_1|done|done]|cbv beta].
      unfold both. rewrite delete_insert_id by (by rewrite lookup_insert_ne).
      by eapply bbind_eq; [by apply Hf1|].
    + eapply bbind_eq; [rewrite bio_new_run, E2 by (rewrite ?lookup_insert_ne; done); reflexivity|cbv beta].
      rewrite orb_true_r. cbn [Z.eqb]. eapply bbind_eq; [reflexivity|cbn [Z.eqb]].
      eapply bbind_eq; [by apply Hf1|cbv beta]. by eapply bbind_eq.
  - eapply bbind_eq; [rewrite bio_new_run, E1 by done; reflexivity|cbv beta]. cbn [Z.eqb orb].
    destruct (pa_bio2 a && pa_b2 a) eqn:E2.
    + eapply bbind_eq; [rewrite bio_new_run, E2 by done; reflexivity|cbv beta].
      eapply bbind_eq; [reflexivity|cbn [Z.eqb]]. eapply bbind_eq; [by apply Hf0|cbv beta].
      by eapply bbind_eq; [by apply Hf1|].
    + eapply bbind_eq; [rewrite bio_new_run, E2 by done; reflexivity|cbv beta].
      eapply bbind_eq; [reflexivity|cbn [Z.eqb]]. eapply bbind_eq; [by apply Hf0|cbv beta].
      by eapply bbind_eq.
Qed.

(** C18: A BIO pair is a pair of bounded queues.  [BIO_new_bio_pair] with enough
    memory gives two BIOs, and whatever sequence of reads, writes, shutdowns and
    queries is then made on its ends: every call returns (no assertion fails, the
    copy loops need no more than two rounds and stay inside the ring), the results,
    the bytes handed out and the retry flags are those of the specification
    [spec_ops], which appends to a queue and takes from its front, and no other BIO
    changes. *)
Theorem bio_pair_is_two_queues sg p1 p2 w1 w2 os rs h1 h2 :
  fresh_pair sg p1 p2 -> 0 <= w1 < 2 ^ 62 -> 0 <= w2 < 2 ^ 62 ->
  Forall (fun so => op_ok so.2) os -> spec_ops os (new_half w1) (new_half w2) = (rs, h1, h2) ->
  exists sg0 sg', BIO_new_bio_pair p1 p2 all_ok w1 w2 sg = Ret (1, p1, p2, sg0) /\
    run_ops os p1 p2 sg0 = Ret (rs, sg') /\ pair_rep sg' sg p1 p2 h1 h2.
Proof.
  intros Hf Hw1 Hw2 Hok Hs.
  destruct (new_pair_run sg p1 p2 w1 w2 Hf Hw1 Hw2) as (B1 & B2 & E & R1 & R2).
  destruct Hf as [_ _ Hne Hz1 Hz2].
  destruct (ops_run os p1 p2 sg B1 B2 _ _ rs h1 h2 Hne Hz1 Hz2 R1 R2 Hok Hs)
    as (C1 & C2 & E' & Q1 & Q2).
  exists (both p1 p2 sg B1 B2), (both p1 p2 sg C1 C2). split_and!; [done..|by apply rep_of].
Qed.

(** Nothing is lost, invented or reordered between the ends of a BIO pair:
    after any sequence of operations, the bytes accepted at one end are the bytes
    handed out at the other followed by the bytes [BIO_pending] still announces
    there, in both directions. *)
Theorem bio_pair_fifo sg p1 p2 w1 w2 os sg0 rs sg' :
  fresh_pair sg p1 p2 -> 0 <= w1 < 2 ^ 62 -> 0 <= w2 < 2 ^ 62 ->
  Forall (fun so => op_ok so.2) os -> Forall (fun so => tells so.2) os ->
  BIO_new_bio_pair p1 p2 all_ok w1 w2 sg = Ret (1, p1, p2, sg0) ->
  run_ops os p1 p2 sg0 = Ret (rs, sg') ->
  exists q1 q2, sent true os rs = received false os rs ++ q1 /\
    sent false os rs = received true os rs ++ q2 /\
    BIO_pending p2 sg' = Ret (Z.of_nat (length q1), sg') /\
    BIO_pending p1 sg' = Ret (Z.of_nat (length q2), sg').
Proof.
  intros Hf Hw1 Hw2 Hok Ht En Er.
  destruct (new_pair_run sg p1 p2 w1 w2 Hf Hw1 Hw2) as (B1 & B2 & E & R1 & R2).
  rewrite E in En. injection En as <-. destruct Hf as [_ _ Hne Hz1 Hz2].
  destruct (spec_ops os (new_half w1) (new_half w2)) as [[rs' h1] h2] eqn:Es.
  destruct (ops_run os p1 p2 sg B1 B2 _ _ rs' h1 h2 Hne Hz1 Hz2 R1 R2 Hok Es)
    as (C1 & C2 & E' & Q1 & Q2).
  rewrite E' in Er. injection Er as <- <-.
  destruct (ops_bytes os _ _ _ _ _ Ht Es) as [I1 I2].
  exists (h_data h1), (h_data h2). split_and!; [exact I1|exact I2|..].
  - rewrite both_swap by done. by apply (pending_1 _ _ _ _ _ _ _ (not_eq_sym Hne) Hz2 Hz1 Q2 Q1).
  - by apply (pending_1 _ _ _ _ _ _ _ Hne Hz1 Hz2 Q1 Q2).
Qed.

(** [BIO_new_bio_pair] gives two BIOs or none: if any of its allocations
    fails it returns 0 and null pointers, and what it had created is freed. *)
Theorem new_pair_no_leak sg p1 p2 a w1 w2 :
  fresh_pair sg p1 p2 -> alloc_ok a = false ->
  BIO_new_bio_pair p1 p2 a w1 w2 sg = Ret (0, 0, 0, sg).
Proof. apply new_pair_fail. Qed.

(** ** A concrete pair *)

(** A ring of three bytes from end 1 to end 2, used around its end. *)
Definition sample_ops : list (bool * pair_op) :=
  [(true, PWrite [1; 2]); (false, PRead 1); (true, PWrite [3; 4; 5]); (false, PRead 9);
   (false, PWriteAll [6; 7]); (true, PPending); (false, PRead 4); (true, PShutdown)].
Lemma sample_fresh : fresh_pair ∅ 100 200.
Proof. by split. Qed.

Ltac ops_ok :=
  repeat first [apply List.Forall_nil | apply List.Forall_cons]; cbn; unfold INT_MAX; first [lia | exact I].

Definition sample_spec : list (Z * cells) * half * half :=
  spec_ops sample_ops (new_half 3) (new_half 2).
Lemma sample_spec_results : fst <$> sample_spec.1.1 = [2; 1; 2; 3; 1; 2; -1; 1].
Proof. vm_compute. reflexivity. Qed.

Lemma bio_pair_is_two_queues_witness :
  exists sg0 sg', BIO_new_bio_pair 100 200 all_ok 3 2 ∅ = Ret (1, 100, 200, sg0) /\
    run_ops sample_ops 100 200 sg0 = Ret (sample_spec.1.1, sg') /\
    pair_rep sg' ∅ 100 200 sample_spec.1.2 sample_spec.2.
Proof.
  apply (bio_pair_is_two_queues ∅ 100 200 3 2 sample_ops _ _ _ sample_fresh ltac:(lia) ltac:(lia)).
  - ops_ok.
  - unfold sample_spec. by destruct (spec_ops sample_ops (new_half 3) (new_half 2)) as [[? ?] ?].
Defined.

Definition fifo_ops : list (bool * pair_op) :=
  [(true, PWrite [1; 2]); (false, PRead 1); (true, PWrite [3; 4; 5]); (false, PRead 2)].

(** The two BIOs of the sample, and the pair after [fifo_ops]. *)
Definition sample_pair : bios :=
  match BIO_new_bio_pair 100 200 all_ok 3 2 ∅ with Ret (_, sg) => sg | _ => ∅ end.
Definition fifo_run : list (Z * cells) * bios :=
  match run_ops fifo_ops 100 200 sample_pair with Ret x => x | _ => ([], ∅) end.

Lemma bio_pair_fifo_witness :
  exists q1 q2, sent true fifo_ops fifo_run.1 = received false fifo_ops fifo_run.1 ++ q1 /\
    sent false fifo_ops fifo_run.1 = received true fifo_ops fifo_run.1 ++ q2 /\
    BIO_pending 200 fifo_run.2 = Ret (Z.of_nat (length q1), fifo_run.2) /\
    BIO_pending 100 fifo_run.2 = Ret (Z.of_nat (length q2), fifo_run.2).
Proof.
  apply (bio_pair_fifo ∅ 100 200 3 2 fifo_ops sample_pair _ _ sample_fresh ltac:(lia) ltac:(lia)
    ltac:(ops_ok) ltac:(ops_ok)); vm_compute; reflexivity.
Defined.

Lemma new_pair_no_leak_witness :
  BIO_new_bio_pair 100 200 (PairAlloc true true true true true false) 3 2 ∅ = Ret (0, 0, 0, ∅).
Proof. apply new_pair_no_leak; [exact sample_fresh|reflexivity]. Defined.
