(* ===== verification/PbCommon.v ===== *)
(** * nanopb: field descriptors and the field iterator (pb.h, pb_common.c)

    [pb_field] is [pb_field_t] in the configuration the Pods build uses
    (PB_FIELD_32BIT=1, PB_ENABLE_MALLOC=1, PB_NO_PACKED_STRUCTS=1), a descriptor
    array is the list of its entries, terminator included, and a pointer into
    one is an index.  The iterator of pb_common.c walks such an array and the
    structure it describes together. *)
From Stdlib Require Import ZArith Lia.
From stdpp Require Import prelude strings gmap list numbers.
From S2P Require Import Prelude CMem.
Local Open Scope Z_scope.

(** ** Field types (pb.h) *)

Definition PB_LTYPE_BOOL := 0x00.
Definition PB_LTYPE_VARINT := 0x01.
Definition PB_LTYPE_UVARINT := 0x02.
Definition PB_LTYPE_SVARINT := 0x03.
Definition PB_LTYPE_FIXED32 := 0x04.
Definition PB_LTYPE_FIXED64 := 0x05.
Definition PB_LTYPE_LAST_PACKABLE := 0x05.
Definition PB_LTYPE_BYTES := 0x06.
Definition PB_LTYPE_STRING := 0x07.
Definition PB_LTYPE_SUBMESSAGE := 0x08.
Definition PB_LTYPE_EXTENSION := 0x09.
Definition PB_LTYPE_FIXED_LENGTH_BYTES := 0x0A.

Definition PB_HTYPE_REQUIRED := 0x00.
Definition PB_HTYPE_OPTIONAL := 0x10.
Definition PB_HTYPE_REPEATED := 0x20.
Definition PB_HTYPE_ONEOF := 0x30.

Definition PB_ATYPE_STATIC := 0x00.
Definition PB_ATYPE_POINTER := 0x80.
Definition PB_ATYPE_CALLBACK := 0x40.

Definition PB_ATYPE (t : Z) : Z := Z.land t 0xC0.
Definition PB_HTYPE (t : Z) : Z := Z.land t 0x30.
Definition PB_LTYPE (t : Z) : Z := Z.land t 0x0F.

(** [pb_size_t] is [uint32_t]. *)
Definition PB_SIZE_MAX : Z := 2 ^ 32 - 1.
Definition PB_MAX_REQUIRED_FIELDS : Z := 64.

Definition PB_WT_VARINT := 0.
Definition PB_WT_64BIT := 1.
Definition PB_WT_STRING := 2.
Definition PB_WT_32BIT := 5.

(** ** Descriptors *)

Record pb_field := PbField {
  tag : Z;          (** pb_size_t *)
  type : Z;         (** pb_type_t *)
  data_offset : Z;  (** pb_size_t, relative to the end of the previous field *)
  size_offset : Z;  (** pb_ssize_t, of the count or has-flag, relative to the data *)
  data_size : Z;    (** pb_size_t, of one item *)
  array_size : Z;   (** pb_size_t *)
  ptr : Z           (** submessage descriptor, default value, or null *)
}.

#[global] Instance pb_field_eq_dec : EqDecision pb_field.
Proof. solve_decision. Defined.

Definition PB_LAST_FIELD : pb_field := PbField 0 0 0 0 0 0 0.

(** Where the count or has-flag of a field is: in memory, or in the local
    variable [fixed_count_size] of [pb_decode_noinit], whose value is kept here. *)
Inductive size_ref :=
| SizeAt (a : Z)
| SizeLocal (v : Z).

Record field_iter := Iter {
  it_fields : list pb_field;      (** the array [start] points to *)
  pos : nat;                      (** [pos - start] *)
  required_field_index : Z;
  dest_struct : Z;
  pData : Z;
  pSize : size_ref
}.

(** ** The iterator (pb_common.c) *)

Definition pb_field_iter_begin (fields : list pb_field) (dest : Z) : res (bool * field_iter) :=
  match fields !! 0%nat with
  | None => UB
  | Some f =>
      let d := if dest =? 0 then 0 else dest + data_offset f in
      let sz := if dest =? 0 then 0 else d + size_offset f in
      Ret (negb (tag f =? 0), Iter fields 0 0 dest d (SizeAt sz))
  end.

Definition pb_field_iter_next (it : field_iter) : res (bool * field_iter) :=
  match it_fields it !! pos it with
  | None => UB
  | Some prev =>
      if tag prev =? 0 then Ret (false, it)
      else
        match it_fields it !! S (pos it) with
        | None => UB
        | Some cur =>
            if tag cur =? 0 then
              match pb_field_iter_begin (it_fields it) (dest_struct it) with
              | Ret (_, it') => Ret (false, it')
              | UB => UB
              | OutOfFuel => OutOfFuel
              end
            else if (PB_HTYPE (type prev) =? PB_HTYPE_ONEOF) &&
                    (PB_HTYPE (type cur) =? PB_HTYPE_ONEOF) &&
                    (data_offset cur =? PB_SIZE_MAX)
            then
              Ret (true, Iter (it_fields it) (S (pos it)) (required_field_index it)
                              (dest_struct it) (pData it) (pSize it))
            else
              let prev_size :=
                if (PB_ATYPE (type prev) =? PB_ATYPE_STATIC) &&
                   (PB_HTYPE (type prev) =? PB_HTYPE_REPEATED)
                then u64 (data_size prev * array_size prev)
                else if PB_ATYPE (type prev) =? PB_ATYPE_POINTER then 8
                else data_size prev in
              let req :=
                if PB_HTYPE (type prev) =? PB_HTYPE_REQUIRED
                then u32 (required_field_index it + 1) else required_field_index it in
              let d := pData it + prev_size + data_offset cur in
              Ret (true, Iter (it_fields it) (S (pos it)) req (dest_struct it)
                              d (SizeAt (d + size_offset cur)))
        end
  end.

(** The [do ... while (iter->pos != start)] loop; [fuel] bounds its rounds. *)
Fixpoint iter_find_loop (fuel : nat) (start : nat) (it : field_iter) (t : Z) :
    res (bool * field_iter) :=
  match fuel with
  | O => OutOfFuel
  | S k =>
      match it_fields it !! pos it with
      | None => UB
      | Some f =>
          if (tag f =? t) && negb (PB_LTYPE (type f) =? PB_LTYPE_EXTENSION)
          then Ret (true, it)
          else
            match pb_field_iter_next it with
            | Ret (_, it') =>
                if (pos it' =? start)%nat then Ret (false, it')
                else iter_find_loop k start it' t
            | UB => UB
            | OutOfFuel => OutOfFuel
            end
      end
  end.

Definition pb_field_iter_find (it : field_iter) (t : Z) : res (bool * field_iter) :=
  iter_find_loop (length (it_fields it)) (pos it) it t.

(** A pure computation inside a C function. *)
Definition of_res {S A} (r : res A) : M S A :=
  fun s w =>
    match r with
    | Ret a => Ret (a, s, w)
    | UB => UB
    | OutOfFuel => OutOfFuel
    end.

Lemma spec_of_res {S A} U F (r : res A) (Q : A -> S -> world -> Prop) s w :
  (forall a, r = Ret a -> Q a s w) -> (r = UB -> U) -> (r = OutOfFuel -> F) ->
  spec U F (of_res r) Q s w.
Proof. unfold spec, of_res. destruct r; auto. Qed.

(** ** What the iterator promises

    A descriptor array is well formed when its entries have non-zero tags and
    the terminator follows them. *)
Definition is_terminator (f : pb_field) : Prop := tag f = 0.
Definition wf_fields (fs : list pb_field) (n : nat) : Prop :=
  length fs = S n /\
  (forall k f, fs !! k = Some f -> (k < n)%nat -> tag f <> 0) /\
  (exists f, fs !! n = Some f /\ is_terminator f).

(** Bytes of the structure that entry [f] takes: an array of [array_size]
    items, a pointer, or one item. *)
Definition field_span (f : pb_field) : Z :=
  if bool_decide (PB_ATYPE (type f) = PB_ATYPE_STATIC /\
                  PB_HTYPE (type f) = PB_HTYPE_REPEATED)
  then u64 (data_size f * array_size f)
  else if bool_decide (PB_ATYPE (type f) = PB_ATYPE_POINTER) then 8
  else data_size f.

(** Entry [cur] is a further member of the union [prev] belongs to. *)
Definition shares_union (prev cur : pb_field) : bool :=
  bool_decide (PB_HTYPE (type prev) = PB_HTYPE_ONEOF /\
               PB_HTYPE (type cur) = PB_HTYPE_ONEOF /\ data_offset cur = PB_SIZE_MAX).

(** Offset of entry [k]'s data in the structure. *)
Fixpoint field_offset (fs : list pb_field) (k : nat) : Z :=
  match k with
  | O => match fs !! 0%nat with Some f => data_offset f | None => 0 end
  | S j =>
      match fs !! j, fs !! S j with
      | Some p, Some c =>
          if shares_union p c then field_offset fs j
          else field_offset fs j + field_span p + data_offset c
      | _, _ => 0
      end
  end.

(** Offset of entry [k]'s count or has-flag; union members use the first one's. *)
Fixpoint field_size_offset (fs : list pb_field) (k : nat) : Z :=
  match fs !! k with
  | None => 0
  | Some c =>
      match k with
      | O => field_offset fs 0 + size_offset c
      | S j =>
          match fs !! j with
          | Some p => if shares_union p c then field_size_offset fs j
                      else field_offset fs k + size_offset c
          | None => 0
          end
      end
  end.

Definition is_required (f : pb_field) : bool := PB_HTYPE (type f) =? PB_HTYPE_REQUIRED.
Definition required_before (fs : list pb_field) (k : nat) : nat :=
  length (List.filter is_required (take k fs)).

(** The iterator stands at entry [k] of [fs], over a structure at [dest]. *)
Record iter_at (fs : list pb_field) (dest : Z) (k : nat) (it : field_iter) : Prop := {
  ia_fields : it_fields it = fs;
  ia_pos : pos it = k;
  ia_req : required_field_index it = Z.of_nat (required_before fs k);
  ia_dest : dest_struct it = dest;
  ia_data : pData it = dest + field_offset fs k
}.
Definition size_at (fs : list pb_field) (dest : Z) (k : nat) (it : field_iter) : Prop :=
  pSize it = SizeAt (dest + field_size_offset fs k).

Lemma wf_lookup fs n k : wf_fields fs n -> (k <= n)%nat -> exists f, fs !! k = Some f.
Proof. intros [Hl _] Hk. apply lookup_lt_is_Some_2. lia. Qed.

Lemma begin_at fs n dest :
  wf_fields fs n -> dest <> 0 ->
  exists it, pb_field_iter_begin fs dest = Ret (negb (n =? 0)%nat, it) /\
             iter_at fs dest 0 it /\ size_at fs dest 0 it.
Proof.
  intros Hwf Hd. unfold pb_field_iter_begin.
  destruct (wf_lookup fs n 0 Hwf ltac:(lia)) as [f Hf]. rewrite Hf.
  rewrite (proj2 (Z.eqb_neq dest 0) Hd). eexists; split; [f_equal; f_equal|].
  - f_equal. destruct Hwf as (Hl & Hnz & (t & Ht & Ht0)).
    destruct (Nat.eqb_spec n 0) as [->|].
    + rewrite Ht in Hf. injection Hf as <-. unfold is_terminator in Ht0. by rewrite Ht0.
    + apply Z.eqb_neq. apply (Hnz 0%nat f); [done|lia].
  - split; [split|]; cbn; rewrite ?Hf; unfold size_at; cbn; rewrite ?Hf; try done; f_equal; lia.
Qed.

Lemma required_before_succ fs k f :
  fs !! k = Some f ->
  required_before fs (S k) = (required_before fs k + (if is_required f then 1 else 0))%nat.
Proof.
  intros H. unfold required_before. erewrite take_S_r by done.
  rewrite List.filter_app, length_app. f_equal. cbn. by destruct (is_required f).
Qed.

Lemma is_required_eqb f : (PB_HTYPE (type f) =? PB_HTYPE_REQUIRED) = is_required f.
Proof. done. Qed.

(** One step of the iterator: on to the next entry, or back to the first. *)
Lemma next_at fs n dest k it :
  wf_fields fs n -> dest <> 0 -> (k < n)%nat -> Z.of_nat n < 2 ^ 32 ->
  iter_at fs dest k it ->
  exists it', pb_field_iter_next it = Ret ((S k <? n)%nat, it') /\
    iter_at fs dest (S k mod n) it' /\
    (size_at fs dest k it -> size_at fs dest (S k mod n) it').
Proof.
  intros Hwf Hd Hk Hn [Hfs Hp Hr Hds Hda].
  unfold pb_field_iter_next. rewrite Hfs, Hp.
  destruct (wf_lookup fs n k Hwf ltac:(lia)) as [p Hpk]. rewrite Hpk.
  destruct (wf_lookup fs n (S k) Hwf ltac:(lia)) as [c Hck]. rewrite Hck.
  pose proof Hwf as (Hl & Hnz & (t & Ht & Ht0)).
  rewrite (proj2 (Z.eqb_neq (tag p) 0)) by eauto.
  destruct (Nat.ltb_spec (S k) n) as [Hlt|Hge].
  - rewrite (proj2 (Z.eqb_neq (tag c) 0)) by eauto.
    rewrite Nat.mod_small by lia.
    assert (shares_union p c = (PB_HTYPE (type p) =? PB_HTYPE_ONEOF) &&
                    (PB_HTYPE (type c) =? PB_HTYPE_ONEOF) &&
                    (data_offset c =? PB_SIZE_MAX)) as Hsh.
    { unfold shares_union. apply Bool.eq_iff_eq_true.
      rewrite bool_decide_eq_true, !andb_true_iff, !Z.eqb_eq. tauto. }
    rewrite <- Hsh. destruct (shares_union p c) eqn:Es.
    + eexists; split; [done|]. split; [split|]; unfold size_at; cbn; try done.
      * rewrite (required_before_succ _ _ _ Hpk).
        unfold shares_union in Es. apply bool_decide_eq_true in Es.
        unfold is_required. destruct Es as [-> _]. cbn. lia.
      * rewrite Hpk, Hck, Es. done.
      * rewrite Hpk, Hck, Es. done.
    + eexists; split; [done|]. split; [split|]; unfold size_at; cbn; try done.
      * rewrite (required_before_succ _ _ _ Hpk), is_required_eqb.
        assert (Z.of_nat (required_before fs k) <= Z.of_nat k).
        { unfold required_before. apply Nat2Z.inj_le. etrans; [apply List.filter_length_le|].
          rewrite length_take. lia. }
        destruct (is_required p); [|lia]. unfold u32. rewrite wrap_small; lia.
      * rewrite Hpk, Hck, Es, Hda. unfold field_span.
        repeat (case_bool_decide || case_match || rewrite ?andb_true_iff, ?andb_false_iff in * );
          rewrite ?Z.eqb_eq, ?Z.eqb_neq in *; try lia; tauto.
      * intros _. rewrite Hpk, Hck, Es, Hda. f_equal. unfold field_span.
        repeat (case_bool_decide || case_match || rewrite ?andb_true_iff, ?andb_false_iff in * );
          rewrite ?Z.eqb_eq, ?Z.eqb_neq in *; try lia; tauto.
  - assert (S k = n) as E by lia. rewrite E in Hck. rewrite Hck in Ht. injection Ht as ->.
    unfold is_terminator in Ht0. rewrite Ht0, Hds. cbn [Z.eqb].
    rewrite E, Nat.Div0.mod_same.
    destruct (begin_at fs n dest Hwf Hd) as (it' & -> & Hat & Hsz). eauto.
Qed.

(** Entry [f] is the regular field with tag [t]. *)
Definition matches (t : Z) (f : pb_field) : bool :=
  (tag f =? t) && negb (PB_LTYPE (type f) =? PB_LTYPE_EXTENSION).

Lemma mod_succ_cycle (a j n : nat) :
  (0 < n)%nat -> (S ((a + j) mod n) mod n = (a + S j) mod n)%nat.
Proof.
  intros. replace (S ((a + j) mod n)) with ((a + j) mod n + 1)%nat by lia.
  rewrite Nat.Div0.add_mod_idemp_l. f_equal. lia.
Qed.

Lemma mod_cycle_start (a j n : nat) :
  (a < n)%nat -> (j < n)%nat -> ((a + S j) mod n = a)%nat -> S j = n.
Proof.
  intros Ha Hj H.
  pose proof (Nat.div_mod_eq (a + S j) n) as D. rewrite H in D.
  assert (((a + S j) / n = 1)%nat \/ ((a + S j) / n = 0)%nat \/ ((a + S j) / n >= 2)%nat)
    as [E|[E|E]] by lia; [rewrite E in D; lia|rewrite E in D; lia|].
  exfalso. nia.
Qed.

(** Position [i] is among the [j] positions that follow [a] in the cycle. *)
Definition visited (a j n i : nat) : Prop := exists d, (d < j)%nat /\ i = ((a + d) mod n)%nat.

Lemma visited_all (a n i : nat) : (a < n)%nat -> (i < n)%nat -> visited a n n i.
Proof.
  intros Ha Hi. destruct (decide (a <= i)%nat).
  - exists (i - a)%nat. split; [lia|]. rewrite Nat.mod_small; lia.
  - exists (n + i - a)%nat. split; [lia|].
    replace (a + (n + i - a))%nat with (i + 1 * n)%nat by lia.
    rewrite Nat.Div0.mod_add, Nat.mod_small; lia.
Qed.

(** Where a search may end, [b] being its answer. *)
Definition find_result (fs : list pb_field) (n : nat) (dest t : Z) (sz : bool)
    (b : bool) (it : field_iter) : Prop :=
  exists k, (k < n)%nat /\ iter_at fs dest k it /\ (sz = true -> size_at fs dest k it) /\
    if b then exists f, fs !! k = Some f /\ matches t f = true
    else forall i f, (i < n)%nat -> fs !! i = Some f -> matches t f = false.

Lemma find_loop_at fs n dest t sz start j fuel it :
  wf_fields fs n -> dest <> 0 -> Z.of_nat n < 2 ^ 32 ->
  (start < n)%nat -> (j < n)%nat -> (n - j <= fuel)%nat ->
  iter_at fs dest ((start + j) mod n) it ->
  (sz = true -> size_at fs dest ((start + j) mod n) it) ->
  (forall i f, visited start j n i -> fs !! i = Some f -> matches t f = false) ->
  exists b it', iter_find_loop fuel start it t = Ret (b, it') /\
                find_result fs n dest t sz b it'.
Proof.
  intros Hwf Hd Hn Hs. revert j it.
  induction fuel as [|fuel IH]; intros j it Hj Hf Hat Hsz Hvis; [lia|].
  cbn [iter_find_loop]. pose proof Hat as [Hfs Hp _ _ _].
  set (k := ((start + j) mod n)%nat) in *.
  assert (k < n)%nat as Hk by (apply Nat.mod_upper_bound; lia).
  rewrite Hfs, Hp. destruct (wf_lookup fs n k Hwf ltac:(lia)) as [f Hf'].
  rewrite Hf'. fold (matches t f). destruct (matches t f) eqn:Em.
  - exists true, it. split; [done|]. exists k. eauto 10.
  - destruct (next_at fs n dest k it Hwf Hd Hk Hn Hat) as (it' & -> & Hat' & Hsz').
    unfold k in Hat', Hsz'. rewrite mod_succ_cycle in Hat', Hsz' by lia.
    assert (forall i f, visited start (S j) n i -> fs !! i = Some f -> matches t f = false)
      as Hvis'.
    { intros i g (d & Hdj & ->) Hg. destruct (decide (d = j)) as [->|].
      - unfold k in Hf'. congruence.
      - apply (Hvis ((start + d) mod n)%nat); [|done]. exists d. split; [lia|done]. }
    rewrite (ia_pos _ _ _ _ Hat').
    destruct (Nat.eqb_spec ((start + S j) mod n) start) as [E|E].
    + exists false, it'. split; [done|]. exists ((start + S j) mod n)%nat.
      split; [apply Nat.mod_upper_bound; lia|]. split; [done|]. split; [auto|].
      intros i g Hi. apply Hvis'.
      rewrite (mod_cycle_start start j n) by done. by apply visited_all.
    + apply (IH (S j)); try done; try lia; [|auto].
      destruct (decide (S j = n)) as [En|]; [|lia].
      exfalso. apply E. rewrite En.
      replace (start + n)%nat with (start + 1 * n)%nat by lia.
      rewrite Nat.Div0.mod_add, Nat.mod_small; lia.
Qed.

(** The search of a well-formed array always ends, at a field with the wanted
    tag if there is one. *)
Lemma find_at fs n dest t sz k it :
  wf_fields fs n -> dest <> 0 -> Z.of_nat n < 2 ^ 32 -> (k < n)%nat ->
  iter_at fs dest k it -> (sz = true -> size_at fs dest k it) ->
  exists b it', pb_field_iter_find it t = Ret (b, it') /\ find_result fs n dest t sz b it'.
Proof.
  intros Hwf Hd Hn Hk Hat Hsz. unfold pb_field_iter_find.
  pose proof Hat as [Hfs Hp _ _ _]. rewrite Hfs, Hp.
  apply (find_loop_at fs n dest t sz k 0); try done; try lia.
  - destruct Hwf as [-> _]. lia.
  - rewrite Nat.add_0_r, Nat.mod_small by lia. done.
  - rewrite Nat.add_0_r, Nat.mod_small by lia. done.
  - intros i f (d & Hd' & _). lia.
Qed.
