(* ===== verification/PbStream.v ===== *)
(** * nanopb: input and output streams

    The stream objects of pb_decode.h and pb_encode.h and the functions that
    move bytes through them (top of pb_decode.c and pb_encode.c).  What a user
    of the library supplies - stream callbacks, field callbacks, extension
    handlers and the descriptor tables the generator writes - is the
    environment [PbEnv]. *)
From Stdlib Require Import ZArith Lia.
From stdpp Require Import prelude strings gmap list numbers.
From S2P Require Import Prelude CMem PbCommon.
Local Open Scope Z_scope.
Local Open Scope c_scope.

(** ** Stream objects *)

(** [callback] of an input stream: [buf_read], or a function of the user. *)
Inductive icallback := IBuf | IUser (f : Z).
(** [callback] of an output stream: null (sizing only), [buf_write], or the user's. *)
Inductive ocallback := ONull | OBuf | OUser (f : Z).

Record istream := IStream {
  i_callback : icallback;
  i_state : Z;
  bytes_left : Z;
  i_errmsg : option string
}.

Record ostream := OStream {
  o_callback : ocallback;
  o_state : Z;
  max_size : Z;
  bytes_written : Z;
  o_errmsg : option string
}.

(** PB_SET_ERROR: the first message stays. *)
Class ErrStream (S : Type) := {
  get_err : S -> option string;
  set_err : option string -> S -> S
}.
#[export] Instance istream_err : ErrStream istream := {|
  get_err := i_errmsg;
  set_err e s := IStream (i_callback s) (i_state s) (bytes_left s) e
|}.
#[export] Instance ostream_err : ErrStream ostream := {|
  get_err := o_errmsg;
  set_err e s := OStream (o_callback s) (o_state s) (max_size s) (bytes_written s) e
|}.

Definition PB_SET_ERROR {S} `{ErrStream S} (msg : string) (s : S) : S :=
  match get_err s with
  | Some _ => s
  | None => set_err (Some msg) s
  end.

Definition PB_RETURN_ERROR {S} `{ErrStream S} {A} (msg : string) : M S (option A) :=
  s <- get_stream ;; put_stream (PB_SET_ERROR msg s) ;; ret None.

Definition set_bytes_left (n : Z) (s : istream) : istream :=
  IStream (i_callback s) (i_state s) n (i_errmsg s).
Definition set_istate (a : Z) (s : istream) : istream :=
  IStream (i_callback s) a (bytes_left s) (i_errmsg s).
Definition set_bytes_written (n : Z) (s : ostream) : ostream :=
  OStream (o_callback s) (o_state s) (max_size s) n (o_errmsg s).
Definition set_ostate (a : Z) (s : ostream) : ostream :=
  OStream (o_callback s) a (max_size s) (bytes_written s) (o_errmsg s).

(** Where a read puts its bytes: nowhere (a null pointer), in memory, or in a
    local array of the caller, which is the list the read returns. *)
Inductive rdst := RNull | RMem (a : Z) | RLocal.
(** Where a write takes its bytes from. *)
Inductive wsrc := WNull | WMem (a : Z) | WLocal (bs : bytes).

(** [pb_extension_type_t] *)
Record extension_type := ExtType { et_decode : Z; et_encode : Z; et_arg : Z }.

(** The user's side.  Functions and constant tables are known by address. *)
Class PbEnv := {
  user_read : Z -> rdst -> Z -> M istream (option bytes);
  user_write : Z -> wsrc -> Z -> M ostream (option unit);
  (** [funcs.decode] and [funcs.encode] of a [pb_callback_t]: the function, the
      field and the address of [arg] *)
  cb_decode : Z -> pb_field -> Z -> M istream (option unit);
  cb_encode : Z -> pb_field -> Z -> M ostream (option unit);
  (** [decode] and [encode] of an extension type: the function, the extension *)
  ext_decode : Z -> Z -> Z -> Z -> M istream (option unit);
  ext_encode : Z -> Z -> M ostream (option unit);
  fields_at : Z -> option (list pb_field);
  ext_type_at : Z -> option extension_type
}.

Section streams.
Context `{PbEnv}.

(** ** Input (pb_decode.c) *)

Definition buf_read (buf : rdst) (count : Z) : M istream (option bytes) :=
  s <- get_stream ;;
  let source := i_state s in
  put_stream (set_istate (source + count) s) ;;
  match buf with
  | RNull => ret (Some [])
  | RLocal => bs <- load_bytes source count ;; ret (Some bs)
  | RMem a =>
      m <- get_mem ;; m' <- of_option (copy_loop m a source (Z.to_nat count)) ;;
      put_mem m' ;; ret (Some [])
  end.

Definition call_read (buf : rdst) (count : Z) : M istream (option bytes) :=
  s <- get_stream ;;
  match i_callback s with
  | IBuf => buf_read buf count
  | IUser f => user_read f buf count
  end.

(** [pb_read] past its tests for an empty read and for skipping. *)
Definition pb_read_some (buf : rdst) (count : Z) : M istream (option bytes) :=
  s <- get_stream ;;
  if bytes_left s <? count then PB_RETURN_ERROR "end-of-stream"
  else
    o <- call_read buf count ;;
    match o with
    | None => PB_RETURN_ERROR "io error"
    | Some bs =>
        s' <- get_stream ;;
        put_stream (set_bytes_left (u64 (bytes_left s' - count)) s') ;;
        ret (Some bs)
    end.

(** Skipping on a stream without [buf_read]: 16 bytes at a time into a local. *)
Fixpoint skip_loop (fuel : nat) (count : Z) : M istream (option bytes) :=
  match fuel with
  | O => out_of_fuel
  | S k =>
      if 16 <? count then
        must pb_read_some RLocal 16 ;; skip_loop k (count - 16)
      else pb_read_some RLocal count
  end.

(** The conversion of [count] to [size_t] is the one at the call. *)
Definition pb_read (buf : rdst) (count : Z) : M istream (option bytes) :=
  let count := u64 count in
  if count =? 0 then ret (Some [])
  else
    s <- get_stream ;;
    match buf, i_callback s with
    | RNull, IUser _ => skip_loop (S (Z.to_nat (count / 16))) count
    | _, _ => pb_read_some buf count
    end.

(** Reads into a local array: the bytes, which a callback may have left unset. *)
Definition pb_read_local (count : Z) : M istream (option bytes) :=
  bs <-? pb_read RLocal count ;;
  if (Z.of_nat (length bs) =? count) then ret (Some bs) else ub.

Definition pb_readbyte : M istream (option Z) :=
  s <- get_stream ;;
  if bytes_left s =? 0 then PB_RETURN_ERROR "end-of-stream"
  else
    o <- call_read RLocal 1 ;;
    match o with
    | None => PB_RETURN_ERROR "io error"
    | Some bs =>
        s' <- get_stream ;;
        put_stream (set_bytes_left (u64 (bytes_left s' - 1)) s') ;;
        match bs with
        | [b] => ret (Some b)
        | _ => ub
        end
    end.

Definition pb_istream_from_buffer (buf bufsize : Z) : istream :=
  IStream IBuf buf bufsize None.

(** ** Output (pb_encode.c) *)

(** The bytes of a source are stored one by one, each read just before. *)
Definition buf_write (buf : wsrc) (count : Z) : M ostream (option unit) :=
  s <- get_stream ;;
  let dest := o_state s in
  put_stream (set_ostate (dest + count) s) ;;
  match buf with
  | WNull => if 0 <? count then ub else return_true
  | WLocal bs =>
      if Z.of_nat (length bs) <? count then ub
      else store_bytes dest (take (Z.to_nat count) bs) ;; return_true
  | WMem a =>
      m <- get_mem ;; m' <- of_option (copy_loop m dest a (Z.to_nat count)) ;;
      put_mem m' ;; return_true
  end.

Definition pb_ostream_from_buffer (buf bufsize : Z) : ostream :=
  OStream OBuf buf bufsize 0 None.

(** PB_OSTREAM_SIZING *)
Definition PB_OSTREAM_SIZING : ostream := OStream ONull 0 0 0 None.

Definition pb_write (buf : wsrc) (count : Z) : M ostream (option unit) :=
  s <- get_stream ;;
  must
    (match o_callback s with
     | ONull => return_true
     | cb =>
         if 0 <? count then
           if (u64 (bytes_written s + count) <? bytes_written s) ||
              (max_size s <? u64 (bytes_written s + count))
           then PB_RETURN_ERROR "stream full"
           else
             o <- (match cb with
                   | OUser f => user_write f buf count
                   | _ => buf_write buf count
                   end) ;;
             match o with
             | None => PB_RETURN_ERROR "io error"
             | Some _ => return_true
             end
         else return_true
     end) ;;
  s' <- get_stream ;;
  put_stream (set_bytes_written (u64 (bytes_written s' + count)) s') ;;
  return_true.

(** ** Buffer streams

    What the functions do on the streams of [pb_istream_from_buffer] and
    [pb_ostream_from_buffer], as equations. *)

(** [n] bytes further on. *)
Definition iadv (n : Z) (s : istream) : istream :=
  IStream (i_callback s) (i_state s + n) (bytes_left s - n) (i_errmsg s).
Definition oadv (n : Z) (s : ostream) : ostream :=
  OStream (o_callback s) (o_state s + n) (max_size s) (bytes_written s + n) (o_errmsg s).

(** The stream is a buffer stream and its next bytes are [bs]. *)
Definition input (s : istream) (w : world) (bs : bytes) : Prop :=
  i_callback s = IBuf /\
  load (w_mem w) (i_state s) (length bs) = Some bs /\
  Z.of_nat (length bs) <= bytes_left s < 2 ^ 64.

(** The stream is a buffer stream with room for [n] more bytes. *)
Definition room (s : ostream) (n : Z) : Prop :=
  o_callback s = OBuf /\ 0 <= bytes_written s /\ bytes_written s + n <= max_size s /\
  max_size s < 2 ^ 64.

Lemma iadv_0 s : iadv 0 s = s.
Proof. destruct s; unfold iadv; cbn. f_equal; lia. Qed.
Lemma iadv_iadv a b s : iadv b (iadv a s) = iadv (a + b) s.
Proof. unfold iadv; cbn. f_equal; lia. Qed.
Lemma oadv_0 s : oadv 0 s = s.
Proof. destruct s; unfold oadv; cbn. f_equal; lia. Qed.
Lemma oadv_oadv a b s : oadv b (oadv a s) = oadv (a + b) s.
Proof. unfold oadv; cbn. f_equal; lia. Qed.

Lemma input_app s w bs cs :
  input s w (bs ++ cs) -> input s w bs /\ input (iadv (Z.of_nat (length bs)) s) w cs.
Proof.
  intros (Hcb & Hl & Hb). rewrite length_app in Hl, Hb. rewrite load_app in Hl.
  destruct (load (w_mem w) (i_state s) (length bs)) as [x|] eqn:E1; [|done].
  destruct (load (w_mem w) (i_state s + Z.of_nat (length bs)) (length cs)) as [y|] eqn:E2;
    [|done].
  injection Hl as Hl. apply app_inj_1 in Hl as [-> ->]; [|by eapply load_length].
  repeat split; cbn; try done; lia.
Qed.

Lemma input_nil s w : i_callback s = IBuf -> 0 <= bytes_left s < 2 ^ 64 -> input s w [].
Proof. intros H1 H2. repeat split; cbn; try done; lia. Qed.

(** A buffer stream reads what is in memory, and only moves. *)
Lemma pb_read_some_local s w bs :
  input s w bs ->
  pb_read_some RLocal (Z.of_nat (length bs)) s w =
    Ret (Some bs, iadv (Z.of_nat (length bs)) s, w).
Proof.
  intros (Hcb & Hl & Hb). unfold pb_read_some, bind, get_stream, put_stream, ret.
  rewrite (proj2 (Z.ltb_ge _ _)) by lia.
  unfold call_read, bind, get_stream. rewrite Hcb.
  unfold buf_read, bind, get_stream, put_stream. cbn -[u64].
  rewrite (load_bytes_run _ _ bs) by (by rewrite Nat2Z.id). unfold ret.
  do 2 f_equal. unfold iadv, set_bytes_left, set_istate, u64; cbn.
  rewrite wrap_small by lia. done.
Qed.

Lemma pb_read_u64 buf n s w :
  0 <= n < 2 ^ 64 ->
  pb_read buf n s w =
    (if n =? 0 then ret (Some [])
     else s <- get_stream ;;
          match buf, i_callback s with
          | RNull, IUser _ => skip_loop (S (Z.to_nat (n / 16))) n
          | _, _ => pb_read_some buf n
          end) s w.
Proof. intros. unfold pb_read, u64. by rewrite wrap_small by lia. Qed.

Lemma input_length s w bs : input s w bs -> 0 <= Z.of_nat (length bs) < 2 ^ 64.
Proof. intros (_ & _ & ?). lia. Qed.

Lemma pb_read_local_input s w bs :
  input s w bs ->
  pb_read_local (Z.of_nat (length bs)) s w =
    Ret (Some bs, iadv (Z.of_nat (length bs)) s, w).
Proof.
  intros Hin. unfold pb_read_local. erewrite bindo_some_run.
  2:{ rewrite pb_read_u64 by (by eapply input_length).
      instantiate (1 := w). instantiate (1 := iadv (Z.of_nat (length bs)) s).
      instantiate (1 := bs). destruct (Z.eqb_spec (Z.of_nat (length bs)) 0) as [E|E].
      - destruct bs; [|cbn in E; lia]. cbn. by rewrite iadv_0.
      - unfold bind, get_stream. by apply pb_read_some_local. }
  by rewrite Z.eqb_refl.
Qed.

Lemma pb_readbyte_input s w b r :
  input s w (b :: r) ->
  pb_readbyte s w = Ret (Some b, iadv 1 s, w) /\ input (iadv 1 s) w r.
Proof.
  intros Hin. split; [|by apply (input_app s w [b] r)].
  assert (input s w [b]) as (Hcb & Hl & Hb) by (by apply (input_app s w [b] r)).
  cbn [length] in *. unfold pb_readbyte, bind, get_stream, put_stream, ret.
  rewrite (proj2 (Z.eqb_neq _ _)) by lia.
  unfold call_read, bind, get_stream. rewrite Hcb.
  unfold buf_read, bind, get_stream, put_stream. cbn -[u64 load].
  rewrite (load_bytes_run _ _ [b]) by done. unfold ret.
  do 2 f_equal. unfold iadv, set_bytes_left, set_istate, u64; cbn.
  rewrite wrap_small by lia. done.
Qed.

(** Skipping. *)
Lemma pb_read_skip s w n :
  i_callback s = IBuf -> 0 <= n <= bytes_left s -> bytes_left s < 2 ^ 64 ->
  pb_read RNull n s w = Ret (Some [], iadv n s, w).
Proof.
  intros Hcb Hn Hb. rewrite pb_read_u64 by lia. destruct (Z.eqb_spec n 0) as [->|].
  { by rewrite iadv_0. }
  unfold bind at 1, get_stream. rewrite Hcb.
  unfold pb_read_some, bind, get_stream, put_stream, ret.
  rewrite (proj2 (Z.ltb_ge _ _)) by lia.
  unfold call_read, bind, get_stream. rewrite Hcb.
  unfold buf_read, bind, get_stream, put_stream, ret; cbn -[u64].
  do 2 f_equal. unfold iadv, set_bytes_left, set_istate, u64; cbn.
  rewrite wrap_small by lia. done.
Qed.

(** Reading into memory that does not overlap the input. *)
Lemma pb_read_mem s w a bs m' :
  input s w bs -> store (w_mem w) a bs = Some m' ->
  a + Z.of_nat (length bs) <= i_state s \/ i_state s + Z.of_nat (length bs) <= a ->
  pb_read (RMem a) (Z.of_nat (length bs)) s w =
    Ret (Some [], iadv (Z.of_nat (length bs)) s, set_mem m' w).
Proof.
  intros (Hcb & Hl & Hb) Hst Hd. rewrite pb_read_u64 by lia.
  destruct (Z.eqb_spec (Z.of_nat (length bs)) 0) as [E|E].
  { destruct bs; [|cbn in E; lia]. cbn in Hst. injection Hst as <-.
    cbn. rewrite iadv_0. by destruct w. }
  unfold bind at 1, get_stream. cbn beta iota.
  unfold pb_read_some, bind, get_stream, put_stream, ret.
  rewrite (proj2 (Z.ltb_ge _ _)) by lia.
  unfold call_read, bind, get_stream. rewrite Hcb.
  unfold buf_read, bind, get_stream, put_stream, get_mem, put_mem, of_option.
  rewrite Nat2Z.id, (copy_loop_disjoint _ _ _ _ bs) by done. rewrite Hst.
  unfold ret; cbn -[u64].
  do 2 f_equal. unfold iadv, set_bytes_left, set_istate, u64; cbn.
  rewrite wrap_small by lia. done.
Qed.

(** The end of the stream is an error, and nothing moves. *)
Lemma pb_read_short s w buf n :
  i_callback s = IBuf -> 0 < n < 2 ^ 64 -> bytes_left s < n ->
  pb_read buf n s w = Ret (None, PB_SET_ERROR "end-of-stream" s, w).
Proof.
  intros Hcb Hn Hb. rewrite pb_read_u64 by lia. rewrite (proj2 (Z.eqb_neq _ _)) by lia.
  assert (pb_read_some buf n s w = Ret (None, PB_SET_ERROR "end-of-stream" s, w)) as E.
  { unfold pb_read_some, bind, get_stream. by rewrite (proj2 (Z.ltb_lt _ _)) by lia. }
  unfold bind, get_stream. rewrite Hcb. by destruct buf.
Qed.

Lemma pb_write_buf s w bs m' :
  room s (Z.of_nat (length bs)) -> store (w_mem w) (o_state s) bs = Some m' ->
  pb_write (WLocal bs) (Z.of_nat (length bs)) s w =
    Ret (Some tt, oadv (Z.of_nat (length bs)) s, set_mem m' w).
Proof.
  intros (Hcb & H0 & Hr & Hm) Hst. unfold pb_write, bind at 1, get_stream. rewrite Hcb.
  assert (u64 (bytes_written s + Z.of_nat (length bs)) =
          bytes_written s + Z.of_nat (length bs)) as Hu.
  { unfold u64. apply wrap_small. lia. }
  destruct (Z.ltb_spec 0 (Z.of_nat (length bs))) as [Hl|Hl].
  - rewrite Hu. rewrite (proj2 (Z.ltb_ge _ _)) by lia.
    rewrite (proj2 (Z.ltb_ge _ _)) by lia. cbn [orb].
    erewrite bindo_some_run.
    2:{ erewrite bind_ret_run.
        2:{ unfold buf_write, bind, get_stream, put_stream.
            rewrite (proj2 (Z.ltb_ge _ _)) by lia. rewrite Nat2Z.id, firstn_all.
            rewrite (store_bytes_run _ _ m') by done. reflexivity. }
        reflexivity. }
    unfold bind, get_stream, put_stream, return_true, ret; cbn -[u64]. rewrite Hu. done.
  - destruct bs; [|cbn in Hl; lia]. cbn in Hst. injection Hst as <-.
    cbn in *. unfold bindo, bind, get_stream, put_stream, return_true, ret; cbn -[u64].
    rewrite Z.add_0_r in *. rewrite Hu. destruct s, w; unfold oadv, set_bytes_written; cbn.
    do 3 f_equal. f_equal; lia.
Qed.

(** A full stream refuses the write and nothing is stored. *)
Lemma pb_write_full s w buf n :
  o_callback s = OBuf -> 0 <= bytes_written s <= max_size s -> max_size s < 2 ^ 64 ->
  0 < n < 2 ^ 64 -> max_size s < bytes_written s + n ->
  pb_write buf n s w = Ret (None, PB_SET_ERROR "stream full" s, w).
Proof.
  intros Hcb H0 Hm Hn Hf. unfold pb_write, bind at 1, get_stream. rewrite Hcb.
  rewrite (proj2 (Z.ltb_lt 0 n)) by lia.
  assert (((u64 (bytes_written s + n) <? bytes_written s) ||
           (max_size s <? u64 (bytes_written s + n))) = true) as ->.
  { apply orb_true_iff. rewrite !Z.ltb_lt. wrap_lia. }
  by erewrite bindo_none_run.
Qed.

(** On the sizing stream a write only counts. *)
Lemma pb_write_sizing s w buf n :
  o_callback s = ONull ->
  pb_write buf n s w = Ret (Some tt, set_bytes_written (u64 (bytes_written s + n)) s, w).
Proof.
  intros Hcb. unfold pb_write, bind at 1, get_stream. by rewrite Hcb.
Qed.

End streams.
