(* ===== verification/PbConcrete.v ===== *)
(** * nanopb: a concrete environment

    What the theorems take as parameters, instantiated: an allocator that hands
    out the first address above everything in use, descriptor tables in the form
    the generator of Firestore's protos writes them, and no user callbacks but an
    output callback that reads what it is given.
    Witnesses evaluate the library here. *)
From Stdlib Require Import ZArith Lia.
From stdpp Require Import prelude strings gmap list numbers.
From S2P Require Import Prelude CMem PbCommon PbStream.
Local Open Scope Z_scope.

(** One above the highest key of [m], and [base] at least. *)
Definition key_top {A} (base : Z) (m : gmap Z A) : Z :=
  map_fold (fun a _ top => Z.max (a + 1) top) base m.

Lemma key_top_above {A} base (m : gmap Z A) a : a >= key_top base m -> m !! a = None.
Proof.
  unfold key_top. revert a.
  apply (map_fold_weak_ind (fun top (m : gmap Z A) => forall a, a >= top -> m !! a = None)).
  - intros a _. apply lookup_empty.
  - intros i x m' top Hi IH a Ha. rewrite lookup_insert_ne by lia. apply IH. lia.
Qed.

Lemma key_top_base {A} base (m : gmap Z A) : base <= key_top base m.
Proof.
  unfold key_top. apply (map_fold_weak_ind (fun top (m : gmap Z A) => base <= top)); [lia|].
  intros. lia.
Qed.

Definition bump_choose (w : world) (size : Z) : option Z :=
  let a := key_top (key_top 4096 (w_mem w)) (w_blocks w) in
  if a + size <=? 2 ^ 64 then Some a else None.

#[export] Program Instance bump_allocator : Allocator := {| choose := bump_choose |}.
Next Obligation.
  intros w size a. unfold bump_choose. set (t := key_top _ (w_blocks w)).
  destruct (Z.leb_spec (t + size) (2 ^ 64)); [|done]. intros [= <-].
  pose proof (key_top_base 4096 (w_mem w)).
  pose proof (key_top_base (key_top 4096 (w_mem w)) (w_blocks w)) as Ht. fold t in Ht.
  split; [lia|]. split; [lia|]. split.
  - intros i Hi. apply (key_top_above 4096). lia.
  - apply (key_top_above (key_top 4096 (w_mem w))). fold t. lia.
Qed.

(** ** Descriptor tables (PB_FIELD expanded for the offsets of the structures) *)

(** google.protobuf.Timestamp: int64 seconds at 0, int32 nanos at 8. *)
Definition Timestamp_fields : list pb_field :=
  [PbField 1 0x11 0 0 8 0 0; PbField 2 0x11 0 0 4 0 0; PB_LAST_FIELD].

(** A message with a required uint32, a has-flag and an optional Timestamp, and a
    repeated uint32 of at most four items with its count. *)
Definition Sample_fields : list pb_field :=
  [PbField 1 0x02 0 0 4 0 0;
   PbField 2 0x18 4 (-4) 16 0 100;
   PbField 5 0x22 4 (-4) 4 4 0;
   PB_LAST_FIELD].

(** A message without fields. *)
Definition Empty_fields : list pb_field := [PB_LAST_FIELD].

Definition sample_tables (a : Z) : option (list pb_field) :=
  if a =? 100 then Some Timestamp_fields
  else if a =? 200 then Some Sample_fields
  else if a =? 300 then Some Empty_fields
  else None.

(** A callback of an output stream that reads what it is given. *)
Definition scan (buf : wsrc) (count : Z) : M ostream (option unit) :=
  match buf with
  | WNull => if 0 <? count then ub else return_true
  | WLocal bs => if Z.of_nat (length bs) <? count then ub else return_true
  | WMem a => load_bytes a count ;; return_true
  end.

#[export] Instance sample_env : PbEnv := {|
  user_read _ _ _ := ub;
  user_write _ := scan;
  cb_decode _ _ _ := ub;
  cb_encode _ _ _ := ub;
  ext_decode _ _ _ _ := ub;
  ext_encode _ _ := ub;
  fields_at := sample_tables;
  ext_type_at _ := None
|}.

(** ** Worlds *)

(** Memory with the given bytes at [a] and [n] indeterminate ones at [b]. *)
Definition world_of (a : Z) (bs : bytes) (b : Z) (n : nat) : world :=
  World (alloc_range (alloc_range empty b (replicate n None)) a (map Some bs)) empty.

Lemma world_of_accessible a bs b n :
  accessible (w_mem (world_of a bs b n)) b (Z.of_nat n).
Proof.
  intros i Hi. unfold world_of. cbn. rewrite !alloc_range_lookup, length_replicate.
  case_decide as D1.
  - rewrite length_map in D1. apply lookup_lt_is_Some_2. rewrite length_map. lia.
  - rewrite decide_True by lia. apply lookup_lt_is_Some_2. rewrite length_replicate. lia.
Qed.

Lemma world_of_load a bs b n : load (w_mem (world_of a bs b n)) a (length bs) = Some bs.
Proof.
  apply lookup_load. intros i x Hi. unfold world_of. cbn.
  pose proof (lookup_lt_Some _ _ _ Hi) as Hl.
  rewrite alloc_range_lookup, decide_True by (rewrite length_map; lia).
  replace (Z.to_nat (a + Z.of_nat i - a)) with i by lia.
  apply list_lookup_fmap_Some. by exists x.
Qed.

Lemma world_of_ok a bs b n : bytes_ok bs -> mem_ok (w_mem (world_of a bs b n)).
Proof.
  intros Hb x c. unfold world_of. cbn. rewrite !alloc_range_lookup, length_replicate, lookup_empty.
  case_decide; [|case_decide; [|done]].
  - intros Hx. apply list_lookup_fmap_Some in Hx as (y & [= ->] & Hy).
    by eapply Forall_lookup_1 in Hb.
  - intros Hx. apply lookup_replicate in Hx as [Hx _]. done.
Qed.

(** What [world_of] holds without the indeterminate part. *)
Lemma world_of_part a bs b n x c :
  w_mem (world_of a bs b 0) !! x = Some c ->
  w_mem (world_of a bs b n) !! x = Some c /\ a <= x < a + Z.of_nat (length bs).
Proof.
  unfold world_of. cbn. rewrite !alloc_range_lookup, length_replicate, lookup_empty, length_map.
  destruct (decide (a <= x < _)); [done|]. destruct (decide (b <= x < b + Z.of_nat 0)); [lia|done].
Qed.
