(* ===== verification/PbScalar.v ===== *)
(** * nanopb: scalars on the wire

    Varints, zig-zag integers, fixed-width integers, tags and length-prefixed
    strings: the "helper functions" of pb_encode.c and pb_decode.c. *)
From Stdlib Require Import ZArith Lia.
From stdpp Require Import prelude strings gmap list numbers.
From S2P Require Import Prelude CMem PbCommon PbStream.
Local Open Scope Z_scope.
Local Open Scope c_scope.

Section scalar.
Context `{PbEnv}.

(** ** Encoding (pb_encode.c) *)

(** [while (value) { buffer[i] = ...; value >>= 7; i++; }] on [buffer[10]]:
    [buffer] is the part written so far, so its length is [i]. *)
Fixpoint varint_loop (fuel : nat) (value : Z) (buffer : bytes) : res bytes :=
  if value =? 0 then Ret buffer
  else
    match fuel with
    | O => OutOfFuel
    | S k =>
        if 10 <=? Z.of_nat (length buffer) then UB
        else varint_loop k (Z.shiftr value 7)
                         (buffer ++ [Z.lor (Z.land value 0x7F) 0x80])
    end.

Definition pb_encode_varint (value : Z) : M ostream (option unit) :=
  if value <=? 0x7F then pb_write (WLocal [u8 value]) 1
  else
    buffer <- of_res (varint_loop 11 value []) ;;
    let i := length buffer in
    let buffer := alter (fun b => Z.land b 0x7F) (i - 1)%nat buffer in
    pb_write (WLocal buffer) (Z.of_nat i).

(** [zigzag] is the value of [zigzagged]. *)
Definition zigzag (value : Z) : Z :=
  if value <? 0 then u64 (Z.lnot (u64 (Z.shiftl (u64 value) 1)))
  else u64 (Z.shiftl (u64 value) 1).

Definition pb_encode_svarint (value : Z) : M ostream (option unit) :=
  pb_encode_varint (zigzag value).

Definition pb_encode_fixed32 (value : Z) : M ostream (option unit) :=
  val <- load_u 4 value ;;
  pb_write (WLocal [u8 (Z.land val 0xFF);
                    u8 (Z.land (Z.shiftr val 8) 0xFF);
                    u8 (Z.land (Z.shiftr val 16) 0xFF);
                    u8 (Z.land (Z.shiftr val 24) 0xFF)]) 4.

Definition pb_encode_fixed64 (value : Z) : M ostream (option unit) :=
  val <- load_u 8 value ;;
  pb_write (WLocal [u8 (Z.land val 0xFF);
                    u8 (Z.land (Z.shiftr val 8) 0xFF);
                    u8 (Z.land (Z.shiftr val 16) 0xFF);
                    u8 (Z.land (Z.shiftr val 24) 0xFF);
                    u8 (Z.land (Z.shiftr val 32) 0xFF);
                    u8 (Z.land (Z.shiftr val 40) 0xFF);
                    u8 (Z.land (Z.shiftr val 48) 0xFF);
                    u8 (Z.land (Z.shiftr val 56) 0xFF)]) 8.

Definition pb_encode_tag (wiretype field_number : Z) : M ostream (option unit) :=
  let tag := Z.lor (u64 (Z.shiftl field_number 3)) wiretype in
  pb_encode_varint tag.

Definition pb_encode_tag_for_field (field : pb_field) : M ostream (option unit) :=
  let t := PB_LTYPE (type field) in
  if (t =? PB_LTYPE_BOOL) || (t =? PB_LTYPE_VARINT) ||
     (t =? PB_LTYPE_UVARINT) || (t =? PB_LTYPE_SVARINT)
  then pb_encode_tag PB_WT_VARINT (tag field)
  else if t =? PB_LTYPE_FIXED32 then pb_encode_tag PB_WT_32BIT (tag field)
  else if t =? PB_LTYPE_FIXED64 then pb_encode_tag PB_WT_64BIT (tag field)
  else if (t =? PB_LTYPE_BYTES) || (t =? PB_LTYPE_STRING) ||
          (t =? PB_LTYPE_SUBMESSAGE) || (t =? PB_LTYPE_FIXED_LENGTH_BYTES)
  then pb_encode_tag PB_WT_STRING (tag field)
  else PB_RETURN_ERROR "invalid field type".

Definition pb_encode_string (buffer : wsrc) (size : Z) : M ostream (option unit) :=
  must pb_encode_varint (u64 size) ;;
  pb_write buffer size.

(** ** Decoding (pb_decode.c) *)

(** The [do ... while (byte & 0x80)] loop of the multi-byte case: the result,
    [bitpos] and the last byte. *)
Fixpoint varint32_loop (fuel : nat) (bitpos result : Z) :
    M istream (option (Z * Z * Z)) :=
  match fuel with
  | O => out_of_fuel
  | S k =>
      byte <-? pb_readbyte ;;
      let next := fun result =>
        let bitpos := u8 (bitpos + 7) in
        if Z.land byte 0x80 =? 0 then ret (Some (result, bitpos, byte))
        else varint32_loop k bitpos result in
      if 32 <=? bitpos then
        let sign_extension := if bitpos <? 63 then 0xFF else 0x01 in
        if negb (Z.land byte 0x7F =? 0) &&
           ((Z.shiftr result 31 =? 0) || negb (byte =? sign_extension))
        then PB_RETURN_ERROR "varint overflow"
        else next result
      else next (Z.lor result (u32 (Z.shiftl (Z.land byte 0x7F) bitpos)))
  end.

(** The value, if the call returns true, and whether it set [*eof]. *)
Definition pb_decode_varint32_eof : M istream (option Z * bool) :=
  b <- pb_readbyte ;;
  match b with
  | None => s <- get_stream ;; ret (None, bytes_left s =? 0)
  | Some byte =>
      r <- (if Z.land byte 0x80 =? 0 then ret (Some (u32 byte))
            else
              s <- get_stream ;;
              x <-? varint32_loop (S (Z.to_nat (bytes_left s))) 7 (Z.land byte 0x7F) ;;
              let '(result, bitpos, byte) := x in
              if (bitpos =? 35) && negb (Z.land byte 0x70 =? 0)
              then PB_RETURN_ERROR "varint overflow"
              else ret (Some result)) ;;
      ret (r, false)
  end.

Definition pb_decode_varint32 : M istream (option Z) :=
  r <- pb_decode_varint32_eof ;; ret (fst r).

Fixpoint varint64_loop (fuel : nat) (bitpos result : Z) : M istream (option Z) :=
  match fuel with
  | O => out_of_fuel
  | S k =>
      if 64 <=? bitpos then PB_RETURN_ERROR "varint overflow"
      else
        byte <-? pb_readbyte ;;
        let result := Z.lor result (u64 (Z.shiftl (Z.land byte 0x7F) bitpos)) in
        if Z.land byte 0x80 =? 0 then ret (Some result)
        else varint64_loop k (u8 (bitpos + 7)) result
  end.

Definition pb_decode_varint : M istream (option Z) := varint64_loop 11 0 0.

Fixpoint skip_varint_loop (fuel : nat) : M istream (option unit) :=
  match fuel with
  | O => out_of_fuel
  | S k =>
      bs <-? pb_read_local 1 ;;
      match bs with
      | [byte] => if Z.land byte 0x80 =? 0 then return_true else skip_varint_loop k
      | _ => ub
      end
  end.

Definition pb_skip_varint : M istream (option unit) :=
  s <- get_stream ;; skip_varint_loop (S (Z.to_nat (bytes_left s))).

Definition pb_skip_string : M istream (option unit) :=
  length <-? pb_decode_varint32 ;;
  must pb_read RNull length ;; return_true.

Record tag_result := TagResult { t_ok : bool; t_wire_type : Z; t_tag : Z; t_eof : bool }.

Definition pb_decode_tag : M istream tag_result :=
  r <- pb_decode_varint32_eof ;;
  let '(o, eof) := r in
  match o with
  | None => ret (TagResult false 0 0 eof)
  | Some temp =>
      if temp =? 0 then ret (TagResult false 0 0 true)
      else ret (TagResult true (Z.land temp 7) (Z.shiftr temp 3) false)
  end.

Definition pb_skip_field (wire_type : Z) : M istream (option unit) :=
  if wire_type =? PB_WT_VARINT then pb_skip_varint
  else if wire_type =? PB_WT_64BIT then must pb_read RNull 8 ;; return_true
  else if wire_type =? PB_WT_STRING then pb_skip_string
  else if wire_type =? PB_WT_32BIT then must pb_read RNull 4 ;; return_true
  else PB_RETURN_ERROR "invalid wire_type".

(** The varint case: bytes are read until one without the high bit, at most
    [max_size] of them; [acc] holds those read so far. *)
Fixpoint raw_varint_loop (fuel : nat) (max_size : Z) (acc : bytes) :
    M istream (option bytes) :=
  match fuel with
  | O => out_of_fuel
  | S k =>
      if max_size <? Z.of_nat (length acc) + 1 then return_false
      else
        bs <-? pb_read_local 1 ;;
        match bs with
        | [byte] =>
            if Z.land byte 0x80 =? 0 then ret (Some (acc ++ [byte]))
            else raw_varint_loop k max_size (acc ++ [byte])
        | _ => ub
        end
  end.

(** The buffer is a local array of the caller; its first [*size] bytes. *)
Definition read_raw_value (wire_type max_size : Z) : M istream (option bytes) :=
  if wire_type =? PB_WT_VARINT then raw_varint_loop (S (Z.to_nat max_size)) max_size []
  else if wire_type =? PB_WT_64BIT then pb_read_local 8
  else if wire_type =? PB_WT_32BIT then pb_read_local 4
  else PB_RETURN_ERROR "invalid wire_type".

(** Decodes the length; the substream is a copy of the stream, cut to it. *)
Definition pb_make_string_substream : M istream (option istream) :=
  size <-? pb_decode_varint32 ;;
  s <- get_stream ;;
  if bytes_left s <? size then PB_RETURN_ERROR "parent stream too short"
  else
    put_stream (set_bytes_left (u64 (bytes_left s - size)) s) ;;
    ret (Some (set_bytes_left size s)).

Definition pb_close_string_substream (substream : istream) : M istream (option unit) :=
  r <- on_stream substream
         (if bytes_left substream =? 0 then ret (Some [])
          else pb_read RNull (bytes_left substream)) ;;
  let '(o, sub) := r in
  match o with
  | None => return_false
  | Some _ =>
      s <- get_stream ;;
      put_stream (set_err (i_errmsg sub) (set_istate (i_state sub) s)) ;;
      return_true
  end.

Definition pb_decode_svarint : M istream (option Z) :=
  value <-? pb_decode_varint ;;
  if negb (Z.land value 1 =? 0)
  then ret (Some (s64 (u64 (Z.lnot (Z.shiftr value 1)))))
  else ret (Some (s64 (Z.shiftr value 1))).

Definition pb_decode_fixed32 (dest : Z) : M istream (option unit) :=
  bs <-? pb_read_local 4 ;;
  match bs with
  | [b0; b1; b2; b3] =>
      store_u 4 dest
        (Z.lor (Z.lor (Z.lor (Z.shiftl b0 0) (u32 (Z.shiftl b1 8)))
           (u32 (Z.shiftl b2 16))) (u32 (Z.shiftl b3 24))) ;;
      return_true
  | _ => ub
  end.

Definition pb_decode_fixed64 (dest : Z) : M istream (option unit) :=
  bs <-? pb_read_local 8 ;;
  match bs with
  | [b0; b1; b2; b3; b4; b5; b6; b7] =>
      store_u 8 dest
        (Z.lor (Z.lor (Z.lor (Z.lor (Z.lor (Z.lor (Z.lor
           (Z.shiftl b0 0) (u64 (Z.shiftl b1 8))) (u64 (Z.shiftl b2 16)))
           (u64 (Z.shiftl b3 24))) (u64 (Z.shiftl b4 32))) (u64 (Z.shiftl b5 40)))
           (u64 (Z.shiftl b6 48))) (u64 (Z.shiftl b7 56))) ;;
      return_true
  | _ => ub
  end.

(** ** Base-128 varints, as a format *)

(** The shortest encoding of [v] in at most [n] bytes. *)
Fixpoint varint_bytes (n : nat) (v : Z) : bytes :=
  match n with
  | O => []
  | S k => if v <? 128 then [v] else (v mod 128 + 128) :: varint_bytes k (v / 128)
  end.
Definition varint (v : Z) : bytes := varint_bytes 10 v.

(** The number a varint stands for. *)
Fixpoint varint_val (bs : bytes) : Z :=
  match bs with
  | [] => 0
  | b :: r => b mod 128 + 128 * varint_val r
  end.

Lemma varint_bytes_length n v : (0 < n)%nat -> (0 < length (varint_bytes n v) <= n)%nat.
Proof.
  revert v; induction n as [|n IH]; intros v Hn; [lia|]. cbn [varint_bytes].
  destruct (v <? 128); cbn [length]; [lia|].
  destruct n as [|n]; [cbn; lia|]. specialize (IH (v / 128) ltac:(lia)). lia.
Qed.

Lemma varint_length v : (1 <= length (varint v) <= 10)%nat.
Proof. unfold varint. pose proof (varint_bytes_length 10 v). lia. Qed.

Lemma varint_bytes_ok n v : 0 <= v -> bytes_ok (varint_bytes n v).
Proof.
  revert v; induction n as [|n IH]; intros v Hv; cbn [varint_bytes]; [constructor|].
  destruct (Z.ltb_spec v 128); repeat constructor; unfold is_byte; try lia;
    try (Z.div_mod_to_equations; lia).
  apply IH. apply Z.div_pos; lia.
Qed.

Lemma varint_val_bytes n v : 0 <= v < 128 ^ Z.of_nat n -> varint_val (varint_bytes n v) = v.
Proof.
  revert v; induction n as [|n IH]; intros v Hv; cbn [varint_bytes].
  - cbn in *; lia.
  - destruct (Z.ltb_spec v 128); cbn [varint_val].
    + rewrite Z.mod_small by lia. lia.
    + rewrite IH.
      * rewrite <- Zplus_mod_idemp_r. change (128 mod 128) with 0.
        rewrite Z.add_0_r, Z.mod_mod by lia. Z.div_mod_to_equations; lia.
      * rewrite Nat2Z.inj_succ, Z.pow_succ_r in Hv by lia.
        split; [apply Z.div_pos; lia|]. apply Z.div_lt_upper_bound; lia.
Qed.

Lemma pow_128_10 : 2 ^ 64 < 128 ^ Z.of_nat 10.
Proof. vm_compute; done. Qed.

Lemma varint_loop_run n fuel v buffer :
  0 < v < 128 ^ Z.of_nat n -> (n <= fuel)%nat -> (length buffer + n <= 10)%nat ->
  exists cs, varint_loop fuel v buffer = Ret (buffer ++ cs) /\ (0 < length cs)%nat /\
    alter (fun b => Z.land b 0x7F) (length cs - 1)%nat cs = varint_bytes n v.
Proof.
  revert fuel v buffer; induction n as [|n IH]; intros fuel v buffer Hv Hf Hl.
  { cbn in Hv. lia. }
  destruct fuel as [|fuel]; [lia|]. cbn [varint_loop varint_bytes].
  rewrite (proj2 (Z.eqb_neq v 0)) by lia. rewrite (proj2 (Z.leb_gt _ _)) by lia.
  rewrite land_7F, lor_80 by (Z.div_mod_to_equations; lia).
  rewrite shiftr_div by lia. change (2 ^ 7) with 128.
  destruct (Z.ltb_spec v 128) as [Hs|Hs].
  - assert (v / 128 = 0) as -> by (apply Z.div_small; lia).
    exists [v mod 128 + 128]. rewrite Z.mod_small by lia.
    split; [by destruct fuel|]. split; [cbn; lia|]. cbn.
    f_equal. change 0x7F with 127. rewrite land_7F. Z.div_mod_to_equations; lia.
  - destruct (IH fuel (v / 128) (buffer ++ [v mod 128 + 128])) as (cs & E & Hc & Hcs).
    + rewrite Nat2Z.inj_succ, Z.pow_succ_r in Hv by lia.
      split; [apply Z.div_str_pos; lia|]. apply Z.div_lt_upper_bound; lia.
    + lia.
    + rewrite length_app; cbn; lia.
    + exists ((v mod 128 + 128) :: cs). rewrite E, <- app_assoc. split; [done|].
      split; [cbn; lia|]. rewrite <- Hcs.
      destruct cs as [|c cs]; [cbn in Hc; lia|].
      replace (length ((v mod 128 + 128)%Z :: c :: cs) - 1)%nat
        with (S (length (c :: cs) - 1)) by (cbn; lia). done.
Qed.

(** The encoder writes the shortest varint of its argument, in one write. *)
Lemma pb_encode_varint_write v s w :
  0 <= v < 2 ^ 64 ->
  pb_encode_varint v s w = pb_write (WLocal (varint v)) (Z.of_nat (length (varint v))) s w.
Proof.
  intros Hv. unfold pb_encode_varint, varint.
  destruct (Z.leb_spec v 0x7F) as [Hs|Hs].
  - cbn [varint_bytes]. rewrite (proj2 (Z.ltb_lt v 128)) by lia.
    unfold u8. rewrite wrap_small by lia. done.
  - pose proof pow_128_10.
    destruct (varint_loop_run 10 11 v []) as (cs & E & Hc & Hcs); [lia|lia|cbn; lia|].
    unfold bind, of_res. rewrite E. cbn [app]. rewrite Hcs.
    assert (length (varint_bytes 10 v) = length cs) as -> by (rewrite <- Hcs; apply length_alter).
    done.
Qed.

(** ** Decoding what a varint encodes *)

Lemma lor_septet w result x k :
  0 <= k <= w -> 0 <= result < 2 ^ k -> 0 <= x ->
  Z.lor result (wrap w (Z.shiftl x k)) = wrap w (result + x * 2 ^ k).
Proof.
  intros Hk Hr Hx. rewrite Z.shiftl_mul_pow2 by lia. unfold wrap.
  assert (0 < 2 ^ k) as Hp by (apply Z.pow_pos_nonneg; lia).
  assert (0 < 2 ^ (w - k)) as Hq by (apply Z.pow_pos_nonneg; lia).
  assert (2 ^ w = 2 ^ (w - k) * 2 ^ k) as Ew by (rewrite <- Z.pow_add_r; f_equal; lia).
  rewrite Ew, Z.mul_mod_distr_r by lia.
  rewrite <- Z.shiftl_mul_pow2 by lia. rewrite lor_shiftl_add by lia.
  pose proof (Z.mod_pos_bound x (2 ^ (w - k)) Hq).
  rewrite (Z.div_mod x (2 ^ (w - k))) at 2 by lia.
  apply Z.mod_unique with (q := x / 2 ^ (w - k)); [left|]; nia.
Qed.

Lemma land_80_small v : 0 <= v < 128 -> Z.land v 0x80 = 0.
Proof. intros. rewrite land_80 by (unfold is_byte; lia). by rewrite decide_True by lia. Qed.
Lemma land_80_high b : 128 <= b < 256 -> Z.land b 0x80 = 128.
Proof. intros. rewrite land_80 by (unfold is_byte; lia). by rewrite decide_False by lia. Qed.

(** A byte string with the shape of a varint: the last byte, and only the last
    byte, is below 128.  It need not be the shortest one. *)
Fixpoint is_varint (bs : bytes) : bool :=
  match bs with
  | [] => false
  | [b] => (0 <=? b) && (b <? 128)
  | b :: r => (128 <=? b) && (b <? 256) && is_varint r
  end.

Lemma is_varint_cons b c r :
  is_varint (b :: c :: r) = (128 <=? b) && (b <? 256) && is_varint (c :: r).
Proof. done. Qed.

Lemma varint_bytes_shape n v : 0 <= v < 128 ^ Z.of_nat n -> (0 < n)%nat ->
  is_varint (varint_bytes n v) = true.
Proof.
  revert v; induction n as [|n IH]; intros v Hv Hn; [lia|].
  cbn [varint_bytes]. destruct (Z.ltb_spec v 128).
  - cbn. rewrite (proj2 (Z.leb_le 0 v)), (proj2 (Z.ltb_lt v 128)) by lia. done.
  - rewrite Nat2Z.inj_succ, Z.pow_succ_r in Hv by lia.
    destruct n as [|n]; [change (128 ^ Z.of_nat 0) with 1 in Hv; lia|].
    assert (is_varint (varint_bytes (S n) (v / 128)) = true) as Hs.
    { apply IH; [|lia]. split; [apply Z.div_pos; lia|]. apply Z.div_lt_upper_bound; lia. }
    destruct (varint_bytes (S n) (v / 128)) as [|c r] eqn:E; [done|].
    rewrite is_varint_cons, Hs. pose proof (Z.mod_pos_bound v 128 ltac:(lia)).
    rewrite (proj2 (Z.leb_le _ _)), (proj2 (Z.ltb_lt _ _)) by lia. done.
Qed.

Lemma varint_shape v : 0 <= v < 2 ^ 64 -> is_varint (varint v) = true.
Proof. intros. pose proof pow_128_10. apply varint_bytes_shape; lia. Qed.

Lemma varint_val_varint v : 0 <= v < 2 ^ 64 -> varint_val (varint v) = v.
Proof. intros. pose proof pow_128_10. apply varint_val_bytes; lia. Qed.

Lemma pow_7_succ j : 2 ^ (7 * Z.of_nat (S j)) = 128 * 2 ^ (7 * Z.of_nat j).
Proof.
  replace (7 * Z.of_nat (S j)) with (7 + 7 * Z.of_nat j) by lia.
  by rewrite Z.pow_add_r by lia.
Qed.

Lemma u8_bitpos j : (j <= 30)%nat -> u8 (7 * Z.of_nat j + 7) = 7 * Z.of_nat (S j).
Proof. intros. unfold u8. rewrite wrap_small; lia. Qed.

Lemma varint64_loop_run bs fuel j result s w rest :
  is_varint bs = true -> (length bs <= fuel)%nat -> (j + length bs <= 10)%nat ->
  0 <= result < 2 ^ (7 * Z.of_nat j) -> input s w (bs ++ rest) ->
  varint64_loop fuel (7 * Z.of_nat j) result s w =
    Ret (Some (u64 (result + varint_val bs * 2 ^ (7 * Z.of_nat j))),
         iadv (Z.of_nat (length bs)) s, w).
Proof.
  revert fuel j result s; induction bs as [|b bs IH];
    intros fuel j result s Hv Hf Hj Hr Hin; [done|].
  destruct fuel as [|fuel]; [cbn in Hf; lia|]. cbn [varint64_loop].
  cbn [length] in Hf, Hj. rewrite (proj2 (Z.leb_gt _ _)) by lia.
  cbn [app] in Hin. destruct (pb_readbyte_input s w b _ Hin) as [E Hin'].
  erewrite bindo_some_run by done.
  change 0x7F with 127. rewrite land_7F.
  pose proof (Z.mod_pos_bound b 128 ltac:(lia)) as Hm.
  unfold u64. rewrite (lor_septet 64) by lia.
  destruct bs as [|c bs].
  - cbn in Hv. apply andb_true_iff in Hv as [H0 H1].
    rewrite land_80_small by lia. cbn [varint_val].
    rewrite Z.mul_0_r, Z.add_0_r. done.
  - rewrite is_varint_cons in Hv. rewrite !andb_true_iff in Hv.
    destruct Hv as ((H0 & H1) & Hv). apply Z.leb_le in H0. apply Z.ltb_lt in H1.
    rewrite land_80_high by lia. cbn [Z.eqb].
    rewrite u8_bitpos by (cbn in Hj; lia).
    assert (2 ^ (7 * Z.of_nat (S j)) <= 2 ^ 63) as H63
      by (apply Z.pow_le_mono_r; cbn in Hj; lia).
    pose proof (pow_7_succ j) as Ep.
    assert (0 < 2 ^ (7 * Z.of_nat j)) as Hp by (apply Z.pow_pos_nonneg; lia).
    rewrite wrap_small by (change (2 ^ 64) with (2 * 2 ^ 63); nia).
    rewrite (IH fuel (S j) _ (iadv 1 s) Hv); try done; try (cbn in *; lia); [|nia].
    rewrite iadv_iadv, Ep. do 3 f_equal.
    + do 2 f_equal. cbn [varint_val]. nia.
    + f_equal. cbn [length]. lia.
Qed.

(** Any varint of at most ten bytes is read as the number it stands for,
    modulo 2^64. *)
Lemma pb_decode_varint_any bs s w rest :
  is_varint bs = true -> (length bs <= 10)%nat -> input s w (bs ++ rest) ->
  pb_decode_varint s w = Ret (Some (u64 (varint_val bs)), iadv (Z.of_nat (length bs)) s, w).
Proof.
  intros Hv Hl Hin. unfold pb_decode_varint.
  pose proof (varint64_loop_run bs 11 0 0 s w rest Hv) as E.
  change (7 * Z.of_nat 0) with 0 in E. change (2 ^ 0) with 1 in E.
  rewrite E by (try done; lia). by rewrite Z.mul_1_r.
Qed.

(** What the encoder writes, the decoder reads. *)
Lemma pb_decode_varint_input v s w rest :
  0 <= v < 2 ^ 64 -> input s w (varint v ++ rest) ->
  pb_decode_varint s w = Ret (Some v, iadv (Z.of_nat (length (varint v))) s, w).
Proof.
  intros Hv Hin. rewrite (pb_decode_varint_any (varint v) s w rest); try done.
  - rewrite varint_val_varint by lia. unfold u64. by rewrite wrap_small by lia.
  - by apply varint_shape.
  - pose proof (varint_length v). lia.
Qed.

(** ** 32-bit varints

    [pb_decode_varint32] reads the same format into 32 bits.  The steps of its
    loop below and above bit 32: *)

Lemma varint32_step_low b r fuel j result s w :
  (1 <= j <= 4)%nat -> is_byte b -> 0 <= result < 2 ^ (7 * Z.of_nat j) ->
  input s w (b :: r) ->
  varint32_loop (S fuel) (7 * Z.of_nat j) result s w =
    let result' := u32 (result + b mod 128 * 2 ^ (7 * Z.of_nat j)) in
    if b <? 128 then Ret (Some (result', 7 * Z.of_nat (S j), b), iadv 1 s, w)
    else varint32_loop fuel (7 * Z.of_nat (S j)) result' (iadv 1 s) w.
Proof.
  intros Hj Hb Hr Hin. unfold is_byte in Hb. cbn [varint32_loop].
  destruct (pb_readbyte_input s w b r Hin) as [E _].
  erewrite bindo_some_run by done.
  rewrite (proj2 (Z.leb_gt _ _)) by lia. rewrite u8_bitpos by lia.
  change 0x7F with 127. rewrite land_7F.
  pose proof (Z.mod_pos_bound b 128 ltac:(lia)) as Hm.
  unfold u32. rewrite (lor_septet 32) by lia.
  destruct (Z.ltb_spec b 128).
  - by rewrite land_80_small by lia.
  - by rewrite land_80_high by lia.
Qed.

Lemma varint32_step_high b r fuel j result s w :
  (5 <= j <= 9)%nat -> is_byte b -> input s w (b :: r) ->
  varint32_loop (S fuel) (7 * Z.of_nat j) result s w =
    if negb (b mod 128 =? 0) &&
       ((Z.shiftr result 31 =? 0) || negb (b =? (if (j <=? 8)%nat then 255 else 1)))
    then Ret (None, PB_SET_ERROR "varint overflow" (iadv 1 s), w)
    else if b <? 128 then Ret (Some (result, 7 * Z.of_nat (S j), b), iadv 1 s, w)
    else varint32_loop fuel (7 * Z.of_nat (S j)) result (iadv 1 s) w.
Proof.
  intros Hj Hb Hin. unfold is_byte in Hb. cbn [varint32_loop].
  destruct (pb_readbyte_input s w b r Hin) as [E _].
  erewrite bindo_some_run by done.
  rewrite (proj2 (Z.leb_le 32 _)) by lia. rewrite u8_bitpos by lia.
  change 0x7F with 127. rewrite land_7F.
  assert ((if 7 * Z.of_nat j <? 63 then 255 else 1) = (if (j <=? 8)%nat then 255 else 1))
    as ->.
  { destruct (Z.ltb_spec (7 * Z.of_nat j) 63), (Nat.leb_spec j 8); lia. }
  destruct (negb (b mod 128 =? 0) && _) eqn:Eo.
  - done.
  - destruct (Z.ltb_spec b 128).
    + by rewrite land_80_small by lia.
    + by rewrite land_80_high by lia.
Qed.

(** Leading bytes, all with the high bit, below bit 35. *)
Definition is_cont (bs : bytes) : Prop := Forall (fun b => 128 <= b < 256) bs.

Lemma varint_val_bound bs : 0 <= varint_val bs < 2 ^ (7 * Z.of_nat (length bs)).
Proof.
  induction bs as [|b bs IH]; cbn [varint_val length]; [lia|].
  rewrite pow_7_succ. pose proof (Z.mod_pos_bound b 128 ltac:(lia)). lia.
Qed.

Lemma pow_7_add i j : 2 ^ (7 * Z.of_nat (i + j)) = 2 ^ (7 * Z.of_nat i) * 2 ^ (7 * Z.of_nat j).
Proof. rewrite <- Z.pow_add_r by lia. f_equal. lia. Qed.

Lemma pow_7_pos j : 0 < 2 ^ (7 * Z.of_nat j).
Proof. apply Z.pow_pos_nonneg; lia. Qed.

Lemma varint32_run_cont bs fuel j result s w rest :
  is_cont bs -> (1 <= j)%nat -> (j + length bs <= 4)%nat ->
  0 <= result < 2 ^ (7 * Z.of_nat j) -> input s w (bs ++ rest) ->
  varint32_loop (length bs + fuel) (7 * Z.of_nat j) result s w =
    varint32_loop fuel (7 * Z.of_nat (j + length bs))
      (result + varint_val bs * 2 ^ (7 * Z.of_nat j)) (iadv (Z.of_nat (length bs)) s) w.
Proof.
  intros Hc. revert j result s; induction Hc as [|b bs Hb Hc IH];
    intros j result s Hj1 Hj Hr Hin.
  - cbn. rewrite Nat.add_0_r, Z.add_0_r, iadv_0. done.
  - cbn [length Nat.add app] in *.
    rewrite (varint32_step_low b (bs ++ rest)) by (unfold is_byte; try lia; done).
    cbv zeta. rewrite (proj2 (Z.ltb_ge b 128)) by lia.
    pose proof (Z.mod_pos_bound b 128 ltac:(lia)) as Hm.
    pose proof (pow_7_succ j) as Ep. pose proof (pow_7_pos j) as Hp.
    assert (2 ^ (7 * Z.of_nat (S j)) <= 2 ^ 28) by (apply Z.pow_le_mono_r; lia).
    unfold u32. rewrite wrap_small by (change (2 ^ 32) with (16 * 2 ^ 28); nia).
    rewrite IH; [|lia|lia|nia|by apply (pb_readbyte_input s w _ _ Hin)].
    rewrite iadv_iadv. f_equal; [f_equal; lia| |f_equal; lia].
    rewrite Ep. cbn [varint_val]. nia.
Qed.

Lemma varint_bytes_split k n v :
  128 ^ Z.of_nat k <= v ->
  exists cs, length cs = k /\ is_cont cs /\ varint_val cs = v mod 128 ^ Z.of_nat k /\
             varint_bytes (k + n) v = cs ++ varint_bytes n (v / 128 ^ Z.of_nat k).
Proof.
  revert v; induction k as [|k IH]; intros v Hv.
  - exists []. cbn. rewrite Z.mod_1_r, Z.div_1_r. repeat split; constructor.
  - rewrite Nat2Z.inj_succ, Z.pow_succ_r in Hv by lia.
    assert (0 < 128 ^ Z.of_nat k) as Hp by (apply Z.pow_pos_nonneg; lia).
    destruct (IH (v / 128)) as (cs & Hl & Hc & Hval & E).
    { apply Z.div_le_lower_bound; lia. }
    exists ((v mod 128 + 128) :: cs). pose proof (Z.mod_pos_bound v 128 ltac:(lia)).
    cbn [length Nat.add varint_bytes varint_val app].
    rewrite (proj2 (Z.ltb_ge v 128)) by nia. rewrite E, Hl.
    rewrite Nat2Z.inj_succ, Z.pow_succ_r by lia.
    split; [done|]. split; [constructor; [lia|done]|]. split.
    + rewrite Hval. rewrite <- (Zplus_mod_idemp_r 128), Z.mod_same, Z.add_0_r, Z.mod_mod by lia.
      by rewrite Z.rem_mul_r by lia.
    + by rewrite Z.div_div by lia.
Qed.

(** Above bit 35 the number does not fit, or it is a sign extension. *)
Lemma varint32_high_error n u fuel j result s w rest :
  (j + n = 10)%nat -> (5 <= j)%nat -> 1 <= u < 2 ^ (63 - 7 * Z.of_nat j) ->
  (length (varint_bytes n u) <= fuel)%nat -> input s w (varint_bytes n u ++ rest) ->
  exists k, varint32_loop fuel (7 * Z.of_nat j) result s w =
            Ret (None, PB_SET_ERROR "varint overflow" (iadv k s), w).
Proof.
  revert u fuel j s; induction n as [|n IH]; intros u fuel j s Hjn Hj Hu Hf Hin.
  { replace (63 - 7 * Z.of_nat j) with (-7) in Hu by lia. cbn in Hu. lia. }
  pose proof (varint_bytes_length (S n) u).
  destruct fuel as [|fuel]; [lia|]. cbn [varint_bytes] in Hin, Hf.
  destruct (decide (j = 9%nat)) as [->|Hj9]; [cbn in Hu; lia|].
  destruct (Z.ltb_spec u 128) as [Hs|Hs].
  - rewrite (varint32_step_high u rest) by (unfold is_byte; try lia; done).
    rewrite Z.mod_small by lia. rewrite (proj2 (Z.eqb_neq u 0)) by lia.
    rewrite (proj2 (Nat.leb_le j 8)) by lia. rewrite (proj2 (Z.eqb_neq u 255)) by lia.
    rewrite orb_true_r. cbn. eauto.
  - pose proof (Z.mod_pos_bound u 128 ltac:(lia)).
    cbn [app] in Hin. rewrite (varint32_step_high (u mod 128 + 128) (varint_bytes n (u / 128) ++ rest))
      by (unfold is_byte; try lia; done).
    destruct (negb _ && _); [eauto|]. rewrite (proj2 (Z.ltb_ge _ _)) by lia.
    destruct (IH (u / 128) fuel (S j) (iadv 1 s)) as [k E]; try (cbn in Hf; lia).
    + replace (63 - 7 * Z.of_nat j) with (7 + (63 - 7 * Z.of_nat (S j))) in Hu by lia.
      rewrite Z.pow_add_r in Hu by lia. change (2 ^ 7) with 128 in Hu.
      split; [apply Z.div_le_lower_bound; lia|]. apply Z.div_lt_upper_bound; lia.
    + by apply (pb_readbyte_input s w _ _ Hin).
    + exists (1 + k). by rewrite E, iadv_iadv.
Qed.

Lemma varint32_high_sign n fuel j result s w rest :
  (j + n = 10)%nat -> (5 <= j <= 9)%nat -> 2 ^ 31 <= result < 2 ^ 32 -> (n <= fuel)%nat ->
  input s w (varint_bytes n (2 ^ (64 - 7 * Z.of_nat j) - 1) ++ rest) ->
  varint32_loop fuel (7 * Z.of_nat j) result s w =
    Ret (Some (result, 70, 1), iadv (Z.of_nat n) s, w).
Proof.
  revert fuel j s; induction n as [|n IH]; intros fuel j s Hjn Hj Hr Hf Hin; [lia|].
  destruct fuel as [|fuel]; [lia|]. cbn [varint_bytes] in Hin.
  assert (Z.shiftr result 31 = 1) as Hsh.
  { rewrite shiftr_div by lia. symmetry. apply Z.div_unique with (r := result - 2 ^ 31);
      [left|]; lia. }
  destruct (decide (j = 9%nat)) as [->|Hj9].
  - destruct n; [|lia].
    rewrite (varint32_step_high 1 rest) by (unfold is_byte; try lia; done).
    by rewrite Hsh.
  - set (u := 2 ^ (64 - 7 * Z.of_nat j) - 1) in *.
    assert (u = 128 * (2 ^ (64 - 7 * Z.of_nat (S j)) - 1) + 127) as Eu.
    { unfold u. replace (64 - 7 * Z.of_nat j) with (7 + (64 - 7 * Z.of_nat (S j))) by lia.
      rewrite Z.pow_add_r by lia. lia. }
    assert (2 <= 2 ^ (64 - 7 * Z.of_nat (S j))).
    { transitivity (2 ^ 1); [lia|]. apply Z.pow_le_mono_r; lia. }
    rewrite (proj2 (Z.ltb_ge u 128)) in Hin by lia.
    assert (u mod 128 = 127) as Em by (rewrite Eu; Z.div_mod_to_equations; lia).
    assert (u / 128 = 2 ^ (64 - 7 * Z.of_nat (S j)) - 1) as Ed
      by (rewrite Eu; Z.div_mod_to_equations; lia).
    rewrite Em, Ed in Hin. change (127 + 128) with 255 in Hin. cbn [app] in Hin.
    erewrite (varint32_step_high 255) by (unfold is_byte; try lia; done).
    rewrite Hsh, (proj2 (Nat.leb_le j 8)) by lia.
    change (negb (255 mod 128 =? 0) && ((1 =? 0) || negb (255 =? 255))) with false.
    change (255 <? 128) with false. cbv iota.
    rewrite (IH fuel (S j) (iadv 1 s)); try done; try lia.
    + rewrite iadv_iadv. do 2 f_equal; f_equal; f_equal; lia.
    + by apply (pb_readbyte_input s w _ _ Hin).
Qed.

(** Numbers that fit. *)
Lemma varint32_low_fits n u fuel j result s w rest :
  (j + n = 10)%nat -> (1 <= j <= 4)%nat -> 0 <= u < 2 ^ (32 - 7 * Z.of_nat j) ->
  0 <= result < 2 ^ (7 * Z.of_nat j) -> (length (varint_bytes n u) <= fuel)%nat ->
  input s w (varint_bytes n u ++ rest) ->
  exists bp b,
    varint32_loop fuel (7 * Z.of_nat j) result s w =
      Ret (Some (result + u * 2 ^ (7 * Z.of_nat j), bp, b),
           iadv (Z.of_nat (length (varint_bytes n u))) s, w) /\
    (bp = 35 -> 0 <= b < 16).
Proof.
  revert u fuel j result s; induction n as [|n IH]; intros u fuel j result s Hjn Hj Hu Hr Hf Hin;
    [lia|].
  pose proof (varint_bytes_length (S n) u). destruct fuel as [|fuel]; [lia|].
  cbn [varint_bytes] in Hin, Hf |- *.
  pose proof (pow_7_succ j) as Ep. pose proof (pow_7_pos j) as Hp.
  assert (2 ^ 32 = 2 ^ (32 - 7 * Z.of_nat j) * 2 ^ (7 * Z.of_nat j)) as E32
    by (rewrite <- Z.pow_add_r by lia; f_equal; lia).
  destruct (Z.ltb_spec u 128) as [Hs|Hs].
  - rewrite (varint32_step_low u rest) by (unfold is_byte; try lia; done). cbv zeta.
    rewrite (proj2 (Z.ltb_lt u 128)), Z.mod_small by lia.
    unfold u32. rewrite wrap_small by nia. do 2 eexists; split; [done|].
    intros Hbp. assert (j = 4%nat) as -> by lia. cbn in Hu. lia.
  - pose proof (Z.mod_pos_bound u 128 ltac:(lia)) as Hm.
    destruct (decide (j = 4%nat)) as [->|Hj4]; [cbn in Hu; lia|].
    cbn [app] in Hin. rewrite (varint32_step_low (u mod 128 + 128)
      (varint_bytes n (u / 128) ++ rest)) by (unfold is_byte; try lia; done). cbv zeta.
    rewrite (proj2 (Z.ltb_ge _ _)) by lia.
    assert ((u mod 128 + 128) mod 128 = u mod 128) as ->
      by (rewrite <- Zplus_mod_idemp_r, Z.add_0_r; apply Z.mod_mod; lia).
    pose proof (Z.div_mod u 128 ltac:(lia)) as Hdm.
    assert (0 <= u / 128) by (apply Z.div_pos; lia).
    unfold u32. rewrite wrap_small by nia.
    destruct (IH (u / 128) fuel (S j) (result + u mod 128 * 2 ^ (7 * Z.of_nat j)) (iadv 1 s))
      as (bp & b & E & Hb); try (cbn in Hf; lia); [| nia | by apply (pb_readbyte_input s w _ _ Hin) |].
    + replace (32 - 7 * Z.of_nat j) with (7 + (32 - 7 * Z.of_nat (S j))) in Hu by lia.
      rewrite Z.pow_add_r in Hu by lia. change (2 ^ 7) with 128 in Hu.
      split; [lia|]. apply Z.div_lt_upper_bound; lia.
    + exists bp, b. rewrite E, iadv_iadv, Ep. split; [|done].
      replace (result + u mod 128 * 2 ^ (7 * Z.of_nat j) +
               u / 128 * (128 * 2 ^ (7 * Z.of_nat j)))
        with (result + u * 2 ^ (7 * Z.of_nat j)) by nia.
      do 2 f_equal; f_equal; f_equal. cbn [length]. lia.
Qed.

(** Numbers that do not: the loop fails, or stops at bit 35 with bits to spare. *)
Lemma varint32_low_over n u fuel j result s w rest :
  (j + n = 10)%nat -> (1 <= j <= 4)%nat ->
  2 ^ (32 - 7 * Z.of_nat j) <= u < 2 ^ (63 - 7 * Z.of_nat j) ->
  0 <= result < 2 ^ (7 * Z.of_nat j) -> (length (varint_bytes n u) <= fuel)%nat ->
  input s w (varint_bytes n u ++ rest) ->
  exists k,
    varint32_loop fuel (7 * Z.of_nat j) result s w =
      Ret (None, PB_SET_ERROR "varint overflow" (iadv k s), w) \/
    exists r b, varint32_loop fuel (7 * Z.of_nat j) result s w =
                  Ret (Some (r, 35, b), iadv k s, w) /\ 16 <= b < 128.
Proof.
  revert u fuel j result s; induction n as [|n IH]; intros u fuel j result s Hjn Hj Hu Hr Hf Hin;
    [lia|].
  pose proof (varint_bytes_length (S n) u). destruct fuel as [|fuel]; [lia|].
  cbn [varint_bytes] in Hin, Hf |- *.
  pose proof (pow_7_succ j) as Ep. pose proof (pow_7_pos j) as Hp.
  destruct (Z.ltb_spec u 128) as [Hs|Hs].
  - destruct (decide (j = 4%nat)) as [->|Hj4].
    + rewrite (varint32_step_low u rest) by (unfold is_byte; cbn in Hu; try lia; done). cbv zeta.
      rewrite (proj2 (Z.ltb_lt u 128)) by lia. cbn in Hu. eexists. right. do 2 eexists.
      split; [done|lia].
    + assert (2 ^ 11 <= 2 ^ (32 - 7 * Z.of_nat j)) by (apply Z.pow_le_mono_r; lia). lia.
  - pose proof (Z.mod_pos_bound u 128 ltac:(lia)) as Hm.
    cbn [app] in Hin. rewrite (varint32_step_low (u mod 128 + 128)
      (varint_bytes n (u / 128) ++ rest)) by (unfold is_byte; try lia; done). cbv zeta.
    rewrite (proj2 (Z.ltb_ge _ _)) by lia.
    assert ((u mod 128 + 128) mod 128 = u mod 128) as ->
      by (rewrite <- Zplus_mod_idemp_r, Z.add_0_r; apply Z.mod_mod; lia).
    assert (input (iadv 1 s) w (varint_bytes n (u / 128) ++ rest)) as Hin'
      by (by apply (pb_readbyte_input s w _ _ Hin)).
    assert (1 <= u / 128) by (apply Z.div_le_lower_bound; lia).
    assert (u / 128 < 2 ^ (63 - 7 * Z.of_nat (S j))).
    { replace (63 - 7 * Z.of_nat j) with (7 + (63 - 7 * Z.of_nat (S j))) in Hu by lia.
      rewrite Z.pow_add_r in Hu by lia. apply Z.div_lt_upper_bound; lia. }
    destruct (decide (j = 4%nat)) as [->|Hj4].
    + edestruct (varint32_high_error n (u / 128) fuel 5) as [k E]; try done; try lia;
        [cbn in Hf; lia|].
      rewrite E, iadv_iadv. eauto.
    + assert (2 ^ 28 * 16 = 2 ^ 32) as E32 by done.
      assert (2 ^ (7 * Z.of_nat (S j)) <= 2 ^ 28) by (apply Z.pow_le_mono_r; lia).
      unfold u32. rewrite wrap_small by nia.
      edestruct (IH (u / 128) fuel (S j) (result + u mod 128 * 2 ^ (7 * Z.of_nat j)) (iadv 1 s))
        as (k & [E|(r & b & E & Hb)]); try (cbn in Hf; lia); try done; [|nia| |].
      * split; [|done]. replace (32 - 7 * Z.of_nat j) with (7 + (32 - 7 * Z.of_nat (S j))) in Hu by lia.
        rewrite Z.pow_add_r in Hu by lia. apply Z.div_le_lower_bound; lia.
      * rewrite E, iadv_iadv. eauto.
      * rewrite E, iadv_iadv. eexists. right. eauto.
Qed.

(** The first byte of a longer varint, and the loop after it. *)
Lemma varint32_eof_multi v s w rest o s' w' :
  128 <= v -> input s w (varint v ++ rest) ->
  (x <-? varint32_loop (S (Z.to_nat (bytes_left s - 1))) 7 (v mod 128) ;;
   let '(result, bitpos, byte) := x in
   if (bitpos =? 35) && negb (Z.land byte 0x70 =? 0)
   then PB_RETURN_ERROR "varint overflow"
   else ret (Some result))%c (iadv 1 s) w = Ret (o, s', w') ->
  pb_decode_varint32_eof s w = Ret ((o, false), s', w').
Proof.
  intros Hv Hin E. unfold varint in Hin. cbn [varint_bytes] in Hin.
  rewrite (proj2 (Z.ltb_ge v 128)) in Hin by lia. cbn [app] in Hin.
  pose proof (Z.mod_pos_bound v 128 ltac:(lia)) as Hm.
  unfold pb_decode_varint32_eof. erewrite bind_ret_run.
  2:{ by apply (pb_readbyte_input s w _ _ Hin). }
  cbv beta iota. change 0x80 with 128. rewrite (land_80_high (v mod 128 + 128)) by lia. cbn [Z.eqb].
  erewrite bind_ret_run; [reflexivity|]. unfold bind at 1, get_stream.
  change 0x7F with 127. rewrite land_7F.
  assert ((v mod 128 + 128) mod 128 = v mod 128) as ->
    by (rewrite <- Zplus_mod_idemp_r, Z.add_0_r; apply Z.mod_mod; lia).
  exact E.
Qed.

Lemma varint32_of_eof s w o s' w' :
  pb_decode_varint32_eof s w = Ret ((o, false), s', w') ->
  pb_decode_varint32 s w = Ret (o, s', w').
Proof. intros E. unfold pb_decode_varint32. by erewrite bind_ret_run by exact E. Qed.

Lemma varint_tail v :
  128 <= v -> varint v = (v mod 128 + 128) :: varint_bytes 9 (v / 128).
Proof.
  intros. unfold varint. cbn [varint_bytes]. by rewrite (proj2 (Z.ltb_ge v 128)) by lia.
Qed.

Lemma land_70_small b : 0 <= b < 16 -> Z.land b 0x70 = 0.
Proof.
  intros. change 0x70 with (Z.shiftl 7 4). apply Z.bits_inj'; intros i Hi.
  rewrite Z.land_spec, Z.bits_0, Z.shiftl_spec by lia. destruct (decide (i < 4)).
  - rewrite (Z.testbit_neg_r 7) by lia. apply andb_false_r.
  - rewrite <- (Z.mod_small b (2 ^ 4)) by lia. by rewrite Z.mod_pow2_bits_high by lia.
Qed.

Lemma land_70_big b : 16 <= b < 128 -> Z.land b 0x70 <> 0.
Proof.
  intros Hb E. assert (b = Z.land b 15) as Eb.
  { rewrite <- (Z.mod_small b 128) at 1 by lia. rewrite <- land_7F.
    change 127 with (Z.lor 0x70 15). by rewrite Z.land_lor_distr_r, E. }
  pose proof (land_mask b 4 ltac:(lia)) as E4. change (2 ^ 4 - 1) with 15 in E4.
  pose proof (Z.mod_pos_bound b 16 ltac:(lia)). change (2 ^ 4) with 16 in E4. lia.
Qed.

(** A number below 2^32 is read back. *)
Lemma pb_decode_varint32_eof_fits v s w rest :
  0 <= v < 2 ^ 32 -> input s w (varint v ++ rest) ->
  pb_decode_varint32_eof s w =
    Ret ((Some v, false), iadv (Z.of_nat (length (varint v))) s, w).
Proof.
  intros Hv Hin. destruct (decide (v < 128)) as [Hs|Hs].
  - unfold varint in *. cbn [varint_bytes] in *.
    rewrite (proj2 (Z.ltb_lt v 128)) in * by lia. unfold pb_decode_varint32_eof.
    erewrite bind_ret_run.
    2:{ by apply (pb_readbyte_input s w _ _ Hin). }
    cbv beta iota. change 0x80 with 128. rewrite land_80_small by lia.
    unfold u32. by rewrite wrap_small by lia.
  - apply varint32_eof_multi with (v := v) (rest := rest); [lia|done|].
    pose proof Hin as Hin0. rewrite varint_tail in Hin |- * by lia. cbn [app] in Hin.
    destruct (pb_readbyte_input s w _ _ Hin) as [_ Hin'].
    destruct (varint32_low_fits 9 (v / 128) (S (Z.to_nat (bytes_left s - 1))) 1 (v mod 128)
      (iadv 1 s) w rest) as (bp & b & E & Hb); try done; try lia.
    + split; [apply Z.div_pos; lia|]. apply Z.div_lt_upper_bound; lia.
    + apply Z.mod_pos_bound; lia.
    + destruct Hin as (_ & _ & Hl). cbn [length] in Hl. rewrite length_app in Hl. lia.
    + change (7 * Z.of_nat 1) with 7 in E. erewrite bindo_some_run by done. cbv beta iota.
      assert (((bp =? 35) && negb (Z.land b 0x70 =? 0)) = false) as ->.
      { destruct (Z.eqb_spec bp 35) as [->|]; [|done]. by rewrite land_70_small by auto. }
      change (2 ^ 7) with 128. unfold ret. rewrite iadv_iadv. cbn [length].
      replace (v mod 128 + v / 128 * 128) with v by (Z.div_mod_to_equations; lia).
      do 2 f_equal; f_equal; f_equal; lia.
Qed.

Lemma pb_decode_varint32_fits v s w rest :
  0 <= v < 2 ^ 32 -> input s w (varint v ++ rest) ->
  pb_decode_varint32 s w = Ret (Some v, iadv (Z.of_nat (length (varint v))) s, w).
Proof.
  intros Hv Hin. by eapply varint32_of_eof, pb_decode_varint32_eof_fits.
Qed.

(** A positive number that does not fit is an error. *)
Lemma pb_decode_varint32_over v s w rest :
  2 ^ 32 <= v < 2 ^ 63 -> input s w (varint v ++ rest) ->
  exists k, pb_decode_varint32 s w = Ret (None, PB_SET_ERROR "varint overflow" (iadv k s), w).
Proof.
  intros Hv Hin. pose proof Hin as Hin0. rewrite varint_tail in Hin by lia. cbn [app] in Hin.
  destruct (pb_readbyte_input s w _ _ Hin) as [_ Hin'].
  destruct (varint32_low_over 9 (v / 128) (S (Z.to_nat (bytes_left s - 1))) 1 (v mod 128)
    (iadv 1 s) w rest) as (k & Hk); try done; try lia.
  - change (2 ^ (32 - 7 * Z.of_nat 1)) with (2 ^ 25). change (2 ^ (63 - 7 * Z.of_nat 1)) with (2 ^ 56).
    split; [apply Z.div_le_lower_bound; lia|]. apply Z.div_lt_upper_bound; lia.
  - apply Z.mod_pos_bound; lia.
  - destruct Hin as (_ & _ & Hl). cbn [length] in Hl. rewrite length_app in Hl. lia.
  - exists (1 + k). apply varint32_of_eof.
    apply varint32_eof_multi with (v := v) (rest := rest); [lia|done|].
    change (7 * Z.of_nat 1) with 7 in Hk. destruct Hk as [E|(r & b & E & Hb)].
    + erewrite bindo_none_run by done. by rewrite iadv_iadv.
    + erewrite bindo_some_run by done. cbv beta iota. rewrite (proj2 (Z.eqb_neq (Z.land b 0x70) 0)).
      * unfold PB_RETURN_ERROR, bind, get_stream, put_stream, ret. cbn. by rewrite iadv_iadv.
      * by apply land_70_big.
Qed.

(** A negative [int32] written as a 64-bit varint is read as that [int32]. *)
Lemma pb_decode_varint32_negative m s w rest :
  1 <= m <= 2 ^ 31 -> input s w (varint (2 ^ 64 - m) ++ rest) ->
  pb_decode_varint32 s w = Ret (Some (2 ^ 32 - m), iadv 10 s, w).
Proof.
  intros Hm Hin. set (v := 2 ^ 64 - m) in *.
  pose proof Hin as Hin0. rewrite varint_tail in Hin by lia. cbn [app] in Hin.
  destruct (pb_readbyte_input s w _ _ Hin) as [_ Hin'].
  destruct (varint_bytes_split 3 6 (v / 128)) as (cs & Hl & Hc & Hval & E).
  { change (128 ^ Z.of_nat 3) with (2 ^ 21). apply Z.div_le_lower_bound; lia. }
  change (3 + 6)%nat with 9%nat in E. rewrite E in Hin'. rewrite <- app_assoc in Hin'.
  change (128 ^ Z.of_nat 3) with (2 ^ 21) in *.
  rewrite Z.div_div in Hin' by lia. change (128 * 2 ^ 21) with (2 ^ 28) in *.
  assert (v / 2 ^ 28 = 2 ^ 36 - 1 - (m - 1) / 2 ^ 28) as E28
    by (unfold v; Z.div_mod_to_equations; lia).
  assert (0 <= (m - 1) / 2 ^ 28 <= 7) as Hq
    by (split; [apply Z.div_pos; lia|]; apply Z.lt_succ_r, Z.div_lt_upper_bound; lia).
  assert (v / 2 ^ 28 / 128 = 2 ^ (64 - 7 * Z.of_nat 5) - 1) as E35.
  { rewrite E28. change (2 ^ (64 - 7 * Z.of_nat 5)) with (2 ^ 29).
    Z.div_mod_to_equations; lia. }
  destruct (input_app _ _ _ _ Hin') as [_ Hin''].
  cbn [varint_bytes] in Hin''. rewrite (proj2 (Z.ltb_ge (v / 2 ^ 28) 128)) in Hin'' by lia.
  change (if v / 2 ^ 28 / 128 <? 128 then _ else _) with (varint_bytes 5 (v / 2 ^ 28 / 128)) in Hin''.
  cbn [app] in Hin''. rewrite E35 in Hin''.
  apply varint32_of_eof.
  apply varint32_eof_multi with (v := v) (rest := rest); [lia|done|].
  assert (9 <= Z.to_nat (bytes_left s - 1))%nat as Hfuel.
  { destruct Hin'' as (_ & _ & Hb). cbn [iadv bytes_left length] in Hb. rewrite Hl in Hb.
    rewrite length_app in Hb.
    assert (length (varint_bytes 5 (2 ^ (64 - 7 * Z.of_nat 5) - 1)) = 5%nat) as L5 by reflexivity.
    rewrite L5 in Hb. lia. }
  assert (u32 (v mod 128 + varint_val cs * 2 ^ 7 +
               (v / 2 ^ 28 mod 128 + 128) mod 128 * 2 ^ (7 * Z.of_nat 4)) = 2 ^ 32 - m) as Eres.
  { rewrite Hval. change (7 * Z.of_nat 4) with 28. change (2 ^ 7) with 128.
    assert ((v / 2 ^ 28 mod 128 + 128) mod 128 = v / 2 ^ 28 mod 128) as ->
      by (rewrite <- Zplus_mod_idemp_r, Z.add_0_r; apply Z.mod_mod; lia).
    unfold u32, wrap, v. Z.div_mod_to_equations; lia. }
  erewrite bindo_some_run.
  2:{ change 7 with (7 * Z.of_nat 1) at 1.
      replace (S (Z.to_nat (bytes_left s - 1)))
        with (length cs + S (S (Z.to_nat (bytes_left s - 1)) - 4))%nat by lia.
      rewrite varint32_run_cont with (rest := varint_bytes 6 (v / 2 ^ 28) ++ rest);
        [|done|lia|lia|apply Z.mod_pos_bound; lia|done].
      rewrite Hl. change (1 + 3)%nat with 4%nat.
      pose proof (Z.mod_pos_bound v 128 ltac:(lia)).
      pose proof (Z.mod_pos_bound (v / 128) (2 ^ 21) ltac:(lia)).
      pose proof (Z.mod_pos_bound (v / 2 ^ 28) 128 ltac:(lia)).
      rewrite Hl in Hin''. change (7 * Z.of_nat 1) with 7 in *.
      erewrite varint32_step_low; [|lia| |rewrite Hval; change (7 * Z.of_nat 4) with 28;
        change (2 ^ 7) with 128; change (2 ^ 28) with (128 * 2 ^ 21); lia|exact Hin''].
      2:{ unfold is_byte. lia. }
      cbv zeta. rewrite (proj2 (Z.ltb_ge _ _)) by lia. rewrite Eres.
      apply (varint32_high_sign 5 _ 5 _ _ _ rest); [lia|lia| |lia|].
      - lia.
      - by apply (pb_readbyte_input _ w _ _ Hin''). }
  cbv beta iota. change (70 =? 35) with false. cbn [andb].
  unfold ret. rewrite !iadv_iadv. do 2 f_equal; f_equal.
Qed.

(** ** Zig-zag integers *)

Lemma zigzag_eq v :
  - 2 ^ 63 <= v < 2 ^ 63 -> zigzag v = if v <? 0 then - 2 * v - 1 else 2 * v.
Proof.
  intros Hv. unfold zigzag. rewrite !Z.shiftl_mul_pow2 by lia. change (2 ^ 1) with 2.
  destruct (Z.ltb_spec v 0).
  - unfold Z.lnot. wrap_lia.
  - wrap_lia.
Qed.

Lemma zigzag_range v : - 2 ^ 63 <= v < 2 ^ 63 -> 0 <= zigzag v < 2 ^ 64.
Proof. intros Hv. rewrite zigzag_eq by lia. destruct (Z.ltb_spec v 0); lia. Qed.

Lemma land_1 a : Z.land a 1 = a mod 2.
Proof. apply (land_mask a 1); lia. Qed.

(** The decoder's half of the zig-zag map. *)
Lemma unzigzag v :
  - 2 ^ 63 <= v < 2 ^ 63 ->
  (if negb (Z.land (zigzag v) 1 =? 0)
   then s64 (u64 (Z.lnot (Z.shiftr (zigzag v) 1))) else s64 (Z.shiftr (zigzag v) 1)) = v.
Proof.
  intros Hv. rewrite land_1, !shiftr_div, zigzag_eq by lia. change (2 ^ 1) with 2.
  destruct (Z.ltb_spec v 0).
  - assert ((-2 * v - 1) mod 2 = 1) as -> by (Z.div_mod_to_equations; lia).
    cbn [negb Z.eqb]. change (negb (1 =? 0)) with true. unfold Z.lnot. wrap_lia.
  - assert ((2 * v) mod 2 = 0) as -> by (Z.div_mod_to_equations; lia).
    cbn [negb Z.eqb]. wrap_lia.
Qed.

Lemma pb_decode_svarint_input v s w rest :
  - 2 ^ 63 <= v < 2 ^ 63 -> input s w (varint (zigzag v) ++ rest) ->
  pb_decode_svarint s w =
    Ret (Some v, iadv (Z.of_nat (length (varint (zigzag v)))) s, w).
Proof.
  intros Hv Hin. unfold pb_decode_svarint. pose proof (zigzag_range v Hv).
  erewrite bindo_some_run by (by eapply pb_decode_varint_input).
  pose proof (unzigzag v Hv) as E. destruct (negb (Z.land (zigzag v) 1 =? 0)); by rewrite E.
Qed.

(** ** Tags *)

Lemma tag_value t wt :
  0 <= t < 2 ^ 32 -> 0 <= wt < 8 -> Z.lor (u64 (Z.shiftl t 3)) wt = 8 * t + wt.
Proof.
  intros Ht Hw. rewrite Z.lor_comm. unfold u64. rewrite (lor_septet 64) by lia.
  change (2 ^ 3) with 8. rewrite wrap_small; lia.
Qed.

Lemma pb_encode_tag_write t wt s w :
  0 <= t < 2 ^ 32 -> 0 <= wt < 8 ->
  pb_encode_tag wt t s w =
    pb_write (WLocal (varint (8 * t + wt))) (Z.of_nat (length (varint (8 * t + wt)))) s w.
Proof.
  intros Ht Hw. unfold pb_encode_tag. rewrite tag_value by lia.
  apply pb_encode_varint_write. lia.
Qed.

Lemma land_7 a : Z.land a 7 = a mod 8.
Proof. apply (land_mask a 3); lia. Qed.

Lemma pb_decode_tag_input t wt s w rest :
  0 <= t < 2 ^ 29 -> 0 <= wt < 8 -> 0 < 8 * t + wt ->
  input s w (varint (8 * t + wt) ++ rest) ->
  pb_decode_tag s w =
    Ret (TagResult true wt t false, iadv (Z.of_nat (length (varint (8 * t + wt)))) s, w).
Proof.
  intros Ht Hw Hp Hin. unfold pb_decode_tag.
  erewrite bind_ret_run by (apply (pb_decode_varint32_eof_fits (8 * t + wt) s w rest); [lia|done]).
  cbv beta iota. rewrite (proj2 (Z.eqb_neq (8 * t + wt) 0)) by lia.
  rewrite land_7, shiftr_div by lia. change (2 ^ 3) with 8.
  assert ((8 * t + wt) mod 8 = wt) as -> by (Z.div_mod_to_equations; lia).
  assert ((8 * t + wt) / 8 = t) as -> by (Z.div_mod_to_equations; lia). done.
Qed.

(** ** Fixed-width integers *)

Lemma byte_of_shift val k : 0 <= k -> u8 (Z.land (Z.shiftr val k) 0xFF) = (val / 2 ^ k) mod 256.
Proof.
  intros Hk. change 0xFF with 255. rewrite land_FF, shiftr_div by lia.
  unfold u8. apply wrap_small. change (2 ^ 8) with 256. apply Z.mod_pos_bound; lia.
Qed.

Lemma le_bytes_S n v : le_bytes (S n) v = v mod 256 :: le_bytes n (v / 256).
Proof. done. Qed.

Lemma pb_encode_fixed32_write a bs s w :
  load (w_mem w) a 4 = Some bs -> bytes_ok bs ->
  pb_encode_fixed32 a s w = pb_write (WLocal bs) 4 s w.
Proof.
  intros Hl Hb. unfold pb_encode_fixed32. erewrite bind_ret_run by (by apply load_u_run).
  pose proof (load_length _ _ _ _ Hl) as L.
  rewrite <- (Z.shiftr_0_r (le_val bs)) at 1. rewrite !byte_of_shift by lia.
  pose proof (le_bytes_val bs Hb) as E. rewrite L in E.
  rewrite <- E at 5. rewrite !le_bytes_S. cbn [le_bytes].
  rewrite !Z.div_div by lia. change (2 ^ 0) with 1. by rewrite Z.div_1_r.
Qed.

Lemma pb_encode_fixed64_write a bs s w :
  load (w_mem w) a 8 = Some bs -> bytes_ok bs ->
  pb_encode_fixed64 a s w = pb_write (WLocal bs) 8 s w.
Proof.
  intros Hl Hb. unfold pb_encode_fixed64. erewrite bind_ret_run by (by apply load_u_run).
  pose proof (load_length _ _ _ _ Hl) as L.
  rewrite <- (Z.shiftr_0_r (le_val bs)) at 1. rewrite !byte_of_shift by lia.
  pose proof (le_bytes_val bs Hb) as E. rewrite L in E.
  rewrite <- E at 9. rewrite !le_bytes_S. cbn [le_bytes].
  rewrite !Z.div_div by lia. change (2 ^ 0) with 1. by rewrite Z.div_1_r.
Qed.

Lemma lor_byte w acc b k :
  0 <= k -> k + 8 <= w -> 0 <= acc < 2 ^ k -> is_byte b ->
  Z.lor acc (wrap w (Z.shiftl b k)) = acc + b * 2 ^ k /\ 0 <= acc + b * 2 ^ k < 2 ^ (k + 8).
Proof.
  unfold is_byte. intros Hk Hw Ha Hb. rewrite Z.pow_add_r by lia.
  assert (0 < 2 ^ k) by (apply Z.pow_pos_nonneg; lia). change (2 ^ 8) with 256.
  split; [|nia]. rewrite lor_septet by lia. apply wrap_small.
  split; [nia|]. apply Z.lt_le_trans with (2 ^ (k + 8)).
  - rewrite Z.pow_add_r by lia. change (2 ^ 8) with 256. nia.
  - apply Z.pow_le_mono_r; lia.
Qed.

(** A fixed-width field is copied to memory byte by byte. *)
Lemma pb_decode_fixed32_input s w a bs rest m' :
  length bs = 4%nat -> bytes_ok bs -> input s w (bs ++ rest) ->
  store (w_mem w) a bs = Some m' ->
  pb_decode_fixed32 a s w = Ret (Some tt, iadv 4 s, set_mem m' w).
Proof.
  intros L Hb Hin Hst. destruct (input_app _ _ _ _ Hin) as [Hin' _].
  unfold pb_decode_fixed32. pose proof (pb_read_local_input _ _ _ Hin') as E. rewrite L in E.
  erewrite bindo_some_run by exact E.
  destruct bs as [|b0 [|b1 [|b2 [|b3 [|]]]]]; try done. unfold bytes_ok in Hb.
  rewrite !Forall_cons_iff in Hb. destruct Hb as (H0 & H1 & H2 & H3 & _). cbv beta iota.
  rewrite Z.shiftl_0_r. unfold u32.
  destruct (lor_byte 32 b0 b1 8) as [-> ?]; [lia|lia|done|done|].
  destruct (lor_byte 32 (b0 + b1 * 2 ^ 8) b2 16) as [-> ?]; [lia|lia|done|done|].
  destruct (lor_byte 32 (b0 + b1 * 2 ^ 8 + b2 * 2 ^ 16) b3 24) as [-> ?]; [lia|lia|done|done|].
  unfold store_u. erewrite bind_ret_run; [reflexivity|]. apply store_bytes_run.
  rewrite <- Hst. f_equal. transitivity (le_bytes 4 (le_val [b0; b1; b2; b3])).
  - f_equal. cbn [le_val]. change (2 ^ 8) with 256.
    change (2 ^ 16) with (256 * 256). change (2 ^ 24) with (256 * (256 * 256)). lia.
  - apply (le_bytes_val [b0; b1; b2; b3]). unfold bytes_ok. rewrite !Forall_cons_iff. auto.
Qed.

Lemma pb_decode_fixed64_input s w a bs rest m' :
  length bs = 8%nat -> bytes_ok bs -> input s w (bs ++ rest) ->
  store (w_mem w) a bs = Some m' ->
  pb_decode_fixed64 a s w = Ret (Some tt, iadv 8 s, set_mem m' w).
Proof.
  intros L Hb Hin Hst. destruct (input_app _ _ _ _ Hin) as [Hin' _].
  unfold pb_decode_fixed64. pose proof (pb_read_local_input _ _ _ Hin') as E. rewrite L in E.
  erewrite bindo_some_run by exact E.
  destruct bs as [|b0 [|b1 [|b2 [|b3 [|b4 [|b5 [|b6 [|b7 [|]]]]]]]]]; try done.
  unfold bytes_ok in Hb. rewrite !Forall_cons_iff in Hb.
  destruct Hb as (H0 & H1 & H2 & H3 & H4 & H5 & H6 & H7 & _). cbv beta iota.
  rewrite Z.shiftl_0_r. unfold u64.
  destruct (lor_byte 64 b0 b1 8) as [-> ?]; [lia|lia|done|done|].
  destruct (lor_byte 64 (b0 + b1 * 2 ^ 8) b2 16) as [-> ?]; [lia|lia|done|done|].
  set (x2 := b0 + b1 * 2 ^ 8 + b2 * 2 ^ 16) in *.
  destruct (lor_byte 64 x2 b3 24) as [-> ?]; [lia|lia|done|done|].
  destruct (lor_byte 64 (x2 + b3 * 2 ^ 24) b4 32) as [-> ?]; [lia|lia|done|done|].
  set (x4 := x2 + b3 * 2 ^ 24 + b4 * 2 ^ 32) in *.
  destruct (lor_byte 64 x4 b5 40) as [-> ?]; [lia|lia|done|done|].
  destruct (lor_byte 64 (x4 + b5 * 2 ^ 40) b6 48) as [-> ?]; [lia|lia|done|done|].
  destruct (lor_byte 64 (x4 + b5 * 2 ^ 40 + b6 * 2 ^ 48) b7 56) as [-> ?];
    [lia|lia|done|done|].
  unfold store_u. erewrite bind_ret_run; [reflexivity|]. apply store_bytes_run.
  rewrite <- Hst. f_equal. transitivity (le_bytes 8 (le_val [b0; b1; b2; b3; b4; b5; b6; b7])).
  - f_equal. cbn [le_val]. unfold x4, x2. lia.
  - apply (le_bytes_val [b0; b1; b2; b3; b4; b5; b6; b7]). unfold bytes_ok.
    rewrite !Forall_cons_iff. auto 20.
Qed.

End scalar.
