(* ===== verification/PbRoundtrip.v ===== *)
(** * nanopb: what is encoded is decoded

    The scalar encoders of pb_encode.c write into a buffer exactly what the
    scalar decoders of pb_decode.c read back from it, for every value of the
    type; and what the varint decoders make of encodings the encoder does not
    produce. *)
From Stdlib Require Import ZArith Lia.
From stdpp Require Import prelude strings gmap list numbers.
From S2P Require Import Prelude CMem PbCommon PbStream PbConcrete PbScalar.
Local Open Scope Z_scope.
Local Open Scope c_scope.

(** An output buffer with [n] writable bytes left. *)
Definition ready (s : ostream) (w : world) (n : Z) : Prop :=
  room s n /\ accessible (w_mem w) (o_state s) n /\ n < 2 ^ 64.

(** The stream a reader opens on what was written. *)
Definition written (s : ostream) (n : nat) : istream :=
  pb_istream_from_buffer (o_state s) (Z.of_nat n).

Section roundtrip.
Context `{PbEnv}.

(** [m] writes [bs] and returns true. *)
Definition wrote (m : M ostream (option unit)) (bs : bytes) (s : ostream) (w w' : world) :
    Prop :=
  m s w = Ret (Some tt, oadv (Z.of_nat (length bs)) s, w') /\
  input (written s (length bs)) w' (bs ++ []).

Lemma write_wrote bs s w :
  ready s w (Z.of_nat (length bs)) ->
  exists m', store (w_mem w) (o_state s) bs = Some m' /\
    wrote (pb_write (WLocal bs) (Z.of_nat (length bs))) bs s w (set_mem m' w).
Proof.
  intros (Hr & Ha & Hn). destruct (store_total _ _ _ Ha) as [m' Hst].
  exists m'. split; [done|]. split; [by apply pb_write_buf|].
  rewrite app_nil_r. split; [done|]. cbn. split; [by eapply load_store_eq|]. lia.
Qed.

Lemma wrote_ext m m' bs s w w' : m s w = m' s w -> wrote m' bs s w w' -> wrote m bs s w w'.
Proof. unfold wrote. by intros ->. Qed.

Lemma ready_mono s w n k : 0 <= k <= n -> ready s w n -> ready s w k.
Proof.
  intros Hk ((? & ? & ? & ?) & Ha & ?). split; [|split]; [split; [done|lia]| |lia].
  intros i Hi. apply Ha. lia.
Qed.

(** [pb_encode_varint] into a buffer with room for the (at most ten) bytes of
    the varint succeeds for every 64-bit value, and [pb_decode_varint] on those
    bytes returns the value and consumes all of them. *)
Theorem varint_roundtrip v s w :
  0 <= v < 2 ^ 64 -> ready s w 10 ->
  exists n w', (1 <= n <= 10)%nat /\
    pb_encode_varint v s w = Ret (Some tt, oadv (Z.of_nat n) s, w') /\
    pb_decode_varint (written s n) w' = Ret (Some v, iadv (Z.of_nat n) (written s n), w').
Proof.
  intros Hv Hr. pose proof (varint_length v) as Hl. exists (length (varint v)).
  destruct (write_wrote (varint v) s w) as (m' & _ & Hw & Hin);
    [eapply ready_mono; [|done]; lia|].
  eexists. split; [done|]. rewrite pb_encode_varint_write by done. split; [done|].
  by eapply pb_decode_varint_input.
Qed.

(** zig-zag varints: [pb_encode_svarint] and [pb_decode_svarint] are inverse on
    every signed 64-bit value. *)
Theorem svarint_roundtrip v s w :
  - 2 ^ 63 <= v < 2 ^ 63 -> ready s w 10 ->
  exists n w', (1 <= n <= 10)%nat /\
    pb_encode_svarint v s w = Ret (Some tt, oadv (Z.of_nat n) s, w') /\
    pb_decode_svarint (written s n) w' = Ret (Some v, iadv (Z.of_nat n) (written s n), w').
Proof.
  intros Hv Hr. pose proof (varint_length (zigzag v)) as Hl.
  exists (length (varint (zigzag v))).
  destruct (write_wrote (varint (zigzag v)) s w) as (m' & _ & Hw & Hin);
    [eapply ready_mono; [|done]; lia|].
  eexists. split; [done|]. unfold pb_encode_svarint.
  rewrite pb_encode_varint_write by (by apply zigzag_range). split; [done|].
  by eapply pb_decode_svarint_input.
Qed.

(** the tag of a field: every field number below 2^29 and wire type below 8,
    other than the pair (0, 0) that marks the end of a message, survives
    [pb_encode_tag] and [pb_decode_tag]. *)
Theorem tag_roundtrip t wt s w :
  0 <= t < 2 ^ 29 -> 0 <= wt < 8 -> 0 < 8 * t + wt -> ready s w 10 ->
  exists n w', (1 <= n <= 10)%nat /\
    pb_encode_tag wt t s w = Ret (Some tt, oadv (Z.of_nat n) s, w') /\
    pb_decode_tag (written s n) w' =
      Ret (TagResult true wt t false, iadv (Z.of_nat n) (written s n), w').
Proof.
  intros Ht Hwt Hp Hr. pose proof (varint_length (8 * t + wt)) as Hl.
  exists (length (varint (8 * t + wt))).
  destruct (write_wrote (varint (8 * t + wt)) s w) as (m' & _ & Hw & Hin);
    [eapply ready_mono; [|done]; lia|].
  eexists. split; [done|]. rewrite pb_encode_tag_write by lia. split; [done|].
  by eapply pb_decode_tag_input.
Qed.

(** [pb_decode_varint] accepts every varint of up to ten bytes, shortest or
    not, as the number it stands for modulo 2^64. *)
Theorem varint_any bs s w rest :
  is_varint bs = true -> (length bs <= 10)%nat -> input s w (bs ++ rest) ->
  pb_decode_varint s w = Ret (Some (varint_val bs mod 2 ^ 64),
                              iadv (Z.of_nat (length bs)) s, w).
Proof. apply pb_decode_varint_any. Qed.

(** [pb_decode_varint32] on the encoding of a 64-bit value returns the value
    when it fits 32 bits, reports "varint overflow" when it is between 2^32 and
    2^63, and reads the ten-byte encoding of a negative 32-bit integer as that
    integer modulo 2^32. *)
Theorem varint32_exact v s w rest :
  0 <= v < 2 ^ 64 -> v < 2 ^ 63 \/ 2 ^ 64 - 2 ^ 31 <= v -> input s w (varint v ++ rest) ->
  exists o s', pb_decode_varint32 s w = Ret (o, s', w) /\
    (v < 2 ^ 32 -> o = Some v /\ s' = iadv (Z.of_nat (length (varint v))) s) /\
    (2 ^ 32 <= v < 2 ^ 63 ->
       o = None /\ i_errmsg s' = match i_errmsg s with Some e => Some e
                                 | None => Some "varint overflow"%string end) /\
    (2 ^ 64 - 2 ^ 31 <= v -> o = Some (v mod 2 ^ 32) /\ s' = iadv 10 s).
Proof.
  intros Hv Hc Hin. destruct (decide (v < 2 ^ 32)); [|destruct (decide (v < 2 ^ 63))].
  - do 2 eexists. split; [exact (pb_decode_varint32_fits v s w rest ltac:(lia) Hin)|].
    split; [done|split; intros ?; exfalso; lia].
  - destruct (pb_decode_varint32_over v s w rest ltac:(lia) Hin) as [k Hk].
    do 2 eexists. split; [exact Hk|].
    split; [intros ?; exfalso; lia|split; [|intros ?; exfalso; lia]]. intros _.
    split; [done|]. unfold PB_SET_ERROR. cbn. by destruct (i_errmsg s) eqn:E.
  - replace v with (2 ^ 64 - (2 ^ 64 - v)) in Hin by lia.
    pose proof (pb_decode_varint32_negative (2 ^ 64 - v) s w rest ltac:(lia) Hin) as E.
    do 2 eexists. split; [exact E|].
    split; [intros ?; exfalso; lia|split; intros ?; [exfalso; lia|]]. split; [|done].
    f_equal. Z.div_mod_to_equations; lia.
Qed.

(** fixed-width values: the four bytes of a value in memory are written as they
    are (little endian on the wire and in memory) and read back into any
    destination that does not overlap the buffer. *)
Theorem fixed32_roundtrip src dest bs s w :
  load (w_mem w) src 4 = Some bs -> bytes_ok bs -> ready s w 4 ->
  accessible (w_mem w) dest 4 ->
  exists w1 w2,
    pb_encode_fixed32 src s w = Ret (Some tt, oadv 4 s, w1) /\
    pb_decode_fixed32 dest (written s 4) w1 = Ret (Some tt, iadv 4 (written s 4), w2) /\
    load (w_mem w2) dest 4 = Some bs.
Proof.
  intros Hl Hb Hr Hd. pose proof (load_length _ _ _ _ Hl) as L.
  destruct (write_wrote bs s w) as (m' & Hst & Hw & Hin); [by rewrite L|].
  rewrite L in Hw, Hin. assert (accessible m' dest 4) as Hd'.
  { intros i Hi. rewrite <- elem_of_dom, (store_dom _ _ _ _ Hst), elem_of_dom. by apply Hd. }
  destruct (store_total m' dest bs) as [m2 Hst2]; [by rewrite L|].
  eexists _, (set_mem m2 (set_mem m' w)). split; [|split].
  - rewrite (pb_encode_fixed32_write src bs s w Hl Hb). exact Hw.
  - by eapply (pb_decode_fixed32_input _ _ dest bs []).
  - cbn. rewrite <- L. by eapply load_store_eq.
Qed.

(** the same for the eight bytes of 64-bit values. *)
Theorem fixed64_roundtrip src dest bs s w :
  load (w_mem w) src 8 = Some bs -> bytes_ok bs -> ready s w 8 ->
  accessible (w_mem w) dest 8 ->
  exists w1 w2,
    pb_encode_fixed64 src s w = Ret (Some tt, oadv 8 s, w1) /\
    pb_decode_fixed64 dest (written s 8) w1 = Ret (Some tt, iadv 8 (written s 8), w2) /\
    load (w_mem w2) dest 8 = Some bs.
Proof.
  intros Hl Hb Hr Hd. pose proof (load_length _ _ _ _ Hl) as L.
  destruct (write_wrote bs s w) as (m' & Hst & Hw & Hin); [by rewrite L|].
  rewrite L in Hw, Hin. assert (accessible m' dest 8) as Hd'.
  { intros i Hi. rewrite <- elem_of_dom, (store_dom _ _ _ _ Hst), elem_of_dom. by apply Hd. }
  destruct (store_total m' dest bs) as [m2 Hst2]; [by rewrite L|].
  eexists _, (set_mem m2 (set_mem m' w)). split; [|split].
  - rewrite (pb_encode_fixed64_write src bs s w Hl Hb). exact Hw.
  - by eapply (pb_decode_fixed64_input _ _ dest bs []).
  - cbn. rewrite <- L. by eapply load_store_eq.
Qed.

End roundtrip.

(** ** Instances: a buffer of 48 bytes at 2000, and eight bytes at 1000 *)

Definition out48 : ostream := pb_ostream_from_buffer 2000 48.
Definition world48 : world := world_of 1000 [1; 2; 3; 4; 5; 6; 7; 8] 2000 48.

Lemma out48_ready n : 0 <= n <= 48 -> ready out48 world48 n.
Proof.
  intros Hn. split; [by repeat split; cbn; lia|]. split; [|lia].
  eapply accessible_sub; [apply (world_of_accessible 1000 _ 2000 48)| |]; cbn; lia.
Qed.

Lemma varint_roundtrip_witness :
  exists n w', (1 <= n <= 10)%nat /\
    pb_encode_varint 300 out48 world48 = Ret (Some tt, oadv (Z.of_nat n) out48, w') /\
    pb_decode_varint (written out48 n) w' =
      Ret (Some 300, iadv (Z.of_nat n) (written out48 n), w').
Proof. apply (varint_roundtrip 300 out48 world48); [lia|apply out48_ready; lia]. Defined.

Lemma svarint_roundtrip_witness :
  exists n w', (1 <= n <= 10)%nat /\
    pb_encode_svarint (-7) out48 world48 = Ret (Some tt, oadv (Z.of_nat n) out48, w') /\
    pb_decode_svarint (written out48 n) w' =
      Ret (Some (-7), iadv (Z.of_nat n) (written out48 n), w').
Proof. apply (svarint_roundtrip (-7) out48 world48); [lia|apply out48_ready; lia]. Defined.

Lemma tag_roundtrip_witness :
  exists n w', (1 <= n <= 10)%nat /\
    pb_encode_tag 2 1000 out48 world48 = Ret (Some tt, oadv (Z.of_nat n) out48, w') /\
    pb_decode_tag (written out48 n) w' =
      Ret (TagResult true 2 1000 false, iadv (Z.of_nat n) (written out48 n), w').
Proof.
  apply (tag_roundtrip 1000 2 out48 world48); [lia|lia|lia|apply out48_ready; lia].
Defined.

(** An over-long encoding of 5. *)
Definition in3 : world := world_of 1000 [0x85; 0x80; 0x00] 2000 0.

Lemma varint_any_witness :
  pb_decode_varint (pb_istream_from_buffer 1000 3) in3 =
    Ret (Some 5, iadv 3 (pb_istream_from_buffer 1000 3), in3).
Proof.
  apply (varint_any [0x85; 0x80; 0x00] (pb_istream_from_buffer 1000 3) in3 []);
    [reflexivity|cbn; lia|]. split; [reflexivity|]. split; [reflexivity|cbn; lia].
Defined.

(** 2^40 does not fit 32 bits. *)
Definition in6 : world := world_of 1000 [0x80; 0x80; 0x80; 0x80; 0x80; 0x20] 2000 0.

Lemma varint32_exact_witness :
  exists o s', pb_decode_varint32 (pb_istream_from_buffer 1000 6) in6 = Ret (o, s', in6) /\
    o = None /\ i_errmsg s' = Some "varint overflow"%string.
Proof.
  destruct (varint32_exact (2 ^ 40) (pb_istream_from_buffer 1000 6) in6 [])
    as (o & s' & E & _ & H & _); [lia|lia| |].
  - split; [reflexivity|]. split; [reflexivity|split; by vm_compute].
  - exists o, s'. split; [exact E|]. apply H. lia.
Defined.

Lemma fixed32_roundtrip_witness :
  exists w1 w2,
    pb_encode_fixed32 1000 out48 world48 = Ret (Some tt, oadv 4 out48, w1) /\
    pb_decode_fixed32 2040 (written out48 4) w1 = Ret (Some tt, iadv 4 (written out48 4), w2) /\
    load (w_mem w2) 2040 4 = Some [1; 2; 3; 4].
Proof.
  apply (fixed32_roundtrip 1000 2040 [1; 2; 3; 4] out48 world48);
    [reflexivity|repeat constructor; lia|apply out48_ready; lia|].
  eapply accessible_sub; [apply (world_of_accessible 1000 _ 2000 48)| |]; cbn; lia.
Defined.

Lemma fixed64_roundtrip_witness :
  exists w1 w2,
    pb_encode_fixed64 1000 out48 world48 = Ret (Some tt, oadv 8 out48, w1) /\
    pb_decode_fixed64 2040 (written out48 8) w1 = Ret (Some tt, iadv 8 (written out48 8), w2) /\
    load (w_mem w2) 2040 8 = Some [1; 2; 3; 4; 5; 6; 7; 8].
Proof.
  apply (fixed64_roundtrip 1000 2040 [1; 2; 3; 4; 5; 6; 7; 8] out48 world48);
    [reflexivity|repeat constructor; lia|apply out48_ready; lia|].
  eapply accessible_sub; [apply (world_of_accessible 1000 _ 2000 48)| |]; cbn; lia.
Defined.
