(* ===== verification/PbEncode.v ===== *)
(** * nanopb: the message encoder (pb_encode.c)

    Every function of the file between [encode_array] and
    [pb_enc_fixed_length_bytes].  The mutual recursion of [pb_encode] through
    submessages is opened: the functions below take [rec], the [pb_encode] of
    the next nesting level, and [pb_encode] ties the knot on a fuel that bounds
    the nesting depth (and the length of an extension chain). *)
From Stdlib Require Import ZArith Lia.
From stdpp Require Import prelude strings gmap list numbers.
From S2P Require Import Prelude CMem PbCommon PbStream PbScalar.
Local Open Scope Z_scope.
Local Open Scope c_scope.

(** The entry an iterator stands at. *)
Definition cur_field {S} (it : field_iter) : M S pb_field :=
  of_option (it_fields it !! pos it).

(** [do { body } while (pb_field_iter_next(&iter))]; [body] may return false. *)
Fixpoint do_fields {S} (fuel : nat) (it : field_iter)
    (body : field_iter -> M S (option unit)) : M S (option unit) :=
  match fuel with
  | O => out_of_fuel
  | S k =>
      must body it ;;
      x <- of_res (pb_field_iter_next it) ;;
      if fst x : bool then do_fields k (snd x) body else return_true
  end.

(** [for (i = 0; i < n; i++) { if (!f(p)) return false; p += step; }] *)
Fixpoint for_items {S} (n : nat) (p step : Z) (f : Z -> M S (option unit)) :
    M S (option unit) :=
  match n with
  | O => return_true
  | S k => must f p ;; for_items k (p + step) step f
  end.

Section encode.
Context `{PbEnv}.

Definition encoder := pb_field -> Z -> M ostream (option unit).

(** [sizeof(bool)] is 1. *)
Definition safe_read_bool {S} (p : Z) : M S bool :=
  v <- load_u 1 p ;; ret (negb (v =? 0)).

(** Signed and unsigned integers of the size the field declares. *)
Definition read_int {S} (field : pb_field) (src : Z) : option (M S Z) :=
  if data_size field =? 1 then Some (load_s 1 src)
  else if data_size field =? 2 then Some (load_s 2 src)
  else if data_size field =? 4 then Some (load_s 4 src)
  else if data_size field =? 8 then Some (load_s 8 src)
  else None.
Definition read_uint {S} (field : pb_field) (src : Z) : option (M S Z) :=
  if data_size field =? 1 then Some (load_u 1 src)
  else if data_size field =? 2 then Some (load_u 2 src)
  else if data_size field =? 4 then Some (load_u 4 src)
  else if data_size field =? 8 then Some (load_u 8 src)
  else None.

(** ** Field encoders *)

Definition pb_enc_bool : encoder := fun field src =>
  b <- safe_read_bool src ;;
  let value := if b : bool then 1 else 0 in
  pb_encode_varint value.

Definition pb_enc_varint : encoder := fun field src =>
  match read_int field src with
  | Some rd => value <- rd ;; pb_encode_varint (u64 value)
  | None => PB_RETURN_ERROR "invalid data_size"
  end.

Definition pb_enc_uvarint : encoder := fun field src =>
  match read_uint field src with
  | Some rd => value <- rd ;; pb_encode_varint value
  | None => PB_RETURN_ERROR "invalid data_size"
  end.

Definition pb_enc_svarint : encoder := fun field src =>
  match read_int field src with
  | Some rd => value <- rd ;; pb_encode_svarint value
  | None => PB_RETURN_ERROR "invalid data_size"
  end.

Definition pb_enc_fixed64 : encoder := fun field src => pb_encode_fixed64 src.
Definition pb_enc_fixed32 : encoder := fun field src => pb_encode_fixed32 src.

(** [pb_bytes_array_t] is a 4-byte count and then the bytes. *)
Definition pb_enc_bytes : encoder := fun field src =>
  if src =? 0 then pb_encode_string WNull 0
  else
    size <- load_u 4 src ;;
    if (PB_ATYPE (type field) =? PB_ATYPE_STATIC) && (u64 (data_size field - 4) <? size)
    then PB_RETURN_ERROR "bytes size exceeded"
    else pb_encode_string (WMem (src + 4)) size.

(** [while (size < max_size && *p != '\0')]; [fuel] is the most it can scan. *)
Fixpoint strnlen_loop {S} (fuel : nat) (size max_size p : Z) : M S Z :=
  if size <? max_size then
    match fuel with
    | O => out_of_fuel
    | S k =>
        c <- load_u 1 p ;;
        if c =? 0 then ret size else strnlen_loop k (size + 1) max_size (p + 1)
    end
  else ret size.

Definition pb_enc_string : encoder := fun field src =>
  let max_size :=
    if PB_ATYPE (type field) =? PB_ATYPE_POINTER then 2 ^ 64 - 1 else data_size field in
  if src =? 0 then pb_encode_string WNull 0
  else
    m <- get_mem ;;
    size <- strnlen_loop (Z.to_nat (Z.min max_size (Z.of_nat (size m) + 1))) 0 max_size src ;;
    pb_encode_string (WMem src) size.

Definition pb_enc_fixed_length_bytes : encoder := fun field src =>
  pb_encode_string (WMem src) (data_size field).

(** ** Proto3 default values *)

Fixpoint zero_bytes_loop {S} (n : nat) (p : Z) : M S bool :=
  match n with
  | O => ret true
  | S k =>
      c <- load_u 1 p ;;
      if negb (c =? 0) then ret false else zero_bytes_loop k (p + 1)
  end.

Fixpoint pb_check_proto3_default_value {S} (fuel : nat) (field : pb_field) (pData : Z) :
    M S bool :=
  match fuel with
  | O => out_of_fuel
  | S k =>
      let t := type field in
      let pSize := pData + size_offset field in
      let catch_all := zero_bytes_loop (Z.to_nat (data_size field)) pData in
      let rest :=
        if (PB_ATYPE t =? PB_ATYPE_STATIC) && (PB_LTYPE t =? PB_LTYPE_BYTES) then
          n <- load_u 4 pData ;; ret (n =? 0)
        else if (PB_ATYPE t =? PB_ATYPE_STATIC) && (PB_LTYPE t =? PB_LTYPE_STRING) then
          c <- load_u 1 pData ;; ret (c =? 0)
        else if (PB_ATYPE t =? PB_ATYPE_STATIC) &&
                (PB_LTYPE t =? PB_LTYPE_FIXED_LENGTH_BYTES) then
          ret (data_size field =? 0)
        else if (PB_ATYPE t =? PB_ATYPE_STATIC) && (PB_LTYPE t =? PB_LTYPE_SUBMESSAGE) then
          fields <- of_option (fields_at (ptr field)) ;;
          x <- of_res (pb_field_iter_begin fields pData) ;;
          if fst x : bool then
            r <- do_fields (length fields) (snd x) (fun it =>
                   f <- cur_field it ;;
                   d <- pb_check_proto3_default_value k f (PbCommon.pData it) ;;
                   if d : bool then return_true else return_false) ;;
            ret (match r with Some _ => true | None => false end)
          else ret true
        else if (PB_ATYPE t =? PB_ATYPE_POINTER) && (PB_LTYPE_LAST_PACKABLE <? PB_LTYPE t)
        then p <- load_ptr pData ;; ret (p =? 0)
        else catch_all in
      if PB_HTYPE t =? PB_HTYPE_REQUIRED then ret false
      else if PB_HTYPE t =? PB_HTYPE_REPEATED then
        if negb (size_offset field =? 0) then n <- load_u 4 pSize ;; ret (n =? 0)
        else if PB_ATYPE t =? PB_ATYPE_STATIC then ret false
        else rest
      else if PB_HTYPE t =? PB_HTYPE_ONEOF then
        n <- load_u 4 pSize ;; ret (n =? 0)
      else if (PB_HTYPE t =? PB_HTYPE_OPTIONAL) && negb (size_offset field =? 0) then
        b <- safe_read_bool pSize ;; ret (negb b)
      else rest
  end.

(** ** Messages *)

Section rec.
(** [pb_encode] one level down, and the fuel left there. *)
Context (rec : list pb_field -> Z -> M ostream (option unit)) (fuel : nat).

Definition pb_encode_submessage (fields : list pb_field) (src_struct : Z) :
    M ostream (option unit) :=
  r <- on_stream PB_OSTREAM_SIZING (rec fields src_struct) ;;
  let '(o, substream) := r in
  match o with
  | None =>
      s <- get_stream ;;
      put_stream (set_err (o_errmsg substream) s) ;; return_false
  | Some _ =>
      let size := bytes_written substream in
      must pb_encode_varint (u64 size) ;;
      s <- get_stream ;;
      match o_callback s with
      | ONull => pb_write WNull size
      | _ =>
          if max_size s <? u64 (bytes_written s + size) then PB_RETURN_ERROR "stream full"
          else
            r <- on_stream (OStream (o_callback s) (o_state s) size 0 None)
                           (rec fields src_struct) ;;
            let '(status, sub) := r in
            s <- get_stream ;;
            put_stream (set_err (o_errmsg sub) (set_ostate (o_state sub)
              (set_bytes_written (u64 (bytes_written s + bytes_written sub)) s))) ;;
            if negb (bytes_written sub =? size)
            then PB_RETURN_ERROR "submsg size changed"
            else ret status
      end
  end.

Definition pb_enc_submessage : encoder := fun field src =>
  if ptr field =? 0 then PB_RETURN_ERROR "invalid field descriptor"
  else fields <- of_option (fields_at (ptr field)) ;; pb_encode_submessage fields src.

(** The null entry is for extensions. *)
Definition PB_ENCODERS : list (option encoder) :=
  [ Some pb_enc_bool; Some pb_enc_varint; Some pb_enc_uvarint; Some pb_enc_svarint;
    Some pb_enc_fixed32; Some pb_enc_fixed64; Some pb_enc_bytes; Some pb_enc_string;
    Some pb_enc_submessage; None; Some pb_enc_fixed_length_bytes ].

(** Calling through a null function pointer is undefined. *)
Definition call_encoder (func : option encoder) : encoder := fun field src =>
  match func with Some f => f field src | None => ub end.

Definition encode_array (field : pb_field) (pData count : Z) (func : option encoder) :
    M ostream (option unit) :=
  if count =? 0 then return_true
  else if negb (PB_ATYPE (type field) =? PB_ATYPE_POINTER) && (array_size field <? count)
  then PB_RETURN_ERROR "array max size exceeded"
  else if PB_LTYPE (type field) <=? PB_LTYPE_LAST_PACKABLE then
    must pb_encode_tag PB_WT_STRING (tag field) ;;
    size <-?
      (if PB_LTYPE (type field) =? PB_LTYPE_FIXED32 then ret (Some (u64 (4 * count)))
       else if PB_LTYPE (type field) =? PB_LTYPE_FIXED64 then ret (Some (u64 (8 * count)))
       else
         r <- on_stream PB_OSTREAM_SIZING
                (for_items (Z.to_nat count) pData (data_size field)
                           (call_encoder func field)) ;;
         match fst r with
         | Some _ => ret (Some (bytes_written (snd r)))
         | None => return_false
         end) ;;
    must pb_encode_varint (u64 size) ;;
    s <- get_stream ;;
    match o_callback s with
    | ONull => pb_write WNull size
    | _ => for_items (Z.to_nat count) pData (data_size field) (call_encoder func field)
    end
  else
    for_items (Z.to_nat count) pData (data_size field) (fun p =>
      must pb_encode_tag_for_field field ;;
      if (PB_ATYPE (type field) =? PB_ATYPE_POINTER) &&
         ((PB_LTYPE (type field) =? PB_LTYPE_STRING) ||
          (PB_LTYPE (type field) =? PB_LTYPE_BYTES))
      then q <- load_ptr p ;; call_encoder func field q
      else call_encoder func field p).

(** [pSize]: an address, or the local [implicit_has] with its value. *)
Definition encode_basic_field (field : pb_field) (pData : Z) : M ostream (option unit) :=
  func <- of_option (PB_ENCODERS !! Z.to_nat (PB_LTYPE (type field))) ;;
  pSize <-
    (if negb (size_offset field =? 0) then ret (inl (pData + size_offset field))
     else if PB_HTYPE (type field) =? PB_HTYPE_OPTIONAL then
       d <- pb_check_proto3_default_value fuel field pData ;; ret (inr (negb d))
     else ret (inr true)) ;;
  x <- (if PB_ATYPE (type field) =? PB_ATYPE_POINTER then
          p <- load_ptr pData ;;
          ret (p, match pSize with inl a => inl a | inr _ => inr (negb (p =? 0)) end)
        else ret (pData, pSize)) ;;
  let '(pData, pSize) := x in
  let present :=
    must pb_encode_tag_for_field field ;; call_encoder func field pData in
  (** [*(const pb_size_t* )pSize]; the local is too small to be read as one *)
  let read_size := match pSize with inl a => load_u 4 a | inr _ => ub end in
  let h := PB_HTYPE (type field) in
  if h =? PB_HTYPE_REQUIRED then
    if pData =? 0 then PB_RETURN_ERROR "missing required field" else present
  else if h =? PB_HTYPE_OPTIONAL then
    has <- (match pSize with inl a => safe_read_bool a | inr b => ret b end) ;;
    if has : bool then present else return_true
  else if h =? PB_HTYPE_REPEATED then
    count <- (if negb (size_offset field =? 0) then read_size
              else ret (array_size field)) ;;
    encode_array field pData count func
  else if h =? PB_HTYPE_ONEOF then
    which <- read_size ;;
    if which =? tag field then present else return_true
  else PB_RETURN_ERROR "invalid field type".

(** [pb_callback_t]: the function pointer, then [arg]. *)
Definition encode_callback_field (field : pb_field) (pData : Z) : M ostream (option unit) :=
  f <- load_ptr pData ;;
  if negb (f =? 0) then
    o <- cb_encode f field (pData + 8) ;;
    match o with
    | None => PB_RETURN_ERROR "callback error"
    | Some _ => return_true
    end
  else return_true.

Definition encode_field (field : pb_field) (pData : Z) : M ostream (option unit) :=
  if (PB_ATYPE (type field) =? PB_ATYPE_STATIC) ||
     (PB_ATYPE (type field) =? PB_ATYPE_POINTER)
  then encode_basic_field field pData
  else if PB_ATYPE (type field) =? PB_ATYPE_CALLBACK
  then encode_callback_field field pData
  else PB_RETURN_ERROR "invalid field type".

(** [pb_extension_t]: type at 0, dest at 8, next at 16, found at 24. *)
Definition default_extension_encoder (extension : Z) : M ostream (option unit) :=
  tp <- load_ptr extension ;;
  et <- of_option (ext_type_at tp) ;;
  fields <- of_option (fields_at (et_arg et)) ;;
  field <- of_option (fields !! 0%nat) ;;
  if PB_ATYPE (type field) =? PB_ATYPE_POINTER
  then encode_field field (extension + 8)
  else dest <- load_ptr (extension + 8) ;; encode_field field dest.

Fixpoint extension_loop (n : nat) (extension : Z) : M ostream (option unit) :=
  if extension =? 0 then return_true
  else
    match n with
    | O => out_of_fuel
    | S k =>
        tp <- load_ptr extension ;;
        et <- of_option (ext_type_at tp) ;;
        must (if negb (et_encode et =? 0) then ext_encode (et_encode et) extension
              else default_extension_encoder extension) ;;
        next <- load_ptr (extension + 16) ;;
        extension_loop k next
    end.

Definition encode_extension_field (field : pb_field) (pData : Z) : M ostream (option unit) :=
  extension <- load_ptr pData ;; extension_loop fuel extension.

Definition pb_encode_body (fields : list pb_field) (src_struct : Z) :
    M ostream (option unit) :=
  x <- of_res (pb_field_iter_begin fields src_struct) ;;
  if fst x : bool then
    do_fields (length fields) (snd x) (fun it =>
      f <- cur_field it ;;
      if PB_LTYPE (type f) =? PB_LTYPE_EXTENSION
      then encode_extension_field f (PbCommon.pData it)
      else encode_field f (PbCommon.pData it))
  else return_true.

End rec.

Fixpoint pb_encode (fuel : nat) (fields : list pb_field) (src_struct : Z) :
    M ostream (option unit) :=
  match fuel with
  | O => out_of_fuel
  | S k => pb_encode_body (pb_encode k) k fields src_struct
  end.

Definition pb_encode_delimited (fuel : nat) (fields : list pb_field) (src_struct : Z) :
    M ostream (option unit) :=
  pb_encode_submessage (pb_encode fuel) fields src_struct.

Definition pb_encode_nullterminated (fuel : nat) (fields : list pb_field)
    (src_struct : Z) : M ostream (option unit) :=
  must pb_encode fuel fields src_struct ;;
  pb_write (WLocal [0]) 1.

(** The size, if the call returns true. *)
Definition pb_get_encoded_size {S} (fuel : nat) (fields : list pb_field) (src_struct : Z) :
    M S (option Z) :=
  r <- on_stream PB_OSTREAM_SIZING (pb_encode fuel fields src_struct) ;;
  match fst r with
  | Some _ => ret (Some (bytes_written (snd r)))
  | None => return_false
  end.

End encode.
