(* ===== verification/PbSizing.v ===== *)
(** * nanopb: the size that is announced is the size that is written

    nanopb encodes a submessage twice, once on a stream that only counts and once
    for real, and offers the counting pass to its users as [pb_get_encoded_size].
    [sim] relates the two: what the counting pass does without looking at the
    output buffer, the real pass does too, and it writes as many bytes.  The
    counting pass never looks at the contents of strings and of packed fixed-width
    arrays; that they can be read is what a third pass tells, on a stream whose
    callback reads what it is given and does nothing else.  One rule per construct,
    one lemma per function of pb_encode.c. *)
From Stdlib Require Import ZArith Lia.
From stdpp Require Import prelude strings gmap list numbers.
From S2P Require Import Prelude CMem PbCommon PbStream PbConcrete PbScalar PbEncode.
Local Open Scope Z_scope.
Local Open Scope c_scope.

(** A stream that only counts. *)
Definition counting (t : ostream) : Prop := o_callback t = ONull /\ 0 <= bytes_written t < 2 ^ 64.
(** [d] bytes counted, in a [size_t]. *)
Definition counted (d : Z) (t t' : ostream) : Prop :=
  counting t' /\ bytes_written t' = u64 (bytes_written t + d).

Lemma u64_range z : 0 <= u64 z < 2 ^ 64.
Proof. apply (wrap_range 64). lia. Qed.
Lemma u64_small z : 0 <= z < 2 ^ 64 -> u64 z = z.
Proof. apply (wrap_small 64). Qed.
Lemma u64_add_l a b : u64 (u64 a + b) = u64 (a + b).
Proof. unfold u64, wrap. by rewrite Zplus_mod_idemp_l. Qed.
Lemma u64_add_r a b : u64 (a + u64 b) = u64 (a + b).
Proof. unfold u64, wrap. by rewrite Zplus_mod_idemp_r. Qed.

Lemma counted_0 t : counting t -> counted 0 t t.
Proof. intros Ht. split; [done|]. rewrite Z.add_0_r, u64_small; [done|apply Ht]. Qed.
Lemma counted_trans d1 d2 t1 t2 t3 :
  counted d1 t1 t2 -> counted d2 t2 t3 -> counted (d1 + d2) t1 t3.
Proof. intros [_ H1] [H3 H2]. split; [done|]. rewrite H2, H1, u64_add_l. f_equal. lia. Qed.

Section sizing.
Context `{PbEnv}.
(** The output buffer, and the callback that reads. *)
Context (lo hi probe : Z).
Context (probe_scans : forall buf count s w, user_write probe buf count s w = scan buf count s w).

(** [w] has what [wf] has, and [wf] has nothing of the output buffer. *)
Definition frozen (wf w : world) : Prop :=
  mem_ok (w_mem wf) /\
  forall x c, w_mem wf !! x = Some c -> w_mem w !! x = Some c /\ ~ (lo <= x < hi).

Lemma frozen_refl wf w : frozen wf w -> frozen wf wf.
Proof. intros [Hm Hx]. split; [done|]. intros x c Hc. split; [done|]. by apply (Hx x c). Qed.

(** [w] has the output buffer too. *)
Definition target (wf w : world) : Prop := frozen wf w /\ accessible (w_mem w) lo (hi - lo).

(** A stream into the buffer. *)
Definition space (s : ostream) : Z := max_size s - bytes_written s.
Definition inside (s : ostream) : Prop :=
  o_callback s = OBuf /\ 0 <= bytes_written s <= max_size s /\ max_size s < 2 ^ 64 /\
  lo <= o_state s /\ o_state s + space s <= hi.

(** [d] bytes written. *)
Record wrote (d : Z) (s s' : ostream) (w w' : world) : Prop := {
  wr_cb : o_callback s' = OBuf;
  wr_state : o_state s' = o_state s + d;
  wr_max : max_size s' = max_size s;
  wr_count : bytes_written s' = bytes_written s + d;
  wr_mem x : ~ (o_state s <= x < o_state s + d) -> w_mem w' !! x = w_mem w !! x;
  wr_acc b n : accessible (w_mem w) b n -> accessible (w_mem w') b n;
  wr_blocks : w_blocks w' = w_blocks w
}.

Lemma wrote_0 s w : inside s -> wrote 0 s s w w.
Proof. intros (? & ?). split; try done; lia. Qed.
Lemma wrote_trans d1 d2 s1 s2 s3 w1 w2 w3 :
  0 <= d1 -> 0 <= d2 ->
  wrote d1 s1 s2 w1 w2 -> wrote d2 s2 s3 w2 w3 -> wrote (d1 + d2) s1 s3 w1 w3.
Proof.
  intros H1 H2 [] []. split; try congruence; try lia; [|auto].
  intros x Hx. rewrite wr_mem1, wr_mem0; [done|lia|lia].
Qed.
Lemma wrote_inside d s s' w w' : 0 <= d <= space s -> wrote d s s' w w' -> inside s -> inside s'.
Proof. unfold inside, space. intros Hd [] (? & ? & ? & ? & ?). repeat split; try done; lia. Qed.
Lemma wrote_target d s s' wf w w' :
  0 <= d <= space s -> wrote d s s' w w' -> inside s -> target wf w -> target wf w'.
Proof.
  unfold inside. intros Hd [] (_ & _ & _ & Hl & Hh) [[Hm Hf] Ha]. split.
  - split; [done|]. intros x c Hc. destruct (Hf x c Hc) as [Hw Hx]. split; [|done].
    rewrite wr_mem0; [done|lia].
  - by apply wr_acc0.
Qed.

(** [d] more bytes do not fit (and [bytes_written] does not wrap). *)
Definition too_large (d : Z) (s : ostream) : Prop :=
  space s < d /\ bytes_written s + d < 2 ^ 64.
(** Nothing outside the rest of the buffer has changed. *)
Definition kept (s : ostream) (w w' : world) : Prop :=
  (forall x, ~ (o_state s <= x < o_state s + space s) -> w_mem w' !! x = w_mem w !! x) /\
  w_blocks w' = w_blocks w.

Lemma kept_refl s w : kept s w w.
Proof. done. Qed.
Lemma wrote_kept d s1 s2 w1 w2 w3 :
  0 <= d <= space s1 -> wrote d s1 s2 w1 w2 -> kept s2 w2 w3 -> kept s1 w1 w3.
Proof.
  unfold space. intros Hd [] [Hm Hb]. unfold space in Hm. split; [|congruence].
  intros x Hx. rewrite Hm, wr_mem0; [done|unfold space in Hx; lia|unfold space in Hx; lia].
Qed.

(** A stream to the callback that reads, and [d] bytes given to it. *)
Definition probing (p : ostream) : Prop :=
  o_callback p = OUser probe /\ 0 <= bytes_written p <= max_size p /\ max_size p < 2 ^ 64.
Definition probed (d : Z) (p p' : ostream) : Prop :=
  o_callback p' = o_callback p /\ max_size p' = max_size p /\
  bytes_written p' = bytes_written p + d.

(** What [m] reads to write [d] bytes is in [wf]. *)
Definition readable {A} (wf : world) (d : Z) (m : M ostream A) (p : ostream) : Prop :=
  probing p /\ d <= space p /\ m p wf <> UB.

(** [m] writes [d] bytes, if they fit, and otherwise fails: to the callback that
    reads, unless it reads what is not there; and into the buffer, if the callback
    could read it all. *)
Record writes {A} (wf : world) (m : M ostream (option A)) (a : A) (d : Z) : Prop := {
  wr_probe p : probing p -> d <= space p ->
    spec True False m (fun o p' w' => o = Some a /\ w' = wf /\ probed d p p') p wf;
  wr_write p s w : readable wf d m p -> inside s -> target wf w -> d <= space s ->
    spec False False m (fun o s' w' => o = Some a /\ wrote d s s' w w') s w;
  wr_full p s w : readable wf d m p -> inside s -> target wf w -> too_large d s ->
    spec False False m (fun o _ w' => o = None /\ kept s w w') s w
}.

(** How [m] behaves where there is more than in [wf]: it counts [d] bytes, and it
    writes [d] bytes. *)
Record same {A} (wf : world) (m : M ostream (option A)) (a : A) (d : Z) : Prop := {
  same_counts t w : counting t -> frozen wf w ->
    exists t', m t w = Ret (Some a, t', w) /\ counted d t t';
  same_writes : writes wf m a d
}.

(** What a counting run that succeeds tells about the others. *)
Definition simw {A} (wf : world) (m : M ostream (option A)) : Prop :=
  forall t a t' wf', counting t -> m t wf = Ret (Some a, t', wf') ->
    wf' = wf /\ exists d, 0 <= d /\ counted d t t' /\ same wf m a d.
Definition sim {A} (m : M ostream (option A)) : Prop := forall wf, frozen wf wf -> simw wf m.

(** A computation that only reads. *)
Definition reader {A} (P : A -> Prop) (m : M ostream A) : Prop :=
  forall t wf a t' wf', frozen wf wf -> m t wf = Ret (a, t', wf') ->
    t' = t /\ wf' = wf /\ P a /\ forall s w, frozen wf w -> m s w = Ret (a, s, w).

(** ** Rules *)

Definition never {A} (m : M ostream (option A)) : Prop :=
  forall s w a s' w', m s w <> Ret (Some a, s', w').

Lemma sim_never {A} (m : M ostream (option A)) : never m -> sim m.
Proof. intros Hn wf _ t a t' wf' _ E. by apply Hn in E. Qed.
Lemma never_false {A} : never (A := A) return_false.
Proof. by intros s w a s' w' E. Qed.
Lemma never_error {A} msg : never (A := A) (PB_RETURN_ERROR msg).
Proof. by intros s w a s' w' E. Qed.
Lemma never_ub {A} : never (A := A) ub.
Proof. by intros s w a s' w' E. Qed.
Lemma never_fuel {A} : never (A := A) out_of_fuel.
Proof. by intros s w a s' w' E. Qed.

(** [m] fails at once. *)
Definition fails {A} (m : M ostream (option A)) : Prop :=
  forall s w, exists s', m s w = Ret (None, s', w).
Lemma fails_never {A} (m : M ostream (option A)) : fails m -> never m.
Proof. intros Hm s w a s' w'. destruct (Hm s w) as [t ->]. done. Qed.
Lemma fails_false {A} : fails (A := A) return_false.
Proof. intros s w. by exists s. Qed.
Lemma fails_error {A} msg : fails (A := A) (PB_RETURN_ERROR msg).
Proof. intros s w. by eexists. Qed.
Lemma spec_fails {A} (m : M ostream (option A)) s0 w0 s w :
  fails m -> kept s0 w0 w -> spec False False m (fun o _ w' => o = None /\ kept s0 w0 w') s w.
Proof. intros Hm Hk. unfold spec. destruct (Hm s w) as [s' ->]. done. Qed.

Lemma probed_probing d p p' :
  0 <= d <= space p -> probed d p p' -> probing p -> probing p' /\ space p' = space p - d.
Proof. unfold probing, space. intros Hd (-> & -> & ->) (? & ? & ?). repeat split; try done; lia. Qed.

(** Only the runs on streams that write count. *)
Lemma writes_run {A} wf (m m' : M ostream (option A)) a d :
  frozen wf wf ->
  (forall s w, frozen wf w -> o_callback s <> ONull -> m s w = m' s w) ->
  writes wf m' a d -> writes wf m a d.
Proof.
  intros Hf E [H1 H2 H3].
  assert (forall p, readable wf d m p -> readable wf d m' p) as Hr.
  { intros p (Hp & Hd & Hu). split; [done|]. split; [done|]. rewrite <- E; [done..|].
    by rewrite (proj1 Hp). }
  split.
  - intros p Hp Hd. unfold spec. rewrite E; [by apply H1|done|by rewrite (proj1 Hp)].
  - intros p s w Hp Hs Hw Hl. unfold spec.
    rewrite E; [by eapply H2; [apply Hr| | |]|apply Hw|by rewrite (proj1 Hs)].
  - intros p s w Hp Hs Hw Hl. unfold spec.
    rewrite E; [by eapply H3; [apply Hr| | |]|apply Hw|by rewrite (proj1 Hs)].
Qed.

Lemma simw_run {A} wf (m m' : M ostream (option A)) :
  frozen wf wf -> (forall s w, m s w = m' s w) -> simw wf m' -> simw wf m.
Proof.
  intros Hf E Hm t a t' wf' Ht Em. rewrite E in Em.
  destruct (Hm _ _ _ _ Ht Em) as (-> & d & Hd & Hc & [H1 H2]). split; [done|].
  exists d. split; [done|]. split; [done|]. split.
  - intros t2 w. rewrite E. apply H1.
  - eapply writes_run; [done| |exact H2]. auto.
Qed.
Lemma sim_run {A} (m m' : M ostream (option A)) : (forall s w, m s w = m' s w) -> sim m' -> sim m.
Proof. intros E Hm wf Hf. eapply simw_run; [done..|by apply Hm]. Qed.

Lemma writes_ret {A} wf (a : A) : writes wf (ret (Some a)) a 0.
Proof.
  split.
  - intros p Hp _. apply spec_ret. repeat split; try done. lia.
  - intros p s w _ Hs _ _. apply spec_ret. split; [done|by apply wrote_0].
  - intros p s w _ (_ & Hb & _) _ [Hl _]. unfold space in Hl. lia.
Qed.
Lemma sim_ret {A} (a : A) : sim (ret (Some a)).
Proof.
  intros wf Hf t b t' wf' Ht [= <- <- <-]. split; [done|]. exists 0. split; [lia|].
  split; [by apply counted_0|]. split; [|apply writes_ret].
  intros t2 w Ht2 _. exists t2. split; [done|by apply counted_0].
Qed.

(** Reading before writing: the probing pass has read it. *)
Lemma writes_bind_reader {A B} wf (P : A -> Prop) (m : M ostream A)
    (k : A -> M ostream (option B)) b d :
  frozen wf wf -> reader P m -> (forall p, m p wf <> OutOfFuel) ->
  (forall a, P a -> writes wf (k a) b d) -> writes wf (bind m k) b d.
Proof.
  intros Hf Hm Hfuel Hk.
  assert (forall p, readable wf d (bind m k) p ->
            exists a, P a /\ readable wf d (k a) p /\
              forall s w, frozen wf w -> bind m k s w = k a s w) as Hr.
  { intros p (Hp & Hd & Hu). unfold bind in Hu.
    destruct (m p wf) as [[[a p1] wf1]| |] eqn:Em; [|done|by apply Hfuel in Em].
    destruct (Hm _ _ _ _ _ Hf Em) as (-> & -> & Ha & Hrun). exists a. split; [done|].
    split; [done|]. intros s w Hw. by erewrite bind_ret_run by (by apply Hrun). }
  split.
  - intros p Hp Hd. apply spec_bind. unfold spec at 1.
    destruct (m p wf) as [[[a p1] wf1]| |] eqn:Em; [|done|by apply Hfuel in Em].
    destruct (Hm _ _ _ _ _ Hf Em) as (-> & -> & Ha & _). by apply Hk.
  - intros p s w Hp Hs Hw Hl. destruct (Hr p Hp) as (a & Ha & Hp' & E). unfold spec.
    rewrite E by apply Hw. by eapply (Hk a).
  - intros p s w Hp Hs Hw Hl. destruct (Hr p Hp) as (a & Ha & Hp' & E). unfold spec.
    rewrite E by apply Hw. by eapply (Hk a).
Qed.

Lemma simw_bind_reader {A B} wf (P : A -> Prop) (m : M ostream A) (k : A -> M ostream (option B)) :
  frozen wf wf -> reader P m -> (forall a, P a -> simw wf (k a)) -> simw wf (bind m k).
Proof.
  intros Hf Hm Hk t b t' wf' Ht E. unfold bind in E.
  destruct (m t wf) as [[[a t1] wf1]| |] eqn:Em; try done.
  destruct (Hm _ _ _ _ _ Hf Em) as (-> & -> & HP & Hr).
  destruct (Hk a HP _ _ _ _ Ht E) as (-> & d & Hd & Hc & [H1 H2]). split; [done|].
  exists d. split; [done|]. split; [done|]. split.
  - intros t2 w Ht2 Hw. erewrite bind_ret_run by (by apply Hr). by apply H1.
  - eapply writes_run; [done| |exact H2]. intros s w Hw _.
    by erewrite bind_ret_run by (by apply Hr).
Qed.
Lemma sim_bind_reader {A B} (P : A -> Prop) (m : M ostream A) (k : A -> M ostream (option B)) :
  reader P m -> (forall a, P a -> sim (k a)) -> sim (bind m k).
Proof. intros Hm Hk wf Hf. eapply simw_bind_reader; eauto. intros a Ha. by apply Hk. Qed.

(** What the probing pass of a sequence tells about its parts. *)
Lemma readable_bind {A B} wf (m : M ostream (option A)) (k : option A -> M ostream (option B))
    a d1 d2 p :
  0 <= d1 -> 0 <= d2 -> writes wf m a d1 -> readable wf (d1 + d2) (bind m k) p ->
  readable wf d1 m p /\ exists p', readable wf d2 (k (Some a)) p'.
Proof.
  intros Hd1 Hd2 Hm (Hp & Hd & Hu).
  assert (d1 <= space p) as Hl by lia. pose proof (wr_probe _ _ _ _ Hm p Hp Hl) as Hs.
  unfold spec in Hs. unfold bind in Hu. unfold readable.
  destruct (m p wf) as [[[o p1] wf1]| |]; [|done|done].
  destruct Hs as (-> & -> & Hpr). split; [done|]. exists p1.
  destruct (probed_probing d1 p p1 ltac:(lia) Hpr Hp). split; [done|]. split; [lia|done].
Qed.

Lemma writes_bind_opt {A B} wf (m : M ostream (option A)) (k : option A -> M ostream (option B))
    a b d1 d2 :
  0 <= d1 -> 0 <= d2 -> writes wf m a d1 -> fails (k None) -> writes wf (k (Some a)) b d2 ->
  writes wf (bind m k) b (d1 + d2).
Proof.
  intros Hd1 Hd2 Hm Hn Hk. pose proof Hm as [H11 H12 H13]. pose proof Hk as [H21 H22 H23].
  assert (forall s1 s2 w1 w2, inside s1 -> target wf w1 -> d1 <= space s1 ->
            wrote d1 s1 s2 w1 w2 ->
            inside s2 /\ target wf w2 /\ space s2 = space s1 - d1 /\
            bytes_written s2 = bytes_written s1 + d1) as Hmid.
  { intros s1 s2 w1 w2 Hs Hw Hl Hw1. assert (0 <= d1 <= space s1) as Hd by lia.
    split; [by eapply wrote_inside|]. split; [by eapply wrote_target|].
    unfold space. destruct Hw1. lia. }
  split.
  - intros p Hp Hd. apply spec_bind. eapply spec_mono; [apply H11; [done|lia]|].
    intros o p1 w1 (-> & -> & Hp1). destruct (probed_probing d1 p p1 ltac:(lia) Hp1 Hp).
    eapply spec_mono; [apply H21; [done|lia]|]. intros o p2 w2 (-> & -> & Hp2).
    destruct Hp1 as (? & ? & ?), Hp2 as (? & ? & ?). repeat split; try congruence. lia.
  - intros p s w Hp Hs Hw Hl. destruct (readable_bind _ _ _ _ _ _ _ Hd1 Hd2 Hm Hp) as [Hp1 [p2 Hp2]].
    apply spec_bind. eapply spec_mono; [eapply H12; [done|done|done|lia]|].
    intros o s1 w1 (-> & Hw1).
    destruct (Hmid s s1 w w1 Hs Hw ltac:(lia) Hw1) as (Hs1 & Hf1 & Hsp & _).
    eapply spec_mono; [eapply H22; [done|done|done|lia]|].
    intros o s2 w2 (-> & Hw2). split; [done|]. by eapply wrote_trans.
  - intros p s w Hp Hs Hw [Hl Hnw].
    destruct (readable_bind _ _ _ _ _ _ _ Hd1 Hd2 Hm Hp) as [Hp1 [p2 Hp2]].
    apply spec_bind. destruct (Z.le_gt_cases d1 (space s)) as [Hd|Hd].
    + eapply spec_mono; [by eapply H12|]. intros o s1 w1 (-> & Hw1).
      destruct (Hmid s s1 w w1 Hs Hw Hd Hw1) as (Hs1 & Hf1 & Hsp & Hb).
      eapply spec_mono; [eapply H23; [done|done|done|split; lia]|].
      intros o s2 w2 (-> & Hw2). split; [done|]. eapply wrote_kept; [|exact Hw1|exact Hw2]. lia.
    + eapply spec_mono; [eapply H13; [done|done|done|split; lia]|].
      intros o s1 w1 (-> & Hw1). by apply spec_fails.
Qed.

(** [k None] fails, so only success matters. *)
Lemma simw_bind_opt {A B} wf (m : M ostream (option A)) (k : option A -> M ostream (option B)) :
  simw wf m -> fails (k None) -> (forall a, simw wf (k (Some a))) -> simw wf (bind m k).
Proof.
  intros Hm Hn Hk t b t' wf' Ht E. unfold bind in E.
  destruct (m t wf) as [[[[a|] t1] wf1]| |] eqn:Em; try done; [|by apply fails_never in E].
  destruct (Hm _ _ _ _ Ht Em) as (-> & d1 & Hd1 & Hc1 & [H11 H12]).
  destruct (Hk a _ _ _ _ (proj1 Hc1) E) as (-> & d2 & Hd2 & Hc2 & [H21 H22]).
  split; [done|]. exists (d1 + d2). split; [lia|]. split; [by eapply counted_trans|].
  split; [|by eapply writes_bind_opt].
  intros t2 w Ht2 Hw. destruct (H11 t2 w Ht2 Hw) as (t3 & E3 & Hc3).
  destruct (H21 t3 w (proj1 Hc3) Hw) as (t4 & E4 & Hc4). exists t4.
  erewrite bind_ret_run by done. split; [done|by eapply counted_trans].
Qed.
Lemma sim_bind_opt {A B} (m : M ostream (option A)) (k : option A -> M ostream (option B)) :
  sim m -> fails (k None) -> (forall a, sim (k (Some a))) -> sim (bind m k).
Proof. intros Hm Hn Hk wf Hf. apply simw_bind_opt; auto. intros a. by apply Hk. Qed.

Lemma simw_bindo {A B} wf (m : M ostream (option A)) (k : A -> M ostream (option B)) :
  simw wf m -> (forall a, simw wf (k a)) -> simw wf (bindo m k).
Proof. intros Hm Hk. apply simw_bind_opt; [done|apply fails_false|done]. Qed.
Lemma sim_bindo {A B} (m : M ostream (option A)) (k : A -> M ostream (option B)) :
  sim m -> (forall a, sim (k a)) -> sim (bindo m k).
Proof. intros Hm Hk. apply sim_bind_opt; [done|apply fails_false|done]. Qed.

(** A pass that counts, then what follows with the size. *)
Lemma sim_sized {A B} (m : M ostream (option A))
    (k : option A * ostream -> M ostream (option B)) (K : A -> Z -> M ostream (option B)) :
  sim m -> (forall sub, never (k (None, sub))) ->
  (forall a sub s w, k (Some a, sub) s w = K a (bytes_written sub) s w) ->
  (forall wf a d, frozen wf wf -> 0 <= d -> same wf m a d -> simw wf (K a (u64 d))) ->
  sim (bind (on_stream PB_OSTREAM_SIZING m) k).
Proof.
  intros Hm Hn Hk HK wf Hf t b t' wf' Ht E.
  assert (counting PB_OSTREAM_SIZING) as H0 by (split; [done|cbn; lia]).
  unfold bind, on_stream in E.
  destruct (m PB_OSTREAM_SIZING wf) as [[[[a|] sub] wf1]| |] eqn:Em; try done; [|by apply Hn in E].
  destruct (Hm wf Hf _ _ _ _ H0 Em) as (-> & d & Hd & [_ Hc] & Hs).
  rewrite Hk, Hc in E. change (bytes_written PB_OSTREAM_SIZING + d) with d in E.
  destruct (HK wf a d Hf Hd Hs _ _ _ _ Ht E) as (-> & d' & Hd' & Hc' & [H1 H2]).
  split; [done|]. exists d'. split; [done|]. split; [done|].
  assert (forall s w, frozen wf w ->
    bind (on_stream PB_OSTREAM_SIZING m) k s w = K a (u64 d) s w) as Erun.
  { intros s w Hw. destruct (same_counts _ _ _ _ Hs _ w H0 Hw) as (sub' & E' & [_ Hb]).
    erewrite bind_ret_run by (by apply on_stream_run). by rewrite Hk, Hb. }
  split.
  - intros t2 w Ht2 Hw. rewrite Erun by done. by apply H1.
  - eapply writes_run; [done| |exact H2]. intros s w Hw _. by apply Erun.
Qed.

(** Readers. *)
Lemma reader_weaken {A} (P Q : A -> Prop) m : reader P m -> (forall a, P a -> Q a) -> reader Q m.
Proof.
  intros Hm HPQ t wf a t' wf' Hf E. destruct (Hm _ _ _ _ _ Hf E) as (-> & -> & HP & Hr). auto.
Qed.
Lemma reader_ret {A} (a : A) : reader (eq a) (ret a).
Proof. by intros t wf b t' wf' Hf [= <- <- <-]. Qed.
Lemma reader_bind {A B} P Q (m : M ostream A) (k : A -> M ostream B) :
  reader P m -> (forall a, P a -> reader Q (k a)) -> reader Q (bind m k).
Proof.
  intros Hm Hk t wf b t' wf' Hf E. unfold bind in E.
  destruct (m t wf) as [[[a t1] wf1]| |] eqn:Em; try done.
  destruct (Hm _ _ _ _ _ Hf Em) as (-> & -> & HP & Hr).
  destruct (Hk a HP _ _ _ _ _ Hf E) as (-> & -> & HQ & Hr2).
  split; [done|]. split; [done|]. split; [done|]. intros s w Hw.
  erewrite bind_ret_run by (by apply Hr). by apply Hr2.
Qed.
Lemma reader_bindo {A B} Q (m : M ostream (option A)) (k : A -> M ostream (option B)) :
  reader (fun _ => True) m -> (forall a, reader Q (k a)) -> (Q None) -> reader Q (bindo m k).
Proof.
  intros Hm Hk HQ. eapply reader_bind; [exact Hm|]. intros [a|] _; [apply Hk|].
  eapply reader_weaken; [apply reader_ret|]. by intros a <-.
Qed.
Lemma reader_of_option {A} (o : option A) : reader (fun a => o = Some a) (of_option o).
Proof. intros t wf a t' wf' Hf. unfold of_option. destruct o; [|done]. by intros [= <- <- <-]. Qed.
Lemma reader_of_res {A} (r : res A) : reader (fun a => r = Ret a) (of_res r).
Proof. intros t wf a t' wf' Hf. unfold of_res. destruct r; try done. by intros [= <- <- <-]. Qed.
Lemma reader_fuel {A} (P : A -> Prop) : reader P out_of_fuel.
Proof. by intros t wf a t' wf' Hf. Qed.
Lemma reader_ub {A} (P : A -> Prop) : reader P ub.
Proof. by intros t wf a t' wf' Hf. Qed.

Lemma frozen_load wf w a n bs :
  frozen wf w -> load (w_mem wf) a n = Some bs -> load (w_mem w) a n = Some bs.
Proof.
  intros [_ Hf] Hl. destruct (load_lookup _ _ _ _ Hl) as [<- Hb]. apply lookup_load.
  intros i b Hi. by apply Hf, Hb.
Qed.

Lemma reader_load_bytes a n :
  reader (fun bs => bytes_ok bs /\ length bs = Z.to_nat n) (load_bytes a n).
Proof.
  intros t wf bs t' wf' Hf. unfold load_bytes, bind, get_mem, of_option.
  destruct (load (w_mem wf) a (Z.to_nat n)) as [x|] eqn:E; [|done]. intros [= <- <- <-].
  split; [done|]. split; [done|]. split.
  - split; [eapply load_bytes_ok; [apply Hf|done]|by eapply load_length].
  - intros s w Hw. by rewrite (frozen_load _ _ _ _ _ Hw E).
Qed.

Lemma reader_load_u n a : reader (fun v => 0 <= v < 2 ^ (8 * Z.of_nat n)) (load_u n a).
Proof.
  eapply reader_bind; [apply reader_load_bytes|]. intros bs [Hb Hl].
  eapply reader_weaken; [apply reader_ret|]. intros v <-.
  pose proof (le_val_bound bs Hb) as Hv. by rewrite Hl, Nat2Z.id in Hv.
Qed.
Lemma reader_load_s n a :
  (0 < n)%nat ->
  reader (fun v => - 2 ^ (8 * Z.of_nat n - 1) <= v < 2 ^ (8 * Z.of_nat n - 1)) (load_s n a).
Proof.
  intros Hn. eapply reader_bind; [apply reader_load_u|]. intros v _.
  eapply reader_weaken; [apply reader_ret|]. intros x <-. apply swrap_range. lia.
Qed.
Lemma reader_bool p : reader (fun _ => True) (safe_read_bool p).
Proof.
  eapply reader_bind; [apply reader_load_u|]. intros v _.
  eapply reader_weaken; [apply reader_ret|done].
Qed.
Lemma reader_cur it : reader (fun f => it_fields it !! pos it = Some f) (cur_field it).
Proof. apply reader_of_option. Qed.

(** ** Writing *)

(** What a write needs of its source. *)
Definition source (wf : world) (buf : wsrc) (count : Z) : Prop :=
  match buf with
  | WNull => count <= 0
  | WMem a => exists bs, load (w_mem wf) a (Z.to_nat count) = Some bs
  | WLocal bs => count <= Z.of_nat (length bs)
  end.

Lemma scan_run wf buf count (p : ostream) :
  (scan buf count p wf = UB /\ ~ source wf buf count) \/
  (scan buf count p wf = Ret (Some tt, p, wf) /\ source wf buf count).
Proof.
  destruct buf as [|a|bs]; cbn [scan source].
  - destruct (Z.ltb_spec 0 count); [left|right]; (split; [done|lia]).
  - unfold load_bytes, bind, get_mem, of_option.
    destruct (load (w_mem wf) a (Z.to_nat count)) as [bs|]; [right|left].
    + split; [done|by exists bs].
    + split; [done|]. by intros [].
  - destruct (Z.ltb_spec (Z.of_nat (length bs)) count); [left|right]; (split; [done|lia]).
Qed.

(** Storing [count] bytes at the position of the stream. *)
Lemma spec_buf_write wf buf count s w :
  inside s -> 0 <= count <= space s -> target wf w -> source wf buf count ->
  spec False False (buf_write buf count)
    (fun o s' w' => o = Some tt /\ s' = set_ostate (o_state s + count) s /\
       (forall x, ~ (o_state s <= x < o_state s + count) -> w_mem w' !! x = w_mem w !! x) /\
       (forall b n, accessible (w_mem w) b n -> accessible (w_mem w') b n) /\
       w_blocks w' = w_blocks w) s w.
Proof.
  intros (_ & _ & _ & Hlo & Hhi) Hc [Hf Hacc] Hsrc.
  assert (forall bs, length bs = Z.to_nat count ->
            exists m', store (w_mem w) (o_state s) bs = Some m' /\
              (forall x, ~ (o_state s <= x < o_state s + count) -> m' !! x = w_mem w !! x) /\
              (forall b n, accessible (w_mem w) b n -> accessible m' b n)) as Hst.
  { intros bs Hl. destruct (store_total (w_mem w) (o_state s) bs) as [m' E].
    { intros x Hx. apply Hacc. lia. }
    exists m'. split; [done|]. split; [|intros b n; by eapply store_access].
    intros x Hx. eapply store_outside; [exact E|]. unfold outside. lia. }
  unfold buf_write. apply spec_bind, spec_get_stream, spec_bind, spec_put_stream.
  destruct buf as [|a|bs]; cbn [source] in Hsrc.
  - rewrite (proj2 (Z.ltb_ge _ _)) by done. apply spec_ret. by auto.
  - destruct Hsrc as [bs Hbs]. destruct (Hst bs) as (m' & E & H1 & H2).
    { by eapply load_length. }
    apply spec_bind, spec_get_mem.
    rewrite (copy_loop_disjoint _ _ _ _ bs); [|by eapply frozen_load|].
    2:{ destruct (decide (count = 0)) as [->|Hn]; [lia|].
        destruct (load_lookup _ _ _ _ Hbs) as [Hl Hb].
        assert (forall i, 0 <= i < count -> ~ (lo <= a + i < hi)) as Hout.
        { intros i Hi. destruct (lookup_lt_is_Some_2 bs (Z.to_nat i)) as [b Hi']; [lia|].
          apply Hb in Hi'. apply Hf in Hi' as [_ Hi'].
          by rewrite Z2Nat.id in Hi' by lia. }
        pose proof (Hout 0 ltac:(lia)). pose proof (Hout (count - 1) ltac:(lia)).
        destruct (Z.lt_ge_cases a lo); [|lia].
        destruct (Z.lt_ge_cases (a + count) (lo + 1)); [lia|].
        exfalso. apply (Hout (lo - a)); lia. }
    apply spec_bind, spec_of_option; [|by rewrite E]. rewrite E. intros m1 [= <-].
    apply spec_bind, spec_put_mem, spec_ret. auto.
  - destruct (Hst (take (Z.to_nat count) bs)) as (m' & E & H1 & H2); [rewrite length_take; lia|].
    rewrite (proj2 (Z.ltb_ge _ _)) by done.
    apply spec_bind. unfold store_bytes. apply spec_bind, spec_get_mem, spec_bind.
    apply spec_of_option; [|by rewrite E]. rewrite E. intros m1 [= <-].
    apply spec_put_mem, spec_ret. auto.
Qed.

(** [pb_write] of [count] bytes into the buffer. *)
Lemma spec_write wf buf count s w :
  inside s -> 0 <= count <= space s -> target wf w -> (0 < count -> source wf buf count) ->
  spec False False (pb_write buf count) (fun o s' w' => o = Some tt /\ wrote count s s' w w') s w.
Proof.
  intros Hs Hc Hw Hsrc. pose proof Hs as (Hcb & Hb & Hm & _). unfold space in Hc.
  unfold pb_write. apply spec_bind, spec_get_stream. rewrite Hcb.
  assert (u64 (bytes_written s + count) = bytes_written s + count) as Eu
    by (apply u64_small; lia).
  apply spec_bindo. destruct (Z.ltb_spec 0 count) as [Hp|Hp].
  - rewrite Eu, !(proj2 (Z.ltb_ge _ _)) by lia. cbn [orb]. apply spec_bind.
    eapply spec_mono; [by eapply spec_buf_write; auto|].
    intros o s1 w1 (-> & -> & Hmem & Hdom & Hbl).
    apply spec_ret, spec_bind, spec_get_stream, spec_bind, spec_put_stream, spec_ret.
    split; [done|]. by split.
  - assert (count = 0) as -> by lia.
    apply spec_ret, spec_bind, spec_get_stream, spec_bind, spec_put_stream, spec_ret.
    split; [done|]. split; try done; cbn; lia.
Qed.

(** [pb_write] of more than the buffer takes. *)
Lemma spec_write_full buf count s w :
  inside s -> too_large count s ->
  spec False False (pb_write buf count) (fun o _ w' => o = None /\ kept s w w') s w.
Proof.
  intros Hs [Hl Hn]. pose proof Hs as (Hcb & Hb & Hm & _). unfold space in Hl.
  unfold pb_write. apply spec_bind, spec_get_stream. rewrite Hcb.
  rewrite (proj2 (Z.ltb_lt 0 count)), u64_small by lia.
  rewrite (proj2 (Z.ltb_lt (max_size s) _)), orb_true_r by lia.
  apply spec_bindo. by apply spec_bind, spec_get_stream, spec_bind, spec_put_stream, spec_ret.
Qed.

(** [pb_write] to the callback that reads. *)
Lemma probe_write wf buf count p :
  probing p -> 0 <= count <= space p ->
  (pb_write buf count p wf = UB /\ 0 < count /\ ~ source wf buf count) \/
  ((0 < count -> source wf buf count) /\
   exists p', pb_write buf count p wf = Ret (Some tt, p', wf) /\ probed count p p').
Proof.
  intros (Hcb & Hb & Hm) Hc. unfold space in Hc.
  unfold pb_write, bindo, bind, get_stream. rewrite Hcb.
  assert (u64 (bytes_written p + count) = bytes_written p + count) as Eu
    by (apply u64_small; lia).
  destruct (Z.ltb_spec 0 count) as [Hp|Hp].
  - rewrite Eu, !(proj2 (Z.ltb_ge _ _)) by lia. cbn [orb].
    destruct (scan_run wf buf count p) as [[E Hn]|[E Hy]]; [left|right].
    + split; [|done]. by rewrite probe_scans, E.
    + split; [done|]. eexists. split; [|split; [|split]].
      * rewrite probe_scans, E. reflexivity.
      * done.
      * done.
      * cbn. by rewrite Eu.
  - assert (count = 0) as -> by lia. right. split; [lia|]. eexists. split; [reflexivity|].
    by rewrite Eu.
Qed.

Lemma writes_write wf buf count : 0 <= count -> writes wf (pb_write buf count) tt count.
Proof.
  intros Hc. split.
  - intros p Hp Hl. unfold spec.
    destruct (probe_write wf buf count p Hp ltac:(lia)) as [[-> _]|(_ & p' & -> & Hp')]; done.
  - intros p s w (Hp & Hl & Hu) Hs Hw Hd. eapply spec_write; [done|lia|done|].
    by destruct (probe_write wf buf count p Hp ltac:(lia)) as [[E _]|[Hy _]].
  - intros p s w _ Hs _ Hl. by apply spec_write_full.
Qed.

(** Counting [count] bytes. *)
Lemma write_counting buf count t w :
  counting t -> exists t', pb_write buf count t w = Ret (Some tt, t', w) /\ counted count t t'.
Proof.
  intros [Hcb Hb]. unfold pb_write, bind at 1, get_stream. rewrite Hcb.
  eexists. split; [done|]. split; [split; [exact Hcb|apply u64_range]|done].
Qed.

Lemma sim_write buf count : 0 <= count -> sim (pb_write buf count).
Proof.
  intros Hc wf Hf t [] t' wf' Ht E.
  destruct (write_counting buf count t wf Ht) as (t1 & E1 & Hc1). rewrite E1 in E.
  injection E as <- <-. split; [done|]. exists count. split; [done|]. split; [done|].
  split; [|by apply writes_write]. intros t2 w Ht2 _. by apply write_counting.
Qed.

Lemma sim_varint v : 0 <= v < 2 ^ 64 -> sim (pb_encode_varint v).
Proof.
  intros Hv. eapply sim_run; [intros s w; by apply pb_encode_varint_write|]. apply sim_write. lia.
Qed.
Lemma sim_svarint v : - 2 ^ 63 <= v < 2 ^ 63 -> sim (pb_encode_svarint v).
Proof. intros Hv. by apply sim_varint, zigzag_range. Qed.

Lemma sim_tag wt t : 0 <= wt < 8 -> sim (pb_encode_tag wt t).
Proof.
  intros Hw. apply sim_varint. apply (lor_range 64); [lia|apply u64_range|lia].
Qed.
Lemma sim_tag_for_field f : sim (pb_encode_tag_for_field f).
Proof.
  unfold pb_encode_tag_for_field. repeat case_match; try (apply sim_tag; compute; split; congruence).
  apply sim_never, never_error.
Qed.
Lemma sim_string buf size : 0 <= size -> sim (pb_encode_string buf size).
Proof.
  intros Hs. apply sim_bindo; [apply sim_varint, u64_range|]. intros _. by apply sim_write.
Qed.

(** Fixed-width values: what they write is known. *)
Lemma load_u_fuel {S} n a (s : S) w : load_u n a s w <> OutOfFuel.
Proof.
  unfold load_u, load_bytes, bind, get_mem, of_option. by destruct (load (w_mem w) a _).
Qed.
Lemma writes_fixed32 wf p : frozen wf wf -> writes wf (pb_encode_fixed32 p) tt 4.
Proof.
  intros Hf. eapply writes_bind_reader; [done|apply reader_load_u|intros; apply load_u_fuel|].
  intros v _. by apply writes_write.
Qed.
Lemma writes_fixed64 wf p : frozen wf wf -> writes wf (pb_encode_fixed64 p) tt 8.
Proof.
  intros Hf. eapply writes_bind_reader; [done|apply reader_load_u|intros; apply load_u_fuel|].
  intros v _. by apply writes_write.
Qed.

Lemma sim_fixed32 a : sim (pb_encode_fixed32 a).
Proof. eapply sim_bind_reader; [apply reader_load_u|]. intros v _. apply sim_write. lia. Qed.
Lemma sim_fixed64 a : sim (pb_encode_fixed64 a).
Proof. eapply sim_bind_reader; [apply reader_load_u|]. intros v _. apply sim_write. lia. Qed.

(** A size and then that many bytes: when counting, the size is enough. *)
Lemma simw_announced wf d (K : ostream -> M ostream (option unit)) :
  frozen wf wf -> 0 <= d -> writes wf (s <- get_stream ;; K s) tt d ->
  simw wf (must pb_encode_varint (u64 (u64 d)) ;;
           s <- get_stream ;;
           match o_callback s with ONull => pb_write WNull (u64 d) | _ => K s end).
Proof.
  intros Hf Hd HK. apply simw_bindo; [by apply sim_varint; [apply u64_range|]|]. intros _.
  intros t [] t' wf' Ht E. unfold bind, get_stream in E. rewrite (proj1 Ht) in E.
  destruct (write_counting WNull (u64 d) t wf Ht) as (t1 & E1 & Hc1). rewrite E1 in E.
  injection E as <- <-. split; [done|].
  assert (forall t t1, counted (u64 d) t t1 -> counted d t t1) as Hcd.
  { intros t0 t2 [Hc Hb]. split; [done|]. by rewrite u64_add_r in Hb. }
  exists d. split; [done|]. split; [by apply Hcd|]. split.
  - intros t2 w Ht2 _. destruct (write_counting WNull (u64 d) t2 w Ht2) as (t3 & E3 & Hc3).
    exists t3. unfold bind, get_stream. rewrite (proj1 Ht2). split; [done|by apply Hcd].
  - eapply writes_run; [done| |exact HK]. intros s w _ Hs. unfold bind, get_stream.
    by destruct (o_callback s).
Qed.

(** [for_items] repeats. *)
Lemma sim_items n p step f : (forall q, sim (f q)) -> sim (for_items n p step f).
Proof.
  intros Hf. revert p; induction n as [|n IH]; intros p; cbn [for_items]; [apply sim_ret|].
  apply sim_bindo; [apply Hf|]. intros _. apply IH.
Qed.
Lemma writes_items wf k n p step f :
  0 <= k -> (forall q, writes wf (f q) tt k) ->
  writes wf (for_items n p step f) tt (k * Z.of_nat n).
Proof.
  intros Hk Hf. revert p; induction n as [|n IH]; intros p; cbn [for_items].
  - rewrite Z.mul_0_r. apply writes_ret.
  - replace (k * Z.of_nat (S n)) with (k + k * Z.of_nat n) by lia.
    apply (writes_bind_opt wf _ _ tt); [done|lia|apply Hf|apply fails_false|apply IH].
Qed.

(** ** Reading the structure *)

Lemma reader_zero_bytes n p : reader (fun _ => True) (zero_bytes_loop n p).
Proof.
  revert p; induction n as [|n IH]; intros p; cbn [zero_bytes_loop].
  - by eapply reader_weaken; [apply reader_ret|].
  - eapply reader_bind; [apply reader_load_u|]. intros c _.
    destruct (negb (c =? 0)); [by eapply reader_weaken; [apply reader_ret|]|apply IH].
Qed.

Lemma reader_load_ptr p : reader (fun _ => True) (load_ptr p).
Proof. eapply reader_weaken; [apply reader_load_u|done]. Qed.

Lemma strnlen_frozen fuel k mx p (t : ostream) wf n t' wf' :
  0 <= k -> strnlen_loop fuel k mx p t wf = Ret (n, t', wf') -> frozen wf wf ->
  t' = t /\ wf' = wf /\ 0 <= n /\
  forall fuel' (s : ostream) w, (fuel <= fuel')%nat -> frozen wf w ->
    strnlen_loop fuel' k mx p s w = Ret (n, s, w).
Proof.
  intros Hk E Hf. revert k p Hk E; induction fuel as [|fuel IH]; intros k p Hk E.
  - cbn [strnlen_loop] in E. destruct (k <? mx) eqn:Ek; [done|]. injection E as <- <- <-.
    split; [done|]. split; [done|]. split; [done|]. intros [|fuel'] s w _ _; cbn; by rewrite Ek.
  - cbn [strnlen_loop] in E. destruct (k <? mx) eqn:Ek.
    + unfold bind in E. destruct (load_u 1 p t wf) as [[[c t1] wf1]| |] eqn:El; try done.
      destruct (reader_load_u 1 p _ _ _ _ _ Hf El) as (-> & -> & _ & Hr).
      destruct (c =? 0) eqn:Ec.
      * injection E as <- <- <-. repeat (split; [done|]). intros [|fuel'] s w Hle Hw; [lia|].
        cbn [strnlen_loop]. rewrite Ek. erewrite bind_ret_run by (by apply Hr). by rewrite Ec.
      * destruct (IH (k + 1) (p + 1) ltac:(lia) E) as (-> & -> & Hn & Hrun).
        repeat (split; [done|]). intros [|fuel'] s w Hle Hw; [lia|].
        cbn [strnlen_loop]. rewrite Ek. erewrite bind_ret_run by (by apply Hr). rewrite Ec.
        apply Hrun; [lia|done].
    + injection E as <- <- <-. repeat (split; [done|]).
      intros [|fuel'] s w _ _; cbn [strnlen_loop]; by rewrite Ek.
Qed.

Lemma frozen_size wf w : frozen wf w -> (size (w_mem wf) <= size (w_mem w))%nat.
Proof.
  intros [_ Hf]. apply map_subseteq_size, map_subseteq_spec. intros x c Hc. by apply Hf.
Qed.

Lemma reader_strnlen mx p :
  reader (fun n => 0 <= n)
    (m <- get_mem ;; strnlen_loop (Z.to_nat (Z.min mx (Z.of_nat (size m) + 1))) 0 mx p).
Proof.
  intros t wf n t' wf' Hf E. unfold bind, get_mem in *.
  destruct (strnlen_frozen _ _ _ _ _ _ _ _ _ ltac:(done) E Hf) as (-> & -> & Hn & Hr).
  repeat (split; [done|]). intros s w Hw. apply Hr; [|done].
  pose proof (frozen_size _ _ Hw). lia.
Qed.

(** Readers of which only the reading matters. *)
Definition reads {A} (m : M ostream A) : Prop := reader (fun _ => True) m.

Lemma reads_reader {A} P (m : M ostream A) : reader P m -> reads m.
Proof. intros Hm. by eapply reader_weaken. Qed.
Lemma reads_ret {A} (a : A) : reads (ret a).
Proof. eapply reads_reader, reader_ret. Qed.
Lemma reads_bind {A B} (m : M ostream A) (k : A -> M ostream B) :
  reads m -> (forall a, reads (k a)) -> reads (bind m k).
Proof. intros Hm Hk. eapply reader_bind; [exact Hm|]. intros a _. apply Hk. Qed.
Lemma reads_bindo {A B} (m : M ostream (option A)) (k : A -> M ostream (option B)) :
  reads m -> (forall a, reads (k a)) -> reads (bindo m k).
Proof. intros Hm Hk. by apply reader_bindo. Qed.
Lemma reads_load_u n a : reads (load_u n a).
Proof. eapply reads_reader, reader_load_u. Qed.
Lemma reads_of_option {A} (o : option A) : reads (of_option o).
Proof. eapply reads_reader, reader_of_option. Qed.
Lemma reads_of_res {A} (r : res A) : reads (of_res r).
Proof. eapply reads_reader, reader_of_res. Qed.

Local Ltac reads :=
  repeat (cbv zeta; first
    [ apply reads_ret | apply reads_load_u | apply reader_load_ptr | apply reader_bool
    | apply reads_of_option | apply reads_of_res | apply reader_zero_bytes
    | apply reader_fuel | apply reader_ub
    | apply reads_bindo; [|intros ?] | apply reads_bind; [|intros ?]
    | case_match ]).

Lemma reads_do_fields fuel it body :
  (forall it, reads (body it)) -> reads (do_fields fuel it body).
Proof.
  intros Hb. revert it; induction fuel as [|fuel IH]; intros it; cbn [do_fields]; [reads|].
  apply reads_bindo; [done|]. intros _. apply reads_bind; [reads|]. intros x.
  destruct (fst x); [apply IH|reads].
Qed.

Lemma reads_default fuel f p : reads (pb_check_proto3_default_value fuel f p).
Proof.
  revert f p; induction fuel as [|fuel IH]; intros f p;
    cbn [pb_check_proto3_default_value]; [reads|].
  reads; apply reads_do_fields; intros it; (apply reads_bind; [reads|]); intros g;
    (apply reads_bind; [apply IH|]); intros []; reads.
Qed.

(** ** Field encoders *)

(** The unsigned members of a descriptor. *)
Definition field_ok (f : pb_field) : Prop :=
  0 <= data_size f < 2 ^ 32 /\ 0 <= array_size f < 2 ^ 32.

Lemma read_int_reader f p rd :
  read_int f p = Some rd -> reader (fun v => - 2 ^ 63 <= v < 2 ^ 63) rd.
Proof.
  unfold read_int. repeat case_match; intros [= <-];
    (eapply reader_weaken; [apply reader_load_s; lia|cbn; lia]).
Qed.
Lemma read_uint_reader f p rd :
  read_uint f p = Some rd -> reader (fun v => 0 <= v < 2 ^ 64) rd.
Proof.
  unfold read_uint. repeat case_match; intros [= <-];
    (eapply reader_weaken; [apply reader_load_u|cbn; lia]).
Qed.

Lemma sim_error {A} msg : sim (A := A) (PB_RETURN_ERROR msg).
Proof. apply sim_never, never_error. Qed.

Lemma sim_bool f p : sim (pb_enc_bool f p).
Proof.
  eapply sim_bind_reader; [apply reader_bool|]. intros b _. cbv zeta. apply sim_varint.
  by destruct b.
Qed.
Lemma sim_enc_varint f p : sim (pb_enc_varint f p).
Proof.
  unfold pb_enc_varint. destruct (read_int f p) eqn:E; [|apply sim_error].
  eapply sim_bind_reader; [by eapply read_int_reader|]. intros v _.
  apply sim_varint, u64_range.
Qed.
Lemma sim_enc_uvarint f p : sim (pb_enc_uvarint f p).
Proof.
  unfold pb_enc_uvarint. destruct (read_uint f p) eqn:E; [|apply sim_error].
  eapply sim_bind_reader; [by eapply read_uint_reader|]. intros v Hv. by apply sim_varint.
Qed.
Lemma sim_enc_svarint f p : sim (pb_enc_svarint f p).
Proof.
  unfold pb_enc_svarint. destruct (read_int f p) eqn:E; [|apply sim_error].
  eapply sim_bind_reader; [by eapply read_int_reader|]. intros v Hv. by apply sim_svarint.
Qed.
Lemma sim_enc_bytes f p : sim (pb_enc_bytes f p).
Proof.
  unfold pb_enc_bytes. destruct (p =? 0); [by apply sim_string|].
  eapply sim_bind_reader; [apply reader_load_u|]. intros n Hn.
  destruct (_ && _); [apply sim_error|].
  apply sim_string. apply Hn.
Qed.
Lemma sim_enc_string f p : sim (pb_enc_string f p).
Proof.
  unfold pb_enc_string. destruct (p =? 0); [by apply sim_string|].
  eapply sim_run; [|eapply sim_bind_reader; [apply reader_strnlen|]];
    [intros s w; reflexivity|]. intros n Hn. by apply sim_string.
Qed.
Lemma sim_enc_fixed_length_bytes f p : field_ok f -> sim (pb_enc_fixed_length_bytes f p).
Proof. intros [Hd _]. apply sim_string. lia. Qed.

(** ** Messages *)

(** What the user provides: descriptors in range, callbacks that write what they
    count. *)
Context (tables_ok : forall p fs, fields_at p = Some fs -> Forall field_ok fs).
Context (cb_sim : forall f field arg, sim (cb_encode f field arg)).
Context (ext_sim : forall f ext, sim (ext_encode f ext)).

Lemma sim_on_fields {B} p (k : list pb_field -> M ostream (option B)) :
  (forall fs, Forall field_ok fs -> sim (k fs)) -> sim (bind (of_option (fields_at p)) k).
Proof.
  intros Hk. eapply sim_bind_reader; [apply reader_of_option|]. intros fs Hfs.
  by apply Hk, (tables_ok p).
Qed.

Section rec.
Context (rec : list pb_field -> Z -> M ostream (option unit)) (fuel : nat).
Context (rec_sim : forall fs src, Forall field_ok fs -> sim (rec fs src)).

(** The second pass of [pb_encode_submessage]: a stream of its own for [size] bytes,
    and what follows. *)
Definition substream_pass (fs : list pb_field) (src size : Z) (s : ostream) :
    M ostream (option unit) :=
  if max_size s <? u64 (bytes_written s + size) then PB_RETURN_ERROR "stream full"
  else
    r <- on_stream (OStream (o_callback s) (o_state s) (size) 0 None) (rec fs src) ;;
    let '(status, sub) := r in
    s <- get_stream ;;
    put_stream (set_err (o_errmsg sub) (set_ostate (o_state sub)
      (set_bytes_written (u64 (bytes_written s + bytes_written sub)) s))) ;;
  if negb (bytes_written sub =? size)
    then PB_RETURN_ERROR "submsg size changed" else ret status.

Lemma writes_substream wf d fs src :
  0 <= d -> writes wf (rec fs src) tt d ->
  writes wf (s <- get_stream ;; substream_pass fs src (u64 d) s) tt d.
Proof.
  intros Hd Hm. unfold substream_pass.
  set (sub s := OStream (o_callback s) (o_state s) d 0 None).
  assert (forall p, probing p -> d <= space p -> d < 2 ^ 64 /\ probing (sub p) /\
            u64 (bytes_written p + d) = bytes_written p + d /\
            (max_size p <? bytes_written p + d) = false) as Hsub.
  { intros p (Hcb & Hb & Hm64) Hl. unfold space in Hl. split; [lia|].
    split; [|split; [apply u64_small; lia|apply Z.ltb_ge; lia]].
    split; [done|]. cbn. lia. }
  assert (forall p, space (sub p) = d) as Hsp by (intros p; unfold space; cbn; lia).
  assert (forall p, readable wf d (s <- get_stream ;; substream_pass fs src (u64 d) s) p ->
    d < 2 ^ 64 /\ readable wf d (rec fs src) (sub p)) as Hr.
  { intros p (Hp & Hl & Hu). destruct (Hsub p Hp Hl) as (H64 & Hp' & Eu & El).
    split; [done|]. split; [done|]. rewrite Hsp. split; [done|]. intros E. apply Hu.
    unfold substream_pass, bind, get_stream, on_stream. rewrite (u64_small d), Eu, El by lia.
    fold (sub p). by rewrite E. }
  split.
  - intros p Hp Hl. destruct (Hsub p Hp Hl) as (H64 & Hp' & Eu & El).
    apply spec_bind, spec_get_stream. rewrite (u64_small d), Eu, El by lia.
    apply spec_bind, spec_on_stream. fold (sub p).
    eapply spec_mono; [apply (wr_probe _ _ _ _ Hm); [done|by rewrite Hsp]|].
    intros o p1 w1 (-> & -> & Hc & Hx & Hb).
    apply spec_bind, spec_get_stream, spec_bind, spec_put_stream. rewrite Hb. cbn [sub bytes_written].
    rewrite Z.eqb_refl. apply spec_ret. by repeat split.
  - intros p s w Hp Hs Hw Hl. destruct (Hr p Hp) as (H64 & Hp').
    pose proof Hs as (Hcb & Hb & Hx & Hlo & Hhi). unfold space in Hl, Hhi.
    apply spec_bind, spec_get_stream. rewrite (u64_small d), u64_small by lia.
    rewrite (proj2 (Z.ltb_ge _ _)) by lia. apply spec_bind, spec_on_stream. fold (sub s).
    eapply spec_mono; [eapply (wr_write _ _ _ _ Hm); [exact Hp'| |exact Hw|by rewrite Hsp]|].
    + unfold inside, space. cbn. rewrite Hcb. repeat split; lia.
    + intros o s1 w1 (-> & [H1 H2 H3 H4 H5 H6 H7]). cbn in *.
      apply spec_bind, spec_get_stream, spec_bind, spec_put_stream. rewrite H4.
      rewrite Z.eqb_refl. apply spec_ret. split; [done|]. split; cbn; try done.
      rewrite u64_small; lia.
  - intros p s w Hp Hs Hw [Hl Hn]. destruct (Hr p Hp) as (H64 & _).
    pose proof Hs as (Hcb & Hb & Hx & Hlo & Hhi). unfold space in Hl.
    apply spec_bind, spec_get_stream. rewrite (u64_small d), u64_small by lia.
    rewrite (proj2 (Z.ltb_lt _ _)) by lia. by apply spec_fails; [apply fails_error|].
Qed.

Lemma sim_submessage fs src : Forall field_ok fs -> sim (pb_encode_submessage rec fs src).
Proof.
  intros Hfs. unfold pb_encode_submessage.
  eapply sim_sized with (K := fun _ size =>
    must pb_encode_varint (u64 size) ;;
    s <- get_stream ;;
    match o_callback s with
    | ONull => pb_write WNull size
    | _ => substream_pass fs src size s
    end); [by apply rec_sim| |by intros [] sub s w|].
  { by intros sub s w a s' w'. }
  intros wf [] d Hf Hd [_ Hsame].
  apply simw_announced; [done..|]. by apply writes_substream.
Qed.

Lemma sim_enc_submessage f p : sim (pb_enc_submessage rec f p).
Proof.
  unfold pb_enc_submessage. destruct (ptr f =? 0); [apply sim_error|].
  apply sim_on_fields. intros fs Hfs. by apply sim_submessage.
Qed.

Lemma sim_encoder n f p func :
  field_ok f -> PB_ENCODERS rec !! n = Some func -> sim (call_encoder func f p).
Proof.
  intros Hok E. apply list_elem_of_lookup_2 in E. unfold PB_ENCODERS in E.
  rewrite !elem_of_cons, elem_of_nil in E. destruct_or! E; rewrite ?E; cbn [call_encoder].
  - apply sim_bool.
  - apply sim_enc_varint.
  - apply sim_enc_uvarint.
  - apply sim_enc_svarint.
  - apply sim_fixed32.
  - apply sim_fixed64.
  - apply sim_enc_bytes.
  - apply sim_enc_string.
  - apply sim_enc_submessage.
  - apply sim_never, never_ub.
  - by apply sim_enc_fixed_length_bytes.
Qed.

(** The items of an array: counted or known in advance, then written. *)
Lemma sim_packed f p count func :
  field_ok f -> PB_ENCODERS rec !! Z.to_nat (PB_LTYPE (type f)) = Some func ->
  0 <= count < 2 ^ 32 ->
  let items := for_items (Z.to_nat count) p (data_size f) (call_encoder func f) in
  let size_first (size : Z) :=
    must pb_encode_varint (u64 size) ;;
    s <- get_stream ;;
    match o_callback s with ONull => pb_write WNull size | _ => items end in
  sim (size <-?
         (if PB_LTYPE (type f) =? PB_LTYPE_FIXED32 then ret (Some (u64 (4 * count)))
          else if PB_LTYPE (type f) =? PB_LTYPE_FIXED64 then ret (Some (u64 (8 * count)))
          else
            r <- on_stream PB_OSTREAM_SIZING items ;;
            match fst r with
            | Some _ => ret (Some (bytes_written (snd r)))
            | None => return_false
            end) ;;
       size_first size).
Proof.
  intros Hok Hfunc Hc items size_first.
  assert (forall k, 0 <= k ->
            (forall wf q, frozen wf wf -> writes wf (call_encoder func f q) tt k) ->
            sim (size_first (u64 (k * count)))) as Hfix.
  { intros k Hk Hw wf Hf. apply simw_announced with (K := fun _ => items); [done|nia|].
    eapply writes_run with (m' := items); [done..|].
    rewrite <- (Z2Nat.id count) at 1 by lia. apply writes_items; auto. }
  destruct (Z.eqb_spec (PB_LTYPE (type f)) PB_LTYPE_FIXED32) as [E|_].
  { rewrite E in Hfunc. injection Hfunc as <-. apply (Hfix 4); [done|apply writes_fixed32]. }
  destruct (Z.eqb_spec (PB_LTYPE (type f)) PB_LTYPE_FIXED64) as [E|_].
  { rewrite E in Hfunc. injection Hfunc as <-. apply (Hfix 8); [done|apply writes_fixed64]. }
  assert (sim items) as Hitems by (apply sim_items; intros q; by eapply sim_encoder).
  eapply sim_run with (m' := bind (on_stream PB_OSTREAM_SIZING items)
    (fun r => bindo (match fst r with
                     | Some _ => ret (Some (bytes_written (snd r)))
                     | None => return_false
                     end) size_first)).
  { intros s w. unfold bindo, bind. by destruct (on_stream _ _ s w) as [[[??]?]| |]. }
  eapply sim_sized with (K := fun _ => size_first); [done| |by intros [] sub s w|].
  { by intros sub s w a s' w'. }
  intros wf [] d Hf Hd [_ Hsame]. apply simw_announced with (K := fun _ => items); [done..|].
  by eapply writes_run with (m' := items).
Qed.

Lemma sim_array f p count func :
  field_ok f -> PB_ENCODERS rec !! Z.to_nat (PB_LTYPE (type f)) = Some func ->
  0 <= count < 2 ^ 32 -> sim (encode_array f p count func).
Proof.
  intros Hok Hfunc Hc. unfold encode_array.
  destruct (count =? 0); [apply sim_ret|].
  destruct (_ && _); [apply sim_error|].
  destruct (_ <=? _).
  - apply sim_bindo; [by apply sim_tag|]. intros _. by apply sim_packed.
  - apply sim_items. intros q. apply sim_bindo; [apply sim_tag_for_field|]. intros _.
    destruct (_ && _); [|by eapply sim_encoder].
    eapply sim_bind_reader; [apply reader_load_ptr|]. intros r _. by eapply sim_encoder.
Qed.

Lemma sim_basic f p : field_ok f -> sim (encode_basic_field rec fuel f p).
Proof.
  intros Hok. unfold encode_basic_field.
  eapply sim_bind_reader; [apply reader_of_option|]. intros func Hfunc.
  cbv beta in Hfunc.
  eapply sim_bind_reader; [instantiate (1 := fun _ => True)|].
  { change (reads (if negb (size_offset f =? 0) then ret (inl (p + size_offset f))
      else if PB_HTYPE (type f) =? PB_HTYPE_OPTIONAL then
        d <- pb_check_proto3_default_value fuel f p ;; ret (inr (negb d))
      else ret (inr true) : M ostream (Z + bool))). reads. apply reads_default. }
  intros psz _. eapply sim_bind_reader; [instantiate (1 := fun _ => True); reads|].
  intros [q sz] _. cbv zeta.
  assert (sim (must pb_encode_tag_for_field f ;; call_encoder func f q)) as Hpresent.
  { apply sim_bindo; [apply sim_tag_for_field|]. intros _. by eapply sim_encoder. }
  assert (reader (fun n => 0 <= n < 2 ^ 32) (match sz with inl a => load_u 4 a | inr _ => ub end))
    as Hsize by (destruct sz; [exact (reader_load_u 4 _)|apply reader_ub]).
  destruct (_ =? _). { destruct (q =? 0); [apply sim_error|done]. }
  destruct (_ =? _).
  { eapply sim_bind_reader; [instantiate (1 := fun _ => True); reads|].
    intros [] _; [done|apply sim_ret]. }
  destruct (_ =? _).
  { eapply sim_bind_reader; [|intros n Hn; apply sim_array; [done|done|exact Hn]].
    destruct (negb _); [done|]. eapply reader_weaken; [apply reader_ret|].
    intros n <-. apply Hok. }
  destruct (_ =? _); [|apply sim_error].
  eapply sim_bind_reader; [exact Hsize|]. intros n _. destruct (_ =? _); [done|apply sim_ret].
Qed.

Lemma sim_callback f p : sim (encode_callback_field f p).
Proof.
  eapply sim_bind_reader; [apply reader_load_ptr|]. intros fn _.
  destruct (negb _); [|apply sim_ret].
  apply sim_bind_opt; [apply cb_sim|apply fails_error|intros _; apply sim_ret].
Qed.

Lemma sim_field f p : field_ok f -> sim (encode_field rec fuel f p).
Proof.
  intros Hok. unfold encode_field. destruct (_ || _); [by apply sim_basic|].
  destruct (_ =? _); [apply sim_callback|apply sim_error].
Qed.

Lemma sim_default_extension ext : sim (default_extension_encoder rec fuel ext).
Proof.
  eapply sim_bind_reader; [apply reader_load_ptr|]. intros tp _.
  eapply sim_bind_reader; [apply reader_of_option|]. intros et _.
  apply sim_on_fields. intros fs Hfs.
  eapply sim_bind_reader; [apply reader_of_option|]. intros f Hf.
  assert (field_ok f) as Hok by (eapply Forall_lookup_1; [exact Hfs|exact Hf]).
  destruct (_ =? _); [by apply sim_field|].
  eapply sim_bind_reader; [apply reader_load_ptr|]. intros dest _. by apply sim_field.
Qed.

Lemma sim_extensions n ext : sim (extension_loop rec fuel n ext).
Proof.
  revert ext; induction n as [|n IH]; intros ext; cbn [extension_loop];
    (destruct (ext =? 0); [apply sim_ret|]); [apply sim_never, never_fuel|].
  eapply sim_bind_reader; [apply reader_load_ptr|]. intros tp _.
  eapply sim_bind_reader; [apply reader_of_option|]. intros et _.
  apply sim_bindo; [destruct (negb _); [apply ext_sim|apply sim_default_extension]|].
  intros _. eapply sim_bind_reader; [apply reader_load_ptr|]. intros next _. apply IH.
Qed.

Lemma next_fields it b it' : pb_field_iter_next it = Ret (b, it') -> it_fields it' = it_fields it.
Proof.
  unfold pb_field_iter_next, pb_field_iter_begin.
  repeat case_match; try done; intros E; simplify_eq; done.
Qed.

Lemma sim_do_fields n it body fs :
  (forall it, it_fields it = fs -> sim (body it)) -> it_fields it = fs ->
  sim (do_fields n it body).
Proof.
  intros Hb. revert it; induction n as [|n IH]; intros it Hit; cbn [do_fields];
    [apply sim_never, never_fuel|].
  apply sim_bindo; [by apply Hb|]. intros _.
  eapply sim_bind_reader; [apply reader_of_res|]. intros [b it'] E. cbn [fst snd].
  destruct b; [|apply sim_ret]. apply IH. rewrite <- Hit. by eapply next_fields.
Qed.

Lemma sim_body fs src : Forall field_ok fs -> sim (pb_encode_body rec fuel fs src).
Proof.
  intros Hfs. eapply sim_bind_reader; [apply reader_of_res|]. intros [b it] E. cbn [fst snd].
  destruct b; [|apply sim_ret]. apply (sim_do_fields _ _ _ fs).
  - intros it' Hit. eapply sim_bind_reader; [apply reader_cur|]. intros f Hf.
    rewrite Hit in Hf. assert (field_ok f) as Hok by (eapply Forall_lookup_1; [exact Hfs|exact Hf]).
    destruct (_ =? _); [|by apply sim_field].
    eapply sim_bind_reader; [apply reader_load_ptr|]. intros ext _. apply sim_extensions.
  - unfold pb_field_iter_begin in E. destruct (fs !! 0%nat); [|done]. by injection E as _ <-.
Qed.

End rec.

Lemma sim_encode fuel fs src : Forall field_ok fs -> sim (pb_encode fuel fs src).
Proof.
  revert fs src; induction fuel as [|fuel IH]; intros fs src Hfs; cbn [pb_encode];
    [apply sim_never, never_fuel|]. by apply sim_body.
Qed.

End sizing.

(** ** The theorem *)

(** The callbacks and extension encoders a user provides write what they count. *)
Definition faithful_callbacks `{PbEnv} (lo hi probe : Z) : Prop :=
  (forall f field arg, sim lo hi probe (cb_encode f field arg)) /\
  (forall f ext, sim lo hi probe (ext_encode f ext)).
Definition descriptors_ok `{PbEnv} : Prop :=
  forall p fs, fields_at p = Some fs -> Forall field_ok fs.
(** A stream to a callback without a limit. *)
Definition stream_to (f : Z) : ostream := OStream (OUser f) 0 (2 ^ 64 - 1) 0 None.

(** C2: What [pb_get_encoded_size] announces is what [pb_encode] writes.  Let [wf]
    be the part of memory that holds the message, and not the output buffer, let
    sizing succeed there, and let all that the message consists of be readable: a
    callback that only reads what it is given (the callback [probe]) meets nothing
    undefined when the message is encoded to it.  Then there is a size [d], which
    is the number announced (in a [size_t]), such that encoding the same message
    into an accessible buffer of at least [d] bytes is defined, succeeds, writes
    exactly [d] bytes from the start of the buffer, and changes nothing else; and
    encoding it into a smaller buffer is defined, returns false and changes nothing
    outside that buffer.  Sizing changes nothing. *)
Theorem encoded_size_exact `{PbEnv} {S} fuel fields src n buf bufsize probe wf w (s0 s1 : S) wf1 :
  descriptors_ok -> faithful_callbacks buf (buf + bufsize) probe -> Forall field_ok fields ->
  0 <= bufsize < 2 ^ 64 -> frozen buf (buf + bufsize) wf w -> accessible (w_mem w) buf bufsize ->
  pb_get_encoded_size fuel fields src s0 wf = Ret (Some n, s1, wf1) ->
  (forall b count s w, user_write probe b count s w = scan b count s w) ->
  pb_encode fuel fields src (stream_to probe) wf <> UB ->
  exists d, 0 <= d /\ n = u64 d /\
    pb_get_encoded_size fuel fields src s0 w = Ret (Some n, s0, w) /\
    (d <= bufsize ->
     spec False False (pb_encode fuel fields src)
       (fun o s' w' =>
          o = Some tt /\ bytes_written s' = d /\ o_state s' = buf + d /\
          (forall x, ~ (buf <= x < buf + d) -> w_mem w' !! x = w_mem w !! x) /\
          w_blocks w' = w_blocks w)
       (pb_ostream_from_buffer buf bufsize) w) /\
    (bufsize < d < 2 ^ 64 ->
     spec False False (pb_encode fuel fields src)
       (fun o s' w' =>
          o = None /\
          (forall x, ~ (buf <= x < buf + bufsize) -> w_mem w' !! x = w_mem w !! x) /\
          w_blocks w' = w_blocks w)
       (pb_ostream_from_buffer buf bufsize) w).
Proof.
  intros Htab [Hcb Hext] Hfs Hsz Hw Hacc E Hscan Hread.
  assert (counting PB_OSTREAM_SIZING) as H0 by (split; [done|cbn; lia]).
  assert (inside buf (buf + bufsize) (pb_ostream_from_buffer buf bufsize)) as Hin.
  { unfold inside, space. cbn. repeat split; lia. }
  assert (target buf (buf + bufsize) wf w) as Ht.
  { split; [done|]. by replace (buf + bufsize - buf) with bufsize by lia. }
  assert (probing probe (stream_to probe)) as Hp by (split; [done|cbn; lia]).
  unfold pb_get_encoded_size, bind, on_stream in E.
  destruct (pb_encode fuel fields src PB_OSTREAM_SIZING wf) as [[[[[]|] t] wf2]| |] eqn:Em; try done.
  injection E as <- <- <-.
  destruct (sim_encode buf (buf + bufsize) probe Hscan Htab Hcb Hext fuel fields src Hfs wf
              (frozen_refl _ _ _ _ Hw) _ _ _ _ H0 Em) as (-> & d & Hd & [_ Hc] & [H1 [_ H2 H3]]).
  cbn in Hc. exists d. split; [done|]. split; [done|]. split; [|split].
  - destruct (H1 _ w H0 Hw) as (t' & E' & [_ Hc']). unfold pb_get_encoded_size.
    erewrite bind_ret_run by (by apply on_stream_run). cbn [fst snd]. by rewrite Hc, Hc'.
  - intros Hl. eapply spec_mono.
    + apply (H2 (stream_to probe)); [|done..|unfold space; cbn; lia].
      split; [done|]. split; [unfold space; cbn; lia|done].
    + intros o s' w' (-> & [_ Hst _ Hb Hmem _ Hbl]). cbn in *. by rewrite Hst, Hb.
  - intros Hl. eapply spec_mono.
    + apply (H3 (stream_to probe)); [|done..|unfold too_large, space; cbn; lia].
      split; [done|]. split; [unfold space; cbn; lia|done].
    + intros o s' w' (-> & Hmem & Hbl). split; [done|]. split; [|done].
      intros x Hx. apply Hmem. unfold space. cbn. lia.
Qed.

(** A sample message: 150, a timestamp of 5 s and 7 ns, and the items 3 and 200. *)
Definition sample_message : bytes :=
  [150; 0; 0; 0; 1; 0; 0; 0; 5; 0; 0; 0; 0; 0; 0; 0; 7; 0; 0; 0; 0; 0; 0; 0;
   2; 0; 0; 0; 3; 0; 0; 0; 200; 0; 0; 0; 0; 0; 0; 0; 0; 0; 0; 0].

Lemma sample_descriptors_ok : descriptors_ok.
Proof.
  intros p fs. unfold fields_at, sample_env, sample_tables.
  repeat case_match; try done; intros [= <-]; repeat constructor; by cbn.
Qed.
Lemma sample_callbacks lo hi probe : faithful_callbacks lo hi probe.
Proof. split; intros; apply sim_never, never_ub. Qed.

Lemma sample_frozen n :
  frozen 2000 (2000 + n) (world_of 1000 sample_message 2000 0)
    (world_of 1000 sample_message 2000 (Z.to_nat n)).
Proof.
  split; [apply world_of_ok; repeat constructor; by vm_compute|].
  intros x c Hx. destruct (world_of_part _ _ _ (Z.to_nat n) _ _ Hx) as [Hc Hr].
  split; [done|]. change (length sample_message) with 44%nat in Hr. lia.
Qed.

Lemma encoded_size_exact_witness :
  exists d, 0 <= d /\ 14 = u64 d /\
    pb_get_encoded_size 3 Sample_fields 1000 tt (world_of 1000 sample_message 2000 14) =
      Ret (Some 14, tt, world_of 1000 sample_message 2000 14) /\
    (d <= 14 ->
     spec False False (pb_encode 3 Sample_fields 1000)
       (fun o s' w' =>
          o = Some tt /\ bytes_written s' = d /\ o_state s' = 2000 + d /\
          (forall x, ~ (2000 <= x < 2000 + d) ->
             w_mem w' !! x = w_mem (world_of 1000 sample_message 2000 14) !! x) /\
          w_blocks w' = w_blocks (world_of 1000 sample_message 2000 14))
       (pb_ostream_from_buffer 2000 14) (world_of 1000 sample_message 2000 14)) /\
    (14 < d < 2 ^ 64 ->
     spec False False (pb_encode 3 Sample_fields 1000)
       (fun o s' w' =>
          o = None /\
          (forall x, ~ (2000 <= x < 2000 + 14) ->
             w_mem w' !! x = w_mem (world_of 1000 sample_message 2000 14) !! x) /\
          w_blocks w' = w_blocks (world_of 1000 sample_message 2000 14))
       (pb_ostream_from_buffer 2000 14) (world_of 1000 sample_message 2000 14)).
Proof.
  apply (encoded_size_exact 3 Sample_fields 1000 14 2000 14 1
           (world_of 1000 sample_message 2000 0) (world_of 1000 sample_message 2000 14)
           tt tt (world_of 1000 sample_message 2000 0)).
  - apply sample_descriptors_ok.
  - apply sample_callbacks.
  - repeat constructor; by vm_compute.
  - lia.
  - apply (sample_frozen 14).
  - apply (world_of_accessible 1000 sample_message 2000 14).
  - vm_compute. reflexivity.
  - done.
  - vm_compute. discriminate.
Defined.
