(* ===== verification/PbDecode.v ===== *)
(** * nanopb: the message decoder (pb_decode.c)

    Field decoders, default values, release, static, pointer and callback
    fields, extensions and [pb_decode].  As in [PbEncode] the recursion through
    submessages is opened ([rec] decodes one nesting level down) and closed on a
    fuel. *)
From Stdlib Require Import ZArith Lia.
From stdpp Require Import prelude strings gmap list numbers.
From S2P Require Import Prelude CMem PbCommon PbStream PbScalar PbEncode.
Local Open Scope Z_scope.
Local Open Scope c_scope.

(** A C function that returns nothing. *)
Definition lift_unit {S} (m : M S unit) : M S (option unit) := m ;; return_true.

Section decode.
Context `{PbEnv} `{Allocator}.

Definition decoder := pb_field -> Z -> M istream (option unit).

(** [*(pb_size_t* )pSize] and the assignment to it; a write to the local
    [fixed_count_size] is a new iterator. *)
Definition read_pSize {S} (it : field_iter) : M S Z :=
  match pSize it with SizeAt a => load_u 4 a | SizeLocal v => ret v end.
Definition write_pSize {S} (it : field_iter) (v : Z) : M S field_iter :=
  match pSize it with
  | SizeAt a => store_u 4 a v ;; ret it
  | SizeLocal _ =>
      ret (Iter (it_fields it) (pos it) (required_field_index it) (dest_struct it)
                (pData it) (SizeLocal (u32 v)))
  end.
(** [iter->pSize != iter->pData] *)
Definition pSize_is_pData (it : field_iter) : bool :=
  match pSize it with SizeAt a => a =? pData it | SizeLocal _ => false end.
(** [*(bool* )iter->pSize = b]; a local count is not a bool. *)
Definition write_has {S} (it : field_iter) (b : Z) : M S unit :=
  match pSize it with SizeAt a => store_u 1 a b | SizeLocal _ => ub end.

(** [PB_BYTES_ARRAY_T_ALLOCSIZE(n)]: the bytes start at offset 4. *)
Definition PB_BYTES_ARRAY_T_ALLOCSIZE (n : Z) : Z := u64 (n + 4).

(** ** Allocation *)

Definition allocate_field (pData data_size array_size : Z) : M istream (option unit) :=
  ptr <- load_ptr pData ;;
  if (data_size =? 0) || (array_size =? 0) then PB_RETURN_ERROR "invalid size"
  else
    let check_limit := Z.shiftl 1 32 in
    let size_max := 2 ^ 64 - 1 in
    if ((check_limit <=? data_size) || (check_limit <=? array_size)) &&
       (size_max / array_size <? data_size)
    then PB_RETURN_ERROR "size too large"
    else
      p <- m_realloc ptr (u64 (array_size * data_size)) ;;
      if p =? 0 then PB_RETURN_ERROR "realloc failed"
      else store_ptr pData p ;; return_true.

(** ** Field decoders *)

Definition pb_dec_bool : decoder := fun field dest =>
  value <-? pb_decode_varint32 ;;
  store_u 1 dest (if negb (value =? 0) then 1 else 0) ;; return_true.
Definition pb_decode_bool (dest : Z) : M istream (option unit) :=
  pb_dec_bool PB_LAST_FIELD dest.

(** Stores [svalue] in the declared size and reads the result back; [None] for
    a size no integer has. *)
Definition store_clamped (sgn : Z -> Z -> Z) (field : pb_field) (dest svalue : Z) :
    option (M istream Z) :=
  if data_size field =? 8 then Some (store_u 8 dest svalue ;; ret (sgn 64 svalue))
  else if data_size field =? 4 then Some (store_u 4 dest svalue ;; ret (sgn 32 svalue))
  else if data_size field =? 2 then Some (store_u 2 dest svalue ;; ret (sgn 16 svalue))
  else if data_size field =? 1 then Some (store_u 1 dest svalue ;; ret (sgn 8 svalue))
  else None.

Definition pb_dec_varint : decoder := fun field dest =>
  value <-? pb_decode_varint ;;
  let svalue := if data_size field =? 8 then s64 value else s32 value in
  match store_clamped swrap field dest svalue with
  | None => PB_RETURN_ERROR "invalid data_size"
  | Some st =>
      clamped <- st ;;
      if negb (clamped =? svalue) then PB_RETURN_ERROR "integer too large"
      else return_true
  end.

Definition pb_dec_uvarint : decoder := fun field dest =>
  value <-? pb_decode_varint ;;
  match store_clamped wrap field dest value with
  | None => PB_RETURN_ERROR "invalid data_size"
  | Some st =>
      clamped <- st ;;
      if negb (clamped =? value) then PB_RETURN_ERROR "integer too large"
      else return_true
  end.

Definition pb_dec_svarint : decoder := fun field dest =>
  value <-? pb_decode_svarint ;;
  match store_clamped swrap field dest value with
  | None => PB_RETURN_ERROR "invalid data_size"
  | Some st =>
      clamped <- st ;;
      if negb (clamped =? value) then PB_RETURN_ERROR "integer too large"
      else return_true
  end.

Definition pb_dec_fixed32 : decoder := fun field dest => pb_decode_fixed32 dest.
Definition pb_dec_fixed64 : decoder := fun field dest => pb_decode_fixed64 dest.

Definition pb_dec_bytes : decoder := fun field dest =>
  size <-? pb_decode_varint32 ;;
  if PB_SIZE_MAX <? size then PB_RETURN_ERROR "bytes overflow"
  else
    let alloc_size := PB_BYTES_ARRAY_T_ALLOCSIZE size in
    if alloc_size <? size then PB_RETURN_ERROR "size too large"
    else
      bdest <-?
        (if PB_ATYPE (type field) =? PB_ATYPE_POINTER then
           s <- get_stream ;;
           if bytes_left s <? size then PB_RETURN_ERROR "end-of-stream"
           else must allocate_field dest alloc_size 1 ;; p <- load_ptr dest ;; ret (Some p)
         else if data_size field <? alloc_size then PB_RETURN_ERROR "bytes overflow"
         else ret (Some dest)) ;;
      store_u 4 bdest size ;;
      must pb_read (RMem (bdest + 4)) size ;; return_true.

Definition pb_dec_string : decoder := fun field dest =>
  size <-? pb_decode_varint32 ;;
  let alloc_size := u32 (size + 1) in
  if alloc_size <? size then PB_RETURN_ERROR "size too large"
  else
    dest <-?
      (if PB_ATYPE (type field) =? PB_ATYPE_POINTER then
         s <- get_stream ;;
         if bytes_left s <? size then PB_RETURN_ERROR "end-of-stream"
         else must allocate_field dest alloc_size 1 ;; p <- load_ptr dest ;; ret (Some p)
       else if data_size field <? alloc_size then PB_RETURN_ERROR "string overflow"
       else ret (Some dest)) ;;
    status <- pb_read (RMem dest) size ;;
    store_u 1 (dest + size) 0 ;;
    ret (match status with Some _ => Some tt | None => None end).

Definition pb_dec_fixed_length_bytes : decoder := fun field dest =>
  size <-? pb_decode_varint32 ;;
  if PB_SIZE_MAX <? size then PB_RETURN_ERROR "bytes overflow"
  else if size =? 0 then c_memset dest 0 (data_size field) ;; return_true
  else if negb (size =? data_size field)
  then PB_RETURN_ERROR "incorrect fixed length bytes size"
  else must pb_read (RMem dest) (data_size field) ;; return_true.

(** ** Extensions: the fields of [pb_extension_t] *)

Definition ext_field {S} (extension : Z) : M S (list pb_field) :=
  tp <- load_ptr extension ;;
  et <- of_option (ext_type_at tp) ;;
  of_option (fields_at (et_arg et)).

Definition iter_from_extension {S} (extension : Z) : M S field_iter :=
  fields <- ext_field extension ;;
  dest <- load_ptr (extension + 8) ;;
  x <- of_res (pb_field_iter_begin fields dest) ;;
  let it := snd x in
  field <- of_option (fields !! 0%nat) ;;
  let d := if PB_ATYPE (type field) =? PB_ATYPE_POINTER then extension + 8 else dest in
  ret (Iter (it_fields it) (pos it) (required_field_index it) (dest_struct it)
            d (SizeAt (extension + 24))).

(** ** Default values

    [fld] is [pb_field_set_to_default] with the remaining fuel. *)

Definition pb_message_set_to_defaults_with {S} (fld : field_iter -> M S unit)
    (fields : list pb_field) (dest : Z) : M S unit :=
  x <- of_res (pb_field_iter_begin fields dest) ;;
  if fst x : bool then
    do_fields (length fields) (snd x) (fun it => lift_unit (fld it)) ;; ret tt
  else ret tt.

(** [while (ext != NULL) { body; ext = ext->next; }] *)
Fixpoint while_ext {S} (n : nat) (ext : Z) (body : Z -> M S unit) : M S unit :=
  if ext =? 0 then ret tt
  else
    match n with
    | O => out_of_fuel
    | S k => body ext ;; next <- load_ptr (ext + 16) ;; while_ext k next body
    end.

Fixpoint pb_field_set_to_default {S} (fuel : nat) (it : field_iter) : M S unit :=
  match fuel with
  | O => out_of_fuel
  | S k =>
      f <- cur_field it ;;
      let t := type f in
      if PB_LTYPE t =? PB_LTYPE_EXTENSION then
        ext <- load_ptr (pData it) ;;
        while_ext k ext (fun ext =>
          store_u 1 (ext + 24) 0 ;;
          ext_iter <- iter_from_extension ext ;;
          pb_field_set_to_default k ext_iter)
      else if PB_ATYPE t =? PB_ATYPE_STATIC then
        init_data <-
          (if (PB_HTYPE t =? PB_HTYPE_OPTIONAL) && negb (pSize_is_pData it) then
             write_has it 0 ;; ret true
           else if (PB_HTYPE t =? PB_HTYPE_REPEATED) || (PB_HTYPE t =? PB_HTYPE_ONEOF) then
             write_pSize it 0 ;; ret false
           else ret true) ;;
        if init_data : bool then
          if PB_LTYPE t =? PB_LTYPE_SUBMESSAGE then
            fields <- of_option (fields_at (ptr f)) ;;
            pb_message_set_to_defaults_with (pb_field_set_to_default k) fields (pData it)
          else if negb (ptr f =? 0) then c_memcpy (pData it) (ptr f) (data_size f)
          else c_memset (pData it) 0 (data_size f)
        else ret tt
      else if PB_ATYPE t =? PB_ATYPE_POINTER then
        store_ptr (pData it) 0 ;;
        if (PB_HTYPE t =? PB_HTYPE_REPEATED) || (PB_HTYPE t =? PB_HTYPE_ONEOF)
        then write_pSize it 0 ;; ret tt
        else ret tt
      else ret tt
  end.

Definition pb_message_set_to_defaults {S} (fuel : nat) (fields : list pb_field) (dest : Z) :
    M S unit :=
  pb_message_set_to_defaults_with (pb_field_set_to_default fuel) fields dest.

(** ** Release *)

Definition pb_release_with {S} (single : field_iter -> M S unit)
    (fields : list pb_field) (dest : Z) : M S unit :=
  if dest =? 0 then ret tt
  else
    x <- of_res (pb_field_iter_begin fields dest) ;;
    if fst x : bool then
      do_fields (length fields) (snd x) (fun it => lift_unit (single it)) ;; ret tt
    else ret tt.

(** [for (; count > 0; count--) { f(pItem); pItem += step; }] *)
Definition release_items {S} (count p step : Z) (f : Z -> M S unit) : M S unit :=
  for_items (Z.to_nat count) p step (fun q => lift_unit (f q)) ;; ret tt.

Fixpoint pb_release_single_field {S} (fuel : nat) (it : field_iter) : M S unit :=
  match fuel with
  | O => out_of_fuel
  | S k =>
      f <- cur_field it ;;
      let t := type f in
      current <-
        (if PB_HTYPE t =? PB_HTYPE_ONEOF then
           which <- read_pSize it ;; ret (which =? tag f)
         else ret true) ;;
      if negb current then ret tt
      else
        (if PB_LTYPE t =? PB_LTYPE_EXTENSION then
           ext <- load_ptr (pData it) ;;
           while_ext k ext (fun ext =>
             ext_iter <- iter_from_extension ext ;;
             pb_release_single_field k ext_iter)
         else if (PB_LTYPE t =? PB_LTYPE_SUBMESSAGE) &&
                 negb (PB_ATYPE t =? PB_ATYPE_CALLBACK) then
           pItem <- (if PB_ATYPE t =? PB_ATYPE_POINTER then load_ptr (pData it)
                     else ret (pData it)) ;;
           count <-
             (if PB_HTYPE t =? PB_HTYPE_REPEATED then
                c <- (if (PB_ATYPE t =? PB_ATYPE_STATIC) && pSize_is_pData it
                      then ret (array_size f) else read_pSize it) ;;
                ret (if (PB_ATYPE t =? PB_ATYPE_STATIC) && (array_size f <? c)
                     then array_size f else c)
              else ret 1) ;;
           if negb (pItem =? 0) then
             fields <- of_option (fields_at (ptr f)) ;;
             release_items count pItem (data_size f)
               (pb_release_with (pb_release_single_field k) fields)
           else ret tt
         else ret tt) ;;
        if PB_ATYPE t =? PB_ATYPE_POINTER then
          (if (PB_HTYPE t =? PB_HTYPE_REPEATED) &&
              ((PB_LTYPE t =? PB_LTYPE_STRING) || (PB_LTYPE t =? PB_LTYPE_BYTES)) then
             pItem <- load_ptr (pData it) ;;
             count <- read_pSize it ;;
             release_items count pItem 8 (fun p =>
               q <- load_ptr p ;; m_free q ;; store_ptr p 0)
           else ret tt) ;;
          (if PB_HTYPE t =? PB_HTYPE_REPEATED then write_pSize it 0 ;; ret tt
           else ret tt) ;;
          p <- load_ptr (pData it) ;;
          m_free p ;;
          store_ptr (pData it) 0
        else ret tt
  end.

Definition pb_release {S} (fuel : nat) (fields : list pb_field) (dest : Z) : M S unit :=
  pb_release_with (pb_release_single_field fuel) fields dest.

(** Release of the field a oneof held before; the iterator ends where it was. *)
Definition pb_release_union_field (fuel : nat) (it : field_iter) :
    M istream (option field_iter) :=
  f <- cur_field it ;;
  old_tag <- read_pSize it ;;
  let new_tag := tag f in
  if (old_tag =? 0) || (old_tag =? new_tag) then ret (Some it)
  else
    x <- of_res (pb_field_iter_find it old_tag) ;;
    if negb (fst x) then PB_RETURN_ERROR "invalid union tag"
    else
      pb_release_single_field fuel (snd x) ;;
      y <- of_res (pb_field_iter_find (snd x) new_tag) ;;
      if negb (fst y) then PB_RETURN_ERROR "iterator error"
      else
        g <- cur_field (snd y) ;;
        (if PB_ATYPE (type g) =? PB_ATYPE_POINTER
         then store_ptr (pData (snd y)) 0 else ret tt) ;;
        ret (Some (snd y)).

(** ** Messages *)

(** A local array of the caller that a callback is given the address of: a
    fresh range of memory for the duration of the call. *)
Definition with_local {S A} (bs : bytes) (k : Z -> M S A) : M S A :=
  fun s w =>
    match choose w (Z.of_nat (length bs)) with
    | None => OutOfFuel
    | Some a =>
        match k a s (set_mem (alloc_range (w_mem w) a (map Some bs)) w) with
        | Ret (x, s', w') => Ret (x, s', set_mem (free_range (w_mem w') a (length bs)) w')
        | UB => UB
        | OutOfFuel => OutOfFuel
        end
    end.

Section rec.
(** [pb_decode_noinit] one level down, and the fuel left there. *)
Context (rec : list pb_field -> Z -> M istream (option unit)) (fuel : nat).

Definition pb_decode_with (noinit : list pb_field -> Z -> M istream (option unit))
    (fields : list pb_field) (dest : Z) : M istream (option unit) :=
  pb_message_set_to_defaults fuel fields dest ;;
  status <- noinit fields dest ;;
  (match status with
   | None => pb_release fuel fields dest
   | Some _ => ret tt
   end) ;;
  ret status.

Definition pb_dec_submessage : decoder := fun field dest =>
  substream <-? pb_make_string_substream ;;
  if ptr field =? 0 then PB_RETURN_ERROR "invalid field descriptor"
  else
    submsg_fields <- of_option (fields_at (ptr field)) ;;
    r <- on_stream substream
           (if PB_HTYPE (type field) =? PB_HTYPE_REPEATED
            then pb_decode_with rec submsg_fields dest
            else rec submsg_fields dest) ;;
    let '(status, substream) := r in
    must pb_close_string_substream substream ;;
    ret status.

Definition PB_DECODERS : list (option decoder) :=
  [ Some pb_dec_bool; Some pb_dec_varint; Some pb_dec_uvarint; Some pb_dec_svarint;
    Some pb_dec_fixed32; Some pb_dec_fixed64; Some pb_dec_bytes; Some pb_dec_string;
    Some pb_dec_submessage; None; Some pb_dec_fixed_length_bytes ].

Definition call_decoder (func : option decoder) : decoder := fun field dest =>
  match func with Some f => f field dest | None => ub end.

(** The loop over a packed array of a static field, on the substream: the
    status and the iterator. *)
Fixpoint static_packed_loop (n : nat) (f : pb_field) (func : option decoder)
    (it : field_iter) : M istream (option unit * field_iter) :=
  s <- get_stream ;;
  if 0 <? bytes_left s then
    size <- read_pSize it ;;
    if size <? array_size f then
      match n with
      | O => out_of_fuel
      | S k =>
          o <- call_decoder func f (pData it + u32 (data_size f * size)) ;;
          match o with
          | None => ret (None, it)
          | Some _ =>
              size <- read_pSize it ;;
              it <- write_pSize it (u32 (size + 1)) ;;
              static_packed_loop k f func it
          end
      end
    else ret (Some tt, it)
  else ret (Some tt, it).

Definition decode_static_field (wire_type : Z) (it : field_iter) :
    M istream (option field_iter) :=
  f <- cur_field it ;;
  let t := type f in
  func <- of_option (PB_DECODERS !! Z.to_nat (PB_LTYPE t)) ;;
  let h := PB_HTYPE t in
  if h =? PB_HTYPE_REQUIRED then
    must call_decoder func f (pData it) ;; ret (Some it)
  else if h =? PB_HTYPE_OPTIONAL then
    (if negb (pSize_is_pData it) then write_has it 1 else ret tt) ;;
    must call_decoder func f (pData it) ;; ret (Some it)
  else if h =? PB_HTYPE_REPEATED then
    if (wire_type =? PB_WT_STRING) && (PB_LTYPE t <=? PB_LTYPE_LAST_PACKABLE) then
      substream <-? pb_make_string_substream ;;
      r <- on_stream substream
             (static_packed_loop (S (Z.to_nat (bytes_left substream))) f func it) ;;
      let '((status, it), substream) := r in
      if negb (bytes_left substream =? 0) then PB_RETURN_ERROR "array overflow"
      else
        must pb_close_string_substream substream ;;
        match status with Some _ => ret (Some it) | None => return_false end
    else
      size <- read_pSize it ;;
      let pItem := pData it + u32 (data_size f * size) in
      it <- write_pSize it (u32 (size + 1)) ;;
      if array_size f <=? size then PB_RETURN_ERROR "array overflow"
      else must call_decoder func f pItem ;; ret (Some it)
  else if h =? PB_HTYPE_ONEOF then
    which <- read_pSize it ;;
    (if (PB_LTYPE t =? PB_LTYPE_SUBMESSAGE) && negb (which =? tag f) then
       c_memset (pData it) 0 (data_size f) ;;
       fields <- of_option (fields_at (ptr f)) ;;
       pb_message_set_to_defaults fuel fields (pData it)
     else ret tt) ;;
    it <- write_pSize it (tag f) ;;
    must call_decoder func f (pData it) ;; ret (Some it)
  else PB_RETURN_ERROR "invalid field type".

Definition initialize_pointer_field {S} (pItem : Z) (f : pb_field) : M S unit :=
  let t := type f in
  if (PB_LTYPE t =? PB_LTYPE_STRING) || (PB_LTYPE t =? PB_LTYPE_BYTES)
  then store_ptr pItem 0
  else if PB_LTYPE t =? PB_LTYPE_SUBMESSAGE then
    c_memset pItem 0 (data_size f) ;;
    fields <- of_option (fields_at (ptr f)) ;;
    pb_message_set_to_defaults fuel fields pItem
  else ret tt.

(** The loop over a packed array of a pointer field.  The error of a full
    array goes to the message's stream, so it is part of the result. *)
Fixpoint pointer_packed_loop (n : nat) (f : pb_field) (func : option decoder)
    (it : field_iter) (allocated_size : Z) :
    M istream (option unit * option string * field_iter) :=
  s <- get_stream ;;
  if bytes_left s =? 0 then ret (Some tt, None, it)
  else
    match n with
    | O => out_of_fuel
    | S k =>
        size <- read_pSize it ;;
        if size =? PB_SIZE_MAX
        then ret (None, Some "too many array entries"%string, it)
        else
          a <- (if allocated_size <? size + 1 then
                  let remain := u64 (Z.quot (u64 (bytes_left s - 1)) (data_size f) + 1) in
                  let allocated_size :=
                    if remain <? u64 (PB_SIZE_MAX - allocated_size)
                    then u64 (allocated_size + remain) else u64 (allocated_size + 1) in
                  (if data_size f =? 0 then ub else ret tt) ;;
                  must allocate_field (pData it) (data_size f) allocated_size ;;
                  ret (Some allocated_size)
                else ret (Some allocated_size)) ;;
          match a with
          | None => ret (None, None, it)
          | Some allocated_size =>
              base <- load_ptr (pData it) ;;
              let pItem := base + u32 (data_size f * size) in
              if pItem =? 0 then ret (None, None, it)
              else
                initialize_pointer_field pItem f ;;
                o <- call_decoder func f pItem ;;
                match o with
                | None => ret (None, None, it)
                | Some _ =>
                    size <- read_pSize it ;;
                    it <- write_pSize it (u32 (size + 1)) ;;
                    pointer_packed_loop k f func it allocated_size
                end
          end
    end.

Definition decode_pointer_field (wire_type : Z) (it : field_iter) :
    M istream (option field_iter) :=
  f <- cur_field it ;;
  let t := type f in
  func <- of_option (PB_DECODERS !! Z.to_nat (PB_LTYPE t)) ;;
  let h := PB_HTYPE t in
  if (h =? PB_HTYPE_REQUIRED) || (h =? PB_HTYPE_OPTIONAL) || (h =? PB_HTYPE_ONEOF) then
    (if PB_LTYPE t =? PB_LTYPE_SUBMESSAGE then
       p <- load_ptr (pData it) ;;
       if negb (p =? 0) then pb_release_single_field fuel it else ret tt
     else ret tt) ;;
    it <- (if h =? PB_HTYPE_ONEOF then write_pSize it (tag f) else ret it) ;;
    if (PB_LTYPE t =? PB_LTYPE_STRING) || (PB_LTYPE t =? PB_LTYPE_BYTES) then
      must call_decoder func f (pData it) ;; ret (Some it)
    else
      must allocate_field (pData it) (data_size f) 1 ;;
      p <- load_ptr (pData it) ;;
      initialize_pointer_field p f ;;
      must call_decoder func f p ;; ret (Some it)
  else if h =? PB_HTYPE_REPEATED then
    if (wire_type =? PB_WT_STRING) && (PB_LTYPE t <=? PB_LTYPE_LAST_PACKABLE) then
      allocated_size <- read_pSize it ;;
      substream <-? pb_make_string_substream ;;
      r <- on_stream substream
             (pointer_packed_loop (S (Z.to_nat (bytes_left substream))) f func it
                                  allocated_size) ;;
      let '((status, err, it), substream) := r in
      s <- get_stream ;;
      put_stream (match err with Some e => set_err (Some e) s | None => s end) ;;
      must pb_close_string_substream substream ;;
      match status with Some _ => ret (Some it) | None => return_false end
    else
      size <- read_pSize it ;;
      if size =? PB_SIZE_MAX then PB_RETURN_ERROR "too many array entries"
      else
        must allocate_field (pData it) (data_size f) (u32 (size + 1)) ;;
        base <- load_ptr (pData it) ;;
        let pItem := base + u32 (data_size f * size) in
        it <- write_pSize it (u32 (size + 1)) ;;
        initialize_pointer_field pItem f ;;
        must call_decoder func f pItem ;; ret (Some it)
  else PB_RETURN_ERROR "invalid field type".

(** [do { ... } while (substream.bytes_left)], on the substream. *)
Fixpoint callback_loop (n : nat) (fn : Z) (f : pb_field) (arg : Z) :
    M istream (option unit) :=
  match n with
  | O => out_of_fuel
  | S k =>
      must cb_decode fn f arg ;;
      s <- get_stream ;;
      if bytes_left s =? 0 then return_true else callback_loop k fn f arg
  end.

Definition decode_callback_field (wire_type : Z) (it : field_iter) :
    M istream (option field_iter) :=
  f <- cur_field it ;;
  fn <- (if pData it =? 0 then ret 0 else load_ptr (pData it)) ;;
  if fn =? 0 then must pb_skip_field wire_type ;; ret (Some it)
  else
    let arg := pData it + 8 in
    if wire_type =? PB_WT_STRING then
      substream <-? pb_make_string_substream ;;
      r <- on_stream substream
             (callback_loop (fuel + S (Z.to_nat (bytes_left substream))) fn f arg) ;;
      let '(o, substream) := r in
      match o with
      | None => PB_RETURN_ERROR "callback failed"
      | Some _ => must pb_close_string_substream substream ;; ret (Some it)
      end
    else
      buffer <-? read_raw_value wire_type 10 ;;
      r <- with_local buffer (fun a =>
             on_stream (pb_istream_from_buffer a (Z.of_nat (length buffer)))
                       (cb_decode fn f arg)) ;;
      match fst r with Some _ => ret (Some it) | None => return_false end.

Definition decode_field (wire_type : Z) (it : field_iter) : M istream (option field_iter) :=
  f <- cur_field it ;;
  it <-? (if PB_HTYPE (type f) =? PB_HTYPE_ONEOF then pb_release_union_field fuel it
          else ret (Some it)) ;;
  f <- cur_field it ;;
  let a := PB_ATYPE (type f) in
  if a =? PB_ATYPE_STATIC then decode_static_field wire_type it
  else if a =? PB_ATYPE_POINTER then decode_pointer_field wire_type it
  else if a =? PB_ATYPE_CALLBACK then decode_callback_field wire_type it
  else PB_RETURN_ERROR "invalid field type".

Definition default_extension_decoder (extension tag wire_type : Z) :
    M istream (option unit) :=
  fields <- ext_field extension ;;
  field <- of_option (fields !! 0%nat) ;;
  if negb (PbCommon.tag field =? tag) then return_true
  else
    it <- iter_from_extension extension ;;
    store_u 1 (extension + 24) 1 ;;
    must decode_field wire_type it ;; return_true.

Fixpoint decode_extension_loop (n : nat) (start extension tag wire_type : Z) :
    M istream (option unit) :=
  s <- get_stream ;;
  if negb (extension =? 0) && (start =? bytes_left s) then
    match n with
    | O => out_of_fuel
    | S k =>
        tp <- load_ptr extension ;;
        et <- of_option (ext_type_at tp) ;;
        must (if negb (et_decode et =? 0)
              then ext_decode (et_decode et) extension tag wire_type
              else default_extension_decoder extension tag wire_type) ;;
        next <- load_ptr (extension + 16) ;;
        decode_extension_loop k start next tag wire_type
    end
  else return_true.

Definition decode_extension (tag wire_type : Z) (it : field_iter) : M istream (option unit) :=
  extension <- load_ptr (pData it) ;;
  s <- get_stream ;;
  decode_extension_loop fuel (bytes_left s) extension tag wire_type.

Fixpoint find_extension_loop (n : nat) (start : nat) (it : field_iter) :
    res (bool * field_iter) :=
  match n with
  | O => OutOfFuel
  | S k =>
      match it_fields it !! pos it with
      | None => UB
      | Some f =>
          if PB_LTYPE (type f) =? PB_LTYPE_EXTENSION then Ret (true, it)
          else
            match pb_field_iter_next it with
            | Ret (_, it') =>
                if (pos it' =? start)%nat then Ret (false, it')
                else find_extension_loop k start it'
            | UB => UB
            | OutOfFuel => OutOfFuel
            end
      end
  end.

Definition find_extension_field (it : field_iter) : res (bool * field_iter) :=
  find_extension_loop (length (it_fields it)) (pos it) it.

(** The locals of [pb_decode_noinit]. *)
Record dec_state := DecState {
  d_iter : field_iter;
  fields_seen : Z * Z;              (** two 32-bit words *)
  extension_range_start : Z;
  fixed_count_field : option nat;   (** an entry of the descriptor array *)
  fixed_count_size : Z
}.

Definition set_iter (it : field_iter) (d : dec_state) : dec_state :=
  DecState it (fields_seen d) (extension_range_start d) (fixed_count_field d)
           (fixed_count_size d).

Definition mark_seen (index : Z) (seen : Z * Z) : Z * Z :=
  let tmp := u32 (Z.shiftl 1 (Z.land index 31)) in
  if Z.shiftr index 5 =? 0 then (Z.lor (fst seen) tmp, snd seen)
  else (fst seen, Z.lor (snd seen) tmp).

(** [fixed_count_size != fixed_count_field->array_size] for a field in progress. *)
Definition fixed_count_wrong {S} (d : dec_state) : M S bool :=
  match fixed_count_field d with
  | None => ret false
  | Some k =>
      f <- of_option (it_fields (d_iter d) !! k) ;;
      ret (negb (fixed_count_size d =? array_size f))
  end.

(** A field without an entry: the extension, if there is one, or skipped. *)
Definition decode_unknown (tag wire_type : Z) (d : dec_state) : M istream (option dec_state) :=
  x <- (if extension_range_start d <=? tag then
          y <- of_res (find_extension_field (d_iter d)) ;;
          let '(found, it) := y in
          f <- cur_field it ;;
          let start := if found : bool then PbCommon.tag f else 2 ^ 32 - 1 in
          let d := DecState it (fields_seen d) start (fixed_count_field d)
                            (fixed_count_size d) in
          if start <=? tag then
            s <- get_stream ;;
            must decode_extension tag wire_type it ;;
            s' <- get_stream ;;
            ret (Some (d, negb (bytes_left s =? bytes_left s')))
          else ret (Some (d, false))
        else ret (Some (d, false))) ;;
  match x with
  | None => return_false
  | Some (d, true) => ret (Some d)
  | Some (d, false) => must pb_skip_field wire_type ;; ret (Some d)
  end.

(** A field with an entry. *)
Definition decode_known (wire_type : Z) (d : dec_state) : M istream (option dec_state) :=
  let it := d_iter d in
  f <- cur_field it ;;
  d <-? (if (PB_HTYPE (type f) =? PB_HTYPE_REPEATED) && pSize_is_pData it then
           let cont := fun fcf fcs =>
             ret (Some (DecState
               (Iter (it_fields it) (pos it) (required_field_index it) (dest_struct it)
                     (pData it) (SizeLocal fcs))
               (fields_seen d) (extension_range_start d) fcf fcs)) in
           if bool_decide (fixed_count_field d = Some (pos it))
           then cont (fixed_count_field d) (fixed_count_size d)
           else
             wrong <- fixed_count_wrong d ;;
             if wrong : bool then PB_RETURN_ERROR "wrong size for fixed count field"
             else cont (Some (pos it)) 0
         else ret (Some d)) ;;
  let seen :=
    if (PB_HTYPE (type f) =? PB_HTYPE_REQUIRED) &&
       (required_field_index it <? PB_MAX_REQUIRED_FIELDS)
    then mark_seen (required_field_index it) (fields_seen d) else fields_seen d in
  it <-? decode_field wire_type (d_iter d) ;;
  let fcs := match pSize it with SizeLocal v => v | SizeAt _ => fixed_count_size d end in
  ret (Some (DecState it seen (extension_range_start d) (fixed_count_field d) fcs)).

(** [while (stream->bytes_left)] *)
Fixpoint decode_loop (n : nat) (d : dec_state) : M istream (option dec_state) :=
  s <- get_stream ;;
  if bytes_left s =? 0 then ret (Some d)
  else
    match n with
    | O => out_of_fuel
    | S k =>
        t <- pb_decode_tag ;;
        if negb (t_ok t) then (if t_eof t then ret (Some d) else return_false)
        else
          x <- of_res (pb_field_iter_find (d_iter d) (t_tag t)) ;;
          let d := set_iter (snd x) d in
          d <-? (if negb (fst x) then decode_unknown (t_tag t) (t_wire_type t) d
                 else decode_known (t_wire_type t) d) ;;
          decode_loop k d
    end.

(** [do { req_field_count = ...; last_type = ...; } while (pb_field_iter_next(&iter))] *)
Fixpoint seek_end (n : nat) (it : field_iter) : res (Z * Z * field_iter) :=
  match n with
  | O => OutOfFuel
  | S k =>
      match it_fields it !! pos it with
      | None => UB
      | Some f =>
          match pb_field_iter_next it with
          | Ret (true, it') => seek_end k it'
          | Ret (false, it') => Ret (required_field_index it, type f, it')
          | UB => UB
          | OutOfFuel => OutOfFuel
          end
      end
  end.

(** The words of [fields_seen] against the number of required fields. *)
Definition required_seen (req_field_count : Z) (seen : Z * Z) : bool :=
  let allbits := 2 ^ 32 - 1 in
  let word := fun i => if i =? 0 then fst seen else snd seen in
  if 0 <? req_field_count then
    forallb (fun i => word (Z.of_nat i) =? allbits)
            (seq 0 (Z.to_nat (Z.shiftr req_field_count 5))) &&
    (if negb (Z.land req_field_count 31 =? 0) then
       word (Z.shiftr req_field_count 5) =?
         Z.shiftr allbits (32 - Z.land req_field_count 31)
     else true)
  else true.

Definition check_required (d : dec_state) : M istream (option unit) :=
  x <- of_res (seek_end (length (it_fields (d_iter d))) (d_iter d)) ;;
  let '(count, last_type, it) := x in
  f <- cur_field it ;;
  let count :=
    if (PB_HTYPE last_type =? PB_HTYPE_REQUIRED) && negb (tag f =? 0)
    then u32 (count + 1) else count in
  let count := if PB_MAX_REQUIRED_FIELDS <? count then PB_MAX_REQUIRED_FIELDS else count in
  if required_seen count (fields_seen d) then return_true
  else PB_RETURN_ERROR "missing required field".

Definition pb_decode_noinit_body (fields : list pb_field) (dest : Z) :
    M istream (option unit) :=
  x <- of_res (pb_field_iter_begin fields dest) ;;
  s <- get_stream ;;
  d <-? decode_loop (S (Z.to_nat (bytes_left s))) (DecState (snd x) (0, 0) 0 None 0) ;;
  wrong <- fixed_count_wrong d ;;
  if wrong : bool then PB_RETURN_ERROR "wrong size for fixed count field"
  else check_required d.

End rec.

Fixpoint pb_decode_noinit (fuel : nat) (fields : list pb_field) (dest : Z) :
    M istream (option unit) :=
  match fuel with
  | O => out_of_fuel
  | S k => pb_decode_noinit_body (pb_decode_noinit k) k fields dest
  end.

Definition pb_decode (fuel : nat) (fields : list pb_field) (dest : Z) :
    M istream (option unit) :=
  pb_decode_with fuel (pb_decode_noinit fuel) fields dest.

Definition pb_decode_delimited_noinit (fuel : nat) (fields : list pb_field) (dest : Z) :
    M istream (option unit) :=
  substream <-? pb_make_string_substream ;;
  r <- on_stream substream (pb_decode_noinit fuel fields dest) ;;
  let '(status, substream) := r in
  must pb_close_string_substream substream ;;
  ret status.

Definition pb_decode_delimited (fuel : nat) (fields : list pb_field) (dest : Z) :
    M istream (option unit) :=
  substream <-? pb_make_string_substream ;;
  r <- on_stream substream (pb_decode fuel fields dest) ;;
  let '(status, substream) := r in
  must pb_close_string_substream substream ;;
  ret status.

Definition pb_decode_nullterminated (fuel : nat) (fields : list pb_field) (dest : Z) :
    M istream (option unit) :=
  pb_decode fuel fields dest.

End decode.
