(* ===== verification/PbIter.v ===== *)
(** * nanopb: the iterator and the required-field check are right

    Two small algorithms of nanopb that everything else relies on: the walk and
    the search of pb_common.c, against the position of each field in the
    structure, and the bit set in which [pb_decode_noinit] remembers the required
    fields it has seen, against the set it stands for. *)
From Stdlib Require Import ZArith Lia.
From stdpp Require Import prelude strings gmap list numbers.
From S2P Require Import Prelude CMem PbCommon PbStream PbConcrete PbScalar PbEncode PbDecode.
Local Open Scope Z_scope.

(** ** The iterator *)

(** [pb_field_iter_begin] on a well-formed descriptor array starts at the first
    field, and tells whether there is one; from field [k], [pb_field_iter_next]
    goes to field [k + 1], or back to the first one with the answer false after
    the last; at every field the pointers and the number of required fields before
    it are those of the structure's layout. *)
Theorem iter_walk fs n dest k it :
  wf_fields fs n -> dest <> 0 -> (k < n)%nat -> Z.of_nat n < 2 ^ 32 ->
  iter_at fs dest k it -> size_at fs dest k it ->
  (exists it0, pb_field_iter_begin fs dest = Ret (true, it0) /\
               iter_at fs dest 0 it0 /\ size_at fs dest 0 it0) /\
  exists it', pb_field_iter_next it = Ret ((S k <? n)%nat, it') /\
    iter_at fs dest (S k mod n) it' /\ size_at fs dest (S k mod n) it'.
Proof.
  intros Hwf Hd Hk Hn Hat Hsz. split.
  - destruct (begin_at fs n dest Hwf Hd) as (it0 & E & H1 & H2). exists it0.
    rewrite E. destruct n; [lia|]. done.
  - destruct (next_at fs n dest k it Hwf Hd Hk Hn Hat) as (it' & E & H1 & H2). eauto.
Qed.

(** [pb_field_iter_find], from any field of a well-formed descriptor array,
    ends; it answers true at a field with the wanted tag that is not an extension,
    with the pointers of that field, and false only if there is none. *)
Theorem iter_find_correct fs n dest t k it :
  wf_fields fs n -> dest <> 0 -> Z.of_nat n < 2 ^ 32 -> (k < n)%nat ->
  iter_at fs dest k it -> size_at fs dest k it ->
  exists b it' j, pb_field_iter_find it t = Ret (b, it') /\ (j < n)%nat /\
    iter_at fs dest j it' /\ size_at fs dest j it' /\
    (b = true -> exists f, fs !! j = Some f /\ tag f = t /\
                           PB_LTYPE (type f) <> PB_LTYPE_EXTENSION) /\
    (b = false -> forall i f, (i < n)%nat -> fs !! i = Some f -> tag f = t ->
                              PB_LTYPE (type f) = PB_LTYPE_EXTENSION).
Proof.
  intros Hwf Hd Hn Hk Hat Hsz.
  destruct (find_at fs n dest t true k it Hwf Hd Hn Hk Hat (fun _ => Hsz))
    as (b & it' & E & j & Hj & H1 & H2 & H3).
  exists b, it', j. split; [done|]. split; [done|]. split; [done|]. split; [auto|].
  unfold matches in H3. split; intros ->.
  - destruct H3 as (f & Hf & Hm). exists f. split; [done|].
    apply andb_prop in Hm as [Ht Hl]. apply Z.eqb_eq in Ht. apply negb_true_iff, Z.eqb_neq in Hl.
    done.
  - intros i f Hi Hf Ht. specialize (H3 i f Hi Hf).
    apply andb_false_iff in H3 as [H3|H3]; [by apply Z.eqb_neq in H3|].
    by apply negb_false_iff, Z.eqb_eq in H3.
Qed.

(** ** The required fields *)

(** The bits of the two words, as one number of 64 bits. *)
Definition seen_bit (seen : Z * Z) (i : Z) : bool :=
  if i <? 32 then Z.testbit (fst seen) i else Z.testbit (snd seen) (i - 32).

Lemma land_31 i : Z.land i 31 = i mod 32.
Proof. by apply (Z.land_ones i 5). Qed.
Lemma shiftr_5 i : Z.shiftr i 5 = i / 32.
Proof. by apply (Z.shiftr_div_pow2 i 5). Qed.

Lemma mark_seen_low i seen : 0 <= i < 32 -> mark_seen i seen = (Z.lor (fst seen) (2 ^ i), snd seen).
Proof.
  intros Hi. unfold mark_seen.
  rewrite land_31, shiftr_5, Z.mod_small, Z.div_small, Z.shiftl_1_l by lia. cbn [Z.eqb].
  unfold u32. rewrite wrap_small; [done|]. split; [lia|apply Z.pow_lt_mono_r; lia].
Qed.
Lemma mark_seen_high i seen :
  32 <= i < 64 -> mark_seen i seen = (fst seen, Z.lor (snd seen) (2 ^ (i - 32))).
Proof.
  intros Hi. unfold mark_seen.
  rewrite land_31, shiftr_5, Z.shiftl_1_l by lia.
  replace (i mod 32) with (i - 32) by (Z.div_mod_to_equations; lia).
  replace (i / 32) with 1 by (Z.div_mod_to_equations; lia). cbn [Z.eqb].
  unfold u32. rewrite wrap_small; [done|]. split; [lia|apply Z.pow_lt_mono_r; lia].
Qed.

Lemma seen_bit_mark i j seen :
  0 <= i < 64 -> 0 <= j < 64 -> seen_bit (mark_seen i seen) j = (i =? j) || seen_bit seen j.
Proof.
  intros Hi Hj. unfold seen_bit. destruct (Z.lt_ge_cases i 32).
  - rewrite mark_seen_low by lia. cbn [fst snd]. destruct (Z.ltb_spec j 32).
    + rewrite Z.lor_spec, Z.pow2_bits_eqb by lia. apply orb_comm.
    + by rewrite (proj2 (Z.eqb_neq i j)) by lia.
  - rewrite mark_seen_high by lia. cbn [fst snd]. destruct (Z.ltb_spec j 32).
    + by rewrite (proj2 (Z.eqb_neq i j)) by lia.
    + rewrite Z.lor_spec, Z.pow2_bits_eqb by lia. rewrite orb_comm. f_equal.
      apply Bool.eq_iff_eq_true. rewrite !Z.eqb_eq. lia.
Qed.

Definition words32 (seen : Z * Z) : Prop := 0 <= fst seen < 2 ^ 32 /\ 0 <= snd seen < 2 ^ 32.
Lemma words32_mark i seen : 0 <= i < 64 -> words32 seen -> words32 (mark_seen i seen).
Proof.
  intros Hi [H1 H2]. destruct (Z.lt_ge_cases i 32).
  - rewrite mark_seen_low by lia. split; [|done]. apply lor_range; [lia|done|].
    split; [lia|apply Z.pow_lt_mono_r; lia].
  - rewrite mark_seen_high by lia. split; [done|]. apply lor_range; [lia|done|].
    split; [lia|apply Z.pow_lt_mono_r; lia].
Qed.

(** The fields of [idxs] seen. *)
Definition seen_of (idxs : list Z) : Z * Z := foldr mark_seen (0, 0) idxs.

Lemma seen_of_bit idxs j :
  Forall (fun i => 0 <= i < 64) idxs -> 0 <= j < 64 ->
  seen_bit (seen_of idxs) j = bool_decide (j ∈ idxs).
Proof.
  intros Hi Hj. induction Hi as [|i idxs Hi Hr IH]; cbn [seen_of foldr].
  - unfold seen_bit. cbn. by rewrite !Z.bits_0, Tauto.if_same.
  - rewrite seen_bit_mark by done. fold (seen_of idxs). rewrite IH.
    apply Bool.eq_iff_eq_true. rewrite orb_true_iff, Z.eqb_eq, !bool_decide_eq_true, elem_of_cons.
    split; intros [?|?]; auto.
Qed.
Lemma seen_of_words idxs : Forall (fun i => 0 <= i < 64) idxs -> words32 (seen_of idxs).
Proof.
  induction 1 as [|i idxs Hi Hr IH]; cbn [seen_of foldr]; [by split; cbn|].
  by apply words32_mark.
Qed.

(** A word whose bits from [r] on are clear is full when those below are set. *)
Lemma word_full w r :
  0 <= w < 2 ^ 32 -> 0 <= r <= 32 -> (forall b, r <= b < 32 -> Z.testbit w b = false) ->
  (w =? Z.shiftr (2 ^ 32 - 1) (32 - r)) = true <->
  (forall b, 0 <= b < r -> Z.testbit w b = true).
Proof.
  intros Hw Hr Hc. rewrite Z.eqb_eq.
  replace (Z.shiftr (2 ^ 32 - 1) (32 - r)) with (Z.ones r)
    by (change (2 ^ 32 - 1) with (Z.ones 32);
        rewrite Z.shiftr_div_pow2, Z.ones_div_pow2 by lia; f_equal; lia).
  split.
  - intros -> b Hb. rewrite Z.ones_spec_low; [done|lia].
  - intros Hb. apply Z.bits_inj'. intros n Hn. destruct (Z.lt_ge_cases n r).
    + rewrite Z.ones_spec_low by lia. apply Hb. lia.
    + rewrite Z.ones_spec_high by lia. destruct (Z.lt_ge_cases n 32); [apply Hc; lia|].
      rewrite <- (Z.mod_small w (2 ^ 32)) by done. apply Z.mod_pow2_bits_high. lia.
Qed.

Lemma word_all w :
  0 <= w < 2 ^ 32 ->
  (w =? 2 ^ 32 - 1) = true <-> (forall b, 0 <= b < 32 -> Z.testbit w b = true).
Proof. intros Hw. apply (word_full w 32); [done|lia|intros; lia]. Qed.

Lemma word_part w r :
  0 <= w < 2 ^ 32 -> 0 <= r < 32 -> (forall b, r <= b < 32 -> Z.testbit w b = false) ->
  (if negb (r =? 0) then w =? Z.shiftr (2 ^ 32 - 1) (32 - r) else true) = true <->
  (forall b, 0 <= b < r -> Z.testbit w b = true).
Proof.
  intros Hw Hr Hc. destruct (Z.eqb_spec r 0) as [->|]; cbn [negb]; [|apply word_full; [done|lia|done]].
  split; [intros _ b; lia|done].
Qed.

(** Bits of the two words in a range, word by word. *)
Lemma seen_bit_range v seen lo hi :
  0 <= lo ->
  (forall i, lo <= i < hi -> seen_bit seen i = v) <->
  (forall b, lo <= b < Z.min hi 32 -> Z.testbit (fst seen) b = v) /\
  (forall b, Z.max lo 32 - 32 <= b < hi - 32 -> Z.testbit (snd seen) b = v).
Proof.
  intros Hlo. unfold seen_bit. split.
  - intros Ha. split; intros b Hb; [specialize (Ha b ltac:(lia))|specialize (Ha (b + 32) ltac:(lia))].
    + by rewrite (proj2 (Z.ltb_lt b 32)) in Ha by lia.
    + rewrite (proj2 (Z.ltb_ge _ 32)) in Ha by lia. by replace (b + 32 - 32) with b in Ha by lia.
  - intros [H0 H1] b Hb. destruct (Z.ltb_spec b 32); [apply H0|apply H1]; lia.
Qed.

(** The check, when the bits from [count] on are clear. *)
Lemma required_seen_bits count seen :
  0 <= count <= 64 -> words32 seen ->
  (forall i, count <= i < 64 -> seen_bit seen i = false) ->
  required_seen count seen = true <-> (forall i, 0 <= i < count -> seen_bit seen i = true).
Proof.
  intros Hc [Hw0 Hw1]. rewrite !seen_bit_range by lia. intros [Hc0 Hc1].
  unfold required_seen. destruct (Z.ltb_spec 0 count) as [Hp|Hp];
    [|split; [intros _; split; intros; lia|done]].
  rewrite shiftr_5, land_31. pose proof (Z.div_mod count 32 ltac:(lia)) as Hdm.
  pose proof (Z.mod_pos_bound count 32 ltac:(lia)) as Hr.
  assert (count / 32 = 0 \/ count / 32 = 1 \/ count / 32 = 2) as [E|[E|E]]
    by (Z.div_mod_to_equations; lia); rewrite E in Hdm |- *; revert Hdm Hr;
    generalize (count mod 32); intros r -> Hr.
  - change (forallb _ _) with true. change (0 =? 0) with true. cbn [andb].
    rewrite word_part; [|done|done|intros; apply Hc0; lia].
    split; [intros Ha; split; intros; [apply Ha|]; lia|intros [Ha _] b Hb; apply Ha; lia].
  - change (forallb _ _) with ((fst seen =? 2 ^ 32 - 1) && true). change (1 =? 0) with false.
    rewrite andb_true_r, andb_true_iff, word_all, word_part;
      [|done|done|intros; apply Hc1; lia|done].
    split; intros [H0 H1]; (split; intros b Hb; [apply H0|apply H1]; lia).
  - assert (r = 0) as -> by lia.
    change (forallb _ _) with ((fst seen =? 2 ^ 32 - 1) && ((snd seen =? 2 ^ 32 - 1) && true)).
    change (negb (0 =? 0)) with false. cbv iota.
    rewrite !andb_true_r, andb_true_iff, !word_all by done.
    split; intros [H0 H1]; (split; intros b Hb; [apply H0|apply H1]; lia).
Qed.

(** C38: The check for required fields at the end of [pb_decode_noinit].  After the
    fields with numbers [idxs] (among the first [count] required ones) have been
    marked in the bit set, in any order and any number of times, the check accepts
    exactly if every one of the [count] fields is among them. *)
Theorem required_check_correct count idxs :
  0 <= count <= PB_MAX_REQUIRED_FIELDS -> Forall (fun i => 0 <= i < count) idxs ->
  required_seen count (seen_of idxs) = true <-> (forall i, 0 <= i < count -> i ∈ idxs).
Proof.
  unfold PB_MAX_REQUIRED_FIELDS. intros Hc Hi.
  assert (Forall (fun i => 0 <= i < 64) idxs) as Hi64.
  { revert Hi. apply List.Forall_impl. lia. }
  assert (forall i, 0 <= i < 64 -> seen_bit (seen_of idxs) i = true <-> i ∈ idxs) as Hbit.
  { intros i Hr. by rewrite seen_of_bit, bool_decide_eq_true. }
  rewrite required_seen_bits; [|done|by apply seen_of_words|].
  - split; intros Ha i Hr; apply Hbit, Ha; lia.
  - intros i Hr. apply not_true_iff_false. rewrite Hbit by lia. intros Hin.
    apply list_elem_of_In in Hin. rewrite Forall_forall in Hi. specialize (Hi i Hin). lia.
Qed.

(** ** Witnesses *)

Lemma Sample_fields_wf : wf_fields Sample_fields 3.
Proof.
  split; [done|]. split; [|by exists PB_LAST_FIELD].
  intros k f Hf Hk. by destruct k as [|[|[|k]]]; [injection Hf as <-..|lia].
Qed.

(** At the second field of a structure at 5000. *)
Definition sample_iter : field_iter := Iter Sample_fields 1 1 5000 5008 (SizeAt 5004).
Lemma sample_iter_at : iter_at Sample_fields 5000 1 sample_iter.
Proof. by split. Qed.

Lemma iter_walk_witness :
  (exists it0, pb_field_iter_begin Sample_fields 5000 = Ret (true, it0) /\
    iter_at Sample_fields 5000 0 it0 /\ size_at Sample_fields 5000 0 it0) /\
    exists it', pb_field_iter_next sample_iter = Ret (true, it') /\
    iter_at Sample_fields 5000 2 it' /\ size_at Sample_fields 5000 2 it'.
Proof.
  apply (iter_walk Sample_fields 3 5000 1 sample_iter Sample_fields_wf);
    [lia|lia|by vm_compute|apply sample_iter_at|reflexivity].
Defined.

Lemma iter_find_correct_witness :
  exists b it' j, pb_field_iter_find sample_iter 1 = Ret (b, it') /\ (j < 3)%nat /\
    iter_at Sample_fields 5000 j it' /\ size_at Sample_fields 5000 j it' /\
    (b = true -> exists f, Sample_fields !! j = Some f /\ tag f = 1 /\
    PB_LTYPE (type f) <> PB_LTYPE_EXTENSION) /\
    (b = false -> forall i f, (i < 3)%nat -> Sample_fields !! i = Some f -> tag f = 1 ->
                              PB_LTYPE (type f) = PB_LTYPE_EXTENSION).
Proof.
  apply (iter_find_correct Sample_fields 3 5000 1 1 sample_iter Sample_fields_wf);
    [lia|by vm_compute|lia|apply sample_iter_at|reflexivity].
Defined.

Lemma required_check_correct_witness :
  required_seen 34 (seen_of [33; 5; 33]) = true <-> (forall i, 0 <= i < 34 -> i ∈ [33; 5; 33]).
Proof.
  apply (required_check_correct 34 [33; 5; 33]); [by vm_compute|repeat constructor; lia].
Defined.
