(* ===== verification/PbPosition.v ===== *)
(** * nanopb: the decoder's position in its input

    Every function of pb_decode.c, run on a buffer stream, leaves the stream
    inside its buffer: the read position only moves forward, never past the
    end, and when the function returns true position and [bytes_left] still add
    up to the same end of input (the substreams of submessages, packed arrays
    and callbacks included).  The proof is one compositional predicate with a
    rule per construct and a hint per function. *)
From Stdlib Require Import ZArith Lia.
From stdpp Require Import prelude strings gmap list numbers.
From S2P Require Import Prelude CMem PbCommon PbStream PbScalar PbEncode PbDecode.
Local Open Scope Z_scope.
Local Open Scope c_scope.

(** A buffer stream. *)
Definition ibuf (s : istream) : Prop := i_callback s = IBuf /\ 0 <= bytes_left s < 2 ^ 64.

(** [s'] is [s] moved on; if [ex] holds, the end of the input is the same. *)
Record moved (ex : Prop) (s s' : istream) : Prop := {
  mv_cb : i_callback s' = i_callback s;
  mv_state : i_state s <= i_state s';
  mv_left : 0 <= bytes_left s' <= bytes_left s;
  mv_end : i_state s' + bytes_left s' <= i_state s + bytes_left s;
  mv_exact : ex -> i_state s' + bytes_left s' = i_state s + bytes_left s
}.

Lemma moved_refl ex s : 0 <= bytes_left s -> moved ex s s.
Proof. split; auto; lia. Qed.
Lemma moved_trans p q r s1 s2 s3 :
  moved p s1 s2 -> moved q s2 s3 -> (r -> p /\ q) -> moved r s1 s3.
Proof.
  intros [? ? ? ? H1] [? ? ? ? H2] H. split; try congruence; try lia.
  intros Hr. destruct (H Hr) as [Hp Hq]. rewrite H2, H1; auto.
Qed.
Lemma moved_weaken (p q : Prop) s s' : moved p s s' -> (q -> p) -> moved q s s'.
Proof. intros [] H. split; auto. Qed.
Lemma moved_ibuf p s s' : moved p s s' -> ibuf s -> ibuf s'.
Proof. intros [] [? ?]. split; [congruence|lia]. Qed.

Section position.
Context `{PbEnv} `{Allocator}.

(** [m] keeps a buffer stream inside its buffer; [gd] tells the results after
    which the end of the input is where it was. *)
Definition keeps {A} (gd : A -> Prop) (m : M istream A) : Prop :=
  forall s w, ibuf s -> spec True True m (fun a s' _ => moved (gd a) s s') s w.
(** ... after every result, and after the results [Some _]. *)
Definition exact {A} (m : M istream A) : Prop := keeps (fun _ => True) m.
Definition exact_ok {A} (m : M istream (option A)) : Prop := keeps (fun o => o <> None) m.

Lemma exact_is_ok {A} (m : M istream (option A)) : exact m -> exact_ok m.
Proof.
  intros Hm s w Hs. eapply spec_mono; [by apply Hm|].
  intros a s' w' Hmv. eapply moved_weaken; [exact Hmv|auto].
Qed.

Lemma keeps_bind {A B} (gd : B -> Prop) (m : M istream A) (k : A -> M istream B) :
  exact m -> (forall a, keeps gd (k a)) -> keeps gd (bind m k).
Proof.
  intros Hm Hk s w Hs. apply spec_bind. eapply spec_mono; [by apply Hm|].
  intros a s' w' Hmv. eapply spec_mono; [by apply Hk, (moved_ibuf _ _ _ Hmv Hs)|].
  intros b s'' w'' Hmv'. eapply moved_trans; [exact Hmv|exact Hmv'|tauto].
Qed.

Lemma keeps_bindo {A B} (m : M istream (option A)) (k : A -> M istream (option B)) :
  exact_ok m -> (forall a, exact_ok (k a)) -> exact_ok (bindo m k).
Proof.
  intros Hm Hk s w Hs. apply spec_bindo. eapply spec_mono; [by apply Hm|].
  intros [a|] s' w' Hmv.
  - eapply spec_mono; [by apply Hk, (moved_ibuf _ _ _ Hmv Hs)|].
    intros b s'' w'' Hmv'. eapply moved_trans; [exact Hmv|exact Hmv'|]. done.
  - eapply moved_weaken; [exact Hmv|]. done.
Qed.

Lemma exact_bindo {A B} (m : M istream (option A)) (k : A -> M istream (option B)) :
  exact m -> (forall a, exact (k a)) -> exact (bindo m k).
Proof.
  intros Hm Hk. apply (keeps_bind (fun _ => True)); [done|].
  intros [a|]; [apply Hk|]. intros s w Hs. apply spec_ret, moved_refl, Hs.
Qed.

Lemma keeps_ret {A} gd (a : A) : keeps gd (ret a).
Proof. intros s w Hs. apply spec_ret, moved_refl, Hs. Qed.
Lemma keeps_get {B} gd (k : istream -> M istream B) :
  (forall s, keeps gd (k s)) -> keeps gd (bind get_stream k).
Proof.
  intros Hk s w Hs. apply spec_bind, spec_get_stream. by apply Hk.
Qed.
Lemma keeps_ub {A} (gd : A -> Prop) : keeps gd ub.
Proof. intros s w Hs. by apply spec_ub. Qed.
Lemma keeps_fuel {A} (gd : A -> Prop) : keeps gd out_of_fuel.
Proof. intros s w Hs. by apply spec_out_of_fuel. Qed.
Lemma keeps_of_option {A} (gd : A -> Prop) (o : option A) : keeps gd (of_option o).
Proof. intros s w Hs. apply spec_of_option; [|done]. intros a _. apply moved_refl, Hs. Qed.
Lemma keeps_of_res {A} (gd : A -> Prop) (r : res A) : keeps gd (of_res r).
Proof. intros s w Hs. apply spec_of_res; try done. intros a _. apply moved_refl, Hs. Qed.
Lemma keeps_on_stream {A T} gd (t : T) (m : M T A) : keeps gd (on_stream t m).
Proof.
  intros s w Hs. unfold spec, on_stream. destruct (m t w) as [[[a t'] w']| |]; try done.
  apply moved_refl, Hs.
Qed.

(** A computation that does not look at the stream. *)
Definition streamless {S A} (m : M S A) : Prop :=
  forall s w, match m s w with Ret (_, s', _) => s' = s | _ => True end.
Lemma keeps_streamless {A} gd (m : M istream A) : streamless m -> keeps gd m.
Proof.
  intros Hm s w Hs. specialize (Hm s w). unfold spec.
  destruct (m s w) as [[[a s'] w']| |]; try done. subst. apply moved_refl, Hs.
Qed.
Lemma streamless_bind {S A B} (m : M S A) (k : A -> M S B) :
  streamless m -> (forall a, streamless (k a)) -> streamless (bind m k).
Proof.
  intros Hm Hk s w. specialize (Hm s w). unfold bind.
  destruct (m s w) as [[[a s'] w']| |]; try done. subst. apply Hk.
Qed.
Lemma streamless_bindo {S A B} (m : M S (option A)) (k : A -> M S (option B)) :
  streamless m -> (forall a, streamless (k a)) -> streamless (bindo m k).
Proof. intros Hm Hk. apply streamless_bind; [done|]. intros [a|]; [apply Hk|done]. Qed.
Lemma streamless_ret {S A} (a : A) : streamless (S := S) (ret a).
Proof. done. Qed.
Lemma streamless_ub {S A} : streamless (S := S) (A := A) ub.
Proof. done. Qed.
Lemma streamless_fuel {S A} : streamless (S := S) (A := A) out_of_fuel.
Proof. done. Qed.
Lemma streamless_of_option {S A} (o : option A) : streamless (S := S) (of_option o).
Proof. intros s w. unfold of_option. by destruct o. Qed.
Lemma streamless_of_res {S A} (r : res A) : streamless (S := S) (of_res r).
Proof. intros s w. unfold of_res. by destruct r. Qed.
Lemma streamless_get_mem {S} : streamless (S := S) get_mem.
Proof. done. Qed.
Lemma streamless_put_mem {S} m : streamless (S := S) (put_mem m).
Proof. done. Qed.
Lemma streamless_free {S} p : streamless (S := S) (m_free p).
Proof. intros s w. unfold m_free. by destruct (c_free p w). Qed.
Lemma streamless_realloc {S} p n : streamless (S := S) (m_realloc p n).
Proof. intros s w. unfold m_realloc. by destruct (c_realloc p n w) as [[]| |]. Qed.

(** ** Streams and scalars *)

Lemma moved_set_err ex e s : 0 <= bytes_left s -> moved ex s (set_err e s).
Proof. split; cbn; auto; lia. Qed.

Lemma exact_error {A} msg : exact (A := option A) (PB_RETURN_ERROR msg).
Proof.
  intros s w Hs. unfold PB_RETURN_ERROR, PB_SET_ERROR, spec, bind, get_stream, put_stream, ret.
  destruct (get_err s); [apply moved_refl|apply moved_set_err]; apply Hs.
Qed.

Lemma spec_buf_read buf n s w :
  spec True True (buf_read buf n)
    (fun o s' _ => o <> None /\ s' = set_istate (i_state s + n) s) s w.
Proof.
  unfold buf_read. apply spec_bind, spec_get_stream, spec_bind, spec_put_stream.
  destruct buf as [|a|].
  - apply spec_ret. done.
  - apply spec_bind, spec_get_mem, spec_bind, spec_of_option; [|done]. intros m' _.
    apply spec_bind, spec_put_mem, spec_ret. done.
  - apply spec_bind. unfold load_bytes. apply spec_bind, spec_get_mem, spec_of_option; [|done].
    intros bs _. apply spec_ret. done.
Qed.

Lemma spec_call_read buf n s w :
  ibuf s ->
  spec True True (call_read buf n)
    (fun o s' _ => o <> None /\ s' = set_istate (i_state s + n) s) s w.
Proof.
  intros [Hcb _]. unfold call_read. apply spec_bind, spec_get_stream. rewrite Hcb.
  apply spec_buf_read.
Qed.

Lemma moved_read n s :
  ibuf s -> 0 <= n <= bytes_left s ->
  moved True s (set_bytes_left (u64 (bytes_left (set_istate (i_state s + n) s) - n))
                 (set_istate (i_state s + n) s)).
Proof.
  intros [Hcb Hb] Hn. cbn. unfold u64. rewrite wrap_small by lia.
  split; cbn; auto; try lia.
Qed.

Lemma exact_pb_read_some buf n : 0 <= n -> exact (pb_read_some buf n).
Proof.
  intros Hn s w Hs. unfold pb_read_some. apply spec_bind, spec_get_stream.
  destruct (Z.ltb_spec (bytes_left s) n); [by apply exact_error|].
  apply spec_bind. eapply spec_mono; [by apply spec_call_read|].
  intros o s' w' [Ho ->]. destruct o as [bs|]; [|done].
  apply spec_bind, spec_get_stream, spec_bind, spec_put_stream, spec_ret.
  apply moved_read; [done|lia].
Qed.

Lemma exact_readbyte : exact pb_readbyte.
Proof.
  intros s w Hs. unfold pb_readbyte. apply spec_bind, spec_get_stream.
  destruct (Z.eqb_spec (bytes_left s) 0); [by apply exact_error|].
  apply spec_bind. eapply spec_mono; [by apply spec_call_read|].
  intros o s' w' [Ho ->]. destruct o as [bs|]; [|done].
  apply spec_bind, spec_get_stream, spec_bind, spec_put_stream.
  assert (moved True s (set_bytes_left
    (u64 (bytes_left (set_istate (i_state s + 1) s) - 1)) (set_istate (i_state s + 1) s)))
    by (destruct Hs; apply moved_read; [done|lia]).
  destruct bs as [|b [|]]; [by apply spec_ub|by apply spec_ret|by apply spec_ub].
Qed.

Lemma exact_pb_read buf n : exact (pb_read buf n).
Proof.
  unfold pb_read. pose proof (wrap_range 64 n ltac:(lia)) as Hn. fold (u64 n) in Hn.
  destruct (u64 n =? 0); [apply keeps_ret|].
  intros s w Hs. apply spec_bind, spec_get_stream. pose proof Hs as [Hcb _]. rewrite Hcb.
  destruct buf; apply exact_pb_read_some; tauto || lia.
Qed.

(** The solver: one rule per construct, then the lemmas of [position]. *)
Create HintDb position.
Hint Resolve exact_error exact_readbyte exact_pb_read : position.

Ltac position_step :=
  match goal with
  | |- forall _, _ => intro
  | |- keeps _ (ret _) => apply keeps_ret
  | |- exact (ret _) => apply keeps_ret
  | |- exact_ok (ret _) => apply keeps_ret
  | |- _ (bind get_stream _) => apply keeps_get
  | |- exact_ok (bindo _ _) => apply keeps_bindo
  | |- exact (bindo _ _) => apply exact_bindo
  | |- exact_ok (bind _ _) => apply (keeps_bind (fun o => o <> None))
  | |- exact (bind _ _) => apply (keeps_bind (fun _ => True))
  | |- keeps (fun o => o <> None) ?m => change (exact_ok m)
  | |- keeps (fun _ => True) ?m => change (exact m)
  | |- _ ub => apply keeps_ub
  | |- _ out_of_fuel => apply keeps_fuel
  | |- _ (of_option _) => apply keeps_of_option
  | |- _ (of_res _) => apply keeps_of_res
  | |- _ (on_stream _ _) => apply keeps_on_stream
  | |- exact _ => solve [eauto with position]
  | |- exact_ok _ => solve [eauto with position]
  | |- exact_ok _ => apply exact_is_ok; solve [eauto with position]
  | |- _ (if ?b then _ else _) => destruct b
  | |- _ (match ?x with _ => _ end) => destruct x
  end.
Ltac position := repeat position_step.

Lemma exact_read_local n : exact (pb_read_local n).
Proof. unfold pb_read_local. position. Qed.
Lemma exact_return_true : exact return_true.
Proof. apply keeps_ret. Qed.
Lemma exact_return_false {A} : exact (return_false (A := A)).
Proof. apply keeps_ret. Qed.
Hint Resolve exact_read_local exact_return_true exact_return_false : position.

Lemma exact_varint32_loop n bp r : exact (varint32_loop n bp r).
Proof. revert bp r; induction n as [|n IH]; intros; cbn [varint32_loop]; position. Qed.
Hint Resolve exact_varint32_loop : position.
Lemma exact_varint32_eof : exact pb_decode_varint32_eof.
Proof. unfold pb_decode_varint32_eof. position. Qed.
Hint Resolve exact_varint32_eof : position.
Lemma exact_varint32 : exact pb_decode_varint32.
Proof. unfold pb_decode_varint32. position. Qed.
Lemma exact_varint64_loop n bp r : exact (varint64_loop n bp r).
Proof. revert bp r; induction n as [|n IH]; intros; cbn [varint64_loop]; position. Qed.
Hint Resolve exact_varint32 exact_varint64_loop : position.
Lemma exact_varint : exact pb_decode_varint.
Proof. unfold pb_decode_varint. position. Qed.
Lemma exact_skip_varint_loop n : exact (skip_varint_loop n).
Proof. induction n; cbn [skip_varint_loop]; position. Qed.
Hint Resolve exact_varint exact_skip_varint_loop : position.
Lemma exact_skip_string : exact pb_skip_string.
Proof. unfold pb_skip_string. position. Qed.
Lemma exact_decode_tag : exact pb_decode_tag.
Proof. unfold pb_decode_tag. position. Qed.
Lemma exact_skip_varint : exact pb_skip_varint.
Proof. unfold pb_skip_varint. position. Qed.
Hint Resolve exact_skip_string exact_decode_tag exact_skip_varint : position.
Lemma exact_skip_field wt : exact (pb_skip_field wt).
Proof. unfold pb_skip_field. position. Qed.
Lemma exact_raw_varint_loop n k acc : exact (raw_varint_loop n k acc).
Proof. revert acc; induction n; intros; cbn [raw_varint_loop]; position. Qed.
Hint Resolve exact_skip_field exact_raw_varint_loop : position.
Lemma exact_read_raw_value wt n : exact (read_raw_value wt n).
Proof. unfold read_raw_value. position. Qed.
Lemma exact_svarint : exact pb_decode_svarint.
Proof. unfold pb_decode_svarint. position. Qed.
Hint Resolve exact_read_raw_value exact_svarint : position.

(** ** Memory operations do not touch the stream *)

Create HintDb streamless.
Hint Resolve streamless_ret streamless_ub streamless_fuel streamless_of_option
  streamless_of_res streamless_get_mem streamless_put_mem streamless_free
  streamless_realloc : streamless.

Ltac streamless_step :=
  match goal with
  | |- forall _, _ => intro
  | |- streamless (bind _ _) => apply streamless_bind
  | |- streamless (bindo _ _) => apply streamless_bindo
  | |- streamless _ => solve [eauto with streamless]
  | |- streamless (if ?b then _ else _) => destruct b
  | |- streamless (match ?x with _ => _ end) => destruct x
  end.
Ltac streamless := repeat streamless_step.

Lemma streamless_load_bytes {S} a n : streamless (S := S) (load_bytes a n).
Proof. unfold load_bytes. streamless. Qed.
Lemma streamless_store_bytes {S} a bs : streamless (S := S) (store_bytes a bs).
Proof. unfold store_bytes. streamless. Qed.
Hint Resolve streamless_load_bytes streamless_store_bytes : streamless.
Lemma streamless_load_u {S} n a : streamless (S := S) (load_u n a).
Proof. unfold load_u. streamless. Qed.
Lemma streamless_store_u {S} n a v : streamless (S := S) (store_u n a v).
Proof. unfold store_u. streamless. Qed.
Hint Resolve streamless_load_u streamless_store_u : streamless.
Lemma streamless_load_ptr {S} a : streamless (S := S) (load_ptr a).
Proof. unfold load_ptr. streamless. Qed.
Lemma streamless_store_ptr {S} a p : streamless (S := S) (store_ptr a p).
Proof. unfold store_ptr. streamless. Qed.
Lemma streamless_memset {S} a b n : streamless (S := S) (c_memset a b n).
Proof. unfold c_memset. streamless. Qed.
Lemma streamless_memcpy {S} a b n : streamless (S := S) (c_memcpy a b n).
Proof. unfold c_memcpy. streamless. Qed.
Lemma streamless_cur {S} it : streamless (S := S) (cur_field it).
Proof. unfold cur_field. streamless. Qed.
Lemma streamless_read_pSize {S} it : streamless (S := S) (read_pSize it).
Proof. unfold read_pSize. streamless. Qed.
Hint Resolve streamless_load_ptr streamless_store_ptr streamless_memset streamless_memcpy
  streamless_cur streamless_read_pSize : streamless.
Lemma streamless_write_pSize {S} it v : streamless (S := S) (write_pSize it v).
Proof. unfold write_pSize. streamless. Qed.
Lemma streamless_write_has {S} it v : streamless (S := S) (write_has it v).
Proof. unfold write_has. streamless. Qed.
Lemma streamless_ext_field {S} e : streamless (S := S) (ext_field e).
Proof. unfold ext_field. streamless. Qed.
Hint Resolve streamless_write_pSize streamless_write_has streamless_ext_field : streamless.
Lemma streamless_iter_ext {S} e : streamless (S := S) (iter_from_extension e).
Proof. unfold iter_from_extension. streamless. Qed.
Hint Resolve streamless_iter_ext : streamless.

Lemma streamless_do_fields {S} n it (body : field_iter -> M S (option unit)) :
  (forall it, streamless (body it)) -> streamless (do_fields n it body).
Proof.
  intros Hb. revert it; induction n as [|n IH]; intros; cbn [do_fields]; [done|].
  streamless; apply Hb || idtac.
Qed.
Lemma streamless_lift {S} (m : M S unit) : streamless m -> streamless (lift_unit m).
Proof. intros. unfold lift_unit, return_true. streamless. Qed.
Lemma streamless_for_items {S} n p step (f : Z -> M S (option unit)) :
  (forall q, streamless (f q)) -> streamless (for_items n p step f).
Proof.
  intros Hf. revert p; induction n as [|n IH]; intros; cbn [for_items];
    [apply streamless_ret|]. apply streamless_bindo; auto.
Qed.
Lemma streamless_while_ext {S} n e (body : Z -> M S unit) :
  (forall q, streamless (body q)) -> streamless (while_ext n e body).
Proof.
  intros Hf. revert e; induction n as [|n IH]; intros; cbn [while_ext];
    destruct (e =? 0); streamless; apply Hf.
Qed.

Lemma streamless_defaults_with {S} (fld : field_iter -> M S unit) fields dest :
  (forall it, streamless (fld it)) ->
  streamless (pb_message_set_to_defaults_with fld fields dest).
Proof.
  intros Hf. unfold pb_message_set_to_defaults_with. streamless.
  apply streamless_do_fields. intros. by apply streamless_lift.
Qed.
Lemma streamless_default {S} n it : streamless (S := S) (pb_field_set_to_default n it).
Proof.
  revert it; induction n as [|n IH]; intros; cbn [pb_field_set_to_default]; [done|].
  streamless; first [apply streamless_while_ext; streamless | by apply streamless_defaults_with].
Qed.
Lemma streamless_defaults {S} n fields dest :
  streamless (S := S) (pb_message_set_to_defaults n fields dest).
Proof. apply streamless_defaults_with. intros. apply streamless_default. Qed.

Lemma streamless_release_with {S} (single : field_iter -> M S unit) fields dest :
  (forall it, streamless (single it)) -> streamless (pb_release_with single fields dest).
Proof.
  intros Hf. unfold pb_release_with. streamless.
  apply streamless_do_fields. intros. by apply streamless_lift.
Qed.
Lemma streamless_release_items {S} n p step (f : Z -> M S unit) :
  (forall q, streamless (f q)) -> streamless (release_items n p step f).
Proof.
  intros Hf. unfold release_items. streamless.
  apply streamless_for_items. intros. by apply streamless_lift.
Qed.
Lemma streamless_release_field {S} n it : streamless (S := S) (pb_release_single_field n it).
Proof.
  revert it; induction n as [|n IH]; intros; cbn [pb_release_single_field]; [done|].
  streamless; first
    [ apply streamless_while_ext; streamless
    | apply streamless_release_items; intros; by apply streamless_release_with
    | apply streamless_release_items; streamless ].
Qed.
Lemma streamless_release {S} n fields dest : streamless (S := S) (pb_release n fields dest).
Proof. apply streamless_release_with. intros. apply streamless_release_field. Qed.
Lemma streamless_init_pointer {S} n p f :
  streamless (S := S) (initialize_pointer_field n p f).
Proof.
  unfold initialize_pointer_field. streamless. apply streamless_defaults.
Qed.
Hint Resolve streamless_default streamless_defaults streamless_release_field
  streamless_release streamless_init_pointer : streamless.

(** ** Substreams *)

Lemma varint32_loop_range n bp r s w :
  0 <= r < 2 ^ 32 ->
  spec True True (varint32_loop n bp r)
    (fun o _ _ => match o with Some (v, _, _) => 0 <= v < 2 ^ 32 | None => True end) s w.
Proof.
  revert bp r s w; induction n as [|n IH]; intros bp r s w Hr; [by apply spec_out_of_fuel|].
  cbn [varint32_loop]. apply spec_bindo. unfold spec at 1.
  destruct (pb_readbyte s w) as [[[[b|] s'] w']| |]; try done.
  destruct (32 <=? bp).
  - destruct (_ && _).
    + unfold PB_RETURN_ERROR. apply spec_bind, spec_get_stream, spec_bind, spec_put_stream. done.
    + destruct (_ =? 0); [by apply spec_ret|by apply IH].
  - assert (0 <= Z.lor r (u32 (Z.shiftl (Z.land b 127) bp)) < 2 ^ 32) as Hl.
    { pose proof (wrap_range 32 (Z.shiftl (Z.land b 127) bp) ltac:(lia)) as Hx.
      fold (u32 (Z.shiftl (Z.land b 127) bp)) in Hx.
      split; [apply Z.lor_nonneg; lia|].
      destruct (Z.eq_dec (Z.lor r (u32 (Z.shiftl (Z.land b 127) bp))) 0) as [->|]; [lia|].
      apply Z.log2_lt_pow2.
      { assert (0 <= Z.lor r (u32 (Z.shiftl (Z.land b 127) bp))) by (apply Z.lor_nonneg; lia).
        lia. }
      rewrite Z.log2_lor by lia. apply Z.max_lub_lt.
      - destruct (Z.eq_dec r 0) as [->|]; [done|]. apply Z.log2_lt_pow2; lia.
      - destruct (Z.eq_dec (u32 (Z.shiftl (Z.land b 127) bp)) 0) as [->|]; [done|].
        apply Z.log2_lt_pow2; lia. }
    destruct (_ =? 0); [by apply spec_ret|by apply IH].
Qed.

Lemma varint32_range s w :
  spec True True pb_decode_varint32
    (fun o _ _ => match o with Some v => 0 <= v < 2 ^ 32 | None => True end) s w.
Proof.
  unfold pb_decode_varint32, pb_decode_varint32_eof. apply spec_bind, spec_bind.
  unfold spec at 1. destruct (pb_readbyte s w) as [[[[b|] s'] w']| |]; try done.
  apply spec_bind. destruct (Z.land b 128 =? 0).
  - do 2 apply spec_ret. cbn. apply wrap_range. lia.
  - apply spec_bind, spec_get_stream, spec_bindo. eapply spec_mono; [apply varint32_loop_range|].
    { change 0x7F with 127. rewrite land_7F. pose proof (Z.mod_pos_bound b 128). lia. }
    intros [[[v bp] byte]|] s2 w2 Hv; [|by do 2 apply spec_ret].
    cbv beta iota. destruct (_ && _).
    + unfold PB_RETURN_ERROR. apply spec_bind, spec_get_stream, spec_bind, spec_put_stream.
      by do 3 apply spec_ret.
    + by do 2 apply spec_ret.
Qed.

(** [s] was cut: [sub] is the piece, [s1] what is left, still at the piece's start. *)
Record cut (s s1 sub : istream) : Prop := {
  cut_cb : i_callback s1 = i_callback s /\ i_callback sub = i_callback s;
  cut_state : i_state s <= i_state s1 /\ i_state sub = i_state s1;
  cut_left : 0 <= bytes_left s1 /\ 0 <= bytes_left sub /\
             bytes_left s1 + bytes_left sub <= bytes_left s;
  cut_end : i_state sub + bytes_left sub + bytes_left s1 = i_state s + bytes_left s
}.

Lemma cut_ibuf s s1 sub : ibuf s -> cut s s1 sub -> ibuf s1 /\ ibuf sub.
Proof. intros [? ?] [[? ?] ? ? ?]. split; split; try congruence; lia. Qed.

Lemma cut_weak s s1 sub : cut s s1 sub -> moved False s s1.
Proof. intros [[? ?] ? ? ?]. split; try tauto; try congruence; lia. Qed.

Lemma cut_err s s1 sub e : cut s s1 sub -> cut s (set_err e s1) sub.
Proof. intros [[? ?] ? ? ?]. split; done. Qed.

Lemma spec_make s w :
  ibuf s ->
  spec True True pb_make_string_substream
    (fun o s1 _ => match o with Some sub => cut s s1 sub | None => moved True s s1 end) s w.
Proof.
  intros Hs. unfold pb_make_string_substream. apply spec_bindo.
  pose proof (exact_varint32 s w Hs) as H1. pose proof (varint32_range s w) as H2.
  unfold spec in H1, H2 |- *. destruct (pb_decode_varint32 s w) as [[[[n|] s0] w']| |]; try done.
  unfold bind, get_stream. destruct (Z.ltb_spec (bytes_left s0) n).
  - pose proof (exact_error (A := istream) "parent stream too short" s0 w'
      (moved_ibuf _ _ _ H1 Hs)) as He. unfold spec in He.
    assert (PB_RETURN_ERROR (A := istream) "parent stream too short" s0 w' =
      Ret (None, PB_SET_ERROR "parent stream too short" s0, w')) as Er by done.
    rewrite Er in He |- *. eapply moved_trans; [exact H1|exact He|tauto].
  - cbn. destruct H1 as [? ? ? ? H1]. specialize (H1 I). destruct Hs as [? ?].
    unfold u64. split; cbn; rewrite ?wrap_small by lia; try tauto; try lia; auto.
Qed.

Lemma spec_close U F s s1 sub sub' p w :
  ibuf s -> cut s s1 sub -> moved p sub sub' ->
  spec U F (pb_close_string_substream sub')
    (fun o s2 w2 => o <> None /\ moved p s s2 /\ w2 = w) s1 w.
Proof.
  intros Hs Hc Hm. destruct (cut_ibuf _ _ _ Hs Hc) as [_ Hsub].
  pose proof (moved_ibuf _ _ _ Hm Hsub) as [Hcb' Hb'].
  unfold pb_close_string_substream. apply spec_bind, spec_on_stream.
  assert (spec U F
    (if bytes_left sub' =? 0 then ret (Some []) else pb_read RNull (bytes_left sub'))
    (fun a t w' => a <> None /\ t = iadv (bytes_left sub') sub' /\ w' = w) sub' w) as Hr.
  { destruct (Z.eqb_spec (bytes_left sub') 0) as [E|E].
    - apply spec_ret. rewrite E, iadv_0. done.
    - unfold spec. rewrite pb_read_skip by (done || lia). done. }
  eapply spec_mono; [exact Hr|]. intros a t w' (Ha & -> & ->). cbv beta iota.
  destruct a; [|done]. apply spec_bind, spec_get_stream, spec_bind, spec_put_stream, spec_ret.
  split; [done|]. split; [|done]. destruct Hc as [[? ?] ? ? ?], Hm as [? ? ? ? Hx], Hs.
  split; cbn; try congruence; try lia. intros Hp. specialize (Hx Hp). lia.
Qed.

(** The pattern of every substream: cut, run, and finish on the outer stream. *)
Lemma exact_ok_substream {A B} (gd : A -> Prop) (body : istream -> M istream A)
    (k : A * istream -> M istream (option B)) :
  (forall sub, keeps gd (body sub)) ->
  (forall s s1 sub a sub' w, ibuf s -> cut s s1 sub -> moved (gd a) sub sub' ->
     spec True True (k (a, sub')) (fun o s2 _ => moved (o <> None) s s2) s1 w) ->
  exact_ok (substream <-? pb_make_string_substream ;;
            r <- on_stream substream (body substream) ;; k r).
Proof.
  intros Hb Hk s w Hs. apply spec_bindo. eapply spec_mono; [by apply spec_make|].
  intros [sub|] s1 w1; cbn; [|by intros; eapply moved_weaken].
  intros Hc. destruct (cut_ibuf _ _ _ Hs Hc) as [_ Hsub].
  apply spec_bind, spec_on_stream. eapply spec_mono; [by apply Hb|].
  intros a sub' w2 Hm. by eapply Hk.
Qed.

(** [if (!pb_close_string_substream(...)) return false; return r;] *)
Lemma spec_close_ret {A} s s1 sub sub' (r : option A) w :
  ibuf s -> cut s s1 sub -> moved (r <> None) sub sub' ->
  spec True True (must pb_close_string_substream sub' ;; ret r)
    (fun o s2 _ => moved (o <> None) s s2) s1 w.
Proof.
  intros Hs Hc Hm. apply spec_bindo. eapply spec_mono; [by eapply spec_close|].
  intros [[]|] s2 w2 (Ho & Hmv & _); [|done]. by apply spec_ret.
Qed.

Lemma spec_cut_error {A} msg s s1 sub w :
  ibuf s -> cut s s1 sub ->
  spec True True (PB_RETURN_ERROR (A := A) msg) (fun o s2 _ => moved (o <> None) s s2) s1 w.
Proof.
  intros Hs Hc. pose proof (cut_err s s1 sub (Some msg) Hc) as Hc'.
  unfold PB_RETURN_ERROR, PB_SET_ERROR.
  apply spec_bind, spec_get_stream, spec_bind, spec_put_stream, spec_ret.
  apply (moved_weaken False); [|done].
  destruct (get_err s1); by eapply cut_weak.
Qed.


(** ** Field decoders *)

(** Memory operations inside a decoder, and the substreams. *)
Lemma keeps_bind_mem {A B} (gd : B -> Prop) (m : M istream A) (k : A -> M istream B) :
  streamless m -> (forall a, keeps gd (k a)) -> keeps gd (bind m k).
Proof. intros Hm. apply keeps_bind. by apply keeps_streamless. Qed.

Hint Resolve streamless_default streamless_defaults streamless_release_field
  streamless_release streamless_init_pointer : streamless.

Ltac position_mem :=
  match goal with
  | |- exact_ok (bind _ _) => apply (keeps_bind_mem (fun o => o <> None)); [solve [streamless]|]
  | |- exact (bind _ _) => apply (keeps_bind_mem (fun _ => True)); [solve [streamless]|]
  | |- keeps _ (bind _ _) => apply keeps_bind_mem; [solve [streamless]|]
  | |- exact _ => apply keeps_streamless; solve [streamless]
  end.
Ltac finish_ok :=
  match goal with |- keeps _ ?m => change (exact_ok m) | _ => idtac end;
  eauto using exact_is_ok with position.
Ltac decoder_position := repeat first
  [ progress cbv zeta | position_mem | position_step ].

Lemma exact_fixed32 dest : exact (pb_decode_fixed32 dest).
Proof. unfold pb_decode_fixed32. decoder_position. Qed.
Lemma exact_fixed64 dest : exact (pb_decode_fixed64 dest).
Proof. unfold pb_decode_fixed64. decoder_position. Qed.
Lemma exact_allocate p d a : exact (allocate_field p d a).
Proof. unfold allocate_field. decoder_position. Qed.
Hint Resolve exact_fixed32 exact_fixed64 exact_allocate : position.

Lemma streamless_store_clamped sgn f d v m :
  store_clamped sgn f d v = Some m -> streamless m.
Proof.
  unfold store_clamped. repeat case_match; intros [= <-]; streamless.
Qed.
Lemma exact_store_clamped sgn f d v (k : M istream Z -> M istream (option unit)) e :
  exact e -> (forall m, streamless m -> exact (k m)) ->
  exact (match store_clamped sgn f d v with None => e | Some m => k m end).
Proof.
  intros He Hk. destruct (store_clamped sgn f d v) eqn:E; [|done].
  eapply Hk, streamless_store_clamped, E.
Qed.


Ltac clamped := apply exact_store_clamped; [solve [decoder_position]|intros; decoder_position].

Lemma exact_dec_bool f d : exact (pb_dec_bool f d).
Proof. unfold pb_dec_bool. decoder_position. Qed.
Lemma exact_dec_varint f d : exact (pb_dec_varint f d).
Proof.
  unfold pb_dec_varint. apply exact_bindo; [eauto with position|]. intros v. clamped.
Qed.
Lemma exact_dec_uvarint f d : exact (pb_dec_uvarint f d).
Proof.
  unfold pb_dec_uvarint. apply exact_bindo; [eauto with position|]. intros v. clamped.
Qed.
Lemma exact_dec_svarint f d : exact (pb_dec_svarint f d).
Proof.
  unfold pb_dec_svarint. apply exact_bindo; [eauto with position|]. intros v. clamped.
Qed.
Lemma exact_dec_bytes f d : exact (pb_dec_bytes f d).
Proof. unfold pb_dec_bytes. decoder_position. Qed.
Lemma exact_dec_string f d : exact (pb_dec_string f d).
Proof. unfold pb_dec_string. decoder_position. Qed.
Lemma exact_dec_fixed_length f d : exact (pb_dec_fixed_length_bytes f d).
Proof. unfold pb_dec_fixed_length_bytes. decoder_position. Qed.
Hint Resolve exact_dec_bool exact_dec_varint exact_dec_uvarint exact_dec_svarint
  exact_dec_bytes exact_dec_string exact_dec_fixed_length : position.

Lemma streamless_release_union fuel it :
  exact (pb_release_union_field fuel it).
Proof. unfold pb_release_union_field. decoder_position. Qed.
Hint Resolve streamless_release_union : position.

(** ** Messages *)

Section rec.
Context (rec : list pb_field -> Z -> M istream (option unit)) (fuel : nat).
Context (rec_ok : forall fields dest, exact_ok (rec fields dest)).
(** The user's callbacks keep to the stream they are given. *)
Context (cb_ok : forall fn f arg, exact_ok (cb_decode fn f arg))
        (ext_ok : forall fn e tag wt, exact_ok (ext_decode fn e tag wt)).

Lemma exact_ok_decode_with noinit fields dest :
  exact_ok (noinit fields dest) -> exact_ok (pb_decode_with fuel noinit fields dest).
Proof.
  intros Hn. unfold pb_decode_with. position_mem. intros _ s w Hs.
  apply spec_bind. eapply spec_mono; [by apply Hn|]. intros o s' w' Hm.
  apply spec_bind. eapply spec_mono.
  - apply (keeps_streamless (fun _ => True)) with (s := s'); [|exact (moved_ibuf _ _ _ Hm Hs)].
    destruct o; [apply streamless_ret|apply streamless_release].
  - intros u s2 w2 Hm2. apply spec_ret. eapply moved_trans; [exact Hm|exact Hm2|tauto].
Qed.

Lemma exact_ok_submessage f d : exact_ok (pb_dec_submessage rec fuel f d).
Proof.
  unfold pb_dec_submessage. intros s w Hs. apply spec_bindo.
  eapply spec_mono; [by apply spec_make|]. intros [sub|] s1 w1; [|by intros; eapply moved_weaken].
  intros Hc. destruct (cut_ibuf _ _ _ Hs Hc) as [_ Hsub]. destruct (ptr f =? 0).
  { by eapply spec_cut_error. }
  apply spec_bind, spec_of_option; [|done]. intros fs _.
  apply spec_bind, spec_on_stream. eapply spec_mono.
  { destruct (_ =? _); [by apply exact_ok_decode_with|by apply rec_ok]. }
  intros o sub' w2 Hm. cbv beta iota. by eapply spec_close_ret.
Qed.
Hint Resolve exact_ok_submessage : position.

Lemma exact_ok_decoders k func f d :
  PB_DECODERS rec fuel !! k = Some func -> exact_ok (call_decoder func f d).
Proof.
  do 11 (destruct k as [|k]; [intros [= <-]; cbn [call_decoder];
    first [by apply keeps_ub | solve [position_step] | apply exact_is_ok, exact_fixed32 | apply exact_is_ok, exact_fixed64]|]).
  done.
Qed.

Lemma exact_ok_call k func f d :
  PB_DECODERS rec fuel !! k = Some func -> exact_ok (call_decoder func f d).
Proof. apply exact_ok_decoders. Qed.

(** A packed array is exact when its status is [Some]. *)
Lemma keeps_static_packed k func n f it :
  PB_DECODERS rec fuel !! k = Some func ->
  keeps (fun x => fst x <> None) (static_packed_loop n f func it).
Proof.
  intros Hf. revert it; induction n as [|n IH]; intros it; cbn [static_packed_loop];
    apply keeps_get; intros s0; (destruct (0 <? bytes_left s0); [|apply keeps_ret]);
    (apply keeps_bind_mem; [streamless|]; intros size;
     destruct (size <? array_size f); [|apply keeps_ret]); [apply keeps_fuel|].
  intros s w Hs. apply spec_bind. eapply spec_mono; [by eapply exact_ok_call|].
  intros o s' w' Hm. destruct o as [u|]; cbv beta iota; [|by apply spec_ret].
  eapply spec_mono.
  - refine (keeps_bind_mem (fun x => fst x <> None) _ _ _ _ s' w' (moved_ibuf _ _ _ Hm Hs));
      [streamless|]. intros sz. apply keeps_bind_mem; [streamless|]. intros it'. apply IH.
  - intros [o it'] s2 w2 Hm2. eapply moved_trans; [exact Hm|exact Hm2|done].
Qed.

Lemma keeps_pointer_packed k func n f it al :
  PB_DECODERS rec fuel !! k = Some func ->
  keeps (fun x => fst (fst x) <> None) (pointer_packed_loop fuel n f func it al).
Proof.
  intros Hf. revert it al; induction n as [|n IH]; intros it al; cbn [pointer_packed_loop];
    apply keeps_get; intros s0; (destruct (bytes_left s0 =? 0); [apply keeps_ret|]);
    [apply keeps_fuel|].
  apply keeps_bind_mem; [streamless|]. intros size.
  destruct (size =? PB_SIZE_MAX); [apply keeps_ret|].
  apply keeps_bind; [decoder_position|]. intros [al'|]; [|apply keeps_ret].
  apply keeps_bind_mem; [streamless|]. intros base. cbv zeta.
  destruct (_ =? 0); [apply keeps_ret|]. apply keeps_bind_mem; [streamless|]. intros _.
  intros s w Hs. apply spec_bind. eapply spec_mono; [by eapply exact_ok_call|].
  intros o s' w' Hm. destruct o as [u|]; cbv beta iota; [|by apply spec_ret].
  eapply spec_mono.
  - refine (keeps_bind_mem (fun x => fst (fst x) <> None) _ _ _ _ s' w'
              (moved_ibuf _ _ _ Hm Hs));
      [streamless|]. intros sz. apply keeps_bind_mem; [streamless|]. intros it'. apply IH.
  - intros [o it'] s2 w2 Hm2. eapply moved_trans; [exact Hm|exact Hm2|done].
Qed.

Lemma exact_ok_call_ret {A} k func f d (a : A) :
  PB_DECODERS rec fuel !! k = Some func ->
  exact_ok (must call_decoder func f d ;; ret (Some a)).
Proof. intros Hf. apply keeps_bindo; [by eapply exact_ok_call|]. intros. apply keeps_ret. Qed.
Hint Resolve exact_ok_call_ret : position.

(** Close a substream and answer with [r]. *)
Lemma spec_close_then {A} s s1 sub sub' (p : Prop) (o : option unit) (a : A) w :
  ibuf s -> cut s s1 sub -> moved p sub sub' -> (o <> None -> p) ->
  spec True True
    (must pb_close_string_substream sub' ;;
     match o with Some _ => ret (Some a) | None => return_false end)
    (fun o' s2 _ => moved (o' <> None) s s2) s1 w.
Proof.
  intros Hs Hc Hm Hp. apply spec_bindo. eapply spec_mono; [by eapply spec_close|].
  intros [[]|] s2 w2 (Ho & Hmv & _); [|done].
  destruct o as [u|]; apply spec_ret; eapply moved_weaken; try exact Hmv; auto.
Qed.

Lemma exact_ok_of_option {A B} (o : option A) (k : A -> M istream (option B)) :
  (forall a, o = Some a -> exact_ok (k a)) -> exact_ok (bind (of_option o) k).
Proof.
  intros Hk s w Hs. apply spec_bind, spec_of_option; [|done]. intros a E. by apply Hk.
Qed.

Lemma exact_ok_static wt it : exact_ok (decode_static_field rec fuel wt it).
Proof.
  unfold decode_static_field. position_mem. intros f. cbv zeta.
  apply exact_ok_of_option. intros func Hf. cbv beta zeta.
  destruct (_ =? PB_HTYPE_REQUIRED); [finish_ok|].
  destruct (_ =? PB_HTYPE_OPTIONAL); [position_mem; intros ?; finish_ok|].
  destruct (_ =? PB_HTYPE_REPEATED).
  - destruct (_ && _).
    + apply (exact_ok_substream (fun x => fst x <> None)).
      * intros sub. by eapply keeps_static_packed.
      * intros s s1 sub [o it'] sub' w Hs Hc Hm. cbv beta iota.
        destruct (negb (bytes_left sub' =? 0)); [by eapply spec_cut_error|].
        by eapply spec_close_then.
    + position_mem. intros size. position_mem. intros it'.
      destruct (_ <=? _); finish_ok.
  - destruct (_ =? PB_HTYPE_ONEOF); [|finish_ok].
    position_mem. intros which. position_mem. intros _. position_mem. intros ?. finish_ok.
Qed.

Lemma exact_ok_pointer wt it : exact_ok (decode_pointer_field rec fuel wt it).
Proof.
  unfold decode_pointer_field. position_mem. intros f. cbv zeta.
  apply exact_ok_of_option. intros func Hf. cbv beta zeta.
  destruct (_ || _ || _).
  { position_mem. intros _. position_mem. intros it'. destruct (_ || _).
    - finish_ok.
    - apply keeps_bindo; [finish_ok|]. intros [].
      position_mem. intros p. position_mem. intros ?. finish_ok. }
  destruct (_ =? PB_HTYPE_REPEATED); [|finish_ok].
  destruct (_ && _).
  - position_mem. intros al.
    apply (exact_ok_substream (fun x => fst (fst x) <> None)).
    + intros sub. by eapply keeps_pointer_packed.
    + intros s s1 sub [[o err] it'] sub' w Hs Hc Hm. cbv beta iota.
      apply spec_bind, spec_get_stream, spec_bind, spec_put_stream.
      assert (cut s (match err with Some e => set_err (Some e) s1 | None => s1 end) sub)
        by (destruct err; auto using cut_err).
      by eapply spec_close_then.
  - position_mem. intros size. destruct (_ =? PB_SIZE_MAX);
      [finish_ok|].
    apply keeps_bindo; [finish_ok|]. intros [].
    position_mem. intros base. position_mem. intros it'. position_mem. intros ?. finish_ok.
Qed.

Lemma exact_ok_callback_loop n fn f arg : exact_ok (callback_loop n fn f arg).
Proof.
  induction n as [|n IH]; cbn [callback_loop]; [apply keeps_fuel|].
  apply keeps_bindo; [apply cb_ok|]. intros _. apply keeps_get. intros s.
  destruct (_ =? 0); [apply keeps_ret|apply IH].
Qed.

Lemma keeps_with_local {A} (gd : A -> Prop) bs (k : Z -> M istream A) :
  (forall a, keeps gd (k a)) -> keeps gd (with_local bs k).
Proof.
  intros Hk s w Hs. unfold spec, with_local. destruct (choose w _) as [a|]; [|done].
  specialize (Hk a s (set_mem (alloc_range (w_mem w) a (map Some bs)) w) Hs).
  revert Hk. unfold spec. by destruct (k a s _) as [[[x s'] w']| |].
Qed.

Lemma exact_ok_callback wt it : exact_ok (decode_callback_field fuel wt it).
Proof.
  unfold decode_callback_field. position_mem. intros f. position_mem. intros fn. cbv zeta.
  destruct (fn =? 0).
  { apply keeps_bindo; [finish_ok|]. intros. apply keeps_ret. }
  destruct (wt =? PB_WT_STRING).
  - apply (exact_ok_substream (fun o => o <> None)).
    + intros sub. apply exact_ok_callback_loop.
    + intros s s1 sub [o|] sub' w Hs Hc Hm; cbv beta iota; [|by eapply spec_cut_error].
      by eapply (spec_close_then _ _ _ _ _ (Some o)).
  - apply keeps_bindo; [finish_ok|]. intros buffer.
    apply (keeps_bind (fun o => o <> None)).
    + apply keeps_with_local. intros a. apply keeps_on_stream.
    + intros [o x]. cbn [fst]. destruct o; apply keeps_ret.
Qed.

Lemma exact_ok_field wt it : exact_ok (decode_field rec fuel wt it).
Proof.
  unfold decode_field. position_mem. intros f. apply keeps_bindo.
  { apply exact_is_ok. destruct (_ =? _); [finish_ok|apply keeps_ret]. }
  intros it'. position_mem. intros g. cbv zeta.
  destruct (_ =? PB_ATYPE_STATIC); [apply exact_ok_static|].
  destruct (_ =? PB_ATYPE_POINTER); [apply exact_ok_pointer|].
  destruct (_ =? PB_ATYPE_CALLBACK); [apply exact_ok_callback|].
  finish_ok.
Qed.

Hint Resolve exact_ok_field : position.

Lemma exact_ok_default_extension e tg wt : exact_ok (default_extension_decoder rec fuel e tg wt).
Proof.
  unfold default_extension_decoder. position_mem. intros fs. position_mem. intros f.
  destruct (negb _); [apply keeps_ret|]. position_mem. intros it. position_mem. intros _.
  apply keeps_bindo; [apply exact_ok_field|]. intros. apply keeps_ret.
Qed.

Lemma exact_ok_extension_loop n st e tg wt :
  exact_ok (decode_extension_loop rec fuel n st e tg wt).
Proof.
  revert e; induction n as [|n IH]; intros e; cbn [decode_extension_loop];
    apply keeps_get; intros s; (destruct (_ && _); [|apply keeps_ret]); [apply keeps_fuel|].
  position_mem. intros tp. position_mem. intros et. apply keeps_bindo.
  - destruct (negb _); [apply ext_ok|apply exact_ok_default_extension].
  - intros _. position_mem. intros next. apply IH.
Qed.

Lemma exact_ok_extension tg wt it : exact_ok (decode_extension rec fuel tg wt it).
Proof.
  unfold decode_extension. position_mem. intros e. apply keeps_get. intros s.
  apply exact_ok_extension_loop.
Qed.

Lemma exact_ok_unknown tg wt d : exact_ok (decode_unknown rec fuel tg wt d).
Proof.
  unfold decode_unknown. intros s w Hs. apply spec_bind. eapply spec_mono.
  - instantiate (1 := fun x s' _ => moved (x <> None) s s').
    revert s w Hs. match goal with
      |- forall s w, _ -> spec _ _ ?m _ _ _ => change (exact_ok m) end.
    destruct (_ <=? _); [|apply keeps_ret]. position_mem. intros [found it].
    position_mem. intros f. cbv zeta. destruct (_ <=? _); [|apply keeps_ret].
    apply keeps_get. intros s. apply keeps_bindo; [apply exact_ok_extension|].
    intros _. apply keeps_get. intros s'. apply keeps_ret.
  - intros [[d' [|]]|] s' w' Hm; cbv beta iota;
      [apply spec_ret; by eapply moved_weaken| |apply spec_ret; by eapply moved_weaken].
    eapply spec_mono.
    + refine (keeps_bindo _ (fun _ => ret (Some d')) (exact_is_ok _ (exact_skip_field wt)) _ s' w'
                (moved_ibuf _ _ _ Hm Hs)). intros. apply keeps_ret.
    + intros o s2 w2 Hm2. eapply moved_trans; [exact Hm|exact Hm2|done].
Qed.

Lemma exact_ok_known wt d : exact_ok (decode_known rec fuel wt d).
Proof.
  unfold decode_known, fixed_count_wrong. position_mem. intros f.
  apply keeps_bindo.
  - apply exact_is_ok. cbv zeta. decoder_position.
  - intros d'. cbv zeta. apply keeps_bindo; [apply exact_ok_field|]. intros. apply keeps_ret.
Qed.

Lemma exact_ok_decode_loop n d : exact_ok (decode_loop rec fuel n d).
Proof.
  revert d; induction n as [|n IH]; intros d; cbn [decode_loop];
    apply keeps_get; intros s; (destruct (_ =? 0); [apply keeps_ret|]); [apply keeps_fuel|].
  apply keeps_bind; [apply exact_decode_tag|]. intros t.
  destruct (negb (t_ok t)); [destruct (t_eof t); apply keeps_ret|].
  position_mem. intros x. cbv zeta. apply keeps_bindo; [|intros; apply IH].
  destruct (negb _); [apply exact_ok_unknown|apply exact_ok_known].
Qed.

Lemma exact_ok_noinit_body fields dest :
  exact_ok (pb_decode_noinit_body rec fuel fields dest).
Proof.
  unfold pb_decode_noinit_body. position_mem. intros x. apply keeps_get. intros s.
  apply keeps_bindo; [apply exact_ok_decode_loop|]. intros d. apply exact_is_ok.
  unfold fixed_count_wrong, check_required. cbv zeta. decoder_position.
Qed.

End rec.

Context (cb_ok : forall fn f arg, exact_ok (cb_decode fn f arg))
        (ext_ok : forall fn e tag wt, exact_ok (ext_decode fn e tag wt)).

Lemma exact_ok_noinit fuel fields dest : exact_ok (pb_decode_noinit fuel fields dest).
Proof.
  revert fields dest; induction fuel as [|k IH]; intros; cbn [pb_decode_noinit];
    [apply keeps_fuel|by apply exact_ok_noinit_body].
Qed.

Lemma exact_ok_decode fuel fields dest : exact_ok (pb_decode fuel fields dest).
Proof. apply exact_ok_decode_with, exact_ok_noinit. Qed.

End position.

(** ** The theorem *)

(** C31: [pb_decode] of any message into any structure, from a stream over a buffer.
    Whatever the input, when the function returns the stream is still inside its
    buffer: the position has moved forward by what [bytes_left] has gone down, or by
    less after an error in a submessage, never beyond the end; after success the end
    of the input is exactly where it was.  User callbacks are assumed to behave so. *)
Theorem pb_decode_position `{PbEnv} `{Allocator} fuel fields dest s w o s' w' :
  (forall fn f arg, exact_ok (cb_decode fn f arg)) ->
  (forall fn e tag wt, exact_ok (ext_decode fn e tag wt)) ->
  i_callback s = IBuf -> 0 <= bytes_left s < 2 ^ 64 ->
  pb_decode fuel fields dest s w = Ret (o, s', w') ->
  i_callback s' = IBuf /\ 0 <= bytes_left s' <= bytes_left s /\
  i_state s <= i_state s' /\ i_state s' + bytes_left s' <= i_state s + bytes_left s /\
  (o <> None -> i_state s' + bytes_left s' = i_state s + bytes_left s).
Proof.
  intros Hcb Hext Hs Hl E.
  pose proof (exact_ok_decode Hcb Hext fuel fields dest s w (conj Hs Hl)) as Hk.
  destruct (spec_run _ _ _ _ _ _ _ _ _ Hk E) as [H1 H2 H3 H4 H5].
  split; [congruence|]. done.
Qed.
