(* ===== verification/PbSafe.v ===== *)
(** * nanopb: total Hoare triples for the decoder

    [safe m Q]: from any buffer stream whose remaining input is readable and
    any memory that holds the readable bytes, [m] returns - it neither reaches
    undefined behaviour nor exhausts its fuel -, writes nothing but the writable
    bytes, keeps the stream inside its buffer, and its result satisfies [Q],
    which also sees how many bytes of the input were taken.  [msafe] is the same
    for computations that leave the stream alone.  The rules of both, and the
    scalar readers and field decoders. *)
From Stdlib Require Import ZArith Lia.
From stdpp Require Import prelude strings gmap list numbers.
From S2P Require Import Prelude CMem PbCommon PbStream PbScalar PbEncode PbDecode PbPosition.
Local Open Scope Z_scope.
Local Open Scope c_scope.

(** The cell holds a byte. *)
Definition cell_ok (m : mem) (a : Z) : Prop := exists b, is_byte b /\ m !! a = Some (Some b).
(** [n] bytes of [P] from [a] on. *)
Definition range_in (P : Z -> Prop) (a n : Z) : Prop := forall i, a <= i < a + n -> P i.

Lemma range_in_sub (P : Z -> Prop) a n b k :
  range_in P a n -> a <= b -> b + k <= a + n -> range_in P b k.
Proof. intros H ? ? i Hi. apply H. lia. Qed.
Lemma range_in_mono (P Q : Z -> Prop) a n :
  (forall i, P i -> Q i) -> range_in P a n -> range_in Q a n.
Proof. unfold range_in. auto. Qed.

Lemma held_load (R : Z -> Prop) m a n :
  (forall i, R i -> cell_ok m i) -> range_in R a (Z.of_nat n) ->
  exists bs, load m a n = Some bs /\ bytes_ok bs /\ length bs = n.
Proof.
  intros Hm. revert a; induction n as [|n IH]; intros a Hr.
  { exists []. split; [done|]. split; [constructor|done]. }
  destruct (Hm a) as (b & Hb & E); [apply Hr; lia|].
  rewrite load_S. unfold load1. rewrite E. cbn [mjoin option_join].
  destruct (IH (a + 1)) as (bs & -> & Hbs & Hl).
  { apply (range_in_sub _ a (Z.of_nat (S n))); [done|lia..]. }
  exists (b :: bs). split; [done|]. split; [by constructor|cbn; lia].
Qed.

Lemma store_cons m a b bs :
  store m a (b :: bs) =
    match store1 m a b with Some m' => store m' (a + 1) bs | None => None end.
Proof. done. Qed.

Section safe.
Context `{PbEnv} `{Allocator}.
(** The addresses the run may read, and those of them it may write. *)
Context (R W : Z -> Prop) (W_R : forall a, W a -> R a).

Definition held (w : world) : Prop := forall a, R a -> cell_ok (w_mem w) a.
Record framed (w w' : world) : Prop := {
  fr_mem : forall a, ~ W a -> w_mem w' !! a = w_mem w !! a;
  fr_blocks : w_blocks w' = w_blocks w
}.
Lemma framed_refl w : framed w w.
Proof. done. Qed.
Lemma framed_trans w1 w2 w3 : framed w1 w2 -> framed w2 w3 -> framed w1 w3.
Proof. intros [H1 H2] [H3 H4]. split; [|congruence]. intros a Ha. by rewrite H3, H1. Qed.

(** A buffer stream with readable input. *)
Definition sin (s : istream) : Prop := ibuf s /\ range_in R (i_state s) (bytes_left s).

Lemma sin_moved p s s' : moved p s s' -> sin s -> sin s'.
Proof.
  intros Hm [Hi Hr]. split; [by eapply moved_ibuf|]. destruct Hm.
  by apply (range_in_sub _ (i_state s) (bytes_left s)).
Qed.

Definition msafe {S A} (m : M S A) (Q : A -> Prop) : Prop :=
  forall s w, held w ->
    spec False False m (fun a s' w' => s' = s /\ held w' /\ framed w w' /\ Q a) s w.

Definition safe_at {A} (s : istream) (w : world) (m : M istream A) (Q : A -> Z -> Prop) : Prop :=
  spec False False m (fun a s' w' =>
    moved False s s' /\ held w' /\ framed w w' /\ Q a (bytes_left s - bytes_left s')) s w.
Definition safe {A} (m : M istream A) (Q : A -> Z -> Prop) : Prop :=
  forall s w, sin s -> held w -> safe_at s w m Q.

(** ** Rules *)

Lemma msafe_ret {S A} (a : A) (Q : A -> Prop) : Q a -> msafe (S := S) (ret a) Q.
Proof. intros ? s w ?. by apply spec_ret. Qed.
Lemma msafe_mono {S A} (m : M S A) (Q Q' : A -> Prop) :
  msafe m Q -> (forall a, Q a -> Q' a) -> msafe m Q'.
Proof. intros Hm HQ s w Hw. eapply spec_mono; [by apply Hm|]. cbv beta. naive_solver. Qed.
Lemma msafe_bind {S A B} (m : M S A) (k : A -> M S B) (P : A -> Prop) (Q : B -> Prop) :
  msafe m P -> (forall a, P a -> msafe (k a) Q) -> msafe (bind m k) Q.
Proof.
  intros Hm Hk s w Hw. apply spec_bind. eapply spec_mono; [by apply Hm|].
  intros a s' w' (-> & Hw' & Hf & Ha). eapply spec_mono; [by apply Hk|].
  intros b s2 w2 (-> & ? & ? & ?). eauto using framed_trans.
Qed.
Lemma msafe_bindo {S A B} (m : M S (option A)) (k : A -> M S (option B))
    (P : option A -> Prop) (Q : option B -> Prop) :
  msafe m P -> (P None -> Q None) -> (forall a, P (Some a) -> msafe (k a) Q) ->
  msafe (bindo m k) Q.
Proof.
  intros Hm Hn Hk. eapply msafe_bind; [exact Hm|]. intros [a|] Ha; [by apply Hk|].
  apply msafe_ret. auto.
Qed.
Lemma msafe_of_option {S A} (o : option A) (a : A) (Q : A -> Prop) :
  o = Some a -> Q a -> msafe (S := S) (of_option o) Q.
Proof. intros -> ? s w ?. done. Qed.
Lemma msafe_of_res {S A} (r : res A) (a : A) (Q : A -> Prop) :
  r = Ret a -> Q a -> msafe (S := S) (of_res r) Q.
Proof. intros -> ? s w ?. done. Qed.

Lemma safe_mono {A} (m : M istream A) (Q Q' : A -> Z -> Prop) :
  safe m Q -> (forall a n, 0 <= n -> Q a n -> Q' a n) -> safe m Q'.
Proof.
  intros Hm HQ s w Hs Hw. eapply spec_mono; [by apply Hm|].
  intros a s' w' (Hmv & ? & ? & ?). destruct Hmv. split_and!; try done. apply HQ; [lia|done].
Qed.
Lemma safe_ret {A} (a : A) (Q : A -> Z -> Prop) : Q a 0 -> safe (ret a) Q.
Proof.
  intros Ha s w Hs Hw. apply spec_ret. rewrite Z.sub_diag.
  split; [apply moved_refl, Hs|done].
Qed.
Lemma safe_msafe {A} (m : M istream A) (Q : A -> Z -> Prop) :
  msafe m (fun a => Q a 0) -> safe m Q.
Proof.
  intros Hm s w Hs Hw. eapply spec_mono; [by apply Hm|].
  intros a s' w' (-> & ? & ? & ?). rewrite Z.sub_diag. split; [apply moved_refl, Hs|done].
Qed.
Lemma safe_at_bind {A B} s w (m : M istream A) (k : A -> M istream B)
    (P : A -> Z -> Prop) (Q : B -> Z -> Prop) :
  sin s -> safe_at s w m P ->
  (forall a s' w', sin s' -> held w' -> bytes_left s' <= bytes_left s ->
     P a (bytes_left s - bytes_left s') ->
     safe_at s' w' (k a) (fun b n' => Q b (bytes_left s - bytes_left s' + n'))) ->
  safe_at s w (bind m k) Q.
Proof.
  intros Hs Hm Hk. apply spec_bind. eapply spec_mono; [exact Hm|].
  intros a s' w' (Hmv & Hw' & Hf & Ha).
  assert (bytes_left s' <= bytes_left s) as Hn by (destruct Hmv; lia).
  eapply spec_mono.
  - apply (Hk a s' w'); [by eapply sin_moved|done..].
  - intros b s2 w2 (Hmv2 & ? & ? & Hb). split_and!; eauto using framed_trans.
    + eapply moved_trans; [exact Hmv|exact Hmv2|done].
    + by replace (bytes_left s - bytes_left s2)
        with (bytes_left s - bytes_left s' + (bytes_left s' - bytes_left s2)) by lia.
Qed.
Lemma safe_bind {A B} (m : M istream A) (k : A -> M istream B)
    (P : A -> Z -> Prop) (Q : B -> Z -> Prop) :
  safe m P ->
  (forall a n, 0 <= n -> P a n -> safe (k a) (fun b n' => Q b (n + n'))) ->
  safe (bind m k) Q.
Proof.
  intros Hm Hk s w Hs Hw. eapply safe_at_bind; [done|by apply Hm|].
  intros a s' w' Hs' Hw' Hn Ha. apply Hk; try done. lia.
Qed.
Lemma safe_at_bindo {A B} s w (m : M istream (option A)) (k : A -> M istream (option B))
    (P : option A -> Z -> Prop) (Q : option B -> Z -> Prop) :
  sin s -> safe_at s w m P ->
  (forall n, 0 <= n -> P None n -> Q None n) ->
  (forall a s' w', sin s' -> held w' -> bytes_left s' <= bytes_left s ->
     P (Some a) (bytes_left s - bytes_left s') ->
     safe_at s' w' (k a) (fun b n' => Q b (bytes_left s - bytes_left s' + n'))) ->
  safe_at s w (bindo m k) Q.
Proof.
  intros Hs Hm Hn Hk. eapply safe_at_bind; [done|exact Hm|].
  intros [a|] s' w' Hs' Hw' Hl Ha; [by apply Hk|].
  apply (safe_ret None (fun b n' => Q b (bytes_left s - bytes_left s' + n'))); [|done..].
  rewrite Z.add_0_r. apply Hn; [lia|done].
Qed.
Lemma safe_at_mono {A} s w (m : M istream A) (Q Q' : A -> Z -> Prop) :
  safe_at s w m Q -> (forall a n, 0 <= n -> Q a n -> Q' a n) -> safe_at s w m Q'.
Proof.
  intros Hm HQ. eapply spec_mono; [exact Hm|].
  intros a s' w' (Hmv & ? & ? & ?). destruct Hmv. split_and!; try done. apply HQ; [lia|done].
Qed.
(** What is known of the results of a run without its safety. *)
Lemma safe_and {A} (m : M istream A) (Q : A -> Z -> Prop) (P : A -> Prop) :
  safe m Q -> (forall s w, spec True True m (fun a _ _ => P a) s w) ->
  safe m (fun a n => Q a n /\ P a).
Proof.
  intros Hm Hp s w Hs Hw. specialize (Hm s w Hs Hw). specialize (Hp s w).
  unfold safe_at, spec in *. destruct (m s w) as [[[a s'] w']| |]; try done. tauto.
Qed.
Lemma safe_bindo {A B} (m : M istream (option A)) (k : A -> M istream (option B))
    (P : option A -> Z -> Prop) (Q : option B -> Z -> Prop) :
  safe m P -> (forall n, 0 <= n -> P None n -> Q None n) ->
  (forall a n, 0 <= n -> P (Some a) n -> safe (k a) (fun b n' => Q b (n + n'))) ->
  safe (bindo m k) Q.
Proof.
  intros Hm Hn Hk. eapply safe_bind; [exact Hm|]. intros [a|] n Hn0 Ha; [by apply Hk|].
  apply safe_ret. rewrite Z.add_0_r. auto.
Qed.
Lemma safe_bind_mem {A B} (m : M istream A) (k : A -> M istream B)
    (P : A -> Prop) (Q : B -> Z -> Prop) :
  msafe m P -> (forall a, P a -> safe (k a) Q) -> safe (bind m k) Q.
Proof.
  intros Hm Hk. eapply (safe_bind _ _ (fun a n => n = 0 /\ P a)).
  - apply safe_msafe. by eapply msafe_mono.
  - intros a n _ [-> Ha]. by apply Hk.
Qed.
Lemma safe_get {B} (k : istream -> M istream B) (Q : B -> Z -> Prop) :
  (forall s w, sin s -> held w -> safe_at s w (k s) Q) -> safe (bind get_stream k) Q.
Proof. intros Hk s w Hs Hw. apply spec_bind, spec_get_stream. by apply Hk. Qed.

Lemma safe_at_get {B} s w (k : istream -> M istream B) (Q : B -> Z -> Prop) :
  safe_at s w (k s) Q -> safe_at s w (bind get_stream k) Q.
Proof. done. Qed.
Lemma safe_at_mem {A B} s w (m : M istream A) (k : A -> M istream B)
    (P : A -> Prop) (Q : B -> Z -> Prop) :
  held w -> msafe m P -> (forall a w', held w' -> P a -> safe_at s w' (k a) Q) ->
  safe_at s w (bind m k) Q.
Proof.
  intros Hw Hm Hk. apply spec_bind. eapply spec_mono; [by apply Hm|].
  intros a s' w' (-> & Hw' & Hf & Ha). eapply spec_mono; [by apply Hk|].
  intros b s2 w2 (? & ? & ? & ?). eauto using framed_trans.
Qed.

(** ** Memory *)

Lemma held_write w a b :
  held w -> W a -> is_byte b -> held (set_mem (<[a := Some b]> (w_mem w)) w).
Proof.
  intros Hw Ha Hb i Hi. unfold set_mem, w_mem at 1. cbn. destruct (decide (i = a)) as [->|].
  - exists b. split; [done|]. apply lookup_insert_eq.
  - destruct (Hw i Hi) as (c & Hc & E). exists c. split; [done|]. by rewrite lookup_insert_ne.
Qed.
Lemma framed_write w a b : W a -> framed w (set_mem (<[a := Some b]> (w_mem w)) w).
Proof.
  intros Ha. split; [|done]. intros i Hi. cbn. rewrite lookup_insert_ne; [done|].
  intros ->. done.
Qed.
Lemma held_store1 w a b :
  held w -> W a -> store1 (w_mem w) a b = Some (<[a := Some b]> (w_mem w)).
Proof. intros Hw Ha. unfold store1. destruct (Hw a) as (c & _ & ->); auto. Qed.

Lemma msafe_store {S} a bs :
  range_in W a (Z.of_nat (length bs)) -> bytes_ok bs ->
  msafe (S := S) (store_bytes a bs) (fun _ => True).
Proof.
  intros Hr Hbs s w Hw.
  assert (exists m', store (w_mem w) a bs = Some m' /\
            held (set_mem m' w) /\ framed w (set_mem m' w)) as (m' & E & ? & ?).
  { revert a w Hr Hw; induction Hbs as [|b bs Hb Hbs IH]; intros a w Hr Hw.
    - exists (w_mem w). by destruct w.
    - assert (W a) as Ha by (apply Hr; cbn; lia). rewrite store_cons, held_store1 by done.
      destruct (IH (a + 1) (set_mem (<[a := Some b]> (w_mem w)) w)) as (m' & E & H1 & H2).
      + eapply range_in_sub; [exact Hr|cbn [length]; lia..].
      + by apply held_write.
      + exists m'. split; [exact E|]. split; [done|].
        eapply framed_trans; [by apply (framed_write w a b)|]. done. }
  unfold spec. by rewrite (store_bytes_run _ _ m').
Qed.

Lemma msafe_load {S} a n :
  range_in R a n -> 0 <= n ->
  msafe (S := S) (load_bytes a n) (fun bs => bytes_ok bs /\ Z.of_nat (length bs) = n).
Proof.
  intros Hr Hn s w Hw. destruct (held_load R (w_mem w) a (Z.to_nat n)) as (bs & E & Hb & Hl).
  - done.
  - by rewrite Z2Nat.id.
  - unfold spec. rewrite (load_bytes_run _ _ bs) by done. split_and!; try done. lia.
Qed.
Lemma msafe_load_u {S} n a :
  range_in R a (Z.of_nat n) ->
  msafe (S := S) (load_u n a) (fun v => 0 <= v < 2 ^ (8 * Z.of_nat n)).
Proof.
  intros Hr. unfold load_u. eapply msafe_bind; [apply msafe_load; [done|lia]|].
  intros bs [Hb Hl]. apply msafe_ret. rewrite <- Hl. by apply le_val_bound.
Qed.
Lemma msafe_store_u {S} n a v :
  range_in W a (Z.of_nat n) -> msafe (S := S) (store_u n a v) (fun _ => True).
Proof. intros Hr. apply msafe_store; [by rewrite length_le_bytes|apply le_bytes_ok]. Qed.
Lemma msafe_memset {S} a b n :
  range_in W a n -> is_byte b -> msafe (S := S) (c_memset a b n) (fun _ => True).
Proof.
  intros Hr Hb. apply msafe_store; [|by apply Forall_replicate].
  rewrite length_replicate. intros i Hi. apply Hr. lia.
Qed.
Lemma msafe_memcpy {S} dst src n :
  range_in W dst n -> range_in R src n -> 0 <= n ->
  msafe (S := S) (c_memcpy dst src n) (fun _ => True).
Proof.
  intros Hd Hs Hn. unfold c_memcpy. eapply msafe_bind; [by apply msafe_load|].
  intros bs [Hb Hl]. apply msafe_store; [by rewrite Hl|done].
Qed.

Lemma copy_loop_held dst src n w :
  held w -> range_in W dst (Z.of_nat n) -> range_in R src (Z.of_nat n) ->
  exists m', copy_loop (w_mem w) dst src n = Some m' /\ held (set_mem m' w) /\
             framed w (set_mem m' w).
Proof.
  revert dst src w; induction n as [|n IH]; intros dst src w Hw Hd Hs; cbn [copy_loop].
  { exists (w_mem w). by destruct w. }
  destruct (Hw src) as (b & Hb & E); [apply Hs; lia|].
  unfold load1. rewrite E. cbn [mjoin option_join].
  assert (W dst) as Hdst by (apply Hd; lia). rewrite held_store1 by done.
  destruct (IH (dst + 1) (src + 1) (set_mem (<[dst := Some b]> (w_mem w)) w))
    as (m' & E' & H1 & H2).
  - by apply held_write.
  - eapply range_in_sub; [exact Hd|lia..].
  - eapply range_in_sub; [exact Hs|lia..].
  - exists m'. split; [exact E'|]. split; [done|].
    eapply framed_trans; [by apply (framed_write w dst b)|]. done.
Qed.

(** ** Streams *)

Lemma safe_error {A} msg (Q : option A -> Z -> Prop) :
  Q None 0 -> safe (PB_RETURN_ERROR msg) Q.
Proof.
  intros HQ s w Hs Hw. unfold PB_RETURN_ERROR.
  apply spec_bind, spec_get_stream, spec_bind, spec_put_stream, spec_ret.
  unfold PB_SET_ERROR. destruct Hs as [[? ?] ?].
  assert (forall t, moved False s t -> bytes_left t = bytes_left s ->
    moved False s t /\ held w /\ framed w w /\ Q None (bytes_left s - bytes_left t)) as Hk.
  { intros t Hm ->. by rewrite Z.sub_diag. }
  destruct (get_err s); apply Hk; try done; [apply moved_refl; lia|apply moved_set_err; lia].
Qed.

(** [n] bytes taken on success, none on failure. *)
Definition takes {A} (n : Z) (o : option A) (k : Z) : Prop :=
  match o with Some _ => k = n | None => k = 0 end.

Definition target_ok (buf : rdst) (n : Z) : Prop :=
  match buf with RMem a => range_in W a n | _ => True end.
Definition read_result (buf : rdst) (n : Z) (bs : bytes) : Prop :=
  match buf with RLocal => bytes_ok bs /\ Z.of_nat (length bs) = n | _ => bs = [] end.

Lemma buf_read_safe buf n s w :
  target_ok buf n -> range_in R (i_state s) n -> 0 <= n -> held w ->
  exists bs w', buf_read buf n s w = Ret (Some bs, set_istate (i_state s + n) s, w') /\
    held w' /\ framed w w' /\ read_result buf n bs.
Proof.
  intros Ht Hr Hn Hw. unfold buf_read, bind, get_stream, put_stream. destruct buf as [|a|].
  - by exists [], w.
  - unfold get_mem. destruct (copy_loop_held a (i_state s) (Z.to_nat n) w) as (m' & E & ? & ?).
    + done.
    + by rewrite Z2Nat.id.
    + by rewrite Z2Nat.id.
    + unfold of_option. rewrite E. unfold put_mem. by exists [], (set_mem m' w).
  - destruct (held_load R (w_mem w) (i_state s) (Z.to_nat n)) as (bs & E & Hb & Hl).
    + done.
    + by rewrite Z2Nat.id.
    + rewrite (load_bytes_run _ _ bs) by done. exists bs, w. split_and!; try done. cbn. split; [done|lia].
Qed.

Lemma moved_take n s :
  ibuf s -> 0 <= n <= bytes_left s ->
  moved False s (set_bytes_left (u64 (bytes_left s - n)) (set_istate (i_state s + n) s)) /\
  bytes_left s - u64 (bytes_left s - n) = n.
Proof.
  intros Hs Hn. pose proof (moved_read n s Hs Hn) as Hm. cbn in Hm.
  split; [by eapply moved_weaken|]. destruct Hs. unfold u64. rewrite wrap_small; lia.
Qed.

Lemma safe_read_some buf n :
  target_ok buf n -> 0 <= n ->
  safe (pb_read_some buf n) (fun o k => takes n o k /\
    match o with Some bs => read_result buf n bs | None => True end).
Proof.
  intros Ht Hn. apply safe_get. intros s w Hs Hw.
  destruct (Z.ltb_spec (bytes_left s) n) as [Hlt|Hge]; [by apply safe_error|].
  destruct (buf_read_safe buf n s w Ht) as (bs & w' & E & Hw' & Hf & Hbs); try done.
  { destruct Hs as [_ Hr]. eapply range_in_sub; [exact Hr|lia..]. }
  destruct (moved_take n s (proj1 Hs) ltac:(lia)) as [Hm Hk].
  unfold safe_at, spec, bind at 1, call_read, bind at 1, get_stream.
  destruct Hs as [[-> _] _]. rewrite E. cbn -[u64] in *. rewrite Hk. auto.
Qed.

Lemma safe_read buf n :
  target_ok buf n -> 0 <= n < 2 ^ 64 ->
  safe (pb_read buf n) (fun o k => takes n o k /\
    match o with Some bs => read_result buf n bs | None => True end).
Proof.
  intros Ht Hn s w Hs Hw. unfold safe_at, spec. rewrite pb_read_u64 by done.
  destruct (Z.eqb_spec n 0) as [->|].
  { apply (safe_ret (Some []) (fun o k => takes 0 o k /\
      match o with Some bs => read_result buf 0 bs | None => True end)); [|done..].
    split; [done|]. destruct buf; cbn; auto. split; [constructor|done]. }
  unfold bind, get_stream. pose proof Hs as [[-> _] _].
  destruct buf; exact (safe_read_some _ n Ht (proj1 Hn) s w Hs Hw).
Qed.

Lemma safe_read_local n :
  0 <= n < 2 ^ 64 ->
  safe (pb_read_local n) (fun o k => takes n o k /\
    match o with Some bs => bytes_ok bs /\ Z.of_nat (length bs) = n | None => True end).
Proof.
  intros Hn. unfold pb_read_local. eapply safe_bindo; [by apply (safe_read RLocal)|done|].
  intros bs k _ [-> [Hok Hl]]. rewrite Hl, Z.eqb_refl.
  apply safe_ret. rewrite Z.add_0_r. done.
Qed.

Lemma safe_readbyte :
  safe pb_readbyte (fun o k => takes 1 o k /\
    match o with Some b => is_byte b | None => True end).
Proof.
  apply safe_get. intros s w Hs Hw.
  destruct (Z.eqb_spec (bytes_left s) 0) as [E0|E0]; [by apply safe_error|].
  assert (0 < bytes_left s) as Hp by (destruct Hs as [[_ ?] _]; lia).
  destruct (buf_read_safe RLocal 1 s w I) as (bs & w' & E & Hw' & Hf & Hb & Hl); try done.
  { destruct Hs as [_ Hr]. eapply range_in_sub; [exact Hr|lia..]. }
  destruct (moved_take 1 s (proj1 Hs) ltac:(lia)) as [Hm Hk].
  destruct bs as [|b [|]]; cbn in Hl; try lia.
  unfold safe_at, spec, bind at 1, call_read, bind at 1, get_stream.
  destruct Hs as [[-> _] _]. rewrite E. cbn -[u64] in *. rewrite Hk.
  apply List.Forall_cons_iff in Hb as [Hb _]. auto.
Qed.

(** ** Scalars *)

(** A value with [P], for at least one byte of input. *)
Definition got {A} (P : A -> Prop) (o : option A) (k : Z) : Prop :=
  match o with Some a => P a /\ 1 <= k | None => True end.
Definition any {A} (a : A) (k : Z) : Prop := True.

Lemma varint32_loop_safe n bp r s w :
  sin s -> held w -> bytes_left s < Z.of_nat n -> safe_at s w (varint32_loop n bp r) any.
Proof.
  revert bp r s w; induction n as [|n IH]; intros bp r s w Hs Hw Hn.
  { destruct Hs as [[_ ?] _]. lia. }
  cbn [varint32_loop]. eapply safe_at_bindo; [done|by apply safe_readbyte|done|].
  intros byte s' w' Hs' Hw' _ [Hk Hb]. cbn in Hk. cbv zeta.
  repeat case_match; first [by apply safe_error | by apply safe_ret
    | apply (safe_at_mono _ _ _ any); [apply IH; done || lia|done]].
Qed.

Lemma safe_varint32_eof :
  safe pb_decode_varint32_eof (fun r k => got (fun _ => True) (fst r) k).
Proof.
  unfold pb_decode_varint32_eof. eapply safe_bind; [apply safe_readbyte|].
  intros [byte|] k _ [Hk Hb]; cbn in Hk; subst k.
  2:{ apply safe_get. intros s w Hs Hw. by apply safe_ret. }
  eapply (safe_bind _ _ any).
  { destruct (_ =? 0); [by apply safe_ret|]. apply safe_get. intros s w Hs Hw.
    eapply safe_at_bindo; [done|apply varint32_loop_safe; try done|done|].
    - destruct Hs as [[_ ?] _]. lia.
    - intros [[v bp] b'] s' w' Hs' Hw' _ _. cbv beta iota.
      destruct (_ && _); [by apply safe_error|by apply safe_ret]. }
  intros [v|] n Hn _; apply safe_ret; cbn; auto. split; [done|lia].
Qed.

Lemma safe_varint32 : safe pb_decode_varint32 (got (fun v => 0 <= v < 2 ^ 32)).
Proof.
  eapply safe_mono.
  - apply (safe_and _ (got (fun _ => True))); [|exact varint32_range].
    unfold pb_decode_varint32. eapply safe_bind; [apply safe_varint32_eof|].
    intros r n _ Hr. apply safe_ret. by rewrite Z.add_0_r.
  - intros [v|] n _; cbn; tauto.
Qed.

Lemma varint64_loop_safe n bp r :
  (0 < n <= 11)%nat -> 77 - 7 * Z.of_nat n <= bp <= 70 -> safe (varint64_loop n bp r)
    (fun o k => bp < 64 -> got (fun _ => True) o k).
Proof.
  revert bp r; induction n as [|n IH]; intros bp r Hn Hbp; [lia|]. cbn [varint64_loop].
  destruct (Z.leb_spec 64 bp); [by apply safe_error|].
  eapply safe_bindo; [apply safe_readbyte|done|].
  intros b k _ [Hk Hb]. cbn in Hk. subst k. cbv zeta.
  destruct (_ =? 0); [apply safe_ret; cbn; split; [done|lia]|].
  unfold u8. rewrite wrap_small by lia. eapply safe_mono; [apply IH; lia|].
  intros [v|] k Hk _; cbn; [split; [done|lia]|done].
Qed.
Lemma safe_varint : safe pb_decode_varint (got (fun _ => True)).
Proof. eapply safe_mono; [apply varint64_loop_safe; lia|]. cbv beta. intros o k _ Hq. apply Hq. lia. Qed.

Lemma safe_svarint : safe pb_decode_svarint (got (fun _ => True)).
Proof.
  unfold pb_decode_svarint. eapply safe_bindo; [apply safe_varint|done|].
  intros v k _ [_ Hk]. destruct (negb _); apply safe_ret; cbn; (split; [done|lia]).
Qed.

Lemma skip_varint_loop_safe n s w :
  sin s -> held w -> bytes_left s < Z.of_nat n -> safe_at s w (skip_varint_loop n) any.
Proof.
  revert s w; induction n as [|n IH]; intros s w Hs Hw Hn.
  { destruct Hs as [[_ ?] _]. lia. }
  cbn [skip_varint_loop]. eapply safe_at_bindo; [done|by apply (safe_read_local 1)|done|].
  intros bs s' w' Hs' Hw' _ (Hk & _ & Hl). cbn in Hk.
  destruct bs as [|b [|]]; cbn in Hl; try lia. destruct (_ =? 0); [by apply safe_ret|].
  apply (safe_at_mono _ _ _ any); [apply IH; done || lia|done].
Qed.

Lemma safe_skip n : 0 <= n < 2 ^ 64 -> safe (must pb_read RNull n ;; return_true) any.
Proof.
  intros Hn. eapply safe_bindo; [by apply safe_read|done|]. intros. by apply safe_ret.
Qed.

Lemma safe_skip_field wt : safe (pb_skip_field wt) any.
Proof.
  unfold pb_skip_field. repeat case_match; try (by apply safe_skip); [| |by apply safe_error].
  - apply safe_get. intros s w Hs Hw. apply skip_varint_loop_safe; try done.
    destruct Hs as [[_ ?] _]. lia.
  - unfold pb_skip_string. eapply safe_bindo; [apply safe_varint32|done|].
    intros v k _ [Hv _]. eapply safe_mono; [apply safe_skip; lia|done].
Qed.

Lemma safe_tag :
  safe pb_decode_tag (fun t k => t_ok t = true -> 0 <= t_tag t < 2 ^ 29 /\ 1 <= k).
Proof.
  unfold pb_decode_tag. eapply safe_bind.
  - apply (safe_and _ _ (fun r => match fst r with Some v => 0 <= v < 2 ^ 32 | None => True end)
      safe_varint32_eof).
    intros s w. pose proof (varint32_range s w) as Hr. revert Hr.
    unfold pb_decode_varint32, spec, bind, ret.
    by destruct (pb_decode_varint32_eof s w) as [[[[[v|] e] s'] w']| |].
  - intros [[v|] e] n Hn [Hg Hv]; cbn in Hg, Hv; [|by apply safe_ret].
    destruct (Z.eqb_spec v 0); apply safe_ret; [done|]. cbn [t_ok t_tag]. intros _.
    rewrite Z.shiftr_div_pow2 by lia. split; [|lia].
    change (2 ^ 3) with 8. Z.div_mod_to_equations. lia.
Qed.

(** ** Substreams *)

Lemma sin_cut s s1 sub : sin s -> cut s s1 sub -> sin s1 /\ sin sub.
Proof.
  intros [Hi Hr] Hc. destruct (cut_ibuf _ _ _ Hi Hc) as [H1 H2]. destruct Hc as [_ ? ? ?].
  split; (split; [done|]); (eapply range_in_sub; [exact Hr|lia..]).
Qed.

Lemma safe_make s w :
  sin s -> held w ->
  spec False False pb_make_string_substream (fun o s1 w1 => held w1 /\ framed w w1 /\
    match o with Some sub => cut s s1 sub | None => moved True s s1 end) s w.
Proof.
  intros Hs Hw.
  assert (spec False False pb_make_string_substream
            (fun _ _ w1 => held w1 /\ framed w w1) s w) as H1.
  { unfold pb_make_string_substream. apply spec_bindo.
    eapply spec_mono; [by apply safe_varint32|].
    intros [v|] s1 w1 (Hm & Hw1 & Hf & _); [|done].
    apply spec_bind, spec_get_stream. destruct (_ <? _).
    - eapply spec_mono; [apply (safe_error _ any I s1 w1); [by eapply sin_moved|done]|].
      intros a s2 w2 (_ & ? & ? & _). eauto using framed_trans.
    - apply spec_bind, spec_put_stream, spec_ret. done. }
  pose proof (spec_make s w (proj1 Hs)) as H2. unfold spec in *.
  destruct (pb_make_string_substream s w) as [[[o s1] w1]| |]; try done. tauto.
Qed.

(** What remains to be done after a substream, back on the outer stream [s1],
    that was [s] before it was cut. *)
Definition fin {A} (s s1 : istream) (w : world) (m : M istream A) (Q : A -> Prop) : Prop :=
  spec False False m
    (fun a s2 w2 => moved False s s2 /\ held w2 /\ framed w w2 /\ Q a) s1 w.

Lemma fin_error {A} msg s s1 sub w (Q : option A -> Prop) :
  cut s s1 sub -> held w -> Q None -> fin s s1 w (PB_RETURN_ERROR msg) Q.
Proof.
  intros Hc Hw HQ. unfold fin, PB_RETURN_ERROR, PB_SET_ERROR.
  apply spec_bind, spec_get_stream, spec_bind, spec_put_stream, spec_ret.
  split; [|done]. eapply (moved_weaken False); [|done].
  destruct (get_err s1); eapply cut_weak; [exact Hc|by apply cut_err].
Qed.

Lemma fin_close {A} s s1 sub sub' w (r : option A) (Q : option A -> Prop) :
  sin s -> cut s s1 sub -> moved False sub sub' -> held w -> Q r ->
  fin s s1 w (must pb_close_string_substream sub' ;; ret r) Q.
Proof.
  intros Hs Hc Hm Hw HQ. apply spec_bindo.
  eapply spec_mono; [by apply (spec_close _ _ s s1 sub sub' False w (proj1 Hs))|].
  intros [[]|] s2 w2 (? & Hm2 & ->); [|done]. by apply spec_ret.
Qed.

Lemma safe_substream {A B} (body : istream -> M istream A)
    (k : A * istream -> M istream (option B)) (P : A -> Prop) (Q : option B -> Prop) :
  (forall sub w, sin sub -> held w -> safe_at sub w (body sub) (fun a _ => P a)) ->
  Q None ->
  (forall s s1 sub a sub' w, sin s -> cut s s1 sub -> moved False sub sub' -> held w -> P a ->
     fin s s1 w (k (a, sub')) Q) ->
  safe (substream <-? pb_make_string_substream ;;
        r <- on_stream substream (body substream) ;; k r) (fun o _ => Q o).
Proof.
  intros Hb Hn Hk s w Hs Hw. apply spec_bindo. eapply spec_mono; [by apply safe_make|].
  intros [sub|] s1 w1 (Hw1 & Hf & Hc); cbv beta iota in Hc |- *.
  2:{ split_and!; try done. by eapply moved_weaken. }
  destruct (sin_cut _ _ _ Hs Hc) as [_ Hsub].
  apply spec_bind, spec_on_stream. eapply spec_mono; [by apply Hb|].
  intros a sub' w2 (Hm & Hw2 & Hf2 & Ha). eapply spec_mono.
  { by apply (Hk s s1 sub a sub' w2). }
  intros o s2 w3 (? & ? & ? & ?). split_and!; eauto using framed_trans.
Qed.

(** ** Field decoders *)

(** On success at least one byte of the input is gone. *)
Definition ate (o : option unit) (k : Z) : Prop :=
  match o with Some _ => 1 <= k | None => True end.

Lemma ate_later o n k : 0 <= k -> 1 <= n -> ate o (n + k).
Proof. destruct o; cbn; [lia|done]. Qed.

(** After a value has been read, what follows may be anything safe. *)
Lemma safe_got {A} (m : M istream (option A)) (k : A -> M istream (option unit)) (P : A -> Prop) :
  safe m (got P) -> (forall a, P a -> safe (k a) any) -> safe (bindo m k) ate.
Proof.
  intros Hm Hk. eapply safe_bindo; [exact Hm|done|]. intros a n _ [Ha Hn].
  eapply safe_mono; [by apply Hk|]. intros. by apply ate_later.
Qed.
Lemma safe_then_true (m : M istream unit) (Q : option unit -> Z -> Prop) :
  msafe m (fun _ => True) -> Q (Some tt) 0 -> safe (m ;; return_true) Q.
Proof. intros Hm HQ. eapply safe_bind_mem; [exact Hm|]. intros. by apply safe_ret. Qed.

Lemma dec_bool_safe f d : range_in W d 1 -> safe (pb_dec_bool f d) ate.
Proof.
  intros Hd. eapply safe_got; [apply safe_varint32|]. intros v _.
  apply safe_then_true; [by apply (msafe_store_u 1)|done].
Qed.

Lemma store_clamped_safe {T} sgn f d v (e : M istream T) (k : M istream Z -> M istream T)
    (Q : T -> Z -> Prop) :
  range_in W d (data_size f) -> safe e Q ->
  (forall m, msafe m (fun _ => True) -> safe (k m) Q) ->
  safe (match store_clamped sgn f d v with None => e | Some m => k m end) Q.
Proof.
  intros Hd He Hk. unfold store_clamped.
  repeat match goal with |- context [?x =? ?y] => destruct (Z.eqb_spec x y) as [E|] end;
    try done; rewrite E in Hd; apply Hk;
    (eapply msafe_bind; [by apply msafe_store_u|intros; by apply msafe_ret]).
Qed.

Ltac dec_clamped :=
  intros Hd; eapply safe_got; [first [apply safe_varint|apply safe_svarint]|];
  intros v _; cbv zeta; apply store_clamped_safe; [done|by apply safe_error|];
  intros m Hm; eapply safe_bind_mem; [exact Hm|]; intros c _;
  destruct (negb _); [by apply safe_error|by apply safe_ret].

Lemma dec_varint_safe f d : range_in W d (data_size f) -> safe (pb_dec_varint f d) ate.
Proof. dec_clamped. Qed.
Lemma dec_uvarint_safe f d : range_in W d (data_size f) -> safe (pb_dec_uvarint f d) ate.
Proof. dec_clamped. Qed.
Lemma dec_svarint_safe f d : range_in W d (data_size f) -> safe (pb_dec_svarint f d) ate.
Proof. dec_clamped. Qed.

Lemma read_local_got n :
  1 <= n < 2 ^ 64 -> safe (pb_read_local n) (got (fun bs => Z.of_nat (length bs) = n)).
Proof.
  intros Hn. eapply safe_mono; [apply safe_read_local; lia|].
  intros [bs|] k _ [Hk Hb]; cbn in *; [lia|done].
Qed.

Lemma dec_fixed32_safe f d : range_in W d 4 -> safe (pb_dec_fixed32 f d) ate.
Proof.
  intros Hd. eapply safe_got; [by apply read_local_got|]. intros bs Hl.
  do 5 (destruct bs as [|? bs]; cbn [length] in Hl; try lia).
  apply safe_then_true; [by apply (msafe_store_u 4)|done].
Qed.
Lemma dec_fixed64_safe f d : range_in W d 8 -> safe (pb_dec_fixed64 f d) ate.
Proof.
  intros Hd. eapply safe_got; [by apply read_local_got|]. intros bs Hl.
  do 9 (destruct bs as [|? bs]; cbn [length] in Hl; try lia).
  apply safe_then_true; [by apply (msafe_store_u 8)|done].
Qed.

Lemma read_mem_safe a n : range_in W a n -> 0 <= n < 2 ^ 64 -> safe (pb_read (RMem a) n) any.
Proof. intros Ha Hn. eapply safe_mono; [by apply safe_read|done]. Qed.

Lemma dec_bytes_safe f d :
  PB_ATYPE (type f) = PB_ATYPE_STATIC -> range_in W d (data_size f) ->
  safe (pb_dec_bytes f d) ate.
Proof.
  intros Ht Hd. eapply safe_got; [apply safe_varint32|]. intros v Hv. cbv beta in Hv. cbv zeta.
  destruct (_ <? v); [by apply safe_error|]. unfold PB_BYTES_ARRAY_T_ALLOCSIZE, u64.
  rewrite wrap_small by lia. destruct (_ <? v); [by apply safe_error|].
  rewrite Ht. cbn [Z.eqb]. destruct (Z.ltb_spec (data_size f) (v + 4)).
  { eapply (safe_bindo _ _ (fun o _ => o = None)); [by apply safe_error|done|done]. }
  eapply (safe_bindo _ _ (fun o _ => o = Some d)); [by apply safe_ret|done|].
  intros a n _ [= ->]. eapply safe_bind_mem.
  { apply (msafe_store_u 4). eapply range_in_sub; [exact Hd|lia..]. }
  intros _ _. eapply safe_bindo; [|done|intros; by apply safe_ret].
  apply read_mem_safe; [|lia]. eapply range_in_sub; [exact Hd|lia..].
Qed.

Lemma dec_string_safe f d :
  PB_ATYPE (type f) = PB_ATYPE_STATIC -> range_in W d (data_size f) ->
  safe (pb_dec_string f d) ate.
Proof.
  intros Ht Hd. eapply safe_got; [apply safe_varint32|]. intros v Hv. cbv beta in Hv. cbv zeta.
  destruct (Z.ltb_spec (u32 (v + 1)) v); [by apply safe_error|].
  assert (u32 (v + 1) = v + 1) as Ev.
  { destruct (Z.eq_dec v (2 ^ 32 - 1)) as [->|]; [|apply wrap_small; lia].
    change (u32 (2 ^ 32 - 1 + 1)) with 0 in *. lia. }
  rewrite Ht, Ev. cbn [Z.eqb]. destruct (Z.ltb_spec (data_size f) (v + 1)).
  { eapply (safe_bindo _ _ (fun o _ => o = None)); [by apply safe_error|done|done]. }
  eapply (safe_bindo _ _ (fun o _ => o = Some d)); [by apply safe_ret|done|].
  intros a n _ [= ->]. eapply safe_bind.
  { apply read_mem_safe; [|lia]. eapply range_in_sub; [exact Hd|lia..]. }
  intros st k _ _. eapply safe_bind_mem.
  - apply (msafe_store_u 1). eapply range_in_sub; [exact Hd|lia..].
  - intros. by apply safe_ret.
Qed.

Lemma dec_fixed_length_safe f d :
  range_in W d (data_size f) -> safe (pb_dec_fixed_length_bytes f d) ate.
Proof.
  intros Hd. eapply safe_got; [apply safe_varint32|]. intros v Hv. cbv beta in Hv.
  destruct (_ <? v); [by apply safe_error|]. destruct (v =? 0).
  { apply safe_then_true; [by apply msafe_memset|done]. }
  destruct (Z.eqb_spec v (data_size f)) as [E|]; [|by apply safe_error].
  rewrite <- E in *.
  cbn [negb]. eapply safe_bindo; [apply read_mem_safe; [done|lia]|done|].
  intros. by apply safe_ret.
Qed.
End safe.
