(* ===== verification/PbSafeDecode.v ===== *)
(** * nanopb: decoding untrusted input is memory safe and terminates

    [pb_decode] of a message type whose fields all live in the structure (no
    pointers, callbacks or extensions), the nested ones included, on any input.
    [static_message] is the check of the descriptor tables against the size of
    the structure; the triples of PbSafe.v carry it through the iterator, the
    default values, the release and the decoder, by induction on the nesting. *)
From Stdlib Require Import ZArith Lia.
From stdpp Require Import prelude strings gmap list numbers.
From S2P Require Import Prelude CMem PbCommon PbStream PbConcrete PbScalar PbEncode PbDecode PbPosition PbSafe.
Local Open Scope Z_scope.
Local Open Scope c_scope.

(** ** Message types *)

Section layout.
Context `{PbEnv}.
(** [consts a n]: a constant object of [n] bytes is at [a]. *)
Context (consts : Z -> Z -> bool).

Definition is_repeated (f : pb_field) : bool := PB_HTYPE (type f) =? PB_HTYPE_REPEATED.

(** The data of entry [k] fits in a structure of [size] bytes, *)
Definition data_fits (fs : list pb_field) (size : Z) (k : nat) (f : pb_field) : bool :=
  (0 <=? data_size f) && (0 <=? array_size f) && (0 <=? field_offset fs k) &&
  (data_size f * array_size f <? 2 ^ 32) &&
  (field_offset fs k + (if is_repeated f then data_size f * array_size f else data_size f)
     <=? size).
(** so does its has-flag or count, *)
Definition size_fits (fs : list pb_field) (size : Z) (k : nat) (f : pb_field) : bool :=
  (PB_HTYPE (type f) =? PB_HTYPE_REQUIRED) ||
  ((0 <=? field_size_offset fs k) &&
   (field_size_offset fs k + (if PB_HTYPE (type f) =? PB_HTYPE_OPTIONAL then 1 else 4)
      <=? size)).
(** its item has room for what the decoder of its type stores, *)
Definition item_fits (sub : list pb_field -> Z -> bool) (f : pb_field) : bool :=
  let t := PB_LTYPE (type f) in
  if t =? PB_LTYPE_BOOL then 1 <=? data_size f
  else if t =? PB_LTYPE_FIXED32 then 4 <=? data_size f
  else if t =? PB_LTYPE_FIXED64 then 8 <=? data_size f
  else if t =? PB_LTYPE_SUBMESSAGE then
    match fields_at (ptr f) with Some g => sub g (data_size f) | None => false end
  else (t <=? PB_LTYPE_STRING) || (t =? PB_LTYPE_FIXED_LENGTH_BYTES).
(** and its default value, if it has one, is there. *)
Definition default_fits (f : pb_field) : bool :=
  (PB_LTYPE (type f) =? PB_LTYPE_SUBMESSAGE) || (ptr f =? 0) || consts (ptr f) (data_size f).

Definition static_field (sub : list pb_field -> Z -> bool) (fs : list pb_field) (size : Z)
    (k : nat) (f : pb_field) : bool :=
  negb (tag f =? 0) && (PB_ATYPE (type f) =? PB_ATYPE_STATIC) && data_fits fs size k f &&
  size_fits fs size k f && item_fits sub f && default_fits f.

(** [fs] describes a structure of [size] bytes with submessages nested less than
    [d] deep, and every member of it is stored in place. *)
Fixpoint static_message (d : nat) (fs : list pb_field) (size : Z) : bool :=
  match d with
  | O => false
  | S d' =>
      let n := (length fs - 1)%nat in
      (0 <? n)%nat && (Z.of_nat n <? 2 ^ 32) &&
      match fs !! n with Some f => tag f =? 0 | None => false end &&
      forallb (fun k => match fs !! k with
                        | Some f => static_field (static_message d') fs size k f
                        | None => false
                        end) (seq 0 n)
  end.

Definition entries (fs : list pb_field) : nat := (length fs - 1)%nat.

Lemma static_message_wf d fs size :
  static_message d fs size = true ->
  wf_fields fs (entries fs) /\ (0 < entries fs)%nat /\ Z.of_nat (entries fs) < 2 ^ 32.
Proof.
  destruct d as [|d]; [done|]. cbn [static_message]. fold (entries fs).
  rewrite !andb_true_iff, Nat.ltb_lt, Z.ltb_lt, forallb_forall.
  intros [[[Hn Hb] Ht] Hall]. split; [|done]. split.
  - unfold entries in *. lia.
  - split.
    + intros k f Hk Hlt. specialize (Hall k). rewrite Hk in Hall.
      assert (static_field (static_message d) fs size k f = true) as Hf
        by (apply Hall, List.in_seq; lia).
      unfold static_field in Hf. rewrite !andb_true_iff, negb_true_iff, Z.eqb_neq in Hf. tauto.
    + destruct (fs !! entries fs) as [f|]; [|done]. exists f. split; [done|].
      by apply Z.eqb_eq in Ht.
Qed.

Lemma static_message_field d fs size k f :
  static_message (S d) fs size = true -> (k < entries fs)%nat -> fs !! k = Some f ->
  static_field (static_message d) fs size k f = true.
Proof.
  cbn [static_message]. fold (entries fs). rewrite !andb_true_iff, forallb_forall.
  intros [_ Hall] Hk Hf. specialize (Hall k). rewrite Hf in Hall. apply Hall, List.in_seq. lia.
Qed.
End layout.

(** ** The iterator *)

(** At entry [k], with its size pointer right, or pointing to the local count of
    an array of fixed size. *)
Definition it_ok (fs : list pb_field) (dest : Z) (k : nat) (it : field_iter) : Prop :=
  (k < entries fs)%nat /\ iter_at fs dest k it /\
  (size_at fs dest k it \/
   exists f v, fs !! k = Some f /\ PB_HTYPE (type f) = PB_HTYPE_REPEATED /\
               pSize it = SizeLocal v /\ 0 <= v).

Section iterator.
Context (fs : list pb_field) (dest : Z).
Context (Hwf : wf_fields fs (entries fs)) (Hn0 : (0 < entries fs)%nat)
        (Hn : Z.of_nat (entries fs) < 2 ^ 32) (Hd : 0 < dest).

(** The same iterator with the size pointer of its entry. *)
Definition resized (k : nat) (it : field_iter) : field_iter :=
  Iter (it_fields it) (pos it) (required_field_index it) (dest_struct it) (pData it)
       (SizeAt (dest + field_size_offset fs k)).

Lemma resized_at k it : iter_at fs dest k it -> iter_at fs dest k (resized k it).
Proof. by intros []. Qed.
Lemma resized_size k it : size_at fs dest k (resized k it).
Proof. done. Qed.
Lemma resized_id k it : size_at fs dest k it -> resized k it = it.
Proof. unfold size_at, resized. destruct it. cbn. by intros ->. Qed.

Lemma next_resized k it :
  it_ok fs dest k it -> pb_field_iter_next (resized k it) = pb_field_iter_next it.
Proof.
  intros (Hk & Hat & [Hs|(f & v & Hf & Ht & _)]); [by rewrite resized_id|].
  unfold pb_field_iter_next. cbn [it_fields pos dest_struct resized].
  destruct Hat as [-> -> _ _ _]. rewrite Hf, Ht. change (PB_HTYPE_REPEATED =? PB_HTYPE_ONEOF) with false.
  cbn [andb].
  destruct (tag f =? 0) eqn:E; [|done]. exfalso.
  destruct Hwf as (_ & Hnz & _). apply Z.eqb_eq in E. by apply (Hnz k f).
Qed.

Lemma ok_resized k it : it_ok fs dest k it -> it_ok fs dest k (resized k it).
Proof. intros (? & ? & _). split; [done|]. split; [by apply resized_at|]. by left. Qed.

Lemma next_ok k it :
  it_ok fs dest k it ->
  exists it', pb_field_iter_next it = Ret ((S k <? entries fs)%nat, it') /\
    it_ok fs dest (S k mod entries fs) it' /\ size_at fs dest (S k mod entries fs) it'.
Proof.
  intros Hok. pose proof Hok as (Hk & Hat & _). rewrite <- (next_resized k) by done.
  destruct (next_at fs (entries fs) dest k (resized k it)) as (it' & E & H1 & H2);
    try done; [lia|by apply resized_at|]. exists it'. split; [done|].
  specialize (H2 (resized_size k it)).
  split; [|done]. split; [apply Nat.mod_upper_bound; lia|]. split; [done|]. by left.
Qed.

Lemma begin_ok :
  exists it, pb_field_iter_begin fs dest = Ret (true, it) /\
             it_ok fs dest 0 it /\ size_at fs dest 0 it.
Proof.
  destruct (begin_at fs (entries fs) dest Hwf ltac:(lia)) as (it & E & H1 & H2).
  exists it. rewrite E. destruct (entries fs) as [|m] eqn:En; [lia|].
  split; [done|]. split; [|done]. split; [lia|]. split; [done|]. by left.
Qed.

Lemma find_ok k it t :
  it_ok fs dest k it ->
  exists b it' k', pb_field_iter_find it t = Ret (b, it') /\ it_ok fs dest k' it' /\
    (size_at fs dest k it -> size_at fs dest k' it').
Proof.
  intros Hok. pose proof Hok as (Hk & Hat & _).
  destruct (wf_lookup fs _ k Hwf ltac:(lia)) as [f Hf].
  destruct (matches t f) eqn:Em.
  - exists true, it, k. split; [|done]. unfold pb_field_iter_find.
    pose proof Hat as [Hfs Hpos _ _ _].
    destruct (length (it_fields it)) as [|m] eqn:El.
    { rewrite Hfs in El. destruct Hwf as [El' _]. lia. }
    cbn [iter_find_loop]. rewrite Hfs, Hpos, Hf. fold (matches t f). by rewrite Em.
  - assert (pb_field_iter_find it t = pb_field_iter_find (resized k it) t) as ->.
    { unfold pb_field_iter_find. cbn [resized it_fields pos].
      pose proof Hat as [Hfs Hpos _ _ _].
      destruct (length (it_fields it)) as [|m] eqn:El; [done|].
      cbn [iter_find_loop]. cbn [resized it_fields pos]. rewrite Hfs, Hpos, Hf.
      fold (matches t f). rewrite Em. fold (resized k it). by rewrite next_resized. }
    destruct (find_at fs (entries fs) dest t true k (resized k it)) as (b & it' & E & j & Hj & H1 & H2 & _);
      try done; [lia|by apply resized_at|].
    exists b, it', j. split; [done|]. specialize (H2 eq_refl).
    split; [|done]. split; [done|]. split; [done|]. by left.
Qed.

(** Without extension fields the search for one comes back empty-handed. *)
Lemma find_extension_ok k it :
  (forall i f, (i < entries fs)%nat -> fs !! i = Some f ->
     PB_LTYPE (type f) <> PB_LTYPE_EXTENSION) ->
  it_ok fs dest k it ->
  exists it' k', find_extension_field it = Ret (false, it') /\ it_ok fs dest k' it'.
Proof.
  intros Hext Hok. pose proof Hok as (Hk & [Hfs Hpos _ _ _] & _).
  unfold find_extension_field. rewrite Hfs, Hpos.
  assert (forall fuel j it, (j < entries fs)%nat -> (entries fs - j <= fuel)%nat ->
    it_ok fs dest ((k + j) mod entries fs) it ->
    exists it' k', find_extension_loop fuel k it = Ret (false, it') /\ it_ok fs dest k' it')
    as Hl.
  { clear it Hok Hfs Hpos. induction fuel as [|fuel IH]; intros j it Hj Hf Hok; [lia|].
    cbn [find_extension_loop]. pose proof Hok as (Hi & [Hfs Hpos _ _ _] & _).
    rewrite Hfs, Hpos. destruct (wf_lookup fs _ _ Hwf (Nat.lt_le_incl _ _ Hi)) as [f Hf'].
    rewrite Hf', (proj2 (Z.eqb_neq _ _)) by eauto.
    destruct (next_ok _ _ Hok) as (it' & -> & Hok' & _).
    rewrite mod_succ_cycle in Hok' by lia. pose proof Hok' as (Hi' & [_ Hpos' _ _ _] & _).
    rewrite Hpos'. destruct (Nat.eqb_spec ((k + S j) mod entries fs) k) as [E|E]; [eauto|].
    apply (IH (S j)); [|lia|done].
    destruct (decide (S j = entries fs)) as [En|]; [|lia]. exfalso. apply E. rewrite En.
    replace (k + entries fs)%nat with (k + 1 * entries fs)%nat by lia.
    rewrite Nat.Div0.mod_add, Nat.mod_small; lia. }
  apply (Hl _ 0%nat); [lia| |].
  - unfold entries. lia.
  - by rewrite Nat.add_0_r, Nat.mod_small by lia.
Qed.

Lemma seek_end_ok fuel k it :
  it_ok fs dest k it -> (entries fs - k <= fuel)%nat ->
  exists c t it' k', seek_end fuel it = Ret (c, t, it') /\ it_ok fs dest k' it'.
Proof.
  revert k it; induction fuel as [|fuel IH]; intros k it Hok Hf; [destruct Hok; lia|].
  cbn [seek_end]. pose proof Hok as (Hk & [Hfs Hpos _ _ _] & _). rewrite Hfs, Hpos.
  destruct (wf_lookup fs _ _ Hwf (Nat.lt_le_incl _ _ Hk)) as [f ->].
  destruct (next_ok _ _ Hok) as (it' & -> & Hok' & _).
  destruct (Nat.ltb_spec (S k) (entries fs)).
  - rewrite Nat.mod_small in Hok' by lia. apply (IH (S k)); [done|lia].
  - by exists (required_field_index it), (type f), it', (S k mod entries fs)%nat.
Qed.
End iterator.

(** ** One field in its structure *)

Lemma it_lookup {T} fs dest k it f :
  iter_at fs dest k it -> fs !! k = Some f -> cur_field (S := T) it = of_option (Some f).
Proof. intros [Hf Hp _ _ _] E. unfold cur_field. by rewrite Hf, Hp, E. Qed.

Lemma HTYPE_cases t :
  PB_HTYPE t = PB_HTYPE_REQUIRED \/ PB_HTYPE t = PB_HTYPE_OPTIONAL \/
  PB_HTYPE t = PB_HTYPE_REPEATED \/ PB_HTYPE t = PB_HTYPE_ONEOF.
Proof.
  unfold PB_HTYPE. change 0x30 with (Z.shiftl (Z.ones 2) 4).
  assert (Z.land t (Z.shiftl (Z.ones 2) 4) = Z.shiftl (Z.shiftr t 4 mod 4) 4) as ->.
  { rewrite <- (Z.land_ones _ 2) by lia. apply Z.bits_inj_iff'. intros i Hi.
    rewrite Z.land_spec. destruct (Z.lt_ge_cases i 4).
    - by rewrite !Z.shiftl_spec_low, andb_false_r by lia.
    - rewrite !Z.shiftl_spec by lia. rewrite Z.land_spec, Z.shiftr_spec by lia.
      by replace (i - 4 + 4) with i by lia. }
  pose proof (Z.mod_pos_bound (Z.shiftr t 4) 4 ltac:(lia)).
  assert (Z.shiftr t 4 mod 4 = 0 \/ Z.shiftr t 4 mod 4 = 1 \/
          Z.shiftr t 4 mod 4 = 2 \/ Z.shiftr t 4 mod 4 = 3) as [->|[->|[->| ->]]] by lia;
    auto.
Qed.

Section safety.
Context `{PbEnv} `{Allocator} (consts : Z -> Z -> bool).
Context (R W : Z -> Prop) (W_R : forall a, W a -> R a).
(** The constants are readable. *)
Context (consts_R : forall a n, consts a n = true -> range_in R a n).

Abbreviation msafe := (msafe R W).
Abbreviation safe := (safe R W).

(** A structure of the type [fs] at [dest], the run's to write. *)
Record object (d : nat) (fs : list pb_field) (size dest : Z) : Prop := {
  ob_type : static_message consts d fs size = true;
  ob_pos : 0 < dest;
  ob_range : range_in W dest size
}.

(** What holds of the [k]th field of such a structure. *)
Record member (d : nat) (fs : list pb_field) (dest : Z) (k : nat) (f : pb_field) : Prop := {
  mb_atype : PB_ATYPE (type f) = PB_ATYPE_STATIC;
  mb_pos : 0 < dest + field_offset fs k;
  mb_size : 0 <= data_size f /\ 0 <= array_size f /\ data_size f * array_size f < 2 ^ 32;
  mb_item : forall i, 0 <= i -> (PB_HTYPE (type f) = PB_HTYPE_REPEATED -> i < array_size f) ->
    (PB_HTYPE (type f) <> PB_HTYPE_REPEATED -> i = 0) ->
    range_in W (dest + field_offset fs k + i * data_size f) (data_size f);
  mb_flag : PB_HTYPE (type f) = PB_HTYPE_OPTIONAL -> W (dest + field_size_offset fs k);
  mb_count : PB_HTYPE (type f) = PB_HTYPE_REPEATED \/ PB_HTYPE (type f) = PB_HTYPE_ONEOF ->
    range_in W (dest + field_size_offset fs k) 4;
  mb_fits : item_fits (static_message consts d) f = true;
  mb_default : PB_LTYPE (type f) <> PB_LTYPE_SUBMESSAGE -> ptr f <> 0 ->
    range_in R (ptr f) (data_size f)
}.

Lemma object_member d fs size dest k f :
  object (S d) fs size dest -> (k < entries fs)%nat -> fs !! k = Some f ->
  member d fs dest k f.
Proof.
  intros [Ht Hp Hr] Hk Hf.
  pose proof (static_message_field consts d fs size k f Ht Hk Hf) as Hs.
  unfold static_field, data_fits, size_fits, default_fits in Hs.
  rewrite !andb_true_iff, !Z.leb_le, Z.ltb_lt, Z.eqb_eq in Hs.
  destruct Hs as (((((_ & Ha) & (((Hds & Has) & Ho) & Hm) & Hfit) & Hsz) & Hi) & Hdef).
  assert (PB_HTYPE (type f) <> PB_HTYPE_REQUIRED -> 0 <= field_size_offset fs k /\
    field_size_offset fs k + (if PB_HTYPE (type f) =? PB_HTYPE_OPTIONAL then 1 else 4) <= size)
    as Hsz'.
  { intros Hnr. rewrite orb_true_iff, andb_true_iff, !Z.leb_le, Z.eqb_eq in Hsz. tauto. }
  split; try done.
  - lia.
  - intros i Hi0 Hrep Hone. eapply range_in_sub; [exact Hr|nia|].
    unfold is_repeated in Hfit. destruct (Z.eqb_spec (PB_HTYPE (type f)) PB_HTYPE_REPEATED) as [E|E].
    + specialize (Hrep E). nia.
    + rewrite (Hone E). lia.
  - intros E. rewrite E in Hsz'. destruct Hsz' as [? Hx]; [done|].
    rewrite Z.eqb_refl in Hx. apply Hr. lia.
  - intros E. destruct Hsz' as [? Hx]; [destruct E as [-> | ->]; done|].
    assert ((PB_HTYPE (type f) =? PB_HTYPE_OPTIONAL) = false) as Eo
      by (destruct E as [-> | ->]; done).
    rewrite Eo in Hx. eapply range_in_sub; [exact Hr|lia..].
  - intros Hl Hp0. rewrite !orb_true_iff, !Z.eqb_eq in Hdef. apply consts_R. tauto.
Qed.

Lemma member_range d fs dest k f :
  member d fs dest k f -> PB_HTYPE (type f) <> PB_HTYPE_REPEATED ->
  range_in W (dest + field_offset fs k) (data_size f).
Proof.
  intros Hm Hn. rewrite <- (Z.add_0_r (_ + _)), <- (Z.mul_0_l (data_size f)).
  by apply (mb_item _ _ _ _ _ Hm 0).
Qed.

(** The address of item [v]. *)
Lemma item_offset d fs dest k f v :
  member d fs dest k f -> 0 <= v < array_size f -> u32 (data_size f * v) = v * data_size f.
Proof.
  intros Hm Hv. pose proof (mb_size _ _ _ _ _ Hm) as (Hds & Has & Hprod).
  unfold u32. rewrite wrap_small; [lia|]. split; [nia|].
  eapply Z.le_lt_trans; [|exact Hprod]. apply Z.mul_le_mono_nonneg_l; lia.
Qed.
Lemma item_pos d fs dest k f v :
  member d fs dest k f -> 0 <= v -> 0 < dest + field_offset fs k + v * data_size f.
Proof.
  intros Hm Hv. pose proof (mb_pos _ _ _ _ _ Hm). pose proof (mb_size _ _ _ _ _ Hm). nia.
Qed.

Lemma member_submessage d fs dest k f :
  member d fs dest k f -> PB_LTYPE (type f) = PB_LTYPE_SUBMESSAGE ->
  exists g, fields_at (ptr f) = Some g /\
    forall a, 0 < a -> range_in W a (data_size f) -> object d g (data_size f) a.
Proof.
  intros Hm Hl. pose proof (mb_fits _ _ _ _ _ Hm) as Hf. unfold item_fits in Hf.
  rewrite Hl in Hf. cbn in Hf. destruct (fields_at (ptr f)) as [g|]; [|done]. exists g. done.
Qed.

Lemma object_wf d fs size dest :
  object d fs size dest ->
  wf_fields fs (entries fs) /\ (0 < entries fs)%nat /\ Z.of_nat (entries fs) < 2 ^ 32 /\ 0 < dest.
Proof. intros [Ht Hp _]. destruct (static_message_wf _ _ _ _ Ht) as (? & ? & ?). done. Qed.

(** The computations over a structure start at its first field. *)
Lemma msafe_cur {T A} fs dest k it f (c : pb_field -> M T A) (Q : A -> Prop) :
  iter_at fs dest k it -> fs !! k = Some f -> msafe (c f) Q -> msafe (bind (cur_field it) c) Q.
Proof.
  intros Hat Hf Hc. rewrite (it_lookup _ _ _ _ _ Hat Hf).
  eapply (msafe_bind R W _ _ (fun g => g = f)); [by eapply msafe_of_option|]. by intros g ->.
Qed.

(** [do { body } while (pb_field_iter_next(...))] over the fields of an object. *)
Lemma do_fields_safe {T} d fs size dest (body : field_iter -> M T (option unit)) :
  object d fs size dest ->
  (forall k f it, (k < entries fs)%nat -> fs !! k = Some f -> iter_at fs dest k it ->
     size_at fs dest k it -> msafe (body it) (fun _ => True)) ->
  forall n k it, it_ok fs dest k it -> size_at fs dest k it -> (entries fs - k <= n)%nat ->
  msafe (do_fields n it body) (fun _ => True).
Proof.
  intros Hob Hb. destruct (object_wf _ _ _ _ Hob) as (Hwf & Hn0 & Hn & Hd).
  induction n as [|n IH]; intros k it Hok Hsz Hle; [destruct Hok; lia|].
  cbn [do_fields]. pose proof Hok as (Hk & Hat & _).
  destruct (wf_lookup fs _ _ Hwf (Nat.lt_le_incl _ _ Hk)) as [f Hf].
  eapply msafe_bindo; [by eapply Hb|done|]. intros _ _.
  destruct (next_ok fs dest Hwf Hn0 Hn Hd k it Hok) as (it' & E & Hok' & Hsz').
  eapply msafe_bind; [by eapply (msafe_of_res R W _ _ (fun x => x = ((S k <? entries fs)%nat, it')))|].
  intros x ->. cbn [fst snd]. destruct (Nat.ltb_spec (S k) (entries fs)); [|by apply msafe_ret].
  rewrite Nat.mod_small in Hok', Hsz' by lia. by apply (IH (S k)); [| |lia].
Qed.

Lemma all_fields_safe {T} d fs size dest (body : field_iter -> M T (option unit)) :
  object d fs size dest ->
  (forall k f it, (k < entries fs)%nat -> fs !! k = Some f -> iter_at fs dest k it ->
     size_at fs dest k it -> msafe (body it) (fun _ => True)) ->
  msafe (x <- of_res (pb_field_iter_begin fs dest) ;;
         if fst x : bool then do_fields (length fs) (snd x) body ;; ret tt else ret tt)
    (fun _ => True).
Proof.
  intros Hob Hb. destruct (object_wf _ _ _ _ Hob) as (Hwf & Hn0 & Hn & Hd).
  destruct (begin_ok fs dest Hwf Hn0 Hn Hd) as (it & E & Hok & Hsz).
  eapply msafe_bind; [by eapply (msafe_of_res R W _ _ (fun x => x = (true, it)))|].
  intros x ->. cbn [fst snd]. eapply msafe_bind.
  - eapply do_fields_safe; try done. unfold entries. lia.
  - intros _ _. by apply msafe_ret.
Qed.

Lemma msafe_lift {T} (m : M T unit) :
  msafe m (fun _ => True) -> msafe (lift_unit m) (fun _ => True).
Proof. intros Hm. eapply msafe_bind; [exact Hm|]. intros _ _. by apply msafe_ret. Qed.

(** Reading and writing the count or the tag of the union. *)
Lemma read_pSize_safe {T} d fs dest k it f :
  member d fs dest k f -> fs !! k = Some f -> it_ok fs dest k it ->
  PB_HTYPE (type f) = PB_HTYPE_REPEATED \/ PB_HTYPE (type f) = PB_HTYPE_ONEOF ->
  msafe (read_pSize (S := T) it) (fun v => 0 <= v).
Proof.
  intros Hm Hf (_ & _ & [Hs|(g & v & _ & _ & Hs & Hv)]) Ht; unfold read_pSize; rewrite Hs.
  - eapply msafe_mono; [apply msafe_load_u|cbv beta; lia].
    eapply range_in_mono; [exact W_R|]. by apply (mb_count _ _ _ _ _ Hm).
  - by apply msafe_ret.
Qed.
Lemma write_pSize_safe {T} d fs dest k it f v :
  member d fs dest k f -> fs !! k = Some f -> it_ok fs dest k it ->
  PB_HTYPE (type f) = PB_HTYPE_REPEATED \/ PB_HTYPE (type f) = PB_HTYPE_ONEOF ->
  msafe (write_pSize (S := T) it v)
    (fun it' => it_ok fs dest k it' /\ (size_at fs dest k it -> it' = it)).
Proof.
  intros Hm Hf Hok Ht. pose proof Hok as (Hk & Hat & Hs).
  unfold write_pSize. destruct Hs as [Hs|(g & v' & Hg & Hr & Hs & Hv)]; rewrite Hs.
  - eapply msafe_bind; [apply msafe_store_u; [done|by apply (mb_count _ _ _ _ _ Hm)]|].
    intros _ _. by apply msafe_ret.
  - apply msafe_ret. split.
    + split; [done|]. split; [by destruct Hat|]. right. exists g, (u32 v). cbn.
      split_and!; try done. apply wrap_range. lia.
    + unfold size_at. by rewrite Hs.
Qed.

(** The types a static field can have. *)
Lemma member_ltype d fs dest k f :
  member d fs dest k f -> In (PB_LTYPE (type f)) [8; 0; 1; 2; 3; 4; 5; 6; 7; 10].
Proof.
  intros Hm. pose proof (mb_fits _ _ _ _ _ Hm) as Hf. unfold item_fits in Hf.
  assert (0 <= PB_LTYPE (type f) < 16).
  { unfold PB_LTYPE. change 0x0F with (Z.ones 4). rewrite Z.land_ones by lia.
    by apply Z.mod_pos_bound. }
  set (l := PB_LTYPE (type f)) in *.
  assert (In l [8; 0; 1; 2; 3; 4; 5; 6; 7; 10] \/ In l [9; 11; 12; 13; 14; 15]) as [Hl|Hl]
    by (cbn; lia); [done|].
  cbn [In] in Hl. repeat (destruct Hl as [Hl|Hl]; [rewrite <- Hl in Hf; discriminate Hf|]). done.
Qed.

Lemma member_not_extension d fs dest k f :
  member d fs dest k f -> PB_LTYPE (type f) <> PB_LTYPE_EXTENSION.
Proof. intros Hm E. pose proof (mb_fits _ _ _ _ _ Hm) as Hf. unfold item_fits in Hf. by rewrite E in Hf. Qed.

Lemma ok_size fs dest k it f :
  it_ok fs dest k it -> fs !! k = Some f -> PB_HTYPE (type f) <> PB_HTYPE_REPEATED ->
  size_at fs dest k it.
Proof. intros (_ & _ & [Hs|(g & v & Hg & Hr & _)]) Hf Hn; [done|]. by simplify_eq. Qed.

(** ** Default values *)

Lemma default_message_safe {T} d fs size dest (fld : field_iter -> M T unit) :
  object d fs size dest ->
  (forall k f it, (k < entries fs)%nat -> fs !! k = Some f -> iter_at fs dest k it ->
     size_at fs dest k it -> msafe (fld it) (fun _ => True)) ->
  msafe (pb_message_set_to_defaults_with fld fs dest) (fun _ => True).
Proof.
  intros Hob Hf. apply (all_fields_safe d fs size); [done|].
  intros. apply msafe_lift. by eapply Hf.
Qed.

(** Setting the has-flag or the count, and whether the data follows. *)
Lemma reset_size_safe {T} d fs dest k it f :
  member d fs dest k f -> fs !! k = Some f -> it_ok fs dest k it -> size_at fs dest k it ->
  PbSafe.msafe R W (S := T)
    (if (PB_HTYPE (type f) =? PB_HTYPE_OPTIONAL) && negb (pSize_is_pData it) then
       write_has it 0 ;; ret true
     else if (PB_HTYPE (type f) =? PB_HTYPE_REPEATED) || (PB_HTYPE (type f) =? PB_HTYPE_ONEOF)
     then write_pSize it 0 ;; ret false
     else ret true)
    (fun b => b = true -> PB_HTYPE (type f) <> PB_HTYPE_REPEATED).
Proof.
  intros Hm Hf Hok Hs. destruct (HTYPE_cases (type f)) as [E|[E|[E|E]]]; rewrite E;
    cbn [Z.eqb andb orb PB_HTYPE_REQUIRED PB_HTYPE_OPTIONAL PB_HTYPE_REPEATED PB_HTYPE_ONEOF Pos.eqb].
  - by apply msafe_ret.
  - destruct (pSize_is_pData it); [by apply msafe_ret|]. unfold write_has. rewrite Hs.
    eapply msafe_bind; [|intros; by apply msafe_ret].
    apply (msafe_store_u R W W_R 1). intros i Hi. replace i with (dest + field_size_offset fs k) by lia.
    by apply (mb_flag _ _ _ _ _ Hm).
  - eapply msafe_bind; [eapply write_pSize_safe; eauto|]. intros. by apply msafe_ret.
  - eapply msafe_bind; [eapply write_pSize_safe; eauto|]. intros. by apply msafe_ret.
Qed.

Lemma default_field_safe {T} d : forall fs size dest fuel k f it,
  object d fs size dest -> (d <= fuel)%nat ->
  (k < entries fs)%nat -> fs !! k = Some f -> iter_at fs dest k it -> size_at fs dest k it ->
  msafe (pb_field_set_to_default (S := T) fuel it) (fun _ => True).
Proof.
  induction d as [|d IH]; intros fs size dest fuel k f it Hob Hle Hk Hf Hat Hsz.
  { by destruct Hob. }
  destruct fuel as [|fuel]; [lia|]. cbn [pb_field_set_to_default].
  pose proof (object_member d fs size dest k f Hob Hk Hf) as Hm.
  assert (it_ok fs dest k it) as Hok by (split; [done|split; [done|by left]]).
  eapply msafe_cur; [done..|]. cbv zeta.
  rewrite (proj2 (Z.eqb_neq (PB_LTYPE _) _) (member_not_extension _ _ _ _ _ Hm)).
  rewrite (mb_atype _ _ _ _ _ Hm), Z.eqb_refl.
  eapply msafe_bind; [by eapply reset_size_safe|]. intros [|] Hr; [|by apply msafe_ret].
  specialize (Hr eq_refl). pose proof (member_range _ _ _ _ _ Hm Hr) as Hd.
  rewrite (ia_data _ _ _ _ Hat).
  destruct (Z.eqb_spec (PB_LTYPE (type f)) PB_LTYPE_SUBMESSAGE) as [El|El].
  - destruct (member_submessage _ _ _ _ _ Hm El) as (g & Eg & Hg).
    eapply msafe_bind; [by eapply (msafe_of_option R W _ _ (fun x => x = g))|]. intros x ->.
    eapply default_message_safe; [apply Hg; [apply Hm|done]|].
    intros. eapply IH; try done; [apply Hg; [apply Hm|done]|lia].
  - destruct (Z.eqb_spec (ptr f) 0); cbn [negb].
    + by apply msafe_memset.
    + apply msafe_memcpy; [done|done| |apply Hm]. by apply (mb_default _ _ _ _ _ Hm).
Qed.

Lemma defaults_safe {T} d fs size dest fuel :
  object d fs size dest -> (d <= fuel)%nat ->
  msafe (pb_message_set_to_defaults (S := T) fuel fs dest) (fun _ => True).
Proof. intros Hob Hle. eapply default_message_safe; [done|]. intros. by eapply default_field_safe. Qed.

(** ** Release *)

Lemma for_items_safe {T} n p step (body : Z -> M T (option unit)) :
  (forall i, (i < n)%nat -> msafe (body (p + Z.of_nat i * step)) (fun _ => True)) ->
  msafe (for_items n p step body) (fun _ => True).
Proof.
  revert p; induction n as [|n IH]; intros p Hb; cbn [for_items]; [by apply msafe_ret|].
  eapply msafe_bindo; [|done|].
  - specialize (Hb 0%nat ltac:(lia)). by replace (p + Z.of_nat 0 * step) with p in Hb by lia.
  - intros _ _. apply IH. intros i Hi. specialize (Hb (S i) ltac:(lia)).
    by replace (p + step + Z.of_nat i * step) with (p + Z.of_nat (S i) * step) by lia.
Qed.

Lemma release_message_safe {T} d fs size dest (single : field_iter -> M T unit) :
  object d fs size dest ->
  (forall k f it, (k < entries fs)%nat -> fs !! k = Some f -> iter_at fs dest k it ->
     size_at fs dest k it -> msafe (single it) (fun _ => True)) ->
  msafe (pb_release_with single fs dest) (fun _ => True).
Proof.
  intros Hob Hf. unfold pb_release_with. rewrite (proj2 (Z.eqb_neq dest 0)) by (destruct Hob; lia).
  apply (all_fields_safe d fs size); [done|]. intros. apply msafe_lift. by eapply Hf.
Qed.

(** How many items the field holds: no more than there is room for. *)
Lemma item_count_safe {T} d fs dest k it f :
  member d fs dest k f -> fs !! k = Some f -> it_ok fs dest k it ->
  PbSafe.msafe R W (S := T)
    (if PB_HTYPE (type f) =? PB_HTYPE_REPEATED then
       c <- (if pSize_is_pData it then ret (array_size f) else read_pSize it) ;;
       ret (if array_size f <? c then array_size f else c)
     else ret 1)
    (fun c => if PB_HTYPE (type f) =? PB_HTYPE_REPEATED then c <= array_size f else c = 1).
Proof.
  intros Hm Hf Hok. destruct (Z.eqb_spec (PB_HTYPE (type f)) PB_HTYPE_REPEATED) as [E|E];
    [|by apply msafe_ret].
  eapply (msafe_bind R W _ _ (fun _ => True)).
  { destruct (pSize_is_pData it); [by apply msafe_ret|].
    eapply msafe_mono; [eapply read_pSize_safe; eauto|done]. }
  intros c _. destruct (Z.ltb_spec (array_size f) c); apply msafe_ret; lia.
Qed.

Lemma release_field_safe {T} d : forall fs size dest fuel k f it,
  object d fs size dest -> (d <= fuel)%nat ->
  (k < entries fs)%nat -> fs !! k = Some f -> iter_at fs dest k it -> size_at fs dest k it ->
  msafe (pb_release_single_field (S := T) fuel it) (fun _ => True).
Proof.
  induction d as [|d IH]; intros fs size dest fuel k f it Hob Hle Hk Hf Hat Hsz.
  { by destruct Hob. }
  destruct fuel as [|fuel]; [lia|]. cbn [pb_release_single_field].
  pose proof (object_member d fs size dest k f Hob Hk Hf) as Hm.
  assert (it_ok fs dest k it) as Hok by (split; [done|split; [done|by left]]).
  eapply msafe_cur; [done..|]. cbv zeta.
  eapply (msafe_bind R W _ _ (fun _ => True)).
  { destruct (Z.eqb_spec (PB_HTYPE (type f)) PB_HTYPE_ONEOF); [|by apply msafe_ret].
    eapply msafe_bind; [eapply read_pSize_safe; eauto|]. intros. by apply msafe_ret. }
  intros [|] _; cbn [negb]; [|by apply msafe_ret].
  rewrite (proj2 (Z.eqb_neq (PB_LTYPE _) PB_LTYPE_EXTENSION) (member_not_extension _ _ _ _ _ Hm)).
  pose proof (mb_atype _ _ _ _ _ Hm) as Ha. rewrite Ha.
  change (PB_ATYPE_STATIC =? PB_ATYPE_CALLBACK) with false.
  change (PB_ATYPE_STATIC =? PB_ATYPE_POINTER) with false. cbn [negb]. rewrite andb_true_r.
  eapply (msafe_bind R W _ _ (fun _ => True)); [|intros; by apply msafe_ret].
  destruct (Z.eqb_spec (PB_LTYPE (type f)) PB_LTYPE_SUBMESSAGE) as [El|El]; [|by apply msafe_ret].
  destruct (member_submessage _ _ _ _ _ Hm El) as (g & Eg & Hg).
  eapply (msafe_bind R W _ _ (fun p => p = pData it)); [by apply msafe_ret|]. intros p ->.
  change (PB_ATYPE_STATIC =? PB_ATYPE_STATIC) with true. cbn [andb].
  eapply msafe_bind; [by eapply item_count_safe|]. intros c Hc. cbv beta in Hc.
  rewrite (ia_data _ _ _ _ Hat). destruct (_ =? 0); cbn [negb]; [by apply msafe_ret|].
  eapply msafe_bind; [by eapply (msafe_of_option R W _ _ (fun x => x = g))|]. intros x ->.
  unfold release_items. eapply msafe_bind; [|intros; by apply msafe_ret].
  apply for_items_safe. intros i Hi. apply msafe_lift.
  assert (object d g (data_size f) (dest + field_offset fs k + Z.of_nat i * data_size f)) as Hg'.
  { apply Hg.
    - eapply item_pos; [done|lia].
    - apply (mb_item _ _ _ _ _ Hm); [lia|..]; intros E;
        destruct (Z.eqb_spec (PB_HTYPE (type f)) PB_HTYPE_REPEATED); try done; lia. }
  eapply release_message_safe; [done|]. intros. eapply IH; try done. lia.
Qed.

Lemma release_safe {T} d fs size dest fuel :
  object d fs size dest -> (d <= fuel)%nat ->
  msafe (pb_release (S := T) fuel fs dest) (fun _ => True).
Proof. intros Hob Hle. eapply release_message_safe; [done|]. intros. by eapply release_field_safe. Qed.

(** ** One nesting level of the decoder *)

(** An iterator came back, at the field [k]. *)
Definition back (fs : list pb_field) (dest : Z) (k : nat) (o : option field_iter) (n : Z) : Prop :=
  match o with Some it => it_ok fs dest k it | None => True end.

Section rec.
Context (rec : list pb_field -> Z -> M istream (option unit)) (d fuel : nat).
Context (rec_safe : forall fs size dest, object d fs size dest -> safe (rec fs dest) any).
Context (fuel_ok : (d < fuel)%nat).
Context (fs : list pb_field) (size dest : Z) (Hob : object (S d) fs size dest).

Lemma decode_with_safe g sz a (noinit : list pb_field -> Z -> M istream (option unit)) :
  object d g sz a -> safe (noinit g a) any -> safe (pb_decode_with fuel noinit g a) any.
Proof.
  intros Hg Hn. unfold pb_decode_with.
  eapply safe_bind_mem; [eapply defaults_safe; [done|lia]|]. intros _ _.
  eapply safe_bind; [exact Hn|]. intros o n _ _.
  eapply (safe_bind_mem _ _ _ _ (fun _ => True)).
  - destruct o; [by apply msafe_ret|]. eapply release_safe; [done|lia].
  - intros _ _. by apply safe_ret.
Qed.

Lemma submessage_safe k f a :
  member d fs dest k f -> PB_LTYPE (type f) = PB_LTYPE_SUBMESSAGE -> 0 < a ->
  range_in W a (data_size f) -> safe (pb_dec_submessage rec fuel f a) any.
Proof.
  intros Hm Hl Ha Hr. destruct (member_submessage _ _ _ _ _ Hm Hl) as (g & Eg & Hg).
  specialize (Hg a Ha Hr). unfold pb_dec_submessage. rewrite Eg.
  destruct (Z.eqb_spec (ptr f) 0).
  - intros s w Hs Hw. apply spec_bindo. eapply spec_mono; [by apply (safe_make R W W_R)|].
    intros [sub|] s1 w1 (Hw1 & Hf & Hc); cbv beta iota in Hc |- *.
    + eapply spec_mono; [apply (fin_error R W _ s s1 sub w1 (fun _ => True) Hc Hw1 I)|].
      intros o s2 w2 (? & ? & ? & _). split_and!; [done|done|by eapply framed_trans|done].
    + split_and!; try done. by eapply moved_weaken.
  - eapply (safe_substream R W W_R
      (fun _ => if PB_HTYPE (type f) =? PB_HTYPE_REPEATED
                then pb_decode_with fuel rec g a else rec g a)
      (fun r => let '(status, substream) := r in
                must pb_close_string_substream substream ;; ret status)
      (fun _ => True) (fun _ => True)); [|done|].
    + intros sub w Hsub Hw. apply (safe_at_mono _ _ _ _ _ any); [|done].
      destruct (_ =? _); [eapply decode_with_safe; eauto|eapply rec_safe; eauto]; done.
    + intros s s1 sub st sub' w Hs Hc Hmv Hw _. by eapply fin_close.
Qed.

(** The decoder of a field, on an item of it. *)
Lemma call_safe k f a func :
  member d fs dest k f -> 0 < a -> range_in W a (data_size f) ->
  PB_DECODERS rec fuel !! Z.to_nat (PB_LTYPE (type f)) = Some func ->
  safe (call_decoder func f a)
    (fun o n => PB_LTYPE (type f) <= PB_LTYPE_LAST_PACKABLE -> ate o n).
Proof.
  intros Hm Ha Hr Hf. pose proof (mb_fits _ _ _ _ _ Hm) as Hi. unfold item_fits in Hi.
  pose proof (mb_atype _ _ _ _ _ Hm) as Hat.
  assert (forall b, b <= data_size f -> range_in W a b) as Hsub
    by (intros b Hb; eapply range_in_sub; [exact Hr|lia..]).
  assert (forall m, safe m ate ->
    safe m (fun o n => PB_LTYPE (type f) <= PB_LTYPE_LAST_PACKABLE -> ate o n)) as Hate
    by (intros m Hms; eapply safe_mono; [exact Hms|auto]).
  destruct (member_ltype _ _ _ _ _ Hm) as [E|Hin]; [rewrite <- E in Hf; injection Hf as <-|].
  { eapply safe_mono; [by eapply submessage_safe|]. intros o n _ _. rewrite <- E. done. }
  cbn [In] in Hin.
  repeat (destruct Hin as [E|Hin]; [rewrite <- E in Hf, Hi; injection Hf as <-; apply Hate|]);
    [apply dec_bool_safe, Hsub; by apply Z.leb_le in Hi
    |by apply dec_varint_safe|by apply dec_uvarint_safe|by apply dec_svarint_safe
    |apply dec_fixed32_safe, Hsub; by apply Z.leb_le in Hi
    |apply dec_fixed64_safe, Hsub; by apply Z.leb_le in Hi
    |by apply dec_bytes_safe|by apply dec_string_safe|by apply dec_fixed_length_safe|].
  done.
Qed.

Lemma decoder_exists k f :
  member d fs dest k f ->
  exists func, PB_DECODERS rec fuel !! Z.to_nat (PB_LTYPE (type f)) = Some func.
Proof.
  intros Hm. pose proof (member_ltype _ _ _ _ _ Hm) as Hl. cbn [In] in Hl.
  repeat (destruct Hl as [<-|Hl]; [by eexists|]). done.
Qed.

Lemma packed_safe k f func :
  member d fs dest k f -> fs !! k = Some f -> PB_HTYPE (type f) = PB_HTYPE_REPEATED ->
  PB_LTYPE (type f) <= PB_LTYPE_LAST_PACKABLE ->
  PB_DECODERS rec fuel !! Z.to_nat (PB_LTYPE (type f)) = Some func ->
  forall n it s w, it_ok fs dest k it -> sin R s -> held R w -> bytes_left s < Z.of_nat n ->
  safe_at R W s w (static_packed_loop n f func it) (fun x _ => it_ok fs dest k (snd x)).
Proof.
  intros Hm Hf Hrep Hpk Hfunc. induction n as [|n IH]; intros it s w Hok Hs Hw Hn;
    [destruct Hs as [[_ ?] _]; lia|].
  cbn [static_packed_loop]. apply safe_at_get.
  destruct (0 <? bytes_left s); [|by apply safe_ret].
  eapply safe_at_mem; [done|eapply read_pSize_safe; eauto|]. intros v w1 Hw1 Hv.
  destruct (Z.ltb_spec v (array_size f)) as [Hlt|]; [|by apply safe_ret].
  rewrite (item_offset _ _ _ _ _ _ Hm (conj Hv Hlt)).
  pose proof Hok as (_ & Hat & _). rewrite (ia_data _ _ _ _ Hat).
  eapply safe_at_bind; [done|eapply call_safe; try done|].
  { by eapply item_pos. }
  { by apply (mb_item _ _ _ _ _ Hm). }
  intros [[]|] s2 w2 Hs2 Hw2 Hl2 Hate; [|by apply safe_ret].
  specialize (Hate Hpk). cbn in Hate.
  eapply safe_at_mem; [done|eapply read_pSize_safe; eauto|]. intros c w3 Hw3 _.
  eapply safe_at_mem; [done|eapply write_pSize_safe; eauto|]. intros it' w4 Hw4 [Hok' _].
  apply (safe_at_mono _ _ _ _ _ (fun x _ => it_ok fs dest k (snd x))); [|done].
  apply IH; try done. lia.
Qed.

Lemma safe_cur {A} k it f (c : pb_field -> M istream A) (Q : A -> Z -> Prop) :
  it_ok fs dest k it -> fs !! k = Some f -> safe (c f) Q -> safe (bind (cur_field it) c) Q.
Proof.
  intros (_ & Hat & _) Hf Hc. rewrite (it_lookup _ _ _ _ _ Hat Hf).
  eapply (safe_bind_mem R W _ _ (fun g => g = f)); [by eapply msafe_of_option|]. by intros g ->.
Qed.

(** The decoder runs on the one item of the field. *)
Lemma call_one_safe k f it func (r : field_iter) :
  member d fs dest k f -> PB_HTYPE (type f) <> PB_HTYPE_REPEATED -> it_ok fs dest k it ->
  it_ok fs dest k r -> PB_DECODERS rec fuel !! Z.to_nat (PB_LTYPE (type f)) = Some func ->
  safe (must call_decoder func f (pData it) ;; ret (Some r)) (back fs dest k).
Proof.
  intros Hm Hr (_ & Hat & _) Hok Hf. rewrite (ia_data _ _ _ _ Hat).
  eapply safe_bindo; [eapply call_safe; try done|done|].
  - apply Hm.
  - by eapply member_range.
  - intros. by apply safe_ret.
Qed.

Lemma static_packed_safe k f func it :
  member d fs dest k f -> fs !! k = Some f -> it_ok fs dest k it ->
  PB_HTYPE (type f) = PB_HTYPE_REPEATED -> PB_LTYPE (type f) <= PB_LTYPE_LAST_PACKABLE ->
  PB_DECODERS rec fuel !! Z.to_nat (PB_LTYPE (type f)) = Some func ->
  safe (substream <-? pb_make_string_substream ;;
        r <- on_stream substream
               (static_packed_loop (S (Z.to_nat (bytes_left substream))) f func it) ;;
        let '((status, it), substream) := r in
        if negb (bytes_left substream =? 0) then PB_RETURN_ERROR "array overflow"
        else
          must pb_close_string_substream substream ;;
          match status with Some _ => ret (Some it) | None => return_false end)
    (back fs dest k).
Proof.
  intros Hm Hf Hok Hrep Hpk Hfunc. eapply safe_mono.
  - eapply (safe_substream R W W_R
      (fun substream => static_packed_loop (S (Z.to_nat (bytes_left substream))) f func it)
      _ (fun x => it_ok fs dest k (snd x)) (fun o => back fs dest k o 0)); [|done|].
    + intros sub w Hsub Hw. eapply packed_safe; eauto. destruct Hsub as [[_ ?] _]. lia.
    + intros s s1 sub [st it'] sub' w Hs Hc Hmv Hw Hok'. cbn [snd] in Hok'.
      destruct (negb _); [by eapply fin_error|]. by destruct st; eapply fin_close.
  - intros [x|] n _; done.
Qed.

Lemma static_safe k f wt it :
  member d fs dest k f -> fs !! k = Some f -> it_ok fs dest k it ->
  safe (decode_static_field rec fuel wt it) (back fs dest k).
Proof.
  intros Hm Hf Hok. destruct (decoder_exists k f Hm) as [func Hfunc].
  unfold decode_static_field. eapply safe_cur; [done..|]. cbv zeta.
  eapply (safe_bind_mem R W _ _ (fun g => g = func)); [by eapply msafe_of_option|]. intros g ->.
  destruct (HTYPE_cases (type f)) as [E|[E|[E|E]]]; rewrite E;
    cbn [Z.eqb PB_HTYPE_REQUIRED PB_HTYPE_OPTIONAL PB_HTYPE_REPEATED PB_HTYPE_ONEOF Pos.eqb].
  - eapply call_one_safe; try done. by rewrite E.
  - eapply (safe_bind_mem _ _ _ _ (fun _ => True)).
    + destruct (pSize_is_pData it); [by apply msafe_ret|]. unfold write_has.
      rewrite (ok_size fs dest k it f) by (done || by rewrite E).
      apply (msafe_store_u R W W_R 1). intros i Hi.
      replace i with (dest + field_size_offset fs k) by lia. by apply (mb_flag _ _ _ _ _ Hm).
    + intros _ _. eapply call_one_safe; try done. by rewrite E.
  - destruct (Z.leb_spec (PB_LTYPE (type f)) PB_LTYPE_LAST_PACKABLE);
      rewrite ?andb_true_r, ?andb_false_r; [destruct (wt =? PB_WT_STRING);
      [by apply static_packed_safe|]|].
    all: eapply safe_bind_mem; [eapply read_pSize_safe; eauto|]; intros v Hv; cbv beta in Hv;
      eapply safe_bind_mem; [eapply write_pSize_safe; eauto|]; intros it' [Hok' _];
      destruct (Z.leb_spec (array_size f) v); [by apply safe_error|];
      destruct Hok as (_ & Hat & _); rewrite (ia_data _ _ _ _ Hat);
      rewrite (item_offset _ _ _ _ _ _ Hm) by lia;
      (eapply safe_bindo; [eapply call_safe; try done|done|intros; by apply safe_ret]);
      [by eapply item_pos|by apply (mb_item _ _ _ _ _ Hm)].
  - eapply safe_bind_mem; [eapply read_pSize_safe; eauto|]. intros which _.
    assert (PB_HTYPE (type f) <> PB_HTYPE_REPEATED) as Hnr by (by rewrite E).
    eapply (safe_bind_mem _ _ _ _ (fun _ => True)).
    + destruct (Z.eqb_spec (PB_LTYPE (type f)) PB_LTYPE_SUBMESSAGE) as [El|]; [|by apply msafe_ret].
      destruct (negb _); [|by apply msafe_ret]. cbn [andb].
      destruct (member_submessage _ _ _ _ _ Hm El) as (g & Eg & Hg).
      pose proof Hok as (_ & Hat & _). rewrite (ia_data _ _ _ _ Hat).
      pose proof (member_range _ _ _ _ _ Hm Hnr) as Hr.
      eapply msafe_bind; [by apply msafe_memset|]. intros _ _.
      eapply msafe_bind; [by eapply (msafe_of_option R W _ _ (fun x => x = g))|]. intros x ->.
      eapply defaults_safe; [apply Hg; [apply Hm|done]|lia].
    + intros _ _. eapply safe_bind_mem; [eapply write_pSize_safe; eauto|]. intros it' [Hok' _].
      by eapply call_one_safe.
Qed.

(** Any iterator over the object. *)
Definition at_some (it : field_iter) : Prop := exists k, it_ok fs dest k it.
Definition back_some (o : option field_iter) (n : Z) : Prop :=
  match o with Some it => at_some it | None => True end.

Lemma back_weaken k o n : back fs dest k o n -> back_some o n.
Proof. destruct o; [|done]. intros Hb. by exists k. Qed.

Lemma some_field k it :
  it_ok fs dest k it -> exists f, fs !! k = Some f /\ member d fs dest k f.
Proof.
  intros (Hk & _ & _). destruct (object_wf _ _ _ _ Hob) as (Hwf & _).
  destruct (wf_lookup fs _ _ Hwf (Nat.lt_le_incl _ _ Hk)) as [f Hf]. exists f.
  split; [done|]. by eapply object_member.
Qed.

Lemma find_safe {T} k it t :
  it_ok fs dest k it ->
  PbSafe.msafe R W (S := T) (of_res (pb_field_iter_find it t)) (fun x =>
    exists k', it_ok fs dest k' (snd x) /\
               (size_at fs dest k it -> size_at fs dest k' (snd x))).
Proof.
  intros Hok. destruct (object_wf _ _ _ _ Hob) as (Hwf & Hn0 & Hn & Hd).
  destruct (find_ok fs dest Hwf Hn0 Hn Hd k it t Hok) as (b & it' & k' & E & Hok' & Hsz).
  eapply msafe_of_res; [exact E|]. exists k'. done.
Qed.

Lemma release_union_safe k f it :
  fs !! k = Some f -> it_ok fs dest k it -> PB_HTYPE (type f) = PB_HTYPE_ONEOF ->
  safe (pb_release_union_field fuel it) back_some.
Proof.
  intros Hf Hok E. destruct (some_field k it Hok) as (f' & Hf' & Hm).
  rewrite Hf in Hf'. injection Hf' as <-. unfold pb_release_union_field.
  eapply safe_cur; [done..|]. eapply safe_bind_mem; [eapply read_pSize_safe; eauto|].
  intros old _. cbv zeta. destruct (_ || _); [apply safe_ret; by exists k|].
  assert (size_at fs dest k it) as Hs by (eapply ok_size; try done; by rewrite E).
  eapply safe_bind_mem; [by apply find_safe|]. intros [b it1] (k1 & Hok1 & Hs1). cbn [fst snd] in *.
  destruct (negb b); [by apply safe_error|]. specialize (Hs1 Hs).
  destruct (some_field k1 it1 Hok1) as (f1 & Hf1 & Hm1).
  eapply safe_bind_mem.
  { eapply (release_field_safe (S d)); try done; apply Hok1. }
  intros _ _. eapply safe_bind_mem; [by apply find_safe|].
  intros [b2 it2] (k2 & Hok2 & _). cbn [fst snd] in *.
  destruct (negb b2); [by apply safe_error|].
  destruct (some_field k2 it2 Hok2) as (f2 & Hf2 & Hm2).
  eapply safe_cur; [done..|]. rewrite (mb_atype _ _ _ _ _ Hm2).
  change (PB_ATYPE_STATIC =? PB_ATYPE_POINTER) with false.
  eapply (safe_bind_mem _ _ _ _ (fun _ => True)); [by apply msafe_ret|]. intros _ _.
  apply safe_ret. by exists k2.
Qed.

Lemma decode_field_safe wt it : at_some it -> safe (decode_field rec fuel wt it) back_some.
Proof.
  intros [k Hok]. destruct (some_field k it Hok) as (f & Hf & Hm). unfold decode_field.
  eapply safe_cur; [done..|]. eapply (safe_bindo _ _ _ _ back_some); [|done|].
  { destruct (Z.eqb_spec (PB_HTYPE (type f)) PB_HTYPE_ONEOF);
      [by eapply release_union_safe|apply safe_ret; by exists k]. }
  intros it' n _ [k' Hok']. destruct (some_field k' it' Hok') as (f' & Hf' & Hm').
  eapply safe_cur; [done..|]. cbv zeta. rewrite (mb_atype _ _ _ _ _ Hm'), Z.eqb_refl.
  eapply safe_mono; [by eapply static_safe|]. intros o m _. apply back_weaken.
Qed.

(** The locals of [pb_decode_noinit]. *)
Definition state_ok (ds : dec_state) : Prop :=
  at_some (d_iter ds) /\ 0 <= fixed_count_size ds /\
  match fixed_count_field ds with Some k => (k < entries fs)%nat | None => True end.
Definition state_back (o : option dec_state) (n : Z) : Prop :=
  match o with Some ds => state_ok ds | None => True end.

Lemma unknown_safe t wt ds :
  state_ok ds -> t < 2 ^ 29 -> safe (decode_unknown rec fuel t wt ds) state_back.
Proof.
  intros Hds Ht. unfold decode_unknown.
  eapply (safe_bind_mem _ _ _ _ (fun x => match x with
    | Some (ds', b) => state_ok ds' /\ b = false | None => False end)).
  2:{ intros [[ds' b]|]; [|done]. intros [Hds' ->].
      eapply safe_bindo; [by apply safe_skip_field|done|]. intros. by apply safe_ret. }
  destruct (_ <=? t); [|by apply msafe_ret].
  destruct Hds as ([k Hok] & Hc & Hfc). destruct (object_wf _ _ _ _ Hob) as (Hwf & Hn0 & Hn & Hd).
  destruct (find_extension_ok fs dest Hwf Hn0 Hn Hd k (d_iter ds)) as (it' & k' & E & Hok'); [|done|].
  { intros i g Hi Hg. eapply member_not_extension. by eapply object_member. }
  eapply (msafe_bind _ _ _ _ (fun y => y = (false, it'))); [by eapply msafe_of_res|]. intros y ->.
  destruct (some_field k' it' Hok') as (f & Hf & Hm).
  eapply msafe_cur; [apply Hok'|done|]. cbv zeta.
  rewrite (proj2 (Z.leb_gt (2 ^ 32 - 1) t)) by lia.
  apply msafe_ret. split; [|done]. split; [by exists k'|]. done.
Qed.

Lemma wrong_safe {T} ds :
  state_ok ds -> PbSafe.msafe R W (S := T) (fixed_count_wrong ds) (fun _ => True).
Proof.
  intros ([k Hok] & _ & Hc). unfold fixed_count_wrong.
  destruct (fixed_count_field ds) as [j|]; [|by apply msafe_ret].
  destruct Hok as (_ & [Hfs _ _ _ _] & _). rewrite Hfs.
  destruct (object_wf _ _ _ _ Hob) as (Hwf & _).
  destruct (wf_lookup fs _ _ Hwf (Nat.lt_le_incl _ _ Hc)) as [g Hg].
  eapply msafe_bind; [by eapply (msafe_of_option R W _ _ (fun _ => True))|].
  intros. by apply msafe_ret.
Qed.

Lemma known_safe wt ds : state_ok ds -> safe (decode_known rec fuel wt ds) state_back.
Proof.
  intros Hds. pose proof Hds as ([k Hok] & Hc & Hfc). unfold decode_known.
  destruct (some_field k _ Hok) as (f & Hf & Hm). eapply safe_cur; [done..|].
  eapply (safe_bindo _ _ _ _ state_back); [|done|].
  - destruct (Z.eqb_spec (PB_HTYPE (type f)) PB_HTYPE_REPEATED) as [E|]; [|by apply safe_ret].
    destruct (pSize_is_pData _); [|by apply safe_ret]. cbn [andb]. cbv zeta.
    assert (forall fcf fcs, 0 <= fcs ->
      match fcf with Some j => (j < entries fs)%nat | None => True end ->
      safe (ret (Some (DecState
        (Iter (it_fields (d_iter ds)) (pos (d_iter ds)) (required_field_index (d_iter ds))
              (dest_struct (d_iter ds)) (pData (d_iter ds)) (SizeLocal fcs))
        (fields_seen ds) (extension_range_start ds) fcf fcs))) state_back) as Hcont.
    { intros fcf fcs Hfcs Hfcf. apply safe_ret. split; [|done]. exists k.
      destruct Hok as (? & [? ? ? ? ?] & _). split; [done|]. split; [done|]. right.
      exists f, fcs. done. }
    destruct (bool_decide _); [by apply Hcont|].
    eapply safe_bind_mem; [by apply wrong_safe|]. intros [|] _; [by apply safe_error|].
    apply Hcont; [done|]. destruct Hok as (? & [_ -> _ _ _] & _). done.
  - intros ds' n _ ([k' Hok'] & Hc' & Hfc'). cbv zeta.
    eapply safe_bindo; [by apply decode_field_safe; exists k'|done|].
    intros it' n' _ Hit'. apply safe_ret. split; [done|]. split; [|done].
    destruct Hit' as (k2 & _ & _ & [Hs|(g & v & _ & _ & Hs & Hv)]); by rewrite Hs.
Qed.

Lemma loop_safe n ds s w :
  state_ok ds -> sin R s -> held R w -> bytes_left s < Z.of_nat n ->
  safe_at R W s w (decode_loop rec fuel n ds) state_back.
Proof.
  revert ds s w; induction n as [|n IH]; intros ds s w Hds Hs Hw Hn;
    [destruct Hs as [[_ ?] _]; lia|].
  cbn [decode_loop]. apply safe_at_get. destruct (_ =? 0); [by apply safe_ret|].
  eapply safe_at_bind; [done|by apply safe_tag|]. intros t s1 w1 Hs1 Hw1 Hl1 Ht.
  destruct (t_ok t) eqn:Eok; cbn [negb]; [|destruct (t_eof t); by apply safe_ret].
  specialize (Ht Eok). pose proof Hds as ([k Hok] & Hc & Hfc).
  eapply safe_at_mem; [done|by apply find_safe|]. intros [b it'] w2 Hw2 (k' & Hok' & _).
  cbn [fst snd] in *. cbv zeta.
  assert (state_ok (set_iter it' ds)) as Hds' by (split; [by exists k'|done]).
  eapply (safe_at_bindo _ _ _ _ _ _ state_back); [done| |done|].
  { destruct (negb b); [apply unknown_safe; try done; lia|by apply known_safe]. }
  intros ds2 s3 w3 Hs3 Hw3 Hl3 Hds2.
  apply (safe_at_mono _ _ _ _ _ state_back); [apply IH; try done; lia|done].
Qed.

Lemma noinit_body_safe : safe (pb_decode_noinit_body rec fuel fs dest) any.
Proof.
  destruct (object_wf _ _ _ _ Hob) as (Hwf & Hn0 & Hn & Hd).
  destruct (begin_ok fs dest Hwf Hn0 Hn Hd) as (it & E & Hok & _).
  unfold pb_decode_noinit_body.
  eapply (safe_bind_mem _ _ _ _ (fun x => x = (true, it))); [by eapply msafe_of_res|]. intros x ->.
  apply safe_get. intros s w Hs Hw. eapply (safe_at_bindo _ _ _ _ _ _ state_back); [done| |done|].
  { apply loop_safe; try done; [|destruct Hs as [[_ ?] _]; lia]. split; [by exists 0%nat|]. done. }
  intros ds s1 w1 Hs1 Hw1 _ Hds. eapply safe_at_mem; [done|by apply wrong_safe|].
  intros [|] w2 Hw2 _; [by apply safe_error|].
  destruct Hds as ([k Hok'] & _). unfold check_required.
  pose proof Hok' as (Hk & [Hfs _ _ _ _] & _).
  destruct (seek_end_ok fs dest Hwf Hn0 Hn Hd (length (it_fields (d_iter ds))) k (d_iter ds))
    as (c & t & it' & k' & E' & Hend); [done|rewrite Hfs; unfold entries; lia|].
  eapply safe_at_mem; [done|by eapply (msafe_of_res R W _ _ (fun x => x = (c, t, it')))|].
  intros x w3 Hw3 ->. destruct (some_field k' it' Hend) as (f & Hf & Hm).
  revert s1 w3 Hs1 Hw3. clear - Hend Hf Hm. intros s1 w3 Hs1 Hw3.
  refine (safe_cur k' it' f _ (fun b n' => any b (_ + n')) Hend Hf _ s1 w3 Hs1 Hw3).
  cbv zeta. destruct (required_seen _ _); [by apply safe_ret|by apply safe_error].
Qed.
End rec.

(** ** The levels together *)

Lemma noinit_safe d : forall fuel fs size dest,
  object d fs size dest -> (d < fuel)%nat -> safe (pb_decode_noinit fuel fs dest) any.
Proof.
  induction d as [|d IH]; intros fuel fs size dest Hob Hle; [by destruct Hob|].
  destruct fuel as [|fuel]; [lia|]. cbn [pb_decode_noinit].
  eapply noinit_body_safe; try done; [|lia]. intros g sz a Hg. eapply IH; [done|lia].
Qed.

Lemma decode_safe d fuel fs size dest :
  object d fs size dest -> (d < fuel)%nat -> safe (pb_decode fuel fs dest) any.
Proof.
  intros Hob Hle. unfold pb_decode, pb_decode_with.
  eapply safe_bind_mem; [eapply defaults_safe; [done|lia]|]. intros _ _.
  eapply safe_bind; [by eapply noinit_safe|]. intros o n _ _.
  eapply (safe_bind_mem _ _ _ _ (fun _ => True)).
  - destruct o; [by apply msafe_ret|]. eapply release_safe; [done|lia].
  - intros _ _. by apply safe_ret.
Qed.
End safety.

(** ** The theorem *)

(** C1: [pb_decode] on untrusted input.  Take a message type whose members are all
    stored in place and fit the structure, nested less than [d] deep
    ([static_message]), an initialised structure at [dest] and any [bytes_left s]
    bytes of input, whatever they are.  Then the call returns, true or false: it
    never reads or writes outside the objects it was given, never divides by zero or
    calls a null decoder, and a fuel of more than [d] is enough for every loop and
    the recursion.  Only the structure is written to, it is initialised afterwards,
    no heap block appears or goes, and the stream stays inside its buffer. *)
Theorem pb_decode_safe `{PbEnv} `{Allocator} consts d fuel fs size dest s w :
  static_message consts d fs size = true -> (d < fuel)%nat -> 0 < dest ->
  i_callback s = IBuf -> 0 <= bytes_left s < 2 ^ 64 ->
  range_in (cell_ok (w_mem w)) (i_state s) (bytes_left s) ->
  range_in (cell_ok (w_mem w)) dest size ->
  (forall a n, consts a n = true -> range_in (cell_ok (w_mem w)) a n) ->
  exists o s' w', pb_decode fuel fs dest s w = Ret (o, s', w') /\
    range_in (cell_ok (w_mem w')) dest size /\
    (forall a, ~ dest <= a < dest + size -> w_mem w' !! a = w_mem w !! a) /\
    w_blocks w' = w_blocks w /\
    i_callback s' = IBuf /\ i_state s <= i_state s' /\ 0 <= bytes_left s' /\
    i_state s' + bytes_left s' <= i_state s + bytes_left s.
Proof.
  intros Ht Hf Hd Hcb Hl Hin Hobj Hc.
  assert (safe (cell_ok (w_mem w)) (fun a => dest <= a < dest + size)
            (pb_decode fuel fs dest) any) as Hs.
  { eapply decode_safe; [by intros a Ha; apply Hobj|exact Hc| |exact Hf]. split; [done..|].
    by intros i Hi. }
  specialize (Hs s w (conj (conj Hcb Hl) Hin) (fun a Ha => Ha)). unfold safe_at, spec in Hs.
  destruct (pb_decode fuel fs dest s w) as [[[o s'] w']| |]; try done.
  destruct Hs as (Hm & Hw' & [Hfr Hb] & _). destruct Hm. exists o, s', w'.
  split_and!; try done; try lia; [|congruence]. intros i Hi. apply Hw', Hobj, Hi.
Qed.

(** An uninitialised sample structure is no structure to decode into; one of zeros
    is.  The input is an unterminated varint in a nested message. *)
Definition safe_world (input : bytes) : world :=
  World (alloc_range (alloc_range empty 2000 (replicate 44 (Some 0))) 1000 (map Some input)) empty.

Lemma alloc_cell_ok m a bs :
  bytes_ok bs -> range_in (cell_ok (alloc_range m a (map Some bs))) a (Z.of_nat (length bs)).
Proof.
  intros Hb i Hi. unfold cell_ok. rewrite alloc_range_lookup, decide_True by (rewrite length_map; lia).
  destruct (lookup_lt_is_Some_2 bs (Z.to_nat (i - a)) ltac:(lia)) as [b E].
  exists b. split; [by eapply Forall_lookup_1|]. rewrite list_lookup_fmap, E. done.
Qed.

Lemma pb_decode_safe_witness :
  let input := [0x08; 0x96; 0x01; 0x12; 0x04; 0x08; 0xFF; 0xFF; 0xFF] in
  exists o s' w',
    pb_decode 3 Sample_fields 2000 (pb_istream_from_buffer 1000 9) (safe_world input)
      = Ret (o, s', w') /\
    range_in (cell_ok (w_mem w')) 2000 44 /\
    (forall a, ~ 2000 <= a < 2000 + 44 -> w_mem w' !! a = w_mem (safe_world input) !! a) /\
    w_blocks w' = w_blocks (safe_world input) /\
    i_callback s' = IBuf /\ 1000 <= i_state s' /\ 0 <= bytes_left s' /\
    i_state s' + bytes_left s' <= 1000 + 9.
Proof.
  intros input.
  apply (pb_decode_safe (fun _ _ => false) 2 3 Sample_fields 44 2000
           (pb_istream_from_buffer 1000 9) (safe_world input)).
  - vm_compute. reflexivity.
  - lia.
  - lia.
  - reflexivity.
  - cbn. lia.
  - apply (alloc_cell_ok _ 1000 input). repeat constructor; unfold is_byte; lia.
  - intros i Hi. destruct (alloc_cell_ok ∅ 2000 (replicate 44 0)) with (i := i) as (b & Hb & E).
    + apply Forall_replicate. unfold is_byte. lia.
    + cbn. lia.
    + exists b. split; [exact Hb|]. rewrite <- E. unfold safe_world. cbn [w_mem].
      rewrite alloc_range_lookup, decide_False by (cbn; lia). reflexivity.
  - intros a n Hf. discriminate Hf.
Defined.
