(* ===== verification/PbSample.v ===== *)
(** * nanopb: sample runs

    The encoder and the decoder, executed on the sample message of PbSizing.v; a
    decoder run that shows what happens to field number 0 in a message type that
    has no fields. *)
From Stdlib Require Import ZArith Lia.
From stdpp Require Import prelude strings gmap list numbers.
From S2P Require Import Prelude CMem PbCommon PbStream PbConcrete PbScalar PbEncode PbSizing PbDecode PbPosition.
Local Open Scope Z_scope.
Local Open Scope c_scope.

Definition sample_encoded : bytes :=
  [0x08; 0x96; 0x01; 0x12; 0x04; 0x08; 0x05; 0x10; 0x07; 0x2A; 0x03; 0x03; 0xC8; 0x01].

Definition succeeds {S} (r : res (option unit * S * world)) : bool :=
  match r with Ret (Some tt, _, _) => true | _ => false end.
Lemma succeeds_run {S} (r : res (option unit * S * world)) :
  succeeds r = true -> exists s w, r = Ret (Some tt, s, w).
Proof. destruct r as [[[[[]|] s] w]| |]; try done. by exists s, w. Qed.

(** The memory a run leaves. *)
Definition mem_after {A S} (r : res (A * S * world)) : mem :=
  match r with Ret (_, _, w) => w_mem w | _ => empty end.

Example sample_encode :
  let r := pb_encode 3 Sample_fields 1000 (pb_ostream_from_buffer 2000 20)
             (world_of 1000 sample_message 2000 20) in
  succeeds r = true /\ load (mem_after r) 2000 14 = Some sample_encoded.
Proof. split; vm_compute; reflexivity. Qed.

Definition sample_input : istream := pb_istream_from_buffer 1000 14.
Definition sample_world : world := world_of 1000 sample_encoded 2000 44.
Definition sample_decoded := pb_decode 3 Sample_fields 2000 sample_input sample_world.

(** Every member of the structure is back (the unused items are not). *)
Example sample_decode :
  succeeds sample_decoded = true /\
  load (mem_after sample_decoded) 2000 4 = Some [150; 0; 0; 0] /\
  load (mem_after sample_decoded) 2004 1 = Some [1] /\
  load (mem_after sample_decoded) 2008 12 = Some [5; 0; 0; 0; 0; 0; 0; 0; 7; 0; 0; 0] /\
  load (mem_after sample_decoded) 2024 12 = Some [2; 0; 0; 0; 3; 0; 0; 0; 200; 0; 0; 0].
Proof. repeat split; vm_compute; reflexivity. Qed.

Lemma pb_decode_position_witness :
  exists s' w', sample_decoded = Ret (Some tt, s', w') /\
    i_callback s' = IBuf /\ 0 <= bytes_left s' <= 14 /\
    1000 <= i_state s' /\ i_state s' + bytes_left s' <= 1000 + 14 /\
    (Some tt <> None -> i_state s' + bytes_left s' = 1000 + 14).
Proof.
  destruct (succeeds_run sample_decoded) as (s' & w' & E); [vm_compute; reflexivity|].
  exists s', w'. split; [exact E|].
  apply (pb_decode_position 3 Sample_fields 2000 sample_input sample_world (Some tt) s' w');
    [intros fn f arg; apply keeps_ub|intros fn e tag wt; apply keeps_ub|reflexivity|cbn; lia|exact E].
Defined.

(** Field number 0 in a message type without fields.  The input [01 01] has a
    64-bit value with field number 0 (and is too short for one), but the search
    matches the terminator of the descriptor array, whose tag is 0, and decodes a
    bool: [pb_decode] returns true, and stores a byte at the start of the structure. *)
Theorem empty_message_field_0 :
  let r := pb_decode 2 Empty_fields 2000 (pb_istream_from_buffer 1000 2)
             (world_of 1000 [1; 1] 2000 1) in
  succeeds r = true /\ load (mem_after r) 2000 1 = Some [1].
Proof. split; vm_compute; reflexivity. Qed.

(** An array of fixed size has no count: its size pointer is its data pointer.  The
    default value of a repeated field still stores a [pb_size_t] there, and runs
    over the end of a structure whose last member is an array of two bools. *)
Definition FixedArray_fields : list pb_field :=
  [PbField 1 0x00 0 0 1 0 0; PbField 2 0x20 0 0 1 2 0; PB_LAST_FIELD].
Lemma small_fixed_array_overrun :
  pb_decode 3 FixedArray_fields 2000 (pb_istream_from_buffer 1000 0) (world_of 1000 [] 2000 3) = UB.
Proof. vm_compute. reflexivity. Qed.
