(* ===== verification/ConstantTime.v ===== *)
(** * BoringSSL: constant-time selection (crypto/internal.h)

    Masks computed without branches on 64-bit words, and the proof that each is
    all ones exactly when its comparison holds - for [constant_time_lt_w] and
    [constant_time_is_zero_w] the statements the comments of the header hand to an
    SMT solver at 32 bits.  [value_barrier_w] is the identity. *)
From Stdlib Require Import ZArith Lia.
From stdpp Require Import prelude numbers list.
From S2P Require Import Prelude.
Local Open Scope Z_scope.

Definition CONSTTIME_TRUE_W : Z := 2 ^ 64 - 1.
Definition CONSTTIME_FALSE_W : Z := 0.
Definition CONSTTIME_TRUE_8 : Z := 0xff.

(** [0u - (a >> (sizeof(a) * 8 - 1))] *)
Definition constant_time_msb_w (a : Z) : Z := u64 (0 - Z.shiftr a (8 * 8 - 1)).

Definition constant_time_lt_w (a b : Z) : Z :=
  constant_time_msb_w (Z.lxor a (Z.lor (Z.lxor a b) (Z.lxor (u64 (a - b)) a))).
Definition constant_time_lt_8 (a b : Z) : Z := u8 (constant_time_lt_w a b).
Definition constant_time_ge_w (a b : Z) : Z := u64 (Z.lnot (constant_time_lt_w a b)).
Definition constant_time_ge_8 (a b : Z) : Z := u8 (constant_time_ge_w a b).

Definition constant_time_is_zero_w (a : Z) : Z :=
  constant_time_msb_w (Z.land (u64 (Z.lnot a)) (u64 (a - 1))).
Definition constant_time_is_zero_8 (a : Z) : Z := u8 (constant_time_is_zero_w a).
Definition constant_time_eq_w (a b : Z) : Z := constant_time_is_zero_w (Z.lxor a b).
Definition constant_time_eq_8 (a b : Z) : Z := u8 (constant_time_eq_w a b).
(** The arguments are [int]. *)
Definition constant_time_eq_int (a b : Z) : Z := constant_time_eq_w (u64 a) (u64 b).
Definition constant_time_eq_int_8 (a b : Z) : Z := constant_time_eq_8 (u64 a) (u64 b).

Definition constant_time_select_w (mask a b : Z) : Z :=
  Z.lor (Z.land mask a) (Z.land (u64 (Z.lnot mask)) b).
Definition constant_time_select_8 (mask a b : Z) : Z :=
  let m := u8 mask in u8 (Z.lor (Z.land m a) (Z.land (Z.lnot m) b)).
Definition constant_time_select_int (mask a b : Z) : Z :=
  s32 (constant_time_select_w mask (u64 a) (u64 b)).

(** [dst] and [src] do not overlap. *)
Fixpoint constant_time_conditional_memcpy (dst src : bytes) (mask : Z) : bytes :=
  match dst, src with
  | d :: dst, s :: src =>
      constant_time_select_8 mask s d :: constant_time_conditional_memcpy dst src mask
  | _, _ => dst
  end.
Fixpoint constant_time_conditional_memxor (dst src : bytes) (mask : Z) : bytes :=
  match dst, src with
  | d :: dst, s :: src =>
      u8 (Z.lxor d (Z.land mask s)) :: constant_time_conditional_memxor dst src mask
  | _, _ => dst
  end.

(** ** Words *)

Definition is_word (a : Z) : Prop := 0 <= a < 2 ^ 64.
(** The mask of a condition. *)
Definition mask_of (b : bool) : Z := if b then CONSTTIME_TRUE_W else CONSTTIME_FALSE_W.
Definition mask8_of (b : bool) : Z := if b then CONSTTIME_TRUE_8 else 0.

Lemma u64_word z : is_word (u64 z).
Proof. apply (wrap_range 64); lia. Qed.

Lemma word_bits a : is_word a <-> 0 <= a /\ (forall i, 64 <= i -> Z.testbit a i = false).
Proof.
  unfold is_word. split.
  - intros Ha. split; [lia|]. intros i Hi. rewrite <- (Z.mod_small a (2 ^ 64)) by lia.
    apply Z.mod_pow2_bits_high. lia.
  - intros [H0 Hb]. split; [done|]. destruct (Z.eq_dec a 0) as [->|Hn]; [lia|].
    destruct (Z.ltb_spec a (2 ^ 64)); [done|].
    assert (64 <= Z.log2 a) by (apply Z.log2_le_pow2; lia).
    pose proof (Z.bit_log2 a ltac:(lia)) as Hl. rewrite Hb in Hl by done. done.
Qed.

Ltac word_bitwise f :=
  rewrite !word_bits; intros [? H1] [? H2]; split; [apply f; lia|];
  intros i Hi; rewrite ?Z.land_spec, ?Z.lor_spec, ?Z.lxor_spec, H1, H2 by done; done.
Lemma word_land a b : is_word a -> is_word b -> is_word (Z.land a b).
Proof. word_bitwise Z.land_nonneg. Qed.
Lemma word_lor a b : is_word a -> is_word b -> is_word (Z.lor a b).
Proof. word_bitwise Z.lor_nonneg. Qed.
Lemma word_lxor a b : is_word a -> is_word b -> is_word (Z.lxor a b).
Proof. word_bitwise Z.lxor_nonneg. Qed.

(** The top bit is the comparison with 2^63. *)
Lemma word_msb a : is_word a -> Z.testbit a 63 = (2 ^ 63 <=? a).
Proof.
  unfold is_word. intros Ha. rewrite Z.testbit_odd, Z.shiftr_div_pow2 by lia.
  destruct (Z.leb_spec (2 ^ 63) a).
  - replace (a / 2 ^ 63) with 1 by (Z.div_mod_to_equations; lia). done.
  - replace (a / 2 ^ 63) with 0 by (Z.div_mod_to_equations; lia). done.
Qed.

Lemma msb_w_bit a : is_word a -> constant_time_msb_w a = mask_of (Z.testbit a 63).
Proof.
  intros Ha. rewrite (word_msb a Ha). unfold constant_time_msb_w, is_word in *.
  rewrite Z.shiftr_div_pow2 by lia. change (2 ^ (8 * 8 - 1)) with (2 ^ 63).
  destruct (Z.leb_spec (2 ^ 63) a); cbn [mask_of].
  - replace (a / 2 ^ 63) with 1 by (Z.div_mod_to_equations; lia). done.
  - replace (a / 2 ^ 63) with 0 by (Z.div_mod_to_equations; lia). done.
Qed.

Lemma lt_w_mask a b : is_word a -> is_word b -> constant_time_lt_w a b = mask_of (a <? b).
Proof.
  intros Ha Hb. unfold constant_time_lt_w.
  rewrite msb_w_bit by eauto using word_lxor, word_lor, u64_word. f_equal.
  rewrite !Z.lxor_spec, Z.lor_spec, !Z.lxor_spec.
  rewrite (word_msb a), (word_msb b), (word_msb _ (u64_word (a - b))) by done.
  unfold is_word in *. unfold u64, wrap.
  destruct (Z.ltb_spec a b), (Z.leb_spec (2 ^ 63) a), (Z.leb_spec (2 ^ 63) b); try lia;
    try done; cbn [xorb orb].
  all: destruct (Z.leb_spec (2 ^ 63) ((a - b) mod 2 ^ 64)); try done;
    exfalso; Z.div_mod_to_equations; lia.
Qed.

Lemma is_zero_w_mask a : is_word a -> constant_time_is_zero_w a = mask_of (a =? 0).
Proof.
  intros Ha. unfold constant_time_is_zero_w.
  rewrite msb_w_bit by eauto using word_land, u64_word. f_equal.
  rewrite Z.land_spec, (word_msb _ (u64_word _)), (word_msb _ (u64_word _)).
  unfold is_word in *. unfold Z.lnot, u64, wrap.
  destruct (Z.eqb_spec a 0) as [->|]; [done|].
  destruct (Z.leb_spec (2 ^ 63) (Z.pred (- a) mod 2 ^ 64)),
    (Z.leb_spec (2 ^ 63) ((a - 1) mod 2 ^ 64)); try done;
    exfalso; Z.div_mod_to_equations; lia.
Qed.

Lemma eq_w_mask a b : is_word a -> is_word b -> constant_time_eq_w a b = mask_of (a =? b).
Proof.
  intros Ha Hb. unfold constant_time_eq_w. rewrite is_zero_w_mask by (by apply word_lxor).
  f_equal. apply Bool.eq_iff_eq_true. by rewrite !Z.eqb_eq, Z.lxor_eq_0_iff.
Qed.

Lemma u8_mask b : u8 (mask_of b) = mask8_of b.
Proof. by destruct b. Qed.

Lemma lt_8_mask a b : is_word a -> is_word b -> constant_time_lt_8 a b = mask8_of (a <? b).
Proof. intros. unfold constant_time_lt_8. by rewrite lt_w_mask, u8_mask. Qed.
Lemma eq_8_mask a b : is_word a -> is_word b -> constant_time_eq_8 a b = mask8_of (a =? b).
Proof. intros. unfold constant_time_eq_8. by rewrite eq_w_mask, u8_mask. Qed.

Lemma land_ones_word a : is_word a -> Z.land CONSTTIME_TRUE_W a = a.
Proof.
  unfold is_word. intros. rewrite Z.land_comm. unfold CONSTTIME_TRUE_W.
  rewrite land_mask by lia. by apply Z.mod_small.
Qed.

Lemma select_w_mask c a b :
  is_word a -> is_word b -> constant_time_select_w (mask_of c) a b = if c then a else b.
Proof.
  intros Ha Hb. unfold constant_time_select_w. destruct c; cbn [mask_of].
  - rewrite land_ones_word by done. change (u64 (Z.lnot CONSTTIME_TRUE_W)) with 0.
    by rewrite Z.land_0_l, Z.lor_0_r.
  - change (u64 (Z.lnot CONSTTIME_FALSE_W)) with CONSTTIME_TRUE_W.
    by rewrite land_ones_word, Z.land_0_l by done.
Qed.

Lemma byte_u8 a : is_byte a -> u8 a = a.
Proof. unfold is_byte, u8. intros. apply wrap_small. lia. Qed.

(** A byte select, for a mask of either width. *)
Lemma select_8_bits c m a b :
  u8 m = mask8_of c -> is_byte a -> is_byte b ->
  constant_time_select_8 m a b = if c then a else b.
Proof.
  intros Hm Ha Hb. unfold constant_time_select_8. rewrite Hm. destruct c; cbn [mask8_of].
  - change (Z.land CONSTTIME_TRUE_8 a) with (Z.land 255 a).
    rewrite (Z.land_comm 255), land_FF. unfold is_byte in *. rewrite (Z.mod_small a) by lia.
    change (Z.lnot CONSTTIME_TRUE_8) with (Z.lnot (2 ^ 8 - 1)).
    assert (Z.land (Z.lnot (2 ^ 8 - 1)) b = 0) as ->.
    { rewrite Z.land_comm. change (2 ^ 8 - 1) with (Z.ones 8).
      rewrite <- Z.ldiff_land, Z.ldiff_ones_r by lia.
      rewrite Z.shiftr_div_pow2, Z.div_small by lia. apply Z.shiftl_0_l. }
    rewrite Z.lor_0_r. apply byte_u8. done.
  - rewrite Z.land_0_l. cbn [Z.lor]. change (Z.lnot 0) with (-1).
    rewrite Z.land_m1_l. by apply byte_u8.
Qed.

Lemma select_8_mask c a b :
  is_byte a -> is_byte b -> constant_time_select_8 (mask_of c) a b = if c then a else b.
Proof. apply select_8_bits, u8_mask. Qed.
Lemma select_8_mask8 c a b :
  is_byte a -> is_byte b -> constant_time_select_8 (mask8_of c) a b = if c then a else b.
Proof. apply select_8_bits. by destruct c. Qed.

(** [constant_time_lt_w] and [constant_time_ge_w] are all ones or zero as their
    unsigned 64-bit comparison holds or not. *)
Theorem constant_time_lt_spec a b :
  is_word a -> is_word b ->
  constant_time_lt_w a b = (if a <? b then 2 ^ 64 - 1 else 0) /\
  constant_time_ge_w a b = (if b <=? a then 2 ^ 64 - 1 else 0).
Proof.
  intros Ha Hb. unfold constant_time_ge_w. rewrite lt_w_mask by done.
  split; [done|]. rewrite Z.leb_antisym. by destruct (a <? b).
Qed.

(** a select on a mask made by [constant_time_eq_w] is a conditional on equality,
    for words, and the conditional copy replaces the destination or leaves it. *)
Theorem constant_time_select_spec a b x y dst src :
  is_word a -> is_word b -> is_word x -> is_word y ->
  bytes_ok dst -> bytes_ok src -> length src = length dst ->
  constant_time_select_w (constant_time_eq_w a b) x y = (if a =? b then x else y) /\
  constant_time_conditional_memcpy dst src (constant_time_eq_w a b) =
    (if a =? b then src else dst).
Proof.
  intros Ha Hb Hx Hy Hd Hs Hl. rewrite eq_w_mask by done.
  split; [by apply select_w_mask|]. revert src Hs Hl.
  induction Hd as [|d dst Hd1 Hd IH]; intros [|s src] Hs Hl; try done.
  - by destruct (a =? b).
  - apply Forall_cons_iff in Hs as [Hs1 Hs]. cbn [constant_time_conditional_memcpy].
    rewrite select_8_mask, IH by (done || by injection Hl). by destruct (a =? b).
Qed.

Lemma constant_time_lt_spec_witness :
  constant_time_lt_w 3 (2 ^ 63) = 2 ^ 64 - 1 /\ constant_time_ge_w 3 (2 ^ 63) = 0.
Proof. apply (constant_time_lt_spec 3 (2 ^ 63)); split; lia. Defined.

Lemma constant_time_select_spec_witness :
  constant_time_select_w (constant_time_eq_w 5 5) 7 9 = 7 /\
  constant_time_conditional_memcpy [1; 2] [3; 4] (constant_time_eq_w 5 5) = [3; 4].
Proof.
  apply (constant_time_select_spec 5 5 7 9 [1; 2] [3; 4]);
    try (split; lia); try (repeat constructor; lia); reflexivity.
Defined.
