(* ===== verification/PosixTime.v ===== *)
(** * BoringSSL: POSIX time (crypto/asn1/posix_time.c)

    Conversion between the proleptic Gregorian calendar in UTC and seconds since
    1970, both ways, for the years 0 to 9999.  [int] and [int64_t] values stay
    far inside their ranges here, so they are plain integers; C's division
    truncates ([Z.quot], [Z.rem]). *)
From Stdlib Require Import ZArith Lia.
From stdpp Require Import prelude numbers list.
From S2P Require Import Prelude.
Local Open Scope Z_scope.

Definition SECS_PER_HOUR : Z := 60 * 60.
Definition SECS_PER_DAY : Z := 24 * SECS_PER_HOUR.

(** The members of [struct tm] the code uses. *)
Record tm := Tm {
  tm_year : Z; tm_mon : Z; tm_mday : Z; tm_hour : Z; tm_min : Z; tm_sec : Z
}.

Definition is_leap (year : Z) : bool :=
  ((Z.rem year 4 =? 0) && negb (Z.rem year 100 =? 0)) || (Z.rem year 400 =? 0).

Definition is_valid_date (year month day : Z) : bool :=
  if (day <? 1) || (month <? 1) || (year <? 0) || (9999 <? year) then false
  else
    if (month =? 1) || (month =? 3) || (month =? 5) || (month =? 7) || (month =? 8) ||
       (month =? 10) || (month =? 12)
    then (0 <? day) && (day <=? 31)
    else if (month =? 4) || (month =? 6) || (month =? 9) || (month =? 11)
    then (0 <? day) && (day <=? 30)
    else if month =? 2 then
      if is_leap year then (0 <? day) && (day <=? 29) else (0 <? day) && (day <=? 28)
    else false.

Definition is_valid_time (hours minutes seconds : Z) : bool :=
  negb ((hours <? 0) || (minutes <? 0) || (seconds <? 0) || (23 <? hours) ||
        (59 <? minutes) || (59 <? seconds)).

Definition is_valid_epoch_time (time : Z) : bool :=
  (-62167219200 <=? time) && (time <=? 253402300799).

Definition posix_time_from_utc (year month day hours minutes seconds : Z) : option Z :=
  if negb (is_valid_date year month day) || negb (is_valid_time hours minutes seconds)
  then None
  else
    let year := if month <=? 2 then year - 1 else year in
    let era := Z.quot (if 0 <=? year then year else year - 399) 400 in
    let year_of_era := year - era * 400 in
    let day_of_year :=
      Z.quot (153 * (if 2 <? month then month - 3 else month + 9) + 2) 5 + day - 1 in
    let day_of_era :=
      year_of_era * 365 + Z.quot year_of_era 4 - Z.quot year_of_era 100 + day_of_year in
    let posix_days := era * 146097 + day_of_era - 719468 in
    Some (posix_days * SECS_PER_DAY + hours * SECS_PER_HOUR + minutes * 60 + seconds).

(** Year, month, day, hours, minutes, seconds. *)
Definition utc_from_posix_time (time : Z) : option (Z * Z * Z * Z * Z * Z) :=
  if negb (is_valid_epoch_time time) then None
  else
    let days := Z.quot time SECS_PER_DAY in
    let leftover_seconds := Z.rem time SECS_PER_DAY in
    let '(days, leftover_seconds) :=
      if leftover_seconds <? 0 then (days - 1, leftover_seconds + SECS_PER_DAY)
      else (days, leftover_seconds) in
    let days := days + 719468 in
    let era := Z.quot (if 0 <? days then days else days - 146096) 146097 in
    let day_of_era := days - era * 146097 in
    let year_of_era :=
      Z.quot (day_of_era - Z.quot day_of_era 1460 + Z.quot day_of_era 36524 -
              Z.quot day_of_era 146096) 365 in
    let out_year := year_of_era + era * 400 in
    let day_of_year :=
      day_of_era - (365 * year_of_era + Z.quot year_of_era 4 - Z.quot year_of_era 100) in
    let month_of_year := Z.quot (5 * day_of_year + 2) 153 in
    let out_month := if month_of_year <? 10 then month_of_year + 3 else month_of_year - 9 in
    let out_year := if out_month <=? 2 then out_year + 1 else out_year in
    let out_day := day_of_year - Z.quot (153 * month_of_year + 2) 5 + 1 in
    let out_hours := Z.quot leftover_seconds SECS_PER_HOUR in
    let leftover_seconds := Z.rem leftover_seconds SECS_PER_HOUR in
    Some (out_year, out_month, out_day, out_hours, Z.quot leftover_seconds 60,
          Z.rem leftover_seconds 60).

Definition OPENSSL_tm_to_posix (t : tm) : option Z :=
  posix_time_from_utc (tm_year t + 1900) (tm_mon t + 1) (tm_mday t) (tm_hour t)
    (tm_min t) (tm_sec t).

Definition OPENSSL_posix_to_tm (time : Z) : option tm :=
  match utc_from_posix_time time with
  | None => None
  | Some (y, mo, d, h, mi, s) => Some (Tm (y - 1900) (mo - 1) d h mi s)
  end.

(** [time_t] is 64 bits wide. *)
Definition OPENSSL_timegm (t : tm) : option Z := OPENSSL_tm_to_posix t.
Definition OPENSSL_gmtime (time : Z) : option tm := OPENSSL_posix_to_tm time.

Definition OPENSSL_gmtime_adj (t : tm) (off_day offset_sec : Z) : option tm :=
  match OPENSSL_tm_to_posix t with
  | None => None
  | Some posix_time =>
      match utc_from_posix_time (posix_time + off_day * SECS_PER_DAY + offset_sec) with
      | None => None
      | Some (y, mo, d, h, mi, s) => Some (Tm (y - 1900) (mo - 1) d h mi s)
      end
  end.

(** Days and seconds. *)
Definition OPENSSL_gmtime_diff (from to : tm) : option (Z * Z) :=
  match OPENSSL_tm_to_posix to with
  | None => None
  | Some time_to =>
      match OPENSSL_tm_to_posix from with
      | None => None
      | Some time_from =>
          let timediff := time_to - time_from in
          let daydiff := Z.quot timediff SECS_PER_DAY in
          let timediff := Z.rem timediff SECS_PER_DAY in
          if (2 ^ 31 - 1 <? daydiff) || (daydiff <? - 2 ^ 31) then None
          else Some (daydiff, timediff)
      end
  end.
