(* ===== verification/PosixTimeSpec.v ===== *)
(** * BoringSSL: POSIX time is a bijection

    The two conversions of posix_time.c are inverse on their whole range.  A day
    count splits into 400-year eras of 146097 days, years that start on March 1
    and days of the year; the formulas for each step are checked against that
    decomposition. *)
From Stdlib Require Import ZArith Lia Zquot.
From stdpp Require Import prelude numbers list.
From S2P Require Import Prelude PosixTime.
Local Open Scope Z_scope.

Ltac euclid := Z.to_euclidean_division_equations; lia.

(** A property of the first [n] numbers, by evaluation. *)
Lemma below_forall (P : Z -> Prop) `{forall x, Decision (P x)} n x :
  forallb (fun x => bool_decide (P x)) (seqZ 0 n) = true -> 0 <= x < n -> P x.
Proof.
  rewrite forallb_forall. intros H1 Hx. apply (bool_decide_unpack _).
  rewrite H1; [done|]. apply list_elem_of_In, elem_of_seqZ. lia.
Qed.

(** ** Years of an era *)

(** Day of the era on which year [y] starts. *)
Definition year_start (y : Z) : Z := y * 365 + y / 4 - y / 100.
(** The leap day is the last day of the year before. *)
Definition year_days (y : Z) : Z := if is_leap (y + 1) then 366 else 365.

Definition leap_div (y : Z) : bool :=
  ((y mod 4 =? 0) && negb (y mod 100 =? 0)) || (y mod 400 =? 0).

Lemma is_leap_div y : is_leap y = leap_div y.
Proof.
  unfold is_leap, leap_div.
  assert ((Z.rem y 4 =? 0) = (y mod 4 =? 0) /\ (Z.rem y 100 =? 0) = (y mod 100 =? 0) /\
    (Z.rem y 400 =? 0) = (y mod 400 =? 0)) as (-> & -> & ->); [|done].
  split_and!; apply Bool.eq_iff_eq_true; rewrite !Z.eqb_eq; euclid.
Qed.

Lemma is_leap_period y k : is_leap (y + k * 400) = is_leap y.
Proof.
  rewrite !is_leap_div. unfold leap_div.
  assert ((y + k * 400) mod 4 = y mod 4) as ->
    by (replace (y + k * 400) with (y + k * 100 * 4) by lia; apply Z.mod_add; lia).
  assert ((y + k * 400) mod 100 = y mod 100) as ->
    by (replace (y + k * 400) with (y + k * 4 * 100) by lia; apply Z.mod_add; lia).
  by rewrite Z.mod_add by lia.
Qed.

Definition year_of (doe : Z) : Z :=
  Z.quot (doe - Z.quot doe 1460 + Z.quot doe 36524 - Z.quot doe 146096) 365.

Lemma year_of_step x : 0 <= x -> x + 1 < 146097 -> year_of x <= year_of (x + 1).
Proof. intros Hx Hb. unfold year_of. apply Z.quot_le_mono; [lia|]. euclid. Qed.

Lemma year_of_mono a b : 0 <= a -> a <= b -> b < 146097 -> year_of a <= year_of b.
Proof.
  intros Ha Hab Hb. replace b with (a + Z.of_nat (Z.to_nat (b - a))) in * by lia.
  induction (Z.to_nat (b - a)) as [|n IH]; [rewrite Z.add_0_r; lia|].
  pose proof (year_of_step (a + Z.of_nat n)) as Hs.
  replace (a + Z.of_nat (S n)) with (a + Z.of_nat n + 1) by lia. lia.
Qed.

Lemma year_bounds y :
  0 <= y < 400 ->
  year_of (year_start y) = y /\ year_of (year_start y + year_days y - 1) = y /\
  year_start y + year_days y = (if y =? 399 then 146097 else year_start (y + 1)) /\
  0 <= year_start y /\ year_start y + year_days y <= 146097.
Proof.
  intros Hy. apply (below_forall (fun y =>
    year_of (year_start y) = y /\ year_of (year_start y + year_days y - 1) = y /\
    year_start y + year_days y = (if y =? 399 then 146097 else year_start (y + 1)) /\
    0 <= year_start y /\ year_start y + year_days y <= 146097) 400); [|done].
  by vm_compute.
Qed.

Lemma year_days_range y : 365 <= year_days y <= 366.
Proof. unfold year_days. destruct (is_leap _); lia. Qed.

(** The formula finds the year of every day of an era. *)
Lemma year_found y doy :
  0 <= y < 400 -> 0 <= doy < year_days y ->
  year_of (year_start y + doy) = y /\ 0 <= year_start y + doy < 146097.
Proof.
  intros Hy Hd. destruct (year_bounds y Hy) as (H1 & H2 & _ & H3 & H4). split; [|lia].
  pose proof (year_of_mono (year_start y) (year_start y + doy)).
  pose proof (year_of_mono (year_start y + doy) (year_start y + year_days y - 1)). lia.
Qed.

Lemma year_exists doe :
  0 <= doe < 146097 ->
  exists y doy, 0 <= y < 400 /\ 0 <= doy < year_days y /\ doe = year_start y + doy.
Proof.
  intros Hd.
  assert (forall n, (n <= 400)%nat ->
    doe < (if (n =? 400)%nat then 146097 else year_start (Z.of_nat n)) ->
    exists y doy, 0 <= y < 400 /\ 0 <= doy < year_days y /\ doe = year_start y + doy) as H.
  { induction n as [|n IH]; intros Hn Hlt; [change (doe < 0) in Hlt; lia|].
    destruct (Z.ltb_spec doe (year_start (Z.of_nat n))) as [H|H].
    - apply IH; [lia|]. rewrite (proj2 (Nat.eqb_neq n 400)) by lia. done.
    - exists (Z.of_nat n), (doe - year_start (Z.of_nat n)).
      destruct (year_bounds (Z.of_nat n) ltac:(lia)) as (_ & _ & H3 & _).
      destruct (Nat.eqb_spec (S n) 400) as [E|E].
      + assert (Z.of_nat n = 399) as E' by lia. rewrite E' in *.
        change (399 =? 399) with true in H3. cbv iota in H3. lia.
      + rewrite (proj2 (Z.eqb_neq (Z.of_nat n) 399)) in H3 by lia.
        rewrite Nat2Z.inj_succ in Hlt. unfold Z.succ in Hlt. lia. }
  apply (H 400%nat); [lia|]. rewrite Nat.eqb_refl. lia.
Qed.

(** ** Months of a year *)

Definition month_index (month : Z) : Z := if 2 <? month then month - 3 else month + 9.
Definition day_of_year (month day : Z) : Z := (153 * month_index month + 2) / 5 + day - 1.
Definition month_of (doy : Z) : Z :=
  let mp := (5 * doy + 2) / 153 in if mp <? 10 then mp + 3 else mp - 9.
Definition day_of (doy : Z) : Z := doy - (153 * ((5 * doy + 2) / 153) + 2) / 5 + 1.

(** [year] is the calendar year. *)
Definition month_days (year month : Z) : Z :=
  if month =? 2 then if is_leap year then 29 else 28
  else if (month =? 4) || (month =? 6) || (month =? 9) || (month =? 11) then 30 else 31.

Lemma valid_date_iff y m d :
  is_valid_date y m d = true <->
    0 <= y <= 9999 /\ 1 <= m <= 12 /\ 1 <= d <= month_days y m.
Proof.
  unfold is_valid_date, month_days.
  destruct ((d <? 1) || (m <? 1) || (y <? 0) || (9999 <? y)) eqn:E.
  { rewrite !orb_true_iff, !Z.ltb_lt in E. split; [done|]. intros; exfalso; lia. }
  rewrite !orb_false_iff, !Z.ltb_ge in E.
  destruct (Z.leb_spec m 12).
  - assert (m = 1 \/ m = 2 \/ m = 3 \/ m = 4 \/ m = 5 \/ m = 6 \/ m = 7 \/ m = 8 \/ m = 9 \/
            m = 10 \/ m = 11 \/ m = 12) as Hm by lia.
    repeat destruct Hm as [->|Hm]; try subst m; cbn [Z.eqb orb Pos.eqb];
      try destruct (is_leap y); rewrite andb_true_iff, Z.ltb_lt, Z.leb_le; lia.
  - rewrite !(proj2 (Z.eqb_neq m _)) by lia. cbn [orb]. split; [done|lia].
Qed.

Definition short_month (m : Z) : bool := (m =? 4) || (m =? 6) || (m =? 9) || (m =? 11).

(** What the formulas make of month [m] and day [d], and of day [doy]. *)
Definition month_fact (m d : Z) : Prop :=
  (m = 2 -> d <= 29) -> (short_month m = true -> d <= 30) ->
  0 <= day_of_year m d < 366 /\ (m <> 2 \/ d <= 28 -> day_of_year m d < 365) /\
  month_of (day_of_year m d) = m /\ day_of (day_of_year m d) = d /\
  (305 <? day_of_year m d) = (m <=? 2).
#[local] Instance month_fact_dec m d : Decision (month_fact m d).
Proof. unfold month_fact. apply _. Defined.

Definition doy_fact (doy m d : Z) : Prop :=
  1 <= m <= 12 /\ 1 <= d <= 31 /\ (m = 2 -> d <= 29 /\ (d = 29 -> doy = 365)) /\
  (short_month m = true -> d <= 30) /\ day_of_year m d = doy /\
  (305 <? doy) = (m <=? 2).
#[local] Instance doy_fact_dec doy m d : Decision (doy_fact doy m d).
Proof. unfold doy_fact. apply _. Defined.

Lemma doy_month m d : 1 <= m <= 12 -> 1 <= d <= 31 -> month_fact m d.
Proof.
  intros Hm Hd.
  assert (forall q, 0 <= q < 372 -> month_fact (q / 31 + 1) (q mod 31 + 1)) as H.
  { intros q Hq. apply (below_forall (fun q => month_fact (q / 31 + 1) (q mod 31 + 1)) 372);
      [|done]. by vm_compute. }
  specialize (H ((m - 1) * 31 + (d - 1)) ltac:(lia)).
  replace (((m - 1) * 31 + (d - 1)) / 31 + 1) with m in H by euclid.
  by replace (((m - 1) * 31 + (d - 1)) mod 31 + 1) with d in H by euclid.
Qed.

Lemma month_of_doy doy : 0 <= doy < 366 -> doy_fact doy (month_of doy) (day_of doy).
Proof.
  intros Hd. apply (below_forall (fun doy => doy_fact doy (month_of doy) (day_of doy)) 366);
    [|done]. by vm_compute.
Qed.

(** ** Eras *)

Lemma quot_floor d n :
  0 < n -> Z.quot (if 0 <=? d then d else d - (n - 1)) n = d / n.
Proof.
  intros Hn. destruct (Z.leb_spec 0 d); [apply Z.quot_div_nonneg; lia|].
  pose proof (Z.div_mod d n ltac:(lia)) as E. pose proof (Z.mod_pos_bound d n Hn) as Hm.
  set (q := d / n) in *. set (r := d mod n) in *.
  assert (q < 0) by nia.
  replace (d - (n - 1)) with (- (n * (- q) + (n - 1 - r))) by lia.
  rewrite Z.quot_opp_l by lia.
  rewrite Z.quot_div_nonneg by nia. rewrite (Z.mul_comm n), Z.div_add_l by lia.
  rewrite Z.div_small by lia. lia.
Qed.

(** Days since March 1 of year 0: the era, the year in it, the day in that. *)
Definition day_number (era yoe doy : Z) : Z := era * 146097 + year_start yoe + doy.

(** March-based year and its parts, of a date. *)
Definition march_year (year month : Z) : Z := if month <=? 2 then year - 1 else year.

Lemma posix_time_value y m d h mi s :
  is_valid_date y m d = true -> is_valid_time h mi s = true ->
  posix_time_from_utc y m d h mi s =
    Some ((day_number (march_year y m / 400) (march_year y m mod 400) (day_of_year m d)
           - 719468) * 86400 + (h * 3600 + mi * 60 + s)).
Proof.
  intros Hd Ht. unfold posix_time_from_utc. rewrite Hd, Ht. cbn [negb orb].
  fold (march_year y m). set (Y := march_year y m).
  replace (Y - 399) with (Y - (400 - 1)) by lia. rewrite quot_floor by lia.
  fold (month_index m). apply valid_date_iff in Hd.
  assert (0 <= Y mod 400 < 400) by (apply Z.mod_pos_bound; lia).
  assert (Y - Y / 400 * 400 = Y mod 400) as -> by (Z.div_mod_to_equations; lia).
  assert (0 <= month_index m) by (unfold month_index; destruct (2 <? m) eqn:E; lia).
  rewrite !Z.quot_div_nonneg by lia.
  unfold day_number, year_start, day_of_year, SECS_PER_DAY, SECS_PER_HOUR. f_equal. lia.
Qed.

Lemma utc_value n sod :
  is_valid_epoch_time ((n - 719468) * 86400 + sod) = true -> 0 <= sod < 86400 ->
  utc_from_posix_time ((n - 719468) * 86400 + sod) =
    let doe := n mod 146097 in
    let doy := doe - year_start (year_of doe) in
    Some (n / 146097 * 400 + year_of doe + (if month_of doy <=? 2 then 1 else 0),
          month_of doy, day_of doy, sod / 3600, sod mod 3600 / 60, sod mod 60).
Proof.
  intros Hv Hs. unfold utc_from_posix_time. rewrite Hv. cbn [negb].
  unfold SECS_PER_DAY, SECS_PER_HOUR. change (24 * (60 * 60)) with 86400.
  change (60 * 60) with 3600. set (t := (n - 719468) * 86400 + sod).
  assert ((let days := Z.quot t 86400 in let left := Z.rem t 86400 in
    if left <? 0 then (days - 1, left + 86400) else (days, left)) = (n - 719468, sod)) as E.
  { cbv zeta. unfold t. destruct (Z.ltb_spec (Z.rem ((n - 719468) * 86400 + sod) 86400) 0);
      f_equal; euclid. }
  cbv zeta in E. cbv zeta. rewrite E. clear E Hv t.
  replace (n - 719468 + 719468) with n by lia.
  assert (Z.quot (if 0 <? n then n else n - 146096) 146097 = n / 146097) as ->.
  { destruct (Z.ltb_spec 0 n); euclid. }
  assert (n - n / 146097 * 146097 = n mod 146097) as -> by (Z.div_mod_to_equations; lia).
  pose proof (Z.mod_pos_bound n 146097 ltac:(lia)) as Hdoe.
  set (doe := n mod 146097) in *. fold (year_of doe).
  destruct (year_exists doe Hdoe) as (y & doy & Hy & Hdoy & E).
  destruct (year_found y doy Hy Hdoy) as [Ef _]. rewrite <- E in Ef. rewrite Ef.
  rewrite !(Z.quot_div_nonneg y), (Z.mul_comm 365 y) by lia.
  change (y * 365 + y / 4 - y / 100) with (year_start y).
  assert (doe - year_start y = doy) as -> by lia.
  rewrite (Z.quot_div_nonneg (5 * doy + 2)) by lia.
  assert (0 <= (5 * doy + 2) / 153) by (apply Z.div_pos; lia).
  rewrite (Z.quot_div_nonneg (153 * _ + 2)) by lia.
  change (if (5 * doy + 2) / 153 <? 10 then (5 * doy + 2) / 153 + 3
          else (5 * doy + 2) / 153 - 9) with (month_of doy).
  change (doy - (153 * ((5 * doy + 2) / 153) + 2) / 5 + 1) with (day_of doy).
  rewrite Z.quot_div_nonneg, Z.rem_mod_nonneg by lia.
  assert (0 <= sod mod 3600 < 3600) by (apply Z.mod_pos_bound; lia).
  rewrite Z.quot_div_nonneg, Z.rem_mod_nonneg by lia.
  assert (sod mod 3600 mod 60 = sod mod 60) as -> by euclid.
  repeat f_equal. destruct (month_of doy <=? 2); lia.
Qed.

Lemma day_number_parts era yoe doy :
  0 <= yoe < 400 -> 0 <= doy < year_days yoe ->
  day_number era yoe doy / 146097 = era /\
  day_number era yoe doy mod 146097 = year_start yoe + doy /\
  year_of (day_number era yoe doy mod 146097) = yoe.
Proof.
  intros Hy Hd. destruct (year_found yoe doy Hy Hd) as [E Hr]. unfold day_number.
  assert ((era * 146097 + year_start yoe + doy) mod 146097 = year_start yoe + doy) as Em.
  { rewrite <- Z.add_assoc, Z.add_comm, Z.mod_add by lia. by apply Z.mod_small. }
  split; [|by rewrite Em]. rewrite <- Z.add_assoc, Z.div_add_l by lia.
  rewrite Z.div_small by lia. lia.
Qed.

(** The first and the last day of the range. *)
Lemma day_number_range Y doy :
  -1 <= Y <= 9999 -> 0 <= doy < 366 -> (Y = -1 -> 306 <= doy) -> (Y = 9999 -> doy <= 305) ->
  -60 <= day_number (Y / 400) (Y mod 400) doy <= 3652364.
Proof. intros HY Hd H0 H1. unfold day_number, year_start. euclid. Qed.

Lemma epoch_time n sod :
  0 <= sod < 86400 ->
  is_valid_epoch_time ((n - 719468) * 86400 + sod) = true <-> -60 <= n <= 3652364.
Proof.
  intros Hs. unfold is_valid_epoch_time. rewrite andb_true_iff, !Z.leb_le. lia.
Qed.

Lemma valid_time_iff h mi s :
  is_valid_time h mi s = true <-> 0 <= h <= 23 /\ 0 <= mi <= 59 /\ 0 <= s <= 59.
Proof.
  unfold is_valid_time. rewrite negb_true_iff, !orb_false_iff, !Z.ltb_ge. lia.
Qed.

Lemma leap_march Y : year_days (Y mod 400) = year_days Y.
Proof.
  unfold year_days. replace (Y + 1) with (Y mod 400 + 1 + Y / 400 * 400)
    by (Z.div_mod_to_equations; lia).
  by rewrite is_leap_period.
Qed.

(** A valid date is a day of its March-based year. *)
Lemma valid_date_doy y m d :
  is_valid_date y m d = true ->
  let Y := march_year y m in
  0 <= day_of_year m d < year_days (Y mod 400) /\ -1 <= Y <= 9999 /\
  (Y = -1 -> 306 <= day_of_year m d) /\ (Y = 9999 -> day_of_year m d <= 305) /\
  month_of (day_of_year m d) = m /\ day_of (day_of_year m d) = d /\
  Y + (if m <=? 2 then 1 else 0) = y.
Proof.
  rewrite valid_date_iff. intros (Hy & Hm & Hd). cbv zeta. rewrite leap_march.
  assert (1 <= month_days y m <= 31 /\ (m = 2 -> month_days y m = if is_leap y then 29 else 28) /\
    (short_month m = true -> month_days y m = 30)) as (Hmd & H2 & H4).
  { unfold month_days, short_month. destruct (Z.eqb_spec m 2) as [->|].
    - destruct (is_leap y); repeat split; (lia || done).
    - destruct (_ || _ || _ || _); repeat split; (lia || done). }
  destruct (doy_month m d Hm ltac:(lia)) as (F1 & F2 & F3 & F4 & F5).
  { intros ->. rewrite H2 in Hd by done. destruct (is_leap y); lia. }
  { intros Hs. rewrite H4 in Hd by done. lia. }
  unfold march_year, year_days.
  destruct (Z.leb_spec m 2) as [H|H].
  - apply Z.ltb_lt in F5. replace (y - 1 + 1) with y by lia.
    repeat split; try done; try lia.
    destruct (is_leap y) eqn:El; [lia|]. apply F2.
    destruct (Z.eq_dec m 2) as [->|]; [rewrite H2 in Hd by done; lia|lia].
  - apply Z.ltb_ge in F5. repeat split; try done; try lia.
    destruct (is_leap (y + 1)); lia.
Qed.

Lemma sod_parts h mi s :
  0 <= h <= 23 -> 0 <= mi <= 59 -> 0 <= s <= 59 ->
  let sod := h * 3600 + mi * 60 + s in
  0 <= sod < 86400 /\ sod / 3600 = h /\ sod mod 3600 / 60 = mi /\ sod mod 60 = s.
Proof. intros. cbv zeta. repeat split; try lia; euclid. Qed.

Lemma utc_of_posix y m d h mi s :
  is_valid_date y m d = true -> is_valid_time h mi s = true ->
  exists t, posix_time_from_utc y m d h mi s = Some t /\
    is_valid_epoch_time t = true /\ utc_from_posix_time t = Some (y, m, d, h, mi, s).
Proof.
  intros Hd Ht. rewrite posix_time_value by done. eexists; split; [done|].
  destruct (valid_date_doy y m d Hd) as (F1 & F2 & F3 & F4 & F5 & F6 & F7).
  apply valid_time_iff in Ht as (Hh & Hm & Hs).
  destruct (sod_parts h mi s Hh Hm Hs) as (S0 & S1 & S2 & S3).
  set (Y := march_year y m) in *.
  pose proof (Z.mod_pos_bound Y 400 ltac:(lia)) as Hyoe.
  pose proof (year_days_range (Y mod 400)) as Hyd.
  assert (is_valid_epoch_time ((day_number (Y / 400) (Y mod 400) (day_of_year m d) - 719468)
    * 86400 + (h * 3600 + mi * 60 + s)) = true) as Hv.
  { apply epoch_time; [done|]. apply day_number_range; try done. lia. }
  split; [done|]. rewrite utc_value by done.
  destruct (day_number_parts (Y / 400) (Y mod 400) (day_of_year m d) Hyoe F1)
    as (E1 & E2 & E3).
  cbv zeta. rewrite E3, E2, E1.
  replace (year_start (Y mod 400) + day_of_year m d - year_start (Y mod 400))
    with (day_of_year m d) by lia.
  rewrite F5, F6, S1, S2, S3.
  assert (Y / 400 * 400 + Y mod 400 = Y) as -> by (Z.div_mod_to_equations; lia).
  by rewrite F7.
Qed.

Lemma posix_of_utc t :
  is_valid_epoch_time t = true ->
  exists y m d h mi s, utc_from_posix_time t = Some (y, m, d, h, mi, s) /\
    is_valid_date y m d = true /\ is_valid_time h mi s = true /\
    posix_time_from_utc y m d h mi s = Some t.
Proof.
  intros Hv. set (n := t / 86400 + 719468). set (sod := t mod 86400).
  assert (0 <= sod < 86400) as Hs by (apply Z.mod_pos_bound; lia).
  assert (t = (n - 719468) * 86400 + sod) as E by (unfold n, sod; Z.div_mod_to_equations; lia).
  rewrite E in Hv. pose proof Hv as Hn. apply epoch_time in Hn; [|done].
  rewrite E, utc_value by done. cbv zeta. set (doe := n mod 146097).
  destruct (year_exists doe) as (yoe & doy & Hy & Hdoy & Ed);
    [apply Z.mod_pos_bound; lia|].
  destruct (year_found yoe doy Hy Hdoy) as [Ey _]. rewrite <- Ed in Ey. rewrite Ey.
  assert (doe - year_start yoe = doy) as -> by lia.
  pose proof (year_days_range yoe) as Hyd.
  destruct (month_of_doy doy ltac:(lia)) as (M1 & M2 & M3 & M4 & M5 & M6).
  set (m := month_of doy) in *. set (d := day_of doy) in *. set (Y := n / 146097 * 400 + yoe).
  assert (Y / 400 = n / 146097 /\ Y mod 400 = yoe) as [EY1 EY2].
  { unfold Y. clear - Hy. generalize (n / 146097). intros q. split; euclid. }
  assert (n = day_number (Y / 400) (Y mod 400) doy) as En.
  { unfold day_number. rewrite EY1, EY2. unfold doe in Ed. Z.div_mod_to_equations; lia. }
  set (year := Y + (if m <=? 2 then 1 else 0)).
  assert (march_year year m = Y) as Em.
  { unfold march_year, year. destruct (m <=? 2); lia. }
  assert (0 <= year <= 9999) as Hyear.
  { rewrite En in Hn. unfold day_number in Hn. rewrite EY2 in Hn.
    destruct (year_bounds yoe Hy) as (_ & _ & _ & B1 & B2). unfold year.
    unfold year_start in Hn. destruct (Z.leb_spec m 2) as [H|H];
      [apply Z.ltb_lt in M6|apply Z.ltb_ge in M6]; clear - Hn M6 Hy EY1 Hdoy Hyd; unfold Y in *;
      rewrite EY1 in Hn; euclid. }
  assert (is_valid_date year m d = true) as Hvd.
  { apply valid_date_iff. split; [done|]. split; [done|]. unfold month_days.
    destruct (Z.eqb_spec m 2) as [E2|E2].
    - destruct (M3 E2) as [M3a M3b]. unfold year. rewrite E2.
      change (2 <=? 2) with true. cbv iota.
      destruct (is_leap (Y + 1)) eqn:El; [lia|].
      rewrite <- EY2, leap_march in Hdoy. unfold year_days in Hdoy. rewrite El in Hdoy. lia.
    - fold (short_month m). destruct (short_month m); [split; [lia|by apply M4]|lia]. }
  assert (is_valid_time (sod / 3600) (sod mod 3600 / 60) (sod mod 60) = true) as Hvt.
  { apply valid_time_iff. repeat split; euclid. }
  do 6 eexists. split; [done|]. fold Y year. split; [done|]. split; [done|].
  rewrite posix_time_value, Em, M5, <- En by done. f_equal.
  assert (sod / 3600 * 3600 + sod mod 3600 / 60 * 60 + sod mod 60 = sod) by euclid. lia.
Qed.

(** C28: seconds since 1970 and UTC dates from year 0 to 9999 correspond one to one:
    every valid date and time has a POSIX time in range, from which it is computed
    back, and every POSIX time in range is that of a valid date and time. *)
Theorem posix_time_bijection :
  (forall y m d h mi s,
     is_valid_date y m d = true -> is_valid_time h mi s = true ->
     exists t, posix_time_from_utc y m d h mi s = Some t /\
       is_valid_epoch_time t = true /\ utc_from_posix_time t = Some (y, m, d, h, mi, s)) /\
  (forall t, is_valid_epoch_time t = true ->
     exists y m d h mi s, utc_from_posix_time t = Some (y, m, d, h, mi, s) /\
       is_valid_date y m d = true /\ is_valid_time h mi s = true /\
       posix_time_from_utc y m d h mi s = Some t).
Proof. split; [exact utc_of_posix|exact posix_of_utc]. Qed.

(** [OPENSSL_gmtime_adj] moves a time by exactly the days and seconds it is
    given, or reports that the result is out of range. *)
Theorem gmtime_adj_adds t p days secs :
  OPENSSL_tm_to_posix t = Some p ->
  match OPENSSL_gmtime_adj t days secs with
  | Some t' => OPENSSL_tm_to_posix t' = Some (p + days * 86400 + secs)
  | None => is_valid_epoch_time (p + days * 86400 + secs) = false
  end.
Proof.
  intros Hp. unfold OPENSSL_gmtime_adj. rewrite Hp. change SECS_PER_DAY with 86400.
  destruct (is_valid_epoch_time (p + days * 86400 + secs)) eqn:Ev.
  - destruct (posix_of_utc _ Ev) as (y & m & d & h & mi & s & -> & _ & _ & E).
    unfold OPENSSL_tm_to_posix. cbn. rewrite <- E. f_equal; lia.
  - unfold utc_from_posix_time. by rewrite Ev.
Qed.

(** 1970-01-01 00:00:00 and a day and an hour later. *)
Lemma gmtime_adj_adds_witness :
  match OPENSSL_gmtime_adj (Tm 70 0 1 0 0 0) 1 3600 with
  | Some t' => OPENSSL_tm_to_posix t' = Some (0 + 1 * 86400 + 3600)
  | None => is_valid_epoch_time (0 + 1 * 86400 + 3600) = false
  end.
Proof. apply (gmtime_adj_adds (Tm 70 0 1 0 0 0) 0 1 3600). reflexivity. Defined.
