(* ===== verification/Cbs.v ===== *)
(** * BoringSSL: CBS, the byte-string parser (crypto/bytestring/cbs.c)

    A [CBS] is a view of constant bytes, a pointer and a length: here the list of
    the bytes it covers.  A function that moves the view returns the view it
    leaves behind on every path, success or not; the result is [None] where the
    C function returns zero.  Lengths are [size_t], so below 2^64. *)
From Stdlib Require Import ZArith Lia.
From stdpp Require Import prelude numbers list.
From S2P Require Import Prelude PosixTime.
Local Open Scope Z_scope.

(** ** The monad of a parser *)

Definition parser (A : Type) : Type := bytes -> option A * bytes.

Definition pret {A} (a : A) : parser A := fun cbs => (Some a, cbs).
Definition pfail {A} : parser A := fun cbs => (None, cbs).
Definition pbind {A B} (m : parser A) (k : A -> parser B) : parser B :=
  fun cbs =>
    match m cbs with
    | (Some a, cbs') => k a cbs'
    | (None, cbs') => (None, cbs')
    end.

Declare Scope cbs_scope.
Delimit Scope cbs_scope with cbs.
Bind Scope cbs_scope with parser.
Notation "x <- m ;; k" := (pbind m (fun x => k))
  (at level 100, m at next level, right associativity) : cbs_scope.
Notation "m ;; k" := (pbind m (fun _ => k))
  (at level 100, right associativity) : cbs_scope.
Local Open Scope cbs_scope.

(** A parser run on a view of its own: its answer, the outer view unmoved. *)
Definition on_cbs {A} (m : parser A) (cbs : bytes) : option A := fst (m cbs).
(** [A] or failure. *)
Definition plift {A} (o : option A) : parser A := fun cbs => (o, cbs).

Definition CBS_len (cbs : bytes) : Z := Z.of_nat (length cbs).

(** ** Bytes and integers *)

Definition cbs_get (n : Z) : parser bytes := fun cbs =>
  if CBS_len cbs <? n then (None, cbs)
  else (Some (take (Z.to_nat n) cbs), drop (Z.to_nat n) cbs).

Definition CBS_skip (n : Z) : parser unit := cbs_get n ;; pret tt.

Definition CBS_contains_zero_byte (cbs : bytes) : bool := existsb (Z.eqb 0) cbs.

(** [CRYPTO_memcmp] is zero when the bytes are the same. *)
Definition CBS_mem_equal (cbs data : bytes) : bool :=
  if negb (CBS_len data =? CBS_len cbs) then false else bool_decide (cbs = data).

(** [result <<= 8; result |= data[i];] *)
Definition be_step (result b : Z) : Z := Z.lor (u64 (Z.shiftl result 8)) b.
Definition cbs_get_u (len : Z) : parser Z :=
  data <- cbs_get len ;; pret (foldl be_step 0 data).

Definition CBS_get_u8 : parser Z := fun cbs =>
  match cbs with
  | [] => (None, cbs)
  | v :: r => (Some v, r)
  end.
Definition CBS_get_u16 : parser Z := v <- cbs_get_u 2 ;; pret (u16 v).
Definition CBS_get_u24 : parser Z := v <- cbs_get_u 3 ;; pret (u32 v).
Definition CBS_get_u32 : parser Z := v <- cbs_get_u 4 ;; pret (u32 v).
Definition CBS_get_u64 : parser Z := cbs_get_u 8.

(** [CRYPTO_bswap2], [4] and [8] (crypto/internal.h). *)
Definition CRYPTO_bswap2 (x : Z) : Z :=
  u16 (Z.lor (Z.shiftr x 8) (Z.shiftl x 8)).
Definition CRYPTO_bswap4 (x : Z) : Z :=
  let x := Z.lor (Z.shiftr x 16) (u32 (Z.shiftl x 16)) in
  Z.lor (Z.shiftr (Z.land x 0xff00ff00) 8) (u32 (Z.shiftl (Z.land x 0x00ff00ff) 8)).
Definition CRYPTO_bswap8 (x : Z) : Z :=
  Z.lor (CRYPTO_bswap4 (Z.shiftr x 32)) (u64 (Z.shiftl (CRYPTO_bswap4 (u32 x)) 32)).

Definition CBS_get_u16le : parser Z := v <- CBS_get_u16 ;; pret (CRYPTO_bswap2 v).
Definition CBS_get_u32le : parser Z := v <- CBS_get_u32 ;; pret (CRYPTO_bswap4 v).
Definition CBS_get_u64le : parser Z := v <- cbs_get_u 8 ;; pret (CRYPTO_bswap8 v).

Definition CBS_get_last_u8 : parser Z := fun cbs =>
  match last cbs with
  | None => (None, cbs)
  | Some v => (Some v, take (length cbs - 1) cbs)
  end.

Definition CBS_get_bytes (len : Z) : parser bytes := cbs_get len.
Definition CBS_copy_bytes (len : Z) : parser bytes := cbs_get len.

Definition cbs_get_length_prefixed (len_len : Z) : parser bytes :=
  len <- cbs_get_u len_len ;; CBS_get_bytes len.
Definition CBS_get_u8_length_prefixed : parser bytes := cbs_get_length_prefixed 1.
Definition CBS_get_u16_length_prefixed : parser bytes := cbs_get_length_prefixed 2.
Definition CBS_get_u24_length_prefixed : parser bytes := cbs_get_length_prefixed 3.

(** [OPENSSL_memchr]: the index of the first [c]. *)
Fixpoint memchr (c : Z) (bs : bytes) : option nat :=
  match bs with
  | [] => None
  | b :: r => if b =? c then Some 0%nat else option_map S (memchr c r)
  end.
Definition CBS_get_until_first (c : Z) : parser bytes := fun cbs =>
  match memchr c cbs with
  | None => (None, cbs)
  | Some i => CBS_get_bytes (Z.of_nat i) cbs
  end.

(** ** Decimal and base-128 integers *)

Definition OPENSSL_isdigit (c : Z) : bool := (48 <=? c) && (c <=? 57).
Definition UINT64_MAX : Z := 2 ^ 64 - 1.

(** The loop: the value, [seen_digit] and the view. *)
Fixpoint u64_decimal_loop (v : Z) (seen_digit : bool) (cbs : bytes) :
    option (Z * bool) * bytes :=
  match cbs with
  | [] => (Some (v, seen_digit), cbs)
  | c :: r =>
      if negb (OPENSSL_isdigit c) then (Some (v, seen_digit), cbs)
      else if ((v =? 0) && seen_digit) || (UINT64_MAX / 10 <? v) ||
              (UINT64_MAX - (c - 48) <? u64 (v * 10))
      then (None, r)
      else u64_decimal_loop (u64 (v * 10 + (c - 48))) true r
  end.

Definition CBS_get_u64_decimal : parser Z :=
  x <- u64_decimal_loop 0 false ;;
  if snd x : bool then pret (fst x) else pfail.

Fixpoint base128_loop (v : Z) (cbs : bytes) : option Z * bytes :=
  match cbs with
  | [] => (None, cbs)
  | b :: r =>
      if negb (Z.shiftr v (64 - 7) =? 0) then (None, r)
      else if (v =? 0) && (b =? 0x80) then (None, r)
      else
        let v := Z.lor (u64 (Z.shiftl v 7)) (Z.land b 0x7f) in
        if Z.land b 0x80 =? 0 then (Some v, r) else base128_loop v r
  end.
Definition parse_base128_integer : parser Z := base128_loop 0.

(** ** ASN.1 elements *)

Definition CBS_ASN1_TAG_SHIFT : Z := 24.
Definition CBS_ASN1_CONSTRUCTED : Z := Z.shiftl 0x20 CBS_ASN1_TAG_SHIFT.
Definition CBS_ASN1_TAG_NUMBER_MASK : Z := Z.shiftl 1 (5 + CBS_ASN1_TAG_SHIFT) - 1.
Definition CBS_ASN1_BOOLEAN : Z := 0x1.
Definition CBS_ASN1_INTEGER : Z := 0x2.
Definition CBS_ASN1_OCTETSTRING : Z := 0x4.

(** [~CBS_ASN1_CONSTRUCTED], on 32 bits. *)
Definition not_constructed (tag : Z) : Z :=
  Z.land tag (u32 (Z.lnot CBS_ASN1_CONSTRUCTED)).

Definition parse_asn1_tag : parser Z :=
  tag_byte <- CBS_get_u8 ;;
  let tag := u32 (Z.shiftl (Z.land tag_byte 0xe0) CBS_ASN1_TAG_SHIFT) in
  let tag_number := Z.land tag_byte 0x1f in
  tag_number <-
    (if tag_number =? 0x1f then
       v <- parse_base128_integer ;;
       if (CBS_ASN1_TAG_NUMBER_MASK <? v) || (v <? 0x1f) then pfail else pret (u32 v)
     else pret tag_number) ;;
  let tag := Z.lor tag tag_number in
  if not_constructed tag =? 0 then pfail else pret tag.

(** The out-parameters of [cbs_get_any_asn1_element]. *)
Record element := Element {
  el_out : bytes;
  el_tag : Z;
  el_header_len : Z;
  el_ber_found : bool;
  el_indefinite : bool
}.

(** The length after the tag: total length of the element, header length, and
    the two BER flags.  [None] is a failure.  [header_len] counts the tag and the
    first length byte. *)
Definition parse_asn1_length (ber_ok : bool) (tag header_len : Z) (length_byte : Z) :
    parser (Z * Z * bool * bool) :=
  if Z.land length_byte 0x80 =? 0
  then pret (length_byte + header_len, header_len, false, false)
  else
    let num_bytes := Z.land length_byte 0x7f in
    if ber_ok && negb (Z.land tag CBS_ASN1_CONSTRUCTED =? 0) && (num_bytes =? 0)
    then pret (header_len, header_len, true, true)
    else if (num_bytes =? 0) || (4 <? num_bytes) then pfail
    else
      len64 <- cbs_get_u num_bytes ;;
      let short := len64 <? 128 in
      let padded := Z.shiftr len64 ((num_bytes - 1) * 8) =? 0 in
      if negb ber_ok && (short || padded) then pfail
      else if u64 (len64 + header_len + num_bytes) <? len64 then pfail
      else pret (u64 (len64 + (header_len + num_bytes)), header_len + num_bytes,
                 short || padded, false).

(** The header is read on a copy of the view. *)
Definition cbs_get_any_asn1_element (ber_ok : bool) : parser element := fun cbs =>
  match
    (tag <- parse_asn1_tag ;;
     length_byte <- CBS_get_u8 ;;
     header <- (fun header => (Some header, header)) ;;
     x <- parse_asn1_length ber_ok tag (CBS_len cbs - CBS_len header) length_byte ;;
     pret (tag, x)) cbs
  with
  | (None, _) => (None, cbs)
  | (Some (tag, (len, header_len, ber_found, indefinite)), _) =>
      (out <- CBS_get_bytes len ;;
       pret (Element out tag header_len ber_found indefinite)) cbs
  end.

Definition CBS_get_any_asn1_element : parser element := cbs_get_any_asn1_element false.
Definition CBS_get_any_ber_asn1_element : parser element := cbs_get_any_asn1_element true.

(** Contents and tag. *)
Definition CBS_get_any_asn1 : parser (bytes * Z) :=
  el <- CBS_get_any_asn1_element ;;
  match CBS_skip (el_header_len el) (el_out el) with
  | (None, _) => pfail
  | (Some _, out) => pret (out, el_tag el)
  end.

Definition cbs_get_asn1 (tag_value : Z) (skip_header : bool) : parser bytes :=
  el <- CBS_get_any_asn1_element ;;
  if negb (el_tag el =? tag_value) then pfail
  else if skip_header then
    match CBS_skip (el_header_len el) (el_out el) with
    | (None, _) => pfail
    | (Some _, out) => pret out
    end
  else pret (el_out el).

Definition CBS_get_asn1 (tag_value : Z) : parser bytes := cbs_get_asn1 tag_value true.
Definition CBS_get_asn1_element (tag_value : Z) : parser bytes :=
  cbs_get_asn1 tag_value false.

Definition CBS_peek_asn1_tag (cbs : bytes) (tag_value : Z) : bool :=
  match on_cbs parse_asn1_tag cbs with
  | Some actual_tag => tag_value =? actual_tag
  | None => false
  end.

(** ** INTEGER, BOOLEAN, BIT STRING *)

(** [None]: not an INTEGER; otherwise whether it is negative. *)
Definition CBS_is_valid_asn1_integer (cbs : bytes) : option bool :=
  match cbs with
  | [] => None
  | [first_byte] => Some (negb (Z.land first_byte 0x80 =? 0))
  | first_byte :: second_byte :: _ =>
      if ((first_byte =? 0x00) && (Z.land second_byte 0x80 =? 0)) ||
         ((first_byte =? 0xff) && negb (Z.land second_byte 0x80 =? 0))
      then None
      else Some (negb (Z.land first_byte 0x80 =? 0))
  end.

Definition CBS_is_unsigned_asn1_integer (cbs : bytes) : bool :=
  match CBS_is_valid_asn1_integer cbs with
  | Some is_negative => negb is_negative
  | None => false
  end.

Fixpoint uint64_loop (out : Z) (data : bytes) : option Z :=
  match data with
  | [] => Some out
  | b :: r =>
      if negb (Z.shiftr out 56 =? 0) then None
      else uint64_loop (Z.lor (u64 (Z.shiftl out 8)) b) r
  end.

Definition CBS_get_asn1_uint64 : parser Z :=
  data <- CBS_get_asn1 CBS_ASN1_INTEGER ;;
  if negb (CBS_is_unsigned_asn1_integer data) then pfail
  else plift (uint64_loop 0 data).

(** The bytes are copied, last first, over eight bytes of the sign, which are then
    read as a little-endian [int64_t]. *)
Definition CBS_get_asn1_int64 : parser Z :=
  data <- CBS_get_asn1 CBS_ASN1_INTEGER ;;
  match CBS_is_valid_asn1_integer data with
  | None => pfail
  | Some is_negative =>
      if 8 <? CBS_len data then pfail
      else
        let sign_extend := replicate 8 (if is_negative : bool then 0xff else 0) in
        pret (s64 (le_val (rev data ++ drop (length data) sign_extend)))
  end.

Definition CBS_get_asn1_bool : parser bool :=
  data <- CBS_get_asn1 CBS_ASN1_BOOLEAN ;;
  match data with
  | [value] =>
      if negb (value =? 0) && negb (value =? 0xff) then pfail
      else pret (negb (value =? 0))
  | _ => pfail
  end.

(** [out] and [out_present] in one: [None] when the element is absent. *)
Definition CBS_get_optional_asn1 (tag : Z) : parser (option bytes) := fun cbs =>
  if CBS_peek_asn1_tag cbs tag then (out <- CBS_get_asn1 tag ;; pret (Some out)) cbs
  else (Some None, cbs).

(** The whole of [child] must be the one value [m] parses. *)
Definition whole {A} (m : parser A) (child : bytes) : option A :=
  match m child with
  | (Some a, []) => Some a
  | _ => None
  end.

Definition CBS_get_optional_asn1_octet_string (tag : Z) : parser (option bytes) :=
  child <- CBS_get_optional_asn1 tag ;;
  match child with
  | Some child => out <- plift (whole (CBS_get_asn1 CBS_ASN1_OCTETSTRING) child) ;; pret (Some out)
  | None => pret None
  end.

Definition CBS_get_optional_asn1_uint64 (tag default_value : Z) : parser Z :=
  child <- CBS_get_optional_asn1 tag ;;
  match child with
  | Some child => plift (whole CBS_get_asn1_uint64 child)
  | None => pret default_value
  end.

Definition CBS_get_optional_asn1_bool (tag : Z) (default_value : bool) : parser bool :=
  child <- CBS_get_optional_asn1 tag ;;
  match child with
  | Some child =>
      child2 <- plift (whole (CBS_get_asn1 CBS_ASN1_BOOLEAN) child) ;;
      match child2 with
      | [boolean] =>
          if boolean =? 0 then pret false
          else if boolean =? 0xff then pret true
          else pfail
      | _ => pfail
      end
  | None => pret default_value
  end.

Definition CBS_is_valid_asn1_bitstring (cbs : bytes) : bool :=
  match cbs with
  | [] => false
  | num_unused_bits :: r =>
      if 7 <? num_unused_bits then false
      else if num_unused_bits =? 0 then true
      else
        match fst (CBS_get_last_u8 r) with
        | None => false
        | Some lst => Z.land lst (Z.shiftl 1 num_unused_bits - 1) =? 0
        end
  end.

Definition CBS_asn1_bitstring_has_bit (cbs : bytes) (bit : Z) : bool :=
  if negb (CBS_is_valid_asn1_bitstring cbs) then false
  else
    let byte_num := Z.shiftr bit 3 + 1 in
    let bit_num := 7 - Z.land bit 7 in
    (byte_num <? CBS_len cbs) &&
    match cbs !! Z.to_nat byte_num with
    | Some b => negb (Z.land b (Z.shiftl 1 bit_num) =? 0)
    | None => false
    end.

(** ** Object identifiers *)

Fixpoint valid_oid_loop (prev : Z) (cbs : bytes) : bool :=
  match cbs with
  | [] => Z.land prev 0x80 =? 0
  | v :: r =>
      if (Z.land prev 0x80 =? 0) && (v =? 0x80) then false else valid_oid_loop v r
  end.
Definition CBS_is_valid_asn1_oid (cbs : bytes) : bool :=
  if CBS_len cbs =? 0 then false else valid_oid_loop 0 cbs.

(** ** Times *)

Definition cbs_get_two_digits : parser Z :=
  first_digit <- CBS_get_u8 ;;
  if negb (OPENSSL_isdigit first_digit) then pfail
  else
    second_digit <- CBS_get_u8 ;;
    if negb (OPENSSL_isdigit second_digit) then pfail
    else pret ((first_digit - 48) * 10 + (second_digit - 48)).

Definition is_valid_day (year month day : Z) : bool :=
  if day <? 1 then false
  else if (month =? 1) || (month =? 3) || (month =? 5) || (month =? 7) || (month =? 8) ||
          (month =? 10) || (month =? 12)
  then day <=? 31
  else if (month =? 4) || (month =? 6) || (month =? 9) || (month =? 11) then day <=? 30
  else if month =? 2 then if is_leap year then day <=? 29 else day <=? 28
  else false.

Definition guard (b : bool) : parser unit := if b then pret tt else pfail.

(** A successful parse with [out_tm] non-null; without it only the adjustment at
    the end is left out. *)
Definition rfc5280_time (is_gentime allow_timezone_offset : bool) : parser (tm * Z) :=
  year <-
    (if is_gentime then
       hi <- cbs_get_two_digits ;; lo <- cbs_get_two_digits ;; pret (hi * 100 + lo)
     else
       tmp <- cbs_get_two_digits ;;
       let year := 1900 + tmp in
       let year := if year <? 1950 then year + 100 else year in
       if 2050 <=? year then pfail else pret year) ;;
  month <- cbs_get_two_digits ;; guard (negb ((month <? 1) || (12 <? month))) ;;
  day <- cbs_get_two_digits ;; guard (is_valid_day year month day) ;;
  hour <- cbs_get_two_digits ;; guard (negb (23 <? hour)) ;;
  min <- cbs_get_two_digits ;; guard (negb (59 <? min)) ;;
  sec <- cbs_get_two_digits ;; guard (negb (59 <? sec)) ;;
  tz <- CBS_get_u8 ;;
  offset_sign <-
    (if tz =? 90 then pret 0
     else if tz =? 43 then pret 1
     else if tz =? 45 then pret (-1)
     else pfail) ;;
  offset_seconds <-
    (if negb (offset_sign =? 0) then
       guard allow_timezone_offset ;;
       offset_hours <- cbs_get_two_digits ;; guard (negb (23 <? offset_hours)) ;;
       offset_minutes <- cbs_get_two_digits ;; guard (negb (59 <? offset_minutes)) ;;
       pret (offset_sign * (offset_hours * 3600 + offset_minutes * 60))
     else pret 0) ;;
  rest <- (fun cbs => (Some cbs, cbs)) ;;
  guard (CBS_len rest =? 0) ;;
  pret (Tm (year - 1900) (month - 1) day hour min sec, offset_seconds).

Definition CBS_parse_rfc5280_time_internal (cbs : bytes)
    (is_gentime allow_timezone_offset : bool) : option tm :=
  match on_cbs (rfc5280_time is_gentime allow_timezone_offset) cbs with
  | None => None
  | Some (out_tm, offset_seconds) =>
      if negb (offset_seconds =? 0) then OPENSSL_gmtime_adj out_tm 0 offset_seconds
      else Some out_tm
  end.

Definition CBS_parse_generalized_time (cbs : bytes) (allow_timezone_offset : bool) :
    option tm :=
  CBS_parse_rfc5280_time_internal cbs true allow_timezone_offset.
Definition CBS_parse_utc_time (cbs : bytes) (allow_timezone_offset : bool) : option tm :=
  CBS_parse_rfc5280_time_internal cbs false allow_timezone_offset.
