(* ===== verification/Cbb.v ===== *)
(** * BoringSSL: CBB, the byte-string builder (crypto/bytestring/cbb.c)

    A [CBB] object lives at an address; a length prefix that is still open is a
    second object, the child, which the parent points to and which points back to
    the buffer of the outermost one.  The objects are the state of the monad (a
    store by address, in which a local [CBB] of a function exists for the call and
    a dangling pointer is an access to nothing), the buffers are blocks of the
    memory of [CMem].  An [assert] that fails is undefined behaviour. *)
From Stdlib Require Import ZArith Lia.
From stdpp Require Import prelude strings gmap list numbers sorting.
From S2P Require Import Prelude CMem PosixTime Cbs.
Local Open Scope Z_scope.
Local Open Scope c_scope.

(** ** Objects *)

(** [struct cbb_buffer_st] *)
Record cbb_buffer := Buffer {
  buf : Z;
  len : Z;
  cap : Z;
  can_resize : bool;
  error : bool
}.

(** The union [u]; its arm tells [is_child]. *)
Inductive cbb_union :=
| UBase (b : cbb_buffer)
| UChild (base offset pending_len_len : Z) (pending_is_asn1 : bool).

Record cbb := Cbb { child : Z; u : cbb_union }.

Definition is_child (c : cbb) : bool :=
  match u c with UChild _ _ _ _ => true | UBase _ => false end.

(** The objects by address, and an address above them all.  A local that is not
    initialised yet is [None]. *)
Record cbb_store := Store { objs : gmap Z (option cbb); next_obj : Z }.

Definition cbb_m := M cbb_store.

Definition get_cbb (a : Z) : cbb_m cbb :=
  s <- get_stream ;; of_option (mjoin (objs s !! a)).
Definition set_cbb (a : Z) (c : cbb) : cbb_m unit :=
  s <- get_stream ;;
  match objs s !! a with
  | None => ub
  | Some _ => put_stream (Store (<[a := Some c]> (objs s)) (next_obj s))
  end.

(** [{ CBB local; ... }] *)
Definition with_cbb {A} (k : Z -> cbb_m A) : cbb_m A :=
  s <- get_stream ;;
  let a := next_obj s in
  put_stream (Store (<[a := None]> (objs s)) (a + 1)) ;;
  x <- k a ;;
  s' <- get_stream ;;
  put_stream (Store (delete a (objs s')) (next_obj s')) ;;
  ret x.

Definition set_child (c : cbb) (a : Z) : cbb := Cbb a (u c).

(** Reads and writes through a [struct cbb_buffer_st] pointer. *)
Definition get_buffer (base : Z) : cbb_m cbb_buffer :=
  c <- get_cbb base ;;
  match u c with UBase b => ret b | UChild _ _ _ _ => ub end.
Definition set_buffer (base : Z) (b : cbb_buffer) : cbb_m unit :=
  c <- get_cbb base ;;
  match u c with UBase _ => set_cbb base (Cbb (child c) (UBase b)) | UChild _ _ _ _ => ub end.

Definition set_error (b : cbb_buffer) : cbb_buffer :=
  Buffer (buf b) (len b) (cap b) (can_resize b) true.
Definition set_len (n : Z) (b : cbb_buffer) : cbb_buffer :=
  Buffer (buf b) n (cap b) (can_resize b) (error b).

Section cbb.
Context `{Allocator}.

(** ** Construction *)

Definition cbb_zero : cbb := Cbb 0 (UBase (Buffer 0 0 0 false false)).
Definition CBB_zero (a : Z) : cbb_m unit := set_cbb a cbb_zero.
Definition cbb_init (a buf cap : Z) (can_resize : bool) : cbb_m unit :=
  set_cbb a (Cbb 0 (UBase (Buffer buf 0 cap can_resize false))).

(** [OPENSSL_malloc], [OPENSSL_realloc] and [OPENSSL_free] are [malloc],
    [realloc] and [free]. *)
Definition CBB_init (a initial_capacity : Z) : cbb_m (option unit) :=
  CBB_zero a ;;
  p <- m_realloc 0 initial_capacity ;;
  if (0 <? initial_capacity) && (p =? 0) then return_false
  else cbb_init a p initial_capacity true ;; return_true.

Definition CBB_init_fixed (a p len : Z) : cbb_m (option unit) :=
  CBB_zero a ;; cbb_init a p len false ;; return_true.

Definition CBB_cleanup (a : Z) : cbb_m unit :=
  c <- get_cbb a ;;
  match u c with
  | UChild _ _ _ _ => ub
  | UBase b => if can_resize b then m_free (buf b) else ret tt
  end.

(** ** The buffer *)

(** The address of the free space. *)
Definition cbb_buffer_reserve (base len : Z) : cbb_m (option Z) :=
  if base =? 0 then return_false
  else
    b <- get_buffer base ;;
    let fail := set_buffer base (set_error b) ;; return_false in
    let newlen := u64 (Cbb.len b + len) in
    if newlen <? Cbb.len b then fail
    else if cap b <? newlen then
      if negb (can_resize b) then fail
      else
        let newcap := u64 (cap b * 2) in
        let newcap := if (newcap <? cap b) || (newcap <? newlen) then newlen else newcap in
        newbuf <- m_realloc (buf b) newcap ;;
        if newbuf =? 0 then fail
        else
          set_buffer base (Buffer newbuf (Cbb.len b) newcap (can_resize b) (error b)) ;;
          ret (Some (newbuf + Cbb.len b))
    else ret (Some (buf b + Cbb.len b)).

Definition cbb_buffer_add (base len : Z) : cbb_m (option Z) :=
  out <-? cbb_buffer_reserve base len ;;
  b <- get_buffer base ;;
  set_buffer base (set_len (u64 (Cbb.len b + len)) b) ;;
  ret (Some out).

(** ** Children and flushing *)

Definition cbb_get_base (a : Z) : cbb_m Z :=
  c <- get_cbb a ;;
  match u c with UChild base _ _ _ => ret base | UBase _ => ret a end.

Definition cbb_on_error (a : Z) : cbb_m unit :=
  base <- cbb_get_base a ;;
  b <- get_buffer base ;;
  set_buffer base (set_error b) ;;
  c <- get_cbb a ;;
  set_cbb a (set_child c 0).

(** [goto err] *)
Definition or_error {A} (a : Z) (m : cbb_m (option A)) : cbb_m (option A) :=
  o <- m ;;
  match o with
  | Some x => ret (Some x)
  | None => cbb_on_error a ;; return_false
  end.

(** Bytes [n]-1 down to 0 at [p] are set to [v]'s, what is left of [v] is the result. *)
Fixpoint store_be {S} (n : nat) (p v : Z) : M S Z :=
  match n with
  | O => ret v
  | S i => store_u 1 (p + Z.of_nat i) (u8 v) ;; store_be i p (Z.shiftr v 8)
  end.

(** The length bytes of an ASN.1 element of [len] bytes: how many, the first one,
    and what is left to write. *)
Definition asn1_length_form (len : Z) : option (Z * Z * Z) :=
  if 0xfffffffe <? len then None
  else if 0xffffff <? len then Some (5, 0x84, len)
  else if 0xffff <? len then Some (4, 0x83, len)
  else if 0xff <? len then Some (3, 0x82, len)
  else if 0x7f <? len then Some (2, 0x81, len)
  else Some (1, len, 0).

Definition get_child (a : Z) : cbb_m (Z * Z * Z * bool) :=
  c <- get_cbb a ;;
  match u c with
  | UChild base offset pending is_asn1 => ret (base, offset, pending, is_asn1)
  | UBase _ => ub
  end.

(** The part of [CBB_flush] after the recursive call: the prefix of the child. *)
Definition flush_prefix (a child_addr base child_start : Z) : cbb_m (option unit) :=
  b <- get_buffer base ;;
  ch <- get_child child_addr ;;
  let '(cbase, offset, pending, is_asn1) := ch in
  if (child_start <? offset) || (Cbb.len b <? child_start) then return_false
  else
    let len := Cbb.len b - child_start in
    x <-?
      (if is_asn1 : bool then
         if negb (pending =? 1) then ub
         else
           match asn1_length_form len with
           | None => return_false
           | Some (len_len, initial_length_byte, len') =>
               must (if negb (len_len =? 1) then
                       let extra_bytes := len_len - 1 in
                       must cbb_buffer_add base extra_bytes ;;
                       b <- get_buffer base ;;
                       c_memmove (buf b + child_start + extra_bytes) (buf b + child_start) len ;;
                       return_true
                     else return_true) ;;
               b <- get_buffer base ;;
               store_u 1 (buf b + offset) initial_length_byte ;;
               ch <- get_cbb child_addr ;;
               set_cbb child_addr
                 (Cbb (child ch)
                      (UChild cbase (u64 (offset + 1)) (u8 (len_len - 1)) is_asn1)) ;;
               ret (Some (u64 (offset + 1), u8 (len_len - 1), len'))
           end
       else ret (Some (offset, pending, len))) ;;
    let '(offset, pending, len) := x in
    b <- get_buffer base ;;
    len <- store_be (Z.to_nat pending) (buf b + offset) len ;;
    if negb (len =? 0) then return_false
    else
      ch <- get_cbb child_addr ;;
      match u ch with
      | UChild _ offset pending is_asn1 =>
          set_cbb child_addr (Cbb (child ch) (UChild 0 offset pending is_asn1)) ;;
          c <- get_cbb a ;;
          set_cbb a (set_child c 0) ;;
          return_true
      | UBase _ => ub
      end.

Fixpoint flush_rec (fuel : nat) (a : Z) : cbb_m (option unit) :=
  match fuel with
  | O => out_of_fuel
  | S k =>
      base <- cbb_get_base a ;;
      if base =? 0 then return_false
      else
        b <- get_buffer base ;;
        if error b then return_false
        else
          c <- get_cbb a ;;
          if child c =? 0 then return_true
          else
            ch <- get_child (child c) ;;
            let '(cbase, offset, pending, _) := ch in
            if negb (cbase =? base) then ub
            else
              let child_start := u64 (offset + pending) in
              or_error a
                (must flush_rec k (child c) ;;
                 flush_prefix a (child c) base child_start)
  end.

(** The chain of children has no more links than there are objects. *)
Definition CBB_flush (a : Z) : cbb_m (option unit) :=
  s <- get_stream ;; flush_rec (S (size (objs s))) a.

(** [out_data] and [out_len] are asked for; the buffer and its length. *)
Definition CBB_finish (a : Z) (wanted : bool) : cbb_m (option (Z * Z)) :=
  c <- get_cbb a ;;
  if is_child c then return_false
  else
    must CBB_flush a ;;
    b <- get_buffer a ;;
    if can_resize b && negb wanted then return_false
    else
      set_buffer a (Buffer 0 (len b) (cap b) (can_resize b) (error b)) ;;
      CBB_cleanup a ;;
      ret (Some (buf b, len b)).

Definition CBB_data (a : Z) : cbb_m Z :=
  c <- get_cbb a ;;
  if negb (child c =? 0) then ub
  else
    match u c with
    | UChild base offset pending _ => b <- get_buffer base ;; ret (buf b + offset + pending)
    | UBase b => ret (buf b)
    end.

Definition CBB_len (a : Z) : cbb_m Z :=
  c <- get_cbb a ;;
  if negb (child c =? 0) then ub
  else
    match u c with
    | UChild base offset pending _ =>
        b <- get_buffer base ;;
        if len b <? offset + pending then ub else ret (len b - offset - pending)
    | UBase b => ret (len b)
    end.

Definition cbb_add_child (a out_child len_len : Z) (is_asn1 : bool) : cbb_m (option unit) :=
  c <- get_cbb a ;;
  if negb (child c =? 0) then ub
  else
    base <- cbb_get_base a ;;
    b <- get_buffer base ;;
    let offset := len b in
    prefix_bytes <-? cbb_buffer_add base len_len ;;
    c_memset prefix_bytes 0 len_len ;;
    set_cbb out_child (Cbb 0 (UChild base offset len_len is_asn1)) ;;
    c <- get_cbb a ;;
    set_cbb a (set_child c out_child) ;;
    return_true.

Definition cbb_add_length_prefixed (a out_contents len_len : Z) : cbb_m (option unit) :=
  must CBB_flush a ;; cbb_add_child a out_contents len_len false.
Definition CBB_add_u8_length_prefixed (a out_contents : Z) : cbb_m (option unit) :=
  cbb_add_length_prefixed a out_contents 1.
Definition CBB_add_u16_length_prefixed (a out_contents : Z) : cbb_m (option unit) :=
  cbb_add_length_prefixed a out_contents 2.
Definition CBB_add_u24_length_prefixed (a out_contents : Z) : cbb_m (option unit) :=
  cbb_add_length_prefixed a out_contents 3.

(** ** Bytes and integers *)

Definition CBB_add_space (a len : Z) : cbb_m (option Z) :=
  must CBB_flush a ;; base <- cbb_get_base a ;; cbb_buffer_add base len.

Definition CBB_reserve (a len : Z) : cbb_m (option Z) :=
  must CBB_flush a ;; base <- cbb_get_base a ;; cbb_buffer_reserve base len.

Definition CBB_add_bytes (a : Z) (data : bytes) : cbb_m (option unit) :=
  out <-? CBB_add_space a (Z.of_nat (length data)) ;;
  store_bytes out data ;; return_true.

Definition CBB_add_zeros (a len : Z) : cbb_m (option unit) :=
  out <-? CBB_add_space a len ;; c_memset out 0 len ;; return_true.

Definition CBB_did_write (a len : Z) : cbb_m (option unit) :=
  base <- cbb_get_base a ;;
  b <- get_buffer base ;;
  let newlen := u64 (Cbb.len b + len) in
  c <- get_cbb a ;;
  if negb (child c =? 0) || (newlen <? Cbb.len b) || (cap b <? newlen) then return_false
  else set_buffer base (set_len newlen b) ;; return_true.

Definition cbb_add_u (a v : Z) (len_len : nat) : cbb_m (option unit) :=
  p <-? CBB_add_space a (Z.of_nat len_len) ;;
  v <- store_be len_len p v ;;
  if negb (v =? 0) then cbb_on_error a ;; return_false else return_true.

(** The parameter of each is of the width its name says (32 bits for 24). *)
Definition CBB_add_u8 (a value : Z) : cbb_m (option unit) := cbb_add_u a (u8 value) 1.
Definition CBB_add_u16 (a value : Z) : cbb_m (option unit) := cbb_add_u a (u16 value) 2.
Definition CBB_add_u16le (a value : Z) : cbb_m (option unit) :=
  CBB_add_u16 a (CRYPTO_bswap2 (u16 value)).
Definition CBB_add_u24 (a value : Z) : cbb_m (option unit) := cbb_add_u a (u32 value) 3.
Definition CBB_add_u32 (a value : Z) : cbb_m (option unit) := cbb_add_u a (u32 value) 4.
Definition CBB_add_u32le (a value : Z) : cbb_m (option unit) :=
  CBB_add_u32 a (CRYPTO_bswap4 (u32 value)).
Definition CBB_add_u64 (a value : Z) : cbb_m (option unit) := cbb_add_u a (u64 value) 8.
Definition CBB_add_u64le (a value : Z) : cbb_m (option unit) :=
  CBB_add_u64 a (CRYPTO_bswap8 (u64 value)).

Definition CBB_discard_child (a : Z) : cbb_m unit :=
  c <- get_cbb a ;;
  if child c =? 0 then ret tt
  else
    base <- cbb_get_base a ;;
    ch <- get_cbb (child c) ;;
    match u ch with
    | UBase _ => ub
    | UChild _ offset pending is_asn1 =>
        b <- get_buffer base ;;
        set_buffer base (set_len offset b) ;;
        set_cbb (child c) (Cbb (child ch) (UChild 0 offset pending is_asn1)) ;;
        c' <- get_cbb a ;;
        set_cbb a (set_child c' 0)
    end.

(** ** ASN.1 *)

(** The number of 7-bit digits of [copy]; 64 bits have ten. *)
Fixpoint base128_len (fuel : nat) (copy : Z) : nat :=
  match fuel with
  | O => O
  | S k => if 0 <? copy then S (base128_len k (Z.shiftr copy 7)) else O
  end.

(** Digits [n]-1 down to 0. *)
Fixpoint base128_bytes_loop (a v : Z) (n : nat) : cbb_m (option unit) :=
  match n with
  | O => return_true
  | S i =>
      let byte := u8 (Z.land (Z.shiftr v (7 * Z.of_nat i)) 0x7f) in
      let byte := if (i =? 0)%nat then byte else Z.lor byte 0x80 in
      must CBB_add_u8 a byte ;; base128_bytes_loop a v i
  end.

Definition add_base128_integer (a v : Z) : cbb_m (option unit) :=
  let len_len := base128_len 10 v in
  base128_bytes_loop a v (if (len_len =? 0)%nat then 1%nat else len_len).

Definition CBB_add_asn1 (a out_contents tag : Z) : cbb_m (option unit) :=
  must CBB_flush a ;;
  let tag_bits := Z.land (u8 (Z.shiftr tag CBS_ASN1_TAG_SHIFT)) 0xe0 in
  let tag_number := Z.land tag CBS_ASN1_TAG_NUMBER_MASK in
  must (if 0x1f <=? tag_number then
          must CBB_add_u8 a (Z.lor tag_bits 0x1f) ;; add_base128_integer a tag_number
        else CBB_add_u8 a (Z.lor tag_bits tag_number)) ;;
  cbb_add_child a out_contents 1 true.

(** Bytes 7 down to 0 of [value], without leading zeros. *)
Fixpoint uint64_bytes_loop (c value : Z) (n : nat) (started : bool) :
    cbb_m (option bool) :=
  match n with
  | O => ret (Some started)
  | S i =>
      let byte := Z.land (Z.shiftr value (8 * Z.of_nat i)) 0xff in
      if negb started && (byte =? 0) then uint64_bytes_loop c value i started
      else
        must (if negb started && negb (Z.land byte 0x80 =? 0) then CBB_add_u8 c 0
              else return_true) ;;
        must CBB_add_u8 c byte ;;
        uint64_bytes_loop c value i true
  end.

Definition CBB_add_asn1_uint64_with_tag (a value tag : Z) : cbb_m (option unit) :=
  with_cbb (fun child =>
    o <- (must CBB_add_asn1 a child tag ;;
          started <-? uint64_bytes_loop child value 8 false ;;
          if negb started then CBB_add_u8 child 0 else return_true) ;;
    match o with
    | Some _ => CBB_flush a
    | None => cbb_on_error a ;; return_false
    end).

Definition CBB_add_asn1_uint64 (a value : Z) : cbb_m (option unit) :=
  CBB_add_asn1_uint64_with_tag a value CBS_ASN1_INTEGER.

(** Byte [i] of the 64-bit value, least significant first. *)
Definition byte_of (value : Z) (i : nat) : Z :=
  Z.land (Z.shiftr (u64 value) (8 * Z.of_nat i)) 0xff.

Fixpoint int64_start (value : Z) (start : nat) : nat :=
  match start with
  | O => O
  | S i =>
      if (byte_of value start =? 0xff) && negb (Z.land (byte_of value i) 0x80 =? 0)
      then int64_start value i else start
  end.

(** Bytes [n]-1 down to 0. *)
Fixpoint int64_bytes_loop (c value : Z) (n : nat) : cbb_m (option unit) :=
  match n with
  | O => return_true
  | S i => must CBB_add_u8 c (byte_of value i) ;; int64_bytes_loop c value i
  end.

Definition CBB_add_asn1_int64_with_tag (a value tag : Z) : cbb_m (option unit) :=
  if 0 <=? value then CBB_add_asn1_uint64_with_tag a (u64 value) tag
  else
    let start := int64_start value 7 in
    with_cbb (fun child =>
      o <- (must CBB_add_asn1 a child tag ;; int64_bytes_loop child value (S start)) ;;
      match o with
      | Some _ => CBB_flush a
      | None => cbb_on_error a ;; return_false
      end).

Definition CBB_add_asn1_int64 (a value : Z) : cbb_m (option unit) :=
  CBB_add_asn1_int64_with_tag a value CBS_ASN1_INTEGER.

Definition CBB_add_asn1_octet_string (a : Z) (data : bytes) : cbb_m (option unit) :=
  with_cbb (fun child =>
    or_error a
      (must CBB_add_asn1 a child CBS_ASN1_OCTETSTRING ;;
       must CBB_add_bytes child data ;;
       CBB_flush a)).

Definition CBB_add_asn1_bool (a : Z) (value : bool) : cbb_m (option unit) :=
  with_cbb (fun child =>
    or_error a
      (must CBB_add_asn1 a child CBS_ASN1_BOOLEAN ;;
       must CBB_add_u8 child (if value then 0xff else 0) ;;
       CBB_flush a)).

(** ** Object identifiers *)

(** Consumes the component and the dot after it. *)
Definition parse_dotted_decimal : parser Z := fun cbs =>
  match CBS_get_u64_decimal cbs with
  | (None, cbs) => (None, cbs)
  | (Some out, cbs) =>
      match CBS_get_u8 cbs with
      | (None, cbs) => (Some out, cbs)
      | (Some dot, cbs) =>
          if (dot =? 46) && (0 <? CBS_len cbs) then (Some out, cbs) else (None, cbs)
      end
  end.

(** Each component takes a byte at least, which bounds the loop. *)
Fixpoint oid_components (fuel : nat) (a : Z) (cbs : bytes) : cbb_m (option unit) :=
  if 0 <? CBS_len cbs then
    match fuel with
    | O => out_of_fuel
    | S k =>
        match parse_dotted_decimal cbs with
        | (None, _) => return_false
        | (Some v, cbs) => must add_base128_integer a v ;; oid_components k a cbs
        end
    end
  else return_true.

Definition CBB_add_asn1_oid_from_text (a_ : Z) (text : bytes) : cbb_m (option unit) :=
  must CBB_flush a_ ;;
  match parse_dotted_decimal text with
  | (None, _) => return_false
  | (Some a, cbs) =>
      match parse_dotted_decimal cbs with
      | (None, _) => return_false
      | (Some b, cbs) =>
          if (2 <? a) || ((a <? 2) && (39 <? b)) || (UINT64_MAX - 80 <? b)
          then return_false
          else
            must add_base128_integer a_ (u64 (40 * a + b)) ;;
            oid_components (length cbs) a_ cbs
      end
  end.

(** [snprintf("%" PRIu64)] *)
Fixpoint decimal_loop (fuel : nat) (v : Z) (acc : bytes) : bytes :=
  match fuel with
  | O => acc
  | S k =>
      let acc := 48 + v mod 10 :: acc in
      if v <? 10 then acc else decimal_loop k (v / 10) acc
  end.
(** A 64-bit number has at most 20 decimal digits. *)
Definition decimal (v : Z) : bytes := decimal_loop 20 v [].

Definition add_decimal (out v : Z) : cbb_m (option unit) := CBB_add_bytes out (decimal v).

Fixpoint oid_text_loop (fuel : nat) (c : Z) (copy : bytes) : cbb_m (option unit) :=
  if CBS_len copy =? 0 then return_true
  else
    match fuel with
    | O => out_of_fuel
    | S k =>
        match parse_base128_integer copy with
        | (None, _) => return_false
        | (Some v, copy) =>
            must CBB_add_u8 c 46 ;; must add_decimal c v ;; oid_text_loop k c copy
        end
    end.

(** [CBS_asn1_oid_to_text] (cbs.c): the address of the NUL-terminated text. *)
Definition CBS_asn1_oid_to_text (cbs : bytes) : cbb_m (option Z) :=
  with_cbb (fun c =>
    o <-
      (must CBB_init c 32 ;;
       match parse_base128_integer cbs with
       | (None, _) => return_false
       | (Some v, copy) =>
           must (if 80 <=? v then
                   must CBB_add_bytes c [50; 46] ;; add_decimal c (v - 80)
                 else
                   must add_decimal c (v / 40) ;;
                   must CBB_add_u8 c 46 ;;
                   add_decimal c (v mod 40)) ;;
           must oid_text_loop (length copy) c copy ;;
           must CBB_add_u8 c 0 ;;
           x <-? CBB_finish c true ;;
           ret (Some (fst x))
       end) ;;
    match o with
    | Some txt => ret (Some txt)
    | None => CBB_cleanup c ;; return_false
    end).

(** ** SET OF *)

(** [memcmp(a, b, n)], its sign. *)
Fixpoint memcmp (a b : bytes) (n : nat) : Z :=
  match n, a, b with
  | S k, x :: a, y :: b => if x <? y then -1 else if y <? x then 1 else memcmp a b k
  | _, _, _ => 0
  end.

Definition compare_set_of_element (a b : bytes) : Z :=
  let a_len := CBS_len a in
  let b_len := CBS_len b in
  let min_len := if a_len <? b_len then a_len else b_len in
  let ret := memcmp a b (Z.to_nat min_len) in
  if negb (ret =? 0) then ret
  else if a_len =? b_len then 0
  else if a_len <? b_len then -1 else 1.

(** The elements of the contents, in order; every element takes a byte at least. *)
Fixpoint set_of_children (fuel : nat) (cbs : bytes) : res (option (list bytes)) :=
  if CBS_len cbs =? 0 then Ret (Some [])
  else
    match fuel with
    | O => OutOfFuel
    | S k =>
        match CBS_get_any_asn1_element cbs with
        | (None, _) => Ret None
        | (Some el, cbs) =>
            match set_of_children k cbs with
            | Ret (Some r) => Ret (Some (el_out el :: r))
            | x => x
            end
        end
    end.

Definition set_of_le (a b : bytes) : Prop := compare_set_of_element a b <= 0.
#[global] Instance set_of_le_dec : RelDecision set_of_le.
Proof. intros a b. apply Z_le_dec. Defined.

(** [qsort]: any sorted permutation; elements that compare equal are equal. *)
Definition qsort_set_of (l : list bytes) : list bytes := merge_sort set_of_le l.

(** [memcpy] of each child to where the last one ended. *)
Fixpoint write_children {S} (out : Z) (l : list bytes) : M S unit :=
  match l with
  | [] => ret tt
  | c :: r => store_bytes out c ;; write_children (out + Z.of_nat (length c)) r
  end.

Definition CBB_flush_asn1_set_of (a : Z) : cbb_m (option unit) :=
  must CBB_flush a ;;
  out <- CBB_data a ;;
  buf_len <- CBB_len a ;;
  cbs <- load_bytes out buf_len ;;
  children <- (fun s w => match set_of_children (length cbs) cbs with
                          | Ret x => Ret (x, s, w)
                          | UB => UB
                          | OutOfFuel => OutOfFuel
                          end) ;;
  match children with
  | None => return_false
  | Some children =>
      if (length children <? 2)%nat then return_true
      else
        (** the copy the children alias, and the array of [CBS] *)
        copy <- m_realloc 0 buf_len ;;
        (if negb (copy =? 0) then store_bytes copy cbs else ret tt) ;;
        arr <- m_realloc 0 (16 * Z.of_nat (length children)) ;;
        r <- (if (copy =? 0) || (arr =? 0) then return_false
              else write_children out (qsort_set_of children) ;; return_true) ;;
        m_free copy ;;
        m_free arr ;;
        ret r
  end.

End cbb.
