(* ===== verification/Unicode.v ===== *)
(** * BoringSSL: characters in byte strings (crypto/bytestring/unicode.c)

    UTF-8, Latin-1, UCS-2 and UTF-32 characters, read from a [CBS] and written to
    a [CBB]. *)
From Stdlib Require Import ZArith Lia.
From stdpp Require Import prelude strings gmap list numbers.
From S2P Require Import Prelude CMem Cbs Cbb.
Local Open Scope Z_scope.

Definition is_valid_code_point (v : Z) : bool :=
  negb ((0x10ffff <? v) || (Z.land v 0xfffe =? 0xfffe) ||
        ((0xfdd0 <=? v) && (v <=? 0xfdef)) ||
        ((0xd800 <=? v) && (v <=? 0xdfff))).

Definition BOTTOM_BITS (n : Z) : Z := u8 (Z.shiftl 1 n - 1).
Definition TOP_BITS (n : Z) : Z := u8 (Z.lnot (BOTTOM_BITS (8 - n))).

Section read.
Local Open Scope cbs_scope.

(** The continuation bytes. *)
Fixpoint utf8_loop (len : nat) (v : Z) : parser Z :=
  match len with
  | O => pret v
  | S k =>
      c <- CBS_get_u8 ;;
      if negb (Z.land c (TOP_BITS 2) =? TOP_BITS 1) then pfail
      else utf8_loop k (Z.lor (u32 (Z.shiftl v 6)) (Z.land c (BOTTOM_BITS 6)))
  end.

Definition CBS_get_utf8 : parser Z :=
  c <- CBS_get_u8 ;;
  if c <=? 0x7f then pret c
  else
    match
      (if Z.land c (TOP_BITS 3) =? TOP_BITS 2
       then Some (Z.land c (BOTTOM_BITS 5), 1%nat, 0x80)
       else if Z.land c (TOP_BITS 4) =? TOP_BITS 3
       then Some (Z.land c (BOTTOM_BITS 4), 2%nat, 0x800)
       else if Z.land c (TOP_BITS 5) =? TOP_BITS 4
       then Some (Z.land c (BOTTOM_BITS 3), 3%nat, 0x10000)
       else None)
    with
    | None => pfail
    | Some (v, len, lower_bound) =>
        v <- utf8_loop len v ;;
        if negb (is_valid_code_point v) || (v <? lower_bound) then pfail else pret v
    end.

Definition CBS_get_latin1 : parser Z := CBS_get_u8.

Definition CBS_get_ucs2_be : parser Z :=
  c <- CBS_get_u16 ;; if negb (is_valid_code_point c) then pfail else pret c.

Definition CBS_get_utf32_be : parser Z :=
  out <- CBS_get_u32 ;; if is_valid_code_point out then pret out else pfail.
End read.

Definition CBB_get_utf8_len (u : Z) : Z :=
  if u <=? 0x7f then 1 else if u <=? 0x7ff then 2 else if u <=? 0xffff then 3 else 4.

Section write.
Context `{Allocator}.
Local Open Scope c_scope.

Definition CBB_add_utf8 (a u : Z) : cbb_m (option unit) :=
  if negb (is_valid_code_point u) then return_false
  else if u <=? 0x7f then CBB_add_u8 a (u8 u)
  else if u <=? 0x7ff then
    must CBB_add_u8 a (Z.lor (TOP_BITS 2) (Z.shiftr u 6)) ;;
    CBB_add_u8 a (Z.lor (TOP_BITS 1) (Z.land u (BOTTOM_BITS 6)))
  else if u <=? 0xffff then
    must CBB_add_u8 a (Z.lor (TOP_BITS 3) (Z.shiftr u 12)) ;;
    must CBB_add_u8 a (Z.lor (TOP_BITS 1) (Z.land (Z.shiftr u 6) (BOTTOM_BITS 6))) ;;
    CBB_add_u8 a (Z.lor (TOP_BITS 1) (Z.land u (BOTTOM_BITS 6)))
  else if u <=? 0x10ffff then
    must CBB_add_u8 a (Z.lor (TOP_BITS 4) (Z.shiftr u 18)) ;;
    must CBB_add_u8 a (Z.lor (TOP_BITS 1) (Z.land (Z.shiftr u 12) (BOTTOM_BITS 6))) ;;
    must CBB_add_u8 a (Z.lor (TOP_BITS 1) (Z.land (Z.shiftr u 6) (BOTTOM_BITS 6))) ;;
    CBB_add_u8 a (Z.lor (TOP_BITS 1) (Z.land u (BOTTOM_BITS 6)))
  else return_false.

Definition CBB_add_latin1 (a u : Z) : cbb_m (option unit) :=
  if u <=? 0xff then CBB_add_u8 a (u8 u) else return_false.

Definition CBB_add_ucs2_be (a u : Z) : cbb_m (option unit) :=
  if (u <=? 0xffff) && is_valid_code_point u then CBB_add_u16 a (u16 u) else return_false.

Definition CBB_add_utf32_be (a u : Z) : cbb_m (option unit) :=
  if is_valid_code_point u then CBB_add_u32 a u else return_false.
End write.
