(* ===== verification/Ber.v ===== *)
(** * BoringSSL: from BER to DER (crypto/bytestring/ber.c, asn1_compat.c)

    The walk that looks for BER, the conversion of indefinite lengths and
    constructed strings, implicitly tagged strings, and the i2d adaptor.  The
    recursion is bounded by the nesting limit [kMaxDepth] of the code itself: the
    fuel is the number of levels that are left. *)
From Stdlib Require Import ZArith Lia.
From stdpp Require Import prelude strings gmap list numbers.
From S2P Require Import Prelude CMem Cbs Cbb.
Local Open Scope Z_scope.
Local Open Scope c_scope.

Definition kMaxDepth : nat := 128.

Definition string_tags : list Z :=
  [0x4; 0xc; 0x12; 0x13; 0x14; 0x15; 0x16; 0x19; 0x1a; 0x1b; 0x1c; 0x1e].
Definition is_string_type (tag : Z) : bool :=
  existsb (Z.eqb (not_constructed tag)) string_tags.

Definition constructed (tag : Z) : bool := negb (Z.land tag CBS_ASN1_CONSTRUCTED =? 0).

(** The loop of [cbs_find_ber]; [descend] is the call one level down.  [None] is an
    error; every element takes a byte at least, which bounds the rounds. *)
Fixpoint find_ber_loop (descend : bytes -> res (option bool)) (n : nat) (cbs : bytes) :
    res (option bool) :=
  if CBS_len cbs =? 0 then Ret (Some false)
  else
    match n with
    | O => OutOfFuel
    | S k =>
        match CBS_get_any_ber_asn1_element cbs with
        | (None, _) => Ret None
        | (Some el, cbs) =>
            if el_ber_found el then Ret (Some true)
            else if constructed (el_tag el) then
              if is_string_type (el_tag el) then Ret (Some true)
              else
                match CBS_skip (el_header_len el) (el_out el) with
                | (None, _) => Ret None
                | (Some _, contents) =>
                    match descend contents with
                    | Ret (Some false) => find_ber_loop descend k cbs
                    | r => r
                    end
                end
            else find_ber_loop descend k cbs
        end
    end.

(** [levels]: how many levels the depth limit leaves, this one included. *)
Fixpoint cbs_find_ber (levels : nat) (cbs : bytes) : res (option bool) :=
  match levels with
  | O => Ret None
  | S k => find_ber_loop (cbs_find_ber k) (length cbs) cbs
  end.

Definition cbs_get_eoc (cbs : bytes) : bool * bytes :=
  match cbs with
  | 0 :: 0 :: r => (true, r)
  | _ => (false, cbs)
  end.

Section ber.
Context `{Allocator}.

(** One element of [cbs_convert_ber], read already: [cbs] is what follows it.
    [out] is where the converted contents go, [parent] the CBB to flush;
    [descend cbs out string_tag looking_for_eoc] is the call one level down and
    returns what is left of [cbs].  The result is the view after the element. *)
Definition convert_element (descend : bytes -> Z -> Z -> bool -> cbb_m (option bytes))
    (el : element) (parent out child_string_tag : Z) (cbs : bytes) :
    cbb_m (option bytes) :=
  if el_indefinite el then
    cbs <-? descend cbs out child_string_tag true ;;
    must CBB_flush parent ;; ret (Some cbs)
  else
    match CBS_skip (el_header_len el) (el_out el) with
    | (None, _) => return_false
    | (Some _, contents) =>
        must (if constructed (el_tag el) then
                must descend contents out child_string_tag false ;; return_true
              else CBB_add_bytes out contents) ;;
        must CBB_flush parent ;; ret (Some cbs)
    end.

Fixpoint convert_ber_loop (descend : bytes -> Z -> Z -> bool -> cbb_m (option bytes))
    (n : nat) (cbs : bytes) (out string_tag : Z) (looking_for_eoc : bool) :
    cbb_m (option bytes) :=
  if CBS_len cbs =? 0 then if looking_for_eoc then return_false else ret (Some cbs)
  else
    let '(eoc, after) := cbs_get_eoc cbs in
    if looking_for_eoc && eoc then ret (Some after)
    else
      match n with
      | O => out_of_fuel
      | S k =>
          match CBS_get_any_ber_asn1_element cbs with
          | (None, _) => return_false
          | (Some el, rest) =>
              rest <-?
                (if negb (string_tag =? 0) then
                   if negb (not_constructed (el_tag el) =? string_tag) then return_false
                   else convert_element descend el out out string_tag rest
                 else
                   with_cbb (fun storage =>
                     let is_cs := constructed (el_tag el) && is_string_type (el_tag el) in
                     let out_tag := if is_cs then not_constructed (el_tag el) else el_tag el in
                     let child_string_tag := if is_cs then out_tag else string_tag in
                     must CBB_add_asn1 out storage out_tag ;;
                     convert_element descend el out storage child_string_tag rest)) ;;
              convert_ber_loop descend k rest out string_tag looking_for_eoc
          end
      end.

Fixpoint cbs_convert_ber (levels : nat) (cbs : bytes) (out string_tag : Z)
    (looking_for_eoc : bool) : cbb_m (option bytes) :=
  match levels with
  | O => return_false
  | S k => convert_ber_loop (cbs_convert_ber k) (length cbs) cbs out string_tag looking_for_eoc
  end.

(** The DER and the view after it.  [inl]: the element as it stands; [inr]: the
    address and length of the converted copy, which the caller frees. *)
Definition CBS_asn1_ber_to_der (cbs : bytes) : cbb_m (option ((bytes + Z * Z) * bytes)) :=
  match cbs_find_ber (S kMaxDepth) cbs with
  | UB => ub
  | OutOfFuel => out_of_fuel
  | Ret None => return_false
  | Ret (Some false) =>
      match CBS_get_any_asn1_element cbs with
      | (None, _) => return_false
      | (Some el, rest) => ret (Some (inl (el_out el), rest))
      end
  | Ret (Some true) =>
      with_cbb (fun c =>
        o <- (must CBB_init c (CBS_len cbs) ;;
              rest <-? cbs_convert_ber (S kMaxDepth) cbs c 0 false ;;
              x <-? CBB_finish c true ;;
              ret (Some (inr x, rest))) ;;
        match o with
        | Some y => ret (Some y)
        | None => CBB_cleanup c ;; return_false
        end)
  end.

(** The chunks of a constructed string, appended to [result]. *)
Fixpoint implicit_string_loop (n : nat) (inner_tag : Z) (child : bytes) (result : Z) :
    cbb_m (option unit) :=
  if CBS_len child =? 0 then return_true
  else
    match n with
    | O => out_of_fuel
    | S k =>
        match CBS_get_asn1 inner_tag child with
        | (None, _) => return_false
        | (Some chunk, child) =>
            must CBB_add_bytes result chunk ;; implicit_string_loop k inner_tag child result
        end
    end.

Definition CBS_get_asn1_implicit_string (cbs : bytes) (outer_tag inner_tag : Z) :
    cbb_m (option ((bytes + Z * Z) * bytes)) :=
  if constructed outer_tag || constructed inner_tag || negb (is_string_type inner_tag)
  then ub
  else if CBS_peek_asn1_tag cbs outer_tag then
    match CBS_get_asn1 outer_tag cbs with
    | (None, _) => return_false
    | (Some out, rest) => ret (Some (inl out, rest))
    end
  else
    with_cbb (fun result =>
      o <- (must CBB_init result (CBS_len cbs) ;;
            match CBS_get_asn1 (Z.lor outer_tag CBS_ASN1_CONSTRUCTED) cbs with
            | (None, _) => return_false
            | (Some child, rest) =>
                must implicit_string_loop (length child) inner_tag child result ;;
                x <-? CBB_finish result true ;;
                ret (Some (inr x, rest))
            end) ;;
      match o with
      | Some y => ret (Some y)
      | None => CBB_cleanup result ;; return_false
      end).

(** [CBB_finish_i2d] (asn1_compat.c).  [outp]: null, or a pointer to a pointer,
    whose value is given ([0] asks for a fresh buffer).  The result is the length
    or -1, and the value [*outp] has afterwards. *)
Definition CBB_finish_i2d (a : Z) (outp : option Z) : cbb_m (Z * option Z) :=
  c <- get_cbb a ;;
  match u c with
  | UChild _ _ _ _ => ub
  | UBase b =>
      if negb (can_resize b) then ub
      else
        o <- CBB_finish a true ;;
        match o with
        | None => CBB_cleanup a ;; ret (-1, outp)
        | Some (der, der_len) =>
            if 2 ^ 31 - 1 <? der_len then m_free der ;; ret (-1, outp)
            else
              match outp with
              | None => m_free der ;; ret (der_len, None)
              | Some p =>
                  if p =? 0 then ret (der_len, Some der)
                  else
                    c_memcpy p der der_len ;;
                    m_free der ;; ret (der_len, Some (p + der_len))
              end
        end
  end.

End ber.
