(* ===== verification/Base64.v ===== *)
(** * BoringSSL: base64 (crypto/base64/base64.c)

    The block and streaming encoders and decoders.  What a function writes to its
    output pointer is the list of bytes it returns, from that pointer on; where the
    C code ends the output with a NUL that is not counted, the NUL is there too. *)
From Stdlib Require Import ZArith Lia.
From stdpp Require Import prelude numbers list.
From S2P Require Import Prelude CMem ConstantTime.
Local Open Scope Z_scope.

Definition INT_MAX : Z := 2 ^ 31 - 1.

Definition constant_time_lt_args_8 (a b : Z) : Z := u8 (constant_time_msb_w (u64 (a - b))).
Definition constant_time_in_range_8 (a min max : Z) : Z :=
  let a := u8 (a - min) in constant_time_lt_args_8 a (u8 (max - min + 1)).

(** ** Encoding *)

Definition conv_bin2ascii (a : Z) : Z :=
  let a := Z.land a 0x3f in
  let ret := constant_time_select_8 (constant_time_eq_8 a 62) 43 47 in
  let ret := constant_time_select_8 (constant_time_lt_args_8 a 62) (u8 (a - 52 + 48)) ret in
  let ret := constant_time_select_8 (constant_time_lt_args_8 a 52) (u8 (a - 26 + 97)) ret in
  constant_time_select_8 (constant_time_lt_args_8 a 26) (u8 (a + 65)) ret.

Definition EVP_EncodedLength (len : Z) : option Z :=
  if u64 (len + 2) <? len then None
  else
    let len := u64 (len + 2) / 3 in
    if negb (Z.shiftr (u64 (Z.shiftl len 2)) 2 =? len) then None
    else
      let len := u64 (Z.shiftl len 2) in
      if u64 (len + 1) <? len then None else Some (u64 (len + 1)).

(** The characters, without the NUL. *)
Fixpoint encode_chars (src : bytes) : bytes :=
  match src with
  | [] => []
  | [a] =>
      let l := u32 (Z.shiftl a 16) in
      [conv_bin2ascii (u8 (Z.shiftr l 18)); conv_bin2ascii (u8 (Z.shiftr l 12)); 61; 61]
  | [a; b] =>
      let l := Z.lor (u32 (Z.shiftl a 16)) (u32 (Z.shiftl b 8)) in
      [conv_bin2ascii (u8 (Z.shiftr l 18)); conv_bin2ascii (u8 (Z.shiftr l 12));
       conv_bin2ascii (u8 (Z.shiftr l 6)); 61]
  | a :: b :: c :: r =>
      let l := Z.lor (Z.lor (u32 (Z.shiftl a 16)) (u32 (Z.shiftl b 8))) c in
      conv_bin2ascii (u8 (Z.shiftr l 18)) :: conv_bin2ascii (u8 (Z.shiftr l 12)) ::
      conv_bin2ascii (u8 (Z.shiftr l 6)) :: conv_bin2ascii (u8 l) :: encode_chars r
  end.

(** The output with its NUL, and [ret]. *)
Definition EVP_EncodeBlock (src : bytes) : bytes * Z :=
  let cs := encode_chars src in (cs ++ [0], Z.of_nat (length cs)).

(** [evp_encode_ctx_st]: the first [data_used] bytes of [data] are the list. *)
Record encode_ctx := EncodeCtx {
  data : bytes;
  eof_seen : bool;
  error_encountered : bool
}.
Definition DATA_SIZE : nat := 48.

Definition EVP_EncodeInit : encode_ctx := EncodeCtx [] false false.

(** One full line: the encoded block and a newline (the NUL after it is
    overwritten by what follows, or is the last byte). *)
Definition encode_line (block : bytes) : bytes := encode_chars block ++ [10].

(** Lines from [DATA_SIZE] bytes at a time, and what is left. *)
Fixpoint encode_lines (n : nat) (src : bytes) : bytes * bytes :=
  match n with
  | O => ([], src)
  | S k =>
      if (length src <? DATA_SIZE)%nat then ([], src)
      else
        let '(out, rest) := encode_lines k (drop DATA_SIZE src) in
        (encode_line (take DATA_SIZE src) ++ out, rest)
  end.

(** Context, output and [*out_len]; a length above INT_MAX is reported as 0. *)
Definition EVP_EncodeUpdate (ctx : encode_ctx) (src : bytes) : res (encode_ctx * bytes * Z) :=
  if Z.of_nat (length src) =? 0 then Ret (ctx, [], 0)
  else if negb (length (data ctx) <? DATA_SIZE)%nat then UB
  else if (length src <? DATA_SIZE - length (data ctx))%nat
  then Ret (EncodeCtx (data ctx ++ src) (eof_seen ctx) (error_encountered ctx), [], 0)
  else
    let '(first, src) :=
      match data ctx with
      | [] => ([], src)
      | d =>
          let todo := (DATA_SIZE - length d)%nat in
          (encode_line (d ++ take todo src), drop todo src)
      end in
    let '(out, rest) := encode_lines (length src) src in
    let total := Z.of_nat (length (first ++ out)) in
    Ret (EncodeCtx rest (eof_seen ctx) (error_encountered ctx),
         first ++ out ++ [0],
         if INT_MAX <? total then 0 else total).

Definition EVP_EncodeFinal (ctx : encode_ctx) : encode_ctx * bytes * Z :=
  match data ctx with
  | [] => (ctx, [], 0)
  | d =>
      let out := encode_chars d ++ [10] in
      (EncodeCtx [] (eof_seen ctx) (error_encountered ctx), out ++ [0],
       Z.of_nat (length out))
  end.

(** ** Decoding *)

Definition EVP_DecodedLength (len : Z) : option Z :=
  if negb (len mod 4 =? 0) then None else Some (len / 4 * 3).

Definition EVP_DecodeInit : encode_ctx := EncodeCtx [] false false.

Definition base64_ascii_to_bin (a : Z) : Z :=
  let is_upper := constant_time_in_range_8 a 65 90 in
  let is_lower := constant_time_in_range_8 a 97 122 in
  let is_digit := constant_time_in_range_8 a 48 57 in
  let is_plus := constant_time_eq_8 a 43 in
  let is_slash := constant_time_eq_8 a 47 in
  let is_equals := constant_time_eq_8 a 61 in
  let ret := u8 (Z.land is_upper (a - 65)) in
  let ret := Z.lor ret (u8 (Z.land is_lower (a - 97 + 26))) in
  let ret := Z.lor ret (u8 (Z.land is_digit (a - 48 + 52))) in
  let ret := Z.lor ret (Z.land is_plus 62) in
  let ret := Z.lor ret (Z.land is_slash 63) in
  let is_valid :=
    Z.lor (Z.lor (Z.lor (Z.lor (Z.lor is_upper is_lower) is_digit) is_plus) is_slash)
          is_equals in
  u8 (Z.lor ret (Z.lnot is_valid)).

(** The bytes of one quad: three, two or one. *)
Definition base64_decode_quad (i0 i1 i2 i3 : Z) : option bytes :=
  let a := base64_ascii_to_bin i0 in
  let b := base64_ascii_to_bin i1 in
  let c := base64_ascii_to_bin i2 in
  let d := base64_ascii_to_bin i3 in
  if (a =? 0xff) || (b =? 0xff) || (c =? 0xff) || (d =? 0xff) then None
  else
    let v := Z.lor (Z.lor (Z.lor (Z.shiftl a 18) (Z.shiftl b 12)) (Z.shiftl c 6)) d in
    let bit := fun (x : Z) (k : Z) => if x =? 61 then Z.shiftl 1 k else 0 in
    let padding_pattern := Z.lor (Z.lor (Z.lor (bit i0 3) (bit i1 2)) (bit i2 1)) (bit i3 0) in
    if padding_pattern =? 0 then Some [u8 (Z.shiftr v 16); u8 (Z.shiftr v 8); u8 v]
    else if padding_pattern =? 1 then Some [u8 (Z.shiftr v 16); u8 (Z.shiftr v 8)]
    else if padding_pattern =? 3 then Some [u8 (Z.shiftr v 16)]
    else None.

Definition is_space (c : Z) : bool := (c =? 32) || (c =? 9) || (c =? 13) || (c =? 10).

(** The loop of [EVP_DecodeUpdate]: [None] is the error. *)
Fixpoint decode_loop (ctx : encode_ctx) (src : bytes) : option (encode_ctx * bytes) :=
  match src with
  | [] => Some (ctx, [])
  | c :: r =>
      if is_space c then decode_loop ctx r
      else if eof_seen ctx then None
      else
        match data ctx ++ [c] with
        | [i0; i1; i2; i3] =>
            match base64_decode_quad i0 i1 i2 i3 with
            | None => None
            | Some out =>
                let eof := (length out <? 3)%nat in
                match decode_loop (EncodeCtx [] eof (error_encountered ctx)) r with
                | None => None
                | Some (ctx, out') => Some (ctx, out ++ out')
                end
            end
        | d => decode_loop (EncodeCtx d (eof_seen ctx) (error_encountered ctx)) r
        end
  end.

Definition set_error (ctx : encode_ctx) : encode_ctx :=
  EncodeCtx (data ctx) (eof_seen ctx) true.

(** Context, the return value (-1, 0 or 1), output and [*out_len].  After an error
    only the flag of the context matters: every later call fails; the bytes of quads
    before the bad one, which the failing call has written, are left out: [*out_len] is 0
    and says that there are none. *)
Definition EVP_DecodeUpdate (ctx : encode_ctx) (src : bytes) : encode_ctx * Z * bytes * Z :=
  if error_encountered ctx then (ctx, -1, [], 0)
  else
    match decode_loop ctx src with
    | None => (set_error ctx, -1, [], 0)
    | Some (ctx, out) =>
        if INT_MAX <? Z.of_nat (length out) then (set_error ctx, -1, out, 0)
        else (ctx, if eof_seen ctx then 0 else 1, out, Z.of_nat (length out))
    end.

(** The return value. *)
Definition EVP_DecodeFinal (ctx : encode_ctx) : Z :=
  if error_encountered ctx || negb (length (data ctx) =? 0)%nat then -1 else 1.

(** The loop of [EVP_DecodeBase64]: a quad that ends in padding is the last one. *)
Fixpoint decode_quads (src : bytes) : option bytes :=
  match src with
  | [] => Some []
  | i0 :: i1 :: i2 :: i3 :: r =>
      match base64_decode_quad i0 i1 i2 i3 with
      | None => None
      | Some out =>
          if negb (length out =? 3)%nat && negb (length r =? 0)%nat then None
          else option_map (app out) (decode_quads r)
      end
  | _ => None
  end.

(** The bytes, whose number is [*out_len]; [max_out] is the room at [out]. *)
Definition EVP_DecodeBase64 (max_out : Z) (src : bytes) : option bytes :=
  let in_len := Z.of_nat (length src) in
  if negb (in_len mod 4 =? 0) then None
  else
    match EVP_DecodedLength in_len with
    | None => None
    | Some max_len => if max_out <? max_len then None else decode_quads src
    end.

Fixpoint trim_left (src : bytes) : bytes :=
  match src with
  | [] => []
  | c :: r => if negb (c =? 32) && negb (c =? 9) then src else trim_left r
  end.

Fixpoint trim_spaces (src : bytes) : bytes :=
  match src with
  | [] => []
  | c :: r => if is_space c then trim_spaces r else src
  end.
(** Trims from the end. *)
Definition trim_right (src : bytes) : bytes := rev (trim_spaces (rev src)).

(** [while (dst_len % 3 != 0) dst[dst_len++] = 0] *)
Definition pad_block (out : bytes) : bytes :=
  out ++ replicate (Z.to_nat ((- Z.of_nat (length out)) mod 3)) 0.

(** The output; its length is the return value, [None] is -1. *)
Definition EVP_DecodeBlock (src : bytes) : option bytes :=
  let src := trim_right (trim_left src) in
  match EVP_DecodedLength (Z.of_nat (length src)) with
  | None => None
  | Some dst_len =>
      if INT_MAX <? dst_len then None
      else option_map pad_block (EVP_DecodeBase64 dst_len src)
  end.

(** ** BoringSSL: base64 round trips

    Decoding is the inverse of encoding for every input, block-wise and through
    the streaming interface however the input is cut up; the lengths the sizing
    functions announce are those of the outputs. *)

(** ** The two tables *)

Lemma sextets (P : Z -> Prop) `{forall x, Decision (P x)} x :
  forallb (fun x => bool_decide (P x)) (seqZ 0 64) = true -> 0 <= x < 64 -> P x.
Proof.
  rewrite forallb_forall. intros H1 Hx. apply (bool_decide_unpack _).
  rewrite H1; [done|]. apply list_elem_of_In, elem_of_seqZ. lia.
Qed.

Lemma bin_of_ascii x : 0 <= x < 64 -> base64_ascii_to_bin (conv_bin2ascii x) = x.
Proof. apply (sextets (fun x => base64_ascii_to_bin (conv_bin2ascii x) = x)). by vm_compute. Qed.

Lemma ascii_not_pad x : 0 <= x < 64 -> conv_bin2ascii x <> 61.
Proof. apply (sextets (fun x => conv_bin2ascii x <> 61)). by vm_compute. Qed.

Lemma ascii_not_space x : 0 <= x < 64 -> is_space (conv_bin2ascii x) = false.
Proof. apply (sextets (fun x => is_space (conv_bin2ascii x) = false)). by vm_compute. Qed.

(** Only the low six bits count. *)
Lemma conv_mod x : conv_bin2ascii (u8 x) = conv_bin2ascii (x mod 64).
Proof.
  unfold conv_bin2ascii. change 0x3f with (2 ^ 6 - 1). rewrite !land_mask by lia.
  change (2 ^ 6) with 64. replace (u8 x mod 64) with (x mod 64 mod 64); [done|].
  unfold u8, wrap. Z.div_mod_to_equations; lia.
Qed.

(** A group of 24 bits, from bytes and from sextets. *)
Lemma group_bytes a b c :
  is_byte a -> is_byte b -> is_byte c ->
  Z.lor (Z.lor (u32 (Z.shiftl a 16)) (u32 (Z.shiftl b 8))) c = a * 65536 + b * 256 + c.
Proof.
  unfold is_byte. intros Ha Hb Hc. rewrite !Z.shiftl_mul_pow2 by lia.
  unfold u32. rewrite !wrap_small by lia.
  change (2 ^ 16) with 65536. change (2 ^ 8) with 256.
  rewrite (lor_low_add (a * 65536) (b * 256) 16) by (try lia; Z.div_mod_to_equations; lia).
  apply (lor_low_add _ c 8); try lia. Z.div_mod_to_equations; lia.
Qed.

Lemma group_sextets a b c d :
  0 <= a < 64 -> 0 <= b < 64 -> 0 <= c < 64 -> 0 <= d < 64 ->
  Z.lor (Z.lor (Z.lor (Z.shiftl a 18) (Z.shiftl b 12)) (Z.shiftl c 6)) d =
    a * 262144 + b * 4096 + c * 64 + d.
Proof.
  intros. rewrite !Z.shiftl_mul_pow2 by lia. change (2 ^ 18) with 262144.
  change (2 ^ 12) with 4096. change (2 ^ 6) with 64.
  rewrite (lor_low_add (a * 262144) (b * 4096) 18) by (try lia; Z.div_mod_to_equations; lia).
  rewrite (lor_low_add _ (c * 64) 12) by (try lia; Z.div_mod_to_equations; lia).
  apply (lor_low_add _ d 6); try lia. Z.div_mod_to_equations; lia.
Qed.

(** ** One quad *)

Lemma eqb_ne x y : x <> y -> (x =? y) = false.
Proof. apply Z.eqb_neq. Qed.

(** A decoded sextet is not the error value. *)
Lemma sextet_not_ff x : 0 <= x < 64 -> (x =? 0xff) = false.
Proof. intros. apply Z.eqb_neq. lia. Qed.

Definition char (x : Z) : Z := conv_bin2ascii (x mod 64).

Lemma char_bin x : base64_ascii_to_bin (char x) = x mod 64.
Proof. apply bin_of_ascii, Z.mod_pos_bound. lia. Qed.
Lemma char_pad x : (char x =? 61) = false.
Proof. apply Z.eqb_neq, ascii_not_pad, Z.mod_pos_bound. lia. Qed.
Lemma char_space x : is_space (char x) = false.
Proof. apply ascii_not_space, Z.mod_pos_bound. lia. Qed.

Lemma sextet x : 0 <= x mod 64 < 64.
Proof. apply Z.mod_pos_bound. lia. Qed.

Ltac quad :=
  unfold base64_decode_quad; rewrite ?char_bin, ?char_pad;
  change (base64_ascii_to_bin 61) with 0; change (61 =? 61) with true;
  rewrite !sextet_not_ff by (apply sextet || lia);
  cbn [orb Z.lor Z.shiftl Z.eqb];
  rewrite !group_sextets by (apply sextet || lia); rewrite !shiftr_div by lia.

Lemma quad_3 v :
  0 <= v < 16777216 ->
  base64_decode_quad (char (v / 262144)) (char (v / 4096)) (char (v / 64)) (char v) =
    Some [v / 65536; v / 256 mod 256; v mod 256].
Proof.
  intros Hv. quad. cbn. unfold u8, wrap. change (2 ^ 8) with 256.
  change (2 ^ 16) with 65536. repeat f_equal; Z.div_mod_to_equations; lia.
Qed.

Lemma quad_2 v :
  0 <= v < 16777216 -> v mod 64 = 0 ->
  base64_decode_quad (char (v / 262144)) (char (v / 4096)) (char (v / 64)) 61 =
    Some [v / 65536; v / 256 mod 256].
Proof.
  intros Hv H0. quad. cbn. unfold u8, wrap. change (2 ^ 8) with 256.
  change (2 ^ 16) with 65536. repeat f_equal; Z.div_mod_to_equations; lia.
Qed.

Lemma quad_1 v :
  0 <= v < 16777216 -> v mod 4096 = 0 ->
  base64_decode_quad (char (v / 262144)) (char (v / 4096)) 61 61 = Some [v / 65536].
Proof.
  intros Hv H0. quad. cbn. unfold u8, wrap. change (2 ^ 8) with 256.
  change (2 ^ 16) with 65536. repeat f_equal; Z.div_mod_to_equations; lia.
Qed.

(** ** Blocks *)

(** Induction three bytes at a time. *)
Lemma threes_ind (P : bytes -> Prop) :
  P [] -> (forall a, P [a]) -> (forall a b, P [a; b]) ->
  (forall a b c r, P r -> P (a :: b :: c :: r)) -> forall l, P l.
Proof.
  intros H0 H1 H2 H3 l.
  assert (forall n l, (length l <= n)%nat -> P l) as H; [|by apply (H (length l))].
  clear l. induction n as [|n IH]; intros [|a [|b [|c r]]] Hn; auto; cbn in Hn; try lia.
  apply H3, IH. lia.
Qed.

Lemma char_shift v k : 0 <= k -> conv_bin2ascii (u8 (Z.shiftr v k)) = char (v / 2 ^ k).
Proof. intros. by rewrite conv_mod, shiftr_div by lia. Qed.

Lemma encode_3 a b c r v :
  is_byte a -> is_byte b -> is_byte c ->
  v = a * 65536 + b * 256 + c ->
  encode_chars (a :: b :: c :: r) =
    char (v / 262144) :: char (v / 4096) :: char (v / 64) :: char v :: encode_chars r.
Proof.
  intros Ha Hb Hc ->. cbn [encode_chars]. rewrite group_bytes by done. 
  rewrite !char_shift, conv_mod by lia. done.
Qed.

Lemma encode_2 a b v :
  is_byte a -> is_byte b ->
  v = a * 65536 + b * 256 ->
  encode_chars [a; b] = [char (v / 262144); char (v / 4096); char (v / 64); 61].
Proof.
  intros Ha Hb ->. cbn [encode_chars].
  pose proof (group_bytes a b 0 Ha Hb ltac:(unfold is_byte; lia)) as E.
  rewrite Z.lor_0_r, Z.add_0_r in E. rewrite E.  by rewrite !char_shift by lia.
Qed.

Lemma encode_1 a v :
  is_byte a ->
  v = a * 65536 ->
  encode_chars [a] = [char (v / 262144); char (v / 4096); 61; 61].
Proof.
  intros Ha ->. cbn [encode_chars].
  assert (u32 (Z.shiftl a 16) = a * 65536) as ->.
  { unfold is_byte in Ha. rewrite Z.shiftl_mul_pow2 by lia. unfold u32.
    rewrite wrap_small; lia. }
  by rewrite !char_shift by lia.
Qed.

Ltac bytes_inv H :=
  repeat (apply Forall_cons_iff in H as [? H]); unfold is_byte in *.

(** What the first quad of an encoding decodes to. *)
Lemma quad_of_3 a b c v :
  is_byte a -> is_byte b -> is_byte c ->
  v = a * 65536 + b * 256 + c ->
  base64_decode_quad (char (v / 262144)) (char (v / 4096)) (char (v / 64)) (char v) =
    Some [a; b; c].
Proof.
  unfold is_byte. intros Ha Hb Hc ->. rewrite quad_3 by lia.
  repeat f_equal; Z.div_mod_to_equations; lia.
Qed.
Lemma quad_of_2 a b v :
  is_byte a -> is_byte b ->
  v = a * 65536 + b * 256 ->
  base64_decode_quad (char (v / 262144)) (char (v / 4096)) (char (v / 64)) 61 = Some [a; b].
Proof.
  unfold is_byte. intros Ha Hb ->.
  rewrite quad_2 by (lia || (Z.div_mod_to_equations; lia)).
  repeat f_equal; Z.div_mod_to_equations; lia.
Qed.
Lemma quad_of_1 a v :
  is_byte a ->
  v = a * 65536 ->
  base64_decode_quad (char (v / 262144)) (char (v / 4096)) 61 61 = Some [a].
Proof.
  unfold is_byte. intros Ha ->.
  rewrite quad_1 by (lia || (Z.div_mod_to_equations; lia)).
  repeat f_equal; Z.div_mod_to_equations; lia.
Qed.

Lemma decode_quads_encode bs : bytes_ok bs -> decode_quads (encode_chars bs) = Some bs.
Proof.
  induction bs as [|a|a b|a b c r IH] using threes_ind; intros Hb; unfold bytes_ok in Hb.
  - done.
  - bytes_inv Hb. rewrite (encode_1 a _) by done. cbn [decode_quads]. by rewrite (quad_of_1 a _) by done.
  - bytes_inv Hb. rewrite (encode_2 a b _) by done. cbn [decode_quads]. by rewrite (quad_of_2 a b _) by done.
  - bytes_inv Hb. rewrite (encode_3 a b c r _) by done. cbn [decode_quads]. rewrite (quad_of_3 a b c _) by done.
    cbn [length Nat.eqb negb andb]. by rewrite IH.
Qed.

Lemma encode_length bs : Z.of_nat (length (encode_chars bs)) = (Z.of_nat (length bs) + 2) / 3 * 4.
Proof.
  induction bs as [|a|a b|a b c r IH] using threes_ind; try done.
  cbn [encode_chars length]. rewrite !Nat2Z.inj_succ, IH. Z.div_mod_to_equations; lia.
Qed.

Lemma encode_no_space bs :
  bytes_ok bs -> Forall (fun c => is_space c = false) (encode_chars bs).
Proof.
  induction bs as [|a|a b|a b c r IH] using threes_ind; intros Hb; unfold bytes_ok in Hb.
  - constructor.
  - bytes_inv Hb. rewrite (encode_1 a _) by done. repeat constructor; apply char_space || done.
  - bytes_inv Hb. rewrite (encode_2 a b _) by done. repeat constructor; apply char_space || done.
  - bytes_inv Hb. rewrite (encode_3 a b c r _) by done.
    do 4 (constructor; [apply char_space|]). by apply IH.
Qed.

Lemma encoded_length_small n :
  0 <= n < 2 ^ 62 -> EVP_EncodedLength n = Some ((n + 2) / 3 * 4 + 1).
Proof.
  intros Hn. unfold EVP_EncodedLength, u64. rewrite (wrap_small 64 (n + 2)) by lia.
  rewrite (proj2 (Z.ltb_ge _ _)) by lia. set (q := (n + 2) / 3).
  assert (0 <= q < 2 ^ 61) by (unfold q; Z.div_mod_to_equations; lia).
  rewrite Z.shiftl_mul_pow2 by lia. rewrite (wrap_small 64 (q * 2 ^ 2)) by lia.
  rewrite shiftr_div, Z.div_mul by lia. rewrite Z.eqb_refl. cbn [negb].
  rewrite wrap_small by lia. rewrite (proj2 (Z.ltb_ge _ _)) by lia. f_equal; lia.
Qed.

Lemma trim_left_char x l : is_space x = false -> trim_left (x :: l) = x :: l.
Proof.
  unfold is_space. cbn [trim_left]. destruct (x =? 32), (x =? 9); done.
Qed.

Lemma trim_none l :
  Forall (fun c => is_space c = false) l -> trim_right (trim_left l) = l.
Proof.
  intros Hl. assert (trim_left l = l) as ->.
  { destruct Hl as [|x l Hx Hl]; [done|]. by apply trim_left_char. }
  unfold trim_right. assert (trim_spaces (rev l) = rev l) as ->.
  { apply Forall_rev in Hl. destruct (rev l) as [|x r]; [done|].
    cbn [trim_spaces]. apply Forall_cons_iff in Hl as [-> _]. done. }
  apply rev_involutive.
Qed.

(** [EVP_EncodeBlock] writes as many characters as it returns, one less than
    [EVP_EncodedLength] announces, and a NUL after them; [EVP_DecodeBase64] with
    the room [EVP_DecodedLength] asks for gives the input back, and
    [EVP_DecodeBlock] the input padded with NULs to a multiple of three. *)
Theorem base64_block_roundtrip src :
  bytes_ok src -> Z.of_nat (length src) < 2 ^ 30 ->
  let '(out, n) := EVP_EncodeBlock src in
  out = take (Z.to_nat n) out ++ [0] /\
  EVP_EncodedLength (Z.of_nat (length src)) = Some (n + 1) /\
  (exists room, EVP_DecodedLength n = Some room /\
     EVP_DecodeBase64 room (take (Z.to_nat n) out) = Some src) /\
  EVP_DecodeBlock (take (Z.to_nat n) out) = Some (pad_block src).
Proof.
  intros Hb Hl. unfold EVP_EncodeBlock. set (cs := encode_chars src).
  assert (take (Z.to_nat (Z.of_nat (length cs))) (cs ++ [0]) = cs) as E.
  { rewrite Nat2Z.id. by rewrite take_app_length. }
  rewrite E. pose proof (encode_length src) as L. fold cs in L.
  assert (Z.of_nat (length cs) mod 4 = 0) as Hm by (rewrite L; apply Z.mod_mul; lia).
  assert (EVP_DecodeBase64 (Z.of_nat (length cs) / 4 * 3) cs = Some src) as D.
  { unfold EVP_DecodeBase64, EVP_DecodedLength. rewrite Hm. cbn [Z.eqb negb].
    rewrite Z.ltb_irrefl. by apply decode_quads_encode. }
  split; [done|]. split; [|split].
  - rewrite encoded_length_small by lia. f_equal. lia.
  - exists (Z.of_nat (length cs) / 4 * 3). split; [|done].
    unfold EVP_DecodedLength. by rewrite Hm.
  - unfold EVP_DecodeBlock. rewrite trim_none by (by apply encode_no_space).
    unfold EVP_DecodedLength. rewrite Hm. cbn [Z.eqb negb].
    unfold INT_MAX. rewrite (proj2 (Z.ltb_ge _ _)) by (Z.div_mod_to_equations; lia).
    by rewrite D.
Qed.

(** ** Streams *)

(** The reference: lines of 48 bytes, each ended by a newline. *)
Fixpoint lines_of (n : nat) (src : bytes) : bytes :=
  match n, src with
  | S k, _ :: _ => encode_line (take DATA_SIZE src) ++ lines_of k (drop DATA_SIZE src)
  | _, _ => []
  end.
Definition lines (src : bytes) : bytes := lines_of (length src) src.

(** A caller of the streaming encoder: the first [*out_len] bytes of every output. *)
Fixpoint encode_stream (ctx : encode_ctx) (chunks : list bytes) : res bytes :=
  match chunks with
  | [] => let '(_, out, n) := EVP_EncodeFinal ctx in Ret (take (Z.to_nat n) out)
  | c :: r =>
      match EVP_EncodeUpdate ctx c with
      | Ret (ctx, out, n) =>
          match encode_stream ctx r with
          | Ret rest => Ret (take (Z.to_nat n) out ++ rest)
          | x => x
          end
      | UB => UB
      | OutOfFuel => OutOfFuel
      end
  end.

(** A caller of the streaming decoder, which gives up at the first error. *)
Fixpoint decode_stream (ctx : encode_ctx) (chunks : list bytes) : option bytes :=
  match chunks with
  | [] => if EVP_DecodeFinal ctx =? 1 then Some [] else None
  | c :: r =>
      let '(ctx, ret, out, n) := EVP_DecodeUpdate ctx c in
      if ret =? -1 then None
      else option_map (app (take (Z.to_nat n) out)) (decode_stream ctx r)
  end.

Lemma lines_of_fuel n m src :
  (length src <= n)%nat -> (length src <= m)%nat -> lines_of n src = lines_of m src.
Proof.
  revert m src; induction n as [|n IH]; intros m [|a src] Hn Hm; destruct m; cbn in *;
    try lia; try done.
  f_equal. apply IH; rewrite length_drop; cbn [length]; lia.
Qed.

Lemma lines_nil : lines [] = [].
Proof. done. Qed.

Lemma lines_step src x :
  (DATA_SIZE <= length src)%nat ->
  lines (src ++ x) = encode_line (take DATA_SIZE src) ++ lines (drop DATA_SIZE src ++ x).
Proof.
  intros Hl. destruct src as [|a src]; [unfold DATA_SIZE in Hl; cbn [length] in Hl; lia|].
  assert (lines ((a :: src) ++ x) =
    encode_line (take DATA_SIZE ((a :: src) ++ x)) ++
    lines_of (length (src ++ x)) (drop DATA_SIZE ((a :: src) ++ x))) as -> by done.
  rewrite take_app_le, drop_app_le by done. f_equal.
  apply lines_of_fuel; [|done]. rewrite !length_app, length_drop. cbn [length].
  unfold DATA_SIZE in *. lia.
Qed.

Lemma lines_last src :
  (0 < length src < DATA_SIZE)%nat -> lines src = encode_line src.
Proof.
  intros Hl. destruct src as [|a src]; [cbn in Hl; lia|].
  assert (lines (a :: src) =
    encode_line (take DATA_SIZE (a :: src)) ++
    lines_of (length src) (drop DATA_SIZE (a :: src))) as -> by done.
  rewrite take_ge, drop_ge by lia. destruct (length src); cbn; apply app_nil_r.
Qed.

Lemma encode_lines_spec n src out rest x :
  (length src <= n)%nat -> encode_lines n src = (out, rest) ->
  (length rest < DATA_SIZE)%nat /\ out ++ lines (rest ++ x) = lines (src ++ x).
Proof.
  revert src out rest; induction n as [|n IH]; intros src out rest Hn; cbn [encode_lines].
  - intros [= <- <-]. unfold DATA_SIZE. split; [lia|done].
  - destruct (Nat.ltb_spec (length src) DATA_SIZE) as [Hs|Hs].
    + intros [= <- <-]. done.
    + destruct (encode_lines n (drop DATA_SIZE src)) as [o r] eqn:E. intros [= <- <-].
      destruct (IH (drop DATA_SIZE src) o r ltac:(rewrite length_drop; unfold DATA_SIZE in *; lia) E) as [Hr Ho].
      split; [done|]. by rewrite <- app_assoc, Ho, (lines_step src) by done.
Qed.

Lemma encode_lines_length n src :
  (length (fst (encode_lines n src)) <= 2 * length src)%nat.
Proof.
  revert src; induction n as [|n IH]; intros src; cbn [encode_lines]; [cbn; lia|].
  destruct (Nat.ltb_spec (length src) DATA_SIZE) as [Hs|Hs]; [cbn; lia|].
  specialize (IH (drop DATA_SIZE src)). destruct (encode_lines n _) as [o r].
  cbn [fst] in *. unfold encode_line. rewrite !length_app. cbn [length].
  pose proof (encode_length (take DATA_SIZE src)) as L. rewrite length_take in L.
  rewrite length_drop in IH. unfold DATA_SIZE in *. rewrite Nat.min_l in L by lia.
  change ((Z.of_nat 48 + 2) / 3 * 4) with 64 in L. lia.
Qed.

Lemma line_length d x :
  (length d < DATA_SIZE)%nat -> (DATA_SIZE - length d <= length x)%nat ->
  length (encode_line (d ++ take (DATA_SIZE - length d) x)) = 65%nat.
Proof.
  intros Hd Hx. unfold encode_line. rewrite length_app. cbn [length].
  pose proof (encode_length (d ++ take (DATA_SIZE - length d) x)) as L.
  rewrite length_app, length_take, Nat.min_l in L by lia. unfold DATA_SIZE in *.
  replace (length d + (48 - length d))%nat with 48%nat in L by lia.
  change ((Z.of_nat 48 + 2) / 3 * 4) with 64 in L. lia.
Qed.

(** One update: what it returns and what it keeps are the lines so far. *)
Lemma encode_update_spec ctx src x :
  (length (data ctx) < DATA_SIZE)%nat -> Z.of_nat (length src) < 2 ^ 29 ->
  exists ctx' out n, EVP_EncodeUpdate ctx src = Ret (ctx', out, n) /\
    (length (data ctx') < DATA_SIZE)%nat /\
    take (Z.to_nat n) out ++ lines (data ctx' ++ x) = lines (data ctx ++ src ++ x).
Proof.
  intros Hd Hs. unfold EVP_EncodeUpdate. destruct (Z.eqb_spec (Z.of_nat (length src)) 0).
  { destruct src; [|done]. do 3 eexists. split; [done|]. done. }
  rewrite (proj2 (Nat.ltb_lt _ _) Hd). cbn [negb].
  destruct (Nat.ltb_spec (length src) (DATA_SIZE - length (data ctx))) as [Hf|Hf].
  { do 3 eexists. split; [done|]. cbn. rewrite length_app. split; [lia|].
    by rewrite app_assoc. }
  assert (exists first rest, (match data ctx with
      | [] => ([], src)
      | b :: d => (encode_line ((b :: d) ++ take (DATA_SIZE - length (b :: d)) src),
                   drop (DATA_SIZE - length (b :: d)) src) end) = (first, rest) /\
      (length first <= 65)%nat /\ (length rest <= length src)%nat /\
      forall y, first ++ lines (rest ++ y) = lines (data ctx ++ src ++ y))
    as (first & rest & -> & Hfl & Hrl & Hfr).
  { destruct (data ctx) as [|b d] eqn:Ed.
    - exists [], src. split; [done|]. split; [cbn; lia|]. done.
    - do 2 eexists. split; [done|]. rewrite line_length by (done || lia).
      split; [done|]. rewrite length_drop. split; [lia|]. intros y.
      rewrite (app_assoc (b :: d)), (lines_step ((b :: d) ++ src)) by
        (rewrite length_app; lia).
      rewrite take_app_ge, drop_app_ge by lia. done. }
  pose proof (encode_lines_length (length rest) rest) as Hol.
  destruct (encode_lines (length rest) rest) as [out r] eqn:E.
  destruct (encode_lines_spec _ _ _ _ x (le_n _) E) as [Hr Ho]. cbn [fst] in Hol.
  do 3 eexists. split; [done|]. cbn [data]. split; [done|].
  assert (Z.of_nat (length (first ++ out)) <= INT_MAX) as Hi.
  { unfold INT_MAX. rewrite length_app. lia. }
  rewrite (proj2 (Z.ltb_ge _ _) Hi), Nat2Z.id.
  rewrite (app_assoc first), take_app_length, <- app_assoc, Ho. apply Hfr.
Qed.

Lemma encode_stream_lines ctx chunks :
  (length (data ctx) < DATA_SIZE)%nat ->
  Forall (fun c => Z.of_nat (length c) < 2 ^ 29) chunks ->
  encode_stream ctx chunks = Ret (lines (data ctx ++ concat chunks)).
Proof.
  intros Hd Hc. revert ctx Hd; induction Hc as [|c r Hc1 Hc IH]; intros ctx Hd.
  - cbn [encode_stream concat]. rewrite app_nil_r. unfold EVP_EncodeFinal.
    destruct (data ctx) as [|b d] eqn:E; [done|].
    rewrite Nat2Z.id, take_app_length. rewrite lines_last; [done|]. cbn in *. lia.
  - destruct (encode_update_spec ctx c (concat r) Hd Hc1) as (ctx' & out & n & E & Hd' & Hl).
    cbn [encode_stream concat]. rewrite E, IH by done. by rewrite Hl.
Qed.

(** Text without its white space. *)
Definition squeeze (text : bytes) : bytes := List.filter (fun c => negb (is_space c)) text.

Lemma encode_app a b :
  bytes_ok a -> (length a mod 3 = 0)%nat ->
  encode_chars (a ++ b) = encode_chars a ++ encode_chars b.
Proof.
  induction a as [|x|x y|x y z r IH] using threes_ind; intros Ha Hm; try done.
  unfold bytes_ok in Ha. bytes_inv Ha. cbn [app]. rewrite !encode_3 with (v := _) by done.
  cbn [app]. do 4 f_equal. apply IH; [done|].
  change (length (x :: y :: z :: r)) with (3 + length r)%nat in Hm.
  replace (3 + length r)%nat with (length r + 1 * 3)%nat in Hm by lia.
  by rewrite Nat.Div0.mod_add in Hm.
Qed.

Lemma squeeze_encode bs : bytes_ok bs -> squeeze (encode_chars bs) = encode_chars bs.
Proof.
  intros Hb. pose proof (encode_no_space bs Hb) as H. unfold squeeze.
  induction H as [|c l Hc Hl IH]; [done|]. cbn. by rewrite Hc, IH.
Qed.

Lemma squeeze_lines src : bytes_ok src -> squeeze (lines src) = encode_chars src.
Proof.
  unfold lines. remember (length src) as n eqn:E. assert (length src <= n)%nat as Hn by lia.
  clear E. revert src Hn; induction n as [|n IH]; intros [|a src] Hn Hb;
    try done; [cbn in Hn; lia|].
  cbn [lines_of]. unfold squeeze, encode_line. rewrite !List.filter_app.
  fold (squeeze (encode_chars (take DATA_SIZE (a :: src)))).
  fold (squeeze (lines_of n (drop DATA_SIZE (a :: src)))).
  assert (bytes_ok (take DATA_SIZE (a :: src))) as Ht by (by apply Forall_take).
  rewrite squeeze_encode, IH by (done || (rewrite length_drop; cbn in *; unfold DATA_SIZE; lia)
    || by apply Forall_drop).
  cbn [List.filter]. change (negb (is_space 10)) with false. cbv iota. rewrite app_nil_r.
  destruct (Nat.ltb_spec (length (a :: src)) DATA_SIZE) as [Hs|Hs].
  - rewrite take_ge, drop_ge by lia. apply app_nil_r.
  - rewrite <- encode_app, take_drop; [done|done|].
    rewrite length_take, Nat.min_l by lia. done.
Qed.

Lemma decode_loop_squeeze ctx text : decode_loop ctx text = decode_loop ctx (squeeze text).
Proof.
  revert ctx; induction text as [|c r IH]; intros ctx; [done|].
  unfold squeeze. cbn [decode_loop List.filter]. destruct (is_space c) eqn:E; cbn [negb].
  - apply IH.
  - fold (squeeze r). cbn [decode_loop]. rewrite E. destruct (eof_seen ctx); [done|].
    destruct (data ctx ++ [c]) as [|i0 [|i1 [|i2 [|i3 [|]]]]]; try apply IH.
    destruct (base64_decode_quad i0 i1 i2 i3); [|done]. by rewrite IH.
Qed.

Lemma decode_loop_app ctx a b :
  decode_loop ctx (a ++ b) =
    match decode_loop ctx a with
    | None => None
    | Some (ctx, o) =>
        match decode_loop ctx b with
        | None => None
        | Some (ctx, o') => Some (ctx, o ++ o')
        end
    end.
Proof.
  revert ctx; induction a as [|c a IH]; intros ctx; cbn [app decode_loop].
  - by destruct (decode_loop ctx b) as [[? ?]|].
  - destruct (is_space c); [apply IH|]. destruct (eof_seen ctx); [done|].
    destruct (data ctx ++ [c]) as [|i0 [|i1 [|i2 [|i3 [|]]]]]; try apply IH.
    destruct (base64_decode_quad i0 i1 i2 i3); [|done]. rewrite IH.
    destruct (decode_loop _ a) as [[? ?]|]; [|done].
    destruct (decode_loop _ b) as [[? ?]|]; [|done]. by rewrite app_assoc.
Qed.

Lemma decode_loop_error ctx text ctx' out :
  decode_loop ctx text = Some (ctx', out) -> error_encountered ctx' = error_encountered ctx.
Proof.
  revert ctx out; induction text as [|c r IH]; intros ctx out; cbn [decode_loop].
  - by intros [= <- _].
  - destruct (is_space c); [apply IH|]. destruct (eof_seen ctx); [done|].
    destruct (data ctx ++ [c]) as [|i0 [|i1 [|i2 [|i3 [|]]]]]; try (intros Hx; by apply IH in Hx).
    destruct (base64_decode_quad i0 i1 i2 i3); [|done].
    destruct (decode_loop _ r) as [[? ?]|] eqn:E; [|done]. intros [= <- _].
    by apply IH in E.
Qed.

(** One quad from an empty buffer. *)
Lemma decode_loop_quad err i0 i1 i2 i3 r out :
  is_space i0 = false -> is_space i1 = false -> is_space i2 = false ->
  is_space i3 = false -> base64_decode_quad i0 i1 i2 i3 = Some out ->
  decode_loop (EncodeCtx [] false err) (i0 :: i1 :: i2 :: i3 :: r) =
    match decode_loop (EncodeCtx [] (length out <? 3)%nat err) r with
    | None => None
    | Some (ctx, out') => Some (ctx, out ++ out')
    end.
Proof.
  intros H0 H1 H2 H3 Hq.
  do 4 (cbn [decode_loop data eof_seen app error_encountered]; rewrite ?H0, ?H1, ?H2, ?H3).
  by rewrite Hq.
Qed.

Lemma decode_loop_encode err bs :
  bytes_ok bs ->
  exists eof, decode_loop (EncodeCtx [] false err) (encode_chars bs) =
              Some (EncodeCtx [] eof err, bs).
Proof.
  induction bs as [|a|a b|a b c r IH] using threes_ind; intros Hb; unfold bytes_ok in Hb;
    bytes_inv Hb.
  - by exists false.
  - exists true. rewrite (encode_1 a _) by done.
    erewrite decode_loop_quad by (apply char_space || by apply (quad_of_1 a) || done). done.
  - exists true. rewrite (encode_2 a b _) by done.
    erewrite decode_loop_quad by (apply char_space || by apply (quad_of_2 a b) || done). done.
  - destruct (IH Hb) as [eof E]. exists eof. rewrite (encode_3 a b c r _) by done.
    erewrite decode_loop_quad by (apply char_space || by apply (quad_of_3 a b c)). cbn [length].
    change (3 <? 3)%nat with false. by rewrite E.
Qed.

(** Decoding in chunks is decoding in one go. *)
Lemma decode_stream_loop ctx chunks ctx' out :
  error_encountered ctx = false -> Z.of_nat (length out) <= INT_MAX ->
  decode_loop ctx (concat chunks) = Some (ctx', out) -> data ctx' = [] ->
  decode_stream ctx chunks = Some out.
Proof.
  revert ctx out; induction chunks as [|c r IH]; intros ctx out He Hl Hd Hn.
  - cbn in Hd. injection Hd as -> <-. unfold decode_stream, EVP_DecodeFinal.
    by rewrite He, Hn.
  - cbn [concat] in Hd. rewrite decode_loop_app in Hd.
    destruct (decode_loop ctx c) as [[ctx1 o1]|] eqn:E1; [|done].
    destruct (decode_loop ctx1 (concat r)) as [[ctx2 o2]|] eqn:E2; [|done].
    injection Hd as -> <-. rewrite length_app in Hl.
    cbn [decode_stream]. unfold EVP_DecodeUpdate. rewrite He, E1.
    rewrite (proj2 (Z.ltb_ge _ _)) by lia.
    assert (((if eof_seen ctx1 then 0 else 1) =? -1) = false) as -> by (by destruct eof_seen).
    rewrite Nat2Z.id, firstn_all.
    rewrite (IH ctx1 o2); try done; [|lia].
    by rewrite (decode_loop_error _ _ _ _ E1).
Qed.

(** C26: Less than 2^29 bytes pushed through [EVP_EncodeUpdate] in chunks of any size and
    finished with [EVP_EncodeFinal]: every call returns (no assertion fails and no output
    is given up as too long), and what the calls write is the lines of 48 bytes of the
    whole.  That text, pushed through [EVP_DecodeUpdate] in chunks of any (other) size,
    gives the data back, with [EVP_DecodeFinal] accepting. *)
Theorem base64_stream_roundtrip chunks :
  bytes_ok (concat chunks) -> Z.of_nat (length (concat chunks)) < 2 ^ 29 ->
  encode_stream EVP_EncodeInit chunks = Ret (lines (concat chunks)) /\
  forall text_chunks, concat text_chunks = lines (concat chunks) ->
    decode_stream EVP_DecodeInit text_chunks = Some (concat chunks).
Proof.
  intros Hb Hl. assert (Forall (fun c => Z.of_nat (length c) < 2 ^ 29) chunks) as Hc.
  { clear -Hl. induction chunks as [|c r IH]; constructor; cbn [concat] in Hl;
      rewrite length_app in Hl; [lia|apply IH; lia]. }
  split; [apply encode_stream_lines; [cbn; unfold DATA_SIZE; lia|done]|]. intros text_chunks He.
  destruct (decode_loop_encode false (concat chunks) Hb) as [eof E].
  eapply (decode_stream_loop _ _ (EncodeCtx [] eof false)); try done.
  - unfold INT_MAX. lia.
  - by rewrite He, decode_loop_squeeze, squeeze_lines.
Qed.

Lemma base64_block_roundtrip_witness :
  let '(out, n) := EVP_EncodeBlock [77; 97] in
  out = take (Z.to_nat n) out ++ [0] /\
  EVP_EncodedLength 2 = Some (n + 1) /\
  (exists room, EVP_DecodedLength n = Some room /\
     EVP_DecodeBase64 room (take (Z.to_nat n) out) = Some [77; 97]) /\
  EVP_DecodeBlock (take (Z.to_nat n) out) = Some (pad_block [77; 97]).
Proof. apply (base64_block_roundtrip [77; 97]); [repeat constructor; lia|cbn; lia]. Defined.

(** A full line and one byte in: "TWFu...TWFu\nTQ==\n"; the text back in pieces of 5. *)
Definition stream_chunks : list bytes := [concat (repeat [77; 97; 110] 16); [77]].
Definition stream_text : bytes := concat (repeat [84; 87; 70; 117] 16) ++ [10; 84; 81; 61; 61; 10].
Lemma base64_stream_roundtrip_witness :
  encode_stream EVP_EncodeInit stream_chunks = Ret stream_text /\
  decode_stream EVP_DecodeInit [take 5 stream_text; []; drop 5 stream_text] = Some (concat stream_chunks).
Proof.
  destruct (base64_stream_roundtrip stream_chunks) as [He Hd];
    [repeat constructor; lia|vm_compute; reflexivity|].
  split; [rewrite He; vm_compute; reflexivity|apply Hd; vm_compute; reflexivity].
Defined.
