(* ===== verification/Der.v ===== *)
(** * BoringSSL: what DER is, and that the parser accepts exactly it

    A reference for the byte strings of crypto/bytestring: big-endian integers,
    base-128 integers, identifier and length octets, elements.  The parsers of
    cbs.c are the inverses of these: they read every encoding back, and what they
    accept is the encoding of what they return. *)
From Stdlib Require Import ZArith Lia.
From stdpp Require Import prelude strings gmap list numbers.
From S2P Require Import Prelude CMem PosixTime Cbs Cbb.
Local Open Scope Z_scope.

(** ** Big-endian integers *)

Fixpoint be_bytes (n : nat) (v : Z) : bytes :=
  match n with
  | O => []
  | S i => v / 256 ^ Z.of_nat i mod 256 :: be_bytes i v
  end.
Definition be_val (bs : bytes) : Z := foldl (fun r b => r * 256 + b) 0 bs.

Lemma length_be_bytes n v : length (be_bytes n v) = n.
Proof. induction n; cbn; auto. Qed.

Lemma pow256_pos n : 0 < 256 ^ Z.of_nat n.
Proof. apply Z.pow_pos_nonneg; lia. Qed.
Lemma pow256_succ n : 256 ^ Z.of_nat (S n) = 256 * 256 ^ Z.of_nat n.
Proof. rewrite Nat2Z.inj_succ. apply Z.pow_succ_r. lia. Qed.

Lemma be_bytes_ok n v : bytes_ok (be_bytes n v).
Proof.
  induction n; cbn [be_bytes]; constructor; [|done]. unfold is_byte.
  apply Z.mod_pos_bound. lia.
Qed.

Lemma be_fold_val acc bs :
  foldl (fun r b => r * 256 + b) acc bs =
    acc * 256 ^ Z.of_nat (length bs) + be_val bs.
Proof.
  revert acc; induction bs as [|b bs IH] using rev_ind; intros acc.
  - cbn. lia.
  - unfold be_val. rewrite !foldl_app. cbn [foldl]. fold (be_val bs). rewrite IH.
    rewrite length_app. cbn [length]. rewrite Nat.add_1_r, pow256_succ. lia.
Qed.

Lemma be_val_cons b bs : be_val (b :: bs) = b * 256 ^ Z.of_nat (length bs) + be_val bs.
Proof. unfold be_val at 1. cbn [foldl]. rewrite be_fold_val. lia. Qed.

Lemma be_val_bound bs : bytes_ok bs -> 0 <= be_val bs < 256 ^ Z.of_nat (length bs).
Proof.
  induction 1 as [|b bs Hb Hbs IH]; [cbn; lia|]. unfold is_byte in Hb.
  rewrite be_val_cons. cbn [length]. rewrite pow256_succ.
  pose proof (pow256_pos (length bs)). nia.
Qed.

Lemma be_val_bytes n v : be_val (be_bytes n v) = v mod 256 ^ Z.of_nat n.
Proof.
  induction n as [|n IH]; cbn [be_bytes]; [by rewrite Z.mod_1_r|].
  rewrite be_val_cons, length_be_bytes, IH, pow256_succ.
  pose proof (pow256_pos n). rewrite (Z.mul_comm 256).
  rewrite Z.rem_mul_r by lia. lia.
Qed.

(** Bytes above position [n] do not show in the low [n]. *)
Lemma be_bytes_high n a v : be_bytes n (a * 256 ^ Z.of_nat n + v) = be_bytes n v.
Proof.
  revert a v; induction n as [|n IH]; intros a v; cbn [be_bytes]; [done|].
  rewrite pow256_succ. pose proof (pow256_pos n). f_equal.
  - replace (a * (256 * 256 ^ Z.of_nat n) + v) with ((a * 256) * 256 ^ Z.of_nat n + v) by lia.
    rewrite Z.div_add_l, Z.add_comm, Z.mod_add by lia. done.
  - replace (a * (256 * 256 ^ Z.of_nat n) + v) with ((a * 256) * 256 ^ Z.of_nat n + v) by lia.
    apply IH.
Qed.

Lemma be_bytes_val bs : bytes_ok bs -> be_bytes (length bs) (be_val bs) = bs.
Proof.
  induction 1 as [|b bs Hb Hbs IH]; [done|]. cbn [length be_bytes].
  pose proof (be_val_bound bs Hbs). unfold is_byte in Hb.
  rewrite be_val_cons. f_equal.
  - rewrite Z.div_add_l, Z.div_small, Z.add_0_r by lia. apply Z.mod_small. lia.
  - by rewrite be_bytes_high.
Qed.
Lemma be_bytes_app n m v :
  be_bytes (n + m) v = be_bytes n (v / 256 ^ Z.of_nat m) ++ be_bytes m v.
Proof.
  induction n as [|n IH]; [done|]. cbn [be_bytes Nat.add app]. rewrite IH. f_equal.
  pose proof (pow256_pos n). pose proof (pow256_pos m).
  rewrite Z.div_div, <- Z.pow_add_r by lia. do 2 f_equal. f_equal. lia.
Qed.
Lemma be_bytes_mod n v : be_bytes n (v mod 256 ^ Z.of_nat n) = be_bytes n v.
Proof.
  pose proof (pow256_pos n). rewrite (Z.div_mod v (256 ^ Z.of_nat n)) at 2 by lia.
  by rewrite Z.mul_comm, be_bytes_high.
Qed.
Lemma be_val_app a b : be_val (a ++ b) = be_val a * 256 ^ Z.of_nat (length b) + be_val b.
Proof. unfold be_val at 1. by rewrite foldl_app, be_fold_val. Qed.

(** The loop of [cbs_get_u]: shifts and ors are the positional value. *)
Lemma be_step_fold acc bs :
  bytes_ok bs -> 0 <= acc -> acc * 256 ^ Z.of_nat (length bs) + be_val bs < 2 ^ 64 ->
  foldl be_step acc bs = acc * 256 ^ Z.of_nat (length bs) + be_val bs.
Proof.
  intros Hb. revert acc; induction Hb as [|b bs Hb Hbs IH]; intros acc Ha Hl; cbn [foldl].
  - cbn. lia.
  - pose proof (be_val_bound bs Hbs) as Hv. unfold is_byte in Hb.
    rewrite be_val_cons in *. cbn [length] in *. rewrite pow256_succ in *.
    pose proof (pow256_pos (length bs)) as Hp.
    assert (acc * 256 + b < 2 ^ 64) by nia.
    assert (be_step acc b = acc * 256 + b) as ->.
    { unfold be_step. rewrite Z.shiftl_mul_pow2 by lia. unfold u64.
      rewrite wrap_small by lia. apply (lor_low_add _ b 8); try lia.
      change (2 ^ 8) with 256. apply Z.mod_mul. lia. }
    rewrite IH by nia. nia.
Qed.

Lemma be_fold_small bs :
  bytes_ok bs -> (length bs <= 8)%nat -> foldl be_step 0 bs = be_val bs.
Proof.
  intros Hb Hl. rewrite be_step_fold; [lia|done|lia|].
  pose proof (be_val_bound bs Hb).
  assert (256 ^ Z.of_nat (length bs) <= 256 ^ 8) by (apply Z.pow_le_mono_r; lia).
  change (256 ^ 8) with (2 ^ 64) in *. lia.
Qed.

(** ** Reading *)

Lemma take_drop_app (n : nat) (bs r : bytes) :
  length bs = n -> take n (bs ++ r) = bs /\ drop n (bs ++ r) = r.
Proof. intros <-. by rewrite take_app_length, drop_app_length. Qed.

Lemma cbs_get_app bs r :
  cbs_get (Z.of_nat (length bs)) (bs ++ r) = (Some bs, r).
Proof.
  unfold cbs_get, CBS_len. rewrite length_app, (proj2 (Z.ltb_ge _ _)) by lia.
  rewrite Nat2Z.id. destruct (take_drop_app (length bs) bs r eq_refl) as [-> ->]. done.
Qed.

Lemma cbs_get_inv n cbs bs r :
  0 <= n -> cbs_get n cbs = (Some bs, r) -> cbs = bs ++ r /\ Z.of_nat (length bs) = n.
Proof.
  unfold cbs_get, CBS_len. intros Hn. destruct (Z.ltb_spec (Z.of_nat (length cbs)) n); [done|].
  intros [= <- <-]. rewrite take_drop, length_take. split; [done|lia].
Qed.

Lemma cbs_get_short n cbs : CBS_len cbs < n -> cbs_get n cbs = (None, cbs).
Proof. intros H. unfold cbs_get. by rewrite (proj2 (Z.ltb_lt _ _)) by lia. Qed.

Lemma cbs_get_u_app bs r :
  bytes_ok bs -> (length bs <= 8)%nat ->
  cbs_get_u (Z.of_nat (length bs)) (bs ++ r) = (Some (be_val bs), r).
Proof.
  intros Hb Hl. unfold cbs_get_u, pbind. rewrite cbs_get_app. unfold pret.
  by rewrite be_fold_small.
Qed.

Lemma cbs_get_u_inv (n : nat) cbs v r :
  (n <= 8)%nat -> bytes_ok cbs -> cbs_get_u (Z.of_nat n) cbs = (Some v, r) ->
  cbs = be_bytes n v ++ r /\ 0 <= v < 256 ^ Z.of_nat n.
Proof.
  intros Hn Hb. unfold cbs_get_u, pbind, pret.
  destruct (cbs_get (Z.of_nat n) cbs) as [[bs|] r'] eqn:E; [|done].
  apply cbs_get_inv in E as [-> E]; [|lia]. assert (length bs = n) as <- by lia.
  apply Forall_app in Hb as [Hb _]. intros [= <- <-].
  rewrite be_fold_small by done. rewrite be_bytes_val by done.
  split; [done|by apply be_val_bound].
Qed.

(** ** Base-128 integers *)

Fixpoint b128_enc (n : nat) (v : Z) : bytes :=
  match n with
  | O => []
  | S i => v / 128 ^ Z.of_nat i mod 128 + (if (i =? 0)%nat then 0 else 128) :: b128_enc i v
  end.
(** How many digits: one for zero. *)
Definition b128_count (v : Z) : nat :=
  let n := base128_len 10 v in if (n =? 0)%nat then 1%nat else n.
Definition base128 (v : Z) : bytes := b128_enc (b128_count v) v.

Lemma pow128_pos n : 0 < 128 ^ Z.of_nat n.
Proof. apply Z.pow_pos_nonneg; lia. Qed.
Lemma pow128_succ n : 128 ^ Z.of_nat (S n) = 128 * 128 ^ Z.of_nat n.
Proof. rewrite Nat2Z.inj_succ. apply Z.pow_succ_r. lia. Qed.

(** [n] digits are what [v] needs. *)
Definition b128_digits (n : nat) (v : Z) : Prop :=
  (0 < n)%nat /\ v < 128 ^ Z.of_nat n /\ (n = 1%nat \/ 128 ^ Z.of_nat (n - 1) <= v).

Lemma base128_len_spec fuel v :
  0 <= v < 128 ^ Z.of_nat fuel ->
  (v = 0 /\ base128_len fuel v = 0%nat) \/
  (0 < v /\ (0 < base128_len fuel v)%nat /\
   128 ^ Z.of_nat (base128_len fuel v - 1) <= v < 128 ^ Z.of_nat (base128_len fuel v)).
Proof.
  revert v; induction fuel as [|k IH]; intros v Hv; cbn [base128_len].
  - left. cbn in Hv. lia.
  - destruct (Z.ltb_spec 0 v) as [Hp|]; [|left; lia]. right. split; [done|]. split; [lia|].
    rewrite pow128_succ in Hv. rewrite shiftr_div by lia. change (2 ^ 7) with 128.
    destruct (IH (v / 128)) as [[E ->]|(E & Hn & Hb)].
    { split; [apply Z.div_pos; lia|]. apply Z.div_lt_upper_bound; lia. }
    + change (Z.of_nat (1 - 1)) with 0. change (Z.of_nat 1) with 1.
      rewrite Z.pow_0_r, Z.pow_1_r. Z.div_mod_to_equations; lia.
    + set (n := base128_len k (v / 128)) in *.
      replace (S n - 1)%nat with (S (n - 1)) by lia. rewrite !pow128_succ.
      Z.div_mod_to_equations; lia.
Qed.

Lemma b128_count_digits v : 0 <= v < 2 ^ 64 -> b128_digits (b128_count v) v.
Proof.
  intros Hv. unfold b128_digits, b128_count.
  destruct (base128_len_spec 10 v) as [[E ->]|(E & Hn & Hb)].
  - assert (2 ^ 64 < 128 ^ Z.of_nat 10) by (vm_compute; done). lia.
  - cbn. lia.
  - rewrite (proj2 (Nat.eqb_neq _ 0)) by lia. split; [done|]. lia.
Qed.

Lemma b128_digits_unique n m v : b128_digits n v -> b128_digits m v -> n = m.
Proof.
  intros (Hn & Hv & Hl) (Hm & Hv' & Hl').
  destruct (Nat.lt_trichotomy n m) as [H|[H|H]]; [exfalso|done|exfalso].
  - destruct Hl' as [->|Hl']; [lia|].
    assert (128 ^ Z.of_nat n <= 128 ^ Z.of_nat (m - 1)) by (apply Z.pow_le_mono_r; lia). lia.
  - destruct Hl as [->|Hl]; [lia|].
    assert (128 ^ Z.of_nat m <= 128 ^ Z.of_nat (n - 1)) by (apply Z.pow_le_mono_r; lia). lia.
Qed.

(** One byte of the loop. *)
Lemma base128_step v d cont r :
  0 <= v < 2 ^ 57 -> 0 <= d < 128 -> cont = 0 \/ cont = 128 ->
  (v = 0 -> cont = 128 -> d <> 0) ->
  base128_loop v (d + cont :: r) =
    if cont =? 0 then (Some (v * 128 + d), r) else base128_loop (v * 128 + d) r.
Proof.
  intros Hv Hd Hc Hnz. cbn [base128_loop]. rewrite shiftr_div by lia.
  change (2 ^ (64 - 7)) with (2 ^ 57). rewrite Z.div_small by lia. cbn [Z.eqb negb].
  assert ((v =? 0) && (d + cont =? 128) = false) as ->.
  { destruct (Z.eqb_spec v 0), (Z.eqb_spec (d + cont) 128); try done. exfalso.
    destruct Hc as [->| ->]; [lia|]. apply Hnz; [done|done|lia]. }
  change 0x7f with 127. rewrite land_7F.
  assert ((d + cont) mod 128 = d) as ->.
  { destruct Hc as [->| ->]; [rewrite Z.add_0_r; by apply Z.mod_small|].
    rewrite <- (Z.mod_small d 128) at 2 by lia. rewrite <- (Z.mod_add d 1 128) by lia. done. }
  assert (Z.lor (u64 (Z.shiftl v 7)) d = v * 128 + d) as ->.
  { rewrite Z.shiftl_mul_pow2 by lia. change (2 ^ 7) with 128. unfold u64.
    rewrite wrap_small by lia. apply (lor_low_add _ d 7); try lia. apply Z.mod_mul. lia. }
  change 0x80 with 128. rewrite land_80 by (unfold is_byte; lia).
  destruct Hc as [->| ->]; [rewrite decide_True by lia|rewrite decide_False by lia]; done.
Qed.

Lemma base128_loop_enc n v r :
  (0 < n)%nat -> 0 <= v < 2 ^ 64 -> (v / 128 ^ Z.of_nat n = 0 -> n = 1%nat \/ 128 ^ Z.of_nat (n - 1) <= v) ->
  base128_loop (v / 128 ^ Z.of_nat n) (b128_enc n v ++ r) = (Some v, r).
Proof.
  induction n as [|n IH]; intros Hn Hv Hm; [lia|]. clear Hn. cbn [b128_enc app].
  pose proof (pow128_pos n) as Hp. rewrite pow128_succ in *.
  assert (v / (128 * 128 ^ Z.of_nat n) = v / 128 ^ Z.of_nat n / 128) as E.
  { rewrite Z.div_div by lia. f_equal. lia. }
  rewrite E in *. set (w := v / 128 ^ Z.of_nat n) in *.
  assert (0 <= w) by (apply Z.div_pos; lia).
  assert (w <= v) by (apply Z.div_le_upper_bound; nia).
  rewrite base128_step.
  - destruct (Nat.eqb_spec n 0) as [->|].
    + cbn [Z.eqb]. unfold w. rewrite Z.pow_0_r, Z.div_1_r. do 2 f_equal.
      Z.div_mod_to_equations; lia.
    + cbn [Z.eqb]. assert (w / 128 * 128 + w mod 128 = w) as -> by (Z.div_mod_to_equations; lia).
      apply IH; try lia. intros Hw. right.
      destruct Hm as [Hm|Hm]; [rewrite Hw; done|lia|].
      exfalso. apply Z.div_small_iff in Hw; [|lia]. rewrite Nat.sub_succ, Nat.sub_0_r in Hm. lia.
  - split; [apply Z.div_pos; lia|]. apply Z.div_lt_upper_bound; lia.
  - apply Z.mod_pos_bound. lia.
  - destruct (n =? 0)%nat; auto.
  - intros Hw Hc Hd. destruct (Nat.eqb_spec n 0); [done|].
    destruct Hm as [Hm|Hm]; [done|lia|]. rewrite Nat.sub_succ, Nat.sub_0_r in Hm.
    assert (w = 0) as Hw0 by (Z.div_mod_to_equations; lia).
    apply Z.div_small_iff in Hw0; lia.
Qed.

Lemma parse_base128 v r : 0 <= v < 2 ^ 64 -> parse_base128_integer (base128 v ++ r) = (Some v, r).
Proof.
  intros Hv. destruct (b128_count_digits v Hv) as (Hn & Hl & Hd).
  unfold parse_base128_integer, base128.
  rewrite <- (Z.div_small v (128 ^ Z.of_nat (b128_count v))) at 1 by lia.
  by apply base128_loop_enc.
Qed.

Lemma base128_loop_inv acc cbs v r :
  bytes_ok cbs -> 0 <= acc < 2 ^ 64 -> base128_loop acc cbs = (Some v, r) ->
  exists n, (0 < n)%nat /\ cbs = b128_enc n v ++ r /\ v / 128 ^ Z.of_nat n = acc /\
    (acc = 0 -> n = 1%nat \/ 128 ^ Z.of_nat (n - 1) <= v) /\ 0 <= v < 2 ^ 64.
Proof.
  intros Hb. revert acc; induction Hb as [|b cbs Hb Hbs IH]; intros acc Ha; [done|].
  destruct (decide (acc < 2 ^ 57)) as [Hs|Hs].
  2:{ cbn [base128_loop]. rewrite shiftr_div by lia. change (2 ^ (64 - 7)) with (2 ^ 57).
      destruct (Z.eqb_spec (acc / 2 ^ 57) 0) as [E|E]; [|done].
      apply Z.div_small_iff in E; lia. }
  unfold is_byte in Hb. set (cont := if b <? 128 then 0 else 128). set (d := b - cont).
  assert (0 <= d < 128) as Hd by (unfold d, cont; destruct (Z.ltb_spec b 128); lia).
  assert (cont = 0 \/ cont = 128) as Hc by (unfold cont; destruct (b <? 128); auto).
  destruct (decide (acc = 0 /\ b = 128)) as [[-> ->]|Hne]; [done|].
  replace b with (d + cont) by (unfold d; lia).
  rewrite base128_step by (lia || (intros; unfold d in *; lia)).
  destruct (Z.eqb_spec cont 0) as [E0|E0].
  - intros [= <- <-]. exists 1%nat. split; [lia|]. cbn [b128_enc Nat.eqb app].
    change (128 ^ Z.of_nat 0) with 1. change (128 ^ Z.of_nat 1) with 128.
    rewrite Z.div_1_r, E0, !Z.add_0_r, Z.div_add_l, Z.div_small by lia.
    assert ((acc * 128 + d) mod 128 = d) as -> by (Z.div_mod_to_equations; lia).
    split; [done|]. repeat split; (lia || auto).
  - intros E. apply IH in E as (n & Hn & -> & Hv & Hm & Hvb); [|lia].
    exists (S n). split; [lia|]. cbn [b128_enc app]. rewrite Hv.
    rewrite (proj2 (Nat.eqb_neq n 0)) by lia.
    assert ((acc * 128 + d) mod 128 = d) as -> by (Z.div_mod_to_equations; lia).
    assert (cont = 128) as Ec by tauto. pose proof (pow128_pos n).
    split; [by rewrite Ec|]. rewrite pow128_succ.
    split; [|split; [|done]].
    + rewrite (Z.mul_comm 128), <- Z.div_div, Hv by lia. Z.div_mod_to_equations; lia.
    + intros ->. right. rewrite Nat.sub_succ, Nat.sub_0_r.
      assert (0 < v / 128 ^ Z.of_nat n) by (rewrite Hv; unfold d in *; lia).
      destruct (Z.leb_spec (128 ^ Z.of_nat n) v); [done|].
      rewrite Z.div_small in * by lia. lia.
Qed.

Lemma parse_base128_inv cbs v r :
  bytes_ok cbs -> parse_base128_integer cbs = (Some v, r) ->
  cbs = base128 v ++ r /\ 0 <= v < 2 ^ 64.
Proof.
  intros Hb E. apply base128_loop_inv in E as (n & Hn & -> & Hd & Hm & Hv); [|done|lia].
  split; [|done]. f_equal. unfold base128. f_equal. pose proof (pow128_pos n).
  apply (b128_digits_unique _ _ v); [|by apply b128_count_digits].
  split; [done|]. split; [|auto]. apply Z.div_small_iff in Hd; lia.
Qed.

(** ** Identifier octets *)

Definition tag_bits (tag : Z) : Z := Z.land (u8 (Z.shiftr tag CBS_ASN1_TAG_SHIFT)) 0xe0.
Definition tag_number (tag : Z) : Z := Z.land tag CBS_ASN1_TAG_NUMBER_MASK.
Definition tag_bytes (tag : Z) : bytes :=
  if 0x1f <=? tag_number tag
  then Z.lor (tag_bits tag) 0x1f :: base128 (tag_number tag)
  else [Z.lor (tag_bits tag) (tag_number tag)].

(** A 32-bit tag other than [UNIVERSAL 0]. *)
Definition valid_tag (tag : Z) : Prop := 0 <= tag < 2 ^ 32 /\ not_constructed tag <> 0.

Lemma tag_number_mod tag : tag_number tag = tag mod 2 ^ 29.
Proof.
  unfold tag_number. change CBS_ASN1_TAG_NUMBER_MASK with (2 ^ 29 - 1). apply land_mask. lia.
Qed.

Lemma land_e0 b : is_byte b -> Z.land b 0xe0 = b / 32 * 32.
Proof.
  unfold is_byte. intros Hb.
  assert (Z.land b 0xe0 = Z.land b (Z.lnot (2 ^ 5 - 1))) as ->.
  { apply Z.bits_inj'. intros i Hi. rewrite !Z.land_spec.
    destruct (decide (i < 8)).
    - f_equal. assert (i = 0 \/ i = 1 \/ i = 2 \/ i = 3 \/ i = 4 \/ i = 5 \/ i = 6 \/ i = 7)
        as Hc by lia. repeat destruct Hc as [->|Hc]; try done. subst i. done.
    - rewrite <- (Z.mod_small b (2 ^ 8)) by lia. by rewrite Z.mod_pow2_bits_high by lia. }
  change (2 ^ 5 - 1) with (Z.ones 5).
  rewrite <- Z.ldiff_land, Z.ldiff_ones_r, Z.shiftl_mul_pow2, Z.shiftr_div_pow2 by lia. done.
Qed.

Lemma tag_bits_value tag : 0 <= tag < 2 ^ 32 -> tag_bits tag = tag / 2 ^ 29 * 32.
Proof.
  intros Ht. unfold tag_bits. change CBS_ASN1_TAG_SHIFT with 24.
  rewrite shiftr_div by lia. unfold u8. rewrite wrap_small.
  - rewrite land_e0 by (unfold is_byte; split; [apply Z.div_pos; lia|];
      apply Z.div_lt_upper_bound; lia).
    rewrite Z.div_div by lia. done.
  - split; [apply Z.div_pos; lia|]. apply Z.div_lt_upper_bound; lia.
Qed.

Lemma tag_split tag : tag = tag / 2 ^ 29 * 2 ^ 29 + tag mod 2 ^ 29.
Proof. Z.div_mod_to_equations; lia. Qed.

(** The first octet, taken apart as the parser does. *)
Lemma tag_octet c n :
  0 <= c < 8 -> 0 <= n < 32 ->
  Z.lor (c * 32) n = c * 32 + n /\
  u32 (Z.shiftl (Z.land (c * 32 + n) 0xe0) CBS_ASN1_TAG_SHIFT) = c * 2 ^ 29 /\
  Z.land (c * 32 + n) 0x1f = n.
Proof.
  intros Hc Hn. split; [|split].
  - apply (lor_low_add _ n 5); try lia. apply Z.mod_mul. lia.
  - rewrite land_e0 by (unfold is_byte; lia). change CBS_ASN1_TAG_SHIFT with 24.
    assert ((c * 32 + n) / 32 = c) as -> by (Z.div_mod_to_equations; lia).
    rewrite Z.shiftl_mul_pow2 by lia. unfold u32. rewrite wrap_small by lia. lia.
  - change 0x1f with (2 ^ 5 - 1). rewrite land_mask by lia. change (2 ^ 5) with 32.
    Z.div_mod_to_equations; lia.
Qed.

Lemma lor_tag c n : 0 <= c < 8 -> 0 <= n < 2 ^ 29 -> Z.lor (c * 2 ^ 29) n = c * 2 ^ 29 + n.
Proof. intros. apply (lor_low_add _ n 29); try lia. apply Z.mod_mul. lia. Qed.

Lemma tag_class_range tag : 0 <= tag < 2 ^ 32 -> 0 <= tag / 2 ^ 29 < 8.
Proof.
  intros. split; [apply Z.div_pos; lia|]. apply Z.div_lt_upper_bound; lia.
Qed.

Lemma parse_tag_bytes tag r : valid_tag tag -> parse_asn1_tag (tag_bytes tag ++ r) = (Some tag, r).
Proof.
  intros [Ht Hv]. unfold tag_bytes. rewrite tag_bits_value, tag_number_mod by done.
  set (c := tag / 2 ^ 29). set (n := tag mod 2 ^ 29).
  pose proof (tag_class_range tag Ht) as Hc. fold c in Hc.
  assert (0 <= n < 2 ^ 29) as Hn by (apply Z.mod_pos_bound; lia).
  assert (tag = c * 2 ^ 29 + n) as E by apply tag_split.
  apply Z.eqb_neq in Hv. unfold parse_asn1_tag, pbind.
  destruct (Z.leb_spec 0x1f n) as [H|H].
  - destruct (tag_octet c 31 Hc ltac:(lia)) as (E1 & E2 & E3). rewrite E1. cbn [app CBS_get_u8].
    rewrite E2, E3. rewrite Z.eqb_refl.
    rewrite parse_base128 by lia. change CBS_ASN1_TAG_NUMBER_MASK with (2 ^ 29 - 1).
    rewrite (proj2 (Z.ltb_ge _ _)), (proj2 (Z.ltb_ge n 31)) by lia. cbn [orb]. unfold pret.
    unfold u32. rewrite (wrap_small 32 n) by lia. rewrite lor_tag, <- E by done.
    by rewrite Hv.
  - destruct (tag_octet c n Hc ltac:(lia)) as (E1 & E2 & E3). rewrite E1. cbn [app CBS_get_u8].
    rewrite E2, E3. rewrite (proj2 (Z.eqb_neq n 31)) by lia. unfold pret.
    rewrite lor_tag, <- E by done. by rewrite Hv.
Qed.

Lemma parse_tag_inv cbs tag r :
  bytes_ok cbs -> parse_asn1_tag cbs = (Some tag, r) ->
  cbs = tag_bytes tag ++ r /\ valid_tag tag.
Proof.
  intros Hb. unfold parse_asn1_tag, pbind. destruct cbs as [|b cbs]; [done|].
  apply Forall_cons_iff in Hb as [Hb1 Hb]. unfold is_byte in Hb1. cbn [CBS_get_u8].
  set (c := b / 32). set (n := b mod 32).
  assert (0 <= c < 8) as Hc.
  { split; [apply Z.div_pos; lia|]. apply Z.div_lt_upper_bound; lia. }
  assert (0 <= n < 32) as Hn by (apply Z.mod_pos_bound; lia).
  assert (b = c * 32 + n) as E by (unfold c, n; Z.div_mod_to_equations; lia).
  destruct (tag_octet c n Hc Hn) as (E1 & E2 & E3). rewrite E, E2, E3.
  assert (forall m r', 0 <= m < 2 ^ 29 ->
    (if not_constructed (Z.lor (c * 2 ^ 29) m) =? 0 then pfail
     else pret (Z.lor (c * 2 ^ 29) m)) r' = (Some tag, r) ->
    r' = r /\ tag = c * 2 ^ 29 + m /\ valid_tag tag /\
    tag_bits tag = c * 32 /\ tag_number tag = m) as Hfin.
  { intros m r' Hm. rewrite lor_tag by done.
    destruct (Z.eqb_spec (not_constructed (c * 2 ^ 29 + m)) 0) as [|Hz]; [done|].
    intros [= <- <-]. split; [done|]. split; [done|].
    assert (0 <= c * 2 ^ 29 + m < 2 ^ 32) as Ht by lia.
    split; [done|]. rewrite tag_bits_value, tag_number_mod by done.
    split; Z.div_mod_to_equations; lia. }
  destruct (Z.eqb_spec n 0x1f) as [Hf|Hf].
  - destruct (parse_base128_integer cbs) as [[v|] r'] eqn:Ep; [|done].
    apply parse_base128_inv in Ep as [-> Hv]; [|done].
    change CBS_ASN1_TAG_NUMBER_MASK with (2 ^ 29 - 1).
    destruct (Z.ltb_spec (2 ^ 29 - 1) v); [done|]. destruct (Z.ltb_spec v 0x1f); [done|].
    cbn [orb]. unfold pret at 1. unfold u32. rewrite wrap_small by lia. intros Hx.
    apply Hfin in Hx as (<- & -> & Hvt & Eb & En); [|lia]. split; [|done].
    unfold tag_bytes. rewrite Eb, En, (proj2 (Z.leb_le _ _)) by done.
    rewrite Hf. destruct (tag_octet c 31 Hc ltac:(lia)) as (-> & _). done.
  - unfold pret at 1. intros Hx.
    apply Hfin in Hx as (<- & -> & Hvt & Eb & En); [|lia]. split; [|done].
    unfold tag_bytes. rewrite Eb, En, (proj2 (Z.leb_gt _ _)) by lia. by rewrite E1.
Qed.

(** ** Length octets *)

Definition len_count (n : Z) : nat :=
  if n <? 256 then 1%nat else if n <? 65536 then 2%nat
  else if n <? 16777216 then 3%nat else 4%nat.
Definition len_octets (n : Z) : bytes :=
  if n <? 128 then [n] else 128 + Z.of_nat (len_count n) :: be_bytes (len_count n) n.

(** Identifier and length, and a whole element. *)
Definition header (tag n : Z) : bytes := tag_bytes tag ++ len_octets n.
Definition der (tag : Z) (contents : bytes) : bytes :=
  header tag (Z.of_nat (length contents)) ++ contents.

Lemma len_count_range n :
  (1 <= len_count n <= 4)%nat /\
  (0 <= n < 2 ^ 32 -> n < 256 ^ Z.of_nat (len_count n)) /\
  (128 <= n -> 256 ^ Z.of_nat (len_count n - 1) <= n).
Proof.
  unfold len_count. destruct (Z.ltb_spec n 256); [cbn; lia|].
  destruct (Z.ltb_spec n 65536); [cbn; lia|]. destruct (Z.ltb_spec n 16777216); cbn; lia.
Qed.

Lemma len_count_unique n (k : nat) :
  128 <= n -> (1 <= k <= 4)%nat -> n < 256 ^ Z.of_nat k -> 256 ^ Z.of_nat (k - 1) <= n ->
  k = len_count n.
Proof.
  intros Hn Hk H1 H2. unfold len_count.
  assert (k = 1 \/ k = 2 \/ k = 3 \/ k = 4)%nat as Hc by lia.
  destruct (Z.ltb_spec n 256), (Z.ltb_spec n 65536), (Z.ltb_spec n 16777216);
    repeat destruct Hc as [->|Hc]; try subst k; cbn in H1, H2; lia.
Qed.

Lemma length_base128 v : (length (base128 v) <= 10)%nat.
Proof.
  unfold base128, b128_count.
  assert (forall n w, length (b128_enc n w) = n) as -> by (induction n; cbn; auto).
  assert (forall f w, (base128_len f w <= f)%nat) as H.
  { induction f as [|f IH]; intros w; cbn; [lia|]. destruct (0 <? w); [|lia].
    specialize (IH (Z.shiftr w 7)). lia. }
  specialize (H 10%nat v). destruct (Nat.eqb_spec (base128_len 10 v) 0); lia.
Qed.

Lemma length_tag_bytes tag : (1 <= length (tag_bytes tag) <= 11)%nat.
Proof.
  unfold tag_bytes. pose proof (length_base128 (tag_number tag)).
  destruct (_ <=? _); cbn [length]; lia.
Qed.

Lemma length_len_octets n : (1 <= length (len_octets n) <= 5)%nat.
Proof.
  unfold len_octets. destruct (n <? 128); cbn [length]; [lia|].
  rewrite length_be_bytes. pose proof (len_count_range n). lia.
Qed.

(** The length parser on the octets of [n], in DER and in BER. *)
Lemma parse_len_octets ber tag h n r :
  0 <= n < 2 ^ 32 -> 0 <= h < 2 ^ 32 ->
  exists lb r', len_octets n ++ r = lb :: r' /\
    parse_asn1_length ber tag h lb r' =
      (Some (n + (h - 1 + Z.of_nat (length (len_octets n))),
             h - 1 + Z.of_nat (length (len_octets n)), false, false), r).
Proof.
  intros Hn Hh. unfold len_octets. destruct (Z.ltb_spec n 128) as [Hs|Hs].
  - exists n, r. split; [done|]. unfold parse_asn1_length.
    change 0x80 with 128. rewrite land_80 by (unfold is_byte; lia).
    rewrite decide_True by lia. cbn [Z.eqb length]. unfold pret.
    by assert (h - 1 + Z.of_nat 1 = h) as -> by lia.
  - destruct (len_count_range n) as (Hk & Hb & Hl). specialize (Hb Hn). specialize (Hl Hs).
    set (k := len_count n) in *. exists (128 + Z.of_nat k), (be_bytes k n ++ r). split; [done|].
    unfold parse_asn1_length. change 0x80 with 128. change 0x7f with 127.
    rewrite land_80 by (unfold is_byte; lia). rewrite decide_False by lia. cbn [Z.eqb].
    rewrite land_7F. replace ((128 + Z.of_nat k) mod 128) with (Z.of_nat k)
      by (Z.div_mod_to_equations; lia).
    rewrite (proj2 (Z.eqb_neq (Z.of_nat k) 0)), (proj2 (Z.ltb_ge 4 (Z.of_nat k))) by lia.
    rewrite andb_false_r. cbn [orb]. unfold pbind.
    pose proof (cbs_get_u_app (be_bytes k n) r (be_bytes_ok k n)) as E.
    rewrite length_be_bytes in E. rewrite E by lia. clear E.
    rewrite be_val_bytes, Z.mod_small by lia.
    rewrite (proj2 (Z.ltb_ge n 128)) by lia. rewrite shiftr_div by lia.
    assert ((n / 2 ^ ((Z.of_nat k - 1) * 8) =? 0) = false) as ->.
    { apply Z.eqb_neq. replace ((Z.of_nat k - 1) * 8) with (8 * Z.of_nat (k - 1)) by lia.
      rewrite Z.pow_mul_r by lia. change (2 ^ 8) with 256. pose proof (pow256_pos (k - 1)).
      intros E. apply Z.div_small_iff in E; lia. }
    cbn [orb]. rewrite andb_false_r. unfold u64. rewrite !wrap_small by lia.
    rewrite (proj2 (Z.ltb_ge _ n)) by lia. unfold pret. cbn [length].
    rewrite length_be_bytes.
    by assert (h - 1 + Z.of_nat (S k) = h + Z.of_nat k) as -> by lia.
Qed.

(** In DER the octets of a length are the only ones. *)
Lemma parse_len_inv tag h lb r' total hl bf ind r :
  bytes_ok (lb :: r') -> 0 <= h < 2 ^ 32 ->
  parse_asn1_length false tag h lb r' = (Some (total, hl, bf, ind), r) ->
  exists n, 0 <= n < 2 ^ 32 /\ lb :: r' = len_octets n ++ r /\
    hl = h - 1 + Z.of_nat (length (len_octets n)) /\ total = n + hl /\
    bf = false /\ ind = false.
Proof.
  intros Hb Hh. apply Forall_cons_iff in Hb as [Hlb Hb]. pose proof Hlb as Hlb'.
  unfold is_byte in Hlb'. unfold parse_asn1_length. change 0x80 with 128. change 0x7f with 127.
  rewrite land_80 by done. rewrite land_7F. destruct (decide (lb < 128)) as [Hs|Hs].
  - cbn [Z.eqb]. intros [= <- <- <- <- <-]. exists lb. unfold len_octets.
    rewrite (proj2 (Z.ltb_lt lb 128)) by lia. cbn [length]. repeat split; try done; lia.
  - cbn [Z.eqb andb]. set (k := lb mod 128).
    assert (lb = 128 + k) as Elb by (unfold k; Z.div_mod_to_equations; lia).
    destruct (Z.eqb_spec k 0) as [|Hk0]; [done|]. destruct (Z.ltb_spec 4 k); [done|].
    cbn [orb]. unfold pbind. replace k with (Z.of_nat (Z.to_nat k)) by lia.
    set (j := Z.to_nat k) in *.
    destruct (cbs_get_u (Z.of_nat j) r') as [[n|] r''] eqn:E; [|done].
    apply cbs_get_u_inv in E as [-> Hn]; [|lia|done].
    destruct (Z.ltb_spec n 128) as [|Hn1]; [done|]. cbn [orb negb andb].
    destruct (Z.eqb_spec (Z.shiftr n ((Z.of_nat j - 1) * 8)) 0) as [|Hp]; [done|].
    cbn [negb andb]. assert (256 ^ Z.of_nat j <= 2 ^ 32) as Hj.
    { change (2 ^ 32) with (256 ^ 4). apply Z.pow_le_mono_r; lia. }
    unfold u64. rewrite !wrap_small by lia. rewrite (proj2 (Z.ltb_ge _ n)) by lia.
    intros [= <- <- <- <- <-]. exists n. split; [lia|].
    assert (j = len_count n) as Ej.
    { apply len_count_unique; try lia. rewrite shiftr_div in Hp by lia.
      replace ((Z.of_nat j - 1) * 8) with (8 * Z.of_nat (j - 1)) in Hp by lia.
      rewrite Z.pow_mul_r in Hp by lia. change (2 ^ 8) with 256 in Hp.
      pose proof (pow256_pos (j - 1)).
      destruct (Z.leb_spec (256 ^ Z.of_nat (j - 1)) n); [done|].
      exfalso. apply Hp. apply Z.div_small. lia. }
    unfold len_octets. rewrite (proj2 (Z.ltb_ge n 128)) by lia. rewrite <- Ej.
    cbn [length app]. rewrite length_be_bytes. split; [f_equal; lia|]. repeat split; lia.
Qed.

(** ** Elements *)

Lemma length_header tag n : (2 <= length (header tag n) <= 16)%nat.
Proof.
  unfold header. rewrite length_app.
  pose proof (length_tag_bytes tag). pose proof (length_len_octets n). lia.
Qed.

Lemma get_element_app ber tag contents r :
  valid_tag tag -> Z.of_nat (length contents) < 2 ^ 32 ->
  cbs_get_any_asn1_element ber (der tag contents ++ r) =
    (Some (Element (der tag contents) tag
             (Z.of_nat (length (header tag (Z.of_nat (length contents))))) false false), r).
Proof.
  intros Ht Hl. set (n := Z.of_nat (length contents)).
  unfold cbs_get_any_asn1_element. unfold pbind at 1 2 3 4, pret at 1.
  assert (der tag contents ++ r = tag_bytes tag ++ len_octets n ++ contents ++ r) as E
    by (unfold der, header; by rewrite <- !app_assoc).
  rewrite E at 1. rewrite parse_tag_bytes by done.
  pose proof (length_tag_bytes tag) as Htb.
  set (h := Z.of_nat (length (tag_bytes tag)) + 1).
  destruct (parse_len_octets ber tag h n (contents ++ r)) as (lb & r' & El & Ep);
    [unfold n; lia|unfold h; lia|].
  rewrite El. cbn [CBS_get_u8].
  assert (CBS_len (der tag contents ++ r) - CBS_len r' = h) as ->.
  { rewrite E, El. unfold CBS_len, h. rewrite length_app. cbn [length]. lia. }
  rewrite Ep.
  assert (h - 1 + Z.of_nat (length (len_octets n)) = Z.of_nat (length (header tag n))) as ->.
  { unfold h, header. rewrite length_app. lia. }
  unfold pbind, CBS_get_bytes.
  assert (n + Z.of_nat (length (header tag n)) = Z.of_nat (length (der tag contents))) as ->.
  { unfold der. fold n. rewrite length_app. unfold n. lia. }
  by rewrite cbs_get_app.
Qed.

Lemma get_element_inv cbs el r :
  bytes_ok cbs -> CBS_get_any_asn1_element cbs = (Some el, r) ->
  exists contents, cbs = der (el_tag el) contents ++ r /\
    el = Element (der (el_tag el) contents) (el_tag el)
           (Z.of_nat (length (header (el_tag el) (Z.of_nat (length contents))))) false false /\
    valid_tag (el_tag el) /\ Z.of_nat (length contents) < 2 ^ 32.
Proof.
  intros Hb. unfold CBS_get_any_asn1_element, cbs_get_any_asn1_element.
  unfold pbind at 1 2 3 4, pret at 1.
  destruct (parse_asn1_tag cbs) as [[tag|] r1] eqn:Et; [|done].
  apply parse_tag_inv in Et as [Ec Ht]; [|done].
  destruct r1 as [|lb r2]; [done|]. cbn [CBS_get_u8].
  pose proof (length_tag_bytes tag) as Htb.
  assert (CBS_len cbs - CBS_len r2 = Z.of_nat (length (tag_bytes tag)) + 1) as ->.
  { rewrite Ec. unfold CBS_len. rewrite length_app. cbn [length]. lia. }
  set (h := Z.of_nat (length (tag_bytes tag)) + 1) in *.
  destruct (parse_asn1_length false tag h lb r2) as [[[[[total hl] bf] ind]|] r3] eqn:El; [|done].
  assert (bytes_ok (lb :: r2)) as Hb2 by (rewrite Ec in Hb; apply Forall_app in Hb; tauto).
  apply parse_len_inv in El as (n & Hn & E2 & Ehl & Etot & -> & ->); [|done|unfold h; lia].
  assert (hl = Z.of_nat (length (header tag n))) as Eh.
  { rewrite Ehl. unfold h, header. rewrite length_app. lia. }
  unfold pbind, CBS_get_bytes, pret.
  destruct (cbs_get total cbs) as [[out|] r4] eqn:Eg; [|done]. intros [= <- <-].
  cbn [el_tag]. assert (cbs = header tag n ++ r3) as E.
  { rewrite Ec, E2. unfold header. by rewrite app_assoc. }
  apply cbs_get_inv in Eg as [E4 El4]; [|lia].
  assert (length (header tag n) <= length out)%nat as Hlo by lia.
  pose proof (f_equal (take (length (header tag n))) E4) as Eh1.
  rewrite E, take_app_length, take_app_le in Eh1 by done.
  exists (drop (length (header tag n)) out).
  assert (Z.of_nat (length (drop (length (header tag n)) out)) = n) as En.
  { rewrite length_drop. lia. }
  unfold der. rewrite En.
  assert (header tag n ++ drop (length (header tag n)) out = out) as ->.
  { rewrite Eh1 at 1. apply take_drop. }
  split; [done|]. split; [by rewrite Eh|]. split; [done|]. lia.
Qed.

(** ** Contents of a given tag *)

Lemma CBS_skip_app bs r : CBS_skip (Z.of_nat (length bs)) (bs ++ r) = (Some tt, r).
Proof. unfold CBS_skip, pbind. by rewrite cbs_get_app. Qed.

Lemma get_asn1_app tag contents r :
  valid_tag tag -> Z.of_nat (length contents) < 2 ^ 32 ->
  CBS_get_asn1 tag (der tag contents ++ r) = (Some contents, r).
Proof.
  intros Ht Hl. unfold CBS_get_asn1, cbs_get_asn1, CBS_get_any_asn1_element, pbind.
  rewrite get_element_app by done. cbn [el_tag el_header_len el_out].
  rewrite Z.eqb_refl. cbn [negb]. unfold der. by rewrite CBS_skip_app.
Qed.

Lemma get_asn1_inv tag cbs contents r :
  bytes_ok cbs -> CBS_get_asn1 tag cbs = (Some contents, r) ->
  cbs = der tag contents ++ r /\ valid_tag tag /\ Z.of_nat (length contents) < 2 ^ 32.
Proof.
  intros Hb. unfold CBS_get_asn1, cbs_get_asn1, pbind.
  destruct (CBS_get_any_asn1_element cbs) as [[el|] r'] eqn:E; [|done].
  apply get_element_inv in E as (c & -> & Eel & Ht & Hl); [|done].
  destruct (Z.eqb_spec (el_tag el) tag) as [<-|]; [|done]. cbn [negb].
  rewrite Eel. cbn [el_tag el_header_len el_out]. unfold der at 1.
  rewrite CBS_skip_app. intros [= <- <-]. done.
Qed.

(** C22: [CBS_get_any_asn1_element] accepts exactly DER: a byte string parses as an
    element with tag [tag], followed by [r], if and only if it starts with the DER
    encoding of [tag] and some contents, identifier and length octets in their one
    shortest form; the element it returns is that encoding and its header length
    the length of those octets. *)
Theorem get_any_asn1_element_iff cbs tag hlen out r :
  bytes_ok cbs ->
  CBS_get_any_asn1_element cbs = (Some (Element out tag hlen false false), r) <->
  exists contents, valid_tag tag /\ Z.of_nat (length contents) < 2 ^ 32 /\
    cbs = out ++ r /\ out = der tag contents /\
    hlen = Z.of_nat (length (header tag (Z.of_nat (length contents)))).
Proof.
  intros Hb. split.
  - intros E. apply get_element_inv in E as (c & -> & Eel & Ht & Hl); [|done].
    cbn [el_tag] in *. injection Eel as -> ->. eauto 10.
  - intros (c & Ht & Hl & -> & -> & ->). by apply get_element_app.
Qed.

(** no DER element is a prefix of another: two parses of byte strings with a
    common beginning that start with the same element agree, so the element a
    string starts with is unique. *)
Theorem der_prefix_free tag1 c1 r1 tag2 c2 r2 :
  valid_tag tag1 -> valid_tag tag2 ->
  Z.of_nat (length c1) < 2 ^ 32 -> Z.of_nat (length c2) < 2 ^ 32 ->
  der tag1 c1 ++ r1 = der tag2 c2 ++ r2 ->
  tag1 = tag2 /\ c1 = c2 /\ r1 = r2.
Proof.
  intros H1 H2 L1 L2 E.
  pose proof (get_element_app false tag1 c1 r1 H1 L1) as P1.
  pose proof (get_element_app false tag2 c2 r2 H2 L2) as P2.
  rewrite E, P2 in P1. injection P1 as Ed -> _ ->.
  assert (der tag1 c1 ++ [] = der tag1 c2 ++ []) as E2 by (by rewrite Ed).
  pose proof (get_asn1_app tag1 c1 [] H1 L1) as Q1.
  pose proof (get_asn1_app tag1 c2 [] H1 L2) as Q2.
  rewrite E2, Q2 in Q1. by injection Q1 as ->.
Qed.

(** The element 04 01 07 and a byte after it. *)
Lemma get_any_asn1_element_iff_witness :
  CBS_get_any_asn1_element [4; 1; 7; 9] = (Some (Element [4; 1; 7] 4 2 false false), [9]) <->
  exists contents, valid_tag 4 /\ Z.of_nat (length contents) < 2 ^ 32 /\
    [4; 1; 7; 9] = [4; 1; 7] ++ [9] /\ [4; 1; 7] = der 4 contents /\
    2 = Z.of_nat (length (header 4 (Z.of_nat (length contents)))).
Proof.
  apply (get_any_asn1_element_iff [4; 1; 7; 9] 4 2 [4; 1; 7] [9]). repeat constructor; lia.
Defined.

Lemma der_prefix_free_witness : 4 = 4 /\ [7] = [7] /\ [9] = [9].
Proof.
  apply (der_prefix_free 4 [7] [9] 4 [7] [9]);
    try (split; [lia|vm_compute; congruence]); try (cbn; lia). reflexivity.
Defined.
