(* ===== verification/DerInt.v ===== *)
(** * BoringSSL: ASN.1 INTEGERs

    The contents of an INTEGER are the shortest two's complement form of a number,
    and the parsers of cbs.c for 64-bit integers read exactly the INTEGERs whose
    number is in their range. *)
From Stdlib Require Import ZArith Lia.
From stdpp Require Import prelude strings gmap list numbers.
From S2P Require Import Prelude CMem PosixTime Cbs Cbb Der.
Local Open Scope Z_scope.

(** ** Two's complement *)

(** [v] fits [n] bytes, sign included. *)
Definition fits (n : nat) (v : Z) : bool :=
  (- (128 * 256 ^ Z.of_nat (n - 1)) <=? v) && (v <? 128 * 256 ^ Z.of_nat (n - 1)).
Fixpoint min_bytes (fuel n : nat) (v : Z) : nat :=
  match fuel with
  | O => n
  | S k => if fits n v then n else min_bytes k (S n) v
  end.
(** Nine bytes hold every unsigned 64-bit number. *)
Definition int_len (v : Z) : nat := min_bytes 8 1 v.
Definition int_bytes (v : Z) : bytes := be_bytes (int_len v) v.

(** The number a byte string stands for. *)
Definition int_val (bs : bytes) : Z :=
  match bs with
  | [] => 0
  | b :: _ => be_val bs - (if b <? 128 then 0 else 256 ^ Z.of_nat (length bs))
  end.

Lemma fits_mono n m v : (1 <= n <= m)%nat -> fits n v = true -> fits m v = true.
Proof.
  intros Hn. unfold fits. rewrite !andb_true_iff, !Z.leb_le, !Z.ltb_lt.
  assert (256 ^ Z.of_nat (n - 1) <= 256 ^ Z.of_nat (m - 1)) by (apply Z.pow_le_mono_r; lia).
  lia.
Qed.

(** [n] bytes are as many as [v] needs. *)
Definition int_digits (n : nat) (v : Z) : Prop :=
  (1 <= n)%nat /\ fits n v = true /\ (n = 1%nat \/ fits (n - 1) v = false).

Lemma int_digits_unique n m v : int_digits n v -> int_digits m v -> n = m.
Proof.
  intros (Hn & Hf & Hm) (Hn' & Hf' & Hm').
  destruct (Nat.lt_trichotomy n m) as [H|[H|H]]; [exfalso|done|exfalso].
  - destruct Hm' as [->|Hm']; [lia|].
    pose proof (fits_mono n (m - 1) v ltac:(lia) Hf). congruence.
  - destruct Hm as [->|Hm]; [lia|].
    pose proof (fits_mono m (n - 1) v ltac:(lia) Hf'). congruence.
Qed.

Lemma min_bytes_digits fuel n v :
  (1 <= n)%nat -> fits (n + fuel) v = true -> (n = 1%nat \/ fits (n - 1) v = false) ->
  int_digits (min_bytes fuel n v) v.
Proof.
  revert n; induction fuel as [|k IH]; intros n Hn Hf Hm; cbn [min_bytes].
  - rewrite Nat.add_0_r in Hf. done.
  - destruct (fits n v) eqn:E; [done|]. apply IH; [lia| |].
    + by replace (S n + k)%nat with (n + S k)%nat by lia.
    + right. by rewrite Nat.sub_succ, Nat.sub_0_r.
Qed.

Lemma int_len_digits v : - 2 ^ 63 <= v < 2 ^ 64 -> int_digits (int_len v) v.
Proof.
  intros Hv. apply min_bytes_digits; [lia| |auto]. unfold fits. cbn [Nat.add Nat.sub].
  change (128 * 256 ^ Z.of_nat 8) with (2 ^ 71).
  rewrite andb_true_iff, Z.leb_le, Z.ltb_lt. lia.
Qed.

Lemma int_len_range v : - 2 ^ 63 <= v < 2 ^ 64 -> (1 <= int_len v <= 9)%nat.
Proof.
  intros Hv. destruct (int_len_digits v Hv) as (H1 & _ & [E|E]); [lia|].
  split; [done|]. destruct (decide (int_len v <= 9)%nat) as [|H]; [done|].
  rewrite (fits_mono 9 (int_len v - 1) v) in E; [done|lia|].
  unfold fits. change (128 * 256 ^ Z.of_nat (9 - 1)) with (2 ^ 71).
  rewrite andb_true_iff, Z.leb_le, Z.ltb_lt. lia.
Qed.

(** The top byte tells the sign, and the value is within [n] bytes. *)
Lemma int_val_fits b bs :
  bytes_ok (b :: bs) -> fits (S (length bs)) (int_val (b :: bs)) = true.
Proof.
  intros Hb. apply Forall_cons_iff in Hb as [Hb Hbs]. unfold is_byte in Hb.
  pose proof (be_val_bound bs Hbs) as Hv. pose proof (pow256_pos (length bs)) as Hp.
  unfold fits, int_val. rewrite Nat.sub_succ, Nat.sub_0_r, be_val_cons. cbn [length].
  rewrite pow256_succ, andb_true_iff, Z.leb_le, Z.ltb_lt.
  destruct (Z.ltb_spec b 128); nia.
Qed.

Lemma int_val_bytes bs : bytes_ok bs -> be_bytes (length bs) (int_val bs) = bs.
Proof.
  intros Hb. destruct bs as [|b bs]; [done|]. unfold int_val.
  destruct (b <? 128).
  - rewrite Z.sub_0_r. by apply be_bytes_val.
  - replace (be_val (b :: bs) - 256 ^ Z.of_nat (length (b :: bs)))
      with ((-1) * 256 ^ Z.of_nat (length (b :: bs)) + be_val (b :: bs)) by lia.
    rewrite be_bytes_high. by apply be_bytes_val.
Qed.

Lemma int_val_be_bytes n v : (1 <= n)%nat -> fits n v = true -> int_val (be_bytes n v) = v.
Proof.
  intros Hn. unfold fits. rewrite andb_true_iff, Z.leb_le, Z.ltb_lt. intros Hv.
  destruct n as [|n]; [lia|]. rewrite Nat.sub_succ, Nat.sub_0_r in Hv.
  unfold int_val. cbn [be_bytes].
  change (be_val (v / 256 ^ Z.of_nat n mod 256 :: be_bytes n v)) with (be_val (be_bytes (S n) v)).
  rewrite be_val_bytes. cbn [length]. rewrite length_be_bytes, pow256_succ.
  pose proof (pow256_pos n) as Hp. set (p := 256 ^ Z.of_nat n) in *.
  destruct (Z.leb_spec 0 v).
  - assert (v / p < 128) by (apply Z.div_lt_upper_bound; lia).
    assert (0 <= v / p) by (apply Z.div_pos; lia).
    rewrite (Z.mod_small (v / p)) by lia. rewrite (proj2 (Z.ltb_lt _ _)) by lia.
    rewrite Z.mod_small by lia. lia.
  - assert (-128 <= v / p) by (apply Z.div_le_lower_bound; lia).
    assert (v / p < 0) by (apply Z.div_lt_upper_bound; lia).
    assert ((v / p) mod 256 = v / p + 256) as ->
      by (symmetry; apply (Z.mod_unique_pos _ _ (-1)); lia).
    rewrite (proj2 (Z.ltb_ge _ _)) by lia.
    assert (v mod (256 * p) = v + 256 * p) as ->
      by (symmetry; apply (Z.mod_unique_pos _ _ (-1)); lia).
    lia.
Qed.

(** ** What the validity test says *)

Lemma land_80_test b : is_byte b -> (Z.land b 0x80 =? 0) = (b <? 128).
Proof.
  intros Hb. change 0x80 with 128. rewrite land_80 by done.
  destruct (decide (b < 128)), (Z.ltb_spec b 128); (done || lia).
Qed.

Lemma minimal_iff b1 b2 bs :
  bytes_ok (b1 :: b2 :: bs) ->
  fits (S (length bs)) (int_val (b1 :: b2 :: bs)) =
    ((b1 =? 0) && (b2 <? 128)) || ((b1 =? 255) && negb (b2 <? 128)).
Proof.
  intros Hb. pose proof Hb as Hb'. apply Forall_cons_iff in Hb as [H1 Hb].
  pose proof (be_val_bound (b2 :: bs) Hb) as Hv. apply Forall_cons_iff in Hb as [H2 Hb].
  pose proof (be_val_bound bs Hb) as Hv2. unfold is_byte in *.
  pose proof (pow256_pos (length bs)) as Hp.
  unfold fits, int_val. rewrite Nat.sub_succ, Nat.sub_0_r, !be_val_cons. cbn [length] in *.
  rewrite !pow256_succ. set (p := 256 ^ Z.of_nat (length bs)) in *.
  apply Bool.eq_iff_eq_true.
  rewrite orb_true_iff, !andb_true_iff, negb_true_iff, Z.leb_le, !Z.ltb_lt, Z.ltb_ge,
    !Z.eqb_eq.
  destruct (Z.ltb_spec b1 128); split; intros; try nia.
Qed.

Lemma valid_integer_spec bs neg :
  bytes_ok bs ->
  CBS_is_valid_asn1_integer bs = Some neg <->
  bs <> [] /\ int_digits (length bs) (int_val bs) /\ neg = (int_val bs <? 0).
Proof.
  intros Hb. destruct bs as [|b1 bs]; [split; [done|by intros [? _]]|].
  assert (forall x, Some (negb (Z.land b1 128 =? 0)) = Some x <->
    x = (int_val (b1 :: bs) <? 0)) as Hneg.
  { intros x. apply Forall_cons_iff in Hb as [H1 Hbs]. rewrite land_80_test by done.
    pose proof (be_val_bound bs Hbs). unfold is_byte in H1.
    pose proof (pow256_pos (length bs)).
    assert (negb (b1 <? 128) = (int_val (b1 :: bs) <? 0)) as ->.
    { unfold int_val. rewrite be_val_cons. cbn [length]. rewrite pow256_succ.
      destruct (Z.ltb_spec b1 128); cbn [negb]; symmetry; [apply Z.ltb_ge|apply Z.ltb_lt]; nia. }
    split; [by intros [= <-]|by intros ->]. }
  pose proof (int_val_fits b1 bs Hb) as Hf.
  destruct bs as [|b2 bs]; unfold CBS_is_valid_asn1_integer; change 0x80 with 128.
  - rewrite Hneg. split; [|tauto]. intros ->. split; [done|]. split; [|done].
    split; [cbn; lia|]. split; [done|]. by left.
  - pose proof (minimal_iff b1 b2 bs Hb) as Hm.
    pose proof Hb as Hb2. apply Forall_cons_iff in Hb2 as [H1 Hb2].
    apply Forall_cons_iff in Hb2 as [H2 _]. rewrite (land_80_test b2) by done.
    change 0x00 with 0. change 0xff with 255. rewrite <- Hm.
    unfold int_digits. cbn [length]. cbn [length] in Hf.
    rewrite Nat.sub_succ, Nat.sub_0_r.
    destruct (fits (S (length bs)) (int_val (b1 :: b2 :: bs))).
    + split; [done|]. intros (_ & (_ & _ & [?|?]) & _); [lia|done].
    + rewrite Hneg. split; [|tauto]. intros ->. repeat split; try done; [lia|by right].
Qed.

Lemma valid_integer_int_bytes v :
  - 2 ^ 63 <= v < 2 ^ 64 ->
  CBS_is_valid_asn1_integer (int_bytes v) = Some (v <? 0).
Proof.
  intros Hv. pose proof (int_len_digits v Hv) as Hd. pose proof Hd as (H1 & Hf & _).
  apply valid_integer_spec; [apply be_bytes_ok|].
  unfold int_bytes. rewrite int_val_be_bytes, length_be_bytes by done.
  split; [|done]. intros E. apply (f_equal length) in E. rewrite length_be_bytes in E.
  rewrite E in H1. cbn [length] in H1. lia.
Qed.

(** ... and such contents are those of the number they stand for. *)
Lemma valid_integer_inv bs neg :
  bytes_ok bs -> CBS_is_valid_asn1_integer bs = Some neg ->
  - 2 ^ 63 <= int_val bs < 2 ^ 64 ->
  bs = int_bytes (int_val bs) /\ neg = (int_val bs <? 0).
Proof.
  intros Hb E Hr. apply valid_integer_spec in E as (Hn & Hd & ->); [|done]. split; [|done].
  unfold int_bytes. rewrite <- (int_digits_unique _ _ _ Hd (int_len_digits _ Hr)).
  by rewrite int_val_bytes.
Qed.

(** ** Reading 64-bit integers *)

Lemma uint64_loop_spec out bs :
  bytes_ok bs -> 0 <= out < 2 ^ 64 ->
  uint64_loop out bs =
    let v := out * 256 ^ Z.of_nat (length bs) + be_val bs in
    if v <? 2 ^ 64 then Some v else None.
Proof.
  intros Hb. cbv zeta. revert out; induction Hb as [|b bs Hb Hbs IH]; intros out Ho.
  - cbn [uint64_loop length]. change (256 ^ Z.of_nat 0) with 1. change (be_val []) with 0.
    rewrite Z.mul_1_r, Z.add_0_r, (proj2 (Z.ltb_lt _ _)) by lia. done.
  - cbn [uint64_loop length]. rewrite be_val_cons, pow256_succ.
    pose proof (be_val_bound bs Hbs) as Hv. pose proof (pow256_pos (length bs)) as Hp.
    unfold is_byte in Hb. rewrite shiftr_div by lia.
    destruct (Z.eqb_spec (out / 2 ^ 56) 0) as [E|E]; cbn [negb].
    + apply Z.div_small_iff in E; [|lia].
      assert (Z.lor (u64 (Z.shiftl out 8)) b = out * 256 + b) as ->.
      { rewrite Z.shiftl_mul_pow2 by lia. unfold u64. rewrite wrap_small by lia.
        apply (lor_low_add _ b 8); try lia. change (2 ^ 8) with 256. apply Z.mod_mul. lia. }
      rewrite IH by lia.
      replace ((out * 256 + b) * 256 ^ Z.of_nat (length bs) + be_val bs) with
        (out * (256 * 256 ^ Z.of_nat (length bs)) +
         (b * 256 ^ Z.of_nat (length bs) + be_val bs)) by lia. done.
    + rewrite (proj2 (Z.ltb_ge _ _)); [done|].
      assert (2 ^ 56 <= out) by
        (destruct (Z.leb_spec (2 ^ 56) out); [done|]; exfalso; apply E, Z.div_small; lia).
      nia.
Qed.

Lemma int_val_nonneg bs : 0 <= int_val bs -> bytes_ok bs -> int_val bs = be_val bs.
Proof.
  destruct bs as [|b bs]; [done|]. intros H Hb. pose proof (be_val_bound _ Hb).
  unfold int_val in *. destruct (b <? 128); lia.
Qed.

Lemma unsigned_inv bs :
  bytes_ok bs -> CBS_is_unsigned_asn1_integer bs = true ->
  int_digits (length bs) (int_val bs) /\ int_val bs = be_val bs /\ 0 <= int_val bs.
Proof.
  intros Hb. unfold CBS_is_unsigned_asn1_integer.
  destruct (CBS_is_valid_asn1_integer bs) as [neg|] eqn:E; [|done].
  apply valid_integer_spec in E as (_ & Hd & ->); [|done].
  intros Hn. apply negb_true_iff, Z.ltb_ge in Hn.
  split; [done|]. split; [by apply int_val_nonneg|done].
Qed.

Lemma valid_tag_small t : 1 <= t < 31 -> valid_tag t.
Proof.
  intros Ht. split; [lia|]. assert (1 <= t < 31 -> not_constructed t <> 0) as H; [|by apply H].
  clear. intros Ht. assert (Forall (fun t => not_constructed t <> 0) (seqZ 1 30)) as H
    by (apply (bool_decide_unpack _); vm_compute; exact I).
  rewrite Forall_forall in H. apply H, list_elem_of_In, elem_of_seqZ. lia.
Qed.

Lemma length_int_bytes v : - 2 ^ 63 <= v < 2 ^ 64 -> (1 <= length (int_bytes v) <= 9)%nat.
Proof. intros Hv. unfold int_bytes. rewrite length_be_bytes. by apply int_len_range. Qed.

Lemma int_val_int_bytes v : - 2 ^ 63 <= v < 2 ^ 64 -> int_val (int_bytes v) = v.
Proof.
  intros Hv. destruct (int_len_digits v Hv) as (H1 & H2 & _). by apply int_val_be_bytes.
Qed.

Lemma get_uint64_app v r :
  0 <= v < 2 ^ 64 ->
  CBS_get_asn1_uint64 (der CBS_ASN1_INTEGER (int_bytes v) ++ r) = (Some v, r).
Proof.
  intros Hv. unfold CBS_get_asn1_uint64, pbind.
  pose proof (length_int_bytes v ltac:(lia)) as Hl.
  rewrite get_asn1_app by (apply valid_tag_small; unfold CBS_ASN1_INTEGER; lia) || lia.
  unfold CBS_is_unsigned_asn1_integer. rewrite valid_integer_int_bytes by lia.
  rewrite (proj2 (Z.ltb_ge v 0)) by lia. cbn [negb]. unfold plift. f_equal.
  rewrite uint64_loop_spec by (apply be_bytes_ok || lia). cbv zeta.
  pose proof (int_val_int_bytes v ltac:(lia)) as E.
  rewrite int_val_nonneg in E by (lia || apply be_bytes_ok).
  rewrite E. by rewrite (proj2 (Z.ltb_lt _ _)) by lia.
Qed.

Lemma get_uint64_inv cbs v r :
  bytes_ok cbs -> CBS_get_asn1_uint64 cbs = (Some v, r) ->
  cbs = der CBS_ASN1_INTEGER (int_bytes v) ++ r /\ 0 <= v < 2 ^ 64.
Proof.
  intros Hb. unfold CBS_get_asn1_uint64, pbind.
  destruct (CBS_get_asn1 CBS_ASN1_INTEGER cbs) as [[data|] r'] eqn:E; [|done].
  apply get_asn1_inv in E as (-> & _ & _); [|done].
  assert (bytes_ok data) as Hd.
  { unfold der in Hb. apply Forall_app in Hb as [Hb _].
    apply Forall_app in Hb as [_ Hb]. exact Hb. }
  destruct (CBS_is_unsigned_asn1_integer data) eqn:Eu; [|done]. cbn [negb]. unfold plift.
  apply unsigned_inv in Eu as (Hi & Ev & Hn); [|done].
  rewrite uint64_loop_spec by (done || lia). cbv zeta. rewrite Z.mul_0_l, Z.add_0_l, <- Ev.
  destruct (Z.ltb_spec (int_val data) (2 ^ 64)); [|done]. intros [= <- <-].
  split; [|lia]. do 2 f_equal. unfold int_bytes.
  rewrite <- (int_digits_unique _ _ _ Hi (int_len_digits (int_val data) ltac:(lia))).
  by rewrite int_val_bytes.
Qed.

(** The sign-extended little-endian bytes of [CBS_get_asn1_int64]. *)
Lemma le_val_app a b :
  le_val (a ++ b) = le_val a + 256 ^ Z.of_nat (length a) * le_val b.
Proof.
  induction a as [|x a IH]; cbn [app le_val length].
  - rewrite Z.pow_0_r. lia.
  - rewrite IH, pow256_succ. lia.
Qed.
Lemma le_val_rev bs : le_val (rev bs) = be_val bs.
Proof.
  induction bs as [|b bs IH]; [done|]. cbn [rev].
  rewrite le_val_app, length_rev, IH, be_val_cons. cbn [le_val]. lia.
Qed.
Lemma le_val_replicate n c : (c = 0 \/ c = 255) ->
  le_val (replicate n c) = if c =? 0 then 0 else 256 ^ Z.of_nat n - 1.
Proof.
  intros Hc. induction n as [|n IH]; cbn [replicate le_val].
  - rewrite Z.pow_0_r. by destruct (c =? 0).
  - rewrite IH, pow256_succ. destruct Hc as [->| ->]; cbn [Z.eqb]; lia.
Qed.

Lemma sign_extend_val bs :
  bytes_ok bs -> (1 <= length bs <= 8)%nat ->
  s64 (le_val (rev bs ++ drop (length bs) (replicate 8 (if int_val bs <? 0 then 255 else 0))))
    = int_val bs.
Proof.
  intros Hb Hl. destruct bs as [|b bs]; [cbn in Hl; lia|].
  pose proof (int_val_fits b bs Hb) as Hf. set (l := b :: bs) in *.
  pose proof (be_val_bound l Hb) as Hv. pose proof (pow256_pos (length l)) as Hp.
  rewrite drop_replicate, le_val_app, length_rev, le_val_rev, le_val_replicate
    by (destruct (_ <? 0); auto).
  assert (- 2 ^ 63 <= int_val l < 2 ^ 63) as Hr.
  { apply (fits_mono _ 8) in Hf; [|cbn [length l] in *; lia]. unfold fits in Hf.
    change (128 * 256 ^ Z.of_nat (8 - 1)) with (2 ^ 63) in Hf.
    rewrite andb_true_iff, Z.leb_le, Z.ltb_lt in Hf. done. }
  unfold s64. destruct (Z.ltb_spec (int_val l) 0) as [H|H].
  - change (255 =? 0) with false. cbv iota.
    assert (be_val l = int_val l + 256 ^ Z.of_nat (length l)) as ->.
    { unfold l, int_val in *. destruct (b <? 128); [lia|]. lia. }
    assert (256 ^ Z.of_nat (length l) * 256 ^ Z.of_nat (8 - length l) = 2 ^ 64) as E.
    { rewrite <- Z.pow_add_r by lia. change (2 ^ 64) with (256 ^ 8). f_equal. lia. }
    replace (int_val l + 256 ^ Z.of_nat (length l) +
             256 ^ Z.of_nat (length l) * (256 ^ Z.of_nat (8 - length l) - 1))
      with (int_val l + 2 ^ 64) by lia.
    unfold swrap. change (2 ^ (64 - 1)) with (2 ^ 63).
    replace (int_val l + 2 ^ 64 + 2 ^ 63) with (int_val l + 2 ^ 63 + 1 * 2 ^ 64) by lia.
    rewrite Z.mod_add, Z.mod_small by lia. lia.
  - cbn [Z.eqb]. rewrite Z.mul_0_r, Z.add_0_r, <- int_val_nonneg by done.
    apply swrap_small; [lia|]. exact Hr.
Qed.

Lemma get_int64_app v r :
  - 2 ^ 63 <= v < 2 ^ 63 ->
  CBS_get_asn1_int64 (der CBS_ASN1_INTEGER (int_bytes v) ++ r) = (Some v, r).
Proof.
  intros Hv. unfold CBS_get_asn1_int64, pbind.
  pose proof (length_int_bytes v ltac:(lia)) as Hl.
  rewrite get_asn1_app by (apply valid_tag_small; unfold CBS_ASN1_INTEGER; lia) || lia.
  rewrite valid_integer_int_bytes by lia.
  assert (length (int_bytes v) <= 8)%nat as Hl8.
  { unfold int_bytes in *. rewrite length_be_bytes in *.
    destruct (int_len_digits v ltac:(lia)) as (H1 & _ & [E|E]); [lia|].
    destruct (decide (int_len v <= 8)%nat) as [|H]; [done|].
    rewrite (fits_mono 8 (int_len v - 1) v) in E; [done|lia|].
    unfold fits. change (128 * 256 ^ Z.of_nat (8 - 1)) with (2 ^ 63).
    rewrite andb_true_iff, Z.leb_le, Z.ltb_lt. lia. }
  unfold CBS_len. rewrite (proj2 (Z.ltb_ge _ _)) by lia. unfold pret. do 2 f_equal.
  pose proof (sign_extend_val (int_bytes v) (be_bytes_ok _ _) ltac:(lia)) as E.
  by rewrite int_val_int_bytes in E by lia.
Qed.

Lemma get_int64_inv cbs v r :
  bytes_ok cbs -> CBS_get_asn1_int64 cbs = (Some v, r) ->
  - 2 ^ 63 <= v < 2 ^ 63 /\ cbs = der CBS_ASN1_INTEGER (int_bytes v) ++ r.
Proof.
  intros Hb. unfold CBS_get_asn1_int64, pbind.
  destruct (CBS_get_asn1 CBS_ASN1_INTEGER cbs) as [[data|] r'] eqn:E; [|done].
  apply get_asn1_inv in E as (-> & _ & _); [|done].
  assert (bytes_ok data) as Hd.
  { unfold der in Hb. apply Forall_app in Hb as [Hb _].
    apply Forall_app in Hb as [_ Hb]. exact Hb. }
  destruct (CBS_is_valid_asn1_integer data) as [neg|] eqn:Ev; [|done].
  pose proof Ev as Ev'. apply valid_integer_spec in Ev' as (Hn & Hi & ->); [|done].
  unfold CBS_len. destruct (Z.ltb_spec 8 (Z.of_nat (length data))); [done|].
  assert (1 <= length data <= 8)%nat as Hl by (destruct data; [done|cbn [length] in *; lia]).
  unfold pret. change 0xff with 255. rewrite sign_extend_val by done. intros [= <- <-].
  assert (- 2 ^ 63 <= int_val data < 2 ^ 63) as Hr.
  { destruct data as [|b data]; [done|]. pose proof (int_val_fits b data Hd) as Hf.
    apply (fits_mono _ 8) in Hf; [|cbn [length] in *; lia]. unfold fits in Hf.
    change (128 * 256 ^ Z.of_nat (8 - 1)) with (2 ^ 63) in Hf.
    rewrite andb_true_iff, Z.leb_le, Z.ltb_lt in Hf. done. }
  split; [done|]. destruct (valid_integer_inv data _ Hd Ev ltac:(lia)) as [<- _]. done.
Qed.

(** INTEGERs as unsigned 64-bit numbers: [CBS_get_asn1_uint64] accepts exactly
    the DER encodings of the shortest two's complement form of the numbers from 0
    to 2^64-1, and returns the number. *)
Theorem get_asn1_uint64_iff cbs v r :
  bytes_ok cbs ->
  CBS_get_asn1_uint64 cbs = (Some v, r) <->
  0 <= v < 2 ^ 64 /\ cbs = der CBS_ASN1_INTEGER (int_bytes v) ++ r.
Proof.
  intros Hb. split.
  - intros E. apply get_uint64_inv in E; tauto.
  - intros [Hv ->]. by apply get_uint64_app.
Qed.

(** INTEGERs as signed 64-bit numbers: [CBS_get_asn1_int64] accepts exactly the
    DER encodings of the numbers from -2^63 to 2^63-1. *)
Theorem get_asn1_int64_iff cbs v r :
  bytes_ok cbs ->
  CBS_get_asn1_int64 cbs = (Some v, r) <->
  - 2 ^ 63 <= v < 2 ^ 63 /\ cbs = der CBS_ASN1_INTEGER (int_bytes v) ++ r.
Proof.
  intros Hb. split.
  - by apply get_int64_inv.
  - intros [Hv ->]. by apply get_int64_app.
Qed.

Lemma get_asn1_uint64_iff_witness :
  CBS_get_asn1_uint64 [2; 2; 0; 200; 1] = (Some 200, [1]) <->
  0 <= 200 < 2 ^ 64 /\ [2; 2; 0; 200; 1] = der CBS_ASN1_INTEGER (int_bytes 200) ++ [1].
Proof. apply (get_asn1_uint64_iff [2; 2; 0; 200; 1] 200 [1]). repeat constructor; lia. Defined.

Lemma get_asn1_int64_iff_witness :
  CBS_get_asn1_int64 [2; 1; 200; 1] = (Some (-56), [1]) <->
  - 2 ^ 63 <= -56 < 2 ^ 63 /\ [2; 1; 200; 1] = der CBS_ASN1_INTEGER (int_bytes (-56)) ++ [1].
Proof. apply (get_asn1_int64_iff [2; 1; 200; 1] (-56) [1]). repeat constructor; lia. Defined.

(** ** BoringSSL: the byte swaps are byte swaps

    [CRYPTO_bswap2], [4] and [8] of crypto/internal.h, made of shifts and masks,
    reverse the bytes of their argument: what makes the little-endian variants of
    the CBS and CBB functions little-endian. *)

(** Bit [k] of byte [i]. *)
Lemma byte_bits x y i j :
  0 <= i -> 0 <= j ->
  (forall k, 0 <= k < 8 -> Z.testbit x (8 * i + k) = Z.testbit y (8 * j + k)) ->
  x / 256 ^ i mod 256 = y / 256 ^ j mod 256.
Proof.
  intros Hi Hj H. change 256 with (2 ^ 8). rewrite <- !Z.pow_mul_r by lia.
  apply Z.bits_inj'. intros k Hk. destruct (Z.ltb_spec k 8).
  - rewrite !Z.mod_pow2_bits_low, !Z.div_pow2_bits by lia.
    rewrite (Z.add_comm k), H by lia. f_equal. lia.
  - by rewrite !Z.mod_pow2_bits_high by lia.
Qed.

(** Bits from [n] on of an [n]-bit number. *)
Lemma testbit_above x n i : 0 <= x < 2 ^ n -> 0 <= n <= i -> Z.testbit x i = false.
Proof.
  intros Hx Hi. rewrite <- (Z.mod_small x (2 ^ n)) by done. apply Z.mod_pow2_bits_high. lia.
Qed.

Lemma bswap2_bits x i :
  0 <= x < 2 ^ 16 -> 0 <= i < 16 ->
  Z.testbit (CRYPTO_bswap2 x) i = Z.testbit x (if i <? 8 then i + 8 else i - 8).
Proof.
  intros Hx Hi. unfold CRYPTO_bswap2, u16, wrap. rewrite Z.mod_pow2_bits_low by lia.
  rewrite Z.lor_spec, Z.shiftr_spec, Z.shiftl_spec by lia. destruct (Z.ltb_spec i 8).
  - by rewrite (Z.testbit_neg_r x (i - 8)), orb_false_r by lia.
  - by rewrite (testbit_above x 16 (i + 8)) by lia.
Qed.

(** Which bytes the masks keep. *)
Lemma mask_bits i :
  0 <= i < 32 ->
  Z.testbit 0xff00ff00 i = Z.odd (i / 8) /\ Z.testbit 0x00ff00ff i = Z.even (i / 8).
Proof.
  intros Hi. assert (Forall (fun i => Z.testbit 0xff00ff00 i = Z.odd (i / 8) /\
    Z.testbit 0x00ff00ff i = Z.even (i / 8)) (seqZ 0 32)) as H
    by (apply (bool_decide_unpack _); vm_compute; exact I).
  rewrite Forall_forall in H. apply H, list_elem_of_In, elem_of_seqZ. lia.
Qed.

Lemma bswap4_bits x i :
  0 <= x < 2 ^ 32 -> 0 <= i < 32 ->
  Z.testbit (CRYPTO_bswap4 x) i = Z.testbit x (24 - 8 * (i / 8) + i mod 8).
Proof.
  intros Hx Hi. unfold CRYPTO_bswap4, u32, wrap.
  set (y := Z.lor (Z.shiftr x 16) (Z.shiftl x 16 mod 2 ^ 32)).
  assert (forall j, 0 <= j < 32 -> Z.testbit y j = Z.testbit x (if j <? 16 then j + 16 else j - 16))
    as Hy.
  { intros j Hj. unfold y. rewrite Z.lor_spec, Z.mod_pow2_bits_low, Z.shiftr_spec, Z.shiftl_spec
      by lia. destruct (Z.ltb_spec j 16).
    - by rewrite (Z.testbit_neg_r x (j - 16)), orb_false_r by lia.
    - by rewrite (testbit_above x 32 (j + 16)) by lia. }
  assert (forall j, 32 <= j -> Z.testbit y j = false) as Hy2.
  { intros j Hj. unfold y. rewrite Z.lor_spec, Z.mod_pow2_bits_high, Z.shiftr_spec by lia.
    by rewrite (testbit_above x 32) by lia. }
  rewrite Z.lor_spec, Z.mod_pow2_bits_low, Z.shiftr_spec, Z.shiftl_spec, !Z.land_spec by lia.
  pose proof (Z.div_mod i 8 ltac:(lia)) as Ei. pose proof (Z.mod_pos_bound i 8 ltac:(lia)) as Hr.
  set (q := i / 8) in *. set (r := i mod 8) in *.
  assert (forall d, 0 <= i + 8 * d < 32 ->
    Z.testbit 0xff00ff00 (i + 8 * d) = Z.odd (q + d) /\
    Z.testbit 0x00ff00ff (i + 8 * d) = Z.even (q + d)) as Hm.
  { intros d Hd. destruct (mask_bits (i + 8 * d) Hd) as [-> ->].
    by rewrite (Z.mul_comm 8), Z.div_add by lia. }
  assert (q = 0 \/ q = 1 \/ q = 2 \/ q = 3) as Hq by lia.
  replace (i + 8) with (i + 8 * 1) in * by lia. replace (i - 8) with (i + 8 * (-1)) by lia.
  destruct Hq as [Hq|[Hq|[Hq|Hq]]]; rewrite Hq in *.
  - rewrite (proj1 (Hm 1 ltac:(lia))), (Z.testbit_neg_r y (i + 8 * -1)), Hy by lia.
    rewrite (proj2 (Z.ltb_lt _ _)) by lia. cbn [Z.odd Z.add]. rewrite andb_true_r, orb_false_r.
    f_equal. lia.
  - rewrite (proj1 (Hm 1 ltac:(lia))), (proj2 (Hm (-1) ltac:(lia))), !Hy by lia.
    rewrite (proj2 (Z.ltb_lt (i + 8 * -1) _)) by lia. cbn [Z.odd Z.even Z.add Z.pos_sub Pos.add].
    rewrite andb_false_r, andb_true_r. cbn [orb]. f_equal. lia.
  - rewrite (proj1 (Hm 1 ltac:(lia))), (proj2 (Hm (-1) ltac:(lia))), !Hy by lia.
    rewrite (proj2 (Z.ltb_ge (i + 8 * 1) _)) by lia. cbn [Z.odd Z.even Z.add Z.pos_sub Pos.add].
    rewrite andb_false_r, andb_true_r, orb_false_r. f_equal. lia.
  - rewrite (Hy2 (i + 8 * 1)), (proj2 (Hm (-1) ltac:(lia))), Hy by lia.
    rewrite (proj2 (Z.ltb_ge (i + 8 * -1) _)) by lia. cbn [Z.even Z.add Z.pos_sub Pos.add].
    rewrite andb_true_r. cbn [andb orb]. f_equal. lia.
Qed.

Lemma bswap4_range x : 0 <= x < 2 ^ 32 -> 0 <= CRYPTO_bswap4 x < 2 ^ 32.
Proof.
  intros Hx. unfold CRYPTO_bswap4.
  assert (forall a, 0 <= u32 a < 2 ^ 32) as Hu by (intros a; apply Z.mod_pos_bound; lia).
  apply (lor_range 32); [lia| |apply Hu]. rewrite shiftr_div by lia.
  assert (0 <= Z.lor (Z.shiftr x 16) (u32 (Z.shiftl x 16)) < 2 ^ 32) as Hy.
  { apply (lor_range 32); [lia| |apply Hu]. rewrite shiftr_div by lia. Z.div_mod_to_equations. lia. }
  set (y := Z.lor _ _) in *. rewrite <- (Z.mod_small (Z.land y _) (2 ^ 32)).
  - pose proof (Z.mod_pos_bound (Z.land y 4278255360) (2 ^ 32) ltac:(lia)).
    Z.div_mod_to_equations. lia.
  - rewrite <- (Z.mod_small y (2 ^ 32)), <- Z.land_ones by lia.
    rewrite <- Z.land_assoc, (Z.land_comm (Z.ones 32)), Z.land_assoc, Z.land_ones by lia.
    apply Z.mod_pos_bound. lia.
Qed.

Lemma bswap8_bits x i :
  0 <= x < 2 ^ 64 -> 0 <= i < 64 ->
  Z.testbit (CRYPTO_bswap8 x) i = Z.testbit x (56 - 8 * (i / 8) + i mod 8).
Proof.
  intros Hx Hi. unfold CRYPTO_bswap8, u64, u32, wrap.
  pose proof (Z.mod_pos_bound x (2 ^ 32) ltac:(lia)) as Hlo.
  assert (0 <= Z.shiftr x 32 < 2 ^ 32) as Hhi
    by (rewrite shiftr_div by lia; Z.div_mod_to_equations; lia).
  rewrite Z.lor_spec, Z.mod_pow2_bits_low, Z.shiftl_spec by lia.
  pose proof (bswap4_range _ Hlo) as Hr. pose proof (bswap4_range _ Hhi) as Hr2.
  destruct (Z.ltb_spec i 32) as [H|H].
  - rewrite (Z.testbit_neg_r (CRYPTO_bswap4 (x mod 2 ^ 32))), orb_false_r by lia.
    rewrite bswap4_bits, Z.shiftr_spec by (Z.div_mod_to_equations; lia). f_equal. lia.
  - rewrite (testbit_above _ _ i Hr2) by lia. cbn [orb].
    rewrite bswap4_bits, Z.mod_pow2_bits_low by (Z.div_mod_to_equations; lia). f_equal.
    replace (i - 32) with (i + (-4) * 8) by lia. rewrite Z.div_add, Z.mod_add by lia. lia.
Qed.

(** ** Bytes *)

Lemma be_bytes_lookup n v i :
  (i < n)%nat -> be_bytes n v !! i = Some (v / 256 ^ (Z.of_nat n - 1 - Z.of_nat i) mod 256).
Proof.
  revert i; induction n as [|n IH]; intros i Hi; [lia|]. cbn [be_bytes].
  destruct i as [|i]; cbn [lookup list_lookup].
  - do 4 f_equal. lia.
  - etrans; [apply IH; lia|]. do 4 f_equal. lia.
Qed.

Lemma le_bytes_lookup n v i :
  (i < n)%nat -> le_bytes n v !! i = Some (v / 256 ^ Z.of_nat i mod 256).
Proof.
  revert i v; induction n as [|n IH]; intros i v Hi; [lia|]. cbn [le_bytes].
  destruct i as [|i]; cbn [lookup list_lookup]; [by rewrite Z.pow_0_r, Z.div_1_r|].
  etrans; [apply IH; lia|]. rewrite pow256_succ, Z.div_div by (pose proof (pow256_pos i); lia). done.
Qed.

Lemma swapped_bytes n w v :
  (forall i, 0 <= i < 8 * Z.of_nat n ->
     Z.testbit w i = Z.testbit v (8 * (Z.of_nat n - 1) - 8 * (i / 8) + i mod 8)) ->
  be_bytes n w = le_bytes n v.
Proof.
  intros H. apply list_eq. intros i. destruct (decide (i < n)%nat) as [Hi|Hi].
  - rewrite be_bytes_lookup, le_bytes_lookup by done. f_equal. apply byte_bits; [lia|lia|].
    intros k Hk. rewrite H by lia. f_equal.
    replace (8 * (Z.of_nat n - 1 - Z.of_nat i) + k)
      with (k + (Z.of_nat n - 1 - Z.of_nat i) * 8) by lia.
    rewrite Z.div_add, Z.mod_add, Z.div_small, Z.mod_small by lia. lia.
  - rewrite !lookup_ge_None_2; rewrite ?length_be_bytes, ?length_le_bytes; [done|lia|lia].
Qed.

Lemma bswap2_bytes v : 0 <= v < 2 ^ 16 -> be_bytes 2 (CRYPTO_bswap2 v) = le_bytes 2 v.
Proof.
  intros Hv. apply swapped_bytes. intros i Hi. rewrite bswap2_bits by lia. f_equal.
  destruct (Z.ltb_spec i 8); Z.div_mod_to_equations; lia.
Qed.
Lemma bswap4_bytes v : 0 <= v < 2 ^ 32 -> be_bytes 4 (CRYPTO_bswap4 v) = le_bytes 4 v.
Proof. intros Hv. apply swapped_bytes. intros i Hi. rewrite bswap4_bits by lia. f_equal. Qed.
Lemma bswap8_bytes v : 0 <= v < 2 ^ 64 -> be_bytes 8 (CRYPTO_bswap8 v) = le_bytes 8 v.
Proof. intros Hv. apply swapped_bytes. intros i Hi. rewrite bswap8_bits by lia. f_equal. Qed.


(** Swapping twice. *)
Lemma swap_involutive (f : Z -> Z) n :
  0 < n ->
  (forall v, 0 <= v < 2 ^ (8 * n) -> 0 <= f v < 2 ^ (8 * n)) ->
  (forall v i, 0 <= v < 2 ^ (8 * n) -> 0 <= i < 8 * n ->
     Z.testbit (f v) i = Z.testbit v (8 * (n - 1) - 8 * (i / 8) + i mod 8)) ->
  forall v, 0 <= v < 2 ^ (8 * n) -> f (f v) = v.
Proof.
  intros Hn Hr Hb v Hv. apply Z.bits_inj'. intros i Hi. destruct (Z.ltb_spec i (8 * n)).
  - pose proof (Z.div_mod i 8 ltac:(lia)). pose proof (Z.mod_pos_bound i 8 ltac:(lia)).
    assert (0 <= i / 8 <= n - 1) by lia.
    rewrite Hb, Hb by (auto || lia). f_equal.
    replace (8 * (n - 1) - 8 * (i / 8) + i mod 8) with (i mod 8 + (n - 1 - i / 8) * 8) by lia.
    rewrite Z.div_add, Z.mod_add, Z.div_small, Z.mod_small by lia. lia.
  - rewrite !(testbit_above _ (8 * n)) by (auto || lia). done.
Qed.

Lemma bswap2_involutive v : 0 <= v < 2 ^ 16 -> CRYPTO_bswap2 (CRYPTO_bswap2 v) = v.
Proof.
  apply (swap_involutive CRYPTO_bswap2 2); [lia| |].
  - intros x _. apply (wrap_range 16). lia.
  - intros x i Hx Hi. rewrite bswap2_bits by lia. f_equal.
    destruct (Z.ltb_spec i 8); Z.div_mod_to_equations; lia.
Qed.
Lemma bswap4_involutive v : 0 <= v < 2 ^ 32 -> CRYPTO_bswap4 (CRYPTO_bswap4 v) = v.
Proof.
  apply (swap_involutive CRYPTO_bswap4 4); [lia|apply bswap4_range|].
  intros x i Hx Hi. by rewrite bswap4_bits.
Qed.
Lemma bswap8_range v : 0 <= v < 2 ^ 64 -> 0 <= CRYPTO_bswap8 v < 2 ^ 64.
Proof.
  intros Hv. unfold CRYPTO_bswap8. apply lor_range; [lia| |apply (wrap_range 64); lia].
  assert (0 <= Z.shiftr v 32 < 2 ^ 32) as Hs
    by (rewrite shiftr_div by lia; Z.div_mod_to_equations; lia).
  pose proof (bswap4_range _ Hs). lia.
Qed.
Lemma bswap8_involutive v : 0 <= v < 2 ^ 64 -> CRYPTO_bswap8 (CRYPTO_bswap8 v) = v.
Proof.
  apply (swap_involutive CRYPTO_bswap8 8); [lia|apply bswap8_range|].
  intros x i Hx Hi. by rewrite bswap8_bits.
Qed.
