(* ===== verification/CbbSpec.v ===== *)
(** * BoringSSL: what the CBB functions append

    A CBB without an open child, and without an error, is a handle on a buffer
    that holds some bytes.  [emits f a data] says that [f] run on such a handle
    either appends exactly [data] to the buffer, whatever reallocations that takes,
    or fails and leaves the error bit set; in both cases without undefined
    behaviour, without touching other memory and with every other CBB as it was.
    It composes along sequences and through open children, so the functions that
    build nested elements are specified by their encodings in [Der]. *)
From Stdlib Require Import ZArith Lia.
From stdpp Require Import prelude strings gmap list numbers.
From S2P Require Import Prelude CMem PosixTime Cbs Cbb Der DerInt.
Local Open Scope Z_scope.
Local Open Scope c_scope.

(** ** The store of objects *)

Definition obj (s : cbb_store) (a : Z) (c : cbb) : Prop := objs s !! a = Some (Some c).
Definition upd (s : cbb_store) (a : Z) (c : cbb) : cbb_store :=
  Store (<[a := Some c]> (objs s)) (next_obj s).

Lemma obj_upd_eq s a c : obj (upd s a c) a c.
Proof. apply lookup_insert_eq. Qed.
Lemma obj_upd_ne s a b c d : a <> b -> obj s b d -> obj (upd s a c) b d.
Proof. intros Hn Ho. unfold obj, upd. cbn. by rewrite lookup_insert_ne. Qed.
Lemma upd_upd s a c d : upd (upd s a c) a d = upd s a d.
Proof. unfold upd. cbn. f_equal. apply insert_insert_eq. Qed.
Lemma upd_comm s a b c d : a <> b -> upd (upd s a c) b d = upd (upd s b d) a c.
Proof. intros Hn. unfold upd. cbn. f_equal. by apply insert_insert_ne. Qed.
Lemma upd_id s a c : obj s a c -> upd s a c = s.
Proof. destruct s as [o n]. unfold obj, upd. cbn. intros Ho. f_equal. by apply insert_id. Qed.

Section rules.
Context (U F : Prop).

Lemma spec_get_cbb a c (Q : cbb -> cbb_store -> world -> Prop) s w :
  obj s a c -> Q c s w -> spec U F (get_cbb a) Q s w.
Proof.
  intros Ho HQ. unfold get_cbb. apply spec_bind, spec_get_stream, spec_of_option.
  - unfold obj in Ho. rewrite Ho. by intros c' [= <-].
  - unfold obj in Ho. by rewrite Ho.
Qed.

Lemma spec_set_cbb a c (Q : unit -> cbb_store -> world -> Prop) s w :
  is_Some (objs s !! a) -> Q tt (upd s a c) w -> spec U F (set_cbb a c) Q s w.
Proof.
  intros [o Ho] HQ. unfold set_cbb. apply spec_bind, spec_get_stream. rewrite Ho.
  by apply spec_put_stream.
Qed.

Lemma spec_get_buffer a ch b (Q : cbb_buffer -> cbb_store -> world -> Prop) s w :
  obj s a (Cbb ch (UBase b)) -> Q b s w -> spec U F (get_buffer a) Q s w.
Proof.
  intros Ho HQ. unfold get_buffer. apply spec_bind.
  eapply spec_get_cbb; [exact Ho|]. cbn. by apply spec_ret.
Qed.

Lemma spec_set_buffer a ch b b' (Q : unit -> cbb_store -> world -> Prop) s w :
  obj s a (Cbb ch (UBase b)) -> Q tt (upd s a (Cbb ch (UBase b'))) w ->
  spec U F (set_buffer a b') Q s w.
Proof.
  intros Ho HQ. unfold set_buffer. apply spec_bind.
  eapply spec_get_cbb; [exact Ho|]. cbn. apply spec_set_cbb; [|done].
  unfold obj in Ho. eauto.
Qed.
End rules.

(** ** Buffers *)

(** [b] holds [bs] in [w]. *)
Record good (w : world) (b : cbb_buffer) (bs : bytes) : Prop := {
  g_error : error b = false;
  g_len : len b = Z.of_nat (length bs);
  g_cap : len b <= cap b < 2 ^ 64;
  g_load : load (w_mem w) (buf b) (length bs) = Some bs;
  g_acc : accessible (w_mem w) (buf b) (cap b);
  g_block : can_resize b = true -> block (buf b) (cap b) w
}.

(** Memory outside the buffer is as it was. *)
Definition frame (w : world) (b : cbb_buffer) (w' : world) (b' : cbb_buffer) : Prop :=
  (forall x, outside (buf b) (cap b) x -> w_mem w !! x <> None ->
     outside (buf b') (cap b') x /\ w_mem w' !! x = w_mem w !! x) /\
  can_resize b' = can_resize b /\
  (can_resize b = false -> cap b' = cap b /\ buf b' = buf b).

Lemma frame_refl w b b' :
  buf b' = buf b -> cap b' = cap b -> can_resize b' = can_resize b -> frame w b w b'.
Proof. unfold frame. intros -> -> ->. by repeat split. Qed.

Lemma frame_trans w1 b1 w2 b2 w3 b3 :
  frame w1 b1 w2 b2 -> frame w2 b2 w3 b3 -> frame w1 b1 w3 b3.
Proof.
  intros (F1 & R1 & C1) (F2 & R2 & C2). split; [|split].
  - intros x Ho Hx. destruct (F1 x Ho Hx) as [Ho2 E2].
    destruct (F2 x Ho2) as [Ho3 E3]; [by rewrite E2|]. split; [done|]. by rewrite E3.
  - congruence.
  - intros Hr. destruct (C1 Hr) as [Ec Eb]. rewrite <- Ec, <- Eb. apply C2. congruence.
Qed.

(** When a request for [n] more bytes may fail: a fixed buffer is full, the heap
    refuses, or the length wraps. *)
Definition may_fail (b : cbb_buffer) (n : Z) : Prop :=
  can_resize b = true \/ cap b < len b + n.

Lemma good_write w b bs data m' :
  good w b bs -> len b + Z.of_nat (length data) <= cap b ->
  store (w_mem w) (buf b + len b) data = Some m' ->
  good (set_mem m' w) (set_len (len b + Z.of_nat (length data)) b) (bs ++ data) /\
  frame w b (set_mem m' w) (set_len (len b + Z.of_nat (length data)) b).
Proof.
  intros [He Hl Hc Hld Ha Hb] Hfit Hst. split; [split|]; cbn; try done.
  - rewrite length_app. lia.
  - lia.
  - apply (load_store_append (w_mem w)); [done|]. by rewrite <- Hl.
  - by eapply store_access.
  - split; [|done]. intros x Ho Hx. split; [done|]. cbn.
    apply (store_outside _ _ _ _ _ Hst). unfold outside in *. lia.
Qed.

(** Room was made, and [data] is written there. *)
Lemma good_filled w b n bs data m' :
  good w (set_len n b) bs -> len b = n + Z.of_nat (length data) -> len b <= cap b ->
  store (w_mem w) (buf b + n) data = Some m' ->
  good (set_mem m' w) b (bs ++ data) /\ frame w b (set_mem m' w) b.
Proof.
  intros Hg Hl Hc Hst.
  destruct (good_write w (set_len n b) bs data m' Hg) as [Hgw Hfw]; [cbn; lia|done|].
  assert (set_len (len (set_len n b) + Z.of_nat (length data)) (set_len n b) = b) as Eb
    by (destruct b; cbn in *; unfold set_len; cbn; f_equal; lia).
  rewrite Eb in Hgw, Hfw. split; [done|].
  eapply frame_trans; [|exact Hfw]. by apply frame_refl.
Qed.

Section spec.
Context `{Allocator}.

Lemma spec_realloc {S} U F p old size bs (Q : Z -> S -> world -> Prop) s w :
  block p old w -> 0 <= old <= size -> Z.of_nat (length bs) <= old ->
  load (w_mem w) p (length bs) = Some bs ->
  (forall a w', c_realloc p size w = Ret (a, w') ->
     (a = 0 -> w' = w) ->
     (a <> 0 ->
        0 < a /\ a + size <= 2 ^ 64 /\ load (w_mem w') a (length bs) = Some bs /\
        accessible (w_mem w') a size /\ w_blocks w' !! a = Some size /\
        (forall x, outside p old x -> w_mem w !! x <> None ->
           outside a size x /\ w_mem w' !! x = w_mem w !! x) /\
        (forall q n, q <> p -> w_blocks w !! q = Some n -> q <> a /\ w_blocks w' !! q = Some n)) ->
     Q a s w') ->
  spec U F (m_realloc p size) Q s w.
Proof.
  intros Hb Ho Hn Hl HQ. destruct (realloc_spec p old size w bs Hb Ho Hn Hl)
    as (a & w' & E & H0 & H1).
  unfold spec, m_realloc. rewrite E. by apply HQ.
Qed.

(** [cbb_buffer_add]: room for [n] more bytes at the end of the buffer. *)
Lemma spec_buffer_add root ch b bs n s w :
  obj s root (Cbb ch (UBase b)) -> root <> 0 -> good w b bs -> 0 <= n < 2 ^ 64 ->
  spec False False (cbb_buffer_add root n)
    (fun o s' w' =>
       exists b', s' = upd s root (Cbb ch (UBase b')) /\ frame w b w' b' /\
         match o with
         | Some p =>
             p = buf b' + len b /\ len b' = len b + n /\ len b' <= cap b' /\
             good w' (set_len (len b) b') bs
         | None => error b' = true /\ may_fail b n
         end) s w.
Proof.
  intros Ho Hr Hg Hn. pose proof Hg as [He Hl Hc Hld Ha Hb].
  unfold cbb_buffer_add. apply spec_bindo.
  assert (forall (Q : option Z -> cbb_store -> world -> Prop), may_fail b n ->
    (forall b', frame w b w b' -> error b' = true ->
       Q None (upd s root (Cbb ch (UBase b'))) w) ->
    spec False False (set_buffer root (set_error b) ;; return_false) Q s w) as Hfail.
  { intros Q Hm HQ. apply spec_bind. eapply spec_set_buffer; [exact Ho|].
    apply spec_ret, HQ; [by apply frame_refl|done]. }
  unfold cbb_buffer_reserve. rewrite (proj2 (Z.eqb_neq root 0) Hr).
  apply spec_bind. eapply spec_get_buffer; [exact Ho|].
  destruct (Z.ltb_spec (u64 (len b + n)) (len b)) as [Hw|Hw].
  { apply Hfail.
    - unfold may_fail, u64, wrap in *. right.
      destruct (Z.leb_spec (2 ^ 64) (len b + n)); [lia|].
      rewrite Z.mod_small in Hw by lia. lia.
    - intros b' Hf Hb'. exists b'. split; [done|]. split; [done|]. split; [done|].
      right. unfold u64, wrap in Hw. destruct (Z.leb_spec (2 ^ 64) (len b + n)); [lia|].
      rewrite Z.mod_small in Hw by lia. lia. }
  assert (u64 (len b + n) = len b + n) as Eu.
  { unfold u64, wrap in *. destruct (Z.leb_spec (2 ^ 64) (len b + n)).
    - exfalso. assert ((len b + n) mod 2 ^ 64 = len b + n - 2 ^ 64) as E
        by (symmetry; apply (Z.mod_unique_pos _ _ 1); lia). lia.
    - apply Z.mod_small. lia. }
  assert (len b + n < 2 ^ 64) as Hlt by (rewrite <- Eu; apply (wrap_range 64); lia).
  rewrite Eu. destruct (Z.ltb_spec (cap b) (len b + n)) as [Hcap|Hcap].
  - destruct (can_resize b) eqn:Er; cbn [negb].
    2:{ apply Hfail; [by right|]. intros b' Hf Hb'. exists b'.
        split; [done|]. split; [done|]. split; [done|]. by right. }
    set (newcap := if _ || _ then _ else _).
    assert (len b + n <= newcap < 2 ^ 64) as Hnc.
    { unfold newcap. destruct (_ || _) eqn:E; [lia|].
      apply orb_false_iff in E as [_ E]. apply Z.ltb_ge in E.
      pose proof (wrap_range 64 (cap b * 2) ltac:(lia)). fold (u64 (cap b * 2)) in *. lia. }
    apply spec_bind. eapply (spec_realloc _ _ _ (cap b) _ bs); [by apply Hb|lia|lia|done|].
    intros a w' _ H0 H1. destruct (Z.eqb_spec a 0) as [E|E].
    + rewrite (H0 E). apply Hfail; [by left|]. intros b' Hf Hb'. exists b'.
      split; [done|]. split; [done|]. split; [done|]. by left.
    + destruct (H1 E) as (A1 & A2 & A3 & A4 & A5 & A6 & _).
      apply spec_bind. eapply spec_set_buffer; [exact Ho|]. apply spec_ret.
      apply spec_bind. eapply spec_get_buffer; [apply obj_upd_eq|]. apply spec_bind.
      eapply spec_set_buffer; [apply obj_upd_eq|]. apply spec_ret. rewrite upd_upd.
      eexists. split; [done|]. cbn [len buf cap can_resize set_len error]. rewrite Eu.
      split; [|split; [done|split; [done|split; [lia|]]]].
      * split; [|split; [done|congruence]]. cbn. intros x Hx1 Hx2. by apply A6.
      * split; cbn; try done; [lia|]. intros _. right. done.
  - apply spec_ret. apply spec_bind. eapply spec_get_buffer; [exact Ho|]. apply spec_bind.
    eapply spec_set_buffer; [exact Ho|]. apply spec_ret. eexists. split; [done|].
    cbn [len buf cap can_resize set_len error]. rewrite Eu.
    split; [by apply frame_refl|]. split; [done|]. split; [done|]. split; [done|].
    split; cbn; done.
Qed.

(** ** Handles *)

(** Addresses in use are positive and below the next one. *)
Definition wf (s : cbb_store) : Prop :=
  forall x o, objs s !! x = Some o -> 0 < x < next_obj s.

(** [a] is a CBB without an open child, on the buffer of [root] (whose own child
    pointer is [ch]). *)
Definition handle (s : cbb_store) (a root ch : Z) : Prop :=
  (a = root /\ ch = 0) \/
  (a <> root /\ exists off pend asn1, obj s a (Cbb 0 (UChild root off pend asn1))).

(** A run that leaves the store as it was but for the buffer of [root]. *)
Definition only_buffer (s : cbb_store) (root ch : Z) (b' : cbb_buffer) (s' : cbb_store) : Prop :=
  objs s' = objs (upd s root (Cbb ch (UBase b'))) /\ next_obj s <= next_obj s'.

Definition emits (f : Z -> cbb_m (option unit)) (data : bytes) : Prop :=
  forall a root ch b bs s w,
    wf s -> obj s root (Cbb ch (UBase b)) -> good w b bs -> handle s a root ch ->
    spec False False (f a)
      (fun o s' w' => exists b', only_buffer s root ch b' s' /\ frame w b w' b' /\
         match o with
         | Some _ => good w' b' (bs ++ data)
         | None => error b' = true /\ may_fail b (Z.of_nat (length data))
         end) s w.

Lemma obj_root_pos s root c : wf s -> obj s root c -> root <> 0.
Proof. intros Hwf Ho. apply Hwf in Ho. lia. Qed.

Lemma only_obj s root ch b' s' : only_buffer s root ch b' s' -> obj s' root (Cbb ch (UBase b')).
Proof. intros [Ho _]. unfold obj. rewrite Ho. apply lookup_insert_eq. Qed.

Lemma only_other s root ch b' s' x :
  only_buffer s root ch b' s' -> x <> root -> objs s' !! x = objs s !! x.
Proof. intros [Ho _] Hx. rewrite Ho. unfold upd. cbn. by rewrite lookup_insert_ne. Qed.

Lemma only_wf s root ch b b' s' :
  obj s root (Cbb ch (UBase b)) -> only_buffer s root ch b' s' -> wf s -> wf s'.
Proof.
  intros Hr [Ho Hn] Hwf x o. rewrite Ho. unfold upd. cbn.
  destruct (decide (x = root)) as [->|]; [|rewrite lookup_insert_ne by done];
    intros Hx; [apply Hwf in Hr|apply Hwf in Hx]; lia.
Qed.

Lemma only_handle s root ch b' s' a :
  only_buffer s root ch b' s' -> handle s a root ch -> handle s' a root ch.
Proof.
  intros Hob [[-> ->]|(Hn & off & p & asn & Ho)]; [by left|]. right. split; [done|].
  exists off, p, asn. unfold obj. by rewrite (only_other _ _ _ _ _ _ Hob Hn).
Qed.

Lemma only_refl s root ch b : obj s root (Cbb ch (UBase b)) -> only_buffer s root ch b s.
Proof. intros Ho. unfold only_buffer. rewrite (upd_id _ _ _ Ho). split; [done|lia]. Qed.

Lemma only_trans s root ch b1 s1 b2 s2 :
  only_buffer s root ch b1 s1 -> only_buffer s1 root ch b2 s2 -> only_buffer s root ch b2 s2.
Proof.
  intros [H1 N1] [H2 N2]. split; [|lia]. rewrite H2. unfold upd. cbn. rewrite H1.
  unfold upd. cbn. apply insert_insert_eq.
Qed.

Lemma may_fail_mono b b1 w w1 n k data :
  frame w b w1 b1 -> len b1 = len b + data -> data + n <= k ->
  may_fail b1 n -> may_fail b k.
Proof.
  unfold may_fail. intros (_ & Hr & Hc) Hl Hk Hm. rewrite Hr in Hm.
  destruct (can_resize b) eqn:E; [by left|]. destruct Hm as [|Hm]; [done|].
  destruct (Hc eq_refl) as [Hcap _]. right. lia.
Qed.

(** ** Sequences *)

Lemma emits_nil : emits (fun _ => return_true) [].
Proof.
  intros a root ch b bs s w Hwf Ho Hg Hh. apply spec_ret. exists b.
  split; [by apply only_refl|]. split; [by apply frame_refl|]. by rewrite app_nil_r.
Qed.

Lemma emits_seq f g d1 d2 :
  emits f d1 -> emits g d2 -> emits (fun a => must f a ;; g a) (d1 ++ d2).
Proof.
  intros Hf Hg a root ch b bs s w Hwf Ho Hgd Hh. apply spec_bindo.
  eapply spec_mono; [by eapply Hf|]. intros [[]|] s1 w1 (b1 & Hob & Hfr & Hr).
  - assert (len b1 = len b + Z.of_nat (length d1)) as Hl.
    { rewrite (g_len _ _ _ Hr), (g_len _ _ _ Hgd), length_app. lia. }
    eapply spec_mono.
    { eapply Hg; [by eapply only_wf|by eapply only_obj|exact Hr|by eapply only_handle]. }
    intros o s2 w2 (b2 & Hob2 & Hfr2 & Hr2). exists b2.
    split; [by eapply only_trans|]. split; [by eapply frame_trans|].
    destruct o; [by rewrite app_assoc|]. destruct Hr2 as [He Hm]. split; [done|].
    eapply (may_fail_mono _ _ _ _ _ _ _ Hfr Hl); [|exact Hm]. rewrite length_app. lia.
  - exists b1. split; [done|]. split; [done|]. destruct Hr as [He Hm]. split; [done|].
    eapply (may_fail_mono b b w w _ _ 0); [by apply frame_refl|lia| |exact Hm].
    rewrite length_app. lia.
Qed.

Lemma emits_ext f g data : (forall a, f a = g a) -> emits g data -> emits f data.
Proof. intros E Hg a root ch b bs s w. rewrite E. apply Hg. Qed.

Lemma emits_if (c : bool) f g d1 d2 :
  emits f d1 -> emits g d2 -> emits (fun a => if c then f a else g a) (if c then d1 else d2).
Proof. by destruct c. Qed.

(** ** Flushing without a child, and space *)

Lemma spec_handle_base a root ch b (Q : Z -> cbb_store -> world -> Prop) s w :
  obj s root (Cbb ch (UBase b)) -> handle s a root ch -> Q root s w ->
  spec False False (cbb_get_base a) Q s w.
Proof.
  intros Ho Hh HQ. unfold cbb_get_base. apply spec_bind.
  destruct Hh as [[-> ->]|(Hn & off & p & asn & Hc)];
    (eapply spec_get_cbb; [first [exact Hc|exact Ho]|]); exact HQ.
Qed.

Lemma spec_flush_handle a root ch b (Q : option unit -> cbb_store -> world -> Prop) s w :
  wf s -> obj s root (Cbb ch (UBase b)) -> error b = false -> handle s a root ch ->
  Q (Some tt) s w -> spec False False (CBB_flush a) Q s w.
Proof.
  intros Hwf Ho He Hh HQ. unfold CBB_flush. apply spec_bind, spec_get_stream.
  cbn [flush_rec]. apply spec_bind. eapply spec_handle_base; [done|done|].
  rewrite (proj2 (Z.eqb_neq root 0)) by (by eapply obj_root_pos).
  apply spec_bind. eapply spec_get_buffer; [done|]. rewrite He. apply spec_bind.
  destruct Hh as [[-> ->]|(Hn & off & p & asn & Hc)];
    (eapply spec_get_cbb; [first [exact Hc|exact Ho]|]); exact HQ.
Qed.

(** Getting [n] bytes of space. *)
Lemma spec_add_space a root ch b bs n s w :
  wf s -> obj s root (Cbb ch (UBase b)) -> good w b bs -> handle s a root ch ->
  0 <= n < 2 ^ 64 ->
  spec False False (CBB_add_space a n)
    (fun o s' w' =>
       exists b', s' = upd s root (Cbb ch (UBase b')) /\ frame w b w' b' /\
         match o with
         | Some p =>
             p = buf b' + len b /\ len b' = len b + n /\ len b' <= cap b' /\
             good w' (set_len (len b) b') bs
         | None => error b' = true /\ may_fail b n
         end) s w.
Proof.
  intros Hwf Ho Hg Hh Hn. unfold CBB_add_space. apply spec_bindo.
  eapply spec_flush_handle; [done|done|apply Hg|done|].
  apply spec_bind. eapply spec_handle_base; [done|done|].
  eapply (spec_buffer_add root ch b bs); [done|by eapply obj_root_pos|done|lia].
Qed.

(** ... and filling them with [data]. *)
Lemma emits_space (fill : Z -> cbb_m (option unit)) data :
  Z.of_nat (length data) < 2 ^ 64 ->
  (forall p s w, accessible (w_mem w) p (Z.of_nat (length data)) ->
     spec False False (fill p)
       (fun o s' w' => o = Some tt /\ s' = s /\
          exists m', store (w_mem w) p data = Some m' /\ w' = set_mem m' w) s w) ->
  emits (fun a => p <-? CBB_add_space a (Z.of_nat (length data)) ;; fill p) data.
Proof.
  intros Hd Hfill a root ch b bs s w Hwf Ho Hg Hh. apply spec_bindo.
  eapply spec_mono; [eapply spec_add_space; (done || lia)|].
  intros [p|] s1 w1 (b' & -> & Hfr & Hr).
  - destruct Hr as (-> & Hl & Hc & Hg'). pose proof (g_acc _ _ _ Hg') as Ha'.
    pose proof (g_len _ _ _ Hg) as Hlb. cbn in Ha'. eapply spec_mono.
    { apply Hfill. eapply accessible_sub; [exact Ha'| |]; lia. }
    intros o s2 w2 (-> & -> & m' & Hst & ->). exists b'.
    destruct (good_filled w1 b' (len b) bs data m' Hg') as [Hgw Hfw]; [done|done|done|].
    split; [split; [done|cbn; lia]|]. split; [|done].
    by eapply frame_trans.
  - exists b'. split; [split; [done|cbn; lia]|]. done.
Qed.

(** ** Bytes and integers *)

Lemma spec_store_bytes {S} U F a bs (Q : unit -> S -> world -> Prop) s w :
  accessible (w_mem w) a (Z.of_nat (length bs)) ->
  (forall m', store (w_mem w) a bs = Some m' -> Q tt s (set_mem m' w)) ->
  spec U F (store_bytes a bs) Q s w.
Proof.
  intros Ha HQ. destruct (store_total _ _ _ Ha) as [m' Hst].
  unfold spec. rewrite (store_bytes_run _ _ _ _ _ Hst). by apply HQ.
Qed.

Lemma be_bytes_snoc n v : be_bytes (S n) v = be_bytes n (v / 256) ++ [v mod 256].
Proof.
  induction n as [|n IH]; [cbn; by rewrite Z.div_1_r|].
  cbn [be_bytes] in *. rewrite IH, pow256_succ. cbn [app]. f_equal.
  rewrite Z.div_div by (pose proof (pow256_pos n); lia). done.
Qed.

(** Stores to different places commute. *)
Lemma store_comm m a xs b ys m1 m2 m1' :
  a + Z.of_nat (length xs) <= b ->
  store m b ys = Some m1 -> store m1 a xs = Some m2 -> store m a xs = Some m1' ->
  store m1' b ys = Some m2.
Proof.
  intros Hd H1 H2 H3. destruct (store_total m1' b ys) as [m3 H4].
  { eapply store_access; [exact H3|]. by eapply store_accessible. }
  rewrite H4. f_equal. apply map_eq. intros i.
  rewrite (store_lookup _ _ _ _ i H4), (store_lookup _ _ _ _ i H3),
    (store_lookup _ _ _ _ i H2), (store_lookup _ _ _ _ i H1).
  repeat case_decide; try done; lia.
Qed.

Lemma store_be_spec {S} n p v (s : S) w :
  0 <= v -> accessible (w_mem w) p (Z.of_nat n) ->
  spec False False (store_be n p v)
    (fun r s' w' => r = v / 256 ^ Z.of_nat n /\ s' = s /\
       exists m', store (w_mem w) p (be_bytes n v) = Some m' /\ w' = set_mem m' w) s w.
Proof.
  revert v w; induction n as [|n IH]; intros v w Hv Ha; cbn [store_be].
  - apply spec_ret. rewrite Z.pow_0_r, Z.div_1_r. split; [done|]. split; [done|].
    exists (w_mem w). split; [done|]. by destruct w.
  - apply spec_bind. unfold store_u. apply spec_store_bytes.
    { eapply accessible_sub; [exact Ha| |]; cbn [le_bytes length]; lia. }
    intros m1 H1. assert (le_bytes 1 (u8 v) = [v mod 256]) as El.
    { cbn. unfold u8, wrap. change (2 ^ 8) with 256. by rewrite Z.mod_mod by lia. }
    rewrite El in H1. eapply spec_mono.
    { apply IH; [by apply Z.shiftr_nonneg|]. cbn.
      eapply store_access; [exact H1|]. eapply accessible_sub; [exact Ha| |]; lia. }
    intros r s' w' (-> & -> & m' & H2 & ->). rewrite shiftr_div in * by lia.
    change (2 ^ 8) with 256 in *. cbn in H2.
    split; [|split; [done|]].
    + rewrite pow256_succ, Z.div_div by (pose proof (pow256_pos n); lia). done.
    + exists m'. split; [|done]. rewrite be_bytes_snoc, store_app.
      destruct (store_total (w_mem w) p (be_bytes n (v / 256))) as [m3 H3].
      { rewrite length_be_bytes. eapply accessible_sub; [exact Ha| |]; lia. }
      rewrite H3, length_be_bytes. eapply store_comm; [|exact H1|exact H2|exact H3].
      rewrite length_be_bytes. lia.
Qed.

Lemma emits_bytes data :
  Z.of_nat (length data) < 2 ^ 64 -> emits (fun a => CBB_add_bytes a data) data.
Proof.
  intros Hd. apply emits_space; [done|]. intros p s w Ha. apply spec_bind.
  apply spec_store_bytes; [done|]. intros m' Hst. apply spec_ret. eauto.
Qed.

(** [cbb_add_u] of a value that fits. *)
Lemma emits_add_u v n :
  (n <= 8)%nat -> 0 <= v < 256 ^ Z.of_nat n -> emits (fun a => cbb_add_u a v n) (be_bytes n v).
Proof.
  intros Hn Hv a root ch b bs s w Hwf Ho Hg Hh. unfold cbb_add_u.
  assert (emits (fun a => p <-? CBB_add_space a (Z.of_nat (length (be_bytes n v))) ;;
    v <- store_be n p v ;;
    (if negb (v =? 0) then cbb_on_error a ;; return_false else return_true)) (be_bytes n v)) as E.
  { clear -Hn Hv. intros a root ch b bs s w Hwf Ho Hg Hh.
    refine (emits_space (fun p => v <- store_be n p v ;;
      (if negb (v =? 0) then cbb_on_error a ;; return_false else return_true))
      (be_bytes n v) _ _ a root ch b bs s w Hwf Ho Hg Hh).
    - rewrite length_be_bytes. lia.
    - intros p s0 w0 Ha. rewrite length_be_bytes in Ha. apply spec_bind.
      eapply spec_mono; [apply store_be_spec; [lia|done]|].
      intros r s' w' (-> & -> & m' & Hst & ->).
      rewrite Z.div_small by lia. apply spec_ret. eauto. }
  rewrite length_be_bytes in E. by apply E.
Qed.

Lemma emits_u8 v : 0 <= v < 256 -> emits (fun a => CBB_add_u8 a v) [v].
Proof.
  intros Hv. eapply emits_ext; [intros a; unfold CBB_add_u8, u8; by rewrite wrap_small by lia|].
  pose proof (emits_add_u v 1 ltac:(lia) ltac:(lia)) as E.
  cbn [be_bytes] in E. change (256 ^ Z.of_nat 0) with 1 in E.
  rewrite Z.div_1_r, Z.mod_small in E by lia. exact E.
Qed.

(** ** Base-128 integers and identifier octets *)

Lemma lor_128 x : 0 <= x < 128 -> Z.lor x 0x80 = x + 128.
Proof. apply lor_80. Qed.

Lemma emits_base128_loop v n :
  0 <= v -> emits (fun a => base128_bytes_loop a v n) (b128_enc n v).
Proof.
  intros Hv. induction n as [|n IH]; [apply emits_nil|].
  cbn [base128_bytes_loop b128_enc].
  assert (u8 (Z.land (Z.shiftr v (7 * Z.of_nat n)) 0x7f) = v / 128 ^ Z.of_nat n mod 128) as E.
  { change 0x7f with 127. rewrite land_7F, shiftr_div by lia.
    rewrite Z.pow_mul_r by lia. change (2 ^ 7) with 128. unfold u8. apply wrap_small.
    pose proof (Z.mod_pos_bound (v / 128 ^ Z.of_nat n) 128). lia. }
  rewrite E. pose proof (Z.mod_pos_bound (v / 128 ^ Z.of_nat n) 128 ltac:(lia)) as Hm.
  change (v / 128 ^ Z.of_nat n mod 128 + (if (n =? 0)%nat then 0 else 128) :: b128_enc n v)
    with ([v / 128 ^ Z.of_nat n mod 128 + (if (n =? 0)%nat then 0 else 128)] ++ b128_enc n v).
  apply emits_seq; [|exact IH].
  destruct (n =? 0)%nat; [rewrite Z.add_0_r|rewrite lor_128 by lia]; apply emits_u8; lia.
Qed.

Lemma emits_base128 v : 0 <= v -> emits (fun a => add_base128_integer a v) (base128 v).
Proof. intros Hv. by apply emits_base128_loop. Qed.

(** What [CBB_add_asn1] writes before the length. *)
Definition add_tag (tag a : Z) : cbb_m (option unit) :=
  if 0x1f <=? tag_number tag then
    must CBB_add_u8 a (Z.lor (tag_bits tag) 0x1f) ;; add_base128_integer a (tag_number tag)
  else CBB_add_u8 a (Z.lor (tag_bits tag) (tag_number tag)).

Lemma emits_tag tag : 0 <= tag < 2 ^ 32 -> emits (add_tag tag) (tag_bytes tag).
Proof.
  intros Ht. unfold add_tag, tag_bytes.
  rewrite tag_bits_value, tag_number_mod by done.
  pose proof (tag_class_range tag Ht) as Hc. set (c := tag / 2 ^ 29) in *.
  pose proof (Z.mod_pos_bound tag (2 ^ 29) ltac:(lia)) as Hn.
  set (n := tag mod 2 ^ 29) in *. destruct (Z.leb_spec 0x1f n) as [Hl|Hl].
  - destruct (tag_octet c 31 Hc ltac:(lia)) as (E & _). rewrite E.
    change (c * 32 + 31 :: base128 n) with ([c * 32 + 31] ++ base128 n).
    apply (emits_seq (fun a => CBB_add_u8 a (c * 32 + 31))); [apply emits_u8; lia|].
    apply emits_base128. lia.
  - destruct (tag_octet c n Hc ltac:(lia)) as (E & _). rewrite E. apply emits_u8. lia.
Qed.

(** ** Memory under an open prefix *)

Lemma replace_prefix m p pre x data m' :
  load m p (length pre) = Some pre ->
  load m (p + Z.of_nat (length pre + length x)) (length data) = Some data ->
  store m (p + Z.of_nat (length pre)) x = Some m' ->
  load m' p (length (pre ++ x ++ data)) = Some (pre ++ x ++ data).
Proof.
  intros H1 H2 H3. rewrite !length_app, load_app.
  rewrite (load_store_disj _ _ _ _ p (length pre) H3) by lia. rewrite H1, load_app.
  rewrite (load_store_eq _ _ _ _ H3).
  rewrite (load_store_disj _ _ _ _ _ (length data) H3) by lia.
  replace (p + Z.of_nat (length pre) + Z.of_nat (length x))
    with (p + Z.of_nat (length pre + length x)) by lia.
  by rewrite H2.
Qed.

Lemma load_split m p xs ys :
  load m p (length (xs ++ ys)) = Some (xs ++ ys) ->
  load m p (length xs) = Some xs /\ load m (p + Z.of_nat (length xs)) (length ys) = Some ys.
Proof.
  rewrite length_app, load_app. destruct (load m p (length xs)) as [x|] eqn:E1; [|done].
  destruct (load m _ (length ys)) as [y|] eqn:E2; [|done]. intros [= E].
  apply load_length in E1. apply app_inj_1 in E as [-> ->]; done.
Qed.

Lemma frame_store w b a bs m' :
  store (w_mem w) a bs = Some m' -> buf b <= a ->
  a + Z.of_nat (length bs) <= buf b + cap b -> frame w b (set_mem m' w) b.
Proof.
  intros Hst H1 H2. split; [|done]. intros x Ho Hx. split; [done|].
  apply (store_outside _ _ _ _ _ Hst). unfold outside in *. lia.
Qed.

Lemma spec_memmove {S} U F dst src n bs (Q : unit -> S -> world -> Prop) s w :
  load (w_mem w) src (Z.to_nat n) = Some bs ->
  accessible (w_mem w) dst (Z.of_nat (length bs)) ->
  (forall m', store (w_mem w) dst bs = Some m' -> Q tt s (set_mem m' w)) ->
  spec U F (c_memmove dst src n) Q s w.
Proof.
  intros Hl Ha HQ. destruct (store_total _ _ _ Ha) as [m' Hst].
  unfold spec. rewrite (c_memmove_run _ _ _ _ _ _ _ Hl Hst). by apply HQ.
Qed.

Lemma spec_memset {S} U F p v n (Q : unit -> S -> world -> Prop) s w :
  0 <= n -> accessible (w_mem w) p n ->
  (forall m', store (w_mem w) p (replicate (Z.to_nat n) v) = Some m' -> Q tt s (set_mem m' w)) ->
  spec U F (c_memset p v n) Q s w.
Proof.
  intros Hn Ha HQ. unfold c_memset.
  apply spec_store_bytes; [|done]. by rewrite length_replicate, Z2Nat.id by lia.
Qed.

(** The length octets as [CBB_flush] computes them. *)
Lemma asn1_length_form_spec n :
  0 <= n <= 0xfffffffe ->
  exists k first left, asn1_length_form n = Some (1 + Z.of_nat k, first, left) /\
    (k <= 4)%nat /\ 0 <= first < 256 /\ 0 <= left < 256 ^ Z.of_nat k /\
    len_octets n = first :: be_bytes k left.
Proof.
  intros Hn. unfold asn1_length_form, len_octets, len_count.
  destruct (Z.ltb_spec 0xfffffffe n); [lia|].
  destruct (Z.ltb_spec 0xffffff n).
  { exists 4%nat, 0x84, n. repeat split; try lia.
    rewrite !(proj2 (Z.ltb_ge _ _)) by lia. done. }
  destruct (Z.ltb_spec 0xffff n).
  { exists 3%nat, 0x83, n. repeat split; try lia.
    rewrite (proj2 (Z.ltb_lt n 16777216)) by lia.
    rewrite !(proj2 (Z.ltb_ge _ _)) by lia. done. }
  destruct (Z.ltb_spec 0xff n).
  { exists 2%nat, 0x82, n. repeat split; try lia.
    rewrite (proj2 (Z.ltb_lt n 65536)) by lia.
    rewrite !(proj2 (Z.ltb_ge _ _)) by lia. done. }
  destruct (Z.ltb_spec 0x7f n).
  { exists 1%nat, 0x81, n. repeat split; try lia.
    rewrite (proj2 (Z.ltb_lt n 256)) by lia.
    rewrite !(proj2 (Z.ltb_ge _ _)) by lia. done. }
  exists 0%nat, n, 0. repeat split; try lia. rewrite (proj2 (Z.ltb_lt n 128)) by lia. done.
Qed.

End spec.
