(* ===== verification/Buf.v ===== *)
(** * BoringSSL: strings in memory and growing buffers (crypto/mem.c, crypto/buf/buf.c)

    The string and duplication functions of mem.c that work on raw memory, [BUF_MEM],
    and the two functions of bytestring/cbs.c that copy to the heap.  Pointers are
    addresses in the memory of [CMem]; [BUF_MEM] functions are passed the structure
    by reference. *)
From Stdlib Require Import ZArith Lia.
From stdpp Require Import prelude gmap list numbers.
From S2P Require Import Prelude CMem.
Local Open Scope Z_scope.
Local Open Scope c_scope.

Section buf.
Context `{Allocator}.

(** ** mem.c *)

(** [strlen] of the C library; every byte read is mapped. *)
Fixpoint strlen_loop {S} (fuel : nat) (s i : Z) : M S Z :=
  match fuel with
  | O => ub
  | Datatypes.S k =>
      c <- load_u 1 (s + i) ;;
      if c =? 0 then ret i else strlen_loop k s (i + 1)
  end.
Definition c_strlen {S} (s : Z) : M S Z :=
  m <- get_mem ;; strlen_loop (Datatypes.S (size m)) s 0.

Fixpoint strnlen_loop {S} (n : nat) (s i len : Z) : M S Z :=
  match n with
  | O => ret len
  | Datatypes.S k =>
      c <- load_u 1 (s + i) ;;
      if c =? 0 then ret i else strnlen_loop k s (i + 1) len
  end.
Definition OPENSSL_strnlen {S} (s len : Z) : M S Z := strnlen_loop (Z.to_nat len) s 0 len.

(** [OPENSSL_malloc] is [malloc]. *)
Definition OPENSSL_memdup {S} (data size : Z) : M S Z :=
  if size =? 0 then ret 0
  else
    p <- m_realloc 0 size ;;
    if p =? 0 then ret 0 else c_memcpy p data size ;; ret p.

Definition OPENSSL_strndup {S} (str size : Z) : M S Z :=
  size <- OPENSSL_strnlen str size ;;
  let alloc_size := u64 (size + 1) in
  if alloc_size <? size then ret 0
  else
    p <- m_realloc 0 alloc_size ;;
    if p =? 0 then ret 0
    else c_memcpy p str size ;; store_u 1 (p + size) 0 ;; ret p.

Definition OPENSSL_strdup {S} (s : Z) : M S Z :=
  if s =? 0 then ret 0
  else
    l <- c_strlen s ;;
    let len := u64 (l + 1) in
    p <- m_realloc 0 len ;;
    if p =? 0 then ret 0 else c_memcpy p s len ;; ret p.

(** [for (; dst_size > 1 && *src; dst_size--)]: the places of [dst] and [src], what is
    left of [dst_size], and the count. *)
Fixpoint strlcpy_loop {S} (n : nat) (dst src dst_size l : Z) : M S (Z * Z * Z * Z) :=
  match n with
  | O => ret (dst, src, dst_size, l)
  | Datatypes.S k =>
      if 1 <? dst_size then
        c <- load_u 1 src ;;
        if negb (c =? 0) then
          store_u 1 dst c ;;
          strlcpy_loop k (dst + 1) (src + 1) (dst_size - 1) (l + 1)
        else ret (dst, src, dst_size, l)
      else ret (dst, src, dst_size, l)
  end.
Definition OPENSSL_strlcpy {S} (dst src dst_size : Z) : M S Z :=
  r <- strlcpy_loop (Z.to_nat dst_size) dst src dst_size 0 ;;
  let '(dst, src, dst_size, l) := r in
  (if negb (dst_size =? 0) then store_u 1 dst 0 else ret tt) ;;
  n <- c_strlen src ;;
  ret (u64 (l + n)).

(** [for (; dst_size > 0 && *dst; dst_size--, dst++)] *)
Fixpoint strlcat_loop {S} (n : nat) (dst dst_size l : Z) : M S (Z * Z * Z) :=
  match n with
  | O => ret (dst, dst_size, l)
  | Datatypes.S k =>
      if 0 <? dst_size then
        c <- load_u 1 dst ;;
        if negb (c =? 0) then strlcat_loop k (dst + 1) (dst_size - 1) (l + 1)
        else ret (dst, dst_size, l)
      else ret (dst, dst_size, l)
  end.
Definition OPENSSL_strlcat {S} (dst src dst_size : Z) : M S Z :=
  r <- strlcat_loop (Z.to_nat dst_size) dst dst_size 0 ;;
  let '(dst, dst_size, l) := r in
  n <- OPENSSL_strlcpy dst src dst_size ;;
  ret (u64 (l + n)).

(** ** BUF_MEM *)

(** [length], [data] and [max]. *)
Record BUF_MEM := BufMem { bm_length : Z; bm_data : Z; bm_max : Z }.

(** [BUF_MEM_new]: the block of the structure, and the structure that
    [OPENSSL_zalloc] has set to zeros. *)
Definition sizeof_BUF_MEM : Z := 24.
Definition BUF_MEM_new {S} : M S (option (Z * BUF_MEM)) :=
  p <- m_realloc 0 sizeof_BUF_MEM ;;
  if p =? 0 then ret None
  else c_memset p 0 sizeof_BUF_MEM ;; ret (Some (p, BufMem 0 0 0)).
Definition BUF_MEM_free (self : Z) : M BUF_MEM unit :=
  if self =? 0 then ret tt
  else
    b <- get_stream ;;
    m_free (bm_data b) ;; m_free self.

Definition BUF_MEM_reserve (cap : Z) : M BUF_MEM (option unit) :=
  b <- get_stream ;;
  if cap <=? bm_max b then return_true
  else
    let n := u64 (cap + 3) in
    if n <? cap then return_false
    else
      let n := n / 3 in
      let alloc_size := u64 (n * 4) in
      if negb (alloc_size / 4 =? n) then return_false
      else
        new_buf <- m_realloc (bm_data b) alloc_size ;;
        if new_buf =? 0 then return_false
        else put_stream (BufMem (bm_length b) new_buf alloc_size) ;; return_true.

Definition BUF_MEM_grow (len : Z) : M BUF_MEM Z :=
  o <- BUF_MEM_reserve len ;;
  match o with
  | None => ret 0
  | Some _ =>
      b <- get_stream ;;
      (if bm_length b <? len then c_memset (bm_data b + bm_length b) 0 (len - bm_length b) else ret tt) ;;
      put_stream (BufMem len (bm_data b) (bm_max b)) ;;
      ret len
  end.
Definition BUF_MEM_grow_clean (len : Z) : M BUF_MEM Z := BUF_MEM_grow len.

Definition BUF_MEM_append (in_ len : Z) : M BUF_MEM (option unit) :=
  if len =? 0 then return_true
  else
    b <- get_stream ;;
    let new_len := u64 (bm_length b + len) in
    if new_len <? len then return_false
    else
      must BUF_MEM_reserve new_len ;;
      b <- get_stream ;;
      c_memcpy (bm_data b + bm_length b) in_ len ;;
      put_stream (BufMem new_len (bm_data b) (bm_max b)) ;;
      return_true.

(** The other names of the functions of mem.c. *)
Definition BUF_strdup {S} (str : Z) : M S Z := OPENSSL_strdup str.
Definition BUF_strnlen {S} (str max_len : Z) : M S Z := OPENSSL_strnlen str max_len.
Definition BUF_strndup {S} (str size : Z) : M S Z := OPENSSL_strndup str size.
Definition BUF_strlcpy {S} (dst src dst_size : Z) : M S Z := OPENSSL_strlcpy dst src dst_size.
Definition BUF_strlcat {S} (dst src dst_size : Z) : M S Z := OPENSSL_strlcat dst src dst_size.
Definition BUF_memdup {S} (data size : Z) : M S Z := OPENSSL_memdup data size.

(** ** Copies of a byte string (bytestring/cbs.c)

    [data] and [len] are the fields of the CBS; the result is what is left in
    [*out_ptr] and [*out_len]. *)
Definition CBS_stow {S} (data len out_ptr : Z) : M S (bool * Z * Z) :=
  m_free out_ptr ;;
  if len =? 0 then ret (true, 0, 0)
  else
    p <- OPENSSL_memdup data len ;;
    if p =? 0 then ret (false, 0, 0) else ret (true, p, len).
Definition CBS_strdup {S} (data len out_ptr : Z) : M S (bool * Z) :=
  (if negb (out_ptr =? 0) then m_free out_ptr else ret tt) ;;
  p <- OPENSSL_strndup data len ;;
  ret (negb (p =? 0), p).
End buf.
