(* ===== verification/BufSpec.v ===== *)
(** * A BUF_MEM is a growing byte string, and strings are copied within bounds *)
From Stdlib Require Import ZArith Lia.
From stdpp Require Import prelude gmap list numbers.
From S2P Require Import Prelude CMem Cells PbConcrete Cbs Cbb CbbSpec Buf.
Local Open Scope Z_scope.
Local Open Scope c_scope.

(** ** BUF_MEM *)

(** The buffer as that of a CBB that may be resized. *)
Definition as_buffer (b : BUF_MEM) : cbb_buffer :=
  Buffer (bm_data b) (bm_length b) (bm_max b) true false.
(** [b] holds [bs]; only the buffer of [b] has changed. *)
Definition buf_holds (w : world) (b : BUF_MEM) (bs : bytes) : Prop := good w (as_buffer b) bs.
Definition buf_frame (w : world) (b : BUF_MEM) (w' : world) (b' : BUF_MEM) : Prop :=
  forall x, outside (bm_data b) (bm_max b) x -> w_mem w !! x <> None ->
    outside (bm_data b') (bm_max b') x /\ w_mem w' !! x = w_mem w !! x.

Lemma as_buffer_frame w b w' b' : frame w (as_buffer b) w' (as_buffer b') -> buf_frame w b w' b'.
Proof. by intros [F _]. Qed.

Section buf.
Context `{Allocator}.

(** The size that is asked for. *)
Lemma reserve_size cap :
  0 <= cap < 2 ^ 64 ->
  let n := u64 (cap + 3) in
  if n <? cap then 2 ^ 64 - 3 <= cap
  else
    let n := n / 3 in
    if negb (u64 (n * 4) / 4 =? n) then 2 ^ 64 <= n * 4 else cap <= u64 (n * 4) < 2 ^ 64.
Proof.
  intros Hc n. unfold n. destruct (Z.ltb_spec (u64 (cap + 3)) cap); [wrap_lia|].
  destruct (Z.eqb_spec (u64 (u64 (cap + 3) / 3 * 4) / 4) (u64 (cap + 3) / 3)); cbn [negb]; wrap_lia.
Qed.

Lemma spec_reserve cap bs b w :
  buf_holds w b bs -> 0 <= cap < 2 ^ 64 ->
  spec False False (BUF_MEM_reserve cap)
    (fun o b' w' =>
       match o with
       | Some _ => buf_holds w' b' bs /\ cap <= bm_max b' /\ bm_length b' = bm_length b /\ buf_frame w b w' b'
       | None => b' = b /\ w' = w /\ bm_max b < cap
       end) b w.
Proof.
  intros Hh Hc. pose proof Hh as [_ Hl Hcap Hld Ha Hb]. cbn in *.
  unfold BUF_MEM_reserve. apply spec_bind, spec_get_stream.
  destruct (Z.leb_spec cap (bm_max b)) as [Hle|Hgt].
  { apply spec_ret. split; [done|]. split; [done|]. split; [done|]. by intros x Ho. }
  pose proof (reserve_size cap Hc) as Hs. cbv zeta in Hs |- *.
  destruct (u64 (cap + 3) <? cap); [by apply spec_ret|].
  destruct (negb _); [by apply spec_ret|].
  set (sz := u64 (u64 (cap + 3) / 3 * 4)) in *.
  apply spec_bind. eapply (spec_realloc _ _ _ (bm_max b) _ bs); [by apply Hb|lia|lia|done|].
  intros a w' E H0 H1. destruct (Z.eqb_spec a 0) as [->|Hne].
  { apply spec_ret. split; [done|]. split; [by apply H0|done]. }
  destruct (H1 Hne) as (Hap & Hae & Hlb & Hacc & Hblk & Hf & _).
  apply spec_bind, spec_put_stream, spec_ret. cbn. split; [|split; [lia|split; [done|exact Hf]]].
  split; cbn; try done; [lia|]. intros _. right. done.
Qed.

(** A write behind the bytes there are. *)
Lemma holds_write w b bs data m' :
  buf_holds w b bs -> bm_length b + Z.of_nat (length data) <= bm_max b ->
  store (w_mem w) (bm_data b + bm_length b) data = Some m' ->
  let b' := BufMem (bm_length b + Z.of_nat (length data)) (bm_data b) (bm_max b) in
  buf_holds (set_mem m' w) b' (bs ++ data) /\ buf_frame w b (set_mem m' w) b'.
Proof.
  intros Hh Hfit Hst. destruct (good_write w (as_buffer b) bs data m' Hh Hfit Hst) as [Hg Hf].
  split; [exact Hg|]. by apply as_buffer_frame.
Qed.

Lemma frame_after w b w1 b1 w2 b2 :
  buf_frame w b w1 b1 -> buf_frame w1 b1 w2 b2 -> buf_frame w b w2 b2.
Proof.
  intros F1 F2 x Ho Hx. destruct (F1 x Ho Hx) as [Ho1 E1].
  destruct (F2 x Ho1) as [Ho2 E2]; [by rewrite E1|]. split; [done|]. by rewrite E2.
Qed.

Lemma room_accessible w b bs n :
  buf_holds w b bs -> 0 <= n -> bm_length b + n <= bm_max b ->
  accessible (w_mem w) (bm_data b + bm_length b) n.
Proof.
  intros [_ Hl Hc _ Ha _] H0 Hn. cbn in *. eapply accessible_sub; [exact Ha|lia|lia].
Qed.

(** What the functions promise. *)
Inductive buf_op := OpReserve (cap : Z) | OpGrow (len : Z) | OpAppend (src : Z) (data : bytes).
Definition op_ok (w : world) (b : BUF_MEM) (o : buf_op) : Prop :=
  match o with
  | OpReserve n | OpGrow n => 0 <= n < 2 ^ 64
  | OpAppend src data =>
      Z.of_nat (length data) < 2 ^ 64 /\ load (w_mem w) src (length data) = Some data /\
      forall x, src <= x < src + Z.of_nat (length data) -> outside (bm_data b) (bm_max b) x
  end.
Definition op_run (o : buf_op) : M BUF_MEM bool :=
  match o with
  | OpReserve n => r <- BUF_MEM_reserve n ;; ret (bool_decide (is_Some r))
  | OpGrow n => r <- BUF_MEM_grow n ;; ret (r =? n)
  | OpAppend src data =>
      r <- BUF_MEM_append src (Z.of_nat (length data)) ;; ret (bool_decide (is_Some r))
  end.
Definition op_bytes (o : buf_op) (bs : bytes) : bytes :=
  match o with
  | OpReserve _ => bs
  | OpGrow n => take (Z.to_nat n) bs ++ replicate (Z.to_nat n - length bs) 0
  | OpAppend _ data => bs ++ data
  end.

Lemma spec_op o bs b w :
  buf_holds w b bs -> op_ok w b o ->
  spec False False (op_run o)
    (fun done b' w' =>
       if done : bool then buf_holds w' b' (op_bytes o bs) /\ buf_frame w b w' b'
       else b' = b /\ w' = w) b w.
Proof.
  intros Hh Hok. pose proof Hh as [_ Hl Hcap _ _ _]. cbn in Hl, Hcap. destruct o as [n|n|src data]; cbn in Hok |- *.
  - apply spec_bind. eapply spec_mono; [by apply spec_reserve|].
    intros [[]|] b' w' Hq; apply spec_ret; cbn.
    + by destruct Hq as (? & _ & _ & ?).
    + by destruct Hq as (-> & -> & _).
  - apply spec_bind. unfold BUF_MEM_grow. apply spec_bind. eapply spec_mono; [by apply spec_reserve|].
    intros [[]|] b' w' Hq; cycle 1.
    { apply spec_ret, spec_ret. destruct Hq as (-> & -> & Hlt). by rewrite (proj2 (Z.eqb_neq 0 n)) by lia. }
    destruct Hq as (Hh' & Hle & Elen & Hf). pose proof Hh' as [_ Hl' Hcap' Hld' Ha' Hb']. cbn in Hl', Hcap', Hld', Ha', Hb'.
    apply spec_bind, spec_get_stream. apply spec_bind.
    destruct (Z.ltb_spec (bm_length b') n) as [Hlt|Hge].
    + set (zs := replicate (Z.to_nat (n - bm_length b')) 0).
      assert (Z.of_nat (length zs) = n - bm_length b') as Hz by (unfold zs; rewrite length_replicate; lia).
      destruct (store_total (w_mem w') (bm_data b' + bm_length b') zs) as [m' Hst].
      { rewrite Hz. eapply room_accessible; [exact Hh'|lia|lia]. }
      unfold c_memset, spec. fold zs. rewrite (store_bytes_run _ _ _ _ _ Hst).
      apply spec_bind, spec_put_stream, spec_ret, spec_ret. rewrite Z.eqb_refl.
      destruct (holds_write w' b' bs zs m' Hh' ltac:(lia) Hst) as [Hg Hfr].
      rewrite Hz in Hg, Hfr. replace (bm_length b' + (n - bm_length b')) with n in Hg, Hfr by lia.
      split; [|by eapply frame_after]. rewrite take_ge by lia.
      by replace (Z.to_nat n - length bs)%nat with (Z.to_nat (n - bm_length b')) by lia.
    + apply spec_ret, spec_bind, spec_put_stream, spec_ret, spec_ret. rewrite Z.eqb_refl.
      replace (Z.to_nat n - length bs)%nat with 0%nat by lia. cbn [replicate]. rewrite app_nil_r.
      split; [|exact Hf]. split; cbn; try done; try lia.
      * rewrite length_take. lia.
      * rewrite length_take, Nat.min_l by lia. eapply load_take; [exact Hld'|lia].
  - destruct Hok as (Hlen & Hsrc & Hout). apply spec_bind. unfold BUF_MEM_append.
    destruct (Z.eqb_spec (Z.of_nat (length data)) 0) as [E0|E0].
    { destruct data; [|cbn in E0; lia]. apply spec_ret, spec_ret. cbn. rewrite app_nil_r.
      split; [done|]. by intros x Ho. }
    apply spec_bind, spec_get_stream.
    destruct (Z.ltb_spec (u64 (bm_length b + Z.of_nat (length data))) (Z.of_nat (length data))) as [Hov|Hov].
    { by apply spec_ret, spec_ret. }
    assert (u64 (bm_length b + Z.of_nat (length data)) = bm_length b + Z.of_nat (length data)) as Enew
      by wrap_lia.
    rewrite Enew. apply spec_bindo.
    eapply spec_mono; [apply spec_reserve; [done|wrap_lia]|].
    intros [[]|] b' w' Hq; cycle 1.
    { apply spec_ret. by destruct Hq as (-> & -> & _). }
    destruct Hq as (Hh' & Hle & Elen & Hf).
    assert (load (w_mem w') src (length data) = Some data) as Hsrc'.
    { rewrite <- Hsrc. apply load_ext. intros x Hx. apply Hf; [by apply Hout|].
      destruct (load_accessible _ _ _ _ Hsrc x Hx) as [c Hc]. by rewrite Hc. }
    destruct (store_total (w_mem w') (bm_data b' + bm_length b') data) as [m' Hst].
    { eapply room_accessible; [exact Hh'|lia|lia]. }
    apply spec_bind, spec_get_stream. apply spec_bind. unfold c_memcpy. apply spec_bind.
    unfold spec at 1. rewrite (load_bytes_run _ _ _ _ _ (eq_trans (f_equal _ (Nat2Z.id _)) Hsrc')).
    unfold spec at 1. rewrite (store_bytes_run _ _ _ _ _ Hst).
    apply spec_bind, spec_put_stream, spec_ret, spec_ret. cbn.
    destruct (holds_write w' b' bs data m' Hh' ltac:(lia) Hst) as [Hg Hfr].
    rewrite <- Elen. split; [exact Hg|by eapply frame_after].
Qed.

(** What holds for a source now holds later. *)
Lemma op_ok_later w b w' b' o : buf_frame w b w' b' -> op_ok w b o -> op_ok w' b' o.
Proof.
  intros Hf. destruct o as [n|n|src data]; cbn; [done|done|].
  intros (Hlen & Hsrc & Hout). split; [done|].
  assert (forall x, src <= x < src + Z.of_nat (length data) ->
            outside (bm_data b') (bm_max b') x /\ w_mem w' !! x = w_mem w !! x) as Hx.
  { intros x Hx. apply Hf; [by apply Hout|].
    destruct (load_accessible _ _ _ _ Hsrc x Hx) as [c Hc]. by rewrite Hc. }
  split; [|intros x Hr; by apply Hx]. rewrite <- Hsrc. apply load_ext. intros x Hr. by apply Hx.
Qed.

Fixpoint run_ops (os : list buf_op) : M BUF_MEM (list bool) :=
  match os with
  | [] => ret []
  | o :: r => d <- op_run o ;; ds <- run_ops r ;; ret (d :: ds)
  end.
(** An operation that failed has done nothing. *)
Fixpoint ops_bytes (os : list buf_op) (ds : list bool) (bs : bytes) : bytes :=
  match os, ds with
  | o :: os, d :: ds => ops_bytes os ds (if d then op_bytes o bs else bs)
  | _, _ => bs
  end.

Lemma spec_ops os bs b w :
  buf_holds w b bs -> Forall (op_ok w b) os ->
  spec False False (run_ops os)
    (fun ds b' w' => length ds = length os /\ buf_holds w' b' (ops_bytes os ds bs) /\ buf_frame w b w' b') b w.
Proof.
  revert bs b w; induction os as [|o os IH]; intros bs b w Hh Hok; cbn [run_ops].
  { apply spec_ret. split; [done|]. split; [done|]. by intros x Ho. }
  apply Forall_cons_1 in Hok as [Ho Hos]. apply spec_bind. eapply spec_mono; [by apply spec_op|].
  intros d b1 w1 H1. apply spec_bind.
  assert (buf_holds w1 b1 (if d then op_bytes o bs else bs) /\ buf_frame w b w1 b1) as [Hh1 Hf1].
  { destruct d; [done|]. destruct H1 as [-> ->]. split; [done|]. by intros x Hx. }
  eapply spec_mono; [apply IH; [exact Hh1|]|].
  - eapply List.Forall_impl; [|exact Hos]. intros o' Ho'. by eapply op_ok_later.
  - intros ds b2 w2 (El & Hh2 & Hf2). apply spec_ret. cbn. split; [by rewrite El|].
    split; [exact Hh2|by eapply frame_after].
Qed.

(** C17: Any sequence of reservations, resizings and appends on a new BUF_MEM runs without
    undefined behaviour, whatever the allocator does; every operation returns whether
    it succeeded; the buffer then holds the bytes the successful ones put there, bytes
    that a resizing adds are zero, and no memory that was in use has changed. *)
Theorem buf_mem_is_string (os : list buf_op) (w : world) :
  Forall (op_ok w (BufMem 0 0 0)) os ->
  spec False False (run_ops os)
    (fun ds b w' =>
       length ds = length os /\ buf_holds w' b (ops_bytes os ds []) /\
       forall x, w_mem w !! x <> None -> w_mem w' !! x = w_mem w !! x)
    (BufMem 0 0 0) w.
Proof.
  intros Hok. eapply spec_mono; [apply (spec_ops os []); [|exact Hok]|].
  - split; cbn; try done; try lia. + intros x Hx. lia. + intros _. by left.
  - intros ds b w' (El & Hh & Hf). split; [done|]. split; [done|]. intros x Hx.
    apply Hf; [|done]. unfold outside. cbn. lia.
Qed.
End buf.

#[local] Existing Instance bump_allocator.
Lemma buf_mem_is_string_witness :
  let w := World (alloc_range ∅ 5000 (Some <$> [1; 2; 3])) ∅ in
  spec False False (run_ops [OpAppend 5000 [1; 2; 3]; OpGrow 5; OpReserve (2 ^ 64 - 1); OpAppend 5001 [2]])
    (fun ds b w' =>
       length ds = 4%nat /\ buf_holds w' b (ops_bytes [OpAppend 5000 [1; 2; 3]; OpGrow 5; OpReserve (2 ^ 64 - 1); OpAppend 5001 [2]] ds []) /\
       forall x, w_mem w !! x <> None -> w_mem w' !! x = w_mem w !! x)
    (BufMem 0 0 0) w.
Proof.
  intros w. apply (buf_mem_is_string [OpAppend 5000 [1; 2; 3]; OpGrow 5; OpReserve (2 ^ 64 - 1); OpAppend 5001 [2]] w).
  repeat apply List.Forall_cons; try apply List.Forall_nil; cbn; try lia.
  - split; [lia|]. split; [vm_compute; reflexivity|]. unfold outside. cbn. lia.
  - split; [lia|]. split; [vm_compute; reflexivity|]. unfold outside. cbn. lia.
Defined.

(** ** Strings *)

(** The C string [xs] is at [a]. *)
Definition string_at (m : mem) (a : Z) (xs : bytes) : Prop :=
  load m a (length (xs ++ [0])) = Some (xs ++ [0]) /\ bytes_ok xs /\ Forall (fun c => c <> 0) xs.

Lemma string_cons m a x xs :
  string_at m a (x :: xs) -> load1 m a = Some x /\ is_byte x /\ x <> 0 /\ string_at m (a + 1) xs.
Proof.
  intros (Hl & Hb & Hz). cbn [app length] in Hl. rewrite load_S in Hl.
  destruct (load1 m a) as [c|] eqn:E1; [|done]. destruct (load m (a + 1) _) as [r|] eqn:Er; [|done].
  injection Hl as -> ->. apply Forall_cons_1 in Hb as [Hbx Hb]. apply Forall_cons_1 in Hz as [Hzx Hz].
  split; [done|]. split; [done|]. split; [done|]. by split.
Qed.
Lemma string_nil m a : string_at m a [] -> load1 m a = Some 0.
Proof.
  intros (Hl & _). cbn [app length] in Hl. rewrite load_S in Hl.
  destruct (load1 m a) as [c|] eqn:E1; [|done]. cbn in Hl. congruence.
Qed.
Lemma string_suffix m a xs k : (k <= length xs)%nat -> string_at m a xs -> string_at m (a + Z.of_nat k) (drop k xs).
Proof.
  revert a xs; induction k as [|k IH]; intros a xs Hk Hs.
  { by rewrite drop_0, Z.add_0_r. }
  destruct xs as [|x xs]; [cbn in Hk; lia|]. apply string_cons in Hs as (_ & _ & _ & Hs).
  replace (a + Z.of_nat (S k)) with (a + 1 + Z.of_nat k) by lia. apply IH; [cbn in Hk; lia|done].
Qed.
Lemma string_ext m m' a xs :
  (forall x, a <= x < a + Z.of_nat (length xs + 1) -> m' !! x = m !! x) -> string_at m a xs -> string_at m' a xs.
Proof.
  intros He (Hl & Hr). split; [|done]. rewrite <- Hl. apply load_ext. intros x Hx. apply He.
  rewrite length_app in Hx. cbn in Hx. lia.
Qed.

Lemma load_byte_run {S} m a c (s : S) w :
  w_mem w = m -> load1 m a = Some c -> load_u 1 a s w = Ret (c, s, w).
Proof.
  intros <- H1. rewrite (load_u_run 1 a [c]).
  - cbn. by rewrite Z.add_0_r.
  - rewrite load_S, H1. done.
Qed.

(** A mapped range is no longer than the memory. *)
Lemma load_size m a n bs : load m a n = Some bs -> (n <= size m)%nat.
Proof.
  revert m a bs; induction n as [|n IH]; intros m a bs Hl; [lia|]. rewrite load_S in Hl.
  destruct (load1 m a) as [c|] eqn:E1; [|done]. destruct (load m (a + 1) n) as [r|] eqn:Er; [|done].
  assert (load (delete a m) (a + 1) n = Some r) as Ed.
  { rewrite <- Er. apply load_ext. intros x Hx. apply lookup_delete_ne. lia. }
  apply IH in Ed. assert (is_Some (m !! a)) as Ha.
  { unfold load1 in E1. destruct (m !! a); [eauto|done]. }
  destruct Ha as [v Hv]. rewrite map_size_delete_Some in Ed by eauto.
  assert (size m <> 0%nat) by (intros E0; apply map_size_empty_inv in E0; subst; by rewrite lookup_empty in Hv). lia.
Qed.

Lemma strlen_run {S} fuel a i xs (s : S) w :
  string_at (w_mem w) (a + i) xs -> (length xs < fuel)%nat ->
  strlen_loop fuel a i s w = Ret (i + Z.of_nat (length xs), s, w).
Proof.
  revert i xs; induction fuel as [|fuel IH]; intros i xs Hs Hf; [lia|]. cbn [strlen_loop].
  destruct xs as [|x xs].
  - rewrite (bind_ret_run _ _ _ _ _ _ _ (load_byte_run _ _ _ _ _ eq_refl (string_nil _ _ Hs))).
    cbn. by rewrite Z.add_0_r.
  - apply string_cons in Hs as (Hx & _ & Hne & Hs).
    rewrite (bind_ret_run _ _ _ _ _ _ _ (load_byte_run _ _ _ _ _ eq_refl Hx)).
    rewrite (proj2 (Z.eqb_neq x 0)) by done. rewrite (IH _ xs).
    + cbn [length]. by replace (i + 1 + Z.of_nat (length xs)) with (i + Z.of_nat (Datatypes.S (length xs))) by lia.
    + by rewrite Z.add_assoc.
    + cbn in Hf. lia.
Qed.
Lemma c_strlen_run {S} a xs (s : S) w :
  string_at (w_mem w) a xs -> c_strlen a s w = Ret (Z.of_nat (length xs), s, w).
Proof.
  intros Hs. unfold c_strlen. erewrite bind_ret_run by reflexivity.
  rewrite (strlen_run _ _ 0 xs); [done|by rewrite Z.add_0_r|].
  destruct Hs as [Hl _]. apply load_size in Hl. rewrite length_app in Hl. cbn in Hl. lia.
Qed.

Lemma store_byte_cons m a c r :
  store m a (c :: r) = match store1 m a c with Some m' => store m' (a + 1) r | None => None end.
Proof. reflexivity. Qed.
Lemma store_one m a c : store m a [c] = store1 m a c.
Proof. rewrite store_byte_cons. by destruct (store1 m a c). Qed.

Definition apart (a n b k : Z) : Prop := a + n <= b \/ b + k <= a.

Lemma store_byte_run {S} a c (s : S) w m' :
  is_byte c -> store1 (w_mem w) a c = Some m' -> store_u 1 a c s w = Ret (tt, s, set_mem m' w).
Proof.
  intros Hc Hs. apply store_bytes_run. cbn [le_bytes].
  rewrite Z.mod_small by (unfold is_byte in Hc; lia). by rewrite store_one.
Qed.
Lemma store1_mapped m a c : accessible m a 1 -> exists m', store1 m a c = Some m'.
Proof. intros Ha. unfold store1. destruct (Ha a) as [v ->]; [lia|eauto]. Qed.
Lemma store1_outside m a c m' x : store1 m a c = Some m' -> x <> a -> m' !! x = m !! x.
Proof. unfold store1. destruct (m !! a); [|done]. intros [= <-] Hx. by rewrite lookup_insert_ne. Qed.
Lemma store1_access m a c m' b n : store1 m a c = Some m' -> accessible m b n -> accessible m' b n.
Proof.
  intros Hs Ha. apply (store_access m a [c] m'); [|done]. by rewrite store_one.
Qed.

Lemma strlcpy_loop_run {S} n dst src dsize l xs (s : S) w :
  string_at (w_mem w) src xs -> 0 <= dsize <= Z.of_nat n -> accessible (w_mem w) dst dsize ->
  apart dst dsize src (Z.of_nat (length xs) + 1) ->
  let k := Nat.min (Z.to_nat (dsize - 1)) (length xs) in
  exists m', store (w_mem w) dst (take k xs) = Some m' /\
    strlcpy_loop n dst src dsize l s w =
      Ret ((dst + Z.of_nat k, src + Z.of_nat k, dsize - Z.of_nat k, l + Z.of_nat k), s, set_mem m' w).
Proof.
  revert dst src dsize l xs w; induction n as [|n IH]; intros dst src dsize l xs w Hs Hn Ha Hd k; unfold k.
  { replace dsize with 0 by lia. exists (w_mem w). cbn. rewrite !Z.add_0_r. by destruct w. }
  cbn [strlcpy_loop]. destruct (Z.ltb_spec 1 dsize) as [H1|H1]; cycle 1.
  { replace (Z.to_nat (dsize - 1)) with 0%nat by lia. exists (w_mem w). cbn.
    rewrite Z.sub_0_r, !Z.add_0_r. by destruct w. }
  destruct xs as [|x xs].
  - rewrite (bind_ret_run _ _ _ _ _ _ _ (load_byte_run _ _ _ _ _ eq_refl (string_nil _ _ Hs))).
    exists (w_mem w). cbn [Z.eqb negb length]. rewrite Nat.min_0_r. cbn. rewrite Z.sub_0_r, !Z.add_0_r.
    by destruct w.
  - apply string_cons in Hs as (Hx & Hxb & Hne & Hs). cbn [length] in Hd.
    rewrite (bind_ret_run _ _ _ _ _ _ _ (load_byte_run _ _ _ _ _ eq_refl Hx)).
    rewrite (proj2 (Z.eqb_neq x 0)) by done. cbn [negb].
    destruct (store1_mapped (w_mem w) dst x) as [m1 Hm1].
    { eapply accessible_sub; [exact Ha|lia|lia]. }
    rewrite (bind_ret_run _ _ _ _ _ _ _ (store_byte_run _ _ _ _ _ Hxb Hm1)).
    destruct (IH (dst + 1) (src + 1) (dsize - 1) (l + 1) xs (set_mem m1 w)) as (m' & Hst & E).
    + eapply string_ext; [|exact Hs]. intros i Hi. cbn. apply (store1_outside _ _ _ _ _ Hm1).
      unfold apart in Hd. lia.
    + lia.
    + cbn. eapply store1_access; [exact Hm1|]. eapply accessible_sub; [exact Ha|lia|lia].
    + unfold apart in *. lia.
    + exists m'. set (k' := Nat.min (Z.to_nat (dsize - 1 - 1)) (length xs)) in *.
      assert (Nat.min (Z.to_nat (dsize - 1)) (length (x :: xs)) = Datatypes.S k') as Ek
        by (unfold k'; cbn [length]; lia).
      rewrite Ek. cbn [take]. rewrite store_byte_cons, Hm1. split; [exact Hst|].
      rewrite E. replace (dsize - Z.of_nat (Datatypes.S k')) with (dsize - 1 - Z.of_nat k') by lia.
      rewrite !Nat2Z.inj_succ, <- !Z.add_1_l, !Z.add_assoc. reflexivity.
Qed.

(** [OPENSSL_strlcpy] on a string and a destination apart from it runs without undefined
    behaviour, returns the length of the string, and writes the longest prefix that
    fits with a terminator behind it, and nothing else; with no room it writes nothing. *)
Theorem strlcpy_in_bounds {S} (dst src dst_size : Z) (xs : bytes) (s : S) (w : world) :
  string_at (w_mem w) src xs -> Z.of_nat (length xs) < 2 ^ 64 -> 0 <= dst_size ->
  accessible (w_mem w) dst dst_size -> apart dst dst_size src (Z.of_nat (length xs) + 1) ->
  exists m', OPENSSL_strlcpy dst src dst_size s w = Ret (Z.of_nat (length xs), s, set_mem m' w) /\
    store (w_mem w) dst (if dst_size =? 0 then [] else take (Z.to_nat (dst_size - 1)) xs ++ [0]) = Some m'.
Proof.
  intros Hs Hlen H0 Ha Hd. unfold OPENSSL_strlcpy.
  destruct (strlcpy_loop_run (Z.to_nat dst_size) dst src dst_size 0 xs s w Hs ltac:(lia) Ha Hd) as (m1 & Hst & E).
  set (k := Nat.min (Z.to_nat (dst_size - 1)) (length xs)) in *.
  assert (Z.of_nat k <= dst_size) as Hk by (unfold k; lia).
  assert (length (take k xs) = k) as Hlt by (rewrite length_take; unfold k; lia).
  rewrite (bind_ret_run _ _ _ _ _ _ _ E). cbv beta iota.
  assert (string_at m1 (src + Z.of_nat k) (drop k xs)) as Hs1.
  { apply string_suffix; [unfold k; lia|]. eapply string_ext; [|exact Hs]. intros i Hi.
    apply (store_outside _ _ _ _ _ Hst). rewrite Hlt. unfold outside, apart in *. lia. }
  assert (k <= length xs)%nat as Hkl by (unfold k; lia).
  destruct (Z.eqb_spec dst_size 0) as [->|Hne].
  - assert (k = 0%nat) as Ek by (unfold k; lia). rewrite Ek in *. exists m1. cbn [take store] in Hst.
    cbn [Z.of_nat Z.sub Z.opp Z.add Z.eqb negb]. erewrite bind_ret_run by reflexivity.
    rewrite (bind_ret_run _ _ _ _ _ _ _ (c_strlen_run (src + Z.of_nat 0) _ _ (set_mem m1 w) Hs1)).
    rewrite drop_0. split; [|done]. unfold ret, u64. by rewrite Z.add_0_l, wrap_small by lia.
  - rewrite (proj2 (Z.eqb_neq (dst_size - Z.of_nat k) 0)) by (unfold k; lia). cbn [negb].
    destruct (store1_mapped m1 (dst + Z.of_nat k) 0) as [m2 Hm2].
    { eapply accessible_sub; [eapply store_access; [exact Hst|exact Ha]|lia|unfold k; lia]. }
    rewrite (bind_ret_run _ _ _ _ _ _ _ (store_byte_run (dst + Z.of_nat k) 0 s (set_mem m1 w) m2 ltac:(unfold is_byte; lia) Hm2)).
    assert (string_at m2 (src + Z.of_nat k) (drop k xs)) as Hs2.
    { eapply string_ext; [|exact Hs1]. intros i Hi. apply (store1_outside _ _ _ _ _ Hm2).
      rewrite length_drop in Hi. unfold apart in Hd. unfold k in *. lia. }
    exists m2. rewrite (bind_ret_run _ _ _ _ _ _ _ (c_strlen_run (src + Z.of_nat k) _ _ (set_mem m2 (set_mem m1 w)) Hs2)).
    rewrite length_drop. split.
    + unfold ret, u64. rewrite wrap_small by lia. do 3 f_equal. lia.
    + replace (take (Z.to_nat (dst_size - 1)) xs) with (take k xs).
      * by rewrite store_app, Hst, Hlt, store_one.
      * unfold k. destruct (Nat.min_spec (Z.to_nat (dst_size - 1)) (length xs)) as [[_ ->]|[? ->]]; [done|].
        by rewrite !take_ge by lia.
Qed.
Lemma strlcpy_in_bounds_witness :
  let w := World (alloc_range (alloc_range ∅ 5000 (Some <$> [104; 105; 33; 0])) 6000 (replicate 3 None)) ∅ in
  exists m', OPENSSL_strlcpy 6000 5000 3 tt w = Ret (3, tt, set_mem m' w) /\
    store (w_mem w) 6000 ([104; 105] ++ [0]) = Some m'.
Proof.
  intros w. apply (strlcpy_in_bounds 6000 5000 3 [104; 105; 33] tt w).
  - split; [vm_compute; reflexivity|]. split; repeat apply List.Forall_cons; try apply List.Forall_nil; unfold is_byte; lia.
  - cbn; lia.
  - lia.
  - intros i Hi. unfold w. cbn [w_mem]. rewrite alloc_range_lookup, length_replicate, decide_True by lia.
    rewrite lookup_replicate_2 by lia. eauto.
  - unfold apart. cbn. lia.
Defined.

(** ** Copies to the heap *)

(** The bytes before the first zero. *)
Fixpoint c_prefix (bs : bytes) : bytes :=
  match bs with
  | [] => []
  | c :: r => if c =? 0 then [] else c :: c_prefix r
  end.

Section copies.
Context `{Allocator} {S : Type}.

Lemma spec_malloc U F size (Q : Z -> S -> world -> Prop) s w :
  0 <= size ->
  (forall w', w' = w -> Q 0 s w') ->
  (forall a w', 0 < a -> a + size <= 2 ^ 64 -> accessible (w_mem w') a size -> w_blocks w' !! a = Some size ->
     (forall x, w_mem w !! x <> None -> outside a size x /\ w_mem w' !! x = w_mem w !! x) ->
     (forall q n, q <> 0 -> w_blocks w !! q = Some n -> q <> a /\ w_blocks w' !! q = Some n) -> Q a s w') ->
  spec U F (m_realloc 0 size) Q s w.
Proof.
  intros Hs H0 H1. apply (spec_realloc _ _ _ 0 _ []); [by left|lia|done|done|].
  intros a w' _ Ha0 Ha1. destruct (decide (a = 0)) as [->|Hne]; [by apply H0, Ha0|].
  destruct (Ha1 Hne) as (Hp & He & _ & Hacc & Hblk & Hf & Hb).
  apply H1; try done. intros x Hx. apply Hf; [|done]. unfold outside. lia.
Qed.

(** A block [p] of its own with the bytes [bs], next to what was in [w]. *)
Definition fresh_copy (w : world) (p : Z) (bs : bytes) (w' : world) : Prop :=
  0 < p /\ load (w_mem w') p (length bs) = Some bs /\ w_blocks w' !! p = Some (Z.of_nat (length bs)) /\
  (forall x, w_mem w !! x <> None -> w_mem w' !! x = w_mem w !! x) /\
  (forall q n, q <> 0 -> w_blocks w !! q = Some n -> q <> p /\ w_blocks w' !! q = Some n).

Lemma spec_memdup data bs (s : S) w :
  load (w_mem w) data (length bs) = Some bs ->
  spec False False (OPENSSL_memdup data (Z.of_nat (length bs)))
    (fun p s' w' => s' = s /\ (p = 0 /\ w' = w \/ bs <> [] /\ fresh_copy w p bs w')) s w.
Proof.
  intros Hl. unfold OPENSSL_memdup. destruct (Z.eqb_spec (Z.of_nat (length bs)) 0) as [E0|E0].
  { apply spec_ret. auto. }
  apply spec_bind, spec_malloc; [lia|intros w' ->; apply spec_ret; auto|].
  intros a w' Ha He Hacc Hblk Hf Hb. rewrite (proj2 (Z.eqb_neq a 0)) by lia.
  assert (load (w_mem w') data (length bs) = Some bs) as Hl'.
  { rewrite <- Hl. apply load_ext. intros x Hx. apply Hf.
    destruct (load_accessible _ _ _ _ Hl x Hx) as [c Hc]. by rewrite Hc. }
  destruct (store_total (w_mem w') a bs Hacc) as [m' Hst].
  apply spec_bind. unfold c_memcpy, spec. rewrite (bind_ret_run _ _ _ _ _ _ _
    (load_bytes_run data (Z.of_nat (length bs)) _ s w' (eq_trans (f_equal _ (Nat2Z.id _)) Hl'))).
  rewrite (store_bytes_run _ _ _ _ _ Hst). apply spec_ret. split; [done|]. right.
  split; [by intros ->|]. split; [done|]. split; [by eapply load_store_eq|]. split; [done|]. split; [|done].
  intros x Hx. destruct (Hf x Hx) as [Ho Ex]. cbn. rewrite (store_outside _ _ _ _ _ Hst Ho). done.
Qed.

Lemma strnlen_run n a i bs len (s : S) w :
  load (w_mem w) (a + i) n = Some bs -> i + Z.of_nat n = len ->
  strnlen_loop n a i len s w = Ret (i + Z.of_nat (length (c_prefix bs)), s, w).
Proof.
  revert i bs; induction n as [|n IH]; intros i bs Hl Hi.
  { injection Hl as <-. cbn. by replace len with (i + 0) by lia. }
  rewrite load_S in Hl. destruct (load1 (w_mem w) (a + i)) as [c|] eqn:E1; [|done].
  destruct (load (w_mem w) (a + i + 1) n) as [r|] eqn:Er; [|done]. injection Hl as <-.
  cbn [strnlen_loop c_prefix]. rewrite (bind_ret_run _ _ _ _ _ _ _ (load_byte_run _ _ _ _ _ eq_refl E1)).
  destruct (Z.eqb_spec c 0) as [->|Hne]; cbn [length]; [by rewrite Z.add_0_r|].
  rewrite (IH (i + 1) r); [|by rewrite Z.add_assoc|lia].
  by replace (i + 1 + Z.of_nat (length (c_prefix r))) with (i + Z.of_nat (Datatypes.S (length (c_prefix r)))) by lia.
Qed.
Lemma c_prefix_take bs : c_prefix bs = take (length (c_prefix bs)) bs.
Proof. induction bs as [|c r IH]; [done|]. cbn. destruct (c =? 0); [done|]. cbn. by f_equal. Qed.
Lemma c_prefix_length bs : (length (c_prefix bs) <= length bs)%nat.
Proof. rewrite c_prefix_take, length_take. lia. Qed.

Lemma spec_strndup str bs (s : S) w :
  load (w_mem w) str (length bs) = Some bs -> Z.of_nat (length bs) < 2 ^ 64 ->
  spec False False (OPENSSL_strndup str (Z.of_nat (length bs)))
    (fun p s' w' => s' = s /\ (p = 0 /\ w' = w \/ fresh_copy w p (c_prefix bs ++ [0]) w')) s w.
Proof.
  intros Hl Hlen. unfold OPENSSL_strndup, OPENSSL_strnlen. apply spec_bind. unfold spec at 1.
  rewrite Nat2Z.id, (strnlen_run (length bs) str 0 bs) by (rewrite ?Z.add_0_r; done || lia).
  rewrite Z.add_0_l. set (xs := c_prefix bs). pose proof (c_prefix_length bs) as Hx. fold xs in Hx.
  destruct (Z.ltb_spec (u64 (Z.of_nat (length xs) + 1)) (Z.of_nat (length xs))) as [Hov|Hov].
  { apply spec_ret. auto. }
  assert (u64 (Z.of_nat (length xs) + 1) = Z.of_nat (length xs) + 1) as -> by wrap_lia.
  apply spec_bind, spec_malloc; [lia|intros w' ->; apply spec_ret; auto|].
  intros a w' Ha He Hacc Hblk Hf Hb. rewrite (proj2 (Z.eqb_neq a 0)) by lia.
  assert (load (w_mem w') str (length xs) = Some xs) as Hl'.
  { rewrite (c_prefix_take bs : xs = _). fold xs. rewrite length_take, Nat.min_l by done.
    eapply load_take; [|exact Hx]. rewrite <- Hl. apply load_ext. intros x Hr. apply Hf.
    destruct (load_accessible _ _ _ _ Hl x Hr) as [c Hc]. by rewrite Hc. }
  assert (Z.of_nat (length (xs ++ [0])) = Z.of_nat (length xs) + 1) as Hlz by (rewrite length_app; cbn; lia).
  destruct (store_total (w_mem w') a (xs ++ [0])) as [m2 Hst]; [by rewrite Hlz|].
  pose proof Hst as Hst'. rewrite store_app in Hst'.
  destruct (store (w_mem w') a xs) as [m1|] eqn:E1; [|done]. rewrite store_one in Hst'.
  apply spec_bind. unfold c_memcpy, spec at 1. rewrite (bind_ret_run _ _ _ _ _ _ _
    (load_bytes_run str (Z.of_nat (length xs)) _ s w' (eq_trans (f_equal _ (Nat2Z.id _)) Hl'))).
  rewrite (store_bytes_run _ _ _ _ _ E1). apply spec_bind. unfold spec at 1.
  rewrite (store_byte_run (a + Z.of_nat (length xs)) 0 s (set_mem m1 w') m2 ltac:(unfold is_byte; lia) Hst').
  apply spec_ret. split; [done|]. right. split; [done|].
  split; [exact (load_store_eq _ _ _ _ Hst)|]. split; [by rewrite Hlz|]. split; [|done].
  intros x Hxm. destruct (Hf x Hxm) as [Ho Ex]. cbn. rewrite <- Hlz in Ho.
  rewrite (store_outside _ _ _ _ _ Hst Ho). done.
Qed.

(** The old value of the pointer: null, or a block that is not the string's. *)
Definition stale (w : world) (p data n : Z) : Prop :=
  p = 0 \/ exists size, w_blocks w !! p = Some size /\ 0 <= size /\ apart p size data n.

Lemma free_stale w p data bs :
  stale w p data (Z.of_nat (length bs)) -> load (w_mem w) data (length bs) = Some bs ->
  exists w1, c_free p w = Ret w1 /\ load (w_mem w1) data (length bs) = Some bs.
Proof.
  intros Hs Hl. unfold c_free. destruct (Z.eqb_spec p 0) as [->|Hne]; [by exists w|].
  destruct Hs as [->|(size & Hb & Hsz & Hap)]; [done|]. rewrite Hb. eexists. split; [done|].
  rewrite <- Hl. apply load_ext. intros x Hx. cbn. rewrite free_range_lookup, decide_False; [done|].
  unfold apart in Hap. lia.
Qed.

(** [CBS_stow] and [CBS_strdup] release what the pointer had before, and either fail
    with a null pointer or leave a block of its own size with the bytes of the string,
    cut at the first zero and terminated for [CBS_strdup]; other memory stays, and an
    empty string is a null pointer for the one and an empty C string for the other. *)
Theorem cbs_copies_correct (data out_ptr : Z) (bs : bytes) (s : S) (w : world) :
  load (w_mem w) data (length bs) = Some bs -> Z.of_nat (length bs) < 2 ^ 64 ->
  stale w out_ptr data (Z.of_nat (length bs)) ->
  exists w1, c_free out_ptr w = Ret w1 /\
    spec False False (CBS_stow data (Z.of_nat (length bs)) out_ptr)
      (fun r s' w' => s' = s /\
         (w' = w1 /\ r = (bool_decide (bs = []), 0, 0) \/
          exists p, bs <> [] /\ r = (true, p, Z.of_nat (length bs)) /\ fresh_copy w1 p bs w')) s w /\
    spec False False (CBS_strdup data (Z.of_nat (length bs)) out_ptr)
      (fun r s' w' => s' = s /\
         (w' = w1 /\ r = (false, 0) \/
          exists p, r = (true, p) /\ fresh_copy w1 p (c_prefix bs ++ [0]) w')) s w.
Proof.
  intros Hl Hlen Hst. destruct (free_stale _ _ _ _ Hst Hl) as (w1 & Ef & Hl1).
  assert (m_free out_ptr s w = Ret (tt, s, w1)) as Em by (unfold m_free; by rewrite Ef).
  exists w1. split; [done|]. split.
  - unfold CBS_stow. apply spec_bind. unfold spec at 1. rewrite Em.
    destruct (Z.eqb_spec (Z.of_nat (length bs)) 0) as [E0|E0].
    { apply spec_ret. destruct bs; [|cbn in E0; lia]. auto. }
    apply spec_bind. eapply spec_mono; [by apply spec_memdup|].
    intros p s' w' (-> & [[-> ->]|(Hne & Hc)]).
    + apply spec_ret. split; [done|]. left. split; [done|]. rewrite bool_decide_eq_false_2; [done|by intros ->].
    + pose proof Hc as (Hp & _). rewrite (proj2 (Z.eqb_neq p 0)) by lia. apply spec_ret. split; [done|]. eauto.
  - unfold CBS_strdup. apply spec_bind.
    assert ((if negb (out_ptr =? 0) then m_free out_ptr else ret tt) s w = Ret (tt, s, w1)) as Ei.
    { destruct (Z.eqb_spec out_ptr 0) as [->|]; [|done]. unfold c_free in Ef. cbn in Ef |- *.
      injection Ef as <-. done. }
    unfold spec at 1. rewrite Ei. apply spec_bind. eapply spec_mono; [by apply spec_strndup|].
    intros p s' w' (-> & [[-> ->]|Hc]); apply spec_ret; (split; [done|]); [by left|].
    pose proof Hc as (Hp & _). rewrite (proj2 (Z.eqb_neq p 0)) by lia. eauto.
Qed.
End copies.

Lemma cbs_copies_correct_witness :
  let bs := [104; 0; 33] in
  let w := World (alloc_range ∅ 5000 (Some <$> bs)) ∅ in
  exists w1, c_free 0 w = Ret w1 /\
    spec False False (CBS_stow 5000 (Z.of_nat (length bs)) 0)
      (fun r s' w' => s' = tt /\
         (w' = w1 /\ r = (bool_decide (bs = []), 0, 0) \/
          exists p, bs <> [] /\ r = (true, p, Z.of_nat (length bs)) /\ fresh_copy w1 p bs w')) tt w /\
    spec False False (CBS_strdup 5000 (Z.of_nat (length bs)) 0)
      (fun r s' w' => s' = tt /\
         (w' = w1 /\ r = (false, 0) \/
          exists p, r = (true, p) /\ fresh_copy w1 p (c_prefix bs ++ [0]) w')) tt w.
Proof.
  intros bs w. apply (cbs_copies_correct 5000 0 bs tt w); [vm_compute; reflexivity|cbn; lia|by left].
Defined.
