(* ===== verification/CbbNest.v ===== *)
(** * BoringSSL: elements and length prefixes under construction

    A CBB [a] with one open child [c]: what opening the child, building its
    contents and flushing the parent do to the buffer.  The length octets are put
    in front of the contents when the parent is flushed, which may move the
    contents.  The outcome is that [emits] holds of the functions that build a
    whole element, with the encoding of [Der] as what they append. *)
From Stdlib Require Import ZArith Lia.
From stdpp Require Import prelude strings gmap list numbers.
From S2P Require Import Prelude CMem PbConcrete PosixTime Cbs Cbb Der DerInt CbbSpec.
Local Open Scope Z_scope.
Local Open Scope c_scope.

(** The prefix for contents of [n] bytes in a place where [pending] bytes are kept
    for it. *)
Definition prefix_of (pending n : Z) (is_asn1 : bool) : option bytes :=
  if is_asn1 then if n <=? 0xfffffffe then Some (len_octets n) else None
  else if n <? 256 ^ pending then Some (be_bytes (Z.to_nat pending) n) else None.

(** ** Buffers whose prefix is being written *)

(** A buffer of which the contents are not looked at. *)
Definition sound (w : world) (b : cbb_buffer) : Prop := good w (set_len 0 b) [].

Lemma good_sound w b bs : good w b bs -> sound w b.
Proof. intros [He Hl Hc Hld Ha Hb]. split; cbn; try done; lia. Qed.

Lemma sound_good w b bs :
  sound w b -> len b = Z.of_nat (length bs) -> len b <= cap b ->
  load (w_mem w) (buf b) (length bs) = Some bs -> good w b bs.
Proof. intros [He Hl Hc Hld Ha Hb] H1 H2 H3. cbn in *. split; try done; lia. Qed.

Lemma sound_store w b p xs m' :
  sound w b -> store (w_mem w) p xs = Some m' -> sound (set_mem m' w) b.
Proof.
  intros [He Hl Hc Hld Ha Hb] Hst. split; try done. cbn in *. by eapply store_access.
Qed.

(** The state when the prefix has been placed up to [p0] and [k] bytes are left. *)
Record placed (w : world) (b : cbb_buffer) (bs pre data p0 : bytes) (k : nat) (left : Z) : Prop := {
  pl_pre : pre = p0 ++ be_bytes k left;
  pl_left : 0 <= left < 256 ^ Z.of_nat k;
  pl_sound : sound w b;
  pl_len : len b = Z.of_nat (length bs + length pre + length data) /\ len b <= cap b;
  pl_front : load (w_mem w) (buf b) (length (bs ++ p0)) = Some (bs ++ p0);
  pl_back : load (w_mem w) (buf b + Z.of_nat (length bs + length pre)) (length data) = Some data
}.

(** Writing what is left of the prefix. *)
Lemma spec_placed {St} w b bs pre data p0 k left (s1 : St) :
  placed w b bs pre data p0 k left ->
  spec False False (store_be k (buf b + Z.of_nat (length bs + length p0)) left)
    (fun r s' w' => r = 0 /\ s' = s1 /\ good w' b (bs ++ pre ++ data) /\ frame w b w' b) s1 w.
Proof.
  intros [Hp Hl Hs [Hlen Hcap] Hfr Hbk]. pose proof (g_acc _ _ _ Hs) as Ha. cbn in Ha.
  assert (length pre = (length p0 + k)%nat) as Ep by (by rewrite Hp, length_app, length_be_bytes).
  eapply spec_mono.
  { apply store_be_spec; [lia|]. eapply accessible_sub; [exact Ha| |]; lia. }
  intros r s2 w2 (-> & -> & m' & Hst & ->). split; [by apply Z.div_small|]. split; [done|].
  split.
  - apply sound_good; [by eapply sound_store|rewrite !length_app; lia|done|].
    rewrite Hp, <- app_assoc, app_assoc. apply (replace_prefix (w_mem w)); [done| |].
    + rewrite length_app, length_be_bytes. rewrite Ep, Nat.add_assoc in Hbk. exact Hbk.
    + by rewrite length_app.
  - eapply frame_store; [exact Hst|lia|]. rewrite length_be_bytes. lia.
Qed.

Section nest.
Context `{Allocator}.
Context (s : cbb_store) (a root ch c : Z) (b0 : cbb_buffer).
Context (Hwf : wf s) (Hroot : obj s root (Cbb ch (UBase b0))) (Hh : handle s a root ch).
Context (Hc : objs s !! c = None) (Hc0 : 0 < c).

(** The union of [a] and the child pointer of [root] while [c] is open. *)
Definition a_union (b : cbb_buffer) : cbb_union :=
  if decide (a = root) then UBase b
  else match objs s !! a with Some (Some x) => u x | _ => u cbb_zero end.
Definition root_child (x : Z) : Z := if decide (a = root) then x else ch.

(** The store with the buffer [b], the child pointer [x] in [a] and [o] at [c]. *)
Definition opened (b : cbb_buffer) (x : Z) (o : option cbb) : gmap Z (option cbb) :=
  <[c := o]> (<[a := Some (Cbb x (a_union b))]> (<[root := Some (Cbb ch (UBase b))]> (objs s))).

Definition is_open (b : cbb_buffer) (x : Z) (o : option cbb) (s' : cbb_store) : Prop :=
  objs s' = opened b x o /\ next_obj s <= next_obj s' /\ c < next_obj s'.

Lemma c_ne_a : c <> a.
Proof.
  intros ->. destruct Hh as [[-> _]|(_ & off & p & i & Ho)]; unfold obj in *; congruence.
Qed.
Lemma c_ne_root : c <> root.
Proof. intros ->. unfold obj in *. congruence. Qed.
Lemma root_pos : root <> 0.
Proof. by eapply obj_root_pos. Qed.

Lemma opened_root b x o s' :
  is_open b x o s' -> obj s' root (Cbb (root_child x) (UBase b)).
Proof.
  intros [E _]. unfold obj. rewrite E. unfold opened, root_child, a_union.
  rewrite lookup_insert_ne by apply c_ne_root. case_decide as D.
  - rewrite <- D. by rewrite lookup_insert_eq.
  - rewrite lookup_insert_ne by done. apply lookup_insert_eq.
Qed.
Lemma opened_a b x o s' : is_open b x o s' -> obj s' a (Cbb x (a_union b)).
Proof.
  intros [E _]. unfold obj. rewrite E. unfold opened.
  rewrite lookup_insert_ne by apply c_ne_a. apply lookup_insert_eq.
Qed.
Lemma opened_c b x o s' : is_open b x o s' -> objs s' !! c = Some o.
Proof. intros [E _]. rewrite E. apply lookup_insert_eq. Qed.

(** Updates of an open store. *)
Lemma upd_opened_root b x o s' b' :
  is_open b x o s' -> is_open b' x o (upd s' root (Cbb (root_child x) (UBase b'))).
Proof.
  intros (E & Hn & Hn'). split; [|done]. cbn. rewrite E. unfold opened, root_child, a_union.
  pose proof c_ne_root as Hne. case_decide as D.
  - rewrite <- D, !insert_insert_eq, (insert_insert_ne _ a c) by congruence.
    by rewrite insert_insert_eq.
  - rewrite (insert_insert_ne _ root c), (insert_insert_ne _ root a) by done.
    by rewrite insert_insert_eq.
Qed.
Lemma upd_opened_a b x o s' y :
  is_open b x o s' -> is_open b y o (upd s' a (Cbb y (a_union b))).
Proof.
  intros (E & Hn & Hn'). split; [|done]. cbn. rewrite E. unfold opened.
  pose proof c_ne_a as Hne. rewrite (insert_insert_ne _ a c) by done. by rewrite insert_insert_eq.
Qed.
Lemma upd_opened_c b x o s' d : is_open b x o s' -> is_open b x (Some d) (upd s' c d).
Proof. intros (E & Hn & Hn'). split; [|done]. cbn. rewrite E. apply insert_insert_eq. Qed.

Lemma is_open_wf b x o s' : is_open b x o s' -> wf s'.
Proof.
  intros (E & Hn & Hn') y d. rewrite E. unfold opened.
  destruct (decide (y = c)) as [->|]; [lia|rewrite lookup_insert_ne by done].
  destruct (decide (y = a)) as [->|].
  - intros _. destruct Hh as [[-> _]|(_ & off & p & i & Ho)];
      [apply Hwf in Hroot|apply Hwf in Ho]; lia.
  - rewrite lookup_insert_ne by done. destruct (decide (y = root)) as [->|].
    + intros _. apply Hwf in Hroot. lia.
    + rewrite lookup_insert_ne by done. intros Hy. apply Hwf in Hy. lia.
Qed.

(** [a] before the child is there, and [c] once it is. *)
Lemma is_open_handle_a b o s' : is_open b 0 o s' -> handle s' a root (root_child 0).
Proof.
  intros Hop. unfold root_child. case_decide as D; [by left|]. right. split; [done|].
  destruct Hh as [[? _]|(_ & off & p & i & Ho)]; [done|]. exists off, p, i.
  pose proof (opened_a _ _ _ _ Hop) as Ha. unfold a_union in Ha.
  rewrite decide_False in Ha by done. unfold obj in Ho. by rewrite Ho in Ha.
Qed.
Lemma is_open_handle_c b x s' off p i :
  is_open b x (Some (Cbb 0 (UChild root off p i))) s' -> handle s' c root (root_child x).
Proof.
  intros Hop. right. split; [apply c_ne_root|]. exists off, p, i. by apply opened_c in Hop.
Qed.

(** What a run on the buffer leaves open. *)
Lemma only_open b x o s1 b' s2 :
  is_open b x o s1 -> only_buffer s1 root (root_child x) b' s2 -> is_open b' x o s2.
Proof.
  intros Hop [E Hn]. destruct (upd_opened_root _ _ _ _ b' Hop) as (E' & N1 & N2).
  split; [by rewrite E|]. cbn in *. lia.
Qed.

(** Once the child is gone. *)
Lemma closed_objs b o s' :
  is_open b 0 o s' -> delete c (objs s') = objs (upd s root (Cbb ch (UBase b))).
Proof.
  intros (E & _). rewrite E. unfold opened. rewrite delete_insert_id.
  - cbn. unfold a_union. case_decide as D.
    + destruct Hh as [[_ E0]|[? _]]; [|done]. rewrite E0, <- D. by rewrite insert_insert_eq.
    + destruct Hh as [[? _]|(_ & off & p & i & Ho)]; [done|]. unfold obj in Ho. rewrite Ho. cbn.
      apply insert_id. by rewrite lookup_insert_ne.
  - rewrite lookup_insert_ne by (apply not_eq_sym, c_ne_a).
    rewrite lookup_insert_ne by (apply not_eq_sym, c_ne_root). done.
Qed.

(** ** Opening *)

Lemma spec_add_child b s1 w bs n is_asn1 :
  is_open b 0 None s1 -> good w b bs -> 0 <= n < 2 ^ 64 ->
  spec False False (cbb_add_child a c n is_asn1)
    (fun o s' w' => exists b', frame w b w' b' /\
       match o with
       | Some _ =>
           is_open b' c (Some (Cbb 0 (UChild root (len b) n is_asn1))) s' /\
           good w' b' (bs ++ replicate (Z.to_nat n) 0)
       | None => is_open b' 0 None s' /\ error b' = true /\ may_fail b n
       end) s1 w.
Proof.
  intros Hop Hg Hn. unfold cbb_add_child. apply spec_bind.
  eapply spec_get_cbb; [by eapply opened_a|]. cbn [child Z.eqb negb]. apply spec_bind.
  eapply spec_handle_base; [by eapply opened_root|by eapply is_open_handle_a|].
  apply spec_bind. eapply spec_get_buffer; [by eapply opened_root|]. apply spec_bindo.
  eapply spec_mono.
  { eapply spec_buffer_add; [by eapply opened_root|apply root_pos|done|done]. }
  intros [p|] s2 w2 (b' & -> & Hfr & Hr).
  2:{ exists b'. split; [done|]. split; [by eapply upd_opened_root|]. done. }
  destruct Hr as (-> & Hl & Hcap & Hg'). pose proof (upd_opened_root _ _ _ _ b' Hop) as Hop'.
  pose proof (g_acc _ _ _ Hg') as Hacc. pose proof (g_len _ _ _ Hg) as Hlb. cbn in Hacc.
  apply spec_bind. apply spec_memset; [lia|eapply accessible_sub; [exact Hacc| |]; lia|].
  intros m' Hst. apply spec_bind. eapply spec_set_cbb; [eexists; by eapply opened_c|].
  set (d := Cbb 0 _). pose proof (upd_opened_c _ _ _ _ d Hop') as Hop2.
  apply spec_bind. eapply spec_get_cbb; [by eapply opened_a|]. apply spec_bind.
  eapply spec_set_cbb; [eexists; by eapply opened_a|]. apply spec_ret. exists b'.
  destruct (good_filled w2 b' (len b) bs (replicate (Z.to_nat n) 0) m' Hg') as [Hgw Hfw];
    [rewrite length_replicate; lia|done|done|].
  split; [by eapply frame_trans|]. split; [|done]. by apply (upd_opened_a _ 0).
Qed.

(** ** Flushing *)

(** Room for [k] more bytes of prefix: the contents move up. *)
Definition make_room (base start k n : Z) : cbb_m (option unit) :=
  must cbb_buffer_add base k ;;
  b <- get_buffer base ;;
  c_memmove (buf b + start + k) (buf b + start) n ;;
  return_true.

Lemma spec_make_room b x o bs z data k s1 w :
  is_open b x o s1 -> good w b (bs ++ [z] ++ data) -> 0 <= k < 2 ^ 64 ->
  spec False False
    (make_room root (Z.of_nat (length bs + 1)) k (Z.of_nat (length data)))
    (fun r s' w' => exists b', frame w b w' b' /\ is_open b' x o s' /\
       match r with
       | Some _ =>
           sound w' b' /\ len b' = len b + k /\ len b' <= cap b' /\
           load (w_mem w') (buf b') (length bs) = Some bs /\
           load (w_mem w') (buf b' + Z.of_nat (length bs + 1) + k) (length data) = Some data
       | None => error b' = true /\ may_fail b k
       end) s1 w.
Proof.
  intros Hop Hg Hk. unfold make_room. apply spec_bindo. eapply spec_mono.
  { eapply spec_buffer_add; [by eapply opened_root|apply root_pos|done|done]. }
  intros [p|] s2 w2 (b' & -> & Hfr & Hr); pose proof (upd_opened_root _ _ _ _ b' Hop) as Hop';
    [|by exists b']. destruct Hr as (-> & Hl & Hcp & Hg').
  pose proof (g_acc _ _ _ Hg') as Ha. pose proof (g_len _ _ _ Hg') as Hlb. cbn in Ha, Hlb.
  rewrite !length_app in Hlb. cbn in Hlb.
  destruct (load_split _ _ _ _ (g_load _ _ _ Hg')) as [L1 L2]. cbn [set_len buf] in L1, L2.
  destruct (load_split _ _ _ _ L2) as [_ L3]. cbn [length] in L3.
  apply spec_bind. eapply spec_get_buffer; [by eapply opened_root|]. apply spec_bind.
  eapply (spec_memmove _ _ _ _ _ data).
  { rewrite Nat2Z.id, <- L3. f_equal. lia. }
  { eapply accessible_sub; [exact Ha| |]; lia. }
  intros m' Hst. apply spec_ret. exists b'. split.
  { eapply frame_trans; [exact Hfr|]. eapply frame_store; [exact Hst|lia|lia]. }
  split; [done|]. split; [eapply sound_store; [|exact Hst]; exact (good_sound _ _ _ Hg')|].
  split; [done|]. split; [done|]. cbn. split.
  - rewrite (load_store_disj _ _ _ _ _ _ Hst) by lia. done.
  - by apply (load_store_eq _ _ _ _ Hst).
Qed.

(** The state between the two parts of [flush_prefix]. *)
Definition stage (b : cbb_buffer) (w : world) (bs pre data : bytes) (pending : nat)
    (is_asn1 : bool) (r : option (Z * Z * Z)) (s' : cbb_store) (w' : world) : Prop :=
  exists b', frame w b w' b' /\
    match r with
    | Some (off, pend, rest) => exists p0 k,
        off = Z.of_nat (length bs + length p0) /\ pend = Z.of_nat k /\
        is_open b' c (Some (Cbb 0 (UChild root off pend is_asn1))) s' /\
        placed w' b' bs pre data p0 k rest
    | None => (exists o, is_open b' c o s') /\ error b' = true /\
              may_fail b (Z.of_nat (length pre) - Z.of_nat pending)
    end.

Definition asn1_stage (cbase offset len child_start : Z) : cbb_m (option (Z * Z * Z)) :=
  match asn1_length_form len with
  | None => return_false
  | Some (len_len, initial_length_byte, len') =>
      must (if negb (len_len =? 1) then make_room root child_start (len_len - 1) len
            else return_true) ;;
      b <- get_buffer root ;;
      store_u 1 (buf b + offset) initial_length_byte ;;
      ch <- get_cbb c ;;
      set_cbb c (Cbb (child ch) (UChild cbase (u64 (offset + 1)) (u8 (len_len - 1)) true)) ;;
      ret (Some (u64 (offset + 1), u8 (len_len - 1), len'))
  end.

Lemma spec_asn1_stage b bs z data s1 w :
  is_open b c (Some (Cbb 0 (UChild root (Z.of_nat (length bs)) 1 true))) s1 ->
  good w b (bs ++ [z] ++ data) -> Z.of_nat (length data) <= 0xfffffffe ->
  spec False False
    (asn1_stage root (Z.of_nat (length bs)) (Z.of_nat (length data)) (Z.of_nat (length bs + 1)))
    (stage b w bs (len_octets (Z.of_nat (length data))) data 1 true) s1 w.
Proof.
  intros Hop Hg Hn. unfold asn1_stage.
  destruct (asn1_length_form_spec (Z.of_nat (length data))) as (k & f & l & -> & Hk & Hf & Hl & E);
    [lia|].
  pose proof (g_len _ _ _ Hg) as Hlen. pose proof (g_cap _ _ _ Hg) as Hcp.
  rewrite !length_app in Hlen. cbn in Hlen.
  assert (length (len_octets (Z.of_nat (length data))) = S k) as El
    by (by rewrite E; cbn; rewrite length_be_bytes).
  apply spec_bindo. eapply (spec_mono _ _ _ (fun r s' w' => exists b', frame w b w' b' /\
    is_open b' c (Some (Cbb 0 (UChild root (Z.of_nat (length bs)) 1 true))) s' /\
    match r with
    | Some _ => sound w' b' /\ len b' = len b + Z.of_nat k /\ len b' <= cap b' /\
        load (w_mem w') (buf b') (length bs) = Some bs /\
        load (w_mem w') (buf b' + Z.of_nat (length bs + 1) + Z.of_nat k) (length data) = Some data
    | None => error b' = true /\ may_fail b (Z.of_nat k)
    end)).
  { destruct (Z.eqb_spec (1 + Z.of_nat k) 1) as [E1|E1]; cbn [negb].
    - apply spec_ret. exists b. split; [by apply frame_refl|]. split; [done|].
      destruct (load_split _ _ _ _ (g_load _ _ _ Hg)) as [L1 L2].
      destruct (load_split _ _ _ _ L2) as [_ L3]. cbn [length] in L3.
      split; [by eapply good_sound|]. split; [lia|]. split; [lia|]. split; [done|].
      rewrite <- L3. f_equal. lia.
    - replace (1 + Z.of_nat k - 1) with (Z.of_nat k) by lia.
      eapply spec_make_room; [done|done|lia]. }
  intros [[]|] s2 w2 (b' & Hfr & Hop' & Hr); cbv beta iota.
  2:{ exists b'. split; [done|]. split; [by eexists|]. rewrite El.
      replace (Z.of_nat (S k) - Z.of_nat 1) with (Z.of_nat k) by lia. done. }
  destruct Hr as (Hs & Hl' & Hcp' & L1 & L2).
  pose proof (g_acc _ _ _ Hs) as Ha. cbn in Ha. apply spec_bind.
  eapply spec_get_buffer; [by eapply opened_root|]. apply spec_bind.
  assert (le_bytes 1 f = [f]) as Ef by (cbn; by rewrite Z.mod_small by lia).
  unfold store_u. rewrite Ef.
  apply spec_store_bytes; [eapply accessible_sub; [exact Ha| |]; cbn; lia|]. intros m' Hst.
  apply spec_bind. eapply spec_get_cbb; [by eapply opened_c|]. apply spec_bind.
  eapply spec_set_cbb; [eexists; by eapply opened_c|]. apply spec_ret.
  pose proof (g_cap _ _ _ Hs) as Hc64. cbn in Hc64.
  unfold u64, u8. rewrite !wrap_small by lia. exists b'. split.
  { eapply frame_trans; [exact Hfr|]. eapply frame_store; [exact Hst|lia|cbn; lia]. }
  exists [f], k. split; [cbn; lia|]. split; [lia|]. split; [by eapply upd_opened_c|].
  split; [done|done|by eapply sound_store|split; [rewrite El; lia|done]| |].
  - cbn. by apply (load_store_append (w_mem w2)).
  - cbn. rewrite (load_store_disj _ _ _ _ _ _ Hst) by (rewrite El; cbn; lia).
    rewrite <- L2. f_equal. rewrite El. lia.
Qed.

(** The plain prefixes have their final place. *)
Lemma stage_plain b bs data pending s1 w v :
  is_open b c (Some (Cbb 0 (UChild root (Z.of_nat (length bs)) (Z.of_nat pending) false))) s1 ->
  good w b (bs ++ replicate pending 0 ++ data) ->
  0 <= v < 256 ^ Z.of_nat pending ->
  stage b w bs (be_bytes pending v) data pending false
    (Some (Z.of_nat (length bs), Z.of_nat pending, v)) s1 w.
Proof.
  intros Hop Hg Hv. pose proof (g_len _ _ _ Hg) as Hlen. pose proof (g_cap _ _ _ Hg) as Hcp.
  rewrite !length_app, length_replicate in Hlen.
  destruct (load_split _ _ _ _ (g_load _ _ _ Hg)) as [L1 L2].
  destruct (load_split _ _ _ _ L2) as [_ L3]. rewrite length_replicate in L3.
  exists b. split; [by apply frame_refl|]. exists [], pending.
  split; [cbn; lia|]. split; [done|]. split; [done|].
  split; [done|done|by eapply good_sound|rewrite length_be_bytes; lia|by rewrite app_nil_r|].
  rewrite length_be_bytes, <- L3. f_equal. lia.
Qed.

(** The prefix of the open child. *)
Lemma spec_flush_prefix b bs data pending is_asn1 pre s1 w :
  is_open b c (Some (Cbb 0 (UChild root (Z.of_nat (length bs)) (Z.of_nat pending) is_asn1))) s1 ->
  good w b (bs ++ replicate pending 0 ++ data) ->
  (is_asn1 = true -> pending = 1%nat) ->
  prefix_of (Z.of_nat pending) (Z.of_nat (length data)) is_asn1 = Some pre ->
  spec False False (flush_prefix a c root (Z.of_nat (length bs + pending)))
    (fun r s' w' => exists b', frame w b w' b' /\
       match r with
       | Some _ => (exists d, is_open b' 0 (Some d) s') /\ good w' b' (bs ++ pre ++ data)
       | None => (exists o, is_open b' c o s') /\ error b' = true /\
                 may_fail b (Z.of_nat (length pre) - Z.of_nat pending)
       end) s1 w.
Proof.
  intros Hop Hg Hpend Hpre. pose proof (g_len _ _ _ Hg) as Hlen.
  rewrite !length_app, length_replicate in Hlen.
  unfold flush_prefix. apply spec_bind.
  eapply spec_get_buffer; [by eapply opened_root|]. apply spec_bind. unfold get_child.
  apply spec_bind. eapply spec_get_cbb; [by eapply opened_c|]. cbn [u child]. apply spec_ret.
  rewrite !(proj2 (Z.ltb_ge _ _)) by lia. cbn [orb].
  assert (len b - Z.of_nat (length bs + pending) = Z.of_nat (length data)) as -> by lia.
  apply spec_bindo.
  apply (spec_mono _ _ _ (stage b w bs pre data pending is_asn1)).
  { destruct is_asn1; unfold prefix_of in Hpre.
    - rewrite (Hpend eq_refl) in *. cbn [Z.of_nat Z.eqb Pos.of_succ_nat Pos.eqb negb].
      destruct (Z.leb_spec (Z.of_nat (length data)) 0xfffffffe); [|done].
      injection Hpre as <-. by eapply (spec_asn1_stage b bs 0).
    - destruct (Z.ltb_spec (Z.of_nat (length data)) (256 ^ Z.of_nat pending)); [|done].
      rewrite Nat2Z.id in Hpre. injection Hpre as <-. apply spec_ret.
      apply stage_plain; [done|done|lia]. }
  intros [[[off pend] rest]|] s2 w2 (b' & Hfr & Hr); cbv beta iota; [|by exists b'].
  destruct Hr as (p0 & k & -> & -> & Hop' & Hpl). apply spec_bind.
  eapply spec_get_buffer; [by eapply opened_root|]. apply spec_bind. rewrite Nat2Z.id.
  eapply spec_mono; [by apply spec_placed|].
  intros r s3 w3 (-> & -> & Hg3 & Hfr3). cbn [Z.eqb negb]. apply spec_bind.
  eapply spec_get_cbb; [by eapply opened_c|]. cbn [u child]. apply spec_bind.
  eapply spec_set_cbb; [eexists; by eapply opened_c|]. set (d := Cbb 0 _).
  pose proof (upd_opened_c _ _ _ _ d Hop') as Hop3. apply spec_bind.
  eapply spec_get_cbb; [by eapply opened_a|]. apply spec_bind.
  eapply spec_set_cbb; [eexists; by eapply opened_a|]. apply spec_ret. exists b'.
  split; [by eapply frame_trans|]. split; [|done]. exists d. by apply (upd_opened_a _ c).
Qed.

Lemma handle_child : a <> root -> exists off p i, obj s a (Cbb 0 (UChild root off p i)).
Proof. destruct Hh as [[-> _]|[_ ?]]; done. Qed.

Lemma spec_open_base b x o (Q : Z -> cbb_store -> world -> Prop) s1 w :
  is_open b x o s1 -> Q root s1 w -> spec False False (cbb_get_base a) Q s1 w.
Proof.
  intros Hop HQ. unfold cbb_get_base. apply spec_bind.
  eapply spec_get_cbb; [by eapply opened_a|]. cbn [u]. unfold a_union.
  destruct (decide (a = root)) as [E|D]; [rewrite E; by apply spec_ret|].
  destruct (handle_child D) as (off & p & i & Ho). unfold obj in Ho. rewrite Ho.
  by apply spec_ret.
Qed.

(** An error in the open store. *)
Lemma spec_open_error b x o (Q : unit -> cbb_store -> world -> Prop) s1 w :
  is_open b x o s1 ->
  (forall s', is_open (set_error b) 0 o s' -> Q tt s' w) ->
  spec False False (cbb_on_error a) Q s1 w.
Proof.
  intros Hop HQ. unfold cbb_on_error. apply spec_bind. eapply spec_open_base; [done|].
  apply spec_bind. eapply spec_get_buffer; [by eapply opened_root|].
  apply spec_bind. eapply spec_set_buffer; [by eapply opened_root|].
  pose proof (upd_opened_root _ _ _ _ (set_error b) Hop) as Hop'.
  apply spec_bind. eapply spec_get_cbb; [by eapply opened_a|].
  eapply spec_set_cbb; [eexists; by eapply opened_a|]. apply HQ. by apply (upd_opened_a _ x).
Qed.

(** [CBB_flush] with one child open. *)
Lemma spec_flush_open b bs data pending is_asn1 pre s1 w :
  is_open b c (Some (Cbb 0 (UChild root (Z.of_nat (length bs)) (Z.of_nat pending) is_asn1))) s1 ->
  good w b (bs ++ replicate pending 0 ++ data) ->
  (is_asn1 = true -> pending = 1%nat) ->
  prefix_of (Z.of_nat pending) (Z.of_nat (length data)) is_asn1 = Some pre ->
  spec False False (CBB_flush a)
    (fun r s' w' => exists b' o, frame w b w' b' /\ is_open b' 0 o s' /\
       match r with
       | Some _ => good w' b' (bs ++ pre ++ data)
       | None => error b' = true /\ may_fail b (Z.of_nat (length pre) - Z.of_nat pending)
       end) s1 w.
Proof.
  intros Hop Hg Hpend Hpre. pose proof (g_len _ _ _ Hg) as Hlen.
  pose proof (g_cap _ _ _ Hg) as Hcap. rewrite !length_app, length_replicate in Hlen.
  pose proof root_pos as Hrp. unfold CBB_flush. apply spec_bind, spec_get_stream.
  cbn [flush_rec]. apply spec_bind. eapply spec_open_base; [done|].
  rewrite (proj2 (Z.eqb_neq root 0)) by done. apply spec_bind.
  eapply spec_get_buffer; [by eapply opened_root|]. rewrite (g_error _ _ _ Hg).
  apply spec_bind. eapply spec_get_cbb; [by eapply opened_a|]. cbn [child].
  rewrite (proj2 (Z.eqb_neq c 0)) by lia. apply spec_bind. unfold get_child at 1.
  apply spec_bind. eapply spec_get_cbb; [by eapply opened_c|]. cbn [u]. apply spec_ret.
  rewrite Z.eqb_refl. cbn [negb]. unfold or_error. apply spec_bind, spec_bindo.
  destruct (size (objs s1)) as [|k] eqn:Esz.
  { apply map_size_empty_iff in Esz. apply opened_c in Hop. by rewrite Esz in Hop. }
  cbn [flush_rec]. apply spec_bind. unfold cbb_get_base at 1. apply spec_bind.
  eapply spec_get_cbb; [by eapply opened_c|]. cbn [u]. apply spec_ret.
  rewrite (proj2 (Z.eqb_neq root 0)) by done. apply spec_bind.
  eapply spec_get_buffer; [by eapply opened_root|]. rewrite (g_error _ _ _ Hg).
  apply spec_bind. eapply spec_get_cbb; [by eapply opened_c|]. cbn [child Z.eqb].
  apply spec_ret. cbv beta iota. unfold u64. rewrite wrap_small by lia.
  replace (Z.of_nat (length bs) + Z.of_nat pending) with (Z.of_nat (length bs + pending)) by lia.
  eapply spec_mono; [by eapply spec_flush_prefix|].
  intros [[]|] s2 w2 (b' & Hfr & Hr); cbv beta iota.
  - apply spec_ret. destruct Hr as [[d Hop'] Hg']. by exists b', (Some d).
  - destruct Hr as ([o Hop'] & He & Hm). apply spec_bind. eapply spec_open_error; [done|].
    intros s' Hop2. apply spec_ret. exists (set_error b'), o.
    split; [eapply frame_trans; [exact Hfr|by apply frame_refl]|]. done.
Qed.

(** [op] opens [c], after [pre] and with [n] bytes for the prefix. *)
Definition opens_here (op : Z -> Z -> cbb_m (option unit)) (pre : bytes) (n : nat)
    (is_asn1 : bool) : Prop :=
  forall b bs s1 w, is_open b 0 None s1 -> good w b bs ->
    spec False False (op a c)
      (fun r s' w' => exists b', frame w b w' b' /\
         match r with
         | Some _ =>
             is_open b' c
               (Some (Cbb 0 (UChild root (Z.of_nat (length (bs ++ pre))) (Z.of_nat n) is_asn1))) s' /\
             good w' b' ((bs ++ pre) ++ replicate n 0)
         | None => is_open b' 0 None s' /\ error b' = true /\
                   may_fail b (Z.of_nat (length pre + n))
         end) s1 w.

(** Something is appended to [a], and the child is added. *)
Lemma opens_after (f : Z -> cbb_m (option unit)) pre n is_asn1 :
  emits f pre -> (n < 256)%nat ->
  opens_here (fun a c => must f a ;; cbb_add_child a c (Z.of_nat n) is_asn1) pre n is_asn1.
Proof.
  intros Hf Hn b bs s1 w Hop Hg. apply spec_bindo. eapply spec_mono.
  { eapply Hf; [by eapply is_open_wf|by eapply opened_root|done|by eapply is_open_handle_a]. }
  intros [[]|] s2 w2 (b1 & Hob & Hfr & Hr); pose proof (only_open _ _ _ _ _ _ Hop Hob) as Hop1.
  - assert (len b1 = len b + Z.of_nat (length pre)) as Hl.
    { rewrite (g_len _ _ _ Hr), (g_len _ _ _ Hg), length_app. lia. }
    eapply spec_mono; [eapply spec_add_child; [done|done|lia]|].
    intros r s3 w3 (b2 & Hfr2 & Hr2). exists b2. split; [by eapply frame_trans|].
    rewrite (g_len _ _ _ Hr), Nat2Z.id in Hr2. destruct r; [done|].
    destruct Hr2 as (? & ? & Hm). split; [done|]. split; [done|].
    eapply (may_fail_mono b b1); [done|done| |done]. lia.
  - exists b1. split; [done|]. split; [done|]. destruct Hr as [He Hm]. split; [done|].
    eapply (may_fail_mono b b w w _ _ 0); [by apply frame_refl|lia| |exact Hm]. lia.
Qed.

(** The contents are built in the child. *)
Lemma spec_body op (f : Z -> cbb_m (option unit)) pre n is_asn1 data b bs s1 w :
  opens_here op pre n is_asn1 -> emits f data -> is_open b 0 None s1 -> good w b bs ->
  spec False False (must op a c ;; f c)
    (fun r s' w' => exists b' x o, frame w b w' b' /\ is_open b' x o s' /\
       match r with
       | Some _ => x = c /\
           o = Some (Cbb 0 (UChild root (Z.of_nat (length (bs ++ pre))) (Z.of_nat n) is_asn1)) /\
           good w' b' ((bs ++ pre) ++ replicate n 0 ++ data)
       | None => error b' = true /\ may_fail b (Z.of_nat (length pre + n + length data))
       end) s1 w.
Proof.
  intros Hopn Hf Hop Hg. apply spec_bindo. eapply spec_mono; [by eapply Hopn|].
  intros [[]|] s2 w2 (b1 & Hfr & Hr).
  - destruct Hr as [Hop1 Hg1]. eapply spec_mono.
    { eapply Hf; [by eapply is_open_wf|by eapply opened_root|done|by eapply is_open_handle_c]. }
    intros r s3 w3 (b2 & Hob & Hfr2 & Hr2). exists b2, c, (Some (Cbb 0 (UChild root
      (Z.of_nat (length (bs ++ pre))) (Z.of_nat n) is_asn1))).
    split; [by eapply frame_trans|]. split; [by eapply only_open|].
    destruct r; [by rewrite <- app_assoc in Hr2|]. destruct Hr2 as [He Hm]. split; [done|].
    eapply (may_fail_mono b b1 w w2 _ _ (Z.of_nat (length pre + n))); [done| | |exact Hm]; [|lia].
    rewrite (g_len _ _ _ Hg1), (g_len _ _ _ Hg), !length_app, length_replicate. lia.
  - destruct Hr as (Hop1 & He & Hm). exists b1, 0, None. split; [done|]. split; [done|].
    split; [done|]. eapply (may_fail_mono b b w w _ _ 0); [by apply frame_refl|lia| |exact Hm].
    lia.
Qed.

End nest.

Lemma prefix_length (n : nat) len is_asn1 p :
  (is_asn1 = true -> n = 1%nat) -> prefix_of (Z.of_nat n) len is_asn1 = Some p ->
  (n <= length p)%nat.
Proof.
  unfold prefix_of. intros Hn. destruct is_asn1.
  - rewrite (Hn eq_refl). destruct (len <=? 0xfffffffe); [|done]. intros [= <-].
    unfold len_octets. destruct (len <? 128); cbn; lia.
  - destruct (len <? _); [|done]. intros [= <-]. rewrite length_be_bytes. lia.
Qed.

(** ** Whole elements *)

Section elements.
Context `{Allocator}.

Definition opens (op : Z -> Z -> cbb_m (option unit)) (pre : bytes) (n : nat)
    (is_asn1 : bool) : Prop :=
  forall s a root ch c b, wf s -> obj s root (Cbb ch (UBase b)) -> handle s a root ch ->
    objs s !! c = None -> 0 < c -> opens_here s a root ch c op pre n is_asn1.

Lemma opened_init s a root ch c b :
  obj s root (Cbb ch (UBase b)) -> handle s a root ch ->
  opened s a root ch c b 0 None = <[c := None]> (objs s).
Proof.
  intros Ho Hh. unfold opened, a_union. f_equal. rewrite (insert_id (objs s)) by exact Ho.
  apply insert_id. case_decide as D.
  - destruct Hh as [[_ E0]|[? _]]; [|done]. rewrite D, <- E0. exact Ho.
  - destruct Hh as [[? _]|(_ & off & p & i & Hc)]; [done|]. unfold obj in Hc. by rewrite Hc.
Qed.

(** A local CBB that is closed again. *)
Lemma spec_with_child (k : Z -> cbb_m (option unit)) a root ch b s w
    (P : option unit -> world -> cbb_buffer -> Prop) :
  wf s -> obj s root (Cbb ch (UBase b)) -> handle s a root ch ->
  (forall c s1, objs s !! c = None -> 0 < c -> is_open s a root ch c b 0 None s1 ->
     spec False False (k c)
       (fun r s' w' => exists b' o, is_open s a root ch c b' 0 o s' /\ P r w' b') s1 w) ->
  spec False False (with_cbb k)
    (fun r s' w' => exists b', only_buffer s root ch b' s' /\ P r w' b') s w.
Proof.
  intros Hwf Ho Hh Hk. unfold with_cbb. apply spec_bind, spec_get_stream, spec_bind.
  apply spec_put_stream, spec_bind. set (c := next_obj s).
  assert (objs s !! c = None) as Hc.
  { destruct (objs s !! c) eqn:E; [|done]. apply Hwf in E. unfold c in E. lia. }
  assert (0 < c) as Hc0 by (apply Hwf in Ho; unfold c; lia).
  eapply spec_mono; [apply Hk; [exact Hc|exact Hc0|]|].
  { split; [by rewrite (opened_init s a root ch c b) by done|]. unfold c. cbn. lia. }
  intros r s2 w2 (b' & o & Hop & HP). apply spec_bind, spec_get_stream, spec_bind.
  apply spec_put_stream, spec_ret. exists b'. split; [|done].
  split; [by eapply closed_objs|]. destruct Hop as (_ & ? & _). cbn. lia.
Qed.

(** How the two idioms of the source end: with an error set again or not. *)
Lemma spec_end (again : bool) s a root ch c b bs pre n is_asn1 data p w0 b0 w s1 :
  wf s -> obj s root (Cbb ch (UBase b0)) -> handle s a root ch ->
  objs s !! c = None -> 0 < c ->
  is_open s a root ch c b c
    (Some (Cbb 0 (UChild root (Z.of_nat (length (bs ++ pre))) (Z.of_nat n) is_asn1))) s1 ->
  good w b ((bs ++ pre) ++ replicate n 0 ++ data) -> good w0 b0 bs ->
  frame w0 b0 w b -> (is_asn1 = true -> n = 1%nat) ->
  prefix_of (Z.of_nat n) (Z.of_nat (length data)) is_asn1 = Some p ->
  spec False False (if again then or_error a (CBB_flush a) else CBB_flush a)
    (fun r s' w' => exists b' o, is_open s a root ch c b' 0 o s' /\ frame w0 b0 w' b' /\
       match r with
       | Some _ => good w' b' (bs ++ pre ++ p ++ data)
       | None => error b' = true /\ may_fail b0 (Z.of_nat (length (pre ++ p ++ data)))
       end) s1 w.
Proof.
  intros Hwf Ho Hh Hc Hc0 Hop Hg Hg0 Hfr Hn Hp.
  assert (may_fail b (Z.of_nat (length p) - Z.of_nat n) ->
    may_fail b0 (Z.of_nat (length (pre ++ p ++ data)))) as Hm.
  { apply (may_fail_mono b0 b w0 w _ _ (Z.of_nat (length pre + n + length data))); [done| |].
    - rewrite (g_len _ _ _ Hg), (g_len _ _ _ Hg0), !length_app, length_replicate. lia.
    - rewrite !length_app. lia. }
  destruct again; [unfold or_error; apply spec_bind|];
    (eapply spec_mono; [by eapply spec_flush_open|]);
    intros [[]|] s2 w2 (b' & o & Hfr2 & Hop2 & Hr); cbv beta iota.
  - apply spec_ret. exists b', o. rewrite <- app_assoc in Hr. split; [done|].
    split; [by eapply frame_trans|done].
  - apply spec_bind. eapply spec_open_error; [done..|]. intros s3 Hop3. apply spec_ret.
    exists (set_error b'), o. split; [done|].
    split; [|split; [done|apply Hm, Hr]]. eapply frame_trans; [exact Hfr|].
    eapply frame_trans; [exact Hfr2|]. by apply frame_refl.
  - exists b', o. rewrite <- app_assoc in Hr. split; [done|].
    split; [by eapply frame_trans|done].
  - exists b', o. split; [done|]. split; [by eapply frame_trans|]. split; [apply Hr|].
    apply Hm, Hr.
Qed.

(** Opening, building and closing an element. *)
Lemma emits_nested again op f pre n is_asn1 data p :
  opens op pre n is_asn1 -> emits f data -> (is_asn1 = true -> n = 1%nat) ->
  prefix_of (Z.of_nat n) (Z.of_nat (length data)) is_asn1 = Some p ->
  emits (fun a => with_cbb (fun c =>
      o <- (must op a c ;; f c) ;;
      match o with
      | Some _ => if again : bool then or_error a (CBB_flush a) else CBB_flush a
      | None => cbb_on_error a ;; return_false
      end)) (pre ++ p ++ data).
Proof.
  intros Hopn Hf Hn Hp a root ch b bs s w Hwf Ho Hg Hh.
  apply (spec_with_child _ a root ch b s w (fun r w' b' => frame w b w' b' /\
    match r with
    | Some _ => good w' b' (bs ++ pre ++ p ++ data)
    | None => error b' = true /\ may_fail b (Z.of_nat (length (pre ++ p ++ data)))
    end)); [done..|].
  intros c s1 Hc Hc0 Hop. apply spec_bind. eapply spec_mono.
  { eapply spec_body; try done. by eapply Hopn. }
  intros [[]|] s2 w2 (b' & x & o & Hfr & Hop2 & Hr); cbv beta iota.
  - destruct Hr as (-> & -> & Hg2). eapply spec_end; try done.
  - apply spec_bind. eapply spec_open_error; [done..|]. intros s3 Hop3. apply spec_ret.
    exists (set_error b'), o. split; [done|].
    split; [eapply frame_trans; [exact Hfr|by apply frame_refl]|]. split; [done|].
    destruct Hr as [_ Hm].
    eapply (may_fail_mono b b w w _ _ 0); [by apply frame_refl|lia| |exact Hm].
    pose proof (prefix_length n _ _ _ Hn Hp). rewrite !length_app. lia.
Qed.

Lemma opens_asn1 tag :
  0 <= tag < 2 ^ 32 -> opens (fun a c => CBB_add_asn1 a c tag) (tag_bytes tag) 1 true.
Proof.
  intros Ht s a root ch c b0 Hwf Ho Hh Hc Hc0 b bs s1 w Hop Hg.
  unfold CBB_add_asn1. apply spec_bindo.
  eapply spec_flush_handle; [by eapply is_open_wf|by eapply opened_root|apply Hg|
    by eapply is_open_handle_a|].
  exact (opens_after s a root ch c b0 Hwf Ho Hh Hc Hc0 (add_tag tag) _ 1 true
    (emits_tag tag Ht) ltac:(lia) b bs s1 w Hop Hg).
Qed.

Lemma opens_length_prefixed n :
  (n < 256)%nat -> opens (fun a c => cbb_add_length_prefixed a c (Z.of_nat n)) [] n false.
Proof.
  intros Hn s a root ch c b0 Hwf Ho Hh Hc Hc0 b bs s1 w Hop Hg.
  unfold cbb_add_length_prefixed. apply spec_bindo.
  eapply spec_flush_handle; [by eapply is_open_wf|by eapply opened_root|apply Hg|
    by eapply is_open_handle_a|]. cbv beta iota.
  exact (opens_after s a root ch c b0 Hwf Ho Hh Hc Hc0 (fun _ => return_true) [] n false
    emits_nil Hn b bs s1 w Hop Hg).
Qed.

End elements.

(** ** BoringSSL: CBB writes DER that CBS reads

    The functions of cbb.c that append a whole element append its DER encoding, and
    the functions of cbs.c read it back; and what a CBB hands out at the end of its
    life is what was appended to it. *)

(** ** Equal programs *)

Definition same_run {S A} (m m' : M S A) : Prop := forall s w, m s w = m' s w.

Lemma bindo_assoc {S A B C} (m : M S (option A)) (k : A -> M S (option B))
    (k' : B -> M S (option C)) :
  same_run (bindo (bindo m k) k') (bindo m (fun x => bindo (k x) k')).
Proof.
  intros s w. unfold bindo, bind. destruct (m s w) as [[[[x|] s1] w1]| |]; try done.
Qed.

Lemma bindo_cong {S A B} (m : M S (option A)) (k k' : A -> M S (option B)) :
  (forall x, same_run (k x) (k' x)) -> same_run (bindo m k) (bindo m k').
Proof.
  intros E s w. unfold bindo, bind. destruct (m s w) as [[[[x|] s1] w1]| |]; try done. apply E.
Qed.
Lemma bindo_true {S B} (k : unit -> M S (option B)) : same_run (bindo return_true k) (k tt).
Proof. done. Qed.

Section asn1.
Context `{Allocator}.

Lemma emits_run f g data : (forall a, same_run (f a) (g a)) -> emits g data -> emits f data.
Proof.
  intros E Hg a root ch b bs s w Hwf Ho Hgd Hh. unfold spec. rewrite (E a s w).
  by apply Hg.
Qed.

Lemma with_cbb_run {A} (k k' : Z -> cbb_m A) :
  (forall c, same_run (k c) (k' c)) -> same_run (with_cbb k) (with_cbb k').
Proof.
  intros E s w. unfold with_cbb, bind, get_stream, put_stream.
  by rewrite (E (next_obj s)).
Qed.

(** ** Elements *)

Lemma prefix_of_asn1 (data : bytes) :
  Z.of_nat (length data) <= 0xfffffffe ->
  prefix_of (Z.of_nat 1) (Z.of_nat (length data)) true =
    Some (len_octets (Z.of_nat (length data))).
Proof. intros Hd. unfold prefix_of. by rewrite (proj2 (Z.leb_le _ _)). Qed.

Lemma emits_element again tag f data :
  0 <= tag < 2 ^ 32 -> emits f data -> Z.of_nat (length data) <= 0xfffffffe ->
  emits (fun a => with_cbb (fun c =>
      o <- (must CBB_add_asn1 a c tag ;; f c) ;;
      match o with
      | Some _ => if again : bool then or_error a (CBB_flush a) else CBB_flush a
      | None => cbb_on_error a ;; return_false
      end)) (der tag data).
Proof.
  intros Ht Hf Hd. unfold der, header. rewrite <- app_assoc.
  eapply (emits_nested again (fun a c => CBB_add_asn1 a c tag)); [by apply opens_asn1|done|done|].
  by apply prefix_of_asn1.
Qed.

(** The other idiom: [goto err] on each failure. *)
Lemma or_error_shape a (x y z : cbb_m (option unit)) :
  same_run (or_error a (must x ;; must y ;; z))
    (o <- (must x ;; y) ;;
     match o with Some _ => or_error a z | None => cbb_on_error a ;; return_false end).
Proof.
  intros s w. unfold or_error, bindo, bind. destruct (x s w) as [[[[[]|] s1] w1]| |]; try done.
  cbn. destruct (y s1 w1) as [[[[[]|] s2] w2]| |]; done.
Qed.

Lemma emits_element_goto tag f data :
  0 <= tag < 2 ^ 32 -> emits f data -> Z.of_nat (length data) <= 0xfffffffe ->
  emits (fun a => with_cbb (fun c =>
      or_error a (must CBB_add_asn1 a c tag ;; must f c ;; CBB_flush a))) (der tag data).
Proof.
  intros Ht Hf Hd. eapply emits_run; [|by apply (emits_element true tag f data)].
  intros a. apply with_cbb_run. intros c. apply or_error_shape.
Qed.

(** ** Integers *)

Lemma byte_at v i : Z.land (Z.shiftr v (8 * Z.of_nat i)) 0xff = v / 256 ^ Z.of_nat i mod 256.
Proof.
  change 0xff with 255. rewrite land_FF, shiftr_div by lia.
  by rewrite Z.pow_mul_r by lia.
Qed.

(** [uint64_bytes_loop] with the byte that is written when it wrote none. *)
Definition u64_bytes (v : Z) (n : nat) (started : bool) (c : Z) : cbb_m (option unit) :=
  started <-? uint64_bytes_loop c v n started ;;
  if negb started then CBB_add_u8 c 0 else return_true.

Lemma u64_bytes_started v n : 0 <= v -> emits (u64_bytes v n true) (be_bytes n v).
Proof.
  intros Hv. induction n as [|n IH]; [apply emits_nil|].
  unfold u64_bytes. cbn [uint64_bytes_loop be_bytes]. rewrite byte_at. cbn [negb andb].
  pose proof (Z.mod_pos_bound (v / 256 ^ Z.of_nat n) 256 ltac:(lia)).
  apply (emits_run _ (fun c =>
    must CBB_add_u8 c (v / 256 ^ Z.of_nat n mod 256) ;; u64_bytes v n true c)).
  - intros a s w. exact (bindo_assoc (CBB_add_u8 a _) _ _ s w).
  - change (?x :: ?y) with ([x] ++ y). apply emits_seq; [by apply emits_u8|exact IH].
Qed.

Lemma fits_nonneg n v : 0 <= v -> fits (S n) v = (v <? 128 * 256 ^ Z.of_nat n).
Proof.
  intros Hv. unfold fits. rewrite Nat.sub_succ, Nat.sub_0_r.
  pose proof (pow256_pos n). by rewrite (proj2 (Z.leb_le _ _)) by lia.
Qed.

(** The leading byte decides whether a zero byte goes in front. *)
Lemma leading_byte n v q :
  0 <= v < 256 * 256 ^ Z.of_nat n -> q = v / 256 ^ Z.of_nat n -> q <> 0 ->
  int_digits (if q <? 128 then S n else S (S n)) v.
Proof.
  intros Hv Eq Hq. pose proof (pow256_pos n) as Hp.
  pose proof (Z.div_mod v (256 ^ Z.of_nat n) ltac:(lia)) as Ev. rewrite <- Eq in Ev.
  pose proof (Z.mod_pos_bound v (256 ^ Z.of_nat n) Hp) as Hr.
  assert (0 <= q) by (rewrite Eq; apply Z.div_pos; lia).
  destruct (Z.ltb_spec q 128) as [H1|H1].
  - assert (256 ^ Z.of_nat n * q <= 256 ^ Z.of_nat n * 127) by (apply Z.mul_le_mono_nonneg_l; lia).
    assert (256 ^ Z.of_nat n * 1 <= 256 ^ Z.of_nat n * q) by (apply Z.mul_le_mono_nonneg_l; lia).
    split; [lia|]. rewrite fits_nonneg by lia. split; [apply Z.ltb_lt; lia|].
    destruct n as [|n]; [by left|right]. rewrite Nat.sub_succ, Nat.sub_0_r.
    rewrite fits_nonneg by lia. rewrite pow256_succ in *. apply Z.ltb_ge. lia.
  - assert (256 ^ Z.of_nat n * 128 <= 256 ^ Z.of_nat n * q) by (apply Z.mul_le_mono_nonneg_l; lia).
    split; [lia|]. rewrite fits_nonneg, pow256_succ by lia. split; [apply Z.ltb_lt; lia|].
    right. rewrite Nat.sub_succ, Nat.sub_0_r. rewrite fits_nonneg by lia. apply Z.ltb_ge. lia.
Qed.

(** The shortest form, whichever byte the loop starts at. *)
Lemma u64_bytes_emits v n :
  0 <= v < 256 ^ Z.of_nat n ->
  exists m, int_digits m v /\ emits (u64_bytes v n false) (be_bytes m v).
Proof.
  induction n as [|n IH]; intros Hv.
  - rewrite Z.pow_0_r in Hv. assert (v = 0) as -> by lia. exists 1%nat.
    split; [by repeat split; auto|]. apply emits_u8. lia.
  - rewrite pow256_succ in Hv. pose proof (pow256_pos n) as Hp.
    unfold u64_bytes. cbn [uint64_bytes_loop]. rewrite byte_at. cbn [negb andb].
    set (q := v / 256 ^ Z.of_nat n).
    assert (0 <= q < 256) as Hq.
    { unfold q. split; [apply Z.div_pos; lia|apply Z.div_lt_upper_bound; lia]. }
    rewrite (Z.mod_small q) by done. destruct (Z.eqb_spec q 0) as [E|E].
    { apply IH. split; [lia|]. unfold q in E. apply Z.div_small_iff in E; lia. }
    pose proof (leading_byte n v q Hv eq_refl E) as Hd.
    assert (emits (fun c => must CBB_add_u8 c q ;; u64_bytes v n true c) (be_bytes (S n) v)) as Hs.
    { cbn [be_bytes]. fold q. rewrite (Z.mod_small q) by done.
      change (q :: ?y) with ([q] ++ y). apply emits_seq; [by apply emits_u8|].
      apply u64_bytes_started. lia. }
    rewrite land_80_test by exact Hq. destruct (q <? 128); cbn [negb].
    + exists (S n). split; [done|].
      eapply emits_run; [|exact Hs]. intros a s w.
      rewrite (bindo_assoc _ _ _ s w), (bindo_true _ s w), (bindo_assoc _ _ _ s w). done.
    + exists (S (S n)). split; [done|].
      assert (be_bytes (S (S n)) v = [0] ++ be_bytes (S n) v) as ->.
      { cbn [be_bytes app]. f_equal. rewrite pow256_succ, (Z.mul_comm 256), <- Z.div_div by lia.
        fold q. rewrite Z.div_small by lia. done. }
      eapply emits_run; [|apply (emits_seq (fun c => CBB_add_u8 c 0)
        (fun c => must CBB_add_u8 c q ;; u64_bytes v n true c) [0]);
        [apply emits_u8; lia|exact Hs]].
      intros a s w. rewrite (bindo_assoc _ _ _ s w). apply bindo_cong. intros [] s1 w1.
      by rewrite (bindo_assoc _ _ _ s1 w1).
Qed.

Lemma u64_bytes_int v : 0 <= v < 2 ^ 64 -> emits (u64_bytes v 8 false) (int_bytes v).
Proof.
  intros Hv. destruct (u64_bytes_emits v 8) as (m & Hm & He); [done|]. unfold int_bytes.
  by rewrite <- (int_digits_unique _ _ _ Hm (int_len_digits v ltac:(lia))).
Qed.

Lemma emits_uint64_with_tag v tag :
  0 <= v < 2 ^ 64 -> 0 <= tag < 2 ^ 32 ->
  emits (fun a => CBB_add_asn1_uint64_with_tag a v tag) (der tag (int_bytes v)).
Proof.
  intros Hv Ht. pose proof (length_int_bytes v ltac:(lia)).
  by apply (emits_element false tag (u64_bytes v 8 false)); [|apply u64_bytes_int|lia].
Qed.

(** Negative numbers: the bytes of the two's complement. *)
Lemma byte_of_spec v i : (i < 8)%nat -> byte_of v i = v / 256 ^ Z.of_nat i mod 256.
Proof.
  intros Hi. unfold byte_of. rewrite byte_at. unfold u64, wrap.
  assert (2 ^ 64 = 256 ^ Z.of_nat i * (256 * 256 ^ Z.of_nat (7 - i))) as E.
  { rewrite <- pow256_succ, <- Z.pow_add_r by lia.
    replace (Z.of_nat i + Z.of_nat (S (7 - i))) with 8 by lia. done. }
  pose proof (pow256_pos i). pose proof (pow256_pos (7 - i)).
  rewrite E, Z.rem_mul_r by lia. rewrite (Z.mul_comm (256 ^ Z.of_nat i)), Z.div_add by lia.
  rewrite Z.div_small by (apply Z.mod_pos_bound; lia). rewrite Z.add_0_l.
  rewrite Z.rem_mul_r, (Z.mul_comm 256), Z.mod_add, Z.mod_mod by lia. done.
Qed.

Lemma emits_int64_loop v n : (n <= 8)%nat -> emits (fun c => int64_bytes_loop c v n) (be_bytes n v).
Proof.
  induction n as [|n IH]; intros Hn; [apply emits_nil|]. cbn [int64_bytes_loop be_bytes].
  rewrite byte_of_spec by lia. change (?x :: ?y) with ([x] ++ y).
  pose proof (Z.mod_pos_bound (v / 256 ^ Z.of_nat n) 256 ltac:(lia)).
  apply (emits_seq (fun c => CBB_add_u8 c _)); [by apply emits_u8|]. apply IH. lia.
Qed.

Lemma fits_negative n v : v < 0 -> fits (S n) v = (- (128 * 256 ^ Z.of_nat n) <=? v).
Proof.
  intros Hv. unfold fits. rewrite Nat.sub_succ, Nat.sub_0_r.
  pose proof (pow256_pos n). by rewrite (proj2 (Z.ltb_lt v _)), andb_true_r by lia.
Qed.

(** One byte less will do exactly when the top byte repeats the sign. *)
Lemma sign_byte i v :
  v < 0 -> fits (S (S i)) v = true -> (S i < 8)%nat ->
  (byte_of v (S i) =? 0xff) && negb (Z.land (byte_of v i) 0x80 =? 0) = fits (S i) v.
Proof.
  intros Hv Hf Hi. rewrite fits_negative, pow256_succ in Hf by done. apply Z.leb_le in Hf.
  rewrite fits_negative by done. rewrite !byte_of_spec by lia.
  rewrite land_80_test by (apply Z.mod_pos_bound; lia).
  pose proof (pow256_pos i) as Hp. rewrite pow256_succ, (Z.mul_comm 256), <- Z.div_div by lia.
  set (p := 256 ^ Z.of_nat i) in *. set (q := v / p).
  assert (v = p * q + v mod p) as Ev by (apply Z.div_mod; lia).
  pose proof (Z.mod_pos_bound v p Hp) as Hr.
  assert (- 32768 <= q < 0) as Hq by (split; nia).
  assert ((- (128 * p) <=? v) = (-128 <=? q)) as ->.
  { apply eq_bool_prop_intro. rewrite !Is_true_true, !Z.leb_le. nia. }
  clearbody q. clear -Hq. apply eq_bool_prop_intro.
  rewrite !Is_true_true, andb_true_iff, negb_true_iff, Z.eqb_eq, Z.ltb_ge, Z.leb_le.
  Z.div_mod_to_equations. lia.
Qed.

Lemma int64_start_spec v start :
  v < 0 -> fits (S start) v = true -> (start < 8)%nat -> int_digits (S (int64_start v start)) v.
Proof.
  intros Hv. induction start as [|i IH]; intros Hf Hi; cbn [int64_start].
  - split; [lia|]. auto.
  - rewrite sign_byte by done. destruct (fits (S i) v) eqn:E; [apply IH; [done|lia]|].
    split; [lia|]. split; [done|]. by right.
Qed.

Lemma int64_start_le v start : (int64_start v start <= start)%nat.
Proof.
  induction start as [|i IH]; cbn [int64_start]; [lia|]. destruct (_ && _); lia.
Qed.

Lemma emits_int64_with_tag v tag :
  - 2 ^ 63 <= v < 2 ^ 63 -> 0 <= tag < 2 ^ 32 ->
  emits (fun a => CBB_add_asn1_int64_with_tag a v tag) (der tag (int_bytes v)).
Proof.
  intros Hv Ht. unfold CBB_add_asn1_int64_with_tag. destruct (Z.leb_spec 0 v) as [H0|H0].
  - unfold u64. rewrite wrap_small by lia. apply emits_uint64_with_tag; lia.
  - assert (int_digits (S (int64_start v 7)) v) as Hd.
    { apply int64_start_spec; [done| |lia]. rewrite fits_negative by done.
      change (128 * 256 ^ Z.of_nat 7) with (2 ^ 63). apply Z.leb_le. lia. }
    pose proof (int64_start_le v 7) as Hl. unfold int_bytes.
    rewrite <- (int_digits_unique _ _ _ Hd (int_len_digits v ltac:(lia))).
    apply (emits_element false tag (fun c => int64_bytes_loop c v (S (int64_start v 7))));
      [done|apply emits_int64_loop; lia|rewrite length_be_bytes; lia].
Qed.

(** ** Strings and booleans *)

Lemma emits_octet_string data :
  Z.of_nat (length data) <= 0xfffffffe ->
  emits (fun a => CBB_add_asn1_octet_string a data) (der CBS_ASN1_OCTETSTRING data).
Proof.
  intros Hd. apply (emits_element_goto CBS_ASN1_OCTETSTRING (fun c => CBB_add_bytes c data));
    [unfold CBS_ASN1_OCTETSTRING; lia| |done]. apply emits_bytes. lia.
Qed.

Lemma emits_bool v :
  emits (fun a => CBB_add_asn1_bool a v) (der CBS_ASN1_BOOLEAN [if v : bool then 255 else 0]).
Proof.
  apply (emits_element_goto CBS_ASN1_BOOLEAN (fun c => CBB_add_u8 c (if v then 0xff else 0)));
    [unfold CBS_ASN1_BOOLEAN; lia| |cbn; lia].
  destruct v; apply emits_u8; lia.
Qed.

End asn1.
