(* ===== verification/CbbCodec.v ===== *)
(** * BoringSSL: what is written with CBB is read with CBS

    [Codec] is the contract between a writer of cbb.c and a reader of cbs.c: the
    writer appends the encoding of a value, and the reader takes the encoding off
    the front of any bytes and returns the value.  It is closed under sequences,
    length prefixes and ASN.1 elements, so the writer and the reader of any [format]
    keep it: the fixed-width integers, bytes, INTEGERs, BOOLEANs and OCTET STRINGs of
    the interface, put together by sequence, length prefixes and elements to any
    depth.  They are put to use in the life of a CBB, on the heap or in a buffer of
    the caller. *)
From Stdlib Require Import ZArith Lia.
From stdpp Require Import prelude strings gmap list numbers.
From S2P Require Import Prelude CMem PbConcrete PosixTime Cbs Cbb Der.
From S2P Require Import DerInt CbbSpec CbbNest.
Local Open Scope Z_scope.
Local Open Scope c_scope.

(** ** The life of a CBB *)

Section life.
Context `{Allocator}.

(** A local CBB on the heap, and one on the [n] bytes at [p]. *)
Definition build_heap (f : Z -> cbb_m (option unit)) (cap : Z) : cbb_m (option (Z * Z)) :=
  with_cbb (fun a => must CBB_init a cap ;; must f a ;; CBB_finish a true).
Definition build_fixed (f : Z -> cbb_m (option unit)) (p n : Z) : cbb_m (option (Z * Z)) :=
  with_cbb (fun a => must CBB_init_fixed a p n ;; must f a ;; CBB_finish a true).

(** The store with one more object, the top one. *)
Definition plus (s : cbb_store) (o : option cbb) : cbb_store :=
  Store (<[next_obj s := o]> (objs s)) (next_obj s + 1).

Lemma plus_wf s o : wf s -> 0 < next_obj s -> wf (plus s o).
Proof.
  intros Hwf Hn x d. unfold plus. cbn. destruct (decide (x = next_obj s)) as [->|]; [lia|].
  rewrite lookup_insert_ne by done. intros Hx. apply Hwf in Hx. lia.
Qed.
Lemma plus_obj s c : obj (plus s (Some c)) (next_obj s) c.
Proof. apply lookup_insert_eq. Qed.
Lemma plus_upd s o c : upd (plus s o) (next_obj s) c = plus s (Some c).
Proof. unfold upd, plus. cbn. by rewrite insert_insert_eq. Qed.

(** [f] and [CBB_finish] on a fresh base CBB. *)
Lemma spec_fill_finish f data b s w :
  emits f data -> wf s -> 0 < next_obj s -> good w b [] ->
  let a := next_obj s in
  spec False False (must f a ;; CBB_finish a true)
    (fun o s' w' => exists b', frame w b w' b' /\
       match o with
       | Some (p, n) => p = buf b' /\ n = Z.of_nat (length data) /\ good w' b' data
       | None => may_fail b (Z.of_nat (length data))
       end) (plus s (Some (Cbb 0 (UBase b)))) w.
Proof.
  intros Hf Hwf Hn Hg a. pose proof (plus_wf s (Some (Cbb 0 (UBase b))) Hwf Hn) as Hwf1.
  apply spec_bindo. eapply spec_mono.
  { eapply Hf; [exact Hwf1|apply plus_obj|exact Hg|by left]. }
  intros [[]|] s1 w1 (b1 & Hob & Hfr & Hr); cbv beta iota; [|exists b1; by destruct Hr].
  pose proof (only_obj _ _ _ _ _ Hob) as Ho.
  pose proof (only_wf _ _ _ _ _ _ (plus_obj s _) Hob Hwf1) as Hwf2.
  unfold CBB_finish. apply spec_bind. eapply spec_get_cbb; [exact Ho|]. cbn [is_child u].
  apply spec_bindo. eapply spec_flush_handle; [exact Hwf2|exact Ho|apply Hr|by left|].
  apply spec_bind. eapply spec_get_buffer; [exact Ho|]. cbn [negb]. rewrite andb_false_r.
  apply spec_bind. eapply spec_set_buffer; [exact Ho|]. apply spec_bind.
  unfold CBB_cleanup. apply spec_bind. eapply spec_get_cbb; [apply obj_upd_eq|]. cbn [u can_resize buf].
  assert (forall Q : unit -> cbb_store -> world -> Prop, forall s w, Q tt s w ->
    spec False False (if can_resize b1 then m_free 0 else ret tt) Q s w) as Hfree.
  { intros Q s' w' HQ. destruct (can_resize b1); [|by apply spec_ret]. exact HQ. }
  apply Hfree, spec_ret. exists b1. split; [done|]. split; [done|].
  split; [|exact Hr]. rewrite (g_len _ _ _ Hr). done.
Qed.

Lemma spec_with_new {A} (k : Z -> cbb_m A) (Q : A -> world -> Prop) s w :
  spec False False (k (next_obj s)) (fun o _ w' => Q o w') (plus s None) w ->
  spec False False (with_cbb k) (fun o _ w' => Q o w') s w.
Proof.
  intros Hk. unfold with_cbb. apply spec_bind, spec_get_stream, spec_bind, spec_put_stream.
  apply spec_bind. eapply spec_mono; [exact Hk|]. intros o s' w' HQ.
  by apply spec_bind, spec_get_stream, spec_bind, spec_put_stream, spec_ret.
Qed.

(** In a buffer of the caller: it works exactly when the bytes fit. *)
Lemma spec_build_fixed f data p n s w :
  emits f data -> wf s -> 0 < next_obj s -> 0 <= n < 2 ^ 64 -> accessible (w_mem w) p n ->
  spec False False (build_fixed f p n)
    (fun o _ w' =>
       (forall x, outside p n x -> w_mem w !! x <> None -> w_mem w' !! x = w_mem w !! x) /\
       match o with
       | Some (q, k) => q = p /\ k = Z.of_nat (length data) /\ k <= n /\
                        load (w_mem w') p (length data) = Some data
       | None => n < Z.of_nat (length data)
       end) s w.
Proof.
  intros Hf Hwf Hn Hr Ha.
  apply (spec_with_new _ (fun o w' =>
    (forall x, outside p n x -> w_mem w !! x <> None -> w_mem w' !! x = w_mem w !! x) /\
    match o with
    | Some (q, k) => q = p /\ k = Z.of_nat (length data) /\ k <= n /\
                     load (w_mem w') p (length data) = Some data
    | None => n < Z.of_nat (length data)
    end)).
  apply spec_bindo. unfold CBB_init_fixed, CBB_zero, cbb_init. apply spec_bind.
  apply spec_set_cbb; [eexists; apply lookup_insert_eq|]. apply spec_bind.
  apply spec_set_cbb; [eexists; apply lookup_insert_eq|]. apply spec_ret.
  rewrite upd_upd, plus_upd. set (b := Buffer p 0 n false false).
  eapply spec_mono; [apply (spec_fill_finish f data b s w); [done..|]|].
  { split; cbn; try done; lia. }
  intros o s' w' (b' & (Hfr & Hcr & Hcap) & Hres). cbn in Hcap, Hfr, Hcr.
  destruct (Hcap eq_refl) as [Hc Hb]. split; [intros x Hx1 Hx2; by apply Hfr|].
  destruct o as [[q k]|].
  - destruct Hres as (-> & -> & Hg). split; [done|]. split; [done|].
    pose proof (g_cap _ _ _ Hg). pose proof (g_len _ _ _ Hg). pose proof (g_load _ _ _ Hg) as Hl.
    rewrite Hb in Hl. split; [lia|done].
  - destruct Hres as [Hm|Hm]; [done|]. cbn in Hm. lia.
Qed.

(** On the heap: a block of its own with the bytes at its front. *)
Lemma spec_build_heap f data cap s w :
  emits f data -> wf s -> 0 < next_obj s -> 0 <= cap < 2 ^ 64 ->
  spec False False (build_heap f cap)
    (fun o _ w' =>
       (forall x, w_mem w !! x <> None -> w_mem w' !! x = w_mem w !! x) /\
       match o with
       | Some (q, k) => k = Z.of_nat (length data) /\
           load (w_mem w') q (length data) = Some data /\
           exists size, k <= size /\ block q size w'
       | None => True
       end) s w.
Proof.
  intros Hf Hwf Hn Hr.
  apply (spec_with_new _ (fun o w' =>
    (forall x, w_mem w !! x <> None -> w_mem w' !! x = w_mem w !! x) /\
    match o with
    | Some (q, k) => k = Z.of_nat (length data) /\
        load (w_mem w') q (length data) = Some data /\ exists size, k <= size /\ block q size w'
    | None => True
    end)).
  apply spec_bindo. unfold CBB_init, CBB_zero, cbb_init. apply spec_bind.
  apply spec_set_cbb; [eexists; apply lookup_insert_eq|]. apply spec_bind.
  eapply (spec_realloc _ _ 0 0 cap []); [by left|lia|done|done|].
  intros a w1 _ H0 H1. destruct ((0 <? cap) && (a =? 0)) eqn:E.
  { apply andb_true_iff in E as [_ E]. apply Z.eqb_eq in E. apply spec_ret. by rewrite (H0 E). }
  apply spec_bind. apply spec_set_cbb; [eexists; apply lookup_insert_eq|]. apply spec_ret.
  rewrite upd_upd, plus_upd. set (b := Buffer a 0 cap true false).
  assert (good w1 b [] /\ (forall x, w_mem w !! x <> None ->
    outside a cap x /\ w_mem w1 !! x = w_mem w !! x)) as [Hg Hw1].
  { destruct (decide (a = 0)) as [Ea|Ea].
    - assert (cap = 0) as Ec.
      { apply andb_false_iff in E as [E|E]; [apply Z.ltb_ge in E; lia|by apply Z.eqb_neq in E]. }
      rewrite (H0 Ea). split; [|intros x _; split; [unfold outside; lia|done]].
      split; cbn; try done; [intros i Hi; lia|]. intros _. left. by rewrite Ea.
    - destruct (H1 Ea) as (A1 & A2 & A3 & A4 & A5 & A6 & _). split.
      + split; cbn; try done. intros _. by right.
      + intros x Hx. apply A6; [unfold outside; lia|done]. }
  eapply spec_mono; [by apply (spec_fill_finish f data b s w1)|].
  intros o s' w' (b' & (Hfr & Hcr & _) & Hres). cbn in Hfr, Hcr. split.
  - intros x Hx. destruct (Hw1 x Hx) as [Ho Ex]. rewrite <- Ex in Hx |- *. by apply Hfr.
  - destruct o as [[q k]|]; [|done]. destruct Hres as (-> & -> & Hg'). split; [done|].
    split; [apply Hg'|]. pose proof (g_cap _ _ _ Hg'). pose proof (g_len _ _ _ Hg').
    exists (Cbb.cap b'). split; [lia|]. by apply Hg'.
Qed.

End life.

(** ** The contract *)

(** For the values that satisfy [ok]: [write] appends [enc] of the value, and [read]
    takes it off and returns the value. *)
Class Codec `{Allocator} {A : Type} (ok : A -> Prop) (write : A -> Z -> cbb_m (option unit))
    (read : parser A) (enc : A -> bytes) : Prop := {
  codec_write v : ok v -> emits (write v) (enc v);
  codec_read v r : ok v -> read (enc v ++ r) = (Some v, r)
}.

Definition below (n : nat) (v : Z) : Prop := 0 <= v < 256 ^ Z.of_nat n.

Section codecs.
Context `{Allocator}.

Lemma get_u_be n v r :
  (n <= 8)%nat -> below n v -> cbs_get_u (Z.of_nat n) (be_bytes n v ++ r) = (Some v, r).
Proof.
  intros Hn Hv. pose proof (cbs_get_u_app (be_bytes n v) r (be_bytes_ok n v)) as E.
  rewrite length_be_bytes, be_val_bytes, Z.mod_small in E by exact Hv. by apply E.
Qed.

(** *** Integers of fixed width *)

#[export] Instance u8_codec :
  Codec (below 1) (fun v a => CBB_add_u8 a v) CBS_get_u8 (fun v => [v]).
Proof. split; intros v; [|done]. intros Hv. apply emits_u8. exact Hv. Qed.

#[export] Instance u16_codec :
  Codec (below 2) (fun v a => CBB_add_u16 a v) CBS_get_u16 (be_bytes 2).
Proof.
  split; intros v.
  - intros Hv. unfold CBB_add_u16, u16. rewrite wrap_small by (exact Hv || lia).
    apply emits_add_u; [lia|exact Hv].
  - intros r Hv. unfold CBS_get_u16, pbind. rewrite (get_u_be 2) by (lia || done).
    unfold pret, u16. by rewrite wrap_small by (exact Hv || lia).
Qed.

#[export] Instance u24_codec :
  Codec (below 3) (fun v a => CBB_add_u24 a v) CBS_get_u24 (be_bytes 3).
Proof.
  assert (forall v, below 3 v -> u32 v = v) as E.
  { intros v Hv. unfold u32. unfold below in Hv. rewrite wrap_small; [done|].
    change (256 ^ Z.of_nat 3) with (2 ^ 24) in Hv. lia. }
  split; intros v.
  - intros Hv. unfold CBB_add_u24. rewrite E by done. apply emits_add_u; [lia|exact Hv].
  - intros r Hv. unfold CBS_get_u24, pbind. rewrite (get_u_be 3) by (lia || done).
    unfold pret. by rewrite E.
Qed.

#[export] Instance u32_codec :
  Codec (below 4) (fun v a => CBB_add_u32 a v) CBS_get_u32 (be_bytes 4).
Proof.
  split; intros v.
  - intros Hv. unfold CBB_add_u32, u32. rewrite wrap_small by (exact Hv || lia).
    apply emits_add_u; [lia|exact Hv].
  - intros r Hv. unfold CBS_get_u32, pbind. rewrite (get_u_be 4) by (lia || done).
    unfold pret, u32. by rewrite wrap_small by (exact Hv || lia).
Qed.

#[export] Instance u64_codec :
  Codec (below 8) (fun v a => CBB_add_u64 a v) CBS_get_u64 (be_bytes 8).
Proof.
  split; intros v.
  - intros Hv. unfold CBB_add_u64, u64. rewrite wrap_small by (exact Hv || lia).
    apply emits_add_u; [lia|exact Hv].
  - intros r Hv. apply (get_u_be 8); [lia|done].
Qed.

(** The little-endian ones. *)
#[export] Instance u16le_codec :
  Codec (below 2) (fun v a => CBB_add_u16le a v) CBS_get_u16le (le_bytes 2).
Proof.
  split; intros v.
  - intros Hv. unfold CBB_add_u16le, u16. rewrite wrap_small by (exact Hv || lia).
    rewrite <- bswap2_bytes by exact Hv. apply (codec_write (Codec := u16_codec)).
    apply (wrap_range 16). lia.
  - intros r Hb. unfold CBS_get_u16le, pbind. rewrite <- bswap2_bytes by exact Hb.
    rewrite (codec_read (Codec := u16_codec)) by (apply (wrap_range 16); lia). unfold pret.
    by rewrite bswap2_involutive.
Qed.

#[export] Instance u32le_codec :
  Codec (below 4) (fun v a => CBB_add_u32le a v) CBS_get_u32le (le_bytes 4).
Proof.
  split; intros v.
  - intros Hv. unfold CBB_add_u32le, u32. rewrite wrap_small by (exact Hv || lia).
    rewrite <- bswap4_bytes by exact Hv. apply (codec_write (Codec := u32_codec)). by apply bswap4_range.
  - intros r Hv. unfold CBS_get_u32le, pbind. rewrite <- bswap4_bytes by exact Hv.
    rewrite (codec_read (Codec := u32_codec)) by (by apply bswap4_range). unfold pret. by rewrite bswap4_involutive.
Qed.

#[export] Instance u64le_codec :
  Codec (below 8) (fun v a => CBB_add_u64le a v) CBS_get_u64le (le_bytes 8).
Proof.
  split; intros v.
  - intros Hv. unfold CBB_add_u64le, u64. rewrite wrap_small by (exact Hv || lia).
    rewrite <- bswap8_bytes by exact Hv. apply (codec_write (Codec := u64_codec)). by apply bswap8_range.
  - intros r Hv. unfold CBS_get_u64le, pbind. rewrite <- bswap8_bytes by exact Hv.
    change (cbs_get_u 8) with (cbs_get_u (Z.of_nat 8)).
    rewrite (get_u_be 8) by (lia || by apply bswap8_range). unfold pret.
    by rewrite bswap8_involutive.
Qed.

(** *** ASN.1 *)

#[export] Instance uint64_codec :
  Codec (below 8) (fun v a => CBB_add_asn1_uint64 a v) CBS_get_asn1_uint64
    (fun v => der CBS_ASN1_INTEGER (int_bytes v)).
Proof.
  split; intros v.
  - intros Hv. apply emits_uint64_with_tag; [exact Hv|unfold CBS_ASN1_INTEGER; lia].
  - intros r Hv. by apply get_uint64_app.
Qed.

Definition int64_range (v : Z) : Prop := - 2 ^ 63 <= v < 2 ^ 63.

#[export] Instance int64_codec :
  Codec int64_range (fun v a => CBB_add_asn1_int64 a v) CBS_get_asn1_int64
    (fun v => der CBS_ASN1_INTEGER (int_bytes v)).
Proof.
  split; intros v.
  - intros Hv. apply emits_int64_with_tag; [exact Hv|unfold CBS_ASN1_INTEGER; lia].
  - intros r Hv. by apply get_int64_app.
Qed.

#[export] Instance bool_codec :
  Codec (fun _ => True) (fun v a => CBB_add_asn1_bool a v) CBS_get_asn1_bool
    (fun v : bool => der CBS_ASN1_BOOLEAN [if v then 255 else 0]).
Proof.
  split; intros v.
  - intros _. apply emits_bool.
  - intros r _. unfold CBS_get_asn1_bool, pbind.
    rewrite get_asn1_app by (apply valid_tag_small; unfold CBS_ASN1_BOOLEAN; lia) || (cbn; lia).
    by destruct v.
Qed.

(** Contents that the length octets of CBB can count. *)
Definition short (data : bytes) : Prop := Z.of_nat (length data) <= 0xfffffffe.

#[export] Instance octet_string_codec :
  Codec short (fun v a => CBB_add_asn1_octet_string a v) (CBS_get_asn1 CBS_ASN1_OCTETSTRING)
    (der CBS_ASN1_OCTETSTRING).
Proof.
  split; intros v.
  - intros Hv. by apply emits_octet_string.
  - intros r Hv. apply get_asn1_app; [apply valid_tag_small; unfold CBS_ASN1_OCTETSTRING; lia|].
    unfold short in Hv. lia.
Qed.

(** *** Combinations *)

Context {A B : Type} (okA : A -> Prop) (wA : A -> Z -> cbb_m (option unit)) (rA : parser A)
  (eA : A -> bytes) (okB : B -> Prop) (wB : B -> Z -> cbb_m (option unit)) (rB : parser B)
  (eB : B -> bytes) {CA : Codec okA wA rA eA} {CB : Codec okB wB rB eB}.

(** One after the other. *)
#[export] Instance pair_codec :
  Codec (fun v => okA (fst v) /\ okB (snd v))
    (fun v a => must wA (fst v) a ;; wB (snd v) a)
    (pbind rA (fun x => pbind rB (fun y => pret (x, y))))
    (fun v => eA (fst v) ++ eB (snd v)).
Proof.
  split; intros [x y]; cbn [fst snd].
  - intros [Hx Hy]. apply emits_seq; by apply (codec_write (A := _)).
  - intros r [Hx Hy]. unfold pbind. rewrite <- app_assoc, codec_read by done.
    by rewrite codec_read.
Qed.

(** Inside an ASN.1 element, of which the reader wants nothing else. *)
#[export] Instance element_codec tag :
  Codec (fun v => valid_tag tag /\ okA v /\ short (eA v))
    (fun v a => with_cbb (fun c =>
       or_error a (must CBB_add_asn1 a c tag ;; must wA v c ;; CBB_flush a)))
    (pbind (CBS_get_asn1 tag) (fun child => plift (whole rA child)))
    (fun v => der tag (eA v)).
Proof.
  split; intros v.
  - intros ([Ht _] & Hv & Hs). apply emits_element_goto; [done|by apply codec_write|done].
  - intros r (Ht & Hv & Hs). unfold short in Hs. unfold pbind. rewrite get_asn1_app by (done || lia).
    unfold plift, whole. rewrite <- (app_nil_r (eA v)), codec_read by done. done.
Qed.

(** Behind a length of [n] bytes. *)
#[export] Instance length_prefixed_codec (n : nat) :
  Codec (fun v => (n <= 8)%nat /\ okA v /\ below n (Z.of_nat (length (eA v))))
    (fun v a => with_cbb (fun c =>
       or_error a (must cbb_add_length_prefixed a c (Z.of_nat n) ;; must wA v c ;; CBB_flush a)))
    (pbind (cbs_get_length_prefixed (Z.of_nat n)) (fun child => plift (whole rA child)))
    (fun v => be_bytes n (Z.of_nat (length (eA v))) ++ eA v).
Proof.
  split; intros v.
  - intros (Hn & Hv & Hl). eapply emits_run.
    { intros a. apply with_cbb_run. intros c. apply or_error_shape. }
    apply (emits_nested true (fun a c => cbb_add_length_prefixed a c (Z.of_nat n)) (wA v) []
      n false).
    + apply opens_length_prefixed. lia.
    + by apply codec_write.
    + done.
    + unfold prefix_of. rewrite Nat2Z.id, (proj2 (Z.ltb_lt _ _)) by apply Hl. done.
  - intros r (Hn & Hv & Hl). unfold pbind, cbs_get_length_prefixed, pbind.
    rewrite <- app_assoc, get_u_be by done. unfold CBS_get_bytes. rewrite cbs_get_app.
    unfold plift, whole. by rewrite <- (app_nil_r (eA v)), codec_read by done.
Qed.
End codecs.

(** ** Formats *)

(** What a program writes: the functions it calls and how it nests them. *)
Inductive format :=
| FU8 | FU16 | FU24 | FU32 | FU64 | FU16le | FU32le | FU64le
| FBytes (n : nat)
| FUint64 | FInt64 | FBool | FOctetString
| FU8Prefixed (f : format) | FU16Prefixed (f : format) | FU24Prefixed (f : format)
| FElement (tag : Z) (f : format)
| FPair (f g : format).

Fixpoint value (f : format) : Type :=
  match f with
  | FU8 | FU16 | FU24 | FU32 | FU64 | FU16le | FU32le | FU64le | FUint64 | FInt64 => Z
  | FBytes _ | FOctetString => bytes
  | FBool => bool
  | FU8Prefixed f | FU16Prefixed f | FU24Prefixed f | FElement _ f => value f
  | FPair f g => value f * value g
  end.

(** The bytes that stand for a value. *)
Fixpoint encode (f : format) : value f -> bytes :=
  match f with
  | FU8 => fun v => [v]
  | FU16 => be_bytes 2
  | FU24 => be_bytes 3
  | FU32 => be_bytes 4
  | FU64 => be_bytes 8
  | FU16le => le_bytes 2
  | FU32le => le_bytes 4
  | FU64le => le_bytes 8
  | FBytes _ => fun v => v
  | FUint64 | FInt64 => fun v => der CBS_ASN1_INTEGER (int_bytes v)
  | FBool => fun v : bool => der CBS_ASN1_BOOLEAN [if v then 255 else 0]
  | FOctetString => der CBS_ASN1_OCTETSTRING
  | FU8Prefixed f => fun v => be_bytes 1 (Z.of_nat (length (encode f v))) ++ encode f v
  | FU16Prefixed f => fun v => be_bytes 2 (Z.of_nat (length (encode f v))) ++ encode f v
  | FU24Prefixed f => fun v => be_bytes 3 (Z.of_nat (length (encode f v))) ++ encode f v
  | FElement tag f => fun v => der tag (encode f v)
  | FPair f g => fun v => encode f (fst v) ++ encode g (snd v)
  end.

(** The values that have an encoding: numbers of the width, contents that the length
    octets can count. *)
Fixpoint fits (f : format) : value f -> Prop :=
  match f with
  | FU8 => below 1
  | FU16 | FU16le => below 2
  | FU24 => below 3
  | FU32 | FU32le => below 4
  | FU64 | FU64le | FUint64 => below 8
  | FBytes n => fun v => length v = n /\ Z.of_nat n < 2 ^ 64
  | FInt64 => int64_range
  | FBool => fun _ => True
  | FOctetString => short
  | FU8Prefixed f => fun v => fits f v /\ below 1 (Z.of_nat (length (encode f v)))
  | FU16Prefixed f => fun v => fits f v /\ below 2 (Z.of_nat (length (encode f v)))
  | FU24Prefixed f => fun v => fits f v /\ below 3 (Z.of_nat (length (encode f v)))
  | FElement tag f => fun v => valid_tag tag /\ fits f v /\ short (encode f v)
  | FPair f g => fun v => fits f (fst v) /\ fits g (snd v)
  end.

(** A child, its contents and the flush, with the error set if any of them fails: as
    the functions of cbb.c that build elements do it. *)
Definition in_child `{Allocator} (add : Z -> Z -> cbb_m (option unit)) (f : Z -> cbb_m (option unit))
    (a : Z) : cbb_m (option unit) :=
  with_cbb (fun c => or_error a (must add a c ;; must f c ;; CBB_flush a)).

Fixpoint write `{Allocator} (f : format) : value f -> Z -> cbb_m (option unit) :=
  match f with
  | FU8 => fun v a => CBB_add_u8 a v
  | FU16 => fun v a => CBB_add_u16 a v
  | FU24 => fun v a => CBB_add_u24 a v
  | FU32 => fun v a => CBB_add_u32 a v
  | FU64 => fun v a => CBB_add_u64 a v
  | FU16le => fun v a => CBB_add_u16le a v
  | FU32le => fun v a => CBB_add_u32le a v
  | FU64le => fun v a => CBB_add_u64le a v
  | FBytes _ => fun v a => CBB_add_bytes a v
  | FUint64 => fun v a => CBB_add_asn1_uint64 a v
  | FInt64 => fun v a => CBB_add_asn1_int64 a v
  | FBool => fun v a => CBB_add_asn1_bool a v
  | FOctetString => fun v a => CBB_add_asn1_octet_string a v
  | FU8Prefixed f => fun v => in_child CBB_add_u8_length_prefixed (write f v)
  | FU16Prefixed f => fun v => in_child CBB_add_u16_length_prefixed (write f v)
  | FU24Prefixed f => fun v => in_child CBB_add_u24_length_prefixed (write f v)
  | FElement tag f => fun v => in_child (fun a c => CBB_add_asn1 a c tag) (write f v)
  | FPair f g => fun v a => must write f (fst v) a ;; write g (snd v) a
  end.

(** The contents of a child are all used up. *)
Fixpoint read (f : format) : parser (value f) :=
  match f with
  | FU8 => CBS_get_u8
  | FU16 => CBS_get_u16
  | FU24 => CBS_get_u24
  | FU32 => CBS_get_u32
  | FU64 => CBS_get_u64
  | FU16le => CBS_get_u16le
  | FU32le => CBS_get_u32le
  | FU64le => CBS_get_u64le
  | FBytes n => CBS_get_bytes (Z.of_nat n)
  | FUint64 => CBS_get_asn1_uint64
  | FInt64 => CBS_get_asn1_int64
  | FBool => CBS_get_asn1_bool
  | FOctetString => CBS_get_asn1 CBS_ASN1_OCTETSTRING
  | FU8Prefixed f => pbind CBS_get_u8_length_prefixed (fun child => plift (whole (read f) child))
  | FU16Prefixed f => pbind CBS_get_u16_length_prefixed (fun child => plift (whole (read f) child))
  | FU24Prefixed f => pbind CBS_get_u24_length_prefixed (fun child => plift (whole (read f) child))
  | FElement tag f => pbind (CBS_get_asn1 tag) (fun child => plift (whole (read f) child))
  | FPair f g => pbind (read f) (fun x => pbind (read g) (fun y => pret (x, y)))
  end.

Lemma codec_weaken `{Allocator} {A} (ok ok' : A -> Prop) wr rd enc :
  Codec ok wr rd enc -> (forall v, ok' v -> ok v) -> Codec ok' wr rd enc.
Proof.
  intros HC Hok. split; intros; [apply (codec_write (Codec := HC))|apply (codec_read (Codec := HC))]; auto.
Qed.

(** Every format keeps the contract. *)
Lemma format_codec `{Allocator} f : Codec (fits f) (write f) (read f) (encode f).
Proof.
  assert (forall (n : nat) f, (n <= 8)%nat -> Codec (fits f) (write f) (read f) (encode f) ->
    Codec (fun v => fits f v /\ below n (Z.of_nat (length (encode f v))))
      (fun v => in_child (fun a c => cbb_add_length_prefixed a c (Z.of_nat n)) (write f v))
      (pbind (cbs_get_length_prefixed (Z.of_nat n)) (fun child => plift (whole (read f) child)))
      (fun v => be_bytes n (Z.of_nat (length (encode f v))) ++ encode f v)) as Hprefixed.
  { intros n g Hn HC. eapply codec_weaken; [exact (length_prefixed_codec _ _ _ _ n)|]. cbn. by intros v []. }
  induction f as [| | | | | | | |n| | | | |f IH|f IH|f IH|tag f IH|f IHf g IHg];
    cbn [fits write read encode value].
  - exact u8_codec.
  - exact u16_codec.
  - exact u24_codec.
  - exact u32_codec.
  - exact u64_codec.
  - exact u16le_codec.
  - exact u32le_codec.
  - exact u64le_codec.
  - split; cbn; intros v; [intros [Hl Hn]; apply emits_bytes; lia|].
    intros r [<- _]. apply cbs_get_app.
  - exact uint64_codec.
  - exact int64_codec.
  - exact bool_codec.
  - exact octet_string_codec.
  - apply (Hprefixed 1%nat f); [lia|done].
  - apply (Hprefixed 2%nat f); [lia|done].
  - apply (Hprefixed 3%nat f); [lia|done].
  - exact (element_codec _ _ _ _ tag (CA := IH)).
  - exact (pair_codec _ _ _ _ _ _ _ _ (CA := IHf) (CB := IHg)).
Qed.

(** ** What the contract gives *)

Section roundtrip.
Context `{Allocator}.

(** C21: What is written with CBB is read with CBS.  Whatever the format, from an integer
    to elements in elements behind length prefixes, and whatever value fits it: written
    into the [n] bytes at [p] of the caller, with [CBB_init_fixed] and [CBB_finish], the
    call is never undefined, succeeds exactly when the encoding has at most [n] bytes,
    touches nothing outside the [n] bytes, and leaves the encoding at their front;
    and the reader gets the value back from the encoding, whatever follows it. *)
Theorem format_roundtrip f v p n s w :
  fits f v -> wf s -> 0 < next_obj s -> 0 <= n < 2 ^ 64 -> accessible (w_mem w) p n ->
  spec False False (build_fixed (write f v) p n)
    (fun o _ w' =>
       (forall x, outside p n x -> w_mem w !! x <> None -> w_mem w' !! x = w_mem w !! x) /\
       (is_Some o <-> Z.of_nat (length (encode f v)) <= n) /\
       forall q k, o = Some (q, k) -> q = p /\ k = Z.of_nat (length (encode f v)) /\
         load (w_mem w') p (length (encode f v)) = Some (encode f v)) s w /\
  forall r, read f (encode f v ++ r) = (Some v, r).
Proof.
  intros Hv Hwf Hn Hr Ha. pose proof (format_codec f) as HC. split; [|intros r; by apply codec_read].
  eapply spec_mono.
  { apply (spec_build_fixed (write f v) (encode f v)); try done. by apply codec_write. }
  intros [[q k]|] s' w' [Hfr Hres]; (split; [done|]).
  - destruct Hres as (-> & -> & Hk & Hl). split; [split; [lia|by eexists]|]. by intros q k [= <- <-].
  - split; [|done]. split; [by intros []|lia].
Qed.

(** the life of a CBB on the heap ([CBB_init], anything that appends [data],
    [CBB_finish]): unless memory runs out, what is handed out is a live block of its
    own that starts with [data]; nothing that was allocated before is touched, and
    growing the buffer on the way loses nothing. *)
Theorem heap_life f data cap s w :
  emits f data -> wf s -> 0 < next_obj s -> 0 <= cap < 2 ^ 64 ->
  spec False False (build_heap f cap)
    (fun o _ w' =>
       (forall x, w_mem w !! x <> None -> w_mem w' !! x = w_mem w !! x) /\
       forall q k, o = Some (q, k) -> k = Z.of_nat (length data) /\
           load (w_mem w') q (length data) = Some data /\
           exists size, k <= size /\ block q size w') s w.
Proof.
  intros Hf Hwf Hn Hr. eapply spec_mono; [by apply spec_build_heap|].
  intros [[q k]|] s' w' [Hfr Hres]; (split; [done|]); [|done]. by intros q' k' [= <- <-].
Qed.

(** an element built in a child CBB.  Whatever the body appends to the child,
    [CBB_flush] of the parent turns it into the DER element of the tag with these
    contents, with length octets of one to five bytes put in front by moving the
    contents; at any depth, since this again appends. *)
Theorem element_is_der tag f data :
  0 <= tag < 2 ^ 32 -> emits f data -> Z.of_nat (length data) <= 0xfffffffe ->
  emits (fun a => with_cbb (fun c =>
      or_error a (must CBB_add_asn1 a c tag ;; must f c ;; CBB_flush a))) (der tag data).
Proof. apply emits_element_goto. Qed.

(** signed INTEGERs.  [CBB_add_asn1_int64] appends the shortest DER encoding, and
    [CBS_get_asn1_int64] reads the number back from it. *)
Theorem int64_roundtrip v :
  - 2 ^ 63 <= v < 2 ^ 63 ->
  exists bs, emits (fun a => CBB_add_asn1_int64 a v) (der CBS_ASN1_INTEGER bs) /\
    int_digits (length bs) v /\
    forall r, CBS_get_asn1_int64 (der CBS_ASN1_INTEGER bs ++ r) = (Some v, r).
Proof.
  intros Hv. exists (int_bytes v). split; [by apply (codec_write (Codec := int64_codec))|].
  split; [|intros r; by apply (codec_read (Codec := int64_codec))].
  unfold int_bytes. rewrite length_be_bytes. apply int_len_digits. lia.
Qed.

(** the little-endian functions append and read the bytes of the number least
    significant first, although they are made of byte swaps and the big-endian
    functions. *)
Theorem little_endian v r :
  0 <= v < 2 ^ 64 ->
  emits (fun a => CBB_add_u16le a (v mod 2 ^ 16)) (le_bytes 2 (v mod 2 ^ 16)) /\
  emits (fun a => CBB_add_u32le a (v mod 2 ^ 32)) (le_bytes 4 (v mod 2 ^ 32)) /\
  emits (fun a => CBB_add_u64le a v) (le_bytes 8 v) /\
  CBS_get_u16le (le_bytes 2 (v mod 2 ^ 16) ++ r) = (Some (v mod 2 ^ 16), r) /\
  CBS_get_u32le (le_bytes 4 (v mod 2 ^ 32) ++ r) = (Some (v mod 2 ^ 32), r) /\
  CBS_get_u64le (le_bytes 8 v ++ r) = (Some v, r).
Proof.
  intros Hv. assert (below 2 (v mod 2 ^ 16)) by (apply Z.mod_pos_bound; lia).
  assert (below 4 (v mod 2 ^ 32)) by (apply Z.mod_pos_bound; lia).
  split; [by apply (codec_write (Codec := u16le_codec))|].
  split; [by apply (codec_write (Codec := u32le_codec))|].
  split; [by apply (codec_write (Codec := u64le_codec))|].
  split; [by apply (codec_read (Codec := u16le_codec))|].
  split; [by apply (codec_read (Codec := u32le_codec))|].
  by apply (codec_read (Codec := u64le_codec)).
Qed.

(** a 16-bit length prefix.  Contents of less than 2^16 bytes built in the child of
    [CBB_add_u16_length_prefixed] are what [CBS_get_u16_length_prefixed] takes off. *)
Theorem u16_length_prefix f data r :
  emits f data -> Z.of_nat (length data) < 2 ^ 16 ->
  exists pre, emits (fun a => with_cbb (fun c =>
      or_error a (must CBB_add_u16_length_prefixed a c ;; must f c ;; CBB_flush a)))
    (pre ++ data) /\ length pre = 2%nat /\
    CBS_get_u16_length_prefixed ((pre ++ data) ++ r) = (Some data, r).
Proof.
  intros Hf Hd. exists (be_bytes 2 (Z.of_nat (length data))).
  assert (below 2 (Z.of_nat (length data))) as Hb by (unfold below; cbn; lia).
  split; [|split; [done|]].
  - eapply emits_run.
    { intros a. apply with_cbb_run. intros c. apply or_error_shape. }
    apply (emits_nested true (fun a c => cbb_add_length_prefixed a c (Z.of_nat 2)) f [] 2 false).
    + apply opens_length_prefixed. lia.
    + done.
    + done.
    + unfold prefix_of. rewrite Nat2Z.id, (proj2 (Z.ltb_lt _ _)) by apply Hb. done.
  - unfold CBS_get_u16_length_prefixed, cbs_get_length_prefixed, pbind.
    rewrite <- app_assoc, (get_u_be 2) by (lia || done). apply cbs_get_app.
Qed.

End roundtrip.

(** ** Instances: no objects yet, and 16 bytes at 2000 *)

Definition no_objects : cbb_store := Store ∅ 1.
Definition world16 : world := world_of 1000 [] 2000 16.

Lemma no_objects_wf : wf no_objects.
Proof. intros x o Hx. done. Qed.

(** A SEQUENCE of a raw byte, a negative INTEGER and a string behind its length, in
    16 bytes; then a byte follows. *)
Definition CBS_ASN1_SEQUENCE : Z := Z.lor 0x10 CBS_ASN1_CONSTRUCTED.
Definition demo_format : format :=
  FElement CBS_ASN1_SEQUENCE (FPair FU8 (FPair FInt64 (FU16Prefixed (FBytes 3)))).
Definition demo : value demo_format := (7, (-200, [1; 2; 3])).
Example demo_encoded : encode demo_format demo = [0x30; 10; 7; 2; 2; 0xff; 0x38; 0; 3; 1; 2; 3].
Proof. reflexivity. Qed.

Lemma demo_fits : fits demo_format demo.
Proof.
  cbn [fits demo_format demo fst snd]. unfold valid_tag, short, below, int64_range.
  repeat match goal with |- _ /\ _ => split end; vm_compute; try split; congruence.
Qed.
Lemma format_roundtrip_witness :
  spec False False (build_fixed (write demo_format demo) 2000 16)
    (fun o _ w' =>
       (forall x, outside 2000 16 x -> w_mem world16 !! x <> None -> w_mem w' !! x = w_mem world16 !! x) /\
       (is_Some o <-> Z.of_nat (length (encode demo_format demo)) <= 16) /\
       forall q k, o = Some (q, k) -> q = 2000 /\ k = Z.of_nat (length (encode demo_format demo)) /\
         load (w_mem w') 2000 (length (encode demo_format demo)) = Some (encode demo_format demo))
    no_objects world16 /\
  forall r, read demo_format (encode demo_format demo ++ r) = (Some demo, r).
Proof.
  apply (format_roundtrip demo_format demo 2000 16 no_objects world16).
  - apply demo_fits.
  - apply no_objects_wf.
  - reflexivity.
  - lia.
  - apply (world_of_accessible 1000 [] 2000 16).
Defined.

Lemma heap_life_witness :
  spec False False (build_heap (fun a => CBB_add_bytes a [1; 2; 3]) 1)
    (fun o _ w' =>
       (forall x, w_mem world16 !! x <> None -> w_mem w' !! x = w_mem world16 !! x) /\
       forall q k, o = Some (q, k) -> k = 3 /\
           load (w_mem w') q 3 = Some [1; 2; 3] /\
           exists size, k <= size /\ block q size w') no_objects world16.
Proof.
  apply (heap_life (fun a => CBB_add_bytes a [1; 2; 3]) [1; 2; 3] 1 no_objects world16);
    [apply emits_bytes; cbn; lia|apply no_objects_wf|reflexivity|lia].
Defined.

Lemma element_is_der_witness :
  emits (fun a => with_cbb (fun c =>
      or_error a (must CBB_add_asn1 a c 0x30000010 ;; must CBB_add_bytes c [1; 2] ;; CBB_flush a)))
    (der 0x30000010 [1; 2]).
Proof.
  apply (element_is_der 0x30000010 (fun c => CBB_add_bytes c [1; 2]) [1; 2]);
    [lia|apply emits_bytes; cbn; lia|cbn; lia].
Defined.

Lemma int64_roundtrip_witness :
  exists bs, emits (fun a => CBB_add_asn1_int64 a (-129)) (der CBS_ASN1_INTEGER bs) /\
    int_digits (length bs) (-129) /\
    forall r, CBS_get_asn1_int64 (der CBS_ASN1_INTEGER bs ++ r) = (Some (-129), r).
Proof. apply (int64_roundtrip (-129)). lia. Defined.

Lemma little_endian_witness :
  emits (fun a => CBB_add_u16le a 772) (le_bytes 2 772) /\
  emits (fun a => CBB_add_u32le a 16909060) (le_bytes 4 16909060) /\
  emits (fun a => CBB_add_u64le a 16909060) (le_bytes 8 16909060) /\
  CBS_get_u16le (le_bytes 2 772 ++ [9]) = (Some 772, [9]) /\
  CBS_get_u32le (le_bytes 4 16909060 ++ [9]) = (Some 16909060, [9]) /\
  CBS_get_u64le (le_bytes 8 16909060 ++ [9]) = (Some 16909060, [9]).
Proof. apply (little_endian 16909060 [9]). lia. Defined.

Lemma u16_length_prefix_witness :
  exists pre, emits (fun a => with_cbb (fun c =>
      or_error a (must CBB_add_u16_length_prefixed a c ;;
                  must CBB_add_bytes c [1; 2] ;; CBB_flush a))) (pre ++ [1; 2]) /\
    length pre = 2%nat /\
    CBS_get_u16_length_prefixed ((pre ++ [1; 2]) ++ [9]) = (Some [1; 2], [9]).
Proof.
  apply (u16_length_prefix (fun c => CBB_add_bytes c [1; 2]) [1; 2] [9]);
    [apply emits_bytes; cbn; lia|cbn; lia].
Defined.
