(* ===== verification/CbbError.v ===== *)
(** * BoringSSL: the error state of a CBB

    A failure of any CBB function marks the buffer, and no later call writes to it
    or hands it out. *)
From Stdlib Require Import ZArith Lia.
From stdpp Require Import prelude strings gmap list numbers.
From S2P Require Import Prelude CMem PbConcrete PosixTime Cbs Cbb Der.
From S2P Require Import DerInt CbbSpec CbbNest CbbCodec.
Local Open Scope Z_scope.
Local Open Scope c_scope.

Section error.
Context `{Allocator}.

(** [a] is a CBB, with or without an open child, on the buffer of [root]. *)
Definition on_buffer (s : cbb_store) (a root : Z) : Prop :=
  a = root \/ exists ch off pend is_asn1, obj s a (Cbb ch (UChild root off pend is_asn1)).

(** [m] fails and leaves everything as it was. *)
Definition refuses {A} (m : cbb_m (option A)) (s : cbb_store) (w : world) : Prop :=
  m s w = Ret (None, s, w).

Lemma refuses_bindo {A B} (m : cbb_m (option A)) (k : A -> cbb_m (option B)) s w :
  refuses m s w -> refuses (bindo m k) s w.
Proof. apply bindo_none_run. Qed.

Lemma refuses_flush s a root ch b w :
  obj s root (Cbb ch (UBase b)) -> root <> 0 -> error b = true -> on_buffer s a root ->
  refuses (CBB_flush a) s w.
Proof.
  intros Ho Hr He Ha. unfold refuses, CBB_flush, bind, get_stream. cbn [flush_rec].
  unfold cbb_get_base, bind, get_cbb, of_option, get_stream, bind.
  assert (mjoin (objs s !! root) = Some (Cbb ch (UBase b))) as Er by (unfold obj in Ho; by rewrite Ho).
  destruct Ha as [->|(ch' & off & pend & i & Hc)].
  - rewrite Er. cbn. rewrite (proj2 (Z.eqb_neq _ _) Hr). unfold get_buffer, get_cbb, bind.
    cbn. unfold of_option. rewrite Er. cbn. by rewrite He.
  - unfold obj in Hc. rewrite Hc. cbn. rewrite (proj2 (Z.eqb_neq _ _) Hr).
    unfold get_buffer, get_cbb, bind. cbn. unfold of_option. rewrite Er. cbn. by rewrite He.
Qed.

Lemma refuses_add_u s a root ch b w v n :
  obj s root (Cbb ch (UBase b)) -> root <> 0 -> error b = true -> on_buffer s a root ->
  refuses (cbb_add_u a v n) s w.
Proof. intros. apply refuses_bindo, refuses_bindo. by eapply refuses_flush. Qed.

(** C36: errors are sticky.  Once the error bit of a buffer is set, every function that
    would append to it, open a child on it or hand it out returns failure, and
    changes neither the buffer nor any CBB nor memory. *)
Theorem errors_stick s a root ch b w :
  obj s root (Cbb ch (UBase b)) -> root <> 0 -> error b = true -> on_buffer s a root ->
  refuses (CBB_flush a) s w /\
  (forall n, refuses (CBB_add_space a n) s w) /\
  (forall n, refuses (CBB_reserve a n) s w) /\
  (forall data, refuses (CBB_add_bytes a data) s w) /\
  (forall n, refuses (CBB_add_zeros a n) s w) /\
  (forall v, refuses (CBB_add_u8 a v) s w /\ refuses (CBB_add_u16 a v) s w /\
     refuses (CBB_add_u24 a v) s w /\ refuses (CBB_add_u32 a v) s w /\
     refuses (CBB_add_u64 a v) s w) /\
  (forall out n, refuses (cbb_add_length_prefixed a out n) s w) /\
  (forall out tag, refuses (CBB_add_asn1 a out tag) s w) /\
  (forall text, refuses (CBB_add_asn1_oid_from_text a text) s w) /\
  (forall wanted, refuses (CBB_finish root wanted) s w).
Proof.
  intros Ho Hr He Ha.
  assert (refuses (CBB_flush a) s w) as Hf by (by eapply refuses_flush).
  repeat apply conj; intros; try (repeat apply conj); try (by repeat apply refuses_bindo);
    try (by eapply refuses_add_u).
  unfold CBB_finish, refuses. unfold bind at 1. unfold get_cbb, get_stream, of_option, bind at 1.
  unfold bind at 1. unfold obj in Ho. rewrite Ho. cbn [mjoin option_join is_child u ret].
  cbn. apply refuses_bindo. eapply refuses_flush; [exact Ho|done|done|by left].
Qed.

(** a value that does not fit the width it is written in (a 24-bit field with
    more than 24 bits, say) makes the call fail and sets the error bit. *)
Theorem add_u_too_large v n a root ch b bs s w :
  (n <= 8)%nat -> 256 ^ Z.of_nat n <= v ->
  wf s -> obj s root (Cbb ch (UBase b)) -> good w b bs -> handle s a root ch ->
  spec False False (cbb_add_u a v n)
    (fun o s' w' => o = None /\
       exists b', only_buffer s root ch b' s' /\ frame w b w' b' /\ error b' = true) s w.
Proof.
  intros Hn Hv Hwf Ho Hg Hh. unfold cbb_add_u. apply spec_bindo.
  eapply spec_mono; [eapply spec_add_space; (done || lia)|].
  intros [p|] s1 w1 (b' & -> & Hfr & Hr).
  2:{ split; [done|]. exists b'. split; [split; [done|cbn; lia]|]. by destruct Hr. }
  destruct Hr as (-> & Hl & Hc & Hg'). pose proof (g_acc _ _ _ Hg') as Ha'.
  pose proof (g_len _ _ _ Hg) as Hlb. cbn in Ha'. apply spec_bind. eapply spec_mono.
  { pose proof (pow256_pos n). apply store_be_spec; [lia|].
    eapply accessible_sub; [exact Ha'| |]; lia. }
  intros r s2 w2 (-> & -> & m' & Hst & ->).
  assert (v / 256 ^ Z.of_nat n <> 0) as Hne.
  { pose proof (pow256_pos n). intros E. apply Z.div_small_iff in E; lia. }
  rewrite (proj2 (Z.eqb_neq _ _) Hne). cbn [negb].
  assert (only_buffer s root ch b' (upd s root (Cbb ch (UBase b')))) as Hob
    by (split; [done|cbn; lia]).
  pose proof (only_handle _ _ _ _ _ _ Hob Hh) as Hh'.
  unfold cbb_on_error. apply spec_bind, spec_bind. eapply spec_handle_base; [apply obj_upd_eq|done|].
  apply spec_bind. eapply spec_get_buffer; [apply obj_upd_eq|]. apply spec_bind.
  eapply spec_set_buffer; [apply obj_upd_eq|]. rewrite upd_upd.
  set (s3 := upd s root (Cbb ch (UBase (set_error b')))).
  assert (frame w b (set_mem m' w1) (set_error b')) as Hfr2.
  { eapply frame_trans; [exact Hfr|]. eapply frame_trans; [eapply frame_store; [exact Hst|lia|]|].
    - rewrite length_be_bytes. lia.
    - by apply frame_refl. }
  assert (exists c, obj s3 a c /\ set_child c 0 = c) as (c & Hc3 & Ec).
  { destruct Hh as [[-> ->]|(Hna & off & pd & i & Hc3)].
    - eexists. split; [apply obj_upd_eq|done].
    - eexists. split; [by apply obj_upd_ne|done]. }
  apply spec_bind. eapply spec_get_cbb; [exact Hc3|]. rewrite Ec.
  apply spec_set_cbb; [by eexists|]. apply spec_ret. split; [done|].
  rewrite upd_id by done. exists (set_error b'). split; [|by split].
  split; [done|cbn; lia].
Qed.

End error.

(** ** Instances: a buffer of 16 bytes at 2000 *)

Definition one_object (err : bool) : cbb_store :=
  Store {[1 := Some (Cbb 0 (UBase (Buffer 2000 0 16 false err)))]} 2.

Lemma errors_stick_witness :
  refuses (CBB_flush 1) (one_object true) world16 /\
  (forall n, refuses (CBB_add_space 1 n) (one_object true) world16) /\
  (forall n, refuses (CBB_reserve 1 n) (one_object true) world16) /\
  (forall data, refuses (CBB_add_bytes 1 data) (one_object true) world16) /\
  (forall n, refuses (CBB_add_zeros 1 n) (one_object true) world16) /\
  (forall v, refuses (CBB_add_u8 1 v) (one_object true) world16 /\
     refuses (CBB_add_u16 1 v) (one_object true) world16 /\
     refuses (CBB_add_u24 1 v) (one_object true) world16 /\
     refuses (CBB_add_u32 1 v) (one_object true) world16 /\
     refuses (CBB_add_u64 1 v) (one_object true) world16) /\
  (forall out n, refuses (cbb_add_length_prefixed 1 out n) (one_object true) world16) /\
  (forall out tag, refuses (CBB_add_asn1 1 out tag) (one_object true) world16) /\
  (forall text, refuses (CBB_add_asn1_oid_from_text 1 text) (one_object true) world16) /\
  (forall wanted, refuses (CBB_finish 1 wanted) (one_object true) world16).
Proof.
  apply (errors_stick (one_object true) 1 1 0 (Buffer 2000 0 16 false true) world16);
    [reflexivity|lia|reflexivity|left; reflexivity].
Defined.

Lemma add_u_too_large_witness :
  spec False False (cbb_add_u 1 (2 ^ 24) 3)
    (fun o s' w' => o = None /\
       exists b', only_buffer (one_object false) 1 0 b' s' /\
         frame world16 (Buffer 2000 0 16 false false) w' b' /\ error b' = true)
    (one_object false) world16.
Proof.
  apply (add_u_too_large (2 ^ 24) 3 1 1 0 (Buffer 2000 0 16 false false) []
    (one_object false) world16); try lia.
  - intros x o. unfold one_object. cbn. intros Hx. apply lookup_singleton_Some in Hx. lia.
  - reflexivity.
  - split; cbn; try reflexivity; try discriminate; try lia.
    apply (world_of_accessible 1000 [] 2000 16).
  - left. split; reflexivity.
Defined.
