(* ===== verification/Utf8Range.v ===== *)
(** * utf8_range: UTF-8 validation (third_party/utf8_range/naive.c)

    The portable validator that upb calls on platforms without the vector
    instructions.  The data is a list of bytes, whose length is the argument [len];
    the counter [err_pos] is an [int], and leaving its range is undefined. *)
From Stdlib Require Import ZArith Lia.
From stdpp Require Import prelude list numbers.
From S2P Require Import Prelude CMem.
Local Open Scope Z_scope.

Definition INT_MAX : Z := 2 ^ 31 - 1.

(** [(signed char)b <= (signed char)0xBF] *)
Definition is_cont (b : Z) : bool := s8 b <=? s8 0xBF.

(** The number of bytes of the character [data] starts with; [None]: an error. *)
Definition utf8_char (data : bytes) : option Z :=
  let len := Z.of_nat (length data) in
  let byte1 := nth 0 data 0 in
  if byte1 <=? 0x7F then Some 1
  else if (2 <=? len) && (0xC2 <=? byte1) && (byte1 <=? 0xDF) && is_cont (nth 1 data 0) then Some 2
  else if 3 <=? len then
    let byte2 := nth 1 data 0 in
    let byte2_ok := is_cont byte2 in
    let byte3_ok := is_cont (nth 2 data 0) in
    if byte2_ok && byte3_ok &&
       (((byte1 =? 0xE0) && (0xA0 <=? byte2)) ||
        ((0xE1 <=? byte1) && (byte1 <=? 0xEC)) ||
        ((byte1 =? 0xED) && (byte2 <=? 0x9F)) ||
        ((0xEE <=? byte1) && (byte1 <=? 0xEF))) then Some 3
    else if 4 <=? len then
      let byte4_ok := is_cont (nth 3 data 0) in
      if byte2_ok && byte3_ok && byte4_ok &&
         (((byte1 =? 0xF0) && (0x90 <=? byte2)) ||
          ((0xF1 <=? byte1) && (byte1 <=? 0xF3)) ||
          ((byte1 =? 0xF4) && (byte2 <=? 0x8F))) then Some 4
      else None
    else None
  else None.

Fixpoint utf8_naive_loop (fuel : nat) (data : bytes) (err_pos : Z) : res Z :=
  match data with
  | [] => Ret 0
  | _ =>
      match fuel with
      | O => OutOfFuel
      | S k =>
          match utf8_char data with
          | None => Ret err_pos
          | Some n =>
              if INT_MAX <? err_pos + n then UB
              else utf8_naive_loop k (drop (Z.to_nat n) data) (err_pos + n)
          end
      end
  end.
(** Every round takes a byte at least. *)
Definition utf8_naive (data : bytes) : res Z := utf8_naive_loop (length data) data 1.

(** Without the vector instructions. *)
Definition utf8_range2 (data : bytes) : res Z := utf8_naive data.
