(* ===== verification/Utf8Spec.v ===== *)
(** * UTF-8: two readers against one definition

    The encoding of a Unicode scalar value, as the standard defines it; the validator
    of utf8_range accepts exactly the strings of such encodings, and the reader and
    the writer of BoringSSL agree with it. *)
From Stdlib Require Import ZArith Lia.
From stdpp Require Import prelude strings gmap list numbers.
From S2P Require Import Prelude CMem PbConcrete Cbs Cbb Unicode CbbSpec CbbCodec Utf8Range.
Local Open Scope Z_scope.

Definition scalar (u : Z) : Prop := 0 <= u < 0xD800 \/ 0xE000 <= u <= 0x10FFFF.
Definition utf8 (u : Z) : bytes :=
  if u <? 0x80 then [u]
  else if u <? 0x800 then [0xC0 + u / 64; 0x80 + u mod 64]
  else if u <? 0x10000 then [0xE0 + u / 4096; 0x80 + u / 64 mod 64; 0x80 + u mod 64]
  else [0xF0 + u / 262144; 0x80 + u / 4096 mod 64; 0x80 + u / 64 mod 64; 0x80 + u mod 64].
Definition utf8s (us : list Z) : bytes := concat (utf8 <$> us).

Lemma is_cont_iff b : is_byte b -> is_cont b = true <-> 0x80 <= b < 0xC0.
Proof.
  intros Hb. unfold is_cont. rewrite Z.leb_le. unfold is_byte in Hb. unfold_wrap.
  change ((191 + 128) mod 256 - 128) with (-65). Z.div_mod_to_equations. lia.
Qed.

Ltac div_lia := Z.div_mod_to_equations; lia.
(** The validator takes an encoding off the front ... *)
Lemma utf8_char_complete u rest : scalar u -> utf8_char (utf8 u ++ rest) = Some (Z.of_nat (length (utf8 u))).
Proof.
  unfold scalar, utf8. intros Hu. destruct (Z.ltb_spec u 0x80).
  { unfold utf8_char. cbn [app nth length]. by rewrite (proj2 (Z.leb_le u 127)) by lia. }
  destruct (Z.ltb_spec u 0x800).
  { unfold utf8_char. cbn [app nth length].
    rewrite (proj2 (Z.leb_gt (192 + u / 64) 127)) by div_lia.
    rewrite (proj2 (Z.leb_le 2 _)), (proj2 (Z.leb_le 194 _)), (proj2 (Z.leb_le _ 223)) by div_lia.
    by rewrite (proj2 (is_cont_iff (128 + u mod 64) ltac:(unfold is_byte; div_lia))) by div_lia. }
  destruct (Z.ltb_spec u 0x10000).
  { unfold utf8_char. cbn [app nth length].
    rewrite (proj2 (Z.leb_gt (224 + u / 4096) 127)) by div_lia.
    rewrite (proj2 (Z.leb_gt (224 + u / 4096) 223)) by div_lia. rewrite andb_false_r. cbn [andb].
    rewrite (proj2 (Z.leb_le 3 _)) by lia.
    rewrite (proj2 (is_cont_iff (128 + u / 64 mod 64) ltac:(unfold is_byte; div_lia))) by div_lia.
    rewrite (proj2 (is_cont_iff (128 + u mod 64) ltac:(unfold is_byte; div_lia))) by div_lia.
    cbn [andb].
    match goal with |- (if ?b then _ else _) = _ => replace b with true; [done|symmetry] end.
    rewrite !orb_true_iff, !andb_true_iff, !Z.leb_le, !Z.eqb_eq. div_lia. }
  unfold utf8_char. cbn [app nth length].
  rewrite (proj2 (Z.leb_gt (240 + u / 262144) 127)) by div_lia.
  rewrite (proj2 (Z.leb_gt (240 + u / 262144) 223)) by div_lia. rewrite andb_false_r. cbn [andb].
  rewrite (proj2 (Z.leb_le 3 _)) by lia.
  rewrite (proj2 (is_cont_iff (128 + u / 4096 mod 64) ltac:(unfold is_byte; div_lia))) by div_lia.
  rewrite (proj2 (is_cont_iff (128 + u / 64 mod 64) ltac:(unfold is_byte; div_lia))) by div_lia.
  rewrite (proj2 (is_cont_iff (128 + u mod 64) ltac:(unfold is_byte; div_lia))) by div_lia.
  cbn [andb].
  match goal with |- (if ?b then _ else _) = _ => replace b with false end.
  2: { symmetry. apply not_true_iff_false. rewrite !orb_true_iff, !andb_true_iff, !Z.leb_le, !Z.eqb_eq. div_lia. }
  rewrite (proj2 (Z.leb_le 4 _)) by lia.
  match goal with |- (if ?b then _ else _) = _ => replace b with true; [done|symmetry] end.
  rewrite !orb_true_iff, !andb_true_iff, !Z.leb_le, !Z.eqb_eq. div_lia.
Qed.

(** The encodings by the bytes they are made of. *)
Lemma utf8_2 b1 b2 : 0xC2 <= b1 <= 0xDF -> 0x80 <= b2 < 0xC0 ->
  exists u, scalar u /\ utf8 u = [b1; b2].
Proof.
  intros H1 H2. exists ((b1 - 192) * 64 + (b2 - 128)). unfold scalar, utf8. split; [lia|].
  rewrite (proj2 (Z.ltb_ge _ 0x80)), (proj2 (Z.ltb_lt _ 0x800)) by lia. repeat f_equal; div_lia.
Qed.
Lemma utf8_3 b1 b2 b3 : 0x80 <= b2 < 0xC0 -> 0x80 <= b3 < 0xC0 ->
  ((b1 = 0xE0 /\ 0xA0 <= b2) \/ 0xE1 <= b1 <= 0xEC \/ (b1 = 0xED /\ b2 <= 0x9F) \/ 0xEE <= b1 <= 0xEF) ->
  exists u, scalar u /\ utf8 u = [b1; b2; b3].
Proof.
  intros H2 H3 H1. exists ((b1 - 224) * 4096 + (b2 - 128) * 64 + (b3 - 128)). unfold scalar, utf8. split; [lia|].
  rewrite (proj2 (Z.ltb_ge _ 0x80)), (proj2 (Z.ltb_ge _ 0x800)), (proj2 (Z.ltb_lt _ 0x10000)) by lia.
  repeat f_equal; div_lia.
Qed.
Lemma utf8_4 b1 b2 b3 b4 : 0x80 <= b2 < 0xC0 -> 0x80 <= b3 < 0xC0 -> 0x80 <= b4 < 0xC0 ->
  ((b1 = 0xF0 /\ 0x90 <= b2) \/ 0xF1 <= b1 <= 0xF3 \/ (b1 = 0xF4 /\ b2 <= 0x8F)) ->
  exists u, scalar u /\ utf8 u = [b1; b2; b3; b4].
Proof.
  intros H2 H3 H4 H1. exists ((b1 - 240) * 262144 + (b2 - 128) * 4096 + (b3 - 128) * 64 + (b4 - 128)).
  unfold scalar, utf8. split; [lia|].
  rewrite (proj2 (Z.ltb_ge _ 0x80)), (proj2 (Z.ltb_ge _ 0x800)), (proj2 (Z.ltb_ge _ 0x10000)) by lia.
  repeat f_equal; div_lia.
Qed.

(** ... and nothing else. *)
Lemma utf8_char_sound data n :
  bytes_ok data -> data <> [] -> utf8_char data = Some n ->
  exists u rest, scalar u /\ data = utf8 u ++ rest /\ n = Z.of_nat (length (utf8 u)).
Proof.
  intros Hb Hne. destruct data as [|b1 data]; [done|]. apply Forall_cons_1 in Hb as [H1 Hb].
  unfold utf8_char. cbn [nth].
  destruct (Z.leb_spec b1 127).
  { intros [= <-]. exists b1, data. unfold scalar, utf8. rewrite (proj2 (Z.ltb_lt _ _)) by (unfold is_byte in *; lia).
    split_and!; [unfold is_byte in *; lia|done..]. }
  destruct data as [|b2 data]; [done|]. apply Forall_cons_1 in Hb as [H2 Hb]. cbn [nth].
  destruct (_ && is_cont b2) eqn:E2.
  { intros [= <-]. rewrite !andb_true_iff, !Z.leb_le, is_cont_iff in E2 by done.
    destruct (utf8_2 b1 b2) as (u & Hu & E); [lia..|]. exists u, data. by rewrite E. }
  destruct data as [|b3 data]; [done|]. apply Forall_cons_1 in Hb as [H3 Hb]. cbn [nth].
  rewrite (proj2 (Z.leb_le 3 _)) by (cbn [length]; lia).
  destruct (is_cont b2 && is_cont b3 && _) eqn:E3.
  { intros [= <-]. rewrite !andb_true_iff, !orb_true_iff, !andb_true_iff, !Z.leb_le, !Z.eqb_eq, !is_cont_iff in E3 by done.
    destruct (utf8_3 b1 b2 b3) as (u & Hu & E); [lia..|]. exists u, data. by rewrite E. }
  destruct data as [|b4 data]; [done|]. apply Forall_cons_1 in Hb as [H4 Hb]. cbn [nth].
  rewrite (proj2 (Z.leb_le 4 _)) by (cbn [length]; lia).
  destruct (is_cont b2 && is_cont b3 && is_cont b4 && _) eqn:E4; [|done].
  intros [= <-]. rewrite !andb_true_iff, !orb_true_iff, !andb_true_iff, !Z.leb_le, !Z.eqb_eq, !is_cont_iff in E4 by done.
  destruct (utf8_4 b1 b2 b3 b4) as (u & Hu & E); [lia..|]. exists u, data. by rewrite E.
Qed.

Lemma utf8_char_none rest u tl : utf8_char rest = None -> scalar u -> rest <> utf8 u ++ tl.
Proof. intros E Hu ->. by rewrite utf8_char_complete in E. Qed.

Lemma utf8_length u : (1 <= length (utf8 u) <= 4)%nat.
Proof. unfold utf8. repeat case_match; cbn; lia. Qed.

(** ** [utf8_naive] *)

(** [us] are the characters of the longest valid prefix of [data]. *)
Definition valid_prefix (us : list Z) (data rest : bytes) : Prop :=
  Forall scalar us /\ data = utf8s us ++ rest /\
  forall u tl, scalar u -> rest <> utf8 u ++ tl.

Lemma utf8_naive_loop_run fuel data pos :
  bytes_ok data -> (length data <= fuel)%nat -> 0 <= pos -> pos + Z.of_nat (length data) <= INT_MAX ->
  exists us rest, valid_prefix us data rest /\
    utf8_naive_loop fuel data pos =
      Ret (match rest with [] => 0 | _ => pos + Z.of_nat (length (utf8s us)) end).
Proof.
  revert data pos; induction fuel as [|fuel IH]; intros data pos Hb Hf Hp Hm.
  - destruct data; [|cbn in Hf; lia]. exists [], []. split; [|done]. split_and!; [done|done|].
    intros u tl _ Hx. symmetry in Hx. apply app_nil in Hx as [Hx _]. pose proof (utf8_length u). rewrite Hx in *. cbn in *. lia.
  - destruct data as [|b data].
    { exists [], []. split; [|done]. split_and!; [done|done|].
      intros u tl _ Hx. symmetry in Hx. apply app_nil in Hx as [Hx _]. pose proof (utf8_length u). rewrite Hx in *. cbn in *. lia. }
    cbn [utf8_naive_loop]. destruct (utf8_char (b :: data)) as [n|] eqn:E.
    2: { exists [], (b :: data). split; [|cbn; f_equal; lia]. split_and!; [done|done|].
         intros u tl Hu. by apply utf8_char_none. }
    destruct (utf8_char_sound _ _ Hb ltac:(done) E) as (u & rest & Hu & Ed & ->). rewrite Ed in *.
    rewrite length_app in *. pose proof (utf8_length u).
    rewrite (proj2 (Z.ltb_ge _ _)), Nat2Z.id, drop_app_length by lia.
    apply Forall_app in Hb as [_ Hb].
    destruct (IH rest (pos + Z.of_nat (length (utf8 u))) Hb ltac:(lia) ltac:(lia) ltac:(lia))
      as (us & rest' & (Hus & Er & Hno) & Eq).
    exists (u :: us), rest'. split.
    + split_and!; [by constructor|by rewrite Er; unfold utf8s; cbn; rewrite <- app_assoc|done].
    + rewrite Eq. destruct rest'; [done|]. unfold utf8s. cbn. rewrite length_app. f_equal. lia.
Qed.

Lemma utf8_naive_loop_overflow fuel us pos :
  Forall scalar us -> us <> [] -> (length (utf8s us) <= fuel)%nat -> 0 <= pos <= INT_MAX ->
  INT_MAX < pos + Z.of_nat (length (utf8s us)) -> utf8_naive_loop fuel (utf8s us) pos = UB.
Proof.
  revert us pos; induction fuel as [|fuel IH]; intros us pos Hus Hne Hf Hp Hm; [lia|].
  destruct us as [|u us]; [done|]. apply Forall_cons_1 in Hus as [Hu Hus].
  change (utf8s (u :: us)) with (utf8 u ++ utf8s us) in *. rewrite length_app in *.
  pose proof (utf8_length u). cbn [utf8_naive_loop]. rewrite utf8_char_complete by done.
  destruct (utf8 u ++ utf8s us) eqn:E.
  { apply app_nil in E as [E _]. rewrite E in *. cbn in *. lia. }
  rewrite <- E, Nat2Z.id, drop_app_length. destruct (Z.ltb_spec INT_MAX (pos + Z.of_nat (length (utf8 u)))); [done|].
  apply IH; [done| |lia..]. intros ->. cbn in *. lia.
Qed.

(** A valid string is its own longest valid prefix. *)
Lemma valid_prefix_all us us' data rest :
  Forall scalar us -> data = utf8s us -> valid_prefix us' data rest -> rest = [].
Proof.
  intros Hus ->. revert us' Hus. induction us as [|u us IH]; intros us' Hus (Hus' & E & Hno).
  - symmetry in E. by apply app_nil in E as [_ ->].
  - apply Forall_cons_1 in Hus as [Hu Hus].
    change (utf8s (u :: us)) with (utf8 u ++ utf8s us) in E. destruct us' as [|u' us'].
    + exfalso. apply (Hno u (utf8s us) Hu). by symmetry.
    + apply Forall_cons_1 in Hus' as [Hu' Hus'].
      change (utf8s (u' :: us')) with (utf8 u' ++ utf8s us') in E. rewrite <- app_assoc in E.
      assert (length (utf8 u) = length (utf8 u')) as El.
      { apply Nat2Z.inj. pose proof (utf8_char_complete u (utf8s us) Hu) as E1.
        rewrite E, utf8_char_complete in E1 by done. by injection E1. }
      apply (app_inj_1 _ _ _ _ El) in E as [_ E]. apply (IH us' Hus). by split_and!.
Qed.

(** ** [CBS_get_utf8] *)

Lemma byte_forall (P : Z -> bool) : forallb P (seqZ 0 256) = true -> forall b, is_byte b -> P b = true.
Proof.
  intros E b Hb. rewrite forallb_forall in E. apply E, list_elem_of_In, elem_of_seqZ.
  unfold is_byte in Hb. lia.
Qed.
Lemma byte_masks b : is_byte b ->
  (Z.land b (TOP_BITS 2) =? TOP_BITS 1) = (0x80 <=? b) && (b <? 0xC0) /\
  (Z.land b (TOP_BITS 3) =? TOP_BITS 2) = (0xC0 <=? b) && (b <? 0xE0) /\
  (Z.land b (TOP_BITS 4) =? TOP_BITS 3) = (0xE0 <=? b) && (b <? 0xF0) /\
  (Z.land b (TOP_BITS 5) =? TOP_BITS 4) = (0xF0 <=? b) && (b <? 0xF8) /\
  Z.land b (BOTTOM_BITS 6) = b mod 64 /\ Z.land b (BOTTOM_BITS 5) = b mod 32 /\
  Z.land b (BOTTOM_BITS 4) = b mod 16 /\ Z.land b (BOTTOM_BITS 3) = b mod 8.
Proof.
  intros Hb.
  pose proof (byte_forall (fun b =>
    Bool.eqb (Z.land b (TOP_BITS 2) =? TOP_BITS 1) ((0x80 <=? b) && (b <? 0xC0)) &&
    Bool.eqb (Z.land b (TOP_BITS 3) =? TOP_BITS 2) ((0xC0 <=? b) && (b <? 0xE0)) &&
    Bool.eqb (Z.land b (TOP_BITS 4) =? TOP_BITS 3) ((0xE0 <=? b) && (b <? 0xF0)) &&
    Bool.eqb (Z.land b (TOP_BITS 5) =? TOP_BITS 4) ((0xF0 <=? b) && (b <? 0xF8)) &&
    (Z.land b (BOTTOM_BITS 6) =? b mod 64) && (Z.land b (BOTTOM_BITS 5) =? b mod 32) &&
    (Z.land b (BOTTOM_BITS 4) =? b mod 16) && (Z.land b (BOTTOM_BITS 3) =? b mod 8))
    eq_refl b Hb) as E.
  rewrite !andb_true_iff, !Bool.eqb_true_iff, !Z.eqb_eq in E. tauto.
Qed.

(** One continuation byte. *)
Lemma utf8_loop_cons k v c s :
  0 <= v < 2 ^ 26 -> is_byte c ->
  utf8_loop (S k) v (c :: s) =
    if (0x80 <=? c) && (c <? 0xC0) then utf8_loop k (v * 64 + (c - 128)) s else (None, s).
Proof.
  intros Hv Hc. cbn [utf8_loop]. unfold pbind, CBS_get_u8.
  destruct (byte_masks c Hc) as (-> & _ & _ & _ & -> & _).
  destruct ((128 <=? c) && (c <? 192)) eqn:E; cbn [negb]; [|done]. f_equal.
  rewrite andb_true_iff, Z.leb_le, Z.ltb_lt in E.
  rewrite Z.shiftl_mul_pow2 by lia. unfold u32. rewrite wrap_small by lia.
  rewrite (lor_low_add _ _ 6); [|lia|apply Z.mod_pos_bound; lia|by apply Z.mod_mul].
  change (2 ^ 6) with 64. div_lia.
Qed.

Lemma code_point_scalar u : 0 <= u -> is_valid_code_point u = true -> scalar u.
Proof.
  intros Hu. unfold is_valid_code_point, scalar.
  rewrite negb_true_iff, !orb_false_iff, !andb_false_iff, !Z.ltb_ge, !Z.leb_gt. lia.
Qed.

(** What is done with a character of more than one byte. *)
Definition check_code_point (lower : Z) (x : option Z * bytes) : option Z * bytes :=
  match x with
  | (Some v, s) => if negb (is_valid_code_point v) || (v <? lower) then (None, s) else (Some v, s)
  | (None, s) => (None, s)
  end.

Lemma get_utf8_run c s :
  is_byte c ->
  CBS_get_utf8 (c :: s) =
    if c <=? 0x7f then (Some c, s)
    else if (0xC0 <=? c) && (c <? 0xE0) then check_code_point 0x80 (utf8_loop 1 (c - 0xC0) s)
    else if (0xE0 <=? c) && (c <? 0xF0) then check_code_point 0x800 (utf8_loop 2 (c - 0xE0) s)
    else if (0xF0 <=? c) && (c <? 0xF8) then check_code_point 0x10000 (utf8_loop 3 (c - 0xF0) s)
    else (None, s).
Proof.
  intros Hc.
  unfold CBS_get_utf8. unfold pbind at 1. cbn [CBS_get_u8].
  destruct (byte_masks c Hc) as (_ & -> & -> & -> & _ & -> & -> & ->).
  destruct (c <=? 0x7f); [done|].
  assert (forall lo (m : parser Z) s, (v <- m;; (if negb (is_valid_code_point v) || (v <? lo) then pfail else pret v))%cbs s =
    check_code_point lo (m s)) as Hm.
  { intros lo m s'. unfold pbind, check_code_point. destruct (m s') as [[v|] s2]; [|done]. by destruct (_ || _). }
  destruct ((0xC0 <=? c) && (c <? 0xE0)) eqn:E1.
  { rewrite Hm. replace (c mod 32) with (c - 0xC0); [done|].
    rewrite andb_true_iff, Z.leb_le, Z.ltb_lt in E1. div_lia. }
  destruct ((0xE0 <=? c) && (c <? 0xF0)) eqn:E2.
  { rewrite Hm. replace (c mod 16) with (c - 0xE0); [done|].
    rewrite andb_true_iff, Z.leb_le, Z.ltb_lt in E2. div_lia. }
  destruct ((0xF0 <=? c) && (c <? 0xF8)) eqn:E3; [|done].
  rewrite Hm. replace (c mod 8) with (c - 0xF0); [done|].
  rewrite andb_true_iff, Z.leb_le, Z.ltb_lt in E3. div_lia.
Qed.

Ltac in_range := rewrite andb_true_iff, Z.leb_le, Z.ltb_lt in *.

Lemma utf8_loop_read k v s cs rest :
  s = cs ++ rest -> (length cs = k)%nat -> Forall (fun c => 0x80 <= c < 0xC0) cs -> 0 <= v < 2 ^ 26 / 64 ^ Z.of_nat k ->
  utf8_loop k v s = (Some (foldl (fun v c => v * 64 + (c - 128)) v cs), rest).
Proof.
  intros ->. revert k v; induction cs as [|c cs IH]; intros k v <- Hcs Hv; [done|]. cbn [length app foldl].
  apply Forall_cons_1 in Hcs as [Hc Hcs].
  assert (0 < 64 ^ Z.of_nat (length cs)) by (apply Z.pow_pos_nonneg; lia).
  cbn [length] in Hv. rewrite Nat2Z.inj_succ, Z.pow_succ_r in Hv by lia.
  rewrite Z.mul_comm, <- Z.div_div in Hv by lia.
  assert (2 ^ 26 / 64 ^ Z.of_nat (length cs) <= 2 ^ 26) by (apply Z.div_le_upper_bound; nia).
  set (m := 2 ^ 26 / 64 ^ Z.of_nat (length cs)) in *.
  rewrite utf8_loop_cons by (unfold is_byte; div_lia).
  rewrite (proj2 (Z.leb_le _ _)), (proj2 (Z.ltb_lt _ _)) by lia. cbn [andb].
  apply IH; [done|done|]. fold m. div_lia.
Qed.

Lemma get_utf8_complete u rest :
  0 <= u -> is_valid_code_point u = true -> CBS_get_utf8 (utf8 u ++ rest) = (Some u, rest).
Proof.
  intros H0 Hu. pose proof (code_point_scalar u H0 Hu) as Hs. unfold scalar in Hs.
  unfold utf8. destruct (Z.ltb_spec u 0x80).
  { cbn [app]. rewrite get_utf8_run by (unfold is_byte; lia). by rewrite (proj2 (Z.leb_le u 0x7f)) by lia. }
  assert (forall lo, lo <= u -> check_code_point lo (Some u, rest) = (Some u, rest)) as Hck.
  { intros lo Hlo. unfold check_code_point. rewrite Hu, (proj2 (Z.ltb_ge _ _)) by lia. done. }
  destruct (Z.ltb_spec u 0x800); [|destruct (Z.ltb_spec u 0x10000)]; cbn [app].
  - rewrite get_utf8_run by (unfold is_byte; div_lia).
    rewrite (proj2 (Z.leb_gt _ 0x7f)), (proj2 (Z.leb_le 0xC0 _)), (proj2 (Z.ltb_lt _ 0xE0)) by div_lia.
    cbn [andb]. rewrite (utf8_loop_read 1 _ _ [0x80 + u mod 64] rest eq_refl);
      [|done|repeat constructor; div_lia|change (2 ^ 26 / 64 ^ Z.of_nat 1) with 1048576; div_lia].
    cbn [foldl]. rewrite <- Hck with (lo := 0x80) by lia. do 3 f_equal. div_lia.
  - rewrite get_utf8_run by (unfold is_byte; div_lia).
    rewrite (proj2 (Z.leb_gt _ 0x7f)), (proj2 (Z.ltb_ge _ 0xE0)), andb_false_r by div_lia.
    rewrite (proj2 (Z.leb_le 0xE0 _)), (proj2 (Z.ltb_lt _ 0xF0)) by div_lia.
    cbn [andb]. rewrite (utf8_loop_read 2 _ _ [0x80 + u / 64 mod 64; 0x80 + u mod 64] rest eq_refl);
      [|done|repeat constructor; div_lia|change (2 ^ 26 / 64 ^ Z.of_nat 2) with 16384; div_lia].
    cbn [foldl]. rewrite <- Hck with (lo := 0x800) by lia. do 3 f_equal. div_lia.
  - rewrite get_utf8_run by (unfold is_byte; div_lia).
    rewrite (proj2 (Z.leb_gt _ 0x7f)), !(proj2 (Z.ltb_ge _ 0xE0)), andb_false_r by div_lia.
    rewrite (proj2 (Z.ltb_ge _ 0xF0)), andb_false_r by div_lia.
    rewrite (proj2 (Z.leb_le 0xF0 _)), (proj2 (Z.ltb_lt _ 0xF8)) by div_lia.
    cbn [andb]. rewrite (utf8_loop_read 3 _ _ [0x80 + u / 4096 mod 64; 0x80 + u / 64 mod 64; 0x80 + u mod 64] rest eq_refl);
      [|done|repeat constructor; div_lia|change (2 ^ 26 / 64 ^ Z.of_nat 3) with 256; div_lia].
    cbn [foldl]. rewrite <- Hck with (lo := 0x10000) by lia. do 3 f_equal. div_lia.
Qed.

Lemma utf8_loop_sound k v s w rest :
  bytes_ok s -> 0 <= v < 2 ^ 26 / 64 ^ Z.of_nat k -> utf8_loop k v s = (Some w, rest) ->
  exists cs, s = cs ++ rest /\ length cs = k /\ Forall (fun c => 0x80 <= c < 0xC0) cs /\
    w = foldl (fun v c => v * 64 + (c - 128)) v cs.
Proof.
  revert v s; induction k as [|k IH]; intros v s Hb Hv.
  { intros [= <- <-]. by exists []. }
  destruct s as [|c s]; [done|]. apply Forall_cons_1 in Hb as [Hc Hb].
  assert (0 < 64 ^ Z.of_nat k) by (apply Z.pow_pos_nonneg; lia).
  rewrite Nat2Z.inj_succ, Z.pow_succ_r in Hv by lia. rewrite Z.mul_comm, <- Z.div_div in Hv by lia.
  assert (2 ^ 26 / 64 ^ Z.of_nat k <= 2 ^ 26) by (apply Z.div_le_upper_bound; nia).
  set (m := 2 ^ 26 / 64 ^ Z.of_nat k) in *.
  rewrite utf8_loop_cons by (done || div_lia). destruct (_ && _) eqn:E; [|done]. in_range. intros El.
  destruct (IH (v * 64 + (c - 128)) s Hb) as (cs & -> & <- & Hcs & ->); [fold m; div_lia|done|].
  exists (c :: cs). split_and!; try done. constructor; [lia|done].
Qed.

Lemma get_utf8_sound s u rest :
  bytes_ok s -> CBS_get_utf8 s = (Some u, rest) ->
  0 <= u /\ is_valid_code_point u = true /\ s = utf8 u ++ rest.
Proof.
  intros Hb. destruct s as [|c s]; [done|]. apply Forall_cons_1 in Hb as [Hc Hb].
  rewrite get_utf8_run by done. unfold is_byte in Hc.
  destruct (Z.leb_spec c 0x7f).
  { intros [= <- <-]. unfold utf8. rewrite (proj2 (Z.ltb_lt _ _)) by lia. split_and!; [lia| |done].
    unfold is_valid_code_point. rewrite (proj2 (Z.ltb_ge _ _)), !(proj2 (Z.leb_gt _ c)), !andb_false_l by lia.
    rewrite !orb_false_r. cbn [orb].
    assert (Z.land c 0xfffe <= 127) as Hl.
    { change 127 with (Z.pred (2 ^ 7)). apply Z.lt_le_pred.
      destruct (Z.eq_dec (Z.land c 0xfffe) 0) as [->|Hn]; [lia|].
      apply Z.log2_lt_pow2; [pose proof (proj2 (Z.land_nonneg c 0xfffe)); lia|].
      eapply Z.le_lt_trans; [apply Z.log2_land; lia|]. 
      destruct (Z.eq_dec c 0) as [->|]; [done|].
      assert (Z.log2 c < 7) by (apply Z.log2_lt_pow2; lia). lia. }
    by rewrite (proj2 (Z.eqb_neq _ _)) by lia. }
  assert (forall lo x, check_code_point lo x = (Some u, rest) ->
    x = (Some u, rest) /\ is_valid_code_point u = true /\ lo <= u) as Hck.
  { intros lo [[v|] s']; cbn; [|done]. destruct (is_valid_code_point v) eqn:E; cbn [negb orb]; [|done].
    destruct (Z.ltb_spec v lo); [done|]. intros [= -> ->]. done. }
  destruct (_ && _) eqn:E1; [in_range|destruct ((0xE0 <=? c) && _) eqn:E2;
    [in_range|destruct ((0xF0 <=? c) && _) eqn:E3; [in_range|done]]];
    intros (El & Hv & Hlo)%Hck;
    (apply utf8_loop_sound in El as (cs & -> & Hl & Hcs & Eu); [|done|]).
  - destruct cs as [|c1 [|]]; [done| |done]. apply Forall_cons_1 in Hcs as [H1 _]. cbn in Eu.
    assert (scalar u) as Hs by (apply code_point_scalar; [lia|done]). split_and!; [lia|done|].
    unfold utf8. rewrite (proj2 (Z.ltb_ge _ 0x80)), (proj2 (Z.ltb_lt _ 0x800)) by lia.
    cbn. repeat f_equal; div_lia.
  - change (2 ^ 26 / 64 ^ Z.of_nat 1) with 1048576. lia.
  - destruct cs as [|c1 [|c2 [|]]]; [done|done| |done].
    apply Forall_cons_1 in Hcs as [H1 Hcs]. apply Forall_cons_1 in Hcs as [H2 _]. cbn in Eu.
    split_and!; [lia|done|].
    unfold utf8. rewrite (proj2 (Z.ltb_ge _ 0x80)), (proj2 (Z.ltb_ge _ 0x800)), (proj2 (Z.ltb_lt _ 0x10000)) by lia.
    cbn. repeat f_equal; div_lia.
  - change (2 ^ 26 / 64 ^ Z.of_nat 2) with 16384. lia.
  - destruct cs as [|c1 [|c2 [|c3 [|]]]]; [done|done|done| |done].
    apply Forall_cons_1 in Hcs as [H1 Hcs]. apply Forall_cons_1 in Hcs as [H2 Hcs].
    apply Forall_cons_1 in Hcs as [H3 _]. cbn in Eu. split_and!; [lia|done|].
    unfold utf8. rewrite (proj2 (Z.ltb_ge _ 0x80)), (proj2 (Z.ltb_ge _ 0x800)), (proj2 (Z.ltb_ge _ 0x10000)) by lia.
    cbn. repeat f_equal; div_lia.
  - change (2 ^ 26 / 64 ^ Z.of_nat 3) with 256. lia.
Qed.

(** ** [CBB_add_utf8] *)

Lemma top_bits_lor k x : (k = 1 \/ k = 2 \/ k = 3 \/ k = 4) -> 0 <= x < 2 ^ (8 - k) ->
  Z.lor (TOP_BITS k) x = 256 - 2 ^ (8 - k) + x.
Proof.
  intros Hk Hx. rewrite (lor_low_add _ _ (8 - k)); [|lia|done|].
  - by destruct Hk as [->|[->|[->| ->]]].
  - by destruct Hk as [->|[->|[->| ->]]].
Qed.

Section codec.
Context `{Allocator}.

Lemma emits_utf8 u : 0 <= u -> is_valid_code_point u = true -> emits (fun a => CBB_add_utf8 a u) (utf8 u).
Proof.
  intros H0 Hu. pose proof (code_point_scalar u H0 Hu) as Hs. unfold scalar in Hs.
  assert (forall v, Z.land v (BOTTOM_BITS 6) = v mod 64) as Hl by (intros v; apply (land_mask v 6); lia).
  unfold CBB_add_utf8, utf8. rewrite Hu. cbn [negb].
  destruct (Z.ltb_spec u 0x80).
  { rewrite (proj2 (Z.leb_le u 0x7f)) by lia. unfold u8. rewrite wrap_small by lia. apply emits_u8; lia. }
  rewrite (proj2 (Z.leb_gt u 0x7f)), !Hl, !shiftr_div by lia.
  change (2 ^ 6) with 64. change (2 ^ 12) with 4096. change (2 ^ 18) with 262144.
  rewrite (top_bits_lor 1 (u mod 64)), (top_bits_lor 1 (u / 64 mod 64)), (top_bits_lor 1 (u / 4096 mod 64))
    by first [by auto | change (2 ^ (8 - 1)) with 128; div_lia].
  change (256 - 2 ^ (8 - 1)) with 0x80.
  destruct (Z.ltb_spec u 0x800).
  { rewrite (proj2 (Z.leb_le u 0x7ff)), (top_bits_lor 2) by (first [by auto | cbn; div_lia]).
    apply (emits_seq _ _ [_] [_]); apply emits_u8; cbn; div_lia. }
  rewrite (proj2 (Z.leb_gt u 0x7ff)) by lia.
  destruct (Z.ltb_spec u 0x10000).
  { rewrite (proj2 (Z.leb_le u 0xffff)), (top_bits_lor 3) by (first [by auto | cbn; div_lia]).
    apply (emits_seq _ _ [_] [_; _]); [|apply (emits_seq _ _ [_] [_])]; apply emits_u8; cbn; div_lia. }
  rewrite (proj2 (Z.leb_gt u 0xffff)), (proj2 (Z.leb_le u 0x10ffff)), (top_bits_lor 4) by (first [by auto | cbn; div_lia]).
  apply (emits_seq _ _ [_] [_; _; _]); [|apply (emits_seq _ _ [_] [_; _]); [|apply (emits_seq _ _ [_] [_])]];
    apply emits_u8; cbn; div_lia.
Qed.

(** The contract of CbbCodec.v: text can be part of any structure written with it. *)
#[export] Instance utf8_codec :
  Codec (fun u => 0 <= u /\ is_valid_code_point u = true) (fun u a => CBB_add_utf8 a u) CBS_get_utf8 utf8.
Proof.
  split.
  - intros u [H0 Hu]. by apply emits_utf8.
  - intros u r [H0 Hu]. by apply get_utf8_complete.
Qed.
End codec.

(** ** The properties *)

(** C25: [utf8_naive] returns, within the data, and returns 0 exactly for the strings
    of encodings of Unicode scalar values; otherwise the position, counted from 1, of
    the first byte after the longest valid prefix.  That is for data of fewer than
    2^31 - 1 bytes: on valid data of exactly 2^31 - 1 bytes [err_pos] overflows. *)
Theorem utf8_naive_correct data :
  bytes_ok data ->
  (Z.of_nat (length data) < INT_MAX ->
    (utf8_naive data = Ret 0 <-> exists us, Forall scalar us /\ data = utf8s us) /\
    exists us rest, valid_prefix us data rest /\
      utf8_naive data = Ret (match rest with [] => 0 | _ => 1 + Z.of_nat (length (utf8s us)) end)) /\
  (Z.of_nat (length data) = INT_MAX -> (exists us, Forall scalar us /\ data = utf8s us) ->
    utf8_naive data = UB).
Proof.
  intros Hb. split.
  - intros Hl.
    destruct (utf8_naive_loop_run (length data) data 1 Hb) as (us & rest & Hv & E); [lia..|].
    split; [|by exists us, rest]. unfold utf8_naive. rewrite E. split.
    + destruct rest; [|intros [= ?]; lia]. intros _. exists us. destruct Hv as (Hus & -> & _).
      by rewrite app_nil_r.
    + intros (us' & Hus' & Ed). by rewrite (valid_prefix_all us' us data rest Hus' Ed Hv).
  - intros Hl (us & Hus & ->). apply utf8_naive_loop_overflow; try done; unfold INT_MAX in *; [|lia..].
    intros ->. cbn in Hl. lia.
Qed.

(** The reader and the writer of BoringSSL agree with the same definition:
    [CBS_get_utf8] takes [u] off the front of a byte string exactly if the string
    starts with the encoding of [u], which must be a scalar value and no
    noncharacter, and [CBB_add_utf8] appends that encoding. *)
Theorem boringssl_utf8_correct `{Allocator} s u rest :
  bytes_ok s ->
  (CBS_get_utf8 s = (Some u, rest) <->
    0 <= u /\ is_valid_code_point u = true /\ s = utf8 u ++ rest) /\
  (0 <= u -> is_valid_code_point u = true ->
    scalar u /\ emits (fun a => CBB_add_utf8 a u) (utf8 u)).
Proof.
  intros Hb. split; [split|].
  - by apply get_utf8_sound.
  - intros (H0 & Hu & ->). by apply get_utf8_complete.
  - intros H0 Hu. split; [by apply code_point_scalar|by apply emits_utf8].
Qed.

(** Two characters and a truncated one. *)
Definition sample_text : bytes := utf8 0xE9 ++ utf8 0x1F600 ++ [0xE2; 0x82].
Lemma utf8_naive_correct_witness :
  ((utf8_naive sample_text = Ret 0 <-> exists us, Forall scalar us /\ sample_text = utf8s us) /\
   exists us rest, valid_prefix us sample_text rest /\
     utf8_naive sample_text = Ret (match rest with [] => 0 | _ => 1 + Z.of_nat (length (utf8s us)) end)) /\
  utf8_naive sample_text = Ret 7.
Proof.
  split; [|vm_compute; reflexivity].
  apply (utf8_naive_correct sample_text); [apply (bool_decide_unpack _); vm_compute; exact I|vm_compute; reflexivity].
Defined.
Lemma boringssl_utf8_correct_witness :
  CBS_get_utf8 (utf8 0x1F600 ++ [1]) = (Some 0x1F600, [1]).
Proof.
  apply (boringssl_utf8_correct (H := bump_allocator) (utf8 0x1F600 ++ [1]) 0x1F600 [1]);
    [apply (bool_decide_unpack _); vm_compute; exact I|vm_compute; split_and!; done].
Defined.
