(* ===== verification/Words.v ===== *)
(** * BoringSSL: words (crypto/internal.h)

    Loads, stores and rotations of 32-bit and 64-bit words, arrays of words, and
    arrays of bytes with the checks of their bounds; what ChaCha20, SipHash and the
    digests share.  Memory is little-endian. *)
From Stdlib Require Import ZArith Lia.
From stdpp Require Import prelude list numbers.
From S2P Require Import Prelude CMem Cells Der DerInt.
Local Open Scope Z_scope.
Local Open Scope res_scope.

(** ** Loads and stores *)

Definition CRYPTO_load_u32_le (p : bytes) : Z := le_val (take 4 p).
Definition CRYPTO_store_u32_le (v : Z) : bytes := le_bytes 4 v.
Definition CRYPTO_load_u32_be (p : bytes) : Z := be_val (take 4 p).
Definition CRYPTO_store_u32_be (v : Z) : bytes := be_bytes 4 v.
Definition CRYPTO_load_u64_le (p : bytes) : Z := le_val (take 8 p).
Definition CRYPTO_load_u64_be (p : bytes) : Z := be_val (take 8 p).
Definition CRYPTO_store_u64_be (v : Z) : bytes := be_bytes 8 v.

(** ** Rotations *)

Definition CRYPTO_rotl_u32 (value shift : Z) : Z :=
  Z.lor (u32 (Z.shiftl value shift)) (Z.shiftr value (Z.land (- shift) 31)).
Definition CRYPTO_rotr_u32 (value shift : Z) : Z :=
  Z.lor (Z.shiftr value shift) (u32 (Z.shiftl value (Z.land (- shift) 31))).
Definition CRYPTO_rotl_u64 (value shift : Z) : Z :=
  Z.lor (u64 (Z.shiftl value shift)) (Z.shiftr value (Z.land (- shift) 63)).
Definition CRYPTO_rotr_u64 (value shift : Z) : Z :=
  Z.lor (Z.shiftr value shift) (u64 (Z.shiftl value (Z.land (- shift) 63))).

(** [x[i]] and [x[i] = v] *)
Definition word (x : list Z) (i : nat) : Z := nth i x 0.
Definition set_word (i : nat) (v : Z) (x : list Z) : list Z := <[i := v]> x.

(** ** Bytes in memory *)

(** [memcpy] into an array at index [i], and the [n] bytes it is given. *)
Definition put (d : bytes) (i : Z) (bs : bytes) : res bytes :=
  if (0 <=? i) && (i + Z.of_nat (length bs) <=? Z.of_nat (length d))
  then Ret (take (Z.to_nat i) d ++ bs ++ drop (Z.to_nat i + length bs) d) else UB.
Definition get (src : bytes) (n : Z) : res bytes :=
  if (0 <=? n) && (n <=? Z.of_nat (length src)) then Ret (take (Z.to_nat n) src) else UB.
Definition zeros (n : Z) : bytes := replicate (Z.to_nat n) 0.

(** [CRYPTO_memcmp] *)
Fixpoint memcmp_acc (x : Z) (a b : bytes) : Z :=
  match a, b with
  | u :: a, v :: b => memcmp_acc (Z.lor x (Z.lxor u v)) a b
  | _, _ => x
  end.
Definition CRYPTO_memcmp (a b : bytes) : Z := memcmp_acc 0 a b.

(** [k] words of [n] bytes one after the other: [data] is read and moved on. *)
Fixpoint load_words (load : bytes -> Z) (n k : nat) (data : bytes) : res (list Z) :=
  match k with
  | O => Ret []
  | S j =>
      p <- get data (Z.of_nat n) ;;
      r <- load_words load n j (drop n data) ;;
      Ret (load p :: r)
  end.

(** ** Lemmas *)

Lemma put_run d i bs :
  0 <= i -> i + Z.of_nat (length bs) <= Z.of_nat (length d) ->
  put d i bs = Ret (take (Z.to_nat i) d ++ bs ++ drop (Z.to_nat i + length bs) d).
Proof. intros H1 H2. unfold put. by rewrite (proj2 (Z.leb_le _ _) H1), (proj2 (Z.leb_le _ _) H2). Qed.
Lemma get_run src n :
  0 <= n <= Z.of_nat (length src) -> get src n = Ret (take (Z.to_nat n) src).
Proof. intros [H1 H2]. unfold get. by rewrite (proj2 (Z.leb_le _ _) H1), (proj2 (Z.leb_le _ _) H2). Qed.
Lemma length_zeros n : 0 <= n -> Z.of_nat (length (zeros n)) = n.
Proof. intros. unfold zeros. rewrite length_replicate. lia. Qed.
Lemma zeros_app a b : 0 <= a -> 0 <= b -> zeros (a + b) = zeros a ++ zeros b.
Proof. intros. unfold zeros. by rewrite Z2Nat.inj_add, replicate_add by lia. Qed.

Lemma put_zeros d (n : nat) :
  length d = n -> put d 0 (zeros (Z.of_nat n)) = Ret (zeros (Z.of_nat n)).
Proof.
  intros Hd. pose proof (length_zeros (Z.of_nat n) ltac:(lia)) as Hz.
  rewrite put_run by lia. cbn [Z.to_nat take app Nat.add].
  rewrite drop_ge by lia. by rewrite app_nil_r.
Qed.

Lemma put_app a x d :
  (length x <= length d)%nat ->
  put (a ++ d) (Z.of_nat (length a)) x = Ret (a ++ x ++ drop (length x) d).
Proof.
  intros Hx. rewrite put_run by (rewrite ?length_app; lia). rewrite Nat2Z.id, take_app_length.
  by rewrite drop_app_ge, Nat.add_comm, Nat.add_sub by lia.
Qed.

(** The words of an array. *)
Fixpoint chunks (n k : nat) (data : bytes) : list bytes :=
  match k with
  | O => []
  | S j => take n data :: chunks n j (drop n data)
  end.
Lemma length_chunks n k data : length (chunks n k data) = k.
Proof. revert data; induction k as [|k IH]; intros data; cbn; [done|by rewrite IH]. Qed.
Lemma chunks_take n k m data : (k * n <= m)%nat -> chunks n k (take m data) = chunks n k data.
Proof.
  revert m data; induction k as [|k IH]; intros m data Hm; cbn [chunks]; [done|].
  rewrite take_take, Nat.min_l by lia. f_equal.
  rewrite <- (IH (m - n)%nat (drop n data)) by lia. f_equal. apply skipn_firstn_comm.
Qed.
(** A load reads its bytes only. *)
Lemma load_chunks (val : bytes -> Z) n k data :
  (fun p => val (take n p)) <$> chunks n k data = val <$> chunks n k data.
Proof.
  revert data; induction k as [|k IH]; intros data; cbn [chunks fmap list_fmap]; [done|].
  rewrite take_take, Nat.min_id. by f_equal.
Qed.
Lemma load_words_run load n k data :
  (k * n <= length data)%nat -> load_words load n k data = Ret (load <$> chunks n k data).
Proof.
  revert data; induction k as [|k IH]; intros data Hl; cbn [load_words chunks fmap list_fmap]; [done|].
  rewrite get_run, Nat2Z.id by lia. cbn [rbind]. rewrite IH by (rewrite length_drop; lia). done.
Qed.

Lemma length_load_words load n k data W : load_words load n k data = Ret W -> length W = k.
Proof.
  revert data W; induction k as [|k IH]; intros data W E; cbn [load_words] in E; [by simplify_eq|].
  destruct (get data (Z.of_nat n)) as [p| |]; cbn [rbind] in E; [|done..].
  destruct (load_words load n k (drop n data)) as [r| |] eqn:Er; cbn [rbind] in E; [|done..].
  simplify_eq. cbn. f_equal. by eapply IH.
Qed.

Lemma word_lookup x i v : x !! i = Some v -> word x i = v.
Proof. intros H. unfold word. by rewrite <- (nth_lookup_Some _ _ 0 _ H). Qed.
Lemma set_word_same x i v : (i < length x)%nat -> word (set_word i v x) i = v.
Proof. intros. by apply word_lookup, list_lookup_insert_eq. Qed.
Lemma set_word_other x i j v : i <> j -> word (set_word i v x) j = word x j.
Proof. intros. unfold word, set_word. by rewrite !nth_lookup, list_lookup_insert_ne. Qed.
Lemma set_word_twice x i u v : set_word i v (set_word i u x) = set_word i v x.
Proof. apply list_insert_insert_eq. Qed.
Lemma length_set_word x i v : length (set_word i v x) = length x.
Proof. apply length_insert. Qed.

(** ** Rotations of [w]-bit words, without masks *)

Definition ROTR (w n x : Z) : Z := Z.lor (x / 2 ^ n) ((x * 2 ^ (w - n)) mod 2 ^ w).
Definition ROTL (w n x : Z) : Z := Z.lor ((x * 2 ^ n) mod 2 ^ w) (x / 2 ^ (w - n)).

Lemma mask_shift w k n : 0 <= k -> w = 2 ^ k -> 0 < n < w -> Z.land (- n) (w - 1) = w - n.
Proof.
  intros Hk -> Hn. rewrite land_mask by lia.
  replace (- n) with (2 ^ k - n + (-1) * 2 ^ k) by lia. rewrite Z.mod_add by lia.
  apply Z.mod_small. lia.
Qed.
Lemma rotr_u32_ROTR x n : 0 < n < 32 -> CRYPTO_rotr_u32 x n = ROTR 32 n x.
Proof.
  intros. unfold CRYPTO_rotr_u32, ROTR. rewrite (mask_shift 32 5) by lia.
  by rewrite Z.shiftr_div_pow2, Z.shiftl_mul_pow2 by lia.
Qed.
Lemma rotl_u32_ROTL x n : 0 < n < 32 -> CRYPTO_rotl_u32 x n = ROTL 32 n x.
Proof.
  intros. unfold CRYPTO_rotl_u32, ROTL. rewrite (mask_shift 32 5) by lia.
  by rewrite Z.shiftr_div_pow2, Z.shiftl_mul_pow2 by lia.
Qed.
Lemma rotr_u64_ROTR x n : 0 < n < 64 -> CRYPTO_rotr_u64 x n = ROTR 64 n x.
Proof.
  intros. unfold CRYPTO_rotr_u64, ROTR. rewrite (mask_shift 64 6) by lia.
  by rewrite Z.shiftr_div_pow2, Z.shiftl_mul_pow2 by lia.
Qed.
Lemma rotl_u64_ROTL x n : 0 < n < 64 -> CRYPTO_rotl_u64 x n = ROTL 64 n x.
Proof.
  intros. unfold CRYPTO_rotl_u64, ROTL. rewrite (mask_shift 64 6) by lia.
  by rewrite Z.shiftr_div_pow2, Z.shiftl_mul_pow2 by lia.
Qed.

(** ** Sums

    [x + y] of unsigned [w]-bit words; the order of the summands does not matter. *)
Definition wadd (w x y : Z) : Z := wrap w (x + y).

(** Innermost reductions go first, so that each one is under another. *)
Ltac word_sum :=
  unfold wadd, u32, u64, wrap;
  repeat match goal with
  | |- context [(?a mod ?m + ?b) mod ?m] =>
      lazymatch a with context [_ mod m] => fail | _ => rewrite (Zplus_mod_idemp_l a b m) end
  | |- context [(?b + ?a mod ?m) mod ?m] =>
      lazymatch a with context [_ mod m] => fail | _ => rewrite (Zplus_mod_idemp_r a b m) end
  end;
  f_equal; lia.

(** Two expressions with the same bits. *)
Ltac bits :=
  apply Z.bits_inj'; intros i Hi;
  repeat first [rewrite Z.lxor_spec | rewrite Z.land_spec | rewrite Z.lor_spec | rewrite Z.lnot_spec by lia];
  repeat match goal with |- context [Z.testbit ?x i] => destruct (Z.testbit x i) end; reflexivity.

(** ** Rounds of a digest

    What the block functions of the digests have in common: registers that change
    places from round to round, a schedule of words where every word comes from the
    sixteen before it, and the circular array that has the last sixteen words. *)

(** ** Registers that change places

    A round that works on registers [r0 .. r(n-1)] is written out [n] times, every
    time with the names moved on by one, where a plain description would move the
    values.  After [t] rounds the values are seen through the names of round [t]. *)
Definition names (n t : nat) : list nat := (fun k => (k + t * (n - 1)) mod n)%nat <$> seq 0 n.
Definition view (n t : nat) (r : list Z) : list Z := word r <$> names n t.

Lemma names_period n t : (0 < n)%nat -> names n t = names n (t mod n).
Proof.
  intros Hn. unfold names. apply list_fmap_ext. intros i k _.
  rewrite (Nat.div_mod_eq t n) at 1.
  replace (k + (n * (t / n) + t mod n) * (n - 1))%nat
    with (k + t mod n * (n - 1) + ((t / n) * (n - 1)) * n)%nat by lia.
  by rewrite Nat.Div0.mod_add.
Qed.
Lemma view_start n r : length r = n -> view n 0 r = r.
Proof.
  intros Hl. unfold view, names. apply list_eq. intros i. rewrite !list_lookup_fmap.
  destruct (decide (i < n)%nat) as [Hi|Hi].
  - rewrite lookup_seq_lt by done. cbn. rewrite Nat.add_0_r, Nat.mod_small by done.
    destruct (lookup_lt_is_Some_2 r i) as [v Hv]; [lia|]. by rewrite Hv, (word_lookup _ _ _ Hv).
  - rewrite lookup_seq_ge by lia. rewrite lookup_ge_None_2 by lia. done.
Qed.
Lemma view_period n t r : (0 < n)%nat -> view n t r = view n (t mod n) r.
Proof. intros. unfold view. by rewrite names_period. Qed.

(** ** The schedule *)

Lemma word_app_l x y i : (i < length x)%nat -> word (x ++ y) i = word x i.
Proof. intros. unfold word. by rewrite app_nth1. Qed.
Lemma word_app_end x v : word (x ++ [v]) (length x) = v.
Proof. apply nth_middle. Qed.
Lemma word_take x n i : (i < n)%nat -> word (take n x) i = word x i.
Proof. intros. unfold word. by rewrite !nth_lookup, lookup_take_lt. Qed.

Section schedule.
Context (next : list Z -> Z).

(** The first sixteen words, and then the others up to [n]. *)
Definition schedule (M : list Z) (n : nat) : list Z :=
  Nat.iter (n - 16) (fun W => W ++ [next W]) M.

Lemma schedule_length M n : length M = 16%nat -> (16 <= n)%nat -> length (schedule M n) = n.
Proof.
  intros HM Hn. replace n with (16 + (n - 16))%nat at 2 by lia. unfold schedule.
  induction (n - 16)%nat as [|k IH]; [cbn; lia|rewrite Nat.iter_succ].
  rewrite length_app, IH. cbn. lia.
Qed.
Lemma schedule_prefix M n t :
  length M = 16%nat -> (t < 16)%nat -> word (schedule M n) t = word M t.
Proof.
  intros HM Ht. unfold schedule. induction (n - 16)%nat as [|k IH]; [done|rewrite Nat.iter_succ].
  rewrite word_app_l; [done|]. clear IH. induction k as [|k IH]; [cbn; lia|rewrite Nat.iter_succ].
  rewrite length_app. lia.
Qed.
Lemma schedule_word M n t :
  length M = 16%nat -> (16 <= t < n)%nat ->
  word (schedule M n) t = next (take t (schedule M n)).
Proof.
  intros HM Ht. unfold schedule. replace n with (16 + (n - 16))%nat in Ht by lia.
  induction (n - 16)%nat as [|k IH]; [lia|rewrite Nat.iter_succ].
  set (V := Nat.iter k (fun W => W ++ [next W]) M) in *.
  assert (length V = 16 + k)%nat as HV
    by (pose proof (schedule_length M (16 + k) HM ltac:(lia)) as E; unfold schedule in E;
        replace (16 + k - 16)%nat with k in E by lia; exact E).
  destruct (decide (t = length V)) as [->|Hne].
  - by rewrite word_app_end, take_app_length.
  - rewrite word_app_l, take_app_le by lia. apply IH. lia.
Qed.
End schedule.

(** ** The circular array *)

Record window (X W : list Z) (t : nat) : Prop := {
  win_len : length X = 16%nat;
  win_at : forall s, (s < t <= s + 16)%nat -> word X (s mod 16) = word W s
}.
Lemma land_15 i : Nat.land i 15 = (i mod 16)%nat.
Proof. apply (Nat.land_ones i 4). Qed.
Lemma window_read X W t k :
  window X W t -> (16 <= t)%nat -> (k < 16)%nat -> word X ((t + k) mod 16) = word W (t + k - 16).
Proof.
  intros [Hl Hw] Ht Hk.
  replace (t + k)%nat with (t + k - 16 + 1 * 16)%nat at 1 by lia. rewrite Nat.Div0.mod_add.
  apply Hw. lia.
Qed.
Lemma window_step X W t v :
  window X W t -> v = word W t -> window (set_word (t mod 16) v X) W (S t).
Proof.
  intros [Hl Hw] ->. split; [by rewrite length_set_word|]. intros i Hi.
  destruct (decide (i = t)) as [->|Hne].
  - apply set_word_same. rewrite Hl. apply Nat.mod_upper_bound. lia.
  - rewrite set_word_other; [apply Hw; lia|]. intros E.
    pose proof (Nat.div_mod_eq t 16). pose proof (Nat.div_mod_eq i 16). lia.
Qed.
Lemma window_start next M n :
  length M = 16%nat -> window M (schedule next M n) 16.
Proof.
  intros HM. split; [done|]. intros i Hi. rewrite Nat.mod_small by lia. by rewrite schedule_prefix by lia.
Qed.

(** ** Comparison *)

Lemma memcmp_acc_zero a : forall x b,
  length a = length b -> memcmp_acc x a b = 0 <-> x = 0 /\ a = b.
Proof.
  induction a as [|u a IH]; intros x [|v b] Hl; cbn in Hl; try done; cbn [memcmp_acc]; [naive_solver|].
  rewrite IH by lia. rewrite Z.lor_eq_0_iff, Z.lxor_eq_0_iff. naive_solver.
Qed.
Lemma memcmp_equal a b : length a = length b -> (CRYPTO_memcmp a b =? 0) = bool_decide (b = a).
Proof.
  intros Hl. pose proof (memcmp_acc_zero a 0 b Hl) as H. unfold CRYPTO_memcmp.
  case_bool_decide as E; [apply Z.eqb_eq|apply Z.eqb_neq]; naive_solver.
Qed.
