(* ===== verification/Md32.v ===== *)
(** * BoringSSL: collecting blocks for a digest (crypto/fipsmodule/digest/md32_common.h)

    MD4, MD5, SHA-1 and SHA-256 share the code that cuts their input into blocks:
    the state of a digest keeps the chaining value, a block that is not full yet and
    the number of bits so far in two words.  Here that code, for any block function,
    and the proof that it is the Merkle-Damgard iteration over the padded message,
    however the message is cut into updates. *)
From Stdlib Require Import ZArith Lia.
From stdpp Require Import prelude list numbers.
From S2P Require Import Prelude CMem Cells Der DerInt Words.
Local Open Scope Z_scope.
Local Open Scope res_scope.

(** ** The code *)

Record md32_ctx := Md32 {
  md_h : list Z;     (** the chaining value *)
  md_Nl : Z;
  md_Nh : Z;
  md_data : bytes;   (** a block *)
  md_num : Z         (** bytes of it in use *)
}.

Section md32.
Context (block_func : list Z -> bytes -> Z -> res (list Z)) (block_size : Z).

(** The end of [crypto_md32_update]: whole blocks straight from the input, and what
    is left into the buffer. *)
Definition update_rest (h : list Z) (Nl Nh : Z) (data : bytes) (num : Z) (in_ : bytes) :
    res md32_ctx :=
  let len := Z.of_nat (length in_) in
  let n := len / block_size in
  h <- (if 0 <? n then block_func h in_ n else Ret h) ;;
  let in_ := if 0 <? n then drop (Z.to_nat (n * block_size)) in_ else in_ in
  let len := if 0 <? n then len - n * block_size else len in
  if negb (len =? 0) then
    data <- put data 0 in_ ;;
    Ret (Md32 h Nl Nh data (u32 len))
  else Ret (Md32 h Nl Nh data num).

Definition crypto_md32_update (c : md32_ctx) (in_ : bytes) : res md32_ctx :=
  let len := Z.of_nat (length in_) in
  if len =? 0 then Ret c
  else
    let l := u32 (md_Nl c + u32 (Z.shiftl (u32 len) 3)) in
    let Nh := if l <? md_Nl c then u32 (md_Nh c + 1) else md_Nh c in
    let Nh := u32 (Nh + u32 (Z.shiftr len 29)) in
    let n := md_num c in
    if negb (n =? 0) then
      if (block_size <=? len) || (block_size <=? u64 (len + n)) then
        part <- get in_ (block_size - n) ;;
        data <- put (md_data c) n part ;;
        h <- block_func (md_h c) data 1 ;;
        data <- put data 0 (zeros block_size) ;;
        update_rest h l Nh data 0 (drop (Z.to_nat (block_size - n)) in_)
      else
        data <- put (md_data c) n in_ ;;
        Ret (Md32 (md_h c) l Nh data (u32 (n + u32 len)))
    else update_rest (md_h c) l Nh (md_data c) n in_.

Definition crypto_md32_final (c : md32_ctx) (is_big_endian : bool) : res md32_ctx :=
  let n := md_num c in
  _ <- c_assert (n <? block_size) ;;
  data <- put (md_data c) n [0x80] ;;
  let n := n + 1 in
  x <- (if block_size - 8 <? n then
          data <- put data n (zeros (block_size - n)) ;;
          h <- block_func (md_h c) data 1 ;;
          Ret (h, data, 0)
        else Ret (md_h c, data, n)) ;;
  let '(h, data, n) := x in
  data <- put data n (zeros (block_size - 8 - n)) ;;
  data <- (if is_big_endian then
             data <- put data (block_size - 8) (CRYPTO_store_u32_be (md_Nh c)) ;;
             put data (block_size - 4) (CRYPTO_store_u32_be (md_Nl c))
           else
             data <- put data (block_size - 8) (CRYPTO_store_u32_le (md_Nl c)) ;;
             put data (block_size - 4) (CRYPTO_store_u32_le (md_Nh c))) ;;
  h <- block_func h data 1 ;;
  data <- put data 0 (zeros block_size) ;;
  Ret (Md32 h (md_Nl c) (md_Nh c) data 0).

(** Updates one after the other. *)
Fixpoint md32_updates (c : md32_ctx) (chunks : list bytes) : res md32_ctx :=
  match chunks with
  | [] => Ret c
  | x :: r => c <- crypto_md32_update c x ;; md32_updates c r
  end.
End md32.

(** ** The construction *)

(** The first [n] blocks of [bs] bytes. *)
Fixpoint blocks (bs : nat) (n : nat) (data : bytes) : list bytes :=
  match n with
  | O => []
  | S k => take bs data :: blocks bs k (drop bs data)
  end.

(** A number of [lb] bytes in either order of its bytes. *)
Definition count_bytes (lb : nat) (be : bool) (v : Z) : bytes :=
  if be then be_bytes lb v else le_bytes lb v.

(** The message, a one bit, zeros up to [lb] bytes before the end of a block, and the
    number of bits in [lb] bytes. *)
Definition padding (bs lb : nat) (be : bool) (len : nat) : bytes :=
  [0x80] ++ zeros ((- (Z.of_nat len + 1 + Z.of_nat lb)) mod Z.of_nat bs) ++
  count_bytes lb be (8 * Z.of_nat len).
Definition pad (bs lb : nat) (be : bool) (msg : bytes) : bytes := msg ++ padding bs lb be (length msg).

Definition merkle_damgard (compress : list Z -> bytes -> list Z) (bs lb : nat) (be : bool)
    (iv : list Z) (msg : bytes) : list Z :=
  let p := pad bs lb be msg in foldl compress iv (blocks bs (length p / bs) p).

Lemma blocks_app bs n k x y :
  length x = (n * bs)%nat -> blocks bs (n + k) (x ++ y) = blocks bs n x ++ blocks bs k y.
Proof.
  revert x; induction n as [|n IH]; intros x Hl; cbn [blocks Nat.add app].
  { destruct x; [done|]. cbn in Hl. lia. }
  rewrite take_app_le, drop_app_le by lia. f_equal. apply IH. rewrite length_drop. lia.
Qed.
Lemma blocks_prefix bs n x y :
  (n * bs <= length x)%nat -> blocks bs n (x ++ y) = blocks bs n x.
Proof.
  revert x; induction n as [|n IH]; intros x Hl; cbn [blocks]; [done|].
  rewrite take_app_le, drop_app_le by lia. f_equal. apply IH. rewrite length_drop. lia.
Qed.

Lemma length_count_bytes lb be v : length (count_bytes lb be v) = lb.
Proof. destruct be; [apply length_be_bytes|apply length_le_bytes]. Qed.

(** The two words of the length in their order. *)
Lemma count_words (be : bool) Nh Nl v :
  0 <= Nl < 2 ^ 32 -> 0 <= Nh < 2 ^ 32 -> Nh * 2 ^ 32 + Nl = v mod 2 ^ 64 ->
  count_bytes 8 be v = if be then CRYPTO_store_u32_be Nh ++ CRYPTO_store_u32_be Nl
                 else CRYPTO_store_u32_le Nl ++ CRYPTO_store_u32_le Nh.
Proof.
  intros Hl Hh Hv. destruct be; unfold count_bytes, CRYPTO_store_u32_be, CRYPTO_store_u32_le.
  - assert (bytes_ok (be_bytes 4 Nh ++ be_bytes 4 Nl)) as Hok
      by (apply Forall_app; split; apply be_bytes_ok).
    rewrite <- (be_bytes_val _ Hok), <- (be_bytes_val _ (be_bytes_ok 8 v)).
    rewrite length_app, !length_be_bytes. f_equal.
    unfold be_val at 2. rewrite foldl_app, be_fold_val. fold (be_val (be_bytes 4 Nh)).
    rewrite !be_val_bytes, length_be_bytes. change (256 ^ Z.of_nat 4) with (2 ^ 32).
    rewrite (Z.mod_small Nh), (Z.mod_small Nl) by lia.
    change (256 ^ Z.of_nat 8) with (2 ^ 64). rewrite <- Hv. lia.
  - assert (bytes_ok (le_bytes 4 Nl ++ le_bytes 4 Nh)) as Hok
      by (apply Forall_app; split; apply le_bytes_ok).
    rewrite <- (le_bytes_val _ Hok), <- (le_bytes_val _ (le_bytes_ok 8 v)).
    rewrite length_app, !length_le_bytes. f_equal.
    rewrite le_val_app, !le_val_bytes, length_le_bytes.
    change (2 ^ (8 * Z.of_nat 4)) with (2 ^ 32). change (256 ^ Z.of_nat 4) with (2 ^ 32).
    rewrite (Z.mod_small Nh), (Z.mod_small Nl) by lia.
    change (2 ^ (8 * Z.of_nat 8)) with (2 ^ 64). rewrite <- Hv. lia.
Qed.
