(* ===== verification/Md32Spec.v ===== *)
(** * Collecting blocks is the Merkle-Damgard construction

    The state of a digest after a message: the chaining value of its whole blocks,
    the rest in the buffer, and the number of bits.  Updates and the final keep it for
    every block function that keeps its promise, so any digest on top of
    md32_common.h is the construction over its compression function; SHA-512, which
    has a collector of its own, shares the first part. *)
From Stdlib Require Import ZArith Lia.
From stdpp Require Import prelude list numbers.
From S2P Require Import Prelude CMem Cells Der DerInt Words Md32.
Local Open Scope Z_scope.
Local Open Scope res_scope.

(** ** States *)

Section collect.
Context (compress : list Z -> bytes -> list Z) (bs : nat).
Local Abbreviation B := (Z.of_nat bs).
Context (bs_range : 8 < B < 2 ^ 32).

(** The state after the message [msg]; the bits are counted in two words of [wb] bits. *)
Record collected (wb : Z) (iv : list Z) (msg : bytes) (c : md32_ctx) : Prop := {
  ab_h : md_h c = foldl compress iv (blocks bs (length msg / bs) msg);
  ab_num : md_num c = Z.of_nat (length msg) mod B;
  ab_len : length (md_data c) = bs;
  ab_data : take (Z.to_nat (md_num c)) (md_data c) = drop (length msg / bs * bs) msg;
  ab_words : 0 <= md_Nl c < 2 ^ wb /\ 0 <= md_Nh c < 2 ^ wb;
  ab_bits : md_Nh c * 2 ^ wb + md_Nl c = (8 * Z.of_nat (length msg)) mod 2 ^ (wb + wb)
}.
(** Where a message is cut into blocks and a rest. *)
Lemma split_blocks (q : nat) m x :
  length m = (q * bs)%nat ->
  (length (m ++ x) / bs = q + length x / bs)%nat /\
  drop ((q + length x / bs) * bs) (m ++ x) = drop (length x / bs * bs) x /\
  blocks bs (q + length x / bs) (m ++ x) = blocks bs q m ++ blocks bs (length x / bs) x.
Proof.
  intros Hm. split_and!.
  - rewrite length_app, Hm, Nat.div_add_l by lia. done.
  - rewrite drop_app_ge by lia. f_equal. lia.
  - by apply blocks_app.
Qed.

Lemma div_bound (x : bytes) : (length x / bs * bs <= length x)%nat.
Proof. rewrite Nat.mul_comm. apply Nat.Div0.mul_div_le. Qed.
Lemma mod_rest (x : bytes) : (length x - length x / bs * bs = length x mod bs)%nat.
Proof. rewrite (Nat.Div0.mod_eq (length x) bs). lia. Qed.

(** The state after whole blocks [m] and then [x], with the rest of it in the buffer. *)
Lemma collect wb iv q m x Nl Nh d num :
  length m = (q * bs)%nat -> length d = bs -> num = Z.of_nat (length x mod bs) ->
  take (length x mod bs) d = drop (length x / bs * bs) x ->
  0 <= Nl < 2 ^ wb /\ 0 <= Nh < 2 ^ wb ->
  Nh * 2 ^ wb + Nl = (8 * Z.of_nat (length (m ++ x))) mod 2 ^ (wb + wb) ->
  collected wb iv (m ++ x)
    (Md32 (foldl compress iv (blocks bs q m ++ blocks bs (length x / bs) x)) Nl Nh d num).
Proof.
  intros Hm Hd -> Ht Hw Hb. destruct (split_blocks q m x Hm) as (Eq & Ed & Eb).
  split; cbn [md_h md_num md_Nl md_Nh md_data]; try done.
  - by rewrite Eq, Eb.
  - rewrite length_app, Hm, <- Nat2Z.inj_mod. f_equal.
    rewrite Nat.add_comm, Nat.Div0.mod_add. done.
  - by rewrite Nat2Z.id, Eq, Ed.
Qed.
(** A rest at the start of the buffer. *)
Lemma take_rest (r d : bytes) : take (length r) (r ++ d) = r.
Proof. apply take_app_length. Qed.

Lemma absorbed_rest wb iv msg c :
  collected wb iv msg c ->
  md_num c = Z.of_nat (length msg mod bs) /\ (length msg mod bs < bs)%nat /\
  length (drop (length msg / bs * bs) msg) = (length msg mod bs)%nat.
Proof.
  intros [_ Hn _ _ _ _]. rewrite <- Nat2Z.inj_mod in Hn. split; [done|].
  split; [apply Nat.mod_upper_bound; lia|]. rewrite length_drop. apply mod_rest.
Qed.

(** The message up to the rest, as blocks. *)
Lemma absorbed_full wb iv msg c :
  collected wb iv msg c ->
  length (take (length msg / bs * bs) msg) = (length msg / bs * bs)%nat /\
  blocks bs (length msg / bs) msg = blocks bs (length msg / bs) (take (length msg / bs * bs) msg).
Proof.
  intros _. pose proof (div_bound msg). rewrite length_take. split; [lia|].
  rewrite <- (take_drop (length msg / bs * bs) msg) at 2.
  apply blocks_prefix. rewrite length_take. lia.
Qed.

(** The state when [x] does not fill the block. *)
Lemma collect_short wb iv msg c x Nl Nh :
  collected wb iv msg c -> (length msg mod bs + length x < bs)%nat ->
  0 <= Nl < 2 ^ wb /\ 0 <= Nh < 2 ^ wb ->
  Nh * 2 ^ wb + Nl = (8 * Z.of_nat (length (msg ++ x))) mod 2 ^ (wb + wb) ->
  exists p, put (md_data c) (md_num c) x = Ret p /\
    collected wb iv (msg ++ x) (Md32 (md_h c) Nl Nh p (md_num c + Z.of_nat (length x))).
Proof.
  intros Ha Hx Hw Hbits. destruct (absorbed_rest _ _ _ _ Ha) as (En & Hlt & Hlr).
  destruct (absorbed_full _ _ _ _ Ha) as (Hlf & Ebf). destruct Ha as [Eh _ Hl Hd _ _].
  set (q := (length msg / bs)%nat) in *. set (r := drop (q * bs) msg) in *.
  set (f := take (q * bs) msg) in *.
  assert (msg = f ++ r) as Emsg by (unfold f, r; by rewrite take_drop).
  rewrite En in Hd |- *. rewrite Nat2Z.id in Hd. rewrite put_run, Nat2Z.id, Hd by lia.
  eexists. split; [done|]. rewrite Emsg, <- app_assoc in Hbits |- *. rewrite <- Emsg.
  assert (length (r ++ x) / bs = 0)%nat as E1 by (apply Nat.div_small; rewrite length_app; lia).
  assert (length (r ++ x) mod bs = length (r ++ x))%nat as E2
    by (apply Nat.mod_small; rewrite length_app; lia).
  pose proof (collect wb iv q f (r ++ x) Nl Nh) as Hc. rewrite E1, E2 in Hc. cbn [blocks] in Hc.
  rewrite app_nil_r, <- Ebf, <- Eh in Hc. apply Hc; try done.
  - rewrite !length_app, length_drop. lia.
  - rewrite length_app. lia.
  - rewrite app_assoc. by rewrite take_rest.
Qed.

(** The last block: the rest, the one bit, zeros and the length, or two of them. *)
Lemma pad_one (lb r z : Z) :
  r + 1 <= B - lb -> 0 <= lb -> 0 <= r -> z mod B = r -> (- (z + 1 + lb)) mod B = B - lb - (r + 1).
Proof.
  intros H1 H0 H2 Hz. pose proof (Z.div_mod z B ltac:(lia)) as E. rewrite Hz in E.
  replace (- (z + 1 + lb)) with (B - lb - (r + 1) + (- (z / B) - 1) * B) by lia.
  rewrite Z.mod_add, Z.mod_small by lia. done.
Qed.
Lemma pad_two (lb r z : Z) :
  B - lb < r + 1 -> r < B -> lb < B -> 0 <= lb -> z mod B = r ->
  (- (z + 1 + lb)) mod B = B - (r + 1) + (B - lb).
Proof.
  intros H1 H2 H3 H0 Hz. pose proof (Z.div_mod z B ltac:(lia)) as E. rewrite Hz in E.
  replace (- (z + 1 + lb)) with (B - (r + 1) + (B - lb) + (- (z / B) - 2) * B) by lia.
  rewrite Z.mod_add, Z.mod_small by lia. done.
Qed.

(** Whole blocks after whole blocks. *)
Lemma blocks_concat blks :
  Forall (fun x => length x = bs) blks -> blocks bs (length blks) (concat blks) = blks.
Proof.
  induction 1 as [|x r Hx Hr IH]; cbn [length blocks concat]; [done|].
  by rewrite take_app_length', drop_app_length', IH.
Qed.
Lemma fold_blocks iv q f blks :
  length f = (q * bs)%nat -> Forall (fun x => length x = bs) blks ->
  foldl compress iv (blocks bs (length (f ++ concat blks) / bs) (f ++ concat blks)) =
  foldl compress (foldl compress iv (blocks bs q f)) blks.
Proof.
  intros Hf Hb. assert (length (concat blks) = (length blks * bs)%nat) as Hc.
  { clear -Hb. induction Hb as [|x r Hx Hr IH]; cbn; [done|]. rewrite length_app. lia. }
  destruct (split_blocks q f (concat blks) Hf) as (E & _ & Eb).
  rewrite Hc, Nat.div_mul in E, Eb by lia.
  rewrite E, Eb, foldl_app, blocks_concat by done. done.
Qed.

(** The message up to the rest, the rest with the one bit. *)
Lemma padded iv (lb : nat) be msg :
  (lb < bs)%nat ->
  let q := (length msg / bs)%nat in
  let f := take (q * bs) msg in
  let a := drop (q * bs) msg ++ [0x80] in
  let count := count_bytes lb be (8 * Z.of_nat (length msg)) in
  let la := Z.of_nat (length a) in
  merkle_damgard compress bs lb be iv msg =
  foldl compress (foldl compress iv (blocks bs q f))
    (if B - Z.of_nat lb <? la then [a ++ zeros (B - la); zeros (B - Z.of_nat lb) ++ count]
     else [a ++ zeros (B - Z.of_nat lb - la) ++ count]).
Proof.
  intros Hlb q f a count la. pose proof (div_bound msg) as Hq. fold q in Hq.
  assert (length f = (q * bs)%nat) as Hf by (unfold f; rewrite length_take; lia).
  pose proof (Nat.mod_upper_bound (length msg) bs ltac:(lia)) as Hlt.
  assert (la = Z.of_nat (length msg mod bs) + 1) as Ela.
  { unfold la, a. rewrite length_app, length_drop. fold q. pose proof (mod_rest msg). fold q in H. cbn. lia. }
  assert (Z.of_nat (length msg) mod B = la - 1) as Em by (rewrite Ela, <- Nat2Z.inj_mod; lia).
  assert (length count = lb) as Hct by apply length_count_bytes.
  rewrite <- fold_blocks by (done || destruct (Z.ltb_spec (B - Z.of_nat lb) la);
    repeat constructor; unfold zeros; rewrite ?length_app, ?Hct, ?length_replicate; unfold la in *; lia).
  unfold merkle_damgard, pad, padding. cbv zeta. fold count.
  replace (msg ++ [0x80] ++ zeros ((- (Z.of_nat (length msg) + 1 + Z.of_nat lb)) mod B) ++ count)
    with (f ++ concat (if B - Z.of_nat lb <? la then [a ++ zeros (B - la); zeros (B - Z.of_nat lb) ++ count]
                       else [a ++ zeros (B - Z.of_nat lb - la) ++ count])); [done|].
  assert (forall y, msg ++ [0x80] ++ y = f ++ a ++ y) as ->
    by (intros y; unfold f, a; by rewrite <- !app_assoc, (app_assoc (take _ _)), take_drop).
  f_equal. destruct (Z.ltb_spec (B - Z.of_nat lb) la); cbn [concat]; rewrite app_nil_r, <- ?app_assoc; f_equal.
  - rewrite (pad_two (Z.of_nat lb) (la - 1)), zeros_app, <- app_assoc by lia. do 2 f_equal. lia.
  - rewrite (pad_one (Z.of_nat lb) (la - 1)) by lia. do 2 f_equal. lia.
Qed.


(** A context that has seen nothing, whatever is in its buffer. *)
Lemma collected_nil wb iv p :
  length p = bs -> 0 <= wb -> collected wb iv [] (Md32 iv 0 0 p 0).
Proof.
  intros Hp Hwb. pose proof (Z.pow_pos_nonneg 2 wb ltac:(lia) Hwb).
  split; cbn [md_h md_num md_Nl md_Nh md_data length]; try done; try lia.
  - by rewrite Nat.Div0.div_0_l.
  - by rewrite drop_nil.
Qed.
End collect.

Lemma merkle_damgard_ok (ok : list Z -> Prop) compress bs lb be iv msg :
  (forall h x, ok h -> ok (compress h x)) -> ok iv -> ok (merkle_damgard compress bs lb be iv msg).
Proof.
  intros Hc Hiv. unfold merkle_damgard. cbv zeta. generalize (pad bs lb be msg). intros p.
  revert iv Hiv. generalize (blocks bs (length p / bs) p). intros l.
  induction l as [|x l IH]; intros iv Hiv; cbn [foldl]; auto.
Qed.

(** ** md32_common.h *)

(** What a digest promises to the collector: its block function runs the compression
    function on one block after the other, and reads no byte that is not there. *)
Class BlockFunction (block_func : list Z -> bytes -> Z -> res (list Z))
    (compress : list Z -> bytes -> list Z) (bs : nat) (st_ok : list Z -> Prop) : Prop := {
  bf_range : 8 < Z.of_nat bs < 2 ^ 32;
  bf_compress_ok h x : st_ok h -> st_ok (compress h x);
  bf_blocks h data n :
    st_ok h -> 0 < n < 2 ^ 64 -> n * Z.of_nat bs <= Z.of_nat (length data) ->
    block_func h data n = Ret (foldl compress h (blocks bs (Z.to_nat n) data))
}.


Section proof.
Context (block_func : list Z -> bytes -> Z -> res (list Z)) {compress : list Z -> bytes -> list Z} {bs : nat}
  {st_ok : list Z -> Prop} {Hbf : BlockFunction block_func compress bs st_ok}.
Local Abbreviation B := (Z.of_nat bs).
Local Abbreviation absorbed := (collected compress bs 32).
Let bs_range : 8 < B < 2 ^ 32 := bf_range.
Let compress_ok := bf_compress_ok (BlockFunction := Hbf).

(** The carry between the two words of the bit count. *)
Lemma bit_count Nl Nh len total :
  0 <= Nl < 2 ^ 32 -> 0 <= Nh < 2 ^ 32 -> 0 <= len < 2 ^ 64 ->
  Nh * 2 ^ 32 + Nl = total mod 2 ^ 64 ->
  let l := u32 (Nl + u32 (Z.shiftl (u32 len) 3)) in
  let Nh1 := if l <? Nl then u32 (Nh + 1) else Nh in
  let Nh2 := u32 (Nh1 + u32 (Z.shiftr len 29)) in
  0 <= l < 2 ^ 32 /\ 0 <= Nh2 < 2 ^ 32 /\ Nh2 * 2 ^ 32 + l = (total + 8 * len) mod 2 ^ 64.
Proof.
  intros HNl HNh Hlen Ht l Nh1 Nh2.
  split; [apply wrap_range; lia|]. split; [apply wrap_range; lia|].
  assert (Z.shiftl (u32 len) 3 = 8 * (len mod 2 ^ 32)) as E1
    by (rewrite Z.shiftl_mul_pow2 by lia; unfold u32, wrap; lia).
  assert (Z.shiftr len 29 = len / 2 ^ 29) as E2 by (apply Z.shiftr_div_pow2; lia).
  unfold Nh2, Nh1, l. rewrite E1, E2. unfold u32, wrap.
  rewrite <- (Z.add_mod_idemp_l total (8 * len) (2 ^ 64)), <- Ht by lia.
  change (2 ^ 29) with 536870912 in *. change (2 ^ 32) with 4294967296 in *.
  change (2 ^ 64) with 18446744073709551616 in *.
  destruct (Z.ltb_spec ((Nl + (8 * (len mod 4294967296)) mod 4294967296) mod 4294967296) Nl);
    Z.div_mod_to_equations; lia.
Qed.

Lemma func_run h data n :
  st_ok h -> (0 < n)%nat -> Z.of_nat n < 2 ^ 64 -> (n * bs <= length data)%nat ->
  block_func h data (Z.of_nat n) = Ret (foldl compress h (blocks bs n data)).
Proof. intros Hh H0 H1 Hn. rewrite bf_blocks by (done || lia). by rewrite Nat2Z.id. Qed.
Lemma fold_ok h l : st_ok h -> st_ok (foldl compress h l).
Proof. revert h; induction l as [|x l IH]; intros h Hh; cbn; auto. Qed.

Ltac run_func :=
  rewrite func_run by (repeat apply fold_ok; done || lia || (rewrite length_app; lia)); cbn [rbind].

Lemma update_rest_run iv q m Nl Nh data x :
  st_ok iv -> Z.of_nat (length x) < 2 ^ 64 -> length m = (q * bs)%nat -> length data = bs ->
  0 <= Nl < 2 ^ 32 /\ 0 <= Nh < 2 ^ 32 ->
  Nh * 2 ^ 32 + Nl = (8 * Z.of_nat (length (m ++ x))) mod 2 ^ 64 ->
  exists c, update_rest block_func B (foldl compress iv (blocks bs q m)) Nl Nh data 0 x = Ret c /\
            absorbed iv (m ++ x) c.
Proof.
  intros Hiv Hx Hm Hd Hw Hbits.
  set (k := (length x / bs)%nat). pose proof (div_bound bs x) as Hk. fold k in Hk.
  assert (k <= length x)%nat as Hkx by nia.
  assert (Z.of_nat (length x) / B = Z.of_nat k) as Ek by (unfold k; by rewrite Nat2Z.inj_div).
  pose proof (mod_rest bs x) as Hr. fold k in Hr.
  pose proof (Nat.mod_upper_bound (length x) bs ltac:(lia)) as Hlt.
  set (r := drop (k * bs) x). assert (length r = (length x mod bs)%nat) as Hlr
    by (unfold r; rewrite length_drop; lia).
  set (h := foldl compress iv (blocks bs q m ++ blocks bs k x)).
  assert (update_rest block_func B (foldl compress iv (blocks bs q m)) Nl Nh data 0 x =
    (if negb (Z.of_nat (length r) =? 0) then
       data <- put data 0 r ;; Ret (Md32 h Nl Nh data (u32 (Z.of_nat (length r))))
     else Ret (Md32 h Nl Nh data 0))) as ->.
  { unfold update_rest, h. cbv zeta. rewrite Ek, foldl_app.
    destruct (Z.ltb_spec 0 (Z.of_nat k)) as [Hp|Hp].
    - run_func. replace (Z.to_nat (Z.of_nat k * B)) with (k * bs)%nat by lia.
      fold r. by replace (Z.of_nat (length x) - Z.of_nat k * B) with (Z.of_nat (length r)) by lia.
    - assert (k = 0%nat) as Ek0 by lia. unfold r. rewrite Ek0. done. }
  destruct (Z.eqb_spec (Z.of_nat (length r)) 0) as [E0|E0]; cbn [negb].
  - eexists. split; [done|]. apply collect; try done; [lia|].
    fold k r. rewrite <- Hlr. by destruct r.
  - rewrite put_run by lia. cbn [rbind]. eexists. split; [done|].
    unfold u32. rewrite wrap_small by lia. change (take (Z.to_nat 0) data) with ([] : bytes).
    cbn [app]. apply collect; try done.
    + rewrite !length_app, length_drop. lia.
    + lia.
    + fold k r. rewrite <- Hlr. apply take_rest.
Qed.

Lemma update_run iv msg c x :
  st_ok iv -> absorbed iv msg c -> Z.of_nat (length x) < 2 ^ 64 ->
  exists c', crypto_md32_update block_func B c x = Ret c' /\ absorbed iv (msg ++ x) c'.
Proof.
  intros Hiv Ha Hx. destruct (absorbed_rest _ _ bs_range _ _ _ _ Ha) as (En & Hlt & Hlr).
  destruct (absorbed_full _ _ _ _ _ _ Ha) as (Hlf & Ebf).
  pose proof Ha as [Eh _ Hl Hd Hw Hb].
  set (q := (length msg / bs)%nat) in *. set (r := drop (q * bs) msg) in *.
  set (f := take (q * bs) msg) in *.
  assert (msg = f ++ r) as Emsg by (unfold f, r; by rewrite take_drop).
  unfold crypto_md32_update. cbv zeta.
  destruct (Z.eqb_spec (Z.of_nat (length x)) 0) as [E0|E0].
  { destruct x; [|cbn in E0; lia]. rewrite app_nil_r. exists c. split; [done|].
    rewrite En in Hd. split; try done. by rewrite En, Nat2Z.inj_mod. by rewrite En. }
  destruct (bit_count (md_Nl c) (md_Nh c) (Z.of_nat (length x)) (8 * Z.of_nat (length msg)))
    as (Hl' & Hh' & Hbits); try tauto; [lia|].
  replace (8 * Z.of_nat (length msg) + 8 * Z.of_nat (length x))
    with (8 * Z.of_nat (length (msg ++ x))) in Hbits by (rewrite length_app; lia).
  set (l := u32 (md_Nl c + _)) in *. set (Nh := u32 (_ + u32 (Z.shiftr _ 29))) in *.
  rewrite En. destruct (Z.eqb_spec (Z.of_nat (length msg mod bs)) 0) as [Er|Er]; cbn [negb].
  - assert (r = []) as Hr0 by (destruct r; [done|cbn in Hlr; lia]).
    rewrite Eh, Ebf, Er. rewrite Emsg, Hr0, app_nil_r in Hbits |- *.
    by apply update_rest_run.
  - unfold u64. destruct (Z.leb_spec B (Z.of_nat (length x))) as [Hbig|Hsm];
      [|rewrite wrap_small by lia];
      [|destruct (Z.leb_spec B (Z.of_nat (length x) + Z.of_nat (length msg mod bs)))].
    (* the block is filled *)
    1, 2: cbn [orb]; rewrite get_run by lia; cbn [rbind];
      set (y := take (Z.to_nat (B - Z.of_nat (length msg mod bs))) x);
      assert (length y = bs - length msg mod bs)%nat as Hy by (unfold y; rewrite length_take; lia);
      rewrite put_run by lia; cbn [rbind]; rewrite Nat2Z.id, Hy;
      rewrite (drop_ge (md_data c)), app_nil_r by lia;
      rewrite En, Nat2Z.id in Hd; rewrite Hd;
      rewrite put_zeros by (rewrite length_app; lia); cbn [rbind];
      change 1 with (Z.of_nat 1); rewrite Eh, Ebf; run_func;
      rewrite <- foldl_app, <- (blocks_app bs q 1 f (r ++ y)) by done;
      assert (msg ++ x = (f ++ (r ++ y)) ++ drop (Z.to_nat (B - Z.of_nat (length msg mod bs))) x)
        as Emx by (rewrite Emsg at 1; rewrite <- !app_assoc; unfold y; by rewrite take_drop);
      rewrite Emx in Hbits |- *; apply update_rest_run; try done;
      [rewrite length_drop; lia|rewrite !length_app; lia|pose proof (length_zeros B); lia].
    (* it is not *)
    cbn [orb]. destruct (collect_short compress bs bs_range 32 iv msg c x l Nh) as (p & Ep & Hc); try done; [lia|].
    rewrite En in Ep, Hc. rewrite Ep. cbn [rbind]. eexists. split; [done|].
    unfold u32 at 1 2. rewrite (wrap_small 32 (Z.of_nat (length x))), wrap_small by lia. exact Hc.
Qed.

Lemma updates_run iv msg c chunks :
  st_ok iv -> absorbed iv msg c -> Forall (fun x => Z.of_nat (length x) < 2 ^ 64) chunks ->
  exists c', md32_updates block_func B c chunks = Ret c' /\ absorbed iv (msg ++ concat chunks) c'.
Proof.
  intros Hiv Ha Hc. revert msg c Ha; induction Hc as [|x r Hx Hr IH]; intros msg c Ha; cbn.
  { rewrite app_nil_r. eauto. }
  destruct (update_run iv msg c x Hiv Ha Hx) as (c' & -> & Ha'). cbn [rbind].
  destruct (IH _ _ Ha') as (c2 & E & Ha2). exists c2. by rewrite app_assoc.
Qed.

(** The end of [crypto_md32_final] on a block that starts with [a]. *)
Lemma last_block {T} (be : bool) (a d : bytes) Nl Nh (v : Z) (K : bytes -> res T) :
  length (a ++ d) = bs -> Z.of_nat (length a) <= B - 8 ->
  0 <= Nl < 2 ^ 32 -> 0 <= Nh < 2 ^ 32 -> Nh * 2 ^ 32 + Nl = v mod 2 ^ 64 ->
  (data <- put (a ++ d) (Z.of_nat (length a)) (zeros (B - 8 - Z.of_nat (length a))) ;;
   data <- (if be then
              data <- put data (B - 8) (CRYPTO_store_u32_be Nh) ;;
              put data (B - 4) (CRYPTO_store_u32_be Nl)
            else
              data <- put data (B - 8) (CRYPTO_store_u32_le Nl) ;;
              put data (B - 4) (CRYPTO_store_u32_le Nh)) ;;
   K data)
  = K (a ++ zeros (B - 8 - Z.of_nat (length a)) ++ count_bytes 8 be v).
Proof.
  intros Hl Ha Hw1 Hw2 Hv. set (z := zeros (B - 8 - Z.of_nat (length a))).
  assert (Z.of_nat (length z) = B - 8 - Z.of_nat (length a)) as Hz by (apply length_zeros; lia).
  rewrite length_app in Hl. rewrite put_app by lia. cbn [rbind].
  rewrite (count_words be Nh Nl v) by done.
  assert (forall x y, length x = 4%nat -> length y = 4%nat ->
    (data <- put (a ++ z ++ drop (length z) d) (B - 8) x ;; put data (B - 4) y)
    = Ret (a ++ z ++ x ++ y)) as Hp.
  { intros x y Hx Hy. rewrite (app_assoc a z).
    replace (B - 8) with (Z.of_nat (length (a ++ z))) by (rewrite length_app; lia).
    rewrite put_app by (rewrite length_drop; lia). cbn [rbind].
    rewrite (app_assoc _ x), drop_drop.
    replace (B - 4) with (Z.of_nat (length ((a ++ z) ++ x))) by (rewrite !length_app; lia).
    rewrite put_app by (rewrite length_drop; lia).
    rewrite drop_drop, (drop_ge d), app_nil_r by lia. by rewrite <- !app_assoc. }
  destruct be; rewrite Hp by (apply length_be_bytes || apply length_le_bytes); done.
Qed.

Lemma final_run iv msg c be :
  st_ok iv -> absorbed iv msg c ->
  exists c', crypto_md32_final block_func B c be = Ret c' /\
    md_h c' = merkle_damgard compress bs 8 be iv msg.
Proof.
  intros Hiv Ha. destruct (absorbed_rest _ _ bs_range _ _ _ _ Ha) as (En & Hlt & Hlr).
  destruct (absorbed_full _ _ _ _ _ _ Ha) as (Hlf & Ebf).
  destruct Ha as [Eh _ Hl Hd [Hw1 Hw2] Hb].
  rewrite padded by lia. cbv zeta.
  set (q := (length msg / bs)%nat) in *. set (r := drop (q * bs) msg) in *.
  set (f := take (q * bs) msg) in *.
  assert (md_data c = r ++ drop (length r) (md_data c)) as Ed.
  { rewrite En, Nat2Z.id in Hd. rewrite <- Hd at 1. by rewrite Hlr, take_drop. }
  rewrite <- Hlr in En. set (d := drop (length r) (md_data c)) in *.
  assert (length (r ++ d) = bs) as Hrd by (by rewrite <- Ed).
  unfold crypto_md32_final, c_assert. cbv zeta. rewrite En, (proj2 (Z.ltb_lt _ _)) by lia.
  cbn [rbind]. rewrite Ed, put_app by (rewrite length_app in Hrd; cbn; lia).
  cbn [rbind length]. rewrite (app_assoc r [0x80]).
  set (a := r ++ [0x80]) in *. assert (length a = S (length r)) as Hla
    by (unfold a; rewrite length_app; cbn; lia).
  assert (length (a ++ drop 1 d) = bs) as Hrd'
    by (rewrite length_app, length_drop; rewrite length_app in Hrd; lia).
  replace (Z.of_nat (length r) + 1) with (Z.of_nat (length a)) by lia.
  change (Z.of_nat 8) with 8.
  destruct (Z.ltb_spec (B - 8) (Z.of_nat (length a))) as [Hbig|Hsm].
  - set (z := zeros (B - Z.of_nat (length a))).
    assert (Z.of_nat (length z) = B - Z.of_nat (length a)) as Hz by (apply length_zeros; lia).
    rewrite put_app by (rewrite length_app in Hrd'; lia). cbn [rbind].
    rewrite (drop_ge (drop 1 d)), app_nil_r by (rewrite length_app in Hrd'; lia).
    assert (length (a ++ z) = bs) as Haz by (rewrite length_app; lia).
    change 1 with (Z.of_nat 1). rewrite Eh, Ebf. run_func.
    rewrite (last_block be [] (a ++ z) (md_Nl c) (md_Nh c) (8 * Z.of_nat (length msg))) by (done || cbn; lia).
    cbn [app length]. rewrite Z.sub_0_r.
    set (y := zeros (B - 8) ++ _). assert (length y = bs) as Hb2.
    { unfold y. rewrite length_app, length_count_bytes. pose proof (length_zeros (B - 8)). lia. }
    run_func. rewrite put_zeros by lia. cbn [rbind]. eexists. split; [done|]. cbn [md_h].
    cbn [blocks foldl]. by rewrite !take_ge by lia.
  - cbn [rbind].
    rewrite (last_block be a (drop 1 d) (md_Nl c) (md_Nh c) (8 * Z.of_nat (length msg))) by done.
    set (y := a ++ _). assert (length y = bs) as Hb2.
    { unfold y. rewrite !length_app, length_count_bytes.
      pose proof (length_zeros (B - 8 - Z.of_nat (length a))). lia. }
    change 1 with (Z.of_nat 1). rewrite Eh, Ebf. run_func. rewrite put_zeros by lia. cbn [rbind].
    eexists. split; [done|]. cbn [md_h blocks foldl]. by rewrite !take_ge by lia.
Qed.

Lemma final_state iv msg c be :
  st_ok iv -> absorbed iv msg c ->
  exists c', crypto_md32_final block_func B c be = Ret c' /\ st_ok (md_h c') /\
    md_h c' = merkle_damgard compress bs 8 be iv msg.
Proof.
  intros Hiv Ha. destruct (final_run iv msg c be Hiv Ha) as (c' & E & Eh). exists c'.
  split; [done|]. split; [|done]. rewrite Eh. by apply merkle_damgard_ok.
Qed.
End proof.
