(* ===== verification/Sha1.v ===== *)
(** * BoringSSL: SHA-1 (crypto/fipsmodule/sha/sha1.c)

    The C code of the digest, as it is compiled without assembly routines.  The six
    variables A, B, C, D, E, T are the places 0 to 5 of a list, and X(0) to X(15)
    another list; the calls of the round macros are transcribed one by one. *)
From Stdlib Require Import ZArith Lia.
From stdpp Require Import prelude list numbers.
From S2P Require Import Prelude CMem Cells Der Words Md32.
Local Open Scope Z_scope.
Local Open Scope res_scope.

Definition SHA_CBLOCK : Z := 64.
Definition SHA1_Init : md32_ctx :=
  Md32 [0x6745_2301; 0xefcd_ab89; 0x98ba_dcfe; 0x1032_5476; 0xc3d2_e1f0]
       0 0 (zeros SHA_CBLOCK) 0.

(** ** Rounds *)

Definition K_00_19 : Z := 0x5a82_7999.
Definition K_20_39 : Z := 0x6ed9_eba1.
Definition K_40_59 : Z := 0x8f1b_bcdc.
Definition K_60_79 : Z := 0xca62_c1d6.

Definition F_00_19 (b c d : Z) : Z := Z.lxor (Z.land (Z.lxor c d) b) d.
Definition F_20_39 (b c d : Z) : Z := Z.lxor (Z.lxor b c) d.
Definition F_40_59 (b c d : Z) : Z := Z.lor (Z.land b c) (Z.land (Z.lor b c) d).
Definition F_60_79 (b c d : Z) : Z := F_20_39 b c d.

Local Abbreviation plus := (wadd 32).

(** The places of the six variables and of the words that a macro is given. *)
Abbreviation args := (list nat * list nat)%type.

Definition BODY_00_15 (c : args) (s : list Z * list Z) : list Z * list Z :=
  let '(X, r) := s in
  match c with
  | ([a; b; c; d; e; f], [xi]) =>
      let r := set_word f (plus (plus (plus (plus (word X xi) (word r e)) K_00_19)
                                      (CRYPTO_rotl_u32 (word r a) 5))
                                (F_00_19 (word r b) (word r c) (word r d))) r in
      (X, set_word b (CRYPTO_rotl_u32 (word r b) 30) r)
  | _ => s
  end.

(** [Xupdate(f, xi, xa, xb, xc, xd)]: the new word, for both of its places. *)
Definition Xupdate (X : list Z) (xa xb xc xd : nat) : Z :=
  CRYPTO_rotl_u32 (Z.lxor (Z.lxor (Z.lxor (word X xa) (word X xb)) (word X xc)) (word X xd)) 1.

(** The macros from BODY_16_19 to BODY_40_59 are the same but for the constant and
    the function. *)
Definition BODY_16_59 (K : Z) (F : Z -> Z -> Z -> Z) (xi xa xb xc xd : nat) (regs : list nat)
    (s : list Z * list Z) : list Z * list Z :=
  let '(X, r) := s in
  match regs with
  | [a; b; c; d; e; f] =>
      let t := Xupdate X xa xb xc xd in
      let X := set_word xi t X in
      let r := set_word f t r in
      let r := set_word f (plus (word r f) (plus (plus (plus (word r e) K) (CRYPTO_rotl_u32 (word r a) 5))
                                                 (F (word r b) (word r c) (word r d)))) r in
      (X, set_word b (CRYPTO_rotl_u32 (word r b) 30) r)
  | _ => s
  end.
Definition BODY_16_19 (c : args) (s : list Z * list Z) : list Z * list Z :=
  match c.2 with
  | [xi; xa; xb; xc; xd] => BODY_16_59 K_00_19 F_00_19 xi xa xb xc xd c.1 s
  | _ => s
  end.
Definition BODY_20_31 (c : args) (s : list Z * list Z) : list Z * list Z :=
  match c.2 with
  | [xi; xa; xb; xc; xd] => BODY_16_59 K_20_39 F_20_39 xi xa xb xc xd c.1 s
  | _ => s
  end.
Definition BODY_32_39 (c : args) (s : list Z * list Z) : list Z * list Z :=
  match c.2 with
  | [xa; xb; xc; xd] => BODY_16_59 K_20_39 F_20_39 xa xa xb xc xd c.1 s
  | _ => s
  end.
Definition BODY_40_59 (c : args) (s : list Z * list Z) : list Z * list Z :=
  match c.2 with
  | [xa; xb; xc; xd] => BODY_16_59 K_40_59 F_40_59 xa xa xb xc xd c.1 s
  | _ => s
  end.
Definition BODY_60_79 (c : args) (s : list Z * list Z) : list Z * list Z :=
  let '(X, r) := s in
  match c with
  | ([a; b; c; d; e; f], [xa; xb; xc; xd]) =>
      let t := Xupdate X xa xb xc xd in
      let X := set_word xa t X in
      let r := set_word f t r in
      let r := set_word f (plus (plus (plus (plus (word X xa) (word r e)) K_60_79)
                                      (CRYPTO_rotl_u32 (word r a) 5))
                                (F_60_79 (word r b) (word r c) (word r d))) r in
      (X, set_word b (CRYPTO_rotl_u32 (word r b) 30) r)
  | _ => s
  end.

(** ** The calls *)

Definition calls_00_15 : list (list nat * list nat) :=
  [([0; 1; 2; 3; 4; 5], [0]); ([5; 0; 1; 2; 3; 4], [1]);
   ([4; 5; 0; 1; 2; 3], [2]); ([3; 4; 5; 0; 1; 2], [3]);
   ([2; 3; 4; 5; 0; 1], [4]); ([1; 2; 3; 4; 5; 0], [5]);
   ([0; 1; 2; 3; 4; 5], [6]); ([5; 0; 1; 2; 3; 4], [7]);
   ([4; 5; 0; 1; 2; 3], [8]); ([3; 4; 5; 0; 1; 2], [9]);
   ([2; 3; 4; 5; 0; 1], [10]); ([1; 2; 3; 4; 5; 0], [11]);
   ([0; 1; 2; 3; 4; 5], [12]); ([5; 0; 1; 2; 3; 4], [13]);
   ([4; 5; 0; 1; 2; 3], [14]); ([3; 4; 5; 0; 1; 2], [15])]%nat.
Definition calls_16_19 : list (list nat * list nat) :=
  [([2; 3; 4; 5; 0; 1], [0; 0; 2; 8; 13]); ([1; 2; 3; 4; 5; 0], [1; 1; 3; 9; 14]);
   ([0; 1; 2; 3; 4; 5], [2; 2; 4; 10; 15]); ([5; 0; 1; 2; 3; 4], [3; 3; 5; 11; 0])]%nat.
Definition calls_20_31 : list (list nat * list nat) :=
  [([4; 5; 0; 1; 2; 3], [4; 4; 6; 12; 1]); ([3; 4; 5; 0; 1; 2], [5; 5; 7; 13; 2]);
   ([2; 3; 4; 5; 0; 1], [6; 6; 8; 14; 3]); ([1; 2; 3; 4; 5; 0], [7; 7; 9; 15; 4]);
   ([0; 1; 2; 3; 4; 5], [8; 8; 10; 0; 5]); ([5; 0; 1; 2; 3; 4], [9; 9; 11; 1; 6]);
   ([4; 5; 0; 1; 2; 3], [10; 10; 12; 2; 7]); ([3; 4; 5; 0; 1; 2], [11; 11; 13; 3; 8]);
   ([2; 3; 4; 5; 0; 1], [12; 12; 14; 4; 9]); ([1; 2; 3; 4; 5; 0], [13; 13; 15; 5; 10]);
   ([0; 1; 2; 3; 4; 5], [14; 14; 0; 6; 11]); ([5; 0; 1; 2; 3; 4], [15; 15; 1; 7; 12])]%nat.
Definition calls_32_39 : list (list nat * list nat) :=
  [([4; 5; 0; 1; 2; 3], [0; 2; 8; 13]); ([3; 4; 5; 0; 1; 2], [1; 3; 9; 14]);
   ([2; 3; 4; 5; 0; 1], [2; 4; 10; 15]); ([1; 2; 3; 4; 5; 0], [3; 5; 11; 0]);
   ([0; 1; 2; 3; 4; 5], [4; 6; 12; 1]); ([5; 0; 1; 2; 3; 4], [5; 7; 13; 2]);
   ([4; 5; 0; 1; 2; 3], [6; 8; 14; 3]); ([3; 4; 5; 0; 1; 2], [7; 9; 15; 4])]%nat.
Definition calls_40_59 : list (list nat * list nat) :=
  [([2; 3; 4; 5; 0; 1], [8; 10; 0; 5]); ([1; 2; 3; 4; 5; 0], [9; 11; 1; 6]);
   ([0; 1; 2; 3; 4; 5], [10; 12; 2; 7]); ([5; 0; 1; 2; 3; 4], [11; 13; 3; 8]);
   ([4; 5; 0; 1; 2; 3], [12; 14; 4; 9]); ([3; 4; 5; 0; 1; 2], [13; 15; 5; 10]);
   ([2; 3; 4; 5; 0; 1], [14; 0; 6; 11]); ([1; 2; 3; 4; 5; 0], [15; 1; 7; 12]);
   ([0; 1; 2; 3; 4; 5], [0; 2; 8; 13]); ([5; 0; 1; 2; 3; 4], [1; 3; 9; 14]);
   ([4; 5; 0; 1; 2; 3], [2; 4; 10; 15]); ([3; 4; 5; 0; 1; 2], [3; 5; 11; 0]);
   ([2; 3; 4; 5; 0; 1], [4; 6; 12; 1]); ([1; 2; 3; 4; 5; 0], [5; 7; 13; 2]);
   ([0; 1; 2; 3; 4; 5], [6; 8; 14; 3]); ([5; 0; 1; 2; 3; 4], [7; 9; 15; 4]);
   ([4; 5; 0; 1; 2; 3], [8; 10; 0; 5]); ([3; 4; 5; 0; 1; 2], [9; 11; 1; 6]);
   ([2; 3; 4; 5; 0; 1], [10; 12; 2; 7]); ([1; 2; 3; 4; 5; 0], [11; 13; 3; 8])]%nat.
Definition calls_60_79 : list (list nat * list nat) :=
  [([0; 1; 2; 3; 4; 5], [12; 14; 4; 9]); ([5; 0; 1; 2; 3; 4], [13; 15; 5; 10]);
   ([4; 5; 0; 1; 2; 3], [14; 0; 6; 11]); ([3; 4; 5; 0; 1; 2], [15; 1; 7; 12]);
   ([2; 3; 4; 5; 0; 1], [0; 2; 8; 13]); ([1; 2; 3; 4; 5; 0], [1; 3; 9; 14]);
   ([0; 1; 2; 3; 4; 5], [2; 4; 10; 15]); ([5; 0; 1; 2; 3; 4], [3; 5; 11; 0]);
   ([4; 5; 0; 1; 2; 3], [4; 6; 12; 1]); ([3; 4; 5; 0; 1; 2], [5; 7; 13; 2]);
   ([2; 3; 4; 5; 0; 1], [6; 8; 14; 3]); ([1; 2; 3; 4; 5; 0], [7; 9; 15; 4]);
   ([0; 1; 2; 3; 4; 5], [8; 10; 0; 5]); ([5; 0; 1; 2; 3; 4], [9; 11; 1; 6]);
   ([4; 5; 0; 1; 2; 3], [10; 12; 2; 7]); ([3; 4; 5; 0; 1; 2], [11; 13; 3; 8]);
   ([2; 3; 4; 5; 0; 1], [12; 14; 4; 9]); ([1; 2; 3; 4; 5; 0], [13; 15; 5; 10]);
   ([0; 1; 2; 3; 4; 5], [14; 0; 6; 11]); ([5; 0; 1; 2; 3; 4], [15; 1; 7; 12])]%nat.

Definition all_calls (s : list Z * list Z) : list Z * list Z :=
  let run body l s := foldl (fun s c => body c s) s l in
  run BODY_60_79 calls_60_79
    (run BODY_40_59 calls_40_59
      (run BODY_32_39 calls_32_39
        (run BODY_20_31 calls_20_31
          (run BODY_16_19 calls_16_19
            (run BODY_00_15 calls_00_15 s))))).

(** ** Blocks *)

(** The end of the loop: [E, T, A, B, C] hold the new values. *)
Definition add_state (state r : list Z) : list Z :=
  zip_with (fun x i => u32 (Z.land (x + word r i) 0xffff_ffff)) state [4; 5; 0; 1; 2]%nat.

(** [for (;;)]: at least one block.  [T] is what the variable holds from before.  A
    word is loaded just before its first use; here all are at once.  The fuel is one
    more than the blocks the data can have. *)
Fixpoint sha1_blocks (fuel : nat) (T : Z) (state : list Z) (data : bytes) (num : Z) : res (list Z) :=
  match fuel with
  | O => OutOfFuel
  | S n =>
      if Nat.eqb (length state) 5 then
        X <- load_words CRYPTO_load_u32_be 4 16 data ;;
        let r := (all_calls (X, state ++ [T])).2 in
        let state := add_state state r in
        let num := u64 (num - 1) in
        if num =? 0 then Ret state
        else sha1_blocks n (word r 5) state (drop 64 data) num
      else UB
  end.
Definition sha1_block_data_order_nohw (T : Z) (state : list Z) (data : bytes) (num : Z) : res (list Z) :=
  sha1_blocks (S (length data)) T state data num.

(** [T] has no value at first: any will do. *)
Section digest.
Context (T : Z).
Definition sha1_block_data_order := sha1_block_data_order_nohw T.

Definition SHA1_Transform (c : md32_ctx) (data : bytes) : res md32_ctx :=
  h <- sha1_block_data_order (md_h c) data 1 ;;
  Ret (Md32 h (md_Nl c) (md_Nh c) (md_data c) (md_num c)).
Definition SHA1_Update (c : md32_ctx) (data : bytes) : res md32_ctx :=
  crypto_md32_update sha1_block_data_order SHA_CBLOCK c data.
Definition sha1_output_state (c : md32_ctx) : res bytes :=
  words <- get (md_h c) 5 ;;
  Ret (concat (CRYPTO_store_u32_be <$> words)).
Definition SHA1_Final (c : md32_ctx) : res (bytes * md32_ctx) :=
  c <- crypto_md32_final sha1_block_data_order SHA_CBLOCK c true ;;
  out <- sha1_output_state c ;;
  Ret (out, c).
Definition SHA1 (data : bytes) : res bytes :=
  c <- SHA1_Update SHA1_Init data ;;
  r <- SHA1_Final c ;;
  Ret r.1.
End digest.

(** "abc" *)
Example sha1_abc : SHA1 7 [97; 98; 99] = Ret (be_bytes 20
  0xa999_3e36_4706_816a_ba3e_2571_7850_c26c_9cd0_d89d).
Proof. vm_compute. reflexivity. Qed.
