(* ===== verification/Sha1Spec.v ===== *)
(** * SHA-1 is the hash function of FIPS 180-4 *)
From Stdlib Require Import ZArith Lia.
From stdpp Require Import prelude list numbers.
From S2P Require Import Prelude CMem Cells Der Words Md32 Md32Spec Sha1.
Local Open Scope Z_scope.
Local Open Scope res_scope.
Local Abbreviation plus := (wadd 32).

(** ** FIPS 180-4 *)

Definition fips_Ch (x y z : Z) : Z := Z.lxor (Z.land x y) (Z.land (Z.lnot x) z).
Definition fips_Parity (x y z : Z) : Z := Z.lxor (Z.lxor x y) z.
Definition fips_Maj (x y z : Z) : Z := Z.lxor (Z.lxor (Z.land x y) (Z.land x z)) (Z.land y z).

Definition sha1_f (t : nat) : Z -> Z -> Z -> Z :=
  if (t <? 20)%nat then fips_Ch else if (t <? 40)%nat then fips_Parity
  else if (t <? 60)%nat then fips_Maj else fips_Parity.
(** 2^30 times the roots of 2, 3, 5 and 10. *)
Definition sha1_K (t : nat) : Z :=
  Z.sqrt ((if (t <? 20)%nat then 2 else if (t <? 40)%nat then 3
           else if (t <? 60)%nat then 5 else 10) * 2 ^ 60).

Definition sha1_next (W : list Z) : Z :=
  let t := length W in
  ROTL 32 1 (Z.lxor (Z.lxor (Z.lxor (word W (t - 3)) (word W (t - 8))) (word W (t - 14))) (word W (t - 16))).

Definition sha1_round (t : nat) (Wt : Z) (l : list Z) : list Z :=
  match l with
  | [a; b; c; d; e] =>
      [plus (plus (plus (plus (ROTL 32 5 a) (sha1_f t b c d)) e) (sha1_K t)) Wt; a; ROTL 32 30 b; c; d]
  | _ => l
  end.
Definition sha1_rounds (W : list Z) (l : list Z) (ts : list nat) : list Z :=
  foldl (fun l t => sha1_round t (word W t) l) l ts.
Definition compress_sha1 (st : list Z) (block : bytes) : list Z :=
  zip_with plus st (sha1_rounds (schedule sha1_next (be_val <$> chunks 4 16 block) 80) st (seq 0 80)).
Definition fips_sha1 (msg : bytes) : bytes :=
  concat (be_bytes 4 <$> merkle_damgard compress_sha1 64 8 true (md_h SHA1_Init) msg).

(** ** Functions *)

Lemma F_00_19_Ch b c d : F_00_19 b c d = fips_Ch b c d.
Proof. unfold F_00_19, fips_Ch. bits. Qed.
Lemma F_40_59_Maj b c d : F_40_59 b c d = fips_Maj b c d.
Proof. unfold F_40_59, fips_Maj. bits. Qed.
Lemma F_20_39_Parity b c d : F_20_39 b c d = fips_Parity b c d.
Proof. reflexivity. Qed.

(** ** Rounds *)

Section rounds.
Context (W st : list Z) (W_next : forall t, (16 <= t < 80)%nat -> word W t = sha1_next (take t W)).
Context (W_len : length W = 80%nat).

(** After [t] rounds. *)
Record after (t : nat) (s : list Z * list Z) : Prop := {
  at_X : window s.1 W (Nat.max t 16);
  at_len : length s.2 = 6%nat;
  at_view : take 5 (view 6 t s.2) = sha1_rounds W st (seq 0 t)
}.

Lemma rounds_S t : sha1_rounds W st (seq 0 (S t)) = sha1_round t (word W t) (sha1_rounds W st (seq 0 t)).
Proof. unfold sha1_rounds. by rewrite seq_S, foldl_app. Qed.

(** What the macros do to the registers. *)
Lemma round_regs t r (K Wt v : Z) (F : Z -> Z -> Z -> Z) a b c d e f :
  names 6 t = [a; b; c; d; e; f] -> length r = 6%nat ->
  (forall x y z, F x y z = sha1_f t x y z) -> K = sha1_K t ->
  v = plus (plus (plus (plus Wt (word r e)) K) (CRYPTO_rotl_u32 (word r a) 5))
           (F (word r b) (word r c) (word r d)) ->
  let r' := set_word f v r in
  take 5 (view 6 (S t) (set_word b (CRYPTO_rotl_u32 (word r' b) 30) r')) =
  sha1_round t Wt (take 5 (view 6 t r)).
Proof.
  intros Hn Hl HF -> -> r'. unfold r'. do 7 (destruct r as [|? r]; try done).
  rewrite (view_period 6 (S t)) by lia. unfold view at 2. rewrite Hn.
  replace (S t mod 6)%nat with (S (t mod 6) mod 6)%nat
    by (rewrite <- (Nat.add_1_r (t mod 6)), Nat.Div0.add_mod_idemp_l, Nat.add_1_r; done).
  rewrite (names_period 6 t) in Hn by lia.
  pose proof (Nat.mod_upper_bound t 6 ltac:(lia)) as Hr.
  unfold sha1_round. set (g := sha1_f t) in *. set (K := sha1_K t). clearbody g K.
  set (k := (t mod 6)%nat) in *. clearbody k.
  do 6 (destruct k as [|k]; [injection Hn as <- <- <- <- <- <-; cbn; rewrite HF, !rotl_u32_ROTL by lia;
     repeat apply (f_equal2 cons); try reflexivity; word_sum|]).
  lia.
Qed.

Definition xs (l : list nat) (t : nat) : args := (names 6 t, (fun k => (t + k) mod 16)%nat <$> l).

Lemma names_6 t : exists a b c d e f,
  names 6 t = [a; b; c; d; e; f] /\ (f < 6 /\ f <> a /\ f <> b /\ f <> c /\ f <> d /\ f <> e)%nat.
Proof.
  rewrite names_period by lia. pose proof (Nat.mod_upper_bound t 6 ltac:(lia)) as Hr.
  set (k := (t mod 6)%nat) in *. clearbody k.
  do 6 (destruct k as [|k]; [cbn; do 6 eexists; split; [reflexivity|lia]|]). lia.
Qed.

(** The word of a later round. *)
Lemma Xupdate_word X t :
  window X W t -> (16 <= t < 80)%nat ->
  Xupdate X (t mod 16) ((t + 2) mod 16) ((t + 8) mod 16) ((t + 13) mod 16) = word W t.
Proof.
  intros Hw Ht. rewrite W_next by done. unfold sha1_next, Xupdate.
  rewrite length_take_le, !word_take by lia. rewrite rotl_u32_ROTL by lia.
  rewrite !(window_read _ _ _ _ Hw) by lia.
  pose proof (window_read _ _ t 0 Hw) as E0. rewrite Nat.add_0_r in E0. rewrite E0 by lia.
  replace (t + 2 - 16)%nat with (t - 14)%nat by lia.
  replace (t + 8 - 16)%nat with (t - 8)%nat by lia.
  replace (t + 13 - 16)%nat with (t - 3)%nat by lia.
  f_equal. bits.
Qed.

Lemma step_00_15 t s :
  (t < 16)%nat -> after t s -> after (S t) (BODY_00_15 (xs [0%nat] t) s).
Proof.
  destruct s as [X r]. intros Ht [Hw Hl Hv]. cbn [fst snd] in *.
  destruct (names_6 t) as (a & b & c & d & e & f & En & Hf).
  unfold xs, BODY_00_15. rewrite En. cbn [fmap list_fmap]. rewrite Nat.add_0_r.
  rewrite Nat.max_r in Hw by lia.
  split; cbn [fst snd]; rewrite ?Nat.max_r, ?length_set_word by lia; [done..|].
  rewrite rounds_S, <- Hv. apply (round_regs t r K_00_19 _ _ F_00_19 a b c d e f); try done.
  - intros. unfold sha1_f. rewrite (proj2 (Nat.ltb_lt _ _)) by lia. apply F_00_19_Ch.
  - unfold sha1_K. rewrite (proj2 (Nat.ltb_lt _ _)) by lia. reflexivity.
  - by rewrite (win_at _ _ _ Hw) by lia.
Qed.

Lemma step_16_59 K F t s :
  (16 <= t < 80)%nat -> (forall x y z, F x y z = sha1_f t x y z) -> K = sha1_K t ->
  after t s ->
  after (S t) (BODY_16_59 K F (t mod 16) (t mod 16) ((t + 2) mod 16) ((t + 8) mod 16) ((t + 13) mod 16)
                 (names 6 t) s).
Proof.
  destruct s as [X r]. intros Ht HF HK [Hw Hl Hv]. cbn [fst snd] in *.
  destruct (names_6 t) as (a & b & c & d & e & f & En & Hf).
  rewrite Nat.max_l in Hw by lia.
  unfold BODY_16_59. rewrite En, Xupdate_word by done. cbv zeta.
  split; cbn [fst snd]; [rewrite Nat.max_l by lia; by apply window_step|by rewrite !length_set_word|].
  rewrite rounds_S, <- Hv. rewrite !set_word_twice.
  apply (round_regs t r K _ _ F a b c d e f); try done.
  rewrite set_word_same, !set_word_other by lia. word_sum.
Qed.

Lemma step_60_79 t s :
  (60 <= t < 80)%nat -> after t s -> after (S t) (BODY_60_79 (xs [0; 2; 8; 13]%nat t) s).
Proof.
  destruct s as [X r]. intros Ht [Hw Hl Hv]. cbn [fst snd] in *.
  destruct (names_6 t) as (a & b & c & d & e & f & En & Hf).
  rewrite Nat.max_l in Hw by lia.
  unfold xs, BODY_60_79. rewrite En. cbn [fmap list_fmap]. rewrite Nat.add_0_r, Xupdate_word by (done || lia).
  cbv zeta. split; cbn [fst snd]; [rewrite Nat.max_l by lia; by apply window_step|by rewrite !length_set_word|].
  rewrite rounds_S, <- Hv, !set_word_twice.
  rewrite (set_word_same X) by (rewrite (win_len _ _ _ Hw); apply Nat.mod_upper_bound; lia).
  apply (round_regs t r K_60_79 _ _ F_60_79 a b c d e f); try done.
  - intros. unfold sha1_f. by rewrite !(proj2 (Nat.ltb_ge _ _)) by lia.
  - unfold sha1_K. rewrite !(proj2 (Nat.ltb_ge _ _)) by lia. reflexivity.
  - by rewrite !set_word_other by lia.
Qed.

(** One macro after the other. *)
Lemma phase (body : args -> list Z * list Z -> list Z * list Z) l (t k : nat) s :
  (forall i s, (t <= i < t + k)%nat -> after i s -> after (S i) (body (xs l i) s)) ->
  after t s -> after (t + k) (foldl (fun s c => body c s) s (xs l <$> seq t k)).
Proof.
  revert t s; induction k as [|k IH]; intros t s Hb Hs.
  { rewrite Nat.add_0_r. exact Hs. }
  change (seq t (S k)) with (t :: seq (S t) k). rewrite fmap_cons. cbn [foldl].
  rewrite Nat.add_succ_r, <- Nat.add_succ_l. apply IH.
  - intros i s' Hi. apply Hb. lia.
  - apply Hb; [lia|done].
Qed.

Lemma calls_are_phases :
  calls_00_15 = xs [0%nat] <$> seq 0 16 /\
  calls_16_19 = xs [0; 0; 2; 8; 13]%nat <$> seq 16 4 /\
  calls_20_31 = xs [0; 0; 2; 8; 13]%nat <$> seq 20 12 /\
  calls_32_39 = xs [0; 2; 8; 13]%nat <$> seq 32 8 /\
  calls_40_59 = xs [0; 2; 8; 13]%nat <$> seq 40 20 /\
  calls_60_79 = xs [0; 2; 8; 13]%nat <$> seq 60 20.
Proof. repeat split. Qed.

Lemma all_calls_after s : after 0 s -> after 80 (all_calls s).
Proof.
  intros Hs. unfold all_calls. cbv zeta.
  destruct calls_are_phases as (-> & -> & -> & -> & -> & ->).
  apply (phase BODY_60_79 _ 60 20); [intros; by apply step_60_79|].
  apply (phase BODY_40_59 _ 40 20).
  { intros i s' Hi Ha. unfold BODY_40_59, xs. cbn [fst snd fmap list_fmap]. rewrite Nat.add_0_r.
    apply step_16_59; try done; [lia| |].
    - intros. unfold sha1_f. rewrite !(proj2 (Nat.ltb_ge _ _)), (proj2 (Nat.ltb_lt i 60)) by lia.
      apply F_40_59_Maj.
    - unfold sha1_K. rewrite !(proj2 (Nat.ltb_ge _ _)), (proj2 (Nat.ltb_lt i 60)) by lia. reflexivity. }
  assert (forall i, (20 <= i < 40)%nat -> (forall x y z, F_20_39 x y z = sha1_f i x y z) /\ K_20_39 = sha1_K i) as H20.
  { intros i Hi. unfold sha1_f, sha1_K.
    rewrite !(proj2 (Nat.ltb_ge i 20)), !(proj2 (Nat.ltb_lt i 40)) by lia. done. }
  apply (phase BODY_32_39 _ 32 8).
  { intros i s' Hi Ha. unfold BODY_32_39, xs. cbn [fst snd fmap list_fmap]. rewrite Nat.add_0_r.
    apply step_16_59; try apply H20; try done; lia. }
  apply (phase BODY_20_31 _ 20 12).
  { intros i s' Hi Ha. unfold BODY_20_31, xs. cbn [fst snd fmap list_fmap]. rewrite Nat.add_0_r.
    apply step_16_59; try apply H20; try done; lia. }
  apply (phase BODY_16_19 _ 16 4).
  { intros i s' Hi Ha. unfold BODY_16_19, xs. cbn [fst snd fmap list_fmap]. rewrite Nat.add_0_r.
    apply step_16_59; try done; [lia| |].
    - intros. unfold sha1_f. rewrite (proj2 (Nat.ltb_lt i 20)) by lia. apply F_00_19_Ch.
    - unfold sha1_K. rewrite (proj2 (Nat.ltb_lt i 20)) by lia. reflexivity. }
  apply (phase BODY_00_15 _ 0 16); [|exact Hs]. intros. apply step_00_15; [lia|done].
Qed.
End rounds.

(** ** Blocks *)

Lemma sha1_next_schedule M t :
  length M = 16%nat -> (16 <= t < 80)%nat ->
  word (schedule sha1_next M 80) t = sha1_next (take t (schedule sha1_next M 80)).
Proof. apply schedule_word. Qed.

Lemma sha1_turn state T X :
  length state = 5%nat -> length X = 16%nat ->
  let s := all_calls (X, state ++ [T]) in
  length s.2 = 6%nat /\
  add_state state s.2 =
  zip_with plus state (sha1_rounds (schedule sha1_next X 80) state (seq 0 80)).
Proof.
  intros Hs HX s.
  assert (after (schedule sha1_next X 80) state 80 s) as [_ Hl Hv].
  { apply all_calls_after; [intros t; by apply sha1_next_schedule|apply schedule_length; [done|lia]|].
    split; cbn [fst snd].
    - by apply window_start.
    - rewrite length_app. cbn. lia.
    - rewrite view_start by (rewrite length_app; cbn; lia). cbn [seq]. unfold sha1_rounds. cbn [foldl].
      rewrite <- Hs. apply take_app_length. }
  split; [done|]. rewrite <- Hv. clear Hv. generalize dependent s.2. intros r Hl.
  do 7 (destruct r as [|? r]; try done). do 6 (destruct state as [|? state]; try done).
  unfold add_state. cbn. unfold wadd.
  change 4294967295 with (2 ^ 32 - 1). rewrite !land_mask by lia.
  unfold u32, wrap. by rewrite !Z.mod_mod by lia.
Qed.

Lemma compress_sha1_take state data :
  compress_sha1 state (take 64 data) =
  zip_with plus state
    (sha1_rounds (schedule sha1_next (CRYPTO_load_u32_be <$> chunks 4 16 data) 80) state (seq 0 80)).
Proof.
  unfold compress_sha1. rewrite chunks_take by lia. rewrite <- (load_chunks be_val). reflexivity.
Qed.
Lemma length_compress_sha1 h x : length h = 5%nat -> length (compress_sha1 h x) = 5%nat.
Proof.
  intros Hl. unfold compress_sha1, sha1_rounds. rewrite length_zip_with.
  enough (forall ts W l, length l = 5%nat -> length (foldl (fun l t => sha1_round t (word W t) l) l ts) = 5%nat)
    as H by (rewrite H by done; lia).
  intros ts W. induction ts as [|t ts IH]; intros l Hl5; [done|]. cbn [foldl]. apply IH.
  unfold sha1_round. do 6 (destruct l as [|? l]; try done).
Qed.

Lemma sha1_blocks_run n fuel T state data :
  length state = 5%nat -> (S n * 64 <= length data)%nat -> (n < fuel)%nat -> Z.of_nat (S n) < 2 ^ 64 ->
  sha1_blocks fuel T state data (Z.of_nat (S n)) = Ret (foldl compress_sha1 state (blocks 64 (S n) data)).
Proof.
  revert fuel T state data; induction n as [|n IH]; intros [|fuel] T state data Hs Hd Hf Hn; try lia.
  all: cbn [sha1_blocks]; rewrite Hs; change (Nat.eqb 5 5) with true; cbv iota;
    rewrite load_words_run by lia; cbn [rbind];
    destruct (sha1_turn state T (CRYPTO_load_u32_be <$> chunks 4 16 data)) as [_ ->];
    [done|by rewrite length_fmap, length_chunks|]; rewrite <- compress_sha1_take;
    unfold u64; rewrite wrap_small by lia.
  - reflexivity.
  - rewrite (proj2 (Z.eqb_neq _ _)) by lia.
    replace (Z.of_nat (S (S n)) - 1) with (Z.of_nat (S n)) by lia.
    rewrite IH; [reflexivity|by apply length_compress_sha1|rewrite length_drop; lia|lia|lia].
Qed.

(** ** The whole digest *)

#[global] Instance sha1_block_function T :
  BlockFunction (sha1_block_data_order T) compress_sha1 64 (fun h => length h = 5%nat).
Proof.
  split; [lia|exact length_compress_sha1|].
  intros h data n Hh Hn Hd. replace n with (Z.of_nat (S (Z.to_nat (n - 1)))) at 1 by lia.
  unfold sha1_block_data_order, sha1_block_data_order_nohw.
  rewrite sha1_blocks_run by (done || lia). do 3 f_equal. lia.
Qed.

Lemma sha1_final_run T msg c :
  collected compress_sha1 64 32 (md_h SHA1_Init) msg c ->
  exists c', SHA1_Final T c = Ret (fips_sha1 msg, c').
Proof.
  intros Ha.
  destruct (final_state (sha1_block_data_order T) (Hbf := sha1_block_function T) (md_h SHA1_Init) msg c true eq_refl Ha) as (c' & E & Hl & Eh).
  unfold SHA1_Final. change SHA_CBLOCK with (Z.of_nat 64). rewrite E. cbn [rbind]. unfold sha1_output_state.
  rewrite get_run by lia. cbn [rbind]. rewrite take_ge by (rewrite Hl; done). rewrite Eh. eexists. reflexivity.
Qed.

(** Whatever pieces a message comes in, [SHA1_Update] on every piece and [SHA1_Final]
    run without undefined behaviour and write the SHA-1 of FIPS 180-4 of the whole
    message, whatever value an uninitialised variable has. *)
Theorem sha1_correct (T : Z) (l : list bytes) :
  Forall (fun x => Z.of_nat (length x) < 2 ^ 64) l ->
  exists c c', md32_updates (sha1_block_data_order T) SHA_CBLOCK SHA1_Init l = Ret c /\
               SHA1_Final T c = Ret (fips_sha1 (concat l), c').
Proof.
  intros Hl.
  destruct (updates_run (sha1_block_data_order T) (md_h SHA1_Init) [] SHA1_Init l) as (c & E & Ha);
    [done|by apply collected_nil|done|].
  destruct (sha1_final_run T (concat l) c Ha) as (c' & E'). eauto.
Qed.

Lemma sha1_correct_witness :
  exists c c', md32_updates (sha1_block_data_order 7) SHA_CBLOCK SHA1_Init [[97]; []; [98; 99]] = Ret c /\
               SHA1_Final 7 c = Ret (fips_sha1 [97; 98; 99], c').
Proof. apply (sha1_correct 7 [[97]; []; [98; 99]]). repeat constructor. Defined.
