(* ===== verification/Sha1Prf.v ===== *)
(** * BoringSSL: the generator of FIPS 186-2 (crypto/fipsmodule/sha/sha1.c)

    [CRYPTO_fips_186_2_prf] keeps a 160-bit number at the start of a block, takes
    the block's SHA-1 compression as output and adds it to the number, word by word
    with a carry. *)
From Stdlib Require Import ZArith Lia.
From stdpp Require Import prelude list numbers.
From S2P Require Import Prelude CMem Cells Der DerInt Words Md32 Sha1 Sha1Spec.
Local Open Scope Z_scope.
Local Open Scope res_scope.

Definition SHA_DIGEST_LENGTH : Z := 20.

(** The sum and the carry out of it. *)
Definition CRYPTO_addc_u32 (x y carry : Z) : res (Z * Z) :=
  _ <- c_assert (carry <=? 1) ;;
  let ret := u64 (carry + u64 (x + y)) in
  Ret (u32 ret, u32 (Z.shiftr ret 32)).

(** XKEY = (1 + XKEY + w_i) mod 2^b, from [i - 1] down to 0. *)
Fixpoint add_words (i : nat) (block : bytes) (h : list Z) (carry : Z) : res bytes :=
  match i with
  | O => Ret block
  | S i =>
      p <- get (drop (i * 4) block) 4 ;;
      r <- CRYPTO_addc_u32 (CRYPTO_load_u32_be p) (word h i) carry ;;
      let '(tmp, carry) := r in
      block <- put block (Z.of_nat i * 4) (CRYPTO_store_u32_be tmp) ;;
      add_words i block h carry
  end.

Section prf.
Context (T : Z).

Fixpoint prf_loop (fuel : nat) (out_len : Z) (block : bytes) : res bytes :=
  if out_len =? 0 then Ret []
  else
    match fuel with
    | O => OutOfFuel
    | S k =>
        ctx <- SHA1_Transform T SHA1_Init block ;;
        block <- add_words 5 block (md_h ctx) 1 ;;
        w <- sha1_output_state ctx ;;
        if out_len <? SHA_DIGEST_LENGTH then get w out_len
        else
          rest <- prf_loop k (out_len - SHA_DIGEST_LENGTH) block ;;
          Ret (w ++ rest)
    end.
Definition CRYPTO_fips_186_2_prf (out_len : Z) (xkey : bytes) : res bytes :=
  key <- get xkey SHA_DIGEST_LENGTH ;;
  block <- put (zeros SHA_CBLOCK) 0 key ;;
  prf_loop (Z.to_nat out_len) out_len block.
End prf.

(** ** FIPS 186-2, appendix 3.3 *)

(** w_i = G(t, XVAL), and the next XKEY. *)
Definition prf_word (xkey : Z) : list Z :=
  compress_sha1 (md_h SHA1_Init) (be_bytes 20 xkey ++ zeros 44).
Definition prf_out (xkey : Z) : bytes := concat (be_bytes 4 <$> prf_word xkey).
Definition prf_next (xkey : Z) : Z := (1 + xkey + be_val (prf_out xkey)) mod 2 ^ 160.
Definition prf_stream (n : nat) (xkey : Z) : bytes :=
  concat (prf_out <$> ((fun i => Nat.iter i prf_next xkey) <$> seq 0 n)).

(** ** Numbers as words *)

Definition words_val (l : list Z) : Z := foldl (fun r v => r * 2 ^ 32 + v) 0 l.
Definition word_ok (v : Z) : Prop := 0 <= v < 2 ^ 32.

Lemma words_val_snoc l v : words_val (l ++ [v]) = words_val l * 2 ^ 32 + v.
Proof. unfold words_val. by rewrite foldl_app. Qed.


Lemma words_val_bytes l :
  Forall word_ok l -> be_val (concat (be_bytes 4 <$> l)) = words_val l.
Proof.
  intros Hl. induction l as [|v l IH] using rev_ind; [done|].
  apply Forall_app in Hl as [Hl Hv]. apply Forall_cons_1 in Hv as [Hv _].
  rewrite words_val_snoc, fmap_app, concat_app, <- IH by done. cbn [fmap list_fmap concat].
  rewrite app_nil_r. unfold be_val at 1. rewrite foldl_app. fold (be_val (concat (be_bytes 4 <$> l))).
  rewrite be_fold_val, be_val_bytes, length_be_bytes. change (256 ^ Z.of_nat 4) with (2 ^ 32).
  by rewrite Z.mod_small by (unfold word_ok in Hv; lia).
Qed.

Lemma length_concat_be n l : length (concat (be_bytes n <$> l)) = (length l * n)%nat.
Proof.
  induction l as [|v l IH]; [done|]. cbn [fmap list_fmap concat length Nat.mul].
  by rewrite length_app, length_be_bytes, IH.
Qed.

(** ** The sum *)

Lemma addc_run x y carry :
  word_ok x -> word_ok y -> 0 <= carry <= 1 ->
  CRYPTO_addc_u32 x y carry = Ret ((x + y + carry) mod 2 ^ 32, (x + y + carry) / 2 ^ 32).
Proof.
  intros Hx Hy Hc. unfold word_ok in *. unfold CRYPTO_addc_u32, c_assert.
  rewrite (proj2 (Z.leb_le carry 1)) by lia. cbn [rbind]. unfold u64.
  rewrite (wrap_small 64 (x + y)), (wrap_small 64 (carry + (x + y))) by lia.
  rewrite Z.shiftr_div_pow2 by lia. unfold u32, wrap.
  replace (carry + (x + y)) with (x + y + carry) by lia.
  rewrite (Z.mod_small ((x + y + carry) / 2 ^ 32)) by (Z.div_mod_to_equations; lia). done.
Qed.

Lemma add_words_run i x rest h carry :
  (i <= length h)%nat -> Forall word_ok h -> 0 <= carry <= 1 ->
  add_words i (be_bytes (i * 4) x ++ rest) h carry =
  Ret (be_bytes (i * 4) (x + words_val (take i h) + carry) ++ rest).
Proof.
  intros Hi Hh. revert x rest carry; induction i as [|i IH]; intros x rest carry Hc; [done|].
  destruct (lookup_lt_is_Some_2 h i) as [v Hv]; [lia|].
  pose proof (proj1 (Forall_lookup _ _) Hh _ _ Hv) as Hvr.
  cbn [add_words]. replace (S i * 4)%nat with (i * 4 + 4)%nat by lia.
  rewrite !be_bytes_app, <- !app_assoc. change (256 ^ Z.of_nat 4) with (2 ^ 32).
  rewrite drop_app_length' by (by rewrite length_be_bytes).
  rewrite get_run by (rewrite length_app, length_be_bytes; lia). cbn [rbind].
  unfold CRYPTO_load_u32_be. rewrite take_take. change (Z.to_nat 4) with 4%nat. rewrite Nat.min_id.
  rewrite take_app_length' by (by rewrite length_be_bytes). rewrite be_val_bytes.
  change (256 ^ Z.of_nat 4) with (2 ^ 32). rewrite (word_lookup _ _ _ Hv).
  pose proof (Z.mod_pos_bound x (2 ^ 32) ltac:(lia)) as Hx. rewrite addc_run by done. cbn [rbind].
  set (sum := x mod 2 ^ 32 + v + carry).
  replace (Z.of_nat i * 4) with (Z.of_nat (length (be_bytes (i * 4) (x / 2 ^ 32))))
    by (rewrite length_be_bytes; lia).
  unfold CRYPTO_store_u32_be. rewrite put_app by (rewrite length_app, !length_be_bytes; lia). cbn [rbind].
  rewrite drop_app_length' by (by rewrite !length_be_bytes).
  unfold word_ok in Hvr. rewrite IH by (try lia; unfold sum; Z.div_mod_to_equations; lia).
  rewrite (take_S_r _ _ _ Hv), words_val_snoc.
  assert (x + (words_val (take i h) * 2 ^ 32 + v) + carry =
          (x / 2 ^ 32 + words_val (take i h) + sum / 2 ^ 32) * 2 ^ 32 + sum mod 2 ^ 32) as E.
  { unfold sum. Z.div_mod_to_equations; lia. }
  rewrite E. pose proof (Z.mod_pos_bound sum (2 ^ 32) ltac:(lia)).
  rewrite Z.div_add_l, (Z.div_small (sum mod 2 ^ 32)), Z.add_0_r by lia.
  change (2 ^ 32) with (256 ^ Z.of_nat 4) at 5. rewrite be_bytes_high. done.
Qed.

(** ** The loop *)

Lemma prf_stream_S n x : prf_stream (S n) x = prf_out x ++ prf_stream n (prf_next x).
Proof.
  unfold prf_stream. cbn [seq]. rewrite <- seq_shift, !fmap_cons. cbn [concat Nat.iter].
  f_equal. f_equal. rewrite <- !list_fmap_compose. apply list_fmap_ext. intros i j _. cbn [compose].
  unfold compose. by rewrite Nat.iter_succ_r.
Qed.

Lemma zip_wadd_ok k l : Forall word_ok (zip_with (wadd 32) k l).
Proof.
  revert l; induction k as [|v k IH]; intros [|u l]; [apply List.Forall_nil..|].
  apply List.Forall_cons; [apply wrap_range; lia|apply IH].
Qed.
Lemma prf_word_ok x : length (prf_word x) = 5%nat /\ Forall word_ok (prf_word x).
Proof.
  unfold prf_word. split; [apply length_compress_sha1; reflexivity|]. unfold compress_sha1.
  apply zip_wadd_ok.
Qed.
Lemma length_prf_out x : length (prf_out x) = 20%nat.
Proof.
  unfold prf_out. rewrite length_concat_be. destruct (prf_word_ok x) as [-> _]. reflexivity.
Qed.

Lemma transform_run T block :
  length block = 64%nat ->
  exists c, SHA1_Transform T SHA1_Init block = Ret c /\ md_h c = compress_sha1 (md_h SHA1_Init) block.
Proof.
  intros Hb. unfold SHA1_Transform, sha1_block_data_order, sha1_block_data_order_nohw.
  change 1 with (Z.of_nat 1). rewrite (sha1_blocks_run 0) by (done || lia).
  cbn [rbind]. eexists. split; [reflexivity|]. cbn [md_h blocks foldl]. by rewrite take_ge by lia.
Qed.

Lemma transform_prf T x :
  exists c, SHA1_Transform T SHA1_Init (be_bytes 20 x ++ zeros 44) = Ret c /\ md_h c = prf_word x.
Proof. unfold prf_word. apply transform_run. rewrite length_app, length_be_bytes. reflexivity. Qed.
Lemma concat_prf_out x : concat (CRYPTO_store_u32_be <$> prf_word x) = prf_out x.
Proof. unfold prf_out. by f_equal. Qed.
Lemma prf_next_eq x : (x + words_val (prf_word x) + 1) mod 2 ^ 160 = prf_next x.
Proof.
  unfold prf_next, prf_out. rewrite words_val_bytes by apply prf_word_ok. f_equal. lia.
Qed.
#[local] Opaque prf_word prf_next prf_out SHA1_Transform.

Lemma prf_loop_run T fuel out_len x :
  0 <= out_len <= Z.of_nat fuel ->
  prf_loop T fuel out_len (be_bytes 20 x ++ zeros 44) =
  Ret (take (Z.to_nat out_len) (prf_stream (S (Z.to_nat out_len / 20)) x)).
Proof.
  revert out_len x; induction fuel as [|fuel IH]; intros out_len x Hl.
  { replace out_len with 0 by lia. done. }
  cbn [prf_loop]. destruct (Z.eqb_spec out_len 0) as [->|Hne]; [done|].
  destruct (transform_prf T x) as (c & -> & Eh). cbn [rbind]. rewrite Eh.
  destruct (prf_word_ok x) as [Hw5 Hwok].
  change 20%nat with (5 * 4)%nat. rewrite add_words_run by (lia || done). cbn [rbind].
  change (5 * 4)%nat with 20%nat. rewrite (take_ge (prf_word x)) by lia.
  unfold sha1_output_state. rewrite Eh, get_run by lia. cbn [rbind].
  rewrite (take_ge (prf_word x)), concat_prf_out by (rewrite Hw5; done).
  pose proof (length_prf_out x) as Ho. rewrite prf_stream_S.
  unfold SHA_DIGEST_LENGTH. destruct (Z.ltb_spec out_len 20) as [Hs|Hs].
  - rewrite get_run by lia. rewrite take_app_le by lia. done.
  - rewrite <- be_bytes_mod. change (256 ^ Z.of_nat 20) with (2 ^ 160).
    rewrite prf_next_eq.
    rewrite IH by lia. cbn [rbind]. do 2 f_equal.
    replace (Z.to_nat out_len) with (20 + Z.to_nat (out_len - 20))%nat by lia.
    rewrite take_app_ge, Ho by lia. f_equal. f_equal; [lia|].
    replace (20 + Z.to_nat (out_len - 20))%nat with (1 * 20 + Z.to_nat (out_len - 20))%nat by lia.
    by rewrite Nat.div_add_l by lia.
Qed.

(** For any key of 20 bytes, [CRYPTO_fips_186_2_prf] ends without undefined behaviour
    and writes the first [out_len] bytes of the generator of FIPS 186-2: the words
    come from the SHA-1 compression of a 160-bit number, and the number goes from x
    to (1 + x + w) mod 2^160. *)
Theorem fips_186_2_prf_correct (T out_len : Z) (xkey : bytes) :
  0 <= out_len -> length xkey = 20%nat -> bytes_ok xkey ->
  CRYPTO_fips_186_2_prf T out_len xkey =
  Ret (take (Z.to_nat out_len) (prf_stream (S (Z.to_nat out_len / 20)) (be_val xkey))).
Proof.
  intros Ho Hk Hok. unfold CRYPTO_fips_186_2_prf, SHA_DIGEST_LENGTH.
  rewrite get_run, (take_ge xkey) by lia. cbn [rbind].
  rewrite put_run by (rewrite ?Hk; vm_compute; done). cbn [rbind].
  rewrite Hk, <- (be_bytes_val xkey Hok), Hk, be_val_bytes.
  rewrite Z.mod_small by (rewrite <- Hk; by apply be_val_bound).
  apply (prf_loop_run T (Z.to_nat out_len)). lia.
Qed.
Lemma fips_186_2_prf_correct_witness :
  CRYPTO_fips_186_2_prf 7 41 (replicate 20 255) =
  Ret (take 41 (prf_stream 3 (be_val (replicate 20 255)))).
Proof. apply (fips_186_2_prf_correct 7 41 (replicate 20 255)); [lia|reflexivity|repeat constructor; lia]. Defined.
