(* ===== verification/Md5.v ===== *)
(** * BoringSSL: MD5 (crypto/fipsmodule/md5/md5.c)

    The C code of the digest.  The variables A, B, C, D are the places 0 to 3 of a
    list, and X(0) to X(15) another list; the calls of the round macros are
    transcribed one by one. *)
From Stdlib Require Import ZArith Lia.
From stdpp Require Import prelude list numbers.
From S2P Require Import Prelude CMem Cells Der Words Md32.
Local Open Scope Z_scope.
Local Open Scope res_scope.

Definition MD5_CBLOCK : Z := 64.
Definition MD5_Init : md32_ctx :=
  Md32 [0x6745_2301; 0xefcd_ab89; 0x98ba_dcfe; 0x1032_5476] 0 0 (zeros MD5_CBLOCK) 0.

(** ** Rounds *)

Definition md5_F (b c d : Z) : Z := Z.lxor (Z.land (Z.lxor c d) b) d.
Definition md5_G (b c d : Z) : Z := Z.lxor (Z.land (Z.lxor b c) d) c.
Definition md5_H (b c d : Z) : Z := Z.lxor (Z.lxor b c) d.
Definition md5_I (b c d : Z) : Z := Z.lxor (Z.lor (u32 (Z.lnot d)) b) c.

(** [R0] to [R3] differ in the function.  The constant is a [long], so the sum in
    brackets has 64 bits. *)
Definition md5_R (f : Z -> Z -> Z -> Z) (X : list Z) (c : list nat * nat * Z * Z) (r : list Z) : list Z :=
  match c with
  | ([a; b; c; d], k, s, t) =>
      let r := set_word a (u32 (word r a + (word X k + t + f (word r b) (word r c) (word r d)))) r in
      let r := set_word a (CRYPTO_rotl_u32 (word r a) s) r in
      set_word a (u32 (word r a + word r b)) r
  | _ => r
  end.
Definition md5_R0 := md5_R md5_F.
Definition md5_R1 := md5_R md5_G.
Definition md5_R2 := md5_R md5_H.
Definition md5_R3 := md5_R md5_I.

Definition md5_calls_0 : list (list nat * nat * Z * Z) :=
  [(([0; 1; 2; 3], 0)%nat, 7, 0xd76a_a478); (([3; 0; 1; 2], 1)%nat, 12, 0xe8c7_b756);
   (([2; 3; 0; 1], 2)%nat, 17, 0x2420_70db); (([1; 2; 3; 0], 3)%nat, 22, 0xc1bd_ceee);
   (([0; 1; 2; 3], 4)%nat, 7, 0xf57c_0faf); (([3; 0; 1; 2], 5)%nat, 12, 0x4787_c62a);
   (([2; 3; 0; 1], 6)%nat, 17, 0xa830_4613); (([1; 2; 3; 0], 7)%nat, 22, 0xfd46_9501);
   (([0; 1; 2; 3], 8)%nat, 7, 0x6980_98d8); (([3; 0; 1; 2], 9)%nat, 12, 0x8b44_f7af);
   (([2; 3; 0; 1], 10)%nat, 17, 0xffff_5bb1); (([1; 2; 3; 0], 11)%nat, 22, 0x895c_d7be);
   (([0; 1; 2; 3], 12)%nat, 7, 0x6b90_1122); (([3; 0; 1; 2], 13)%nat, 12, 0xfd98_7193);
   (([2; 3; 0; 1], 14)%nat, 17, 0xa679_438e); (([1; 2; 3; 0], 15)%nat, 22, 0x49b4_0821)].
Definition md5_calls_1 : list (list nat * nat * Z * Z) :=
  [(([0; 1; 2; 3], 1)%nat, 5, 0xf61e_2562); (([3; 0; 1; 2], 6)%nat, 9, 0xc040_b340);
   (([2; 3; 0; 1], 11)%nat, 14, 0x265e_5a51); (([1; 2; 3; 0], 0)%nat, 20, 0xe9b6_c7aa);
   (([0; 1; 2; 3], 5)%nat, 5, 0xd62f_105d); (([3; 0; 1; 2], 10)%nat, 9, 0x0244_1453);
   (([2; 3; 0; 1], 15)%nat, 14, 0xd8a1_e681); (([1; 2; 3; 0], 4)%nat, 20, 0xe7d3_fbc8);
   (([0; 1; 2; 3], 9)%nat, 5, 0x21e1_cde6); (([3; 0; 1; 2], 14)%nat, 9, 0xc337_07d6);
   (([2; 3; 0; 1], 3)%nat, 14, 0xf4d5_0d87); (([1; 2; 3; 0], 8)%nat, 20, 0x455a_14ed);
   (([0; 1; 2; 3], 13)%nat, 5, 0xa9e3_e905); (([3; 0; 1; 2], 2)%nat, 9, 0xfcef_a3f8);
   (([2; 3; 0; 1], 7)%nat, 14, 0x676f_02d9); (([1; 2; 3; 0], 12)%nat, 20, 0x8d2a_4c8a)].
Definition md5_calls_2 : list (list nat * nat * Z * Z) :=
  [(([0; 1; 2; 3], 5)%nat, 4, 0xfffa_3942); (([3; 0; 1; 2], 8)%nat, 11, 0x8771_f681);
   (([2; 3; 0; 1], 11)%nat, 16, 0x6d9d_6122); (([1; 2; 3; 0], 14)%nat, 23, 0xfde5_380c);
   (([0; 1; 2; 3], 1)%nat, 4, 0xa4be_ea44); (([3; 0; 1; 2], 4)%nat, 11, 0x4bde_cfa9);
   (([2; 3; 0; 1], 7)%nat, 16, 0xf6bb_4b60); (([1; 2; 3; 0], 10)%nat, 23, 0xbebf_bc70);
   (([0; 1; 2; 3], 13)%nat, 4, 0x289b_7ec6); (([3; 0; 1; 2], 0)%nat, 11, 0xeaa1_27fa);
   (([2; 3; 0; 1], 3)%nat, 16, 0xd4ef_3085); (([1; 2; 3; 0], 6)%nat, 23, 0x0488_1d05);
   (([0; 1; 2; 3], 9)%nat, 4, 0xd9d4_d039); (([3; 0; 1; 2], 12)%nat, 11, 0xe6db_99e5);
   (([2; 3; 0; 1], 15)%nat, 16, 0x1fa2_7cf8); (([1; 2; 3; 0], 2)%nat, 23, 0xc4ac_5665)].
Definition md5_calls_3 : list (list nat * nat * Z * Z) :=
  [(([0; 1; 2; 3], 0)%nat, 6, 0xf429_2244); (([3; 0; 1; 2], 7)%nat, 10, 0x432a_ff97);
   (([2; 3; 0; 1], 14)%nat, 15, 0xab94_23a7); (([1; 2; 3; 0], 5)%nat, 21, 0xfc93_a039);
   (([0; 1; 2; 3], 12)%nat, 6, 0x655b_59c3); (([3; 0; 1; 2], 3)%nat, 10, 0x8f0c_cc92);
   (([2; 3; 0; 1], 10)%nat, 15, 0xffef_f47d); (([1; 2; 3; 0], 1)%nat, 21, 0x8584_5dd1);
   (([0; 1; 2; 3], 8)%nat, 6, 0x6fa8_7e4f); (([3; 0; 1; 2], 15)%nat, 10, 0xfe2c_e6e0);
   (([2; 3; 0; 1], 6)%nat, 15, 0xa301_4314); (([1; 2; 3; 0], 13)%nat, 21, 0x4e08_11a1);
   (([0; 1; 2; 3], 4)%nat, 6, 0xf753_7e82); (([3; 0; 1; 2], 11)%nat, 10, 0xbd3a_f235);
   (([2; 3; 0; 1], 2)%nat, 15, 0x2ad7_d2bb); (([1; 2; 3; 0], 9)%nat, 21, 0xeb86_d391)].

Definition md5_rounds (X r : list Z) : list Z :=
  let run R l r := foldl (fun r c => R X c r) r l in
  run md5_R3 md5_calls_3 (run md5_R2 md5_calls_2 (run md5_R1 md5_calls_1 (run md5_R0 md5_calls_0 r))).

(** [for (; num--;)]: the variables start a turn with the words of [state].  A word
    is loaded before its first use; here all are at once. *)
Fixpoint md5_blocks (num : nat) (state : list Z) (data : bytes) : res (list Z) :=
  match num with
  | O => Ret state
  | S n =>
      if Nat.eqb (length state) 4 then
        X <- load_words CRYPTO_load_u32_le 4 16 data ;;
        md5_blocks n (zip_with (wadd 32) state (md5_rounds X state)) (drop 64 data)
      else UB
  end.
Definition md5_block_data_order (state : list Z) (data : bytes) (num : Z) : res (list Z) :=
  md5_blocks (Z.to_nat num) state data.

(** ** The digest *)

Definition MD5_Transform (c : md32_ctx) (data : bytes) : res md32_ctx :=
  h <- md5_block_data_order (md_h c) data 1 ;;
  Ret (Md32 h (md_Nl c) (md_Nh c) (md_data c) (md_num c)).
Definition MD5_Update (c : md32_ctx) (data : bytes) : res md32_ctx :=
  crypto_md32_update md5_block_data_order MD5_CBLOCK c data.
Definition MD5_Final (c : md32_ctx) : res (bytes * md32_ctx) :=
  c <- crypto_md32_final md5_block_data_order MD5_CBLOCK c false ;;
  words <- get (md_h c) 4 ;;
  Ret (concat (CRYPTO_store_u32_le <$> words), c).
Definition MD5 (data : bytes) : res bytes :=
  c <- MD5_Update MD5_Init data ;;
  r <- MD5_Final c ;;
  Ret r.1.

(** "abc" *)
Example md5_abc : MD5 [97; 98; 99] = Ret (be_bytes 16 0x9001_5098_3cd2_4fb0_d696_3f7d_28e1_7f72).
Proof. vm_compute. reflexivity. Qed.
