(* ===== verification/Md4.v ===== *)
(** * BoringSSL: MD4 (crypto/fipsmodule/md4/md4.c)

    The C code of the digest.  The variables A, B, C, D are the places 0 to 3 of a
    list, and X(0) to X(15) another list; the calls of the round macros are
    transcribed one by one. *)
From Stdlib Require Import ZArith Lia.
From stdpp Require Import prelude list numbers.
From S2P Require Import Prelude CMem Cells Der Words Md32.
Local Open Scope Z_scope.
Local Open Scope res_scope.

Definition MD4_CBLOCK : Z := 64.
Definition MD4_Init : md32_ctx :=
  Md32 [0x6745_2301; 0xefcd_ab89; 0x98ba_dcfe; 0x1032_5476] 0 0 (zeros MD4_CBLOCK) 0.

(** ** Rounds *)

Definition md4_F (b c d : Z) : Z := Z.lxor (Z.land (Z.lxor c d) b) d.
Definition md4_G (b c d : Z) : Z := Z.lor (Z.lor (Z.land b c) (Z.land b d)) (Z.land c d).
Definition md4_H (b c d : Z) : Z := Z.lxor (Z.lxor b c) d.

(** [R0] to [R2] differ in the function.  The sum in brackets has 64 bits when the
    constant is a [long], and 32 bits when it is [0], with the same result. *)
Definition md4_R (f : Z -> Z -> Z -> Z) (X : list Z) (c : list nat * nat * Z * Z) (r : list Z) : list Z :=
  match c with
  | ([a; b; c; d], k, s, t) =>
      let r := set_word a (u32 (word r a + (word X k + t + f (word r b) (word r c) (word r d)))) r in
      set_word a (CRYPTO_rotl_u32 (word r a) s) r
  | _ => r
  end.
Definition md4_R0 := md4_R md4_F.
Definition md4_R1 := md4_R md4_G.
Definition md4_R2 := md4_R md4_H.

Definition md4_calls_0 : list (list nat * nat * Z * Z) :=
  [(([0; 1; 2; 3], 0)%nat, 3, 0); (([3; 0; 1; 2], 1)%nat, 7, 0);
   (([2; 3; 0; 1], 2)%nat, 11, 0); (([1; 2; 3; 0], 3)%nat, 19, 0);
   (([0; 1; 2; 3], 4)%nat, 3, 0); (([3; 0; 1; 2], 5)%nat, 7, 0);
   (([2; 3; 0; 1], 6)%nat, 11, 0); (([1; 2; 3; 0], 7)%nat, 19, 0);
   (([0; 1; 2; 3], 8)%nat, 3, 0); (([3; 0; 1; 2], 9)%nat, 7, 0);
   (([2; 3; 0; 1], 10)%nat, 11, 0); (([1; 2; 3; 0], 11)%nat, 19, 0);
   (([0; 1; 2; 3], 12)%nat, 3, 0); (([3; 0; 1; 2], 13)%nat, 7, 0);
   (([2; 3; 0; 1], 14)%nat, 11, 0); (([1; 2; 3; 0], 15)%nat, 19, 0)].
Definition md4_calls_1 : list (list nat * nat * Z * Z) :=
  [(([0; 1; 2; 3], 0)%nat, 3, 0x5a82_7999); (([3; 0; 1; 2], 4)%nat, 5, 0x5a82_7999);
   (([2; 3; 0; 1], 8)%nat, 9, 0x5a82_7999); (([1; 2; 3; 0], 12)%nat, 13, 0x5a82_7999);
   (([0; 1; 2; 3], 1)%nat, 3, 0x5a82_7999); (([3; 0; 1; 2], 5)%nat, 5, 0x5a82_7999);
   (([2; 3; 0; 1], 9)%nat, 9, 0x5a82_7999); (([1; 2; 3; 0], 13)%nat, 13, 0x5a82_7999);
   (([0; 1; 2; 3], 2)%nat, 3, 0x5a82_7999); (([3; 0; 1; 2], 6)%nat, 5, 0x5a82_7999);
   (([2; 3; 0; 1], 10)%nat, 9, 0x5a82_7999); (([1; 2; 3; 0], 14)%nat, 13, 0x5a82_7999);
   (([0; 1; 2; 3], 3)%nat, 3, 0x5a82_7999); (([3; 0; 1; 2], 7)%nat, 5, 0x5a82_7999);
   (([2; 3; 0; 1], 11)%nat, 9, 0x5a82_7999); (([1; 2; 3; 0], 15)%nat, 13, 0x5a82_7999)].
Definition md4_calls_2 : list (list nat * nat * Z * Z) :=
  [(([0; 1; 2; 3], 0)%nat, 3, 0x6ed9_eba1); (([3; 0; 1; 2], 8)%nat, 9, 0x6ed9_eba1);
   (([2; 3; 0; 1], 4)%nat, 11, 0x6ed9_eba1); (([1; 2; 3; 0], 12)%nat, 15, 0x6ed9_eba1);
   (([0; 1; 2; 3], 2)%nat, 3, 0x6ed9_eba1); (([3; 0; 1; 2], 10)%nat, 9, 0x6ed9_eba1);
   (([2; 3; 0; 1], 6)%nat, 11, 0x6ed9_eba1); (([1; 2; 3; 0], 14)%nat, 15, 0x6ed9_eba1);
   (([0; 1; 2; 3], 1)%nat, 3, 0x6ed9_eba1); (([3; 0; 1; 2], 9)%nat, 9, 0x6ed9_eba1);
   (([2; 3; 0; 1], 5)%nat, 11, 0x6ed9_eba1); (([1; 2; 3; 0], 13)%nat, 15, 0x6ed9_eba1);
   (([0; 1; 2; 3], 3)%nat, 3, 0x6ed9_eba1); (([3; 0; 1; 2], 11)%nat, 9, 0x6ed9_eba1);
   (([2; 3; 0; 1], 7)%nat, 11, 0x6ed9_eba1); (([1; 2; 3; 0], 15)%nat, 15, 0x6ed9_eba1)].

Definition md4_rounds (X r : list Z) : list Z :=
  let run R l r := foldl (fun r c => R X c r) r l in
  run md4_R2 md4_calls_2 (run md4_R1 md4_calls_1 (run md4_R0 md4_calls_0 r)).

(** [for (; num--;)]: the variables start a turn with the words of [state].  A word
    is loaded before its first use; here all are at once. *)
Fixpoint md4_blocks (num : nat) (state : list Z) (data : bytes) : res (list Z) :=
  match num with
  | O => Ret state
  | S n =>
      if Nat.eqb (length state) 4 then
        X <- load_words CRYPTO_load_u32_le 4 16 data ;;
        md4_blocks n (zip_with (wadd 32) state (md4_rounds X state)) (drop 64 data)
      else UB
  end.
Definition md4_block_data_order (state : list Z) (data : bytes) (num : Z) : res (list Z) :=
  md4_blocks (Z.to_nat num) state data.

(** ** The digest *)

Definition MD4_Transform (c : md32_ctx) (data : bytes) : res md32_ctx :=
  h <- md4_block_data_order (md_h c) data 1 ;;
  Ret (Md32 h (md_Nl c) (md_Nh c) (md_data c) (md_num c)).
Definition MD4_Update (c : md32_ctx) (data : bytes) : res md32_ctx :=
  crypto_md32_update md4_block_data_order MD4_CBLOCK c data.
Definition MD4_Final (c : md32_ctx) : res (bytes * md32_ctx) :=
  c <- crypto_md32_final md4_block_data_order MD4_CBLOCK c false ;;
  words <- get (md_h c) 4 ;;
  Ret (concat (CRYPTO_store_u32_le <$> words), c).
Definition MD4 (data : bytes) : res bytes :=
  c <- MD4_Update MD4_Init data ;;
  r <- MD4_Final c ;;
  Ret r.1.

(** "abc" *)
Example md4_abc : MD4 [97; 98; 99] = Ret (be_bytes 16 0xa448_017a_af21_d852_5fc1_0ae8_7aa6_729d).
Proof. vm_compute. reflexivity. Qed.
