(* ===== verification/MdSpec.v ===== *)
(** * MD5 is the algorithm of RFC 1321, and MD4 that of RFC 1320

    The two digests rename four registers from round to round; the references move
    the values, have the boolean functions in the form of the RFCs and give the order
    of the words, the shifts and the constants by formulas. *)
From Stdlib Require Import ZArith Lia.
From stdpp Require Import prelude list numbers.
From S2P Require Import Prelude CMem Cells Der DerInt Words Md32 Md32Spec Md5 Md4.
Local Open Scope Z_scope.
Local Open Scope res_scope.
Local Abbreviation plus := (wadd 32).

(** ** The references *)

(** One operation: [b] is added at the end in MD5. *)
Definition md_round (add_b : bool) (f : Z -> Z -> Z -> Z) (x s t : Z) (l : list Z) : list Z :=
  match l with
  | [a; b; c; d] =>
      let v := ROTL 32 s (plus (plus (plus a (f b c d)) x) t) in
      [d; if add_b then plus b v else v; b; c]
  | _ => l
  end.

Definition rfc_F (x y z : Z) : Z := Z.lor (Z.land x y) (Z.land (Z.lnot x) z).
Definition rfc_G5 (x y z : Z) : Z := Z.lor (Z.land x z) (Z.land y (Z.lnot z)).
Definition rfc_G4 (x y z : Z) : Z := Z.lor (Z.lor (Z.land x y) (Z.land x z)) (Z.land y z).
Definition rfc_H (x y z : Z) : Z := Z.lxor (Z.lxor x y) z.
Definition rfc_I (x y z : Z) : Z := Z.lxor y (Z.lor x (2 ^ 32 - 1 - z mod 2 ^ 32)).

(** Sine with 144 bits after the point, by its series, for an argument up to 64. *)
Fixpoint sin_series (n k : nat) (x2 term : Z) : Z :=
  match n with
  | O => 0
  | S m => term + sin_series m (k + 2) x2 (- (term * x2) / Z.of_nat (k * (k + 1)))
  end.
Definition sin_bits (x : Z) : Z := sin_series 105 2 (x * x) (x * 2 ^ 144).
(** T[i + 1] of RFC 1321, the integer part of 2^32 times abs(sin(i + 1)). *)
Definition rfc_T (i : nat) : Z := Z.abs (sin_bits (Z.of_nat i + 1)) / 2 ^ 112.

Definition rfc5_f (i : nat) : Z -> Z -> Z -> Z :=
  match (i / 16)%nat with 0%nat => rfc_F | 1%nat => rfc_G5 | 2%nat => rfc_H | _ => rfc_I end.
Definition rfc5_k (i : nat) : nat :=
  match (i / 16)%nat with
  | 0%nat => i
  | 1%nat => (5 * i + 1) mod 16
  | 2%nat => (3 * i + 5) mod 16
  | _ => (7 * i) mod 16
  end.
Definition rfc5_s (i : nat) : Z :=
  nth (i mod 4)
    (match (i / 16)%nat with
     | 0%nat => [7; 12; 17; 22] | 1%nat => [5; 9; 14; 20] | 2%nat => [4; 11; 16; 23] | _ => [6; 10; 15; 21]
     end) 0.
Definition rfc5_round (M : list Z) (l : list Z) (i : nat) : list Z :=
  md_round true (rfc5_f i) (word M (rfc5_k i)) (rfc5_s i) (rfc_T i) l.

Definition rfc4_f (i : nat) : Z -> Z -> Z -> Z :=
  match (i / 16)%nat with 0%nat => rfc_F | 1%nat => rfc_G4 | _ => rfc_H end.
(** In the third round the four bits of the number are reversed. *)
Definition rfc4_k (i : nat) : nat :=
  match (i / 16)%nat with
  | 0%nat => i
  | 1%nat => (i mod 4) * 4 + (i mod 16) / 4
  | _ => (i mod 2) * 8 + ((i / 2) mod 2) * 4 + ((i / 4) mod 2) * 2 + (i / 8) mod 2
  end.
Definition rfc4_s (i : nat) : Z :=
  nth (i mod 4)
    (match (i / 16)%nat with
     | 0%nat => [3; 7; 11; 19] | 1%nat => [3; 5; 9; 13] | _ => [3; 9; 11; 15]
     end) 0.
(** 2^30 times the square roots of 2 and 3. *)
Definition rfc4_T (i : nat) : Z :=
  match (i / 16)%nat with 0%nat => 0 | 1%nat => Z.sqrt (2 * 2 ^ 60) | _ => Z.sqrt (3 * 2 ^ 60) end.
Definition rfc4_round (M : list Z) (l : list Z) (i : nat) : list Z :=
  md_round false (rfc4_f i) (word M (rfc4_k i)) (rfc4_s i) (rfc4_T i) l.

(** The bytes 01 23 .. ef fe .. 10, low byte first. *)
Definition rfc_iv : list Z :=
  le_val <$> [[0x01; 0x23; 0x45; 0x67]; [0x89; 0xab; 0xcd; 0xef];
              [0xfe; 0xdc; 0xba; 0x98]; [0x76; 0x54; 0x32; 0x10]].

Definition compress_md5 (st : list Z) (block : bytes) : list Z :=
  zip_with plus st (foldl (rfc5_round (le_val <$> chunks 4 16 block)) st (seq 0 64)).
Definition compress_md4 (st : list Z) (block : bytes) : list Z :=
  zip_with plus st (foldl (rfc4_round (le_val <$> chunks 4 16 block)) st (seq 0 48)).
Definition rfc_md5 (msg : bytes) : bytes :=
  concat (le_bytes 4 <$> merkle_damgard compress_md5 64 8 false rfc_iv msg).
Definition rfc_md4 (msg : bytes) : bytes :=
  concat (le_bytes 4 <$> merkle_damgard compress_md4 64 8 false rfc_iv msg).

(** ** Functions *)

Lemma md_F_rfc x y z : md5_F x y z = rfc_F x y z.
Proof. unfold md5_F, rfc_F. bits. Qed.
Lemma md5_G_rfc x y z : md5_G x y z = rfc_G5 x y z.
Proof. unfold md5_G, rfc_G5. bits. Qed.
Lemma md5_I_rfc x y z : md5_I x y z = rfc_I x y z.
Proof.
  unfold md5_I, rfc_I. rewrite (Z.lxor_comm y), (Z.lor_comm x). do 2 f_equal.
  unfold u32, wrap, Z.lnot. Z.div_mod_to_equations; lia.
Qed.

(** ** A round *)

Lemma md_sum a x t f : u32 (a + (x + t + f)) = plus (plus (plus a f) x) t.
Proof. word_sum. Qed.
Lemma md_add_b v b : u32 (v + b) = plus b v.
Proof. word_sum. Qed.
Lemma next_mod t n : (0 < n)%nat -> (S t mod n = S (t mod n) mod n)%nat.
Proof. intros. by rewrite <- (Nat.add_1_r (t mod n)), Nat.Div0.add_mod_idemp_l, Nat.add_1_r. Qed.

Lemma md5_R_view f g X t k s c r :
  length r = 4%nat -> 0 < s < 32 -> (forall x y z, f x y z = g x y z) ->
  length (md5_R f X (names 4 t, k, s, c) r) = 4%nat /\
  view 4 (S t) (md5_R f X (names 4 t, k, s, c) r) = md_round true g (word X k) s c (view 4 t r).
Proof.
  intros Hl Hs Hf. do 5 (destruct r as [|? r]; try done).
  rewrite (names_period 4 t), (view_period 4 t), (view_period 4 (S t)), next_mod by lia.
  pose proof (Nat.mod_upper_bound t 4 ltac:(lia)) as Hr.
  set (j := (t mod 4)%nat) in *. clearbody j.
  do 4 (destruct j as [|j];
    [unfold md5_R, view, md_round; cbn; by rewrite rotl_u32_ROTL, Hf, md_sum, md_add_b by lia|]).
  lia.
Qed.
Lemma md4_R_view f g X t k s c r :
  length r = 4%nat -> 0 < s < 32 -> (forall x y z, f x y z = g x y z) ->
  length (md4_R f X (names 4 t, k, s, c) r) = 4%nat /\
  view 4 (S t) (md4_R f X (names 4 t, k, s, c) r) = md_round false g (word X k) s c (view 4 t r).
Proof.
  intros Hl Hs Hf. do 5 (destruct r as [|? r]; try done).
  rewrite (names_period 4 t), (view_period 4 t), (view_period 4 (S t)), next_mod by lia.
  pose proof (Nat.mod_upper_bound t 4 ltac:(lia)) as Hr.
  set (j := (t mod 4)%nat) in *. clearbody j.
  do 4 (destruct j as [|j];
    [unfold md4_R, view, md_round; cbn; by rewrite rotl_u32_ROTL, Hf, md_sum by lia|]).
  lia.
Qed.

(** After [t] operations from [st]. *)
Record reached (spec : list Z -> nat -> list Z) (st : list Z) (t : nat) (r : list Z) : Prop := {
  reached_len : length r = 4%nat;
  reached_view : view 4 t r = foldl spec st (seq 0 t)
}.
Lemma reached_start spec st : length st = 4%nat -> reached spec st 0 st.
Proof. intros Hl. split; [done|]. by rewrite view_start. Qed.
Lemma reached_end spec st t r : (t mod 4 = 0)%nat -> reached spec st t r -> r = foldl spec st (seq 0 t).
Proof. intros Ht [Hl <-]. by rewrite view_period, Ht, view_start by lia. Qed.

Lemma md_phase {C} (step : C -> list Z -> list Z) (call : nat -> C) spec st t k r :
  (forall i r, (t <= i < t + k)%nat -> length r = 4%nat ->
     length (step (call i) r) = 4%nat /\ view 4 (S i) (step (call i) r) = spec (view 4 i r) i) ->
  reached spec st t r -> reached spec st (t + k) (foldl (fun r c => step c r) r (call <$> seq t k)).
Proof.
  revert t r; induction k as [|k IH]; intros t r Hs [Hl Hv]; [by rewrite Nat.add_0_r|].
  change (seq t (S k)) with (t :: seq (S t) k). rewrite fmap_cons. cbn [foldl].
  destruct (Hs t r) as [Hl' Hv']; [lia|done|].
  rewrite Nat.add_succ_r, <- Nat.add_succ_l. apply IH; [intros i r0 Hi; apply Hs; lia|].
  split; [done|]. by rewrite seq_S, foldl_app, Hv', Hv.
Qed.

Definition md5_call (i : nat) : list nat * nat * Z * Z := (names 4 i, rfc5_k i, rfc5_s i, rfc_T i).
Definition md4_call (i : nat) : list nat * nat * Z * Z := (names 4 i, rfc4_k i, rfc4_s i, rfc4_T i).

(** The transcribed calls are those of the RFCs. *)
Lemma md5_calls_rfc :
  md5_calls_0 = md5_call <$> seq 0 16 /\ md5_calls_1 = md5_call <$> seq 16 16 /\
  md5_calls_2 = md5_call <$> seq 32 16 /\ md5_calls_3 = md5_call <$> seq 48 16.
Proof. vm_compute. done. Qed.
Lemma md4_calls_rfc :
  md4_calls_0 = md4_call <$> seq 0 16 /\ md4_calls_1 = md4_call <$> seq 16 16 /\
  md4_calls_2 = md4_call <$> seq 32 16.
Proof. vm_compute. done. Qed.

Lemma shifts_small :
  Forall (fun i => 0 < rfc5_s i < 32) (seq 0 64) /\ Forall (fun i => 0 < rfc4_s i < 32) (seq 0 48).
Proof. split; apply (bool_decide_unpack _); vm_compute; exact I. Qed.
Lemma rfc5_s_range i : (i < 64)%nat -> 0 < rfc5_s i < 32.
Proof. intros. apply (proj1 (List.Forall_forall _ _) (proj1 shifts_small)), in_seq. lia. Qed.
Lemma rfc4_s_range i : (i < 48)%nat -> 0 < rfc4_s i < 32.
Proof. intros. apply (proj1 (List.Forall_forall _ _) (proj2 shifts_small)), in_seq. lia. Qed.
Lemma div_16 q i : (q * 16 <= i < q * 16 + 16)%nat -> (i / 16)%nat = q.
Proof. intros. symmetry. apply (Nat.div_unique i 16 q (i - q * 16)); lia. Qed.

(** Sixteen operations with one function. *)
Lemma md5_phase f M st q r :
  (q < 4)%nat -> (forall i x y z, (i / 16)%nat = q -> f x y z = rfc5_f i x y z) ->
  reached (rfc5_round M) st (q * 16) r ->
  reached (rfc5_round M) st (S q * 16) (foldl (fun r c => md5_R f M c r) r (md5_call <$> seq (q * 16) 16)).
Proof.
  intros Hq Hf Hr. replace (S q * 16)%nat with (q * 16 + 16)%nat by lia. apply md_phase; [|done].
  intros i r0 Hi Hl. apply md5_R_view; [done|apply rfc5_s_range; lia|]. intros. apply Hf, div_16. lia.
Qed.
Lemma md4_phase f M st q r :
  (q < 3)%nat -> (forall i x y z, (i / 16)%nat = q -> f x y z = rfc4_f i x y z) ->
  reached (rfc4_round M) st (q * 16) r ->
  reached (rfc4_round M) st (S q * 16) (foldl (fun r c => md4_R f M c r) r (md4_call <$> seq (q * 16) 16)).
Proof.
  intros Hq Hf Hr. replace (S q * 16)%nat with (q * 16 + 16)%nat by lia. apply md_phase; [|done].
  intros i r0 Hi Hl. apply md4_R_view; [done|apply rfc4_s_range; lia|]. intros. apply Hf, div_16. lia.
Qed.

Lemma md5_rounds_rfc M r :
  length r = 4%nat -> md5_rounds M r = foldl (rfc5_round M) r (seq 0 64).
Proof.
  intros Hl. apply (reached_end _ _ 64 _ eq_refl). unfold md5_rounds. cbv zeta.
  destruct md5_calls_rfc as (-> & -> & -> & ->).
  apply (md5_phase md5_I M r 3); [lia|intros i x y z Hi; unfold rfc5_f; rewrite Hi; apply md5_I_rfc|].
  apply (md5_phase md5_H M r 2); [lia|intros i x y z Hi; unfold rfc5_f; rewrite Hi; reflexivity|].
  apply (md5_phase md5_G M r 1); [lia|intros i x y z Hi; unfold rfc5_f; rewrite Hi; apply md5_G_rfc|].
  apply (md5_phase md5_F M r 0); [lia|intros i x y z Hi; unfold rfc5_f; rewrite Hi; apply md_F_rfc|].
  by apply reached_start.
Qed.
Lemma md4_rounds_rfc M r :
  length r = 4%nat -> md4_rounds M r = foldl (rfc4_round M) r (seq 0 48).
Proof.
  intros Hl. apply (reached_end _ _ 48 _ eq_refl). unfold md4_rounds. cbv zeta.
  destruct md4_calls_rfc as (-> & -> & ->).
  apply (md4_phase md4_H M r 2); [lia|intros i x y z Hi; unfold rfc4_f; rewrite Hi; reflexivity|].
  apply (md4_phase md4_G M r 1); [lia|intros i x y z Hi; unfold rfc4_f; rewrite Hi; reflexivity|].
  apply (md4_phase md4_F M r 0); [lia|intros i x y z Hi; unfold rfc4_f; rewrite Hi; apply md_F_rfc|].
  by apply reached_start.
Qed.

(** ** Blocks *)

Lemma length_md_fold (spec : list Z -> nat -> list Z) l ts :
  (forall l i, length (spec l i) = length l) -> length (foldl spec l ts) = length l.
Proof. intros Hs. revert l; induction ts as [|t ts IH]; intros l; [done|]. cbn [foldl]. by rewrite IH. Qed.
Lemma length_md_round add_b f x s t l : length (md_round add_b f x s t l) = length l.
Proof. unfold md_round. do 5 (destruct l as [|? l]; try done). Qed.
Lemma length_compress_md5 h x : length h = 4%nat -> length (compress_md5 h x) = 4%nat.
Proof.
  intros Hl. unfold compress_md5. rewrite length_zip_with, length_md_fold; [lia|].
  intros. apply length_md_round.
Qed.
Lemma length_compress_md4 h x : length h = 4%nat -> length (compress_md4 h x) = 4%nat.
Proof.
  intros Hl. unfold compress_md4. rewrite length_zip_with, length_md_fold; [lia|].
  intros. apply length_md_round.
Qed.

Lemma md5_block_rfc state data :
  length state = 4%nat ->
  zip_with plus state (md5_rounds (CRYPTO_load_u32_le <$> chunks 4 16 data) state) =
  compress_md5 state (take 64 data).
Proof.
  intros Hs. rewrite md5_rounds_rfc by done. unfold compress_md5.
  rewrite chunks_take by lia. rewrite <- (load_chunks le_val). reflexivity.
Qed.
Lemma md4_block_rfc state data :
  length state = 4%nat ->
  zip_with plus state (md4_rounds (CRYPTO_load_u32_le <$> chunks 4 16 data) state) =
  compress_md4 state (take 64 data).
Proof.
  intros Hs. rewrite md4_rounds_rfc by done. unfold compress_md4.
  rewrite chunks_take by lia. rewrite <- (load_chunks le_val). reflexivity.
Qed.

Lemma md5_blocks_run n state data :
  length state = 4%nat -> (n * 64 <= length data)%nat ->
  md5_blocks n state data = Ret (foldl compress_md5 state (blocks 64 n data)).
Proof.
  revert state data; induction n as [|n IH]; intros state data Hs Hd; [done|].
  cbn [md5_blocks]. rewrite Hs. change (Nat.eqb 4 4) with true. cbv iota.
  rewrite load_words_run by lia. cbn [rbind blocks foldl].
  rewrite md5_block_rfc by done. apply IH; [by apply length_compress_md5|rewrite length_drop; lia].
Qed.
Lemma md4_blocks_run n state data :
  length state = 4%nat -> (n * 64 <= length data)%nat ->
  md4_blocks n state data = Ret (foldl compress_md4 state (blocks 64 n data)).
Proof.
  revert state data; induction n as [|n IH]; intros state data Hs Hd; [done|].
  cbn [md4_blocks]. rewrite Hs. change (Nat.eqb 4 4) with true. cbv iota.
  rewrite load_words_run by lia. cbn [rbind blocks foldl].
  rewrite md4_block_rfc by done. apply IH; [by apply length_compress_md4|rewrite length_drop; lia].
Qed.

(** ** The whole digests *)

#[global] Instance md5_block_function :
  BlockFunction md5_block_data_order compress_md5 64 (fun h => length h = 4%nat).
Proof.
  split; [lia|exact length_compress_md5|]. intros h data k Hh Hk Hd. apply md5_blocks_run; [done|lia].
Qed.
Lemma md5_final_run msg c :
  collected compress_md5 64 32 rfc_iv msg c -> exists c', MD5_Final c = Ret (rfc_md5 msg, c').
Proof.
  intros Ha.
  destruct (final_state md5_block_data_order (Hbf := md5_block_function) rfc_iv msg c false eq_refl Ha) as (c' & E & Hl & Eh).
  unfold MD5_Final. change MD5_CBLOCK with (Z.of_nat 64). rewrite E. cbn [rbind].
  rewrite get_run by lia. cbn [rbind]. rewrite take_ge, Eh by (rewrite Hl; done). eexists. reflexivity.
Qed.

#[global] Instance md4_block_function :
  BlockFunction md4_block_data_order compress_md4 64 (fun h => length h = 4%nat).
Proof.
  split; [lia|exact length_compress_md4|]. intros h data k Hh Hk Hd. apply md4_blocks_run; [done|lia].
Qed.
Lemma md4_final_run msg c :
  collected compress_md4 64 32 rfc_iv msg c -> exists c', MD4_Final c = Ret (rfc_md4 msg, c').
Proof.
  intros Ha.
  destruct (final_state md4_block_data_order (Hbf := md4_block_function) rfc_iv msg c false eq_refl Ha) as (c' & E & Hl & Eh).
  unfold MD4_Final. change MD4_CBLOCK with (Z.of_nat 64). rewrite E. cbn [rbind].
  rewrite get_run by lia. cbn [rbind]. rewrite take_ge, Eh by (rewrite Hl; done). eexists. reflexivity.
Qed.

(** Whatever pieces a message comes in, [MD5_Update] on every piece and [MD5_Final],
    and [MD4_Update] and [MD4_Final], run without undefined behaviour and write the
    digests of RFC 1321 and RFC 1320 of the whole message. *)
Theorem md5_md4_correct (l : list bytes) :
  Forall (fun x => Z.of_nat (length x) < 2 ^ 64) l ->
  (exists c c', md32_updates md5_block_data_order MD5_CBLOCK MD5_Init l = Ret c /\
                MD5_Final c = Ret (rfc_md5 (concat l), c')) /\
  (exists c c', md32_updates md4_block_data_order MD4_CBLOCK MD4_Init l = Ret c /\
                MD4_Final c = Ret (rfc_md4 (concat l), c')).
Proof.
  intros Hl. split.
  - destruct (updates_run md5_block_data_order rfc_iv [] MD5_Init l) as (c & E & Ha);
      [done|by apply (collected_nil compress_md5 64 32 rfc_iv)|done|].
    destruct (md5_final_run (concat l) c Ha) as (c' & E'). eauto.
  - destruct (updates_run md4_block_data_order rfc_iv [] MD4_Init l) as (c & E & Ha);
      [done|by apply (collected_nil compress_md4 64 32 rfc_iv)|done|].
    destruct (md4_final_run (concat l) c Ha) as (c' & E'). eauto.
Qed.
Lemma md5_md4_correct_witness :
  (exists c c', md32_updates md5_block_data_order MD5_CBLOCK MD5_Init [[97]; []; [98; 99]] = Ret c /\
                MD5_Final c = Ret (rfc_md5 [97; 98; 99], c')) /\
  (exists c c', md32_updates md4_block_data_order MD4_CBLOCK MD4_Init [[97]; []; [98; 99]] = Ret c /\
                MD4_Final c = Ret (rfc_md4 [97; 98; 99], c')).
Proof. apply (md5_md4_correct [[97]; []; [98; 99]]). repeat constructor. Defined.
