(* ===== verification/Sha2.v ===== *)
(** * BoringSSL: the rounds of SHA-2 (crypto/fipsmodule/sha/sha256.c, sha512.c)

    SHA-256 and SHA-512 have the same macros for a round, over words of 32 and of 64
    bits, with their own rotations and constants.  Here the macros, on registers and
    a circular array of sixteen words; the function of FIPS 180-4, which has a
    schedule of all the words and moves the values; and the proof that rounds with
    the register names moved on compute it. *)
From Stdlib Require Import ZArith Lia.
From stdpp Require Import prelude list numbers.
From S2P Require Import Prelude CMem Words.
Local Open Scope Z_scope.

Section sha2.
Context (w : Z) (Sigma0 Sigma1 sigma0 sigma1 : Z -> Z) (K : list Z).

Local Abbreviation plus := (wadd w).

(** ** The macros *)

Definition Ch (x y z : Z) : Z := Z.lxor (Z.land x y) (Z.land (wrap w (Z.lnot x)) z).
Definition Maj (x y z : Z) : Z := Z.lxor (Z.lxor (Z.land x y) (Z.land x z)) (Z.land y z).

(** [ROUND_00_15(i, a, b, c, d, e, f, g, h)]: the arguments are the places of the
    variables; [T1] has its value from before. *)
Definition ROUND_00_15 (i : nat) (args : list nat) (T1 : Z) (r : list Z) : list Z :=
  match args with
  | [a; b; c; d; e; f; g; h] =>
      let T1 := plus T1 (plus (plus (plus (word r h) (Sigma1 (word r e)))
                                    (Ch (word r e) (word r f) (word r g))) (word K i)) in
      let r := set_word h (plus (Sigma0 (word r a)) (Maj (word r a) (word r b) (word r c))) r in
      let r := set_word d (plus (word r d) T1) r in
      set_word h (plus (word r h) T1) r
  | _ => r
  end.

(** [ROUND_16_63(i, a, .., h, X)]; [X] is circular. *)
Definition ROUND_16_63 (i : nat) (args : list nat) (X r : list Z) : list Z * list Z :=
  let s0 := sigma0 (word X (Nat.land (i + 1) 15)) in
  let s1 := sigma1 (word X (Nat.land (i + 14) 15)) in
  let T1 := plus (word X (Nat.land i 15)) (plus (plus s0 s1) (word X (Nat.land (i + 9) 15))) in
  (set_word (Nat.land i 15) T1 X, ROUND_00_15 i args T1 r).

(** The calls, as they are written out. *)
Definition calls_00_15 : list (nat * list nat) :=
  [(0,  [0; 1; 2; 3; 4; 5; 6; 7]); (1,  [7; 0; 1; 2; 3; 4; 5; 6]);
   (2,  [6; 7; 0; 1; 2; 3; 4; 5]); (3,  [5; 6; 7; 0; 1; 2; 3; 4]);
   (4,  [4; 5; 6; 7; 0; 1; 2; 3]); (5,  [3; 4; 5; 6; 7; 0; 1; 2]);
   (6,  [2; 3; 4; 5; 6; 7; 0; 1]); (7,  [1; 2; 3; 4; 5; 6; 7; 0]);
   (8,  [0; 1; 2; 3; 4; 5; 6; 7]); (9,  [7; 0; 1; 2; 3; 4; 5; 6]);
   (10, [6; 7; 0; 1; 2; 3; 4; 5]); (11, [5; 6; 7; 0; 1; 2; 3; 4]);
   (12, [4; 5; 6; 7; 0; 1; 2; 3]); (13, [3; 4; 5; 6; 7; 0; 1; 2]);
   (14, [2; 3; 4; 5; 6; 7; 0; 1]); (15, [1; 2; 3; 4; 5; 6; 7; 0])]%nat.

(** [T1 = X[i] = load] before each of the first sixteen: [X] is full here, and a
    round reads its own word only. *)
Definition rounds_00_15 (X r : list Z) : list Z :=
  foldl (fun r c => ROUND_00_15 c.1 c.2 (word X c.1) r) r calls_00_15.

(** ** FIPS 180-4 *)

(** W_t from the words before it. *)
Definition next_word (W : list Z) : Z :=
  let t := length W in
  plus (plus (plus (sigma1 (word W (t - 2))) (word W (t - 7))) (sigma0 (word W (t - 15))))
       (word W (t - 16)).
Definition fips_round (t : nat) (Wt : Z) (l : list Z) : list Z :=
  match l with
  | [a; b; c; d; e; f; g; h] =>
      let T1 := plus (plus (plus (plus h (Sigma1 e)) (Ch e f g)) (word K t)) Wt in
      let T2 := plus (Sigma0 a) (Maj a b c) in
      [plus T1 T2; a; b; c; plus d T1; e; f; g]
  | _ => l
  end.
Definition fips_rounds (W : list Z) (l : list Z) (ts : list nat) : list Z :=
  foldl (fun l t => fips_round t (word W t) l) l ts.

(** The compression function with [n] rounds. *)
Definition fips_compress (n : nat) (st M : list Z) : list Z :=
  zip_with plus st (fips_rounds (schedule next_word M n) st (seq 0 n)).

(** ** Proofs *)

Lemma length_round i args T1 r : length (ROUND_00_15 i args T1 r) = length r.
Proof.
  unfold ROUND_00_15. do 9 (destruct args as [|? args]; try done).
  all: by rewrite !length_set_word.
Qed.

Lemma round_step t T1 r :
  length r = 8%nat ->
  view 8 (S t) (ROUND_00_15 t (names 8 t) T1 r) = fips_round t T1 (view 8 t r).
Proof.
  intros Hl. do 9 (destruct r as [|? r]; try done).
  rewrite (names_period 8 t), (view_period 8 t), (view_period 8 (S t)) by lia.
  replace (S t mod 8)%nat with (S (t mod 8) mod 8)%nat
    by (rewrite <- (Nat.add_1_r (t mod 8)), Nat.Div0.add_mod_idemp_l, Nat.add_1_r; done).
  pose proof (Nat.mod_upper_bound t 8 ltac:(lia)) as Hr.
  set (kt := word K t). set (k := (t mod 8)%nat) in *. clearbody k.
  do 8 (destruct k as [|k];
    [unfold ROUND_00_15, view, fips_round; cbn; fold kt;
     repeat apply (f_equal2 cons); try reflexivity; word_sum|]).
  lia.
Qed.

(** The words of the schedule, in the order of the code. *)
Lemma schedule_next M n t :
  length M = 16%nat -> (16 <= t < n)%nat ->
  let W := schedule next_word M n in
  word W t = plus (word W (t - 16)) (plus (plus (sigma0 (word W (t - 15))) (sigma1 (word W (t - 2))))
                                          (word W (t - 7))).
Proof.
  intros HM Ht W. unfold W at 1. rewrite schedule_word by done. fold W.
  unfold next_word. rewrite length_take_le by (unfold W; rewrite schedule_length; lia).
  rewrite !word_take by lia. word_sum.
Qed.

Definition round_16 (s : list Z * list Z) (c : nat * list nat) : list Z * list Z :=
  ROUND_16_63 c.1 c.2 s.1 s.2.

Lemma round_16_step M n t s :
  length M = 16%nat -> (16 <= t < n)%nat -> window s.1 (schedule next_word M n) t -> length s.2 = 8%nat ->
  let s' := round_16 s (t, names 8 t) in
  window s'.1 (schedule next_word M n) (S t) /\ length s'.2 = 8%nat /\
  view 8 (S t) s'.2 = fips_round t (word (schedule next_word M n) t) (view 8 t s.2).
Proof.
  intros HM Ht Hw Hr. unfold round_16, ROUND_16_63. cbn [fst snd].
  rewrite !land_15, !(window_read _ _ _ _ Hw) by lia.
  pose proof (window_read _ _ t 0 Hw) as E0. rewrite Nat.add_0_r in E0. rewrite E0 by lia.
  replace (t + 1 - 16)%nat with (t - 15)%nat by lia.
  replace (t + 14 - 16)%nat with (t - 2)%nat by lia.
  replace (t + 9 - 16)%nat with (t - 7)%nat by lia.
  rewrite <- (schedule_next M n t HM Ht). split; [by apply window_step|].
  split; [by rewrite length_round|by apply round_step].
Qed.

Definition uniform (ts : list nat) : list (nat * list nat) := (fun t => (t, names 8 t)) <$> ts.

Lemma rounds_16_view M n k t s :
  length M = 16%nat -> (16 <= t)%nat -> (t + k <= n)%nat -> window s.1 (schedule next_word M n) t -> length s.2 = 8%nat ->
  let s' := foldl round_16 s (uniform (seq t k)) in
  length s'.2 = 8%nat /\ view 8 (t + k) s'.2 = fips_rounds (schedule next_word M n) (view 8 t s.2) (seq t k).
Proof.
  revert t s; induction k as [|k IH]; intros t s HM Ht Hn Hw Hr; cbv zeta.
  { rewrite Nat.add_0_r. done. }
  change (uniform (seq t (S k))) with ((t, names 8 t) :: uniform (seq (S t) k)).
  change (seq t (S k)) with (t :: seq (S t) k). unfold fips_rounds. cbn [foldl fst snd].
  destruct (round_16_step M n t s) as (Hw' & Hr' & E); try done; [lia|].
  destruct (IH (S t) (round_16 s (t, names 8 t))) as [Hl IHv]; try done; try lia.
  split; [done|]. rewrite Nat.add_succ_r, <- Nat.add_succ_l, IHv, E. done.
Qed.

Lemma rounds_00_view M n k t r :
  length M = 16%nat -> (t + k <= 16)%nat -> length r = 8%nat ->
  let r' := foldl (fun r c => ROUND_00_15 c.1 c.2 (word M c.1) r) r (uniform (seq t k)) in
  length r' = 8%nat /\ view 8 (t + k) r' = fips_rounds (schedule next_word M n) (view 8 t r) (seq t k).
Proof.
  revert t r; induction k as [|k IH]; intros t r HM Hn Hr; cbv zeta.
  { rewrite Nat.add_0_r. done. }
  change (uniform (seq t (S k))) with ((t, names 8 t) :: uniform (seq (S t) k)).
  change (seq t (S k)) with (t :: seq (S t) k). unfold fips_rounds. cbn [foldl fst snd].
  destruct (IH (S t) (ROUND_00_15 t (names 8 t) (word M t) r)) as [Hl IHv];
    [done|lia|by rewrite length_round|].
  split; [done|]. rewrite Nat.add_succ_r, <- Nat.add_succ_l, IHv, round_step by done.
  by rewrite schedule_prefix by lia.
Qed.

Lemma calls_uniform : calls_00_15 = uniform (seq 0 16).
Proof. reflexivity. Qed.
Lemma fips_rounds_app W l a b : fips_rounds W l (a ++ b) = fips_rounds W (fips_rounds W l a) b.
Proof. apply foldl_app. Qed.

Lemma rounds_00_15_view M n r :
  length M = 16%nat -> length r = 8%nat ->
  length (rounds_00_15 M r) = 8%nat /\
  view 8 16 (rounds_00_15 M r) = fips_rounds (schedule next_word M n) r (seq 0 16).
Proof.
  intros HM Hr. unfold rounds_00_15. rewrite calls_uniform.
  pose proof (rounds_00_view M n 16 0 r HM (le_n 16) Hr) as H. cbv zeta in H.
  rewrite (view_start 8 r Hr) in H. exact H.
Qed.

(** All the rounds, when their number is a multiple of eight. *)
Lemma later_rounds_view M n r0 r :
  length M = 16%nat -> length r = 8%nat -> (16 <= n)%nat -> (n mod 8 = 0)%nat ->
  view 8 16 r = fips_rounds (schedule next_word M n) r0 (seq 0 16) ->
  (foldl round_16 (M, r) (uniform (seq 16 (n - 16)))).2 = fips_rounds (schedule next_word M n) r0 (seq 0 n).
Proof.
  intros HM Hr Hn Hmod E.
  pose proof (window_start next_word M n HM) as Hw.
  pose proof (rounds_16_view M n (n - 16) 16 (M, r) HM ltac:(lia) ltac:(lia) Hw Hr) as H.
  cbv zeta in H. cbn [snd] in H. rewrite E in H.
  generalize dependent (foldl round_16 (M, r) (uniform (seq 16 (n - 16)))). intros s [Hl H].
  replace (16 + (n - 16))%nat with n in H by lia.
  rewrite view_period, Hmod, (view_start 8 s.2 Hl) in H by lia. rewrite H, <- fips_rounds_app.
  f_equal. change 16%nat with (0 + 16)%nat at 2. rewrite <- seq_app. f_equal. lia.
Qed.
Lemma rounds_view M n r :
  length M = 16%nat -> length r = 8%nat -> (16 <= n)%nat -> (n mod 8 = 0)%nat ->
  (foldl round_16 (M, rounds_00_15 M r) (uniform (seq 16 (n - 16)))).2 =
  fips_rounds (schedule next_word M n) r (seq 0 n).
Proof.
  intros HM Hr Hn Hmod. destruct (rounds_00_15_view M n r HM Hr) as [Hl E].
  by apply later_rounds_view.
Qed.
End sha2.

(** The compression function depends on the values of its functions only. *)
Lemma fips_compress_ext w S0 S1 s0 s1 S0' S1' s0' s1' K n st M :
  (forall x, S0 x = S0' x) -> (forall x, S1 x = S1' x) ->
  (forall x, s0 x = s0' x) -> (forall x, s1 x = s1' x) ->
  fips_compress w S0 S1 s0 s1 K n st M = fips_compress w S0' S1' s0' s1' K n st M.
Proof.
  intros E0 E1 e0 e1. unfold fips_compress. f_equal.
  assert (schedule (next_word w s0 s1) M n = schedule (next_word w s0' s1') M n) as ->.
  { unfold schedule. induction (n - 16)%nat as [|k IH]; [done|]. rewrite !Nat.iter_succ, IH.
    unfold next_word. by rewrite e0, e1. }
  unfold fips_rounds. generalize (schedule (next_word w s0' s1') M n) (seq 0 n). intros W ts. revert st.
  induction ts as [|t ts IH]; intros st; [done|]. cbn [foldl]. rewrite IH. f_equal.
  unfold fips_round. do 9 (destruct st as [|? st]; try done). by rewrite E0, E1.
Qed.

Lemma length_fips_compress w S0 S1 s0 s1 K n st M :
  length st = 8%nat -> length (fips_compress w S0 S1 s0 s1 K n st M) = 8%nat.
Proof.
  intros Hl. unfold fips_compress, fips_rounds. rewrite length_zip_with.
  enough (length (foldl (fun l t => fips_round w S0 S1 K t (word (schedule (next_word w s0 s1) M n) t) l) st (seq 0 n)) = 8%nat)
    by lia.
  revert Hl. generalize (seq 0 n) st. intros ts. induction ts as [|t ts IH]; intros l Hl; [done|].
  cbn [foldl]. apply IH. unfold fips_round. do 9 (destruct l as [|? l]; try done).
Qed.

(** ** Constants

    The constants are the first bits of the fractional parts of roots of primes
    (FIPS 180-4, sections 4.2 and 5.3). *)
Definition is_prime (n : nat) : bool :=
  (2 <=? n)%nat && forallb (fun d => negb (Nat.eqb (n mod d) 0)) (seq 2 (n - 2)).
Definition primes (k : nat) : list Z :=
  Z.of_nat <$> take k (List.filter is_prime (seq 0 410)).
(** The largest r with r^3 <= x among those with [k] bits. *)
Fixpoint cube_root (k : nat) (x r : Z) : Z :=
  match k with
  | O => r
  | S j => let r' := r + 2 ^ Z.of_nat j in cube_root j x (if r' ^ 3 <=? x then r' else r)
  end.
Definition cube_root_bits (w p : Z) : Z :=
  cube_root (Z.to_nat (w + 3)) (p * 2 ^ (3 * w)) 0 mod 2 ^ w.
(** Bits [skip] to [skip + w] after the point. *)
Definition square_root_bits (skip w p : Z) : Z :=
  Z.sqrt (p * 2 ^ (2 * (skip + w))) mod 2 ^ w.

Lemma cube_root_spec k x r :
  0 <= r -> r ^ 3 <= x < (r + 2 ^ Z.of_nat k) ^ 3 ->
  let c := cube_root k x r in 0 <= c /\ c ^ 3 <= x < (c + 1) ^ 3.
Proof.
  revert r; induction k as [|k IH]; intros r Hr Hx; cbn [cube_root].
  { change (2 ^ Z.of_nat 0) with 1 in Hx. auto. }
  replace (2 ^ Z.of_nat (S k)) with (2 ^ Z.of_nat k + 2 ^ Z.of_nat k) in Hx
    by (rewrite Nat2Z.inj_succ, Z.pow_succ_r by lia; lia).
  pose proof (Z.pow_pos_nonneg 2 (Z.of_nat k) ltac:(lia) ltac:(lia)).
  destruct (Z.leb_spec ((r + 2 ^ Z.of_nat k) ^ 3) x); apply IH; try lia.
Qed.
