(* ===== verification/Sha256.v ===== *)
(** * BoringSSL: SHA-256 and SHA-224 (crypto/fipsmodule/sha/sha256.c)

    The C code of the digests, as it is compiled without assembly routines.  A
    context is that of md32_common.h and the length of the digest; a digest is the
    bytes written to [out]. *)
From Stdlib Require Import ZArith Lia.
From stdpp Require Import prelude list numbers.
From S2P Require Import Prelude CMem Cells Der Words Md32 Sha2.
Local Open Scope Z_scope.
Local Open Scope res_scope.

Definition SHA256_CBLOCK : Z := 64.
Definition SHA256_DIGEST_LENGTH : Z := 32.
Definition SHA224_DIGEST_LENGTH : Z := 28.

(** The state without what md32_common.h does not know. *)
Record SHA256_CTX := Sha256Ctx { sha_md : md32_ctx; sha_md_len : Z }.

Definition SHA224_Init : SHA256_CTX :=
  Sha256Ctx (Md32
    [0xc105_9ed8; 0x367c_d507; 0x3070_dd17; 0xf70e_5939;
     0xffc0_0b31; 0x6858_1511; 0x64f9_8fa7; 0xbefa_4fa4]
    0 0 (zeros SHA256_CBLOCK) 0) SHA224_DIGEST_LENGTH.
Definition SHA256_Init : SHA256_CTX :=
  Sha256Ctx (Md32
    [0x6a09_e667; 0xbb67_ae85; 0x3c6e_f372; 0xa54f_f53a;
     0x510e_527f; 0x9b05_688c; 0x1f83_d9ab; 0x5be0_cd19]
    0 0 (zeros SHA256_CBLOCK) 0) SHA256_DIGEST_LENGTH.

(** ** Blocks *)

Definition K256 : list Z :=
    [0x428a_2f98; 0x7137_4491; 0xb5c0_fbcf; 0xe9b5_dba5;
     0x3956_c25b; 0x59f1_11f1; 0x923f_82a4; 0xab1c_5ed5;
     0xd807_aa98; 0x1283_5b01; 0x2431_85be; 0x550c_7dc3;
     0x72be_5d74; 0x80de_b1fe; 0x9bdc_06a7; 0xc19b_f174;
     0xe49b_69c1; 0xefbe_4786; 0x0fc1_9dc6; 0x240c_a1cc;
     0x2de9_2c6f; 0x4a74_84aa; 0x5cb0_a9dc; 0x76f9_88da;
     0x983e_5152; 0xa831_c66d; 0xb003_27c8; 0xbf59_7fc7;
     0xc6e0_0bf3; 0xd5a7_9147; 0x06ca_6351; 0x1429_2967;
     0x27b7_0a85; 0x2e1b_2138; 0x4d2c_6dfc; 0x5338_0d13;
     0x650a_7354; 0x766a_0abb; 0x81c2_c92e; 0x9272_2c85;
     0xa2bf_e8a1; 0xa81a_664b; 0xc24b_8b70; 0xc76c_51a3;
     0xd192_e819; 0xd699_0624; 0xf40e_3585; 0x106a_a070;
     0x19a4_c116; 0x1e37_6c08; 0x2748_774c; 0x34b0_bcb5;
     0x391c_0cb3; 0x4ed8_aa4a; 0x5b9c_ca4f; 0x682e_6ff3;
     0x748f_82ee; 0x78a5_636f; 0x84c8_7814; 0x8cc7_0208;
     0x90be_fffa; 0xa450_6ceb; 0xbef9_a3f7; 0xc671_78f2].

Definition Sigma0_256 (x : Z) : Z :=
  Z.lxor (Z.lxor (CRYPTO_rotr_u32 x 2) (CRYPTO_rotr_u32 x 13)) (CRYPTO_rotr_u32 x 22).
Definition Sigma1_256 (x : Z) : Z :=
  Z.lxor (Z.lxor (CRYPTO_rotr_u32 x 6) (CRYPTO_rotr_u32 x 11)) (CRYPTO_rotr_u32 x 25).
Definition sigma0_256 (x : Z) : Z :=
  Z.lxor (Z.lxor (CRYPTO_rotr_u32 x 7) (CRYPTO_rotr_u32 x 18)) (Z.shiftr x 3).
Definition sigma1_256 (x : Z) : Z :=
  Z.lxor (Z.lxor (CRYPTO_rotr_u32 x 17) (CRYPTO_rotr_u32 x 19)) (Z.shiftr x 10).

(** The body of [for (i = 16; i < 64; i += 8)]. *)
Definition calls_16_63 (i : nat) : list (nat * list nat) :=
  [(i + 0, [0; 1; 2; 3; 4; 5; 6; 7]); (i + 1, [7; 0; 1; 2; 3; 4; 5; 6]);
   (i + 2, [6; 7; 0; 1; 2; 3; 4; 5]); (i + 3, [5; 6; 7; 0; 1; 2; 3; 4]);
   (i + 4, [4; 5; 6; 7; 0; 1; 2; 3]); (i + 5, [3; 4; 5; 6; 7; 0; 1; 2]);
   (i + 6, [2; 3; 4; 5; 6; 7; 0; 1]); (i + 7, [1; 2; 3; 4; 5; 6; 7; 0])]%nat.
Definition rounds_16_63 (s : list Z * list Z) : list Z * list Z :=
  foldl (fun s i => foldl (round_16 32 Sigma0_256 Sigma1_256 sigma0_256 sigma1_256 K256) s (calls_16_63 i))
        s [16; 24; 32; 40; 48; 56]%nat.

(** One turn of the loop: [X] from sixteen loads, the registers from [state]. *)
Definition sha256_block (state X : list Z) : list Z :=
  let r := rounds_00_15 32 Sigma0_256 Sigma1_256 K256 X state in
  zip_with (wadd 32) state (rounds_16_63 (X, r)).2.

(** [while (num--)]; [state] has eight words. *)
Fixpoint sha256_blocks (num : nat) (state : list Z) (data : bytes) : res (list Z) :=
  match num with
  | O => Ret state
  | S n =>
      if Nat.eqb (length state) 8 then
        X <- load_words CRYPTO_load_u32_be 4 16 data ;;
        sha256_blocks n (sha256_block state X) (drop 64 data)
      else UB
  end.
Definition sha256_block_data_order_nohw (state : list Z) (data : bytes) (num : Z) : res (list Z) :=
  sha256_blocks (Z.to_nat num) state data.
Definition sha256_block_data_order := sha256_block_data_order_nohw.

Definition SHA256_TransformBlocks (state : list Z) (data : bytes) (num_blocks : Z) : res (list Z) :=
  sha256_block_data_order state data num_blocks.

(** ** The digest *)

Definition SHA256_Transform (c : SHA256_CTX) (data : bytes) : res SHA256_CTX :=
  let m := sha_md c in
  h <- sha256_block_data_order (md_h m) data 1 ;;
  Ret (Sha256Ctx (Md32 h (md_Nl m) (md_Nh m) (md_data m) (md_num m)) (sha_md_len c)).

Definition SHA256_Update (c : SHA256_CTX) (data : bytes) : res SHA256_CTX :=
  m <- crypto_md32_update sha256_block_data_order SHA256_CBLOCK (sha_md c) data ;;
  Ret (Sha256Ctx m (sha_md_len c)).
Definition SHA224_Update := SHA256_Update.

(** What the function returns, the bytes it writes and the context. *)
Definition sha256_final_impl (md_len : Z) (c : SHA256_CTX) : res (Z * bytes * SHA256_CTX) :=
  m <- crypto_md32_final sha256_block_data_order SHA256_CBLOCK (sha_md c) true ;;
  let c := Sha256Ctx m (sha_md_len c) in
  if SHA256_DIGEST_LENGTH <? md_len then Ret (0, [], c)
  else
    _ <- c_assert (md_len mod 4 =? 0) ;;
    words <- get (md_h m) (md_len / 4) ;;
    Ret (1, concat (CRYPTO_store_u32_be <$> words), c).

Definition SHA256_Final (c : SHA256_CTX) : res (Z * bytes * SHA256_CTX) :=
  sha256_final_impl (sha_md_len c) c.
Definition SHA224_Final (c : SHA256_CTX) : res (Z * bytes * SHA256_CTX) :=
  _ <- c_assert (sha_md_len c =? SHA224_DIGEST_LENGTH) ;;
  sha256_final_impl SHA224_DIGEST_LENGTH c.

(** One call each. *)
Definition SHA256 (data : bytes) : res bytes :=
  c <- SHA256_Update SHA256_Init data ;;
  r <- SHA256_Final c ;;
  Ret r.1.2.
Definition SHA224 (data : bytes) : res bytes :=
  c <- SHA224_Update SHA224_Init data ;;
  r <- SHA224_Final c ;;
  Ret r.1.2.

(** Updates one after the other. *)
Fixpoint sha256_updates (c : SHA256_CTX) (chunks : list bytes) : res SHA256_CTX :=
  match chunks with
  | [] => Ret c
  | x :: r => c <- SHA256_Update c x ;; sha256_updates c r
  end.

(** "abc" *)
Example sha256_abc : SHA256 [97; 98; 99] = Ret (be_bytes 32
  0xba78_16bf_8f01_cfea_4141_40de_5dae_2223_b003_61a3_9617_7a9c_b410_ff61_f200_15ad).
Proof. vm_compute. reflexivity. Qed.
