(* ===== verification/Sha256Spec.v ===== *)
(** * SHA-256 is the hash function of FIPS 180-4

    The standard's function: constants from roots of primes, a schedule of
    sixty-four words, padding of the whole message.  The C code computes it for any
    message in any pieces, without reading or writing outside its arrays. *)
From Stdlib Require Import ZArith Lia.
From stdpp Require Import prelude list numbers.
From S2P Require Import Prelude CMem Cells Der Words Md32 Md32Spec Sha2 Sha256.
Local Open Scope Z_scope.
Local Open Scope res_scope.

(** ** FIPS 180-4 *)

Definition fips_K256 : list Z := cube_root_bits 32 <$> primes 64.
Definition fips_H256 : list Z := square_root_bits 0 32 <$> primes 8.
Definition fips_H224 : list Z := square_root_bits 32 32 <$> drop 8 (primes 16).

Definition xor3 (x y z : Z) : Z := Z.lxor (Z.lxor x y) z.
Definition SIGMA0_256 (x : Z) : Z := xor3 (ROTR 32 2 x) (ROTR 32 13 x) (ROTR 32 22 x).
Definition SIGMA1_256 (x : Z) : Z := xor3 (ROTR 32 6 x) (ROTR 32 11 x) (ROTR 32 25 x).
Definition fips_sigma0_256 (x : Z) : Z := xor3 (ROTR 32 7 x) (ROTR 32 18 x) (x / 2 ^ 3).
Definition fips_sigma1_256 (x : Z) : Z := xor3 (ROTR 32 17 x) (ROTR 32 19 x) (x / 2 ^ 10).

Definition compress_256 (st : list Z) (block : bytes) : list Z :=
  fips_compress 32 SIGMA0_256 SIGMA1_256 fips_sigma0_256 fips_sigma1_256 fips_K256 64
    st (be_val <$> chunks 4 16 block).

Definition hash_256 (iv : list Z) (words : nat) (msg : bytes) : bytes :=
  concat (be_bytes 4 <$> take words (merkle_damgard compress_256 64 8 true iv msg)).
Definition fips_sha256 : bytes -> bytes := hash_256 fips_H256 8.
Definition fips_sha224 : bytes -> bytes := hash_256 fips_H224 7.

(** ** The constants of the code *)

Lemma K256_roots : K256 = fips_K256.
Proof. vm_compute. reflexivity. Qed.
Lemma H256_roots : md_h (sha_md SHA256_Init) = fips_H256.
Proof. vm_compute. reflexivity. Qed.
Lemma H224_roots : md_h (sha_md SHA224_Init) = fips_H224.
Proof. vm_compute. reflexivity. Qed.

(** ** Blocks *)

Lemma Sigma0_256_eq x : Sigma0_256 x = SIGMA0_256 x.
Proof. unfold Sigma0_256, SIGMA0_256, xor3. by rewrite !rotr_u32_ROTR by lia. Qed.
Lemma Sigma1_256_eq x : Sigma1_256 x = SIGMA1_256 x.
Proof. unfold Sigma1_256, SIGMA1_256, xor3. by rewrite !rotr_u32_ROTR by lia. Qed.
Lemma sigma0_256_eq x : sigma0_256 x = fips_sigma0_256 x.
Proof. unfold sigma0_256, fips_sigma0_256, xor3. by rewrite !rotr_u32_ROTR, Z.shiftr_div_pow2 by lia. Qed.
Lemma sigma1_256_eq x : sigma1_256 x = fips_sigma1_256 x.
Proof. unfold sigma1_256, fips_sigma1_256, xor3. by rewrite !rotr_u32_ROTR, Z.shiftr_div_pow2 by lia. Qed.

Lemma loop_16_63 s :
  rounds_16_63 s =
  foldl (round_16 32 Sigma0_256 Sigma1_256 sigma0_256 sigma1_256 K256) s (uniform (seq 16 48)).
Proof.
  unfold rounds_16_63.
  assert (uniform (seq 16 48) = concat (calls_16_63 <$> [16; 24; 32; 40; 48; 56]%nat)) as -> by reflexivity.
  generalize [16; 24; 32; 40; 48; 56]%nat. intros l. revert s.
  induction l as [|i l IH]; intros s; [done|].
  cbn [fmap list_fmap concat foldl]. by rewrite foldl_app, IH.
Qed.

Lemma sha256_block_fips state X :
  length state = 8%nat -> length X = 16%nat ->
  sha256_block state X =
  fips_compress 32 SIGMA0_256 SIGMA1_256 fips_sigma0_256 fips_sigma1_256 fips_K256 64 state X.
Proof.
  intros Hs HX. unfold sha256_block. rewrite loop_16_63, <- K256_roots.
  rewrite <- (fips_compress_ext _ _ _ _ _ _ _ _ _ _ _ _ _ Sigma0_256_eq Sigma1_256_eq sigma0_256_eq sigma1_256_eq).
  unfold fips_compress. change 48%nat with (64 - 16)%nat. by rewrite rounds_view by (done || lia).
Qed.

Lemma compress_256_take state data :
  compress_256 state (take 64 data) =
  fips_compress 32 SIGMA0_256 SIGMA1_256 fips_sigma0_256 fips_sigma1_256 fips_K256 64
    state (CRYPTO_load_u32_be <$> chunks 4 16 data).
Proof.
  unfold compress_256. rewrite chunks_take by lia. rewrite <- (load_chunks be_val). reflexivity.
Qed.

Lemma sha256_blocks_run n state data :
  length state = 8%nat -> (n * 64 <= length data)%nat ->
  sha256_blocks n state data = Ret (foldl compress_256 state (blocks 64 n data)).
Proof.
  revert state data; induction n as [|n IH]; intros state data Hs Hd; [done|].
  cbn [sha256_blocks]. rewrite Hs. change (Nat.eqb 8 8) with true. cbv iota.
  rewrite load_words_run by lia. cbn [rbind blocks foldl].
  rewrite sha256_block_fips by (by rewrite ?length_fmap, ?length_chunks).
  rewrite compress_256_take. apply IH; [by apply length_fips_compress|rewrite length_drop; lia].
Qed.

Lemma length_compress_256 h x : length h = 8%nat -> length (compress_256 h x) = 8%nat.
Proof. unfold compress_256. apply length_fips_compress. Qed.

#[global] Instance sha256_block_function :
  BlockFunction sha256_block_data_order compress_256 64 (fun h => length h = 8%nat).
Proof.
  split; [lia|exact length_compress_256|].
  intros h data n Hh Hn Hd. apply sha256_blocks_run; [done|lia].
Qed.

(** ** The whole digest *)

(** The state after a message, with a digest of [len] bytes. *)
Definition absorbed_256 (iv : list Z) (len : Z) (msg : bytes) (c : SHA256_CTX) : Prop :=
  collected compress_256 64 32 iv msg (sha_md c) /\ sha_md_len c = len.

Lemma sha256_update_run iv len msg c x :
  length iv = 8%nat -> absorbed_256 iv len msg c -> Z.of_nat (length x) < 2 ^ 64 ->
  exists c', SHA256_Update c x = Ret c' /\ absorbed_256 iv len (msg ++ x) c'.
Proof.
  intros Hiv [Ha Hl] Hx.
  destruct (update_run sha256_block_data_order iv msg (sha_md c) x Hiv Ha Hx) as (m & E & Hm).
  unfold SHA256_Update. change SHA256_CBLOCK with (Z.of_nat 64). rewrite E. eexists. by split.
Qed.
Lemma sha256_updates_run iv len msg c l :
  length iv = 8%nat -> absorbed_256 iv len msg c -> Forall (fun x => Z.of_nat (length x) < 2 ^ 64) l ->
  exists c', sha256_updates c l = Ret c' /\ absorbed_256 iv len (msg ++ concat l) c'.
Proof.
  intros Hiv Ha Hl. revert msg c Ha; induction Hl as [|x r Hx Hr IH]; intros msg c Ha; cbn.
  { rewrite app_nil_r. eauto. }
  destruct (sha256_update_run iv len msg c x Hiv Ha Hx) as (c' & -> & Ha'). cbn [rbind].
  destruct (IH _ _ Ha') as (c2 & E & Ha2). exists c2. by rewrite app_assoc.
Qed.
Lemma sha256_final_run iv (words : nat) msg c :
  length iv = 8%nat -> (words <= 8)%nat -> absorbed_256 iv (4 * Z.of_nat words) msg c ->
  exists c', sha256_final_impl (4 * Z.of_nat words) c = Ret (1, hash_256 iv words msg, c').
Proof.
  intros Hiv Hw [Ha _].
  destruct (final_state sha256_block_data_order iv msg (sha_md c) true Hiv Ha) as (m & E & Hl & Eh).
  unfold sha256_final_impl. change SHA256_CBLOCK with (Z.of_nat 64). rewrite E. cbn [rbind].
  unfold SHA256_DIGEST_LENGTH. rewrite (proj2 (Z.ltb_ge 32 _)) by lia.
  rewrite (Z.mul_comm 4), Z.mod_mul, Z.div_mul by lia. cbn [c_assert Z.eqb rbind].
  rewrite get_run, Nat2Z.id by lia. cbn [rbind]. rewrite Eh. eexists. reflexivity.
Qed.
Lemma absorbed_256_nil iv len : absorbed_256 iv len [] (Sha256Ctx (Md32 iv 0 0 (zeros SHA256_CBLOCK) 0) len).
Proof. split; [by apply collected_nil|done]. Qed.

(** C14: Whatever pieces a message comes in, each below 2^64 bytes, [SHA256_Update] on every
    piece and [SHA256_Final] run without undefined behaviour, return 1 and write the
    SHA-256 of FIPS 180-4 of the whole message; likewise SHA-224. *)
Theorem sha256_correct (l : list bytes) :
  Forall (fun x => Z.of_nat (length x) < 2 ^ 64) l ->
  (exists c c', sha256_updates SHA256_Init l = Ret c /\
                SHA256_Final c = Ret (1, fips_sha256 (concat l), c')) /\
  (exists c c', sha256_updates SHA224_Init l = Ret c /\
                SHA224_Final c = Ret (1, fips_sha224 (concat l), c')).
Proof.
  intros Hl. split.
  - destruct (sha256_updates_run fips_H256 32 [] SHA256_Init l) as (c & E & Ha);
      [done|rewrite <- H256_roots; apply absorbed_256_nil|done|].
    destruct (sha256_final_run fips_H256 8 (concat l) c) as (c' & E'); [done|lia|done|].
    exists c, c'. split; [done|]. unfold SHA256_Final. by rewrite (proj2 Ha).
  - destruct (sha256_updates_run fips_H224 28 [] SHA224_Init l) as (c & E & Ha);
      [done|rewrite <- H224_roots; apply absorbed_256_nil|done|].
    destruct (sha256_final_run fips_H224 7 (concat l) c) as (c' & E'); [done|lia|done|].
    exists c, c'. split; [done|]. unfold SHA224_Final. by rewrite (proj2 Ha).
Qed.

Lemma sha256_correct_witness :
  (exists c c', sha256_updates SHA256_Init [[97]; []; [98; 99]] = Ret c /\
                SHA256_Final c = Ret (1, fips_sha256 [97; 98; 99], c')) /\
  (exists c c', sha256_updates SHA224_Init [[97]; []; [98; 99]] = Ret c /\
                SHA224_Final c = Ret (1, fips_sha224 [97; 98; 99], c')).
Proof. apply (sha256_correct [[97]; []; [98; 99]]). repeat constructor. Defined.
