(* ===== verification/Sha512.v ===== *)
(** * BoringSSL: SHA-512, SHA-384 and SHA-512/256 (crypto/fipsmodule/sha/sha512.c)

    The C code of the digests, as it is compiled without assembly routines.  The
    file has a collector of its own, for words of 64 bits, and two versions of the
    block function: one for processors with few registers, which keeps the registers
    and the schedule in one array behind a moving pointer.  A digest is the bytes
    written to [out]. *)
From Stdlib Require Import ZArith Lia.
From stdpp Require Import prelude list numbers.
From S2P Require Import Prelude CMem Cells Der Words Md32 Sha2.
Local Open Scope Z_scope.
Local Open Scope res_scope.

Definition SHA512_CBLOCK : Z := 128.
Definition SHA384_DIGEST_LENGTH : Z := 48.
Definition SHA512_DIGEST_LENGTH : Z := 64.
Definition SHA512_256_DIGEST_LENGTH : Z := 32.

(** The fields [h], [Nl], [Nh], [p] and [num], as in the other digests, and [md_len]. *)
Record SHA512_CTX := Sha512Ctx { sha512_md : md32_ctx; sha512_md_len : Z }.

(** [p] is the memory that is there, which these functions leave alone. *)
Definition SHA384_Init (p : bytes) : SHA512_CTX :=
  Sha512Ctx (Md32
    [0xcbbb_9d5d_c105_9ed8; 0x629a_292a_367c_d507;
     0x9159_015a_3070_dd17; 0x152f_ecd8_f70e_5939;
     0x6733_2667_ffc0_0b31; 0x8eb4_4a87_6858_1511;
     0xdb0c_2e0d_64f9_8fa7; 0x47b5_481d_befa_4fa4]
    0 0 p 0) SHA384_DIGEST_LENGTH.
Definition SHA512_Init (p : bytes) : SHA512_CTX :=
  Sha512Ctx (Md32
    [0x6a09_e667_f3bc_c908; 0xbb67_ae85_84ca_a73b;
     0x3c6e_f372_fe94_f82b; 0xa54f_f53a_5f1d_36f1;
     0x510e_527f_ade6_82d1; 0x9b05_688c_2b3e_6c1f;
     0x1f83_d9ab_fb41_bd6b; 0x5be0_cd19_137e_2179]
    0 0 p 0) SHA512_DIGEST_LENGTH.
Definition SHA512_256_Init (p : bytes) : SHA512_CTX :=
  Sha512Ctx (Md32
    [0x2231_2194_fc2b_f72c; 0x9f55_5fa3_c84c_64c2;
     0x2393_b86b_6f53_b151; 0x9638_7719_5940_eabd;
     0x9628_3ee2_a88e_ffe3; 0xbe5e_1e25_5386_3992;
     0x2b01_99fc_2c85_b8aa; 0x0eb7_2ddc_81c5_2ca2]
    0 0 p 0) SHA512_256_DIGEST_LENGTH.

(** ** Blocks *)

Definition K512 : list Z :=
   [0x428a_2f98_d728_ae22; 0x7137_4491_23ef_65cd; 0xb5c0_fbcf_ec4d_3b2f;
    0xe9b5_dba5_8189_dbbc; 0x3956_c25b_f348_b538; 0x59f1_11f1_b605_d019;
    0x923f_82a4_af19_4f9b; 0xab1c_5ed5_da6d_8118; 0xd807_aa98_a303_0242;
    0x1283_5b01_4570_6fbe; 0x2431_85be_4ee4_b28c; 0x550c_7dc3_d5ff_b4e2;
    0x72be_5d74_f27b_896f; 0x80de_b1fe_3b16_96b1; 0x9bdc_06a7_25c7_1235;
    0xc19b_f174_cf69_2694; 0xe49b_69c1_9ef1_4ad2; 0xefbe_4786_384f_25e3;
    0x0fc1_9dc6_8b8c_d5b5; 0x240c_a1cc_77ac_9c65; 0x2de9_2c6f_592b_0275;
    0x4a74_84aa_6ea6_e483; 0x5cb0_a9dc_bd41_fbd4; 0x76f9_88da_8311_53b5;
    0x983e_5152_ee66_dfab; 0xa831_c66d_2db4_3210; 0xb003_27c8_98fb_213f;
    0xbf59_7fc7_beef_0ee4; 0xc6e0_0bf3_3da8_8fc2; 0xd5a7_9147_930a_a725;
    0x06ca_6351_e003_826f; 0x1429_2967_0a0e_6e70; 0x27b7_0a85_46d2_2ffc;
    0x2e1b_2138_5c26_c926; 0x4d2c_6dfc_5ac4_2aed; 0x5338_0d13_9d95_b3df;
    0x650a_7354_8baf_63de; 0x766a_0abb_3c77_b2a8; 0x81c2_c92e_47ed_aee6;
    0x9272_2c85_1482_353b; 0xa2bf_e8a1_4cf1_0364; 0xa81a_664b_bc42_3001;
    0xc24b_8b70_d0f8_9791; 0xc76c_51a3_0654_be30; 0xd192_e819_d6ef_5218;
    0xd699_0624_5565_a910; 0xf40e_3585_5771_202a; 0x106a_a070_32bb_d1b8;
    0x19a4_c116_b8d2_d0c8; 0x1e37_6c08_5141_ab53; 0x2748_774c_df8e_eb99;
    0x34b0_bcb5_e19b_48a8; 0x391c_0cb3_c5c9_5a63; 0x4ed8_aa4a_e341_8acb;
    0x5b9c_ca4f_7763_e373; 0x682e_6ff3_d6b2_b8a3; 0x748f_82ee_5def_b2fc;
    0x78a5_636f_4317_2f60; 0x84c8_7814_a1f0_ab72; 0x8cc7_0208_1a64_39ec;
    0x90be_fffa_2363_1e28; 0xa450_6ceb_de82_bde9; 0xbef9_a3f7_b2c6_7915;
    0xc671_78f2_e372_532b; 0xca27_3ece_ea26_619c; 0xd186_b8c7_21c0_c207;
    0xeada_7dd6_cde0_eb1e; 0xf57d_4f7f_ee6e_d178; 0x06f0_67aa_7217_6fba;
    0x0a63_7dc5_a2c8_98a6; 0x113f_9804_bef9_0dae; 0x1b71_0b35_131c_471b;
    0x28db_77f5_2304_7d84; 0x32ca_ab7b_40c7_2493; 0x3c9e_be0a_15c9_bebc;
    0x431d_67c4_9c10_0d4c; 0x4cc5_d4be_cb3e_42b6; 0x597f_299c_fc65_7e2a;
    0x5fcb_6fab_3ad6_faec; 0x6c44_198c_4a47_5817].

Definition Sigma0_512 (x : Z) : Z :=
  Z.lxor (Z.lxor (CRYPTO_rotr_u64 x 28) (CRYPTO_rotr_u64 x 34)) (CRYPTO_rotr_u64 x 39).
Definition Sigma1_512 (x : Z) : Z :=
  Z.lxor (Z.lxor (CRYPTO_rotr_u64 x 14) (CRYPTO_rotr_u64 x 18)) (CRYPTO_rotr_u64 x 41).
Definition sigma0_512 (x : Z) : Z :=
  Z.lxor (Z.lxor (CRYPTO_rotr_u64 x 1) (CRYPTO_rotr_u64 x 8)) (Z.shiftr x 7).
Definition sigma1_512 (x : Z) : Z :=
  Z.lxor (Z.lxor (CRYPTO_rotr_u64 x 19) (CRYPTO_rotr_u64 x 61)) (Z.shiftr x 6).

Local Abbreviation round_00_15 := (ROUND_00_15 64 Sigma0_512 Sigma1_512 K512).

(** [ROUND_16_80(i, j, a, .., h, X)] on [X] and the registers. *)
Definition ROUND_16_80 (i : nat) (s : list Z * list Z) (c : nat * list nat) : list Z * list Z :=
  let '(X, r) := s in
  let '(j, args) := c in
  let s0 := sigma0_512 (word X (Nat.land (j + 1) 15)) in
  let s1 := sigma1_512 (word X (Nat.land (j + 14) 15)) in
  let T1 := wadd 64 (word X (Nat.land j 15)) (wadd 64 (wadd 64 s0 s1) (word X (Nat.land (j + 9) 15))) in
  (set_word (Nat.land j 15) T1 X, round_00_15 (i + j) args T1 r).

(** The body of [for (i = 16; i < 80; i += 16)] has the calls of the first rounds. *)
Definition rounds_16_80 (s : list Z * list Z) : list Z * list Z :=
  foldl (fun s i => foldl (ROUND_16_80 i) s calls_00_15) s [16; 32; 48; 64]%nat.

(** One turn of the loop: [X] from sixteen loads, the registers from [state]. *)
Definition sha512_block (state X : list Z) : list Z :=
  let r := rounds_00_15 64 Sigma0_512 Sigma1_512 K512 X state in
  zip_with (wadd 64) state (rounds_16_80 (X, r)).2.

(** *** Few registers

    [X] is an array of 89 words with nothing in it at first, [F] an index into it.
    [A], [E] and [T] are variables. *)
Record frame := Frame { fr_X : list Z; fr_F : nat; fr_A : Z; fr_E : Z }.

(** What the two loops have in common, with the word [T] of the schedule. *)
Definition frame_round (i : nat) (T : Z) (s : frame) : frame :=
  let F := fr_F s in
  let X := set_word (F + 0) (fr_A s) (fr_X s) in
  let X := set_word (F + 4) (fr_E s) X in
  let X := set_word (F + 8) T X in
  let T := wadd 64 T (wadd 64 (wadd 64 (wadd 64 (word X (F + 7)) (Sigma1_512 (fr_E s)))
                       (Ch 64 (fr_E s) (word X (F + 5)) (word X (F + 6)))) (word K512 i)) in
  let E := wadd 64 (word X (F + 3)) T in
  let A := wadd 64 (wadd 64 T (Sigma0_512 (fr_A s))) (Maj (fr_A s) (word X (F + 1)) (word X (F + 2))) in
  Frame X (F - 1) A E.
Definition frame_later (i : nat) (s : frame) : frame :=
  let F := fr_F s in
  let T := sigma0_512 (word (fr_X s) (F + (8 + 16 - 1))) in
  let T := wadd 64 T (sigma1_512 (word (fr_X s) (F + (8 + 16 - 14)))) in
  let T := wadd 64 T (wadd 64 (word (fr_X s) (F + (8 + 16))) (word (fr_X s) (F + (8 + 16 - 9)))) in
  frame_round i T s.

Definition frame_init (X state : list Z) : frame :=
  let F := 80%nat in
  let X := set_word (F + 1) (word state 1) X in
  let X := set_word (F + 2) (word state 2) X in
  let X := set_word (F + 3) (word state 3) X in
  let X := set_word (F + 5) (word state 5) X in
  let X := set_word (F + 6) (word state 6) X in
  let X := set_word (F + 7) (word state 7) X in
  Frame X F (word state 0) (word state 4).

(** One turn of the loop; [W] are the sixteen words of the block. *)
Definition sha512_block_frame (X state W : list Z) : list Z :=
  let s := frame_init X state in
  let s := foldl (fun s i => frame_round i (word W i) s) s (seq 0 16) in
  let s := foldl (fun s i => frame_later i s) s (seq 16 64) in
  let F i := word (fr_X s) (fr_F s + i) in
  zip_with (wadd 64) state [fr_A s; F 1%nat; F 2%nat; F 3%nat; fr_E s; F 5%nat; F 6%nat; F 7%nat].

(** *** [sha512_block_data_order] *)

(** [while (num--)] around either body; [state] has eight words. *)
Fixpoint sha512_blocks (block : list Z -> list Z -> list Z) (num : nat) (state : list Z) (data : bytes) :
    res (list Z) :=
  match num with
  | O => Ret state
  | S n =>
      if Nat.eqb (length state) 8 then
        X <- load_words CRYPTO_load_u64_be 8 16 data ;;
        sha512_blocks block n (block state X) (drop 128 data)
      else UB
  end.
Definition sha512_block_data_order_nohw (state : list Z) (data : bytes) (num : Z) : res (list Z) :=
  sha512_blocks sha512_block (Z.to_nat num) state data.
Definition sha512_block_data_order := sha512_block_data_order_nohw.
(** The version for i386. *)
Definition sha512_block_data_order_i386 (X state : list Z) (data : bytes) (num : Z) : res (list Z) :=
  sha512_blocks (sha512_block_frame X) (Z.to_nat num) state data.

(** ** The digest *)

Definition SHA512_Transform (c : SHA512_CTX) (block : bytes) : res SHA512_CTX :=
  let m := sha512_md c in
  h <- sha512_block_data_order (md_h m) block 1 ;;
  Ret (Sha512Ctx (Md32 h (md_Nl m) (md_Nh m) (md_data m) (md_num m)) (sha512_md_len c)).

(** The end of [SHA512_Update]. *)
Definition sha512_rest (h : list Z) (Nl Nh : Z) (p : bytes) (num : Z) (data : bytes) : res md32_ctx :=
  let len := Z.of_nat (length data) in
  h <- (if SHA512_CBLOCK <=? len then sha512_block_data_order h data (len / SHA512_CBLOCK) else Ret h) ;;
  let rest := if SHA512_CBLOCK <=? len then len mod SHA512_CBLOCK else len in
  let data := drop (Z.to_nat (len - rest)) data in
  if negb (rest =? 0) then
    p <- put p 0 data ;;
    Ret (Md32 h Nl Nh p rest)
  else Ret (Md32 h Nl Nh p num).

Definition sha512_update_md (c : md32_ctx) (data : bytes) : res md32_ctx :=
  let len := Z.of_nat (length data) in
  if len =? 0 then Ret c
  else
    let l := u64 (md_Nl c + u64 (Z.shiftl len 3)) in
    let Nh := if l <? md_Nl c then u64 (md_Nh c + 1) else md_Nh c in
    let Nh := u64 (Nh + Z.shiftr len 61) in
    if negb (md_num c =? 0) then
      let n := u64 (SHA512_CBLOCK - md_num c) in
      if len <? n then
        p <- put (md_data c) (md_num c) data ;;
        Ret (Md32 (md_h c) l Nh p (u32 (md_num c + u32 len)))
      else
        part <- get data n ;;
        p <- put (md_data c) (md_num c) part ;;
        h <- sha512_block_data_order (md_h c) p 1 ;;
        sha512_rest h l Nh p 0 (drop (Z.to_nat n) data)
    else sha512_rest (md_h c) l Nh (md_data c) (md_num c) data.
Definition SHA512_Update (c : SHA512_CTX) (data : bytes) : res SHA512_CTX :=
  m <- sha512_update_md (sha512_md c) data ;;
  Ret (Sha512Ctx m (sha512_md_len c)).
Definition SHA384_Update := SHA512_Update.
Definition SHA512_256_Update := SHA512_Update.

(** The padding; the context after the last block. *)
Definition sha512_pad (c : md32_ctx) : res md32_ctx :=
  let n := md_num c in
  p <- put (md_data c) n [0x80] ;;
  let n := n + 1 in
  x <- (if SHA512_CBLOCK - 16 <? n then
          p <- put p n (zeros (SHA512_CBLOCK - n)) ;;
          h <- sha512_block_data_order (md_h c) p 1 ;;
          Ret (h, p, 0)
        else Ret (md_h c, p, n)) ;;
  let '(h, p, n) := x in
  p <- put p n (zeros (SHA512_CBLOCK - 16 - n)) ;;
  p <- put p (SHA512_CBLOCK - 16) (CRYPTO_store_u64_be (md_Nh c)) ;;
  p <- put p (SHA512_CBLOCK - 8) (CRYPTO_store_u64_be (md_Nl c)) ;;
  h <- sha512_block_data_order h p 1 ;;
  Ret (Md32 h (md_Nl c) (md_Nh c) p (md_num c)).

(** What the function returns, the bytes it writes to [out], if that is not NULL, and
    the context. *)
Definition sha512_final_impl (out_null : bool) (md_len : Z) (c : SHA512_CTX) :
    res (Z * bytes * SHA512_CTX) :=
  m <- sha512_pad (sha512_md c) ;;
  let c := Sha512Ctx m (sha512_md_len c) in
  if out_null then Ret (0, [], c)
  else
    _ <- c_assert (md_len mod 8 =? 0) ;;
    words <- get (md_h m) (md_len / 8) ;;
    Ret (1, concat (CRYPTO_store_u64_be <$> words), c).

Definition SHA512_Final (out_null : bool) (c : SHA512_CTX) : res (Z * bytes * SHA512_CTX) :=
  sha512_final_impl out_null (sha512_md_len c) c.
Definition SHA384_Final (out_null : bool) (c : SHA512_CTX) : res (Z * bytes * SHA512_CTX) :=
  _ <- c_assert (sha512_md_len c =? SHA384_DIGEST_LENGTH) ;;
  sha512_final_impl out_null SHA384_DIGEST_LENGTH c.
Definition SHA512_256_Final (out_null : bool) (c : SHA512_CTX) : res (Z * bytes * SHA512_CTX) :=
  _ <- c_assert (sha512_md_len c =? SHA512_256_DIGEST_LENGTH) ;;
  sha512_final_impl out_null SHA512_256_DIGEST_LENGTH c.

(** One call each, on a context in memory [p]. *)
Definition SHA384 (p data : bytes) : res bytes :=
  c <- SHA384_Update (SHA384_Init p) data ;;
  r <- SHA384_Final false c ;;
  Ret r.1.2.
Definition SHA512 (p data : bytes) : res bytes :=
  c <- SHA512_Update (SHA512_Init p) data ;;
  r <- SHA512_Final false c ;;
  Ret r.1.2.
Definition SHA512_256 (p data : bytes) : res bytes :=
  c <- SHA512_256_Update (SHA512_256_Init p) data ;;
  r <- SHA512_256_Final false c ;;
  Ret r.1.2.

(** Updates one after the other. *)
Fixpoint sha512_updates (c : SHA512_CTX) (chunks : list bytes) : res SHA512_CTX :=
  match chunks with
  | [] => Ret c
  | x :: r => c <- SHA512_Update c x ;; sha512_updates c r
  end.

(** "abc" *)
Example sha384_abc : SHA384 (zeros 128) [97; 98; 99] = Ret (be_bytes 48
  0xcb00_753f_45a3_5e8b_b5a0_3d69_9ac6_5007_272c_32ab_0ede_d163_1a8b_605a_43ff_5bed_8086_072b_a1e7_cc23_58ba_eca1_34c8_25a7).
Proof. vm_compute. reflexivity. Qed.
