(* ===== verification/Sha512Spec.v ===== *)
(** * SHA-512, SHA-384 and SHA-512/256 are the hash functions of FIPS 180-4

    The standard's functions, with the start of SHA-512/256 computed by SHA-512 as
    section 5.3.6 has it; both versions of the C block function compute their
    compression function, and the C digest computes the hash function of any message
    in any pieces, whatever is in the memory of a new context. *)
From Stdlib Require Import ZArith Lia.
From stdpp Require Import prelude list numbers.
From S2P Require Import Prelude CMem Cells Der DerInt Words Md32 Md32Spec Sha2 Sha512.
Local Open Scope Z_scope.
Local Open Scope res_scope.

(** ** FIPS 180-4 *)

Definition fips_K512 : list Z := cube_root_bits 64 <$> primes 80.
Definition fips_H512 : list Z := square_root_bits 0 64 <$> primes 8.
Definition fips_H384 : list Z := square_root_bits 0 64 <$> drop 8 (primes 16).

Definition SIGMA0_512 (x : Z) : Z := Z.lxor (Z.lxor (ROTR 64 28 x) (ROTR 64 34 x)) (ROTR 64 39 x).
Definition SIGMA1_512 (x : Z) : Z := Z.lxor (Z.lxor (ROTR 64 14 x) (ROTR 64 18 x)) (ROTR 64 41 x).
Definition fips_sigma0_512 (x : Z) : Z := Z.lxor (Z.lxor (ROTR 64 1 x) (ROTR 64 8 x)) (x / 2 ^ 7).
Definition fips_sigma1_512 (x : Z) : Z := Z.lxor (Z.lxor (ROTR 64 19 x) (ROTR 64 61 x)) (x / 2 ^ 6).

Definition fips_block_512 (st M : list Z) : list Z :=
  fips_compress 64 SIGMA0_512 SIGMA1_512 fips_sigma0_512 fips_sigma1_512 fips_K512 80 st M.
Definition compress_512 (st : list Z) (block : bytes) : list Z :=
  fips_block_512 st (be_val <$> chunks 8 16 block).

Definition hash_512 (iv : list Z) (words : nat) (msg : bytes) : bytes :=
  concat (be_bytes 8 <$> take words (merkle_damgard compress_512 128 16 true iv msg)).
Definition fips_sha512 : bytes -> bytes := hash_512 fips_H512 8.
Definition fips_sha384 : bytes -> bytes := hash_512 fips_H384 6.
(** The hash of "SHA-512/256" from other values. *)
Definition fips_H512_256 : list Z :=
  merkle_damgard compress_512 128 16 true (Z.lxor 0xa5a5_a5a5_a5a5_a5a5 <$> fips_H512)
    [83; 72; 65; 45; 53; 49; 50; 47; 50; 53; 54].
Definition fips_sha512_256 : bytes -> bytes := hash_512 fips_H512_256 4.

(** ** The constants of the code *)

Lemma K512_roots : K512 = fips_K512.
Proof. vm_compute. reflexivity. Qed.
Lemma H512_roots p : md_h (sha512_md (SHA512_Init p)) = fips_H512.
Proof. vm_compute. reflexivity. Qed.
Lemma H384_roots p : md_h (sha512_md (SHA384_Init p)) = fips_H384.
Proof. vm_compute. reflexivity. Qed.
Lemma H512_256_value p : md_h (sha512_md (SHA512_256_Init p)) = fips_H512_256.
Proof. vm_compute. reflexivity. Qed.

Lemma length_H512_256 : length fips_H512_256 = 8%nat.
Proof. by vm_compute. Qed.

(** ** Blocks *)

Lemma Sigma0_512_eq x : Sigma0_512 x = SIGMA0_512 x.
Proof. unfold Sigma0_512, SIGMA0_512. by rewrite !rotr_u64_ROTR by lia. Qed.
Lemma Sigma1_512_eq x : Sigma1_512 x = SIGMA1_512 x.
Proof. unfold Sigma1_512, SIGMA1_512. by rewrite !rotr_u64_ROTR by lia. Qed.
Lemma sigma0_512_eq x : sigma0_512 x = fips_sigma0_512 x.
Proof. unfold sigma0_512, fips_sigma0_512. by rewrite !rotr_u64_ROTR, Z.shiftr_div_pow2 by lia. Qed.
Lemma sigma1_512_eq x : sigma1_512 x = fips_sigma1_512 x.
Proof. unfold sigma1_512, fips_sigma1_512. by rewrite !rotr_u64_ROTR, Z.shiftr_div_pow2 by lia. Qed.

Local Abbreviation sched M := (schedule (next_word 64 sigma0_512 sigma1_512) M 80).
Local Abbreviation rounds := (fips_rounds 64 Sigma0_512 Sigma1_512 K512).

(** The function of the standard with the functions of the code. *)
Lemma fips_block_code st M :
  fips_block_512 st M = zip_with (wadd 64) st (rounds (sched M) st (seq 0 80)).
Proof.
  unfold fips_block_512. rewrite <- K512_roots.
  by rewrite <- (fips_compress_ext _ _ _ _ _ _ _ _ _ _ _ _ _ Sigma0_512_eq Sigma1_512_eq sigma0_512_eq sigma1_512_eq).
Qed.

(** The indices in a body of sixteen calls are those of the whole count. *)
Lemma ROUND_16_80_index q s j args :
  ROUND_16_80 (16 * q) s (j, args) =
  round_16 64 Sigma0_512 Sigma1_512 sigma0_512 sigma1_512 K512 s (16 * q + j, args)%nat.
Proof.
  destruct s as [X r]. unfold round_16, ROUND_16_63, ROUND_16_80. cbn [fst snd]. rewrite !land_15.
  assert (forall k, (16 * q + k) mod 16 = k mod 16)%nat as E
    by (intros k; rewrite Nat.add_comm, Nat.mul_comm; apply Nat.Div0.mod_add).
  by rewrite <- !Nat.add_assoc, !E.
Qed.
Lemma body_16_80 q s :
  foldl (ROUND_16_80 (16 * q)) s calls_00_15 =
  foldl (round_16 64 Sigma0_512 Sigma1_512 sigma0_512 sigma1_512 K512) s
    ((fun c => (16 * q + c.1, c.2)%nat) <$> calls_00_15).
Proof.
  generalize calls_00_15. intros l. revert s. induction l as [|[j args] l IH]; intros s; [done|].
  cbn [foldl fmap list_fmap fst snd]. by rewrite ROUND_16_80_index, IH.
Qed.
Lemma loop_16_80 s :
  rounds_16_80 s =
  foldl (round_16 64 Sigma0_512 Sigma1_512 sigma0_512 sigma1_512 K512) s (uniform (seq 16 64)).
Proof.
  unfold rounds_16_80.
  assert (uniform (seq 16 64) =
    concat ((fun q => (fun c => (16 * q + c.1, c.2)%nat) <$> calls_00_15) <$> [1; 2; 3; 4]%nat)) as -> by reflexivity.
  change [16; 32; 48; 64]%nat with (Nat.mul 16 <$> [1; 2; 3; 4]%nat).
  generalize [1; 2; 3; 4]%nat. intros l. revert s. induction l as [|q l IH]; intros s; [done|].
  cbn [fmap list_fmap concat foldl]. by rewrite body_16_80, foldl_app, <- IH.
Qed.

Lemma sha512_block_fips state X :
  length state = 8%nat -> length X = 16%nat -> sha512_block state X = fips_block_512 state X.
Proof.
  intros Hs HX. unfold sha512_block. rewrite loop_16_80, fips_block_code.
  change 64%nat with (80 - 16)%nat. by rewrite rounds_view by (done || lia).
Qed.

(** ** Blocks on few registers

    At round [t] the pointer is at [80 - t]; the values are above it, and the words of
    the schedule above those, from the end of the array down. *)
Record frame_view (W : list Z) (t : nat) (s : frame) (l : list Z) : Prop := {
  fv_len : length (fr_X s) = 89%nat;
  fv_F : fr_F s = (80 - t)%nat;
  fv_l : l = let F i := word (fr_X s) (fr_F s + i) in
         [fr_A s; F 1%nat; F 2%nat; F 3%nat; fr_E s; F 5%nat; F 6%nat; F 7%nat];
  fv_W : forall i, (i < t)%nat -> word (fr_X s) (88 - i) = word W i
}.

(** Reads of an array after writes to it. *)
Ltac reads :=
  repeat first [rewrite set_word_other by lia | rewrite set_word_same by (rewrite ?length_set_word; lia)].

Lemma frame_round_view W t s l :
  (t < 80)%nat -> frame_view W t s l ->
  frame_view W (S t) (frame_round t (word W t) s)
    (fips_round 64 Sigma0_512 Sigma1_512 K512 t (word W t) l).
Proof.
  intros Ht [Hl HF -> HW]. destruct s as [X F A E]. cbn [fr_X fr_F fr_A fr_E] in *. subst F.
  unfold frame_round. cbn [fr_X fr_F fr_A fr_E]. cbv zeta.
  split; cbn [fr_X fr_F fr_A fr_E].
  - by rewrite !length_set_word.
  - lia.
  - cbv zeta. unfold fips_round. set (kt := word K512 t). clearbody kt.
    replace (80 - t - 1 + 1)%nat with (80 - t + 0)%nat by lia.
    replace (80 - t - 1 + 2)%nat with (80 - t + 1)%nat by lia.
    replace (80 - t - 1 + 3)%nat with (80 - t + 2)%nat by lia.
    replace (80 - t - 1 + 5)%nat with (80 - t + 4)%nat by lia.
    replace (80 - t - 1 + 6)%nat with (80 - t + 5)%nat by lia.
    replace (80 - t - 1 + 7)%nat with (80 - t + 6)%nat by lia.
    reads. repeat apply (f_equal2 cons); try reflexivity; word_sum.
  - intros i Hi. destruct (decide (i = t)) as [->|Hne].
    + replace (88 - t)%nat with (80 - t + 8)%nat by lia. by reads.
    + reads. apply HW. lia.
Qed.

Lemma frame_later_word M t s l :
  length M = 16%nat -> (16 <= t < 80)%nat -> frame_view (sched M) t s l ->
  frame_later t s = frame_round t (word (sched M) t) s.
Proof.
  intros HM Ht [_ HF _ HW]. unfold frame_later. cbv zeta. rewrite HF. f_equal.
  rewrite (schedule_next 64 sigma0_512 sigma1_512 M 80 t HM Ht), <- !HW by lia.
  replace (88 - (t - 16))%nat with (80 - t + (8 + 16))%nat by lia.
  replace (88 - (t - 15))%nat with (80 - t + (8 + 16 - 1))%nat by lia.
  replace (88 - (t - 2))%nat with (80 - t + (8 + 16 - 14))%nat by lia.
  replace (88 - (t - 7))%nat with (80 - t + (8 + 16 - 9))%nat by lia.
  word_sum.
Qed.

Lemma frame_rounds_view W k t s l (round : frame -> nat -> frame) :
  (forall i s l, (t <= i < t + k)%nat -> frame_view W i s l -> round s i = frame_round i (word W i) s) ->
  (t + k <= 80)%nat -> frame_view W t s l ->
  frame_view W (t + k) (foldl round s (seq t k)) (rounds W l (seq t k)).
Proof.
  revert t s l; induction k as [|k IH]; intros t s l Hr Hk Hv.
  { by rewrite Nat.add_0_r. }
  cbn [seq foldl]. unfold fips_rounds. cbn [foldl].
  rewrite (Hr t s l) by (done || lia). rewrite <- Nat.add_succ_comm.
  apply IH; [intros; eapply Hr; [lia|done]|lia|apply frame_round_view; [lia|done]].
Qed.

Lemma sha512_block_frame_fips X state M :
  length X = 89%nat -> length state = 8%nat -> length M = 16%nat ->
  sha512_block_frame X state M = fips_block_512 state M.
Proof.
  intros HX Hs HM. rewrite fips_block_code. unfold sha512_block_frame. cbv zeta.
  assert (frame_view (sched M) 0 (frame_init X state) state) as H0.
  { split; unfold frame_init; cbv zeta; cbn [fr_X fr_F fr_A fr_E]; try reflexivity; try by rewrite !length_set_word.
    - cbv zeta. reads. by do 9 (destruct state as [|? state]; try done).
    - lia. }
  assert (forall i s l, (0 <= i < 0 + 16)%nat -> frame_view (sched M) i s l ->
    frame_round i (word M i) s = frame_round i (word (sched M) i) s) as Hfirst
    by (intros; by rewrite schedule_prefix by lia).
  pose proof (frame_rounds_view _ 16 0 _ state (fun s i => frame_round i (word M i) s)
    Hfirst ltac:(lia) H0) as H1.
  assert (forall i s l, (16 <= i < 16 + 64)%nat -> frame_view (sched M) i s l ->
    frame_later i s = frame_round i (word (sched M) i) s) as Hlater
    by (intros i s l Hi; apply frame_later_word; lia).
  pose proof (frame_rounds_view _ 64 16 _ _ (fun s i => frame_later i s) Hlater ltac:(lia) H1) as H2.
  assert (seq 0 80 = seq 0 16 ++ seq 16 64) as -> by reflexivity. rewrite fips_rounds_app.
  destruct H2 as [_ _ El _]. cbv zeta in El. by rewrite <- El.
Qed.

(** ** Runs of the block functions *)

Lemma compress_512_take state data :
  compress_512 state (take 128 data) = fips_block_512 state (CRYPTO_load_u64_be <$> chunks 8 16 data).
Proof.
  unfold compress_512. rewrite chunks_take by lia. rewrite <- (load_chunks be_val). reflexivity.
Qed.
Lemma length_compress_512 h x : length h = 8%nat -> length (compress_512 h x) = 8%nat.
Proof. unfold compress_512, fips_block_512. apply length_fips_compress. Qed.

Lemma sha512_blocks_run block n state data :
  (forall st M, length st = 8%nat -> length M = 16%nat -> block st M = fips_block_512 st M) ->
  length state = 8%nat -> (n * 128 <= length data)%nat ->
  sha512_blocks block n state data = Ret (foldl compress_512 state (blocks 128 n data)).
Proof.
  intros Hb. revert state data; induction n as [|n IH]; intros state data Hs Hd; [done|].
  cbn [sha512_blocks]. rewrite Hs. change (Nat.eqb 8 8) with true. cbv iota.
  rewrite load_words_run by lia. cbn [rbind blocks foldl].
  rewrite Hb by (by rewrite ?length_fmap, ?length_chunks).
  rewrite compress_512_take. apply IH; [by apply length_fips_compress|rewrite length_drop; lia].
Qed.
Lemma sha512_nohw_run state data n :
  length state = 8%nat -> 0 <= n -> n * 128 <= Z.of_nat (length data) ->
  sha512_block_data_order state data n = Ret (foldl compress_512 state (blocks 128 (Z.to_nat n) data)).
Proof. intros Hs Hn Hd. apply sha512_blocks_run; [exact sha512_block_fips|done|lia]. Qed.

(** ** Collecting blocks *)

Local Abbreviation seen := (collected compress_512 128 64).

(** The carry between the two words of the bit count. *)
Lemma bit_count_512 Nl Nh len total :
  0 <= Nl < 2 ^ 64 -> 0 <= Nh < 2 ^ 64 -> 0 <= len < 2 ^ 64 ->
  Nh * 2 ^ 64 + Nl = total mod 2 ^ 128 ->
  let l := u64 (Nl + u64 (Z.shiftl len 3)) in
  let Nh1 := if l <? Nl then u64 (Nh + 1) else Nh in
  let Nh2 := u64 (Nh1 + Z.shiftr len 61) in
  0 <= l < 2 ^ 64 /\ 0 <= Nh2 < 2 ^ 64 /\ Nh2 * 2 ^ 64 + l = (total + 8 * len) mod 2 ^ 128.
Proof.
  intros HNl HNh Hlen Ht l Nh1 Nh2.
  split; [apply wrap_range; lia|]. split; [apply wrap_range; lia|].
  assert (Z.shiftl len 3 = 8 * len) as E1 by (rewrite Z.shiftl_mul_pow2 by lia; lia).
  assert (Z.shiftr len 61 = len / 2 ^ 61) as E2 by (apply Z.shiftr_div_pow2; lia).
  unfold Nh2, Nh1, l. rewrite E1, E2. unfold u64, wrap.
  rewrite <- (Z.add_mod_idemp_l total (8 * len) (2 ^ 128)), <- Ht by lia.
  change (2 ^ 61) with 2305843009213693952 in *. change (2 ^ 64) with 18446744073709551616 in *.
  change (2 ^ 128) with 340282366920938463463374607431768211456 in *.
  destruct (Z.ltb_spec ((Nl + (8 * len) mod 18446744073709551616) mod 18446744073709551616) Nl);
    Z.div_mod_to_equations; lia.
Qed.

Lemma run_512 h data n :
  length h = 8%nat -> (n * 128 <= length data)%nat ->
  sha512_block_data_order h data (Z.of_nat n) = Ret (foldl compress_512 h (blocks 128 n data)).
Proof. intros Hh Hn. rewrite sha512_nohw_run, Nat2Z.id by (done || lia). done. Qed.
Lemma fold_512 h l : length h = 8%nat -> length (foldl compress_512 h l) = 8%nat.
Proof. revert h; induction l as [|x l IH]; intros h Hh; [done|]. by apply IH, length_compress_512. Qed.

(** The end of an update, when all so far are whole blocks. *)
Lemma sha512_rest_run iv q m Nl Nh p x :
  length iv = 8%nat -> length m = (q * 128)%nat -> length p = 128%nat ->
  0 <= Nl < 2 ^ 64 /\ 0 <= Nh < 2 ^ 64 ->
  Nh * 2 ^ 64 + Nl = (8 * Z.of_nat (length (m ++ x))) mod 2 ^ 128 ->
  exists c, sha512_rest (foldl compress_512 iv (blocks 128 q m)) Nl Nh p 0 x = Ret c /\ seen iv (m ++ x) c.
Proof.
  intros Hiv Hm Hp Hw Hbits.
  set (k := (length x / 128)%nat). pose proof (div_bound 128 x) as Hk. fold k in Hk.
  pose proof (mod_rest 128 x) as Hr. fold k in Hr.
  pose proof (Nat.mod_upper_bound (length x) 128 ltac:(lia)) as Hlt.
  assert (Z.of_nat (length x) / SHA512_CBLOCK = Z.of_nat k) as Ek by (unfold k; by rewrite Nat2Z.inj_div).
  assert (Z.of_nat (length x) mod SHA512_CBLOCK = Z.of_nat (length x mod 128)) as Emod
    by (by rewrite Nat2Z.inj_mod).
  set (r := drop (k * 128) x). assert (length r = (length x mod 128)%nat) as Hlr
    by (unfold r; rewrite length_drop; lia).
  set (h := foldl compress_512 iv (blocks 128 q m ++ blocks 128 k x)).
  assert (sha512_rest (foldl compress_512 iv (blocks 128 q m)) Nl Nh p 0 x =
    (if negb (Z.of_nat (length r) =? 0) then
       p <- put p 0 r ;; Ret (Md32 h Nl Nh p (Z.of_nat (length r)))
     else Ret (Md32 h Nl Nh p 0))) as ->.
  { unfold sha512_rest, h. cbv zeta. rewrite Ek, Emod, foldl_app, <- Hlr.
    destruct (Z.leb_spec SHA512_CBLOCK (Z.of_nat (length x))) as [Hb|Hb]; unfold SHA512_CBLOCK in Hb.
    - rewrite run_512 by (try apply fold_512; done || lia). cbn [rbind].
      replace (Z.to_nat (Z.of_nat (length x) - Z.of_nat (length r))) with (k * 128)%nat by lia. done.
    - assert (k = 0%nat) as E0 by (apply Nat.div_small; lia). cbn [rbind].
      unfold r. rewrite E0. cbn [blocks foldl Nat.mul]. by rewrite Z.sub_diag. }
  destruct (Z.eqb_spec (Z.of_nat (length r)) 0) as [E0|E0]; cbn [negb].
  - eexists. split; [done|]. apply collect; try done; [lia|].
    fold k r. rewrite <- Hlr. by destruct r.
  - rewrite put_run by lia. cbn [rbind]. eexists. split; [done|].
    change (take (Z.to_nat 0) p) with ([] : bytes). cbn [app]. apply collect; try done.
    + rewrite !length_app, length_drop. lia.
    + lia.
    + fold k r. rewrite <- Hlr. apply take_rest.
Qed.

Lemma sha512_update_run iv msg c x :
  length iv = 8%nat -> seen iv msg c -> Z.of_nat (length x) < 2 ^ 64 ->
  exists c', sha512_update_md c x = Ret c' /\ seen iv (msg ++ x) c'.
Proof.
  intros Hiv Ha Hx. destruct (absorbed_rest _ 128 ltac:(lia) _ _ _ _ Ha) as (En & Hlt & Hlr).
  destruct (absorbed_full _ _ _ _ _ _ Ha) as (Hlf & Ebf).
  pose proof Ha as [Eh _ Hl Hd Hw Hb].
  unfold sha512_update_md. cbv zeta.
  destruct (Z.eqb_spec (Z.of_nat (length x)) 0) as [E0|E0].
  { destruct x; [|cbn in E0; lia]. rewrite app_nil_r. eauto. }
  destruct (bit_count_512 (md_Nl c) (md_Nh c) (Z.of_nat (length x)) (8 * Z.of_nat (length msg)))
    as (Hl' & Hh' & Hbits); try tauto; [lia|].
  replace (8 * Z.of_nat (length msg) + 8 * Z.of_nat (length x))
    with (8 * Z.of_nat (length (msg ++ x))) in Hbits by (rewrite length_app; lia).
  set (l := u64 (md_Nl c + _)) in *. set (Nh := u64 (_ + Z.shiftr _ 61)) in *.
  destruct (Z.eqb_spec (md_num c) 0) as [Er|Er]; cbn [negb].
  - assert (length msg mod 128 = 0)%nat as Er' by lia. rewrite Er' in Hlr.
    pose proof (take_drop (length msg / 128 * 128) msg) as Emsg.
    destruct (drop (length msg / 128 * 128) msg); [|done]. rewrite app_nil_r in Emsg.
    rewrite Emsg in Hlf. rewrite Eh, Er. by apply sha512_rest_run.
  - assert (u64 (SHA512_CBLOCK - md_num c) = 128 - md_num c) as -> by (apply wrap_small; unfold SHA512_CBLOCK; lia).
    destruct (Z.ltb_spec (Z.of_nat (length x)) (128 - md_num c)).
    + destruct (collect_short compress_512 128 ltac:(lia) 64 iv msg c x l Nh) as (p & Ep & Hc); try done; [lia|].
      rewrite Ep. cbn [rbind]. eexists. split; [done|].
      unfold u32. rewrite (wrap_small 32 (Z.of_nat (length x))), wrap_small by lia. exact Hc.
    + set (q := (length msg / 128)%nat) in *. set (r := drop (q * 128) msg) in *.
      set (f := take (q * 128) msg) in *.
      assert (msg = f ++ r) as Emsg by (unfold f, r; by rewrite take_drop).
      rewrite get_run by lia. cbn [rbind]. set (y := take (Z.to_nat (128 - md_num c)) x).
      assert (length y = 128 - length msg mod 128)%nat as Hy by (unfold y; rewrite length_take; lia).
      rewrite put_run by lia. cbn [rbind]. rewrite Hd, Hy, (drop_ge (md_data c)), app_nil_r by lia.
      change 1 with (Z.of_nat 1). rewrite Eh, Ebf.
      rewrite run_512 by (try apply fold_512; rewrite ?length_app; done || lia). cbn [rbind].
      rewrite <- foldl_app, <- (blocks_app 128 q 1 f (r ++ y)) by done.
      assert (msg ++ x = (f ++ (r ++ y)) ++ drop (Z.to_nat (128 - md_num c)) x) as Emx
        by (rewrite Emsg at 1; rewrite <- !app_assoc; unfold y; by rewrite take_drop).
      rewrite Emx in Hbits |- *. apply sha512_rest_run; try done; rewrite !length_app; lia.
Qed.

(** ** The last block *)

Lemma length_app_words x y : length (CRYPTO_store_u64_be x ++ CRYPTO_store_u64_be y) = 16%nat.
Proof. unfold CRYPTO_store_u64_be. by rewrite length_app, !length_be_bytes. Qed.
Lemma count_words_64 Nl Nh v :
  0 <= Nl < 2 ^ 64 -> 0 <= Nh < 2 ^ 64 -> Nh * 2 ^ 64 + Nl = v mod 2 ^ (64 + 64) ->
  count_bytes 16 true v = CRYPTO_store_u64_be Nh ++ CRYPTO_store_u64_be Nl.
Proof.
  intros Hl Hh Hv. unfold count_bytes, CRYPTO_store_u64_be.
  assert (bytes_ok (be_bytes 8 Nh ++ be_bytes 8 Nl)) as Hok
    by (apply Forall_app; split; apply be_bytes_ok).
  rewrite <- (be_bytes_val _ Hok), <- (be_bytes_val _ (be_bytes_ok 16 v)).
  rewrite length_app, !length_be_bytes. f_equal.
  unfold be_val at 2. rewrite foldl_app, be_fold_val. fold (be_val (be_bytes 8 Nh)).
  rewrite !be_val_bytes, length_be_bytes. change (256 ^ Z.of_nat 8) with (2 ^ 64).
  rewrite (Z.mod_small Nh), (Z.mod_small Nl) by lia.
  change (256 ^ Z.of_nat 16) with (2 ^ (64 + 64)). rewrite <- Hv. lia.
Qed.

(** The end of the padding on a block that starts with [a]. *)
Lemma last_words {T} (a d : bytes) Nh Nl (K : bytes -> res T) :
  length (a ++ d) = 128%nat -> (length a <= 112)%nat ->
  (p <- put (a ++ d) (Z.of_nat (length a)) (zeros (112 - Z.of_nat (length a))) ;;
   p <- put p 112 (CRYPTO_store_u64_be Nh) ;;
   p <- put p (SHA512_CBLOCK - 8) (CRYPTO_store_u64_be Nl) ;;
   K p) = K (a ++ zeros (112 - Z.of_nat (length a)) ++ CRYPTO_store_u64_be Nh ++ CRYPTO_store_u64_be Nl).
Proof.
  intros Hl Ha. unfold CRYPTO_store_u64_be.
  pose proof (length_be_bytes 8 Nh) as Hx. pose proof (length_be_bytes 8 Nl) as Hy.
  set (x := be_bytes 8 Nh) in *. set (y := be_bytes 8 Nl) in *. set (z := zeros (112 - Z.of_nat (length a))).
  assert (Z.of_nat (length z) = 112 - Z.of_nat (length a)) as Hz by (apply length_zeros; lia).
  rewrite length_app in Hl. rewrite put_app by lia. cbn [rbind]. rewrite (app_assoc a z).
  replace 112 with (Z.of_nat (length (a ++ z))) by (rewrite length_app; lia).
  rewrite put_app by (rewrite length_drop; lia). cbn [rbind].
  rewrite (app_assoc _ x), drop_drop.
  replace (SHA512_CBLOCK - 8) with (Z.of_nat (length ((a ++ z) ++ x)))
    by (unfold SHA512_CBLOCK; rewrite !length_app; lia).
  rewrite put_app by (rewrite length_drop; lia). cbn [rbind].
  rewrite drop_drop, (drop_ge d), app_nil_r by lia. by rewrite <- !app_assoc.
Qed.

Lemma sha512_pad_run iv msg c :
  length iv = 8%nat -> seen iv msg c ->
  exists c', sha512_pad c = Ret c' /\ md_h c' = merkle_damgard compress_512 128 16 true iv msg.
Proof.
  intros Hiv Ha. destruct (absorbed_rest _ 128 ltac:(lia) _ _ _ _ Ha) as (En & Hlt & Hlr).
  destruct (absorbed_full _ _ _ _ _ _ Ha) as (Hlf & Ebf).
  destruct Ha as [Eh _ Hl Hd [Hw1 Hw2] Hb].
  rewrite padded by lia. cbv zeta. rewrite (count_words_64 _ _ _ Hw1 Hw2 Hb).
  set (count := CRYPTO_store_u64_be (md_Nh c) ++ CRYPTO_store_u64_be (md_Nl c)).
  assert (length count = 16%nat) as Hct by (apply length_app_words).
  set (q := (length msg / 128)%nat) in *. set (r := drop (q * 128) msg) in *.
  set (f := take (q * 128) msg) in *.
  assert (md_data c = r ++ drop (length r) (md_data c)) as Ed.
  { rewrite En, Nat2Z.id in Hd. rewrite <- Hd at 1. by rewrite Hlr, take_drop. }
  rewrite <- Hlr in En. set (d := drop (length r) (md_data c)) in *.
  assert (length (r ++ d) = 128%nat) as Hrd by (by rewrite <- Ed).
  rewrite length_app in Hrd.
  assert (1 <= length d)%nat as Hd1 by lia.
  unfold sha512_pad. cbv zeta. rewrite En, Ed, put_app by exact Hd1.
  cbn [rbind length]. rewrite (app_assoc r [0x80]).
  set (a := r ++ [0x80]). assert (length a = S (length r)) as Hla
    by (unfold a; rewrite length_app; cbn; lia).
  replace (Z.of_nat (length r) + 1) with (Z.of_nat (length a)) by lia.
  change (Z.of_nat 128 - Z.of_nat 16) with 112. change (SHA512_CBLOCK - 16) with 112.
  destruct (Z.ltb_spec 112 (Z.of_nat (length a))) as [Hbig|Hsm].
  - set (z := zeros (SHA512_CBLOCK - Z.of_nat (length a))).
    assert (Z.of_nat (length z) = 128 - Z.of_nat (length a)) as Hz by (apply length_zeros; lia).
    rewrite put_app by (rewrite length_drop; lia). cbn [rbind].
    rewrite (drop_ge (drop 1 d)), app_nil_r by (rewrite length_drop; lia).
    change 1 with (Z.of_nat 1). rewrite Eh, Ebf.
    rewrite run_512 by (try apply fold_512; rewrite ?length_app; done || lia). cbn [rbind].
    rewrite (last_words [] (a ++ z)) by (cbn [app]; rewrite ?length_app; cbn [length]; lia).
    cbn [app length]. rewrite Z.sub_0_r. fold count.
    set (y := zeros 112 ++ count). assert (length y = 128%nat) as Hy
      by (unfold y; rewrite length_app, Hct; reflexivity).
    rewrite run_512 by (repeat apply fold_512; done || lia). cbn [rbind].
    eexists. split; [done|]. cbn [md_h blocks foldl].
    change (Z.of_nat 128) with SHA512_CBLOCK. fold z.
    by rewrite !take_ge by (rewrite ?length_app; lia).
  - cbn [rbind]. rewrite (last_words a (drop 1 d)) by (rewrite ?length_app, ?length_drop; lia).
    fold count. set (y := a ++ _). assert (length y = 128%nat) as Hy.
    { unfold y. rewrite !length_app, Hct. pose proof (length_zeros (112 - Z.of_nat (length a))). lia. }
    change 1 with (Z.of_nat 1). rewrite Eh, Ebf.
    rewrite run_512 by (repeat apply fold_512; done || lia). cbn [rbind].
    eexists. split; [done|]. cbn [md_h blocks foldl]. by rewrite !take_ge by lia.
Qed.

(** ** The whole digest *)

(** The state after a message, with a digest of [len] bytes. *)
Definition absorbed_512 (iv : list Z) (len : Z) (msg : bytes) (c : SHA512_CTX) : Prop :=
  seen iv msg (sha512_md c) /\ sha512_md_len c = len.

Lemma SHA512_Update_run iv len msg c x :
  length iv = 8%nat -> absorbed_512 iv len msg c -> Z.of_nat (length x) < 2 ^ 64 ->
  exists c', SHA512_Update c x = Ret c' /\ absorbed_512 iv len (msg ++ x) c'.
Proof.
  intros Hiv [Ha Hl] Hx. destruct (sha512_update_run iv msg (sha512_md c) x Hiv Ha Hx) as (m & E & Hm).
  unfold SHA512_Update. rewrite E. eexists. by split.
Qed.
Lemma sha512_updates_run iv len msg c l :
  length iv = 8%nat -> absorbed_512 iv len msg c -> Forall (fun x => Z.of_nat (length x) < 2 ^ 64) l ->
  exists c', sha512_updates c l = Ret c' /\ absorbed_512 iv len (msg ++ concat l) c'.
Proof.
  intros Hiv Ha Hl. revert msg c Ha; induction Hl as [|x r Hx Hr IH]; intros msg c Ha; cbn.
  { rewrite app_nil_r. eauto. }
  destruct (SHA512_Update_run iv len msg c x Hiv Ha Hx) as (c' & -> & Ha'). cbn [rbind].
  destruct (IH _ _ Ha') as (c2 & E & Ha2). exists c2. by rewrite app_assoc.
Qed.
Lemma sha512_final_run iv (words : nat) msg c out_null :
  length iv = 8%nat -> (words <= 8)%nat -> absorbed_512 iv (8 * Z.of_nat words) msg c ->
  exists c', sha512_final_impl out_null (8 * Z.of_nat words) c =
    Ret (if out_null then 0 else 1, if out_null then [] else hash_512 iv words msg, c').
Proof.
  intros Hiv Hw [Ha _]. destruct (sha512_pad_run iv msg (sha512_md c) Hiv Ha) as (m & E & Eh).
  unfold sha512_final_impl. rewrite E. cbn [rbind]. destruct out_null; [eauto|].
  rewrite (Z.mul_comm 8), Z.mod_mul, Z.div_mul by lia. cbn [c_assert Z.eqb rbind].
  assert (length (md_h m) = 8%nat) as Hl8.
  { rewrite Eh. apply (merkle_damgard_ok (fun h => length h = 8%nat)); [|done]. exact length_compress_512. }
  rewrite get_run, Nat2Z.id by lia. cbn [rbind]. rewrite Eh. eexists. reflexivity.
Qed.
Lemma absorbed_512_nil iv len p :
  length p = 128%nat -> absorbed_512 iv len [] (Sha512Ctx (Md32 iv 0 0 p 0) len).
Proof. intros Hp. split; [by apply collected_nil|done]. Qed.

(** C16: Whatever is in the memory of a new context, and whatever pieces a message comes in,
    each below 2^64 bytes, the updates and the final of SHA-512, SHA-384 and SHA-512/256 run
    without undefined behaviour and write the hash of FIPS 180-4 of the whole message, the
    start of SHA-512/256 being the standard's too; with no output they return 0 and write
    nothing. *)
Theorem sha512_correct (p : bytes) (l : list bytes) :
  length p = 128%nat -> Forall (fun x => Z.of_nat (length x) < 2 ^ 64) l ->
  (exists c, sha512_updates (SHA512_Init p) l = Ret c /\
     (exists c', SHA512_Final false c = Ret (1, fips_sha512 (concat l), c')) /\
     (exists c', SHA512_Final true c = Ret (0, [], c'))) /\
  (exists c, sha512_updates (SHA384_Init p) l = Ret c /\
     (exists c', SHA384_Final false c = Ret (1, fips_sha384 (concat l), c')) /\
     (exists c', SHA384_Final true c = Ret (0, [], c'))) /\
  (exists c, sha512_updates (SHA512_256_Init p) l = Ret c /\
     (exists c', SHA512_256_Final false c = Ret (1, fips_sha512_256 (concat l), c')) /\
     (exists c', SHA512_256_Final true c = Ret (0, [], c'))).
Proof.
  intros Hp Hl.
  assert (forall iv (words : nat), length iv = 8%nat -> (words <= 8)%nat ->
    exists c, sha512_updates (Sha512Ctx (Md32 iv 0 0 p 0) (8 * Z.of_nat words)) l = Ret c /\
      sha512_md_len c = 8 * Z.of_nat words /\ forall out_null, exists c',
        sha512_final_impl out_null (8 * Z.of_nat words) c =
        Ret (if out_null then 0 else 1, if out_null then [] else hash_512 iv words (concat l), c')) as Hrun.
  { intros iv words Hiv Hw.
    destruct (sha512_updates_run iv (8 * Z.of_nat words) [] _ l Hiv (absorbed_512_nil _ _ p Hp) Hl) as (c & E & Ha).
    exists c. split; [done|]. split; [apply Ha|]. intros out_null. by apply sha512_final_run. }
  unfold fips_sha512, fips_sha384, fips_sha512_256, SHA512_Final, SHA384_Final, SHA512_256_Final.
  split_and!.
  - destruct (Hrun fips_H512 8%nat) as (c & E & El & E'); [done|lia|].
    rewrite <- (H512_roots p) in *. exists c. rewrite El.
    split; [done|]. split; [apply (E' false)|apply (E' true)].
  - destruct (Hrun fips_H384 6%nat) as (c & E & El & E'); [done|lia|].
    rewrite <- (H384_roots p) in *. exists c. rewrite El.
    split; [done|]. split; [apply (E' false)|apply (E' true)].
  - destruct (Hrun fips_H512_256 4%nat) as (c & E & El & E'); [exact length_H512_256|lia|].
    rewrite <- (H512_256_value p) in *. exists c. rewrite El.
    split; [done|]. split; [apply (E' false)|apply (E' true)].
Qed.

(** The hash of one message in two pieces. *)
Lemma sha512_correct_witness :
  exists c c', sha512_updates (SHA512_Init (replicate 128 0xee)) [[97]; [98; 99]] = Ret c /\
               SHA512_Final false c = Ret (1, fips_sha512 [97; 98; 99], c').
Proof.
  destruct (sha512_correct (replicate 128 0xee) [[97]; [98; 99]]) as [(c & E & (c' & E') & _) _];
    [reflexivity|repeat constructor|]. exists c, c'. split; [exact E|exact E'].
Defined.

(** The two versions of the block function do the same to every state and input, from
    whatever is in the array of the one for processors with few registers. *)
Theorem sha512_versions_agree (X state : list Z) (data : bytes) (num : Z) :
  length X = 89%nat ->
  sha512_block_data_order_i386 X state data num = sha512_block_data_order_nohw state data num.
Proof.
  intros HX. unfold sha512_block_data_order_i386, sha512_block_data_order_nohw.
  revert state data; induction (Z.to_nat num) as [|n IH]; intros state data; [done|].
  cbn [sha512_blocks]. destruct (Nat.eqb_spec (length state) 8) as [Hs|]; [|done].
  destruct (load_words CRYPTO_load_u64_be 8 16 data) as [M| |] eqn:E; [|done..]. cbn [rbind].
  apply length_load_words in E. by rewrite sha512_block_frame_fips, sha512_block_fips.
Qed.

Lemma sha512_versions_agree_witness :
  sha512_block_data_order_i386 (zeros 89) fips_H512 (zeros 128) 1 =
  sha512_block_data_order_nohw fips_H512 (zeros 128) 1.
Proof. apply sha512_versions_agree. reflexivity. Defined.
