(* ===== verification/Evp.v ===== *)
(** * BoringSSL: digests behind one interface (crypto/fipsmodule/digest/digest.c)

    An [EVP_MD] is a table of functions over a state of which only its owner knows the
    shape; an [EVP_MD_CTX] has a pointer to a table and one to a block of memory with
    such a state.  Here the functions of digest.c over any digests, and the interface
    that they and HMAC rely on, as a class with laws.

    Blocks of memory are those of a heap: a block has the state of a digest, or
    nothing that could be used.  An allocation fails as the environment has it, and
    an access to a block that is not there is undefined. *)
From Stdlib Require Import ZArith Lia.
From stdpp Require Import prelude list numbers gmap.
From S2P Require Import Prelude CMem Cells.
Local Open Scope Z_scope.

(** ** The table of functions *)

(** [St] is the type of states.  [evp_init] is given what is in the memory,
    [evp_final] returns the bytes it writes. *)
Record EVP_MD (St : Type) := EvpMd {
  evp_type : Z;
  evp_md_size : Z;
  evp_flags : Z;
  evp_init : option St -> res St;
  evp_update : St -> bytes -> res St;
  evp_final : St -> res (bytes * St);
  evp_block_size : Z;
  evp_ctx_size : Z
}.
Arguments EvpMd {St}.
Arguments evp_type {St}.
Arguments evp_md_size {St}.
Arguments evp_flags {St}.
Arguments evp_init {St}.
Arguments evp_update {St}.
Arguments evp_final {St}.
Arguments evp_block_size {St}.
Arguments evp_ctx_size {St}.

Definition EVP_MAX_MD_SIZE : Z := 64.
Definition EVP_MAX_MD_BLOCK_SIZE : Z := 128.

(** The digests of a library: pointers to tables can be compared. *)
Class Digests (D St : Type) := {
  method : D -> EVP_MD St;
  digest_eq :: EqDecision D
}.

(** What is promised of them: [hash d] is a hash function, and a state has absorbed a
    message.  Every table keeps the bounds that digest.c and hmac.c assert. *)
Class DigestLaws (D St : Type) `{Digests D St} := {
  hash : D -> bytes -> bytes;
  absorbs : D -> St -> bytes -> Prop;
  init_absorbs d m : exists s, evp_init (method d) m = Ret s /\ absorbs d s [];
  update_absorbs d s m x :
    absorbs d s m -> Z.of_nat (length x) < 2 ^ 64 ->
    exists s', evp_update (method d) s x = Ret s' /\ absorbs d s' (m ++ x);
  final_absorbs d s m :
    absorbs d s m -> exists s', evp_final (method d) s = Ret (hash d m, s');
  hash_length d m : Z.of_nat (length (hash d m)) = evp_md_size (method d);
  digest_sizes d :
    0 < evp_md_size (method d) <= EVP_MAX_MD_SIZE /\
    evp_md_size (method d) <= evp_block_size (method d) <= EVP_MAX_MD_BLOCK_SIZE /\
    evp_ctx_size (method d) <> 0
}.

(** ** Memory *)

Record heap (St : Type) := Heap { hp_blocks : gmap Z (option St); hp_count : nat }.
Arguments Heap {St}.
Arguments hp_blocks {St}.
Arguments hp_count {St}.

(** Which allocations succeed; the functions behind [pctx_ops], which belong to the
    public-key code; and what is in an array of 128 bytes on the stack before anything
    is written to it. *)
Class EvpEnv (St : Type) := {
  malloc_ok : nat -> bool;
  pctx_free : Z -> heap St -> res (heap St);
  pctx_dup : Z -> heap St -> res (Z * heap St);
  stack_block : bytes;
  stack_block_length : length stack_block = 128%nat
}.

Definition hm (St A : Type) : Type := heap St -> res (A * heap St).
Definition hret {St A} (a : A) : hm St A := fun h => Ret (a, h).
Definition hbind {St A B} (m : hm St A) (k : A -> hm St B) : hm St B :=
  fun h => match m h with Ret (a, h') => k a h' | UB => UB | OutOfFuel => OutOfFuel end.
Definition hlift {St A} (r : res A) : hm St A :=
  fun h => match r with Ret a => Ret (a, h) | UB => UB | OutOfFuel => OutOfFuel end.

Declare Scope evp_scope.
Delimit Scope evp_scope with evp.
Notation "x <- m ;; k" := (hbind m (fun x => k))
  (at level 100, m at next level, right associativity) : evp_scope.
Notation "m ;; k" := (hbind m (fun _ => k)) (at level 100, right associativity) : evp_scope.
Local Open Scope evp_scope.

Section evp.
Context {D St : Type} `{!Digests D St} `{!EvpEnv St}.
Local Abbreviation H := (hm St).

Definition hassert (b : bool) : H unit := hlift (c_assert b).

Definition OPENSSL_malloc : H Z := fun h =>
  let a := Z.of_nat (S (hp_count h)) in
  if malloc_ok (hp_count h) then Ret (a, Heap (<[a := None]> (hp_blocks h)) (S (hp_count h)))
  else Ret (0, Heap (hp_blocks h) (S (hp_count h))).
Definition OPENSSL_free (a : Z) : H unit := fun h =>
  if a =? 0 then Ret (tt, h)
  else match hp_blocks h !! a with
       | Some _ => Ret (tt, Heap (delete a (hp_blocks h)) (hp_count h))
       | None => UB
       end.
Definition load_block (a : Z) : H (option St) := fun h =>
  match hp_blocks h !! a with Some o => Ret (o, h) | None => UB end.
Definition store_block (a : Z) (o : option St) : H unit := fun h =>
  match hp_blocks h !! a with
  | Some _ => Ret (tt, Heap (<[a := o]> (hp_blocks h)) (hp_count h))
  | None => UB
  end.
(** The state in a block. *)
Definition load_state (a : Z) : H St :=
  o <- load_block a ;; match o with Some s => hret s | None => hlift UB end.

(** ** Contexts *)

Record EVP_MD_CTX := MdCtx {
  cx_digest : option D;
  cx_md_data : Z;
  cx_pctx : Z;
  cx_pctx_ops : bool
}.

Definition EVP_MD_type (md : EVP_MD St) : Z := evp_type md.
Definition EVP_MD_nid (md : EVP_MD St) : Z := EVP_MD_type md.
Definition EVP_MD_flags (md : EVP_MD St) : Z := evp_flags md.
Definition EVP_MD_size (md : EVP_MD St) : Z := evp_md_size md.
Definition EVP_MD_block_size (md : EVP_MD St) : Z := evp_block_size md.
Definition EVP_MD_meth_get_flags (md : EVP_MD St) : Z := EVP_MD_flags md.

Definition EVP_MD_CTX_init : EVP_MD_CTX := MdCtx None 0 0 false.

(** A block for the context itself, and the context. *)
Definition EVP_MD_CTX_new : H (option (Z * EVP_MD_CTX)) :=
  p <- OPENSSL_malloc ;;
  hret (if p =? 0 then None else Some (p, EVP_MD_CTX_init)).
Definition EVP_MD_CTX_create : H (option (Z * EVP_MD_CTX)) := EVP_MD_CTX_new.

(** [assert(ctx->pctx == NULL || ctx->pctx_ops != NULL)] *)
Definition assert_pctx (ctx : EVP_MD_CTX) : H unit :=
  hassert ((cx_pctx ctx =? 0) || cx_pctx_ops ctx).
Definition free_pctx (p : Z) : H unit := fun h =>
  match pctx_free p h with Ret h' => Ret (tt, h') | UB => UB | OutOfFuel => OutOfFuel end.

Definition EVP_MD_CTX_cleanup (ctx : EVP_MD_CTX) : H EVP_MD_CTX :=
  OPENSSL_free (cx_md_data ctx) ;;
  assert_pctx ctx ;;
  (if cx_pctx_ops ctx then free_pctx (cx_pctx ctx) else hret tt) ;;
  hret EVP_MD_CTX_init.

(** [OPENSSL_cleanse] of a state leaves nothing that could be used; of NULL with the
    length of a digest that is NULL it is undefined. *)
Definition EVP_MD_CTX_cleanse (ctx : EVP_MD_CTX) : H EVP_MD_CTX :=
  match cx_digest ctx with
  | None => hlift UB
  | Some _ => store_block (cx_md_data ctx) None ;; EVP_MD_CTX_cleanup ctx
  end.

(** [ctx] is NULL or a context in a block. *)
Definition EVP_MD_CTX_free (ctx : option (Z * EVP_MD_CTX)) : H unit :=
  match ctx with
  | None => hret tt
  | Some (p, ctx) => EVP_MD_CTX_cleanup ctx ;; OPENSSL_free p
  end.
Definition EVP_MD_CTX_destroy (ctx : option (Z * EVP_MD_CTX)) : H unit := EVP_MD_CTX_free ctx.

Definition EVP_DigestFinalXOF (ctx : EVP_MD_CTX) : bool := false.

(** [out] after the call, and what the call returns; [in] may be NULL. *)
Definition EVP_MD_CTX_copy_ex (out : EVP_MD_CTX) (in_ : option EVP_MD_CTX) : H (bool * EVP_MD_CTX) :=
  match in_ with
  | None => hret (false, out)
  | Some in_ =>
      if (cx_pctx in_ =? 0) && bool_decide (cx_digest in_ = None) then hret (false, out)
      else
        assert_pctx in_ ;;
        pctx <- (if negb (cx_pctx in_ =? 0) then
                   fun h => match pctx_dup (cx_pctx in_) h with
                            | Ret (p, h') => Ret (if p =? 0 then None else Some p, h')
                            | UB => UB
                            | OutOfFuel => OutOfFuel
                            end
                 else hret (Some 0)) ;;
        match pctx with
        | None => hret (false, out)
        | Some pctx =>
            (* the block, and [out] without one that is used again *)
            tmp <- (match cx_digest in_ with
                    | None => hret (Some (0, out))
                    | Some d =>
                        if negb (bool_decide (cx_digest out = cx_digest in_)) then
                          hassert (negb (evp_ctx_size (method d) =? 0)) ;;
                          tmp_buf <- OPENSSL_malloc ;;
                          if tmp_buf =? 0 then
                            (if negb (pctx =? 0) then free_pctx pctx else hret tt) ;; hret None
                          else hret (Some (tmp_buf, out))
                        else hret (Some (cx_md_data out,
                                         MdCtx (cx_digest out) 0 (cx_pctx out) (cx_pctx_ops out)))
                    end) ;;
            match tmp with
            | None => hret (false, out)
            | Some (tmp_buf, out) =>
                EVP_MD_CTX_cleanup out ;;
                (match cx_digest in_ with
                 | None => hret tt
                 | Some _ => o <- load_block (cx_md_data in_) ;; store_block tmp_buf o
                 end) ;;
                let out := MdCtx (cx_digest in_) tmp_buf pctx (cx_pctx_ops in_) in
                assert_pctx out ;;
                hret (true, out)
            end
        end
  end.

(** [out] and [in] after the call. *)
Definition EVP_MD_CTX_move (out in_ : EVP_MD_CTX) : H (EVP_MD_CTX * EVP_MD_CTX) :=
  EVP_MD_CTX_cleanup out ;; hret (in_, EVP_MD_CTX_init).

Definition EVP_MD_CTX_copy (out : EVP_MD_CTX) (in_ : option EVP_MD_CTX) : H (bool * EVP_MD_CTX) :=
  EVP_MD_CTX_copy_ex EVP_MD_CTX_init in_.
Definition EVP_MD_CTX_reset (ctx : EVP_MD_CTX) : H EVP_MD_CTX := EVP_MD_CTX_cleanup ctx.

(** ** Hashing *)

Definition EVP_DigestInit_ex (ctx : EVP_MD_CTX) (type : D) : H (bool * EVP_MD_CTX) :=
  o <- (if negb (bool_decide (cx_digest ctx = Some type)) then
          hassert (negb (evp_ctx_size (method type) =? 0)) ;;
          md_data <- OPENSSL_malloc ;;
          if md_data =? 0 then hret None
          else
            OPENSSL_free (cx_md_data ctx) ;;
            hret (Some (MdCtx (Some type) md_data (cx_pctx ctx) (cx_pctx_ops ctx)))
        else hret (Some ctx)) ;;
  match o with
  | None => hret (false, ctx)
  | Some ctx =>
      assert_pctx ctx ;;
      m <- load_block (cx_md_data ctx) ;;
      s <- hlift (evp_init (method type) m) ;;
      store_block (cx_md_data ctx) (Some s) ;;
      hret (true, ctx)
  end.
Definition EVP_DigestInit (ctx : EVP_MD_CTX) (type : D) : H (bool * EVP_MD_CTX) :=
  EVP_DigestInit_ex EVP_MD_CTX_init type.

Definition EVP_DigestUpdate (ctx : EVP_MD_CTX) (data : bytes) : H unit :=
  match cx_digest ctx with
  | None => hlift UB
  | Some d =>
      s <- load_state (cx_md_data ctx) ;;
      s <- hlift (evp_update (method d) s data) ;;
      store_block (cx_md_data ctx) (Some s)
  end.

(** The bytes written to [md_out], and [*size]. *)
Definition EVP_DigestFinal_ex (ctx : EVP_MD_CTX) : H (bytes * Z) :=
  match cx_digest ctx with
  | None => hlift UB
  | Some d =>
      hassert (evp_md_size (method d) <=? EVP_MAX_MD_SIZE) ;;
      s <- load_state (cx_md_data ctx) ;;
      r <- hlift (evp_final (method d) s) ;;
      store_block (cx_md_data ctx) None ;;
      hret (r.1, evp_md_size (method d))
  end.
Definition EVP_DigestFinal (ctx : EVP_MD_CTX) : H (bytes * Z * EVP_MD_CTX) :=
  r <- EVP_DigestFinal_ex ctx ;;
  ctx <- EVP_MD_CTX_cleanup ctx ;;
  hret (r, ctx).

(** The digest of [data], if the function returns 1. *)
Definition EVP_Digest (data : bytes) (type : D) : H (option (bytes * Z)) :=
  r <- EVP_DigestInit_ex EVP_MD_CTX_init type ;;
  let '(ok, ctx) := r in
  ret <- (if ok : bool then
            EVP_DigestUpdate ctx data ;;
            out <- EVP_DigestFinal_ex ctx ;;
            hret (Some out)
          else hret None) ;;
  EVP_MD_CTX_cleanup ctx ;;
  hret ret.

Definition EVP_MD_CTX_md (ctx : option EVP_MD_CTX) : option D :=
  match ctx with None => None | Some c => cx_digest c end.
Definition EVP_MD_CTX_size (ctx : option EVP_MD_CTX) : res Z :=
  match EVP_MD_CTX_md ctx with None => UB | Some d => Ret (EVP_MD_size (method d)) end.
Definition EVP_MD_CTX_block_size (ctx : option EVP_MD_CTX) : res Z :=
  match EVP_MD_CTX_md ctx with None => UB | Some d => Ret (EVP_MD_block_size (method d)) end.
Definition EVP_MD_CTX_type (ctx : option EVP_MD_CTX) : res Z :=
  match EVP_MD_CTX_md ctx with None => UB | Some d => Ret (EVP_MD_type (method d)) end.
End evp.
Arguments EVP_MD_CTX : clear implicits.
