(* ===== verification/EvpSpec.v ===== *)
(** * Ownership of the blocks of digest contexts

    A context owns the block of its state.  The blocks of a heap are those of some
    contexts and the rest, and every operation is described by what it does to its
    context and to that division; nothing is freed twice and nothing is lost.  On it,
    what the functions of digest.c compute. *)
From Stdlib Require Import ZArith Lia.
From stdpp Require Import prelude list numbers gmap.
From S2P Require Import Prelude CMem Cells Evp.
Local Open Scope Z_scope.
Local Open Scope evp_scope.

(** A run of a computation that ends well. *)
Definition runs {St A} (m : hm St A) (h : heap St) (Q : A -> heap St -> Prop) : Prop :=
  exists a h', m h = Ret (a, h') /\ Q a h'.

Lemma runs_ret {St A} (a : A) (h : heap St) (Q : A -> heap St -> Prop) : Q a h -> runs (hret a) h Q.
Proof. intros H. by exists a, h. Qed.
Lemma runs_bind {St A B} (m : hm St A) (k : A -> hm St B) h Q :
  runs m h (fun a h' => runs (k a) h' Q) -> runs (hbind m k) h Q.
Proof.
  intros (a & h' & E & b & h2 & E2 & HQ). exists b, h2. split; [|done].
  unfold hbind. by rewrite E.
Qed.
Lemma runs_mono {St A} (m : hm St A) h (P Q : A -> heap St -> Prop) :
  runs m h P -> (forall a h', P a h' -> Q a h') -> runs m h Q.
Proof. intros (a & h' & E & HP) HPQ. exists a, h'. auto. Qed.
Lemma runs_lift {St A} (r : res A) a (h : heap St) (Q : A -> heap St -> Prop) :
  r = Ret a -> Q a h -> runs (hlift r) h Q.
Proof. intros -> H. by exists a, h. Qed.

Section spec.
Context {D St : Type} `{!Digests D St} `{!DigestLaws D St} `{!EvpEnv St}.

(** ** Ownership *)

(** A context without a state, or with the state of a digest in a block. *)
Inductive cell :=
| Empty
| Full (d : D) (a : Z) (o : option St).
Definition ctx_of (c : cell) : EVP_MD_CTX D :=
  match c with Empty => EVP_MD_CTX_init | Full d a _ => MdCtx (Some d) a 0 false end.

Inductive owned (base : gmap Z (option St)) : list cell -> gmap Z (option St) -> Prop :=
| owned_nil : owned base [] base
| owned_empty cs m : owned base cs m -> owned base (Empty :: cs) m
| owned_full cs m d a o :
    owned base cs m -> m !! a = None -> a <> 0 -> owned base (Full d a o :: cs) (<[a := o]> m).

(** The next address is not in use. *)
Definition heap_ok (h : heap St) : Prop :=
  forall a, is_Some (hp_blocks h !! a) -> a <= Z.of_nat (hp_count h).
(** The blocks of a good heap are those of [cs] and [base]. *)
Definition owns (base : gmap Z (option St)) (cs : list cell) (h : heap St) : Prop :=
  heap_ok h /\ owned base cs (hp_blocks h).

Lemma owned_perm base cs cs' m : Permutation cs cs' -> owned base cs m -> owned base cs' m.
Proof.
  intros Hp. revert m. induction Hp as [|x l l' Hp IH|x y l|l1 l2 l3 H1 IH1 H2 IH2]; intros m Ho; auto.
  - inversion Ho; subst; constructor; auto.
  - inversion Ho as [|cs m1 Ho1|cs m1 d a o Ho1 Hn Ha]; subst; clear Ho;
      inversion Ho1 as [|cs2 m2 Ho2|cs2 m2 d2 a2 o2 Ho2 Hn2 Ha2]; subst; clear Ho1;
      repeat (constructor; auto).
    rewrite lookup_insert_None in Hn. destruct Hn as [Hn Hne].
    rewrite insert_insert_ne by done. repeat constructor; auto.
    by rewrite lookup_insert_ne.
Qed.
Lemma owns_perm base cs cs' h : Permutation cs cs' -> owns base cs h -> owns base cs' h.
Proof. intros Hp [H1 H2]. split; [done|]. by eapply owned_perm. Qed.
Lemma owns_swap base x y cs h : owns base (x :: y :: cs) h -> owns base (y :: x :: cs) h.
Proof. apply owns_perm, perm_swap. Qed.
Lemma owns_empty base cs h : owns base cs h <-> owns base (Empty :: cs) h.
Proof.
  split; intros [H1 H2]; split; auto; [by constructor|]. by inversion H2.
Qed.
Lemma owns_start h : heap_ok h -> owns (hp_blocks h) [] h.
Proof. split; [done|constructor]. Qed.

(** ** Blocks *)

Lemma owns_full base d a o cs h :
  owns base (Full d a o :: cs) h -> hp_blocks h !! a = Some o /\ a <> 0 /\
    exists m, hp_blocks h = <[a := o]> m /\ owned base cs m /\ m !! a = None.
Proof.
  intros [_ Ho]. revert Ho. generalize (hp_blocks h). intros b Ho.
  inversion Ho as [| |cs' m d' a' o' Hm Hn Ha]; subst.
  split; [apply lookup_insert_eq|]. split; [done|]. eauto.
Qed.

Lemma malloc_run base cs h :
  owns base cs h ->
  runs (OPENSSL_malloc) h (fun a h' =>
    (a = 0 /\ owns base cs h' /\ exists n, malloc_ok n = false) \/
    (a <> 0 /\ forall d, owns base (Full d a None :: cs) h')).
Proof.
  intros [Hk Ho]. unfold runs, OPENSSL_malloc. destruct (malloc_ok (hp_count h)) eqn:E.
  - do 2 eexists. split; [done|]. right. split; [lia|]. intros d. split; cbn [hp_blocks hp_count].
    + intros a [o Ha]. cbn [hp_blocks hp_count] in *. apply lookup_insert_Some in Ha as [[<- _]|[_ Ha]]; [lia|].
      assert (a <= Z.of_nat (hp_count h)) by (apply Hk; eauto). lia.
    + constructor; [done| |lia]. destruct (hp_blocks h !! _) eqn:Ha; [|done].
      assert (Z.of_nat (S (hp_count h)) <= Z.of_nat (hp_count h)) by (apply Hk; eauto). lia.
  - do 2 eexists. split; [done|]. left. split; [done|]. split; [|eauto]. split; [|done].
    intros a Ha. cbn [hp_blocks hp_count] in *. specialize (Hk a Ha). lia.
Qed.

Lemma free_run base cs h x :
  owns base (x :: cs) h -> runs (OPENSSL_free (cx_md_data (ctx_of x))) h (fun _ h' => owns base cs h').
Proof.
  intros Ho. unfold runs, OPENSSL_free. destruct x as [|d a o]; cbn [ctx_of cx_md_data EVP_MD_CTX_init].
  - cbn. exists tt, h. split; [done|]. by apply owns_empty.
  - destruct (owns_full _ _ _ _ _ _ Ho) as (El & Ha & m & Em & Hm & Hn).
    rewrite (proj2 (Z.eqb_neq a 0) Ha), El. do 2 eexists. split; [done|].
    destruct Ho as [Hk _]. split; cbn [hp_blocks].
    + intros b [o' Hb]. cbn [hp_blocks hp_count] in *. apply lookup_delete_Some in Hb as [_ Hb]. apply Hk; eauto.
    + by rewrite Em, delete_insert_id.
Qed.

Lemma load_run base d a o cs h (Q : option St -> heap St -> Prop) :
  owns base (Full d a o :: cs) h -> Q o h -> runs (load_block a) h Q.
Proof.
  intros Ho HQ. destruct (owns_full _ _ _ _ _ _ Ho) as (El & _ & _).
  exists o, h. split; [|done]. unfold load_block. by rewrite El.
Qed.
Lemma state_run base d a s cs h (Q : St -> heap St -> Prop) :
  owns base (Full d a (Some s) :: cs) h -> Q s h -> runs (load_state a) h Q.
Proof.
  intros Ho HQ. apply runs_bind. eapply load_run; [exact Ho|]. by apply runs_ret.
Qed.
Lemma store_run base d d' a o o' cs h :
  owns base (Full d a o :: cs) h ->
  runs (store_block a o') h (fun _ h' => owns base (Full d' a o' :: cs) h').
Proof.
  intros Ho. destruct (owns_full _ _ _ _ _ _ Ho) as (El & Ha & m & Em & Hm & Hn). destruct Ho as [Hk _].
  do 2 eexists. unfold store_block. rewrite El. split; [done|]. split; cbn [hp_blocks].
  - intros b [ob Hb]. cbn [hp_blocks hp_count] in *.
    apply lookup_insert_Some in Hb as [[<- _]|[_ Hb]]; apply Hk; eauto.
  - rewrite Em, insert_insert_eq. by constructor.
Qed.

(** ** Contexts *)

Lemma assert_pctx_run x (h : heap St) (Q : unit -> heap St -> Prop) :
  Q tt h -> runs (assert_pctx (ctx_of x)) h Q.
Proof. intros HQ. apply (runs_lift _ tt); [by destruct x|done]. Qed.

Lemma cleanup_run base cs h x :
  owns base (x :: cs) h ->
  runs (EVP_MD_CTX_cleanup (ctx_of x)) h (fun c h' => c = ctx_of Empty /\ owns base cs h').
Proof.
  intros Ho. apply runs_bind. eapply runs_mono; [by apply free_run|]. intros [] h' Ho'. cbn beta.
  apply runs_bind, assert_pctx_run, runs_bind.
  assert (cx_pctx_ops (ctx_of x) = false) as -> by (by destruct x). apply runs_ret, runs_ret. done.
Qed.

Lemma cleanup_null (d : option D) (h : heap St) (Q : EVP_MD_CTX D -> heap St -> Prop) :
  Q EVP_MD_CTX_init h -> runs (EVP_MD_CTX_cleanup (MdCtx d 0 0 false)) h Q.
Proof. intros HQ. by exists EVP_MD_CTX_init, h. Qed.

(** A context that is set up, or as it was when there is no memory. *)
Lemma digest_init_run base cs h x d :
  owns base (x :: cs) h ->
  runs (EVP_DigestInit_ex (ctx_of x) d) h (fun r h' =>
    exists x', r.2 = ctx_of x' /\ owns base (x' :: cs) h' /\
      if r.1 then exists a s, x' = Full d a (Some s) /\ absorbs d s [] else exists n, malloc_ok n = false).
Proof.
  intros Ho. unfold EVP_DigestInit_ex. apply runs_bind.
  assert (forall x0 h0 a o, x0 = Full d a o -> owns base (x0 :: cs) h0 ->
    runs (assert_pctx (ctx_of x0) ;; m <- load_block (cx_md_data (ctx_of x0)) ;;
          s <- hlift (evp_init (method d) m) ;;
          store_block (cx_md_data (ctx_of x0)) (Some s) ;; hret (true, ctx_of x0)) h0
      (fun r h' => exists x', r.2 = ctx_of x' /\ owns base (x' :: cs) h' /\
         if r.1 then exists a s, x' = Full d a (Some s) /\ absorbs d s [] else exists n, malloc_ok n = false))
    as Hinit.
  { intros x0 h0 a o -> Ho0. apply runs_bind, assert_pctx_run, runs_bind.
    eapply load_run; [exact Ho0|]. destruct (init_absorbs d o) as (s & E & Hs).
    apply runs_bind. apply (runs_lift _ s); [exact E|]. apply runs_bind.
    eapply runs_mono; [eapply (store_run _ _ d); exact Ho0|]. intros [] h' Ho'.
    apply runs_ret. exists (Full d a (Some s)). split; [done|]. split; [exact Ho'|]. cbn. eauto. }
  destruct (decide (cx_digest (ctx_of x) = Some d)) as [Hd|Hd].
  - rewrite bool_decide_eq_true_2 by done. apply runs_ret.
    destruct x as [|d' a o]; [done|]. cbn in Hd. injection Hd as ->. by eapply Hinit.
  - rewrite bool_decide_eq_false_2 by done. cbn [negb]. apply runs_bind.
    apply (runs_lift _ tt).
    { destruct (digest_sizes d) as (_ & _ & Hc). by rewrite (proj2 (Z.eqb_neq _ 0) Hc). }
    apply runs_bind. eapply runs_mono; [by apply malloc_run|]. intros a h' [(-> & Ho' & Hf)|[Ha Ho']]; cbn [Z.eqb].
    + apply runs_ret, runs_ret. eauto.
    + rewrite (proj2 (Z.eqb_neq a 0) Ha). apply runs_bind.
      eapply runs_mono; [eapply free_run, owns_swap, (Ho' d)|]. intros [] h2 Ho2. apply runs_ret.
      assert (MdCtx (Some d) a (cx_pctx (ctx_of x)) (cx_pctx_ops (ctx_of x)) = ctx_of (Full d a None)) as ->
        by (by destruct x).
      by eapply Hinit.
Qed.

Lemma digest_update_run base cs h d a s m data :
  owns base (Full d a (Some s) :: cs) h -> absorbs d s m -> Z.of_nat (length data) < 2 ^ 64 ->
  runs (EVP_DigestUpdate (ctx_of (Full d a (Some s))) data) h (fun _ h' =>
    exists s', owns base (Full d a (Some s') :: cs) h' /\ absorbs d s' (m ++ data)).
Proof.
  intros Ho Hs Hd. cbn [ctx_of]. unfold EVP_DigestUpdate. cbn [cx_digest cx_md_data].
  apply runs_bind. eapply state_run; [exact Ho|].
  destruct (update_absorbs d s m data Hs Hd) as (s' & E & Hs').
  apply runs_bind, (runs_lift _ s'); [exact E|].
  eapply runs_mono; [eapply (store_run _ _ d); exact Ho|]. intros [] h2 Ho2. by exists s'.
Qed.

Lemma digest_final_run base cs h d a s m :
  owns base (Full d a (Some s) :: cs) h -> absorbs d s m ->
  runs (EVP_DigestFinal_ex (ctx_of (Full d a (Some s)))) h (fun r h' =>
    r = (hash d m, evp_md_size (method d)) /\ owns base (Full d a None :: cs) h').
Proof.
  intros Ho Hs. cbn [ctx_of]. unfold EVP_DigestFinal_ex. cbn [cx_digest cx_md_data].
  destruct (digest_sizes d) as ((_ & Hsz) & _ & _).
  apply runs_bind, (runs_lift _ tt); [by rewrite (proj2 (Z.leb_le _ _) Hsz)|].
  apply runs_bind. eapply state_run; [exact Ho|].
  destruct (final_absorbs d s m Hs) as (s' & E).
  apply runs_bind, (runs_lift _ (hash d m, s')); [exact E|].
  apply runs_bind. eapply runs_mono; [eapply (store_run _ _ d); exact Ho|]. intros [] h' Ho'.
  by apply runs_ret.
Qed.

(** A copy of the state, or [out] as it was when there is no memory.  It cannot fail when
    [out] has the digest already. *)
Lemma copy_run base cs h x d a o :
  owns base (x :: Full d a o :: cs) h ->
  runs (EVP_MD_CTX_copy_ex (ctx_of x) (Some (ctx_of (Full d a o)))) h (fun r h' =>
    exists x', r.2 = ctx_of x' /\ owns base (x' :: Full d a o :: cs) h' /\
      if r.1 then exists a', x' = Full d a' o
      else cx_digest (ctx_of x) <> Some d /\ exists n, malloc_ok n = false).
Proof.
  intros Ho. unfold EVP_MD_CTX_copy_ex. cbn [ctx_of cx_digest cx_pctx cx_md_data cx_pctx_ops Z.eqb negb].
  rewrite bool_decide_eq_false_2 by done. cbn [andb].
  apply runs_bind, (assert_pctx_run (Full d a o)), runs_bind, runs_ret, runs_bind.
  assert (forall (out : EVP_MD_CTX D) a' o' h0,
    runs (EVP_MD_CTX_cleanup out) h0 (fun _ h1 => owns base (Full d a' o' :: Full d a o :: cs) h1) ->
    runs (EVP_MD_CTX_cleanup out ;;
          (o <- load_block a ;; store_block a' o) ;;
          (let out := MdCtx (Some d) a' 0 false in assert_pctx out ;; hret (true, out))) h0
      (fun r h' => exists x', r.2 = ctx_of x' /\ owns base (x' :: Full d a o :: cs) h' /\
         if r.1 then exists a', x' = Full d a' o
         else cx_digest (ctx_of x) <> Some d /\ exists n, malloc_ok n = false)) as Hcopy.
  { intros out a' o' h0 Ho0. apply runs_bind. eapply runs_mono; [exact Ho0|].
    intros c h1 Ho1. apply runs_bind, runs_bind.
    eapply load_run; [apply owns_swap in Ho1; exact Ho1|].
    eapply runs_mono; [eapply (store_run _ _ d); exact Ho1|]. intros [] h2 Ho2.
    apply runs_bind, (assert_pctx_run (Full d a' o)), runs_ret.
    exists (Full d a' o). split; [done|]. split; [exact Ho2|]. cbn. eauto. }
  destruct (decide (cx_digest (ctx_of x) = Some d)) as [Hd|Hd].
  - rewrite bool_decide_eq_true_2 by done. cbn [negb]. apply runs_ret.
    destruct x as [|d' a' o']; [done|]. cbn in Hd. injection Hd as ->.
    cbn [ctx_of cx_md_data cx_digest cx_pctx cx_pctx_ops].
    eapply Hcopy, cleanup_null. exact Ho.
  - rewrite bool_decide_eq_false_2 by done. cbn [negb].
    apply runs_bind, (runs_lift _ tt).
    { destruct (digest_sizes d) as (_ & _ & Hc). by rewrite (proj2 (Z.eqb_neq _ 0) Hc). }
    apply runs_bind. eapply runs_mono; [by apply malloc_run|]. intros a' h' [(-> & Ho' & Hf)|[Ha Ho']]; cbn [Z.eqb].
    + apply runs_bind, runs_ret, runs_ret, runs_ret. exists x. by split_and!.
    + rewrite (proj2 (Z.eqb_neq a' 0) Ha). apply runs_ret. eapply Hcopy.
      eapply runs_mono; [apply cleanup_run, owns_swap, (Ho' d)|]. by intros c h2 [_ Ho2].
Qed.

(** ** One call *)

(** The end: the blocks are those from before. *)
Lemma owns_nil (base : gmap Z (option St)) h : owns base [] h -> heap_ok h /\ hp_blocks h = base.
Proof. intros [Hk Ho]. split; [done|]. by inversion Ho. Qed.

Lemma evp_digest_run h d data :
  heap_ok h -> Z.of_nat (length data) < 2 ^ 64 ->
  runs (EVP_Digest data d) h (fun r h' => heap_ok h' /\ hp_blocks h' = hp_blocks h /\
    (r = Some (hash d data, evp_md_size (method d)) \/ r = None /\ exists n, malloc_ok n = false)).
Proof.
  intros Hh Hd.
  assert (owns (hp_blocks h) [Empty] h) as Ho by (apply (proj1 (owns_empty _ _ _)); by apply owns_start).
  enough (runs (EVP_Digest data d) h (fun r h' => owns (hp_blocks h) [] h' /\
    (r = Some (hash d data, evp_md_size (method d)) \/ r = None /\ exists n, malloc_ok n = false)))
    as Hr by (eapply runs_mono; [exact Hr|]; intros r h' [Ho' Hr']; apply owns_nil in Ho' as [? ?]; auto).
  unfold EVP_Digest. change EVP_MD_CTX_init with (ctx_of Empty).
  apply runs_bind. eapply runs_mono; [by apply digest_init_run|].
  intros [ok c] h1 (x1 & E & Ho1 & Hx). cbn [fst snd] in *. subst c. destruct ok.
  - destruct Hx as (a & s & -> & Hs). apply runs_bind, runs_bind.
    eapply runs_mono; [by eapply digest_update_run|]. intros [] h2 (s2 & Ho2 & Hs2).
    change (ctx_of (Full d a (Some s))) with (ctx_of (Full d a (Some s2))).
    apply runs_bind. eapply runs_mono; [by eapply digest_final_run|]. intros r h3 [-> Ho3].
    apply runs_ret, runs_bind. change (ctx_of (Full d a (Some s2))) with (ctx_of (Full d a None)).
    eapply runs_mono; [by apply cleanup_run|]. intros c h4 [_ Ho4]. apply runs_ret. auto.
  - apply runs_bind, runs_ret, runs_bind. eapply runs_mono; [by apply cleanup_run|].
    intros c h4 [_ Ho4]. apply runs_ret. auto.
Qed.
End spec.
