(* ===== verification/Digests.v ===== *)
(** * BoringSSL: the digests behind EVP_MD (crypto/fipsmodule/digest/digests.c)

    The tables of functions of the nine digests.  The block of a context has the state
    of one of them; a function that finds the state of another one is undefined, as
    the pointer in C has the wrong type then.  At the end the laws of the interface:
    every table is a hash function of a standard. *)
From Stdlib Require Import ZArith Lia.
From stdpp Require Import prelude list numbers gmap.
From S2P Require Import Prelude CMem Cells Der DerInt Words Md32 Md32Spec Md4 Md5 MdSpec Sha1 Sha1Spec Sha2 Sha256 Sha256Spec Sha512 Sha512Spec Evp EvpSpec.
Local Open Scope Z_scope.
Local Open Scope res_scope.

(** Memory that nothing has been written to: a variable of SHA-1, and the buffer in a
    context of SHA-512. *)
Class Garbage := {
  garbage_word : Z;
  garbage_p : bytes;
  garbage_length : length garbage_p = 128%nat
}.

(** What a block may have in it. *)
Inductive md_state :=
| St_md32 (c : md32_ctx)
| St_sha256 (c : SHA256_CTX)
| St_sha512 (c : SHA512_CTX)
| St_md5_sha1 (md5 sha1 : md32_ctx).

Definition with_md32 {A} (s : md_state) (k : md32_ctx -> res A) : res A :=
  match s with St_md32 c => k c | _ => UB end.
Definition with_sha256 {A} (s : md_state) (k : SHA256_CTX -> res A) : res A :=
  match s with St_sha256 c => k c | _ => UB end.
Definition with_sha512 {A} (s : md_state) (k : SHA512_CTX -> res A) : res A :=
  match s with St_sha512 c => k c | _ => UB end.

Definition MD4_DIGEST_LENGTH : Z := 16.
Definition MD5_DIGEST_LENGTH : Z := 16.
Definition SHA_DIGEST_LENGTH : Z := 20.

(** [CHECK] of what a final function returns. *)
Definition check_final {C} (r : Z * bytes * C) (st : C -> md_state) : res (bytes * md_state) :=
  let '(ok, out, c) := r in _ <- c_assert (ok =? 1) ;; Ret (out, st c).

Section tables.
Context `{Garbage}.

Definition md4_init (m : option md_state) : res md_state := Ret (St_md32 MD4_Init).
Definition md4_update (s : md_state) (data : bytes) : res md_state :=
  with_md32 s (fun c => c <- MD4_Update c data ;; Ret (St_md32 c)).
Definition md4_final (s : md_state) : res (bytes * md_state) :=
  with_md32 s (fun c => r <- MD4_Final c ;; Ret (r.1, St_md32 r.2)).
Definition EVP_md4 : EVP_MD md_state :=
  EvpMd 257 MD4_DIGEST_LENGTH 0 md4_init md4_update md4_final 64 92.

Definition md5_init (m : option md_state) : res md_state := Ret (St_md32 MD5_Init).
Definition md5_update (s : md_state) (data : bytes) : res md_state :=
  with_md32 s (fun c => c <- MD5_Update c data ;; Ret (St_md32 c)).
Definition md5_final (s : md_state) : res (bytes * md_state) :=
  with_md32 s (fun c => r <- MD5_Final c ;; Ret (r.1, St_md32 r.2)).
Definition EVP_md5 : EVP_MD md_state :=
  EvpMd 4 MD5_DIGEST_LENGTH 0 md5_init md5_update md5_final 64 92.

Definition sha1_init (m : option md_state) : res md_state := Ret (St_md32 SHA1_Init).
Definition sha1_update (s : md_state) (data : bytes) : res md_state :=
  with_md32 s (fun c => c <- SHA1_Update garbage_word c data ;; Ret (St_md32 c)).
Definition sha1_final (s : md_state) : res (bytes * md_state) :=
  with_md32 s (fun c => r <- SHA1_Final garbage_word c ;; Ret (r.1, St_md32 r.2)).
Definition EVP_sha1 : EVP_MD md_state :=
  EvpMd 64 SHA_DIGEST_LENGTH 0 sha1_init sha1_update sha1_final 64 96.

Definition sha224_init (m : option md_state) : res md_state := Ret (St_sha256 SHA224_Init).
Definition sha224_update (s : md_state) (data : bytes) : res md_state :=
  with_sha256 s (fun c => c <- SHA224_Update c data ;; Ret (St_sha256 c)).
Definition sha224_final (s : md_state) : res (bytes * md_state) :=
  with_sha256 s (fun c => r <- SHA224_Final c ;; check_final r St_sha256).
Definition EVP_sha224 : EVP_MD md_state :=
  EvpMd 675 SHA224_DIGEST_LENGTH 0 sha224_init sha224_update sha224_final 64 112.

Definition sha256_init (m : option md_state) : res md_state := Ret (St_sha256 SHA256_Init).
Definition sha256_update (s : md_state) (data : bytes) : res md_state :=
  with_sha256 s (fun c => c <- SHA256_Update c data ;; Ret (St_sha256 c)).
Definition sha256_final (s : md_state) : res (bytes * md_state) :=
  with_sha256 s (fun c => r <- SHA256_Final c ;; check_final r St_sha256).
Definition EVP_sha256 : EVP_MD md_state :=
  EvpMd 672 SHA256_DIGEST_LENGTH 0 sha256_init sha256_update sha256_final 64 112.

(** The buffer that is in the memory already, an array of 128 bytes. *)
Definition old_p (m : option md_state) : bytes :=
  match m with
  | Some (St_sha512 c) =>
      let p := md_data (sha512_md c) in if Nat.eqb (length p) 128 then p else garbage_p
  | _ => garbage_p
  end.

Definition sha384_init (m : option md_state) : res md_state := Ret (St_sha512 (SHA384_Init (old_p m))).
Definition sha384_update (s : md_state) (data : bytes) : res md_state :=
  with_sha512 s (fun c => c <- SHA384_Update c data ;; Ret (St_sha512 c)).
Definition sha384_final (s : md_state) : res (bytes * md_state) :=
  with_sha512 s (fun c => r <- SHA384_Final false c ;; check_final r St_sha512).
Definition EVP_sha384 : EVP_MD md_state :=
  EvpMd 673 SHA384_DIGEST_LENGTH 0 sha384_init sha384_update sha384_final 128 216.

Definition sha512_init (m : option md_state) : res md_state := Ret (St_sha512 (SHA512_Init (old_p m))).
Definition sha512_update (s : md_state) (data : bytes) : res md_state :=
  with_sha512 s (fun c => c <- SHA512_Update c data ;; Ret (St_sha512 c)).
Definition sha512_final (s : md_state) : res (bytes * md_state) :=
  with_sha512 s (fun c => r <- SHA512_Final false c ;; check_final r St_sha512).
Definition EVP_sha512 : EVP_MD md_state :=
  EvpMd 674 SHA512_DIGEST_LENGTH 0 sha512_init sha512_update sha512_final 128 216.

Definition sha512_256_init (m : option md_state) : res md_state :=
  Ret (St_sha512 (SHA512_256_Init (old_p m))).
Definition sha512_256_update (s : md_state) (data : bytes) : res md_state :=
  with_sha512 s (fun c => c <- SHA512_256_Update c data ;; Ret (St_sha512 c)).
Definition sha512_256_final (s : md_state) : res (bytes * md_state) :=
  with_sha512 s (fun c => r <- SHA512_256_Final false c ;; check_final r St_sha512).
Definition EVP_sha512_256 : EVP_MD md_state :=
  EvpMd 962 SHA512_256_DIGEST_LENGTH 0 sha512_256_init sha512_256_update sha512_256_final 128 216.

(** TLS up to 1.1: the MD5 and the SHA-1 of the message. *)
Definition md5_sha1_init (m : option md_state) : res md_state := Ret (St_md5_sha1 MD5_Init SHA1_Init).
Definition md5_sha1_update (s : md_state) (data : bytes) : res md_state :=
  match s with
  | St_md5_sha1 a b =>
      a <- MD5_Update a data ;;
      b <- SHA1_Update garbage_word b data ;;
      Ret (St_md5_sha1 a b)
  | _ => UB
  end.
Definition md5_sha1_final (s : md_state) : res (bytes * md_state) :=
  match s with
  | St_md5_sha1 a b =>
      x <- MD5_Final a ;;
      y <- SHA1_Final garbage_word b ;;
      Ret (x.1 ++ y.1, St_md5_sha1 x.2 y.2)
  | _ => UB
  end.
Definition EVP_md5_sha1 : EVP_MD md_state :=
  EvpMd 114 (MD5_DIGEST_LENGTH + SHA_DIGEST_LENGTH) 0 md5_sha1_init md5_sha1_update md5_sha1_final 64 188.

(** Pointers to the tables. *)
Inductive digest :=
| D_md4 | D_md5 | D_sha1 | D_sha224 | D_sha256 | D_sha384 | D_sha512 | D_sha512_256 | D_md5_sha1.
#[global] Instance digest_eq_dec : EqDecision digest.
Proof. solve_decision. Defined.
Definition table (d : digest) : EVP_MD md_state :=
  match d with
  | D_md4 => EVP_md4 | D_md5 => EVP_md5 | D_sha1 => EVP_sha1 | D_sha224 => EVP_sha224
  | D_sha256 => EVP_sha256 | D_sha384 => EVP_sha384 | D_sha512 => EVP_sha512
  | D_sha512_256 => EVP_sha512_256 | D_md5_sha1 => EVP_md5_sha1
  end.
#[global] Instance evp_digests : Digests digest md_state := { method := table }.

(** ** The standards *)

Definition standard (d : digest) : bytes -> bytes :=
  match d with
  | D_md4 => rfc_md4 | D_md5 => rfc_md5 | D_sha1 => fips_sha1 | D_sha224 => fips_sha224
  | D_sha256 => fips_sha256 | D_sha384 => fips_sha384 | D_sha512 => fips_sha512
  | D_sha512_256 => fips_sha512_256 | D_md5_sha1 => fun m => rfc_md5 m ++ fips_sha1 m
  end.

(** The state of a digest after a message. *)
Definition state_after (d : digest) (s : md_state) (m : bytes) : Prop :=
  match d, s with
  | D_md4, St_md32 c => collected compress_md4 64 32 rfc_iv m c
  | D_md5, St_md32 c => collected compress_md5 64 32 rfc_iv m c
  | D_sha1, St_md32 c => collected compress_sha1 64 32 (md_h SHA1_Init) m c
  | D_sha224, St_sha256 c => absorbed_256 fips_H224 28 m c
  | D_sha256, St_sha256 c => absorbed_256 fips_H256 32 m c
  | D_sha384, St_sha512 c => absorbed_512 fips_H384 48 m c
  | D_sha512, St_sha512 c => absorbed_512 fips_H512 64 m c
  | D_sha512_256, St_sha512 c => absorbed_512 fips_H512_256 32 m c
  | D_md5_sha1, St_md5_sha1 a b =>
      collected compress_md5 64 32 rfc_iv m a /\ collected compress_sha1 64 32 (md_h SHA1_Init) m b
  | _, _ => False
  end.

(** ** The laws *)

Lemma length_old_p m : length (old_p m) = 128%nat.
Proof.
  destruct m as [[| |c|]|]; try apply garbage_length. unfold old_p. cbv zeta.
  destruct (Nat.eqb_spec (length (md_data (sha512_md c))) 128); [done|apply garbage_length].
Qed.

Lemma length_concat_words (f : Z -> bytes) n l :
  (forall v, length (f v) = n) -> length (concat (f <$> l)) = (n * length l)%nat.
Proof.
  intros Hf. induction l as [|v l IH]; cbn; [lia|]. rewrite length_app, Hf, IH. lia.
Qed.
(** The chaining value has as many words as the first one. *)
Lemma length_merkle_damgard compress n bs lb be iv msg :
  (forall h x, length h = n -> length (compress h x) = n) -> length iv = n ->
  length (merkle_damgard compress bs lb be iv msg) = n.
Proof. intros Hc Hiv. by apply (merkle_damgard_ok (fun h => length h = n)). Qed.
Lemma length_hash_256 iv (words : nat) m :
  length iv = 8%nat -> (words <= 8)%nat -> length (hash_256 iv words m) = (4 * words)%nat.
Proof.
  intros Hiv Hw. unfold hash_256. rewrite (length_concat_words _ 4) by apply length_be_bytes.
  rewrite length_take, (length_merkle_damgard _ 8) by (done || exact length_compress_256). lia.
Qed.
Lemma length_hash_512 iv (words : nat) m :
  length iv = 8%nat -> (words <= 8)%nat -> length (hash_512 iv words m) = (8 * words)%nat.
Proof.
  intros Hiv Hw. unfold hash_512. rewrite (length_concat_words _ 8) by apply length_be_bytes.
  rewrite length_take, (length_merkle_damgard _ 8) by (done || exact length_compress_512). lia.
Qed.
Lemma length_rfc_md4 m : length (rfc_md4 m) = 16%nat.
Proof.
  unfold rfc_md4. rewrite (length_concat_words _ 4) by apply length_le_bytes.
  by rewrite (length_merkle_damgard _ 4) by (done || exact length_compress_md4).
Qed.
Lemma length_rfc_md5 m : length (rfc_md5 m) = 16%nat.
Proof.
  unfold rfc_md5. rewrite (length_concat_words _ 4) by apply length_le_bytes.
  by rewrite (length_merkle_damgard _ 4) by (done || exact length_compress_md5).
Qed.
Lemma length_fips_sha1 m : length (fips_sha1 m) = 20%nat.
Proof.
  unfold fips_sha1. rewrite (length_concat_words _ 4) by apply length_be_bytes.
  by rewrite (length_merkle_damgard _ 5) by (done || exact length_compress_sha1).
Qed.

Lemma standard_length d m : Z.of_nat (length (standard d m)) = evp_md_size (table d).
Proof.
  destruct d; cbn [standard].
  - by rewrite length_rfc_md4.
  - by rewrite length_rfc_md5.
  - by rewrite length_fips_sha1.
  - unfold fips_sha224. by rewrite length_hash_256 by (done || lia).
  - unfold fips_sha256. by rewrite length_hash_256 by (done || lia).
  - unfold fips_sha384. by rewrite length_hash_512 by (done || lia).
  - unfold fips_sha512. by rewrite length_hash_512 by (done || lia).
  - unfold fips_sha512_256. by rewrite length_hash_512 by (exact length_H512_256 || lia).
  - by rewrite length_app, length_rfc_md5, length_fips_sha1.
Qed.

#[local] Opaque compress_md4 compress_md5 compress_sha1 compress_256 compress_512
  crypto_md32_update crypto_md32_final SHA256_Update SHA512_Update sha256_final_impl sha512_final_impl
  rfc_md4 rfc_md5 fips_sha1 hash_256 hash_512.

Lemma digest_init d m : exists s, evp_init (table d) m = Ret s /\ state_after d s [].
Proof.
  destruct d; eexists; (split; [reflexivity|]); cbn [state_after]; try (by apply collected_nil).
  - rewrite <- H224_roots. apply absorbed_256_nil.
  - rewrite <- H256_roots. apply absorbed_256_nil.
  - rewrite <- (H384_roots (old_p m)). apply absorbed_512_nil, length_old_p.
  - rewrite <- (H512_roots (old_p m)). apply absorbed_512_nil, length_old_p.
  - rewrite <- (H512_256_value (old_p m)). apply absorbed_512_nil, length_old_p.
  - split; by apply collected_nil.
Qed.

Lemma md4_step m c x :
  collected compress_md4 64 32 rfc_iv m c -> Z.of_nat (length x) < 2 ^ 64 ->
  exists c', MD4_Update c x = Ret c' /\ collected compress_md4 64 32 rfc_iv (m ++ x) c'.
Proof.
  intros Ha Hx. unfold MD4_Update. change MD4_CBLOCK with (Z.of_nat 64).
  by apply (update_run md4_block_data_order (Hbf := md4_block_function)).
Qed.
Lemma md5_step m c x :
  collected compress_md5 64 32 rfc_iv m c -> Z.of_nat (length x) < 2 ^ 64 ->
  exists c', MD5_Update c x = Ret c' /\ collected compress_md5 64 32 rfc_iv (m ++ x) c'.
Proof.
  intros Ha Hx. unfold MD5_Update. change MD5_CBLOCK with (Z.of_nat 64).
  by apply (update_run md5_block_data_order (Hbf := md5_block_function)).
Qed.
Lemma sha1_step m c x :
  collected compress_sha1 64 32 (md_h SHA1_Init) m c -> Z.of_nat (length x) < 2 ^ 64 ->
  exists c', SHA1_Update garbage_word c x = Ret c' /\
             collected compress_sha1 64 32 (md_h SHA1_Init) (m ++ x) c'.
Proof.
  intros Ha Hx. unfold SHA1_Update. change SHA_CBLOCK with (Z.of_nat 64).
  by apply (update_run (sha1_block_data_order garbage_word) (Hbf := sha1_block_function garbage_word)).
Qed.

Lemma digest_update d s m x :
  state_after d s m -> Z.of_nat (length x) < 2 ^ 64 ->
  exists s', evp_update (table d) s x = Ret s' /\ state_after d s' (m ++ x).
Proof.
  intros Hs Hx. destruct d, s as [c|c|c|a b]; try done; cbn [table evp_update].
  - destruct (md4_step m c x Hs Hx) as (c' & E & Hc). exists (St_md32 c').
    unfold EVP_md4, md4_update, with_md32. cbn [evp_update]. by rewrite E.
  - destruct (md5_step m c x Hs Hx) as (c' & E & Hc). exists (St_md32 c').
    unfold EVP_md5, md5_update, with_md32. cbn [evp_update]. by rewrite E.
  - destruct (sha1_step m c x Hs Hx) as (c' & E & Hc). exists (St_md32 c').
    unfold EVP_sha1, sha1_update, with_md32. cbn [evp_update]. by rewrite E.
  - destruct (sha256_update_run fips_H224 28 m c x eq_refl Hs Hx) as (c' & E & Hc). exists (St_sha256 c').
    unfold EVP_sha224, sha224_update, SHA224_Update, with_sha256. cbn [evp_update]. by rewrite E.
  - destruct (sha256_update_run fips_H256 32 m c x eq_refl Hs Hx) as (c' & E & Hc). exists (St_sha256 c').
    unfold EVP_sha256, sha256_update, with_sha256. cbn [evp_update]. by rewrite E.
  - destruct (SHA512_Update_run fips_H384 48 m c x eq_refl Hs Hx) as (c' & E & Hc). exists (St_sha512 c').
    unfold EVP_sha384, sha384_update, SHA384_Update, with_sha512. cbn [evp_update]. by rewrite E.
  - destruct (SHA512_Update_run fips_H512 64 m c x eq_refl Hs Hx) as (c' & E & Hc). exists (St_sha512 c').
    unfold EVP_sha512, sha512_update, with_sha512. cbn [evp_update]. by rewrite E.
  - destruct (SHA512_Update_run fips_H512_256 32 m c x length_H512_256 Hs Hx) as (c' & E & Hc).
    exists (St_sha512 c').
    unfold EVP_sha512_256, sha512_256_update, SHA512_256_Update, with_sha512. cbn [evp_update]. by rewrite E.
  - destruct Hs as [Ha Hb]. destruct (md5_step m a x Ha Hx) as (a' & E & Ha').
    destruct (sha1_step m b x Hb Hx) as (b' & E' & Hb'). exists (St_md5_sha1 a' b').
    unfold EVP_md5_sha1, md5_sha1_update. cbn [evp_update]. rewrite E. cbn [rbind]. by rewrite E'.
Qed.

Lemma digest_final d s m :
  state_after d s m -> exists s', evp_final (table d) s = Ret (standard d m, s').
Proof.
  intros Hs. destruct d, s as [c|c|c|a b]; try done; cbn [table].
  - destruct (md4_final_run m c Hs) as (c' & E). exists (St_md32 c').
    unfold EVP_md4, md4_final, with_md32. cbn [evp_final]. by rewrite E.
  - destruct (md5_final_run m c Hs) as (c' & E). exists (St_md32 c').
    unfold EVP_md5, md5_final, with_md32. cbn [evp_final]. by rewrite E.
  - destruct (sha1_final_run garbage_word m c Hs) as (c' & E). exists (St_md32 c').
    unfold EVP_sha1, sha1_final, with_md32. cbn [evp_final]. by rewrite E.
  - destruct (sha256_final_run fips_H224 7 m c eq_refl ltac:(lia) Hs) as (c' & E). exists (St_sha256 c').
    unfold EVP_sha224, sha224_final, SHA224_Final, with_sha256. cbn [evp_final].
    rewrite (proj2 Hs). cbn [c_assert Z.eqb]. change SHA224_DIGEST_LENGTH with (4 * Z.of_nat 7).
    by rewrite E.
  - destruct (sha256_final_run fips_H256 8 m c eq_refl ltac:(lia) Hs) as (c' & E). exists (St_sha256 c').
    unfold EVP_sha256, sha256_final, SHA256_Final, with_sha256. cbn [evp_final].
    rewrite (proj2 Hs). change 32 with (4 * Z.of_nat 8). by rewrite E.
  - destruct (sha512_final_run fips_H384 6 m c false eq_refl ltac:(lia) Hs) as (c' & E).
    exists (St_sha512 c'). unfold EVP_sha384, sha384_final, SHA384_Final, with_sha512. cbn [evp_final].
    rewrite (proj2 Hs). change SHA384_DIGEST_LENGTH with (8 * Z.of_nat 6). by rewrite E.
  - destruct (sha512_final_run fips_H512 8 m c false eq_refl ltac:(lia) Hs) as (c' & E).
    exists (St_sha512 c'). unfold EVP_sha512, sha512_final, SHA512_Final, with_sha512. cbn [evp_final].
    rewrite (proj2 Hs). change 64 with (8 * Z.of_nat 8). by rewrite E.
  - destruct (sha512_final_run fips_H512_256 4 m c false length_H512_256 ltac:(lia) Hs) as (c' & E).
    exists (St_sha512 c'). unfold EVP_sha512_256, sha512_256_final, SHA512_256_Final, with_sha512.
    cbn [evp_final]. rewrite (proj2 Hs). change SHA512_256_DIGEST_LENGTH with (8 * Z.of_nat 4). by rewrite E.
  - destruct Hs as [Ha Hb]. destruct (md5_final_run m a Ha) as (a' & E).
    destruct (sha1_final_run garbage_word m b Hb) as (b' & E'). exists (St_md5_sha1 a' b').
    unfold EVP_md5_sha1, md5_sha1_final. cbn [evp_final]. rewrite E. cbn [rbind]. by rewrite E'.
Qed.

#[global] Program Instance evp_digest_laws : DigestLaws digest md_state := {
  hash := standard;
  absorbs := state_after;
  init_absorbs := digest_init;
  update_absorbs := digest_update;
  final_absorbs := digest_final;
  hash_length := standard_length
}.
Next Obligation. intros d. unfold EVP_MAX_MD_SIZE, EVP_MAX_MD_BLOCK_SIZE. by destruct d. Qed.
End tables.

(** ** One call *)

(** C40: [EVP_Digest] with each of the nine digests runs without undefined behaviour, frees
    what it allocates and touches no other block, and writes the digest of the standard
    (RFC 1320, RFC 1321, FIPS 180-4, or MD5 and SHA-1 one after the other) and its length,
    or fails because there is no memory. *)
Theorem evp_digest_correct `{Garbage} `{EvpEnv md_state} (d : digest) (data : bytes) (h : heap md_state) :
  heap_ok h -> Z.of_nat (length data) < 2 ^ 64 ->
  exists r h', EVP_Digest data d h = Ret (r, h') /\ hp_blocks h' = hp_blocks h /\
    (r = Some (standard d data, Z.of_nat (length (standard d data))) \/
     r = None /\ exists n, malloc_ok n = false).
Proof.
  intros Hh Hd. destruct (evp_digest_run h d data Hh Hd) as (r & h' & E & _ & Hb & Hr).
  exists r, h'. split; [done|]. split; [done|]. rewrite standard_length. exact Hr.
Qed.

(** An environment in which every allocation but the fifth succeeds. *)
Definition sample_garbage : Garbage :=
  {| garbage_word := 7; garbage_p := replicate 128 0xcc; garbage_length := eq_refl |}.
Definition sample_env : EvpEnv md_state := {|
  malloc_ok n := negb (Nat.eqb n 4);
  pctx_free _ _ := UB;
  pctx_dup _ _ := UB;
  stack_block := replicate 128 0xdd;
  stack_block_length := eq_refl
|}.
#[local] Existing Instances sample_garbage sample_env.

Lemma evp_digest_correct_witness :
  exists r h', EVP_Digest [97; 98; 99] D_md5_sha1 (Heap ∅ 0) = Ret (r, h') /\ hp_blocks h' = ∅ /\
    (r = Some (standard D_md5_sha1 [97; 98; 99], Z.of_nat (length (standard D_md5_sha1 [97; 98; 99]))) \/
     r = None /\ exists n, malloc_ok n = false).
Proof.
  destruct (evp_digest_correct D_md5_sha1 [97; 98; 99] (Heap ∅ 0)) as (r & h' & E & Hb & Hr).
  - intros a [o Ha]. discriminate Ha.
  - reflexivity.
  - exists r, h'. split; [exact E|]. split; [exact Hb|exact Hr].
Defined.
