(* ===== verification/Hmac.v ===== *)
(** * BoringSSL: HMAC (crypto/fipsmodule/hmac/hmac.c)

    The code over any digests of the interface of Evp.v.  A key is NULL, which goes
    with the length 0, or bytes.  The FIPS service indicator is not in this build. *)
From Stdlib Require Import ZArith Lia.
From stdpp Require Import prelude list numbers gmap.
From S2P Require Import Prelude CMem Cells Words Evp.
Local Open Scope Z_scope.
Local Open Scope evp_scope.

Section hmac.
Context {D St : Type} `{!Digests D St} `{!EvpEnv St}.
Local Abbreviation H := (hm St).

Record HMAC_CTX := HmacCtx {
  hm_md : option D;
  hm_md_ctx : EVP_MD_CTX D;
  hm_i_ctx : EVP_MD_CTX D;
  hm_o_ctx : EVP_MD_CTX D
}.

Definition HMAC_CTX_init : HMAC_CTX :=
  HmacCtx None EVP_MD_CTX_init EVP_MD_CTX_init EVP_MD_CTX_init.
Definition HMAC_CTX_new : H (option (Z * HMAC_CTX)) :=
  p <- OPENSSL_malloc ;;
  hret (if p =? 0 then None else Some (p, HMAC_CTX_init)).

(** [OPENSSL_cleanse] of the context leaves zeros. *)
Definition HMAC_CTX_cleanup (ctx : HMAC_CTX) : H HMAC_CTX :=
  EVP_MD_CTX_cleanup (hm_i_ctx ctx) ;;
  EVP_MD_CTX_cleanup (hm_o_ctx ctx) ;;
  EVP_MD_CTX_cleanup (hm_md_ctx ctx) ;;
  hret HMAC_CTX_init.
Definition HMAC_CTX_cleanse (ctx : HMAC_CTX) : H HMAC_CTX :=
  EVP_MD_CTX_cleanse (hm_i_ctx ctx) ;;
  EVP_MD_CTX_cleanse (hm_o_ctx ctx) ;;
  EVP_MD_CTX_cleanse (hm_md_ctx ctx) ;;
  hret HMAC_CTX_init.
Definition HMAC_CTX_free (ctx : option (Z * HMAC_CTX)) : H unit :=
  match ctx with
  | None => hret tt
  | Some (p, ctx) => HMAC_CTX_cleanup ctx ;; OPENSSL_free p
  end.

(** ** [HMAC_Init_ex] *)

(** The key in a block: what is in [key_block], how much of it, and [md_ctx]; nothing if
    there is no memory. *)
Definition hmac_key_block (md_ctx : EVP_MD_CTX D) (key : bytes) (d : D) :
    H (option (bytes * Z) * EVP_MD_CTX D) :=
  let block_size := EVP_MD_block_size (method d) in
  let key_len := Z.of_nat (length key) in
  if block_size <? key_len then
    r <- EVP_DigestInit_ex md_ctx d ;;
    let '(ok, md_ctx) := r in
    if ok : bool then
      EVP_DigestUpdate md_ctx key ;;
      out <- EVP_DigestFinal_ex md_ctx ;;
      key_block <- hlift (put stack_block 0 out.1) ;;
      hret (Some (key_block, out.2), md_ctx)
    else hret (None, md_ctx)
  else
    hassert (key_len <=? EVP_MAX_MD_BLOCK_SIZE) ;;
    key_block <- hlift (put stack_block 0 key) ;;
    hret (Some (key_block, u32 key_len), md_ctx).

(** A context that has absorbed a block of [key_block] with [c] on every byte. *)
Definition hmac_pad_ctx (ctx : EVP_MD_CTX D) (d : D) (key_block : bytes) (c : Z) :
    H (bool * EVP_MD_CTX D) :=
  k <- hlift (get key_block (EVP_MD_block_size (method d))) ;;
  let pad := Z.lxor c <$> k in
  r <- EVP_DigestInit_ex ctx d ;;
  let '(ok, ctx) := r in
  if ok : bool then EVP_DigestUpdate ctx pad ;; hret (true, ctx) else hret (false, ctx).

Definition hmac_set_key (ctx : HMAC_CTX) (key : bytes) (d : D) : H (bool * HMAC_CTX) :=
  let block_size := EVP_MD_block_size (method d) in
  hassert (block_size <=? EVP_MAX_MD_BLOCK_SIZE) ;;
  hassert (EVP_MD_size (method d) <=? block_size) ;;
  r <- hmac_key_block (hm_md_ctx ctx) key d ;;
  let '(k, md_ctx) := r in
  let ctx := HmacCtx (hm_md ctx) md_ctx (hm_i_ctx ctx) (hm_o_ctx ctx) in
  match k with
  | None => hret (false, ctx)
  | Some (key_block, key_block_len) =>
      key_block <- hlift (put key_block key_block_len (zeros (block_size - key_block_len))) ;;
      r <- hmac_pad_ctx (hm_i_ctx ctx) d key_block 0x36 ;;
      let '(ok, i_ctx) := r in
      let ctx := HmacCtx (hm_md ctx) (hm_md_ctx ctx) i_ctx (hm_o_ctx ctx) in
      if negb ok then hret (false, ctx)
      else
        r <- hmac_pad_ctx (hm_o_ctx ctx) d key_block 0x5c ;;
        let '(ok, o_ctx) := r in
        let ctx := HmacCtx (hm_md ctx) (hm_md_ctx ctx) (hm_i_ctx ctx) o_ctx in
        if negb ok then hret (false, ctx)
        else hret (true, HmacCtx (Some d) (hm_md_ctx ctx) (hm_i_ctx ctx) (hm_o_ctx ctx))
  end.

Definition HMAC_Init_ex (ctx : HMAC_CTX) (key : option bytes) (md : option D) : H (bool * HMAC_CTX) :=
  let md := match md with None => hm_md ctx | Some d => Some d end in
  r <- (if negb (bool_decide (md = hm_md ctx)) || negb (bool_decide (key = None)) then
          match md with
          | None => hlift UB
          | Some d => hmac_set_key ctx (default [] key) d
          end
        else hret (true, ctx)) ;;
  let '(ok, ctx) := r in
  if ok : bool then
    r <- EVP_MD_CTX_copy_ex (hm_md_ctx ctx) (Some (hm_i_ctx ctx)) ;;
    hret (r.1, HmacCtx (hm_md ctx) r.2 (hm_i_ctx ctx) (hm_o_ctx ctx))
  else hret (false, ctx).

(** ** Hashing *)

Definition HMAC_Update (ctx : HMAC_CTX) (data : bytes) : H unit :=
  EVP_DigestUpdate (hm_md_ctx ctx) data.

(** The bytes written to [out] and [*out_len], if the function returns 1, and the
    context.  A failure writes to [*out_len]. *)
Definition HMAC_Final (ctx : HMAC_CTX) (out_len_null : bool) : H (option (bytes * Z) * HMAC_CTX) :=
  r <- EVP_DigestFinal_ex (hm_md_ctx ctx) ;;
  let '(buf, i) := r in
  r <- EVP_MD_CTX_copy_ex (hm_md_ctx ctx) (Some (hm_o_ctx ctx)) ;;
  let '(ok, md_ctx) := r in
  let ctx := HmacCtx (hm_md ctx) md_ctx (hm_i_ctx ctx) (hm_o_ctx ctx) in
  if ok : bool then
    inner <- hlift (get buf i) ;;
    EVP_DigestUpdate (hm_md_ctx ctx) inner ;;
    out <- EVP_DigestFinal_ex (hm_md_ctx ctx) ;;
    hret (Some out, ctx)
  else if out_len_null then hlift UB
  else hret (None, ctx).

Definition HMAC_size (ctx : HMAC_CTX) : res Z :=
  match hm_md ctx with None => UB | Some d => Ret (EVP_MD_size (method d)) end.
Definition HMAC_CTX_get_md (ctx : HMAC_CTX) : option D := hm_md ctx.

(** What [HMAC] writes to [out] and [*out_len], if it does not return NULL. *)
Definition HMAC (evp_md : D) (key : option bytes) (data : bytes) (out_len_null : bool) :
    H (option (bytes * Z)) :=
  r <- HMAC_Init_ex HMAC_CTX_init key (Some evp_md) ;;
  let '(ok, ctx) := r in
  r <- (if ok : bool then HMAC_Update ctx data ;; HMAC_Final ctx out_len_null
        else hret (None, ctx)) ;;
  let '(out, ctx) := r in
  HMAC_CTX_cleanup ctx ;;
  hret out.

(** ** Copies *)

Definition HMAC_CTX_copy_ex (dest src : HMAC_CTX) : H (bool * HMAC_CTX) :=
  r <- EVP_MD_CTX_copy_ex (hm_i_ctx dest) (Some (hm_i_ctx src)) ;;
  let dest := HmacCtx (hm_md dest) (hm_md_ctx dest) r.2 (hm_o_ctx dest) in
  if negb r.1 then hret (false, dest)
  else
    r <- EVP_MD_CTX_copy_ex (hm_o_ctx dest) (Some (hm_o_ctx src)) ;;
    let dest := HmacCtx (hm_md dest) (hm_md_ctx dest) (hm_i_ctx dest) r.2 in
    if negb r.1 then hret (false, dest)
    else
      r <- EVP_MD_CTX_copy_ex (hm_md_ctx dest) (Some (hm_md_ctx src)) ;;
      let dest := HmacCtx (hm_md dest) r.2 (hm_i_ctx dest) (hm_o_ctx dest) in
      if negb r.1 then hret (false, dest)
      else hret (true, HmacCtx (hm_md src) (hm_md_ctx dest) (hm_i_ctx dest) (hm_o_ctx dest)).
Definition HMAC_CTX_reset (ctx : HMAC_CTX) : H HMAC_CTX :=
  HMAC_CTX_cleanup ctx ;; hret HMAC_CTX_init.
Definition HMAC_Init (ctx : HMAC_CTX) (key : option bytes) (md : option D) : H (bool * HMAC_CTX) :=
  let ctx := if negb (bool_decide (key = None)) && negb (bool_decide (md = None))
             then HMAC_CTX_init else ctx in
  HMAC_Init_ex ctx key md.
Definition HMAC_CTX_copy (dest src : HMAC_CTX) : H (bool * HMAC_CTX) :=
  HMAC_CTX_copy_ex HMAC_CTX_init src.
End hmac.
Arguments HMAC_CTX : clear implicits.
