(* ===== verification/HmacSpec.v ===== *)
(** * HMAC is the function of RFC 2104

    The function of the RFC over any digests, what an HMAC context owns and has
    absorbed, and the theorems: in one call, whatever allocations fail; and a context in
    any sequence of calls, against an abstract context that has a key and a message. *)
From Stdlib Require Import ZArith Lia.
From stdpp Require Import prelude list numbers gmap.
From S2P Require Import Prelude CMem Cells Words Evp EvpSpec Sha2 Sha256 Sha256Spec Digests Hmac.
Local Open Scope Z_scope.
Local Open Scope evp_scope.

Section spec.
Context {D St : Type} `{!Digests D St} `{!DigestLaws D St} `{!EvpEnv St}.

(** ** RFC 2104 *)

(** The key as a block: hashed if it is longer, then followed by zeros. *)
Definition rfc_key (d : D) (key : bytes) : bytes :=
  let B := evp_block_size (method d) in
  let k := if B <? Z.of_nat (length key) then hash d key else key in
  k ++ zeros (B - Z.of_nat (length k)).
Definition hmac_key_pad (d : D) (c : Z) (key : bytes) : bytes := Z.lxor c <$> rfc_key d key.
Definition rfc_hmac (d : D) (key msg : bytes) : bytes :=
  hash d (hmac_key_pad d 0x5c key ++ hash d (hmac_key_pad d 0x36 key ++ msg)).

Lemma length_rfc_key d key : Z.of_nat (length (rfc_key d key)) = evp_block_size (method d).
Proof.
  unfold rfc_key. cbv zeta. destruct (digest_sizes d) as (H1 & H2 & _).
  rewrite length_app. pose proof (hash_length d key) as Hh.
  destruct (Z.ltb_spec (evp_block_size (method d)) (Z.of_nat (length key)));
    rewrite Nat2Z.inj_add, length_zeros by lia; lia.
Qed.
Lemma length_key_pad d c key : Z.of_nat (length (hmac_key_pad d c key)) = evp_block_size (method d).
Proof. unfold hmac_key_pad. by rewrite length_fmap, length_rfc_key. Qed.

(** ** What a context has *)

(** A digest in a block of its own that has absorbed the pad of a key, and then [m]. *)
Definition has (d : D) (m : bytes) (c : cell (D := D) (St := St)) : Prop :=
  exists a s, c = Full d a (Some s) /\ absorbs d s m.
Definition hmac_ctx (md : option D) (xm xi xo : cell (D := D) (St := St)) : HMAC_CTX D :=
  HmacCtx md (ctx_of xm) (ctx_of xi) (ctx_of xo).

Lemma has_update base cs h d m x c :
  has d m c -> owns base (c :: cs) h -> Z.of_nat (length x) < 2 ^ 64 ->
  runs (EVP_DigestUpdate (ctx_of c) x) h (fun _ h' =>
    exists c', ctx_of c' = ctx_of c /\ has d (m ++ x) c' /\ owns base (c' :: cs) h').
Proof.
  intros (a & s & -> & Hs) Ho Hx. eapply runs_mono; [by eapply digest_update_run|].
  intros [] h' (s' & Ho' & Hs'). exists (Full d a (Some s')). split; [done|]. split; [|done]. by exists a, s'.
Qed.
Lemma has_final base cs h d m c :
  has d m c -> owns base (c :: cs) h ->
  runs (EVP_DigestFinal_ex (ctx_of c)) h (fun r h' =>
    exists c', r = (hash d m, evp_md_size (method d)) /\ ctx_of c' = ctx_of c /\
      cx_digest (ctx_of c) = Some d /\ owns base (c' :: cs) h').
Proof.
  intros (a & s & -> & Hs) Ho. eapply runs_mono; [by eapply digest_final_run|].
  intros r h' [-> Ho']. exists (Full d a None). by split_and!.
Qed.
Lemma has_copy base cs h d m x c :
  has d m c -> owns base (x :: c :: cs) h ->
  runs (EVP_MD_CTX_copy_ex (ctx_of x) (Some (ctx_of c))) h (fun r h' =>
    exists x', r.2 = ctx_of x' /\ owns base (x' :: c :: cs) h' /\
      if r.1 then has d m x' else cx_digest (ctx_of x) <> Some d /\ exists n, malloc_ok n = false).
Proof.
  intros (a & s & -> & Hs) Ho. eapply runs_mono; [by eapply copy_run|].
  intros [ok o] h' (x' & E & Ho' & Hx). exists x'. split; [done|]. split; [done|].
  destruct ok; [|done]. destruct Hx as [a' ->]. by exists a', s.
Qed.
Lemma has_init base cs h d x :
  owns base (x :: cs) h ->
  runs (EVP_DigestInit_ex (ctx_of x) d) h (fun r h' =>
    exists x', r.2 = ctx_of x' /\ owns base (x' :: cs) h' /\
      if r.1 then has d [] x' else exists n, malloc_ok n = false).
Proof.
  intros Ho. eapply runs_mono; [by apply digest_init_run|].
  intros [ok o] h' (x' & E & Ho' & Hx). exists x'. split; [done|]. split; [done|]. by destruct ok.
Qed.

(** ** The key *)

Lemma key_block_run base cs h x key d :
  owns base (x :: cs) h -> Z.of_nat (length key) < 2 ^ 64 ->
  runs (hmac_key_block (ctx_of x) key d) h (fun r h' =>
    exists x', r.2 = ctx_of x' /\ owns base (x' :: cs) h' /\
      match r.1 with
      | Some (k, n) =>
          exists k0, rfc_key d key = k0 ++ zeros (evp_block_size (method d) - n) /\
            Z.of_nat (length k0) = n /\ k = k0 ++ drop (length k0) stack_block /\
            n <= evp_block_size (method d)
      | None => exists n, malloc_ok n = false
      end).
Proof.
  intros Ho Hk. unfold hmac_key_block. cbv zeta. unfold EVP_MD_block_size, rfc_key. cbv zeta.
  pose proof (hash_length d key) as Hh. pose proof stack_block_length as Hsb.
  destruct (digest_sizes d) as (H1 & H2 & _). unfold EVP_MAX_MD_BLOCK_SIZE, EVP_MAX_MD_SIZE in *.
  assert (forall k0, (length k0 <= 128)%nat ->
    put stack_block 0 k0 = Ret (k0 ++ drop (length k0) stack_block)) as Hput
    by (intros k0 Hk0; rewrite put_run by lia; done).
  destruct (Z.ltb_spec (evp_block_size (method d)) (Z.of_nat (length key))) as [Hl|Hl].
  - apply runs_bind. eapply runs_mono; [by apply has_init|].
    intros [ok c] h' (x' & E & Ho' & Hx). cbn [fst snd] in *. subst c. destruct ok.
    + apply runs_bind. eapply runs_mono; [by eapply has_update|].
      intros [] h2 (c2 & Ec & Hc2 & Ho2). cbn [app] in Hc2. rewrite <- Ec. clear Ec Hx x' Ho'.
      apply runs_bind. eapply runs_mono; [by eapply has_final|].
      intros r h3 (c3 & -> & Ec & _ & Ho3). cbn [fst snd].
      apply runs_bind, (runs_lift _ (hash d key ++ drop (length (hash d key)) stack_block)); [apply Hput; lia|].
      apply runs_ret. exists c3. split; [by rewrite Ec|]. split; [done|]. cbn [fst].
      exists (hash d key). rewrite Hh. split_and!; [done|done|done|lia].
    + apply runs_ret. by exists x'.
  - apply runs_bind, (runs_lift _ tt); [by rewrite (proj2 (Z.leb_le _ _)) by lia|].
    apply runs_bind, (runs_lift _ (key ++ drop (length key) stack_block)); [apply Hput; lia|].
    apply runs_ret. exists x. split; [done|]. split; [done|]. cbn [fst]. exists key.
    unfold u32. rewrite wrap_small by lia. split_and!; [done|done|done|lia].
Qed.

Lemma pad_ctx_run base cs h x d k c :
  owns base (x :: cs) h -> evp_block_size (method d) <= Z.of_nat (length k) ->
  runs (hmac_pad_ctx (ctx_of x) d k c) h (fun r h' =>
    exists x', r.2 = ctx_of x' /\ owns base (x' :: cs) h' /\
      if r.1 then has d (Z.lxor c <$> take (Z.to_nat (evp_block_size (method d))) k) x'
      else exists n, malloc_ok n = false).
Proof.
  intros Ho Hk. unfold hmac_pad_ctx. destruct (digest_sizes d) as (H1 & H2 & _).
  unfold EVP_MD_block_size, EVP_MAX_MD_BLOCK_SIZE in *.
  apply runs_bind. eapply runs_lift; [apply get_run; lia|]. cbv zeta.
  apply runs_bind. eapply runs_mono; [by apply has_init|].
  intros [ok c'] h' (x' & E & Ho' & Hx). cbn [fst snd] in *. subst c'. destruct ok.
  - apply runs_bind. eapply runs_mono; [eapply has_update; [done|done|]|].
    { rewrite length_fmap, length_take. lia. }
    intros [] h2 (c2 & Ec & Hc2 & Ho2). rewrite <- Ec. apply runs_ret. by exists c2.
  - apply runs_ret. by exists x'.
Qed.

(** The inner and the outer context of a key. *)
Definition keyed (d : D) (key : bytes) (xi xo : cell (D := D) (St := St)) : Prop :=
  has d (hmac_key_pad d 0x36 key) xi /\ has d (hmac_key_pad d 0x5c key) xo.
Definition no_memory : Prop := exists n, malloc_ok n = false.

Lemma owns_rotate base (x : cell (D := D) (St := St)) cs h : owns base (x :: cs) h -> owns base (cs ++ [x]) h.
Proof. apply owns_perm, Permutation_cons_append. Qed.

(** The block of the key after the padding. *)
Lemma key_block_padded d key k0 n :
  rfc_key d key = k0 ++ zeros (evp_block_size (method d) - n) -> Z.of_nat (length k0) = n ->
  n <= evp_block_size (method d) ->
  exists k, put (k0 ++ drop (length k0) stack_block) n (zeros (evp_block_size (method d) - n)) = Ret k /\
    evp_block_size (method d) <= Z.of_nat (length k) /\
    take (Z.to_nat (evp_block_size (method d))) k = rfc_key d key.
Proof.
  intros E <- Hn. pose proof stack_block_length as Hsb. pose proof (length_rfc_key d key) as Hl.
  destruct (digest_sizes d) as (_ & H2 & _). unfold EVP_MAX_MD_BLOCK_SIZE in H2.
  pose proof (length_zeros (evp_block_size (method d) - Z.of_nat (length k0))) as Hz.
  rewrite put_app by (rewrite length_drop; lia).
  eexists. split; [done|]. rewrite app_assoc, <- E. split.
  - rewrite length_app. lia.
  - apply take_app_length'. lia.
Qed.

Lemma set_key_run base h md xm xi xo key d :
  owns base [xm; xi; xo] h -> Z.of_nat (length key) < 2 ^ 64 ->
  runs (hmac_set_key (hmac_ctx md xm xi xo) key d) h (fun r h' =>
    exists md' xm' xi' xo', r.2 = hmac_ctx md' xm' xi' xo' /\ owns base [xm'; xi'; xo'] h' /\
      if r.1 then md' = Some d /\ keyed d key xi' xo' else no_memory).
Proof.
  intros Ho Hk. unfold hmac_set_key. cbv zeta. unfold EVP_MD_block_size, EVP_MD_size.
  destruct (digest_sizes d) as (H1 & H2 & _).
  apply runs_bind, (runs_lift _ tt); [by rewrite (proj2 (Z.leb_le _ _)) by lia|].
  apply runs_bind, (runs_lift _ tt); [by rewrite (proj2 (Z.leb_le _ _)) by lia|].
  cbn [hmac_ctx hm_md hm_md_ctx hm_i_ctx hm_o_ctx].
  apply runs_bind. eapply runs_mono; [by eapply key_block_run|].
  intros [k c] h1 (xm1 & E1 & Ho1 & Hkb). cbn [fst snd] in *. subst c.
  destruct k as [[k n]|]; [|apply runs_ret; by exists md, xm1, xi, xo].
  destruct Hkb as (k0 & Ek & En & -> & Hn).
  destruct (key_block_padded d key k0 n Ek En Hn) as (k & Eput & Hlk & Etk).
  apply runs_bind. eapply runs_lift; [exact Eput|].
  apply runs_bind. eapply runs_mono; [eapply pad_ctx_run; [apply owns_rotate in Ho1; exact Ho1|done]|].
  intros [ok c] h2 (xi2 & E2 & Ho2 & Hi). cbn [fst snd] in *. subst c.
  apply owns_rotate in Ho2. cbn [app] in Ho2.
  destruct ok; cbn [negb];
    [|apply runs_ret; exists md, xm1, xi2, xo; split; [done|]; split; [by apply owns_rotate in Ho2|done]].
  apply runs_bind. eapply runs_mono; [eapply pad_ctx_run; [exact Ho2|done]|].
  intros [ok c] h3 (xo3 & E3 & Ho3 & Hoo). cbn [fst snd] in *. subst c.
  apply owns_rotate in Ho3. cbn [app] in Ho3. rewrite Etk in Hi, Hoo.
  destruct ok; cbn [negb]; apply runs_ret.
  - by exists (Some d), xm1, xi2, xo3.
  - by exists md, xm1, xi2, xo3.
Qed.

(** ** Calls *)

(** Starting over with a new key; if it fails, for want of memory, the blocks are those of
    the context still. *)
Lemma init_key_run base h md xm xi xo key omd d :
  owns base [xm; xi; xo] h -> Z.of_nat (length (default [] key)) < 2 ^ 64 ->
  match omd with None => md | Some d' => Some d' end = Some d -> (Some d <> md \/ key <> None) ->
  runs (HMAC_Init_ex (hmac_ctx md xm xi xo) key omd) h (fun r h' =>
    exists md' xm' xi' xo', r.2 = hmac_ctx md' xm' xi' xo' /\ owns base [xm'; xi'; xo'] h' /\
      if r.1 then md' = Some d /\ keyed d (default [] key) xi' xo' /\
                  has d (hmac_key_pad d 0x36 (default [] key)) xm'
      else no_memory).
Proof.
  intros Ho Hk Ed Hnew. unfold HMAC_Init_ex. cbv zeta. cbn [hmac_ctx hm_md]. rewrite Ed.
  apply runs_bind.
  assert (negb (bool_decide (Some d = md)) || negb (bool_decide (key = None)) = true) as ->.
  { destruct Hnew as [Hn|Hn]; [rewrite (bool_decide_eq_false_2 _ Hn); done|].
    rewrite (bool_decide_eq_false_2 _ Hn). apply orb_true_r. }
  eapply runs_mono; [by eapply set_key_run|].
  intros [ok c] h1 (md1 & xm1 & xi1 & xo1 & E & Ho1 & Hkey). cbn [fst snd] in *. subst c.
  destruct ok; [|apply runs_ret; by exists md1, xm1, xi1, xo1].
  destruct Hkey as [-> Hkey]. cbn [hmac_ctx hm_md hm_md_ctx hm_i_ctx hm_o_ctx].
  apply runs_bind. eapply runs_mono; [eapply has_copy; [apply Hkey|exact Ho1]|].
  intros [ok c] h2 (xm2 & E2 & Ho2 & Hm). cbn [fst snd] in *. subst c. apply runs_ret.
  exists (Some d), xm2, xi1, xo1. split; [done|]. split; [done|]. destruct ok; [done|]. apply Hm.
Qed.

(** Starting over with the same key cannot fail. *)
Lemma init_rewind_run base h d xm xi xo key omd :
  owns base [xm; xi; xo] h -> keyed d key xi xo -> cx_digest (ctx_of xm) = Some d ->
  (omd = None \/ omd = Some d) ->
  runs (HMAC_Init_ex (hmac_ctx (Some d) xm xi xo) None omd) h (fun r h' =>
    exists xm', r = (true, hmac_ctx (Some d) xm' xi xo) /\ owns base [xm'; xi; xo] h' /\
      has d (hmac_key_pad d 0x36 key) xm').
Proof.
  intros Ho Hkey Hd Homd. unfold HMAC_Init_ex. cbv zeta. cbn [hmac_ctx hm_md].
  assert (match omd with None => Some d | Some d' => Some d' end = Some d) as -> by (by destruct Homd as [->| ->]).
  rewrite !bool_decide_eq_true_2 by done. cbn [negb orb].
  apply runs_bind, runs_ret. cbn [hmac_ctx hm_md hm_md_ctx hm_i_ctx hm_o_ctx].
  apply runs_bind. eapply runs_mono; [eapply has_copy; [apply Hkey|exact Ho]|].
  intros [ok c] h2 (xm2 & E2 & Ho2 & Hm). cbn [fst snd] in *. subst c. apply runs_ret.
  destruct ok; [|by destruct Hm]. by exists xm2.
Qed.

Lemma hmac_update_run base h d xm xi xo m x :
  owns base [xm; xi; xo] h -> has d m xm -> Z.of_nat (length x) < 2 ^ 64 ->
  runs (HMAC_Update (hmac_ctx (Some d) xm xi xo) x) h (fun _ h' =>
    exists xm', ctx_of xm' = ctx_of xm /\ has d (m ++ x) xm' /\ owns base [xm'; xi; xo] h').
Proof. intros Ho Hm Hx. by eapply has_update. Qed.

Lemma hmac_final_run base h d xm xi xo key m null :
  owns base [xm; xi; xo] h -> keyed d key xi xo -> has d (hmac_key_pad d 0x36 key ++ m) xm ->
  runs (HMAC_Final (hmac_ctx (Some d) xm xi xo) null) h (fun r h' =>
    exists xm', r = (Some (rfc_hmac d key m, evp_md_size (method d)), hmac_ctx (Some d) xm' xi xo) /\
      cx_digest (ctx_of xm') = Some d /\ owns base [xm'; xi; xo] h').
Proof.
  intros Ho Hkey Hm. unfold HMAC_Final. cbn [hmac_ctx hm_md hm_md_ctx hm_i_ctx hm_o_ctx].
  pose proof (hash_length d (hmac_key_pad d 0x36 key ++ m)) as Hl. destruct (digest_sizes d) as (H1 & _ & _).
  apply runs_bind. eapply runs_mono; [by eapply has_final|].
  intros r h1 (xm1 & -> & E1 & Ed & Ho1). rewrite <- E1.
  assert (owns base [xm1; xo; xi] h1) as Ho1' by (eapply owns_perm; [apply perm_skip, perm_swap|exact Ho1]).
  apply runs_bind. eapply runs_mono; [eapply has_copy; [apply Hkey|exact Ho1']|].
  intros [ok c] h2 (xm2 & E2 & Ho2 & Hc). cbn [fst snd] in *. subst c.
  destruct ok; [|destruct Hc as [Hc _]; by rewrite E1, Ed in Hc].
  apply runs_bind. eapply runs_lift; [apply get_run; lia|]. rewrite take_ge by lia.
  apply runs_bind. eapply runs_mono; [eapply has_update; [exact Hc|exact Ho2|]|].
  { unfold EVP_MAX_MD_SIZE in H1. lia. }
  intros [] h3 (xm3 & E3 & Hm3 & Ho3). cbn [hm_md hm_md_ctx hm_i_ctx hm_o_ctx]. rewrite <- E3.
  apply runs_bind. eapply runs_mono; [by eapply has_final|].
  intros r h4 (xm4 & -> & E4 & Ed4 & Ho4). apply runs_ret. exists xm4. unfold hmac_ctx. rewrite E4. split; [done|]. split; [exact Ed4|].
  eapply owns_perm; [|exact Ho4]. apply perm_skip, perm_swap.
Qed.

Lemma hmac_cleanup_run base h md xm xi xo :
  owns base [xm; xi; xo] h ->
  runs (HMAC_CTX_cleanup (hmac_ctx md xm xi xo)) h (fun c h' => c = HMAC_CTX_init /\ owns (D := D) base [] h').
Proof.
  intros Ho. unfold HMAC_CTX_cleanup. cbn [hmac_ctx hm_md hm_md_ctx hm_i_ctx hm_o_ctx].
  apply owns_rotate in Ho. cbn [app] in Ho.
  apply runs_bind. eapply runs_mono; [by apply cleanup_run|]. intros c1 h1 [_ Ho1].
  apply runs_bind. eapply runs_mono; [by apply cleanup_run|]. intros c2 h2 [_ Ho2].
  apply runs_bind. eapply runs_mono; [by apply cleanup_run|]. intros c3 h3 [_ Ho3].
  by apply runs_ret.
Qed.

Lemma hmac_run (d : D) (key : option bytes) (data : bytes) (null : bool) (h : heap St) :
  heap_ok h -> Z.of_nat (length (default [] key)) < 2 ^ 64 -> Z.of_nat (length data) < 2 ^ 64 ->
  runs (HMAC d key data null) h (fun r h' => owns (D := D) (hp_blocks h) [] h' /\
    (r = Some (rfc_hmac d (default [] key) data, evp_md_size (method d)) \/ r = None /\ no_memory)).
Proof.
  intros Hh Hk Hd.
  assert (owns (hp_blocks h) [Empty; Empty; Empty] h) as Ho
    by (do 3 apply (proj1 (owns_empty (D := D) _ _ _)); by apply owns_start).
  unfold HMAC. change HMAC_CTX_init with (hmac_ctx None Empty Empty Empty).
  apply runs_bind. eapply runs_mono; [eapply (init_key_run _ _ _ _ _ _ _ _ d); [exact Ho|done|done|by left]|].
  intros [ok c] h1 (md1 & xm1 & xi1 & xo1 & E & Ho1 & Hi). cbn [fst snd] in *. subst c. destruct ok.
  - destruct Hi as (-> & Hkey & Hm). apply runs_bind, runs_bind.
    eapply runs_mono; [by eapply hmac_update_run|]. intros [] h2 (xm2 & E2 & Hm2 & Ho2).
    unfold hmac_ctx at 1. rewrite <- E2. fold (hmac_ctx (Some d) xm2 xi1 xo1).
    eapply runs_mono; [by eapply hmac_final_run|].
    intros r h3 (xm3 & -> & _ & Ho3). apply runs_bind.
    eapply runs_mono; [by apply hmac_cleanup_run|]. intros c h4 [_ Ho4]. apply runs_ret. auto.
  - apply runs_bind, runs_ret, runs_bind.
    eapply runs_mono; [by apply hmac_cleanup_run|]. intros c h4 [_ Ho4]. apply runs_ret. auto.
Qed.

(** For every digest that keeps the laws of the interface, every key and every message,
    HMAC runs without undefined behaviour, also when [out_len] is NULL, and either returns
    the HMAC of RFC 2104 and its length, or NULL because an allocation failed; in both cases
    every block it allocated is freed, and no other one is touched. *)
Theorem hmac_correct (d : D) (key : option bytes) (data : bytes) (null : bool) (h : heap St) :
  heap_ok h -> Z.of_nat (length (default [] key)) < 2 ^ 64 -> Z.of_nat (length data) < 2 ^ 64 ->
  exists r h', HMAC d key data null h = Ret (r, h') /\ heap_ok h' /\ hp_blocks h' = hp_blocks h /\
    (r = Some (rfc_hmac d (default [] key) data, evp_md_size (method d)) \/
     r = None /\ exists n, malloc_ok n = false).
Proof.
  intros Hh Hk Hd. destruct (hmac_run d key data null h Hh Hk Hd) as (r & h' & E & Ho & Hr).
  apply owns_nil in Ho as [Hk' Hb]. exists r, h'. auto.
Qed.

(** ** Any sequence of calls

    What a context stands for: nothing, a key and the message so far, or a key whose
    last code is out. *)
Inductive hmac_state :=
| Fresh
| Ready (d : D) (key msg : bytes)
| Spent (d : D) (key : bytes).
Inductive hmac_op :=
| OInit (key : option bytes) (md : option D)
| OUpdate (data : bytes)
| OFinal (out_len_null : bool)
| OReset.

(** The documented use: the code after every [OFinal]; nothing for other sequences. *)
Definition hmac_start (cur : option (D * bytes)) (key : option bytes) (md : option D) : option hmac_state :=
  match cur, md with
  | None, None => None
  | None, Some d => Some (Ready d (default [] key) [])
  | Some (d0, k0), _ =>
      let d := default d0 md in
      if bool_decide (key = None) && bool_decide (d = d0) then Some (Ready d0 k0 [])
      else Some (Ready d (default [] key) [])
  end.
Definition hmac_step (st : hmac_state) (op : hmac_op) : option (hmac_state * list (bytes * Z)) :=
  match op, st with
  | OInit key md, _ =>
      let cur := match st with Fresh => None | Ready d k _ | Spent d k => Some (d, k) end in
      (fun st => (st, [])) <$> hmac_start cur key md
  | OUpdate x, Ready d k m => Some (Ready d k (m ++ x), [])
  | OFinal _, Ready d k m => Some (Spent d k, [(rfc_hmac d k m, evp_md_size (method d))])
  | OReset, _ => Some (Fresh, [])
  | _, _ => None
  end.
Fixpoint hmac_spec (st : hmac_state) (ops : list hmac_op) : option (list (bytes * Z)) :=
  match ops with
  | [] => Some []
  | op :: r => '(st, out) ← hmac_step st op; (app out) <$> hmac_spec st r
  end.

(** The calls, up to the first that fails, and the clean-up. *)
Definition hmac_call (ctx : HMAC_CTX D) (op : hmac_op) :
    hm St (option (list (bytes * Z)) * HMAC_CTX D) :=
  match op with
  | OInit key md => r <- HMAC_Init_ex ctx key md ;; hret (if r.1 : bool then Some [] else None, r.2)
  | OUpdate x => HMAC_Update ctx x ;; hret (Some [], ctx)
  | OFinal null => r <- HMAC_Final ctx null ;; hret ((fun o => [o]) <$> r.1, r.2)
  | OReset => c <- HMAC_CTX_reset ctx ;; hret (Some [], c)
  end.
Fixpoint hmac_calls (ctx : HMAC_CTX D) (ops : list hmac_op) : hm St (option (list (bytes * Z))) :=
  match ops with
  | [] => HMAC_CTX_cleanup ctx ;; hret (Some [])
  | op :: rest =>
      r <- hmac_call ctx op ;;
      let '(out, ctx) := r in
      match out with
      | None => HMAC_CTX_cleanup ctx ;; hret None
      | Some out => outs <- hmac_calls ctx rest ;; hret ((app out) <$> outs)
      end
  end.

Definition op_ok (op : hmac_op) : Prop :=
  match op with
  | OInit key _ => Z.of_nat (length (default [] key)) < 2 ^ 64
  | OUpdate x => Z.of_nat (length x) < 2 ^ 64
  | _ => True
  end.

(** The context of an abstract state. *)
Definition stands_for (base : gmap Z (option St)) (st : hmac_state) (ctx : HMAC_CTX D) (h : heap St) : Prop :=
  exists md xm xi xo, ctx = hmac_ctx md xm xi xo /\ owns base [xm; xi; xo] h /\
    match st with
    | Fresh => md = None
    | Ready d key m => md = Some d /\ keyed d key xi xo /\ has d (hmac_key_pad d 0x36 key ++ m) xm
    | Spent d key => md = Some d /\ keyed d key xi xo /\ cx_digest (ctx_of xm) = Some d
    end.

Lemma stands_for_fresh base h : owns (D := D) base [] h -> stands_for base Fresh HMAC_CTX_init h.
Proof.
  intros Ho. exists None, Empty, Empty, Empty. split; [done|]. split; [|done].
  by do 3 apply (proj1 (owns_empty (D := D) _ _ _)).
Qed.
Lemma has_digest d m c : has d m c -> cx_digest (ctx_of c) = Some d.
Proof. by intros (a & s & -> & _). Qed.

Lemma hmac_start_run base h st ctx key md st' :
  let cur := match st with Fresh => None | Ready d k _ | Spent d k => Some (d, k) end in
  hmac_start cur key md = Some st' -> Z.of_nat (length (default [] key)) < 2 ^ 64 ->
  stands_for base st ctx h ->
  runs (HMAC_Init_ex ctx key md) h (fun r h' =>
    if r.1 then stands_for base st' r.2 h'
    else no_memory /\ exists md xm xi xo, r.2 = hmac_ctx md xm xi xo /\ owns base [xm; xi; xo] h').
Proof.
  intros cur Est Hk (md0 & xm & xi & xo & -> & Ho & Hst).
  assert (forall d, match md with None => md0 | Some d' => Some d' end = Some d ->
    Some d <> md0 \/ key <> None -> st' = Ready d (default [] key) [] ->
    runs (HMAC_Init_ex (hmac_ctx md0 xm xi xo) key md) h (fun r h' =>
      if r.1 then stands_for base st' r.2 h'
      else no_memory /\ exists md xm xi xo, r.2 = hmac_ctx md xm xi xo /\ owns base [xm; xi; xo] h')) as Hnew.
  { intros d Ed Hd ->. eapply runs_mono; [by eapply init_key_run|].
    intros [ok c] h' (md1 & xm1 & xi1 & xo1 & E & Ho1 & Hi). cbn [fst snd] in *. subst c. destruct ok.
    - exists md1, xm1, xi1, xo1. rewrite app_nil_r. tauto.
    - split; [done|]. by exists md1, xm1, xi1, xo1. }
  destruct cur as [[d0 k0]|] eqn:Ecur; cbn [hmac_start] in Est.
  - assert (md0 = Some d0 /\ keyed d0 k0 xi xo /\ cx_digest (ctx_of xm) = Some d0) as (-> & Hkey & Hd0).
    { destruct st as [|d k m|d k]; [done| |]; injection Ecur as -> ->; [|done].
      destruct Hst as (H1 & H2 & H3). split; [done|]. split; [done|]. by eapply has_digest. }
    destruct (bool_decide_reflect (key = None)) as [->|Hkn], (bool_decide_reflect (default d0 md = d0)) as [Ed|Hdn];
      cbn [andb] in Est; injection Est as <-.
    + eapply runs_mono; [eapply init_rewind_run; [done|exact Hkey|done|destruct md; cbn in Ed; [subst|]; auto]|].
      intros r h' (xm' & -> & Ho' & Hm). exists (Some d0), xm', xi, xo. rewrite app_nil_r. auto.
    + apply (Hnew (default d0 md)); [by destruct md|left; congruence|done].
    + apply (Hnew (default d0 md)); [by destruct md|by right|done].
    + apply (Hnew (default d0 md)); [by destruct md|by right|done].
  - destruct md as [d|]; [|done]. injection Est as <-.
    destruct st; [|done..]. subst md0. apply (Hnew d); [done|by left|done].
Qed.

Lemma hmac_call_run base h st ctx op st' outs :
  hmac_step st op = Some (st', outs) -> op_ok op -> stands_for base st ctx h ->
  runs (hmac_call ctx op) h (fun r h' =>
    match r.1 with
    | Some o => o = outs /\ stands_for base st' r.2 h'
    | None => no_memory /\ exists md xm xi xo, r.2 = hmac_ctx md xm xi xo /\ owns base [xm; xi; xo] h'
    end).
Proof.
  intros Est Hop Hst. destruct op as [key md|x|null|]; cbn [hmac_step hmac_call op_ok] in *.
  - destruct (hmac_start _ key md) as [st2|] eqn:E2; [|done]. injection Est as <- <-.
    apply runs_bind. eapply runs_mono; [by eapply hmac_start_run|].
    intros [ok c] h' Hr. cbn [fst snd] in *. apply runs_ret. by destruct ok.
  - destruct st as [|d k m|d k]; [done| |done]. injection Est as <- <-.
    destruct Hst as (md & xm & xi & xo & -> & Ho & -> & Hkey & Hm).
    apply runs_bind. eapply runs_mono; [by eapply hmac_update_run|].
    intros [] h' (xm' & E & Hm' & Ho'). apply runs_ret. cbn [fst snd]. split; [done|].
    exists (Some d), xm', xi, xo. rewrite app_assoc. unfold hmac_ctx. by rewrite E.
  - destruct st as [|d k m|d k]; [done| |done]. injection Est as <- <-.
    destruct Hst as (md & xm & xi & xo & -> & Ho & -> & Hkey & Hm).
    apply runs_bind. eapply runs_mono; [by eapply hmac_final_run|].
    intros r h' (xm' & -> & E & Ho'). apply runs_ret. cbn. split; [done|].
    by exists (Some d), xm', xi, xo.
  - injection Est as <- <-. destruct Hst as (md & xm & xi & xo & -> & Ho & _).
    apply runs_bind, runs_bind. eapply runs_mono; [by apply hmac_cleanup_run|].
    intros c h' [_ Ho']. apply runs_ret, runs_ret. cbn. split; [done|]. by apply stands_for_fresh.
Qed.

Lemma stands_for_owns base st ctx h :
  stands_for base st ctx h -> exists md xm xi xo, ctx = hmac_ctx md xm xi xo /\ owns base [xm; xi; xo] h.
Proof. intros (md & xm & xi & xo & -> & Ho & _). by exists md, xm, xi, xo. Qed.
Lemma hmac_cleanup_any base ctx h :
  (exists md xm xi xo, ctx = hmac_ctx md xm xi xo /\ owns base [xm; xi; xo] h) ->
  runs (HMAC_CTX_cleanup ctx) h (fun _ h' => owns (D := D) base [] h').
Proof.
  intros (md & xm & xi & xo & -> & Ho). eapply runs_mono; [by apply hmac_cleanup_run|]. by intros c h' [_ Ho'].
Qed.

Lemma hmac_calls_run base h st ctx ops outs :
  hmac_spec st ops = Some outs -> Forall op_ok ops -> stands_for base st ctx h ->
  runs (hmac_calls ctx ops) h (fun r h' =>
    owns (D := D) base [] h' /\ (r = Some outs \/ r = None /\ no_memory)).
Proof.
  intros Hs Hops. revert st ctx h outs Hs. induction Hops as [|op ops Hop Hops IH]; intros st ctx h outs Hs Hst.
  - injection Hs as <-. cbn [hmac_calls]. apply runs_bind.
    eapply runs_mono; [by eapply hmac_cleanup_any, stands_for_owns|]. intros c h' Ho'. apply runs_ret. auto.
  - cbn [hmac_spec] in Hs. destruct (hmac_step st op) as [[st' o]|] eqn:Est; [|done]. cbn [mbind option_bind] in Hs.
    destruct (hmac_spec st' ops) as [outs'|] eqn:Es; [|done]. injection Hs as <-.
    cbn [hmac_calls]. apply runs_bind. eapply runs_mono; [by eapply hmac_call_run|].
    intros [[o'|] c] h' Hr; cbn [fst snd] in Hr.
    + destruct Hr as [-> Hst']. apply runs_bind. eapply runs_mono; [by eapply IH|].
      intros r h2 [Ho2 Hr2]. apply runs_ret. split; [done|].
      destruct Hr2 as [->|[-> Hn]]; [by left|by right].
    + destruct Hr as [Hn Hc]. apply runs_bind. eapply runs_mono; [by apply hmac_cleanup_any|].
      intros c' h2 Ho2. apply runs_ret. auto.
Qed.

(** C12: For any digests that keep the laws of the interface, and any sequence of
    [HMAC_Init_ex], [HMAC_Update], [HMAC_Final] and [HMAC_CTX_reset] on one context that the
    abstract context allows, with keys new and kept and with changes of the digest, every
    [HMAC_Final] gives the HMAC of RFC 2104 of the key and the message at that point; or
    an allocation failed and so did the call.  No call is undefined, and the clean-up leaves
    the blocks that were there before. *)
Theorem hmac_refines (ops : list hmac_op) (outs : list (bytes * Z)) (h : heap St) :
  heap_ok h -> Forall op_ok ops -> hmac_spec Fresh ops = Some outs ->
  exists r h', hmac_calls HMAC_CTX_init ops h = Ret (r, h') /\ heap_ok h' /\ hp_blocks h' = hp_blocks h /\
    (r = Some outs \/ r = None /\ exists n, malloc_ok n = false).
Proof.
  intros Hh Hops Hs.
  destruct (hmac_calls_run (hp_blocks h) h Fresh HMAC_CTX_init ops outs Hs Hops) as (r & h' & E & Ho & Hr).
  { by apply stands_for_fresh, owns_start. }
  apply owns_nil in Ho as [Hk Hb]. exists r, h'. auto.
Qed.
End spec.

(** ** Digests of the library *)

#[local] Existing Instances sample_garbage sample_env.

(** HMAC-SHA-256 with an empty key, in an empty heap. *)
Lemma hmac_correct_witness :
  exists r h', HMAC D_sha256 None [97; 98; 99] true (Heap ∅ 0) = Ret (r, h') /\ hp_blocks h' = ∅ /\
    (r = Some (rfc_hmac D_sha256 [] [97; 98; 99], 32) \/ r = None /\ exists n, malloc_ok n = false).
Proof.
  destruct (hmac_correct D_sha256 None [97; 98; 99] true (Heap ∅ 0)) as (r & h' & E & _ & Hb & Hr).
  - intros a [o Ha]. discriminate Ha.
  - reflexivity.
  - reflexivity.
  - exists r, h'. split; [exact E|]. split; [exact Hb|exact Hr].
Defined.

(** Two messages under one key, then one under another and with another digest. *)
Lemma hmac_refines_witness :
  exists r h', hmac_calls HMAC_CTX_init
      [OInit (Some [1; 2]) (Some D_sha1); OUpdate [3]; OUpdate [4]; OFinal false;
       OInit None None; OUpdate [5]; OFinal true; OInit (Some [6]) (Some D_md5); OFinal false]
      (Heap ∅ 0) = Ret (r, h') /\ hp_blocks h' = ∅ /\
    (r = Some [(rfc_hmac D_sha1 [1; 2] [3; 4], 20); (rfc_hmac D_sha1 [1; 2] [5], 20);
               (rfc_hmac D_md5 [6] [], 16)] \/
     r = None /\ exists n, malloc_ok n = false).
Proof.
  edestruct hmac_refines as (r & h' & E & _ & Hb & Hr); [| | |exists r, h'; split; [exact E|]; split; [exact Hb|exact Hr]].
  - intros a [o Ha]. discriminate Ha.
  - repeat constructor.
  - reflexivity.
Defined.
