(* ===== verification/Kdf.v ===== *)
(** * BoringSSL: HKDF and PBKDF2 (crypto/fipsmodule/hkdf/hkdf.c, crypto/evp/pbkdf.c)

    The code over any digests of the interface of Evp.v.  [out_key] is the array of the
    caller, before and after the call; its length is the length that is asked for. *)
From Stdlib Require Import ZArith Lia.
From stdpp Require Import prelude list numbers gmap.
From S2P Require Import Prelude CMem Cells Words Evp Digests Hmac.
Local Open Scope Z_scope.
Local Open Scope evp_scope.

Section kdf.
Context {D St : Type} `{!Digests D St} `{!EvpEnv St}.
Local Abbreviation H := (hm St).

(** ** HKDF *)

(** What is written to [out_key] and [*out_len], if the function returns 1. *)
Definition HKDF_extract (digest : D) (secret : bytes) (salt : option bytes) : H (option (bytes * Z)) :=
  r <- HMAC digest salt secret false ;;
  match r with
  | None => hret None
  | Some (out_key, len) =>
      hassert (len =? EVP_MD_size (method digest)) ;;
      hret (Some (out_key, len))
  end.

(** [for (i = 0; i < n; i++)], with [fuel] passes to go: [previous], and how much of
    [out_key] is [done]. *)
Fixpoint hkdf_loop (fuel : nat) (i digest_len : Z) (info : bytes) (hmac : HMAC_CTX D)
    (previous out_key : bytes) (done : Z) : H (bool * bytes * HMAC_CTX D) :=
  match fuel with
  | O => hret (true, out_key, hmac)
  | S fuel =>
      let ctr := u8 (i + 1) in
      r <- (if negb (i =? 0) then
              r <- HMAC_Init_ex hmac None None ;;
              let '(ok, hmac) := r in
              if ok : bool then
                p <- hlift (get previous digest_len) ;;
                HMAC_Update hmac p ;; hret (true, hmac)
              else hret (false, hmac)
            else hret (true, hmac)) ;;
      let '(ok, hmac) := r in
      if ok : bool then
        HMAC_Update hmac info ;;
        HMAC_Update hmac [ctr] ;;
        r <- HMAC_Final hmac true ;;
        match r with
        | (None, hmac) => hret (false, out_key, hmac)
        | (Some (previous, _), hmac) =>
            let out_len := Z.of_nat (length out_key) in
            let todo := if u64 (out_len - done) <? digest_len then u64 (out_len - done) else digest_len in
            p <- hlift (get previous todo) ;;
            out_key <- hlift (put out_key done p) ;;
            hkdf_loop fuel (i + 1) digest_len info hmac previous out_key (done + todo)
        end
      else hret (false, out_key, hmac)
  end.

Definition HKDF_expand (out_key : bytes) (digest : D) (prk : option bytes) (info : bytes) :
    H (bool * bytes) :=
  let out_len := Z.of_nat (length out_key) in
  let digest_len := EVP_MD_size (method digest) in
  let n := u64 (u64 (out_len + digest_len) - 1) / digest_len in
  if (u64 (out_len + digest_len) <? out_len) || (255 <? n) then hret (false, out_key)
  else
    r <- HMAC_Init_ex HMAC_CTX_init prk (Some digest) ;;
    let '(ok, hmac) := r in
    r <- (if ok : bool then hkdf_loop (Z.to_nat n) 0 digest_len info hmac [] out_key 0
          else hret (false, out_key, hmac)) ;;
    let '(ret, out_key, hmac) := r in
    HMAC_CTX_cleanup hmac ;;
    hret (ret, out_key).

Definition HKDF (out_key : bytes) (digest : D) (secret : bytes) (salt : option bytes) (info : bytes) :
    H (bool * bytes) :=
  r <- HKDF_extract digest secret salt ;;
  match r with
  | None => hret (false, out_key)
  | Some (prk, prk_len) =>
      prk <- hlift (get prk prk_len) ;;
      HKDF_expand out_key digest (Some prk) info
  end.

(** ** PBKDF2 *)

(** [for (uint32_t j = 1; j < iterations; j++)], with [n] passes to go: [out_key] is the
    block of [todo] bytes at [off] that is in the making. *)
Fixpoint pbkdf2_iterate (n : nat) (hctx : HMAC_CTX D) (md_len : Z) (digest_tmp out_key : bytes)
    (off todo : Z) : H (bool * bytes * HMAC_CTX D) :=
  match n with
  | O => hret (true, out_key, hctx)
  | S n =>
      r <- HMAC_Init_ex hctx None None ;;
      let '(ok, hctx) := r in
      if ok : bool then
        p <- hlift (get digest_tmp md_len) ;;
        HMAC_Update hctx p ;;
        r <- HMAC_Final hctx true ;;
        match r with
        | (None, hctx) => hret (false, out_key, hctx)
        | (Some (digest_tmp, _), hctx) =>
            x <- hlift (get (drop (Z.to_nat off) out_key) todo) ;;
            y <- hlift (get digest_tmp todo) ;;
            out_key <- hlift (put out_key off (zip_with Z.lxor x y)) ;;
            pbkdf2_iterate n hctx md_len digest_tmp out_key off todo
        end
      else hret (false, out_key, hctx)
  end.

(** [while (key_len > 0)]: [key_len] bytes to go from [off] on. *)
Fixpoint pbkdf2_loop (fuel : nat) (hctx : HMAC_CTX D) (md_len : Z) (salt : bytes) (iterations i : Z)
    (out_key : bytes) (off key_len : Z) : H (bool * bytes * HMAC_CTX D) :=
  if 0 <? key_len then
    match fuel with
    | O => hlift OutOfFuel
    | S fuel =>
        let todo := if key_len <? md_len then key_len else md_len in
        let i_buf := [u8 (Z.land (Z.shiftr i 24) 0xff); u8 (Z.land (Z.shiftr i 16) 0xff);
                      u8 (Z.land (Z.shiftr i 8) 0xff); u8 (Z.land i 0xff)] in
        r <- HMAC_Init_ex hctx None None ;;
        let '(ok, hctx) := r in
        if ok : bool then
          HMAC_Update hctx salt ;;
          HMAC_Update hctx i_buf ;;
          r <- HMAC_Final hctx true ;;
          match r with
          | (None, hctx) => hret (false, out_key, hctx)
          | (Some (digest_tmp, _), hctx) =>
              p <- hlift (get digest_tmp todo) ;;
              out_key <- hlift (put out_key off p) ;;
              r <- pbkdf2_iterate (Z.to_nat (iterations - 1)) hctx md_len digest_tmp out_key off todo ;;
              let '(ok, out_key, hctx) := r in
              if ok : bool then
                pbkdf2_loop fuel hctx md_len salt iterations (u32 (i + 1)) out_key (off + todo) (key_len - todo)
              else hret (false, out_key, hctx)
          end
        else hret (false, out_key, hctx)
    end
  else hret (true, out_key, hctx).

Definition PKCS5_PBKDF2_HMAC (password : option bytes) (salt : bytes) (iterations : Z) (digest : D)
    (out_key : bytes) : H (bool * bytes) :=
  let key_len := Z.of_nat (length out_key) in
  let md_len := EVP_MD_size (method digest) in
  r <- HMAC_Init_ex HMAC_CTX_init password (Some digest) ;;
  let '(ok, hctx) := r in
  r <- (if ok : bool then
          r <- pbkdf2_loop (length out_key) hctx md_len salt iterations 1 out_key 0 key_len ;;
          let '(ok, out_key, hctx) := r in
          hret (ok && negb (iterations =? 0), out_key, hctx)
        else hret (false, out_key, hctx)) ;;
  let '(ret, out_key, hctx) := r in
  HMAC_CTX_cleanup hctx ;;
  hret (ret, out_key).
End kdf.

Definition PKCS5_PBKDF2_HMAC_SHA1 `{Garbage} `{EvpEnv md_state} (password : option bytes) (salt : bytes)
    (iterations : Z) (out_key : bytes) : hm md_state (bool * bytes) :=
  PKCS5_PBKDF2_HMAC password salt iterations D_sha1 out_key.
