(* ===== verification/KdfSpec.v ===== *)
(** * HKDF is RFC 5869, PBKDF2 is RFC 8018

    The functions of the two documents over the HMAC of RFC 2104, and that the C code
    computes them into the array of the caller: refusing what HKDF cannot give, and
    with the answer of PBKDF2 to a count of zero. *)
From Stdlib Require Import ZArith Lia.
From stdpp Require Import prelude list numbers gmap.
From S2P Require Import Prelude CMem Cells Der DerInt Words Evp EvpSpec Digests Hmac HmacSpec Kdf.
Local Open Scope Z_scope.
Local Open Scope evp_scope.

(** ** Arrays that are filled from the front *)

(** The array [old] with the stream [P] written to it, as far as it goes. *)
Definition fill (P old : bytes) : bytes :=
  take (length old) P ++ drop (length P) old.

Lemma length_fill P old : length (fill P old) = length old.
Proof. unfold fill. rewrite length_app, length_take, length_drop. lia. Qed.
Lemma fill_nil old : fill [] old = old.
Proof. unfold fill. by rewrite take_nil. Qed.
Lemma fill_all P old : (length old <= length P)%nat -> fill P old = take (length old) P.
Proof. intros H. unfold fill. by rewrite drop_ge, app_nil_r by lia. Qed.
(** As much of [T] as there is room for goes behind [P]. *)
Lemma fill_put P T old :
  (length P <= length old)%nat ->
  put (fill P old) (Z.of_nat (length P)) (take (length old - length P) T) = Ret (fill (P ++ T) old).
Proof.
  intros HP. unfold fill. rewrite take_ge by lia.
  rewrite put_app by (rewrite length_take, length_drop; lia). f_equal.
  rewrite take_app, (take_ge P), <- app_assoc by lia. do 2 f_equal.
  rewrite length_take, drop_drop, length_app.
  destruct (decide (length T <= length old - length P)%nat).
  - f_equal. lia.
  - rewrite !drop_ge by lia. done.
Qed.

(** A part that is written already is replaced. *)
Lemma fill_over P A T old :
  (length P <= length old)%nat -> length A = length T ->
  put (fill (P ++ A) old) (Z.of_nat (length P)) (take (length old - length P) T) = Ret (fill (P ++ T) old).
Proof.
  intros HP HA. unfold fill. rewrite !take_app, (take_ge P), <- !app_assoc by lia.
  rewrite put_app by (rewrite length_app, !length_take, length_drop, length_app; lia). do 3 f_equal.
  rewrite drop_app_length' by (rewrite !length_take; lia). by rewrite !length_app, HA.
Qed.
Lemma fill_part P A old :
  (length P <= length old)%nat ->
  take (length old - length P) A = take (Nat.min (length A) (length old - length P)) (drop (length P) (fill (P ++ A) old)).
Proof.
  intros HP. unfold fill. rewrite take_app, (take_ge P), <- app_assoc by lia. rewrite drop_app_length.
  rewrite take_app_length'; [done|]. rewrite length_take. lia.
Qed.

Lemma take_min (l : bytes) m n : m = Nat.min (length l) n -> take m l = take n l.
Proof.
  intros ->. destruct (Nat.min_spec (length l) n) as [[? ->]|[? ->]]; [|done]. by rewrite !take_ge by lia.
Qed.

Section spec.
Context {D St : Type} `{!Digests D St} `{!DigestLaws D St} `{!EvpEnv St}.

Lemma length_rfc_hmac d key m : Z.of_nat (length (rfc_hmac d key m)) = evp_md_size (method d).
Proof. apply hash_length. Qed.

(** A context between two codes under one key: its own part is not in use, and can start
    over. *)
Definition rest_state (base : gmap Z (option St)) (d : D) (key : bytes) (ctx : HMAC_CTX D) (h : heap St) : Prop :=
  exists xm xi xo, ctx = hmac_ctx (Some d) xm xi xo /\ owns base [xm; xi; xo] h /\ keyed d key xi xo /\
    cx_digest (ctx_of xm) = Some d.
(** A context that has absorbed [m]. *)
Definition busy_state (base : gmap Z (option St)) (d : D) (key m : bytes) (ctx : HMAC_CTX D) (h : heap St) : Prop :=
  stands_for base (Ready d key m) ctx h.

Lemma busy_rest base d key m ctx h : busy_state base d key m ctx h -> rest_state base d key ctx h.
Proof.
  intros (md & xm & xi & xo & -> & Ho & -> & Hk & Hm). exists xm, xi, xo. split_and!; auto.
  by eapply has_digest.
Qed.
Lemma rest_owns base d key ctx h :
  rest_state base d key ctx h -> exists md xm xi xo, ctx = hmac_ctx md xm xi xo /\ owns base [xm; xi; xo] h.
Proof. intros (xm & xi & xo & -> & Ho & _). by exists (Some d), xm, xi, xo. Qed.

Lemma rewind_run base d key ctx h :
  rest_state base d key ctx h ->
  runs (HMAC_Init_ex ctx None None) h (fun r h' => r.1 = true /\ busy_state base d key [] r.2 h').
Proof.
  intros (xm & xi & xo & -> & Ho & Hk & Hd). eapply runs_mono; [eapply init_rewind_run; eauto|].
  intros r h' (xm' & -> & Ho' & Hm). split; [done|]. exists (Some d), xm', xi, xo. rewrite app_nil_r. auto.
Qed.
Lemma absorb_run base d key m x ctx h :
  busy_state base d key m ctx h -> Z.of_nat (length x) < 2 ^ 64 ->
  runs (HMAC_Update ctx x) h (fun _ h' => busy_state base d key (m ++ x) ctx h').
Proof.
  intros (md & xm & xi & xo & -> & Ho & -> & Hk & Hm) Hx. eapply runs_mono; [by eapply hmac_update_run|].
  intros [] h' (xm' & E & Hm' & Ho'). exists (Some d), xm', xi, xo.
  unfold hmac_ctx. by rewrite E, app_assoc.
Qed.
Lemma code_run base d key m null ctx h :
  busy_state base d key m ctx h ->
  runs (HMAC_Final ctx null) h (fun r h' =>
    r.1 = Some (rfc_hmac d key m, evp_md_size (method d)) /\ rest_state base d key r.2 h').
Proof.
  intros (md & xm & xi & xo & -> & Ho & -> & Hk & Hm). eapply runs_mono; [by eapply hmac_final_run|].
  intros r h' (xm' & -> & E & Ho'). split; [done|]. by exists xm', xi, xo.
Qed.
(** A context for a key; or no memory. *)
Lemma new_key_run h d key :
  heap_ok h -> Z.of_nat (length (default [] key)) < 2 ^ 64 ->
  runs (HMAC_Init_ex HMAC_CTX_init key (Some d)) h (fun r h' =>
    if r.1 then busy_state (hp_blocks h) d (default [] key) [] r.2 h'
    else no_memory /\ exists md xm xi xo, r.2 = hmac_ctx md xm xi xo /\ owns (hp_blocks h) [xm; xi; xo] h').
Proof.
  intros Hh Hk. eapply (hmac_start_run _ _ Fresh); [reflexivity|done|].
  by apply stands_for_fresh, owns_start.
Qed.

(** ** RFC 5869 *)

(** T(0) is empty, and T(i) the HMAC of T(i-1), the info and the byte i. *)
Fixpoint rfc_T (d : D) (prk info : bytes) (i : nat) : bytes :=
  match i with
  | O => []
  | S j => rfc_hmac d prk (rfc_T d prk info j ++ info ++ [Z.of_nat i])
  end.
Definition rfc_T_stream (d : D) (prk info : bytes) (n : nat) : bytes :=
  concat (rfc_T d prk info <$> seq 1 n).
(** The number of T(i) for [L] bytes, rounded up. *)
Definition rfc_N (d : D) (L : Z) : Z :=
  let HashLen := evp_md_size (method d) in L / HashLen + (if L mod HashLen =? 0 then 0 else 1).
Definition rfc_hkdf_expand (d : D) (prk info : bytes) (L : nat) : bytes :=
  take L (rfc_T_stream d prk info (Z.to_nat (rfc_N d (Z.of_nat L)))).
Definition rfc_hkdf_extract (d : D) (salt ikm : bytes) : bytes := rfc_hmac d salt ikm.

Lemma length_rfc_T d prk info i : (0 < i)%nat -> Z.of_nat (length (rfc_T d prk info i)) = evp_md_size (method d).
Proof. destruct i; [lia|]. intros _. apply length_rfc_hmac. Qed.
Lemma T_stream_S d prk info n :
  rfc_T_stream d prk info (S n) = rfc_T_stream d prk info n ++ rfc_T d prk info (S n).
Proof. unfold rfc_T_stream. rewrite seq_S, fmap_app, concat_app. cbn. by rewrite app_nil_r. Qed.
Lemma length_T_stream d prk info n :
  Z.of_nat (length (rfc_T_stream d prk info n)) = Z.of_nat n * evp_md_size (method d).
Proof.
  induction n as [|n IH]; [done|]. rewrite T_stream_S, length_app, Nat2Z.inj_add, IH, length_rfc_T by lia. lia.
Qed.

(** The code's way to round up. *)
Lemma rounded_up d L :
  0 <= L -> (L + evp_md_size (method d) - 1) / evp_md_size (method d) = rfc_N d L.
Proof.
  intros HL. unfold rfc_N. cbv zeta. destruct (digest_sizes d) as ((Hs & _) & _ & _).
  set (s := evp_md_size (method d)) in *. pose proof (Z.div_mod L s ltac:(lia)) as E.
  pose proof (Z.mod_pos_bound L s ltac:(lia)) as Hb.
  destruct (Z.eqb_spec (L mod s) 0) as [E0|E0].
  - replace (L + s - 1) with (s - 1 + (L / s) * s) by lia. rewrite Z.div_add, Z.div_small by lia. lia.
  - replace (L + s - 1) with (L mod s - 1 + (L / s + 1) * s) by lia. rewrite Z.div_add, Z.div_small by lia. lia.
Qed.
Lemma N_covers d L : 0 <= L -> L <= rfc_N d L * evp_md_size (method d) < L + evp_md_size (method d).
Proof.
  intros HL. rewrite <- rounded_up by done. destruct (digest_sizes d) as ((Hs & _) & _ & _).
  set (s := evp_md_size (method d)) in *.
  pose proof (Z.div_mod (L + s - 1) s ltac:(lia)). pose proof (Z.mod_pos_bound (L + s - 1) s ltac:(lia)). lia.
Qed.

(** Before pass [i]. *)
Definition at_pass (base : gmap Z (option St)) (d : D) (prk info : bytes) (i : nat) (ctx : HMAC_CTX D)
    (previous : bytes) (h : heap St) : Prop :=
  match i with
  | O => busy_state base d prk [] ctx h
  | _ => rest_state base d prk ctx h /\ previous = rfc_T d prk info i
  end.
Lemma at_pass_rest base d prk info i ctx previous h :
  at_pass base d prk info i ctx previous h -> rest_state base d prk ctx h.
Proof. destruct i; [apply busy_rest|by intros [H _]]. Qed.

(** The start of a pass: T(i) is in. *)
Lemma pass_start base d prk info i ctx previous h :
  at_pass base d prk info i ctx previous h ->
  runs (if negb (Z.of_nat i =? 0) then
          r <- HMAC_Init_ex ctx None None ;;
          let '(ok, hmac) := r in
          if ok : bool then
            p <- hlift (get previous (evp_md_size (method d))) ;;
            HMAC_Update hmac p ;; hret (true, hmac)
          else hret (false, hmac)
        else hret (true, ctx)) h
    (fun r h' => r.1 = true /\ busy_state base d prk (rfc_T d prk info i) r.2 h').
Proof.
  destruct i as [|i]; intros Hp; cbn [Z.of_nat Z.eqb negb].
  - by apply runs_ret.
  - destruct Hp as [Hr ->]. destruct (digest_sizes d) as ((Hs & Hs2) & _ & _). unfold EVP_MAX_MD_SIZE in Hs2.
    pose proof (length_rfc_T d prk info (S i) ltac:(lia)) as Hl.
    apply runs_bind. eapply runs_mono; [by apply rewind_run|].
    intros [ok c] h1 [Eok Hb]. cbn [fst snd] in *. subst ok.
    apply runs_bind. eapply runs_lift; [apply get_run; lia|]. rewrite take_ge by lia.
    apply runs_bind. eapply runs_mono; [eapply absorb_run; [exact Hb|lia]|].
    intros [] h2 Hb2. by apply runs_ret.
Qed.

Lemma hkdf_loop_run base d prk info fuel i ctx previous old done h :
  (i + fuel <= 255)%nat -> Z.of_nat (length info) < 2 ^ 64 -> Z.of_nat (length old) < 2 ^ 64 ->
  ((0 < fuel)%nat -> done = Z.of_nat i * evp_md_size (method d) /\
     (Z.of_nat (i + fuel) - 1) * evp_md_size (method d) < Z.of_nat (length old)) ->
  at_pass base d prk info i ctx previous h ->
  runs (hkdf_loop fuel (Z.of_nat i) (evp_md_size (method d)) info ctx previous
          (fill (rfc_T_stream d prk info i) old) done) h
    (fun r h' => r.1 = (true, fill (rfc_T_stream d prk info (i + fuel)) old) /\ rest_state base d prk r.2 h').
Proof.
  intros Hn Hinfo Hold. destruct (digest_sizes d) as ((Hs & Hs2) & _ & _). unfold EVP_MAX_MD_SIZE in Hs2.
  set (s := evp_md_size (method d)) in *.
  revert i ctx previous done h Hn. induction fuel as [|fuel IH]; intros i ctx previous done h Hn Hd Hp.
  { apply runs_ret. rewrite Nat.add_0_r. split; [done|]. by eapply at_pass_rest. }
  destruct Hd as [-> Hroom]; [lia|]. cbn [hkdf_loop]. cbv zeta.
  pose proof (length_T_stream d prk info i) as Hls. fold s in Hls.
  apply runs_bind. eapply runs_mono; [by eapply pass_start|].
  intros [ok c1] h1 [Eok Hb1]. cbn [fst snd] in *. subst ok.
  apply runs_bind. eapply runs_mono; [by eapply absorb_run|]. intros [] h2 Hb2.
  apply runs_bind. eapply runs_mono; [eapply absorb_run; [exact Hb2|cbn; lia]|]. intros [] h3 Hb3.
  assert (u8 (Z.of_nat i + 1) = Z.of_nat (S i)) as E8 by (unfold u8; rewrite wrap_small by lia; lia).
  rewrite E8, <- app_assoc in Hb3.
  apply runs_bind. eapply runs_mono; [by eapply code_run|].
  intros [o c4] h4 [Eo Hr4]. cbn [fst snd] in *. subst o.
  change (rfc_hmac d prk (rfc_T d prk info i ++ info ++ [Z.of_nat (S i)])) with (rfc_T d prk info (S i)).
  pose proof (length_rfc_T d prk info (S i) ltac:(lia)) as HlT. fold s in HlT.
  rewrite length_fill. assert (Z.of_nat i * s < Z.of_nat (length old)) as Hi by nia.
  unfold u64. rewrite wrap_small by lia.
  set (todo := if Z.of_nat (length old) - Z.of_nat i * s <? s then Z.of_nat (length old) - Z.of_nat i * s else s).
  assert (take (Z.to_nat todo) (rfc_T d prk info (S i)) =
          take (length old - length (rfc_T_stream d prk info i)) (rfc_T d prk info (S i))) as Etk.
  { unfold todo. destruct (Z.ltb_spec (Z.of_nat (length old) - Z.of_nat i * s) s).
    - f_equal. lia.
    - rewrite !take_ge by lia. done. }
  apply runs_bind. eapply runs_lift; [apply get_run; unfold todo; destruct (Z.ltb_spec (Z.of_nat (length old) - Z.of_nat i * s) s); lia|].
  rewrite Etk, <- Hls. apply runs_bind. eapply runs_lift; [apply fill_put; lia|].
  rewrite <- T_stream_S, Hls. replace (Z.of_nat i + 1) with (Z.of_nat (S i)) by lia.
  rewrite <- Nat.add_succ_comm. apply IH; [lia| |by split].
  intros Hf. split; [|by rewrite Nat.add_succ_comm].
  unfold todo. destruct (Z.ltb_spec (Z.of_nat (length old) - Z.of_nat i * s) s); [nia|lia].
Qed.

(** The test of the code, with its sums that may wrap around. *)
Lemma hkdf_size_test d L :
  0 <= L < 2 ^ 64 ->
  let s := evp_md_size (method d) in
  let n := u64 (u64 (L + s) - 1) / s in
  (u64 (L + s) <? L) || (255 <? n) = (255 <? rfc_N d L) /\ (rfc_N d L <= 255 -> n = rfc_N d L).
Proof.
  intros HL s n. destruct (digest_sizes d) as ((Hs & Hs2) & _ & _). unfold EVP_MAX_MD_SIZE in Hs2.
  pose proof (N_covers d L ltac:(lia)) as HN. fold s in Hs, Hs2, HN.
  destruct (Z.le_gt_cases (2 ^ 64) (L + s)) as [Hw|Hw].
  - assert (u64 (L + s) = L + s - 2 ^ 64) as Eu.
    { unfold u64, wrap. replace (L + s) with (L + s - 2 ^ 64 + 1 * 2 ^ 64) at 1 by lia.
      rewrite Z.mod_add, Z.mod_small by lia. done. }
    rewrite Eu, (proj2 (Z.ltb_lt _ _)) by lia. cbn [orb]. split; [|nia].
    symmetry. apply Z.ltb_lt. nia.
  - assert (u64 (L + s) = L + s) as Eu by (unfold u64; apply wrap_small; lia).
    assert (n = rfc_N d L) as En.
    { unfold n. rewrite Eu. unfold u64. rewrite wrap_small by lia. apply rounded_up. lia. }
    rewrite Eu, En, (proj2 (Z.ltb_ge _ _)) by lia. done.
Qed.

(** What follows the test. *)
Lemma hkdf_body_run d prk info out_key h :
  heap_ok h -> Z.of_nat (length (default [] prk)) < 2 ^ 64 -> Z.of_nat (length info) < 2 ^ 64 ->
  Z.of_nat (length out_key) < 2 ^ 64 -> rfc_N d (Z.of_nat (length out_key)) <= 255 ->
  runs (r <- HMAC_Init_ex HMAC_CTX_init prk (Some d) ;;
    let '(ok, hmac) := r in
    r <- (if ok : bool then
            hkdf_loop (Z.to_nat (rfc_N d (Z.of_nat (length out_key)))) 0 (evp_md_size (method d)) info hmac
              [] out_key 0
          else hret (false, out_key, hmac)) ;;
    let '(ret, out_key, hmac) := r in HMAC_CTX_cleanup hmac ;; hret (ret, out_key)) h
    (fun r h' => owns (D := D) (hp_blocks h) [] h' /\
       (r = (true, rfc_hkdf_expand d (default [] prk) info (length out_key)) \/
        r = (false, out_key) /\ no_memory)).
Proof.
  intros Hh Hk Hinfo Hout Hfit. set (L := Z.of_nat (length out_key)) in *.
  pose proof (N_covers d L ltac:(lia)) as HN. destruct (digest_sizes d) as ((Hs & _) & _ & _).
  apply runs_bind. eapply runs_mono; [by apply new_key_run|].
  intros [ok c] h1 H1. cbn [fst snd] in H1. apply runs_bind. destruct ok.
  - eapply runs_mono.
    { pose proof (hkdf_loop_run (hp_blocks h) d (default [] prk) info (Z.to_nat (rfc_N d L)) 0 c [] out_key 0 h1)
        as Hloop. change (rfc_T_stream d (default [] prk) info 0) with ([] : bytes) in Hloop.
      rewrite fill_nil in Hloop. apply Hloop; [lia|done|done|intros; split; [lia|]|exact H1].
      fold L. nia. }
    intros [[ret out] hm] h2 [Er Hr2]. cbn [fst snd] in *. injection Er as -> ->.
    apply runs_bind. eapply runs_mono; [by eapply hmac_cleanup_any, rest_owns|].
    intros c2 h3 Ho3. apply runs_ret. split; [done|]. left. unfold rfc_hkdf_expand. fold L.
    rewrite fill_all; [done|]. pose proof (length_T_stream d (default [] prk) info (Z.to_nat (rfc_N d L))). nia.
  - destruct H1 as [Hn Hc]. apply runs_ret, runs_bind. eapply runs_mono; [by apply hmac_cleanup_any|].
    intros c2 h3 Ho3. apply runs_ret. auto.
Qed.

Lemma hkdf_expand_run d prk info out_key h :
  heap_ok h -> Z.of_nat (length (default [] prk)) < 2 ^ 64 -> Z.of_nat (length info) < 2 ^ 64 ->
  Z.of_nat (length out_key) < 2 ^ 64 ->
  runs (HKDF_expand out_key d prk info) h (fun r h' =>
    owns (D := D) (hp_blocks h) [] h' /\
    if 255 <? rfc_N d (Z.of_nat (length out_key)) then r = (false, out_key)
    else r = (true, rfc_hkdf_expand d (default [] prk) info (length out_key)) \/
         r = (false, out_key) /\ no_memory).
Proof.
  intros Hh Hk Hinfo Hout. unfold HKDF_expand, EVP_MD_size. cbv zeta.
  destruct (hkdf_size_test d (Z.of_nat (length out_key)) ltac:(lia)) as [-> En].
  destruct (Z.ltb_spec 255 (rfc_N d (Z.of_nat (length out_key)))) as [Hbig|Hfit].
  - apply runs_ret. split; [by apply owns_start|done].
  - rewrite En by done. by apply hkdf_body_run.
Qed.

(** C15: HKDF into the array of the caller, for any digest, salt, secret, info and array: an
    array for which more than 255 codes are needed is refused and left alone; otherwise the
    array has the output of RFC 5869 of its length afterwards and the function returns 1, or
    it is as before and the function returns 0 because an allocation failed.  It never has
    undefined behaviour, although [HMAC_Final] is given NULL for the length, and frees what
    it allocates. *)
Theorem hkdf_correct (d : D) (salt : option bytes) (secret info out_key : bytes) (h : heap St) :
  heap_ok h -> Z.of_nat (length (default [] salt)) < 2 ^ 64 -> Z.of_nat (length secret) < 2 ^ 64 ->
  Z.of_nat (length info) < 2 ^ 64 -> Z.of_nat (length out_key) < 2 ^ 64 ->
  exists r h', HKDF out_key d secret salt info h = Ret (r, h') /\ heap_ok h' /\ hp_blocks h' = hp_blocks h /\
    ((if 255 <? rfc_N d (Z.of_nat (length out_key)) then r = (false, out_key)
      else r = (true, rfc_hkdf_expand d (rfc_hkdf_extract d (default [] salt) secret) info (length out_key))) \/
     r = (false, out_key) /\ exists n, malloc_ok n = false).
Proof.
  intros Hh Hsalt Hsec Hinfo Hout.
  destruct (hmac_run d salt secret false h Hh Hsalt Hsec) as (r1 & h1 & E1 & Ho1 & Hr1).
  apply owns_nil in Ho1 as [Hh1 Hb1].
  unfold HKDF, HKDF_extract, hbind. rewrite E1. destruct Hr1 as [->|[-> Hn]].
  - unfold hassert, EVP_MD_size. rewrite Z.eqb_refl. cbn [c_assert hlift hret].
    pose proof (length_rfc_hmac d (default [] salt) secret) as Hl.
    destruct (digest_sizes d) as ((Hs & Hs2) & _ & _). unfold EVP_MAX_MD_SIZE in Hs2.
    rewrite get_run by lia. rewrite take_ge by lia. cbn [hlift].
    destruct (hkdf_expand_run d (Some (rfc_hmac d (default [] salt) secret)) info out_key h1)
      as (r & h' & E & Ho & Hr); [done|cbn [from_option id]; lia|done|done|].
    apply owns_nil in Ho as [Hk' Hb]. exists r, h'. rewrite Hb, Hb1.
    split; [exact E|]. split; [done|]. split; [done|]. destruct (255 <? _); [by left|exact Hr].
  - cbn [hret]. do 2 eexists. split; [done|]. auto.
Qed.

(** ** RFC 8018, section 5.2 *)

(** U_(j+1): the first from the salt and the number of the block, the others from the one
    before. *)
Fixpoint rfc_U (d : D) (P S : bytes) (i j : nat) : bytes :=
  match j with
  | O => rfc_hmac d P (S ++ be_bytes 4 (Z.of_nat i))
  | Datatypes.S j => rfc_hmac d P (rfc_U d P S i j)
  end.
(** The exclusive or of [c] of them, and at least of one. *)
Definition rfc_F (d : D) (P S : bytes) (c i : nat) : bytes :=
  foldl (fun a j => zip_with Z.lxor a (rfc_U d P S i j)) (rfc_U d P S i 0) (seq 1 (c - 1)).
Definition rfc_F_stream (d : D) (P S : bytes) (c n : nat) : bytes := concat (rfc_F d P S c <$> seq 1 n).
Definition rfc_pbkdf2 (d : D) (P S : bytes) (c dkLen : nat) : bytes :=
  take dkLen (rfc_F_stream d P S c (Z.to_nat (rfc_N d (Z.of_nat dkLen)))).

Lemma length_rfc_U d P S i j : Z.of_nat (length (rfc_U d P S i j)) = evp_md_size (method d).
Proof. destruct j; apply length_rfc_hmac. Qed.
Lemma length_xors d P S i a js :
  Z.of_nat (length a) = evp_md_size (method d) ->
  Z.of_nat (length (foldl (fun a j => zip_with Z.lxor a (rfc_U d P S i j)) a js)) = evp_md_size (method d).
Proof.
  revert a. induction js as [|j js IH]; intros a Ha; [done|]. cbn [foldl]. apply IH.
  rewrite length_zip_with. pose proof (length_rfc_U d P S i j). lia.
Qed.
Lemma length_rfc_F d P S c i : Z.of_nat (length (rfc_F d P S c i)) = evp_md_size (method d).
Proof. apply length_xors, length_rfc_U. Qed.
Lemma F_stream_S d P S c n :
  rfc_F_stream d P S c (Datatypes.S n) = rfc_F_stream d P S c n ++ rfc_F d P S c (Datatypes.S n).
Proof. unfold rfc_F_stream. rewrite seq_S, fmap_app, concat_app. cbn. by rewrite app_nil_r. Qed.
Lemma length_F_stream d P S c n :
  Z.of_nat (length (rfc_F_stream d P S c n)) = Z.of_nat n * evp_md_size (method d).
Proof.
  induction n as [|n IH]; [done|]. rewrite F_stream_S, length_app, Nat2Z.inj_add, IH, length_rfc_F. lia.
Qed.

(** One code of a message under the key. *)
Lemma one_code_run base d key x y ctx h :
  rest_state base d key ctx h -> Z.of_nat (length x) < 2 ^ 64 -> Z.of_nat (length y) < 2 ^ 64 ->
  runs (HMAC_Init_ex ctx None None) h (fun r h1 => r.1 = true /\
    runs (HMAC_Update r.2 x) h1 (fun _ h2 =>
      runs (HMAC_Final r.2 true) h2 (fun r' h3 =>
        r'.1 = Some (rfc_hmac d key x, evp_md_size (method d)) /\ rest_state base d key r'.2 h3) /\
      runs (HMAC_Update r.2 y) h2 (fun _ h3 => runs (HMAC_Final r.2 true) h3 (fun r' h4 =>
        r'.1 = Some (rfc_hmac d key (x ++ y), evp_md_size (method d)) /\ rest_state base d key r'.2 h4)))).
Proof.
  intros Hr Hx Hy. eapply runs_mono; [by apply rewind_run|]. intros r h1 [Eok Hb]. split; [done|].
  eapply runs_mono; [by eapply absorb_run|]. intros [] h2 Hb2. cbn [app] in Hb2. split; [by apply code_run|].
  eapply runs_mono; [by eapply absorb_run|]. intros [] h3 Hb3. by apply code_run.
Qed.

Lemma pbkdf2_iterate_run base d key S i pre n j acc ctx old h todo :
  rest_state base d key ctx h -> (length pre <= length old)%nat ->
  todo = Z.of_nat (Nat.min (Z.to_nat (evp_md_size (method d))) (length old - length pre)) ->
  Z.of_nat (length acc) = evp_md_size (method d) ->
  runs (pbkdf2_iterate n ctx (evp_md_size (method d)) (rfc_U d key S i j) (fill (pre ++ acc) old)
          (Z.of_nat (length pre)) todo) h (fun r h' =>
    r.1 = (true, fill (pre ++ foldl (fun a j => zip_with Z.lxor a (rfc_U d key S i j)) acc
                                (seq (Datatypes.S j) n)) old) /\
    rest_state base d key r.2 h').
Proof.
  intros Hr Hpre ->. revert j acc ctx h Hr. induction n as [|n IH]; intros j acc ctx h Hr Hacc.
  { apply runs_ret. done. }
  destruct (digest_sizes d) as ((Hs & Hs2) & _ & _). unfold EVP_MAX_MD_SIZE in Hs2.
  pose proof (length_rfc_U d key S i j) as Hlu. pose proof (length_rfc_U d key S i (Datatypes.S j)) as Hlu'.
  cbn [pbkdf2_iterate seq foldl].
  apply runs_bind. eapply runs_mono; [eapply (one_code_run _ _ _ (rfc_U d key S i j) []); [done|lia|done]|].
  intros [ok c1] h1 [Eok H1]. cbn [fst snd] in *. subst ok.
  apply runs_bind. eapply runs_lift; [apply get_run; lia|]. rewrite take_ge by lia.
  apply runs_bind. eapply runs_mono; [exact H1|]. intros [] h2 [H2 _].
  apply runs_bind. eapply runs_mono; [exact H2|]. intros [o c3] h3 [Eo Hr3]. cbn [fst snd] in *. subst o.
  change (rfc_hmac d key (rfc_U d key S i j)) with (rfc_U d key S i (Datatypes.S j)).
  assert (length acc = Z.to_nat (evp_md_size (method d))) as Hla by lia.
  set (m := Nat.min (Z.to_nat (evp_md_size (method d))) (length old - length pre)).
  pose proof (fill_part pre acc old Hpre) as Epart. rewrite Hla in Epart. fold m in Epart.
  apply runs_bind. eapply runs_lift.
  { apply get_run. rewrite length_drop, length_fill, Nat2Z.id. lia. }
  rewrite !Nat2Z.id, <- Epart. apply runs_bind. eapply runs_lift; [apply get_run; lia|].
  rewrite Nat2Z.id.
  assert (zip_with Z.lxor (take (length old - length pre) acc) (take m (rfc_U d key S i (Datatypes.S j))) =
    take (length old - length pre) (zip_with Z.lxor acc (rfc_U d key S i (Datatypes.S j)))) as ->.
  { rewrite zip_with_take. f_equal. apply take_min. lia. }
  apply runs_bind. eapply runs_lift; [apply fill_over; [done|]|].
  { rewrite length_zip_with. lia. }
  apply IH; [done|]. rewrite length_zip_with. lia.
Qed.

(** The number of a block in the four bytes of [i_buf]. *)
Lemma i_buf_bytes i :
  let v := u32 i in
  [u8 (Z.land (Z.shiftr v 24) 0xff); u8 (Z.land (Z.shiftr v 16) 0xff);
   u8 (Z.land (Z.shiftr v 8) 0xff); u8 (Z.land v 0xff)] = be_bytes 4 i.
Proof.
  intros v. assert (forall k, 0 <= k -> u8 (Z.land (Z.shiftr v k) 0xff) = v / 2 ^ k mod 256) as E.
  { intros k Hk. rewrite Z.shiftr_div_pow2 by done. change 0xff with (2 ^ 8 - 1). rewrite land_mask by lia.
    unfold u8, wrap. by rewrite Z.mod_mod by lia. }
  rewrite !E by lia. replace (Z.land v 0xff) with (Z.land (Z.shiftr v 0) 0xff) by (by rewrite Z.shiftr_0_r).
  rewrite E by lia. unfold v, u32, wrap. cbn [be_bytes].
  change (256 ^ Z.of_nat 3) with 16777216. change (256 ^ Z.of_nat 2) with 65536.
  change (256 ^ Z.of_nat 1) with 256. change (256 ^ Z.of_nat 0) with 1.
  change (2 ^ 24) with 16777216. change (2 ^ 16) with 65536. change (2 ^ 8) with 256. change (2 ^ 0) with 1.
  change (2 ^ 32) with 4294967296.
  repeat apply (f_equal2 cons); try reflexivity; Z.div_mod_to_equations; lia.
Qed.
Lemma u32_add_one i : u32 (u32 i + 1) = u32 (i + 1).
Proof. unfold u32, wrap. by rewrite Z.add_mod_idemp_l by lia. Qed.

Lemma pbkdf2_loop_run base d key S c fuel i ctx off key_len old h :
  let N := rfc_N d (Z.of_nat (length old)) in
  rest_state base d key ctx h -> Z.of_nat (length S) < 2 ^ 64 -> Z.of_nat i <= N ->
  off = Z.min (Z.of_nat i * evp_md_size (method d)) (Z.of_nat (length old)) ->
  key_len = Z.of_nat (length old) - off -> key_len <= Z.of_nat fuel ->
  runs (pbkdf2_loop fuel ctx (evp_md_size (method d)) S c (u32 (Z.of_nat (Datatypes.S i)))
          (fill (rfc_F_stream d key S (Z.to_nat c) i) old) off key_len) h (fun r h' =>
    r.1 = (true, fill (rfc_F_stream d key S (Z.to_nat c) (Z.to_nat N)) old) /\ rest_state base d key r.2 h').
Proof.
  intros N Hr HS. destruct (digest_sizes d) as ((Hs & Hs2) & _ & _). unfold EVP_MAX_MD_SIZE in Hs2.
  pose proof (N_covers d (Z.of_nat (length old)) ltac:(lia)) as HN. fold N in HN.
  set (s := evp_md_size (method d)) in *.
  assert (forall k, Z.of_nat k <= N -> Z.of_nat (length old) <= Z.of_nat k * s -> Z.of_nat k = N) as Hend
    by (intros k H1 H2; assert ((N - Z.of_nat k) * s < s) by lia; nia).
  revert i ctx off key_len h Hr. induction fuel as [|fuel IH]; intros i ctx off key_len h Hr Hi Hoff Hkl Hf;
    cbn [pbkdf2_loop]; destruct (Z.ltb_spec 0 key_len) as [Hp|Hp]; try lia.
  1, 3: apply runs_ret; rewrite <- (Hend i Hi) by lia; rewrite Nat2Z.id; done.
  pose proof (length_F_stream d key S (Z.to_nat c) i) as Hls. fold s in Hls.
  set (pre := rfc_F_stream d key S (Z.to_nat c) i) in *.
  assert (off = Z.of_nat (length pre)) as Eo by lia. rewrite Eo in *.
  set (todo := if key_len <? s then key_len else s).
  assert (todo = Z.of_nat (Nat.min (Z.to_nat s) (length old - length pre))) as Et
    by (unfold todo; destruct (Z.ltb_spec key_len s); lia).
  cbv zeta. rewrite i_buf_bytes.
  pose proof (length_rfc_U d key S (Datatypes.S i) 0) as HlU. fold s in HlU.
  apply runs_bind. eapply runs_mono.
  { eapply (one_code_run _ _ _ S (be_bytes 4 (Z.of_nat (Datatypes.S i)))); [exact Hr|done|by rewrite length_be_bytes]. }
  intros [ok c1] h1 [Eok H1]. cbn [fst snd] in *. subst ok.
  apply runs_bind. eapply runs_mono; [exact H1|]. intros [] h2 [_ H2].
  apply runs_bind. eapply runs_mono; [exact H2|]. intros [] h3 H3.
  apply runs_bind. eapply runs_mono; [exact H3|]. intros [o c4] h4 [E4 Hr4]. cbn [fst snd] in *. subst o.
  change (rfc_hmac d key (S ++ be_bytes 4 (Z.of_nat (Datatypes.S i)))) with (rfc_U d key S (Datatypes.S i) 0).
  apply runs_bind. eapply runs_lift; [apply get_run; lia|].
  rewrite Et, Nat2Z.id, (take_min _ _ (length old - length pre)) by lia.
  apply runs_bind. eapply runs_lift; [apply fill_put; lia|].
  apply runs_bind. eapply runs_mono.
  { eapply pbkdf2_iterate_run; [exact Hr4|lia|done|exact HlU]. }
  intros [[ok out] c5] h5 [E5 Hr5]. cbn [fst snd] in *. injection E5 as -> ->.
  replace (Z.to_nat (c - 1)) with (Z.to_nat c - 1)%nat by lia.
  fold (rfc_F d key S (Z.to_nat c) (Datatypes.S i)). unfold pre. rewrite <- F_stream_S, u32_add_one.
  replace (Z.of_nat (Datatypes.S i) + 1) with (Z.of_nat (Datatypes.S (Datatypes.S i))) by lia.
  fold pre. assert (Z.of_nat i < N) by nia.
  apply IH; [done|lia|rewrite Nat2Z.inj_succ, Z.mul_succ_l; lia|lia|lia].
Qed.

(** C39: PBKDF2 into the array of the caller, for any digest, password, salt, count and
    array: the array has the output of RFC 8018 of its length afterwards, and the function
    returns 1; for a count of zero it has the output for one, and the function returns 0; or
    the array is as before and the function returns 0 because an allocation failed.  It ends,
    has no undefined behaviour and frees what it allocates. *)
Theorem pbkdf2_correct (d : D) (password : option bytes) (salt : bytes) (iterations : Z) (out_key : bytes)
    (h : heap St) :
  heap_ok h -> Z.of_nat (length (default [] password)) < 2 ^ 64 -> Z.of_nat (length salt) < 2 ^ 64 ->
  exists r h', PKCS5_PBKDF2_HMAC password salt iterations d out_key h = Ret (r, h') /\
    heap_ok h' /\ hp_blocks h' = hp_blocks h /\
    (r = (negb (iterations =? 0),
          rfc_pbkdf2 d (default [] password) salt (Z.to_nat iterations) (length out_key)) \/
     r = (false, out_key) /\ exists n, malloc_ok n = false).
Proof.
  intros Hh Hk Hsalt.
  enough (runs (PKCS5_PBKDF2_HMAC password salt iterations d out_key) h (fun r h' =>
    owns (D := D) (hp_blocks h) [] h' /\
    (r = (negb (iterations =? 0),
          rfc_pbkdf2 d (default [] password) salt (Z.to_nat iterations) (length out_key)) \/
     r = (false, out_key) /\ no_memory))) as (r & h' & E & Ho & Hr).
  { apply owns_nil in Ho as [Hk' Hb]. exists r, h'. auto. }
  unfold PKCS5_PBKDF2_HMAC, EVP_MD_size. cbv zeta. destruct (digest_sizes d) as ((Hs & _) & _ & _).
  apply runs_bind. eapply runs_mono; [by apply new_key_run|].
  intros [ok c] h1 H1. cbn [fst snd] in H1. apply runs_bind. destruct ok.
  - apply runs_bind. eapply runs_mono.
    { pose proof (pbkdf2_loop_run (hp_blocks h) d (default [] password) salt iterations (length out_key) 0 c 0
        (Z.of_nat (length out_key)) out_key h1) as Hl. cbv zeta in Hl.
      change (rfc_F_stream d (default [] password) salt (Z.to_nat iterations) 0) with ([] : bytes) in Hl.
      rewrite fill_nil in Hl. change (u32 (Z.of_nat 1)) with 1 in Hl. apply Hl; try done; try lia.
      - by eapply busy_rest.
      - pose proof (N_covers d (Z.of_nat (length out_key)) ltac:(lia)). nia. }
    intros [[ret out] hm] h2 [Er Hr2]. cbn [fst snd] in *. injection Er as -> ->. apply runs_ret.
    apply runs_bind. eapply runs_mono; [by eapply hmac_cleanup_any, rest_owns|].
    intros c2 h3 Ho3. apply runs_ret. split; [done|]. left. cbn [andb]. unfold rfc_pbkdf2.
    rewrite fill_all; [done|].
    pose proof (length_F_stream d (default [] password) salt (Z.to_nat iterations)
      (Z.to_nat (rfc_N d (Z.of_nat (length out_key))))).
    pose proof (N_covers d (Z.of_nat (length out_key)) ltac:(lia)). nia.
  - destruct H1 as [Hn Hc]. apply runs_ret, runs_bind. eapply runs_mono; [by apply hmac_cleanup_any|].
    intros c2 h3 Ho3. apply runs_ret. auto.
Qed.
End spec.

(** ** Digests of the library *)

#[local] Existing Instances sample_garbage sample_env.

(** 42 bytes with SHA-256, a salt and no info. *)
Lemma hkdf_correct_witness :
  exists r h', HKDF (replicate 42 0xee) D_sha256 [11; 11] (Some [1; 2]) [] (Heap ∅ 0) = Ret (r, h') /\
    hp_blocks h' = ∅ /\
    (r = (true, rfc_hkdf_expand D_sha256 (rfc_hkdf_extract D_sha256 [1; 2] [11; 11]) [] 42) \/
     r = (false, replicate 42 0xee) /\ exists n, malloc_ok n = false).
Proof.
  destruct (hkdf_correct D_sha256 (Some [1; 2]) [11; 11] [] (replicate 42 0xee) (Heap ∅ 0))
    as (r & h' & E & _ & Hb & Hr); [|reflexivity..|].
  - intros a [o Ha]. discriminate Ha.
  - exists r, h'. split; [exact E|]. split; [exact Hb|exact Hr].
Defined.

(** 33 bytes with SHA-1 and two iterations. *)
Lemma pbkdf2_correct_witness :
  exists r h', PKCS5_PBKDF2_HMAC (Some [112]) [115] 2 D_sha1 (replicate 33 0) (Heap ∅ 0) = Ret (r, h') /\
    hp_blocks h' = ∅ /\
    (r = (true, rfc_pbkdf2 D_sha1 [112] [115] 2 33) \/
     r = (false, replicate 33 0) /\ exists n, malloc_ok n = false).
Proof.
  destruct (pbkdf2_correct D_sha1 (Some [112]) [115] 2 (replicate 33 0) (Heap ∅ 0))
    as (r & h' & E & _ & Hb & Hr); [|reflexivity..|].
  - intros a [o Ha]. discriminate Ha.
  - exists r, h'. split; [exact E|]. split; [exact Hb|exact Hr].
Defined.
