(* ===== verification/Chacha.v ===== *)
(** * BoringSSL: ChaCha20 (crypto/chacha/chacha.c)

    The stream cipher in both ways the file can be compiled: in C, and with the
    assembly routines for whole runs of blocks, which are parameters here.  The
    sixteen words of the state are a list; a buffer is a list of bytes, whose length
    is the argument [in_len], and the bytes written to [out] are the result. *)
From Stdlib Require Import ZArith Lia.
From stdpp Require Import prelude list numbers.
From S2P Require Import Prelude CMem Words.
Local Open Scope Z_scope.

(** "expand 32-byte k" *)
Definition sigma : bytes :=
  [101; 120; 112; 97; 110; 100; 32; 51; 50; 45; 98; 121; 116; 101; 32; 107].

(** [x[a] += x[b]] and [x[d] = CRYPTO_rotl_u32(x[d] ^ x[a], n)] *)
Definition add_to (a b : nat) (x : list Z) : list Z := set_word a (u32 (word x a + word x b)) x.
Definition xor_rotl (d a : nat) (n : Z) (x : list Z) : list Z :=
  set_word d (CRYPTO_rotl_u32 (Z.lxor (word x d) (word x a)) n) x.
(** Statements one after the other. *)
Definition in_order (steps : list (list Z -> list Z)) (x : list Z) : list Z :=
  foldl (fun x step => step x) x steps.

Definition QUARTERROUND (a b c d : nat) : list Z -> list Z :=
  in_order
    [add_to a b; xor_rotl d a 16; add_to c d; xor_rotl b c 12;
     add_to a b; xor_rotl d a 8; add_to c d; xor_rotl b c 7].

(** The body of the loop, and the loop: [n] is 10, as the index goes by twos. *)
Definition double_round : list Z -> list Z :=
  in_order
    [QUARTERROUND 0 4 8 12; QUARTERROUND 1 5 9 13; QUARTERROUND 2 6 10 14; QUARTERROUND 3 7 11 15;
     QUARTERROUND 0 5 10 15; QUARTERROUND 1 6 11 12; QUARTERROUND 2 7 8 13; QUARTERROUND 3 4 9 14].
Definition double_rounds (n : nat) : list Z -> list Z := Nat.iter n double_round.

(** [memcpy] of bytes into words. *)
Fixpoint words_of (n : nat) (p : bytes) : list Z :=
  match n with
  | O => []
  | S k => CRYPTO_load_u32_le p :: words_of k (drop 4 p)
  end.
Definition bytes_of (x : list Z) : bytes := concat (CRYPTO_store_u32_le <$> x).

Definition CRYPTO_hchacha20 (key nonce : bytes) : bytes :=
  let x := double_rounds 10 (words_of 4 sigma ++ words_of 8 key ++ words_of 4 nonce) in
  bytes_of (take 4 x) ++ bytes_of (take 4 (drop 12 x)).

(** ** In C *)

Definition chacha_core (input : list Z) : bytes :=
  let x := double_rounds 10 input in
  bytes_of (zip_with (fun a b => u32 (a + b)) x input).

(** [out[i] = in[i] ^ buf[i]] *)
Definition xor_bytes (data buf : bytes) : bytes := zip_with Z.lxor data buf.

Fixpoint chacha_loop (fuel : nat) (data : bytes) (input : list Z) : bytes :=
  match data with
  | [] => []
  | _ =>
      match fuel with
      | O => []
      | S k =>
          let todo := if Z.of_nat (length data) <? 64 then Z.of_nat (length data) else 64 in
          let buf := chacha_core input in
          xor_bytes (take (Z.to_nat todo) data) buf ++
          chacha_loop k (drop (Z.to_nat todo) data)
                      (set_word 12 (u32 (word input 12 + 1)) input)
      end
  end.

Definition chacha_state (key nonce : bytes) (counter : Z) : list Z :=
  words_of 4 sigma ++ words_of 8 key ++ [counter] ++ words_of 3 nonce.

(** Every round takes a byte at least. *)
Definition CRYPTO_chacha_20 (data key nonce : bytes) (counter : Z) : bytes :=
  chacha_loop (length data) data (chacha_state key nonce counter).

(** ** With assembly *)

(** The routines and what the processor can do.  [len] is what is asked for, the key
    is eight words and the counter is the block counter and the nonce. *)
Record chacha_asm := ChachaAsm {
  ctr32_avx2 : bytes -> list Z -> list Z -> bytes;
  ctr32_ssse3_4x : bytes -> list Z -> list Z -> bytes;
  ctr32_ssse3 : bytes -> list Z -> list Z -> bytes;
  ctr32_nohw : bytes -> list Z -> list Z -> bytes;
  is_AVX2_capable : bool;
  is_SSSE3_capable : bool;
  perf_is_like_silvermont : bool
}.

Section asm.
Context (asm : chacha_asm).

Definition ChaCha20_ctr32_avx2_capable (len : Z) : bool := (128 <? len) && is_AVX2_capable asm.
Definition ChaCha20_ctr32_ssse3_4x_capable (len : Z) : bool :=
  let capable := (128 <? len) && is_SSSE3_capable asm in
  let faster := (192 <? len) || negb (perf_is_like_silvermont asm) in
  capable && faster.
Definition ChaCha20_ctr32_ssse3_capable (len : Z) : bool := (128 <? len) && is_SSSE3_capable asm.

Definition ChaCha20_ctr32 (data : bytes) (key counter : list Z) : bytes :=
  let in_len := Z.of_nat (length data) in
  if ChaCha20_ctr32_avx2_capable in_len then ctr32_avx2 asm data key counter
  else if ChaCha20_ctr32_ssse3_4x_capable in_len then ctr32_ssse3_4x asm data key counter
  else if ChaCha20_ctr32_ssse3_capable in_len then ctr32_ssse3 asm data key counter
  else if 0 <? in_len then ctr32_nohw asm data key counter
  else [].

Fixpoint chacha_asm_loop (fuel : nat) (data : bytes) (key counter_nonce : list Z) : bytes :=
  match data with
  | [] => []
  | _ =>
      match fuel with
      | O => []
      | S k =>
          let todo := u64 (64 * u64 (2 ^ 32 - word counter_nonce 0)) in
          let todo := if Z.of_nat (length data) <? todo then Z.of_nat (length data) else todo in
          ChaCha20_ctr32 (take (Z.to_nat todo) data) key counter_nonce ++
          chacha_asm_loop k (drop (Z.to_nat todo) data) key (set_word 0 0 counter_nonce)
      end
  end.

Definition CRYPTO_chacha_20_asm (data key nonce : bytes) (counter : Z) : bytes :=
  chacha_asm_loop (length data) data (words_of 8 key) ([counter] ++ words_of 3 nonce).
End asm.

(** RFC 8439, section 2.3.2: the block for the key 0..31, counter 1. *)
Definition rfc_key : bytes := Z.of_nat <$> seq 0 32.
Definition rfc_nonce : bytes := [0; 0; 0; 9; 0; 0; 0; 0x4a; 0; 0; 0; 0].
Example rfc_block :
  words_of 16 (chacha_core (chacha_state rfc_key rfc_nonce 1)) =
  [0xe4e7f110; 0x15593bd1; 0x1fdd0f50; 0xc47120a3; 0xc7f4d1c7; 0x0368c033; 0x9aaa2204; 0x4e6cd4c3;
   0x466482d2; 0x09aa9f07; 0x05d7c214; 0xa2028bd9; 0xd19c12b5; 0xb94e16de; 0xe883d0cb; 0x4e3c50a2].
Proof. vm_compute. reflexivity. Qed.
(** draft-irtf-cfrg-xchacha, section 2.2.1. *)
Example rfc_hchacha :
  words_of 8 (CRYPTO_hchacha20 rfc_key [0; 0; 0; 9; 0; 0; 0; 0x4a; 0; 0; 0; 0; 0x31; 0x41; 0x59; 0x27]) =
  [0x423b4182; 0xfe7bb227; 0x50420ed3; 0x737d878a; 0xd5e4f9a0; 0x53a8748a; 0x13c42ec1; 0xdcecd326].
Proof. vm_compute. reflexivity. Qed.

(** ** The block function of RFC 8439

    Written from sections 2.1 to 2.3 and not from the code: numbers modulo 2^32, the
    state as a matrix of four columns, rounds of the columns and of the diagonals. *)

Definition column : Type := Z * Z * Z * Z.
Definition matrix : Type := column * column * column * column.

(** Section 2.1. *)
Definition quarter_round (v : column) : column :=
  let '(a, b, c, d) := v in
  let a := (a + b) mod 2 ^ 32 in let d := ROTL 32 16 (Z.lxor d a) in
  let c := (c + d) mod 2 ^ 32 in let b := ROTL 32 12 (Z.lxor b c) in
  let a := (a + b) mod 2 ^ 32 in let d := ROTL 32 8 (Z.lxor d a) in
  let c := (c + d) mod 2 ^ 32 in let b := ROTL 32 7 (Z.lxor b c) in
  (a, b, c, d).
Example quarter_round_2_1_1 :
  quarter_round (0x11111111, 0x01020304, 0x9b8d6f43, 0x01234567) = (0xea2a92f4, 0xcb1cf8ce, 0x4581472e, 0x5881c4bb).
Proof. vm_compute. reflexivity. Qed.
Definition column_round (m : matrix) : matrix :=
  let '(p, q, r, s) := m in (quarter_round p, quarter_round q, quarter_round r, quarter_round s).
(** The matrix whose columns are the diagonals, and back. *)
Definition diagonals (m : matrix) : matrix :=
  let '((a0, b0, c0, d0), (a1, b1, c1, d1), (a2, b2, c2, d2), (a3, b3, c3, d3)) := m in
  ((a0, b1, c2, d3), (a1, b2, c3, d0), (a2, b3, c0, d1), (a3, b0, c1, d2)).
Definition undo_diagonals (m : matrix) : matrix :=
  let '((a0, b1, c2, d3), (a1, b2, c3, d0), (a2, b3, c0, d1), (a3, b0, c1, d2)) := m in
  ((a0, b0, c0, d0), (a1, b1, c1, d1), (a2, b2, c2, d2), (a3, b3, c3, d3)).
Definition inner_block (m : matrix) : matrix :=
  undo_diagonals (column_round (diagonals (column_round m))).

(** Section 2.3: the words of key and nonce are in little-endian order. *)
Definition le_word (p : bytes) (i : nat) : Z := le_val (take 4 (drop (4 * i) p)).
Definition rfc_state (key : bytes) (counter : Z) (nonce : bytes) : matrix :=
  ((0x61707865, le_word key 0, le_word key 4, counter),
   (0x3320646e, le_word key 1, le_word key 5, le_word nonce 0),
   (0x79622d32, le_word key 2, le_word key 6, le_word nonce 1),
   (0x6b206574, le_word key 3, le_word key 7, le_word nonce 2)).
(** Row by row. *)
Definition matrix_words (m : matrix) : list Z :=
  let '((a0, b0, c0, d0), (a1, b1, c1, d1), (a2, b2, c2, d2), (a3, b3, c3, d3)) := m in
  [a0; a1; a2; a3; b0; b1; b2; b3; c0; c1; c2; c3; d0; d1; d2; d3].
Definition chacha20_block (key : bytes) (counter : Z) (nonce : bytes) : bytes :=
  let start := rfc_state key counter nonce in
  concat (zip_with (fun a b => le_bytes 4 ((a + b) mod 2 ^ 32))
            (matrix_words (Nat.iter 10 inner_block start)) (matrix_words start)).

(** The code computes it: [QUARTERROUND] on the words of a column, then of a diagonal. *)
Definition set_column (i j k l : nat) (v : column) (x : list Z) : list Z :=
  let '(a, b, c, d) := v in set_word l d (set_word k c (set_word j b (set_word i a x))).
Lemma quarterround_spec i j k l x :
  NoDup [i; j; k; l] -> (i < length x)%nat -> (j < length x)%nat -> (k < length x)%nat -> (l < length x)%nat ->
  QUARTERROUND i j k l x =
  set_column i j k l (quarter_round (word x i, word x j, word x k, word x l)) x.
Proof.
  intros Hnd Hi Hj Hk Hl.
  assert (i <> j /\ i <> k /\ i <> l /\ j <> k /\ j <> l /\ k <> l) as (H1 & H2 & H3 & H4 & H5 & H6).
  { rewrite !list.NoDup_cons, !not_elem_of_cons in Hnd. naive_solver. }
  assert (forall a v y, (a < length y)%nat -> word (set_word a v y) a = v) as Hsame.
  { intros a v y Ha. unfold word, set_word. by rewrite nth_lookup, list_lookup_insert_eq. }
  assert (forall a b v y, a <> b -> word (set_word a v y) b = word y b) as Hother.
  { intros a b v y Ha. unfold word, set_word. by rewrite !nth_lookup, list_lookup_insert_ne. }
  unfold QUARTERROUND, in_order. cbn [foldl]. unfold add_to, xor_rotl, set_column, quarter_round.
  rewrite !rotl_u32_ROTL by lia. unfold u32, wrap.
  repeat (first [rewrite Hsame by (unfold set_word; rewrite ?length_insert; done)
                |rewrite Hother by congruence]).
  unfold set_word. apply list_eq. intros n.
  repeat (rewrite list_lookup_insert; rewrite ?length_insert).
  repeat case_decide; naive_solver.
Qed.
Lemma double_round_spec m : double_round (matrix_words m) = matrix_words (inner_block m).
Proof.
  destruct m as [[[[[[a0 b0] c0] d0] [[[a1 b1] c1] d1]] [[[a2 b2] c2] d2]] [[[a3 b3] c3] d3]].
  unfold double_round, matrix_words.
  assert (forall f fs x, in_order (f :: fs) x = in_order fs (f x)) as Hcons by done.
  assert (forall i j k l : nat, bool_decide (NoDup [i; j; k; l]) = true -> NoDup [i; j; k; l]) as Hnd.
  { intros i j k l. apply bool_decide_eq_true_1. }
  unfold inner_block, column_round, diagonals, undo_diagonals.
  do 8 (rewrite Hcons, quarterround_spec by first [by apply Hnd | cbn; lia]; unfold word; cbn [nth];
    lazymatch goal with |- context [set_column _ _ _ _ (quarter_round ?v) _] =>
      destruct (quarter_round v) as [[[? ?] ?] ?] end;
    cbn [set_column set_word insert list_insert]).
  reflexivity.
Qed.
Lemma double_rounds_spec n m : double_rounds n (matrix_words m) = matrix_words (Nat.iter n inner_block m).
Proof.
  unfold double_rounds. induction n as [|n IH]; [done|]. cbn [Nat.iter nat_rect].
  change (nat_rect _ ?x (fun _ => ?f) n) with (Nat.iter n f x) in *. rewrite IH. apply double_round_spec.
Qed.
Lemma chacha_core_spec key nonce counter :
  chacha_core (chacha_state key nonce counter) = chacha20_block key counter nonce.
Proof.
  assert (chacha_state key nonce counter = matrix_words (rfc_state key counter nonce)) as ->.
  { unfold chacha_state, matrix_words, rfc_state, le_word, CRYPTO_load_u32_le.
    cbn [words_of app]. unfold CRYPTO_load_u32_le. rewrite !drop_drop. reflexivity. }
  unfold chacha_core, chacha20_block. rewrite double_rounds_spec. unfold bytes_of.
  set (x := matrix_words _). set (y := matrix_words _). clearbody x y. f_equal.
  revert y; induction x as [|v x IH]; intros [|w y]; [done..|]. cbn. by f_equal.
Qed.

(** ** ChaCha20 as a key stream

    Whatever way [CRYPTO_chacha_20] is compiled, byte [j] of the output is byte [j]
    of the input xor byte [j] of a key stream, the blocks of RFC 8439 numbered modulo
    2^32. *)

Definition keystream (key nonce : bytes) (counter : Z) (j : nat) : Z :=
  nth (j mod 64)%nat (chacha20_block key (u32 (counter + Z.of_nat (j / 64))) nonce) 0.
Definition stream_xor (key nonce : bytes) (counter : Z) (data : bytes) : bytes :=
  imap (fun j b => Z.lxor b (keystream key nonce counter j)) data.

(** ** Blocks *)


Lemma length_in_order fs x :
  Forall (fun f : list Z -> list Z => forall x, length (f x) = length x) fs -> length (in_order fs x) = length x.
Proof.
  unfold in_order. intros Hf. revert x. induction Hf as [|f fs H1 H2 IH]; intros x; [done|].
  cbn [foldl]. by rewrite IH.
Qed.
Ltac all_steps := repeat first [apply List.Forall_nil | apply List.Forall_cons].
Lemma length_quarterround a b c d x : length (QUARTERROUND a b c d x) = length x.
Proof. apply length_in_order. all_steps; intros; apply length_insert. Qed.
Lemma length_double_round x : length (double_round x) = length x.
Proof. apply length_in_order. all_steps; apply length_quarterround. Qed.
Lemma length_iter (f : list Z -> list Z) n x :
  (forall x, length (f x) = length x) -> length (Nat.iter n f x) = length x.
Proof. intros Hf. induction n as [|n IH]; [done|]. cbn. by rewrite Hf. Qed.
Lemma length_double_rounds n x : length (double_rounds n x) = length x.
Proof. apply length_iter, length_double_round. Qed.
Lemma length_bytes_of x : length (bytes_of x) = (4 * length x)%nat.
Proof.
  unfold bytes_of. induction x as [|v x IH]; [done|]. cbn [fmap list_fmap concat].
  rewrite length_app, IH. unfold CRYPTO_store_u32_le. rewrite length_le_bytes. cbn [length]. lia.
Qed.
Lemma length_chacha_core input : length (chacha_core input) = (4 * length input)%nat.
Proof.
  unfold chacha_core. rewrite length_bytes_of, length_zip_with, length_double_rounds. lia.
Qed.
#[local] Opaque chacha_core chacha20_block.
Lemma length_chacha_state key nonce c : length (chacha_state key nonce c) = 16%nat.
Proof. done. Qed.
Lemma chacha_state_counter key nonce c v :
  word (chacha_state key nonce c) 12 = c /\ set_word 12 v (chacha_state key nonce c) = chacha_state key nonce v.
Proof. done. Qed.

Lemma xor_bytes_imap data buf :
  (length data <= length buf)%nat -> xor_bytes data buf = imap (fun j b => Z.lxor b (nth j buf 0)) data.
Proof.
  revert buf; induction data as [|b data IH]; intros [|k buf] Hl; cbn in *; try done; [lia|].
  f_equal. unfold xor_bytes in IH. rewrite IH by lia. done.
Qed.

(** Going on [n] blocks later. *)
Lemma keystream_later key nonce c n j :
  0 <= c -> keystream key nonce c (64 * n + j) = keystream key nonce (u32 (c + Z.of_nat n)) j.
Proof.
  intros Hc. unfold keystream.
  replace ((64 * n + j) mod 64)%nat with (j mod 64)%nat by
    (rewrite (Nat.mul_comm 64 n), Nat.add_comm, Nat.Div0.mod_add; done).
  replace ((64 * n + j) / 64)%nat with (n + j / 64)%nat by
    (rewrite (Nat.mul_comm 64 n), Nat.div_add_l; done).
  replace (u32 (c + Z.of_nat (n + j / 64))) with (u32 (u32 (c + Z.of_nat n) + Z.of_nat (j / 64))); [reflexivity|].
  unfold u32, wrap. rewrite Zplus_mod_idemp_l. f_equal. lia.
Qed.
Lemma keystream_block key nonce c j :
  0 <= c < 2 ^ 32 -> (j < 64)%nat -> keystream key nonce c j = nth j (chacha_core (chacha_state key nonce c)) 0.
Proof.
  intros Hc Hj. unfold keystream. rewrite <- chacha_core_spec. rewrite Nat.mod_small, Nat.div_small, Z.add_0_r by lia.
  unfold u32. by rewrite wrap_small by lia.
Qed.

Lemma length_stream_xor key nonce c data : length (stream_xor key nonce c data) = length data.
Proof. apply length_imap. Qed.

(** The stream can be taken up at any block. *)
Lemma stream_xor_app key nonce c n d1 d2 :
  0 <= c -> length d1 = (64 * n)%nat ->
  stream_xor key nonce c (d1 ++ d2) = stream_xor key nonce c d1 ++ stream_xor key nonce (u32 (c + Z.of_nat n)) d2.
Proof.
  intros Hc Hl. unfold stream_xor. rewrite imap_app. f_equal. apply imap_ext. intros j b _. cbn.
  by rewrite Hl, keystream_later.
Qed.

Lemma stream_xor_twice key nonce c data : stream_xor key nonce c (stream_xor key nonce c data) = data.
Proof.
  unfold stream_xor. apply list_eq. intros j. rewrite !list_lookup_imap.
  destruct (data !! j) as [b|]; [|done]. cbn. f_equal. by rewrite Z.lxor_assoc, Z.lxor_nilpotent, Z.lxor_0_r.
Qed.

Lemma chacha_loop_run fuel key nonce c data :
  0 <= c < 2 ^ 32 -> (length data <= fuel)%nat ->
  chacha_loop fuel data (chacha_state key nonce c) = stream_xor key nonce c data.
Proof.
  intros Hc. revert c data Hc; induction fuel as [|fuel IH]; intros c data Hc Hf.
  { by destruct data; [|cbn in Hf; lia]. }
  destruct data as [|b data]; [done|]. cbn [chacha_loop]. set (d := b :: data) in *.
  destruct (chacha_state_counter key nonce c (u32 (c + 1))) as [-> ->].
  assert (0 <= u32 (c + 1) < 2 ^ 32) as Hu by (apply wrap_range; lia).
  assert (forall d', (length d' <= 64)%nat ->
    xor_bytes d' (chacha_core (chacha_state key nonce c)) = stream_xor key nonce c d') as Hx.
  { intros d' Hd'. rewrite xor_bytes_imap by (rewrite length_chacha_core, length_chacha_state; lia).
    apply imap_ext. intros j x Hj. cbn. f_equal. symmetry. apply keystream_block; [done|].
    apply lookup_lt_Some in Hj. lia. }
  destruct (Z.ltb_spec (Z.of_nat (length d)) 64).
  - rewrite Nat2Z.id, take_ge, drop_ge, Hx by lia. destruct fuel; cbn; by rewrite app_nil_r.
  - change (Z.to_nat 64) with 64%nat.
    rewrite Hx, IH by (rewrite ?length_take, ?length_drop; (done || (unfold d in *; cbn [length] in *; lia))).
    rewrite <- (take_drop 64 d) at 3. symmetry. apply (stream_xor_app _ _ _ 1); [lia|].
    rewrite length_take. lia.
Qed.

(** ** The assembly *)

(** What chacha/internal.h says of a routine: it encrypts the data, which is not
    empty, provided the block counter does not overflow. *)
Definition ctr32_contract (f : bytes -> list Z -> list Z -> bytes) : Prop :=
  forall data key nonce c, data <> [] -> 0 <= c ->
    c + (Z.of_nat (length data) + 63) / 64 <= 2 ^ 32 ->
    f data (words_of 8 key) ([c] ++ words_of 3 nonce) = stream_xor key nonce c data.
Record asm_contract (asm : chacha_asm) : Prop := {
  avx2_ok : ctr32_contract (ctr32_avx2 asm);
  ssse3_4x_ok : ctr32_contract (ctr32_ssse3_4x asm);
  ssse3_ok : ctr32_contract (ctr32_ssse3 asm);
  nohw_ok : ctr32_contract (ctr32_nohw asm)
}.

Lemma ctr32_run asm data key nonce c :
  asm_contract asm -> data <> [] -> 0 <= c -> c + (Z.of_nat (length data) + 63) / 64 <= 2 ^ 32 ->
  ChaCha20_ctr32 asm data (words_of 8 key) ([c] ++ words_of 3 nonce) = stream_xor key nonce c data.
Proof.
  intros [H1 H2 H3 H4] Hd Hc Hl. unfold ChaCha20_ctr32.
  destruct (ChaCha20_ctr32_avx2_capable _ _); [by apply H1|].
  destruct (ChaCha20_ctr32_ssse3_4x_capable _ _); [by apply H2|].
  destruct (ChaCha20_ctr32_ssse3_capable _ _); [by apply H3|].
  rewrite (proj2 (Z.ltb_lt 0 _)); [by apply H4|]. destruct data; [done|cbn; lia].
Qed.

Lemma asm_loop_run asm fuel key nonce c data :
  asm_contract asm -> 0 <= c < 2 ^ 32 -> (length data <= fuel)%nat ->
  chacha_asm_loop asm fuel data (words_of 8 key) ([c] ++ words_of 3 nonce) = stream_xor key nonce c data.
Proof.
  intros Ha. revert c data; induction fuel as [|fuel IH]; intros c data Hc Hf.
  { by destruct data; [|cbn in Hf; lia]. }
  destruct data as [|b data]; [done|]. cbn [chacha_asm_loop]. set (d := b :: data) in *.
  change (word ([c] ++ words_of 3 nonce) 0) with c.
  change (set_word 0 0 ([c] ++ words_of 3 nonce)) with ([0] ++ words_of 3 nonce).
  unfold u64. rewrite (wrap_small 64 (2 ^ 32 - c)), wrap_small by lia.
  assert (d <> [] /\ 0 < Z.of_nat (length d)) as [Hd Hd0] by (unfold d; cbn; split; [done|lia]).
  destruct (Z.ltb_spec (Z.of_nat (length d)) (64 * (2 ^ 32 - c))).
  - rewrite Nat2Z.id, take_ge, drop_ge by lia.
    rewrite ctr32_run by (done || (try lia; Z.div_mod_to_equations; lia)).
    destruct fuel; cbn; by rewrite app_nil_r.
  - set (n := Z.to_nat (2 ^ 32 - c)).
    replace (Z.to_nat (64 * (2 ^ 32 - c))) with (64 * n)%nat by lia.
    assert (length (take (64 * n) d) = 64 * n)%nat as Ht by (rewrite length_take; lia).
    rewrite ctr32_run; [|done| |lia|rewrite Ht; Z.div_mod_to_equations; lia].
    2: { intros E. rewrite E in Ht. cbn [length] in Ht. lia. }
    rewrite IH by (rewrite ?length_drop; lia).
    rewrite <- (take_drop (64 * n) d) at 3. rewrite (stream_xor_app _ _ _ n) by (done || lia).
    replace (u32 (c + Z.of_nat n)) with 0; [reflexivity|].
    replace (c + Z.of_nat n) with (2 ^ 32) by lia. reflexivity.
Qed.

(** ** The properties *)

(** C23: [CRYPTO_chacha_20] adds the key stream of RFC 8439: every output byte is the
    input byte xor the byte of the block of [chacha20_block] its position falls into,
    block [c + i] modulo 2^32 for the [i]-th.  So decryption is encryption, and a message can be encrypted in
    pieces that start at block boundaries. *)
Theorem chacha20_correct key nonce c data :
  0 <= c < 2 ^ 32 ->
  CRYPTO_chacha_20 data key nonce c = stream_xor key nonce c data /\
  CRYPTO_chacha_20 (CRYPTO_chacha_20 data key nonce c) key nonce c = data /\
  forall d1 d2 n, data = d1 ++ d2 -> length d1 = (64 * n)%nat ->
    CRYPTO_chacha_20 data key nonce c =
    CRYPTO_chacha_20 d1 key nonce c ++ CRYPTO_chacha_20 d2 key nonce (u32 (c + Z.of_nat n)).
Proof.
  intros Hc. assert (forall c d, 0 <= c < 2 ^ 32 -> CRYPTO_chacha_20 d key nonce c = stream_xor key nonce c d) as Hr.
  { intros c' d Hc'. unfold CRYPTO_chacha_20. by apply chacha_loop_run. }
  rewrite !Hr by done. split_and!; [done|apply stream_xor_twice|].
  intros d1 d2 n -> Hl. rewrite !Hr by (done || (apply wrap_range; lia)). apply stream_xor_app; [lia|done].
Qed.

(** The two ways to compile [CRYPTO_chacha_20] agree: with assembly routines
    that keep their contract, whatever the processor can do, the function that cuts
    the data where the counter would overflow computes the same bytes as the one in
    C, also when the counter wraps around within the data. *)
Theorem chacha20_asm_equiv asm key nonce c data :
  asm_contract asm -> 0 <= c < 2 ^ 32 ->
  CRYPTO_chacha_20_asm asm data key nonce c = CRYPTO_chacha_20 data key nonce c.
Proof.
  intros Ha Hc. unfold CRYPTO_chacha_20_asm, CRYPTO_chacha_20.
  rewrite asm_loop_run by done. by rewrite chacha_loop_run.
Qed.

Lemma chacha20_correct_witness :
  let m := repeat 7 70 in
  CRYPTO_chacha_20 m rfc_key rfc_nonce 1 = stream_xor rfc_key rfc_nonce 1 m /\
  CRYPTO_chacha_20 (CRYPTO_chacha_20 m rfc_key rfc_nonce 1) rfc_key rfc_nonce 1 = m /\
  forall d1 d2 n, m = d1 ++ d2 -> length d1 = (64 * n)%nat ->
    CRYPTO_chacha_20 m rfc_key rfc_nonce 1 =
    CRYPTO_chacha_20 d1 rfc_key rfc_nonce 1 ++ CRYPTO_chacha_20 d2 rfc_key rfc_nonce (u32 (1 + Z.of_nat n)).
Proof. intros m. apply (chacha20_correct rfc_key rfc_nonce 1 m). lia. Defined.

(** A routine that keeps the contract: the loop in C. *)
Definition c_ctr32 (data : bytes) (key counter : list Z) : bytes :=
  chacha_loop (length data) data (words_of 4 sigma ++ key ++ counter).
Definition c_asm : chacha_asm := ChachaAsm c_ctr32 c_ctr32 c_ctr32 c_ctr32 true true false.
Lemma c_asm_ok : asm_contract c_asm.
Proof.
  assert (ctr32_contract c_ctr32) as Hk; [|by split].
  intros data key nonce c Hd Hc Hl. unfold c_ctr32.
  change (words_of 4 sigma ++ words_of 8 key ++ [c] ++ words_of 3 nonce) with (chacha_state key nonce c).
  apply chacha_loop_run; [|done].
  assert (1 <= Z.of_nat (length data)) by (destruct data; [done|cbn; lia]). Z.div_mod_to_equations; lia.
Qed.

Lemma chacha20_asm_equiv_witness :
  CRYPTO_chacha_20_asm c_asm (repeat 7 200) rfc_key rfc_nonce (2 ^ 32 - 1) =
  CRYPTO_chacha_20 (repeat 7 200) rfc_key rfc_nonce (2 ^ 32 - 1).
Proof. apply (chacha20_asm_equiv c_asm rfc_key rfc_nonce); [exact c_asm_ok|lia]. Defined.
