(* ===== verification/Poly1305.v ===== *)
(** * BoringSSL: Poly1305 (crypto/poly1305/poly1305.c)

    The authenticator as it is compiled where there is no 128-bit arithmetic or no
    x86-64, as on the processors of telephones, and without assembly.  The
    accumulator and the multiplier are five limbs of 26 bits in 32-bit words, and a
    product is summed in 64 bits. *)
From Stdlib Require Import ZArith Lia.
From stdpp Require Import prelude list numbers.
From S2P Require Import Prelude CMem Cells Words.
Local Open Scope Z_scope.
Local Open Scope res_scope.

Definition mul32x32_64 (a b : Z) : Z := u64 (a * b).

(** [h0] to [h4], and [r0] to [r4]. *)
Record limbs := Limbs { l0 : Z; l1 : Z; l2 : Z; l3 : Z; l4 : Z }.
Record poly1305_state_st := PolyState {
  poly_r : limbs;
  s1 : Z; s2 : Z; s3 : Z; s4 : Z;
  poly_h : limbs;
  poly_buf : bytes;
  poly_buf_used : Z;
  poly_key : bytes
}.

Definition set_h (h : limbs) (st : poly1305_state_st) : poly1305_state_st :=
  PolyState (poly_r st) (s1 st) (s2 st) (s3 st) (s4 st) h (poly_buf st) (poly_buf_used st) (poly_key st).
Definition set_buf (b : bytes) (used : Z) (st : poly1305_state_st) : poly1305_state_st :=
  PolyState (poly_r st) (s1 st) (s2 st) (s3 st) (s4 st) (poly_h st) b used (poly_key st).

(** ** Blocks *)

(** The sixteen bytes added to the accumulator; [top] is the bit above them. *)
Definition add_poly_block (top : Z) (p : bytes) (h : limbs) : limbs :=
  let t0 := CRYPTO_load_u32_le p in
  let t1 := CRYPTO_load_u32_le (drop 4 p) in
  let t2 := CRYPTO_load_u32_le (drop 8 p) in
  let t3 := CRYPTO_load_u32_le (drop 12 p) in
  Limbs
    (u32 (l0 h + Z.land t0 0x3ff_ffff))
    (u32 (l1 h + Z.land (Z.shiftr (Z.lor (Z.shiftl t1 32) t0) 26) 0x3ff_ffff))
    (u32 (l2 h + Z.land (Z.shiftr (Z.lor (Z.shiftl t2 32) t1) 20) 0x3ff_ffff))
    (u32 (l3 h + Z.land (Z.shiftr (Z.lor (Z.shiftl t3 32) t2) 14) 0x3ff_ffff))
    (u32 (l4 h + Z.lor (Z.shiftr t3 8) top)).

(** The label [poly1305_donna_mul]. *)
Definition donna_mul (st : poly1305_state_st) (h : limbs) : limbs :=
  let m := mul32x32_64 in
  let r := poly_r st in
  let t0 := u64 (m (l0 h) (l0 r) + m (l1 h) (s4 st) + m (l2 h) (s3 st) + m (l3 h) (s2 st) + m (l4 h) (s1 st)) in
  let t1 := u64 (m (l0 h) (l1 r) + m (l1 h) (l0 r) + m (l2 h) (s4 st) + m (l3 h) (s3 st) + m (l4 h) (s2 st)) in
  let t2 := u64 (m (l0 h) (l2 r) + m (l1 h) (l1 r) + m (l2 h) (l0 r) + m (l3 h) (s4 st) + m (l4 h) (s3 st)) in
  let t3 := u64 (m (l0 h) (l3 r) + m (l1 h) (l2 r) + m (l2 h) (l1 r) + m (l3 h) (l0 r) + m (l4 h) (s4 st)) in
  let t4 := u64 (m (l0 h) (l4 r) + m (l1 h) (l3 r) + m (l2 h) (l2 r) + m (l3 h) (l1 r) + m (l4 h) (l0 r)) in
  let h0 := Z.land (u32 t0) 0x3ff_ffff in
  let c := Z.shiftr t0 26 in
  let t1 := u64 (t1 + c) in
  let h1 := Z.land (u32 t1) 0x3ff_ffff in
  let b := u32 (Z.shiftr t1 26) in
  let t2 := u64 (t2 + b) in
  let h2 := Z.land (u32 t2) 0x3ff_ffff in
  let b := u32 (Z.shiftr t2 26) in
  let t3 := u64 (t3 + b) in
  let h3 := Z.land (u32 t3) 0x3ff_ffff in
  let b := u32 (Z.shiftr t3 26) in
  let t4 := u64 (t4 + b) in
  let h4 := Z.land (u32 t4) 0x3ff_ffff in
  let b := u32 (Z.shiftr t4 26) in
  Limbs (u32 (h0 + u32 (b * 5))) h1 h2 h3 h4.

(** The label [poly1305_donna_atmost15bytes]: the bytes are padded. *)
Definition donna_atmost15bytes (st : poly1305_state_st) (data : bytes) (h : limbs) : limbs :=
  match data with
  | [] => h
  | _ => donna_mul st (add_poly_block 0 (data ++ 1 :: zeros (15 - Z.of_nat (length data))) h)
  end.

(** The label [poly1305_donna_16bytes] and the jump back to it. *)
Fixpoint donna_16bytes (fuel : nat) (st : poly1305_state_st) (data : bytes) (h : limbs) : limbs :=
  if Z.of_nat (length data) <? 16 then donna_atmost15bytes st data h
  else
    match fuel with
    | O => h
    | S k => donna_16bytes k st (drop 16 data) (donna_mul st (add_poly_block (Z.shiftl 1 24) data h))
    end.

(** Every round takes sixteen bytes. *)
Definition poly1305_update (st : poly1305_state_st) (data : bytes) : poly1305_state_st :=
  set_h (donna_16bytes (length data) st data (poly_h st)) st.

(** ** The functions of the interface *)

Definition CRYPTO_poly1305_init (garbage : bytes) (key : bytes) : res poly1305_state_st :=
  key <- get key 32 ;;
  let t0 := CRYPTO_load_u32_le key in
  let t1 := CRYPTO_load_u32_le (drop 4 key) in
  let t2 := CRYPTO_load_u32_le (drop 8 key) in
  let t3 := CRYPTO_load_u32_le (drop 12 key) in
  let r0 := Z.land t0 0x3ff_ffff in
  let t0 := Z.lor (Z.shiftr t0 26) (u32 (Z.shiftl t1 6)) in
  let r1 := Z.land t0 0x3ff_ff03 in
  let t1 := Z.lor (Z.shiftr t1 20) (u32 (Z.shiftl t2 12)) in
  let r2 := Z.land t1 0x3ff_c0ff in
  let t2 := Z.lor (Z.shiftr t2 14) (u32 (Z.shiftl t3 18)) in
  let r3 := Z.land t2 0x3f0_3fff in
  let t3 := Z.shiftr t3 8 in
  let r4 := Z.land t3 0x00f_ffff in
  Ret (PolyState (Limbs r0 r1 r2 r3 r4) (u32 (r1 * 5)) (u32 (r2 * 5)) (u32 (r3 * 5)) (u32 (r4 * 5))
         (Limbs 0 0 0 0 0) garbage 0 (drop 16 key)).

(** Filling the buffer, and what is left of the input. *)
Definition poly1305_fill (st : poly1305_state_st) (data : bytes) : res (poly1305_state_st * bytes) :=
  if poly_buf_used st =? 0 then Ret (st, data)
  else
    let todo := u64 (16 - poly_buf_used st) in
    let todo := if Z.of_nat (length data) <? todo then Z.of_nat (length data) else todo in
    buf <- put (poly_buf st) (poly_buf_used st) (take (Z.to_nat todo) data) ;;
    let st := set_buf buf (u64 (poly_buf_used st + todo)) st in
    let data := drop (Z.to_nat todo) data in
    if poly_buf_used st =? 16
    then Ret (set_buf (poly_buf st) 0 (poly1305_update st (take 16 (poly_buf st))), data)
    else Ret (st, data).

Definition CRYPTO_poly1305_update (st : poly1305_state_st) (data : bytes) : res poly1305_state_st :=
  if Z.of_nat (length data) =? 0 then Ret st
  else
    sd <- poly1305_fill st data ;;
    let '(st, data) := sd in
    let in_len := Z.of_nat (length data) in
    let whole := if 16 <=? in_len then Z.land in_len (u64 (Z.lnot 15)) else 0 in
    let st := if 16 <=? in_len then poly1305_update st (take (Z.to_nat whole) data) else st in
    let data := drop (Z.to_nat whole) data in
    match data with
    | [] => Ret st
    | _ =>
        buf <- put (poly_buf st) 0 data ;;
        Ret (set_buf buf (Z.of_nat (length data)) st)
    end.

(** The carries, twice: once around, and of the sum with 5. *)
Definition carry_around (h : limbs) : limbs :=
  let b := Z.shiftr (l0 h) 26 in
  let h0 := Z.land (l0 h) 0x3ff_ffff in
  let h1 := u32 (l1 h + b) in
  let b := Z.shiftr h1 26 in
  let h1 := Z.land h1 0x3ff_ffff in
  let h2 := u32 (l2 h + b) in
  let b := Z.shiftr h2 26 in
  let h2 := Z.land h2 0x3ff_ffff in
  let h3 := u32 (l3 h + b) in
  let b := Z.shiftr h3 26 in
  let h3 := Z.land h3 0x3ff_ffff in
  let h4 := u32 (l4 h + b) in
  let b := Z.shiftr h4 26 in
  let h4 := Z.land h4 0x3ff_ffff in
  Limbs (u32 (h0 + u32 (b * 5))) h1 h2 h3 h4.

Definition minus_p (h : limbs) : limbs :=
  let g0 := u32 (l0 h + 5) in
  let b := Z.shiftr g0 26 in
  let g0 := Z.land g0 0x3ff_ffff in
  let g1 := u32 (l1 h + b) in
  let b := Z.shiftr g1 26 in
  let g1 := Z.land g1 0x3ff_ffff in
  let g2 := u32 (l2 h + b) in
  let b := Z.shiftr g2 26 in
  let g2 := Z.land g2 0x3ff_ffff in
  let g3 := u32 (l3 h + b) in
  let b := Z.shiftr g3 26 in
  let g3 := Z.land g3 0x3ff_ffff in
  Limbs g0 g1 g2 g3 (u32 (l4 h + b - Z.shiftl 1 26)).

(** [h] if [g] went below zero, and else [g]. *)
Definition select_limbs (h g : limbs) : limbs :=
  let b := u32 (Z.shiftr (l4 g) 31 - 1) in
  let nb := u32 (Z.lnot b) in
  let sel x y := Z.lor (Z.land x nb) (Z.land y b) in
  Limbs (sel (l0 h) (l0 g)) (sel (l1 h) (l1 g)) (sel (l2 h) (l2 g)) (sel (l3 h) (l3 g)) (sel (l4 h) (l4 g)).

(** The four words of the accumulator plus those of the key. *)
Definition emit_mac (h : limbs) (key : bytes) : bytes :=
  let f0 := u64 (Z.lor (l0 h) (u32 (Z.shiftl (l1 h) 26)) + CRYPTO_load_u32_le key) in
  let f1 := u64 (Z.lor (Z.shiftr (l1 h) 6) (u32 (Z.shiftl (l2 h) 20)) + CRYPTO_load_u32_le (drop 4 key)) in
  let f2 := u64 (Z.lor (Z.shiftr (l2 h) 12) (u32 (Z.shiftl (l3 h) 14)) + CRYPTO_load_u32_le (drop 8 key)) in
  let f3 := u64 (Z.lor (Z.shiftr (l3 h) 18) (u32 (Z.shiftl (l4 h) 8)) + CRYPTO_load_u32_le (drop 12 key)) in
  let f1 := u64 (f1 + Z.shiftr f0 32) in
  let f2 := u64 (f2 + Z.shiftr f1 32) in
  let f3 := u64 (f3 + Z.shiftr f2 32) in
  CRYPTO_store_u32_le (u32 f0) ++ CRYPTO_store_u32_le (u32 f1) ++
  CRYPTO_store_u32_le (u32 f2) ++ CRYPTO_store_u32_le (u32 f3).

(** The state is not used any more; what is left in it is the caller's to see. *)
Definition CRYPTO_poly1305_finish (st : poly1305_state_st) : res (poly1305_state_st * bytes) :=
  st <- (if poly_buf_used st =? 0 then Ret st
         else b <- get (poly_buf st) (poly_buf_used st) ;; Ret (poly1305_update st b)) ;;
  let h := carry_around (poly_h st) in
  let h := select_limbs h (minus_p h) in
  Ret (set_h h st, emit_mac h (poly_key st)).

(** A message in pieces. *)
Fixpoint poly1305_updates (st : poly1305_state_st) (pieces : list bytes) : res poly1305_state_st :=
  match pieces with
  | [] => Ret st
  | p :: r => st <- CRYPTO_poly1305_update st p ;; poly1305_updates st r
  end.
Definition poly1305 (garbage key : bytes) (pieces : list bytes) : res bytes :=
  st <- CRYPTO_poly1305_init garbage key ;;
  st <- poly1305_updates st pieces ;;
  r <- CRYPTO_poly1305_finish st ;;
  Ret (snd r).

(** RFC 8439, section 2.5.2. *)
Definition rfc_poly_key : bytes :=
  [0x85; 0xd6; 0xbe; 0x78; 0x57; 0x55; 0x6d; 0x33; 0x7f; 0x44; 0x52; 0xfe; 0x42; 0xd5; 0x06; 0xa8;
   0x01; 0x03; 0x80; 0x8a; 0xfb; 0x0d; 0xb2; 0xfd; 0x4a; 0xbf; 0xf6; 0xaf; 0x41; 0x49; 0xf5; 0x1b].
Definition rfc_poly_message : bytes := 
  [67; 114; 121; 112; 116; 111; 103; 114; 97; 112; 104; 105; 99; 32; 70; 111; 114; 117;
   109; 32; 82; 101; 115; 101; 97; 114; 99; 104; 32; 71; 114; 111; 117; 112].
Example rfc_poly_tag :
  poly1305 (zeros 16) rfc_poly_key [rfc_poly_message] =
  Ret [0xa8; 0x06; 0x1d; 0xc1; 0x30; 0x51; 0x36; 0xc6; 0xc2; 0x2b; 0x8b; 0xaf; 0x0c; 0x01; 0x27; 0xa9].
Proof. vm_compute. reflexivity. Qed.
