(* ===== verification/Poly1305Spec.v ===== *)
(** * Poly1305 as an evaluation modulo 2^130 - 5

    The specification of RFC 8439, that the streaming functions compute the tag of
    the concatenation, and when that tag is the specification's. *)
From Stdlib Require Import ZArith Lia.
From stdpp Require Import prelude list numbers.
From S2P Require Import Prelude CMem Cells Der DerInt Words Poly1305.
Local Open Scope Z_scope.
Local Open Scope res_scope.

(** ** The specification *)

Definition P1305 : Z := 2 ^ 130 - 5.
Definition clamp (r : Z) : Z := Z.land r 0x0fff_fffc_0fff_fffc_0fff_fffc_0fff_ffff.

(** [a], then every sixteen bytes and a one above them, times [r]. *)
Fixpoint poly_eval (fuel : nat) (r a : Z) (msg : bytes) : Z :=
  match msg, fuel with
  | [], _ | _, O => a
  | _, S k => poly_eval k r (((a + le_val (take 16 msg ++ [1])) * r) mod P1305) (drop 16 msg)
  end.
Definition poly_residue (key msg : bytes) : Z :=
  poly_eval (length msg) (clamp (le_val (take 16 key))) 0 msg.
Definition poly1305_mac (key msg : bytes) : bytes :=
  le_bytes 16 (poly_residue key msg + le_val (take 16 (drop 16 key))).

(** Equal modulo the prime; sums and products respect it. *)
Definition same_residue (a b : Z) : Prop := exists k, a = b + k * P1305.
Declare Scope residue_scope.
Infix "=p=" := same_residue (at level 70) : residue_scope.
Local Open Scope residue_scope.

#[global] Instance same_residue_equiv : Equivalence same_residue.
Proof.
  split; [intros a; exists 0; lia|intros a b [k ->]; exists (- k); lia|].
  intros a b c [k ->] [l ->]. exists (k + l). lia.
Qed.
#[global] Instance add_residue : Proper (same_residue ==> same_residue ==> same_residue) Z.add.
Proof. intros a ? [k ->] b ? [l ->]. exists (k + l). lia. Qed.
#[global] Instance mul_residue : Proper (same_residue ==> same_residue ==> same_residue) Z.mul.
Proof. intros a a' [k ->] b b' [l ->]. exists (k * b' + l * a' + k * l * P1305). lia. Qed.
Lemma mod_residue a : a mod P1305 =p= a.
Proof. exists (- (a / P1305)). pose proof (Z.div_mod a P1305). unfold P1305 in *. lia. Qed.
Lemma residue_mod a b : a =p= b -> a mod P1305 = b mod P1305.
Proof. intros [k ->]. apply Z_mod_plus_full. Qed.

(** ** Limbs *)

Definition limbs_val (h : limbs) : Z :=
  l0 h + 2 ^ 26 * l1 h + 2 ^ 52 * l2 h + 2 ^ 78 * l3 h + 2 ^ 104 * l4 h.
(** Between two blocks, and with a block added. *)
Definition acc_ok (h : limbs) : Prop :=
  0 <= l0 h < 42 * 2 ^ 26 /\ 0 <= l1 h < 2 ^ 26 /\ 0 <= l2 h < 2 ^ 26 /\ 0 <= l3 h < 2 ^ 26 /\ 0 <= l4 h < 2 ^ 26.
Definition sum_ok (h : limbs) : Prop :=
  0 <= l0 h < 43 * 2 ^ 26 /\ 0 <= l1 h < 2 ^ 27 /\ 0 <= l2 h < 2 ^ 27 /\ 0 <= l3 h < 2 ^ 27 /\ 0 <= l4 h < 3 * 2 ^ 25.
(** The multiplier is clamped and the other words are five times its limbs. *)
Record mult_ok (st : poly1305_state_st) : Prop := {
  r0_ok : 0 <= l0 (poly_r st) < 2 ^ 26;
  r1_ok : 0 <= l1 (poly_r st) < 2 ^ 26;
  r2_ok : 0 <= l2 (poly_r st) < 2 ^ 26;
  r3_ok : 0 <= l3 (poly_r st) < 2 ^ 26;
  r4_ok : 0 <= l4 (poly_r st) < 2 ^ 20;
  s1_ok : s1 st = 5 * l1 (poly_r st);
  s2_ok : s2 st = 5 * l2 (poly_r st);
  s3_ok : s3 st = 5 * l3 (poly_r st);
  s4_ok : s4 st = 5 * l4 (poly_r st)
}.

Lemma land_26 x : Z.land x 0x3ff_ffff = x mod 2 ^ 26.
Proof. apply (land_mask x 26). lia. Qed.
Lemma mul_lt a A b B : 0 <= a < A -> 0 <= b < B -> 0 <= a * b < A * B.
Proof. intros. nia. Qed.
Lemma within x A B : 0 <= x < A -> (A <=? B) = true -> 0 <= x < B.
Proof. intros Hx HB%Z.leb_le. lia. Qed.

(** The carries of a product. *)
Definition carry_chain (t0 t1 t2 t3 t4 : Z) : limbs :=
  let h0 := Z.land (u32 t0) 0x3ff_ffff in
  let t1 := u64 (t1 + Z.shiftr t0 26) in
  let h1 := Z.land (u32 t1) 0x3ff_ffff in
  let t2 := u64 (t2 + u32 (Z.shiftr t1 26)) in
  let h2 := Z.land (u32 t2) 0x3ff_ffff in
  let t3 := u64 (t3 + u32 (Z.shiftr t2 26)) in
  let h3 := Z.land (u32 t3) 0x3ff_ffff in
  let t4 := u64 (t4 + u32 (Z.shiftr t3 26)) in
  let h4 := Z.land (u32 t4) 0x3ff_ffff in
  Limbs (u32 (h0 + u32 (u32 (Z.shiftr t4 26) * 5))) h1 h2 h3 h4.

Lemma low_26 t : 0 <= t -> Z.land (u32 t) 0x3ff_ffff = t mod 2 ^ 26.
Proof. intros Ht. rewrite land_26. unfold u32, wrap. Z.div_mod_to_equations; lia. Qed.
Lemma high_26 t : 0 <= t < 2 ^ 58 -> u32 (Z.shiftr t 26) = t / 2 ^ 26.
Proof.
  intros Ht. rewrite Z.shiftr_div_pow2 by lia. unfold u32. apply wrap_small.
  Z.div_mod_to_equations; lia.
Qed.
Lemma add_64 t c : 0 <= t < 2 ^ 60 -> 0 <= c < 2 ^ 60 -> u64 (t + c) = t + c.
Proof. intros Ht Hc. unfold u64. apply wrap_small. lia. Qed.

Lemma carry_chain_ok t0 t1 t2 t3 t4 :
  0 <= t0 < 71 * 2 ^ 52 -> 0 <= t1 < 63 * 2 ^ 52 -> 0 <= t2 < 55 * 2 ^ 52 -> 0 <= t3 < 50 * 2 ^ 52 ->
  0 <= t4 < 523 * 2 ^ 46 ->
  acc_ok (carry_chain t0 t1 t2 t3 t4) /\
  exists q, limbs_val (carry_chain t0 t1 t2 t3 t4) =
            t0 + 2 ^ 26 * t1 + 2 ^ 52 * t2 + 2 ^ 78 * t3 + 2 ^ 104 * t4 - P1305 * q.
Proof.
  intros H0 H1 H2 H3 H4. unfold carry_chain. cbv zeta.
  rewrite (Z.shiftr_div_pow2 t0) by lia.
  assert (0 <= t0 / 2 ^ 26 < 71 * 2 ^ 26) as Hc0 by (Z.div_mod_to_equations; lia).
  rewrite (add_64 t1) by lia. set (u1 := t1 + t0 / 2 ^ 26).
  assert (0 <= u1 / 2 ^ 26 < 2 ^ 32) as Hc1 by (unfold u1; Z.div_mod_to_equations; lia).
  rewrite (high_26 u1) by lia. rewrite (add_64 t2) by lia. set (u2 := t2 + u1 / 2 ^ 26).
  assert (0 <= u2 / 2 ^ 26 < 2 ^ 32) as Hc2 by (unfold u2; Z.div_mod_to_equations; lia).
  rewrite (high_26 u2) by lia. rewrite (add_64 t3) by lia. set (u3 := t3 + u2 / 2 ^ 26).
  assert (0 <= u3 / 2 ^ 26 < 2 ^ 32) as Hc3 by (unfold u3; Z.div_mod_to_equations; lia).
  rewrite (high_26 u3) by lia. rewrite (add_64 t4) by lia. set (u4 := t4 + u3 / 2 ^ 26).
  assert (0 <= u4 / 2 ^ 26 < 549_000_000) as Hc4 by (unfold u4; Z.div_mod_to_equations; lia).
  rewrite (high_26 u4), !low_26 by lia.
  assert (0 <= t0 mod 2 ^ 26 < 2 ^ 26) by (apply Z.mod_pos_bound; lia).
  unfold u32. rewrite (wrap_small 32 (u4 / 2 ^ 26 * 5)), wrap_small by lia.
  unfold acc_ok, limbs_val, P1305. cbn [l0 l1 l2 l3 l4].
  split; [split_and!; try (apply Z.mod_pos_bound; lia); lia|].
  exists (u4 / 2 ^ 26). subst u1 u2 u3 u4. clear - H0.
  pose proof (Z.div_mod t0 (2 ^ 26)).
  set (u1 := t1 + _) in *. pose proof (Z.div_mod u1 (2 ^ 26)).
  set (u2 := t2 + _) in *. pose proof (Z.div_mod u2 (2 ^ 26)).
  set (u3 := t3 + _) in *. pose proof (Z.div_mod u3 (2 ^ 26)).
  set (u4 := t4 + _) in *. pose proof (Z.div_mod u4 (2 ^ 26)). lia.
Qed.

(** A sum of five products. *)
Definition dot (a0 b0 a1 b1 a2 b2 a3 b3 a4 b4 : Z) : Z :=
  u64 (mul32x32_64 a0 b0 + mul32x32_64 a1 b1 + mul32x32_64 a2 b2 + mul32x32_64 a3 b3 + mul32x32_64 a4 b4).
Lemma dot_ok a0 b0 a1 b1 a2 b2 a3 b3 a4 b4 A0 B0 A1 B1 A2 B2 A3 B3 A4 B4 :
  0 <= a0 < A0 -> 0 <= b0 < B0 -> 0 <= a1 < A1 -> 0 <= b1 < B1 -> 0 <= a2 < A2 -> 0 <= b2 < B2 ->
  0 <= a3 < A3 -> 0 <= b3 < B3 -> 0 <= a4 < A4 -> 0 <= b4 < B4 ->
  A0 * B0 + A1 * B1 + A2 * B2 + A3 * B3 + A4 * B4 < 2 ^ 64 ->
  dot a0 b0 a1 b1 a2 b2 a3 b3 a4 b4 = a0 * b0 + a1 * b1 + a2 * b2 + a3 * b3 + a4 * b4 /\
  0 <= a0 * b0 + a1 * b1 + a2 * b2 + a3 * b3 + a4 * b4 < A0 * B0 + A1 * B1 + A2 * B2 + A3 * B3 + A4 * B4.
Proof.
  intros Ha0 Hb0 Ha1 Hb1 Ha2 Hb2 Ha3 Hb3 Ha4 Hb4 Hs.
  pose proof (mul_lt _ _ _ _ Ha0 Hb0). pose proof (mul_lt _ _ _ _ Ha1 Hb1). pose proof (mul_lt _ _ _ _ Ha2 Hb2).
  pose proof (mul_lt _ _ _ _ Ha3 Hb3). pose proof (mul_lt _ _ _ _ Ha4 Hb4).
  unfold dot, mul32x32_64, u64. rewrite !(wrap_small 64 (_ * _)) by lia. rewrite wrap_small by lia. lia.
Qed.

Lemma donna_mul_ok st h :
  mult_ok st -> sum_ok h ->
  acc_ok (donna_mul st h) /\ limbs_val (donna_mul st h) =p= limbs_val h * limbs_val (poly_r st).
Proof.
  intros [R0 R1 R2 R3 R4 S1 S2 S3 S4] (H0 & H1 & H2 & H3 & H4).
  destruct h as [h0 h1 h2 h3 h4], st as [[r0 r1 r2 r3 r4] ? ? ? ? ? ? ? ?].
  cbn in R0, R1, R2, R3, R4, S1, S2, S3, S4, H0, H1, H2, H3, H4. subst.
  assert (forall r R, 0 <= r < R -> 0 <= 5 * r < 5 * R) as M5 by lia.
  pose proof (M5 _ _ R1) as S1. pose proof (M5 _ _ R2) as S2. pose proof (M5 _ _ R3) as S3. pose proof (M5 _ _ R4) as S4.
  destruct (dot_ok _ _ _ _ _ _ _ _ _ _ _ _ _ _ _ _ _ _ _ _ H0 R0 H1 S4 H2 S3 H3 S2 H4 S1 eq_refl) as [E0 B0].
  destruct (dot_ok _ _ _ _ _ _ _ _ _ _ _ _ _ _ _ _ _ _ _ _ H0 R1 H1 R0 H2 S4 H3 S3 H4 S2 eq_refl) as [E1 B1].
  destruct (dot_ok _ _ _ _ _ _ _ _ _ _ _ _ _ _ _ _ _ _ _ _ H0 R2 H1 R1 H2 R0 H3 S4 H4 S3 eq_refl) as [E2 B2].
  destruct (dot_ok _ _ _ _ _ _ _ _ _ _ _ _ _ _ _ _ _ _ _ _ H0 R3 H1 R2 H2 R1 H3 R0 H4 S4 eq_refl) as [E3 B3].
  destruct (dot_ok _ _ _ _ _ _ _ _ _ _ _ _ _ _ _ _ _ _ _ _ H0 R4 H1 R3 H2 R2 H3 R1 H4 R0 eq_refl) as [E4 B4].
  match goal with |- context [donna_mul ?s ?h] => replace (donna_mul s h) with
    (carry_chain
       (dot h0 r0 h1 (5 * r4) h2 (5 * r3) h3 (5 * r2) h4 (5 * r1))
       (dot h0 r1 h1 r0 h2 (5 * r4) h3 (5 * r3) h4 (5 * r2))
       (dot h0 r2 h1 r1 h2 r0 h3 (5 * r4) h4 (5 * r3))
       (dot h0 r3 h1 r2 h2 r1 h3 r0 h4 (5 * r4))
       (dot h0 r4 h1 r3 h2 r2 h3 r1 h4 r0)) by reflexivity end.
  rewrite E0, E1, E2, E3, E4.
  destruct (carry_chain_ok _ _ _ _ _ (within _ _ (71 * 2 ^ 52) B0 eq_refl) (within _ _ (63 * 2 ^ 52) B1 eq_refl) (within _ _ (55 * 2 ^ 52) B2 eq_refl)
              (within _ _ (50 * 2 ^ 52) B3 eq_refl) (within _ _ (523 * 2 ^ 46) B4 eq_refl)) as [Ha [q Hq]].
  split; [exact Ha|]. rewrite Hq. unfold limbs_val. cbn [l0 l1 l2 l3 l4 poly_r].
  set (K := h1 * r4 + h2 * r3 + h3 * r2 + h4 * r1 + 2 ^ 26 * (h2 * r4 + h3 * r3 + h4 * r2)
            + 2 ^ 52 * (h3 * r4 + h4 * r3) + 2 ^ 78 * (h4 * r4)).
  exists (- (K + q)). unfold K, P1305. ring.
Qed.

(** A block in words. *)
Lemma block_words p :
  length p = 16%nat -> bytes_ok p ->
  exists t0 t1 t2 t3,
    CRYPTO_load_u32_le p = t0 /\ CRYPTO_load_u32_le (drop 4 p) = t1 /\
    CRYPTO_load_u32_le (drop 8 p) = t2 /\ CRYPTO_load_u32_le (drop 12 p) = t3 /\
    0 <= t0 < 2 ^ 32 /\ 0 <= t1 < 2 ^ 32 /\ 0 <= t2 < 2 ^ 32 /\ 0 <= t3 < 2 ^ 32 /\
    le_val p = t0 + 2 ^ 32 * t1 + 2 ^ 64 * t2 + 2 ^ 96 * t3.
Proof.
  intros Hl Hp. unfold CRYPTO_load_u32_le. do 4 eexists. do 4 (split; [reflexivity|]).
  assert (forall n, (n + 4 <= 16)%nat -> 0 <= le_val (take 4 (drop n p)) < 2 ^ 32) as Hb.
  { intros n Hn. pose proof (le_val_bound (take 4 (drop n p))) as H.
    rewrite length_take, length_drop, Hl, Nat.min_l in H by lia. apply H.
    by apply Forall_take, Forall_drop. }
  do 4 (split; [try (apply Hb; lia); apply (Hb 0%nat); lia|]).
  rewrite <- (take_drop 4 p) at 1. rewrite <- (take_drop 4 (drop 4 p)) at 1.
  rewrite <- (take_drop 4 (drop 4 (drop 4 p))) at 1. rewrite !drop_drop. cbn [Nat.add].
  rewrite !le_val_app, !length_take, !length_drop, Hl.
  rewrite (take_ge (drop 12 p)) by (rewrite length_drop; lia). cbn [Nat.min Nat.sub]. lia.
Qed.

Lemma word_shift a b k :
  0 <= a < 2 ^ 32 -> 0 <= b -> 0 <= k ->
  Z.land (Z.shiftr (Z.lor (Z.shiftl b 32) a) k) 0x3ff_ffff = (a + 2 ^ 32 * b) / 2 ^ k mod 2 ^ 26.
Proof.
  intros Ha Hb Hk. rewrite land_26, Z.shiftr_div_pow2, Z.lor_comm, lor_shiftl_add by lia.
  do 2 f_equal. lia.
Qed.

Lemma add_poly_block_ok e p h :
  (e = 0 \/ e = 1) -> length p = 16%nat -> bytes_ok p -> acc_ok h ->
  sum_ok (add_poly_block (Z.shiftl e 24) p h) /\
  limbs_val (add_poly_block (Z.shiftl e 24) p h) = limbs_val h + le_val p + 2 ^ 128 * e.
Proof.
  intros He Hl Hp (H0 & H1 & H2 & H3 & H4).
  destruct (block_words p Hl Hp) as (t0 & t1 & t2 & t3 & E0 & E1 & E2 & E3 & B0 & B1 & B2 & B3 & Ev).
  unfold add_poly_block. rewrite E0, E1, E2, E3, !word_shift by lia. rewrite land_26, Ev.
  rewrite (Z.shiftr_div_pow2 t3), lor_shiftl_add by (split_and?; try lia; Z.div_mod_to_equations; lia).
  destruct h as [h0 h1 h2 h3 h4]. cbn [l0 l1 l2 l3 l4] in *.
  assert (0 <= t0 mod 2 ^ 26 < 2 ^ 26) by (apply Z.mod_pos_bound; lia).
  assert (forall x, 0 <= x mod 2 ^ 26 < 2 ^ 26) as Hm by (intros; apply Z.mod_pos_bound; lia).
  pose proof (Hm ((t0 + 2 ^ 32 * t1) / 2 ^ 26)). pose proof (Hm ((t1 + 2 ^ 32 * t2) / 2 ^ 20)).
  pose proof (Hm ((t2 + 2 ^ 32 * t3) / 2 ^ 14)).
  assert (0 <= t3 / 2 ^ 8 < 2 ^ 24) by (Z.div_mod_to_equations; lia).
  unfold u32. rewrite !(wrap_small 32) by lia.
  unfold sum_ok, limbs_val. cbn [l0 l1 l2 l3 l4]. split; [lia|].
  Z.div_mod_to_equations. lia.
Qed.

(** ** Messages *)

Lemma add_poly_block_take top p h : add_poly_block top (take 16 p) h = add_poly_block top p h.
Proof.
  unfold add_poly_block, CRYPTO_load_u32_le. rewrite !skipn_firstn_comm, !take_take. cbn [Nat.min Nat.sub]. done.
Qed.
(** Only the multiplier matters. *)
Definition same_mult (a b : poly1305_state_st) : Prop :=
  poly_r a = poly_r b /\ s1 a = s1 b /\ s2 a = s2 b /\ s3 a = s3 b /\ s4 a = s4 b.
Lemma donna_mul_same a b h : same_mult a b -> donna_mul a h = donna_mul b h.
Proof. intros (E & E1 & E2 & E3 & E4). unfold donna_mul. by rewrite E, E1, E2, E3, E4. Qed.
#[local] Opaque donna_mul add_poly_block.

Lemma poly_eval_nil fuel r a : poly_eval fuel r a [] = a.
Proof. by destruct fuel. Qed.
Lemma poly_eval_step k r a msg :
  msg <> [] ->
  poly_eval (S k) r a msg = poly_eval k r (((a + le_val (take 16 msg ++ [1])) * r) mod P1305) (drop 16 msg).
Proof. by destruct msg. Qed.

Lemma donna_atmost15_ok st data h :
  mult_ok st -> acc_ok h -> bytes_ok data -> (length data < 16)%nat ->
  acc_ok (donna_atmost15bytes st data h) /\
  limbs_val (donna_atmost15bytes st data h) =p= poly_eval 1 (limbs_val (poly_r st)) (limbs_val h) data.
Proof.
  intros Hst Hh Hd Hl. destruct data as [|x data]; [done|]. set (d := x :: data) in *.
  set (p := d ++ 1 :: zeros (15 - Z.of_nat (length d))).
  assert (Z.of_nat (length (zeros (15 - Z.of_nat (length d)))) = 15 - Z.of_nat (length d)) as Hz
    by (apply length_zeros; lia).
  assert (length p = 16%nat) as Hp by (unfold p; rewrite length_app; cbn [length]; lia).
  assert (le_val p = le_val (d ++ [1])) as Ev.
  { unfold p. change (1 :: zeros _) with ([1] ++ zeros (15 - Z.of_nat (length d))).
    rewrite app_assoc, le_val_app. unfold zeros. rewrite (le_val_replicate _ 0), Z.eqb_refl by lia. lia. }
  destruct (add_poly_block_ok 0 p h) as [Hs Hv]; [lia|done| |done|].
  { apply Forall_app. split; [done|]. constructor; [unfold is_byte; lia|]. apply Forall_replicate. unfold is_byte; lia. }
  replace (donna_atmost15bytes st d h) with (donna_mul st (add_poly_block (Z.shiftl 0 24) p h)) by reflexivity.
  destruct (donna_mul_ok st _ Hst Hs) as [Ha He]. split; [done|].
  rewrite He, Hv, Ev, poly_eval_step, (take_ge d), (drop_ge d), poly_eval_nil by (done || lia).
  rewrite mod_residue. rewrite Z.mul_0_r, Z.add_0_r. reflexivity.
Qed.

#[global] Instance poly_eval_proper fuel r : Proper (same_residue ==> eq ==> same_residue) (poly_eval fuel r).
Proof.
  induction fuel as [|k IH]; intros a b Hab msg ? <-; destruct msg; try exact Hab.
  cbn [poly_eval]. apply IH; [|done]. rewrite !mod_residue. by rewrite Hab.
Qed.

(** More fuel than bytes changes nothing. *)
Lemma poly_eval_fuel f : forall g r a msg,
  (length msg <= f)%nat -> (length msg <= g)%nat -> poly_eval f r a msg = poly_eval g r a msg.
Proof.
  induction f as [|f IH]; intros [|g] r a [|x msg] Hf Hg; cbn [length] in *; try done; try lia.
  cbn [poly_eval]. apply IH; rewrite length_drop; cbn [length]; lia.
Qed.

Lemma donna_16bytes_ok fuel : forall st data h,
  mult_ok st -> acc_ok h -> bytes_ok data -> (length data <= fuel)%nat ->
  acc_ok (donna_16bytes fuel st data h) /\
  limbs_val (donna_16bytes fuel st data h) =p= poly_eval fuel (limbs_val (poly_r st)) (limbs_val h) data.
Proof.
  induction fuel as [|fuel IH]; intros st data h Hst Hh Hd Hl.
  { destruct data; [|cbn in Hl; lia]. done. }
  cbn [donna_16bytes]. destruct (Z.ltb_spec (Z.of_nat (length data)) 16) as [Hs|Hs].
  { destruct (donna_atmost15_ok st data h) as [Ha He]; [done..|lia|]. split; [done|]. rewrite He.
    destruct data as [|x data]; [done|]. by rewrite !poly_eval_step, (drop_ge (x :: data)), !poly_eval_nil by (done || lia). }
  assert (length (take 16 data) = 16%nat) as Ht by (rewrite length_take; lia).
  replace (add_poly_block (Z.shiftl 1 24) data h) with (add_poly_block (Z.shiftl 1 24) (take 16 data) h) by apply add_poly_block_take.
  destruct (add_poly_block_ok 1 (take 16 data) h) as [Hsum Hv]; [lia|done|by apply Forall_take|done|].
  destruct (donna_mul_ok st _ Hst Hsum) as [Ha He].
  destruct (IH st (drop 16 data) _ Hst Ha) as [Ha' He']; [by apply Forall_drop|rewrite length_drop; lia|].
  split; [done|]. rewrite He'. destruct data as [|x data]; [cbn in Hs; lia|]. set (d := x :: data) in *.
  rewrite poly_eval_step by done. rewrite He, Hv, mod_residue, le_val_app, Ht. cbn [le_val].
  change (256 ^ Z.of_nat 16) with (2 ^ 128).
  replace (limbs_val h + le_val (take 16 d) + 2 ^ 128 * 1) with (limbs_val h + (le_val (take 16 d) + 2 ^ 128 * (1 + 256 * 0))) by lia.
  reflexivity.
Qed.

(** ** The key *)

Lemma land_mod k x y : 0 <= k -> Z.land x y mod 2 ^ k = Z.land (x mod 2 ^ k) (y mod 2 ^ k).
Proof. intros Hk. rewrite <- !Z.land_ones by lia. bits. Qed.
Lemma land_split k a b c d :
  0 <= k -> 0 <= a < 2 ^ k -> 0 <= c < 2 ^ k ->
  Z.land (a + 2 ^ k * b) (c + 2 ^ k * d) = Z.land a c + 2 ^ k * Z.land b d.
Proof.
  intros Hk Ha Hc. assert (2 ^ k <> 0) by lia.
  rewrite (Z.div_mod (Z.land (a + 2 ^ k * b) (c + 2 ^ k * d)) (2 ^ k)), land_mod by lia.
  rewrite <- Z.shiftr_div_pow2, Z.shiftr_land, !Z.shiftr_div_pow2 by lia.
  rewrite !(Z.add_comm _ (2 ^ k * _)), !(Z.mul_comm (2 ^ k)), !Z.div_add_l, !(Z.div_small _ (2 ^ k)) by lia.
  rewrite !(Z.add_comm (_ * 2 ^ k)), !Z_mod_plus_full, !Z.mod_small, !Z.add_0_r by lia. lia.
Qed.
Lemma land_low k x m : 0 <= k -> 0 <= m < 2 ^ k -> Z.land x m = Z.land (x mod 2 ^ k) m.
Proof.
  intros Hk Hm. rewrite <- Z.land_ones by lia. rewrite <- (Z.mod_small m (2 ^ k)), <- Z.land_ones by lia. bits.
Qed.
Lemma land_below k x m : 0 <= k -> 0 <= m < 2 ^ k -> 0 <= Z.land x m < 2 ^ k.
Proof.
  intros Hk Hm. rewrite <- (Z.mod_small m (2 ^ k)) by lia. rewrite <- Z.land_ones, Z.land_assoc, Z.land_ones by lia.
  apply Z.mod_pos_bound. lia.
Qed.

(** What the mask keeps of every limb. *)
Lemma clamp_limbs n0 n1 n2 n3 n4 :
  0 <= n0 < 2 ^ 26 -> 0 <= n1 < 2 ^ 26 -> 0 <= n2 < 2 ^ 26 -> 0 <= n3 < 2 ^ 26 ->
  clamp (n0 + 2 ^ 26 * (n1 + 2 ^ 26 * (n2 + 2 ^ 26 * (n3 + 2 ^ 26 * n4)))) =
  Z.land n0 0x3ff_ffff + 2 ^ 26 * (Z.land n1 0x3ff_ff03 + 2 ^ 26 * (Z.land n2 0x3ff_c0ff +
    2 ^ 26 * (Z.land n3 0x3f0_3fff + 2 ^ 26 * Z.land n4 0x00f_ffff))).
Proof.
  intros H0 H1 H2 H3. unfold clamp. rewrite <- !land_split by lia. f_equal.
Qed.

(** Bits of a word above others. *)
Lemma lor_word a b l :
  0 <= l <= 32 -> 0 <= a < 2 ^ l -> Z.lor a (u32 (Z.shiftl b l)) = a + 2 ^ l * (b mod 2 ^ (32 - l)).
Proof.
  intros Hl Ha. assert (u32 (Z.shiftl b l) = Z.shiftl (b mod 2 ^ (32 - l)) l) as ->.
  { unfold u32, wrap. rewrite !Z.shiftl_mul_pow2, !(Z.mul_comm _ (2 ^ l)), <- Zmult_mod_distr_l by lia.
    by rewrite <- Z.pow_add_r, Z.add_comm, Z.sub_add by lia. }
  rewrite lor_shiftl_add by lia. lia.
Qed.

(** Twenty-six bits across two words. *)
Lemma word_pair a b j l :
  0 < j <= 26 -> l = 32 - j -> 0 <= a < 2 ^ 32 -> 0 <= b < 2 ^ 32 ->
  Z.lor (Z.shiftr a j) (u32 (Z.shiftl b l)) mod 2 ^ 26 = (a + 2 ^ 32 * b) / 2 ^ j mod 2 ^ 26.
Proof.
  intros Hj -> Ha Hb. assert (2 ^ 32 = 2 ^ (32 - j) * 2 ^ j) as E by (rewrite <- Z.pow_add_r by lia; f_equal; lia).
  assert (0 < 2 ^ j) by lia. assert (0 < 2 ^ (32 - j)) by lia.
  assert (0 <= a / 2 ^ j < 2 ^ (32 - j)) by (split; [apply Z.div_pos|apply Z.div_lt_upper_bound]; lia).
  rewrite Z.shiftr_div_pow2, lor_word by lia. replace (32 - (32 - j)) with j by lia.
  replace (a + 2 ^ 32 * b) with (a + (2 ^ (32 - j) * b) * 2 ^ j) by (rewrite E; ring). rewrite Z.div_add by lia.
  replace (2 ^ (32 - j) * b) with (2 ^ (32 - j) * (b mod 2 ^ j) + (2 ^ 6 * (b / 2 ^ j)) * 2 ^ 26).
  { by rewrite Z.add_assoc, Z_mod_plus_full. }
  rewrite (Z.div_mod b (2 ^ j)) at 3 by lia.
  replace (2 ^ 6 * (b / 2 ^ j) * 2 ^ 26) with ((b / 2 ^ j) * 2 ^ 32) by lia. rewrite E. ring.
Qed.

Lemma init_ok garbage key :
  bytes_ok key -> (32 <= length key)%nat ->
  exists st, CRYPTO_poly1305_init garbage key = Ret st /\ mult_ok st /\
    limbs_val (poly_r st) = clamp (le_val (take 16 key)) /\ poly_h st = Limbs 0 0 0 0 0 /\
    poly_buf st = garbage /\ poly_buf_used st = 0 /\ poly_key st = take 16 (drop 16 key).
Proof.
  intros Hk Hl. unfold CRYPTO_poly1305_init. rewrite get_run by lia. cbn [rbind].
  change (Z.to_nat 32) with 32%nat.
  destruct (block_words (take 16 key)) as (t0 & t1 & t2 & t3 & E0 & E1 & E2 & E3 & B0 & B1 & B2 & B3 & Ev);
    [rewrite length_take; lia|by apply Forall_take|].
  assert (forall n, (n <= 12)%nat ->
    CRYPTO_load_u32_le (drop n (take 32 key)) = CRYPTO_load_u32_le (drop n (take 16 key))) as Ht.
  { intros n Hn. unfold CRYPTO_load_u32_le. rewrite !skipn_firstn_comm, !take_take. f_equal. f_equal. lia. }
  change (CRYPTO_load_u32_le (take 32 key)) with (CRYPTO_load_u32_le (drop 0 (take 32 key))).
  rewrite !Ht, E1, E2, E3 by lia. change (drop 0 (take 16 key)) with (take 16 key). rewrite E0.
  eexists. split; [reflexivity|]. rewrite Ev. clear Ht E0 E1 E2 E3 Ev.
  cbn [poly_r poly_h poly_buf poly_buf_used poly_key].
  split_and!; [| |done|done|done|by rewrite skipn_firstn_comm].
  - pose proof (fun x m => land_below 26 x m ltac:(lia)) as H26. pose proof (fun x m => land_below 20 x m ltac:(lia)) as H20.
    split; cbn [poly_r s1 s2 s3 s4 l0 l1 l2 l3 l4];
      try (apply H26; lia); try (apply H20; lia); unfold u32; rewrite Z.mul_comm; apply wrap_small;
      (match goal with |- context [Z.land ?x ?m] => pose proof (H26 x m ltac:(lia)) end); lia.
  - unfold limbs_val. cbn [l0 l1 l2 l3 l4].
    rewrite (land_low 26 t0), (land_low 26 (Z.lor (Z.shiftr t0 26) _)), (land_low 26 (Z.lor (Z.shiftr t1 20) _)),
      (land_low 26 (Z.lor (Z.shiftr t2 14) _)) by lia.
    rewrite (word_pair t0 t1 26 6), (word_pair t1 t2 20 12), (word_pair t2 t3 14 18), (Z.shiftr_div_pow2 t3) by lia.
    set (n0 := t0 mod 2 ^ 26). set (n1 := (t0 + 2 ^ 32 * t1) / 2 ^ 26 mod 2 ^ 26).
    set (n2 := (t1 + 2 ^ 32 * t2) / 2 ^ 20 mod 2 ^ 26). set (n3 := (t2 + 2 ^ 32 * t3) / 2 ^ 14 mod 2 ^ 26).
    set (n4 := t3 / 2 ^ 8).
    replace (t0 + 2 ^ 32 * t1 + 2 ^ 64 * t2 + 2 ^ 96 * t3) with
      (n0 + 2 ^ 26 * (n1 + 2 ^ 26 * (n2 + 2 ^ 26 * (n3 + 2 ^ 26 * n4)))).
    + rewrite clamp_limbs by (apply Z.mod_pos_bound; lia). ring.
    + subst n0 n1 n2 n3 n4. Z.div_mod_to_equations. lia.
Qed.

(** ** The end of a message *)

(** The accumulator modulo the prime, where the code loses a carry if the limbs add
    up to the prime plus this: below 5 in the lowest 26 bits and even above them. *)
Definition carry_lost (a : Z) : bool := (a mod 2 ^ 27 <? 5) && (0 <? a / 2 ^ 27) && (a / 2 ^ 27 <? 22).

Definition limbs_below (n0 : Z) (h : limbs) : Prop :=
  0 <= l0 h < n0 /\ 0 <= l1 h < 2 ^ 26 /\ 0 <= l2 h < 2 ^ 26 /\ 0 <= l3 h < 2 ^ 26 /\ 0 <= l4 h < 2 ^ 26.

Lemma carry_around_ok h :
  acc_ok h ->
  let v := limbs_val h in
  let f := carry_around h in
  (v < 2 ^ 130 /\ limbs_below (2 ^ 26) f /\ limbs_val f = v) \/
  (0 <= v - 2 ^ 130 < 42 * 2 ^ 26 /\
   f = Limbs ((v - 2 ^ 130) mod 2 ^ 26 + 5) ((v - 2 ^ 130) / 2 ^ 26) 0 0 0).
Proof.
  intros (H0 & H1 & H2 & H3 & H4). destruct h as [h0 h1 h2 h3 h4]. cbn [l0 l1 l2 l3 l4] in *.
  unfold carry_around. cbn [l0 l1 l2 l3 l4]. cbv zeta. rewrite !land_26, !Z.shiftr_div_pow2 by lia.
  assert (0 <= h0 / 2 ^ 26 < 42) as B0 by (Z.div_mod_to_equations; lia).
  unfold u32. rewrite (wrap_small 32 (h1 + _)) by lia. set (u1 := h1 + h0 / 2 ^ 26).
  assert (0 <= u1 / 2 ^ 26 <= 1) as B1 by (unfold u1; Z.div_mod_to_equations; lia).
  rewrite (wrap_small 32 (h2 + _)) by lia. set (u2 := h2 + u1 / 2 ^ 26).
  assert (0 <= u2 / 2 ^ 26 <= 1) as B2 by (unfold u2; Z.div_mod_to_equations; lia).
  rewrite (wrap_small 32 (h3 + _)) by lia. set (u3 := h3 + u2 / 2 ^ 26).
  assert (0 <= u3 / 2 ^ 26 <= 1) as B3 by (unfold u3; Z.div_mod_to_equations; lia).
  rewrite (wrap_small 32 (h4 + _)) by lia. set (u4 := h4 + u3 / 2 ^ 26).
  assert (0 <= u4 / 2 ^ 26 <= 1) as B4 by (unfold u4; Z.div_mod_to_equations; lia).
  rewrite (wrap_small 32 (_ * 5)) by lia.
  assert (forall x, 0 <= x mod 2 ^ 26 < 2 ^ 26) as Hm by (intros; apply Z.mod_pos_bound; lia).
  rewrite wrap_small by (pose proof (Hm h0); lia).
  unfold limbs_val. cbn [l0 l1 l2 l3 l4].
  pose proof (Z.div_mod h0 (2 ^ 26)). pose proof (Z.div_mod u1 (2 ^ 26)). pose proof (Z.div_mod u2 (2 ^ 26)).
  pose proof (Z.div_mod u3 (2 ^ 26)). pose proof (Z.div_mod u4 (2 ^ 26)).
  pose proof (Hm h0). pose proof (Hm u1). pose proof (Hm u2). pose proof (Hm u3). pose proof (Hm u4).
  destruct (decide (u4 / 2 ^ 26 = 0)) as [E|E].
  - left. unfold limbs_below, limbs_val. cbn [l0 l1 l2 l3 l4]. split_and!; lia.
  - right. assert (u4 / 2 ^ 26 = 1) as E4 by lia.
    assert (u4 mod 2 ^ 26 = 0) by lia. assert (u3 / 2 ^ 26 = 1) by lia.
    assert (u3 mod 2 ^ 26 = 0) by lia. assert (u2 / 2 ^ 26 = 1) by lia.
    assert (u2 mod 2 ^ 26 = 0) by lia. assert (u1 / 2 ^ 26 = 1) by lia.
    set (w := _ - 2 ^ 130). assert (w = h0 mod 2 ^ 26 + 2 ^ 26 * (u1 mod 2 ^ 26)) as Ew by (unfold w; lia).
    split; [lia|]. rewrite E4.
    assert (w / 2 ^ 26 = u1 mod 2 ^ 26 /\ w mod 2 ^ 26 = h0 mod 2 ^ 26) as [-> ->] by
      (clear - Ew Hm; specialize (Hm h0); Z.div_mod_to_equations; lia).
    f_equal; lia.
Qed.

Lemma minus_p_ok f :
  limbs_below (2 ^ 26 + 5) f ->
  let g := minus_p f in
  (limbs_val f < P1305 /\ 2 ^ 31 <= l4 g < 2 ^ 32) \/
  (P1305 <= limbs_val f /\ limbs_below (2 ^ 26) g /\ limbs_val g = limbs_val f - P1305).
Proof.
  intros (H0 & H1 & H2 & H3 & H4). destruct f as [h0 h1 h2 h3 h4]. cbn [l0 l1 l2 l3 l4] in *.
  unfold minus_p. cbn [l0 l1 l2 l3 l4]. cbv zeta. rewrite !land_26, !Z.shiftr_div_pow2 by lia.
  unfold u32. rewrite (wrap_small 32 (h0 + 5)) by lia. set (u0 := h0 + 5).
  assert (0 <= u0 / 2 ^ 26 <= 1) as B0 by (unfold u0; Z.div_mod_to_equations; lia).
  rewrite (wrap_small 32 (h1 + _)) by lia. set (u1 := h1 + u0 / 2 ^ 26).
  assert (0 <= u1 / 2 ^ 26 <= 1) as B1 by (unfold u1; Z.div_mod_to_equations; lia).
  rewrite (wrap_small 32 (h2 + _)) by lia. set (u2 := h2 + u1 / 2 ^ 26).
  assert (0 <= u2 / 2 ^ 26 <= 1) as B2 by (unfold u2; Z.div_mod_to_equations; lia).
  rewrite (wrap_small 32 (h3 + _)) by lia. set (u3 := h3 + u2 / 2 ^ 26).
  assert (0 <= u3 / 2 ^ 26 <= 1) as B3 by (unfold u3; Z.div_mod_to_equations; lia).
  assert (forall x, 0 <= x mod 2 ^ 26 < 2 ^ 26) as Hm by (intros; apply Z.mod_pos_bound; lia).
  pose proof (Z.div_mod u0 (2 ^ 26)). pose proof (Z.div_mod u1 (2 ^ 26)). pose proof (Z.div_mod u2 (2 ^ 26)).
  pose proof (Z.div_mod u3 (2 ^ 26)).
  pose proof (Hm u0). pose proof (Hm u1). pose proof (Hm u2). pose proof (Hm u3).
  rewrite Z.shiftl_1_l. unfold limbs_below, limbs_val, P1305. cbn [l0 l1 l2 l3 l4].
  destruct (decide (h4 + u3 / 2 ^ 26 < 2 ^ 26)) as [E|E].
  - left. unfold wrap. rewrite <- (Z_mod_plus_full _ 1), Z.mod_small by lia. lia.
  - right. rewrite wrap_small by lia. split_and!; lia.
Qed.

Lemma select_limbs_ok n f g :
  n <= 2 ^ 32 -> limbs_below n f ->
  (2 ^ 31 <= l4 g < 2 ^ 32 -> select_limbs f g = f) /\
  (limbs_below (2 ^ 26) g -> select_limbs f g = g).
Proof.
  intros Hn Hf. destruct f as [h0 h1 h2 h3 h4], g as [g0 g1 g2 g3 g4].
  unfold limbs_below, select_limbs in *. cbn [l0 l1 l2 l3 l4] in *.
  assert (forall x, 0 <= x < 2 ^ 32 -> Z.land x 0xffff_ffff = x) as Hx.
  { intros x Hx. etransitivity; [apply (land_mask x 32); lia|]. apply Z.mod_small. lia. }
  split; intros Hg.
  - replace (Z.shiftr g4 31) with 1 by (rewrite Z.shiftr_div_pow2 by lia; Z.div_mod_to_equations; lia).
    change (u32 (1 - 1)) with 0. change (u32 (Z.lnot 0)) with 0xffff_ffff.
    rewrite !Z.land_0_r, !Z.lor_0_r, !Hx by lia. done.
  - replace (Z.shiftr g4 31) with 0 by (rewrite Z.shiftr_div_pow2 by lia; Z.div_mod_to_equations; lia).
    change (u32 (0 - 1)) with 0xffff_ffff. change (u32 (Z.lnot 0xffff_ffff)) with 0.
    rewrite !Z.land_0_r, !Z.lor_0_l, !Hx by lia. done.
Qed.

(** What the words can be made of: bit 26 belongs to one limb only. *)
Definition emittable (f : limbs) : Prop :=
  limbs_below (2 ^ 26) f \/ (limbs_below (2 ^ 27) f /\ l1 f mod 2 = 0).

Lemma freeze_ok h :
  acc_ok h -> carry_lost (limbs_val h mod P1305) = false ->
  let f := carry_around h in
  emittable (select_limbs f (minus_p f)) /\ limbs_val (select_limbs f (minus_p f)) = limbs_val h mod P1305.
Proof.
  intros Hh Hc f. destruct (carry_around_ok h Hh) as [(Hv & Hf & Ev)|(Hv & Ef)].
  - fold f in Hf, Ev.
    assert (limbs_below (2 ^ 26 + 5) f) as Hf5 by (unfold limbs_below in *; lia).
    assert (0 <= limbs_val f) as Hnn by (unfold limbs_below, limbs_val in *; lia).
    destruct (select_limbs_ok (2 ^ 26) f (minus_p f)) as [S1 S2]; [lia|done|].
    destruct (minus_p_ok f Hf5) as [[Hl Hg]|(Hl & Hg & Eg)].
    + rewrite S1 by done. split; [by left|]. rewrite Ev in *. rewrite Z.mod_small; lia.
    + rewrite S2 by done. split; [by left|]. rewrite Eg, Ev in *.
      apply (Z.mod_unique_pos _ _ 1); unfold P1305 in *; lia.
  - fold f in Ef. set (w := limbs_val h - 2 ^ 130) in *.
    assert (0 <= w mod 2 ^ 26 < 2 ^ 26) as Hw by (apply Z.mod_pos_bound; lia).
    assert (0 <= w / 2 ^ 26 < 42) as Hq by (Z.div_mod_to_equations; lia).
    assert (limbs_below (2 ^ 26 + 5) f) as Hf by (rewrite Ef; unfold limbs_below; cbn [l0 l1 l2 l3 l4]; lia).
    assert (limbs_val f = w + 5) as Ev.
    { rewrite Ef. unfold limbs_val. cbn [l0 l1 l2 l3 l4]. pose proof (Z.div_mod w (2 ^ 26)). lia. }
    assert (limbs_val h mod P1305 = w + 5) as Ea.
    { symmetry. apply (Z.mod_unique_pos _ _ 1); unfold P1305, w in *; lia. }
    destruct (select_limbs_ok (2 ^ 26 + 5) f (minus_p f)) as [S1 _]; [lia|done|].
    destruct (minus_p_ok f Hf) as [[Hl Hg]|(Hl & _ & _)]; [|unfold P1305 in Hl; lia].
    rewrite S1 by done. split; [|by rewrite Ev, Ea]. rewrite Ea in Hc.
    destruct (decide (w mod 2 ^ 26 + 5 < 2 ^ 26)).
    + left. rewrite Ef. unfold limbs_below. cbn [l0 l1 l2 l3 l4]. lia.
    + right. split; [unfold limbs_below in *; lia|]. rewrite Ef. cbn [l1].
      unfold carry_lost in Hc. rewrite !andb_false_iff, !Z.ltb_ge in Hc.
      clear - Hc n Hv. Z.div_mod_to_equations. lia.
Qed.

Lemma le_bytes_split n m v : le_bytes (n + m) v = le_bytes n v ++ le_bytes m (v / 256 ^ Z.of_nat n).
Proof.
  revert v; induction n as [|n IH]; intros v; [by rewrite Z.div_1_r|].
  cbn [Nat.add le_bytes app]. rewrite IH, Z.div_div, pow256_succ by lia. done.
Qed.
Lemma le_bytes_mod n v : le_bytes n (v mod 256 ^ Z.of_nat n) = le_bytes n v.
Proof.
  pose proof (le_bytes_val (le_bytes n v) (le_bytes_ok n v)) as E.
  rewrite length_le_bytes, le_val_bytes, Z.pow_mul_r in E by lia. exact E.
Qed.

(** Four words with carries. *)
Lemma emit_words f0 f1 f2 f3 :
  let g1 := f1 + f0 / 2 ^ 32 in let g2 := f2 + g1 / 2 ^ 32 in let g3 := f3 + g2 / 2 ^ 32 in
  le_bytes 4 (u32 f0) ++ le_bytes 4 (u32 g1) ++ le_bytes 4 (u32 g2) ++ le_bytes 4 (u32 g3) =
  le_bytes 16 (f0 + 2 ^ 32 * f1 + 2 ^ 64 * f2 + 2 ^ 96 * f3).
Proof.
  intros g1 g2 g3. assert (forall v, le_bytes 4 (u32 v) = le_bytes 4 v) as M by (intros v; apply (le_bytes_mod 4)).
  rewrite !M. change 16%nat with (4 + (4 + (4 + 4)))%nat. rewrite !le_bytes_split.
  change (256 ^ Z.of_nat 4) with (2 ^ 32).
  assert ((f0 + 2 ^ 32 * f1 + 2 ^ 64 * f2 + 2 ^ 96 * f3) / 2 ^ 32 = g1 + 2 ^ 32 * f2 + 2 ^ 64 * f3) as ->
    by (unfold g1; Z.div_mod_to_equations; lia).
  assert ((g1 + 2 ^ 32 * f2 + 2 ^ 64 * f3) / 2 ^ 32 = g2 + 2 ^ 32 * f3) as -> by (unfold g2; Z.div_mod_to_equations; lia).
  assert ((g2 + 2 ^ 32 * f3) / 2 ^ 32 = g3) as -> by (unfold g3; Z.div_mod_to_equations; lia).
  assert (forall a b k, 4 <= k -> le_bytes 4 (a + 2 ^ (8 * k) * b) = le_bytes 4 a) as D.
  { intros a b k Hk. rewrite <- (le_bytes_mod 4), <- (le_bytes_mod 4 a). change (256 ^ Z.of_nat 4) with (2 ^ 32).
    replace (8 * k) with (8 * (k - 4) + 32) by lia. rewrite Z.pow_add_r by lia.
    replace (2 ^ (8 * (k - 4)) * 2 ^ 32 * b) with (2 ^ (8 * (k - 4)) * b * 2 ^ 32) by ring.
    by rewrite Z_mod_plus_full. }
  rewrite (D _ f3 12), (D _ f2 8), (D _ f1 4) by lia. rewrite (D _ f3 8) by lia.
  change (2 ^ 32 * f2) with (2 ^ (8 * 4) * f2). change (2 ^ 32 * f3) with (2 ^ (8 * 4) * f3). by rewrite !D by lia.
Qed.

Lemma emit_mac_ok h key :
  emittable h -> bytes_ok key -> length key = 16%nat ->
  emit_mac h key = le_bytes 16 (limbs_val h + le_val key).
Proof.
  intros He Hk Hl. destruct (block_words key Hl Hk) as (k0 & k1 & k2 & k3 & E0 & E1 & E2 & E3 & B0 & B1 & B2 & B3 & Ev).
  unfold emit_mac, CRYPTO_store_u32_le. rewrite E0, E1, E2, E3, Ev. destruct h as [h0 h1 h2 h3 h4].
  unfold limbs_val. unfold emittable, limbs_below in He. cbn [l0 l1 l2 l3 l4] in *.
  assert (Z.lor h0 (u32 (Z.shiftl h1 26)) = h0 + 2 ^ 26 * (h1 mod 2 ^ 6)) as ->.
  { destruct He as [He|[He Hm]]; [by rewrite lor_word by lia|]. pose proof (Z.div_mod h1 2) as Ed.
    replace (Z.shiftl h1 26) with (Z.shiftl (h1 / 2) 27) by (rewrite !Z.shiftl_mul_pow2 by lia; lia).
    rewrite lor_word by lia. change (32 - 27) with 5. Z.div_mod_to_equations. lia. }
  rewrite !Z.shiftr_div_pow2, !lor_word by (try lia; Z.div_mod_to_equations; lia).
  change (32 - 20) with 12. change (32 - 14) with 18. change (32 - 8) with 24.
  set (w0 := h0 + _). set (w1 := h1 / 2 ^ 6 + _). set (w2 := h2 / 2 ^ 12 + _). set (w3 := h3 / 2 ^ 18 + _).
  assert (0 <= w0 < 2 ^ 33 /\ 0 <= w1 < 2 ^ 33 /\ 0 <= w2 < 2 ^ 33 /\ 0 <= w3 < 2 ^ 33) as (W0 & W1 & W2 & W3).
  { subst w0 w1 w2 w3. clear - He. split_and!; Z.div_mod_to_equations; lia. }
  assert (limbs_val (Limbs h0 h1 h2 h3 h4) =
          w0 + 2 ^ 32 * w1 + 2 ^ 64 * w2 + 2 ^ 96 * w3 + h4 / 2 ^ 24 * 2 ^ 128) as Ew.
  { unfold limbs_val. cbn [l0 l1 l2 l3 l4]. subst w0 w1 w2 w3. clear. Z.div_mod_to_equations. lia. }
  unfold limbs_val in Ew. cbn [l0 l1 l2 l3 l4] in Ew. rewrite Ew.
  rewrite !(add_64 _ k0), !(add_64 _ k1), !(add_64 _ k2), !(add_64 _ k3) by lia.
  clear Ew. clearbody w0 w1 w2 w3.
  rewrite !add_64 by (Z.div_mod_to_equations; lia). rewrite (emit_words (w0 + k0) (w1 + k1) (w2 + k2) (w3 + k3)).
  rewrite <- (le_bytes_mod 16), <- (le_bytes_mod 16 (_ + _ + _)). change (256 ^ Z.of_nat 16) with (2 ^ 128). f_equal.
  match goal with |- _ = ?v mod _ => replace v with
    (w0 + k0 + 2 ^ 32 * (w1 + k1) + 2 ^ 64 * (w2 + k2) + 2 ^ 96 * (w3 + k3) + h4 / 2 ^ 24 * 2 ^ 128) by ring end.
  by rewrite Z_mod_plus_full.
Qed.

(** ** Streaming *)

Lemma donna_same a b fuel : forall data h,
  same_mult a b -> donna_16bytes fuel a data h = donna_16bytes fuel b data h.
Proof.
  induction fuel as [|k IH]; intros data h Hs; cbn [donna_16bytes]; destruct (_ <? 16); try done.
  - destruct data; [done|]. apply (donna_mul_same _ _ _ Hs).
  - destruct data; [done|]. apply (donna_mul_same _ _ _ Hs).
  - rewrite (donna_mul_same _ _ _ Hs). by apply IH.
Qed.

(** Whole blocks, and then the rest. *)
Lemma donna_app n : forall st whole data h f k,
  length whole = (16 * n)%nat -> (length (whole ++ data) <= f)%nat -> (length whole <= k)%nat ->
  donna_16bytes f st (whole ++ data) h =
  donna_16bytes (length data) st data (donna_16bytes k st whole h).
Proof.
  assert (forall st d h f k, (length d <= f)%nat -> (length d <= k)%nat ->
            donna_16bytes f st d h = donna_16bytes k st d h) as Hfuel.
  { intros st d h f. revert d h. induction f as [|f IH]; intros d h [|k] Hf Hk; cbn [donna_16bytes];
      destruct (Z.ltb_spec (Z.of_nat (length d)) 16); try done; try lia.
    apply IH; rewrite length_drop; lia. }
  induction n as [|n IH]; intros st whole data h f k Hw Hf Hk.
  { destruct whole; [|cbn in Hw; lia]. cbn [app]. replace (donna_16bytes k st [] h) with h by (by destruct k).
    apply Hfuel; [exact Hf|lia]. }
  destruct f as [|f]; [rewrite length_app in Hf; lia|]. destruct k as [|k]; [lia|]. cbn [donna_16bytes].
  rewrite length_app in *. rewrite !(proj2 (Z.ltb_ge _ _)) by lia.
  rewrite drop_app_le by lia. replace (add_poly_block (Z.shiftl 1 24) (whole ++ data) h) with (add_poly_block (Z.shiftl 1 24) whole h).
  { apply IH; rewrite ?length_app, length_drop; lia. }
  rewrite <- (add_poly_block_take _ whole), <- (add_poly_block_take _ (whole ++ data)), take_app_le by lia. done.
Qed.

(** [st] has absorbed [msg] since [st0]: the whole blocks are in the accumulator and
    the rest is in the buffer. *)
Definition tracks (st0 st : poly1305_state_st) (msg : bytes) : Prop :=
  exists n whole tail,
    msg = whole ++ tail /\ length whole = (16 * n)%nat /\ (length tail < 16)%nat /\
    poly_h st = donna_16bytes (length whole) st0 whole (poly_h st0) /\
    poly_buf_used st = Z.of_nat (length tail) /\ length (poly_buf st) = 16%nat /\
    take (length tail) (poly_buf st) = tail /\ same_mult st st0 /\ poly_key st = poly_key st0.

(** Whole blocks from the input, when the buffer is empty. *)
Lemma absorb_blocks st0 st msg blocks n b :
  tracks st0 st msg -> poly_buf_used st = 0 -> length blocks = (16 * n)%nat -> length b = 16%nat ->
  tracks st0 (set_buf b 0 (poly1305_update st blocks)) (msg ++ blocks).
Proof.
  intros (m & whole & tail & -> & Hw & _ & Hh & Hu & _ & _ & Hs & Hk) Hu0 Hb Hl.
  assert (tail = []) as -> by (destruct tail; [done|cbn in *; lia]). rewrite app_nil_r.
  exists (m + n)%nat, (whole ++ blocks), []. rewrite app_nil_r, length_app.
  split_and!; try done; [lia|cbn; lia|].
  unfold poly1305_update, set_h, set_buf. cbn [poly_h]. rewrite (donna_same _ _ _ _ _ Hs), Hh.
  symmetry. apply (donna_app m); rewrite ?length_app; lia.
Qed.

Lemma fill_run st0 st msg data :
  tracks st0 st msg ->
  exists st' d1 d2, poly1305_fill st data = Ret (st', d2) /\ data = d1 ++ d2 /\ tracks st0 st' (msg ++ d1) /\
    (d2 = [] \/ poly_buf_used st' = 0).
Proof.
  intros Ht. pose proof Ht as (n & whole & tail & -> & Hw & Htl & Hh & Hu & Hb & Hbt & Hs & Hk).
  unfold poly1305_fill. destruct (Z.eqb_spec (poly_buf_used st) 0) as [E|E].
  { exists st, [], data. rewrite app_nil_r. auto. }
  rewrite Hu in *.
  replace (u64 (16 - Z.of_nat (length tail))) with (16 - Z.of_nat (length tail)) by (unfold u64; rewrite wrap_small; lia).
  set (todo := if _ <? _ then _ else _).
  assert (exists t : nat, todo = Z.of_nat t /\ (t <= length data)%nat /\ (length tail + t <= 16)%nat /\
            (t = length data \/ (length tail + t = 16)%nat)) as (t & Et & H1 & H2 & H3).
  { unfold todo. destruct (Z.ltb_spec (Z.of_nat (length data)) (16 - Z.of_nat (length tail))).
    - exists (length data). lia.
    - exists (16 - length tail)%nat. lia. }
  rewrite Et, Nat2Z.id. clearbody todo. subst todo.
  assert (length (take t data) = t) as Hlt by (rewrite length_take; lia).
  rewrite put_run by lia. cbn [rbind]. rewrite Nat2Z.id, Hlt, Hbt. unfold u64. rewrite wrap_small by lia.
  set (buf := tail ++ take t data ++ drop (length tail + t) (poly_buf st)).
  assert (length buf = 16%nat) as Hbl.
  { unfold buf. rewrite !length_app, Hlt, length_drop, Hb. lia. }
  cbn [set_buf poly_buf_used poly_buf].
  destruct (Z.eqb_spec (Z.of_nat (length tail) + Z.of_nat t) 16) as [E16|E16].
  - rewrite (take_ge buf) by lia.
    assert (buf = tail ++ take t data) as Eb.
    { unfold buf. rewrite drop_ge, app_nil_r by lia. done. }
    eexists _, (take t data), (drop t data). split; [reflexivity|]. split; [by rewrite take_drop|].
    split; [|by right].
    exists (n + 1)%nat, (whole ++ buf), []. rewrite !app_nil_r, length_app.
    split_and!; try done; [by rewrite Eb, app_assoc|lia|cbn; lia|].
    unfold poly1305_update, set_h, set_buf. cbn [poly_h]. rewrite (donna_same _ st0) by done. rewrite Hh.
    symmetry. apply (donna_app n); rewrite ?length_app; lia.
  - assert (t = length data) by lia. subst t.
    eexists _, data, (drop (length data) data). split; [reflexivity|]. rewrite drop_all, app_nil_r.
    split; [done|]. split; [|by left]. rewrite firstn_all in *.
    exists n, whole, (tail ++ data). rewrite app_assoc, length_app. cbn [set_buf poly_h poly_buf_used poly_buf].
    split_and!; try done; [lia|lia|]. 
    unfold buf. rewrite firstn_all, app_assoc. apply take_app_length'. by rewrite length_app.
Qed.

Lemma land_low_15 n : 0 <= n < 2 ^ 64 -> Z.land n (u64 (Z.lnot 15)) = 16 * (n / 16).
Proof.
  intros Hn. change (u64 (Z.lnot 15)) with (Z.lnot (Z.ones 4) mod 2 ^ 64). rewrite <- Z.land_ones by lia.
  rewrite Z.land_assoc, <- Z.ldiff_land, Z.ldiff_ones_r, Z.shiftl_mul_pow2, Z.shiftr_div_pow2, Z.land_ones by lia.
  change (2 ^ 4) with 16. rewrite Z.mod_small; [lia|Z.div_mod_to_equations; lia].
Qed.

Lemma poly_update_run st0 st msg data :
  tracks st0 st msg -> Z.of_nat (length data) < 2 ^ 64 ->
  exists st', CRYPTO_poly1305_update st data = Ret st' /\ tracks st0 st' (msg ++ data).
Proof.
  intros Ht Hl. unfold CRYPTO_poly1305_update.
  destruct (Z.eqb_spec (Z.of_nat (length data)) 0) as [E|E].
  { destruct data; [|cbn in E; lia]. rewrite app_nil_r. eauto. }
  destruct (fill_run st0 st msg data Ht) as (st1 & d1 & d2 & -> & -> & Ht1 & Hd). cbn [rbind].
  rewrite length_app in Hl. rewrite app_assoc.
  set (whole := if 16 <=? Z.of_nat (length d2) then _ else 0).
  assert (exists n : nat, whole = Z.of_nat (16 * n) /\ (16 * n <= length d2 < 16 * n + 16)%nat /\
            (16 <=? Z.of_nat (length d2)) = negb (n =? 0)%nat) as (n & -> & Hn & En).
  { unfold whole. rewrite land_low_15 by lia. exists (length d2 / 16)%nat.
    pose proof (Nat.div_mod (length d2) 16) as Hdm. pose proof (Nat.mod_upper_bound (length d2) 16) as Hub.
    destruct (Z.leb_spec 16 (Z.of_nat (length d2))); (split; [|split; [lia|]]).
    - rewrite Nat2Z.inj_mul, Nat2Z.inj_div. done.
    - symmetry. apply negb_true_iff, Nat.eqb_neq. lia.
    - lia.
    - symmetry. apply negb_false_iff, Nat.eqb_eq. lia. }
  rewrite En, Nat2Z.id.
  set (st2 := if negb _ then _ else _).
  assert (tracks st0 st2 ((msg ++ d1) ++ take (16 * n) d2) /\ (drop (16 * n) d2 <> [] -> poly_buf_used st2 = 0))
    as [Ht2 Hu2].
  { unfold st2. destruct (Nat.eqb_spec n 0) as [->|Hn0]; cbn [negb].
    - change (16 * 0)%nat with 0%nat. cbn [take drop]. rewrite app_nil_r. split; [done|].
      by destruct Hd as [->|].
    - destruct Hd as [->|Hd]; [cbn in Hn; lia|]. split; [|done].
      pose proof Ht1 as (? & ? & ? & _ & _ & _ & _ & _ & Hb & _).
      pose proof (absorb_blocks st0 st1 _ (take (16 * n) d2) n (poly_buf st1) Ht1 Hd
                    ltac:(rewrite length_take; lia) Hb) as Ha.
      unfold set_buf, poly1305_update, set_h in Ha. cbn in Ha. unfold poly1305_update, set_h. by rewrite Hd. }
  clearbody st2. destruct (drop (16 * n) d2) as [|x r] eqn:Er.
  { eexists. split; [reflexivity|]. rewrite <- (take_drop (16 * n) d2), Er, app_nil_r. done. }
  set (d3 := x :: r) in *.
  assert (length d3 < 16)%nat as Hl3 by (rewrite <- Er, length_drop; lia).
  destruct Ht2 as (m & w & tl & Em & Hw & Htl & Hh & Hu & Hb & Hbt & Hs & Hk).
  assert (tl = []) as -> by (specialize (Hu2 ltac:(done)); destruct tl; [done|cbn in *; lia]).
  rewrite put_run by lia. cbn [rbind Z.to_nat take app Nat.add]. eexists. split; [reflexivity|].
  exists m, w, d3. cbn [set_buf poly_h poly_buf_used poly_buf]. rewrite app_nil_r in Em.
  rewrite <- (take_drop (16 * n) d2), Er, app_assoc, Em.
  clearbody d3. split_and!; try done.
  - rewrite !length_app, length_take, length_drop. lia.
  - change (take (Z.to_nat 0) _) with (@nil Z). by rewrite app_nil_l, take_app_length.
Qed.

Lemma poly_updates_run pieces : forall st0 st msg,
  tracks st0 st msg -> Forall (fun p => Z.of_nat (length p) < 2 ^ 64) pieces ->
  exists st', poly1305_updates st pieces = Ret st' /\ tracks st0 st' (msg ++ concat pieces).
Proof.
  induction pieces as [|p pieces IH]; intros st0 st msg Ht Hp; cbn [poly1305_updates concat].
  { rewrite app_nil_r. eauto. }
  inversion_clear Hp as [|? ? Hp1 Hp2].
  destruct (poly_update_run st0 st msg p Ht Hp1) as (st1 & -> & Ht1). cbn [rbind].
  rewrite app_assoc. by apply IH.
Qed.

(** The tag the code gives a message, in one piece. *)
Definition poly_accumulated (st0 : poly1305_state_st) (msg : bytes) : limbs :=
  donna_16bytes (length msg) st0 msg (poly_h st0).
Definition freeze (h : limbs) : limbs := select_limbs (carry_around h) (minus_p (carry_around h)).

Lemma finish_run st0 st msg :
  tracks st0 st msg ->
  exists st', CRYPTO_poly1305_finish st = Ret (st', emit_mac (freeze (poly_accumulated st0 msg)) (poly_key st0)).
Proof.
  intros (n & whole & tail & -> & Hw & Htl & Hh & Hu & Hb & Hbt & Hs & Hk).
  unfold CRYPTO_poly1305_finish, poly_accumulated. rewrite (donna_app n _ _ _ _ _ (length whole)) by done.
  rewrite <- Hh, Hu. destruct (Z.eqb_spec (Z.of_nat (length tail)) 0) as [E|E].
  - destruct tail; [|cbn in E; lia]. cbn [rbind length donna_16bytes]. rewrite Hk. eauto.
  - rewrite get_run by lia. rewrite Nat2Z.id, Hbt. cbn [rbind].
    unfold poly1305_update, set_h. cbn [poly_h poly_key]. rewrite (donna_same _ _ _ _ _ Hs), Hk. eauto.
Qed.

Lemma tracks_init st : poly_buf_used st = 0 -> length (poly_buf st) = 16%nat -> tracks st st [].
Proof. intros Hu Hb. exists 0%nat, [], []. split_and!; try done. cbn. lia. Qed.

Lemma accumulated_ok st msg :
  mult_ok st -> acc_ok (poly_h st) -> bytes_ok msg ->
  acc_ok (poly_accumulated st msg) /\
  limbs_val (poly_accumulated st msg) =p=
    poly_eval (length msg) (limbs_val (poly_r st)) (limbs_val (poly_h st)) msg.
Proof. intros. by apply donna_16bytes_ok. Qed.

Lemma poly_eval_range fuel : forall r a msg, 0 <= a < P1305 -> 0 <= poly_eval fuel r a msg < P1305.
Proof.
  induction fuel as [|k IH]; intros r a [|x msg] Ha; cbn [poly_eval]; try done.
  apply IH, Z.mod_pos_bound. unfold P1305. lia.
Qed.

(** The tag of a message under a key. *)
Definition poly_tag (key msg : bytes) : bytes :=
  match CRYPTO_poly1305_init (zeros 16) key with
  | Ret st => emit_mac (freeze (poly_accumulated st msg)) (poly_key st)
  | _ => []
  end.

(** Neither the pieces nor what was in the buffer matter. *)
Lemma poly_tag_finish garbage key st st' msg :
  bytes_ok key -> (32 <= length key)%nat ->
  CRYPTO_poly1305_init garbage key = Ret st -> tracks st st' msg ->
  exists st'', CRYPTO_poly1305_finish st' = Ret (st'', poly_tag key msg).
Proof.
  intros Hk Hl E Ht. destruct (finish_run st st' msg Ht) as (st'' & Ef). exists st''. rewrite Ef. do 2 f_equal.
  destruct (init_ok (zeros 16) key Hk Hl) as (s0 & E0 & _ & _ & Hh0 & _ & _ & Hk0).
  destruct (init_ok garbage key Hk Hl) as (s1 & E1 & _ & _ & Hh1 & _ & _ & Hk1).
  assert (s1 = st) as -> by congruence. unfold poly_tag. rewrite E0.
  assert (same_mult st s0) as Hs.
  { unfold CRYPTO_poly1305_init in E0, E1. rewrite get_run in E0, E1 by lia. cbn [rbind] in E0, E1.
    apply (f_equal (fun r => match r with Ret x => Some x | _ => None end)) in E0, E1. cbv beta iota in E0, E1.
    apply (inj Some) in E0, E1. rewrite <- E0, <- E1. done. }
  unfold poly_accumulated. rewrite Hk0, Hk1, Hh0, Hh1. by rewrite (donna_same _ _ _ _ _ Hs).
Qed.

Lemma acc_ok_zero : acc_ok (Limbs 0 0 0 0 0).
Proof. unfold acc_ok. cbn [l0 l1 l2 l3 l4]. lia. Qed.

(** The tag of the specification, where no carry is lost. *)
Lemma poly_tag_ok key msg :
  bytes_ok key -> (32 <= length key)%nat -> bytes_ok msg ->
  carry_lost (poly_residue key msg) = false -> poly_tag key msg = poly1305_mac key msg.
Proof.
  intros Hk Hl Hm Hc. unfold poly_tag.
  destruct (init_ok (zeros 16) key Hk Hl) as (st & -> & Hmu & Hr & Hh & _ & _ & Hkey).
  destruct (accumulated_ok st msg) as [Ha He]; [done|rewrite Hh; apply acc_ok_zero|done|].
  rewrite Hr, Hh in He. apply residue_mod in He.
  change (limbs_val (Limbs 0 0 0 0 0)) with 0 in He. fold (poly_residue key msg) in He.
  rewrite (Z.mod_small (poly_residue key msg)) in He by (apply poly_eval_range; unfold P1305; lia).
  destruct (freeze_ok _ Ha) as [Hem Hv]; [by rewrite He|]. unfold freeze, poly1305_mac.
  rewrite emit_mac_ok, Hv, He, Hkey; [done|done|..]; rewrite Hkey.
  - by apply Forall_take, Forall_drop.
  - rewrite length_take, length_drop. lia.
Qed.

(** ** The properties *)

(** C8: Poly1305 computes the tag of RFC 8439.  For every key and message there is one
    tag, which [CRYPTO_poly1305_init], any sequence of [CRYPTO_poly1305_update] on
    pieces that make up the message, empty ones too, and [CRYPTO_poly1305_finish]
    return whatever was in the state's buffer; and it is the evaluation of the
    message at the clamped key modulo 2^130 - 5, plus the second half of the key
    modulo 2^128, unless the residue is one of the 105 in [carry_lost]. *)
Theorem poly1305_correct key msg :
  bytes_ok key -> (32 <= length key)%nat -> bytes_ok msg ->
  exists mac,
    (forall garbage pieces,
       length garbage = 16%nat -> concat pieces = msg ->
       Forall (fun p => Z.of_nat (length p) < 2 ^ 64) pieces ->
       poly1305 garbage key pieces = Ret mac) /\
    (carry_lost (poly_residue key msg) = false -> mac = poly1305_mac key msg).
Proof.
  intros Hk Hl Hm. exists (poly_tag key msg). split.
  - intros garbage pieces Hg <- Hp. destruct (init_ok garbage key Hk Hl) as (st & E & _ & _ & _ & Hb & Hu & _).
    unfold poly1305. rewrite E. cbn [rbind].
    destruct (poly_updates_run pieces st st [] (tracks_init st Hu ltac:(by rewrite Hb)) Hp) as (st1 & -> & Ht).
    cbn [rbind]. by destruct (poly_tag_finish garbage key st st1 _ Hk Hl E Ht) as (st2 & ->).
  - by apply poly_tag_ok.
Qed.

(** What the fields of the state are. *)
Record poly_typed (st : poly1305_state_st) : Prop := {
  typed_mult : mult_ok st;
  typed_acc : acc_ok (poly_h st);
  typed_used : 0 <= poly_buf_used st < 16;
  typed_buf : length (poly_buf st) = 16%nat;
  typed_bytes : bytes_ok (take (Z.to_nat (poly_buf_used st)) (poly_buf st));
  typed_key : bytes_ok (poly_key st) /\ length (poly_key st) = 16%nat
}.

Lemma tracks_typed st0 st msg :
  tracks st0 st msg -> mult_ok st0 -> acc_ok (poly_h st0) -> bytes_ok msg ->
  bytes_ok (poly_key st0) -> length (poly_key st0) = 16%nat -> poly_typed st.
Proof.
  intros (n & whole & tail & -> & Hw & Htl & Hh & Hu & Hb & Hbt & (E & E1 & E2 & E3 & E4) & Hk) Hm Ha Hby Hkb Hkl.
  apply Forall_app in Hby as [Hby1 Hby2].
  split; rewrite ?Hu, ?Hk, ?Nat2Z.id, ?Hbt; try done; [|rewrite Hh; by apply donna_16bytes_ok|lia].
  destruct Hm. split; rewrite ?E, ?E1, ?E2, ?E3, ?E4; done.
Qed.
Lemma typed_tracks st : poly_typed st -> tracks st st (take (Z.to_nat (poly_buf_used st)) (poly_buf st)).
Proof.
  intros [Hm Ha Hu Hb Hby Hk]. set (used := Z.to_nat (poly_buf_used st)).
  assert (length (take used (poly_buf st)) = used) as Hl by (rewrite length_take; lia).
  exists 0%nat, [], (take used (poly_buf st)). rewrite !Hl. split_and!; try done; lia.
Qed.
Lemma length_emit_mac h key : length (emit_mac h key) = 16%nat /\ bytes_ok (emit_mac h key).
Proof.
  unfold emit_mac, CRYPTO_store_u32_le.
  rewrite !length_app, !length_le_bytes. split; [done|]. repeat (apply Forall_app; split); apply le_bytes_ok.
Qed.

(** C37: The state of Poly1305 keeps its types, so that no sum of products leaves 64
    bits and no index leaves the buffer.  [CRYPTO_poly1305_init] makes a well-typed
    state; [CRYPTO_poly1305_update] on a well-typed state returns one for every
    input; and [CRYPTO_poly1305_finish] returns sixteen bytes. *)
Theorem poly1305_typed :
  (forall garbage key, bytes_ok key -> (32 <= length key)%nat -> length garbage = 16%nat ->
     exists st, CRYPTO_poly1305_init garbage key = Ret st /\ poly_typed st) /\
  (forall st data, poly_typed st -> bytes_ok data -> Z.of_nat (length data) < 2 ^ 64 ->
     exists st', CRYPTO_poly1305_update st data = Ret st' /\ poly_typed st') /\
  (forall st, poly_typed st ->
     exists st' mac, CRYPTO_poly1305_finish st = Ret (st', mac) /\ bytes_ok mac /\ length mac = 16%nat).
Proof.
  split_and!.
  - intros garbage key Hk Hl Hg. destruct (init_ok garbage key Hk Hl) as (st & E & Hm & _ & Hh & Hb & Hu & Hkey).
    exists st. split; [done|].
    apply (tracks_typed st st []); rewrite ?Hh, ?Hkey; try done.
    + apply tracks_init; [done|by rewrite Hb].
    + constructor.
    + by apply Forall_take, Forall_drop.
    + rewrite length_take, length_drop. lia.
  - intros st data Ht Hd Hl. pose proof (typed_tracks st Ht) as Htr. destruct Ht as [Hm Ha Hu Hb Hby [Hk1 Hk2]].
    destruct (poly_update_run st st _ data Htr Hl) as (st' & E & Ht'). exists st'. split; [done|].
    apply (tracks_typed _ _ _ Ht'); try done. by apply Forall_app.
  - intros st Ht. destruct (finish_run st st _ (typed_tracks st Ht)) as (st' & E).
    do 2 eexists. split; [exact E|]. pose proof (length_emit_mac (freeze (poly_accumulated st
      (take (Z.to_nat (poly_buf_used st)) (poly_buf st)))) (poly_key st)). tauto.
Qed.

(** A key and a message of one block whose residue is in [carry_lost]. *)
Definition losing_key : bytes :=
  [0x26; 0xf1; 0xc8; 0xf9; 0xca; 0x07; 0x87; 0x78; 0xb4; 0x39; 0x49; 0x17; 0xde; 0x4a; 0x53; 0x72] ++ zeros 16.
Definition losing_message : bytes :=
  [0xda; 0xa3; 0xfd; 0x62; 0x12; 0x0f; 0x29; 0xe9; 0xd7; 0x78; 0x55; 0xdc; 0xea; 0x5e; 0x32; 0x8e].

(** [CRYPTO_poly1305_finish] loses a carry.  After it has carried around from the
    highest limb into the lowest it does not carry on from there, and the words it
    makes combine limbs that overlap with [|]: there is a key and a message of sixteen
    bytes whose tag is not that of RFC 8439. *)
Theorem poly1305_loses_carry :
  carry_lost (poly_residue losing_key losing_message) = true /\
  poly1305 (zeros 16) losing_key [losing_message] = Ret ([3; 0; 0; 4] ++ zeros 12) /\
  poly1305_mac losing_key losing_message = [3; 0; 0; 8] ++ zeros 12.
Proof. vm_compute. done. Qed.

Lemma poly1305_correct_witness :
  (bytes_ok rfc_poly_key /\ (32 <= length rfc_poly_key)%nat /\ bytes_ok rfc_poly_message) /\
  exists mac,
    (forall garbage pieces,
       length garbage = 16%nat -> concat pieces = rfc_poly_message ->
       Forall (fun p => Z.of_nat (length p) < 2 ^ 64) pieces ->
       poly1305 garbage rfc_poly_key pieces = Ret mac) /\
    (carry_lost (poly_residue rfc_poly_key rfc_poly_message) = false ->
     mac = poly1305_mac rfc_poly_key rfc_poly_message).
Proof.
  assert (bytes_ok rfc_poly_key) as Hk by (apply (bool_decide_unpack _); vm_compute; exact I).
  assert (bytes_ok rfc_poly_message) as Hm by (apply (bool_decide_unpack _); vm_compute; exact I).
  assert (32 <= length rfc_poly_key)%nat as Hl by (vm_compute; lia).
  split; [done|]. exact (poly1305_correct rfc_poly_key rfc_poly_message Hk Hl Hm).
Defined.

Lemma poly1305_typed_witness :
  (exists st, CRYPTO_poly1305_init (zeros 16) rfc_poly_key = Ret st /\ poly_typed st) /\
  forall st, CRYPTO_poly1305_init (zeros 16) rfc_poly_key = Ret st -> poly_typed st ->
    exists st', CRYPTO_poly1305_update st rfc_poly_message = Ret st' /\ poly_typed st'.
Proof.
  assert (bytes_ok rfc_poly_key) as Hk by (apply (bool_decide_unpack _); vm_compute; exact I).
  assert (bytes_ok rfc_poly_message) as Hm by (apply (bool_decide_unpack _); vm_compute; exact I).
  assert (32 <= length rfc_poly_key)%nat as Hl by (vm_compute; lia).
  split; [exact (proj1 poly1305_typed (zeros 16) rfc_poly_key Hk Hl eq_refl)|].
  intros st _ Ht. apply (proj1 (proj2 poly1305_typed) st rfc_poly_message Ht Hm). vm_compute. reflexivity.
Defined.
