(* ===== verification/Gf2.v ===== *)
(** * Polynomials over the field of two elements

    A polynomial is the number whose bit [i] is the coefficient of [x^i]: addition is
    [N.lxor] and multiplication is multiplication without carries, [pmul].  They form
    a commutative ring of characteristic two, so [ring] decides its identities.
    Congruence modulo a polynomial is an equivalence that the operations respect. *)
From Stdlib Require Import ZArith Lia Ring.
From stdpp Require Import prelude numbers.
Local Open Scope N_scope.

Fixpoint pmul_pos (p : positive) (b : N) : N :=
  match p with
  | xH => b
  | xO p => N.double (pmul_pos p b)
  | xI p => N.lxor b (N.double (pmul_pos p b))
  end.
Definition pmul (a b : N) : N := match a with 0 => 0 | N.pos p => pmul_pos p b end.
Definition pow_x (n : N) : N := N.shiftl 1 n.

Declare Scope gf2_scope.
Delimit Scope gf2_scope with gf2.
Notation "a + b" := (N.lxor a%gf2 b%gf2) : gf2_scope.
Notation "a * b" := (pmul a%gf2 b%gf2) : gf2_scope.

(** ** The ring *)

Lemma double_lxor a b : N.double (N.lxor a b) = N.lxor (N.double a) (N.double b).
Proof. by destruct a, b. Qed.
Lemma double_split a : a = N.double (N.div2 a) \/ a = N.lxor 1 (N.double (N.div2 a)).
Proof. destruct a as [|[p|p|]]; cbn; auto. Qed.

Lemma pmul_0_l b : pmul 0 b = 0.
Proof. done. Qed.
Lemma pmul_1_l b : pmul 1 b = b.
Proof. done. Qed.
Lemma pmul_double_l a b : pmul (N.double a) b = N.double (pmul a b).
Proof. by destruct a. Qed.
Lemma pmul_succ_double_l a b : pmul (N.lxor 1 (N.double a)) b = N.lxor b (N.double (pmul a b)).
Proof. destruct a as [|p]; [symmetry; apply N.lxor_0_r|done]. Qed.

(** Induction on the bits, the constant coefficient last. *)
Lemma bits_ind (P : N -> Prop) :
  P 0 -> (forall a, P a -> P (N.double a)) -> (forall a, P a -> P (N.lxor 1 (N.double a))) -> forall a, P a.
Proof.
  intros H0 H1 H2 [|p]; [done|]. induction p as [p IH|p IH|].
  - apply (H2 (N.pos p)), IH.
  - apply (H1 (N.pos p)), IH.
  - apply (H2 0), H0.
Qed.

Lemma lxor_swap a b c d : N.lxor (N.lxor a b) (N.lxor c d) = N.lxor (N.lxor a c) (N.lxor b d).
Proof. rewrite !N.lxor_assoc. f_equal. rewrite <- !N.lxor_assoc. f_equal. apply N.lxor_comm. Qed.

Lemma pmul_0_r a : pmul a 0 = 0.
Proof.
  induction a as [|a IH|a IH] using bits_ind; [done|by rewrite pmul_double_l, IH|].
  by rewrite pmul_succ_double_l, IH.
Qed.
Lemma pmul_lxor_r a b c : pmul a (N.lxor b c) = N.lxor (pmul a b) (pmul a c).
Proof.
  induction a as [|a IH|a IH] using bits_ind; [done| |].
  - by rewrite !pmul_double_l, IH, double_lxor.
  - rewrite !pmul_succ_double_l, IH, double_lxor. apply lxor_swap.
Qed.
Lemma pmul_double_r a b : pmul a (N.double b) = N.double (pmul a b).
Proof.
  induction a as [|a IH|a IH] using bits_ind; [done|by rewrite !pmul_double_l, IH|].
  by rewrite !pmul_succ_double_l, IH, double_lxor.
Qed.
Lemma pmul_1_r a : pmul a 1 = a.
Proof.
  induction a as [|a IH|a IH] using bits_ind; [done|by rewrite pmul_double_l, IH|].
  by rewrite pmul_succ_double_l, IH.
Qed.
Lemma pmul_comm a b : pmul a b = pmul b a.
Proof.
  induction a as [|a IH|a IH] using bits_ind; [by rewrite pmul_0_r|by rewrite pmul_double_l, pmul_double_r, IH|].
  by rewrite pmul_succ_double_l, pmul_lxor_r, pmul_1_r, pmul_double_r, IH.
Qed.
Lemma pmul_lxor_l a b c : pmul (N.lxor a b) c = N.lxor (pmul a c) (pmul b c).
Proof. by rewrite !(pmul_comm _ c), pmul_lxor_r. Qed.
Lemma pmul_assoc a b c : pmul a (pmul b c) = pmul (pmul a b) c.
Proof.
  induction a as [|a IH|a IH] using bits_ind; [done|by rewrite !pmul_double_l, IH|].
  by rewrite !pmul_succ_double_l, IH, pmul_lxor_l, pmul_double_l.
Qed.

Definition of_bit (b : bool) : N := if b then 1 else 0.
Lemma gf2_ring_theory : ring_theory 0 1 N.lxor pmul N.lxor (fun a => a) eq.
Proof.
  split; auto using N.lxor_comm, N.lxor_assoc, pmul_comm, pmul_assoc, pmul_lxor_l, N.lxor_nilpotent.
Qed.
Lemma gf2_morphism :
  ring_morph 0 1 N.lxor pmul N.lxor (fun a => a) eq false true xorb andb xorb (fun b => b) Bool.eqb of_bit.
Proof. split; try done; by intros [] []. Qed.
Ltac gf2_bit t := match t with 0 => false | 1 => true | _ => InitialRing.NotConstant end.
Add Ring gf2_ring : gf2_ring_theory (morphism gf2_morphism, constants [gf2_bit]).

(** ** Powers of [x] *)

Lemma pow_x_succ n : pow_x (N.succ n) = pmul 2 (pow_x n).
Proof. apply N.shiftl_succ_r. Qed.
Lemma pow_x_mul n a : pmul (pow_x n) a = N.shiftl a n.
Proof.
  induction n as [|n IH] using N.peano_ind; [by destruct a|].
  by rewrite pow_x_succ, <- pmul_assoc, IH, N.shiftl_succ_r.
Qed.
Lemma pow_x_add n m : pow_x (n + m) = pmul (pow_x n) (pow_x m).
Proof. rewrite pow_x_mul. unfold pow_x. by rewrite N.shiftl_shiftl, N.add_comm. Qed.

(** ** Degrees *)

Lemma log2_lxor_lt a b : N.log2 a < N.log2 b -> N.log2 (N.lxor a b) = N.log2 b.
Proof.
  intros Hl. assert (b <> 0) as Hb by (intros ->; by apply N.nlt_0_r in Hl). apply N.log2_bits_unique.
  - rewrite N.lxor_spec, (N.bits_above_log2 a), N.bit_log2 by done. done.
  - intros m Hm. by rewrite N.lxor_spec, !N.bits_above_log2 by lia.
Qed.
Lemma bits_above a n m : a < 2 ^ n -> n <= m -> N.testbit a m = false.
Proof. intros Ha Hm. rewrite <- (N.mod_small a (2 ^ n)) by done. by apply N.mod_pow2_bits_high. Qed.
Lemma pmul_nonzero_log2 a b : a <> 0 -> b <> 0 -> pmul a b <> 0 /\ N.log2 (pmul a b) = N.log2 a + N.log2 b.
Proof.
  intros Ha Hb. induction a as [|a IH|a IH] using bits_ind; [done| |].
  - assert (a <> 0) as Ha' by (intros ->; done). destruct (IH Ha') as [H1 H2].
    rewrite pmul_double_l, !N.double_spec, !N.log2_double by lia. rewrite H2. lia.
  - destruct (decide (a = 0)) as [->|Ha']; [cbn; split; [by rewrite N.lxor_0_r|by rewrite N.lxor_0_r]|].
    destruct (IH Ha') as [H1 H2]. rewrite pmul_succ_double_l.
    assert (N.log2 (N.double (pmul a b)) = N.succ (N.log2 a + N.log2 b)) as Hd
      by (rewrite N.double_spec, N.log2_double by lia; lia).
    assert (N.log2 (N.double a) = N.succ (N.log2 a)) as Hd' by (rewrite N.double_spec, N.log2_double by lia; lia).
    rewrite (log2_lxor_lt b), (log2_lxor_lt 1) by (rewrite ?Hd, ?Hd'; cbn; lia).
    rewrite Hd, Hd'. split; [|lia]. intros E. assert (b = N.double (pmul a b)) as Eb.
    { apply N.lxor_eq. exact E. }
    rewrite Eb in Hd at 2. rewrite Hd in Hd. rewrite <- Eb in Hd. lia.
Qed.
Lemma pmul_bound n m a b : a < 2 ^ n -> b < 2 ^ m -> pmul a b < 2 ^ (n + m).
Proof.
  intros Ha Hb. destruct (decide (a = 0)) as [->|Ha0]; [apply N.neq_0_lt_0, N.pow_nonzero; lia|].
  destruct (decide (b = 0)) as [->|Hb0]; [rewrite pmul_0_r; apply N.neq_0_lt_0, N.pow_nonzero; lia|].
  destruct (pmul_nonzero_log2 a b Ha0 Hb0) as [H1 H2].
  apply N.log2_lt_pow2 in Ha, Hb; [|lia..]. apply N.log2_lt_pow2; lia.
Qed.

(** ** Congruence *)

Definition congruent (P a b : N) : Prop := exists q, N.lxor a b = pmul q P.

Section congruent.
Context (P : N).
Local Notation "a ≈ b" := (congruent P a b) (at level 70).

#[export] Instance congruent_equivalence : Equivalence (congruent P).
Proof.
  split.
  - intros a. exists 0. by rewrite N.lxor_nilpotent.
  - intros a b [q E]. exists q. by rewrite N.lxor_comm.
  - intros a b c [q E] [r E']. exists (N.lxor q r). rewrite pmul_lxor_l, <- E, <- E'. ring.
Qed.
#[export] Instance congruent_add : Proper (congruent P ==> congruent P ==> congruent P) N.lxor.
Proof.
  intros a a' [q E] b b' [r E']. exists (N.lxor q r). rewrite pmul_lxor_l, <- E, <- E'. apply lxor_swap.
Qed.
#[export] Instance congruent_mul : Proper (congruent P ==> congruent P ==> congruent P) pmul.
Proof.
  intros a a' [q E] b b' [r E']. exists (N.lxor (pmul q b) (pmul a' r)).
  transitivity (N.lxor (pmul (N.lxor a a') b) (pmul a' (N.lxor b b'))); [ring|rewrite E, E'; ring].
Qed.

Lemma congruent_modulus q : pmul q P ≈ 0.
Proof. exists q. apply N.lxor_0_r. Qed.

(** [x] is a unit where the modulus has a constant term. *)
Lemma congruent_cancel_x a b : N.odd P = true -> pmul 2 a ≈ pmul 2 b -> a ≈ b.
Proof.
  intros Ho [q E]. rewrite <- pmul_lxor_r in E.
  destruct (double_split P) as [EP|EP]; [by rewrite EP, N.double_spec, N.odd_mul, andb_false_l in Ho|].
  destruct (double_split q) as [Eq|Eq].
  - exists (N.div2 q). rewrite Eq, pmul_double_l in E. by apply N.double_inj in E.
  - exfalso. assert (N.odd (pmul q P) = true) as H1.
    { rewrite Eq, EP. change N.double with (pmul 2).
      replace (pmul (N.lxor 1 (pmul 2 (N.div2 q))) (N.lxor 1 (pmul 2 (N.div2 P)))) with
        (N.lxor 1 (pmul 2 (N.lxor (N.div2 P) (pmul (N.div2 q) (N.lxor 1 (pmul 2 (N.div2 P))))))) by ring.
      rewrite <- N.bit0_odd, N.lxor_spec. change (pmul 2) with N.double. by rewrite N.double_spec, N.testbit_even_0. }
    rewrite <- E in H1. change (pmul 2) with N.double in H1.
    by rewrite N.double_spec, N.odd_mul, andb_false_l in H1.
Qed.
Lemma congruent_cancel n a b : N.odd P = true -> pmul (pow_x n) a ≈ pmul (pow_x n) b -> a ≈ b.
Proof.
  intros Ho. induction n as [|n IH] using N.peano_ind; [done|]. rewrite !pow_x_succ, <- !pmul_assoc.
  intros E. by apply IH, congruent_cancel_x.
Qed.

(** Of each class one polynomial has a degree below that of the modulus. *)
Lemma congruent_small a b : P <> 0 -> a < 2 ^ N.log2 P -> b < 2 ^ N.log2 P -> a ≈ b -> a = b.
Proof.
  intros HP Ha Hb [q E]. destruct (decide (q = 0)) as [->|Hq]; [by apply N.lxor_eq|].
  exfalso. destruct (pmul_nonzero_log2 q P Hq HP) as [Hn Hd]. rewrite <- E in Hn, Hd.
  apply N.bit_log2 in Hn. by rewrite N.lxor_spec, !(bits_above _ (N.log2 P)) in Hn by lia.
Qed.
End congruent.
