(* ===== verification/Ghash.v ===== *)
(** * BoringSSL: GHASH and POLYVAL (crypto/fipsmodule/modes/gcm_nohw.c, polyval.c)

    The constant-time multiplication of polynomials over the field of two elements,
    in both ways the file can be compiled for a processor without vector
    instructions, the reduction, and the two authenticators built on it.  Arrays are
    lists of bytes; [u128] is the struct of that name. *)
From Stdlib Require Import ZArith Lia.
From stdpp Require Import prelude list numbers.
From S2P Require Import Prelude CMem Cells Words ConstantTime Cbs Der DerInt.
Local Open Scope Z_scope.
Local Open Scope res_scope.

Local Infix "⊕" := Z.lxor (at level 45, left associativity).
Local Infix "&" := Z.land (at level 40, left associativity).

Record u128 := U128 { hi : Z; lo : Z }.

(** The words with every fourth bit set. *)
Definition mask1 : Z := 0x1111111111111111.
Definition mask2 : Z := 0x2222222222222222.
Definition mask4 : Z := 0x4444444444444444.
Definition mask8 : Z := 0x8888888888888888.

(** A product of type [uint128_t]. *)
Definition mul128 (a b : Z) : Z := wrap 128 (a * b).

(** ** With [uint128_t] *)

Definition gcm_mul64_nohw (a b : Z) : Z * Z :=
  let a0 := a & 0x1111111111111110 in
  let a1 := a & 0x2222222222222220 in
  let a2 := a & 0x4444444444444440 in
  let a3 := a & 0x8888888888888880 in
  let b0 := b & mask1 in
  let b1 := b & mask2 in
  let b2 := b & mask4 in
  let b3 := b & mask8 in
  let c0 := mul128 a0 b0 ⊕ mul128 a1 b3 ⊕ mul128 a2 b2 ⊕ mul128 a3 b1 in
  let c1 := mul128 a0 b1 ⊕ mul128 a1 b0 ⊕ mul128 a2 b3 ⊕ mul128 a3 b2 in
  let c2 := mul128 a0 b2 ⊕ mul128 a1 b1 ⊕ mul128 a2 b0 ⊕ mul128 a3 b3 in
  let c3 := mul128 a0 b3 ⊕ mul128 a1 b2 ⊕ mul128 a2 b1 ⊕ mul128 a3 b0 in
  let a0_mask := u64 (0 - (a & 1)) in
  let a1_mask := u64 (0 - (Z.shiftr a 1 & 1)) in
  let a2_mask := u64 (0 - (Z.shiftr a 2 & 1)) in
  let a3_mask := u64 (0 - (Z.shiftr a 3 & 1)) in
  let extra := (a0_mask & b) ⊕ wrap 128 (Z.shiftl (a1_mask & b) 1) ⊕
               wrap 128 (Z.shiftl (a2_mask & b) 2) ⊕ wrap 128 (Z.shiftl (a3_mask & b) 3) in
  let out_lo := (u64 c0 & mask1) ⊕ (u64 c1 & mask2) ⊕ (u64 c2 & mask4) ⊕ (u64 c3 & mask8) ⊕ u64 extra in
  let out_hi := (u64 (Z.shiftr c0 64) & mask1) ⊕ (u64 (Z.shiftr c1 64) & mask2) ⊕
                (u64 (Z.shiftr c2 64) & mask4) ⊕ (u64 (Z.shiftr c3 64) & mask8) ⊕
                u64 (Z.shiftr extra 64) in
  (out_lo, out_hi).

(** ** Without *)

Definition mul64 (a b : Z) : Z := u64 (a * b).

Definition gcm_mul32_nohw (a b : Z) : Z :=
  let a0 := a & 0x11111111 in
  let a1 := a & 0x22222222 in
  let a2 := a & 0x44444444 in
  let a3 := a & 0x88888888 in
  let b0 := b & 0x11111111 in
  let b1 := b & 0x22222222 in
  let b2 := b & 0x44444444 in
  let b3 := b & 0x88888888 in
  let c0 := mul64 a0 b0 ⊕ mul64 a1 b3 ⊕ mul64 a2 b2 ⊕ mul64 a3 b1 in
  let c1 := mul64 a0 b1 ⊕ mul64 a1 b0 ⊕ mul64 a2 b3 ⊕ mul64 a3 b2 in
  let c2 := mul64 a0 b2 ⊕ mul64 a1 b1 ⊕ mul64 a2 b0 ⊕ mul64 a3 b3 in
  let c3 := mul64 a0 b3 ⊕ mul64 a1 b2 ⊕ mul64 a2 b1 ⊕ mul64 a3 b0 in
  Z.lor (Z.lor (Z.lor (c0 & mask1) (c1 & mask2)) (c2 & mask4)) (c3 & mask8).

Definition gcm_mul64_nohw_32 (a b : Z) : Z * Z :=
  let a0 := u32 (a & 0xffffffff) in
  let a1 := u32 (Z.shiftr a 32) in
  let b0 := u32 (b & 0xffffffff) in
  let b1 := u32 (Z.shiftr b 32) in
  let lo := gcm_mul32_nohw a0 b0 in
  let hi := gcm_mul32_nohw a1 b1 in
  let mid := gcm_mul32_nohw (a0 ⊕ a1) (b0 ⊕ b1) ⊕ lo ⊕ hi in
  (lo ⊕ u64 (Z.shiftl mid 32), hi ⊕ Z.shiftr mid 32).

(** ** GHASH *)

(** [Xi] is [Xi[0]], [Xi[1]]; the result is [Htable[0]]. *)
Definition gcm_init_nohw (Xi : Z * Z) : u128 :=
  let lo := snd Xi in
  let hi := fst Xi in
  let carry := Z.shiftr hi 63 in
  let carry := u64 (0 - carry) in
  let hi := u64 (Z.shiftl hi 1) in
  let hi := Z.lor hi (Z.shiftr lo 63) in
  let lo := u64 (Z.shiftl lo 1) in
  let lo := lo ⊕ (carry & 1) in
  let hi := hi ⊕ (carry & 0xc200000000000000) in
  U128 hi lo.

Definition gcm_polyval_nohw (Xi : Z * Z) (H : u128) : Z * Z :=
  let '(r0, r1) := gcm_mul64_nohw (fst Xi) (lo H) in
  let '(r2, r3) := gcm_mul64_nohw (snd Xi) (hi H) in
  let '(mid0, mid1) := gcm_mul64_nohw (fst Xi ⊕ snd Xi) (hi H ⊕ lo H) in
  let mid0 := mid0 ⊕ (r0 ⊕ r2) in
  let mid1 := mid1 ⊕ (r1 ⊕ r3) in
  let r2 := r2 ⊕ mid1 in
  let r1 := r1 ⊕ mid0 in
  let r1 := r1 ⊕ (u64 (Z.shiftl r0 63) ⊕ u64 (Z.shiftl r0 62) ⊕ u64 (Z.shiftl r0 57)) in
  let r2 := r2 ⊕ r0 in
  let r3 := r3 ⊕ r1 in
  let r2 := r2 ⊕ Z.shiftr r0 1 in
  let r2 := r2 ⊕ u64 (Z.shiftl r1 63) in
  let r3 := r3 ⊕ Z.shiftr r1 1 in
  let r2 := r2 ⊕ Z.shiftr r0 2 in
  let r2 := r2 ⊕ u64 (Z.shiftl r1 62) in
  let r3 := r3 ⊕ Z.shiftr r1 2 in
  let r2 := r2 ⊕ Z.shiftr r0 7 in
  let r2 := r2 ⊕ u64 (Z.shiftl r1 57) in
  let r3 := r3 ⊕ Z.shiftr r1 7 in
  (r2, r3).

(** The halves of a block, and back. *)
Definition load_swapped (Xi : bytes) : Z * Z := (CRYPTO_load_u64_be (drop 8 Xi), CRYPTO_load_u64_be Xi).
Definition store_swapped (swapped : Z * Z) : bytes :=
  CRYPTO_store_u64_be (snd swapped) ++ CRYPTO_store_u64_be (fst swapped).

Definition gcm_gmult_nohw (Xi : bytes) (Htable : list u128) : res bytes :=
  match Htable with
  | H :: _ => Ret (store_swapped (gcm_polyval_nohw (load_swapped Xi) H))
  | [] => UB
  end.

(** [while (len >= 16)]: [inp] is what is left. *)
Fixpoint ghash_loop (fuel : nat) (swapped : Z * Z) (H : u128) (inp : bytes) : Z * Z :=
  if 16 <=? Z.of_nat (length inp) then
    match fuel with
    | O => swapped
    | S k =>
        let x := load_swapped inp in
        ghash_loop k (gcm_polyval_nohw (fst swapped ⊕ fst x, snd swapped ⊕ snd x) H) H (drop 16 inp)
    end
  else swapped.
Definition gcm_ghash_nohw (Xi : bytes) (Htable : list u128) (inp : bytes) : res bytes :=
  match Htable with
  | H :: _ => Ret (store_swapped (ghash_loop (length inp) (load_swapped Xi) H inp))
  | [] => UB
  end.

(** [CRYPTO_ghash_init] of a build without assembly: the functions are those above
    and the rest of the table is not written. *)
Definition CRYPTO_ghash_init (out_table : list u128) (gcm_key : bytes) : list u128 :=
  <[0%nat := gcm_init_nohw (CRYPTO_load_u64_be gcm_key, CRYPTO_load_u64_be (drop 8 gcm_key))]> out_table.

(** ** POLYVAL *)

Definition CRYPTO_store_u64_le (v : Z) : bytes := le_bytes 8 v.

Definition byte_reverse (b : bytes) : bytes :=
  let hi := CRYPTO_load_u64_le b in
  let lo := CRYPTO_load_u64_le (drop 8 b) in
  CRYPTO_store_u64_le (CRYPTO_bswap8 lo) ++ CRYPTO_store_u64_le (CRYPTO_bswap8 hi).

Definition reverse_and_mulX_ghash (b : bytes) : bytes :=
  let hi := CRYPTO_load_u64_le b in
  let lo := CRYPTO_load_u64_le (drop 8 b) in
  let carry := constant_time_eq_w (hi & 1) 1 in
  let hi := Z.shiftr hi 1 in
  let hi := Z.lor hi (u64 (Z.shiftl lo 63)) in
  let lo := Z.shiftr lo 1 in
  let lo := lo ⊕ u64 (Z.shiftl (constant_time_select_w carry 0xe1 0) 56) in
  CRYPTO_store_u64_le (CRYPTO_bswap8 lo) ++ CRYPTO_store_u64_le (CRYPTO_bswap8 hi).

Record polyval_ctx := PolyvalCtx { pv_S : bytes; pv_Htable : list u128 }.

(** [table] is what the struct has in it before. *)
Definition CRYPTO_POLYVAL_init (table : list u128) (key : bytes) : polyval_ctx :=
  let H := reverse_and_mulX_ghash key in
  PolyvalCtx (zeros 16) (CRYPTO_ghash_init table H).

(** [for (i = 0; i < blocks; i++) byte_reverse(buf + 16 * i);] *)
Fixpoint reverse_blocks (blocks : nat) (buf : bytes) : bytes :=
  match blocks with
  | O => buf
  | S k => byte_reverse (take 16 buf) ++ reverse_blocks k (drop 16 buf)
  end.

Fixpoint polyval_loop (fuel : nat) (ctx : polyval_ctx) (inp : bytes) : res polyval_ctx :=
  if 0 <? Z.of_nat (length inp) then
    match fuel with
    | O => OutOfFuel
    | S k =>
        let todo := if 512 <? Z.of_nat (length inp) then 512 else Z.of_nat (length inp) in
        let buf := take (Z.to_nat todo) inp in
        let blocks := todo / 16 in
        let buf := reverse_blocks (Z.to_nat blocks) buf in
        s <- gcm_ghash_nohw (pv_S ctx) (pv_Htable ctx) buf ;;
        polyval_loop k (PolyvalCtx s (pv_Htable ctx)) (drop (Z.to_nat todo) inp)
    end
  else Ret ctx.
Definition CRYPTO_POLYVAL_update_blocks (ctx : polyval_ctx) (inp : bytes) : res polyval_ctx :=
  if Z.of_nat (length inp) & 15 =? 0 then polyval_loop (length inp) ctx inp else UB.

Definition CRYPTO_POLYVAL_finish (ctx : polyval_ctx) : bytes := byte_reverse (pv_S ctx).

(** RFC 8452, appendix A. *)
Definition rfc8452_H : bytes := be_bytes 16 0x25629347589242761d31f826ba4b757b.
Definition rfc8452_X : bytes :=
  be_bytes 16 0x4f4f95668c83dfb6401762bb2d01a262 ++ be_bytes 16 0xd1a24ddd2721d006bbe45f20d3c9f362.
Example rfc8452_polyval :
  (ctx <- CRYPTO_POLYVAL_update_blocks (CRYPTO_POLYVAL_init (replicate 16 (U128 0 0)) rfc8452_H) rfc8452_X ;;
   Ret (CRYPTO_POLYVAL_finish ctx)) = Ret (be_bytes 16 0xf7a3b47b846119fae5b7866cf5e5b77e).
Proof. vm_compute. reflexivity. Qed.
