(* ===== verification/GhashSpec.v ===== *)
(** * GHASH and POLYVAL are those of the standards

    Multiplication without carries by integer multiplication of numbers with every
    fourth bit; the field of 2^128 elements, in the notation of RFC 8452, in which
    bit [i] of a number is the coefficient of [x^i]; multiplication of blocks as
    NIST SP 800-38D writes it, and the functions of the code. *)
From Stdlib Require Import ZArith Lia Btauto.
From stdpp Require Import prelude list numbers.
From S2P Require Import Prelude CMem Cells Words ConstantTime Cbs Der DerInt Gf2 Ghash.
Local Open Scope Z_scope.

Local Infix "⊕" := Z.lxor (at level 45, left associativity).
Local Infix "&" := Z.land (at level 40, left associativity).

(** ** Bits *)

(** Equality up to associativity, commutativity and cancellation. *)
Ltac xor_ac := apply Z.bits_inj'; intros; rewrite !Z.lxor_spec; btauto.

Lemma high_bit n a m : 0 <= a < 2 ^ n -> n <= m -> Z.testbit a m = false.
Proof.
  intros Ha Hm. destruct (decide (a = 0)) as [->|H0]; [apply Z.bits_0|].
  apply Z.bits_above_log2; [lia|]. apply Z.lt_le_trans with n; [|done]. apply Z.log2_lt_pow2; lia.
Qed.
Lemma low_bits n a : 0 <= n -> (forall m, n <= m -> Z.testbit a m = false) -> 0 <= a < 2 ^ n.
Proof.
  intros Hn Hb. assert (a = a mod 2 ^ n) as ->; [|apply Z.mod_pos_bound; lia].
  apply Z.bits_inj'. intros m Hm. destruct (decide (m < n)).
  - by rewrite Z.mod_pow2_bits_low.
  - by rewrite Z.mod_pow2_bits_high, Hb by lia.
Qed.
Lemma lxor_range n a b : 0 <= n -> 0 <= a < 2 ^ n -> 0 <= b < 2 ^ n -> 0 <= a ⊕ b < 2 ^ n.
Proof. intros Hn Ha Hb. apply low_bits; [done|]. intros m Hm. by rewrite Z.lxor_spec, !(high_bit n) by lia. Qed.
Lemma lxor_pos a b : 0 <= a -> 0 <= b -> 0 <= a ⊕ b.
Proof. intros. by apply Z.lxor_nonneg. Qed.
Lemma land_range n a b : 0 <= n -> 0 <= b < 2 ^ n -> 0 <= a & b < 2 ^ n.
Proof. intros Hn Hb. apply low_bits; [done|]. intros m Hm. by rewrite Z.land_spec, (high_bit n b), andb_false_r by lia. Qed.
Lemma land_lxor_l a b c : (a ⊕ b) & c = (a & c) ⊕ (b & c).
Proof. apply Z.bits_inj'. intros n Hn. rewrite Z.lxor_spec, !Z.land_spec, Z.lxor_spec. by destruct (Z.testbit a n), (Z.testbit b n), (Z.testbit c n). Qed.
Lemma u64_land a : u64 a = a & Z.ones 64.
Proof. symmetry. apply Z.land_ones. lia. Qed.
Lemma u64_id a : 0 <= a < 2 ^ 64 -> u64 a = a.
Proof. apply wrap_small. Qed.
Lemma u64_lxor a b : u64 (a ⊕ b) = u64 a ⊕ u64 b.
Proof. rewrite !u64_land. apply land_lxor_l. Qed.

(** ** Multiplication of numbers as polynomials *)

Definition clmul (a b : Z) : Z := Z.of_N (pmul (Z.to_N a) (Z.to_N b)).

Lemma of_N_lxor a b : Z.of_N (N.lxor a b) = Z.of_N a ⊕ Z.of_N b.
Proof. by destruct a, b. Qed.
Lemma to_N_lxor a b : 0 <= a -> 0 <= b -> Z.to_N (a ⊕ b) = N.lxor (Z.to_N a) (Z.to_N b).
Proof.
  intros Ha Hb. apply N2Z.inj. rewrite of_N_lxor, !Z2N.id; try lia. by apply Z.lxor_nonneg.
Qed.
Lemma to_N_double a : Z.to_N (2 * a) = N.double (Z.to_N a).
Proof. by destruct a. Qed.
Lemma of_N_double a : Z.of_N (N.double a) = 2 * Z.of_N a.
Proof. by destruct a. Qed.

Lemma clmul_nonneg a b : 0 <= clmul a b.
Proof. apply N2Z.is_nonneg. Qed.
Lemma clmul_0_l b : clmul 0 b = 0.
Proof. done. Qed.
Lemma clmul_1_l b : 0 <= b -> clmul 1 b = b.
Proof. intros. unfold clmul. change (Z.to_N 1) with 1%N. rewrite pmul_1_l. lia. Qed.
Lemma clmul_comm a b : clmul a b = clmul b a.
Proof. unfold clmul. by rewrite pmul_comm. Qed.
Lemma clmul_double_l a b : clmul (2 * a) b = 2 * clmul a b.
Proof. unfold clmul. by rewrite to_N_double, pmul_double_l, of_N_double. Qed.
Lemma clmul_lxor_l a b c : 0 <= a -> 0 <= b -> clmul (a ⊕ b) c = clmul a c ⊕ clmul b c.
Proof. intros Ha Hb. unfold clmul. by rewrite to_N_lxor, pmul_lxor_l, of_N_lxor. Qed.
Lemma clmul_lxor_r a b c : 0 <= b -> 0 <= c -> clmul a (b ⊕ c) = clmul a b ⊕ clmul a c.
Proof. intros. rewrite !(clmul_comm a). by apply clmul_lxor_l. Qed.
Lemma clmul_pow_l n a b : 0 <= n -> clmul (2 ^ n * a) b = 2 ^ n * clmul a b.
Proof.
  intros Hn. revert n Hn. apply natlike_ind; [by rewrite !Z.mul_1_l|].
  intros n Hn IH. rewrite !Z.pow_succ_r by done. by rewrite <- !Z.mul_assoc, clmul_double_l, IH.
Qed.
Lemma clmul_pow_r n a b : 0 <= n -> clmul a (2 ^ n * b) = 2 ^ n * clmul a b.
Proof. intros. by rewrite clmul_comm, clmul_pow_l, clmul_comm. Qed.
Lemma clmul_bound n m a b : 0 <= a < 2 ^ n -> 0 <= b < 2 ^ m -> 0 <= clmul a b < 2 ^ (n + m).
Proof.
  intros Ha Hb. split; [apply clmul_nonneg|].
  assert (0 <= n) by (destruct (Z.lt_ge_cases n 0); [rewrite Z.pow_neg_r in Ha by done; lia|done]).
  assert (0 <= m) by (destruct (Z.lt_ge_cases m 0); [rewrite Z.pow_neg_r in Hb by done; lia|done]).
  pose proof (pmul_bound (Z.to_N n) (Z.to_N m) (Z.to_N a) (Z.to_N b)) as Hp.
  unfold clmul. replace (2 ^ (n + m)) with (Z.of_N (2 ^ (Z.to_N n + Z.to_N m))).
  - apply N2Z.inj_lt, Hp; apply N2Z.inj_lt; rewrite N2Z.inj_pow, !Z2N.id; lia.
  - rewrite N2Z.inj_pow, N2Z.inj_add, !Z2N.id; lia.
Qed.

(** ** Numbers in base 16 *)

Fixpoint val16 (d : list Z) : Z := match d with [] => 0 | x :: r => x + 16 * val16 r end.
Definition digits (d : list Z) : Prop := Forall (fun x => 0 <= x < 16) d.
Definition bit_digits (d : list Z) : Prop := Forall (fun x => x = 0 \/ x = 1) d.
Definition parity (d : list Z) : list Z := (fun x => x mod 2) <$> d.
(** [n] ones. *)
Definition every4 (n : nat) : Z := val16 (replicate n 1).

Lemma val16_nonneg d : digits d -> 0 <= val16 d.
Proof. induction 1; cbn; lia. Qed.
Lemma bit_digits_digits d : bit_digits d -> digits d.
Proof. apply List.Forall_impl. lia. Qed.
Lemma parity_digits d : bit_digits (parity d).
Proof. unfold parity. apply Forall_fmap, Forall_true. intros x. cbn. Z.div_mod_to_equations; lia. Qed.
Lemma parity_bits d : bit_digits d -> parity d = d.
Proof. induction 1 as [|x d Hx Hd IH]; [done|]. cbn. f_equal; [|done]. by destruct Hx as [-> | ->]. Qed.
#[local] Hint Resolve val16_nonneg bit_digits_digits parity_digits : core.

Lemma bits16 x a n : 0 <= x < 16 -> 0 <= n ->
  Z.testbit (x + 16 * a) n = if n <? 4 then Z.testbit x n else Z.testbit a (n - 4).
Proof.
  intros Hx Hn. destruct (Z.ltb_spec n 4).
  - rewrite <- (Z.mod_pow2_bits_low _ 4 n) by lia. f_equal. Z.div_mod_to_equations; lia.
  - replace n with ((n - 4) + 4) at 1 by lia. rewrite <- Z.div_pow2_bits by lia. f_equal.
    Z.div_mod_to_equations; lia.
Qed.
Lemma lxor16 x y a b : 0 <= x < 16 -> 0 <= y < 16 -> (x + 16 * a) ⊕ (y + 16 * b) = (x ⊕ y) + 16 * (a ⊕ b).
Proof.
  intros Hx Hy. assert (0 <= x ⊕ y < 2 ^ 4) by (apply lxor_range; lia).
  apply Z.bits_inj'. intros n Hn. rewrite Z.lxor_spec, !bits16 by lia.
  by destruct (n <? 4); rewrite Z.lxor_spec.
Qed.

Lemma land16 x y a b : 0 <= x < 16 -> 0 <= y < 16 -> (x + 16 * a) & (y + 16 * b) = (x & y) + 16 * (a & b).
Proof.
  intros Hx Hy. assert (0 <= x & y < 2 ^ 4) by (apply land_range; lia).
  apply Z.bits_inj'. intros n Hn. rewrite Z.land_spec, !bits16 by lia.
  by destruct (n <? 4); rewrite Z.land_spec.
Qed.

(** Addition and multiplication of the digits, without carries. *)
Fixpoint add_digits (u v : list Z) : list Z :=
  match u, v with
  | [], _ => v
  | _, [] => u
  | x :: u, y :: v => (x + y) :: add_digits u v
  end.
Fixpoint mul_digits (u v : list Z) : list Z :=
  match u with
  | [] => []
  | x :: u => add_digits (if x =? 0 then [] else v) (0 :: mul_digits u v)
  end.
Fixpoint ones (d : list Z) : Z := match d with [] => 0 | x :: d => x + ones d end.

Lemma val16_add u v : val16 (add_digits u v) = val16 u + val16 v.
Proof. revert v; induction u as [|x u IH]; intros [|y v]; cbn; rewrite ?IH; lia. Qed.
Lemma val16_mul u v : bit_digits u -> val16 (mul_digits u v) = val16 u * val16 v.
Proof.
  induction 1 as [|x u Hx Hu IH]; [done|]. cbn [mul_digits val16]. rewrite val16_add. cbn [val16]. rewrite IH.
  destruct Hx as [-> | ->]; cbn; lia.
Qed.
Lemma add_digits_bound a b u v :
  0 <= a -> 0 <= b -> Forall (fun x => 0 <= x <= a) u -> Forall (fun x => 0 <= x <= b) v ->
  Forall (fun x => 0 <= x <= a + b) (add_digits u v).
Proof.
  intros Ha Hb Hu. revert v; induction Hu as [|x u Hx Hu IH]; intros v Hv; cbn.
  - eapply List.Forall_impl; [|exact Hv]. cbn. lia.
  - destruct Hv as [|y v Hy Hv]; constructor; [lia| |lia|by apply IH].
    eapply List.Forall_impl; [|exact Hu]. cbn. lia.
Qed.
Lemma ones_nonneg d : bit_digits d -> 0 <= ones d.
Proof. induction 1; cbn; lia. Qed.
Lemma mul_digits_bound u v :
  bit_digits u -> bit_digits v -> Forall (fun x => 0 <= x <= ones u) (mul_digits u v).
Proof.
  intros Hu Hv. induction Hu as [|x u Hx Hu IH]; [constructor|]. cbn [mul_digits ones].
  pose proof (ones_nonneg u Hu). apply add_digits_bound; [lia..| |constructor; [lia|done]].
  destruct Hx as [-> | ->]; cbn; [constructor|]. eapply List.Forall_impl; [|exact Hv]. cbn. lia.
Qed.
Lemma length_add_digits u v : length (add_digits u v) = Nat.max (length u) (length v).
Proof. revert v; induction u as [|x u IH]; intros [|y v]; cbn; rewrite ?IH; lia. Qed.
Lemma length_mul_digits u v :
  (1 <= length v)%nat -> (length (mul_digits u v) <= pred (length u + length v))%nat.
Proof.
  intros Hv. induction u as [|x u IH]; cbn [mul_digits length]; [lia|]. rewrite length_add_digits. cbn [length].
  destruct (x =? 0); cbn [length]; lia.
Qed.

(** The parities of the digits of the product are the product without carries. *)
Lemma parity_add u v : val16 (parity (add_digits u v)) = val16 (parity u) ⊕ val16 (parity v).
Proof.
  unfold parity. revert v; induction u as [|x u IH]; intros [|y v]; cbn; rewrite ?Z.lxor_0_r; try done.
  rewrite IH, lxor16 by (Z.div_mod_to_equations; lia). f_equal.
  rewrite Zplus_mod. assert (forall z, z mod 2 = 0 \/ z mod 2 = 1) as Hc by (intros; Z.div_mod_to_equations; lia).
  by destruct (Hc x) as [-> | ->], (Hc y) as [-> | ->].
Qed.
Lemma parity_mul u v :
  bit_digits u -> bit_digits v -> val16 (parity (mul_digits u v)) = clmul (val16 u) (val16 v).
Proof.
  intros Hu Hv. assert (0 <= val16 v) by auto. induction Hu as [|x u Hx Hu IH]; [done|].
  cbn [mul_digits val16]. rewrite parity_add. cbn [parity fmap list_fmap val16]. fold (parity (mul_digits u v)).
  rewrite IH. assert (0 <= val16 u) by auto.
  replace (x + 16 * val16 u) with ((x + 16 * 0) ⊕ (0 + 16 * val16 u))
    by (rewrite lxor16 by lia; by rewrite Z.lxor_0_r, Z.lxor_0_l).
  rewrite clmul_lxor_l by lia. f_equal.
  - destruct Hx as [-> | ->]; [done|]. cbn [Z.eqb Z.mul Z.add]. by rewrite clmul_1_l, parity_bits.
  - change 16 with (2 ^ 4). by rewrite !Z.add_0_l, clmul_pow_l.
Qed.

(** ** Every fourth bit *)

Fixpoint nibbles (n : nat) (a : Z) : list Z :=
  match n with O => [] | S k => a mod 16 :: nibbles k (a / 16) end.
(** The bits at positions [4 k + i]. *)
Definition select (i : Z) (n : nat) (a : Z) : list Z := (fun x => x / 2 ^ i mod 2) <$> nibbles n a.

Lemma length_select i n a : length (select i n a) = n.
Proof. unfold select. rewrite length_fmap. revert a; induction n; intros; cbn; auto. Qed.
Lemma select_bits i n a : bit_digits (select i n a).
Proof. unfold select. apply Forall_fmap, Forall_true. intros x. cbn. Z.div_mod_to_equations; lia. Qed.
#[local] Hint Resolve select_bits : core.

Lemma land_bit i x : 0 <= i -> x & 2 ^ i = 2 ^ i * (x / 2 ^ i mod 2).
Proof.
  intros Hi. rewrite <- Z.testbit_spec' by lia. apply Z.bits_inj'. intros n Hn.
  rewrite Z.land_spec, Z.pow2_bits_eqb by lia. destruct (Z.eqb_spec i n) as [->|Hne].
  - rewrite andb_true_r, (Z.mul_comm (2 ^ n)), Z.mul_pow2_bits by lia. rewrite Z.sub_diag. by destruct (Z.testbit x n).
  - rewrite andb_false_r. symmetry. destruct (Z.testbit x i); cbn [Z.b2z]; [|by rewrite Z.mul_0_r, Z.bits_0].
    rewrite Z.mul_1_r. by apply Z.pow2_bits_false.
Qed.
Lemma land_select i n a : 0 <= i < 4 -> 0 <= a -> a & (2 ^ i * every4 n) = 2 ^ i * val16 (select i n a).
Proof.
  intros Hi. revert a. induction n as [|n IH]; intros a Ha; [by rewrite !Z.mul_0_r, Z.land_0_r|].
  change (every4 (S n)) with (1 + 16 * every4 n).
  change (val16 (select i (S n) a)) with (a mod 16 / 2 ^ i mod 2 + 16 * val16 (select i n (a / 16))).
  pose proof (Z.mod_pos_bound a 16 ltac:(lia)). assert (0 <= a / 16) by (apply Z.div_pos; lia).
  assert (2 ^ i < 2 ^ 4) by (apply Z.pow_lt_mono_r; lia).
  replace (2 ^ i * (1 + 16 * every4 n)) with (2 ^ i + 16 * (2 ^ i * every4 n)) by lia.
  rewrite (Z.div_mod a 16) at 1 by lia. rewrite Z.add_comm, land16, land_bit, IH by lia. lia.
Qed.

Lemma masked s d n :
  0 <= s -> digits d -> (length d <= n)%nat -> (2 ^ s * val16 d) & (2 ^ s * every4 n) = 2 ^ s * val16 (parity d).
Proof.
  intros Hs Hd Hl. rewrite !(Z.mul_comm (2 ^ s)), <- !Z.shiftl_mul_pow2, <- Z.shiftl_land by done. f_equal.
  revert n Hl. induction Hd as [|x d Hx Hd IH]; intros n Hl; [done|].
  destruct n as [|n]; cbn [length] in Hl; [lia|]. change (every4 (S n)) with (1 + 16 * every4 n).
  cbn [val16 parity fmap list_fmap]. rewrite land16, IH by lia. f_equal. apply (land_mask x 1). lia.
Qed.

(** A product, between the bits that take up what the digits overflow by. *)
Lemma term_ok N i j da db :
  0 <= i < 4 -> 0 <= j < 4 -> bit_digits da -> bit_digits db -> ones da <= 15 ->
  (1 <= length db)%nat -> (length da + length db <= N)%nat ->
  (2 ^ i * val16 da * (2 ^ j * val16 db)) & (2 ^ ((i + j) mod 4) * every4 N) =
  clmul (2 ^ i * val16 da) (2 ^ j * val16 db).
Proof.
  intros Hi Hj Ha Hb Ho Hl HN. rewrite clmul_pow_l, clmul_pow_r, <- parity_mul by (done || lia).
  replace (2 ^ i * val16 da * (2 ^ j * val16 db)) with (2 ^ (i + j) * val16 (mul_digits da db))
    by (rewrite val16_mul, Z.pow_add_r by (done || lia); lia).
  rewrite Z.mul_assoc, <- Z.pow_add_r by lia. pose proof (length_mul_digits da db Hl).
  assert (digits (mul_digits da db)) as Hd.
  { eapply List.Forall_impl; [|by apply mul_digits_bound]. cbn. lia. }
  destruct (decide (i + j < 4)).
  - rewrite (Z.mod_small (i + j)) by lia. apply masked; (done || lia).
  - replace ((i + j) mod 4) with (i + j - 4) by (apply (Z.mod_unique _ _ 1); lia).
    replace (2 ^ (i + j)) with (2 ^ (i + j - 4) * 16) by (rewrite <- (Z.pow_add_r 2 _ 4) by lia; f_equal; lia).
    rewrite <- !Z.mul_assoc.
    change (16 * val16 (mul_digits da db)) with (val16 (0 :: mul_digits da db)).
    rewrite masked; [done|lia|constructor; [lia|done]|cbn; lia].
Qed.

Lemma clmul_split a0 a1 a2 a3 b0 b1 b2 b3 :
  0 <= a0 -> 0 <= a1 -> 0 <= a2 -> 0 <= a3 -> 0 <= b0 -> 0 <= b1 -> 0 <= b2 -> 0 <= b3 ->
  (clmul a0 b0 ⊕ clmul a1 b3 ⊕ clmul a2 b2 ⊕ clmul a3 b1) ⊕
  (clmul a0 b1 ⊕ clmul a1 b0 ⊕ clmul a2 b3 ⊕ clmul a3 b2) ⊕
  (clmul a0 b2 ⊕ clmul a1 b1 ⊕ clmul a2 b0 ⊕ clmul a3 b3) ⊕
  (clmul a0 b3 ⊕ clmul a1 b2 ⊕ clmul a2 b1 ⊕ clmul a3 b0) =
  clmul (a0 ⊕ a1 ⊕ a2 ⊕ a3) (b0 ⊕ b1 ⊕ b2 ⊕ b3).
Proof.
  intros. unfold clmul. rewrite <- !of_N_lxor, !to_N_lxor by (by repeat apply lxor_pos).
  f_equal. ring.
Qed.

(** ** With [uint128_t] *)

Lemma lo_masked m M c : M & Z.ones 64 = m -> u64 c & m = u64 (c & M).
Proof.
  intros <-. rewrite !u64_land. rewrite (Z.land_comm M), Z.land_assoc, <- (Z.land_assoc c), Z.land_diag.
  rewrite <- !Z.land_assoc. f_equal. apply Z.land_comm.
Qed.
Lemma hi_masked m M c : Z.shiftr M 64 = m -> 0 <= m < 2 ^ 64 -> u64 (Z.shiftr c 64) & m = Z.shiftr (c & M) 64.
Proof.
  intros <- Hm. rewrite Z.shiftr_land, u64_land, <- Z.land_assoc. f_equal.
  rewrite Z.land_comm, Z.land_ones by lia. by apply Z.mod_small.
Qed.

Lemma ones_length d : bit_digits d -> ones d <= Z.of_nat (length d).
Proof. induction 1; cbn [ones length]; lia. Qed.

(** What is masked off below. *)
Lemma low_masked i a :
  0 <= i < 4 -> 0 <= a ->
  a & (2 ^ i * (16 * every4 15)) = 2 ^ i * val16 (select i 16 (16 * (a / 16))) /\
  ones (select i 16 (16 * (a / 16))) <= 15.
Proof.
  intros Hi Ha. split.
  - rewrite <- land_select by (done || (Z.div_mod_to_equations; lia)).
    change (every4 16) with (1 + 16 * every4 15).
    pose proof (Z.mod_pos_bound a 16 ltac:(lia)). assert (2 ^ i < 2 ^ 4) by (apply Z.pow_lt_mono_r; lia).
    replace (a & _) with ((a mod 16 + 16 * (a / 16)) & (0 + 16 * (2 ^ i * every4 15)))
      by (f_equal; [Z.div_mod_to_equations; lia|lia]).
    replace (_ & (2 ^ i * (1 + _))) with ((0 + 16 * (a / 16)) & (2 ^ i + 16 * (2 ^ i * every4 15)))
      by (f_equal; lia).
    rewrite !land16 by lia. by rewrite Z.land_0_r, Z.land_0_l.
  - unfold select. cbn [nibbles fmap list_fmap ones].
    replace (16 * (a / 16) mod 16) with 0 by (Z.div_mod_to_equations; lia).
    rewrite Z.div_0_l, Z.mod_0_l, Z.add_0_l by lia.
    etrans; [apply (ones_length (select i 15 _)), select_bits|]. rewrite length_select. lia.
Qed.

Lemma mul128_small a b : 0 <= a < 2 ^ 64 -> 0 <= b < 2 ^ 64 -> mul128 a b = a * b.
Proof. intros. unfold mul128. apply wrap_small. change (2 ^ 128) with (2 ^ 64 * 2 ^ 64). nia. Qed.

(** One of the products, masked. *)
Lemma term128 i j s a b M :
  0 <= i < 4 -> 0 <= j < 4 -> 0 <= a < 2 ^ 64 -> 0 <= b < 2 ^ 64 -> s = (i + j) mod 4 ->
  M = 2 ^ s * every4 32 ->
  mul128 (a & (2 ^ i * (16 * every4 15))) (b & (2 ^ j * every4 16)) & M =
  clmul (a & (2 ^ i * (16 * every4 15))) (b & (2 ^ j * every4 16)).
Proof.
  intros Hi Hj Ha Hb -> ->. rewrite mul128_small.
  - destruct (low_masked i a) as [-> Ho]; [lia..|]. rewrite (land_select j 16 b) by lia.
    apply term_ok; rewrite ?length_select; (done || lia || auto).
  - rewrite Z.land_comm. by apply land_range.
  - rewrite Z.land_comm. by apply land_range.
Qed.

(** Multiplication by one bit. *)
Lemma extra_term i a b :
  0 <= i < 64 -> 0 <= b < 2 ^ 64 ->
  wrap 128 (Z.shiftl (u64 (0 - (Z.shiftr a i & 1)) & b) i) = clmul (a & 2 ^ i) b.
Proof.
  intros Hi Hb. rewrite land_bit, clmul_pow_l by lia. rewrite (land_mask _ 1), Z.shiftr_div_pow2 by lia.
  change (2 ^ 1) with 2.
  pose proof (Z.mod_pos_bound (a / 2 ^ i) 2 ltac:(lia)).
  assert (a / 2 ^ i mod 2 = 0 \/ a / 2 ^ i mod 2 = 1) as [-> | ->] by lia.
  - change (u64 (0 - 0)) with 0. rewrite Z.land_0_l, Z.shiftl_0_l. by rewrite clmul_0_l, Z.mul_0_r.
  - change (u64 (0 - 1)) with (Z.ones 64). rewrite Z.land_comm, Z.land_ones, Z.mod_small, clmul_1_l by lia.
    rewrite Z.shiftl_mul_pow2 by lia. rewrite wrap_small; [lia|].
    assert (2 ^ i < 2 ^ 64) by (apply Z.pow_lt_mono_r; lia). change (2 ^ 128) with (2 ^ 64 * 2 ^ 64). nia.
Qed.

(** The parts that the masks make of a word. *)
Lemma split_word a (m0 m1 m2 m3 : Z) : (a & m0) ⊕ (a & m1) ⊕ (a & m2) ⊕ (a & m3) = a & (m0 ⊕ m1 ⊕ m2 ⊕ m3).
Proof. rewrite !(Z.land_comm a), !land_lxor_l. done. Qed.

Lemma extra_ok a b :
  0 <= a -> 0 <= b < 2 ^ 64 ->
  (u64 (0 - (a & 1)) & b) ⊕ wrap 128 (Z.shiftl (u64 (0 - (Z.shiftr a 1 & 1)) & b) 1) ⊕
  wrap 128 (Z.shiftl (u64 (0 - (Z.shiftr a 2 & 1)) & b) 2) ⊕
  wrap 128 (Z.shiftl (u64 (0 - (Z.shiftr a 3 & 1)) & b) 3) = clmul (a & 15) b.
Proof.
  intros Ha Hb. rewrite !extra_term by lia.
  replace (u64 (0 - (a & 1)) & b) with (wrap 128 (Z.shiftl (u64 (0 - (Z.shiftr a 0 & 1)) & b) 0)).
  - assert (forall m, 0 <= m -> 0 <= a & m) as Hm by (intros; apply Z.land_nonneg; lia).
    rewrite extra_term, <- !clmul_lxor_l by (repeat apply lxor_pos; by auto using Z.pow_nonneg with zarith || lia).
    by rewrite split_word.
  - rewrite Z.shiftl_0_r, Z.shiftr_0_r. apply wrap_small. rewrite Z.land_comm.
    assert (0 <= b & u64 (0 - (a & 1)) < 2 ^ 64) by (apply land_range; [lia|apply wrap_range; lia]). lia.
Qed.
Lemma gcm_mul64_ok a b :
  0 <= a < 2 ^ 64 -> 0 <= b < 2 ^ 64 ->
  gcm_mul64_nohw a b = (u64 (clmul a b), Z.shiftr (clmul a b) 64).
Proof.
  intros Ha Hb. unfold gcm_mul64_nohw.
  change 0x1111111111111110 with (2 ^ 0 * (16 * every4 15)).
  change 0x2222222222222220 with (2 ^ 1 * (16 * every4 15)).
  change 0x4444444444444440 with (2 ^ 2 * (16 * every4 15)).
  change 0x8888888888888880 with (2 ^ 3 * (16 * every4 15)).
  change mask1 with (2 ^ 0 * every4 16). change mask2 with (2 ^ 1 * every4 16).
  change mask4 with (2 ^ 2 * every4 16). change mask8 with (2 ^ 3 * every4 16).
  rewrite !(hi_masked (2 ^ 0 * every4 16) (2 ^ 0 * every4 32)), !(hi_masked (2 ^ 1 * every4 16) (2 ^ 1 * every4 32)),
    !(hi_masked (2 ^ 2 * every4 16) (2 ^ 2 * every4 32)), !(hi_masked (2 ^ 3 * every4 16) (2 ^ 3 * every4 32)) by done.
  rewrite !(lo_masked (2 ^ 0 * every4 16) (2 ^ 0 * every4 32)), !(lo_masked (2 ^ 1 * every4 16) (2 ^ 1 * every4 32)),
    !(lo_masked (2 ^ 2 * every4 16) (2 ^ 2 * every4 32)), !(lo_masked (2 ^ 3 * every4 16) (2 ^ 3 * every4 32)) by done.
  rewrite !land_lxor_l, !(term128 _ _ _ a b) by (done || lia).
  rewrite extra_ok by lia.
  assert (0 <= a & 15 < 2 ^ 4) as Hx by (by apply (land_range 4)).
  assert (0 <= clmul (a & 15) b < 2 ^ (4 + 64)) as He by (by apply clmul_bound).
  rewrite (u64_id (Z.shiftr _ 64)) by (rewrite Z.shiftr_div_pow2 by lia; Z.div_mod_to_equations; lia).
  assert (forall m, 0 <= m -> 0 <= a & m /\ 0 <= b & m) as Hm by (intros; rewrite !Z.land_nonneg; lia).
  rewrite <- !u64_lxor, <- !Z.shiftr_lxor, clmul_split by (by apply Hm).
  rewrite !split_word.
  change (2 ^ 0 * every4 16 ⊕ _ ⊕ _ ⊕ _) with (Z.ones 64). rewrite (Z.land_ones b), (Z.mod_small b) by lia.
  rewrite <- clmul_lxor_l by (by apply Hm || lia). rewrite !(Z.land_comm a), <- land_lxor_l.
  change (_ ⊕ 15) with (Z.ones 64). by rewrite Z.land_comm, Z.land_ones, Z.mod_small by lia.
Qed.

(** ** Without it *)

(** The same for words of 32 bits, whose digits are few enough. *)
Lemma term64 i j s a b M :
  0 <= i < 4 -> 0 <= j < 4 -> 0 <= a < 2 ^ 32 -> 0 <= b < 2 ^ 32 -> s = (i + j) mod 4 ->
  M = 2 ^ s * every4 16 ->
  mul64 (a & (2 ^ i * every4 8)) (b & (2 ^ j * every4 8)) & M =
  clmul (a & (2 ^ i * every4 8)) (b & (2 ^ j * every4 8)).
Proof.
  intros Hi Hj Ha Hb -> ->.
  assert (forall x m, 0 <= x < 2 ^ 32 -> 0 <= x & m < 2 ^ 32) as Hm
    by (intros; rewrite Z.land_comm; by apply land_range).
  unfold mul64. rewrite u64_id.
  - rewrite (land_select i 8 a), (land_select j 8 b) by lia. pose proof (ones_length _ (select_bits i 8 a)) as Ho.
    rewrite length_select in Ho. apply term_ok; rewrite ?length_select; (done || lia || auto).
  - pose proof (Hm a (2 ^ i * every4 8) Ha). pose proof (Hm b (2 ^ j * every4 8) Hb).
    change (2 ^ 64) with (2 ^ 32 * 2 ^ 32). nia.
Qed.
(** Masks that share no bit. *)
Definition disjoint (m n : Z) : bool := m & n =? 0.
Lemma lor_apart x0 x1 x2 x3 m0 m1 m2 m3 :
  disjoint m0 m1 && disjoint m0 m2 && disjoint m0 m3 && disjoint m1 m2 && disjoint m1 m3 && disjoint m2 m3 = true ->
  Z.lor (Z.lor (Z.lor (x0 & m0) (x1 & m1)) (x2 & m2)) (x3 & m3) =
  (x0 & m0) ⊕ (x1 & m1) ⊕ (x2 & m2) ⊕ (x3 & m3).
Proof.
  unfold disjoint. rewrite !andb_true_iff, !Z.eqb_eq. intros [[[[[H1 H2] H3] H4] H5] H6].
  apply Z.bits_inj'. intros k Hk. rewrite !Z.lxor_spec, !Z.lor_spec, !Z.land_spec.
  apply (f_equal (fun z => Z.testbit z k)) in H1, H2, H3, H4, H5, H6.
  rewrite Z.land_spec, Z.bits_0 in H1, H2, H3, H4, H5, H6.
  destruct (Z.testbit m0 k), (Z.testbit m1 k), (Z.testbit m2 k), (Z.testbit m3 k); try done;
    destruct (Z.testbit x0 k), (Z.testbit x1 k), (Z.testbit x2 k), (Z.testbit x3 k); done.
Qed.
Lemma gcm_mul32_ok a b :
  0 <= a < 2 ^ 32 -> 0 <= b < 2 ^ 32 -> gcm_mul32_nohw a b = clmul a b.
Proof.
  intros Ha Hb. unfold gcm_mul32_nohw.
  change 0x11111111 with (2 ^ 0 * every4 8). change 0x22222222 with (2 ^ 1 * every4 8).
  change 0x44444444 with (2 ^ 2 * every4 8). change 0x88888888 with (2 ^ 3 * every4 8).
  change mask1 with (2 ^ 0 * every4 16). change mask2 with (2 ^ 1 * every4 16).
  change mask4 with (2 ^ 2 * every4 16). change mask8 with (2 ^ 3 * every4 16).
  rewrite lor_apart by done. rewrite !land_lxor_l, !(term64 _ _ _ a b) by (done || lia).
  assert (forall m, 0 <= m -> 0 <= a & m /\ 0 <= b & m) as Hm by (intros; rewrite !Z.land_nonneg; lia).
  rewrite clmul_split by (by apply Hm). rewrite !split_word.
  change (2 ^ 0 * every4 8 ⊕ _ ⊕ _ ⊕ _) with (Z.ones 32). by rewrite !Z.land_ones, !Z.mod_small by lia.
Qed.

(** Karatsuba's three products. *)
Lemma clmul_pow_2 k a : 0 <= k -> 0 <= a -> 2 ^ k * a = clmul (2 ^ k) a.
Proof. intros Hk Ha. rewrite <- (Z.mul_1_r (2 ^ k)) at 2. by rewrite clmul_pow_l, clmul_1_l. Qed.
Lemma karatsuba k a0 a1 b0 b1 :
  0 <= k -> 0 <= a0 -> 0 <= a1 -> 0 <= b0 -> 0 <= b1 ->
  clmul (a0 ⊕ 2 ^ k * a1) (b0 ⊕ 2 ^ k * b1) =
  clmul a0 b0 ⊕ 2 ^ k * (clmul (a0 ⊕ a1) (b0 ⊕ b1) ⊕ clmul a0 b0 ⊕ clmul a1 b1) ⊕ 2 ^ k * (2 ^ k * clmul a1 b1).
Proof.
  intros Hk Ha0 Ha1 Hb0 Hb1. pose proof clmul_nonneg as Hc. assert (0 <= 2 ^ k) by (apply Z.pow_nonneg; lia).
  rewrite (clmul_pow_2 k a1), (clmul_pow_2 k b1), (clmul_pow_2 k (clmul a1 b1)), !(clmul_pow_2 k)
    by (repeat apply lxor_pos; auto).
  unfold clmul. rewrite <- !of_N_lxor, !N2Z.id, !to_N_lxor by (repeat apply lxor_pos; lia).
  f_equal. rewrite !N2Z.id. ring.
Qed.

Lemma split_at n x : 0 <= n -> x mod 2 ^ n ⊕ 2 ^ n * (x / 2 ^ n) = x.
Proof.
  intros Hn. assert (0 < 2 ^ n) by (apply Z.pow_pos_nonneg; lia).
  rewrite <- Z.add_nocarry_lxor; [pose proof (Z.div_mod x (2 ^ n)); lia|].
  rewrite Z.mul_comm, <- Z.shiftl_mul_pow2, <- Z.land_ones by lia. apply Z.bits_inj'. intros k Hk.
  rewrite Z.land_spec, Z.land_spec, Z.bits_0, Z.testbit_ones_nonneg, Z.shiftl_spec by lia.
  destruct (Z.ltb_spec k n); [rewrite (Z.testbit_neg_r _ (k - n)) by lia; by rewrite andb_false_r|].
  by rewrite andb_false_r.
Qed.
Lemma word_halves n x :
  0 <= n -> 0 <= x < 2 ^ (2 * n) ->
  0 <= x mod 2 ^ n < 2 ^ n /\ 0 <= x / 2 ^ n < 2 ^ n /\ x mod 2 ^ n ⊕ 2 ^ n * (x / 2 ^ n) = x.
Proof.
  intros Hn Hx. assert (0 < 2 ^ n) by (apply Z.pow_pos_nonneg; lia).
  split; [apply Z.mod_pos_bound; lia|]. split; [|by apply split_at].
  split; [apply Z.div_pos; lia|]. apply Z.div_lt_upper_bound; [lia|]. rewrite <- Z.pow_add_r by lia.
  replace (n + n) with (2 * n) by lia. lia.
Qed.
(** A number put together from parts, and taken apart. *)
Lemma mul_pow_lxor k a b : 0 <= k -> 2 ^ k * (a ⊕ b) = 2 ^ k * a ⊕ 2 ^ k * b.
Proof. intros. by rewrite !(Z.mul_comm (2 ^ k)), <- !Z.shiftl_mul_pow2, Z.shiftl_lxor by lia. Qed.
Lemma u64_high a : u64 (2 ^ 64 * a) = 0.
Proof. unfold u64, wrap. rewrite Z.mul_comm. apply Z.mod_mul. lia. Qed.
Lemma shiftr_high k n a : 0 <= n <= k -> Z.shiftr (2 ^ n * a) k = Z.shiftr a (k - n).
Proof.
  intros. rewrite Z.mul_comm, <- Z.shiftl_mul_pow2 by lia. rewrite Z.shiftr_shiftl_r by lia. done.
Qed.
Lemma shiftr_low k a : 0 <= k -> 0 <= a < 2 ^ k -> Z.shiftr a k = 0.
Proof. intros Hk Ha. rewrite Z.shiftr_div_pow2 by lia. by apply Z.div_small. Qed.

Lemma gcm_mul64_32_ok a b :
  0 <= a < 2 ^ 64 -> 0 <= b < 2 ^ 64 ->
  gcm_mul64_nohw_32 a b = (u64 (clmul a b), Z.shiftr (clmul a b) 64).
Proof.
  intros Ha Hb. unfold gcm_mul64_nohw_32.
  destruct (word_halves 32 a) as (Ha0 & Ha1 & Ea), (word_halves 32 b) as (Hb0 & Hb1 & Eb); [lia..|].
  pose proof (karatsuba 32 (a mod 2 ^ 32) (a / 2 ^ 32) (b mod 2 ^ 32) (b / 2 ^ 32)) as Ek. rewrite Ea, Eb in Ek.
  change 0xffffffff with (Z.ones 32). rewrite !Z.land_ones, (Z.shiftr_div_pow2 a), (Z.shiftr_div_pow2 b) by lia.
  unfold u32. rewrite !(wrap_small 32), Ek by (done || lia). clear Ea Eb Ek.
  set (a0 := a mod 2 ^ 32) in *. set (a1 := a / 2 ^ 32) in *.
  set (b0 := b mod 2 ^ 32) in *. set (b1 := b / 2 ^ 32) in *.
  rewrite !gcm_mul32_ok by (done || (by apply lxor_range)).
  assert (0 <= clmul a0 b0 < 2 ^ (32 + 32)) as Hlo by (by apply clmul_bound).
  set (mid := clmul (a0 ⊕ a1) (b0 ⊕ b1) ⊕ clmul a0 b0 ⊕ clmul a1 b1).
  rewrite Z.mul_assoc, <- Z.pow_add_r by lia. f_equal.
  - rewrite !u64_lxor, u64_high, Z.lxor_0_r, (u64_id (clmul a0 b0)) by done.
    by rewrite Z.shiftl_mul_pow2, Z.mul_comm by lia.
  - rewrite !Z.shiftr_lxor, (shiftr_low 64 (clmul a0 b0)), !shiftr_high, Z.lxor_0_l, Z.lxor_comm by (done || lia).
    by rewrite Z.shiftr_0_r.
Qed.

(** ** The field *)

(** x^128 + x^127 + x^126 + x^121 + 1 *)
Definition modulus : N := 0x1c2000000000000000000000000000001%N.
Notation "a ≈ b" := (congruent modulus a%gf2 b%gf2) (at level 70) : gf2_scope.

Lemma modulus_terms :
  modulus = (pow_x 128 + pow_x 127 + pow_x 126 + pow_x 121 + 1%N)%gf2 /\ N.odd modulus = true /\
  N.log2 modulus = 128%N /\ modulus <> 0%N.
Proof. by vm_compute. Qed.

(** The reduction of the low half: what its shifts lose is put back first. *)
Lemma reduce (l0 l h s1 s2 s7 m1 m2 m7 : N) :
  pmul (pow_x 1) s1 = N.lxor l m1 -> pmul (pow_x 2) s2 = N.lxor l m2 -> pmul (pow_x 7) s7 = N.lxor l m7 ->
  (l = l0 + (pow_x 127 * m1 + pow_x 126 * m2 + pow_x 121 * m7))%gf2 ->
  (pow_x 128 * (h + l + s1 + s2 + s7) ≈ l0 + pow_x 128 * h)%gf2.
Proof.
  intros E1 E2 E7 El. exists l. destruct modulus_terms as [-> _].
  assert (forall n k s m, pmul (pow_x k) s = N.lxor l m -> (n + k = 128)%N ->
    pmul (pow_x 128) s = pmul (pow_x n) (N.lxor l m)) as Hs.
  { intros n k s m E <-. by rewrite pow_x_add, <- pmul_assoc, E. }
  rewrite !pmul_lxor_r.
  rewrite (Hs 127%N 1%N s1 m1), (Hs 126%N 2%N s2 m2), (Hs 121%N 7%N s7 m7) by done.
  set (x128 := pow_x 128) in *. set (x127 := pow_x 127) in *. set (x126 := pow_x 126) in *.
  set (x121 := pow_x 121) in *.
  replace l0 with ((l + (x127 * m1 + x126 * m2 + x121 * m7))%gf2) by (rewrite El; ring). ring.
Qed.

(** ** The words of an element *)

Definition word_pair (p : Z * Z) : Prop := 0 <= fst p < 2 ^ 64 /\ 0 <= snd p < 2 ^ 64.
Definition pair_val (p : Z * Z) : Z := fst p ⊕ 2 ^ 64 * snd p.

Lemma to_N_pow n a : 0 <= a -> Z.to_N (2 ^ Z.of_N n * a) = pmul (pow_x n) (Z.to_N a).
Proof.
  intros Ha. rewrite clmul_pow_2 by (done || lia). unfold clmul. rewrite N2Z.id. f_equal.
  unfold pow_x. rewrite N.shiftl_1_l. change 2 with (Z.of_N 2). by rewrite <- N2Z.inj_pow, N2Z.id.
Qed.
Lemma pair_val_range p : word_pair p -> 0 <= pair_val p < 2 ^ 128.
Proof.
  intros [H0 H1]. apply lxor_range; [lia| |]; change (2 ^ 128) with (2 ^ 64 * 2 ^ 64); nia.
Qed.
Lemma pair_val_lxor p q :
  pair_val (fst p ⊕ fst q, snd p ⊕ snd q) = pair_val p ⊕ pair_val q.
Proof.
  unfold pair_val. cbn [fst snd]. rewrite mul_pow_lxor by lia. rewrite !Z.lxor_assoc. f_equal.
  rewrite <- !Z.lxor_assoc. f_equal. apply Z.lxor_comm.
Qed.
Lemma word_pair_lxor p q : word_pair p -> word_pair q -> word_pair (fst p ⊕ fst q, snd p ⊕ snd q).
Proof. intros [? ?] [? ?]. split; by apply lxor_range. Qed.

Lemma shiftr_range n a : 0 <= n -> 0 <= a < 2 ^ 64 -> 0 <= Z.shiftr a n < 2 ^ 64.
Proof.
  intros Hn Ha. rewrite Z.shiftr_div_pow2 by done. assert (0 < 2 ^ n) by (apply Z.pow_pos_nonneg; lia).
  split; [apply Z.div_pos; lia|]. apply Z.div_lt_upper_bound; [lia|]. nia.
Qed.
Lemma u64_is_word a : 0 <= u64 a < 2 ^ 64.
Proof. apply wrap_range. lia. Qed.

(** A shift of both words. *)
Lemma shiftr_pair k p :
  0 < k < 64 ->
  Z.shiftr (pair_val p) k =
  pair_val (Z.shiftr (fst p) k ⊕ u64 (Z.shiftl (snd p) (64 - k)), Z.shiftr (snd p) k).
Proof.
  intros Hk. unfold pair_val. cbn [fst snd]. rewrite Z.shiftr_lxor, Z.lxor_assoc. f_equal.
  rewrite (Z.mul_comm (2 ^ 64)), <- Z.shiftl_mul_pow2, Z.shiftr_shiftl_l by lia.
  rewrite <- (split_at 64 (Z.shiftl (snd p) (64 - k))) at 1 by lia. f_equal. f_equal.
  rewrite <- Z.shiftr_div_pow2, Z.shiftr_shiftl_r by lia. f_equal. lia.
Qed.
(** The bits that it drops. *)
Lemma mod_pair k p : 0 <= k <= 64 -> pair_val p mod 2 ^ k = fst p mod 2 ^ k.
Proof.
  intros Hk. unfold pair_val. rewrite <- !Z.land_ones, land_lxor_l by lia.
  replace (2 ^ 64 * snd p) with (2 ^ (64 - k) * snd p * 2 ^ k).
  - rewrite (Z.land_ones (_ * _)), Z.mod_mul by lia. apply Z.lxor_0_r.
  - replace (2 ^ 64) with (2 ^ (64 - k) * 2 ^ k) by (rewrite <- Z.pow_add_r by lia; f_equal; lia). lia.
Qed.
Lemma high_part k r : 0 < k < 64 -> 2 ^ 64 * u64 (Z.shiftl r (64 - k)) = 2 ^ (128 - k) * (r mod 2 ^ k).
Proof.
  intros Hk. unfold u64, wrap. rewrite Z.shiftl_mul_pow2 by lia.
  replace (2 ^ 64) with (2 ^ k * 2 ^ (64 - k)) at 2 by (rewrite <- Z.pow_add_r by lia; f_equal; lia).
  rewrite Z.mul_mod_distr_r by (try apply Z.pow_nonzero; lia).
  replace (2 ^ (128 - k)) with (2 ^ 64 * 2 ^ (64 - k)) by (rewrite <- Z.pow_add_r by lia; f_equal; lia). lia.
Qed.

(** The statements of [gcm_polyval_nohw] from the first use of [r0] on. *)
Definition reduce_words (r0 r1 r2 r3 : Z) : Z * Z :=
  let r1 := r1 ⊕ (u64 (Z.shiftl r0 63) ⊕ u64 (Z.shiftl r0 62) ⊕ u64 (Z.shiftl r0 57)) in
  let r2 := r2 ⊕ r0 in
  let r3 := r3 ⊕ r1 in
  let r2 := r2 ⊕ Z.shiftr r0 1 in
  let r2 := r2 ⊕ u64 (Z.shiftl r1 63) in
  let r3 := r3 ⊕ Z.shiftr r1 1 in
  let r2 := r2 ⊕ Z.shiftr r0 2 in
  let r2 := r2 ⊕ u64 (Z.shiftl r1 62) in
  let r3 := r3 ⊕ Z.shiftr r1 2 in
  let r2 := r2 ⊕ Z.shiftr r0 7 in
  let r2 := r2 ⊕ u64 (Z.shiftl r1 57) in
  let r3 := r3 ⊕ Z.shiftr r1 7 in
  (r2, r3).
Ltac words := repeat first [assumption | apply lxor_range | apply u64_is_word | apply shiftr_range | done | lia].

Lemma reduce_words_ok r0 r1 r2 r3 :
  word_pair (r0, r1) -> word_pair (r2, r3) ->
  word_pair (reduce_words r0 r1 r2 r3) /\
  (pow_x 128 * Z.to_N (pair_val (reduce_words r0 r1 r2 r3)) ≈
   Z.to_N (pair_val (r0, r1)) + pow_x 128 * Z.to_N (pair_val (r2, r3)))%gf2.
Proof.
  intros [H0 H1] [H2 H3]. cbn [fst snd] in *. unfold reduce_words.
  set (r1' := r1 ⊕ _). assert (0 <= r1' < 2 ^ 64) as H1' by (unfold r1'; words).
  set (l := pair_val (r0, r1')). split; [split; cbn [fst snd]; words|].
  match goal with |- context [pair_val (?a, ?b)] => 
    assert (pair_val (a, b) = pair_val (r2, r3) ⊕ l ⊕ Z.shiftr l 1 ⊕ Z.shiftr l 2 ⊕ Z.shiftr l 7) as -> end.
  { unfold l. rewrite !(shiftr_pair _ (r0, r1')) by lia. rewrite <- !pair_val_lxor. cbn [fst snd].
    f_equal. f_equal. rewrite !Z.lxor_assoc. done. }
  assert (0 <= l) as Hl by (apply pair_val_range; by split).
  assert (0 <= pair_val (r2, r3)) as Hh by (apply pair_val_range; by split).
  assert (0 <= pair_val (r0, r1)) as Hl0 by (apply pair_val_range; by split).
  assert (forall k, 0 <= Z.shiftr l k) as Hs by (intros; by apply Z.shiftr_nonneg).
  rewrite !to_N_lxor by (repeat first [assumption | apply Hs | apply lxor_pos]).
  assert (forall n k, k = Z.of_N n -> 0 < k < 64 ->
    (pow_x n * Z.to_N (Z.shiftr l k) = Z.to_N l + Z.to_N (r0 mod 2 ^ k))%gf2) as Hk.
  { intros n k -> Hk. rewrite <- to_N_pow by auto. rewrite Z.shiftr_div_pow2 by lia.
    rewrite <- (mod_pair _ (r0, r1')) by lia. fold l.
    pose proof (Z.mod_pos_bound l (2 ^ Z.of_N n) ltac:(lia)).
    rewrite <- to_N_lxor by lia. f_equal. rewrite <- (split_at (Z.of_N n) l) at 2 by lia.
    by rewrite Z.lxor_comm, <- Z.lxor_assoc, Z.lxor_nilpotent, Z.lxor_0_l. }
  apply (reduce _ _ _ _ _ _ (Z.to_N (r0 mod 2 ^ 1)) (Z.to_N (r0 mod 2 ^ 2)) (Z.to_N (r0 mod 2 ^ 7)));
    [by apply Hk..|].
  pose proof (Z.mod_pos_bound r0 (2 ^ 1) ltac:(lia)). pose proof (Z.mod_pos_bound r0 (2 ^ 2) ltac:(lia)).
  pose proof (Z.mod_pos_bound r0 (2 ^ 7) ltac:(lia)).
  rewrite <- !to_N_pow, <- !to_N_lxor by (repeat first [assumption | apply lxor_pos | lia]). f_equal.
  change (Z.of_N 127) with (128 - 1). change (Z.of_N 126) with (128 - 2). change (Z.of_N 121) with (128 - 7).
  rewrite <- !high_part by lia. unfold l, r1', pair_val. cbn [fst snd]. rewrite !mul_pow_lxor by lia.
  by rewrite !Z.lxor_assoc.
Qed.

Lemma high_range a : 0 <= a < 2 ^ 128 -> 0 <= Z.shiftr a 64 < 2 ^ 64.
Proof.
  intros Ha. rewrite Z.shiftr_div_pow2 by lia. split; [apply Z.div_pos; lia|].
  apply Z.div_lt_upper_bound; lia.
Qed.
Lemma split_words a : pair_val (u64 a, Z.shiftr a 64) = a.
Proof. unfold pair_val. cbn [fst snd]. rewrite Z.shiftr_div_pow2 by lia. apply (split_at 64). lia. Qed.

Lemma assemble a0 a1 m0 m1 c0 c1 :
  pair_val (a0, a1 ⊕ m0) ⊕ 2 ^ 128 * pair_val (c0 ⊕ m1, c1) =
  pair_val (a0, a1) ⊕ 2 ^ 64 * pair_val (m0, m1) ⊕ 2 ^ 64 * (2 ^ 64 * pair_val (c0, c1)).
Proof.
  unfold pair_val. cbn [fst snd]. change (2 ^ 128) with (2 ^ 64 * 2 ^ 64).
  rewrite <- Z.mul_assoc, !mul_pow_lxor by lia. xor_ac.
Qed.

Lemma gcm_polyval_ok X H :
  word_pair X -> word_pair (lo H, hi H) ->
  word_pair (gcm_polyval_nohw X H) /\
  (pow_x 128 * Z.to_N (pair_val (gcm_polyval_nohw X H)) ≈
   Z.to_N (pair_val X) * Z.to_N (pair_val (lo H, hi H)))%gf2.
Proof.
  intros [HX0 HX1] [HH0 HH1]. cbn [fst snd] in *. unfold gcm_polyval_nohw.
  rewrite (Z.lxor_comm (hi H)), !gcm_mul64_ok by words.
  set (A := clmul (fst X) (lo H)). set (C := clmul (snd X) (hi H)).
  set (m := clmul (fst X ⊕ snd X) (lo H ⊕ hi H)). cbv beta iota.
  assert (0 <= A < 2 ^ 128) as HA by (by apply (clmul_bound 64 64)).
  assert (0 <= C < 2 ^ 128) as HC by (by apply (clmul_bound 64 64)).
  assert (0 <= m < 2 ^ 128) as Hm by (apply (clmul_bound 64 64); words).
  pose proof (high_range _ HA). pose proof (high_range _ HC). pose proof (high_range _ Hm).
  set (M := m ⊕ (A ⊕ C)).
  assert (u64 m ⊕ (u64 A ⊕ u64 C) = u64 M) as EM0 by (by rewrite <- !u64_lxor).
  assert (Z.shiftr m 64 ⊕ (Z.shiftr A 64 ⊕ Z.shiftr C 64) = Z.shiftr M 64) as EM1 by (by rewrite <- !Z.shiftr_lxor).
  assert (0 <= Z.shiftr M 64 < 2 ^ 64) as HM by (rewrite <- EM1; words).
  rewrite EM0, EM1.
  match goal with |- word_pair ?p /\ _ =>
    change p with (reduce_words (u64 A) (Z.shiftr A 64 ⊕ u64 M) (u64 C ⊕ Z.shiftr M 64) (Z.shiftr C 64)) end.
  destruct (reduce_words_ok (u64 A) (Z.shiftr A 64 ⊕ u64 M) (u64 C ⊕ Z.shiftr M 64) (Z.shiftr C 64)) as [Hw E];
    [split; cbn [fst snd]; words..|].
  split; [done|]. rewrite E.
  replace (Z.to_N (pair_val X) * Z.to_N (pair_val (lo H, hi H)))%gf2
    with (Z.to_N (clmul (pair_val X) (pair_val (lo H, hi H)))) by apply N2Z.id.
  assert (0 <= u64 A < 2 ^ 64 /\ 0 <= u64 M < 2 ^ 64 /\ 0 <= u64 C < 2 ^ 64) as (? & ? & ?) by (split_and!; apply u64_is_word).
  rewrite <- to_N_pow, <- to_N_lxor by (apply pair_val_range || (apply Z.mul_nonneg_nonneg; [lia|apply pair_val_range]);
    split; cbn [fst snd]; words).
  unfold pair_val at 3 4. cbn [fst snd]. rewrite karatsuba by lia. fold A C m. rewrite (Z.lxor_assoc m). fold M.
  change (Z.of_N 128) with 128. rewrite assemble. by rewrite !split_words.
Qed.

(** ** Multiplication by [x] *)

Lemma lor_lxor a b : Z.land a b = 0 -> Z.lor a b = a ⊕ b.
Proof. intros. symmetry. by apply Z.lxor_lor. Qed.
Lemma double_words l h :
  0 <= l < 2 ^ 64 -> 0 <= h < 2 ^ 64 ->
  pair_val (u64 (Z.shiftl l 1), Z.lor (u64 (Z.shiftl h 1)) (Z.shiftr l 63)) ⊕ 2 ^ 128 * Z.shiftr h 63 =
  2 ^ 1 * pair_val (l, h).
Proof.
  intros Hl Hh. rewrite lor_lxor.
  - unfold pair_val. cbn [fst snd]. rewrite !mul_pow_lxor by lia.
    replace (2 ^ 1 * (2 ^ 64 * h)) with (2 ^ 64 * (2 ^ 1 * h)) by lia.
    rewrite <- (split_at 64 (2 ^ 1 * l)), <- (split_at 64 (2 ^ 1 * h)) by lia.
    rewrite !(Z.mul_comm (2 ^ 1)), <- !Z.shiftl_mul_pow2, <- !Z.shiftr_div_pow2 by lia.
    rewrite !Z.shiftr_shiftl_r by lia. change (64 - 1) with 63. change (2 ^ 128) with (2 ^ 64 * 2 ^ 64).
    rewrite !mul_pow_lxor, <- Z.mul_assoc by lia. fold (u64 (Z.shiftl l 1)) (u64 (Z.shiftl h 1)).
    unfold u64, wrap. xor_ac.
  - apply Z.bits_inj'. intros n Hn. rewrite Z.land_spec, Z.bits_0.
    destruct (decide (n < 1)) as [Hn1|Hn1].
    + rewrite u64_land, Z.land_spec, Z.shiftl_spec, (Z.testbit_neg_r _ (n - 1)) by lia. done.
    + rewrite (high_bit 1 (Z.shiftr l 63)); [by rewrite andb_false_r| |lia].
      rewrite Z.shiftr_div_pow2 by lia. split; [apply Z.div_pos; lia|]. apply Z.div_lt_upper_bound; lia.
Qed.

Lemma modulus_Z : Z.of_N modulus = pair_val (1, 0xc200000000000000) ⊕ 2 ^ 128.
Proof. by vm_compute. Qed.

Lemma gcm_init_ok Xi :
  word_pair Xi ->
  let H := gcm_init_nohw Xi in
  word_pair (lo H, hi H) /\
  (Z.to_N (pair_val (lo H, hi H)) ≈ pow_x 1 * Z.to_N (pair_val (snd Xi, fst Xi)))%gf2.
Proof.
  intros [Hh Hl]. destruct Xi as [h l]. cbn [fst snd] in *. cbn zeta. unfold gcm_init_nohw. cbn [fst snd hi lo].
  pose proof (double_words l h Hl Hh) as E.
  set (l' := u64 (Z.shiftl l 1)) in *. set (h' := Z.lor _ _) in *.
  assert (0 <= l' < 2 ^ 64) as Hl' by apply u64_is_word.
  assert (0 <= h' < 2 ^ 64) as Hh'.
  { apply lor_range; [lia|apply u64_is_word|by apply shiftr_range]. }
  assert (Z.shiftr h 63 = 0 \/ Z.shiftr h 63 = 1) as Hc.
  { rewrite Z.shiftr_div_pow2 by lia. Z.div_mod_to_equations; lia. }
  assert (exists c, (c = 0 \/ c = 1) /\ Z.shiftr h 63 = c /\ u64 (0 - Z.shiftr h 63) & 1 = c /\
    u64 (0 - Z.shiftr h 63) & 0xc200000000000000 = c * 0xc200000000000000) as (c & Hc01 & Ec & E1 & E2).
  { exists (Z.shiftr h 63). by destruct Hc as [-> | ->]; (split_and!; [lia|..]). }
  rewrite E1, E2. rewrite Ec in E. split.
  { split; cbn [fst snd]; apply lxor_range; lia. }
  exists (Z.to_N c). rewrite <- to_N_pow by (apply pair_val_range; by split).
  change (Z.of_N 1) with 1. rewrite <- E.
  pose proof (pair_val_range (l', h') ltac:(by split)). rewrite <- to_N_lxor.
  - pose proof (pair_val_lxor (l', h') (c, c * 0xc200000000000000)) as Ep. cbn [fst snd] in Ep. rewrite Ep. set (p := pair_val (l', h')) in *.
    replace (_ ⊕ _) with (pair_val (c, c * 0xc200000000000000) ⊕ 2 ^ 128 * c) by xor_ac.
    destruct Hc01 as [-> | ->]; by vm_compute.
  - apply pair_val_range. split; cbn [fst snd]; apply lxor_range; lia.
  - apply lxor_pos; lia.
Qed.

(** ** Blocks as elements *)

(** The product of blocks of SP 800-38D, section 6.3.  Its leftmost bit, which is the
    greatest here, is the coefficient of 1, and the right shift multiplies by the
    variable. *)
Definition R : N := N.shiftl 0xe1 120.
Definition shift_step (v : N) : N := if N.odd v then N.lxor (N.div2 v) R else N.div2 v.
Fixpoint block_mul_loop (n : nat) (x z v : N) : N :=
  match n with
  | O => z
  | S k => block_mul_loop k x (if N.testbit x (N.of_nat k) then N.lxor z v else z) (shift_step v)
  end.
Definition block_mul (x y : N) : N := block_mul_loop 128 x 0 y.

(** GHASH with the hash subkey [h], from [y] on. *)
Definition ghash_from (h y : N) (blocks : list N) : N :=
  foldl (fun y x => block_mul (N.lxor y x) h) y blocks.
Definition ghash (h : N) (blocks : list N) : N := ghash_from h 0 blocks.

Definition in_field (x : N) : Prop := (x < 2 ^ 128)%N.
Lemma in_field_lxor x y : in_field x -> in_field y -> in_field (N.lxor x y).
Proof.
  unfold in_field. intros Hx Hy. destruct (decide (N.lxor x y = 0%N)) as [->|Hn]; [done|].
  apply N.log2_lt_pow2; [lia|]. pose proof (N.log2_lxor x y).
  assert (forall z, (z < 2 ^ 128)%N -> (N.log2 z < 128)%N) as Hl.
  { intros z Hz. destruct (decide (z = 0%N)) as [->|]; [done|]. apply N.log2_lt_pow2; [lia|done]. }
  pose proof (Hl x Hx). pose proof (Hl y Hy). lia.
Qed.

Lemma shift_step_ok v : (pow_x 1 * shift_step v ≈ v)%gf2.
Proof.
  unfold shift_step. destruct (double_split v) as [E|E].
  - assert (N.odd v = false) as -> by (rewrite E, N.double_spec; apply N.odd_mul). by rewrite E at 2.
  - assert (N.odd v = true) as ->.
    { rewrite E, <- N.bit0_odd, N.lxor_spec, N.double_spec, N.testbit_even_0. done. }
    exists 1%N. rewrite pmul_1_l. rewrite E at 2. rewrite pmul_lxor_r. change (pow_x 1 * N.div2 v)%gf2 with (N.double (N.div2 v)).
    set (d := N.double (N.div2 v)). replace (_ + (1%N + d))%gf2 with (pow_x 1 * R + 1%N)%gf2 by ring. by vm_compute.
Qed.
Lemma shift_step_field v : in_field v -> in_field (shift_step v).
Proof.
  intros Hv. assert (in_field (N.div2 v)) as Hd by (unfold in_field in *; rewrite N.div2_div; apply N.Div0.div_lt_upper_bound; lia).
  unfold shift_step. destruct (N.odd v); [by apply in_field_lxor|done].
Qed.

(** The lower bits, one more at a time. *)
Lemma low_succ x k :
  (x mod 2 ^ N.succ k)%N = N.lxor (if N.testbit x k then pow_x k else 0) (x mod 2 ^ k)%N.
Proof.
  apply N.bits_inj. intros i. rewrite N.lxor_spec. unfold pow_x. rewrite N.shiftl_1_l.
  destruct (N.lt_trichotomy i k) as [Hi|[->|Hi]].
  - rewrite !N.mod_pow2_bits_low by lia. destruct (N.testbit x k); [|by rewrite N.bits_0].
    by rewrite N.pow2_bits_false by lia.
  - rewrite N.mod_pow2_bits_low, N.mod_pow2_bits_high by lia.
    destruct (N.testbit x k); [by rewrite N.pow2_bits_true|by rewrite N.bits_0].
  - rewrite !N.mod_pow2_bits_high by lia. destruct (N.testbit x k); [|by rewrite N.bits_0].
    by rewrite N.pow2_bits_false by lia.
Qed.

Lemma block_mul_loop_ok n x z v h :
  ((0 < n)%nat -> pow_x 127 * v ≈ pow_x (N.pred (N.of_nat n)) * h)%gf2 ->
  (pow_x 127 * block_mul_loop n x z v ≈ pow_x 127 * z + (x mod 2 ^ N.of_nat n)%N * h)%gf2.
Proof.
  revert z v. induction n as [|n IH]; intros z v Hv; cbn [block_mul_loop].
  - change (2 ^ N.of_nat 0)%N with 1%N. rewrite N.mod_1_r, pmul_0_l, N.lxor_0_r. done.
  - specialize (Hv ltac:(lia)). rewrite Nat2N.inj_succ, N.pred_succ in Hv. rewrite IH.
    + rewrite Nat2N.inj_succ, low_succ, pmul_lxor_l. destruct (N.testbit x (N.of_nat n)).
      * rewrite <- Hv. replace (pow_x 127 * (z + v))%gf2 with (pow_x 127 * z + pow_x 127 * v)%gf2 by ring.
        by rewrite N.lxor_assoc.
      * by rewrite pmul_0_l, N.lxor_0_l.
    + intros Hn. destruct modulus_terms as (_ & Ho & _). apply (congruent_cancel _ 1 _ _ Ho).
      transitivity (pow_x 127 * (pow_x 1 * shift_step v))%gf2; [by rewrite !pmul_assoc, (pmul_comm (pow_x 1))|].
      rewrite shift_step_ok, Hv, pmul_assoc, <- pow_x_add.
      by replace (1 + N.pred (N.of_nat n))%N with (N.of_nat n) by lia.
Qed.
Lemma block_mul_ok x y : in_field x -> (pow_x 127 * block_mul x y ≈ x * y)%gf2.
Proof.
  intros Hx. unfold block_mul. rewrite (block_mul_loop_ok 128 x 0 y y) by done.
  change (N.of_nat 128) with 128%N. rewrite N.mod_small by done. by rewrite pmul_0_r, N.lxor_0_l.
Qed.
Lemma block_mul_field x y : in_field y -> in_field (block_mul x y).
Proof.
  intros Hy. unfold block_mul. assert (in_field 0) as Hz by done. revert y Hy Hz. generalize 0%N as z.
  generalize 128%nat as n. intros n. induction n as [|n IH]; intros z y Hy Hz; cbn [block_mul_loop]; [done|].
  apply IH; [by apply shift_step_field|]. destruct (N.testbit x (N.of_nat n)); [by apply in_field_lxor|done].
Qed.

(** The element of a block. *)
Definition block_of (b : bytes) : N := Z.to_N (be_val b).
Definition block_bytes (x : N) : bytes := be_bytes 16 (Z.of_N x).

Lemma in_field_Z p : word_pair p -> in_field (Z.to_N (pair_val p)).
Proof. intros Hp. pose proof (pair_val_range p Hp). unfold in_field. lia. Qed.

(** The product of the code is that of the standard. *)
Lemma polyval_block_mul X Xi :
  word_pair X -> word_pair Xi ->
  word_pair (gcm_polyval_nohw X (gcm_init_nohw Xi)) /\
  Z.to_N (pair_val (gcm_polyval_nohw X (gcm_init_nohw Xi))) =
  block_mul (Z.to_N (pair_val X)) (Z.to_N (pair_val (snd Xi, fst Xi))).
Proof.
  intros HX HXi. destruct (gcm_init_ok Xi HXi) as [HH EH]. destruct (gcm_polyval_ok X _ HX HH) as [Hw E].
  split; [done|]. destruct modulus_terms as (_ & Ho & Hl & Hn).
  apply (congruent_small modulus); [done|rewrite Hl; by apply in_field_Z| |].
  - rewrite Hl. apply block_mul_field, in_field_Z. by destruct HXi.
  - apply (congruent_cancel _ 128 _ _ Ho). rewrite E, EH.
    change 128%N with (1 + 127)%N. rewrite pow_x_add, <- pmul_assoc, block_mul_ok by (by apply in_field_Z).
    by rewrite !pmul_assoc, (pmul_comm (pow_x 1)).
Qed.

Lemma pair_val_add p : word_pair p -> pair_val p = fst p + 2 ^ 64 * snd p.
Proof.
  intros [H0 H1]. pose proof (split_at 64 (fst p + 2 ^ 64 * snd p) ltac:(lia)) as E.
  replace ((fst p + 2 ^ 64 * snd p) mod 2 ^ 64) with (fst p) in E by (Z.div_mod_to_equations; lia).
  by replace ((fst p + 2 ^ 64 * snd p) / 2 ^ 64) with (snd p) in E by (Z.div_mod_to_equations; lia).
Qed.
Lemma load_swapped_ok b :
  bytes_ok b -> (16 <= length b)%nat ->
  word_pair (load_swapped b) /\ pair_val (load_swapped b) = be_val (take 16 b).
Proof.
  intros Hb Hl. unfold load_swapped, CRYPTO_load_u64_be.
  assert (forall n, bytes_ok (take 8 (drop n b)) /\ (length (take 8 (drop n b)) <= 8)%nat) as Hk.
  { intros n. split; [by apply Forall_take, Forall_drop|]. rewrite length_take. lia. }
  destruct (Hk 0%nat) as [Hb0 _], (Hk 8%nat) as [Hb8 _]. rewrite drop_0 in Hb0.
  pose proof (be_val_bound _ Hb0) as H0. pose proof (be_val_bound _ Hb8) as H8.
  rewrite length_take, Nat.min_l in H0 by lia. rewrite length_take, length_drop, Nat.min_l in H8 by lia.
  assert (word_pair (be_val (take 8 (drop 8 b)), be_val (take 8 b))) as Hw by (by split).
  split; [done|]. rewrite pair_val_add by done. cbn [fst snd].
  replace (take 16 b) with (take 8 b ++ take 8 (drop 8 b)) by apply (take_take_drop b 8 8).
  rewrite be_val_app, length_take, length_drop, Nat.min_l by lia. change (256 ^ Z.of_nat 8) with (2 ^ 64). lia.
Qed.
Lemma store_swapped_ok p : word_pair p -> store_swapped p = block_bytes (Z.to_N (pair_val p)).
Proof.
  intros Hp. pose proof (pair_val_range p Hp). unfold store_swapped, block_bytes, CRYPTO_store_u64_be.
  rewrite Z2N.id, pair_val_add by (done || lia). destruct Hp as [H0 H1].
  change 16%nat with (8 + 8)%nat. rewrite be_bytes_app. change (256 ^ Z.of_nat 8) with (2 ^ 64). f_equal.
  - f_equal. Z.div_mod_to_equations; lia.
  - rewrite Z.add_comm, (Z.mul_comm (2 ^ 64)). symmetry. apply (be_bytes_high 8).
Qed.

Lemma block_of_field b : bytes_ok b -> (length b <= 16)%nat -> in_field (block_of b).
Proof.
  intros Hb Hl. unfold in_field, block_of. pose proof (be_val_bound b Hb).
  assert (256 ^ Z.of_nat (length b) <= 256 ^ 16) by (apply Z.pow_le_mono_r; lia).
  change (256 ^ 16) with (2 ^ 128) in *. lia.
Qed.
Lemma block_of_bytes x : in_field x -> block_of (block_bytes x) = x.
Proof.
  intros Hx. unfold block_of, block_bytes. rewrite be_val_bytes, Z.mod_small, N2Z.id; [done|].
  unfold in_field in Hx. change (256 ^ Z.of_nat 16) with (2 ^ 128). lia.
Qed.
Lemma block_bytes_of b : bytes_ok b -> length b = 16%nat -> block_bytes (block_of b) = b.
Proof.
  intros Hb Hl. unfold block_of, block_bytes. rewrite Z2N.id by (by apply be_val_bound).
  rewrite <- Hl. by apply be_bytes_val.
Qed.
Lemma length_block_bytes x : length (block_bytes x) = 16%nat.
Proof. apply length_be_bytes. Qed.
Lemma block_bytes_ok x : bytes_ok (block_bytes x).
Proof. apply be_bytes_ok. Qed.

(** ** The functions *)

(** The table of a key. *)
Definition key_table (table : list u128) (key : bytes) : Prop :=
  exists rest, table = gcm_init_nohw (CRYPTO_load_u64_be key, CRYPTO_load_u64_be (drop 8 key)) :: rest.
Lemma ghash_init_ok table key : table <> [] -> key_table (CRYPTO_ghash_init table key) key.
Proof. intros Ht. destruct table as [|x rest]; [done|]. by exists rest. Qed.

#[local] Opaque gcm_polyval_nohw gcm_init_nohw block_mul.
Lemma step_ok key X :
  bytes_ok key -> length key = 16%nat -> word_pair X ->
  let H := gcm_init_nohw (CRYPTO_load_u64_be key, CRYPTO_load_u64_be (drop 8 key)) in
  word_pair (gcm_polyval_nohw X H) /\
  Z.to_N (pair_val (gcm_polyval_nohw X H)) = block_mul (Z.to_N (pair_val X)) (block_of key).
Proof.
  intros Hk Hl HX. cbn zeta. destruct (load_swapped_ok key Hk ltac:(lia)) as [Hw E]. destruct Hw as [Hw0 Hw1].
  unfold load_swapped in *. cbn [fst snd] in *.
  destruct (polyval_block_mul X (CRYPTO_load_u64_be key, CRYPTO_load_u64_be (drop 8 key))) as [H1 H2]; [done|by split|].
  split; [done|]. rewrite H2. cbn [fst snd]. rewrite E, take_ge by lia. done.
Qed.

Lemma gmult_ok Xi table key :
  bytes_ok Xi -> length Xi = 16%nat -> bytes_ok key -> length key = 16%nat -> key_table table key ->
  gcm_gmult_nohw Xi table = Ret (block_bytes (block_mul (block_of Xi) (block_of key))).
Proof.
  intros HX HlX Hk Hlk [rest ->]. cbn [gcm_gmult_nohw]. destruct (load_swapped_ok Xi HX ltac:(lia)) as [Hw E].
  destruct (step_ok key _ Hk Hlk Hw) as [Hw' E']. by rewrite (store_swapped_ok _ Hw'), E', E, take_ge by lia.
Qed.

Lemma ghash_loop_ok fuel k key swapped inp :
  bytes_ok key -> length key = 16%nat -> bytes_ok inp -> (length inp = 16 * k)%nat -> (k <= fuel)%nat ->
  word_pair swapped ->
  let H := gcm_init_nohw (CRYPTO_load_u64_be key, CRYPTO_load_u64_be (drop 8 key)) in
  let r := ghash_loop fuel swapped H inp in
  word_pair r /\
  Z.to_N (pair_val r) = ghash_from (block_of key) (Z.to_N (pair_val swapped)) (block_of <$> chunks 16 k inp).
Proof.
  intros Hk Hlk Hi Hl Hf Hs. cbn zeta. revert k swapped inp Hi Hl Hf Hs. induction fuel as [|fuel IH]; intros k swapped inp Hi Hl Hf Hs.
  - assert (k = 0%nat) as -> by lia. cbn [ghash_loop]. rewrite Hl. done.
  - cbn [ghash_loop]. destruct k as [|k]; [by rewrite Hl|]. rewrite (proj2 (Z.leb_le 16 _)) by lia.
    destruct (load_swapped_ok inp Hi ltac:(lia)) as [Hw E].
    destruct (step_ok key _ Hk Hlk (word_pair_lxor _ _ Hs Hw)) as [Hw' E'].
    assert (length (drop 16 inp) = 16 * k)%nat as Hd by (rewrite length_drop; lia).
    destruct (IH k _ (drop 16 inp) (Forall_drop _ 16 _ Hi) Hd ltac:(lia) Hw') as [H1 H2].
    split; [exact H1|]. rewrite H2, E'. cbn [chunks fmap list_fmap ghash_from foldl]. unfold ghash_from. do 2 f_equal.
    rewrite pair_val_lxor, to_N_lxor by (apply pair_val_range; done).
    rewrite E. done.
Qed.
Lemma ghash_ok Xi table key k inp :
  bytes_ok Xi -> length Xi = 16%nat -> bytes_ok key -> length key = 16%nat -> key_table table key ->
  bytes_ok inp -> (length inp = 16 * k)%nat ->
  gcm_ghash_nohw Xi table inp =
  Ret (block_bytes (ghash_from (block_of key) (block_of Xi) (block_of <$> chunks 16 k inp))).
Proof.
  intros HX HlX Hk Hlk [rest ->] Hi Hl. cbn [gcm_ghash_nohw].
  destruct (load_swapped_ok Xi HX ltac:(lia)) as [Hw E].
  destruct (ghash_loop_ok (length inp) k key (load_swapped Xi) inp Hk Hlk Hi Hl ltac:(lia) Hw) as [Hw' E'].
  by rewrite (store_swapped_ok _ Hw'), E', E, take_ge by lia.
Qed.

(** ** POLYVAL *)

(** The field of RFC 8452, section 3: blocks are little-endian, and [dot a b] is
    a * b * x^-128. *)
Definition le_block (b : bytes) : N := Z.to_N (le_val b).
Definition dot (a b : N) : N := Nat.iter 128 shift_step (pmul a b).
Definition polyval_from (h s : N) (blocks : list N) : N := foldl (fun s x => dot (N.lxor s x) h) s blocks.
Definition polyval (h : N) (blocks : list N) : N := polyval_from h 0 blocks.

Lemma le_block_rev b : block_of (rev b) = le_block b.
Proof. unfold block_of, le_block. by rewrite <- le_val_rev, rev_involutive. Qed.
Lemma le_block_field b : bytes_ok b -> (length b <= 16)%nat -> in_field (le_block b).
Proof.
  intros Hb Hl. rewrite <- le_block_rev. apply block_of_field; [by apply Forall_rev|]. by rewrite length_rev.
Qed.

Lemma iter_shift_ok n v : (pow_x (N.of_nat n) * Nat.iter n shift_step v ≈ v)%gf2.
Proof.
  induction n as [|n IH]; [done|]. rewrite Nat2N.inj_succ, <- N.add_1_l, pow_x_add. rewrite Nat.iter_succ.
  by rewrite (pmul_comm (pow_x 1)), <- pmul_assoc, shift_step_ok.
Qed.
(** A step lowers the degree, down to what a block has. *)
Lemma shift_step_size n v : (v < 2 ^ (128 + N.succ n))%N -> (shift_step v < 2 ^ (128 + n))%N.
Proof.
  intros Hv. assert (N.div2 v < 2 ^ (128 + n))%N as Hd.
  { rewrite N.div2_div. apply N.Div0.div_lt_upper_bound. by rewrite <- N.pow_succ_r', <- N.add_succ_r. }
  unfold shift_step. destruct (N.odd v); [|done].
  assert (R < 2 ^ (128 + n))%N as HR.
  { apply N.lt_le_trans with (2 ^ 128)%N; [done|]. apply N.pow_le_mono_r; lia. }
  destruct (decide (N.lxor (N.div2 v) R = 0%N)) as [->|Hn]; [apply N.neq_0_lt_0, N.pow_nonzero; lia|].
  apply N.bit_log2 in Hn. destruct (N.lt_ge_cases (N.log2 (N.lxor (N.div2 v) R)) (128 + n)) as [Hl|Hl].
  - destruct (decide (N.lxor (N.div2 v) R = 0%N)) as [->|]; [apply N.neq_0_lt_0, N.pow_nonzero; lia|].
    apply N.log2_lt_pow2; lia.
  - by rewrite N.lxor_spec, !(bits_above _ (128 + n)) in Hn.
Qed.
Lemma dot_field a b : in_field a -> in_field b -> in_field (dot a b).
Proof.
  intros Ha Hb. unfold dot, in_field. pose proof (pmul_bound 128 128 a b Ha Hb) as Hp.
  assert (forall n v, (v < 2 ^ (128 + N.of_nat n))%N -> (Nat.iter n shift_step v < 2 ^ 128)%N) as Hi; [|by apply (Hi 128%nat)].
  induction n as [|n IH]; intros v Hv; [by rewrite N.add_0_r in Hv|].
  rewrite Nat.iter_succ_r. apply IH, shift_step_size. by rewrite <- Nat2N.inj_succ.
Qed.

(** Multiplication of blocks by the key divided by [x]. *)
Lemma block_mul_dot x h : in_field x -> in_field h -> block_mul x (shift_step h) = dot x h.
Proof.
  intros Hx Hh. destruct modulus_terms as (_ & Ho & Hl & Hn).
  apply (congruent_small modulus); [done|rewrite Hl..|].
  - by apply block_mul_field, shift_step_field.
  - by apply dot_field.
  - apply (congruent_cancel _ 128 _ _ Ho). unfold dot.
    rewrite (iter_shift_ok 128 (pmul x h)). change 128%N with (1 + 127)%N.
    rewrite pow_x_add, <- pmul_assoc, block_mul_ok by done.
    rewrite pmul_assoc, (pmul_comm (pow_x 1)), <- pmul_assoc. by rewrite shift_step_ok.
Qed.

Lemma bswap8_rev b : bytes_ok b -> length b = 8%nat -> CRYPTO_store_u64_le (CRYPTO_bswap8 (le_val b)) = rev b.
Proof.
  intros Hb Hl. pose proof (le_val_bound b Hb) as Hv. rewrite Hl in Hv. change (2 ^ (8 * Z.of_nat 8)) with (2 ^ 64) in Hv.
  unfold CRYPTO_store_u64_le. rewrite <- bswap8_bytes, bswap8_involutive by (done || by apply bswap8_range).
  rewrite <- (rev_involutive b) at 1. rewrite le_val_rev, <- Hl, <- length_rev. apply be_bytes_val. by apply Forall_rev.
Qed.
Lemma byte_reverse_ok b : bytes_ok b -> length b = 16%nat -> byte_reverse b = rev b.
Proof.
  intros Hb Hl. unfold byte_reverse, CRYPTO_load_u64_le. rewrite !bswap8_rev.
  - rewrite <- rev_app_distr. f_equal. rewrite (take_ge (drop 8 b)) by (rewrite length_drop; lia). apply take_drop.
  - by apply Forall_take.
  - rewrite length_take. lia.
  - by apply Forall_take, Forall_drop.
  - rewrite length_take, length_drop. lia.
Qed.

Lemma le_words b :
  bytes_ok b -> length b = 16%nat ->
  word_pair (CRYPTO_load_u64_le b, CRYPTO_load_u64_le (drop 8 b)) /\
  pair_val (CRYPTO_load_u64_le b, CRYPTO_load_u64_le (drop 8 b)) = le_val b.
Proof.
  intros Hb Hl. destruct (load_swapped_ok (rev b)) as [Hw E]; [by apply Forall_rev|rewrite length_rev; lia|].
  rewrite take_ge in E by (rewrite length_rev; lia).
  assert (load_swapped (rev b) = (CRYPTO_load_u64_le b, CRYPTO_load_u64_le (drop 8 b))) as <-.
  - unfold load_swapped, CRYPTO_load_u64_be, CRYPTO_load_u64_le.
    rewrite <- !le_val_rev. rewrite <- (take_drop 8 b) at 1 2. rewrite rev_app_distr.
    assert (length (rev (drop 8 b)) = 8%nat) as Hr by (rewrite length_rev, length_drop; lia).
    rewrite drop_app_length', take_app_length' by done.
    rewrite !(take_ge (rev _)), !(take_ge (drop 8 b)), !rev_involutive
      by (rewrite ?length_rev, ?length_drop, ?length_take; lia). done.
  - split; [done|]. by rewrite E, <- le_val_rev, rev_involutive.
Qed.

Lemma div2_to_N a : 0 <= a -> N.div2 (Z.to_N a) = Z.to_N (Z.shiftr a 1).
Proof. intros Ha. apply N2Z.inj. rewrite N2Z.inj_div2, !Z2N.id; [done|by apply Z.shiftr_nonneg|done]. Qed.
Lemma land_lowest a : a & 1 = a mod 2 ^ 1.
Proof. apply (land_mask a 1). lia. Qed.
Lemma odd_to_N a : 0 <= a -> N.odd (Z.to_N a) = (a & 1 =? 1).
Proof.
  intros Ha. rewrite (land_lowest a). change (2 ^ 1) with 2. rewrite Zmod_odd.
  replace (N.odd (Z.to_N a)) with (Z.odd a) by (by destruct a as [|[]|]). by destruct (Z.odd a).
Qed.
Lemma land_1_pair p : pair_val p & 1 = fst p & 1.
Proof. rewrite !land_lowest. apply mod_pair. lia. Qed.
Lemma bswap8_be v : 0 <= v < 2 ^ 64 -> CRYPTO_store_u64_le (CRYPTO_bswap8 v) = CRYPTO_store_u64_be v.
Proof.
  intros Hv. unfold CRYPTO_store_u64_le, CRYPTO_store_u64_be.
  by rewrite <- bswap8_bytes, bswap8_involutive by (done || by apply bswap8_range).
Qed.

Lemma reverse_and_mulX_ok b :
  bytes_ok b -> length b = 16%nat -> reverse_and_mulX_ghash b = block_bytes (shift_step (le_block b)).
Proof.
  intros Hb Hl. destruct (le_words b Hb Hl) as [Hw E]. unfold reverse_and_mulX_ghash, le_block. rewrite <- E.
  set (hi := CRYPTO_load_u64_le b) in *. set (lo := CRYPTO_load_u64_le (drop 8 b)) in *. clearbody hi lo. clear E.
  pose proof (pair_val_range _ Hw) as Hp. pose proof Hw as [Hhi Hlo]. cbn [fst snd] in *.
  assert (0 <= hi & 1 < 2 ^ 1) as H1 by (by apply land_range).
  rewrite eq_w_mask, select_w_mask by (unfold is_word; lia).
  unfold shift_step. rewrite div2_to_N, odd_to_N, land_1_pair, (shiftr_pair 1) by lia. cbn [fst snd].
  rewrite (lor_lxor (Z.shiftr hi 1)).
  - set (c := hi & 1 =? 1). change (64 - 1) with 63.
    assert (0 <= Z.shiftr hi 1 ⊕ u64 (Z.shiftl lo 63) < 2 ^ 64) as Hh' by words.
    assert (0 <= Z.shiftr lo 1 < 2 ^ 64) as Hl' by words.
    assert (0 <= u64 (Z.shiftl (if c then 225 else 0) 56) < 2 ^ 64) as Hr by words.
    rewrite !bswap8_be by words.
    change (_ ++ _) with (store_swapped (Z.shiftr hi 1 ⊕ u64 (Z.shiftl lo 63),
      Z.shiftr lo 1 ⊕ u64 (Z.shiftl (if c then 225 else 0) 56))).
    rewrite store_swapped_ok by (split; words). f_equal.
    pose proof (pair_val_lxor (Z.shiftr hi 1 ⊕ u64 (Z.shiftl lo 63), Z.shiftr lo 1)
      (0, u64 (Z.shiftl (if c then 225 else 0) 56))) as Ep. cbn [fst snd] in Ep. rewrite Z.lxor_0_r in Ep. rewrite Ep.
    rewrite to_N_lxor by (apply pair_val_range; split; cbn [fst snd]; lia).
    destruct c; [by f_equal|]. change (Z.to_N (pair_val _)) with 0%N at 2. by rewrite N.lxor_0_r.
  - apply Z.bits_inj'. intros n Hn. rewrite Z.land_spec, Z.bits_0. destruct (decide (n < 63)) as [Hn'|Hn'].
    + rewrite u64_land, Z.land_spec, Z.shiftl_spec, (Z.testbit_neg_r _ (n - 63)) by lia. by rewrite andb_false_r.
    + rewrite (high_bit 63 (Z.shiftr hi 1)); [done| |lia]. rewrite Z.shiftr_div_pow2 by lia.
      split; [apply Z.div_pos; lia|]. apply Z.div_lt_upper_bound; lia.
Qed.

Lemma reverse_blocks_ok k buf :
  bytes_ok buf -> length buf = (16 * k)%nat ->
  bytes_ok (reverse_blocks k buf) /\ length (reverse_blocks k buf) = (16 * k)%nat /\
  block_of <$> chunks 16 k (reverse_blocks k buf) = le_block <$> chunks 16 k buf.
Proof.
  revert buf. induction k as [|k IH]; intros buf Hb Hl; [done|]. cbn [reverse_blocks chunks].
  assert (length (take 16 buf) = 16%nat) as Ht by (rewrite length_take; lia).
  rewrite byte_reverse_ok by (done || by apply Forall_take).
  destruct (IH (drop 16 buf)) as (H1 & H2 & H3); [by apply Forall_drop|rewrite length_drop; lia|].
  assert (length (rev (take 16 buf)) = 16%nat) as Hr by (by rewrite length_rev).
  split; [|split].
  - apply Forall_app; split; [by apply Forall_rev, Forall_take|done].
  - rewrite length_app, Hr, H2. lia.
  - rewrite take_app_length', drop_app_length' by done. cbn [fmap list_fmap]. rewrite le_block_rev. by f_equal.
Qed.

Lemma ghash_from_dot h s blocks :
  in_field h -> in_field s -> Forall in_field blocks ->
  ghash_from (shift_step h) s blocks = polyval_from h s blocks /\ in_field (polyval_from h s blocks).
Proof.
  intros Hh Hs Hb. revert s Hs. induction Hb as [|x blocks Hx Hb IH]; intros s Hs; [done|].
  unfold ghash_from, polyval_from. cbn [foldl].
  rewrite block_mul_dot by (done || by apply in_field_lxor). apply IH, dot_field; [by apply in_field_lxor|done].
Qed.
Lemma chunks_field k buf : bytes_ok buf -> Forall in_field (le_block <$> chunks 16 k buf).
Proof.
  revert buf. induction k as [|k IH]; intros buf Hb; cbn [chunks fmap list_fmap]; constructor.
  - apply le_block_field; [by apply Forall_take|]. rewrite length_take. lia.
  - apply IH. by apply Forall_drop.
Qed.
Lemma chunks_app a b j k : length a = (16 * j)%nat -> chunks 16 (j + k) (a ++ b) = chunks 16 j a ++ chunks 16 k b.
Proof.
  revert a. induction j as [|j IH]; intros a Hl; [by destruct a|]. cbn [chunks Nat.add app].
  rewrite take_app_le, drop_app_le by lia. f_equal. apply IH. rewrite length_drop. lia.
Qed.

Lemma polyval_loop_ok fuel k key table s inp :
  bytes_ok key -> length key = 16%nat -> key_table table (reverse_and_mulX_ghash key) -> in_field s ->
  bytes_ok inp -> length inp = (16 * k)%nat -> (length inp <= fuel)%nat ->
  polyval_loop fuel (PolyvalCtx (block_bytes s) table) inp =
  Ret (PolyvalCtx (block_bytes (polyval_from (le_block key) s (le_block <$> chunks 16 k inp))) table).
Proof.
  intros Hk Hlk Ht. pose proof (le_block_field key Hk ltac:(lia)) as Hh. revert k s inp.
  induction fuel as [|fuel IH]; intros k s inp Hs Hi Hl Hf; cbn [polyval_loop].
  { assert (k = 0%nat) as -> by lia. by rewrite Hl. }
  destruct (Z.ltb_spec 0 (Z.of_nat (length inp))); [|assert (k = 0%nat) as -> by lia; done].
  set (j := Nat.min 32 k).
  assert ((if 512 <? Z.of_nat (length inp) then 512 else Z.of_nat (length inp)) = Z.of_nat (16 * j)) as ->
    by (destruct (Z.ltb_spec 512 (Z.of_nat (length inp))); lia).
  replace (Z.to_nat (Z.of_nat (16 * j) / 16)) with j by (rewrite Nat2Z.inj_mul, Z.mul_comm, Z.div_mul by lia; lia).
  rewrite Nat2Z.id. assert (length (take (16 * j) inp) = 16 * j)%nat as Htl by (rewrite length_take; lia).
  destruct (reverse_blocks_ok j (take (16 * j) inp)) as (Hb & Hbl & Hbc); [by apply Forall_take|done|].
  rewrite reverse_and_mulX_ok in Ht by done.
  cbn [pv_S pv_Htable]. rewrite (ghash_ok _ _ (block_bytes (shift_step (le_block key))) j) by
    (apply block_bytes_ok || apply length_block_bytes || done).
  cbn [rbind]. rewrite !block_of_bytes by (done || by apply shift_step_field). rewrite Hbc.
  destruct (ghash_from_dot (le_block key) s (le_block <$> chunks 16 j (take (16 * j) inp))) as [-> Hf'];
    [done|done|apply chunks_field; by apply Forall_take|].
  cbn [pv_Htable]. rewrite (IH (k - j)%nat).
  - do 2 f_equal. f_equal. unfold polyval_from. rewrite <- foldl_app, <- fmap_app, <- chunks_app by done.
    rewrite take_drop. by replace (j + (k - j))%nat with k by lia.
  - done.
  - by apply Forall_drop.
  - rewrite length_drop. lia.
  - rewrite length_drop. lia.
Qed.

(** The pieces of an input. *)
Fixpoint polyval_updates (ctx : polyval_ctx) (pieces : list bytes) : res polyval_ctx :=
  match pieces with
  | [] => Ret ctx
  | p :: pieces =>
      match CRYPTO_POLYVAL_update_blocks ctx p with
      | Ret ctx => polyval_updates ctx pieces
      | UB => UB
      | OutOfFuel => OutOfFuel
      end
  end.
Definition is_blocks (p : bytes) : Prop := bytes_ok p /\ (16 | Z.of_nat (length p)).

Lemma rev_be_bytes v : 0 <= v < 2 ^ 128 -> rev (be_bytes 16 v) = le_bytes 16 v.
Proof.
  intros Hv. assert (bytes_ok (rev (be_bytes 16 v))) as Hb by apply Forall_rev, be_bytes_ok.
  rewrite <- (le_bytes_val _ Hb), length_rev, length_be_bytes, le_val_rev, be_val_bytes, Z.mod_small; [done|].
  change (256 ^ Z.of_nat 16) with (2 ^ 128). lia.
Qed.
Lemma land_nibble a : a & 15 = a mod 16.
Proof. apply (land_mask a 4). lia. Qed.
Lemma polyval_updates_ok key table s pieces :
  bytes_ok key -> length key = 16%nat -> key_table table (reverse_and_mulX_ghash key) -> in_field s ->
  Forall is_blocks pieces ->
  let k := (length (concat pieces) / 16)%nat in
  let r := polyval_from (le_block key) s (le_block <$> chunks 16 k (concat pieces)) in
  polyval_updates (PolyvalCtx (block_bytes s) table) pieces = Ret (PolyvalCtx (block_bytes r) table) /\
  in_field r /\ length (concat pieces) = (16 * k)%nat.
Proof.
  intros Hk Hlk Ht Hs Hp. cbn zeta. revert s Hs. induction Hp as [|p pieces [Hb [j Hj]] Hp IH]; intros s Hs; [done|].
  cbn [polyval_updates concat]. set (n := Z.to_nat j). assert (length p = 16 * n)%nat as Hn by lia.
  unfold CRYPTO_POLYVAL_update_blocks.
  rewrite (proj2 (Z.eqb_eq (_ & 15) 0)) by (rewrite (land_nibble _), Hj; by apply Z.mod_mul).
  rewrite (polyval_loop_ok _ n key) by (done || lia).
  set (s' := polyval_from (le_block key) s (le_block <$> chunks 16 n p)).
  assert (in_field s') as Hs'.
  { apply ghash_from_dot; [apply le_block_field; (done || lia)|done|by apply chunks_field]. }
  destruct (IH s' Hs') as (E & Hf & Hc). rewrite E.
  assert ((length (p ++ concat pieces) / 16)%nat = (n + length (concat pieces) / 16)%nat) as Hd.
  { rewrite length_app, Hn, Nat.mul_comm. apply Nat.div_add_l. lia. }
  rewrite Hd, chunks_app, fmap_app by done. unfold polyval_from. rewrite foldl_app. split; [done|]. split; [done|].
  rewrite length_app. lia.
Qed.

(** ** The properties *)

(** C29: Both ways to multiply 64-bit words as polynomials over the field of two
    elements, by sixteen products of 128 bits or by Karatsuba's three of 32-bit
    words, give the two halves of the product without carries; the integer products
    never carry from one digit into the next that is kept. *)
Theorem gcm_mul64_correct a b :
  0 <= a < 2 ^ 64 -> 0 <= b < 2 ^ 64 ->
  gcm_mul64_nohw a b = gcm_mul64_nohw_32 a b /\
  word_pair (gcm_mul64_nohw a b) /\
  pmul (Z.to_N a) (Z.to_N b) = Z.to_N (pair_val (gcm_mul64_nohw a b)).
Proof.
  intros Ha Hb. rewrite gcm_mul64_ok, gcm_mul64_32_ok by done.
  pose proof (clmul_bound 64 64 a b Ha Hb) as Hc. split; [done|]. split.
  - split; [apply u64_is_word|by apply high_range].
  - rewrite split_words. unfold clmul. by rewrite N2Z.id.
Qed.

(** C13: With the key table that [CRYPTO_ghash_init] makes, [gcm_gmult_nohw] multiplies
    a block by the key and [gcm_ghash_nohw] continues GHASH over whole blocks, as
    NIST SP 800-38D defines them bit by bit. *)
Theorem ghash_correct key table Xi inp k :
  bytes_ok key -> length key = 16%nat -> table <> [] -> bytes_ok Xi -> length Xi = 16%nat ->
  bytes_ok inp -> length inp = (16 * k)%nat ->
  gcm_gmult_nohw Xi (CRYPTO_ghash_init table key) = Ret (block_bytes (block_mul (block_of Xi) (block_of key))) /\
  gcm_ghash_nohw Xi (CRYPTO_ghash_init table key) inp =
  Ret (block_bytes (ghash_from (block_of key) (block_of Xi) (block_of <$> chunks 16 k inp))).
Proof.
  intros Hk Hlk Ht HX HlX Hi Hl. split; [by apply gmult_ok; [..|apply ghash_init_ok]|].
  by apply ghash_ok; [..|apply ghash_init_ok| |].
Qed.

(** C30: POLYVAL, computed by byte-reversing the blocks and running GHASH on them with a
    modified key, 512 bytes at a time, is the POLYVAL of RFC 8452, whose field has
    another bit order; the input can come in any pieces of whole blocks. *)
Theorem polyval_correct key table pieces :
  bytes_ok key -> length key = 16%nat -> table <> [] -> Forall is_blocks pieces ->
  exists ctx, polyval_updates (CRYPTO_POLYVAL_init table key) pieces = Ret ctx /\
    CRYPTO_POLYVAL_finish ctx =
    le_bytes 16 (Z.of_N (polyval (le_block key)
      (le_block <$> chunks 16 (length (concat pieces) / 16) (concat pieces)))).
Proof.
  intros Hk Hlk Ht Hp.
  destruct (polyval_updates_ok key (CRYPTO_ghash_init table (reverse_and_mulX_ghash key)) 0 pieces) as (E & Hf & _);
    [done|done|by apply ghash_init_ok|done|done|].
  eexists. split; [exact E|]. unfold CRYPTO_POLYVAL_finish. cbn [pv_S].
  rewrite byte_reverse_ok by (apply block_bytes_ok || apply length_block_bytes). unfold block_bytes.
  fold (polyval (le_block key) (le_block <$> chunks 16 (length (concat pieces) / 16) (concat pieces))) in *.
  set (r := polyval _ _) in *. apply rev_be_bytes. unfold in_field in Hf. lia.
Qed.

Lemma gcm_mul64_correct_witness :
  gcm_mul64_nohw (2 ^ 64 - 1) (2 ^ 64 - 1) = gcm_mul64_nohw_32 (2 ^ 64 - 1) (2 ^ 64 - 1) /\
  word_pair (gcm_mul64_nohw (2 ^ 64 - 1) (2 ^ 64 - 1)) /\
  pmul (Z.to_N (2 ^ 64 - 1)) (Z.to_N (2 ^ 64 - 1)) = Z.to_N (pair_val (gcm_mul64_nohw (2 ^ 64 - 1) (2 ^ 64 - 1))).
Proof. apply (gcm_mul64_correct (2 ^ 64 - 1) (2 ^ 64 - 1)); lia. Defined.

(** The second test case of the GCM specification: one block and the lengths. *)
Definition gcm_test_key : bytes := be_bytes 16 0x66e94bd4ef8a2c3b884cfa59ca342b2e.
Definition gcm_test_input : bytes := be_bytes 16 0x0388dace60b6a392f328c2b971b2fe78 ++ be_bytes 16 128.
Example gcm_test_ghash :
  gcm_ghash_nohw (zeros 16) (CRYPTO_ghash_init (replicate 16 (U128 0 0)) gcm_test_key) gcm_test_input =
  Ret (be_bytes 16 0xf38cbb1ad69223dcc3457ae5b6b0f885).
Proof. vm_compute. reflexivity. Qed.
Lemma ghash_correct_witness :
  let table := replicate 16 (U128 0 0) in
  gcm_gmult_nohw gcm_test_key (CRYPTO_ghash_init table gcm_test_key) =
  Ret (block_bytes (block_mul (block_of gcm_test_key) (block_of gcm_test_key))) /\
  gcm_ghash_nohw gcm_test_key (CRYPTO_ghash_init table gcm_test_key) gcm_test_input =
  Ret (block_bytes (ghash_from (block_of gcm_test_key) (block_of gcm_test_key)
                      (block_of <$> chunks 16 2 gcm_test_input))).
Proof.
  apply (ghash_correct gcm_test_key (replicate 16 (U128 0 0)) gcm_test_key gcm_test_input 2);
    first [apply be_bytes_ok | reflexivity | discriminate | apply Forall_app; split; apply be_bytes_ok].
Defined.

Lemma polyval_correct_witness :
  exists ctx, polyval_updates (CRYPTO_POLYVAL_init (replicate 16 (U128 0 0)) rfc8452_H) [rfc8452_X] = Ret ctx /\
    CRYPTO_POLYVAL_finish ctx =
    le_bytes 16 (Z.of_N (polyval (le_block rfc8452_H) (le_block <$> chunks 16 2 (concat [rfc8452_X])))).
Proof.
  apply (polyval_correct rfc8452_H (replicate 16 (U128 0 0)) [rfc8452_X]);
    [apply be_bytes_ok|reflexivity|discriminate|].
  apply List.Forall_cons; [|apply List.Forall_nil].
  split; [apply Forall_app; split; apply be_bytes_ok|by exists 2].
Defined.
