(* ===== verification/Aead.v ===== *)
(** * BoringSSL: authenticated encryption (crypto/fipsmodule/cipher/aead.c)

    The functions [EVP_AEAD_CTX_*] over a table of an algorithm's functions, on
    buffers in memory.  The object that is threaded is the queue of errors; what an
    algorithm returns through a pointer is part of its result, and a length of a
    failure is zero. *)
From Stdlib Require Import ZArith Lia.
From stdpp Require Import prelude gmap list numbers.
From S2P Require Import Prelude CMem Cells Words.
Local Open Scope Z_scope.
Local Open Scope c_scope.

Inductive cipher_reason :=
| CIPHER_R_BAD_DECRYPT | CIPHER_R_BUFFER_TOO_SMALL | CIPHER_R_CTRL_NOT_IMPLEMENTED
| CIPHER_R_INVALID_OPERATION | CIPHER_R_OUTPUT_ALIASES_INPUT | CIPHER_R_TOO_LARGE
| CIPHER_R_UNSUPPORTED_KEY_SIZE | CIPHER_R_UNSUPPORTED_NONCE_SIZE | CIPHER_R_NO_DIRECTION_SET
| ERR_R_OVERFLOW.
#[global] Instance cipher_reason_eq_dec : EqDecision cipher_reason.
Proof. solve_decision. Defined.

Abbreviation aead_m := (M (list cipher_reason)).
(** [OPENSSL_PUT_ERROR] *)
Definition put_error (r : cipher_reason) : aead_m unit := errs <- get_stream ;; put_stream (r :: errs).
Definition lift_res {A} (r : res A) : aead_m A :=
  match r with Ret a => ret a | UB => ub | OutOfFuel => out_of_fuel end.

Inductive evp_aead_direction_t := evp_aead_open | evp_aead_seal.

(** What an algorithm keeps in [ctx->state], and [ctx->tag_len]. *)
Record aead_state := AeadState { st_key : bytes; st_tag_len : Z }.

(** Arguments in the order of the code; a pair is the result and what is written
    through the pointer to a length. *)
Record EVP_AEAD := {
  aead_key_len : Z;
  aead_nonce_len : Z;
  aead_overhead : Z;
  aead_max_tag_len : Z;
  seal_scatter_supports_extra_in : bool;
  aead_init : option (aead_state -> bytes -> Z -> Z -> aead_m (option aead_state));
  aead_init_with_direction :
    option (aead_state -> bytes -> Z -> Z -> evp_aead_direction_t -> aead_m (option aead_state));
  aead_cleanup : aead_state -> aead_m aead_state;
  aead_open : option (aead_state -> Z -> Z -> Z -> Z -> Z -> Z -> Z -> Z -> aead_m (option Z));
  seal_scatter :
    aead_state -> Z -> Z -> Z -> Z -> Z -> Z -> Z -> Z -> Z -> Z -> Z -> aead_m (option Z);
  open_gather : option (aead_state -> Z -> Z -> Z -> Z -> Z -> Z -> Z -> Z -> Z -> aead_m bool);
  get_iv : option (aead_state -> aead_m (option bytes));
  aead_tag_len : option (aead_state -> Z -> Z -> Z)
}.

Record EVP_AEAD_CTX := AeadCtx { ctx_aead : option EVP_AEAD; ctx_state : aead_state }.

Definition EVP_AEAD_key_length (aead : EVP_AEAD) : Z := aead_key_len aead.
Definition EVP_AEAD_nonce_length (aead : EVP_AEAD) : Z := aead_nonce_len aead.
Definition EVP_AEAD_max_overhead (aead : EVP_AEAD) : Z := aead_overhead aead.
Definition EVP_AEAD_max_tag_len (aead : EVP_AEAD) : Z := aead_max_tag_len aead.

(** The 564 bytes of the state are zero. *)
Definition EVP_AEAD_CTX_zero : EVP_AEAD_CTX := AeadCtx None (AeadState (zeros 564) 0).

Definition EVP_AEAD_CTX_init_with_direction (ctx : EVP_AEAD_CTX) (aead : EVP_AEAD) (key : bytes)
    (key_len tag_len : Z) (dir : evp_aead_direction_t) : aead_m (bool * EVP_AEAD_CTX) :=
  if negb (key_len =? aead_key_len aead)
  then put_error CIPHER_R_UNSUPPORTED_KEY_SIZE ;; ret (false, AeadCtx None (ctx_state ctx))
  else
    ok <- match aead_init aead with
          | Some init => init (ctx_state ctx) key key_len tag_len
          | None =>
              match aead_init_with_direction aead with
              | Some init => init (ctx_state ctx) key key_len tag_len dir
              | None => ub
              end
          end ;;
    match ok with
    | Some st => ret (true, AeadCtx (Some aead) st)
    | None => ret (false, AeadCtx None (ctx_state ctx))
    end.

Definition EVP_AEAD_CTX_init (ctx : EVP_AEAD_CTX) (aead : EVP_AEAD) (key : bytes) (key_len tag_len : Z) :
    aead_m (bool * EVP_AEAD_CTX) :=
  match aead_init aead with
  | None => put_error CIPHER_R_NO_DIRECTION_SET ;; ret (false, AeadCtx None (ctx_state ctx))
  | Some _ => EVP_AEAD_CTX_init_with_direction ctx aead key key_len tag_len evp_aead_open
  end.

Definition EVP_AEAD_CTX_cleanup (ctx : EVP_AEAD_CTX) : aead_m EVP_AEAD_CTX :=
  match ctx_aead ctx with
  | None => ret ctx
  | Some aead => st <- aead_cleanup aead (ctx_state ctx) ;; ret (AeadCtx None st)
  end.

(** The object is on the heap; [None] is the null pointer, which [OPENSSL_malloc] may
    return and [EVP_AEAD_CTX_zero] writes through. *)
Definition EVP_AEAD_CTX_free (ctx : option EVP_AEAD_CTX) : aead_m unit :=
  match ctx with
  | None => ret tt
  | Some ctx => EVP_AEAD_CTX_cleanup ctx ;; ret tt
  end.
Definition EVP_AEAD_CTX_new (malloc_ok : bool) (aead : EVP_AEAD) (key : bytes) (key_len tag_len : Z) :
    aead_m (option EVP_AEAD_CTX) :=
  (if malloc_ok then ret tt else ub) ;;
  r <- EVP_AEAD_CTX_init EVP_AEAD_CTX_zero aead key key_len tag_len ;;
  if fst r then ret (Some (snd r)) else EVP_AEAD_CTX_free (Some (snd r)) ;; ret None.

(** ** Aliasing *)

Definition buffers_alias (a a_bytes b b_bytes : Z) : bool :=
  (b <? u64 (a + a_bytes)) && (a <? u64 (b + b_bytes)).
Definition check_alias (in_ in_len out out_len : Z) : bool :=
  if negb (buffers_alias in_ in_len out out_len) then true else in_ =? out.

(** ** Sealing and opening *)

(** The function of the table; a context that is not initialised has none. *)
Definition the_aead (ctx : EVP_AEAD_CTX) : aead_m EVP_AEAD :=
  match ctx_aead ctx with Some a => ret a | None => ub end.

Definition EVP_AEAD_CTX_seal (ctx : EVP_AEAD_CTX) (out max_out_len nonce nonce_len in_ in_len ad ad_len : Z) :
    aead_m (bool * Z) :=
  let error := c_memset out 0 max_out_len ;; ret (false, 0) in
  aead <- the_aead ctx ;;
  if u64 (in_len + aead_overhead aead) <? in_len then put_error CIPHER_R_TOO_LARGE ;; error
  else if max_out_len <? in_len then put_error CIPHER_R_BUFFER_TOO_SMALL ;; error
  else if negb (check_alias in_ in_len out max_out_len)
  then put_error CIPHER_R_OUTPUT_ALIASES_INPUT ;; error
  else
    r <- seal_scatter aead (ctx_state ctx) out (out + in_len) (max_out_len - in_len) nonce nonce_len
           in_ in_len 0 0 ad ad_len ;;
    match r with
    | Some out_tag_len => ret (true, u64 (in_len + out_tag_len))
    | None => error
    end.

Definition EVP_AEAD_CTX_seal_scatter (ctx : EVP_AEAD_CTX)
    (out out_tag max_out_tag_len nonce nonce_len in_ in_len extra_in extra_in_len ad ad_len : Z) :
    aead_m (bool * Z) :=
  let error := c_memset out 0 in_len ;; c_memset out_tag 0 max_out_tag_len ;; ret (false, 0) in
  aead <- the_aead ctx ;;
  if negb (check_alias in_ in_len out in_len) || buffers_alias out in_len out_tag max_out_tag_len ||
     buffers_alias in_ in_len out_tag max_out_tag_len
  then put_error CIPHER_R_OUTPUT_ALIASES_INPUT ;; error
  else if negb (seal_scatter_supports_extra_in aead) && negb (extra_in_len =? 0)
  then put_error CIPHER_R_INVALID_OPERATION ;; error
  else
    r <- seal_scatter aead (ctx_state ctx) out out_tag max_out_tag_len nonce nonce_len
           in_ in_len extra_in extra_in_len ad ad_len ;;
    match r with
    | Some out_tag_len => ret (true, out_tag_len)
    | None => error
    end.

Definition EVP_AEAD_CTX_open_gather (ctx : EVP_AEAD_CTX)
    (out nonce nonce_len in_ in_len in_tag in_tag_len ad ad_len : Z) : aead_m bool :=
  let error := c_memset out 0 in_len ;; ret false in
  aead <- the_aead ctx ;;
  if negb (check_alias in_ in_len out in_len) then put_error CIPHER_R_OUTPUT_ALIASES_INPUT ;; error
  else
    match open_gather aead with
    | None => put_error CIPHER_R_CTRL_NOT_IMPLEMENTED ;; error
    | Some open =>
        r <- open (ctx_state ctx) out nonce nonce_len in_ in_len in_tag in_tag_len ad ad_len ;;
        if r then ret true else error
    end.

Definition EVP_AEAD_CTX_open (ctx : EVP_AEAD_CTX) (out max_out_len nonce nonce_len in_ in_len ad ad_len : Z) :
    aead_m (bool * Z) :=
  let error := c_memset out 0 max_out_len ;; ret (false, 0) in
  aead <- the_aead ctx ;;
  if negb (check_alias in_ in_len out max_out_len) then put_error CIPHER_R_OUTPUT_ALIASES_INPUT ;; error
  else
    match aead_open aead with
    | Some open =>
        r <- open (ctx_state ctx) out max_out_len nonce nonce_len in_ in_len ad ad_len ;;
        match r with Some out_len => ret (true, out_len) | None => error end
    | None =>
        let tag_len := st_tag_len (ctx_state ctx) in
        (if tag_len =? 0 then ub else ret tt) ;;
        if in_len <? tag_len then put_error CIPHER_R_BAD_DECRYPT ;; error
        else
          let plaintext_len := in_len - tag_len in
          if max_out_len <? plaintext_len then put_error CIPHER_R_BUFFER_TOO_SMALL ;; error
          else
            r <- EVP_AEAD_CTX_open_gather ctx out nonce nonce_len in_ plaintext_len
                   (in_ + plaintext_len) tag_len ad ad_len ;;
            if r then ret (true, plaintext_len) else error
    end.

(** ** The rest *)

Definition EVP_AEAD_CTX_aead (ctx : EVP_AEAD_CTX) : option EVP_AEAD := ctx_aead ctx.

Definition EVP_AEAD_CTX_get_iv (ctx : EVP_AEAD_CTX) : aead_m (option bytes) :=
  aead <- the_aead ctx ;;
  match get_iv aead with
  | None => ret None
  | Some f => f (ctx_state ctx)
  end.

Definition EVP_AEAD_CTX_tag_len (ctx : EVP_AEAD_CTX) (in_len extra_in_len : Z) : aead_m (bool * Z) :=
  aead <- the_aead ctx ;;
  (if seal_scatter_supports_extra_in aead || (extra_in_len =? 0) then ret tt else ub) ;;
  match aead_tag_len aead with
  | Some f => ret (true, f (ctx_state ctx) in_len extra_in_len)
  | None =>
      let tag_len := st_tag_len (ctx_state ctx) in
      if u64 (extra_in_len + tag_len) <? extra_in_len then put_error ERR_R_OVERFLOW ;; ret (false, 0)
      else ret (true, u64 (extra_in_len + tag_len))
  end.
