(* ===== verification/AeadSpec.v ===== *)
(** * What an algorithm of the AEAD interface promises, and what the interface makes of it

    [AeadAlgorithm] is the contract of an entry of the table: how it encrypts, what
    its tag is, and that its two functions compute these on buffers in memory.  The
    functions [EVP_AEAD_CTX_*] are proved against it, and without it that no failure
    leaves anything in the output. *)
From Stdlib Require Import ZArith Lia.
From stdpp Require Import prelude gmap list numbers.
From S2P Require Import Prelude CMem Cells Words Aead.
Local Open Scope Z_scope.
Local Open Scope c_scope.

(** ** Ranges of memory *)

Definition apart (a n b k : Z) : Prop := a + n <= b \/ b + k <= a.
(** [bs] is what is stored from [a] on. *)
Definition stored (m : mem) (a : Z) (bs : bytes) : Prop := load m a (length bs) = Some bs.
(** Nothing but the [n] bytes from [a] on differs. *)
Definition only (m m' : mem) (a n : Z) : Prop := forall i, ~ (a <= i < a + n) -> m' !! i = m !! i.
Definition writable (m : mem) (a n : Z) : Prop := accessible m a n.
(** A range of the address space. *)
Definition in_space (a n : Z) : Prop := 0 <= a /\ 0 <= n /\ a + n < 2 ^ 64.

Lemma stored_other (m m' : mem) a n b bs :
  only m m' a n -> apart b (Z.of_nat (length bs)) a n -> stored m b bs -> stored m' b bs.
Proof.
  intros Ho Ha Hs. unfold stored. rewrite <- Hs. apply load_ext. intros i Hi. apply Ho. unfold apart in Ha. lia.
Qed.
Lemma writable_other (m m' : mem) b k : dom m' = dom m -> writable m b k -> writable m' b k.
Proof. intros Hd Hw i Hi. apply elem_of_dom. rewrite Hd. apply elem_of_dom. by apply Hw. Qed.
Lemma writable_sub m a n b k : writable m a n -> a <= b -> b + k <= a + n -> writable m b k.
Proof. intros Hw H1 H2 i Hi. apply Hw. lia. Qed.

Lemma store_outcome m a bs :
  writable m a (Z.of_nat (length bs)) ->
  exists m', store m a bs = Some m' /\ stored m' a bs /\ only m m' a (Z.of_nat (length bs)) /\ dom m' = dom m.
Proof.
  intros Hw. destruct (store_total m a bs Hw) as [m' E]. exists m'. split; [done|]. split; [by eapply load_store_eq|].
  split; [|by eapply store_dom]. intros i Hi. rewrite (store_lookup _ _ _ _ i E). by rewrite decide_False.
Qed.
Lemma stored_app m a xs ys :
  stored m a (xs ++ ys) <-> stored m a xs /\ stored m (a + Z.of_nat (length xs)) ys.
Proof.
  unfold stored. rewrite length_app, load_app. split.
  - destruct (load m a (length xs)) as [u|] eqn:E1; [|done].
    destruct (load m (a + Z.of_nat (length xs)) (length ys)) as [v|] eqn:E2; [|done].
    intros [= E]. apply load_length in E1. by apply app_inj_1 in E as [-> ->].
  - by intros [-> ->].
Qed.
Lemma load_stored {S} m a bs (s : S) w :
  w_mem w = m -> stored m a bs -> load_bytes a (Z.of_nat (length bs)) s w = Ret (bs, s, w).
Proof. intros <- Hs. apply load_bytes_run. by rewrite Nat2Z.id. Qed.
Lemma store_stored {S} a bs (s : S) w :
  writable (w_mem w) a (Z.of_nat (length bs)) ->
  exists m', store_bytes a bs s w = Ret (tt, s, set_mem m' w) /\
    stored m' a bs /\ only (w_mem w) m' a (Z.of_nat (length bs)) /\ dom m' = dom (w_mem w).
Proof.
  intros Hw. destruct (store_outcome _ _ _ Hw) as (m' & E & H). exists m'. split; [|done]. by apply store_bytes_run.
Qed.
Lemma only_within (m1 m2 m3 : mem) a n b k c l :
  only m1 m2 a n -> only m2 m3 b k -> c <= a -> a + n <= c + l -> c <= b -> b + k <= c + l -> only m1 m3 c l.
Proof. intros H1 H2 ? ? ? ? i Hi. rewrite H2, H1 by lia. done. Qed.

(** ** The contract *)

(** The arguments of a call and what memory holds where they point.  The output may
    be the input; the tag is apart from everything. *)
Record seal_layout (m : mem) (out out_tag max_out_tag_len nonce in_ extra_in ad : Z) (n p ex a : bytes) : Prop := {
  lay_nonce : stored m nonce n;
  lay_in : stored m in_ p;
  lay_extra : stored m extra_in ex;
  lay_ad : stored m ad a;
  lay_out : writable m out (Z.of_nat (length p));
  lay_tag : writable m out_tag max_out_tag_len;
  lay_space : in_space out (Z.of_nat (length p)) /\ in_space in_ (Z.of_nat (length p)) /\
              in_space out_tag max_out_tag_len /\ in_space ad (Z.of_nat (length a));
  lay_in_out : in_ = out \/ apart in_ (Z.of_nat (length p)) out (Z.of_nat (length p));
  lay_out_tag : apart out (Z.of_nat (length p)) out_tag max_out_tag_len;
  lay_in_tag : apart in_ (Z.of_nat (length p)) out_tag max_out_tag_len;
  lay_nonce_out : apart nonce (Z.of_nat (length n)) out (Z.of_nat (length p));
  lay_nonce_tag : apart nonce (Z.of_nat (length n)) out_tag max_out_tag_len;
  lay_ad_out : apart ad (Z.of_nat (length a)) out (Z.of_nat (length p));
  lay_ad_tag : apart ad (Z.of_nat (length a)) out_tag max_out_tag_len;
  lay_extra_tag : extra_in = out_tag \/ apart extra_in (Z.of_nat (length ex)) out_tag max_out_tag_len
}.

Record open_layout (m : mem) (out nonce in_ in_tag ad : Z) (n c t a : bytes) : Prop := {
  olay_nonce : stored m nonce n;
  olay_in : stored m in_ c;
  olay_tag : stored m in_tag t;
  olay_ad : stored m ad a;
  olay_out : writable m out (Z.of_nat (length c));
  olay_space : in_space out (Z.of_nat (length c)) /\ in_space in_ (Z.of_nat (length c)) /\
               in_space ad (Z.of_nat (length a));
  olay_in_out : in_ = out \/ apart in_ (Z.of_nat (length c)) out (Z.of_nat (length c));
  olay_tag_out : apart in_tag (Z.of_nat (length t)) out (Z.of_nat (length c));
  olay_nonce_out : apart nonce (Z.of_nat (length n)) out (Z.of_nat (length c))
}.

Class AeadAlgorithm (tab : EVP_AEAD) := {
  (** key, nonce and data; encryption and decryption are the same *)
  alg_crypt : bytes -> bytes -> bytes -> bytes;
  (** key, nonce, associated data and ciphertext *)
  alg_tag : bytes -> bytes -> bytes -> bytes -> bytes;
  alg_limit : Z;
  alg_state : aead_state -> Prop;
  alg_crypt_twice key n d : alg_crypt key n (alg_crypt key n d) = d;
  alg_crypt_length key n d : length (alg_crypt key n d) = length d;
  alg_overhead : aead_overhead tab = 16 /\ alg_limit + 16 < 2 ^ 64;
  alg_tag_len st : alg_state st -> 1 <= st_tag_len st <= 16;
  alg_default_open : aead_open tab = None;
  alg_supports_extra : seal_scatter_supports_extra_in tab = true;
  alg_tag_length key n a c : length (alg_tag key n a c) = 16%nat;
  alg_seal_run st out out_tag max_out_tag_len nonce in_ extra_in ad n p ex a errs w :
    alg_state st -> seal_layout (w_mem w) out out_tag max_out_tag_len nonce in_ extra_in ad n p ex a ->
    Z.of_nat (length n) = aead_nonce_len tab ->
    Z.of_nat (length ex) + st_tag_len st <= max_out_tag_len ->
    Z.of_nat (length p) < alg_limit -> Z.of_nat (length p) + Z.of_nat (length ex) < 2 ^ 64 ->
    let c := alg_crypt (st_key st) n (p ++ ex) in
    exists m',
      seal_scatter tab st out out_tag max_out_tag_len nonce (aead_nonce_len tab) in_ (Z.of_nat (length p))
        extra_in (Z.of_nat (length ex)) ad (Z.of_nat (length a)) errs w =
      Ret (Some (Z.of_nat (length ex) + st_tag_len st), errs, set_mem m' w) /\
      stored m' out (take (length p) c) /\
      stored m' out_tag (drop (length p) c ++ take (Z.to_nat (st_tag_len st)) (alg_tag (st_key st) n a c)) /\
      dom m' = dom (w_mem w) /\
      (forall i, ~ (out <= i < out + Z.of_nat (length p)) ->
                 ~ (out_tag <= i < out_tag + Z.of_nat (length ex) + st_tag_len st) ->
                 m' !! i = w_mem w !! i);
  alg_gather : aead_state -> Z -> Z -> Z -> Z -> Z -> Z -> Z -> Z -> Z -> aead_m bool;
  alg_open_gather : open_gather tab = Some alg_gather;
  alg_open_run st out nonce in_ in_tag ad n c t a errs w :
    alg_state st -> open_layout (w_mem w) out nonce in_ in_tag ad n c t a ->
    Z.of_nat (length n) = aead_nonce_len tab -> Z.of_nat (length t) = st_tag_len st ->
    Z.of_nat (length c) < alg_limit ->
    let ok := bool_decide (t = take (length t) (alg_tag (st_key st) n a c)) in
    exists m',
      alg_gather st out nonce (aead_nonce_len tab) in_ (Z.of_nat (length c)) in_tag (st_tag_len st)
        ad (Z.of_nat (length a)) errs w =
      Ret (ok, if ok then errs else CIPHER_R_BAD_DECRYPT :: errs, set_mem m' w) /\
      stored m' out (alg_crypt (st_key st) n c) /\
      only (w_mem w) m' out (Z.of_nat (length c)) /\ dom m' = dom (w_mem w)
}.

(** ** Clearing *)

Definition all_zero (m : mem) (a n : Z) : Prop := stored m a (replicate (Z.to_nat n) 0).

(** If the call returns, its result and the memory are as [Q] says. *)
Definition ends {A} (Q : A -> mem -> Prop) (m : aead_m A) : Prop :=
  forall errs w, spec True True m (fun r _ w' => Q r (w_mem w')) errs w.

Lemma ends_bind {A B} (Q : A -> mem -> Prop) (m : aead_m B) k : (forall x, ends Q (k x)) -> ends Q (bind m k).
Proof.
  intros Hk errs w. apply spec_bind. unfold spec. destruct (m errs w) as [[[x e1] w1]| |]; [|done..]. apply Hk.
Qed.
Lemma ends_ret {A} (Q : A -> mem -> Prop) r : (forall m, Q r m) -> ends Q (ret r).
Proof. intros Hr errs w. apply Hr. Qed.
Lemma ends_ub {A} (Q : A -> mem -> Prop) : ends Q ub.
Proof. by intros errs w. Qed.
Lemma ends_run {A} (Q : A -> mem -> Prop) m errs w r errs' w' :
  ends Q m -> m errs w = Ret (r, errs', w') -> Q r (w_mem w').
Proof. intros H E. specialize (H errs w). unfold spec in H. by rewrite E in H. Qed.

Lemma memset_run {S} a n (s : S) w :
  (exists m', c_memset a 0 n s w = Ret (tt, s, set_mem m' w) /\ store (w_mem w) a (replicate (Z.to_nat n) 0) = Some m') \/
  c_memset a 0 n s w = UB.
Proof.
  unfold c_memset, store_bytes, bind, get_mem, of_option, put_mem.
  destruct (store _ _ _) as [m'|] eqn:E; [left; eauto|by right].
Qed.
Lemma memset_zero m a n m' : store m a (replicate (Z.to_nat n) 0) = Some m' -> all_zero m' a n.
Proof. apply load_store_eq. Qed.
Lemma memset_total {S} a n (s : S) w :
  writable (w_mem w) a n -> 0 <= n ->
  exists m', c_memset a 0 n s w = Ret (tt, s, set_mem m' w) /\ all_zero m' a n /\
    only (w_mem w) m' a n /\ dom m' = dom (w_mem w).
Proof.
  intros Hw Hn. destruct (store_stored a (replicate (Z.to_nat n) 0) s w) as (m' & E & Hs & Ho & Hd).
  { rewrite length_replicate, Z2Nat.id by lia. exact Hw. }
  exists m'. rewrite length_replicate, Z2Nat.id in Ho by lia. done.
Qed.
(** Zeros over zeros. *)
Lemma memset_keeps_zero m a n m' b k :
  store m a (replicate (Z.to_nat n) 0) = Some m' -> all_zero m b k -> all_zero m' b k.
Proof.
  intros Hs Hz. apply load_lookup in Hz as [_ Hz]. apply lookup_load. intros i x Hi.
  pose proof (Hz i x Hi) as Hm. apply lookup_replicate in Hi as [-> Hi].
  rewrite (store_lookup _ _ _ _ _ Hs). case_decide as Hd; [|done].
  rewrite length_replicate in Hd. f_equal. apply lookup_replicate_2. lia.
Qed.

Lemma ends_memset {A} (Q : A -> mem -> Prop) a n r :
  (forall m, all_zero m a n -> Q r m) -> ends Q (c_memset a 0 n ;; ret r).
Proof.
  intros HQ errs w. unfold spec, bind. destruct (memset_run a n errs w) as [(m' & -> & E)| ->]; [|done].
  apply HQ. by eapply memset_zero.
Qed.
Lemma ends_memset2 {A} (Q : A -> mem -> Prop) a n b k r :
  (forall m, all_zero m a n -> all_zero m b k -> Q r m) -> ends Q (c_memset a 0 n ;; c_memset b 0 k ;; ret r).
Proof.
  intros HQ errs w. unfold spec, bind. destruct (memset_run a n errs w) as [(m1 & -> & E1)| ->]; [|done].
  destruct (memset_run b k errs (set_mem m1 w)) as [(m2 & -> & E2)| ->]; [|done].
  apply HQ; [|by eapply memset_zero]. eapply memset_keeps_zero; [exact E2|]. by eapply memset_zero.
Qed.

(** What a call returns and leaves when it fails. *)
Definition cleared (a n : Z) (r : bool * Z) (m : mem) : Prop := fst r = false -> snd r = 0 /\ all_zero m a n.
Definition cleared2 (a n b k : Z) (r : bool * Z) (m : mem) : Prop :=
  fst r = false -> snd r = 0 /\ all_zero m a n /\ all_zero m b k.
Definition cleared1 (a n : Z) (r : bool) (m : mem) : Prop := r = false -> all_zero m a n.

Ltac every_end :=
  repeat first
    [ apply ends_memset; intros; unfold cleared, cleared1; auto
    | apply ends_memset2; intros; unfold cleared2; auto
    | apply ends_ub
    | apply ends_ret; by intros ? [=]
    | apply ends_bind; intros ?
    | match goal with |- ends _ (match ?x with _ => _ end) => destruct x end
    | match goal with |- ends _ (if ?x then _ else _) => destruct x end ].

Lemma seal_ends ctx out max_out_len nonce nonce_len in_ in_len ad ad_len :
  ends (cleared out max_out_len) (EVP_AEAD_CTX_seal ctx out max_out_len nonce nonce_len in_ in_len ad ad_len).
Proof. unfold EVP_AEAD_CTX_seal. cbv zeta. every_end. Qed.
Lemma seal_scatter_ends ctx out out_tag max_out_tag_len nonce nonce_len in_ in_len extra_in extra_in_len ad ad_len :
  ends (cleared2 out in_len out_tag max_out_tag_len)
    (EVP_AEAD_CTX_seal_scatter ctx out out_tag max_out_tag_len nonce nonce_len in_ in_len extra_in extra_in_len ad ad_len).
Proof. unfold EVP_AEAD_CTX_seal_scatter. cbv zeta. every_end. Qed.
Lemma open_gather_ends ctx out nonce nonce_len in_ in_len in_tag in_tag_len ad ad_len :
  ends (cleared1 out in_len) (EVP_AEAD_CTX_open_gather ctx out nonce nonce_len in_ in_len in_tag in_tag_len ad ad_len).
Proof. unfold EVP_AEAD_CTX_open_gather. cbv zeta. every_end. Qed.
Lemma open_ends ctx out max_out_len nonce nonce_len in_ in_len ad ad_len :
  ends (cleared out max_out_len) (EVP_AEAD_CTX_open ctx out max_out_len nonce nonce_len in_ in_len ad ad_len).
Proof. unfold EVP_AEAD_CTX_open. cbv zeta. every_end. Qed.

(** ** With an algorithm that keeps the contract *)

(** What a call of [EVP_AEAD_CTX_seal] and of [EVP_AEAD_CTX_open] is given. *)
Record seal_ready (m : mem) (out max_out_len nonce in_ ad : Z) (n p a : bytes) (tag_len : Z) : Prop := {
  rdy_nonce : stored m nonce n;
  rdy_in : stored m in_ p;
  rdy_ad : stored m ad a;
  rdy_out : writable m out max_out_len;
  rdy_room : Z.of_nat (length p) + tag_len <= max_out_len;
  rdy_space : in_space out max_out_len /\ in_space in_ (Z.of_nat (length p)) /\ in_space ad (Z.of_nat (length a));
  rdy_in_out : in_ = out \/ apart in_ (Z.of_nat (length p)) out max_out_len;
  rdy_nonce_out : apart nonce (Z.of_nat (length n)) out max_out_len;
  rdy_ad_out : apart ad (Z.of_nat (length a)) out max_out_len
}.
Record open_ready (m : mem) (out max_out_len nonce in_ ad : Z) (n c t a : bytes) : Prop := {
  ordy_nonce : stored m nonce n;
  ordy_in : stored m in_ (c ++ t);
  ordy_ad : stored m ad a;
  ordy_out : writable m out max_out_len;
  ordy_room : Z.of_nat (length c) <= max_out_len;
  ordy_space : in_space out max_out_len /\ in_space in_ (Z.of_nat (length (c ++ t))) /\ in_space ad (Z.of_nat (length a));
  ordy_in_out : in_ = out \/ apart in_ (Z.of_nat (length (c ++ t))) out max_out_len;
  ordy_nonce_out : apart nonce (Z.of_nat (length n)) out max_out_len
}.

Lemma check_alias_ok in_ in_len out out_len :
  in_space in_ in_len -> in_space out out_len -> (in_ = out \/ apart in_ in_len out out_len) ->
  check_alias in_ in_len out out_len = true.
Proof.
  intros (? & ? & ?) (? & ? & ?) Ha. unfold check_alias, buffers_alias, u64. rewrite !wrap_small by lia.
  destruct Ha as [->|Ha]; [rewrite Z.eqb_refl; by destruct (_ && _)|].
  assert ((out <? in_ + in_len) && (in_ <? out + out_len) = false) as ->; [|done].
  unfold apart in Ha. apply andb_false_iff. rewrite !Z.ltb_ge. lia.
Qed.

Section algorithm.
Context {tab : EVP_AEAD} `{AeadAlgorithm tab}.

(** The ciphertext and its tag, cut to its length. *)
Definition sealed (st : aead_state) (n a p : bytes) : bytes :=
  let c := alg_crypt (st_key st) n p in c ++ take (Z.to_nat (st_tag_len st)) (alg_tag (st_key st) n a c).
Definition authentic (st : aead_state) (n a c t : bytes) : bool :=
  bool_decide (t = take (length t) (alg_tag (st_key st) n a c)).

Lemma length_sealed st n a p :
  alg_state st -> Z.of_nat (length (sealed st n a p)) = Z.of_nat (length p) + st_tag_len st.
Proof.
  intros Hs. pose proof (alg_tag_len st Hs). unfold sealed.
  rewrite length_app, length_take, alg_tag_length, alg_crypt_length. lia.
Qed.

Lemma seal_run ctx out max_out_len nonce in_ ad n p a errs w :
  ctx_aead ctx = Some tab -> alg_state (ctx_state ctx) ->
  seal_ready (w_mem w) out max_out_len nonce in_ ad n p a (st_tag_len (ctx_state ctx)) ->
  Z.of_nat (length n) = aead_nonce_len tab -> Z.of_nat (length p) < alg_limit ->
  exists m',
    EVP_AEAD_CTX_seal ctx out max_out_len nonce (Z.of_nat (length n)) in_ (Z.of_nat (length p)) ad
      (Z.of_nat (length a)) errs w =
    Ret ((true, Z.of_nat (length p) + st_tag_len (ctx_state ctx)), errs, set_mem m' w) /\
    stored m' out (sealed (ctx_state ctx) n a p) /\
    only (w_mem w) m' out (Z.of_nat (length p) + st_tag_len (ctx_state ctx)) /\ dom m' = dom (w_mem w).
Proof.
  intros Ec Hst Hr Hn Hp. destruct ctx as [o st]. cbn [ctx_aead ctx_state] in *. subst o.
  destruct Hr as [Rn Ri Ra Ro Rr (Ro1 & Ri1 & Ra1) Rio Rno Rao].
  pose proof (alg_tag_len st Hst) as Ht. pose proof alg_overhead as [Ho Hlim].
  pose proof Ro1 as (Ro2 & _ & Ro3). pose proof Ri1 as (Ri2 & _ & Ri3).
  destruct (alg_seal_run st out (out + Z.of_nat (length p)) (max_out_len - Z.of_nat (length p)) nonce in_ 0 ad
              n p [] a errs w) as (m' & E & Hc & Htag & Hd & Hf); cbn [length]; try done; try lia.
  { split; try done; unfold apart, in_space in *; cbn [length]; try lia; try (split_and!; try done; lia).
    - eapply writable_sub; [exact Ro|lia..].
    - eapply writable_sub; [exact Ro|lia..]. }
  exists m'. rewrite app_nil_r in *.
  assert (length p = length (alg_crypt (st_key st) n p)) as El by (by rewrite alg_crypt_length).
  split_and!; [| | |done].
  - unfold EVP_AEAD_CTX_seal. cbv zeta. unfold the_aead. cbn [ctx_aead ctx_state].
    erewrite bind_ret_run by reflexivity. rewrite Ho. unfold u64. rewrite wrap_small by lia.
    rewrite (proj2 (Z.ltb_ge _ _)) by lia. rewrite (proj2 (Z.ltb_ge _ _)) by lia.
    rewrite check_alias_ok by done. cbn [negb]. rewrite Hn. erewrite bind_ret_run by exact E.
    cbn [length]. unfold ret. rewrite wrap_small by lia. do 4 f_equal.
  - unfold sealed. apply stored_app. rewrite El, firstn_all in Hc. rewrite alg_crypt_length. split; [done|].
    rewrite drop_ge in Htag by lia. exact Htag.
  - intros i Hi. apply Hf; cbn [length]; lia.
Qed.

Lemma open_run ctx out max_out_len nonce in_ ad n c t a errs w :
  ctx_aead ctx = Some tab -> alg_state (ctx_state ctx) ->
  open_ready (w_mem w) out max_out_len nonce in_ ad n c t a ->
  Z.of_nat (length n) = aead_nonce_len tab -> Z.of_nat (length t) = st_tag_len (ctx_state ctx) ->
  Z.of_nat (length c) < alg_limit ->
  exists m',
    dom m' = dom (w_mem w) /\ only (w_mem w) m' out max_out_len /\
    if authentic (ctx_state ctx) n a c t
    then EVP_AEAD_CTX_open ctx out max_out_len nonce (Z.of_nat (length n)) in_ (Z.of_nat (length (c ++ t))) ad
           (Z.of_nat (length a)) errs w = Ret ((true, Z.of_nat (length c)), errs, set_mem m' w) /\
         stored m' out (alg_crypt (st_key (ctx_state ctx)) n c)
    else EVP_AEAD_CTX_open ctx out max_out_len nonce (Z.of_nat (length n)) in_ (Z.of_nat (length (c ++ t))) ad
           (Z.of_nat (length a)) errs w = Ret ((false, 0), CIPHER_R_BAD_DECRYPT :: errs, set_mem m' w) /\
         all_zero m' out max_out_len.
Proof.
  intros Ec Hst Hr Hn Ht Hc. destruct ctx as [o st]. cbn [ctx_aead ctx_state] in *. subst o.
  destruct Hr as [Rn Ri Ra Ro Rr (Ro1 & Ri1 & Ra1) Rio Rno].
  pose proof (alg_tag_len st Hst) as Htl. rewrite length_app, Nat2Z.inj_add in *.
  pose proof Ro1 as (Ro2 & _ & Ro3). pose proof Ri1 as (Ri2 & _ & Ri3).
  apply stored_app in Ri as [Ri Rt].
  destruct (alg_open_run st out nonce in_ (in_ + Z.of_nat (length c)) ad n c t a errs w)
    as (m1 & E & Hs1 & Ho1 & Hd1); try done; try lia.
  { split; try done; unfold apart, in_space in *; try lia; try (split_and!; try done; lia).
    eapply writable_sub; [exact Ro|lia..]. }
  change (bool_decide _) with (authentic st n a c t) in E.
  assert (EVP_AEAD_CTX_open (AeadCtx (Some tab) st) out max_out_len nonce (Z.of_nat (length n)) in_
            (Z.of_nat (length c) + Z.of_nat (length t)) ad (Z.of_nat (length a)) errs w =
          bind (EVP_AEAD_CTX_open_gather (AeadCtx (Some tab) st) out nonce (aead_nonce_len tab) in_ (Z.of_nat (length c))
                  (in_ + Z.of_nat (length c)) (st_tag_len st) ad (Z.of_nat (length a)))
               (fun r : bool => if r then ret (true, Z.of_nat (length c)) else c_memset out 0 max_out_len ;; ret (false, 0))
               errs w) as Eopen.
  { unfold EVP_AEAD_CTX_open. cbv zeta. unfold the_aead. cbn [ctx_aead ctx_state].
    erewrite bind_ret_run by reflexivity. rewrite check_alias_ok by done. cbn [negb]. rewrite alg_default_open.
    rewrite (proj2 (Z.eqb_neq _ _)) by lia. erewrite bind_ret_run by reflexivity.
    rewrite (proj2 (Z.ltb_ge _ _)) by lia.
    replace (Z.of_nat (length c) + Z.of_nat (length t) - st_tag_len st) with (Z.of_nat (length c)) by lia.
    rewrite (proj2 (Z.ltb_ge _ _)) by lia. by rewrite Hn. }
  assert (EVP_AEAD_CTX_open_gather (AeadCtx (Some tab) st) out nonce (aead_nonce_len tab) in_ (Z.of_nat (length c))
            (in_ + Z.of_nat (length c)) (st_tag_len st) ad (Z.of_nat (length a)) errs w =
          bind (alg_gather st out nonce (aead_nonce_len tab) in_ (Z.of_nat (length c))
            (in_ + Z.of_nat (length c)) (st_tag_len st) ad (Z.of_nat (length a)))
               (fun r : bool => if r then ret true else c_memset out 0 (Z.of_nat (length c)) ;; ret false) errs w) as Eg.
  { unfold EVP_AEAD_CTX_open_gather. cbv zeta. unfold the_aead. cbn [ctx_aead ctx_state].
    erewrite bind_ret_run by reflexivity. rewrite check_alias_ok by (unfold in_space, apart in *; lia).
    cbn [negb]. by rewrite alg_open_gather. }
  rewrite (bind_ret_run _ _ _ _ _ _ _ E) in Eg. rewrite Eopen.
  assert (only (w_mem w) m1 out max_out_len) as Ho1' by (intros i Hi; apply Ho1; lia).
  destruct (authentic st n a c t).
  { exists m1. split; [done|]. split; [done|]. rewrite (bind_ret_run _ _ _ _ _ _ _ Eg). done. }
  destruct (memset_total out (Z.of_nat (length c)) (CIPHER_R_BAD_DECRYPT :: errs) (set_mem m1 w)) as (m2 & E2 & Hz2 & Ho2 & Hd2).
  { eapply writable_other; [exact Hd1|]. eapply writable_sub; [exact Ro|lia..]. }
  { lia. }
  rewrite (bind_ret_run _ _ _ _ _ _ _ E2) in Eg. cbn [set_mem w_mem w_blocks] in *.
  destruct (memset_total out max_out_len (CIPHER_R_BAD_DECRYPT :: errs) (set_mem m2 w)) as (m3 & E3 & Hz3 & Ho3 & Hd3).
  { eapply writable_other; [|exact Ro]. cbn. congruence. }
  { lia. }
  exists m3. cbn [set_mem w_mem] in *. split; [congruence|]. split.
  { intros i Hi. rewrite Ho3, Ho2, Ho1 by lia. done. }
  rewrite (bind_ret_run _ _ _ _ _ _ _ Eg). cbn [set_mem w_mem w_blocks] in *.
  rewrite (bind_ret_run _ _ _ _ _ _ _ E3). done.
Qed.
End algorithm.

(** ** The properties *)

(** C9: No failure leaves anything in the output.  Whatever the algorithm's functions do
    and whatever the arguments are, a call of [EVP_AEAD_CTX_seal],
    [EVP_AEAD_CTX_seal_scatter], [EVP_AEAD_CTX_open] or [EVP_AEAD_CTX_open_gather] that
    returns 0 has filled the whole output, and the tag's buffer, with zeros, and the
    length it reports is zero. *)
Theorem aead_failure_clears ctx errs w errs' w' :
  (forall out max_out_len nonce nonce_len in_ in_len ad ad_len out_len,
     EVP_AEAD_CTX_seal ctx out max_out_len nonce nonce_len in_ in_len ad ad_len errs w =
       Ret ((false, out_len), errs', w') -> out_len = 0 /\ all_zero (w_mem w') out max_out_len) /\
  (forall out out_tag max_out_tag_len nonce nonce_len in_ in_len extra_in extra_in_len ad ad_len tag_len,
     EVP_AEAD_CTX_seal_scatter ctx out out_tag max_out_tag_len nonce nonce_len in_ in_len extra_in extra_in_len
       ad ad_len errs w = Ret ((false, tag_len), errs', w') ->
     tag_len = 0 /\ all_zero (w_mem w') out in_len /\ all_zero (w_mem w') out_tag max_out_tag_len) /\
  (forall out max_out_len nonce nonce_len in_ in_len ad ad_len out_len,
     EVP_AEAD_CTX_open ctx out max_out_len nonce nonce_len in_ in_len ad ad_len errs w =
       Ret ((false, out_len), errs', w') -> out_len = 0 /\ all_zero (w_mem w') out max_out_len) /\
  (forall out nonce nonce_len in_ in_len in_tag in_tag_len ad ad_len,
     EVP_AEAD_CTX_open_gather ctx out nonce nonce_len in_ in_len in_tag in_tag_len ad ad_len errs w =
       Ret (false, errs', w') -> all_zero (w_mem w') out in_len).
Proof.
  split_and!.
  - intros * E. by apply (ends_run _ _ _ _ _ _ _ (seal_ends _ _ _ _ _ _ _ _ _) E).
  - intros * E. by apply (ends_run _ _ _ _ _ _ _ (seal_scatter_ends _ _ _ _ _ _ _ _ _ _ _ _) E).
  - intros * E. by apply (ends_run _ _ _ _ _ _ _ (open_ends _ _ _ _ _ _ _ _ _) E).
  - intros * E. by apply (ends_run _ _ _ _ _ _ _ (open_gather_ends _ _ _ _ _ _ _ _ _ _) E).
Qed.

(** C7: What is sealed opens.  With an algorithm that keeps the contract,
    [EVP_AEAD_CTX_seal] returns the plaintext's length and the tag's, in place or into
    another buffer, and writes nothing else; and [EVP_AEAD_CTX_open] on what it wrote,
    with the same nonce and associated data, in place or into another buffer, returns
    1 with the plaintext. *)
Theorem aead_roundtrip tab `{AeadAlgorithm tab} ctx out max_out_len nonce in_ ad n p a errs w :
  ctx_aead ctx = Some tab -> alg_state (ctx_state ctx) ->
  seal_ready (w_mem w) out max_out_len nonce in_ ad n p a (st_tag_len (ctx_state ctx)) ->
  Z.of_nat (length n) = aead_nonce_len tab -> Z.of_nat (length p) < alg_limit ->
  let len := Z.of_nat (length p) + st_tag_len (ctx_state ctx) in
  exists m1,
    EVP_AEAD_CTX_seal ctx out max_out_len nonce (Z.of_nat (length n)) in_ (Z.of_nat (length p)) ad
      (Z.of_nat (length a)) errs w = Ret ((true, len), errs, set_mem m1 w) /\
    only (w_mem w) m1 out len /\
    forall out2 max2,
      writable (w_mem w) out2 max2 -> in_space out2 max2 -> Z.of_nat (length p) <= max2 ->
      (out = out2 \/ apart out len out2 max2) -> apart nonce (Z.of_nat (length n)) out2 max2 ->
      exists m2,
        EVP_AEAD_CTX_open ctx out2 max2 nonce (Z.of_nat (length n)) out len ad (Z.of_nat (length a))
          errs (set_mem m1 w) = Ret ((true, Z.of_nat (length p)), errs, set_mem m2 w) /\
        stored m2 out2 p.
Proof.
  intros Ec Hst Hr Hn Hp len. pose proof (alg_tag_len _ Hst) as Ht.
  destruct (seal_run ctx out max_out_len nonce in_ ad n p a errs w Ec Hst Hr Hn Hp) as (m1 & E & Hs & Ho & Hd).
  exists m1. split; [done|]. split; [done|]. intros out2 max2 Hw2 Sp2 Hm2 Ha2 Hn2.
  destruct Hr as [Rn Ri Ra Ro Rr (Ro1 & Ri1 & Ra1) Rio Rno Rao].
  set (st := ctx_state ctx) in *. unfold sealed in Hs. set (c := alg_crypt (st_key st) n p) in *.
  set (t := take _ _) in Hs. assert (length c = length p) as Hlc by apply alg_crypt_length.
  assert (Z.of_nat (length t) = st_tag_len st) as Hlt by (unfold t; rewrite length_take, alg_tag_length; lia).
  destruct (open_run ctx out2 max2 nonce out ad n c t a errs (set_mem m1 w)) as (m2 & _ & _ & E2); try done; [|lia|].
  { split; cbn [set_mem w_mem]; unfold len, in_space, apart in *; rewrite ?length_app; try done; try lia.
    - eapply stored_other; [exact Ho| |exact Rn]. unfold apart. lia.
    - eapply stored_other; [exact Ho| |exact Ra]. unfold apart. lia.
    - by eapply writable_other. }
  fold st in E2. assert (authentic st n a c t = true) as Hau.
  { unfold authentic. apply bool_decide_eq_true. unfold t at 2. rewrite length_take, alg_tag_length. fold c. unfold t. f_equal. lia. }
  rewrite Hau, length_app, Nat2Z.inj_add, Hlc, Hlt in E2. destruct E2 as [E2 Hs2]. exists m2. split; [exact E2|].
  unfold c in Hs2. by rewrite alg_crypt_twice in Hs2.
Qed.

(** C6: Opening accepts the authentic ciphertexts and no others.  With an algorithm that
    keeps the contract, [EVP_AEAD_CTX_open] on a ciphertext followed by a tag of the
    context's length returns 1 with the decryption exactly if the tag is the
    algorithm's for that key, nonce, associated data and ciphertext, cut to its length;
    else it reports [CIPHER_R_BAD_DECRYPT], returns 0 and leaves only zeros.  It writes
    nothing but the output. *)
Theorem aead_open_correct tab `{AeadAlgorithm tab} ctx out max_out_len nonce in_ ad n c t a errs w :
  ctx_aead ctx = Some tab -> alg_state (ctx_state ctx) ->
  open_ready (w_mem w) out max_out_len nonce in_ ad n c t a ->
  Z.of_nat (length n) = aead_nonce_len tab -> Z.of_nat (length t) = st_tag_len (ctx_state ctx) ->
  Z.of_nat (length c) < alg_limit ->
  exists ok l errs' m',
    EVP_AEAD_CTX_open ctx out max_out_len nonce (Z.of_nat (length n)) in_ (Z.of_nat (length (c ++ t))) ad
      (Z.of_nat (length a)) errs w = Ret ((ok, l), errs', set_mem m' w) /\
    (ok = true <-> t = take (length t) (alg_tag (st_key (ctx_state ctx)) n a c)) /\
    (if ok then l = Z.of_nat (length c) /\ errs' = errs /\ stored m' out (alg_crypt (st_key (ctx_state ctx)) n c)
     else l = 0 /\ errs' = CIPHER_R_BAD_DECRYPT :: errs /\ all_zero m' out max_out_len) /\
    only (w_mem w) m' out max_out_len.
Proof.
  intros Ec Hst Hr Hn Ht Hc.
  destruct (open_run ctx out max_out_len nonce in_ ad n c t a errs w Ec Hst Hr Hn Ht Hc) as (m' & _ & Ho & E).
  unfold authentic in E. case_bool_decide as Eb; destruct E as [E Hs]; do 3 eexists; exists m'; (split; [exact E|]).
  - split; [done|]. done.
  - split; [by split|]. done.
Qed.
