(* ===== verification/ChachaPoly.v ===== *)
(** * BoringSSL: ChaCha20-Poly1305 (crypto/cipher_extra/e_chacha20poly1305.c)

    The authenticated encryption of RFC 8439 and its variant with a nonce of 24
    bytes, as compiled without assembly, where [chacha20_poly1305_asm_capable] is 0.
    Addresses are of the memory of CMem.v; [garbage] is what a fresh
    [poly1305_state] happens to have in its buffer. *)
From Stdlib Require Import ZArith Lia.
From stdpp Require Import prelude gmap list numbers.
From S2P Require Import Prelude CMem Cells Words Chacha Poly1305 Aead.
Local Open Scope Z_scope.
Local Open Scope c_scope.

Definition POLY1305_TAG_LEN : Z := 16.

(** A nonce in memory, or in a local array. *)
Inductive nonce_at := At (a : Z) | Local (bs : bytes).
Definition read_nonce (n : nonce_at) (len : Z) : aead_m bytes :=
  match n with
  | At a => load_bytes a len
  | Local bs => lift_res (get bs len)
  end.

(** [CRYPTO_chacha_20] on memory: it asserts that its buffers are one or disjoint, and
    reads every byte before it writes it. *)
Definition chacha_20_at (out in_ in_len : Z) (key : bytes) (nonce : nonce_at) (counter : Z) : aead_m unit :=
  (if negb (buffers_alias out in_len in_ in_len) || (in_ =? out) then ret tt else ub) ;;
  n <- read_nonce nonce 12 ;;
  data <- load_bytes in_ in_len ;;
  store_bytes out (CRYPTO_chacha_20 data key n counter).

Definition aead_chacha20_poly1305_init (st : aead_state) (key : bytes) (key_len tag_len : Z) :
    aead_m (option aead_state) :=
  let tag_len := if tag_len =? 0 then POLY1305_TAG_LEN else tag_len in
  if POLY1305_TAG_LEN <? tag_len then put_error CIPHER_R_TOO_LARGE ;; ret None
  else if negb (key_len =? 32) then ret None
  else k <- lift_res (get key key_len) ;; ret (Some (AeadState k (u8 tag_len))).

Definition aead_chacha20_poly1305_cleanup (st : aead_state) : aead_m aead_state := ret st.

(** [length_bytes[i] = data_len; data_len >>= 8;] *)
Fixpoint length_bytes (n : nat) (data_len : Z) : bytes :=
  match n with
  | O => []
  | S k => u8 data_len :: length_bytes k (Z.shiftr data_len 8)
  end.
Definition poly1305_update_length (poly : poly1305_state_st) (data_len : Z) : aead_m poly1305_state_st :=
  lift_res (CRYPTO_poly1305_update poly (length_bytes 8 data_len)).

Definition tag_padding : bytes := zeros 16.

Section garbage.
Context (garbage : bytes).

Definition calc_tag (key : bytes) (nonce : nonce_at) (ad ad_len ciphertext ciphertext_len
    ciphertext_extra ciphertext_extra_len : Z) : aead_m bytes :=
  let update a len ctx := bs <- load_bytes a len ;; lift_res (CRYPTO_poly1305_update ctx bs) in
  let pad len ctx :=
    if negb (len mod 16 =? 0)
    then p <- lift_res (get tag_padding (16 - len mod 16)) ;; lift_res (CRYPTO_poly1305_update ctx p)
    else ret ctx in
  n <- read_nonce nonce 12 ;;
  let poly1305_key := CRYPTO_chacha_20 (zeros 32) key n 0 in
  ctx <- lift_res (CRYPTO_poly1305_init garbage poly1305_key) ;;
  ctx <- update ad ad_len ctx ;;
  ctx <- pad ad_len ctx ;;
  ctx <- update ciphertext ciphertext_len ctx ;;
  ctx <- update ciphertext_extra ciphertext_extra_len ctx ;;
  let ciphertext_total := u64 (ciphertext_len + ciphertext_extra_len) in
  ctx <- pad ciphertext_total ctx ;;
  ctx <- poly1305_update_length ctx ad_len ;;
  ctx <- poly1305_update_length ctx ciphertext_total ;;
  r <- lift_res (CRYPTO_poly1305_finish ctx) ;;
  ret (snd r).

(** [for (i = offset; i < 64 && done < extra_in_len; i++, done++)
      out_tag[done] = extra_in[done] ^ block[i];] *)
Fixpoint xor_extra (n : nat) (out_tag extra_in done : Z) (block : bytes) : aead_m unit :=
  match n with
  | O => ret tt
  | S k =>
      b <- load_u 1 (extra_in + done) ;;
      store_bytes (out_tag + done) [Z.lxor b (nth 0 block 0)] ;;
      xor_extra k out_tag extra_in (done + 1) (drop 1 block)
  end.

(** The loop over the blocks of the key stream; every round takes a byte at least. *)
Fixpoint extra_loop (fuel : nat) (out_tag extra_in extra_in_len done offset block_counter : Z)
    (key : bytes) (nonce : nonce_at) : aead_m unit :=
  if done <? extra_in_len then
    match fuel with
    | O => out_of_fuel
    | S k =>
        n <- read_nonce nonce 12 ;;
        let block := CRYPTO_chacha_20 (zeros 64) key n block_counter in
        let todo := Z.min (64 - offset) (extra_in_len - done) in
        xor_extra (Z.to_nat todo) out_tag extra_in done (drop (Z.to_nat offset) block) ;;
        extra_loop k out_tag extra_in extra_in_len (done + todo) 0 (u32 (block_counter + 1)) key nonce
    end
  else ret tt.

(** The greatest input is a block less than the counter can number. *)
Definition chacha_limit : Z := 2 ^ 32 * 64 - 64.

Definition chacha20_poly1305_seal_scatter (key : bytes) (out out_tag max_out_tag_len : Z) (nonce : nonce_at)
    (nonce_len in_ in_len extra_in extra_in_len ad ad_len tag_len : Z) : aead_m (option Z) :=
  if u64 (extra_in_len + tag_len) <? tag_len then put_error CIPHER_R_TOO_LARGE ;; ret None
  else if max_out_tag_len <? u64 (tag_len + extra_in_len)
  then put_error CIPHER_R_BUFFER_TOO_SMALL ;; ret None
  else if negb (nonce_len =? 12) then put_error CIPHER_R_UNSUPPORTED_NONCE_SIZE ;; ret None
  else if chacha_limit <=? in_len then put_error CIPHER_R_TOO_LARGE ;; ret None
  else if max_out_tag_len <? tag_len then put_error CIPHER_R_BUFFER_TOO_SMALL ;; ret None
  else
    (if negb (extra_in_len =? 0)
     then extra_loop (Z.to_nat extra_in_len) out_tag extra_in extra_in_len 0 (in_len mod 64)
            (u32 (1 + in_len / 64)) key nonce
     else ret tt) ;;
    chacha_20_at out in_ in_len key nonce 1 ;;
    tag <- calc_tag key nonce ad ad_len out in_len out_tag extra_in_len ;;
    t <- lift_res (get tag tag_len) ;;
    store_bytes (out_tag + extra_in_len) t ;;
    ret (Some (u64 (extra_in_len + tag_len))).

Definition aead_chacha20_poly1305_seal_scatter (st : aead_state)
    (out out_tag max_out_tag_len nonce nonce_len in_ in_len extra_in extra_in_len ad ad_len : Z) :
    aead_m (option Z) :=
  chacha20_poly1305_seal_scatter (st_key st) out out_tag max_out_tag_len (At nonce) nonce_len in_ in_len
    extra_in extra_in_len ad ad_len (st_tag_len st).

(** The derived key and the derived nonce. *)
Definition xchacha_derive (key : bytes) (nonce : Z) : aead_m (bytes * bytes) :=
  n <- load_bytes nonce 16 ;;
  r <- load_bytes (nonce + 16) 8 ;;
  ret (CRYPTO_hchacha20 key n, zeros 4 ++ r).

Definition aead_xchacha20_poly1305_seal_scatter (st : aead_state)
    (out out_tag max_out_tag_len nonce nonce_len in_ in_len extra_in extra_in_len ad ad_len : Z) :
    aead_m (option Z) :=
  if negb (nonce_len =? 24) then put_error CIPHER_R_UNSUPPORTED_NONCE_SIZE ;; ret None
  else
    d <- xchacha_derive (st_key st) nonce ;;
    chacha20_poly1305_seal_scatter (fst d) out out_tag max_out_tag_len (Local (snd d)) 12 in_ in_len
      extra_in extra_in_len ad ad_len (st_tag_len st).

Definition chacha20_poly1305_open_gather (key : bytes) (out : Z) (nonce : nonce_at)
    (nonce_len in_ in_len in_tag in_tag_len ad ad_len tag_len : Z) : aead_m bool :=
  if negb (nonce_len =? 12) then put_error CIPHER_R_UNSUPPORTED_NONCE_SIZE ;; ret false
  else if negb (in_tag_len =? tag_len) then put_error CIPHER_R_BAD_DECRYPT ;; ret false
  else if chacha_limit <=? in_len then put_error CIPHER_R_TOO_LARGE ;; ret false
  else
    tag <- calc_tag key nonce ad ad_len in_ in_len 0 0 ;;
    chacha_20_at out in_ in_len key nonce 1 ;;
    t <- lift_res (get tag tag_len) ;;
    t' <- load_bytes in_tag tag_len ;;
    if negb (CRYPTO_memcmp t t' =? 0) then put_error CIPHER_R_BAD_DECRYPT ;; ret false
    else ret true.

Definition aead_chacha20_poly1305_open_gather (st : aead_state)
    (out nonce nonce_len in_ in_len in_tag in_tag_len ad ad_len : Z) : aead_m bool :=
  chacha20_poly1305_open_gather (st_key st) out (At nonce) nonce_len in_ in_len in_tag in_tag_len ad ad_len
    (st_tag_len st).

Definition aead_xchacha20_poly1305_open_gather (st : aead_state)
    (out nonce nonce_len in_ in_len in_tag in_tag_len ad ad_len : Z) : aead_m bool :=
  if negb (nonce_len =? 24) then put_error CIPHER_R_UNSUPPORTED_NONCE_SIZE ;; ret false
  else
    d <- xchacha_derive (st_key st) nonce ;;
    chacha20_poly1305_open_gather (fst d) out (Local (snd d)) 12 in_ in_len in_tag in_tag_len ad ad_len
      (st_tag_len st).

Definition EVP_aead_chacha20_poly1305 : EVP_AEAD := {|
  aead_key_len := 32;
  aead_nonce_len := 12;
  aead_overhead := POLY1305_TAG_LEN;
  aead_max_tag_len := POLY1305_TAG_LEN;
  seal_scatter_supports_extra_in := true;
  aead_init := Some aead_chacha20_poly1305_init;
  aead_init_with_direction := None;
  aead_cleanup := aead_chacha20_poly1305_cleanup;
  aead_open := None;
  seal_scatter := aead_chacha20_poly1305_seal_scatter;
  open_gather := Some aead_chacha20_poly1305_open_gather;
  get_iv := None;
  aead_tag_len := None
|}.

Definition EVP_aead_xchacha20_poly1305 : EVP_AEAD := {|
  aead_key_len := 32;
  aead_nonce_len := 24;
  aead_overhead := POLY1305_TAG_LEN;
  aead_max_tag_len := POLY1305_TAG_LEN;
  seal_scatter_supports_extra_in := true;
  aead_init := Some aead_chacha20_poly1305_init;
  aead_init_with_direction := None;
  aead_cleanup := aead_chacha20_poly1305_cleanup;
  aead_open := None;
  seal_scatter := aead_xchacha20_poly1305_seal_scatter;
  open_gather := Some aead_xchacha20_poly1305_open_gather;
  get_iv := None;
  aead_tag_len := None
|}.
End garbage.
