(* ===== verification/ChachaPolySpec.v ===== *)
(** * ChaCha20-Poly1305 keeps the contract of an AEAD

    The pieces of memory that [calc_tag] and the loops read and write, the tag of
    RFC 8439, and the instances for the two tables. *)
From Stdlib Require Import ZArith Lia.
From stdpp Require Import prelude gmap list numbers.
From S2P Require Import Prelude CMem Cells Words Chacha Poly1305 Poly1305Spec Aead AeadSpec ChachaPoly.
Local Open Scope Z_scope.
Local Open Scope c_scope.

(** ** The specification of RFC 8439, section 2.8 *)

Definition pad16 (bs : bytes) : bytes :=
  if Z.of_nat (length bs) mod 16 =? 0 then [] else zeros (16 - Z.of_nat (length bs) mod 16).
Definition mac_data (ad ct : bytes) : bytes :=
  ad ++ pad16 ad ++ ct ++ pad16 ct ++ le_bytes 8 (Z.of_nat (length ad)) ++ le_bytes 8 (Z.of_nat (length ct)).
(** The first half of block 0 is the key of the authenticator. *)
Definition one_time_key (key nonce : bytes) : bytes := stream_xor key nonce 0 (zeros 32).
Definition rfc_tag (key nonce ad ct : bytes) : bytes := poly1305_mac (one_time_key key nonce) (mac_data ad ct).
Definition chachapoly_tag (key nonce ad ct : bytes) : bytes := poly_tag (one_time_key key nonce) (mac_data ad ct).

(** ** Bytes *)

Lemma lxor_byte x y : is_byte x -> is_byte y -> is_byte (Z.lxor x y).
Proof.
  unfold is_byte. intros Hx Hy. split; [apply Z.lxor_nonneg; lia|].
  assert (Z.lxor x y = Z.lxor x y mod 2 ^ 8) as ->; [|apply Z.mod_pos_bound; lia].
  rewrite <- (Z.mod_small x (2 ^ 8)), <- (Z.mod_small y (2 ^ 8)) at 1 by lia.
  rewrite <- !Z.land_ones by lia. bits.
Qed.
Lemma bytes_of_ok x : bytes_ok (bytes_of x).
Proof.
  unfold bytes_of. induction x as [|v x IH]; [constructor|]. cbn [fmap list_fmap concat].
  apply Forall_app. split; [apply le_bytes_ok|done].
Qed.
Lemma keystream_byte key nonce c j : is_byte (keystream key nonce c j).
Proof.
  unfold keystream. rewrite <- chacha_core_spec. set (x := chacha_core _).
  assert (bytes_ok x) as Hx by apply bytes_of_ok. clearbody x.
  rewrite nth_lookup. destruct (x !! _) as [b|] eqn:E; cbn [default]; [|unfold is_byte; lia].
  unfold bytes_ok in Hx. rewrite Forall_lookup in Hx. by eapply Hx.
Qed.
Lemma stream_xor_ok key nonce c d : bytes_ok d -> bytes_ok (stream_xor key nonce c d).
Proof.
  intros Hd. apply Forall_lookup. intros i x. unfold stream_xor. rewrite list_lookup_imap.
  destruct (d !! i) as [b|] eqn:E; [|done]. intros [= <-]. apply lxor_byte; [|apply keystream_byte].
  unfold bytes_ok in Hd. rewrite Forall_lookup in Hd. by eapply Hd.
Qed.
Lemma chacha_20_stream key nonce c d :
  0 <= c < 2 ^ 32 -> CRYPTO_chacha_20 d key nonce c = stream_xor key nonce c d.
Proof. intros Hc. unfold CRYPTO_chacha_20. by apply chacha_loop_run. Qed.

Lemma length_one_time_key key nonce : length (one_time_key key nonce) = 32%nat.
Proof. unfold one_time_key. by rewrite length_stream_xor. Qed.
Lemma one_time_key_ok key nonce : bytes_ok (one_time_key key nonce).
Proof. unfold one_time_key. apply stream_xor_ok. unfold zeros. apply Forall_replicate. unfold is_byte. lia. Qed.
Lemma length_bytes_le n v : length_bytes n v = le_bytes n v.
Proof.
  revert v; induction n as [|n IH]; intros v; [done|]. cbn [length_bytes le_bytes]. rewrite IH.
  by rewrite Z.shiftr_div_pow2 by lia.
Qed.

(** ** The tag *)

Lemma lift_ret {A} (r : res A) a (s : list cipher_reason) w : r = Ret a -> lift_res r s w = Ret (a, s, w).
Proof. by intros ->. Qed.

(** One more piece of the message: the step every line of [calc_tag] takes. *)
Lemma piece_run {B} st0 st msg bs (k : poly1305_state_st -> aead_m B) errs w Q :
  tracks st0 st msg -> Z.of_nat (length bs) < 2 ^ 64 ->
  (forall st', tracks st0 st' (msg ++ bs) -> k st' errs w = Q) ->
  bind (lift_res (CRYPTO_poly1305_update st bs)) k errs w = Q.
Proof.
  intros Ht Hl Hk. destruct (poly_update_run st0 st msg bs Ht Hl) as (st' & E & Ht').
  rewrite (bind_ret_run _ _ _ _ _ _ _ (lift_ret _ _ _ _ E)). by apply Hk.
Qed.

(** The zeros after a part of the message, and none after a whole number of blocks. *)
Lemma pad_run {B} st0 st msg bs (k : poly1305_state_st -> aead_m B) errs w Q :
  tracks st0 st msg ->
  (forall st', tracks st0 st' (msg ++ pad16 bs) -> k st' errs w = Q) ->
  bind (let len := Z.of_nat (length bs) in
        if negb (len mod 16 =? 0)
        then p <- lift_res (get tag_padding (16 - len mod 16)) ;; lift_res (CRYPTO_poly1305_update st p)
        else ret st) k errs w = Q.
Proof.
  intros Ht Hk. cbv zeta. unfold pad16 in Hk. set (len := Z.of_nat (length bs)) in *.
  pose proof (Z.mod_pos_bound len 16 ltac:(lia)) as Hm.
  destruct (Z.eqb_spec (len mod 16) 0) as [E|E]; cbn [negb].
  { rewrite app_nil_r in Hk. by apply Hk. }
  set (z := 16 - len mod 16) in *. assert (Z.of_nat (length (zeros z)) = z) as Hz by (apply length_zeros; lia).
  assert (get tag_padding z = Ret (zeros z)) as Eg.
  { rewrite get_run by (change (length tag_padding) with 16%nat; lia). f_equal. unfold tag_padding, zeros.
    rewrite take_replicate. f_equal. lia. }
  destruct (poly_update_run st0 st msg (zeros z) Ht ltac:(lia)) as (st' & E' & Ht').
  unfold bind at 1. rewrite (bind_ret_run _ _ _ _ _ _ _ (lift_ret _ _ errs w Eg)), (lift_ret _ _ errs w E').
  by apply Hk.
Qed.

(** A piece that lies in memory. *)
Lemma memory_piece_run {B} st0 st msg a bs (k : poly1305_state_st -> aead_m B) errs w Q :
  tracks st0 st msg -> stored (w_mem w) a bs -> Z.of_nat (length bs) < 2 ^ 64 ->
  (forall st', tracks st0 st' (msg ++ bs) -> k st' errs w = Q) ->
  bind (bs <- load_bytes a (Z.of_nat (length bs)) ;; lift_res (CRYPTO_poly1305_update st bs)) k errs w = Q.
Proof.
  intros Ht Hs Hl Hk. unfold bind at 1. rewrite (bind_ret_run _ _ _ _ _ _ _ (load_stored _ _ _ errs w eq_refl Hs)).
  destruct (poly_update_run st0 st msg bs Ht Hl) as (st' & E & Ht'). rewrite (lift_ret _ _ errs w E). by apply Hk.
Qed.
Lemma length_piece_run {B} st0 st msg n (k : poly1305_state_st -> aead_m B) errs w Q :
  tracks st0 st msg -> (forall st', tracks st0 st' (msg ++ le_bytes 8 n) -> k st' errs w = Q) ->
  bind (poly1305_update_length st n) k errs w = Q.
Proof.
  intros Ht Hk. unfold poly1305_update_length. rewrite length_bytes_le.
  eapply piece_run; [exact Ht|rewrite length_le_bytes; lia|exact Hk].
Qed.

Lemma calc_tag_run garbage key nonce n ad a ct c extra e errs w :
  length garbage = 16%nat -> read_nonce nonce 12 errs w = Ret (n, errs, w) ->
  stored (w_mem w) ad a -> stored (w_mem w) ct c -> stored (w_mem w) extra e ->
  Z.of_nat (length a) < 2 ^ 64 -> Z.of_nat (length c) + Z.of_nat (length e) < 2 ^ 64 ->
  calc_tag garbage key nonce ad (Z.of_nat (length a)) ct (Z.of_nat (length c)) extra (Z.of_nat (length e)) errs w =
  Ret (chachapoly_tag key n a (c ++ e), errs, w).
Proof.
  intros Hg Hn Ha Hc He La Lc. unfold calc_tag. cbv zeta.
  rewrite (bind_ret_run _ _ _ _ _ _ _ Hn). rewrite chacha_20_stream by lia. fold (one_time_key key n).
  set (otk := one_time_key key n). assert (length otk = 32%nat) as Hol by apply length_one_time_key.
  destruct (init_ok garbage otk (one_time_key_ok _ _) ltac:(lia)) as (st & Ei & _ & _ & _ & Hb & Hu & _).
  rewrite (bind_ret_run _ _ _ _ _ _ _ (lift_ret _ _ errs w Ei)).
  pose proof (tracks_init st Hu ltac:(by rewrite Hb)) as Ht.
  replace (u64 (Z.of_nat (length c) + Z.of_nat (length e))) with (Z.of_nat (length (c ++ e))) by
    (rewrite length_app; unfold u64; rewrite wrap_small; lia).
  assert (Z.of_nat (length (c ++ e)) < 2 ^ 64) as Lce by (rewrite length_app; lia).
  apply (memory_piece_run _ _ _ _ _ _ _ _ _ Ht Ha La). clear Ht st Ei Hb Hu || clear Ht. intros st1 H1.
  apply (pad_run _ _ _ _ _ _ _ _ H1). clear H1 st1. intros st2 H2.
  apply (memory_piece_run _ _ _ _ _ _ _ _ _ H2 Hc); [lia|]. clear H2 st2. intros st3 H3.
  apply (memory_piece_run _ _ _ _ _ _ _ _ _ H3 He); [lia|]. clear H3 st3. intros st4 H4.
  apply (pad_run _ _ _ (c ++ e) _ _ _ _ H4). clear H4 st4. intros st5 H5.
  apply (length_piece_run _ _ _ _ _ _ _ _ H5). clear H5 st5. intros st6 H6.
  apply (length_piece_run _ _ _ _ _ _ _ _ H6). clear H6 st6. intros st7 H7.
  destruct (poly_tag_finish garbage otk st st7 _ (one_time_key_ok _ _) ltac:(lia) Ei H7) as (st8 & Ef).
  rewrite (bind_ret_run _ _ _ _ _ _ _ (lift_ret _ _ errs w Ef)). cbn [snd].
  unfold ret, chachapoly_tag, mac_data. fold otk. do 4 f_equal.
  rewrite app_nil_l, <- !app_assoc. done.
Qed.

(** ** The key stream over memory *)

(** [nonce] reads as [n] where [n0] is stored at [na]. *)
Definition nonce_reads (na : Z) (n0 : bytes) (nonce : nonce_at) (n : bytes) : Prop :=
  length n = 12%nat /\ ((nonce = At na /\ n = n0) \/ nonce = Local n).
Lemma read_nonce_run na n0 nonce n errs w :
  nonce_reads na n0 nonce n -> stored (w_mem w) na n0 -> read_nonce nonce 12 errs w = Ret (n, errs, w).
Proof.
  intros [Hl [[-> ->]| ->]] Hs; cbn [read_nonce].
  - replace 12 with (Z.of_nat (length n0)) by lia. by eapply load_stored.
  - apply lift_ret. rewrite get_run by lia. f_equal. apply take_ge. lia.
Qed.

#[local] Opaque keystream CRYPTO_chacha_20.

(** [bs] is at position [pos] of the stream that starts with block 1. *)
Definition tail_xor (key nonce : bytes) (pos : nat) (bs : bytes) : bytes :=
  imap (fun j b => Z.lxor b (keystream key nonce 1 (pos + j))) bs.
Lemma length_tail_xor key n pos bs : length (tail_xor key n pos bs) = length bs.
Proof. apply length_imap. Qed.
Lemma tail_xor_app key n pos a b :
  tail_xor key n pos (a ++ b) = tail_xor key n pos a ++ tail_xor key n (pos + length a) b.
Proof.
  unfold tail_xor. rewrite imap_app. f_equal. apply imap_ext. intros i x _. unfold compose. by rewrite Nat.add_assoc.
Qed.
Lemma stream_xor_tail key n p ex :
  stream_xor key n 1 (p ++ ex) = stream_xor key n 1 p ++ tail_xor key n (length p) ex.
Proof. unfold stream_xor, tail_xor. by rewrite imap_app. Qed.

Lemma xor_extra_run bs : forall block out_tag extra done errs w,
  stored (w_mem w) (extra + done) bs -> writable (w_mem w) (out_tag + done) (Z.of_nat (length bs)) ->
  (extra = out_tag \/ apart (extra + done) (Z.of_nat (length bs)) (out_tag + done) (Z.of_nat (length bs))) ->
  (length bs <= length block)%nat ->
  exists m', xor_extra (length bs) out_tag extra done block errs w = Ret (tt, errs, set_mem m' w) /\
    store (w_mem w) (out_tag + done) (zip_with Z.lxor bs block) = Some m'.
Proof.
  induction bs as [|b bs IH]; intros block out_tag extra done errs w Hs Hw Ha Hl; cbn [length] in *.
  { exists (w_mem w). split; [|done]. destruct w. done. }
  destruct block as [|x block]; [cbn in Hl; lia|]. cbn [xor_extra].
  apply (stored_app _ _ [b] bs) in Hs as [Hb Hs]. cbn [length] in Hs.
  assert (load_u 1 (extra + done) errs w = Ret (b, errs, w)) as El.
  { rewrite (load_u_run 1 _ [b] errs w) by exact Hb. cbn [le_val]. do 3 f_equal. lia. }
  rewrite (bind_ret_run _ _ _ _ _ _ _ El). cbn [nth drop skipn zip_with].
  destruct (store_stored (out_tag + done) [Z.lxor b x] errs w) as (m1 & E1 & _ & Ho1 & Hd1).
  { eapply writable_sub; [exact Hw|lia|cbn; lia]. }
  rewrite (bind_ret_run _ _ _ _ _ _ _ E1).
  destruct (IH block out_tag extra (done + 1) errs (set_mem m1 w)) as (m2 & E2 & Es2).
  - cbn [set_mem w_mem]. replace (extra + (done + 1)) with (extra + done + Z.of_nat 1) by lia.
    eapply stored_other; [exact Ho1| |exact Hs]. unfold apart in *. cbn [length]. lia.
  - cbn [set_mem w_mem]. eapply writable_other; [exact Hd1|]. eapply writable_sub; [exact Hw|lia|lia].
  - unfold apart in *. lia.
  - cbn in Hl. lia.
  - exists m2. split; [exact E2|]. cbn [set_mem w_mem] in Es2.
    change (Z.lxor b x :: zip_with Z.lxor bs block) with ([Z.lxor b x] ++ zip_with Z.lxor bs block). rewrite store_app.
    unfold store_bytes, bind, get_mem, of_option, put_mem in E1. destruct (store (w_mem w) _ _) as [m1'|]; [|done].
    injection E1 as ->. cbn [length]. by replace (out_tag + done + Z.of_nat 1) with (out_tag + (done + 1)) by lia.
Qed.

(** A block of the stream from [pos] on. *)
Lemma block_xor key n pos bs :
  (pos mod 64 + length bs <= 64)%nat ->
  zip_with Z.lxor bs (drop (pos mod 64) (CRYPTO_chacha_20 (zeros 64) key n (u32 (1 + Z.of_nat pos / 64)))) =
  tail_xor key n pos bs.
Proof.
  intros Hl. rewrite chacha_20_stream by (apply wrap_range; lia).
  apply list_eq. intros i. unfold tail_xor. rewrite list_lookup_imap, lookup_zip_with, lookup_drop.
  destruct (bs !! i) as [b|] eqn:Eb; cbn [fmap option_fmap option_map mbind option_bind]; [|done].
  apply lookup_lt_Some in Eb. unfold stream_xor. rewrite list_lookup_imap.
  unfold zeros. rewrite lookup_replicate_2 by (change (Z.to_nat 64) with 64%nat; lia).
  cbn [fmap option_fmap option_map mbind option_bind]. do 2 f_equal. rewrite Z.lxor_0_l.
  pose proof (Nat.div_mod pos 64) as Hd. replace (pos + i)%nat with (64 * (pos / 64) + (pos mod 64 + i))%nat by lia.
  rewrite keystream_later by lia. by rewrite Nat2Z.inj_div.
Qed.

Lemma next_block pos :
  let end_ := (pos + (64 - pos mod 64))%nat in
  (end_ mod 64 = 0)%nat /\ Z.of_nat end_ / 64 = Z.of_nat pos / 64 + 1.
Proof.
  intros end_. pose proof (Nat.div_mod pos 64 ltac:(lia)) as Hd.
  pose proof (Nat.mod_upper_bound pos 64 ltac:(lia)) as Hm.
  assert (end_ = (pos / 64 + 1) * 64)%nat as -> by (unfold end_; lia). split; [apply Nat.Div0.mod_mul|].
  rewrite Nat2Z.inj_mul, Z.div_mul by lia. rewrite Nat2Z.inj_add, Nat2Z.inj_div. done.
Qed.

Lemma extra_loop_run fuel : forall na n0 nonce n key out_tag extra L done ex errs w,
  nonce_reads na n0 nonce n -> stored (w_mem w) na n0 ->
  stored (w_mem w) (extra + Z.of_nat done) ex ->
  writable (w_mem w) (out_tag + Z.of_nat done) (Z.of_nat (length ex)) ->
  (extra = out_tag \/ apart (extra + Z.of_nat done) (Z.of_nat (length ex)) (out_tag + Z.of_nat done) (Z.of_nat (length ex))) ->
  apart na (Z.of_nat (length n0)) (out_tag + Z.of_nat done) (Z.of_nat (length ex)) ->
  (length ex <= fuel)%nat ->
  exists m',
    extra_loop fuel out_tag extra (Z.of_nat (done + length ex)) (Z.of_nat done) (Z.of_nat ((L + done) mod 64))
      (u32 (1 + Z.of_nat (L + done) / 64)) key nonce errs w = Ret (tt, errs, set_mem m' w) /\
    store (w_mem w) (out_tag + Z.of_nat done) (tail_xor key n (L + done) ex) = Some m'.
Proof.
  induction fuel as [|fuel IH]; intros na n0 nonce n key out_tag extra L done ex errs w Hn Hs He Hw Ha Hna Hf.
  { destruct ex; [|cbn in Hf; lia]. exists (w_mem w). cbn [length extra_loop]. rewrite Nat.add_0_r, Z.ltb_irrefl.
    split; [by destruct w|done]. }
  cbn [extra_loop]. destruct (Z.ltb_spec (Z.of_nat done) (Z.of_nat (done + length ex))) as [Hlt|Hge].
  2: { destruct ex; [|cbn in *; lia]. exists (w_mem w). split; [by destruct w|done]. }
  set (pos := (L + done)%nat) in *. pose proof (Nat.mod_upper_bound pos 64 ltac:(lia)) as Hub.
  rewrite (bind_ret_run _ _ _ _ _ _ _ (read_nonce_run _ _ _ _ errs w Hn Hs)).
  set (todo := Nat.min (64 - pos mod 64) (length ex)).
  replace (Z.min (64 - Z.of_nat (pos mod 64)) (Z.of_nat (done + length ex) - Z.of_nat done)) with (Z.of_nat todo) by lia.
  rewrite !Nat2Z.id. assert (length (take todo ex) = todo) as Ht by (rewrite length_take; lia).
  rewrite <- (take_drop todo ex) in He. apply stored_app in He as [He1 He2]. rewrite Ht in He2.
  destruct (xor_extra_run (take todo ex) (drop (pos mod 64) (CRYPTO_chacha_20 (zeros 64) key n
              (u32 (1 + Z.of_nat pos / 64)))) out_tag extra (Z.of_nat done) errs w) as (m1 & E1 & Es1).
  - done.
  - eapply writable_sub; [exact Hw|lia..].
  - unfold apart in *. lia.
  - rewrite length_drop, chacha_20_stream, length_stream_xor by (apply wrap_range; lia).
    change (length (zeros 64)) with 64%nat. lia.
  - rewrite Ht in E1. rewrite (bind_ret_run _ _ _ _ _ _ _ E1). rewrite block_xor in Es1 by lia.
    assert (only (w_mem w) m1 (out_tag + Z.of_nat done) (Z.of_nat todo)) as Ho.
    { intros i Hi. rewrite (store_lookup _ _ _ _ i Es1), length_tail_xor, Ht. by rewrite decide_False. }
    pose proof (store_dom _ _ _ _ Es1) as Hd.
    destruct (decide (todo = length ex)) as [Eall|Emore].
    + (* the last block *)
      rewrite (take_ge ex) in Es1 by lia. exists m1. split; [|exact Es1].
      replace (Z.of_nat done + Z.of_nat todo) with (Z.of_nat (done + length ex)) by lia.
      destruct fuel; cbn [extra_loop]; by rewrite Z.ltb_irrefl.
    + assert (todo = 64 - pos mod 64)%nat as Etodo by lia.
      destruct (next_block pos) as [Em Ed]. rewrite <- Etodo in Em, Ed.
      replace (pos + todo)%nat with (L + (done + todo))%nat in Em, Ed by lia.
      destruct (IH na n0 nonce n key out_tag extra L (done + todo)%nat (drop todo ex) errs (set_mem m1 w))
        as (m2 & E2 & Es2); cbn [set_mem w_mem]; rewrite ?length_drop.
      * done.
      * eapply stored_other; [exact Ho| |exact Hs]. unfold apart in *. lia.
      * eapply stored_other; [exact Ho| |]. { rewrite length_drop. unfold apart in *. lia. }
        by replace (extra + Z.of_nat (done + todo)) with (extra + Z.of_nat done + Z.of_nat todo) by lia.
      * eapply writable_other; [exact Hd|]. eapply writable_sub; [exact Hw|lia..].
      * unfold apart in *. lia.
      * unfold apart in *. lia.
      * lia.
      * rewrite Em, Ed in E2. exists m2. split.
        -- rewrite length_drop in E2. replace (done + todo + (length ex - todo))%nat with (done + length ex)%nat in E2 by lia.
           replace (Z.of_nat done + Z.of_nat todo) with (Z.of_nat (done + todo)) by lia.
           replace (u32 (u32 (1 + Z.of_nat pos / 64) + 1)) with (u32 (1 + (Z.of_nat pos / 64 + 1))); [exact E2|].
           unfold u32, wrap. rewrite Zplus_mod_idemp_l. f_equal. lia.
        -- cbn [set_mem w_mem] in Es2. rewrite <- (take_drop todo ex), tail_xor_app, store_app, Es1, length_tail_xor, Ht.
           replace (out_tag + Z.of_nat done + Z.of_nat todo) with (out_tag + Z.of_nat (done + todo)) by lia.
           by replace (pos + todo)%nat with (L + (done + todo))%nat by lia.
Qed.

Lemma chacha_20_at_run na n0 nonce n key out in_ p errs w :
  nonce_reads na n0 nonce n -> stored (w_mem w) na n0 -> stored (w_mem w) in_ p ->
  writable (w_mem w) out (Z.of_nat (length p)) ->
  in_space out (Z.of_nat (length p)) -> in_space in_ (Z.of_nat (length p)) ->
  (in_ = out \/ apart in_ (Z.of_nat (length p)) out (Z.of_nat (length p))) ->
  exists m', chacha_20_at out in_ (Z.of_nat (length p)) key nonce 1 errs w = Ret (tt, errs, set_mem m' w) /\
    stored m' out (stream_xor key n 1 p) /\ only (w_mem w) m' out (Z.of_nat (length p)) /\ dom m' = dom (w_mem w).
Proof.
  intros Hn Hs Hp Hw So Si Ha. unfold chacha_20_at.
  assert (negb (buffers_alias out (Z.of_nat (length p)) in_ (Z.of_nat (length p))) || (in_ =? out) = true) as ->.
  { pose proof (check_alias_ok out (Z.of_nat (length p)) in_ (Z.of_nat (length p)) So Si) as Hc.
    unfold check_alias in Hc. rewrite (Z.eqb_sym in_).
    destruct (negb _); [done|]. apply Hc. unfold apart in *. lia. }
  erewrite bind_ret_run by reflexivity. rewrite (bind_ret_run _ _ _ _ _ _ _ (read_nonce_run _ _ _ _ errs w Hn Hs)).
  rewrite (bind_ret_run _ _ _ _ _ _ _ (load_stored _ _ _ errs w eq_refl Hp)). rewrite chacha_20_stream by lia.
  destruct (store_stored out (stream_xor key n 1 p) errs w) as (m' & E & H); rewrite ?length_stream_xor in *; [done|].
  exists m'. by split.
Qed.

Lemma length_pad16 b : Z.of_nat (length (pad16 b)) < 16.
Proof.
  unfold pad16. pose proof (Z.mod_pos_bound (Z.of_nat (length b)) 16 ltac:(lia)).
  destruct (Z.eqb_spec (Z.of_nat (length b) mod 16) 0); [cbn; lia|]. rewrite length_zeros by lia. lia.
Qed.
Lemma length_chachapoly_tag key n a c : length (chachapoly_tag key n a c) = 16%nat.
Proof.
  unfold chachapoly_tag, poly_tag.
  destruct (init_ok (zeros 16) (one_time_key key n) (one_time_key_ok _ _)) as (st & -> & _);
    [rewrite length_one_time_key; lia|]. apply length_emit_mac.
Qed.

(** The encryption of the extra input, where there is any. *)
Lemma extra_run na n0 nonce n key out_tag extra L ex errs w :
  nonce_reads na n0 nonce n -> stored (w_mem w) na n0 -> stored (w_mem w) extra ex ->
  writable (w_mem w) out_tag (Z.of_nat (length ex)) ->
  (extra = out_tag \/ apart extra (Z.of_nat (length ex)) out_tag (Z.of_nat (length ex))) ->
  apart na (Z.of_nat (length n0)) out_tag (Z.of_nat (length ex)) ->
  exists m',
    (if negb (Z.of_nat (length ex) =? 0)
     then extra_loop (Z.to_nat (Z.of_nat (length ex))) out_tag extra (Z.of_nat (length ex)) 0 (Z.of_nat L mod 64)
            (u32 (1 + Z.of_nat L / 64)) key nonce
     else ret tt) errs w = Ret (tt, errs, set_mem m' w) /\
    stored m' out_tag (tail_xor key n L ex) /\ only (w_mem w) m' out_tag (Z.of_nat (length ex)) /\
    dom m' = dom (w_mem w).
Proof.
  intros Hn Hs He Hw Ha Hna. destruct (Z.eqb_spec (Z.of_nat (length ex)) 0) as [E|E]; cbn [negb].
  { exists (w_mem w). destruct ex; [|cbn in E; lia]. split; [by destruct w|]. done. }
  destruct (extra_loop_run (length ex) na n0 nonce n key out_tag extra L 0 ex errs w) as (m' & Er & Es);
    rewrite ?Z.add_0_r; try done.
  rewrite Nat2Z.id, Nat.add_0_r, Nat2Z.inj_mod in *. rewrite Z.add_0_r in Es. exists m'. split; [exact Er|].
  destruct (store_outcome (w_mem w) out_tag (tail_xor key n L ex)) as (m2 & Es2 & H2); rewrite ?length_tail_xor in *; [done|].
  assert (m2 = m') as <- by congruence. done.
Qed.

(** ** The two functions *)

Section run.
Context (garbage : bytes) (Hgarbage : length garbage = 16%nat).

Lemma seal_core_run key na n0 nonce n out out_tag max_out_tag_len in_ extra ad p ex a t errs w :
  nonce_reads na n0 nonce n ->
  seal_layout (w_mem w) out out_tag max_out_tag_len na in_ extra ad n0 p ex a ->
  1 <= t <= 16 -> Z.of_nat (length ex) + t <= max_out_tag_len ->
  Z.of_nat (length p) < chacha_limit -> Z.of_nat (length p) + Z.of_nat (length ex) < 2 ^ 64 ->
  let c := stream_xor key n 1 (p ++ ex) in
  exists m',
    chacha20_poly1305_seal_scatter garbage key out out_tag max_out_tag_len nonce 12 in_ (Z.of_nat (length p))
      extra (Z.of_nat (length ex)) ad (Z.of_nat (length a)) t errs w =
    Ret (Some (Z.of_nat (length ex) + t), errs, set_mem m' w) /\
    stored m' out (take (length p) c) /\
    stored m' out_tag (drop (length p) c ++ take (Z.to_nat t) (chachapoly_tag key n a c)) /\
    dom m' = dom (w_mem w) /\
    (forall i, ~ (out <= i < out + Z.of_nat (length p)) ->
               ~ (out_tag <= i < out_tag + Z.of_nat (length ex) + t) -> m' !! i = w_mem w !! i).
Proof.
  intros Hn [Ln Li Le La Lo Lt (So & Si & St & Sa) Lio Lot Lit Lno Lnt Lao Lat Let] Ht Hr Hp Hpe c.
  unfold chacha20_poly1305_seal_scatter, chacha_limit in *. unfold in_space, apart in So, Si, St, Sa, Lio, Lot, Lit, Lno, Lnt, Lao, Lat, Let.
  unfold u64. rewrite !(wrap_small 64) by lia.
  rewrite !(proj2 (Z.ltb_ge _ _)), (proj2 (Z.leb_gt _ _)) by lia. cbn [negb Z.eqb Pos.eqb].
  destruct (extra_run na n0 nonce n key out_tag extra (length p) ex errs w) as (m1 & E1 & Hs1 & Ho1 & Hd1);
    [done..|eapply writable_sub; [exact Lt|lia..]|unfold apart; lia|unfold apart; lia|].
  rewrite (bind_ret_run _ _ _ _ _ _ _ E1).
  destruct (chacha_20_at_run na n0 nonce n key out in_ p errs (set_mem m1 w)) as (m2 & E2 & Hs2 & Ho2 & Hd2);
    cbn [set_mem w_mem] in *; [done|eapply stored_other; [exact Ho1| |done]; unfold apart; lia
      |eapply stored_other; [exact Ho1| |done]; unfold apart; lia|by eapply writable_other|done..|].
  rewrite (bind_ret_run _ _ _ _ _ _ _ E2).
  set (c1 := stream_xor key n 1 p) in *. set (c2 := tail_xor key n (length p) ex) in *.
  assert (c = c1 ++ c2) as Ec by apply stream_xor_tail.
  assert (length c1 = length p) as Hl1 by apply length_stream_xor.
  assert (length c2 = length ex) as Hl2 by apply length_tail_xor.
  assert (stored m2 out_tag c2) as Hs2' by (eapply stored_other; [exact Ho2| |exact Hs1]; unfold apart; lia).
  assert (stored m2 ad a) as Ha2.
  { eapply stored_other; [exact Ho2| |eapply stored_other; [exact Ho1| |exact La]]; unfold apart; lia. }
  assert (stored m2 na n0) as Hn2.
  { eapply stored_other; [exact Ho2| |eapply stored_other; [exact Ho1| |exact Ln]]; unfold apart; lia. }
  assert (set_mem m2 (set_mem m1 w) = set_mem m2 w) as -> by done. set (w2 := set_mem m2 w).
  pose proof (calc_tag_run garbage key nonce n ad a out c1 out_tag c2 errs w2 Hgarbage
                (read_nonce_run _ _ _ _ errs w2 Hn Hn2) Ha2 Hs2 Hs2' ltac:(lia) ltac:(lia)) as E3.
  rewrite Hl1, Hl2 in E3. rewrite (bind_ret_run _ _ _ _ _ _ _ E3). rewrite <- Ec.
  set (tag := chachapoly_tag key n a c). assert (length tag = 16%nat) as Hlt by apply length_chachapoly_tag.
  assert (get tag t = Ret (take (Z.to_nat t) tag)) as Eg by (rewrite get_run by lia; done).
  rewrite (bind_ret_run _ _ _ _ _ _ _ (lift_ret _ _ errs w2 Eg)).
  assert (Z.of_nat (length (take (Z.to_nat t) tag)) = t) as Hlt' by (rewrite length_take; lia).
  destruct (store_stored (out_tag + Z.of_nat (length ex)) (take (Z.to_nat t) tag) errs w2) as (m3 & E4 & Hs3 & Ho3 & Hd3).
  { rewrite Hlt'. apply (writable_sub _ out_tag max_out_tag_len); [|lia|lia].
    eapply writable_other; [|exact Lt]. cbn. congruence. }
  rewrite (bind_ret_run _ _ _ _ _ _ _ E4). exists m3. rewrite Hlt' in Ho3. cbn [set_mem w_mem w2] in *.
  split; [done|]. rewrite Ec, <- Hl1, take_app_length, drop_app_length, Hl1. split_and!.
  - eapply stored_other; [exact Ho3| |exact Hs2]. unfold apart. lia.
  - apply stored_app. rewrite Hl2. split; [|exact Hs3].
    eapply stored_other; [exact Ho3| |exact Hs2']. unfold apart. lia.
  - congruence.
  - intros i Hi1 Hi2. rewrite Ho3, Ho2, Ho1 by lia. done.
Qed.


Lemma open_core_run key na n0 nonce n out in_ in_tag ad c t a errs w :
  nonce_reads na n0 nonce n ->
  open_layout (w_mem w) out na in_ in_tag ad n0 c t a ->
  (1 <= length t <= 16)%nat -> Z.of_nat (length c) < chacha_limit ->
  let ok := bool_decide (t = take (length t) (chachapoly_tag key n a c)) in
  exists m',
    chacha20_poly1305_open_gather garbage key out nonce 12 in_ (Z.of_nat (length c)) in_tag (Z.of_nat (length t))
      ad (Z.of_nat (length a)) (Z.of_nat (length t)) errs w =
    Ret (ok, if ok then errs else CIPHER_R_BAD_DECRYPT :: errs, set_mem m' w) /\
    stored m' out (stream_xor key n 1 c) /\
    only (w_mem w) m' out (Z.of_nat (length c)) /\ dom m' = dom (w_mem w).
Proof.
  intros Hn [Ln Li Lt La Lo (So & Si & Sa) Lio Lto Lno] Ht Hc ok.
  pose proof So as So'. pose proof Si as Si'. unfold in_space in So', Si', Sa.
  unfold chacha20_poly1305_open_gather. rewrite !Z.eqb_refl, (proj2 (Z.leb_gt _ _)) by done. cbn [negb].
  assert (stored (w_mem w) 0 []) as H0 by done.
  pose proof (calc_tag_run garbage key nonce n ad a in_ c 0 [] errs w Hgarbage
                (read_nonce_run _ _ _ _ errs w Hn Ln) La Li H0 ltac:(lia) ltac:(cbn [length]; lia)) as E1.
  rewrite app_nil_r in E1. cbn [length] in E1. change (Z.of_nat 0) with 0 in E1.
  rewrite (bind_ret_run _ _ _ _ _ _ _ E1).
  destruct (chacha_20_at_run na n0 nonce n key out in_ c errs w) as (m2 & E2 & Hs2 & Ho2 & Hd2); [done..|].
  rewrite (bind_ret_run _ _ _ _ _ _ _ E2).
  set (tag := chachapoly_tag key n a c) in *. assert (length tag = 16%nat) as Hlt by apply length_chachapoly_tag.
  set (w2 := set_mem m2 w).
  assert (get tag (Z.of_nat (length t)) = Ret (take (length t) tag)) as Eg by (rewrite get_run, Nat2Z.id by lia; done).
  rewrite (bind_ret_run _ _ _ _ _ _ _ (lift_ret _ _ errs w2 Eg)).
  assert (stored (w_mem w2) in_tag t) as Lt2 by (eapply stored_other; [exact Ho2|done|exact Lt]).
  rewrite (bind_ret_run _ _ _ _ _ _ _ (load_stored _ _ _ errs w2 eq_refl Lt2)).
  rewrite memcmp_equal by (rewrite length_take; lia).
  exists m2. split_and!; try done. unfold ok. clear. case_bool_decide; done.
Qed.

Lemma xchacha_derive_run key nonce n errs w :
  stored (w_mem w) nonce n -> length n = 24%nat ->
  xchacha_derive key nonce errs w = Ret ((CRYPTO_hchacha20 key (take 16 n), zeros 4 ++ drop 16 n), errs, w).
Proof.
  intros Hs Hl. rewrite <- (take_drop 16 n) in Hs. apply stored_app in Hs as [H1 H2].
  pose proof (load_stored _ _ _ errs w eq_refl H1) as E1. pose proof (load_stored _ _ _ errs w eq_refl H2) as E2.
  rewrite length_take, length_drop, Hl in *. unfold xchacha_derive.
  rewrite (bind_ret_run _ _ _ _ _ _ _ E1), (bind_ret_run _ _ _ _ _ _ _ E2). done.
Qed.

#[local] Opaque CRYPTO_hchacha20 chachapoly_tag stream_xor.

(** A key of the right length, and a length of the tag that [init] accepts. *)
Definition chachapoly_state (st : aead_state) : Prop :=
  length (st_key st) = 32%nat /\ bytes_ok (st_key st) /\ 1 <= st_tag_len st <= 16.

#[export] Program Instance chacha20_poly1305_algorithm : AeadAlgorithm (EVP_aead_chacha20_poly1305 garbage) := {
  alg_crypt key n d := stream_xor key n 1 d;
  alg_tag := chachapoly_tag;
  alg_limit := chacha_limit;
  alg_state := chachapoly_state;
  alg_gather := aead_chacha20_poly1305_open_gather garbage
}.
Next Obligation. intros. apply stream_xor_twice. Qed.
Next Obligation. intros. apply length_stream_xor. Qed.
Next Obligation. done. Qed.
Next Obligation. by intros st (_ & _ & H). Qed.
Next Obligation. done. Qed.
Next Obligation. done. Qed.
Next Obligation. intros. apply length_chachapoly_tag. Qed.
Next Obligation.
  cbv beta. intros st out out_tag max nonce in_ extra ad n p ex a errs w (Hk & Hb & Ht) Hl Hn Hr Hp Hpe c.
  cbn [seal_scatter aead_nonce_len EVP_aead_chacha20_poly1305] in *. unfold aead_chacha20_poly1305_seal_scatter.
  apply (seal_core_run (st_key st) nonce n); try done. split; [lia|by left].
Qed.
Next Obligation. done. Qed.
Next Obligation.
  cbv beta. intros st out nonce in_ in_tag ad n c t a errs w (Hk & Hb & Ht) Hl Hn Hlt Hc ok.
  cbn [aead_nonce_len EVP_aead_chacha20_poly1305] in *. unfold aead_chacha20_poly1305_open_gather.
  rewrite <- Hlt. apply (open_core_run (st_key st) nonce n); try done; [split; [lia|by left]|lia].
Qed.

#[export] Program Instance xchacha20_poly1305_algorithm : AeadAlgorithm (EVP_aead_xchacha20_poly1305 garbage) := {
  alg_crypt key n d := stream_xor (CRYPTO_hchacha20 key (take 16 n)) (zeros 4 ++ drop 16 n) 1 d;
  alg_tag key n a c := chachapoly_tag (CRYPTO_hchacha20 key (take 16 n)) (zeros 4 ++ drop 16 n) a c;
  alg_limit := chacha_limit;
  alg_state := chachapoly_state;
  alg_gather := aead_xchacha20_poly1305_open_gather garbage
}.
Next Obligation. intros. apply stream_xor_twice. Qed.
Next Obligation. intros. apply length_stream_xor. Qed.
Next Obligation. done. Qed.
Next Obligation. by intros st (_ & _ & H). Qed.
Next Obligation. done. Qed.
Next Obligation. done. Qed.
Next Obligation. intros. exact (length_chachapoly_tag _ _ a c). Qed.
Next Obligation.
  cbv beta. intros st out out_tag max nonce in_ extra ad n p ex a errs w (Hk & Hb & Ht) Hl Hn Hr Hp Hpe c.
  cbn [seal_scatter aead_nonce_len EVP_aead_xchacha20_poly1305] in *. unfold aead_xchacha20_poly1305_seal_scatter.
  cbn [negb Z.eqb Pos.eqb]. rewrite (bind_ret_run _ _ _ _ _ _ _ (xchacha_derive_run _ _ n errs w (lay_nonce _ _ _ _ _ _ _ _ _ _ _ _ Hl) ltac:(lia))).
  cbn [fst snd]. eapply (seal_core_run _ nonce n); try done. split; [|by right].
  rewrite length_app, length_drop. change (length (zeros 4)) with 4%nat. lia.
Qed.
Next Obligation. done. Qed.
Next Obligation.
  cbv beta. intros st out nonce in_ in_tag ad n c t a errs w (Hk & Hb & Ht) Hl Hn Hlt Hc ok.
  cbn [aead_nonce_len EVP_aead_xchacha20_poly1305] in *. unfold aead_xchacha20_poly1305_open_gather.
  cbn [negb Z.eqb Pos.eqb]. rewrite (bind_ret_run _ _ _ _ _ _ _ (xchacha_derive_run _ _ n errs w (olay_nonce _ _ _ _ _ _ _ _ _ _ Hl) ltac:(lia))).
  cbn [fst snd]. rewrite <- Hlt. apply (open_core_run (CRYPTO_hchacha20 (st_key st) (take 16 n)) nonce n (Local (zeros 4 ++ drop 16 n)) (zeros 4 ++ drop 16 n));
    [|exact Hl|lia|exact Hc]. split; [|by right].
  rewrite length_app, length_drop. change (length (zeros 4)) with 4%nat. lia.
Qed.
End run.

(** ** The properties *)

Lemma mac_data_ok a c : bytes_ok a -> bytes_ok c -> bytes_ok (mac_data a c).
Proof.
  intros Ha Hc. assert (forall b, bytes_ok (pad16 b)) as Hpad.
  { intros b. unfold pad16. destruct (Z.of_nat (length b) mod 16 =? 0); [constructor|].
    apply Forall_replicate. unfold is_byte. lia. }
  unfold mac_data. repeat (apply Forall_app; split); try done; try apply Hpad; apply le_bytes_ok.
Qed.

Lemma chachapoly_init_run garbage key tag_len errs w :
  length key = 32%nat -> 0 <= tag_len <= 16 ->
  EVP_AEAD_CTX_init EVP_AEAD_CTX_zero (EVP_aead_chacha20_poly1305 garbage) key 32 tag_len errs w =
  Ret ((true, AeadCtx (Some (EVP_aead_chacha20_poly1305 garbage))
                (AeadState key (if tag_len =? 0 then 16 else tag_len))), errs, w).
Proof.
  intros Hk Ht. unfold EVP_AEAD_CTX_init, EVP_AEAD_CTX_init_with_direction.
  cbn [aead_init aead_key_len EVP_aead_chacha20_poly1305 negb Z.eqb Pos.eqb].
  unfold aead_chacha20_poly1305_init, POLY1305_TAG_LEN. cbn [negb Z.eqb Pos.eqb].
  set (t := if tag_len =? 0 then 16 else tag_len).
  assert (0 <= t <= 16) as Ht' by (unfold t; destruct (tag_len =? 0); lia).
  rewrite (proj2 (Z.ltb_ge 16 t)) by lia.
  assert (get key 32 = Ret key) as Eg by (rewrite get_run by lia; f_equal; apply take_ge; lia).
  unfold bind at 1. rewrite (bind_ret_run _ _ _ _ _ _ _ (lift_ret _ _ errs w Eg)).
  unfold ret, u8. rewrite wrap_small by lia. done.
Qed.

(** C5: ChaCha20-Poly1305 is the AEAD of RFC 8439.  [EVP_AEAD_CTX_init] with a key of 32
    bytes and a tag length up to 16, 0 being 16, makes a context with which
    [EVP_AEAD_CTX_seal] writes the plaintext xor the key stream of the blocks of the RFC
    ([chacha20_block]) from block 1 on, and then as many bytes of a tag as asked for; and the tag is Poly1305, under the first 32
    bytes of block 0, of the associated data and the ciphertext, each padded to whole
    blocks, and their lengths, unless [carry_lost] holds of its residue. *)
Theorem chachapoly_correct garbage key tag_len errs w :
  length garbage = 16%nat -> length key = 32%nat -> bytes_ok key -> 0 <= tag_len <= 16 ->
  exists ctx,
    EVP_AEAD_CTX_init EVP_AEAD_CTX_zero (EVP_aead_chacha20_poly1305 garbage) key 32 tag_len errs w =
      Ret ((true, ctx), errs, w) /\
    let t := if tag_len =? 0 then 16 else tag_len in
    forall out max_out_len nonce in_ ad n p a,
      seal_ready (w_mem w) out max_out_len nonce in_ ad n p a t ->
      length n = 12%nat -> Z.of_nat (length p) < chacha_limit -> bytes_ok p -> bytes_ok a ->
      exists m' tag,
        EVP_AEAD_CTX_seal ctx out max_out_len nonce 12 in_ (Z.of_nat (length p)) ad (Z.of_nat (length a)) errs w =
          Ret ((true, Z.of_nat (length p) + t), errs, set_mem m' w) /\
        let c := stream_xor key n 1 p in
        stored m' out (c ++ take (Z.to_nat t) tag) /\ only (w_mem w) m' out (Z.of_nat (length p) + t) /\
        (carry_lost (poly_residue (one_time_key key n) (mac_data a c)) = false -> tag = rfc_tag key n a c).
Proof.
  intros Hg Hk Hkb Ht. eexists. split; [by apply chachapoly_init_run|].
  set (st := AeadState key _). intros t out max_out_len nonce in_ ad n p a Hr Hn Hp Bp Ba.
  assert (1 <= t <= 16) as Ht' by (unfold t; destruct (Z.eqb_spec tag_len 0); lia).
  destruct (seal_run (tab := EVP_aead_chacha20_poly1305 garbage)
              (H := chacha20_poly1305_algorithm garbage Hg)
              (AeadCtx (Some (EVP_aead_chacha20_poly1305 garbage)) st) out max_out_len nonce in_ ad n p a errs w)
    as (m' & E & Hs & Ho & _); try done; [by cbn [aead_nonce_len EVP_aead_chacha20_poly1305]; lia|].
  rewrite Hn in E. exists m', (chachapoly_tag key n a (stream_xor key n 1 p)).
  split; [exact E|]. cbv zeta. split; [exact Hs|]. split; [exact Ho|].
  intros Hc. unfold rfc_tag. apply poly_tag_ok; [apply one_time_key_ok|rewrite length_one_time_key; lia| |done].
  apply mac_data_ok; [done|by apply stream_xor_ok].
Qed.

(** ** A sample *)

(** RFC 8439, section 2.8.2. *)
Definition sample_key : bytes := (fun i => 128 + Z.of_nat i) <$> seq 0 32.
Definition sample_nonce : bytes := [7; 0; 0; 0] ++ ((fun i => 64 + Z.of_nat i) <$> seq 0 8).
Definition sample_ad : bytes := [0x50; 0x51; 0x52; 0x53] ++ ((fun i => 192 + Z.of_nat i) <$> seq 0 8).
Definition sample_text : bytes :=
  [76; 97; 100; 105; 101; 115; 32; 97; 110; 100; 32; 71; 101; 110; 116; 108; 101; 109; 101; 110;
   32; 111; 102; 32; 116; 104; 101; 32; 99; 108; 97; 115; 115; 32; 111; 102; 32; 39; 57; 57; 58;
   32; 73; 102; 32; 73; 32; 99; 111; 117; 108; 100; 32; 111; 102; 102; 101; 114; 32; 121; 111; 117;
   32; 111; 110; 108; 121; 32; 111; 110; 101; 32; 116; 105; 112; 32; 102; 111; 114; 32; 116; 104;
   101; 32; 102; 117; 116; 117; 114; 101; 44; 32; 115; 117; 110; 115; 99; 114; 101; 101; 110; 32;
   119; 111; 117; 108; 100; 32; 98; 101; 32; 105; 116; 46].
(** The nonce at 100, the associated data at 200, the text at 300 and room at 500. *)
Definition sample_cells : list (Z * bytes) :=
  [(100, sample_nonce); (200, sample_ad); (300, sample_text); (500, zeros 200)].
Definition sample_memory : mem := foldr (fun r m => alloc_range m (fst r) (Some <$> snd r)) ∅ sample_cells.
Definition sample_world : world := World sample_memory ∅.
Definition sample_garbage_16 : bytes := repeat 0xaa 16.
Definition sample_tab : EVP_AEAD := EVP_aead_chacha20_poly1305 sample_garbage_16.
Definition sample_ctx : EVP_AEAD_CTX := AeadCtx (Some sample_tab) (AeadState sample_key 16).

Example rfc_aead_tag :
  match EVP_AEAD_CTX_seal sample_ctx 500 200 100 12 300 114 200 12 [] sample_world with
  | Ret ((true, len), [], w) => Some (len, load (w_mem w) 500 4, load (w_mem w) 614 16)
  | _ => None
  end =
  Some (130, Some [0xd3; 0x1a; 0x8d; 0x34],
        Some [0x1a; 0xe1; 0x0b; 0x59; 0x4f; 0x09; 0xe2; 0x6a; 0x7e; 0x90; 0x2e; 0xcb; 0xd0; 0x60; 0x06; 0x91]).
Proof. vm_compute. reflexivity. Qed.

(** Its first twenty-four bytes, for the witnesses. *)
Definition sample_part : bytes := take 24 sample_text.
Lemma sample_ready : seal_ready (w_mem sample_world) 500 200 100 300 200 sample_nonce sample_part sample_ad 16.
Proof.
  split; try (vm_compute; reflexivity); try (unfold in_space, apart; vm_compute; intuition discriminate).
  apply (load_accessible _ 500 200 (zeros 200)). vm_compute. reflexivity.
Qed.

Lemma chachapoly_correct_witness :
  exists ctx,
    EVP_AEAD_CTX_init EVP_AEAD_CTX_zero sample_tab sample_key 32 0 [] sample_world = Ret ((true, ctx), [], sample_world) /\
    exists m' tag,
      EVP_AEAD_CTX_seal ctx 500 200 100 12 300 24 200 12 [] sample_world = Ret ((true, 40), [], set_mem m' sample_world) /\
      stored m' 500 (stream_xor sample_key sample_nonce 1 sample_part ++ take 16 tag) /\
      tag = rfc_tag sample_key sample_nonce sample_ad (stream_xor sample_key sample_nonce 1 sample_part).
Proof.
  destruct (chachapoly_correct sample_garbage_16 sample_key 0 [] sample_world) as (ctx & E & H);
    [done|done|apply (bool_decide_unpack _); vm_compute; exact I|lia|].
  exists ctx. split; [exact E|].
  destruct (H 500 200 100 300 200 sample_nonce sample_part sample_ad sample_ready) as (m' & tag & E' & Hs & _ & Ht);
    [done|vm_compute; done|apply (bool_decide_unpack _); vm_compute; exact I
    |apply (bool_decide_unpack _); vm_compute; exact I|].
  exists m', tag. split; [exact E'|]. split; [exact Hs|]. apply Ht. vm_compute. reflexivity.
Defined.

Lemma aead_roundtrip_witness :
  exists m1,
    EVP_AEAD_CTX_seal sample_ctx 500 200 100 12 300 24 200 12 [] sample_world =
      Ret ((true, 40), [], set_mem m1 sample_world) /\
    exists m2,
      EVP_AEAD_CTX_open sample_ctx 500 200 100 12 500 40 200 12 [] (set_mem m1 sample_world) =
        Ret ((true, 24), [], set_mem m2 sample_world) /\ stored m2 500 sample_part.
Proof.
  assert (alg_state (AeadAlgorithm := chacha20_poly1305_algorithm sample_garbage_16 eq_refl) (ctx_state sample_ctx)) as Hst.
  { split; [done|]. split; [apply (bool_decide_unpack _); vm_compute; exact I|]. cbn. lia. }
  destruct (aead_roundtrip sample_tab (H := chacha20_poly1305_algorithm sample_garbage_16 eq_refl) sample_ctx
              500 200 100 300 200 sample_nonce sample_part sample_ad [] sample_world eq_refl Hst sample_ready eq_refl eq_refl)
    as (m1 & E1 & _ & H).
  exists m1. split; [exact E1|].
  destruct (H 500 200 (rdy_out _ _ _ _ _ _ _ _ _ _ sample_ready)) as (m2 & E2 & Hs);
    [unfold in_space; lia|vm_compute; discriminate|by left|unfold apart; vm_compute; left; discriminate|].
  exists m2. split; [exact E2|exact Hs].
Defined.

(** The text is no ciphertext: its last sixteen bytes are not the tag of the others. *)
Lemma aead_open_correct_witness :
  exists l errs' m',
    EVP_AEAD_CTX_open sample_ctx 500 200 100 12 300 24 200 12 [] sample_world =
      Ret ((false, l), errs', set_mem m' sample_world) /\
    errs' = [CIPHER_R_BAD_DECRYPT] /\ all_zero m' 500 200.
Proof.
  assert (alg_state (AeadAlgorithm := chacha20_poly1305_algorithm sample_garbage_16 eq_refl) (ctx_state sample_ctx)) as Hst.
  { split; [done|]. split; [apply (bool_decide_unpack _); vm_compute; exact I|]. cbn. lia. }
  assert (open_ready (w_mem sample_world) 500 200 100 300 200 sample_nonce (take 8 sample_part) (drop 8 sample_part) sample_ad) as Hr.
  { split; try (vm_compute; reflexivity); try (unfold in_space, apart; vm_compute; intuition discriminate).
    apply (rdy_out _ _ _ _ _ _ _ _ _ _ sample_ready). }
  destruct (aead_open_correct sample_tab (H := chacha20_poly1305_algorithm sample_garbage_16 eq_refl) sample_ctx
              500 200 100 300 200 sample_nonce (take 8 sample_part) (drop 8 sample_part) sample_ad [] sample_world
              eq_refl Hst Hr eq_refl eq_refl eq_refl)
    as (ok & l & errs' & m' & E & Hok & Hres & _).
  match type of Hok with (_ <-> ?P) => assert (bool_decide P = false) as Hf by (vm_compute; reflexivity) end.
  assert (ok = false) as ->.
  { apply not_true_is_false. intros Ht. exact (proj1 (bool_decide_eq_false _) Hf (proj1 Hok Ht)). }
  exists l, errs', m'. split; [exact E|]. split; apply Hres.
Defined.

(** There is no room for the text. *)
Lemma aead_failure_clears_witness :
  exists errs' w',
    EVP_AEAD_CTX_seal sample_ctx 500 4 100 12 300 24 200 12 [] sample_world = Ret ((false, 0), errs', w') /\
    all_zero (w_mem w') 500 4.
Proof.
  assert (match EVP_AEAD_CTX_seal sample_ctx 500 4 100 12 300 24 200 12 [] sample_world with
          | Ret ((b, _), _, _) => b | _ => true end = false) as Hf by (vm_compute; reflexivity).
  destruct (EVP_AEAD_CTX_seal sample_ctx 500 4 100 12 300 24 200 12 [] sample_world) as [[[[b l] errs'] w']| |] eqn:E;
    [|discriminate Hf..]. subst b.
  destruct (proj1 (aead_failure_clears sample_ctx [] sample_world errs' w') 500 4 100 12 300 24 200 12 l E) as [-> Hz].
  exists errs', w'. split; [reflexivity|exact Hz].
Defined.
