(* ===== verification/Gcm.v ===== *)
(** * BoringSSL: Galois/counter mode (crypto/fipsmodule/modes/gcm.c)

    The functions of a build without assembly, in which [GCM_MUL] and [GHASH] are the
    functions of Ghash.v.  A context is passed by reference, so it is the object the
    monad threads; plaintext and ciphertext are in memory, since they may be one
    buffer and the order of reading and writing then matters.  The block cipher and
    the routine for whole runs of blocks are function pointers in the code, and
    parameters here; an [AES_KEY] is opaque. *)
From Stdlib Require Import ZArith Lia.
From stdpp Require Import prelude gmap list numbers.
From S2P Require Import Prelude CMem Cells Words Der Ghash.
Local Open Scope Z_scope.
Local Open Scope c_scope.

Abbreviation AES_KEY := bytes.
(** [block(in, out, key)], and [stream(in, out, blocks, key, ivec)] on the data. *)
Abbreviation block128_f := (AES_KEY -> bytes -> bytes).
Abbreviation ctr128_f := (AES_KEY -> bytes -> bytes -> bytes).

(** [CRYPTO_xor16]: two words of eight bytes, in the context and in memory. *)
Definition xor_word (a b : bytes) : bytes := le_bytes 8 (Z.lxor (CRYPTO_load_u64_le a) (CRYPTO_load_u64_le b)).
Definition CRYPTO_xor16 (a b : bytes) : bytes := xor_word a b ++ xor_word (drop 8 a) (drop 8 b).
Definition xor16_at {S} (out a : Z) (b : bytes) : M S unit :=
  x <- load_bytes a 8 ;; store_bytes out (xor_word x b) ;;
  x <- load_bytes (a + 8) 8 ;; store_bytes (out + 8) (xor_word x (drop 8 b)).

Record GCM128_KEY := { Htable : list u128; key_block : block128_f; use_hw_gcm_crypt : bool }.

Record GCM128_CONTEXT := Gcm {
  Yi : bytes; EKi : bytes; EK0 : bytes;
  len_aad : Z; len_msg : Z;
  Xi : bytes;
  gcm_key : GCM128_KEY;
  mres : Z; ares : Z
}.
Definition set_Yi (v : bytes) (c : GCM128_CONTEXT) := Gcm v (EKi c) (EK0 c) (len_aad c) (len_msg c) (Xi c) (gcm_key c) (mres c) (ares c).
Definition set_EKi (v : bytes) (c : GCM128_CONTEXT) := Gcm (Yi c) v (EK0 c) (len_aad c) (len_msg c) (Xi c) (gcm_key c) (mres c) (ares c).
Definition set_EK0 (v : bytes) (c : GCM128_CONTEXT) := Gcm (Yi c) (EKi c) v (len_aad c) (len_msg c) (Xi c) (gcm_key c) (mres c) (ares c).
Definition set_aad (v : Z) (c : GCM128_CONTEXT) := Gcm (Yi c) (EKi c) (EK0 c) v (len_msg c) (Xi c) (gcm_key c) (mres c) (ares c).
Definition set_msg (v : Z) (c : GCM128_CONTEXT) := Gcm (Yi c) (EKi c) (EK0 c) (len_aad c) v (Xi c) (gcm_key c) (mres c) (ares c).
Definition set_Xi (v : bytes) (c : GCM128_CONTEXT) := Gcm (Yi c) (EKi c) (EK0 c) (len_aad c) (len_msg c) v (gcm_key c) (mres c) (ares c).
Definition set_mres (v : Z) (c : GCM128_CONTEXT) := Gcm (Yi c) (EKi c) (EK0 c) (len_aad c) (len_msg c) (Xi c) (gcm_key c) v (ares c).
Definition set_ares (v : Z) (c : GCM128_CONTEXT) := Gcm (Yi c) (EKi c) (EK0 c) (len_aad c) (len_msg c) (Xi c) (gcm_key c) (mres c) v.

Abbreviation gcm_m := (M GCM128_CONTEXT).
Definition get_ctx : gcm_m GCM128_CONTEXT := get_stream.
Definition update (f : GCM128_CONTEXT -> GCM128_CONTEXT) : gcm_m unit := c <- get_ctx ;; put_stream (f c).
Definition lift {A} (r : res A) : gcm_m A :=
  match r with Ret a => ret a | UB => ub | OutOfFuel => out_of_fuel end.

(** The macros, for the field [Xi]. *)
Definition GCM_MUL : gcm_m unit :=
  c <- get_ctx ;; x <- lift (gcm_gmult_nohw (Xi c) (Htable (gcm_key c))) ;; update (set_Xi x).
Definition GHASH (inp : bytes) : gcm_m unit :=
  c <- get_ctx ;; x <- lift (gcm_ghash_nohw (Xi c) (Htable (gcm_key c)) inp) ;; update (set_Xi x).
(** [ctx->Xi[n] ^= v] *)
Definition mix (n : Z) (v : Z) : gcm_m unit :=
  c <- get_ctx ;;
  x <- of_option (Xi c !! Z.to_nat n) ;; update (set_Xi (<[Z.to_nat n := Z.lxor x v]> (Xi c))).

Definition GHASH_CHUNK : Z := 3 * 1024.
Definition kSizeTWithoutLower4Bits : Z := 2 ^ 64 - 16.

Definition CRYPTO_gcm128_init_key (aes_key : AES_KEY) (block : block128_f) (block_is_hwaes : bool) : GCM128_KEY :=
  let ghash_key := block aes_key (zeros 16) in
  {| Htable := CRYPTO_ghash_init (replicate 16 (U128 0 0)) ghash_key;
     key_block := block;
     use_hw_gcm_crypt := false |}.

(** ** The initial counter block *)

(** [CRYPTO_store_u32_be(ctx->Yi + 12, ctr)] *)
Definition store_ctr (Yi : bytes) (ctr : Z) : bytes := take 12 Yi ++ CRYPTO_store_u32_be ctr.

(** The loop over [iv] and what is left after it. *)
Fixpoint setiv_loop (fuel : nat) (Yi : bytes) (table : list u128) (iv : bytes) : res bytes :=
  if 16 <=? Z.of_nat (length iv) then
    match fuel with
    | O => OutOfFuel
    | S k =>
        match gcm_gmult_nohw (CRYPTO_xor16 Yi iv) table with
        | Ret Yi => setiv_loop k Yi table (drop 16 iv)
        | UB => UB
        | OutOfFuel => OutOfFuel
        end
    end
  else if negb (Z.of_nat (length iv) =? 0)
  then gcm_gmult_nohw (zip_with Z.lxor (take (length iv) Yi) iv ++ drop (length iv) Yi) table
  else Ret Yi.

Definition CRYPTO_gcm128_setiv (key : AES_KEY) (iv : bytes) : gcm_m unit :=
  let len := Z.of_nat (length iv) in
  update (set_Yi (zeros 16)) ;; update (set_Xi (zeros 16)) ;;
  update (set_aad 0) ;; update (set_msg 0) ;; update (set_ares 0) ;; update (set_mres 0) ;;
  ctr <- (if len =? 12 then
            update (set_Yi (iv ++ [0; 0; 0; 1])) ;; ret 1
          else
            let len0 := len in
            c <- get_ctx ;;
            y <- lift (setiv_loop (length iv) (Yi c) (Htable (gcm_key c)) iv) ;;
            let len_block := zeros 8 ++ CRYPTO_store_u64_be (u64 (Z.shiftl len0 3)) in
            y <- lift (gcm_gmult_nohw (CRYPTO_xor16 y len_block) (Htable (gcm_key c))) ;;
            update (set_Yi y) ;;
            ret (CRYPTO_load_u32_be (drop 12 y))) ;;
  c <- get_ctx ;;
  update (set_EK0 (key_block (gcm_key c) key (Yi c))) ;;
  update (set_Yi (store_ctr (Yi c) (u32 (ctr + 1)))).

(** ** Associated data *)

(** [while (n && len)]: the rest and the last [n]. *)
Fixpoint aad_head (aad : bytes) (n : Z) : gcm_m (bytes * Z) :=
  match aad with
  | b :: r => if n =? 0 then ret (aad, n) else mix n b ;; aad_head r ((n + 1) mod 16)
  | [] => ret ([], n)
  end.
(** [for (i = 0; i < len; ++i) ctx->Xi[i] ^= aad[i];] *)
Fixpoint aad_rest (aad : bytes) (i : Z) : gcm_m unit :=
  match aad with
  | b :: r => mix i b ;; aad_rest r (i + 1)
  | [] => ret tt
  end.

Definition CRYPTO_gcm128_aad (aad : bytes) : gcm_m bool :=
  let len := Z.of_nat (length aad) in
  c <- get_ctx ;;
  if negb (len_msg c =? 0) then ret false
  else
    let alen := u64 (len_aad c + len) in
    if (2 ^ 61 <? alen) || (alen <? len) then ret false
    else
      update (set_aad alen) ;;
      r <- (if negb (ares c =? 0) then
              h <- aad_head aad (ares c) ;;
              if snd h =? 0 then GCM_MUL ;; ret (Some h) else update (set_ares (snd h)) ;; ret None
            else ret (Some (aad, ares c))) ;;
      match r with
      | None => ret true
      | Some (aad, n) =>
          let len := Z.of_nat (length aad) in
          let len_blocks := Z.land len kSizeTWithoutLower4Bits in
          (if negb (len_blocks =? 0) then GHASH (take (Z.to_nat len_blocks) aad) else ret tt) ;;
          let aad := drop (Z.to_nat len_blocks) aad in
          let len := len - len_blocks in
          n <- (if negb (len =? 0) then aad_rest aad 0 ;; ret len else ret n) ;;
          update (set_ares n) ;; ret true
      end.

(** ** Encryption and decryption *)

(** What the four functions begin with: the length, and the end of the associated data. *)
Definition crypt_begin (len : Z) : gcm_m bool :=
  c <- get_ctx ;;
  let mlen := u64 (len_msg c + len) in
  if (2 ^ 36 - 32 <? mlen) || (mlen <? len) then ret false
  else
    update (set_msg mlen) ;;
    (if negb (ares c =? 0) then GCM_MUL ;; update (set_ares 0) else ret tt) ;;
    ret true.

(** One byte with the key stream: [enc] says whether the result or the input, that is
    the ciphertext, goes into the hash. *)
Definition crypt_byte (enc : bool) (in_ out n : Z) : gcm_m unit :=
  b <- load_u 1 in_ ;;
  c <- get_ctx ;;
  k <- of_option (EKi c !! Z.to_nat n) ;;
  if enc then store_bytes out [Z.lxor b k] ;; mix n (Z.lxor b k)
  else store_bytes out [Z.lxor b k] ;; mix n b.

(** [while (n && len)]: how many bytes are left, and the last [n]. *)
Fixpoint head_loop (enc : bool) (len : nat) (in_ out n : Z) : gcm_m (nat * Z) :=
  match len with
  | S k =>
      if n =? 0 then ret (len, n)
      else crypt_byte enc in_ out n ;; head_loop enc k (in_ + 1) (out + 1) ((n + 1) mod 16)
  | O => ret (O, n)
  end.
(** The block that an earlier call has begun.  [None] is the early return. *)
Definition crypt_head (enc : bool) (in_ out len : Z) : gcm_m (option Z) :=
  c <- get_ctx ;;
  if negb (mres c =? 0) then
    r <- head_loop enc (Z.to_nat len) in_ out (mres c) ;;
    if snd r =? 0 then GCM_MUL ;; ret (Some (len - Z.of_nat (fst r)))
    else update (set_mres (snd r)) ;; ret None
  else ret (Some 0).

(** [block(ctx->Yi, ctx->EKi, key); ++ctr; CRYPTO_store_u32_be(ctx->Yi + 12, ctr);] *)
Definition next_block (key : AES_KEY) (ctr : Z) : gcm_m Z :=
  c <- get_ctx ;;
  update (set_EKi (key_block (gcm_key c) key (Yi c))) ;;
  update (set_Yi (store_ctr (Yi c) (u32 (ctr + 1)))) ;;
  ret (u32 (ctr + 1)).
(** [n] blocks. *)
Fixpoint crypt_blocks (n : nat) (key : AES_KEY) (in_ out ctr : Z) : gcm_m Z :=
  match n with
  | O => ret ctr
  | S k =>
      ctr <- next_block key ctr ;;
      c <- get_ctx ;;
      xor16_at out in_ (EKi c) ;;
      crypt_blocks k key (in_ + 16) (out + 16) ctr
  end.
Definition GHASH_at (a len : Z) : gcm_m unit := x <- load_bytes a len ;; GHASH x.

(** The last bytes: [while (len--)]. *)
Fixpoint tail_loop (enc : bool) (len : nat) (in_ out n : Z) : gcm_m Z :=
  match len with
  | S k => crypt_byte enc (in_ + n) (out + n) n ;; tail_loop enc k in_ out (n + 1)
  | O => ret n
  end.
Definition crypt_tail (enc : bool) (key : AES_KEY) (in_ out len ctr : Z) : gcm_m bool :=
  n <- (if negb (len =? 0) then next_block key ctr ;; tail_loop enc (Z.to_nat len) in_ out 0 else ret 0) ;;
  update (set_mres n) ;; ret true.

Definition load_ctr : gcm_m Z := c <- get_ctx ;; ret (CRYPTO_load_u32_be (drop 12 (Yi c))).

(** [while (len >= GHASH_CHUNK)] and the whole blocks that are left: how many bytes
    they take, and the counter.  The loops of the four functions differ in how they
    encrypt [j] blocks and hash them, which is [step]. *)
Section whole_blocks.
Context (step : Z -> Z -> Z -> Z -> gcm_m Z).

Fixpoint chunk_loop (fuel : nat) (in_ out len ctr : Z) : gcm_m (Z * Z) :=
  if GHASH_CHUNK <=? len then
    match fuel with
    | O => out_of_fuel
    | S k =>
        ctr <- step in_ out (GHASH_CHUNK / 16) ctr ;;
        r <- chunk_loop k (in_ + GHASH_CHUNK) (out + GHASH_CHUNK) (len - GHASH_CHUNK) ctr ;;
        ret (GHASH_CHUNK + fst r, snd r)
    end
  else ret (0, ctr).
Definition whole_blocks (in_ out len ctr : Z) : gcm_m (Z * Z) :=
  r <- chunk_loop (Z.to_nat len) in_ out len ctr ;;
  let done := fst r in
  let len_blocks := Z.land (len - done) kSizeTWithoutLower4Bits in
  ctr <- (if negb (len_blocks =? 0) then step (in_ + done) (out + done) (len_blocks / 16) (snd r)
          else ret (snd r)) ;;
  ret (done + len_blocks, ctr).
End whole_blocks.

(** A call: the start, the rest of a block, whole blocks, and the last bytes. *)
Definition crypt_call (enc : bool) (key : AES_KEY) (step : Z -> Z -> Z -> Z -> gcm_m Z) (in_ out len : Z) : gcm_m bool :=
  ok <- crypt_begin len ;;
  if negb ok then ret false
  else
    h <- crypt_head enc in_ out len ;;
    match h with
    | None => ret true
    | Some done =>
        let in_ := in_ + done in let out := out + done in let len := len - done in
        ctr <- load_ctr ;;
        r <- whole_blocks step in_ out len ctr ;;
        crypt_tail enc key (in_ + fst r) (out + fst r) (len - fst r) (snd r)
    end.

Definition encrypt_step (key : AES_KEY) (in_ out j ctr : Z) : gcm_m Z :=
  ctr <- crypt_blocks (Z.to_nat j) key in_ out ctr ;; GHASH_at out (16 * j) ;; ret ctr.
Definition CRYPTO_gcm128_encrypt (key : AES_KEY) (in_ out len : Z) : gcm_m bool :=
  crypt_call true key (encrypt_step key) in_ out len.

Definition decrypt_step (key : AES_KEY) (in_ out j ctr : Z) : gcm_m Z :=
  GHASH_at in_ (16 * j) ;; crypt_blocks (Z.to_nat j) key in_ out ctr.
Definition CRYPTO_gcm128_decrypt (key : AES_KEY) (in_ out len : Z) : gcm_m bool :=
  crypt_call false key (decrypt_step key) in_ out len.

(** ** With a routine for runs of blocks *)

(** [stream(in, out, j, key, ctx->Yi); ctr += j; CRYPTO_store_u32_be(ctx->Yi + 12, ctr);] *)
Definition stream_blocks (stream : ctr128_f) (key : AES_KEY) (in_ out j ctr : Z) : gcm_m Z :=
  c <- get_ctx ;;
  data <- load_bytes in_ (16 * j) ;;
  store_bytes out (stream key (Yi c) data) ;;
  let ctr := u32 (ctr + u32 j) in
  update (set_Yi (store_ctr (Yi c) ctr)) ;;
  ret ctr.

Definition encrypt_ctr32_step (stream : ctr128_f) (key : AES_KEY) (in_ out j ctr : Z) : gcm_m Z :=
  ctr <- stream_blocks stream key in_ out j ctr ;; GHASH_at out (16 * j) ;; ret ctr.
Definition CRYPTO_gcm128_encrypt_ctr32 (stream : ctr128_f) (key : AES_KEY) (in_ out len : Z) : gcm_m bool :=
  crypt_call true key (encrypt_ctr32_step stream key) in_ out len.

Definition decrypt_ctr32_step (stream : ctr128_f) (key : AES_KEY) (in_ out j ctr : Z) : gcm_m Z :=
  GHASH_at in_ (16 * j) ;; stream_blocks stream key in_ out j ctr.
Definition CRYPTO_gcm128_decrypt_ctr32 (stream : ctr128_f) (key : AES_KEY) (in_ out len : Z) : gcm_m bool :=
  crypt_call false key (decrypt_ctr32_step stream key) in_ out len.

(** ** The tag *)

(** The tag stays in [Xi]; a null pointer is [None]. *)
Definition CRYPTO_gcm128_finish (tag : option bytes) (len : Z) : gcm_m bool :=
  c <- get_ctx ;;
  (if negb (mres c =? 0) || negb (ares c =? 0) then GCM_MUL else ret tt) ;;
  let len_block := CRYPTO_store_u64_be (u64 (Z.shiftl (len_aad c) 3)) ++
                   CRYPTO_store_u64_be (u64 (Z.shiftl (len_msg c) 3)) in
  update (fun c => set_Xi (CRYPTO_xor16 (Xi c) len_block) c) ;;
  GCM_MUL ;;
  update (fun c => set_Xi (CRYPTO_xor16 (Xi c) (EK0 c)) c) ;;
  c <- get_ctx ;;
  match tag with
  | Some t =>
      if len <=? 16 then
        x <- lift (get (Xi c) len) ;; y <- lift (get t len) ;; ret (CRYPTO_memcmp x y =? 0)
      else ret false
  | None => ret false
  end.

Definition CRYPTO_gcm128_tag (len : Z) : gcm_m bytes :=
  CRYPTO_gcm128_finish None 0 ;;
  c <- get_ctx ;;
  lift (get (Xi c) (if len <=? 16 then len else 16)).

(** The second test case of the GCM specification, the cipher given by its three values. *)
Definition test_block (_ b : bytes) : bytes :=
  be_bytes 16 (match nth 15 b 0 with
               | 0 => 0x66e94bd4ef8a2c3b884cfa59ca342b2e
               | 1 => 0x58e2fccefa7e3061367f1d57a4e7455a
               | _ => 0x0388dace60b6a392f328c2b971b2fe78
               end).
Definition test_context : GCM128_CONTEXT :=
  Gcm (zeros 16) (zeros 16) (zeros 16) 0 0 (zeros 16) (CRYPTO_gcm128_init_key [] test_block false) 0 0.
Definition test_world : world := World (alloc_range empty 1000 (Some <$> zeros 16)) empty.
Example gcm_test_case_2 :
  match (CRYPTO_gcm128_setiv [] (zeros 12) ;; CRYPTO_gcm128_encrypt [] 1000 1000 16 ;; CRYPTO_gcm128_tag 16)
          test_context test_world with
  | Ret (tag, _, w) =>
      tag = be_bytes 16 0xab6e47d42cec13bdf53a67b21257bddf /\
      load (w_mem w) 1000 16 = Some (be_bytes 16 0x0388dace60b6a392f328c2b971b2fe78)
  | _ => False
  end.
Proof. vm_compute. done. Qed.
