(* ===== verification/GcmSpec.v ===== *)
(** * Galois/counter mode is that of NIST SP 800-38D

    A context stands for the associated data and the ciphertext so far.  Every call
    continues from there, whatever the sizes of the pieces and whether the output is
    the input, and the tag is that of the standard. *)
From Stdlib Require Import ZArith Lia.
From stdpp Require Import prelude gmap list numbers.
From S2P Require Import Prelude CMem Cells Words Der Gf2 Ghash GhashSpec Gcm Aead AeadSpec.
Local Open Scope Z_scope.
Local Open Scope c_scope.

(** ** Exclusive or of strings *)

Lemma lxor_shift k a b v w :
  0 <= k -> 0 <= v < 2 ^ k -> 0 <= w < 2 ^ k -> 0 <= a -> 0 <= b ->
  Z.lxor (a * 2 ^ k + v) (b * 2 ^ k + w) = Z.lxor a b * 2 ^ k + Z.lxor v w.
Proof.
  intros Hk Hv Hw Ha Hb.
  assert (forall x u, 0 <= u < 2 ^ k -> x * 2 ^ k + u = Z.lxor u (2 ^ k * x)) as Hs.
  { intros x u Hu. rewrite <- (split_at k (x * 2 ^ k + u)) at 1 by done.
    rewrite Z.add_comm, Z.mod_add, Z.mod_small, Z.div_add, Z.div_small by lia. by rewrite Z.add_0_l. }
  pose proof (lxor_range k v w Hk Hv Hw). rewrite !Hs, mul_pow_lxor by done. xor_ac.
Qed.
Lemma zip_lxor_ok a b : bytes_ok a -> bytes_ok b -> bytes_ok (zip_with Z.lxor a b).
Proof.
  intros Ha. revert b. induction Ha as [|x a Hx Ha IH]; intros [|y b] Hb; cbn; try constructor.
  - inversion Hb; subst. unfold is_byte in *. by apply (lxor_range 8).
  - apply IH. by inversion Hb.
Qed.
Lemma be_val_lxor a b :
  bytes_ok a -> bytes_ok b -> length a = length b ->
  be_val (zip_with Z.lxor a b) = Z.lxor (be_val a) (be_val b).
Proof.
  intros Ha. revert b. induction Ha as [|x a Hx Ha IH]; intros [|y b] Hb Hl; cbn in Hl; try done.
  inversion Hb as [|? ? Hy Hb']; subst. cbn [zip_with]. rewrite !be_val_cons, IH by (done || lia).
  rewrite length_zip_with, <- (Nat.add_0_r (length a)) at 1. replace (Nat.min (length a + 0) (length b)) with (length a) by lia.
  replace (length b) with (length a) by lia.
  pose proof (be_val_bound a Ha) as Hva. pose proof (be_val_bound b Hb') as Hvb. replace (length b) with (length a) in Hvb by lia.
  unfold is_byte in *. change 256 with (2 ^ 8) in *. rewrite <- Z.pow_mul_r in * by lia.
  symmetry. apply lxor_shift; lia.
Qed.
Lemma block_of_lxor a b :
  bytes_ok a -> bytes_ok b -> length a = length b ->
  block_of (zip_with Z.lxor a b) = N.lxor (block_of a) (block_of b).
Proof.
  intros Ha Hb Hl. unfold block_of. rewrite be_val_lxor by done. apply to_N_lxor; by apply be_val_bound.
Qed.
Lemma le_val_lxor a b :
  bytes_ok a -> bytes_ok b -> length a = length b ->
  le_val (zip_with Z.lxor a b) = Z.lxor (le_val a) (le_val b).
Proof.
  intros Ha. revert b. induction Ha as [|x a Hx Ha IH]; intros [|y b] Hb Hl; cbn in Hl; try done.
  inversion Hb as [|? ? Hy Hb']; subst. cbn [zip_with le_val]. rewrite IH by (done || lia).
  pose proof (le_val_bound a Ha). pose proof (le_val_bound b Hb'). unfold is_byte in *.
  assert (forall z u, z + 256 * u = u * 2 ^ 8 + z) as Hs by lia. rewrite !Hs. symmetry. apply lxor_shift; lia.
Qed.

Lemma xor_word_ok a b :
  bytes_ok a -> bytes_ok b -> (8 <= length a)%nat -> (8 <= length b)%nat ->
  xor_word a b = zip_with Z.lxor (take 8 a) (take 8 b).
Proof.
  intros Ha Hb Hla Hlb. unfold xor_word, CRYPTO_load_u64_le.
  assert (bytes_ok (take 8 a) /\ bytes_ok (take 8 b)) as [Hta Htb] by (split; by apply Forall_take).
  rewrite <- le_val_lxor by (done || rewrite !length_take; lia).
  replace 8%nat with (length (zip_with Z.lxor (take 8 a) (take 8 b))) at 1
    by (rewrite length_zip_with, !length_take; lia).
  apply le_bytes_val. by apply zip_lxor_ok.
Qed.
Lemma zip_with_take_drop (a b : bytes) n :
  zip_with Z.lxor (take n a) (take n b) ++ zip_with Z.lxor (drop n a) (drop n b) = zip_with Z.lxor a b.
Proof.
  revert a b. induction n as [|n IH]; intros [|x a] [|y b]; cbn; try done.
  - by destruct (drop n a).
  - f_equal. apply IH.
Qed.
Lemma xor16_ok a b :
  bytes_ok a -> bytes_ok b -> length a = 16%nat -> (16 <= length b)%nat ->
  CRYPTO_xor16 a b = zip_with Z.lxor a (take 16 b).
Proof.
  intros Ha Hb Hla Hlb. unfold CRYPTO_xor16.
  rewrite !xor_word_ok by (done || (by apply Forall_drop) || rewrite ?length_drop; lia).
  rewrite <- (zip_with_take_drop a (take 16 b) 8), take_take, Nat.min_l by lia. f_equal.
  rewrite (take_ge (drop 8 a)) by (rewrite length_drop; lia). f_equal. by rewrite skipn_firstn_comm.
Qed.

(** ** The state of the hash *)

(** Zeros up to a whole number of blocks. *)
Definition padding (n : nat) : bytes := replicate ((16 - n mod 16) mod 16) 0.
Definition padded (x : bytes) : bytes := x ++ padding (length x).
Definition blocks_of (x : bytes) : list N := block_of <$> chunks 16 (length x / 16) x.

(** [y] with the bytes of an incomplete block added. *)
Definition mixed (y : N) (buf : bytes) : bytes :=
  zip_with Z.lxor (block_bytes y) (buf ++ replicate (16 - length buf) 0).

Lemma zip_lxor_zeros (a : bytes) n : (length a <= n)%nat -> zip_with Z.lxor a (replicate n 0) = a.
Proof.
  revert n. induction a as [|x a IH]; intros [|n] Hl; cbn in *; try done; [lia|].
  rewrite Z.lxor_0_r. f_equal. apply IH. lia.
Qed.
Lemma mixed_nil y : mixed y [] = block_bytes y.
Proof. unfold mixed. apply zip_lxor_zeros. by rewrite length_block_bytes. Qed.
Lemma length_mixed y buf : (length buf <= 16)%nat -> length (mixed y buf) = 16%nat.
Proof.
  intros. unfold mixed. rewrite length_zip_with, length_block_bytes, length_app, length_replicate. lia.
Qed.
Lemma replicate_zero_ok n : bytes_ok (replicate n 0).
Proof. by apply Forall_replicate. Qed.
Lemma mixed_ok y buf : bytes_ok buf -> bytes_ok (mixed y buf).
Proof. intros. apply zip_lxor_ok; [apply block_bytes_ok|]. apply Forall_app. split; [done|apply replicate_zero_ok]. Qed.
Lemma block_of_mixed y buf :
  in_field y -> bytes_ok buf -> (length buf <= 16)%nat ->
  block_of (mixed y buf) = N.lxor y (block_of (buf ++ replicate (16 - length buf) 0)).
Proof.
  intros Hy Hb Hl. unfold mixed. rewrite block_of_lxor, block_of_bytes; [done|done|apply block_bytes_ok| |].
  - apply Forall_app. split; [done|apply replicate_zero_ok].
  - rewrite length_block_bytes, length_app, length_replicate. lia.
Qed.

(** [ctx->Xi[n] ^= b] *)
Lemma mixed_byte y buf b :
  (length buf < 16)%nat ->
  exists x, mixed y buf !! length buf = Some x /\
    <[length buf := Z.lxor x b]> (mixed y buf) = mixed y (buf ++ [b]).
Proof.
  intros Hl. unfold mixed. pose proof (length_block_bytes y) as Hy.
  destruct (lookup_lt_is_Some_2 (block_bytes y) (length buf)) as [v Hv]; [lia|].
  rewrite <- (take_drop_middle _ _ _ Hv). set (y1 := take _ _). set (y2 := drop _ _).
  assert (length y1 = length buf) as Hy1 by (unfold y1; rewrite length_take; lia).
  replace (16 - length buf)%nat with (S (16 - length (buf ++ [b])))%nat by (rewrite length_app; cbn [length]; lia).
  cbn [replicate]. rewrite <- app_assoc. cbn [app].
  rewrite !zip_with_app by done. cbn [zip_with].
  assert (length (zip_with Z.lxor y1 buf) = length buf) as Hz by (rewrite length_zip_with; lia).
  exists (Z.lxor v 0). rewrite <- !Hz. rewrite list_lookup_middle by done. split; [done|].
  rewrite insert_app_r_alt by lia. rewrite Nat.sub_diag. cbn. by rewrite Z.lxor_0_r.
Qed.

Lemma div_parts q r n : (r < 16)%nat -> n = (16 * q + r)%nat -> (n / 16 = q /\ n mod 16 = r)%nat.
Proof.
  intros Hr ->. rewrite (Nat.mul_comm 16), Nat.div_add_l, (Nat.div_small r) by lia. split; [lia|].
  rewrite Nat.add_comm, Nat.Div0.mod_add. by apply Nat.mod_small.
Qed.

(** What is left of a string after its whole blocks. *)
Definition pending (T : bytes) : bytes := drop (16 * (length T / 16)) T.
(** Every string is whole blocks and a rest. *)
Lemma split_rest (T : bytes) :
  exists (T1 r : bytes) q, T = T1 ++ r /\ length T1 = (16 * q)%nat /\ (length r < 16)%nat.
Proof.
  exists (take (16 * (length T / 16)) T), (drop (16 * (length T / 16)) T), (length T / 16)%nat.
  pose proof (Nat.div_mod_eq (length T) 16). pose proof (Nat.mod_upper_bound (length T) 16 ltac:(lia)).
  rewrite take_drop, length_take, length_drop. split; [done|lia].
Qed.
Lemma pending_length T : length (pending T) = (length T mod 16)%nat /\ (length T mod 16 < 16)%nat.
Proof.
  pose proof (Nat.div_mod_eq (length T) 16). pose proof (Nat.mod_upper_bound (length T) 16 ltac:(lia)).
  unfold pending. rewrite length_drop. lia.
Qed.
Lemma pending_blocks T cp j : pending T = [] -> length cp = (16 * j)%nat -> pending (T ++ cp) = [].
Proof.
  intros Hn Hl. destruct (pending_length T) as [HT _], (pending_length (T ++ cp)) as [HT2 _]. rewrite Hn in HT.
  rewrite length_app, Nat.Div0.add_mod, <- HT, Hl, (Nat.mul_comm 16), Nat.Div0.mod_mul in HT2.
  by destruct (pending (T ++ cp)).
Qed.

(** GHASH of a string of whole blocks. *)
Definition ghash_bytes (key x : bytes) : bytes := block_bytes (ghash (block_of key) (blocks_of x)).
Lemma pending_padded A : pending (padded A) = [] /\ (length (padded A) mod 16 = 0)%nat.
Proof.
  destruct (pending_length (padded A)) as [Hl _]. assert (length (padded A) mod 16 = 0)%nat as Hz.
  { unfold padded, padding. rewrite length_app, length_replicate.
    pose proof (Nat.div_mod_eq (length A) 16) as E. pose proof (Nat.mod_upper_bound (length A) 16 ltac:(lia)).
    set (n := (length A mod 16)%nat) in *. destruct (decide (n = 0)%nat) as [->|].
    - change ((16 - 0) mod 16)%nat with 0%nat. apply (div_parts (length A / 16) 0); lia.
    - rewrite (Nat.mod_small (16 - n)) by lia. apply (div_parts (length A / 16 + 1) 0); lia. }
  rewrite Hz in Hl. split; [by destruct (pending (padded A))|done].
Qed.
Lemma padded_ok A : bytes_ok A -> bytes_ok (padded A).
Proof. intros. apply Forall_app. split; [done|apply replicate_zero_ok]. Qed.

Lemma padded_app A C : padded (padded A ++ C) = padded A ++ padded C.
Proof.
  destruct (pending_padded A) as [_ Hz]. unfold padded at 1 3. rewrite <- app_assoc. do 2 f_equal. unfold padding.
  do 2 f_equal. rewrite length_app, Nat.Div0.add_mod, Hz, Nat.add_0_l, Nat.Div0.mod_mod. done.
Qed.


Section hash.
Context (key : bytes).
#[local] Abbreviation h := (block_of key).

(** The blocks so far. *)
Definition hashed (T : bytes) : N := ghash h (blocks_of T).
Definition hash_state (T : bytes) : bytes := mixed (hashed T) (pending T).

Lemma parts (T1 r : bytes) q :
  length T1 = (16 * q)%nat -> (length r < 16)%nat ->
  hashed (T1 ++ r) = ghash h (block_of <$> chunks 16 q T1) /\ pending (T1 ++ r) = r /\
  (length (T1 ++ r) mod 16 = length r)%nat.
Proof.
  intros Hl Hr. destruct (div_parts q (length r) (length (T1 ++ r)) Hr) as [Hd Hm]; [rewrite length_app; lia|].
  unfold hashed, pending, blocks_of. rewrite Hd, Hm. split; [|split; [|done]].
  - rewrite <- (chunks_take 16 q (16 * q) (T1 ++ r)) by lia. by rewrite take_app_length' by done.
  - by rewrite drop_app_length' by done.
Qed.
Lemma hash_short T d :
  (length (pending T) + length d < 16)%nat ->
  hashed (T ++ d) = hashed T /\ pending (T ++ d) = pending T ++ d.
Proof.
  destruct (split_rest T) as (T1 & r & q & -> & H1 & Hr). destruct (parts T1 r q H1 Hr) as (E1 & E2 & _).
  rewrite E2. intros Hl. rewrite <- app_assoc. destruct (parts T1 (r ++ d) q H1) as (E3 & E4 & _);
    [rewrite length_app; lia|]. by rewrite E1, E3, E4.
Qed.
Lemma hash_full T d :
  length (pending T ++ d) = 16%nat ->
  hashed (T ++ d) = block_mul (N.lxor (hashed T) (block_of (pending T ++ d))) h /\ pending (T ++ d) = [].
Proof.
  destruct (split_rest T) as (T1 & r & q & -> & H1 & Hr). destruct (parts T1 r q H1 Hr) as (E1 & E2 & _).
  rewrite E1, E2. intros Hl. rewrite <- app_assoc.
  destruct (parts (T1 ++ r ++ d) [] (q + 1)) as (E3 & E4 & _); [rewrite length_app; lia|cbn; lia|].
  rewrite app_nil_r in E3, E4. rewrite E3, E4, chunks_app by done. split; [|done].
  cbn [chunks]. rewrite take_ge by lia. rewrite fmap_app. unfold ghash, ghash_from. by rewrite foldl_app.
Qed.
Lemma hash_blocks T d k :
  pending T = [] -> length d = (16 * k)%nat ->
  hashed (T ++ d) = ghash_from h (hashed T) (block_of <$> chunks 16 k d) /\ pending (T ++ d) = [].
Proof.
  destruct (split_rest T) as (T1 & r & q & -> & H1 & Hr). destruct (parts T1 r q H1 Hr) as (E1 & E2 & _).
  rewrite E1, E2. intros -> Hl. rewrite app_nil_r.
  destruct (parts (T1 ++ d) [] (q + k)) as (E3 & E4 & _); [rewrite length_app; lia|cbn; lia|].
  rewrite app_nil_r in E3, E4. rewrite E3, E4, chunks_app by done. split; [|done].
  rewrite fmap_app. unfold ghash, ghash_from. by rewrite foldl_app.
Qed.

Lemma hash_state_nil : hash_state [] = zeros 16.
Proof. by vm_compute. Qed.
Lemma pending_ok T : bytes_ok T -> bytes_ok (pending T).
Proof. apply Forall_drop. Qed.
Lemma hash_state_ok T : bytes_ok T -> bytes_ok (hash_state T) /\ length (hash_state T) = 16%nat.
Proof.
  intros HT. destruct (pending_length T). split; [by apply mixed_ok, pending_ok|apply length_mixed; lia].
Qed.

Lemma padded_whole T : pending T = [] -> padded T = T.
Proof.
  intros Hn. destruct (pending_length T) as [Hl _]. rewrite Hn in Hl. cbn [length] in Hl.
  unfold padded, padding. rewrite <- Hl. apply app_nil_r.
Qed.
Lemma xor16_state T b :
  bytes_ok T -> pending T = [] -> bytes_ok b -> (16 <= length b)%nat ->
  CRYPTO_xor16 (hash_state T) b = mixed (hashed T) (take 16 b).
Proof.
  intros HT Hn Hb Hl. unfold hash_state. rewrite Hn, mixed_nil.
  rewrite xor16_ok by (apply block_bytes_ok || apply length_block_bytes || done).
  unfold mixed. rewrite length_take, Nat.min_l by lia. by rewrite app_nil_r.
Qed.

Lemma hash_state_whole T : pending T = [] -> hash_state T = ghash_bytes key T.
Proof. intros Hn. unfold hash_state, ghash_bytes. by rewrite Hn, mixed_nil. Qed.


Section table.
Context (key_ok : bytes_ok key) (key_length : length key = 16%nat).
Lemma h_field : in_field h.
Proof. apply block_of_field; [done|lia]. Qed.
Lemma ghash_field blocks y : in_field y -> in_field (ghash_from h y blocks).
Proof.
  revert y. induction blocks as [|x blocks IH]; intros y Hy; [done|].
  unfold ghash_from. cbn [foldl]. apply IH, block_mul_field, h_field.
Qed.
Lemma hashed_field T : in_field (hashed T).
Proof. by apply ghash_field. Qed.

Context (table : list u128) (table_ok : key_table table key).

(** A multiplication ends a block. *)
Lemma mul_block T d :
  bytes_ok T -> bytes_ok d -> length (pending T ++ d) = 16%nat ->
  gcm_gmult_nohw (mixed (hashed T) (pending T ++ d)) table = Ret (hash_state (T ++ d)).
Proof.
  intros HT Hd Hl. assert (bytes_ok (pending T ++ d)) as Hb by (apply Forall_app; split; [by apply pending_ok|done]).
  rewrite (gmult_ok _ _ key) by (done || (by apply mixed_ok) || apply length_mixed; lia).
  rewrite block_of_mixed by (apply hashed_field || done || lia).
  rewrite Hl. cbn [Nat.sub replicate]. rewrite app_nil_r.
  destruct (hash_full T d Hl) as [E1 E2]. unfold hash_state. by rewrite E1, E2, mixed_nil.
Qed.
Lemma mul_padded T :
  bytes_ok T -> pending T <> [] -> gcm_gmult_nohw (hash_state T) table = Ret (hash_state (padded T)).
Proof.
  intros HT Hn. destruct (pending_length T) as [Hl Hlt].
  assert (0 < length T mod 16)%nat by (rewrite <- Hl; destruct (pending T); [done|cbn; lia]).
  assert (length (padding (length T)) = 16 - length T mod 16)%nat as Hp.
  { unfold padding. rewrite length_replicate, Nat.mod_small; lia. }
  unfold padded. rewrite <- mul_block; [|done|apply replicate_zero_ok|rewrite length_app; lia].
  f_equal. unfold hash_state, mixed. f_equal. rewrite <- app_assoc. f_equal.
  rewrite length_app, Hl, Hp. unfold padding. rewrite <- replicate_add. f_equal. rewrite (Nat.mod_small (16 - _)) by lia. lia.
Qed.
Lemma ghash_blocks_run T d k :
  bytes_ok T -> bytes_ok d -> pending T = [] -> length d = (16 * k)%nat ->
  gcm_ghash_nohw (hash_state T) table d = Ret (hash_state (T ++ d)).
Proof.
  intros HT Hd Hn Hl. destruct (hash_state_ok T HT). rewrite (ghash_ok _ _ key k) by done.
  destruct (hash_blocks T d k Hn Hl) as [E1 E2]. unfold hash_state. rewrite Hn, E1, E2, !mixed_nil.
  by rewrite block_of_bytes by apply hashed_field.
Qed.
End table.
End hash.

(** ** Ranges of memory that are read and written *)

(** The input [d], and an output that is the input or apart from it. *)
Definition ready (m : mem) (in_ out : Z) (d : bytes) : Prop :=
  stored m in_ d /\ writable m out (Z.of_nat (length d)) /\
  (in_ = out \/ apart in_ (Z.of_nat (length d)) out (Z.of_nat (length d))).
Definition wrote (m m' : mem) (out : Z) (c : bytes) : Prop :=
  stored m' out c /\ only m m' out (Z.of_nat (length c)) /\ dom m' = dom m.

Lemma wrote_nil m out : wrote m m out [].
Proof. by split_and!. Qed.
Lemma wrote_app m1 m2 m3 out c1 c2 :
  wrote m1 m2 out c1 -> wrote m2 m3 (out + Z.of_nat (length c1)) c2 -> wrote m1 m3 out (c1 ++ c2).
Proof.
  intros (S1 & O1 & D1) (S2 & O2 & D2). split; [|split; [|congruence]].
  - apply stored_app. split; [|done]. eapply stored_other; [exact O2| |exact S1]. unfold apart. lia.
  - rewrite length_app, Nat2Z.inj_add. eapply only_within; [exact O1|exact O2|lia..].
Qed.
Lemma ready_take m in_ out d1 d2 : ready m in_ out (d1 ++ d2) -> ready m in_ out d1.
Proof.
  unfold ready. rewrite length_app, Nat2Z.inj_add. intros (Hs & Hw & Ha). apply stored_app in Hs as [Hs _].
  split; [done|]. split; [eapply writable_sub; [exact Hw|lia..]|]. unfold apart in *. lia.
Qed.
Lemma ready_drop m m' in_ out d1 d2 c1 :
  ready m in_ out (d1 ++ d2) -> wrote m m' out c1 -> length c1 = length d1 ->
  ready m' (in_ + Z.of_nat (length d1)) (out + Z.of_nat (length d1)) d2.
Proof.
  unfold ready. rewrite length_app, Nat2Z.inj_add. intros (Hs & Hw & Ha) (_ & Ho & Hd) Hl.
  apply stored_app in Hs as [_ Hs]. split; [|split].
  - eapply stored_other; [exact Ho| |exact Hs]. unfold apart in *. lia.
  - eapply writable_other; [exact Hd|]. eapply writable_sub; [exact Hw|lia..].
  - unfold apart in *. lia.
Qed.
Lemma ready_nil m in_ out : ready m in_ out [].
Proof. split; [done|]. split; [intros i Hi; cbn in Hi; lia|]. unfold apart. cbn. lia. Qed.
Lemma store_wrote {S} m in_ out d c (s : S) w :
  w_mem w = m -> ready m in_ out d -> length c = length d ->
  exists m', store_bytes out c s w = Ret (tt, s, set_mem m' w) /\ wrote m m' out c.
Proof.
  intros <- (_ & Hw & _) Hl. rewrite <- Hl in Hw. destruct (store_stored out c s w Hw) as (m' & E & Hs & Ho & Hd).
  by exists m'.
Qed.
Lemma set_mem_twice m m' w : set_mem m (set_mem m' w) = set_mem m w.
Proof. done. Qed.

(** ** One byte *)

Lemma crypt_byte_run enc in_ out n b k x ctx w :
  EKi ctx !! n = Some k -> Xi ctx !! n = Some x -> ready (w_mem w) in_ out [b] ->
  exists m', crypt_byte enc in_ out (Z.of_nat n) ctx w =
    Ret (tt, set_Xi (<[n := Z.lxor x (if enc then Z.lxor b k else b)]> (Xi ctx)) ctx, set_mem m' w) /\
    wrote (w_mem w) m' out [Z.lxor b k].
Proof.
  intros Hk Hx Hr. pose proof Hr as (Hs & _).
  destruct (store_wrote _ in_ out [b] [Z.lxor b k] ctx w eq_refl Hr eq_refl) as (m' & E & Hw). exists m'. split; [|done].
  unfold crypt_byte. rewrite (bind_ret_run (load_u 1 in_) _ ctx w b ctx w)
    by (rewrite (load_u_run 1 in_ [b]) by exact Hs; cbn; by rewrite Z.add_0_r).
  unfold get_ctx. rewrite (bind_ret_run get_stream _ ctx w ctx ctx w) by done.
  rewrite (bind_ret_run (of_option _) _ ctx w k ctx w) by (by rewrite Nat2Z.id, Hk).
  destruct enc; rewrite (bind_ret_run (store_bytes _ _) _ _ _ _ _ _ E); unfold mix, update, get_ctx;
    (rewrite (bind_ret_run get_stream _ ctx _ ctx ctx (set_mem m' w)) by done);
    rewrite Nat2Z.id, Hx; done.
Qed.

(** The bytes of one block of the key stream. *)
Definition cipher_part (enc : bool) (d c : bytes) : bytes := if enc then c else d.

Lemma cipher_part_cons enc buf b k d c :
  (buf ++ cipher_part enc [b] [k]) ++ cipher_part enc d c = buf ++ cipher_part enc (b :: d) (k :: c).
Proof. rewrite <- app_assoc. by destruct enc. Qed.
Lemma zip_cons_drop b d n (ek : bytes) k :
  ek !! n = Some k -> zip_with Z.lxor (b :: d) (drop n ek) = Z.lxor b k :: zip_with Z.lxor d (drop (S n) ek).
Proof. intros Hk. by rewrite (drop_S _ _ _ Hk). Qed.

Lemma one_byte enc in_ out n b d y buf ctx w :
  Xi ctx = mixed y buf -> length buf = n -> (n < 16)%nat -> length (EKi ctx) = 16%nat ->
  ready (w_mem w) in_ out (b :: d) ->
  exists k m', EKi ctx !! n = Some k /\
    crypt_byte enc in_ out (Z.of_nat n) ctx w =
    Ret (tt, set_Xi (mixed y (buf ++ cipher_part enc [b] [Z.lxor b k])) ctx, set_mem m' w) /\
    wrote (w_mem w) m' out [Z.lxor b k] /\ ready m' (in_ + 1) (out + 1) d.
Proof.
  intros HX Hb Hn He Hr. destruct (lookup_lt_is_Some_2 (EKi ctx) n) as [k Hk]; [lia|].
  destruct (mixed_byte y buf (if enc then Z.lxor b k else b)) as (x & Hx & Hi); [lia|]. rewrite Hb in Hx, Hi.
  destruct (crypt_byte_run enc in_ out n b k x ctx w Hk) as (m' & E & Hw);
    [by rewrite HX|exact (ready_take _ _ _ [b] d Hr)|].
  exists k, m'. split; [done|]. split.
  - rewrite E, HX, Hi. by destruct enc.
  - split; [done|]. exact (ready_drop _ _ _ _ [b] d _ Hr Hw eq_refl).
Qed.

Lemma head_loop_run enc d in_ out n y buf ctx w :
  Xi ctx = mixed y buf -> length buf = n -> (0 < n < 16)%nat -> length (EKi ctx) = 16%nat ->
  ready (w_mem w) in_ out d ->
  let t := Nat.min (length d) (16 - n) in
  let c := zip_with Z.lxor (take t d) (drop n (EKi ctx)) in
  exists m', head_loop enc (length d) in_ out (Z.of_nat n) ctx w =
    Ret (((length d - t)%nat, Z.of_nat ((n + t) mod 16)),
         set_Xi (mixed y (buf ++ cipher_part enc (take t d) c)) ctx, set_mem m' w) /\
    wrote (w_mem w) m' out c.
Proof.
  revert in_ out n buf ctx w. induction d as [|b d IH]; intros in_ out n buf ctx w HX Hb Hn He Hr; cbn zeta.
  { exists (w_mem w). cbn [length Nat.min take zip_with head_loop]. split; [|apply wrote_nil].
    rewrite Nat.add_0_r, Nat.mod_small by lia.
    replace (cipher_part enc [] []) with (@nil Z) by (by destruct enc). rewrite app_nil_r, <- HX.
    by destruct ctx, w. }
  cbn [length head_loop]. rewrite (proj2 (Z.eqb_neq (Z.of_nat n) 0)) by lia.
  destruct (one_byte enc in_ out n b d y buf ctx w) as (k & m' & Hk & E & Hw & Hr'); [done|done|lia|done|done|].
  rewrite (bind_ret_run _ _ _ _ _ _ _ E).
  assert ((Z.of_nat n + 1) mod 16 = Z.of_nat ((n + 1) mod 16)) as -> by (rewrite Nat2Z.inj_mod, Nat2Z.inj_add; done).
  set (buf' := buf ++ cipher_part enc [b] [Z.lxor b k]). set (ctx' := set_Xi (mixed y buf') ctx).
  assert (length buf' = n + 1)%nat as Hb' by (unfold buf'; rewrite length_app; destruct enc; cbn; lia).
  destruct (decide (n + 1 = 16)%nat) as [H16|H16].
  - rewrite H16. assert (Nat.min (S (length d)) (16 - n) = 1)%nat as -> by lia.
    exists m'. cbn [take]. rewrite (zip_cons_drop _ _ _ _ _ Hk). cbn [zip_with]. rewrite H16.
    split; [|done]. destruct d; cbn [head_loop length]; [done|]. by rewrite Nat.sub_1_r.
  - rewrite (Nat.mod_small (n + 1)) by lia.
    destruct (IH (in_ + 1) (out + 1) (n + 1)%nat buf' ctx' (set_mem m' w)) as (m2 & E2 & Hw2); [done|done|lia|done|done|].
    exists m2. rewrite E2. assert (Nat.min (S (length d)) (16 - n) = S (Nat.min (length d) (16 - (n + 1)))) as -> by lia.
    cbn [take]. rewrite (zip_cons_drop _ _ _ _ _ Hk). rewrite Nat.add_1_r in *. split.
    + rewrite set_mem_twice, Nat.add_succ_comm. unfold buf'. by rewrite cipher_part_cons.
    + exact (wrote_app _ _ _ _ [_] _ Hw Hw2).
Qed.

Lemma tail_loop_run enc d in_ out n y buf ctx w :
  Xi ctx = mixed y buf -> length buf = n -> (n + length d <= 16)%nat -> length (EKi ctx) = 16%nat ->
  ready (w_mem w) (in_ + Z.of_nat n) (out + Z.of_nat n) d ->
  let c := zip_with Z.lxor d (drop n (EKi ctx)) in
  exists m', tail_loop enc (length d) in_ out (Z.of_nat n) ctx w =
    Ret (Z.of_nat (n + length d), set_Xi (mixed y (buf ++ cipher_part enc d c)) ctx, set_mem m' w) /\
    wrote (w_mem w) m' (out + Z.of_nat n) c.
Proof.
  revert n buf ctx w. induction d as [|b d IH]; intros n buf ctx w HX Hb Hn He Hr; cbn zeta.
  { exists (w_mem w). cbn [length zip_with tail_loop]. split; [|apply wrote_nil]. rewrite Nat.add_0_r.
    replace (cipher_part enc [] []) with (@nil Z) by (by destruct enc). rewrite app_nil_r, <- HX. by destruct ctx, w. }
  cbn [length tail_loop] in *.
  destruct (one_byte enc (in_ + Z.of_nat n) (out + Z.of_nat n) n b d y buf ctx w) as (k & m' & Hk & E & Hw & Hr');
    [done|done|lia|done|done|].
  rewrite (bind_ret_run _ _ _ _ _ _ _ E). rewrite (zip_cons_drop _ _ _ _ _ Hk).
  set (buf' := buf ++ cipher_part enc [b] [Z.lxor b k]). set (ctx' := set_Xi (mixed y buf') ctx).
  assert (length buf' = S n)%nat as Hb' by (unfold buf'; rewrite length_app; destruct enc; cbn; lia).
  replace (Z.of_nat n + 1) with (Z.of_nat (S n)) by lia. rewrite <- !Z.add_assoc in Hr'.
  replace (Z.of_nat n + 1) with (Z.of_nat (S n)) in Hr' by lia.
  destruct (IH (S n) buf' ctx' (set_mem m' w)) as (m2 & E2 & Hw2); [done|done|lia|done|done|].
  exists m2. rewrite E2, set_mem_twice. split.
  - rewrite Nat.add_succ_comm. unfold buf'. by rewrite cipher_part_cons.
  - eapply (wrote_app _ _ _ _ [_] _ Hw). cbn [length]. rewrite <- Z.add_assoc.
    replace (Z.of_nat n + Z.of_nat 1) with (Z.of_nat (S n)) by lia. exact Hw2.
Qed.

(** [CRYPTO_xor16], when the output may be the first input. *)
Lemma xor_word_at_run out a d b ctx w :
  ready (w_mem w) a out d -> length d = 8%nat -> bytes_ok d -> bytes_ok b -> (8 <= length b)%nat ->
  load_bytes a 8 (ctx : GCM128_CONTEXT) w = Ret (d, ctx, w) /\
  exists m', store_bytes out (xor_word d b) ctx w = Ret (tt, ctx, set_mem m' w) /\
    wrote (w_mem w) m' out (zip_with Z.lxor d (take 8 b)).
Proof.
  intros Hr Hl Hd Hb Hlb. split.
  - replace 8 with (Z.of_nat (length d)) by lia. apply (load_stored (w_mem w)); [done|apply Hr].
  - rewrite xor_word_ok, (take_ge d) by (done || lia).
    apply (store_wrote _ a out d _ ctx w eq_refl Hr). rewrite length_zip_with, length_take. lia.
Qed.
Lemma xor16_at_run out a d b ctx w :
  ready (w_mem w) a out d -> length d = 16%nat -> bytes_ok d -> bytes_ok b -> length b = 16%nat ->
  exists m', xor16_at out a b (ctx : GCM128_CONTEXT) w = Ret (tt, ctx, set_mem m' w) /\
    wrote (w_mem w) m' out (zip_with Z.lxor d b).
Proof.
  intros Hr Hl Hd Hb Hlb. rewrite <- (take_drop 8 d) in Hr.
  assert (length (take 8 d) = 8%nat) as Hl1 by (rewrite length_take; lia).
  destruct (xor_word_at_run out a (take 8 d) b ctx w) as (L1 & m1 & E1 & W1);
    [exact (ready_take _ _ _ _ _ Hr)|done|by apply Forall_take|done|lia|].
  assert (length (zip_with Z.lxor (take 8 d) (take 8 b)) = 8%nat) as Hz by (rewrite length_zip_with, !length_take; lia).
  pose proof (ready_drop _ _ _ _ _ _ _ Hr W1 ltac:(lia)) as Hr2. rewrite Hl1 in Hr2.
  destruct (xor_word_at_run (out + 8) (a + 8) (drop 8 d) (drop 8 b) ctx (set_mem m1 w)) as (L2 & m2 & E2 & W2);
    [exact Hr2|rewrite length_drop; lia|by apply Forall_drop|by apply Forall_drop|rewrite length_drop; lia|].
  exists m2. split.
  - unfold xor16_at. rewrite (bind_ret_run _ _ _ _ _ _ _ L1), (bind_ret_run _ _ _ _ _ _ _ E1).
    by rewrite (bind_ret_run _ _ _ _ _ _ _ L2), E2.
  - rewrite <- (zip_with_take_drop d b 8). eapply wrote_app; [exact W1|]. rewrite Hz.
    by rewrite (take_ge (drop 8 b)) in W2 by (rewrite length_drop; lia).
Qed.

(** ** The key stream *)

Section key_stream.
Context (E : bytes -> bytes).

(** The counter block [i] steps of inc32 after [cb]: the last four bytes are a counter
    modulo 2^32. *)
Definition counter_block (cb : bytes) (i : nat) : bytes :=
  take 12 cb ++ be_bytes 4 (be_val (drop 12 cb) + Z.of_nat i).
(** Byte [j] of the key stream, and GCTR on data that begin there. *)
Definition key_byte (cb : bytes) (j : nat) : Z := nth (j mod 16) (E (counter_block cb (j / 16))) 0.
Definition gctr_at (cb : bytes) (p : nat) (d : bytes) : bytes :=
  zip_with Z.lxor d (map (key_byte cb) (seq p (length d))).
Definition gctr (cb d : bytes) : bytes := gctr_at cb 0 d.

Lemma length_gctr cb p d : length (gctr_at cb p d) = length d.
Proof. unfold gctr_at. rewrite length_zip_with, length_map, length_seq. lia. Qed.
Lemma gctr_app cb p d1 d2 : gctr_at cb p (d1 ++ d2) = gctr_at cb p d1 ++ gctr_at cb (p + length d1) d2.
Proof.
  unfold gctr_at. rewrite length_app, seq_app, map_app, zip_with_app; [done|]. by rewrite length_map, length_seq.
Qed.
Lemma gctr_twice cb p d : gctr_at cb p (gctr_at cb p d) = d.
Proof.
  unfold gctr_at at 1. rewrite length_gctr. unfold gctr_at.
  assert (forall d k, length k = length d -> zip_with Z.lxor (zip_with Z.lxor d k) k = d) as H.
  { induction d0 as [|x d0 IH]; intros [|y k] Hl; cbn in *; try done.
    rewrite Z.lxor_assoc, Z.lxor_nilpotent, Z.lxor_0_r, IH by lia. done. }
  apply H. by rewrite length_map, length_seq.
Qed.

Lemma counter_block_length cb i : length cb = 16%nat -> length (counter_block cb i) = 16%nat.
Proof. intros. unfold counter_block. rewrite length_app, length_take, length_be_bytes. lia. Qed.
Lemma counter_block_ok cb i : bytes_ok cb -> bytes_ok (counter_block cb i).
Proof. intros. apply Forall_app. split; [by apply Forall_take|apply be_bytes_ok]. Qed.
Lemma counter_block_0 cb : bytes_ok cb -> length cb = 16%nat -> counter_block cb 0 = cb.
Proof.
  intros Ho Hl. unfold counter_block. rewrite Z.add_0_r. pose proof (be_bytes_val (drop 12 cb)) as E4.
  rewrite length_drop, Hl in E4. change (16 - 12)%nat with 4%nat in E4. rewrite E4 by (by apply Forall_drop). apply take_drop.
Qed.
Lemma counter_block_add cb i j :
  length cb = 16%nat -> counter_block (counter_block cb i) j = counter_block cb (i + j).
Proof.
  intros Hl. assert (length (take 12 cb) = 12%nat) as H12 by (rewrite length_take; lia). unfold counter_block at 1.
  unfold counter_block at 1 2. rewrite take_app_length', drop_app_length' by done.
  unfold counter_block. f_equal. rewrite be_val_bytes, <- be_bytes_mod, Zplus_mod_idemp_l, be_bytes_mod. f_equal. lia.
Qed.
Lemma key_byte_shift cb q j :
  length cb = 16%nat -> key_byte (counter_block cb q) j = key_byte cb (16 * q + j).
Proof.
  intros Hl. unfold key_byte. rewrite counter_block_add by done.
  rewrite (Nat.add_comm (16 * q)), (Nat.mul_comm 16), Nat.Div0.mod_add, Nat.div_add, Nat.add_comm by lia. done.
Qed.
Lemma gctr_shift cb q p d :
  length cb = 16%nat -> gctr_at (counter_block cb q) p d = gctr_at cb (16 * q + p) d.
Proof.
  intros Hl. unfold gctr_at. f_equal. rewrite <- (fmap_add_seq (16 * q) p). etrans; [|symmetry; apply map_map].
  apply map_ext. intros j. by rewrite key_byte_shift by done.
Qed.
End key_stream.

(** ** A call on data *)

Lemma bind_assoc {S A B C} (m : M S A) (f : A -> M S B) (g : B -> M S C) s w :
  bind (bind m f) g s w = bind m (fun x => bind (f x) g) s w.
Proof. unfold bind. by destruct (m s w) as [[[x s1] w1]| |]. Qed.

(** What is asked of a block cipher. *)
Definition block_cipher (E : bytes -> bytes) : Prop :=
  forall b, bytes_ok b -> length b = 16%nat -> bytes_ok (E b) /\ length (E b) = 16%nat.

(** What the calls on data leave alone. *)
Definition untouched (c c' : GCM128_CONTEXT) : Prop :=
  EK0 c' = EK0 c /\ len_aad c' = len_aad c /\ len_msg c' = len_msg c /\ gcm_key c' = gcm_key c /\ ares c' = ares c.
Lemma frame_more c1 c2 c3 : untouched c1 c2 -> untouched c2 c3 -> untouched c1 c3.
Proof. unfold untouched. intros. destruct_and!. split_and!; congruence. Qed.
Lemma frame_key c1 c2 k : untouched c1 c2 -> gcm_key c1 = k -> gcm_key c2 = k.
Proof. intros (_ & _ & _ & Hk & _) <-. exact Hk. Qed.

Lemma store_bits n : CRYPTO_store_u64_be (u64 (Z.shiftl n 3)) = be_bytes 8 (8 * n).
Proof.
  unfold CRYPTO_store_u64_be, u64, wrap. rewrite Z.shiftl_mul_pow2 by lia.
  change (2 ^ 64) with (256 ^ Z.of_nat 8). rewrite be_bytes_mod. f_equal. lia.
Qed.

(** A length over the limit is noticed, also if the sum wraps around. *)
Lemma over_limit limit a n :
  0 <= a <= limit -> limit < 2 ^ 63 -> 0 <= n < 2 ^ 64 -> limit < a + n ->
  (limit <? u64 (a + n)) || (u64 (a + n) <? n) = true.
Proof.
  intros Ha Hl Hn Hlim. unfold u64, wrap. destruct (Z_lt_dec (a + n) (2 ^ 64)).
  - rewrite Z.mod_small by lia. by rewrite (proj2 (Z.ltb_lt _ _)) by lia.
  - rewrite (Z.mod_eq _ (2 ^ 64)) by lia. replace ((a + n) / 2 ^ 64) with 1 by (Z.div_mod_to_equations; lia).
    rewrite (proj2 (Z.ltb_lt _ n)) by lia. apply orb_true_r.
Qed.

Lemma crypt_begin_limit len ctx w :
  0 <= len < 2 ^ 64 -> 0 <= len_msg ctx <= 2 ^ 36 - 32 -> 2 ^ 36 - 32 < len_msg ctx + len ->
  crypt_begin len ctx w = Ret (false, ctx, w).
Proof.
  intros Hl Hm Hlim. unfold crypt_begin, get_ctx. rewrite (bind_ret_run get_stream _ ctx w ctx ctx w) by done. cbn zeta.
  by rewrite over_limit by lia.
Qed.

Section data.
Context (block : block128_f) (key : AES_KEY) (gk : GCM128_KEY).
Context (E_ok : block_cipher (block key)) (gk_block : key_block gk = block).
#[local] Abbreviation E := (block key).
#[local] Abbreviation H := (E (zeros 16)).
Context (gk_table : key_table (Htable gk) H).
(** The first counter block of the data. *)
Context (cb : bytes) (cb_ok : bytes_ok cb) (cb_length : length cb = 16%nat).

Lemma H_ok : bytes_ok H /\ length H = 16%nat.
Proof. apply E_ok; [apply (replicate_zero_ok 16)|done]. Qed.
Lemma stream_block_ok i : bytes_ok (E (counter_block cb i)) /\ length (E (counter_block cb i)) = 16%nat.
Proof. apply E_ok; [by apply counter_block_ok|by apply counter_block_length]. Qed.

Lemma gctr_block q n d :
  (n + length d <= 16)%nat -> gctr_at E cb (16 * q + n) d = zip_with Z.lxor d (drop n (E (counter_block cb q))).
Proof.
  destruct (stream_block_ok q) as [_ Hl]. revert n. induction d as [|x d IH]; intros n Hn; [done|].
  cbn [length] in Hn. destruct (lookup_lt_is_Some_2 (E (counter_block cb q)) n) as [k Hk]; [lia|].
  rewrite (zip_cons_drop _ _ _ _ _ Hk). unfold gctr_at in *. cbn [length seq map zip_with]. f_equal.
  - f_equal. unfold key_byte. destruct (div_parts q n (16 * q + n) ltac:(lia) eq_refl) as [-> ->].
    by apply nth_lookup_Some.
  - rewrite <- IH by lia. by rewrite Nat.add_succ_r.
Qed.

(** The hash has read [T], and [p] bytes of the key stream are used. *)
Record at_byte (T : bytes) (p : nat) (ctx : GCM128_CONTEXT) : Prop := {
  at_key : gcm_key ctx = gk;
  at_Yi : Yi ctx = counter_block cb ((p + 15) / 16);
  at_EKi : (p mod 16 <> 0)%nat -> EKi ctx = E (counter_block cb (p / 16));
  at_Xi : Xi ctx = hash_state H T;
  at_T : bytes_ok T /\ (length T mod 16 = p mod 16)%nat
}.

(** [d] is encrypted or decrypted. *)
Definition crypted (enc : bool) (T : bytes) (p : nat) (out : Z) (d : bytes) (ctx ctx' : GCM128_CONTEXT) (m m' : mem) : Prop :=
  let c := gctr_at E cb p d in
  wrote m m' out c /\ at_byte (T ++ cipher_part enc d c) (p + length d) ctx' /\ untouched ctx ctx'.

Lemma cipher_part_app enc d1 c1 d2 c2 :
  cipher_part enc (d1 ++ d2) (c1 ++ c2) = cipher_part enc d1 c1 ++ cipher_part enc d2 c2.
Proof. by destruct enc. Qed.
Lemma cipher_part_length enc d c : length c = length d -> length (cipher_part enc d c) = length d.
Proof. by destruct enc. Qed.
Lemma gctr_ok p d : bytes_ok d -> bytes_ok (gctr_at E cb p d).
Proof.
  intros Hd. apply zip_lxor_ok; [done|]. apply Forall_forall. intros x (j & <- & _)%in_map_iff.
  destruct (stream_block_ok (j / 16)) as [Hb Hl]. unfold key_byte.
  assert (j mod 16 < 16)%nat as Hj by (apply Nat.mod_upper_bound; lia).
  destruct (lookup_lt_is_Some_2 (E (counter_block cb (j / 16))) (j mod 16)) as [k Hk]; [lia|].
  rewrite (nth_lookup_Some _ _ _ _ Hk). by apply (Forall_lookup_1 _ _ _ _ Hb Hk).
Qed.
Lemma cipher_part_ok enc p d : bytes_ok d -> bytes_ok (cipher_part enc d (gctr_at E cb p d)).
Proof. intros. destruct enc; [by apply gctr_ok|done]. Qed.

Lemma crypted_nil enc T p out ctx m : at_byte T p ctx -> crypted enc T p out [] ctx ctx m m.
Proof.
  intros Ha. unfold crypted. replace (cipher_part _ _ _) with (@nil Z) by (by destruct enc).
  rewrite app_nil_r, Nat.add_0_r. split; [apply wrote_nil|done].
Qed.
Lemma crypted_app enc T p out d1 d2 c1 c2 c3 m1 m2 m3 :
  crypted enc T p out d1 c1 c2 m1 m2 ->
  crypted enc (T ++ cipher_part enc d1 (gctr_at E cb p d1)) (p + length d1) (out + Z.of_nat (length d1)) d2 c2 c3 m2 m3 ->
  crypted enc T p out (d1 ++ d2) c1 c3 m1 m3.
Proof.
  intros (W1 & _ & F1) (W2 & A2 & F2). unfold crypted. rewrite gctr_app, cipher_part_app, length_app, app_assoc, Nat.add_assoc.
  split; [|split; [done|by eapply frame_more]]. eapply wrote_app; [exact W1|]. by rewrite length_gctr.
Qed.

(** *** The rest of a block *)

Lemma GCM_MUL_run T d ctx w :
  gcm_key ctx = gk -> bytes_ok T -> bytes_ok d -> length (pending T ++ d) = 16%nat ->
  Xi ctx = mixed (hashed H T) (pending T ++ d) ->
  GCM_MUL ctx w = Ret (tt, set_Xi (hash_state H (T ++ d)) ctx, w).
Proof.
  intros Hk HT Hd Hl HX. destruct H_ok as [Ho Hl']. unfold GCM_MUL, get_ctx, update, get_ctx.
  rewrite (bind_ret_run get_stream _ ctx w ctx ctx w) by done. rewrite HX, Hk, (mul_block H Ho Hl' _ gk_table) by done. done.
Qed.

Lemma ceil_block q n : (0 < n <= 16)%nat -> ((16 * q + n + 15) / 16 = q + 1)%nat.
Proof. intros Hn. apply (div_parts (q + 1) (n - 1)); lia. Qed.
Lemma at_T_more (T : bytes) p (cp : bytes) t :
  (length T mod 16 = p mod 16)%nat -> length cp = t -> (length (T ++ cp) mod 16 = (p + t) mod 16)%nat.
Proof. intros HT <-. by rewrite length_app, (Nat.Div0.add_mod (length T)), HT, <- Nat.Div0.add_mod. Qed.
(** More of a block that is begun. *)
Lemma at_byte_more T q n t cp ctx :
  at_byte T (16 * q + n) ctx -> (0 < n)%nat -> (n + t <= 16)%nat -> length cp = t -> bytes_ok cp ->
  at_byte (T ++ cp) (16 * q + n + t) (set_Xi (hash_state H (T ++ cp)) ctx).
Proof.
  intros [Hk HY He HX [HT HTm]] Hn Ht Hl Hcp.
  split; cbn [set_Xi Yi EKi Xi gcm_key]; [exact Hk| | |reflexivity|].
  - rewrite HY, (ceil_block q n) by lia. f_equal. rewrite <- (Nat.add_assoc (16 * q)), (ceil_block q (n + t)) by lia. done.
  - intros Hm. assert (n + t < 16)%nat as Hlt.
    { destruct (decide (n + t = 16)%nat); [|lia]. destruct Hm. by apply (div_parts (q + 1) 0); lia. }
    destruct (div_parts q (n + t) (16 * q + n + t) Hlt) as [-> _]; [lia|].
    destruct (div_parts q n (16 * q + n)) as [Hd Hm']; [lia..|]. rewrite Hd, Hm' in He. apply He. lia.
  - split; [by apply Forall_app|by apply at_T_more].
Qed.

Lemma crypt_head_run enc T p d in_ out ctx w :
  at_byte T p ctx -> mres ctx = Z.of_nat (p mod 16) -> ready (w_mem w) in_ out d -> bytes_ok d ->
  exists ctx' m' t, (t <= length d)%nat /\
    crypt_head enc in_ out (Z.of_nat (length d)) ctx w =
    Ret (if decide ((p + t) mod 16 = 0)%nat then Some (Z.of_nat t) else None, ctx', set_mem m' w) /\
    crypted enc T p out (take t d) ctx ctx' (w_mem w) m' /\
    ((p + t) mod 16 <> 0 -> t = length d /\ mres ctx' = Z.of_nat ((p + t) mod 16))%nat.
Proof.
  intros Ha Hm Hr Hd. destruct (decide (p mod 16 = 0)%nat) as [Hp|Hp].
  { exists ctx, (w_mem w), 0%nat. rewrite Nat.add_0_r, decide_True by done. split; [lia|].
    split; [|split; [by apply crypted_nil|done]]. unfold crypt_head, get_ctx.
    rewrite (bind_ret_run get_stream _ ctx w ctx ctx w) by done. rewrite Hm, Hp. by destruct w. }
  pose proof (Nat.div_mod_eq p 16) as Ep. set (q := (p / 16)%nat) in *. set (n := (p mod 16)%nat) in *.
  assert (n < 16)%nat as Hn by (apply Nat.mod_upper_bound; lia).
  pose proof Ha as [Hk HY He HX [HT HTm]]. destruct H_ok as [Ho Hl]. destruct (pending_length T) as [Hpl _].
  fold n in HTm. rewrite HTm in Hpl. specialize (He Hp). fold q in He. destruct (stream_block_ok q) as [_ Hls].
  destruct (head_loop_run enc d in_ out n (hashed H T) (pending T) ctx w) as (m' & Er & Hw);
    [done|done|lia|by rewrite He|done|]. cbn zeta in Er, Hw.
  set (t := Nat.min (length d) (16 - n)) in *. rewrite He in Er, Hw.
  assert (length (take t d) = t) as Hlt by (rewrite length_take; lia).
  rewrite <- (gctr_block q n (take t d)), <- Ep in Er, Hw by lia.
  set (cp := cipher_part enc (take t d) (gctr_at E cb p (take t d))) in *.
  assert (length cp = t) as Hlc by (unfold cp; rewrite cipher_part_length; [done|apply length_gctr]).
  assert (bytes_ok cp) as Hcp by (by apply cipher_part_ok, Forall_take).
  assert (at_byte (T ++ cp) (p + t) (set_Xi (hash_state H (T ++ cp)) ctx)) as Ha'.
  { rewrite Ep. apply at_byte_more; [by rewrite <- Ep|lia|lia|done|done]. }
  assert ((n + t) mod 16 = (p + t) mod 16)%nat as Hmod by (unfold n; by rewrite Nat.Div0.add_mod_idemp_l).
  assert (crypt_head enc in_ out (Z.of_nat (length d)) ctx w =
    (if Z.of_nat ((n + t) mod 16) =? 0 then GCM_MUL ;; ret (Some (Z.of_nat t))
     else update (set_mres (Z.of_nat ((n + t) mod 16))) ;; ret None)
      (set_Xi (mixed (hashed H T) (pending T ++ cp)) ctx) (set_mem m' w)) as ->.
  { unfold crypt_head, get_ctx. rewrite (bind_ret_run get_stream _ ctx w ctx ctx w) by done. rewrite Hm.
    rewrite (proj2 (Z.eqb_neq (Z.of_nat n) 0)) by lia. cbn [negb]. rewrite Nat2Z.id.
    rewrite (bind_ret_run _ _ _ _ _ _ _ Er). cbn [fst snd].
    replace (Z.of_nat (length d) - Z.of_nat (length d - t)) with (Z.of_nat t) by lia. done. }
  rewrite Hmod. destruct (decide ((p + t) mod 16 = 0)%nat) as [Hz|Hz].
  - exists (set_Xi (hash_state H (T ++ cp)) ctx), m', t. rewrite Hz, decide_True by done.
    change (Z.of_nat 0 =? 0) with true. cbv iota.
    assert (n + t = 16)%nat as Hs.
    { destruct (decide (n + t = 16)%nat); [done|]. rewrite <- Hmod, Nat.mod_small in Hz by lia. lia. }
    rewrite (bind_ret_run _ _ _ _ _ _ _ (GCM_MUL_run T cp (set_Xi (mixed (hashed H T) (pending T ++ cp)) ctx) (set_mem m' w) Hk HT Hcp ltac:(rewrite length_app; lia) eq_refl)).
    split; [lia|]. split; [done|]. split; [|done]. split; [done|]. rewrite Hlt. split; [exact Ha'|done].
  - exists (set_mres (Z.of_nat ((p + t) mod 16)) (set_Xi (mixed (hashed H T) (pending T ++ cp)) ctx)), m', t.
    assert (n + t < 16)%nat as Hs.
    { destruct (decide (n + t = 16)%nat) as [E16|]; [|lia]. rewrite E16 in Hmod. by destruct Hz. }
    rewrite (proj2 (Z.eqb_neq _ 0)), decide_False by (done || lia). split; [lia|]. split; [done|]. split; [|split; [lia|done]].
    destruct (hash_short H T cp) as [E1 E2]; [lia|]. unfold hash_state in Ha'. rewrite E1, E2 in Ha'.
    unfold crypted. fold cp. split; [done|]. rewrite Hlt. split; [|done]. destruct Ha' as [HK HYi HE HX' HT']. split; [exact HK|exact HYi|exact HE| |exact HT'].
    unfold hash_state. by rewrite E1, E2.
Qed.

(** *** Whole blocks *)

(** The counter when [q] blocks of the key stream are used. *)
Definition ctr_at (q : nat) : Z := (be_val (drop 12 cb) + Z.of_nat q) mod 2 ^ 32.
Lemma ctr_at_add q v : u32 (ctr_at q + v) = u32 (be_val (drop 12 cb) + Z.of_nat q + v).
Proof. unfold ctr_at, u32, wrap. apply Zplus_mod_idemp_l. Qed.
Lemma ctr_at_more q j : u32 (ctr_at q + Z.of_nat j) = ctr_at (q + j).
Proof. rewrite ctr_at_add. unfold u32, wrap, ctr_at. f_equal. lia. Qed.
Lemma take_counter i : take 12 (counter_block cb i) = take 12 cb.
Proof. unfold counter_block. apply take_app_length'. rewrite length_take. lia. Qed.
Lemma store_ctr_ok i q : store_ctr (counter_block cb i) (ctr_at q) = counter_block cb q.
Proof. unfold store_ctr. rewrite take_counter. unfold counter_block, ctr_at, CRYPTO_store_u32_be. f_equal. apply (be_bytes_mod 4). Qed.
Lemma load_ctr_ok q : CRYPTO_load_u32_be (drop 12 (counter_block cb q)) = ctr_at q.
Proof.
  unfold counter_block, CRYPTO_load_u32_be. rewrite drop_app_length' by (rewrite length_take; lia).
  rewrite take_ge by (rewrite length_be_bytes; lia). apply (be_val_bytes 4).
Qed.

Lemma at_block T q ctx : at_byte T (16 * q) ctx -> Yi ctx = counter_block cb q /\ pending T = [] /\ bytes_ok T.
Proof.
  intros [Hk HY _ HX [HT HTm]]. destruct (div_parts q 15 (16 * q + 15)) as [E1 _]; [lia..|]. rewrite E1 in HY.
  destruct (div_parts q 0 (16 * q)) as [_ E2]; [lia..|]. destruct (pending_length T) as [Hl _]. rewrite HTm, E2 in Hl.
  split_and!; [done|by destruct (pending T)|done].
Qed.
Lemma at_whole T q ctx :
  gcm_key ctx = gk -> Yi ctx = counter_block cb q -> Xi ctx = hash_state H T -> bytes_ok T -> pending T = [] ->
  at_byte T (16 * q) ctx.
Proof.
  intros Hk HY HX HT Hn. destruct (div_parts q 0 (16 * q)) as [_ E2]; [lia..|].
  destruct (pending_length T) as [Hl _]. rewrite Hn in Hl. split; [done| | |done|].
  - by destruct (div_parts q 15 (16 * q + 15)) as [-> _]; [lia..|].
  - by rewrite E2.
  - by rewrite E2.
Qed.

Lemma next_block_run q ctx w :
  gcm_key ctx = gk -> Yi ctx = counter_block cb q ->
  next_block key (ctr_at q) ctx w =
  Ret (ctr_at (q + 1), set_Yi (counter_block cb (q + 1)) (set_EKi (E (counter_block cb q)) ctx), w).
Proof.
  intros Hk HY. unfold next_block, update, get_ctx, bind, get_stream, put_stream, ret. cbn.
  by rewrite Hk, gk_block, HY, (ctr_at_more q 1 : u32 (ctr_at q + 1) = _), store_ctr_ok.
Qed.
Lemma crypt_blocks_run j q d in_ out ctx w :
  gcm_key ctx = gk -> Yi ctx = counter_block cb q -> ready (w_mem w) in_ out d -> length d = (16 * j)%nat -> bytes_ok d ->
  exists ctx' m', crypt_blocks j key in_ out (ctr_at q) ctx w = Ret (ctr_at (q + j), ctx', set_mem m' w) /\
    wrote (w_mem w) m' out (gctr_at E cb (16 * q) d) /\
    Yi ctx' = counter_block cb (q + j) /\ Xi ctx' = Xi ctx /\ untouched ctx ctx'.
Proof.
  revert q d in_ out ctx w. induction j as [|j IH]; intros q d in_ out ctx w Hk HY Hr Hl Hd.
  { destruct d; [|done]. exists ctx, (w_mem w). rewrite Nat.add_0_r. cbn [crypt_blocks].
    split; [by destruct w|]. split; [apply wrote_nil|done]. }
  assert (length (take 16 d) = 16%nat) as Hl1 by (rewrite length_take; lia).
  rewrite <- (take_drop 16 d) in Hr. destruct (stream_block_ok q) as [Hbo Hbl].
  set (ctx1 := set_Yi (counter_block cb (q + 1)) (set_EKi (E (counter_block cb q)) ctx)).
  destruct (xor16_at_run out in_ (take 16 d) (E (counter_block cb q)) ctx1 w) as (m1 & E1 & W1);
    [exact (ready_take _ _ _ _ _ Hr)|done|by apply Forall_take|done|done|].
  assert (zip_with Z.lxor (take 16 d) (E (counter_block cb q)) = gctr_at E cb (16 * q) (take 16 d)) as Eg.
  { rewrite <- (Nat.add_0_r (16 * q)), (gctr_block q 0) by lia. done. }
  rewrite Eg in W1.
  pose proof (ready_drop _ _ _ _ _ _ _ Hr W1 (length_gctr _ _ _ _)) as Hr2. rewrite Hl1 in Hr2.
  destruct (IH (q + 1)%nat (drop 16 d) (in_ + 16) (out + 16) ctx1 (set_mem m1 w)) as (ctx2 & m2 & E2 & W2 & HY2 & HX2 & F2);
    [done|done|exact Hr2|rewrite length_drop; lia|by apply Forall_drop|].
  exists ctx2, m2. split; [|split; [|split; [|split]]].
  - cbn [crypt_blocks]. rewrite (bind_ret_run _ _ _ _ _ _ _ (next_block_run q ctx w Hk HY)). fold ctx1.
    unfold get_ctx. rewrite (bind_ret_run get_stream _ ctx1 w ctx1 ctx1 w) by done.
    change (EKi ctx1) with (E (counter_block cb q)). rewrite (bind_ret_run _ _ _ _ _ _ _ E1), E2.
    by replace (q + 1 + j)%nat with (q + S j)%nat by lia.
  - rewrite <- (take_drop 16 d), gctr_app, Hl1. eapply wrote_app; [exact W1|]. rewrite length_gctr, Hl1.
    replace (16 * q + 16)%nat with (16 * (q + 1))%nat by lia. exact W2.
  - by replace (q + S j)%nat with (q + 1 + j)%nat by lia.
  - done.
  - done.
Qed.

Lemma GHASH_at_run T j d a ctx w :
  gcm_key ctx = gk -> Xi ctx = hash_state H T -> bytes_ok T -> pending T = [] ->
  stored (w_mem w) a d -> length d = (16 * j)%nat -> bytes_ok d ->
  GHASH_at a (16 * Z.of_nat j) ctx w = Ret (tt, set_Xi (hash_state H (T ++ d)) ctx, w).
Proof.
  intros Hk HX HT Hn Hs Hl Hd. destruct H_ok as [Ho Hl']. unfold GHASH_at. replace (16 * Z.of_nat j) with (Z.of_nat (length d)) by lia.
  rewrite (bind_ret_run _ _ _ _ _ _ _ (load_stored _ a d ctx w eq_refl Hs)). unfold GHASH, get_ctx, update, get_ctx.
  rewrite (bind_ret_run get_stream _ ctx w ctx ctx w) by done.
  rewrite HX, Hk, (ghash_blocks_run H Ho Hl' _ gk_table T d j) by done. done.
Qed.

(** What the loops are given. *)
Definition step_ok (enc : bool) (step : Z -> Z -> Z -> Z -> gcm_m Z) : Prop :=
  forall T q j d in_ out ctx w,
    at_byte T (16 * q) ctx -> ready (w_mem w) in_ out d -> length d = (16 * j)%nat -> bytes_ok d ->
    exists ctx' m', step in_ out (Z.of_nat j) (ctr_at q) ctx w = Ret (ctr_at (q + j), ctx', set_mem m' w) /\
      crypted enc T (16 * q) out d ctx ctx' (w_mem w) m'.

(** Encrypting or decrypting blocks without the hash: both ways the code has. *)
Definition blocks_ok (run : Z -> Z -> Z -> Z -> gcm_m Z) : Prop :=
  forall q j d in_ out ctx w,
    gcm_key ctx = gk -> Yi ctx = counter_block cb q -> ready (w_mem w) in_ out d -> length d = (16 * j)%nat -> bytes_ok d ->
    exists ctx' m', run in_ out (Z.of_nat j) (ctr_at q) ctx w = Ret (ctr_at (q + j), ctx', set_mem m' w) /\
      wrote (w_mem w) m' out (gctr_at E cb (16 * q) d) /\
      Yi ctx' = counter_block cb (q + j) /\ Xi ctx' = Xi ctx /\ untouched ctx ctx'.

Lemma crypted_blocks enc T q j d out ctx ctx1 m m' :
  let c := gctr_at E cb (16 * q) d in
  at_byte T (16 * q) ctx -> length d = (16 * j)%nat -> bytes_ok d -> wrote m m' out c ->
  gcm_key ctx1 = gk -> Yi ctx1 = counter_block cb (q + j) -> Xi ctx1 = hash_state H (T ++ cipher_part enc d c) -> untouched ctx ctx1 ->
  crypted enc T (16 * q) out d ctx ctx1 m m'.
Proof.
  cbn zeta. intros Ha Hl Hd W Hk HY HX F. destruct (at_block _ _ _ Ha) as (_ & Hn & HT).
  split; [done|]. split; [|done]. rewrite Hl, <- Nat.mul_add_distr_l. apply at_whole; [done..| |].
  - apply Forall_app. split; [done|by apply cipher_part_ok].
  - eapply pending_blocks; [done|]. rewrite cipher_part_length; [exact Hl|apply length_gctr].
Qed.
Lemma encrypt_step_ok run :
  blocks_ok run -> step_ok true (fun in_ out j ctr => ctr <- run in_ out j ctr ;; GHASH_at out (16 * j) ;; ret ctr).
Proof.
  intros Hrun T q j d in_ out ctx w Ha Hr Hl Hd. destruct (at_block _ _ _ Ha) as (HY & Hn & HT).
  pose proof Ha as [Hk _ _ HX _].
  destruct (Hrun q j d in_ out ctx w) as (ctx1 & m' & E1 & W & HY1 & HX1 & F); [done..|].
  assert (gcm_key ctx1 = gk) as Hk1 by exact (frame_key _ _ _ F Hk).
  exists (set_Xi (hash_state H (T ++ gctr_at E cb (16 * q) d)) ctx1), m'. split.
  - rewrite (bind_ret_run _ _ _ _ _ _ _ E1). rewrite HX in HX1. pose proof W as [Hs _].
    rewrite (bind_ret_run _ _ _ _ _ _ _ (GHASH_at_run T j _ out ctx1 (set_mem m' w) Hk1 HX1 HT Hn Hs
      ltac:(by rewrite length_gctr) (gctr_ok _ _ Hd))). done.
  - by apply (crypted_blocks true T q j).
Qed.
Lemma decrypt_step_ok run :
  blocks_ok run -> step_ok false (fun in_ out j ctr => GHASH_at in_ (16 * j) ;; run in_ out j ctr).
Proof.
  intros Hrun T q j d in_ out ctx w Ha Hr Hl Hd. destruct (at_block _ _ _ Ha) as (HY & Hn & HT).
  pose proof Ha as [Hk _ _ HX _]. set (ctx1 := set_Xi (hash_state H (T ++ d)) ctx).
  destruct (Hrun q j d in_ out ctx1 w) as (ctx2 & m' & E2 & W & HY2 & HX2 & F); [done..|].
  assert (gcm_key ctx2 = gk) as Hk2 by exact (frame_key _ _ _ F Hk).
  exists ctx2, m'. split.
  - pose proof Hr as [Hs _].
    rewrite (bind_ret_run _ _ _ _ _ _ _ (GHASH_at_run T j d in_ ctx w Hk HX HT Hn Hs Hl Hd)). exact E2.
  - by apply (crypted_blocks false T q j).
Qed.

(** A routine for runs of blocks is counter mode with a counter of 32 bits. *)
Definition ctr32_ok (stream : ctr128_f) : Prop :=
  forall iv d j, bytes_ok iv -> length iv = 16%nat -> bytes_ok d -> length d = (16 * j)%nat -> stream key iv d = gctr E iv d.

Lemma block_runs : blocks_ok (fun in_ out j ctr => crypt_blocks (Z.to_nat j) key in_ out ctr).
Proof. intros q j d in_ out ctx w Hk HY Hr Hl Hd. cbn beta. rewrite Nat2Z.id. by apply crypt_blocks_run. Qed.
Lemma stream_runs stream : ctr32_ok stream -> blocks_ok (stream_blocks stream key).
Proof.
  intros Hst q j d in_ out ctx w Hk HY Hr Hl Hd.
  assert (stream key (counter_block cb q) d = gctr_at E cb (16 * q) d) as Eg.
  { rewrite (Hst _ _ j) by (done || (by apply counter_block_ok) || by apply counter_block_length).
    unfold gctr. rewrite gctr_shift by done. by rewrite Nat.add_0_r. }
  destruct (store_wrote _ in_ out d (gctr_at E cb (16 * q) d) ctx w eq_refl Hr (length_gctr _ _ _ _)) as (m' & Es & W).
  exists (set_Yi (counter_block cb (q + j)) ctx), m'. split; [|by split_and!].
  unfold stream_blocks, get_ctx. rewrite (bind_ret_run get_stream _ ctx w ctx ctx w) by done.
  replace (16 * Z.of_nat j) with (Z.of_nat (length d)) by lia. pose proof Hr as [Hs _].
  rewrite (bind_ret_run _ _ _ _ _ _ _ (load_stored _ in_ d ctx w eq_refl Hs)), HY, Eg.
  rewrite (bind_ret_run _ _ _ _ _ _ _ Es). cbn zeta.
  assert (u32 (ctr_at q + u32 (Z.of_nat j)) = ctr_at (q + j)) as ->
    by (rewrite <- ctr_at_more; unfold u32, wrap; apply Zplus_mod_idemp_r).
  by rewrite store_ctr_ok.
Qed.

(** *** The loops *)

(** [k] blocks of [d] are done, and the rest of it is in place. *)
Definition advanced (enc : bool) (T : bytes) (q k : nat) (in_ out : Z) (d : bytes) (ctx ctx' : GCM128_CONTEXT) (m m' : mem) : Prop :=
  let d1 := take (16 * k) d in let d2 := drop (16 * k) d in
  (16 * k <= length d)%nat /\ crypted enc T (16 * q) out d1 ctx ctx' m m' /\
  at_byte (T ++ cipher_part enc d1 (gctr_at E cb (16 * q) d1)) (16 * (q + k)) ctx' /\
  ready m' (in_ + Z.of_nat (16 * k)) (out + Z.of_nat (16 * k)) d2 /\ bytes_ok d2.

Lemma advanced_refl enc T q in_ out d ctx m :
  at_byte T (16 * q) ctx -> ready m in_ out d -> bytes_ok d -> advanced enc T q 0 in_ out d ctx ctx m m.
Proof.
  intros Ha Hr Hd. unfold advanced. change (16 * 0)%nat with 0%nat. cbn [take drop Z.of_nat]. rewrite Nat.add_0_r, !Z.add_0_r.
  split; [lia|]. split; [by apply crypted_nil|]. split; [|done].
  replace (cipher_part _ _ _) with (@nil Z) by (by destruct enc). by rewrite app_nil_r.
Qed.
Lemma advanced_trans enc T q j k in_ out d c1 c2 c3 m1 m2 m3 :
  advanced enc T q j in_ out d c1 c2 m1 m2 ->
  advanced enc (T ++ cipher_part enc (take (16 * j) d) (gctr_at E cb (16 * q) (take (16 * j) d))) (q + j) k
    (in_ + Z.of_nat (16 * j)) (out + Z.of_nat (16 * j)) (drop (16 * j) d) c2 c3 m2 m3 ->
  advanced enc T q (j + k) in_ out d c1 c3 m1 m3.
Proof.
  intros (L1 & C1 & A1 & R1 & B1) (L2 & C2 & A2 & R2 & B2). rewrite length_drop in L2.
  assert (length (take (16 * j) d) = 16 * j)%nat as Hl1 by (rewrite length_take; lia).
  assert (take (16 * (j + k)) d = take (16 * j) d ++ take (16 * k) (drop (16 * j) d)) as Et.
  { rewrite Nat.mul_add_distr_l. symmetry. apply take_take_drop. }
  assert (drop (16 * (j + k)) d = drop (16 * k) (drop (16 * j) d)) as Ed by (by rewrite drop_drop, <- Nat.mul_add_distr_l).
  unfold advanced. rewrite Et, Ed. split; [lia|]. split; [|split; [|split; [|done]]].
  - eapply crypted_app; [exact C1|]. rewrite Hl1, <- Nat.mul_add_distr_l. exact C2.
  - rewrite gctr_app, cipher_part_app, app_assoc, Hl1, Nat.add_assoc, <- Nat.mul_add_distr_l. exact A2.
  - replace (Z.of_nat (16 * (j + k))) with (Z.of_nat (16 * j) + Z.of_nat (16 * k)) by lia. by rewrite !Z.add_assoc.
Qed.

Lemma step_more enc (step : Z -> Z -> Z -> Z -> gcm_m Z) T q j d in_ out ctx w :
  step_ok enc step -> at_byte T (16 * q) ctx -> ready (w_mem w) in_ out d -> bytes_ok d -> (16 * j <= length d)%nat ->
  exists ctx' m', step in_ out (Z.of_nat j) (ctr_at q) ctx w = Ret (ctr_at (q + j), ctx', set_mem m' w) /\
    advanced enc T q j in_ out d ctx ctx' (w_mem w) m'.
Proof.
  intros Hst Ha Hr Hd Hl. assert (length (take (16 * j) d) = 16 * j)%nat as Hl1 by (rewrite length_take; lia).
  rewrite <- (take_drop (16 * j) d) in Hr.
  destruct (Hst T q j (take (16 * j) d) in_ out ctx w) as (ctx' & m' & E1 & C1);
    [done|exact (ready_take _ _ _ _ _ Hr)|done|by apply Forall_take|].
  exists ctx', m'. split; [done|]. split; [done|]. split; [done|]. destruct C1 as (W & A & F).
  rewrite Hl1, <- Nat.mul_add_distr_l in A. split; [done|].
  pose proof (ready_drop _ _ _ _ _ _ _ Hr W (length_gctr _ _ _ _)) as Hr2. rewrite Hl1 in Hr2.
  split; [exact Hr2|by apply Forall_drop].
Qed.

Lemma chunk_loop_run enc step fuel T q d in_ out ctx w :
  step_ok enc step -> at_byte T (16 * q) ctx -> ready (w_mem w) in_ out d -> bytes_ok d -> (length d <= fuel)%nat ->
  exists k ctx' m', chunk_loop step fuel in_ out (Z.of_nat (length d)) (ctr_at q) ctx w =
      Ret ((Z.of_nat (16 * k), ctr_at (q + k)), ctx', set_mem m' w) /\
    advanced enc T q k in_ out d ctx ctx' (w_mem w) m'.
Proof.
  intros Hst. revert T q d in_ out ctx w. induction fuel as [|fuel IH]; intros T q d in_ out ctx w Ha Hr Hd Hf;
    cbn [chunk_loop]; unfold GHASH_CHUNK; (destruct (Z.leb_spec (3 * 1024) (Z.of_nat (length d))) as [Hc|Hc]; [try lia|]).
  1,3: exists 0%nat, ctx, (w_mem w); rewrite Nat.add_0_r; split; [by destruct w|by apply advanced_refl].
  destruct (step_more enc step T q 192 d in_ out ctx w) as (ctx1 & m1 & E1 & A1); [done..|lia|].
  pose proof A1 as (_ & _ & Ha1 & Hr1 & Hd1).
  destruct (IH _ (q + 192)%nat (drop (16 * 192) d) _ _ ctx1 (set_mem m1 w) Ha1 Hr1 Hd1) as (k & ctx2 & m2 & E2 & A2);
    [rewrite length_drop; lia|].
  exists (192 + k)%nat, ctx2, m2. split; [|by eapply advanced_trans].
  change (3 * 1024 / 16) with (Z.of_nat 192). rewrite (bind_ret_run _ _ _ _ _ _ _ E1).
  change (3 * 1024) with (Z.of_nat (16 * 192)). rewrite length_drop, Nat2Z.inj_sub in E2 by lia.
  rewrite (bind_ret_run _ _ _ _ _ _ _ E2). cbn [fst snd]. unfold ret. rewrite set_mem_twice.
  rewrite Nat.add_assoc, <- Nat2Z.inj_add, <- Nat.mul_add_distr_l. done.
Qed.

Lemma land_blocks n : 0 <= n < 2 ^ 64 -> Z.land n kSizeTWithoutLower4Bits = 16 * (n / 16).
Proof.
  intros Hn. assert (Z.land n kSizeTWithoutLower4Bits = Z.shiftl (Z.shiftr n 4) 4) as ->.
  { unfold kSizeTWithoutLower4Bits. apply Z.bits_inj'. intros i Hi. rewrite Z.land_spec.
    change (2 ^ 64 - 16) with (Z.shiftl (Z.ones 60) 4). rewrite !Z.shiftl_spec by done.
    destruct (Z_lt_dec i 4); [rewrite !(Z.testbit_neg_r _ (i - 4)) by lia; by rewrite andb_false_r|].
    rewrite Z.shiftr_spec by lia. replace (i - 4 + 4) with i by lia.
    destruct (Z_lt_dec i 64); [rewrite Z.ones_spec_low by lia; by rewrite andb_true_r|].
    rewrite Z.ones_spec_high by lia. rewrite (high_bit 64 n) by lia. done. }
  rewrite Z.shiftl_mul_pow2, Z.shiftr_div_pow2 by lia. change (2 ^ 4) with 16. lia.
Qed.

Lemma whole_blocks_run enc step T q d in_ out ctx w :
  step_ok enc step -> at_byte T (16 * q) ctx -> ready (w_mem w) in_ out d -> bytes_ok d -> Z.of_nat (length d) < 2 ^ 64 ->
  exists k ctx' m', whole_blocks step in_ out (Z.of_nat (length d)) (ctr_at q) ctx w =
      Ret ((Z.of_nat (16 * k), ctr_at (q + k)), ctx', set_mem m' w) /\
    advanced enc T q k in_ out d ctx ctx' (w_mem w) m' /\ (length d < 16 * k + 16)%nat.
Proof.
  intros Hst Ha Hr Hd Hlim.
  destruct (chunk_loop_run enc step (length d) T q d in_ out ctx w) as (j & ctx1 & m1 & E1 & A1); [done..|].
  pose proof A1 as (L1 & _ & Ha1 & Hr1 & Hd1). set (r := (length d - 16 * j)%nat).
  assert (Z.of_nat (length d) - Z.of_nat (16 * j) = Z.of_nat r) as Er by lia.
  pose proof (Nat.div_mod_eq r 16). pose proof (Nat.mod_upper_bound r 16 ltac:(lia)). set (k := (r / 16)%nat) in *.
  assert (Z.land (Z.of_nat r) kSizeTWithoutLower4Bits = Z.of_nat (16 * k)) as El.
  { rewrite land_blocks by lia. rewrite Nat2Z.inj_mul. unfold k. by rewrite Nat2Z.inj_div. }
  destruct (step_more enc step _ (q + j) k _ _ _ ctx1 (set_mem m1 w) Hst Ha1 Hr1 Hd1) as (ctx2 & m2 & E2 & A2);
    [rewrite length_drop; lia|].
  destruct (decide (k = 0)%nat) as [Hk|Hk].
  - exists j, ctx1, m1. split; [|split; [done|lia]]. unfold whole_blocks. rewrite Nat2Z.id, (bind_ret_run _ _ _ _ _ _ _ E1).
    cbn [fst snd]. rewrite Er, El, Hk. cbn [Nat.mul Z.of_nat Z.eqb negb]. unfold bind, ret. by rewrite Z.add_0_r.
  - exists (j + k)%nat, ctx2, m2. split; [|split; [by eapply advanced_trans|lia]].
    unfold whole_blocks. rewrite Nat2Z.id, (bind_ret_run _ _ _ _ _ _ _ E1).
    cbn [fst snd]. rewrite Er, El, (proj2 (Z.eqb_neq _ 0)) by lia. cbn [negb].
    replace (Z.of_nat (16 * k) / 16) with (Z.of_nat k) by (rewrite Nat2Z.inj_mul, Z.mul_comm, Z.div_mul; lia).
    rewrite (bind_ret_run _ _ _ _ _ _ _ E2). unfold ret.
    by rewrite Nat.add_assoc, <- Nat2Z.inj_add, <- Nat.mul_add_distr_l.
Qed.

Lemma at_byte_mres T p n ctx : at_byte T p ctx -> at_byte T p (set_mres n ctx).
Proof. by intros [HK HY HE HX HT]. Qed.
Lemma crypt_tail_run enc T q d in_ out ctx w :
  at_byte T (16 * q) ctx -> ready (w_mem w) in_ out d -> bytes_ok d -> (length d < 16)%nat ->
  exists ctx' m', crypt_tail enc key in_ out (Z.of_nat (length d)) (ctr_at q) ctx w = Ret (true, ctx', set_mem m' w) /\
    crypted enc T (16 * q) out d ctx ctx' (w_mem w) m' /\ mres ctx' = Z.of_nat ((16 * q + length d) mod 16).
Proof.
  intros Ha Hr Hd Hl. destruct (at_block _ _ _ Ha) as (HY & Hn & HT). pose proof Ha as [Hk _ _ HX [_ HTm]].
  destruct (div_parts q (length d) (16 * q + length d) Hl eq_refl) as [Hdiv Hmod]. rewrite Hmod.
  destruct (decide (length d = 0)%nat) as [Hd0|Hd0].
  { destruct d; [|done]. exists (set_mres 0 ctx), (w_mem w). split; [by destruct w|]. split; [|done].
    destruct (crypted_nil enc T (16 * q) out ctx (w_mem w) Ha) as (W & A & F). split; [done|].
    split; [by apply at_byte_mres|done]. }
  set (ctx1 := set_Yi (counter_block cb (q + 1)) (set_EKi (E (counter_block cb q)) ctx)).
  destruct (stream_block_ok q) as [Hbo Hbl].
  destruct (tail_loop_run enc d in_ out 0 (hashed H T) [] ctx1 w) as (m' & Et & W);
    [by unfold hash_state in HX; rewrite Hn in HX|done|lia|done|by rewrite !Z.add_0_r|].
  cbn zeta in Et, W. change (EKi ctx1) with (E (counter_block cb q)) in Et, W.
  rewrite <- gctr_block, Nat.add_0_r in Et, W by lia. rewrite Z.add_0_r in W. cbn [app] in Et.
  set (cp := cipher_part enc d (gctr_at E cb (16 * q) d)) in *.
  assert (length cp = length d) as Hlc by (unfold cp; apply cipher_part_length, length_gctr).
  destruct (hash_short H T cp) as [E1 E2]; [rewrite Hn; cbn [length]; lia|]. rewrite Hn in E2. cbn [app] in E2.
  exists (set_mres (Z.of_nat (length d)) (set_Xi (mixed (hashed H T) cp) ctx1)), m'. split; [|split; [|done]].
  - unfold crypt_tail. rewrite (proj2 (Z.eqb_neq _ 0)) by lia. cbn [negb].
    rewrite bind_assoc, (bind_ret_run _ _ _ _ _ _ _ (next_block_run q ctx w Hk HY)). fold ctx1.
    rewrite Nat2Z.id. rewrite (bind_ret_run _ _ _ _ _ _ _ Et). done.
  - unfold crypted. fold cp. split; [exact W|]. split; [|done]. apply at_byte_mres. split.
    + exact Hk.
    + rewrite (ceil_block q (length d)) by lia. reflexivity.
    + intros _. by rewrite Hdiv.
    + unfold hash_state. by rewrite E1, E2.
    + split; [apply Forall_app; split; [done|by apply cipher_part_ok]|by apply at_T_more].
Qed.

(** Everything after the start of a call. *)
Definition crypt_rest (enc : bool) (step : Z -> Z -> Z -> Z -> gcm_m Z) (in_ out len : Z) : gcm_m bool :=
  h <- crypt_head enc in_ out len ;;
  match h with
  | None => ret true
  | Some done =>
      let in_ := in_ + done in let out := out + done in let len := len - done in
      ctr <- load_ctr ;;
      r <- whole_blocks step in_ out len ctr ;;
      crypt_tail enc key (in_ + fst r) (out + fst r) (len - fst r) (snd r)
  end.
Lemma crypt_rest_run enc step T p d in_ out ctx w :
  step_ok enc step -> at_byte T p ctx -> mres ctx = Z.of_nat (p mod 16) -> ready (w_mem w) in_ out d -> bytes_ok d ->
  Z.of_nat (length d) < 2 ^ 64 ->
  exists ctx' m', crypt_rest enc step in_ out (Z.of_nat (length d)) ctx w = Ret (true, ctx', set_mem m' w) /\
    crypted enc T p out d ctx ctx' (w_mem w) m' /\ mres ctx' = Z.of_nat ((p + length d) mod 16).
Proof.
  intros Hst Ha Hm Hr Hd Hlim.
  destruct (crypt_head_run enc T p d in_ out ctx w Ha Hm Hr Hd) as (ctx1 & m1 & t & Ht & E1 & C1 & Hend).
  unfold crypt_rest. rewrite (bind_ret_run _ _ _ _ _ _ _ E1).
  destruct (decide ((p + t) mod 16 = 0)%nat) as [Hz|Hz].
  2:{ destruct (Hend Hz) as [-> Hm1]. rewrite take_ge in C1 by lia. by exists ctx1, m1. }
  assert (length (take t d) = t) as Hlt by (rewrite length_take; lia). clear Hend E1.
  pose proof C1 as (W1 & A1 & F1). rewrite Hlt in A1. pose proof (Nat.div_mod_eq (p + t) 16) as Ep.
  rewrite Hz, Nat.add_0_r in Ep. set (q := ((p + t) / 16)%nat) in *. rewrite Ep in A1.
  set (T1 := T ++ cipher_part enc (take t d) (gctr_at E cb p (take t d))) in *.
  rewrite <- (take_drop t d) in Hr. pose proof (ready_drop _ _ _ _ _ _ _ Hr W1 (length_gctr _ _ _ _)) as Hr1. rewrite Hlt in Hr1.
  assert (bytes_ok (drop t d)) as Hd1 by (by apply Forall_drop).
  destruct (whole_blocks_run enc step T1 q (drop t d) _ _ ctx1 (set_mem m1 w) Hst A1 Hr1 Hd1) as
    (k & ctx2 & m2 & E2 & A2 & Hlast); [rewrite length_drop; lia|].
  pose proof A2 as (L2 & C2 & Ha2 & Hr2 & Hd2). set (d2 := drop (16 * k) (drop t d)) in *.
  destruct (crypt_tail_run enc _ (q + k) d2 _ _ ctx2 (set_mem m2 w) Ha2 Hr2 Hd2) as (ctx3 & m3 & E3 & C3 & Hm3);
    [unfold d2; rewrite length_drop; lia|].
  assert (length (take (16 * k) (drop t d)) = 16 * k)%nat as Hl2 by (rewrite length_take; lia).
  exists ctx3, m3. split; [|split].
  - destruct (at_block _ _ _ A1) as (HY & _ & _). cbn zeta. unfold load_ctr, get_ctx. rewrite bind_assoc.
    rewrite (bind_ret_run get_stream _ ctx1 _ ctx1 ctx1 (set_mem m1 w)) by done. rewrite HY, load_ctr_ok.
    replace (Z.of_nat (length d) - Z.of_nat t) with (Z.of_nat (length (drop t d))) by (rewrite length_drop; lia).
    rewrite (bind_ret_run (ret (ctr_at q)) _ ctx1 _ (ctr_at q) ctx1 (set_mem m1 w)) by done.
    rewrite (bind_ret_run _ _ _ _ _ _ _ E2). cbn [fst snd].
    replace (Z.of_nat (length (drop t d)) - Z.of_nat (16 * k)) with (Z.of_nat (length d2))
      by (unfold d2; rewrite !length_drop in *; lia).
    exact E3.
  - rewrite <- (take_drop t d). eapply crypted_app; [exact C1|]. rewrite Hlt. fold T1. rewrite Ep.
    rewrite <- (take_drop (16 * k) (drop t d)). eapply crypted_app; [exact C2|]. rewrite Hl2, <- Nat.mul_add_distr_l. exact C3.
  - rewrite Hm3. do 2 f_equal. unfold d2. rewrite !length_drop in *. lia.
Qed.

(** *** The states between calls *)

(** The encrypted first counter block, which masks the tag. *)
Context (ek0 : bytes).

(** [A] is authenticated and nothing is encrypted yet. *)
Record authenticating (A : bytes) (ctx : GCM128_CONTEXT) : Prop := {
  auth_key : gcm_key ctx = gk;
  auth_Yi : Yi ctx = cb;
  auth_EK0 : EK0 ctx = ek0;
  auth_Xi : Xi ctx = hash_state H A;
  auth_aad : len_aad ctx = Z.of_nat (length A) /\ ares ctx = Z.of_nat (length A mod 16);
  auth_msg : len_msg ctx = 0 /\ mres ctx = 0;
  auth_ok : bytes_ok A /\ Z.of_nat (length A) <= 2 ^ 61
}.
(** [C] is the ciphertext after [A]. *)
Record messaging (A C : bytes) (ctx : GCM128_CONTEXT) : Prop := {
  mess_at : at_byte (padded A ++ C) (length C) ctx;
  mess_EK0 : EK0 ctx = ek0;
  mess_aad : len_aad ctx = Z.of_nat (length A) /\ ares ctx = 0;
  mess_msg : len_msg ctx = Z.of_nat (length C) /\ mres ctx = Z.of_nat (length C mod 16);
  mess_ok : bytes_ok A /\ Z.of_nat (length A) <= 2 ^ 61 /\ Z.of_nat (length C) <= 2 ^ 36 - 32
}.
Definition started (A C : bytes) (ctx : GCM128_CONTEXT) : Prop :=
  (C = [] /\ authenticating A ctx) \/ messaging A C ctx.

(** The padding of the associated data, if there is an incomplete block. *)
Lemma end_block_run A r ctx w :
  gcm_key ctx = gk -> Xi ctx = hash_state H A -> bytes_ok A -> r = Z.of_nat (length A mod 16) ->
  (if negb (r =? 0) then GCM_MUL else ret tt) ctx w = Ret (tt, set_Xi (hash_state H (padded A)) ctx, w).
Proof.
  intros Hk HX HA ->. destruct (pending_length A) as [Hl _]. destruct H_ok as [Ho Hl'].
  destruct (Z.eqb_spec (Z.of_nat (length A mod 16)) 0) as [Hz|Hz]; cbn [negb].
  - rewrite (padded_whole A), <- HX; [by destruct ctx|]. destruct (pending A); [done|cbn [length] in Hl; lia].
  - unfold GCM_MUL, get_ctx, update, get_ctx. rewrite (bind_ret_run get_stream _ ctx w ctx ctx w) by done.
    rewrite HX, Hk, (mul_padded H Ho Hl' _ gk_table A HA); [done|]. destruct (pending A); [cbn [length] in Hl; lia|done].
Qed.

Lemma ares_same ctx : ares ctx = 0 -> set_ares 0 ctx = ctx.
Proof. by destruct ctx; cbn; intros ->. Qed.
Lemma crypt_begin_run A C (n : nat) ctx w :
  started A C ctx -> Z.of_nat (length C) + Z.of_nat n <= 2 ^ 36 - 32 ->
  exists ctx', crypt_begin (Z.of_nat n) ctx w = Ret (true, ctx', w) /\
    at_byte (padded A ++ C) (length C) ctx' /\ mres ctx' = Z.of_nat (length C mod 16) /\ EK0 ctx' = ek0 /\
    len_aad ctx' = Z.of_nat (length A) /\ ares ctx' = 0 /\ len_msg ctx' = Z.of_nat (length C + n).
Proof.
  intros Hst Hlim. unfold crypt_begin, get_ctx. rewrite (bind_ret_run get_stream _ ctx w ctx ctx w) by done. cbn zeta.
  assert (len_msg ctx = Z.of_nat (length C)) as Hm by (destruct Hst as [[-> [? ? ? ? ? [-> _] ?]]|[? ? ? [-> _] ?]]; done).
  assert (u64 (len_msg ctx + Z.of_nat n) = Z.of_nat (length C + n)) as ->
    by (rewrite Hm, Nat2Z.inj_add; apply Z.mod_small; lia).
  rewrite (proj2 (Z.ltb_ge _ (Z.of_nat (length C + n)))), (proj2 (Z.ltb_ge (Z.of_nat (length C + n)) _)) by lia. cbn [orb].
  destruct Hst as [[-> [Hk HY HE HX [Ha1 Ha2] [Hm1 Hm2] [HA _]]]|[Ha HE [Ha1 Ha2] [Hm1 Hm2] _]].
  - exists (set_ares 0 (set_Xi (hash_state H (padded A)) (set_msg (Z.of_nat (0 + n)) ctx))).
    destruct (pending_padded A) as [Hp1 _]. split.
    + pose proof (end_block_run A (ares ctx) (set_msg (Z.of_nat (0 + n)) ctx) w Hk HX HA Ha2) as Er.
      unfold update, get_ctx, get_stream, put_stream, ret, bind in *. cbn [length Nat.add] in *.
      destruct (Z.eqb_spec (ares ctx) 0) as [Hz|Hz]; cbn [negb] in *; [|by rewrite Er].
      apply (f_equal (fun r => match r with Ret (_, c, _) => c | _ => ctx end)) in Er. cbv beta iota in Er.
      rewrite (ares_same (set_Xi _ _)) by exact Hz. by rewrite <- Er.
    + split; [|done]. rewrite app_nil_r. apply (at_whole _ 0); [exact Hk| |reflexivity|by apply padded_ok|exact Hp1].
      by rewrite counter_block_0.
  - exists (set_msg (Z.of_nat (length C + n)) ctx). rewrite Ha2. split; [done|]. split; [|done].
    by destruct Ha as [? ? ? ? ?].
Qed.

Lemma crypt_call_run enc step A C d in_ out ctx w :
  step_ok enc step -> started A C ctx -> ready (w_mem w) in_ out d -> bytes_ok d ->
  Z.of_nat (length C) + Z.of_nat (length d) <= 2 ^ 36 - 32 ->
  let c := gctr_at E cb (length C) d in
  exists ctx' m', crypt_call enc key step in_ out (Z.of_nat (length d)) ctx w = Ret (true, ctx', set_mem m' w) /\
    wrote (w_mem w) m' out c /\ messaging A (C ++ cipher_part enc d c) ctx'.
Proof.
  cbn zeta. intros Hst Hs Hr Hd Hlim.
  destruct (crypt_begin_run A C (length d) ctx w Hs Hlim) as (ctx1 & E1 & A1 & M1 & K1 & L1 & R1 & N1).
  destruct (crypt_rest_run enc step _ _ d in_ out ctx1 w Hst A1 M1 Hr Hd) as (ctx2 & m' & E2 & (W & A2 & F2) & M2); [lia|].
  exists ctx2, m'. split; [|split; [done|]].
  - unfold crypt_call. rewrite (bind_ret_run _ _ _ _ _ _ _ E1). exact E2.
  - destruct F2 as (F1 & F2 & F3 & F4 & F5).
    assert (length (C ++ cipher_part enc d (gctr_at E cb (length C) d)) = length C + length d)%nat as Hl
      by (rewrite length_app, cipher_part_length; [done|apply length_gctr]).
    split; [by rewrite Hl, app_assoc|congruence|by rewrite F2, F5|by rewrite Hl, F3, N1|].
    rewrite Hl. split; [|split; [|lia]]; by destruct Hs as [[_ [? ? ? ? ? ? [? ?]]]|[? ? ? ? (? & ? & ?)]].
Qed.

(** *** Associated data *)

Lemma mix_run y buf b ctx w :
  Xi ctx = mixed y buf -> (length buf < 16)%nat ->
  mix (Z.of_nat (length buf)) b ctx w = Ret (tt, set_Xi (mixed y (buf ++ [b])) ctx, w).
Proof.
  intros HX Hl. destruct (mixed_byte y buf b Hl) as (x & Hx & Hi). unfold mix, update, get_ctx.
  rewrite (bind_ret_run get_stream _ ctx w ctx ctx w) by done. rewrite Nat2Z.id, HX.
  rewrite (bind_ret_run (of_option _) _ ctx w x ctx w) by (by rewrite Hx). by rewrite Hi.
Qed.
Lemma aad_head_run a n y buf ctx w :
  Xi ctx = mixed y buf -> length buf = n -> (0 < n < 16)%nat ->
  let t := Nat.min (length a) (16 - n) in
  aad_head a (Z.of_nat n) ctx w =
  Ret ((drop t a, Z.of_nat ((n + t) mod 16)), set_Xi (mixed y (buf ++ take t a)) ctx, w).
Proof.
  revert n buf ctx. induction a as [|b a IH]; intros n buf ctx HX Hb Hn; cbn zeta.
  { cbn [length Nat.min take drop aad_head]. rewrite Nat.add_0_r, Nat.mod_small, app_nil_r, <- HX by lia. by destruct ctx. }
  cbn [aad_head]. rewrite (proj2 (Z.eqb_neq (Z.of_nat n) 0)) by lia. rewrite <- Hb at 1.
  rewrite (bind_ret_run _ _ _ _ _ _ _ (mix_run y buf b ctx w HX ltac:(lia))).
  assert ((Z.of_nat n + 1) mod 16 = Z.of_nat ((n + 1) mod 16)) as -> by (rewrite Nat2Z.inj_mod, Nat2Z.inj_add; done).
  assert (length (buf ++ [b]) = n + 1)%nat as Hb' by (rewrite length_app; cbn; lia).
  destruct (decide (n + 1 = 16)%nat) as [H16|H16].
  - assert (Nat.min (length (b :: a)) (16 - n) = 1)%nat as -> by (cbn [length]; lia).
    cbn [take drop]. rewrite H16. by destruct a.
  - rewrite (Nat.mod_small (n + 1)) by lia. rewrite (IH (n + 1)%nat (buf ++ [b])) by (done || lia).
    assert (Nat.min (length (b :: a)) (16 - n) = S (Nat.min (length a) (16 - (n + 1)))) as -> by (cbn [length]; lia).
    cbn [take drop]. rewrite (Nat.add_1_r n), Nat.add_succ_comm, <- app_assoc. done.
Qed.
Lemma aad_rest_run a y buf ctx w :
  Xi ctx = mixed y buf -> (length buf + length a <= 16)%nat ->
  aad_rest a (Z.of_nat (length buf)) ctx w = Ret (tt, set_Xi (mixed y (buf ++ a)) ctx, w).
Proof.
  revert buf ctx. induction a as [|b a IH]; intros buf ctx HX Hl; cbn [aad_rest length] in *.
  { rewrite app_nil_r, <- HX. by destruct ctx. }
  rewrite (bind_ret_run _ _ _ _ _ _ _ (mix_run y buf b ctx w HX ltac:(lia))).
  replace (Z.of_nat (length buf) + 1) with (Z.of_nat (length (buf ++ [b]))) by (rewrite length_app; cbn [length]; lia).
  rewrite IH by (done || (rewrite length_app; cbn [length]; lia)). by rewrite <- app_assoc.
Qed.

(** Whole blocks and the bytes after them. *)
Definition aad_tail (aad : bytes) (n : Z) : gcm_m bool :=
  let len := Z.of_nat (length aad) in
  let len_blocks := Z.land len kSizeTWithoutLower4Bits in
  (if negb (len_blocks =? 0) then GHASH (take (Z.to_nat len_blocks) aad) else ret tt) ;;
  let aad := drop (Z.to_nat len_blocks) aad in
  let len := len - len_blocks in
  n <- (if negb (len =? 0) then aad_rest aad 0 ;; ret len else ret n) ;;
  update (set_ares n) ;; ret true.
Lemma aad_tail_run A a ctx w :
  gcm_key ctx = gk -> Xi ctx = hash_state H A -> bytes_ok A -> pending A = [] -> bytes_ok a -> Z.of_nat (length a) < 2 ^ 64 ->
  aad_tail a 0 ctx w =
  Ret (true, set_ares (Z.of_nat (length (A ++ a) mod 16)) (set_Xi (hash_state H (A ++ a)) ctx), w).
Proof.
  intros Hk HX HA Hn Ha Hlim. pose proof (Nat.div_mod_eq (length a) 16) as Ea.
  set (k := (length a / 16)%nat) in *. destruct H_ok as [Ho Hl'].
  assert (Z.land (Z.of_nat (length a)) kSizeTWithoutLower4Bits = Z.of_nat (16 * k)) as El.
  { rewrite land_blocks by lia. rewrite Nat2Z.inj_mul. unfold k. by rewrite Nat2Z.inj_div. }
  unfold aad_tail. cbn zeta. rewrite El, Nat2Z.id.
  set (a1 := take (16 * k) a). set (a2 := drop (16 * k) a).
  assert (length a1 = 16 * k)%nat as Hl1 by (unfold a1; rewrite length_take; lia).
  assert (length a2 = length a mod 16)%nat as Hl2 by (unfold a2; rewrite length_drop; lia).
  pose proof (Nat.mod_upper_bound (length a) 16 ltac:(lia)) as Hmod16.
  assert (bytes_ok a1) as Ha1 by (by apply Forall_take).
  set (ctx1 := set_Xi (hash_state H (A ++ a1)) ctx).
  assert ((if negb (Z.of_nat (16 * k) =? 0) then GHASH a1 else ret tt) ctx w = Ret (tt, ctx1, w)) as E1.
  { destruct (Z.eqb_spec (Z.of_nat (16 * k)) 0) as [Hz|Hz]; cbn [negb].
    - assert (a1 = []) as Hnil by (destruct a1; [done|cbn [length] in Hl1; lia]).
      unfold ctx1. rewrite Hnil, app_nil_r, <- HX. by destruct ctx.
    - unfold GHASH, get_ctx, update, get_ctx. rewrite (bind_ret_run get_stream _ ctx w ctx ctx w) by done.
      rewrite HX, Hk, (ghash_blocks_run H Ho Hl' _ gk_table A a1 k) by done. done. }
  rewrite (bind_ret_run _ _ _ _ _ _ _ E1).
  assert (pending (A ++ a1) = []) as Hp by (by eapply pending_blocks).
  assert (length (A ++ a) mod 16 = length a2)%nat as Hm.
  { destruct (pending_length A) as [Hz _]. rewrite Hn in Hz. cbn [length] in Hz.
    by rewrite length_app, Nat.Div0.add_mod, <- Hz, Nat.add_0_l, Nat.Div0.mod_mod. }
  assert (A ++ a = (A ++ a1) ++ a2) as Eapp by (unfold a1, a2; by rewrite <- app_assoc, take_drop).
  assert (Z.of_nat (length a) - Z.of_nat (16 * k) = Z.of_nat (length a2)) as -> by lia.
  destruct (hash_short H (A ++ a1) a2) as [E2 E3]; [rewrite Hp; cbn [length]; lia|]. rewrite Hp in E3.
  rewrite Hm, Eapp. unfold hash_state. rewrite E2, E3. destruct (Z.eqb_spec (Z.of_nat (length a2)) 0) as [Hz|Hz]; cbn [negb].
  - assert (a2 = []) as -> by (destruct a2; [done|cbn [length] in *; lia]). rewrite Hz, app_nil_r.
    unfold ctx1, hash_state. by rewrite Hp.
  - rewrite bind_assoc. rewrite (bind_ret_run _ _ _ _ _ _ _ (aad_rest_run a2 (hashed H (A ++ a1)) [] ctx1 w
      ltac:(unfold ctx1, hash_state; by rewrite Hp) ltac:(cbn [length]; lia))). done.
Qed.

Lemma aad_run A a ctx w :
  authenticating A ctx -> bytes_ok a -> Z.of_nat (length A) + Z.of_nat (length a) <= 2 ^ 61 ->
  exists ctx', CRYPTO_gcm128_aad a ctx w = Ret (true, ctx', w) /\ authenticating (A ++ a) ctx'.
Proof.
  intros [Hk HY HE HX [Ha1 Ha2] [Hm1 Hm2] [HA _]] Ha Hlim. destruct H_ok as [Ho Hl'].
  set (n := (length A mod 16)%nat) in *. destruct (pending_length A) as [Hp Hn]. fold n in Hp, Hn.
  set (ctx1 := set_aad (Z.of_nat (length (A ++ a))) ctx).
  assert (forall ctx', gcm_key ctx' = gk -> Yi ctx' = cb -> EK0 ctx' = ek0 -> Xi ctx' = hash_state H (A ++ a) ->
    len_aad ctx' = len_aad ctx1 -> ares ctx' = Z.of_nat (length (A ++ a) mod 16) -> len_msg ctx' = 0 -> mres ctx' = 0 ->
    authenticating (A ++ a) ctx') as Hdone.
  { intros ctx' ? ? ? ? ? ? ? ?. split; try done. split; [by apply Forall_app|rewrite length_app; lia]. }
  assert (CRYPTO_gcm128_aad a ctx w =
    (r <- (if negb (ares ctx =? 0) then
             h <- aad_head a (ares ctx) ;;
             if snd h =? 0 then GCM_MUL ;; ret (Some h) else update (set_ares (snd h)) ;; ret None
           else ret (Some (a, ares ctx))) ;;
     match r with None => ret true | Some (aad, n) => aad_tail aad n end) ctx1 w) as ->.
  { unfold CRYPTO_gcm128_aad, get_ctx. rewrite (bind_ret_run get_stream _ ctx w ctx ctx w) by done. cbn zeta. rewrite Hm1.
    assert (u64 (len_aad ctx + Z.of_nat (length a)) = Z.of_nat (length (A ++ a))) as ->
      by (rewrite Ha1, length_app, Nat2Z.inj_add; apply Z.mod_small; lia).
    rewrite (proj2 (Z.ltb_ge _ (Z.of_nat (length (A ++ a))))), (proj2 (Z.ltb_ge (Z.of_nat (length (A ++ a))) _))
      by (rewrite length_app; lia). done. }
  rewrite Ha2. destruct (decide (n = 0)%nat) as [Hz|Hz].
  - rewrite Hz. change (negb (Z.of_nat 0 =? 0)) with false. cbv iota. rewrite (bind_ret_run (ret _) _ ctx1 w _ ctx1 w eq_refl).
    eexists. split; [apply (aad_tail_run A a ctx1 w Hk HX HA); [|done|lia]|by apply Hdone].
    destruct (pending A); [done|cbn [length] in Hp; lia].
  - rewrite (proj2 (Z.eqb_neq (Z.of_nat n) 0)) by lia. cbn [negb]. rewrite bind_assoc.
    pose proof (aad_head_run a n (hashed H A) (pending A) ctx1 w HX Hp ltac:(lia)) as Eh. cbn zeta in Eh.
    set (t := Nat.min (length a) (16 - n)) in *. rewrite (bind_ret_run _ _ _ _ _ _ _ Eh). cbn [fst snd].
    assert (length (take t a) = t) as Hlt by (rewrite length_take; lia).
    destruct (decide (n + t = 16)%nat) as [H16|H16].
    + rewrite H16. change (Z.of_nat (16 mod 16) =? 0) with true. cbv iota. rewrite bind_assoc.
      assert (bytes_ok (take t a)) as Hta by (by apply Forall_take).
      assert (length (pending A ++ take t a) = 16%nat) as Hfull by (rewrite length_app; lia).
      rewrite (bind_ret_run _ _ _ _ _ _ _ (GCM_MUL_run A (take t a) (set_Xi (mixed (hashed H A) (pending A ++ take t a)) ctx1) w
        Hk HA Hta Hfull eq_refl)).
      rewrite (bind_ret_run (ret _) _ _ w _ _ w eq_refl). change (Z.of_nat (16 mod 16)) with 0.
      eexists. split.
      * apply (aad_tail_run (A ++ take t a) (drop t a)); [exact Hk|reflexivity|by apply Forall_app| |by apply Forall_drop|rewrite length_drop; lia].
        by apply (hash_full H A (take t a)).
      * rewrite <- app_assoc, take_drop. by apply Hdone.
    + rewrite Nat.mod_small by lia. rewrite (proj2 (Z.eqb_neq _ 0)) by lia. eexists. split; [done|].
      rewrite (take_ge a) by lia. destruct (hash_short H A a) as [E1 E2]; [lia|].
      apply Hdone; try done.
      * unfold hash_state. by rewrite E1, E2.
      * cbn [set_ares ares]. f_equal. destruct (pending_length (A ++ a)) as [<- _]. rewrite E2, length_app. lia.
Qed.

(** *** The tag *)

(** The block that has the lengths, in bits. *)
Definition lengths_block (A C : bytes) : bytes :=
  be_bytes 8 (8 * Z.of_nat (length A)) ++ be_bytes 8 (8 * Z.of_nat (length C)).
Definition gcm_hash (key A C : bytes) : bytes := ghash_bytes key (padded A ++ padded C ++ lengths_block A C).

Lemma length_lengths A C : length (lengths_block A C) = 16%nat.
Proof. unfold lengths_block. by rewrite length_app, !length_be_bytes. Qed.
Lemma lengths_ok A C : bytes_ok (lengths_block A C).
Proof. apply Forall_app. split; apply be_bytes_ok. Qed.

Lemma padded_nil : padded [] = [].
Proof. done. Qed.
Lemma started_end A C ctx w :
  started A C ctx ->
  (if negb (mres ctx =? 0) || negb (ares ctx =? 0) then GCM_MUL else ret tt) ctx w =
  Ret (tt, set_Xi (hash_state H (padded A ++ padded C)) ctx, w) /\
  gcm_key ctx = gk /\ EK0 ctx = ek0 /\ len_aad ctx = Z.of_nat (length A) /\ len_msg ctx = Z.of_nat (length C) /\
  bytes_ok (padded A ++ padded C) /\ pending (padded A ++ padded C) = [] /\
  Z.of_nat (length A) <= 2 ^ 61 /\ Z.of_nat (length C) <= 2 ^ 36 - 32.
Proof.
  intros [[-> [Hk HY HE HX [Ha1 Ha2] [Hm1 Hm2] [HA Hlim]]]|[[Hk HY _ HX [HT HTm]] HE [Ha1 Ha2] [Hm1 Hm2] (HA & Hlim)]].
  - rewrite padded_nil, app_nil_r, Hm2. cbn [Z.eqb negb orb]. split; [by apply end_block_run|].
    split_and!; try done. + by apply padded_ok. + apply pending_padded.
  - rewrite Ha2. cbn [Z.eqb negb]. rewrite orb_false_r, <- padded_app. split.
    + apply end_block_run; [done|done|done|]. by rewrite Hm2, HTm.
    + split_and!; try done; [by apply padded_ok|apply pending_padded|lia|lia].
Qed.

Context (ek0_ok : bytes_ok ek0) (ek0_length : length ek0 = 16%nat).

Lemma gcm_finish_run A C (t : option bytes) len ctx w :
  started A C ctx ->
  exists ctx', Xi ctx' = zip_with Z.lxor (gcm_hash H A C) ek0 /\
    CRYPTO_gcm128_finish t len ctx w =
    (match t with
     | Some t =>
         if len <=? 16 then
           x <- lift (get (Xi ctx') len) ;; y <- lift (get t len) ;; ret (CRYPTO_memcmp x y =? 0)
         else ret false
     | None => ret false
     end) ctx' w.
Proof.
  intros Hst. destruct (started_end A C ctx w Hst) as (E1 & Hk & HE & Ha & Hm & HT & Hp & Hla & Hlc).
  set (T := padded A ++ padded C) in *. set (b := lengths_block A C).
  set (ctx1 := set_Xi (hash_state H T) ctx).
  assert (length b = 16%nat) as Hlb by apply length_lengths. assert (bytes_ok b) as Hob by apply lengths_ok.
  assert (gcm_hash H A C = hash_state H (T ++ b)) as Eh.
  { unfold gcm_hash, T. rewrite <- app_assoc. symmetry. apply hash_state_whole. rewrite app_assoc.
    by apply (pending_blocks T b 1). }
  set (ctx2 := set_Xi (mixed (hashed H T) b) ctx1). set (ctx3 := set_Xi (hash_state H (T ++ b)) ctx2).
  set (ctx4 := set_Xi (zip_with Z.lxor (gcm_hash H A C) ek0) ctx3). exists ctx4. split; [done|].
  unfold CRYPTO_gcm128_finish, get_ctx. rewrite (bind_ret_run get_stream _ ctx w ctx ctx w) by done.
  rewrite (bind_ret_run _ _ _ _ _ _ _ E1). fold ctx1. cbn zeta. rewrite Ha, Hm.
  rewrite !store_bits. fold (lengths_block A C). fold b.
  assert (CRYPTO_xor16 (Xi ctx1) b = mixed (hashed H T) b) as Ex1.
  { change (Xi ctx1) with (hash_state H T). rewrite xor16_state by (done || lia). by rewrite take_ge by lia. }
  rewrite (bind_ret_run (update _) _ ctx1 w tt ctx2 w) by (unfold update, get_ctx, bind, get_stream, put_stream; by rewrite Ex1).
  assert (length (pending T ++ b) = 16%nat) as Hfull by (by rewrite Hp).
  rewrite (bind_ret_run _ _ _ _ _ _ _ (GCM_MUL_run T b ctx2 w Hk HT Hob Hfull ltac:(by rewrite Hp))). fold ctx3.
  assert (CRYPTO_xor16 (Xi ctx3) (EK0 ctx3) = zip_with Z.lxor (gcm_hash H A C) ek0) as Ex3.
  { change (EK0 ctx3) with (EK0 ctx). change (Xi ctx3) with (hash_state H (T ++ b)). rewrite HE, <- Eh.
    rewrite xor16_ok by (apply block_bytes_ok || apply length_block_bytes || done || lia). by rewrite take_ge by lia. }
  rewrite (bind_ret_run (update _) _ ctx3 w tt ctx4 w) by (unfold update, get_ctx, bind, get_stream, put_stream; by rewrite Ex3).
  by rewrite (bind_ret_run get_stream _ ctx4 w ctx4 ctx4 w) by done.
Qed.

(** The tag of the standard, of 16 bytes. *)
Definition full_tag (A C : bytes) : bytes := zip_with Z.lxor (gcm_hash H A C) ek0.
Lemma length_full_tag A C : length (full_tag A C) = 16%nat.
Proof. unfold full_tag, gcm_hash, ghash_bytes. rewrite length_zip_with, length_block_bytes. lia. Qed.

Lemma tag_run A C (n : nat) ctx w :
  started A C ctx ->
  exists ctx', CRYPTO_gcm128_tag (Z.of_nat n) ctx w = Ret (take n (full_tag A C), ctx', w).
Proof.
  intros Hst. destruct (gcm_finish_run A C None 0 ctx w Hst) as (ctx' & HX & E1). exists ctx'.
  unfold CRYPTO_gcm128_tag, get_ctx. rewrite (bind_ret_run _ _ _ _ _ _ _ E1).
  rewrite (bind_ret_run get_stream _ ctx' w ctx' ctx' w) by done. rewrite HX. fold (full_tag A C).
  pose proof (length_full_tag A C) as Hl. destruct (Z.leb_spec (Z.of_nat n) 16) as [Hn|Hn].
  - rewrite get_run, Nat2Z.id by lia. done.
  - rewrite get_run by lia. by rewrite !take_ge by lia.
Qed.
Lemma verify_run A C (t : bytes) ctx w :
  started A C ctx -> (length t <= 16)%nat ->
  exists ctx', CRYPTO_gcm128_finish (Some t) (Z.of_nat (length t)) ctx w =
    Ret (bool_decide (t = take (length t) (full_tag A C)), ctx', w).
Proof.
  intros Hst Hlt. destruct (gcm_finish_run A C (Some t) (Z.of_nat (length t)) ctx w Hst) as (ctx' & HX & E1). exists ctx'.
  rewrite E1, HX. fold (full_tag A C). pose proof (length_full_tag A C) as Hl.
  rewrite (proj2 (Z.leb_le _ 16)) by lia. rewrite !get_run by lia. cbn [lift]. rewrite Nat2Z.id, (take_ge t) by lia.
  rewrite (bind_ret_run (ret _) _ ctx' w _ ctx' w eq_refl), (bind_ret_run (ret _) _ ctx' w _ ctx' w eq_refl).
  by rewrite memcmp_equal by (rewrite length_take; lia).
Qed.
End data.

(** ** The initial counter block *)

(** J0 of the standard. *)
Definition first_counter (key iv : bytes) : bytes :=
  if (length iv =? 12)%nat then iv ++ [0; 0; 0; 1]
  else ghash_bytes key (padded iv ++ zeros 8 ++ be_bytes 8 (8 * Z.of_nat (length iv))).

Lemma first_counter_ok key iv : bytes_ok iv -> bytes_ok (first_counter key iv) /\ length (first_counter key iv) = 16%nat.
Proof.
  intros Hiv. unfold first_counter. destruct (Nat.eqb_spec (length iv) 12) as [Hl|_].
  - rewrite length_app, Hl. split; [|done]. apply Forall_app. split; [done|]. repeat constructor; unfold is_byte; lia.
  - split; [apply block_bytes_ok|apply length_block_bytes].
Qed.

Section initial.
Context (key : bytes) (key_ok : bytes_ok key) (key_length : length key = 16%nat).
Context (table : list u128) (table_ok : key_table table key).

Lemma setiv_loop_run fuel T iv :
  bytes_ok T -> pending T = [] -> bytes_ok iv -> (length iv <= fuel)%nat ->
  setiv_loop fuel (hash_state key T) table iv = Ret (hash_state key (padded (T ++ iv))).
Proof.
  revert T iv. induction fuel as [|fuel IH]; intros T iv HT Hn Hiv Hf; cbn [setiv_loop];
    (destruct (Z.leb_spec 16 (Z.of_nat (length iv))) as [Hc|Hc]; [try lia|]).
  2: { rewrite xor16_state by (done || lia).
    assert (T ++ iv = (T ++ take 16 iv) ++ drop 16 iv) as -> by (by rewrite <- app_assoc, take_drop).
    assert (length (take 16 iv) = 16%nat) as Hl1 by (rewrite length_take; lia).
    assert (bytes_ok (take 16 iv)) as Ht by (by apply Forall_take).
    pose proof (mul_block key key_ok key_length table table_ok T (take 16 iv) HT Ht ltac:(by rewrite Hn)) as E1.
    rewrite Hn in E1. cbn [app] in E1. rewrite E1. apply IH.
    - by apply Forall_app.
    - by apply (pending_blocks T (take 16 iv) 1).
    - by apply Forall_drop.
    - rewrite length_drop. lia. }
  all: destruct (Z.eqb_spec (Z.of_nat (length iv)) 0) as [Hz|Hz]; cbn [negb];
    [assert (iv = []) as -> by (destruct iv; [done|cbn [length] in Hz; lia]); by rewrite app_nil_r, (padded_whole T) by done|].
  all: try (destruct iv; [done|cbn [length] in Hf; lia]).
  destruct (hash_short key T iv) as [E1 E2]; [rewrite Hn; cbn [length]; lia|]. rewrite Hn in E2.
  rewrite <- (mul_padded key key_ok key_length table table_ok (T ++ iv));
    [|by apply Forall_app|rewrite E2; destruct iv; [cbn in Hz; lia|done]].
  f_equal. unfold hash_state. rewrite E1, E2, Hn, mixed_nil. unfold mixed. cbn [app].
  rewrite <- (take_drop (length iv) (block_bytes (hashed key T))) at 3.
  pose proof (length_block_bytes (hashed key T)) as Hl.
  rewrite zip_with_app by (rewrite length_take; lia). f_equal.
  symmetry. apply zip_lxor_zeros. rewrite length_drop. lia.
Qed.
End initial.

Lemma setiv_run block key gk iv ctx w :
  block_cipher (block key) -> key_block gk = block -> key_table (Htable gk) (block key (zeros 16)) ->
  gcm_key ctx = gk -> bytes_ok iv ->
  let J0 := first_counter (block key (zeros 16)) iv in
  exists ctx', CRYPTO_gcm128_setiv key iv ctx w = Ret (tt, ctx', w) /\
    authenticating block key gk (counter_block J0 1) (block key J0) [] ctx'.
Proof.
  intros HE Hb Ht Hk Hiv. cbn zeta. set (H := block key (zeros 16)) in *. set (J0 := first_counter H iv).
  destruct (first_counter_ok H iv Hiv) as [HJo HJl]. fold J0 in HJo, HJl.
  destruct (HE (zeros 16) (replicate_zero_ok 16) eq_refl) as [Ho Hl]. fold H in Ho, Hl.
  set (ctx0 := Gcm (zeros 16) (EKi ctx) (EK0 ctx) 0 0 (zeros 16) (gcm_key ctx) 0 0).
  set (tail := fun ctr => c <- get_ctx ;; update (set_EK0 (key_block (gcm_key c) key (Yi c))) ;;
    update (set_Yi (store_ctr (Yi c) (u32 (ctr + 1))))).
  assert (tail (CRYPTO_load_u32_be (drop 12 J0)) (set_Yi J0 ctx0) w =
    Ret (tt, set_Yi (counter_block J0 1) (set_EK0 (block key J0) ctx0), w)) as Etail.
  { unfold tail, update, get_ctx, bind, get_stream, put_stream, ret. cbn -[store_ctr]. rewrite Hk, Hb.
    pose proof (load_ctr_ok J0 HJl 0) as E0. rewrite counter_block_0 in E0 by done. rewrite E0.
    rewrite (ctr_at_more J0 HJl 0 1 : u32 (ctr_at J0 0 + 1) = _).
    pose proof (store_ctr_ok J0 HJl 0 (0 + 1)) as E1. rewrite counter_block_0 in E1 by done. by rewrite E1. }
  exists (set_Yi (counter_block J0 1) (set_EK0 (block key J0) ctx0)). split.
  - rewrite <- Etail. unfold J0, first_counter in Etail |- *. unfold CRYPTO_gcm128_setiv.
    destruct (Nat.eqb_spec (length iv) 12) as [H12|H12].
    + rewrite (proj2 (Z.eqb_eq (Z.of_nat (length iv)) 12)) by lia.
      do 12 (destruct iv as [|? iv]; [done|]). by destruct iv.
    + rewrite (proj2 (Z.eqb_neq (Z.of_nat (length iv)) 12)) by lia. rewrite store_bits.
      set (b := zeros 8 ++ be_bytes 8 (8 * Z.of_nat (length iv))).
      assert (bytes_ok b /\ length b = 16%nat) as [Hbo Hbl].
      { split; [apply Forall_app; split; [apply (replicate_zero_ok 8)|apply be_bytes_ok]|done]. }
      destruct (pending_padded iv) as [Hp _]. pose proof (padded_ok iv Hiv) as Hpo.
      assert (setiv_loop (length iv) (zeros 16) (Htable gk) iv = Ret (hash_state H (padded iv))) as E1
        by (rewrite <- (hash_state_nil H); apply (setiv_loop_run H Ho Hl _ Ht (length iv) []); [constructor|done..]).
      assert (gcm_gmult_nohw (CRYPTO_xor16 (hash_state H (padded iv)) b) (Htable gk) =
        Ret (ghash_bytes H (padded iv ++ b))) as E2.
      { rewrite xor16_state, take_ge by (done || lia).
        pose proof (mul_block H Ho Hl _ Ht (padded iv) b Hpo Hbo ltac:(by rewrite Hp)) as E2. rewrite Hp in E2. cbn [app] in E2.
        rewrite E2. f_equal. apply hash_state_whole. by apply (pending_blocks _ b 1). }
      unfold update, get_ctx, bind, get_stream, put_stream, ret. cbn [set_Yi set_Xi set_aad set_msg set_ares set_mres Yi gcm_key].
      rewrite Hk, E1. cbn [lift ret]. rewrite E2. reflexivity.
  - split; [exact Hk|reflexivity|reflexivity|symmetry; apply hash_state_nil|done|done|].
    split; [constructor|cbn; lia].
Qed.

(** ** Messages *)

(** The functions of the standard, for the block cipher [E]. *)
Definition gcm_J0 (E : bytes -> bytes) (iv : bytes) : bytes := first_counter (E (zeros 16)) iv.
Definition gcm_crypt (E : bytes -> bytes) (iv d : bytes) : bytes := gctr E (counter_block (gcm_J0 E iv) 1) d.
Definition gcm_tag (E : bytes -> bytes) (iv A C : bytes) : bytes :=
  zip_with Z.lxor (gcm_hash (E (zeros 16)) A C) (E (gcm_J0 E iv)).

(** A caller: associated data and data in pieces, each piece of data with the routine
    for runs of blocks or without. *)
Fixpoint aad_pieces (aads : list bytes) : gcm_m bool :=
  match aads with
  | [] => ret true
  | a :: aads => ok <- CRYPTO_gcm128_aad a ;; oks <- aad_pieces aads ;; ret (ok && oks)
  end.
Definition one_piece (enc ctr32 : bool) (stream : ctr128_f) (key : AES_KEY) (in_ out len : Z) : gcm_m bool :=
  match enc, ctr32 with
  | true, false => CRYPTO_gcm128_encrypt key in_ out len
  | true, true => CRYPTO_gcm128_encrypt_ctr32 stream key in_ out len
  | false, false => CRYPTO_gcm128_decrypt key in_ out len
  | false, true => CRYPTO_gcm128_decrypt_ctr32 stream key in_ out len
  end.
Fixpoint data_pieces (enc : bool) (stream : ctr128_f) (key : AES_KEY) (in_ out : Z) (ps : list (bool * nat)) : gcm_m bool :=
  match ps with
  | [] => ret true
  | (ctr32, n) :: ps =>
      ok <- one_piece enc ctr32 stream key in_ out (Z.of_nat n) ;;
      oks <- data_pieces enc stream key (in_ + Z.of_nat n) (out + Z.of_nat n) ps ;; ret (ok && oks)
  end.
Definition gcm_message (enc : bool) (stream : ctr128_f) (key : AES_KEY) (iv : bytes) (aads : list bytes)
    (in_ out : Z) (ps : list (bool * nat)) : gcm_m bool :=
  CRYPTO_gcm128_setiv key iv ;;
  oks <- aad_pieces aads ;; oks' <- data_pieces enc stream key in_ out ps ;; ret (oks && oks').
Definition sizes (ps : list (bool * nat)) : nat := list_sum (snd <$> ps).

Section message.
Context (block : block128_f) (stream : ctr128_f) (key : AES_KEY) (hw : bool).
Context (E_ok : block_cipher (block key)) (stream_ok : ctr32_ok block key stream).
#[local] Abbreviation E := (block key).
#[local] Abbreviation H := (E (zeros 16)).
#[local] Abbreviation gk := (CRYPTO_gcm128_init_key key block hw).

Lemma init_table : key_table (Htable gk) H.
Proof. by apply ghash_init_ok. Qed.

Section iv.
Context (iv : bytes) (iv_ok : bytes_ok iv).
#[local] Abbreviation cb := (counter_block (gcm_J0 E iv) 1).
#[local] Abbreviation ek0 := (E (gcm_J0 E iv)).
#[local] Abbreviation auth := (authenticating block key gk cb ek0).
#[local] Abbreviation start := (started block key gk cb ek0).

Lemma J0_ok : bytes_ok (gcm_J0 E iv) /\ length (gcm_J0 E iv) = 16%nat.
Proof. by apply first_counter_ok. Qed.
Lemma cb_ok : bytes_ok cb /\ length cb = 16%nat.
Proof. destruct J0_ok. split; [by apply counter_block_ok|by apply counter_block_length]. Qed.

Lemma aad_pieces_run aads A ctx w :
  auth A ctx -> bytes_ok (concat aads) -> Z.of_nat (length A) + Z.of_nat (length (concat aads)) <= 2 ^ 61 ->
  exists ctx', aad_pieces aads ctx w = Ret (true, ctx', w) /\ auth (A ++ concat aads) ctx'.
Proof.
  revert A ctx. induction aads as [|a aads IH]; intros A ctx Ha Hok Hlim.
  { exists ctx. by rewrite app_nil_r. }
  cbn [concat] in *. apply Forall_app in Hok as [Hok1 Hok2]. rewrite length_app in Hlim.
  destruct (aad_run block key gk E_ok init_table cb (proj2 cb_ok) ek0 A a ctx w) as (ctx1 & E1 & A1); [done|done|lia|].
  destruct (IH (A ++ a) ctx1 A1 Hok2) as (ctx2 & E2 & A2); [rewrite length_app; lia|].
  exists ctx2. split; [|by rewrite app_assoc]. cbn [aad_pieces].
  by rewrite (bind_ret_run _ _ _ _ _ _ _ E1), (bind_ret_run _ _ _ _ _ _ _ E2).
Qed.

Lemma one_piece_run enc ctr32 A C d in_ out ctx w :
  start A C ctx -> ready (w_mem w) in_ out d -> bytes_ok d ->
  Z.of_nat (length C) + Z.of_nat (length d) <= 2 ^ 36 - 32 ->
  let c := gctr_at E cb (length C) d in
  exists ctx' m', one_piece enc ctr32 stream key in_ out (Z.of_nat (length d)) ctx w = Ret (true, ctx', set_mem m' w) /\
    wrote (w_mem w) m' out c /\ start A (C ++ cipher_part enc d c) ctx'.
Proof.
  cbn zeta. intros Hs Hr Hd Hlim. destruct cb_ok as [Hco Hcl].
  assert (exists step, step_ok block key gk cb enc step /\
    one_piece enc ctr32 stream key in_ out (Z.of_nat (length d)) = crypt_call enc key step in_ out (Z.of_nat (length d))) as (step & Hst & ->).
  { pose proof (block_runs block key gk E_ok eq_refl cb Hco Hcl) as Hb.
    pose proof (stream_runs block key gk cb Hco Hcl stream stream_ok) as Hs32.
    destruct enc, ctr32; eexists; (split; [|reflexivity]).
    - exact (encrypt_step_ok block key gk E_ok init_table cb Hco Hcl _ Hs32).
    - exact (encrypt_step_ok block key gk E_ok init_table cb Hco Hcl _ Hb).
    - exact (decrypt_step_ok block key gk E_ok init_table cb Hco Hcl _ Hs32).
    - exact (decrypt_step_ok block key gk E_ok init_table cb Hco Hcl _ Hb). }
  destruct (crypt_call_run block key gk E_ok eq_refl init_table cb Hco Hcl ek0 enc step A C d in_ out ctx w Hst Hs Hr Hd Hlim)
    as (ctx' & m' & E1 & W & M1).
  exists ctx', m'. split; [exact E1|]. split; [exact W|by right].
Qed.
Lemma data_pieces_run enc ps A C d in_ out ctx w :
  start A C ctx -> ready (w_mem w) in_ out d -> bytes_ok d -> sizes ps = length d ->
  Z.of_nat (length C) + Z.of_nat (length d) <= 2 ^ 36 - 32 ->
  let c := gctr_at E cb (length C) d in
  exists ctx' m', data_pieces enc stream key in_ out ps ctx w = Ret (true, ctx', set_mem m' w) /\
    wrote (w_mem w) m' out c /\ start A (C ++ cipher_part enc d c) ctx'.
Proof.
  cbn zeta. revert C d in_ out ctx w. induction ps as [|[ctr32 n] ps IH]; intros C d in_ out ctx w Hs Hr Hd Hsz Hlim.
  { destruct d; [|done]. exists ctx, (w_mem w). split; [by destruct w|]. split; [apply wrote_nil|].
    replace (cipher_part _ _ _) with (@nil Z) by (by destruct enc). by rewrite app_nil_r. }
  change (sizes ((ctr32, n) :: ps)) with (n + sizes ps)%nat in Hsz.
  assert (length (take n d) = n) as Hl1 by (rewrite length_take; lia). rewrite <- (take_drop n d) in Hr.
  destruct (one_piece_run enc ctr32 A C (take n d) in_ out ctx w Hs (ready_take _ _ _ _ _ Hr)) as (ctx1 & m1 & E1 & W1 & S1);
    [by apply Forall_take|lia|].
  pose proof (ready_drop _ _ _ _ _ _ _ Hr W1 (length_gctr _ _ _ _)) as Hr1. rewrite Hl1 in Hr1, E1.
  assert (length (C ++ cipher_part enc (take n d) (gctr_at E cb (length C) (take n d))) = length C + n)%nat as HC.
  { rewrite length_app. f_equal. destruct enc; cbn [cipher_part]; rewrite ?length_gctr; done. }
  destruct (IH _ (drop n d) _ _ ctx1 (set_mem m1 w) S1 Hr1) as (ctx2 & m2 & E2 & W2 & S2);
    [by apply Forall_drop|rewrite length_drop; lia|rewrite HC, length_drop; lia|].
  rewrite HC in W2, S2. exists ctx2, m2. split; [|split].
  - cbn [data_pieces]. rewrite (bind_ret_run _ _ _ _ _ _ _ E1), (bind_ret_run _ _ _ _ _ _ _ E2). done.
  - rewrite <- (take_drop n d), gctr_app, Hl1. eapply wrote_app; [exact W1|]. by rewrite length_gctr, Hl1.
  - rewrite <- (take_drop n d), gctr_app, Hl1. replace (cipher_part enc (take n d ++ drop n d) _) with
      (cipher_part enc (take n d) (gctr_at E cb (length C) (take n d)) ++
       cipher_part enc (drop n d) (gctr_at E cb (length C + n) (drop n d))) by (by destruct enc).
    by rewrite app_assoc.
Qed.

Lemma message_run enc aads ps d in_ out ctx w :
  gcm_key ctx = gk -> bytes_ok (concat aads) -> Z.of_nat (length (concat aads)) <= 2 ^ 61 ->
  ready (w_mem w) in_ out d -> bytes_ok d -> sizes ps = length d -> Z.of_nat (length d) <= 2 ^ 36 - 32 ->
  exists ctx' m', gcm_message enc stream key iv aads in_ out ps ctx w = Ret (true, ctx', set_mem m' w) /\
    wrote (w_mem w) m' out (gcm_crypt E iv d) /\ start (concat aads) (cipher_part enc d (gcm_crypt E iv d)) ctx'.
Proof.
  intros Hk Ha Hla Hr Hd Hsz Hlim.
  destruct (setiv_run block key gk iv ctx w E_ok eq_refl init_table Hk iv_ok) as (ctx0 & E0 & A0).
  destruct (aad_pieces_run aads [] ctx0 w A0 Ha) as (ctx1 & E1 & A1); [cbn [length]; lia|].
  destruct (data_pieces_run enc ps (concat aads) [] d in_ out ctx1 w) as (ctx2 & m2 & E2 & W2 & S2);
    [by left|done|done|done|cbn [length]; lia|].
  exists ctx2, m2. split; [|by split]. unfold gcm_message.
  by rewrite (bind_ret_run _ _ _ _ _ _ _ E0), (bind_ret_run _ _ _ _ _ _ _ E1), (bind_ret_run _ _ _ _ _ _ _ E2).
Qed.
End iv.
End message.

(** ** The theorems *)

(** C3: Galois/counter mode encrypts as NIST SP 800-38D says: after
    [CRYPTO_gcm128_setiv], the associated data in any pieces and the plaintext in any
    pieces, in place or not, each piece block by block or with a routine for runs of
    blocks, the output is the GCM ciphertext, nothing else in memory differs, and
    [CRYPTO_gcm128_tag] gives the first bytes of the GCM tag.  The context can have
    been used before, and the initialisation vector can have any length. *)
Theorem gcm_encrypt_correct block stream key hw iv aads ps p in_ out (n : nat) ctx w :
  let E := block key in let A := concat aads in let c := gcm_crypt E iv p in
  block_cipher E -> ctr32_ok block key stream -> gcm_key ctx = CRYPTO_gcm128_init_key key block hw ->
  bytes_ok iv -> bytes_ok A -> Z.of_nat (length A) <= 2 ^ 61 ->
  ready (w_mem w) in_ out p -> bytes_ok p -> sizes ps = length p -> Z.of_nat (length p) <= 2 ^ 36 - 32 ->
  exists ctx1 ctx2 m',
    gcm_message true stream key iv aads in_ out ps ctx w = Ret (true, ctx1, set_mem m' w) /\
    wrote (w_mem w) m' out c /\
    CRYPTO_gcm128_tag (Z.of_nat n) ctx1 (set_mem m' w) = Ret (take n (gcm_tag E iv A c), ctx2, set_mem m' w).
Proof.
  cbn zeta. intros HE Hs Hk Hiv HA HlA Hr Hp Hsz Hlim.
  destruct (message_run block stream key hw HE Hs iv Hiv true aads ps p in_ out ctx w) as (ctx1 & m' & E1 & W & S1); [done..|].
  destruct (J0_ok block key iv Hiv) as [HJ HJl]. destruct (HE _ HJ HJl) as [He Hel].
  destruct (cb_ok block key iv Hiv) as [_ Hcl].
  destruct (tag_run block key _ HE (init_table block key hw) _ Hcl _ He Hel _ _ n ctx1 (set_mem m' w) S1) as (ctx2 & E2).
  by exists ctx1, ctx2, m'.
Qed.

(** C4: Decryption inverts encryption and the tag is checked: a ciphertext, in any pieces
    as above, comes out as the GCM plaintext, which is the one that encrypts to it, and
    [CRYPTO_gcm128_finish] accepts a tag of at most 16 bytes exactly if it is the
    beginning of the GCM tag of this ciphertext and these associated data. *)
Theorem gcm_decrypt_correct block stream key hw iv aads ps c in_ out t ctx w :
  let E := block key in let A := concat aads in let p := gcm_crypt E iv c in
  block_cipher E -> ctr32_ok block key stream -> gcm_key ctx = CRYPTO_gcm128_init_key key block hw ->
  bytes_ok iv -> bytes_ok A -> Z.of_nat (length A) <= 2 ^ 61 ->
  ready (w_mem w) in_ out c -> bytes_ok c -> sizes ps = length c -> Z.of_nat (length c) <= 2 ^ 36 - 32 ->
  (length t <= 16)%nat ->
  gcm_crypt E iv p = c /\
  exists ctx1 ctx2 m',
    gcm_message false stream key iv aads in_ out ps ctx w = Ret (true, ctx1, set_mem m' w) /\
    wrote (w_mem w) m' out p /\
    CRYPTO_gcm128_finish (Some t) (Z.of_nat (length t)) ctx1 (set_mem m' w) =
    Ret (bool_decide (t = take (length t) (gcm_tag E iv A c)), ctx2, set_mem m' w).
Proof.
  cbn zeta. intros HE Hs Hk Hiv HA HlA Hr Hp Hsz Hlim Ht. split; [apply gctr_twice|].
  destruct (message_run block stream key hw HE Hs iv Hiv false aads ps c in_ out ctx w Hk HA HlA Hr Hp Hsz Hlim)
    as (ctx1 & m' & E1 & W & S1).
  destruct (J0_ok block key iv Hiv) as [HJ HJl]. destruct (HE _ HJ HJl) as [He Hel].
  destruct (cb_ok block key iv Hiv) as [_ Hcl].
  destruct (verify_run block key _ HE (init_table block key hw) _ Hcl _ He Hel _ _ t ctx1 (set_mem m' w) S1 Ht) as (ctx2 & E2).
  by exists ctx1, ctx2, m'.
Qed.

(** The limits of GCM: a call that would bring the data over 2^36 - 32 bytes, associated
    data over 2^61 bytes, or associated data after data are refused, whatever wraps
    around, and neither the context nor memory changes. *)
Theorem gcm_limits stream key in_ out len aad ctx w :
  0 <= len < 2 ^ 64 -> Z.of_nat (length aad) < 2 ^ 64 ->
  0 <= len_msg ctx <= 2 ^ 36 - 32 -> 0 <= len_aad ctx <= 2 ^ 61 ->
  (2 ^ 36 - 32 < len_msg ctx + len ->
   forall enc ctr32, one_piece enc ctr32 stream key in_ out len ctx w = Ret (false, ctx, w)) /\
  (len_msg ctx <> 0 \/ 2 ^ 61 < len_aad ctx + Z.of_nat (length aad) ->
   CRYPTO_gcm128_aad aad ctx w = Ret (false, ctx, w)).
Proof.
  intros Hl Ha Hm Hla. split.
  - intros Hlim enc ctr32. pose proof (crypt_begin_limit len ctx w Hl Hm Hlim) as E1.
    destruct enc, ctr32; cbn [one_piece];
      unfold CRYPTO_gcm128_encrypt, CRYPTO_gcm128_decrypt, CRYPTO_gcm128_encrypt_ctr32, CRYPTO_gcm128_decrypt_ctr32, crypt_call;
      by rewrite (bind_ret_run _ _ _ _ _ _ _ E1).
  - intros Hor. unfold CRYPTO_gcm128_aad, get_ctx. rewrite (bind_ret_run get_stream _ ctx w ctx ctx w) by done. cbn zeta.
    destruct (Z.eqb_spec (len_msg ctx) 0) as [Hz|Hz]; cbn [negb]; [|done]. destruct Hor as [Hor|Hor]; [done|].
    by rewrite over_limit by lia.
Qed.

(** ** Witnesses *)

Definition test_stream : ctr128_f := fun key iv d => gctr (test_block key) iv d.
Lemma test_cipher : block_cipher (test_block []).
Proof. intros b _ _. split; [apply be_bytes_ok|apply length_be_bytes]. Qed.
Lemma test_stream_ok : ctr32_ok test_block [] test_stream.
Proof. intros iv d j _ _ _ _. done. Qed.
Definition test_plain : bytes := zeros 16.
Definition test_tag : bytes := be_bytes 16 0xab6e47d42cec13bdf53a67b21257bddf.
Lemma test_ready : ready (w_mem test_world) 1000 1000 test_plain.
Proof.
  split; [vm_compute; reflexivity|]. split; [|by left].
  apply (load_accessible _ 1000 16 (zeros 16)). vm_compute. reflexivity.
Qed.
Lemma zeros_ok n : bytes_ok (zeros n).
Proof. apply replicate_zero_ok. Qed.

(** The second test case of the specification, in two pieces. *)
Lemma gcm_encrypt_correct_witness :
  exists ctx1 ctx2 m',
    gcm_message true test_stream [] (zeros 12) [] 1000 1000 [(true, 7%nat); (false, 9%nat)] test_context test_world =
      Ret (true, ctx1, set_mem m' test_world) /\
    stored m' 1000 (be_bytes 16 0x0388dace60b6a392f328c2b971b2fe78) /\
    CRYPTO_gcm128_tag 16 ctx1 (set_mem m' test_world) = Ret (test_tag, ctx2, set_mem m' test_world).
Proof.
  destruct (gcm_encrypt_correct test_block test_stream [] false (zeros 12) [] [(true, 7%nat); (false, 9%nat)] test_plain 1000 1000 16
    test_context test_world test_cipher test_stream_ok eq_refl (zeros_ok 12) (Forall_nil_2 _) ltac:(cbn; lia) test_ready
    (zeros_ok 16) eq_refl ltac:(vm_compute; discriminate)) as (ctx1 & ctx2 & m' & E1 & W & E2).
  exists ctx1, ctx2, m'. split; [exact E1|]. split.
  - assert (gcm_crypt (test_block []) (zeros 12) test_plain = be_bytes 16 0x0388dace60b6a392f328c2b971b2fe78) as <-
      by (vm_compute; reflexivity). exact (proj1 W).
  - assert (take 16 (gcm_tag (test_block []) (zeros 12) (concat []) (gcm_crypt (test_block []) (zeros 12) test_plain)) = test_tag) as <-
      by (vm_compute; reflexivity). exact E2.
Defined.

(** Sixteen zeros are no ciphertext with this tag. *)
Lemma gcm_decrypt_correct_witness :
  exists ctx1 ctx2 m',
    gcm_message false test_stream [] (zeros 12) [] 1000 1000 [(false, 16%nat)] test_context test_world =
      Ret (true, ctx1, set_mem m' test_world) /\
    CRYPTO_gcm128_finish (Some test_tag) 16 ctx1 (set_mem m' test_world) = Ret (false, ctx2, set_mem m' test_world).
Proof.
  destruct (gcm_decrypt_correct test_block test_stream [] false (zeros 12) [] [(false, 16%nat)] test_plain 1000 1000 test_tag
    test_context test_world test_cipher test_stream_ok eq_refl (zeros_ok 12) (Forall_nil_2 _) ltac:(cbn; lia) test_ready
    (zeros_ok 16) eq_refl ltac:(vm_compute; discriminate) (le_n 16)) as (_ & ctx1 & ctx2 & m' & E1 & _ & E2).
  exists ctx1, ctx2, m'. split; [exact E1|].
  assert (bool_decide (test_tag = take (length test_tag) (gcm_tag (test_block []) (zeros 12) (concat []) test_plain)) = false) as Hf
    by (vm_compute; reflexivity).
  rewrite <- Hf. exact E2.
Defined.

Lemma gcm_limits_witness :
  one_piece true false test_stream [] 1000 1000 (2 ^ 64 - 1) (set_msg 16 test_context) test_world =
    Ret (false, set_msg 16 test_context, test_world) /\
  CRYPTO_gcm128_aad [] (set_msg 16 test_context) test_world = Ret (false, set_msg 16 test_context, test_world).
Proof.
  destruct (gcm_limits test_stream [] 1000 1000 (2 ^ 64 - 1) [] (set_msg 16 test_context) test_world) as [H1 H2];
    [lia|cbn; lia|cbn; lia|cbn; lia|].
  split; [apply H1; cbn; lia|apply H2; left; cbn; lia].
Defined.
