(* ===== verification/Owned.v ===== *)
(** * Ownership of heap blocks

    What a structure with pointers to the heap owns, as a list of chunks: a chunk is
    a block, and possibly the C string in it.  [owned base cs w] says that the world
    [w] is the world [base] and next to it the chunks [cs], each apart from the others
    and from [base]; when all of them are freed, [base] is left.  With it, what the
    C library's [malloc], [free] and [strdup] do to such a world.

    [malloc] may fail, and a theorem that lets something be lost for want of memory has
    to say which request it was that failed: [refused n w] says that on some way from
    the world [w] on which at most [n] bytes are asked for, the allocator refuses one of
    the requests. *)
From Stdlib Require Import ZArith Lia.
From stdpp Require Import prelude gmap list numbers.
From S2P Require Import Prelude CMem Buf BufSpec.
Local Open Scope Z_scope.
Local Open Scope c_scope.

Inductive chunk :=
| Nothing
| Chunk (a n : Z) (s : option bytes).

(** The pointer to a chunk, and the string in it. *)
Definition chunk_ptr (c : chunk) : Z := match c with Nothing => 0 | Chunk a _ _ => a end.
Definition chunk_text (c : chunk) : option bytes := match c with Nothing => None | Chunk _ _ s => s end.
Definition drop_chunk (c : chunk) (w : world) : world :=
  match c with Nothing => w | Chunk a n _ => drop_block a n w end.

Definition chunk_ok (c : chunk) (w : world) : Prop :=
  match c with
  | Nothing => True
  | Chunk a n s =>
      0 < a /\ 0 <= n /\ a + n <= 2 ^ 64 /\ w_blocks w !! a = Some n /\ accessible (w_mem w) a n /\
      (forall xs, s = Some xs -> string_at (w_mem w) a xs /\ Z.of_nat (length xs) < n)
  end.

Fixpoint owned (base : world) (cs : list chunk) (w : world) : Prop :=
  match cs with
  | [] => w = base
  | c :: r => chunk_ok c w /\ owned base r (drop_chunk c w)
  end.

(** ** Worlds *)

Lemma world_eq w w' : w_mem w = w_mem w' -> w_blocks w = w_blocks w' -> w = w'.
Proof. destruct w, w'; cbn. by intros -> ->. Qed.

Lemma drop_lookup a n w x :
  0 <= n -> w_mem (drop_block a n w) !! x = if decide (a <= x < a + n) then None else w_mem w !! x.
Proof.
  intros Hn. cbn. rewrite free_range_lookup. by replace (Z.of_nat (Z.to_nat n)) with n by lia.
Qed.

(** A chunk looks at its own range and its own block. *)
Lemma chunk_ok_ext c w w' :
  chunk_ok c w ->
  (forall a n s x, c = Chunk a n s -> a <= x < a + n -> w_mem w' !! x = w_mem w !! x) ->
  (forall a n s, c = Chunk a n s -> w_blocks w' !! a = w_blocks w !! a) -> chunk_ok c w'.
Proof.
  destruct c as [|a n s]; [done|]. intros (H1 & H2 & H3 & H4 & H5 & H6) Hm Hb. cbn.
  assert (forall x, a <= x < a + n -> w_mem w' !! x = w_mem w !! x) as Hm' by (intros x Hx; by eapply Hm).
  rewrite (Hb a n s) by done. split_and!; try done.
  - intros i Hi. rewrite Hm' by done. by apply H5.
  - intros xs ->. destruct (H6 xs eq_refl) as [Hs Hl]. split; [|done].
    eapply string_ext; [|exact Hs]. intros x Hx. apply Hm'. lia.
Qed.

(** The range of a chunk is apart from that of a chunk in what is left without it. *)
Lemma chunks_apart a n s b k t w x :
  chunk_ok (Chunk a n s) w -> chunk_ok (Chunk b k t) (drop_block a n w) ->
  a <= x < a + n -> b <= x < b + k -> False.
Proof.
  intros (_ & Hn & _) (_ & _ & _ & _ & Hacc & _) Hx Hy.
  destruct (Hacc x Hy) as [v Hv]. rewrite drop_lookup, decide_True in Hv by done. done.
Qed.

Lemma drop_comm a n b k w : drop_block a n (drop_block b k w) = drop_block b k (drop_block a n w).
Proof.
  apply world_eq; cbn.
  - apply map_eq. intros x. rewrite !free_range_lookup. by repeat case_decide.
  - apply delete_delete.
Qed.

Lemma owned_swap base c d cs w : owned base (c :: d :: cs) w -> owned base (d :: c :: cs) w.
Proof.
  destruct c as [|a n s]; [cbn; tauto|]. destruct d as [|b k t]; [cbn; tauto|].
  cbn [owned drop_chunk]. intros (Hc & Hd & Ho).
  assert (a <> b) as Hab.
  { intros <-. destruct Hd as (_ & _ & _ & Hb & _). cbn in Hb. by rewrite lookup_delete_eq in Hb. }
  pose proof (fun x => chunks_apart _ _ _ _ _ _ _ x Hc Hd) as Hap.
  assert (0 <= n) as Hn by (by destruct Hc as (_ & ? & _)).
  assert (0 <= k) as Hk by (by destruct Hd as (_ & ? & _)).
  split_and!.
  - eapply chunk_ok_ext; [exact Hd| |]; intros a' n' s'.
    + intros x [= <- <- <-] Hx. rewrite drop_lookup by done. rewrite decide_False; [done|].
      intros Hx'. by apply (Hap x).
    + intros [= <- <- <-]. cbn. by rewrite lookup_delete_ne.
  - eapply chunk_ok_ext; [exact Hc| |]; intros a' n' s'.
    + intros x [= <- <- <-] Hx. rewrite drop_lookup by done. rewrite decide_False; [done|].
      intros Hx'. by apply (Hap x).
    + intros [= <- <- <-]. cbn. by rewrite lookup_delete_ne.
  - by rewrite drop_comm.
Qed.

Lemma owned_perm_chunks base cs ds w : Permutation cs ds -> owned base cs w -> owned base ds w.
Proof.
  intros Hp. revert w. induction Hp as [|c l l' Hp IH|c d l|l1 l2 l3 _ IH1 _ IH2]; intros w; auto.
  - intros [H1 H2]. split; auto.
  - apply owned_swap.
Qed.
Lemma owned_nothing base cs w : owned base (Nothing :: cs) w <-> owned base cs w.
Proof. cbn. tauto. Qed.

(** What is in [base] is untouched. *)
Lemma owned_base base cs w x v : owned base cs w -> w_mem base !! x = Some v -> w_mem w !! x = Some v.
Proof.
  revert w; induction cs as [|c cs IH]; intros w; cbn; [by intros -> |]. intros [Hc Ho] Hx.
  specialize (IH _ Ho Hx). destruct c as [|a n s]; [done|]. cbn [drop_chunk] in IH.
  rewrite drop_lookup in IH by apply Hc. by case_decide.
Qed.
Lemma owned_string base cs w p xs :
  owned base cs w -> string_at (w_mem base) p xs -> string_at (w_mem w) p xs.
Proof.
  intros Ho Hs. eapply string_ext; [|exact Hs]. intros x Hx.
  destruct (load_accessible _ _ _ _ (proj1 Hs) x) as [v Hv]; [rewrite length_app; cbn; lia|].
  rewrite Hv. by eapply owned_base.
Qed.

(** ** Requests for memory *)

Section requests.
Context `{Allocator}.

(** [w'] comes from [w] by stores, [free] and requests for [n] bytes in all. *)
Inductive heap_path (w : world) : Z -> world -> Prop :=
| path_start : heap_path w 0 w
| path_store n w' m' : heap_path w n w' -> dom m' = dom (w_mem w') -> heap_path w n (set_mem m' w')
| path_free n w1 p w2 : heap_path w n w1 -> c_free p w1 = Ret w2 -> heap_path w n w2
| path_malloc n w1 k a w2 :
    heap_path w n w1 -> 0 < k -> choose w1 k = Some a ->
    w2 = add_block a k (replicate (Z.to_nat k) None) w1 -> heap_path w (n + k) w2.

Definition within (lim : Z) (w w' : world) : Prop := exists n, n <= lim /\ heap_path w n w'.
Definition refused (lim : Z) (w : world) : Prop :=
  exists n w' k, heap_path w n w' /\ 0 < k /\ n + k <= lim /\ choose w' k = None.

Lemma heap_path_nonneg w n w' : heap_path w n w' -> 0 <= n.
Proof. induction 1; lia. Qed.
Lemma heap_path_trans w1 w2 w3 m n : heap_path w1 m w2 -> heap_path w2 n w3 -> heap_path w1 (m + n) w3.
Proof.
  intros H1. induction 1 as [|n w' m' _ IH Hd|n w' p w2' _ IH E|n w' k a w2' _ IH Hk E ->].
  - by rewrite Z.add_0_r.
  - by apply path_store.
  - by eapply path_free.
  - rewrite Z.add_assoc. by eapply path_malloc.
Qed.

Lemma within_refl w : within 0 w w.
Proof. exists 0. split; [lia|apply path_start]. Qed.
Lemma within_le a b w w' : within a w w' -> a <= b -> within b w w'.
Proof. intros (n & Hn & Hp) Hab. exists n. split; [lia|done]. Qed.
Lemma within_trans a b w1 w2 w3 : within a w1 w2 -> within b w2 w3 -> within (a + b) w1 w3.
Proof. intros (m & Hm & P) (n & Hn & P'). exists (m + n). split; [lia|by eapply heap_path_trans]. Qed.
Lemma within_store a bs w m' : store (w_mem w) a bs = Some m' -> within 0 w (set_mem m' w).
Proof. intros Hs. exists 0. split; [lia|]. apply path_store; [apply path_start|by eapply store_dom]. Qed.

Lemma refused_now k w : 0 < k -> choose w k = None -> refused k w.
Proof. intros Hk E. exists 0, w, k. split; [apply path_start|]. split; [done|]. by split; [lia|]. Qed.
Lemma refused_le a b w : refused a w -> a <= b -> refused b w.
Proof. intros (n & w' & k & Hp & Hk & Hn & E) Hab. exists n, w', k. by split_and!; [|lia..|]. Qed.
Lemma refused_within a b w w' : within a w w' -> refused b w' -> refused (a + b) w.
Proof.
  intros (m & Hm & P) (n & w2 & k & P' & Hk & Hn & E). exists (m + n), w2, k.
  split_and!; [by eapply heap_path_trans|done|lia|done].
Qed.
End requests.

(** ** The C library *)

Section library.
Context `{Allocator} {S : Type}.
Implicit Types (st : S).

Lemma drop_add a n w cells :
  0 <= n -> length cells = Z.to_nat n -> (forall i, a <= i < a + n -> w_mem w !! i = None) ->
  w_blocks w !! a = None -> drop_block a n (add_block a n cells w) = w.
Proof.
  intros Hn Hl Hf Hb. apply world_eq; cbn.
  - apply map_eq. intros x. rewrite free_range_lookup, alloc_range_lookup, Hl.
    rewrite Z2Nat.id by done. case_decide; [by rewrite Hf|done].
  - by rewrite delete_insert_id.
Qed.

Lemma owned_malloc base cs st w n (Q : Z -> S -> world -> Prop) :
  0 < n -> owned base cs w -> (choose w n = None -> Q 0 st w) ->
  (forall a w', 0 < a -> within n w w' -> owned base (Chunk a n None :: cs) w' -> Q a st w') ->
  spec False False (m_realloc 0 n) Q st w.
Proof.
  intros Hn Ho H0 H1. unfold spec, m_realloc, c_realloc. cbn [Z.eqb].
  destruct (choose w n) as [a|] eqn:E; [|by apply H0].
  destruct (choose_fresh _ _ _ E) as (Ha & Hae & Hfr & Hbf). apply H1; [done| |].
  { exists (0 + n). split; [lia|]. eapply path_malloc; [apply path_start|done|exact E|done]. }
  set (cells := replicate (Z.to_nat n) None).
  assert (length cells = Z.to_nat n) as Hl by apply length_replicate.
  cbn [owned drop_chunk]. rewrite drop_add by (done || lia). split; [|done].
  cbn. split_and!; try done.
  - lia.
  - apply lookup_insert_eq.
  - intros i Hi. rewrite alloc_range_lookup, Hl, decide_True by lia.
    unfold cells. rewrite lookup_replicate_2 by lia. eauto.
Qed.

Lemma owned_free_within base c cs st w (Q : unit -> S -> world -> Prop) :
  owned base (c :: cs) w -> (forall w', within 0 w w' -> owned base cs w' -> Q tt st w') ->
  spec False False (m_free (chunk_ptr c)) Q st w.
Proof.
  intros [Hc Ho] HQ.
  assert (forall w', c_free (chunk_ptr c) w = Ret w' -> within 0 w w') as Hw.
  { intros w' E. exists 0. split; [lia|]. eapply path_free; [apply path_start|exact E]. }
  unfold spec, m_free. destruct c as [|a n s]; cbn [chunk_ptr] in *.
  { apply HQ; [by apply Hw|done]. }
  destruct Hc as (Ha & _ & _ & Hb & _). revert Hw. unfold c_free.
  rewrite (proj2 (Z.eqb_neq a 0)) by lia. rewrite Hb. intros Hw. apply HQ; [by apply Hw|done].
Qed.
Lemma owned_free base c cs st w (Q : unit -> S -> world -> Prop) :
  owned base (c :: cs) w -> (forall w', owned base cs w' -> Q tt st w') ->
  spec False False (m_free (chunk_ptr c)) Q st w.
Proof. intros Ho HQ. apply (owned_free_within base c cs); [done|]. auto. Qed.

Lemma owned_realloc base p n s cs st w k (Q : Z -> S -> world -> Prop) :
  0 <= k -> owned base (Chunk p n s :: cs) w -> (choose (drop_block p n w) k = None -> Q 0 st w) ->
  (forall a w', 0 < a -> owned base (Chunk a k None :: cs) w' -> Q a st w') ->
  spec False False (m_realloc p k) Q st w.
Proof.
  intros Hk [(Hp & Hn & _ & Hb & _) Ho] H0 H1. unfold spec, m_realloc, c_realloc.
  rewrite (proj2 (Z.eqb_neq p 0)), Hb by lia. cbn [drop_chunk] in Ho.
  destruct (choose (drop_block p n w) k) as [a|] eqn:E; [|by apply H0].
  destruct (choose_fresh _ _ _ E) as (Ha & Hae & Hfr & Hbf). apply H1; [done|].
  set (cells := _ ++ _).
  assert (length cells = Z.to_nat k) as Hl.
  { unfold cells. rewrite length_app, length_read_cells, length_replicate. lia. }
  cbn [owned drop_chunk]. rewrite drop_add by done. split; [|done].
  cbn. split_and!; try done.
  - apply lookup_insert_eq.
  - intros i Hi. rewrite alloc_range_lookup, Hl, decide_True by lia.
    apply lookup_lt_is_Some_2. lia.
Qed.

(** What comes next to all of [w] comes next to all that [w] is made of. *)
Lemma owned_next base cs w c w' : owned base cs w -> owned w [c] w' -> owned base (c :: cs) w'.
Proof. cbn [owned]. intros Ho [Hc <-]. by split. Qed.

(** Writing to a chunk of one's own. *)
Lemma owned_store base a n s cs w p bs m' t :
  owned base (Chunk a n s :: cs) w -> store (w_mem w) p bs = Some m' ->
  a <= p -> p + Z.of_nat (length bs) <= a + n ->
  (forall xs, t = Some xs -> string_at m' a xs /\ Z.of_nat (length xs) < n) ->
  owned base (Chunk a n t :: cs) (set_mem m' w).
Proof.
  intros [(H1 & H2 & H3 & H4 & H5 & H6) Ho] Hs Hl Hr Ht. cbn [owned drop_chunk] in *.
  replace (drop_block a n (set_mem m' w)) with (drop_block a n w).
  - split; [|done]. cbn. split_and!; try done. by eapply store_access.
  - apply world_eq; [|done]. cbn. apply map_eq. intros x. rewrite !free_range_lookup.
    rewrite Z2Nat.id by done. case_decide; [done|]. symmetry. apply (store_outside _ _ _ _ _ Hs).
    unfold outside. lia.
Qed.
(** A string that stays where it is while chunks come: one in [base], or that of a
    chunk. *)
Definition stays (base : world) (cs : list chunk) (p : Z) (xs : bytes) : Prop :=
  forall c w, owned base (c :: cs) w -> string_at (w_mem w) p xs.
Lemma base_stays base cs p xs : string_at (w_mem base) p xs -> stays base cs p xs.
Proof. intros Hs c w Ho. by eapply owned_string. Qed.
Lemma chunk_stays base cs a n xs : Chunk a n (Some xs) ∈ cs -> stays base cs a xs.
Proof.
  intros Hin c w Ho. apply list_elem_of_split in Hin as (l1 & l2 & ->).
  assert (owned base (Chunk a n (Some xs) :: c :: l1 ++ l2) w) as [(_ & _ & _ & _ & _ & Hs) _].
  { eapply owned_perm_chunks; [|exact Ho]. symmetry. exact (Permutation_middle (c :: l1) l2 _). }
  by apply Hs.
Qed.
Lemma owned_accessible base a n s cs w : owned base (Chunk a n s :: cs) w -> accessible (w_mem w) a n.
Proof. intros [(_ & _ & _ & _ & Hacc & _) _]. done. Qed.

End library.
