(* ===== verification/Err.v ===== *)
(** * BoringSSL: the error queue (crypto/err/err.c)

    Every thread has a queue of the errors that functions of the library reported
    last, a ring of sixteen places in an [ERR_STATE].  An error has the place in the
    source where it was reported, a code that packs a library and a reason, and
    possibly a text, a string on the heap that the queue owns.

    The state of the monad is what a thread sees besides memory: its [ERR_STATE],
    [errno], and the counter of error libraries.  An [ERR_STATE] is a record, and its
    block is on the heap; the texts are strings in memory.  The second part are the
    messages for errors, and printing the queue. *)
From Stdlib Require Import ZArith Lia Ascii String.
From stdpp Require Import prelude gmap list numbers.
From S2P Require Import Prelude CMem Buf.
Local Open Scope Z_scope.
Local Open Scope c_scope.

(** The bytes of a string literal, without the terminator. *)
Definition str (s : string) : bytes := map (fun c => Z.of_N (N_of_ascii c)) (list_ascii_of_string s).

(** ** Error codes (include/openssl/err.h) *)

Definition ERR_LIB_SYS : Z := 2.
Definition ERR_NUM_LIBS : Z := 34.
Definition ERR_R_FATAL : Z := 64.
Definition ERR_R_MALLOC_FAILURE : Z := Z.lor 1 ERR_R_FATAL.
Definition ERR_R_SHOULD_NOT_HAVE_BEEN_CALLED : Z := Z.lor 2 ERR_R_FATAL.
Definition ERR_R_PASSED_NULL_PARAMETER : Z := Z.lor 3 ERR_R_FATAL.
Definition ERR_R_INTERNAL_ERROR : Z := Z.lor 4 ERR_R_FATAL.
Definition ERR_R_OVERFLOW : Z := Z.lor 5 ERR_R_FATAL.
Definition ERR_FLAG_STRING : Z := 1.
Definition ERR_FLAG_MALLOCED : Z := 2.
Definition ERR_NUM_ERRORS : Z := 16.
Definition ERR_ERROR_STRING_BUF_LEN : Z := 120.

Definition ERR_PACK (lib reason : Z) : Z :=
  Z.lor (Z.shiftl (Z.land (u32 lib) 0xff) 24) (Z.land (u32 reason) 0xfff).
Definition ERR_GET_LIB (packed_error : Z) : Z := Z.land (Z.shiftr packed_error 24) 0xff.
Definition ERR_GET_REASON (packed_error : Z) : Z := Z.land packed_error 0xfff.
Definition ERR_GET_FUNC (packed_error : Z) : Z := 0.

(** ** The state *)

Record err_error_st := ErrError {
  er_file : Z;
  er_data : Z;
  er_packed : Z;
  er_line : Z;
  er_mark : bool
}.
Record ERR_STATE := ErrState {
  es_addr : Z;  (** where it is *)
  es_errors : list err_error_st;
  es_top : Z;
  es_bottom : Z;
  es_to_free : Z
}.
Definition no_error : err_error_st := ErrError 0 0 0 0 false.
Definition sizeof_err_error : Z := 24.
Definition sizeof_ERR_STATE : Z := 16 * sizeof_err_error + 16.

Record err_thread := ErrThread {
  th_state : option ERR_STATE;
  th_errno : Z;
  global_next_library : Z
}.
Definition err_m (A : Type) : Type := M err_thread A.

Definition with_state (o : option ERR_STATE) (t : err_thread) : err_thread :=
  ErrThread o (th_errno t) (global_next_library t).
Definition set_state (st : ERR_STATE) : err_m unit :=
  t <- get_stream ;; put_stream (with_state (Some st) t).

(** [state->errors[i]] *)
Definition get_slot (st : ERR_STATE) (i : Z) : err_m err_error_st :=
  of_option (es_errors st !! Z.to_nat i).
Definition set_slot (i : Z) (e : err_error_st) (st : ERR_STATE) : ERR_STATE :=
  ErrState (es_addr st) (<[Z.to_nat i := e]> (es_errors st)) (es_top st) (es_bottom st) (es_to_free st).
Definition set_top (i : Z) (st : ERR_STATE) : ERR_STATE :=
  ErrState (es_addr st) (es_errors st) i (es_bottom st) (es_to_free st).
Definition set_bottom (i : Z) (st : ERR_STATE) : ERR_STATE :=
  ErrState (es_addr st) (es_errors st) (es_top st) i (es_to_free st).
Definition set_to_free (p : Z) (st : ERR_STATE) : ERR_STATE :=
  ErrState (es_addr st) (es_errors st) (es_top st) (es_bottom st) p.
Definition without_data (e : err_error_st) : err_error_st :=
  ErrError (er_file e) 0 (er_packed e) (er_line e) (er_mark e).
Definition with_data (data : Z) (e : err_error_st) : err_error_st :=
  ErrError (er_file e) data (er_packed e) (er_line e) (er_mark e).
Definition with_mark (mark : bool) (e : err_error_st) : err_error_st :=
  ErrError (er_file e) (er_data e) (er_packed e) (er_line e) mark.

Definition err_assert (b : bool) : err_m unit := if b then ret tt else ub.

(** A pointer to a literal of the code, or another one. *)
Inductive text_ptr := Literal (s : bytes) | Pointer (a : Z).

Section err.
Context `{Allocator}.
(** Whether [CRYPTO_set_thread_local] can keep a pointer; if not, it calls the
    destructor. *)
Context (set_thread_local_ok : world -> bool).

(** [strdup] of the C library. *)
Definition c_strdup {S} (s : Z) : M S Z :=
  l <- c_strlen s ;;
  p <- m_realloc 0 (l + 1) ;;
  if p =? 0 then ret 0 else c_memcpy p s (l + 1) ;; ret p.

Definition err_clear (error : err_error_st) : err_m err_error_st :=
  m_free (er_data error) ;; ret no_error.

Definition err_copy (dst src : err_error_st) : err_m err_error_st :=
  dst <- err_clear dst ;;
  data <- (if negb (er_data src =? 0) then c_strdup (er_data src) else ret (er_data dst)) ;;
  ret (ErrError (er_file src) data (er_packed src) (er_line src) (er_mark dst)).

(** [for (i = 0; i < n; i++) err_clear(&errors[i]);] *)
Fixpoint clear_errors (es : list err_error_st) : err_m (list err_error_st) :=
  match es with
  | [] => ret []
  | e :: r => e <- err_clear e ;; r <- clear_errors r ;; ret (e :: r)
  end.

Definition err_state_free (o : option ERR_STATE) : err_m unit :=
  match o with
  | None => ret tt
  | Some state => clear_errors (es_errors state) ;; m_free (es_to_free state) ;; m_free (es_addr state)
  end.

Definition CRYPTO_set_thread_local (state : ERR_STATE) : err_m bool :=
  fun t w =>
    if set_thread_local_ok w then Ret (true, with_state (Some state) t, w)
    else (err_state_free (Some state) ;; ret false) t w.

Definition err_get_state : err_m (option ERR_STATE) :=
  t <- get_stream ;;
  match th_state t with
  | Some state => ret (Some state)
  | None =>
      p <- m_realloc 0 sizeof_ERR_STATE ;;
      if p =? 0 then ret None
      else
        c_memset p 0 sizeof_ERR_STATE ;;
        let state := ErrState p (replicate (Z.to_nat ERR_NUM_ERRORS) no_error) 0 0 0 in
        ok <- CRYPTO_set_thread_local state ;;
        if ok : bool then ret (Some state) else ret None
  end.

(** ** Reading *)

(** What is stored through [file] and [line], and through [data] and [flags]; the
    booleans tell whether these pointers are there. *)
Definition place : Type := option (text_ptr * Z).
Definition file_and_line (error : err_error_st) : text_ptr * Z :=
  if er_file error =? 0 then (Literal (str "NA"), 0) else (Pointer (er_file error), er_line error).
Definition data_and_flags (error : err_error_st) : text_ptr * Z :=
  if er_data error =? 0 then (Literal [], 0)
  else (Pointer (er_data error), Z.lor ERR_FLAG_STRING ERR_FLAG_MALLOCED).

Definition get_error_values (inc top file_line data : bool) : err_m (Z * place * place) :=
  o <- err_get_state ;;
  match o with
  | None => ret (0, None, None)
  | Some state =>
      if es_bottom state =? es_top state then ret (0, None, None)
      else
        (if top then err_assert (negb inc) else ret tt) ;;
        let i := if top then es_top state else u32 (es_bottom state + 1) mod ERR_NUM_ERRORS in
        error <- get_slot state i ;;
        let r := (er_packed error,
                  if file_line then Some (file_and_line error) else None,
                  if data then Some (data_and_flags error) else None) in
        state <-
          (if data && negb (er_data error =? 0) && inc then
             m_free (es_to_free state) ;;
             ret (set_slot i (without_data error) (set_to_free (er_data error) state))
           else ret state) ;;
        set_state state ;;
        (if inc then
           err_assert (negb top) ;;
           error <- get_slot state i ;;
           error <- err_clear error ;;
           set_state (set_bottom i (set_slot i error state))
         else ret tt) ;;
        ret r
  end.

Definition ERR_get_error : err_m (Z * place * place) := get_error_values true false false false.
Definition ERR_get_error_line : err_m (Z * place * place) := get_error_values true false true false.
Definition ERR_get_error_line_data : err_m (Z * place * place) := get_error_values true false true true.
Definition ERR_peek_error : err_m (Z * place * place) := get_error_values false false false false.
Definition ERR_peek_error_line : err_m (Z * place * place) := get_error_values false false true false.
Definition ERR_peek_error_line_data : err_m (Z * place * place) := get_error_values false false true true.
Definition ERR_peek_last_error : err_m (Z * place * place) := get_error_values false true false false.
Definition ERR_peek_last_error_line : err_m (Z * place * place) := get_error_values false true true false.
Definition ERR_peek_last_error_line_data : err_m (Z * place * place) := get_error_values false true true true.

(** ** Clearing *)

Definition ERR_clear_error : err_m unit :=
  o <- err_get_state ;;
  match o with
  | None => ret tt
  | Some state =>
      errors <- clear_errors (es_errors state) ;;
      m_free (es_to_free state) ;;
      set_state (ErrState (es_addr state) errors 0 0 0)
  end.
(** [tid] is a pointer. *)
Definition ERR_remove_thread_state (tid : Z) : err_m unit :=
  if negb (tid =? 0) then err_assert false ;; ret tt else ERR_clear_error.
Definition ERR_remove_state (pid : Z) : err_m unit := ERR_clear_error.

Definition ERR_clear_system_error : err_m unit :=
  t <- get_stream ;; put_stream (ErrThread (th_state t) 0 (global_next_library t)).

(** [global_next_library++] on an [int]. *)
Definition ERR_get_next_error_library : err_m Z :=
  t <- get_stream ;;
  err_assert (global_next_library t <? 2 ^ 31 - 1) ;;
  put_stream (ErrThread (th_state t) (th_errno t) (global_next_library t + 1)) ;;
  ret (global_next_library t).

(** ** Adding *)

Definition err_set_error_data (data : Z) : err_m unit :=
  o <- err_get_state ;;
  match o with
  | None => m_free data
  | Some state =>
      if es_top state =? es_bottom state then m_free data
      else
        error <- get_slot state (es_top state) ;;
        m_free (er_data error) ;;
        set_state (set_slot (es_top state) (with_data data error) state)
  end.

(** A place for a new error; from a full queue the least recent error is dropped. *)
Definition advance (state : ERR_STATE) : ERR_STATE :=
  let state := set_top (u32 (es_top state + 1) mod ERR_NUM_ERRORS) state in
  if es_top state =? es_bottom state
  then set_bottom (u32 (es_bottom state + 1) mod ERR_NUM_ERRORS) state else state.

Definition ERR_put_error (library unused reason file line : Z) : err_m unit :=
  o <- err_get_state ;;
  match o with
  | None => ret tt
  | Some state =>
      t <- get_stream ;;
      let reason := if (library =? ERR_LIB_SYS) && (reason =? 0) then th_errno t else reason in
      let state := advance state in
      error <- get_slot state (es_top state) ;;
      error <- err_clear error ;;
      set_state (set_slot (es_top state)
        (ErrError file (er_data error) (ERR_PACK library reason) (u16 line) (er_mark error)) state)
  end.

(** The first loop of [err_add_error_vdata]; [None] where the sum would overflow. *)
Fixpoint total_size_loop (args : list Z) (total_size : Z) : err_m (option Z) :=
  match args with
  | [] => ret (Some total_size)
  | substr :: r =>
      if substr =? 0 then total_size_loop r total_size
      else
        substr_len <- c_strlen substr ;;
        if 2 ^ 64 - 1 - total_size <? substr_len then ret None
        else total_size_loop r (u64 (total_size + substr_len))
  end.
Fixpoint strlcat_args (args : list Z) (buf total_size : Z) : err_m unit :=
  match args with
  | [] => ret tt
  | substr :: r =>
      (if substr =? 0 then ret tt
       else n <- OPENSSL_strlcat buf substr total_size ;; err_assert (n <? total_size)) ;;
      strlcat_args r buf total_size
  end.
Definition err_add_error_vdata (args : list Z) : err_m unit :=
  o <- total_size_loop args 0 ;;
  match o with
  | None => ret tt
  | Some total_size =>
      if total_size =? 2 ^ 64 - 1 then ret tt
      else
        let total_size := total_size + 1 in
        buf <- m_realloc 0 total_size ;;
        if buf =? 0 then ret tt
        else
          store_u 1 buf 0 ;;
          strlcat_args args buf total_size ;;
          err_set_error_data buf
  end.
Definition ERR_add_error_data (args : list Z) : err_m unit := err_add_error_vdata args.

(** [vsnprintf(buf, n, ...)] where the format and the arguments print [text]; the
    result is an [int]. *)
Definition c_vsnprintf {S} (buf n : Z) (text : bytes) : M S Z :=
  if 2 ^ 31 <=? Z.of_nat (length text) then ret (-1)
  else
    (if 0 <? n then store_bytes buf (take (Z.to_nat (n - 1)) text ++ [0]) else ret tt) ;;
    ret (Z.of_nat (length text)).

(** [OPENSSL_vasprintf_internal] of mem.c with the allocator of the system: [*str] and
    the result. *)
Definition ENOMEM : Z := 12.
Definition OPENSSL_vasprintf_internal (text : bytes) : err_m (Z * Z) :=
  let err candidate :=
    m_free candidate ;;
    t <- get_stream ;;
    put_stream (ErrThread (th_state t) ENOMEM (global_next_library t)) ;;
    ret (0, -1) in
  candidate <- m_realloc 0 64 ;;
  if candidate =? 0 then err candidate
  else
    r <- c_vsnprintf candidate 64 text ;;
    if r <? 0 then err candidate
    else if 64 <=? r then
      tmp <- m_realloc candidate (r + 1) ;;
      if tmp =? 0 then err candidate
      else
        r2 <- c_vsnprintf tmp (r + 1) text ;;
        if (r2 <? 0) || (r + 1 <=? r2) then err tmp else ret (tmp, r2)
    else ret (candidate, r).
Definition ERR_add_error_dataf (text : bytes) : err_m unit :=
  r <- OPENSSL_vasprintf_internal text ;;
  let '(buf, n) := r in
  if n =? -1 then ret tt else err_set_error_data buf.

Definition ERR_set_error_data (data flags : Z) : err_m unit :=
  if Z.land flags ERR_FLAG_STRING =? 0 then err_assert false ;; ret tt
  else
    copy <- c_strdup data ;;
    (if negb (copy =? 0) then err_set_error_data copy else ret tt) ;;
    (if negb (Z.land flags ERR_FLAG_MALLOCED =? 0) then m_free data else ret tt).

(** ** Marks *)

Definition ERR_set_mark : err_m bool :=
  o <- err_get_state ;;
  match o with
  | None => ret false
  | Some state =>
      if es_bottom state =? es_top state then ret false
      else
        error <- get_slot state (es_top state) ;;
        set_state (set_slot (es_top state) (with_mark true error) state) ;;
        ret true
  end.

(** [while (state->bottom != state->top)]; there are at most fifteen rounds. *)
Fixpoint pop_loop (fuel : nat) (state : ERR_STATE) : err_m bool :=
  if es_bottom state =? es_top state then ret false
  else
    match fuel with
    | O => out_of_fuel
    | S k =>
        error <- get_slot state (es_top state) ;;
        if er_mark error then
          set_state (set_slot (es_top state) (with_mark false error) state) ;; ret true
        else
          error <- err_clear error ;;
          let state := set_slot (es_top state) error state in
          let state := set_top (if es_top state =? 0 then ERR_NUM_ERRORS - 1 else u32 (es_top state - 1)) state in
          set_state state ;; pop_loop k state
    end.
Definition ERR_pop_to_mark : err_m bool :=
  o <- err_get_state ;;
  match o with
  | None => ret false
  | Some state => pop_loop (Z.to_nat ERR_NUM_ERRORS) state
  end.

(** ** Saving and restoring *)

(** [num_errors] is the length of the array. *)
Record ERR_SAVE_STATE := ErrSave { sv_addr : Z; sv_array : Z; sv_errors : list err_error_st }.
Definition sizeof_ERR_SAVE_STATE : Z := 16.

Definition ERR_SAVE_STATE_free (o : option ERR_SAVE_STATE) : err_m unit :=
  match o with
  | None => ret tt
  | Some state => clear_errors (sv_errors state) ;; m_free (sv_array state) ;; m_free (sv_addr state)
  end.

(** The copies of the errors behind [bottom], from the one with number [i] on, into
    an array of zeros. *)
Fixpoint save_loop (n : nat) (state : ERR_STATE) (i : Z) : err_m (list err_error_st) :=
  match n with
  | O => ret []
  | S k =>
      let j := u64 (es_bottom state + i + 1) mod ERR_NUM_ERRORS in
      src <- get_slot state j ;;
      e <- err_copy no_error src ;;
      r <- save_loop k state (i + 1) ;;
      ret (e :: r)
  end.
Definition ERR_save_state : err_m (option ERR_SAVE_STATE) :=
  o <- err_get_state ;;
  match o with
  | None => ret None
  | Some state =>
      if es_top state =? es_bottom state then ret None
      else
        p <- m_realloc 0 sizeof_ERR_SAVE_STATE ;;
        if p =? 0 then ret None
        else
          let num_errors := if es_bottom state <=? es_top state then es_top state - es_bottom state
                            else u32 (ERR_NUM_ERRORS + es_top state - es_bottom state) in
          err_assert (num_errors <? ERR_NUM_ERRORS) ;;
          a <- m_realloc 0 (num_errors * sizeof_err_error) ;;
          if a =? 0 then m_free p ;; ret None
          else
            c_memset a 0 (num_errors * sizeof_err_error) ;;
            errors <- save_loop (Z.to_nat num_errors) state 0 ;;
            ret (Some (ErrSave p a errors))
  end.

(** The errors of the array are copied over those of the ring from 0 on. *)
Fixpoint restore_loop (es : list err_error_st) (i : Z) (dst : ERR_STATE) : err_m ERR_STATE :=
  match es with
  | [] => ret dst
  | src :: r =>
      e <- get_slot dst i ;;
      e <- err_copy e src ;;
      let dst := set_slot i e dst in
      set_state dst ;;
      restore_loop r (i + 1) dst
  end.
(** [abort] ends the program, which is none of the results. *)
Definition ERR_restore_state (o : option ERR_SAVE_STATE) : err_m unit :=
  match o with
  | None => ERR_clear_error
  | Some state =>
      let num_errors := Z.of_nat (length (sv_errors state)) in
      if num_errors =? 0 then ERR_clear_error
      else if ERR_NUM_ERRORS <=? num_errors then ub
      else
        o <- err_get_state ;;
        match o with
        | None => ret tt
        | Some dst =>
            dst <- restore_loop (sv_errors state) 0 dst ;;
            set_state (set_bottom (ERR_NUM_ERRORS - 1) (set_top (num_errors - 1) dst))
        end
  end.
End err.

(** ** BoringSSL: error messages (crypto/err/err.c)

    The strings for libraries and reasons, the message of an error in a buffer of any
    length, and printing what is in the error queue.  The reasons are in a table that
    is generated for the build, [kOpenSSLReasonValues] with the strings of
    [kOpenSSLReasonStringData]; the messages of the system are those of [strerror]. *)

(** ** The C library *)

(** The string that starts an array. *)
Fixpoint until_nul (bs : bytes) : bytes :=
  match bs with
  | [] => []
  | c :: r => if c =? 0 then [] else c :: until_nul r
  end.
(** [%u] *)
Fixpoint print_digits (fuel : nat) (n : Z) : bytes :=
  match fuel with
  | O => []
  | S k => (if n <? 10 then [] else print_digits k (n / 10)) ++ [48 + n mod 10]
  end.
Definition print_u (n : Z) : bytes := print_digits 20 n.
(** [%d] *)
Definition print_d (n : Z) : bytes := if n <? 0 then 45 :: print_u (- n) else print_u n.
(** [%08x] of a [uint32_t] *)
Definition hex_digit (d : Z) : Z := if d <? 10 then 48 + d else 87 + d.
Fixpoint print_hex (digits : nat) (n : Z) : bytes :=
  match digits with
  | O => []
  | S k => print_hex k (n / 16) ++ [hex_digit (n mod 16)]
  end.
(** What [snprintf(buf, len, ...)] leaves in [buf], for a [len] that is not zero. *)
Definition c_snprintf (len : Z) (text : bytes) : bytes := take (Z.to_nat (len - 1)) text ++ [0].
(** [strchr(buf + i, c)], as an index. *)
Fixpoint c_strchr (bs : bytes) (i c : Z) : option Z :=
  match bs with
  | [] => None
  | b :: r => if b =? c then Some i else if b =? 0 then None else c_strchr r (i + 1) c
  end.

(** ** Strings for codes *)

Definition kLibraryNames : list bytes := List.map str
  ["invalid library (0)"; "unknown library"; "system library"; "bignum routines"; "RSA routines";
   "Diffie-Hellman routines"; "public key routines"; "memory buffer routines"; "object identifier routines";
   "PEM routines"; "DSA routines"; "X.509 certificate routines"; "ASN.1 encoding routines";
   "configuration file routines"; "common libcrypto routines"; "elliptic curve routines"; "SSL routines";
   "BIO routines"; "PKCS7 routines"; "PKCS8 routines"; "X509 V3 routines"; "random number generator";
   "ENGINE routines"; "OCSP routines"; "UI routines"; "COMP routines"; "ECDSA routines"; "ECDH routines";
   "HMAC routines"; "Digest functions"; "Cipher functions"; "HKDF functions"; "Trust Token functions";
   "User defined functions"]%string.

Definition err_string_cmp (a b : Z) : Z :=
  let a_key := Z.shiftr a 15 in
  let b_key := Z.shiftr b 15 in
  if a_key <? b_key then -1 else if b_key <? a_key then 1 else 0.

(** [bsearch] finds an element that compares equal, if there is one; the array is
    sorted, and the keys of the table are distinct. *)
Definition c_bsearch (key : Z) (values : list Z) (cmp : Z -> Z -> Z) : option Z :=
  List.find (fun v => cmp key v =? 0) values.

Definition err_string_lookup (lib key : Z) (values : list Z) (string_data : bytes) : option bytes :=
  if (Z.shiftl 1 6 <=? lib) || (Z.shiftl 1 11 <=? key) then None
  else
    let search_key := Z.lor (u32 (Z.shiftl lib 26)) (u32 (Z.shiftl key 15)) in
    match c_bsearch search_key values err_string_cmp with
    | None => None
    | Some result => Some (until_nul (drop (Z.to_nat (Z.land result 0x7fff)) string_data))
    end.

Definition err_lib_error_string (packed_error : Z) : option bytes :=
  let lib := ERR_GET_LIB packed_error in
  if ERR_NUM_LIBS <=? lib then None else kLibraryNames !! Z.to_nat lib.
Definition ERR_lib_error_string (packed_error : Z) : bytes :=
  match err_lib_error_string packed_error with None => str "unknown library" | Some s => s end.
Definition ERR_func_error_string (packed_error : Z) : bytes := str "OPENSSL_internal".

Section text.
Context `{Allocator} (set_thread_local_ok : world -> bool).
Context (strerror : Z -> bytes) (kOpenSSLReasonValues : list Z) (kOpenSSLReasonStringData : bytes).

Definition err_reason_error_string (packed_error : Z) : option bytes :=
  let lib := ERR_GET_LIB packed_error in
  let reason := ERR_GET_REASON packed_error in
  if lib =? ERR_LIB_SYS then (if reason <? 127 then Some (strerror reason) else None)
  else if reason <? ERR_NUM_LIBS then kLibraryNames !! Z.to_nat reason
  else if reason <? 100 then
    if reason =? ERR_R_MALLOC_FAILURE then Some (str "malloc failure")
    else if reason =? ERR_R_SHOULD_NOT_HAVE_BEEN_CALLED then Some (str "function should not have been called")
    else if reason =? ERR_R_PASSED_NULL_PARAMETER then Some (str "passed a null parameter")
    else if reason =? ERR_R_INTERNAL_ERROR then Some (str "internal error")
    else if reason =? ERR_R_OVERFLOW then Some (str "overflow")
    else None
  else err_string_lookup lib reason kOpenSSLReasonValues kOpenSSLReasonStringData.
Definition ERR_reason_error_string (packed_error : Z) : bytes :=
  match err_reason_error_string packed_error with None => str "unknown error" | Some s => s end.

(** ** Messages *)

(** The loop that puts colons into a truncated message: [todo] of the four are not
    found yet, [s] is where to look. *)
Fixpoint colon_loop (todo : nat) (s len : Z) (buf : bytes) : bytes :=
  match todo with
  | O => buf
  | S k =>
      let last_pos := len - 1 - Z.of_nat todo in
      match c_strchr (drop (Z.to_nat s) buf) s 58 with
      | Some colon =>
          if last_pos <? colon
          then take (Z.to_nat last_pos) buf ++ replicate todo 58 ++ drop (Z.to_nat last_pos + todo) buf
          else colon_loop k (colon + 1) len buf
      | None => take (Z.to_nat last_pos) buf ++ replicate todo 58 ++ drop (Z.to_nat last_pos + todo) buf
      end
  end.

Definition error_message (packed_error : Z) : bytes :=
  let lib := ERR_GET_LIB packed_error in
  let reason := ERR_GET_REASON packed_error in
  let lib_str := match err_lib_error_string packed_error with
                 | Some s => s
                 | None => until_nul (c_snprintf 32 (str "lib(" ++ print_u lib ++ str ")"))
                 end in
  let reason_str := match err_reason_error_string packed_error with
                    | Some s => s
                    | None => until_nul (c_snprintf 32 (str "reason(" ++ print_u reason ++ str ")"))
                    end in
  str "error:" ++ print_hex 8 packed_error ++ str ":" ++ lib_str ++ str ":OPENSSL_internal:" ++ reason_str.

(** What is in the buffer of [len] bytes afterwards, from its start to the terminator;
    [None] where nothing is written.  [snprintf] gives the length of a message, which
    is far from the limit of an [int]. *)
Definition ERR_error_string_n (packed_error len : Z) : option bytes :=
  if len =? 0 then None
  else
    let text := error_message packed_error in
    let buf := c_snprintf len text in
    if len <=? Z.of_nat (length text) then
      if len <=? 4 then Some buf else Some (colon_loop 4 0 len buf)
    else Some buf.
Definition ERR_error_string (packed_error : Z) : option bytes :=
  ERR_error_string_n packed_error ERR_ERROR_STRING_BUF_LEN.

(** ** Printing the queue *)

(** The string behind a pointer. *)
Definition read_text (p : text_ptr) : err_m bytes :=
  match p with
  | Literal s => ret s
  | Pointer a => n <- c_strlen a ;; load_bytes a n
  end.

(** The callback with its [ctx]; it does not touch the queue. *)
Context {C : Type} (callback : bytes -> C -> Z * C).

Definition print_line (thread_hash : Z) (buf : bytes) (file : bytes) (line : Z) (data : bytes) : bytes :=
  until_nul (c_snprintf 1024 (print_u thread_hash ++ str ":" ++ buf ++ str ":" ++ file ++ str ":" ++
    print_d line ++ str ":" ++ data ++ [10])).

Fixpoint print_loop (fuel : nat) (thread_hash : Z) (ctx : C) : err_m C :=
  r <- ERR_get_error_line_data set_thread_local_ok ;;
  let '(packed_error, file_line, data_flags) := r in
  if packed_error =? 0 then ret ctx
  else
    match fuel, file_line, data_flags with
    | S k, Some (file, line), Some (data, flags) =>
        file <- read_text file ;;
        data <- (if negb (Z.land flags ERR_FLAG_STRING =? 0) then read_text data else ret []) ;;
        let buf := until_nul (default [] (ERR_error_string_n packed_error ERR_ERROR_STRING_BUF_LEN)) in
        let '(go_on, ctx) := callback (print_line thread_hash buf file line data) ctx in
        if go_on <=? 0 then ret ctx else print_loop k thread_hash ctx
    | O, _, _ => out_of_fuel
    | _, _, _ => ub
    end.
Definition ERR_print_errors_cb (ctx : C) : err_m C :=
  o <- err_get_state set_thread_local_ok ;;
  print_loop (Z.to_nat ERR_NUM_ERRORS) (match o with None => 0 | Some state => es_addr state end) ctx.
End text.

(** [ERR_print_errors_fp]: [fputs] to a file, whose contents are bytes; [fputs_ok] tells
    whether it can. *)
Definition print_errors_to_file (fputs_ok : bytes -> bool) (msg fp : bytes) : Z * bytes :=
  if fputs_ok fp then (1, fp ++ msg) else (0, fp).
Definition ERR_print_errors_fp `{Allocator} (set_thread_local_ok : world -> bool) (strerror : Z -> bytes)
    (values : list Z) (string_data : bytes) (fputs_ok : bytes -> bool) (file : bytes) : err_m bytes :=
  ERR_print_errors_cb set_thread_local_ok strerror values string_data (print_errors_to_file fputs_ok) file.
