(* ===== verification/ErrSpec.v ===== *)
(** * What the error queue is

    The ring of an [ERR_STATE] is a queue of at most fifteen errors, and the state
    owns the texts of its errors: every operation is one on that queue, frees what it
    drops and loses no block, whichever allocations fail. *)
From Stdlib Require Import ZArith Lia String.
From stdpp Require Import prelude gmap list numbers.
From S2P Require Import Prelude CMem Buf BufSpec Owned Err.
Local Open Scope Z_scope.
Local Open Scope c_scope.

#[local] Ltac Zify.zify_post_hook ::= Z.div_mod_to_equations.

(** ** The queue *)

Record entry := Entry {
  en_file : Z;
  en_text : option bytes;
  en_packed : Z;
  en_line : Z;
  en_mark : bool
}.

(** A new error; of sixteen the least recent is dropped. *)
Definition push (e : entry) (q : list entry) : list entry :=
  let q := q ++ [e] in drop (length q - 15) q.

(** A place of the ring, and the chunk of its text. *)
Abbreviation slot := (err_error_st * chunk)%type.
Definition entry_of (z : slot) : entry :=
  Entry (er_file z.1) (chunk_text z.2) (er_packed z.1) (er_line z.1) (er_mark z.1).
Definition has_text (c : chunk) : Prop :=
  match c with Chunk _ _ None => False | _ => True end.
Definition slot_ok (z : slot) : Prop := er_data z.1 = chunk_ptr z.2 /\ has_text z.2.

Record ring (zs : list slot) (bottom top : Z) (q : list entry) : Prop := {
  rg_size : length zs = 16%nat;
  rg_ok : Forall slot_ok zs;
  rg_bottom : 0 <= bottom < 16;
  rg_top : 0 <= top < 16;
  rg_length : Z.of_nat (length q) = (top - bottom) mod 16;
  rg_entries k e : q !! k = Some e ->
    exists z, zs !! Z.to_nat ((bottom + 1 + Z.of_nat k) mod 16) = Some z /\ entry_of z = e
}.

Lemma ring_start zs : length zs = 16%nat -> Forall slot_ok zs -> ring zs 0 0 [].
Proof. intros. split; try done; cbn; lia. Qed.
Lemma ring_short zs b t q : ring zs b t q -> (length q <= 15)%nat.
Proof. intros R. destruct R. lia. Qed.
Lemma ring_empty_iff zs b t q : ring zs b t q -> (b =? t) = bool_decide (q = []).
Proof.
  intros R. pose proof (rg_length _ _ _ _ R) as Hl. destruct R as [_ _ Hb Ht _ _].
  destruct (Z.eqb_spec b t) as [->|Hne]; case_bool_decide as Hq; try done.
  - destruct q; [done|]. cbn in Hl. rewrite Z.sub_diag in Hl. cbn in Hl. lia.
  - subst q. cbn in Hl. lia.
Qed.
Lemma ring_at zs b t q i : ring zs b t q -> 0 <= i < 16 -> exists z, zs !! Z.to_nat i = Some z /\ slot_ok z.
Proof.
  intros R Hi. pose proof (rg_size _ _ _ _ R) as Hs.
  destruct (lookup_lt_is_Some_2 zs (Z.to_nat i)) as [z Hz]; [lia|]. exists z. split; [done|].
  by eapply (proj1 (Forall_lookup _ _) (rg_ok _ _ _ _ R)).
Qed.
Lemma ring_put_ok zs b t q i z : ring zs b t q -> slot_ok z -> Forall slot_ok (<[i := z]> zs).
Proof. intros R Hz. apply Forall_insert; [apply R|done]. Qed.

Lemma ring_insert (zs : list slot) z i j : length zs = 16%nat -> 0 <= j < 16 ->
  <[Z.to_nat i := z]> zs !! Z.to_nat j = if decide (Z.to_nat i = Z.to_nat j) then Some z else zs !! Z.to_nat j.
Proof.
  intros Hl Hj. case_decide as E; [rewrite E, list_lookup_insert_eq by lia; done|].
  by rewrite list_lookup_insert_ne.
Qed.

Lemma lookup_push (q : list entry) e k x :
  (length q <= 15)%nat -> push e q !! k = Some x ->
  let n := if decide (length q = 15)%nat then 1%nat else 0%nat in
  (n + k <= length q)%nat /\ (if decide (n + k = length q)%nat then x = e else q !! (n + k)%nat = Some x).
Proof.
  intros Hq Hk n. unfold push in Hk. rewrite lookup_drop, length_app in Hk. cbn [length] in Hk.
  replace (length q + 1 - 15 + k)%nat with (n + k)%nat in Hk by (unfold n; case_decide; lia).
  pose proof (lookup_lt_Some _ _ _ Hk) as Hlt. rewrite length_app in Hlt. cbn in Hlt. split; [lia|].
  case_decide as E.
  - rewrite E, list_lookup_middle in Hk by done. congruence.
  - by rewrite lookup_app_l in Hk by lia.
Qed.
Lemma length_push q e : (length q <= 15)%nat -> length (push e q) = Nat.min 15 (length q + 1).
Proof. intros Hq. unfold push. rewrite length_drop, length_app. cbn [length]. lia. Qed.

Lemma ring_push zs b t q z :
  ring zs b t q -> slot_ok z ->
  let t' := (t + 1) mod 16 in let b' := if t' =? b then (b + 1) mod 16 else b in
  ring (<[Z.to_nat t' := z]> zs) b' t' (push (entry_of z) q).
Proof.
  intros R Hz t' b'. pose proof (ring_short _ _ _ _ R) as Hq. pose proof (ring_put_ok _ _ _ _ (Z.to_nat t') _ R Hz) as Hok.
  destruct R as [Hs _ Hb Ht Hl He].
  assert (0 <= t' < 16) as Ht' by (unfold t'; lia).
  assert (length q = 15%nat <-> t' = b) as Hfull by (unfold t'; lia).
  assert (0 <= b' < 16) as Hb' by (unfold b'; destruct (Z.eqb_spec t' b); lia).
  split; try done.
  - by rewrite length_insert.
  - rewrite length_push by done. unfold b'. destruct (Z.eqb_spec t' b); unfold t' in *; lia.
  - intros k e Hk. apply lookup_push in Hk as [Hlt Hk]; [|done].
    set (n := if decide (length q = 15)%nat then 1%nat else 0%nat) in *.
    assert ((b' + 1 + Z.of_nat k) mod 16 = (b + 1 + Z.of_nat (n + k)) mod 16) as Ei.
    { unfold b', n. destruct (Z.eqb_spec t' b), (decide (length q = 15)%nat); lia. }
    rewrite Ei. rewrite ring_insert by (done || lia). destruct (decide (n + k = length q)%nat) as [Ek|Ek].
    + rewrite decide_True; [by exists z; subst|]. rewrite Ek. unfold t'. f_equal. lia.
    + rewrite decide_False; [by apply He|]. assert (Z.of_nat (n + k) < Z.of_nat (length q)) by lia.
      unfold t'. lia.
Qed.

Lemma ring_head zs b t e q :
  ring zs b t (e :: q) ->
  let i := (b + 1) mod 16 in
  exists z, zs !! Z.to_nat i = Some z /\ entry_of z = e /\ slot_ok z /\
    forall z', slot_ok z' -> ring (<[Z.to_nat i := z']> zs) i t q.
Proof.
  intros R i. destruct (rg_entries _ _ _ _ R 0%nat e eq_refl) as (z & Hz & Hez).
  change (Z.of_nat 0) with 0 in Hz. rewrite Z.add_0_r in Hz. fold i in Hz. exists z. split; [done|]. split; [done|].
  split; [by eapply (proj1 (Forall_lookup _ _) (rg_ok _ _ _ _ R))|]. intros z' Hz'.
  pose proof (ring_put_ok _ _ _ _ (Z.to_nat i) _ R Hz') as Hok. destruct R as [Hs _ Hb Ht Hl He].
  cbn [length] in Hl. assert (0 <= i < 16) as Hi by (unfold i; lia). split; try done.
  - by rewrite length_insert.
  - unfold i. lia.
  - intros k x Hk. pose proof (lookup_lt_Some _ _ _ Hk) as Hlt.
    destruct (He (S k) x Hk) as (z0 & Hz0 & Ez0). exists z0. split; [|done].
    rewrite ring_insert by (done || lia).
    replace ((i + 1 + Z.of_nat k) mod 16) with ((b + 1 + Z.of_nat (S k)) mod 16) by (unfold i; lia).
    rewrite decide_False; [done|]. unfold i. lia.
Qed.

Lemma ring_last zs b t e q :
  ring zs b t (q ++ [e]) ->
  exists z, zs !! Z.to_nat t = Some z /\ entry_of z = e /\ slot_ok z /\
    (forall z', slot_ok z' -> ring (<[Z.to_nat t := z']> zs) b t (q ++ [entry_of z'])) /\
    (forall z', slot_ok z' ->
       ring (<[Z.to_nat t := z']> zs) b (if t =? 0 then 15 else t - 1) q).
Proof.
  intros R. pose proof (rg_length _ _ _ _ R) as Hl. rewrite length_app in Hl. cbn [length] in Hl.
  pose proof (rg_bottom _ _ _ _ R) as Hb. pose proof (rg_top _ _ _ _ R) as Ht. pose proof (rg_size _ _ _ _ R) as Hs.
  destruct (rg_entries _ _ _ _ R (length q) e) as (z & Hz & Hez); [by apply list_lookup_middle|].
  replace ((b + 1 + Z.of_nat (length q)) mod 16) with t in Hz by lia.
  assert (forall z' k x, q !! k = Some x ->
    exists z0, <[Z.to_nat t := z']> zs !! Z.to_nat ((b + 1 + Z.of_nat k) mod 16) = Some z0 /\ entry_of z0 = x) as Hk.
  { intros z' k x Hk. pose proof (lookup_lt_Some _ _ _ Hk) as Hlt.
    destruct (rg_entries _ _ _ _ R k x) as (z0 & Hz0 & Ez0); [by rewrite lookup_app_l|].
    exists z0. split; [|done]. rewrite ring_insert by (done || lia). rewrite decide_False; [done|]. lia. }
  exists z. split; [done|]. split; [done|].
  split; [by eapply (proj1 (Forall_lookup _ _) (rg_ok _ _ _ _ R))|].
  split; intros z' Hz'; pose proof (ring_put_ok _ _ _ _ (Z.to_nat t) _ R Hz') as Hok; (split; try done).
  - by rewrite length_insert.
  - rewrite length_app. cbn [length]. lia.
  - intros k x Hx. destruct (decide (k = length q)) as [->|Hne].
    + rewrite list_lookup_middle in Hx by done. injection Hx as <-. exists z'. split; [|done].
      replace ((b + 1 + Z.of_nat (length q)) mod 16) with t by lia. apply list_lookup_insert_eq. lia.
    + pose proof (lookup_lt_Some _ _ _ Hx) as Hlt. rewrite length_app in Hlt. cbn in Hlt.
      rewrite lookup_app_l in Hx by lia. by apply Hk.
  - by rewrite length_insert.
  - destruct (Z.eqb_spec t 0); lia.
  - destruct (Z.eqb_spec t 0); lia.
  - intros k x. apply Hk.
Qed.

(** ** The state *)

Section state.
Context `{Allocator} (set_thread_local_ok : world -> bool).
Local Abbreviation err_get_state := (err_get_state set_thread_local_ok).

(** The chunks of the texts, the text kept for the last reader, and the [ERR_STATE]. *)
Definition state_chunks (zs : list slot) (tf : chunk) (addr : Z) (cs : list chunk) : list chunk :=
  zs.*2 ++ tf :: Chunk addr sizeof_ERR_STATE None :: cs.

(** [st] is the queue [q], next to [base] and the chunks [cs]. *)
Definition holds (base : world) (cs : list chunk) (st : ERR_STATE) (w : world) (q : list entry) : Prop :=
  exists zs tf, es_errors st = zs.*1 /\ ring zs (es_bottom st) (es_top st) q /\
    es_to_free st = chunk_ptr tf /\ has_text tf /\ owned base (state_chunks zs tf (es_addr st) cs) w.

(** A thread without an [ERR_STATE] has no errors. *)
Definition rep (base : world) (cs : list chunk) (t : err_thread) (w : world) (q : list entry) : Prop :=
  match th_state t with
  | Some st => holds base cs st w q
  | None => q = [] /\ owned base cs w
  end.

Definition same_env (t t' : err_thread) : Prop :=
  th_errno t' = th_errno t /\ global_next_library t' = global_next_library t.
Lemma same_env_state o t : same_env t (with_state o t).
Proof. by destruct t. Qed.
Lemma same_env_trans t1 t2 t3 : same_env t1 t2 -> same_env t2 t3 -> same_env t1 t3.
Proof. unfold same_env. intuition congruence. Qed.

Lemma delete_put {A} (l : list A) i x : delete i (<[i := x]> l) = delete i l.
Proof. by rewrite !delete_take_drop, take_insert_ge, drop_insert_lt by lia. Qed.

(** One slot of the ring is taken out, and another put in its place. *)
Lemma slots_take base (zs : list slot) i z X w :
  zs !! i = Some z -> owned base (zs.*2 ++ X) w ->
  owned base (z.2 :: (delete i zs).*2 ++ X) w /\
  forall z' X' w', owned base (z'.2 :: (delete i zs).*2 ++ X') w' -> owned base ((<[i := z']> zs).*2 ++ X') w'.
Proof.
  intros Hi Ho. split.
  - eapply owned_perm_chunks; [|exact Ho]. rewrite app_comm_cons. apply Permutation_app_tail.
    rewrite <- fmap_cons. by apply fmap_Permutation, delete_Permutation.
  - intros z' X' w' Ho'. eapply owned_perm_chunks; [|exact Ho']. rewrite app_comm_cons. apply Permutation_app_tail.
    rewrite <- fmap_cons. apply fmap_Permutation. symmetry.
    rewrite (delete_Permutation (<[i := z']> zs) i z') by (apply list_lookup_insert_eq; by eapply lookup_lt_Some).
    by rewrite delete_put.
Qed.

Lemma get_slot_spec st (zs : list slot) i z t w (Q : err_error_st -> err_thread -> world -> Prop) :
  es_errors st = zs.*1 -> zs !! Z.to_nat i = Some z -> Q z.1 t w -> spec False False (get_slot st i) Q t w.
Proof.
  intros Hs Hz HQ. unfold get_slot, spec, of_option. by rewrite Hs, list_lookup_fmap, Hz.
Qed.
Lemma clear_within base e c cs t w (Q : err_error_st -> err_thread -> world -> Prop) :
  er_data e = chunk_ptr c -> owned base (c :: cs) w ->
  (forall w', within 0 w w' -> owned base cs w' -> Q no_error t w') -> spec False False (err_clear e) Q t w.
Proof.
  intros He Ho HQ. unfold err_clear. rewrite He. apply spec_bind.
  apply (owned_free_within base c cs t w _ Ho). intros w' Hw Ho'. apply spec_ret. by apply HQ.
Qed.
Lemma clear_spec base e c cs t w (Q : err_error_st -> err_thread -> world -> Prop) :
  er_data e = chunk_ptr c -> owned base (c :: cs) w -> (forall w', owned base cs w' -> Q no_error t w') ->
  spec False False (err_clear e) Q t w.
Proof. intros He Ho HQ. apply (clear_within base e c cs t w); auto. Qed.
Lemma clear_errors_spec base (zs : list slot) X t w (Q : list err_error_st -> err_thread -> world -> Prop) :
  Forall slot_ok zs -> owned base (zs.*2 ++ X) w ->
  (forall w', owned base X w' -> Q (replicate (length zs) no_error) t w') ->
  spec False False (clear_errors zs.*1) Q t w.
Proof.
  intros Hz. revert w Q. induction Hz as [|z zs [Hz _] Hzs IH]; intros w Q Ho HQ; cbn [fmap list_fmap clear_errors].
  - apply spec_ret. exact (HQ w Ho).
  - apply spec_bind. eapply clear_spec; [exact Hz|exact Ho|]. intros w1 Ho1. cbn beta.
    apply spec_bind, (IH w1); [exact Ho1|]. intros w2 Ho2. apply spec_ret. exact (HQ w2 Ho2).
Qed.

Lemma empty_slots n X base w : owned base X w -> owned base ((replicate n (no_error, Nothing)).*2 ++ X) w.
Proof. intros Ho. induction n; cbn; auto. Qed.
Lemma empty_slots_ok n : Forall slot_ok (replicate n (no_error, Nothing)).
Proof. by apply Forall_replicate. Qed.
Lemma fresh_holds base cs a w :
  owned base (Chunk a sizeof_ERR_STATE None :: cs) w ->
  holds base cs (ErrState a (replicate 16 no_error) 0 0 0) w [].
Proof.
  intros Ho. exists (replicate 16 (no_error, Nothing)), Nothing. cbn [es_errors es_bottom es_top es_to_free es_addr].
  split; [done|]. split; [by apply ring_start; [done|apply empty_slots_ok]|]. split; [done|]. split; [done|].
  apply empty_slots. by apply owned_nothing.
Qed.

Lemma thread_local_spec base cs t w a (Q : bool -> err_thread -> world -> Prop) :
  let fresh := ErrState a (replicate (Z.to_nat ERR_NUM_ERRORS) no_error) 0 0 0 in
  owned base (Chunk a sizeof_ERR_STATE None :: cs) w ->
  Q true (with_state (Some fresh) t) w -> (forall w', set_thread_local_ok w = false -> owned base cs w' -> Q false t w') ->
  spec False False (CRYPTO_set_thread_local set_thread_local_ok fresh) Q t w.
Proof.
  intros fresh Ho H1 H2. unfold spec, CRYPTO_set_thread_local. destruct (set_thread_local_ok w) eqn:Eok; [done|].
  change (spec False False (err_state_free (Some fresh) ;; ret false) Q t w).
  apply spec_bind, spec_bind. cbn [es_errors es_to_free es_addr fresh].
  change (replicate (Z.to_nat ERR_NUM_ERRORS) no_error) with (replicate 16 (no_error, Nothing)).*1.
  eapply clear_errors_spec; [apply empty_slots_ok|apply empty_slots; exact Ho|].
  intros w3 Ho3. apply spec_bind, (owned_free base Nothing (Chunk a sizeof_ERR_STATE None :: cs)); [by apply owned_nothing|].
  intros w4 Ho4. apply (owned_free base (Chunk a sizeof_ERR_STATE None) cs); [done|].
  intros w5 Ho5. by apply spec_ret, H2.
Qed.

(** Why a thread in the world [w] gets no [ERR_STATE]: there is no memory for one, or no
    place for the pointer to it. *)
Definition state_refused (w : world) : Prop :=
  choose w sizeof_ERR_STATE = None \/
  exists w1, within sizeof_ERR_STATE w w1 /\ set_thread_local_ok w1 = false.

(** The state is there, or the queue is empty and stays so. *)
Lemma get_state_within base cs t w q :
  rep base cs t w q ->
  spec False False err_get_state (fun o t' w' =>
    th_state t' = o /\ same_env t t' /\ rep base cs t' w' q /\
    match o with
    | None => q = [] /\ th_state t = None /\ state_refused w
    | Some _ => match th_state t with Some _ => w' = w | None => within sizeof_ERR_STATE w w' end
    end) t w.
Proof.
  intros R. unfold Err.err_get_state. apply spec_bind, spec_get_stream. unfold rep in R.
  destruct (th_state t) as [st|] eqn:Et.
  { apply spec_ret. unfold rep. by rewrite Et. }
  destruct R as [-> Ho]. assert (0 < sizeof_ERR_STATE) as Hsz by done.
  apply spec_bind, (owned_malloc base cs t w sizeof_ERR_STATE); [done|done| |].
  { intros E. apply spec_ret. unfold rep. rewrite Et. split_and!; try done. by left. }
  intros a w1 Ha Hw1 Ho1. cbn beta. rewrite (proj2 (Z.eqb_neq a 0)) by lia.
  destruct (store_total (w_mem w1) a (replicate (Z.to_nat sizeof_ERR_STATE) 0)) as [m2 Hm2].
  { rewrite length_replicate. by apply owned_accessible in Ho1. }
  apply spec_bind. unfold c_memset, spec at 1. rewrite (store_bytes_run _ _ _ _ _ Hm2).
  assert (owned base (Chunk a sizeof_ERR_STATE None :: cs) (set_mem m2 w1)) as Ho2.
  { eapply owned_store; [exact Ho1|exact Hm2|lia| |done]. rewrite length_replicate. unfold sizeof_ERR_STATE, sizeof_err_error. lia. }
  assert (within sizeof_ERR_STATE w (set_mem m2 w1)) as Hw2.
  { eapply within_le; [eapply within_trans; [exact Hw1|by eapply within_store]|lia]. }
  apply spec_bind. eapply thread_local_spec; [exact Ho2| |].
  - apply spec_ret. split_and!; [done|done| |done]. unfold rep. by apply fresh_holds.
  - intros w3 Eok Ho3. apply spec_ret. unfold rep. rewrite Et. split_and!; try done. right. by eexists.
Qed.
Lemma get_state_spec base cs t w q :
  rep base cs t w q ->
  spec False False err_get_state (fun o t' w' =>
    th_state t' = o /\ same_env t t' /\ rep base cs t' w' q /\
    (o = None -> q = [] /\ th_state t = None /\ state_refused w)) t w.
Proof.
  intros R. eapply spec_mono; [by apply get_state_within|]. intros o t' w' (H1 & H2 & H3 & H4).
  split_and!; try done. by intros ->.
Qed.

Lemma set_state_spec st t w (Q : unit -> err_thread -> world -> Prop) :
  Q tt (with_state (Some st) t) w -> spec False False (set_state st) Q t w.
Proof. done. Qed.
Lemma rep_holds base cs t w q st : th_state t = Some st -> rep base cs t w q -> holds base cs st w q.
Proof. unfold rep. by intros ->. Qed.
Lemma holds_rep base cs st t w q : holds base cs st w q -> rep base cs (with_state (Some st) t) w q.
Proof. done. Qed.

(** A state with one slot replaced. *)
Lemma holds_put base cs st zs tf i z bottom top w q :
  es_errors st = zs.*1 -> ring (<[Z.to_nat i := z]> zs) bottom top q ->
  has_text tf ->
  owned base ((<[Z.to_nat i := z]> zs).*2 ++ tf :: Chunk (es_addr st) sizeof_ERR_STATE None :: cs) w ->
  holds base cs (ErrState (es_addr st) (<[Z.to_nat i := z.1]> (es_errors st)) top bottom (chunk_ptr tf)) w q.
Proof.
  intros He Rg Ht Ho. eexists _, tf. cbn [es_errors es_bottom es_top es_to_free es_addr].
  split; [by rewrite He, <- list_fmap_insert|]. done.
Qed.

Lemma advance_fields st zs q :
  ring zs (es_bottom st) (es_top st) q ->
  let top := (es_top st + 1) mod 16 in
  advance st = ErrState (es_addr st) (es_errors st) top
    (if top =? es_bottom st then (es_bottom st + 1) mod 16 else es_bottom st) (es_to_free st).
Proof.
  intros R. destruct R as [_ _ Hb Ht _ _]. unfold advance, set_top, set_bottom, ERR_NUM_ERRORS.
  cbn [es_errors es_bottom es_top es_to_free es_addr].
  replace (u32 (es_top st + 1)) with (es_top st + 1) by wrap_lia.
  replace (u32 (es_bottom st + 1)) with (es_bottom st + 1) by wrap_lia.
  by destruct (_ =? _).
Qed.

(** ** The operations *)

Lemma put_spec base cs t w q library unused reason file line :
  rep base cs t w q ->
  let code := ERR_PACK library (if (library =? ERR_LIB_SYS) && (reason =? 0) then th_errno t else reason) in
  spec False False (ERR_put_error set_thread_local_ok library unused reason file line) (fun _ t' w' =>
    same_env t t' /\
    ((th_state t = None /\ state_refused w /\ q = [] /\ rep base cs t' w' []) \/
     rep base cs t' w' (push (Entry file None code (u16 line) false) q))) t w.
Proof.
  intros R code. unfold ERR_put_error. apply spec_bind. eapply spec_mono; [by apply get_state_spec|].
  intros o t1 w1 (Et & Hs & R1 & Hq). destruct o as [st|].
  2: { destruct (Hq eq_refl) as (-> & Hn & Hu). apply spec_ret. split; [done|]. by left. }
  apply rep_holds with (st := st) in R1 as (zs & tf & Ee & Rg & Hf & Ht & Ho); [|done].
  apply spec_bind, spec_get_stream. cbv zeta. rewrite (advance_fields st zs q Rg).
  cbn [es_top]. set (i := (es_top st + 1) mod 16).
  destruct (ring_at _ _ _ _ i Rg) as (z & Hz & Hzo); [unfold i; lia|].
  destruct (slots_take _ _ _ _ _ _ Hz Ho) as [Ho1 Hback].
  apply spec_bind. eapply get_slot_spec; [exact Ee|exact Hz|].
  apply spec_bind. eapply clear_spec; [apply Hzo|exact Ho1|]. intros w2 Ho2.
  apply set_state_spec. split; [eapply same_env_trans; [exact Hs|apply same_env_state]|]. right.
  apply holds_rep. unfold set_slot. cbn [es_errors es_bottom es_top es_to_free es_addr er_data er_mark no_error].
  replace (th_errno t1) with (th_errno t) by (symmetry; apply Hs). fold code. rewrite Hf.
  set (z' := (ErrError file 0 code (u16 line) false, Nothing)).
  apply (holds_put base cs st zs tf i z'); [done| |done|by apply Hback, owned_nothing].
  by apply (ring_push zs _ _ q z').
Qed.

(** What a reader is told: the place, and the text, which is there to be read. *)
Definition location (e : entry) : text_ptr * Z :=
  if en_file e =? 0 then (Literal (str "NA"), 0) else (Pointer (en_file e), en_line e).
Definition shows (w : world) (e : entry) (p : text_ptr * Z) : Prop :=
  match en_text e with
  | None => p = (Literal [], 0)
  | Some s => exists a, p = (Pointer a, 3) /\ string_at (w_mem w) a s
  end.
Definition reads (file_line data : bool) (e : entry) (r : Z * place * place) (w : world) : Prop :=
  r.1 = (en_packed e, if file_line then Some (location e) else None) /\
  if data then exists p, r.2 = Some p /\ shows w e p else r.2 = None.

Lemma shows_chunk base cs w z :
  slot_ok z -> owned base (z.2 :: cs) w -> shows w (entry_of z) (data_and_flags z.1).
Proof.
  intros [Hd Ht] Ho. unfold shows, data_and_flags, entry_of. rewrite Hd. cbn [en_text].
  destruct z as [e [|a n [s|]]]; cbn [snd chunk_text chunk_ptr] in *; [done| |done].
  destruct Ho as [(Ha & _ & _ & _ & _ & Hs) _]. rewrite (proj2 (Z.eqb_neq a 0)) by lia.
  exists a. split; [done|]. by apply Hs.
Qed.
Lemma slot_reads base cs w z file_line data :
  slot_ok z -> owned base (z.2 :: cs) w ->
  reads file_line data (entry_of z)
    (er_packed z.1, if file_line then Some (file_and_line z.1) else None,
     if data then Some (data_and_flags z.1) else None) w.
Proof.
  intros Hz Ho. split; [done|]. destruct data; [|done]. eexists. split; [done|]. by eapply shows_chunk.
Qed.

(** The text of an error that is removed is kept for the reader; the one kept before
    is freed. *)
Lemma loan_spec base cs st (zs : list slot) tf i z (t : err_thread) w (loan : bool) :
  es_errors st = zs.*1 -> zs !! Z.to_nat i = Some z -> slot_ok z ->
  es_to_free st = chunk_ptr tf -> has_text tf ->
  owned base (z.2 :: (delete (Z.to_nat i) zs).*2 ++ tf :: Chunk (es_addr st) sizeof_ERR_STATE None :: cs) w ->
  spec False False
    (if loan && negb (er_data z.1 =? 0) then
       m_free (es_to_free st) ;; ret (set_slot i (without_data z.1) (set_to_free (er_data z.1) st))
     else ret st)
    (fun st' t' w' => t' = t /\ exists (z' : slot) tf',
       st' = ErrState (es_addr st) (<[Z.to_nat i := z']> zs).*1 (es_top st) (es_bottom st) (chunk_ptr tf') /\
       slot_ok z' /\ has_text tf' /\
       (loan = true -> z.2 = Nothing \/ tf' = z.2) /\
       owned base (z'.2 :: (delete (Z.to_nat i) zs).*2 ++
                   tf' :: Chunk (es_addr st) sizeof_ERR_STATE None :: cs) w') t w.
Proof.
  intros He Hz Hzo Hf Ht Ho. pose proof Hzo as [Hd Hx].
  destruct (loan && negb (er_data z.1 =? 0)) eqn:El.
  - apply andb_true_iff in El as [-> Ed]. rewrite Hf.
    assert (owned base (tf :: z.2 :: (delete (Z.to_nat i) zs).*2 ++
              Chunk (es_addr st) sizeof_ERR_STATE None :: cs) w) as Ho1.
    { eapply owned_perm_chunks; [|exact Ho]. symmetry.
      exact (Permutation_middle (z.2 :: (delete (Z.to_nat i) zs).*2) _ tf). }
    apply spec_bind, (owned_free _ _ _ _ _ _ Ho1). intros w2 Ho2. apply spec_ret. split; [done|].
    exists (without_data z.1, Nothing), z.2. unfold set_slot, set_to_free.
    cbn [es_errors es_bottom es_top es_to_free es_addr fst snd].
    split; [by rewrite He, Hd, list_fmap_insert|]. split; [done|]. split; [done|].
    split; [by right|]. apply owned_nothing.
    eapply owned_perm_chunks; [|exact Ho2]. by apply Permutation_middle.
  - apply spec_ret. split; [done|]. exists z, tf. split_and!; try done.
    + rewrite list_insert_id by done. rewrite <- He, <- Hf. by destruct st.
    + intros ->. left. cbn in El. rewrite Hd in El. destruct z as [e [|a n x]]; [done|].
      destruct Ho as [(Ha & _) _]. cbn in El. destruct (Z.eqb_spec a 0); [lia|done].
Qed.

(** Taking the least recent error. *)
Lemma get_spec base cs t w q file_line data :
  rep base cs t w q ->
  spec False False (get_error_values set_thread_local_ok true false file_line data) (fun r t' w' =>
    same_env t t' /\
    match q with
    | [] => r = (0, None, None) /\ rep base cs t' w' []
    | e :: q => reads file_line data e r w' /\ rep base cs t' w' q
    end) t w.
Proof.
  intros R. unfold get_error_values. apply spec_bind. eapply spec_mono; [by apply get_state_spec|].
  intros o t1 w1 (Et & Hs & R1 & Hq). destruct o as [st|].
  2: { destruct (Hq eq_refl) as [-> Hu]. by apply spec_ret. }
  pose proof R1 as R2. apply rep_holds with (st := st) in R1 as (zs & tf & Ee & Rg & Hf & Ht & Ho); [|done].
  rewrite (ring_empty_iff _ _ _ _ Rg). destruct q as [|e q]; [by apply spec_ret|]. rewrite bool_decide_false by done.
  pose proof (rg_bottom _ _ _ _ Rg) as Hb.
  replace (u32 (es_bottom st + 1)) with (es_bottom st + 1) by wrap_lia.
  set (i := (es_bottom st + 1) mod 16) in *. change (_ mod ERR_NUM_ERRORS) with i.
  destruct (ring_head _ _ _ _ _ Rg) as (z & Hz & Hez & Hzo & Rz). fold i in Hz, Rz.
  destruct (slots_take _ _ _ _ _ _ Hz Ho) as [Ho1 Hback].
  apply spec_bind, spec_ret. cbv zeta. apply spec_bind. eapply get_slot_spec; [exact Ee|exact Hz|].
  rewrite andb_true_r.
  apply spec_bind. eapply spec_mono; [by apply (loan_spec base cs st zs tf i z t1 w1 data)|].
  intros st2 t2 w2 (-> & z' & tf' & -> & Hzo' & Ht' & Hsh & Ho2).
  apply spec_bind, set_state_spec. apply spec_bind, spec_bind, spec_ret.
  apply spec_bind. eapply get_slot_spec; [done|apply list_lookup_insert_eq; by eapply lookup_lt_Some|].
  apply spec_bind. eapply clear_spec; [apply Hzo'|exact Ho2|]. intros w3 Ho3.
  apply set_state_spec, spec_ret. split; [done|]. split.
  - subst e. destruct data; [|done].
    assert (exists X, owned base (z.2 :: X) w3) as [X HX].
    { destruct (Hsh eq_refl) as [->| ->]; [by eexists; apply owned_nothing|].
      eexists. eapply owned_perm_chunks; [|exact Ho3]. symmetry. apply Permutation_middle. }
    by apply (slot_reads _ _ _ _ file_line true Hzo HX).
  - apply holds_rep. unfold set_bottom, set_slot. cbn [es_errors es_bottom es_top es_to_free es_addr].
    set (n := (no_error, Nothing)). exists (<[Z.to_nat i := n]> zs), tf'.
    split; [by cbn [es_errors]; rewrite !list_fmap_insert, list_insert_insert_eq|]. split; [by apply Rz|]. split; [done|]. split; [done|].
    by apply Hback, owned_nothing.
Qed.

(** Looking at the least recent error, or at the most recent. *)
Lemma peek_spec base cs t w q (latest file_line data : bool) :
  rep base cs t w q ->
  spec False False (get_error_values set_thread_local_ok false latest file_line data) (fun r t' w' =>
    same_env t t' /\ rep base cs t' w' q /\
    match (if latest then list.last q else list.head q) with
    | None => r = (0, None, None)
    | Some e => reads file_line data e r w'
    end) t w.
Proof.
  intros R. unfold get_error_values. apply spec_bind. eapply spec_mono; [by apply get_state_spec|].
  intros o t1 w1 (Et & Hs & R1 & Hq). destruct o as [st|].
  2: { destruct (Hq eq_refl) as [-> Hu]. apply spec_ret. by destruct latest. }
  pose proof R1 as R2. apply rep_holds with (st := st) in R1 as (zs & tf & Ee & Rg & Hf & Ht & Ho); [|done].
  rewrite (ring_empty_iff _ _ _ _ Rg). case_bool_decide as Eq.
  { subst q. apply spec_ret. by destruct latest. }
  pose proof (rg_bottom _ _ _ _ Rg) as Hb.
  replace (u32 (es_bottom st + 1)) with (es_bottom st + 1) by wrap_lia.
  set (i := if latest then es_top st else _).
  assert (exists e z, (if latest then list.last q else list.head q) = Some e /\
            zs !! Z.to_nat i = Some z /\ entry_of z = e /\ slot_ok z) as (e & z & -> & Hz & Hez & Hzo).
  { destruct latest; unfold i.
    - destruct q as [|e q _] using rev_ind; [done|]. destruct (ring_last _ _ _ _ _ Rg) as (z & ? & ? & ? & _).
      exists e, z. by rewrite last_snoc.
    - destruct q as [|e q]; [done|]. destruct (ring_head _ _ _ _ _ Rg) as (z & ? & ? & ? & _). by exists e, z. }
  apply spec_bind. eapply (spec_mono _ _ _ (fun _ t' w' => t' = t1 /\ w' = w1)).
  { by destruct latest; apply spec_ret. }
  intros _ t2 w2 [-> ->]. cbv zeta. apply spec_bind. eapply get_slot_spec; [exact Ee|exact Hz|].
  rewrite andb_false_r. apply spec_bind, spec_ret. apply spec_bind, set_state_spec.
  apply spec_bind, spec_ret, spec_ret. split; [by eapply same_env_trans|]. split; [by eapply holds_rep, rep_holds|].
  destruct (slots_take _ _ _ _ _ _ Hz Ho) as [Ho1 _]. subst e. by eapply slot_reads.
Qed.

Lemma clear_error_spec base cs t w q :
  rep base cs t w q ->
  spec False False (ERR_clear_error set_thread_local_ok) (fun _ t' w' =>
    same_env t t' /\ rep base cs t' w' []) t w.
Proof.
  intros R. unfold ERR_clear_error. apply spec_bind. eapply spec_mono; [by apply get_state_spec|].
  intros o t1 w1 (Et & Hs & R1 & Hq). destruct o as [st|].
  2: { destruct (Hq eq_refl) as [-> Hu]. by apply spec_ret. }
  apply rep_holds with (st := st) in R1 as (zs & tf & Ee & Rg & Hf & Ht & Ho); [|done].
  rewrite Ee, Hf. apply spec_bind. eapply clear_errors_spec; [apply Rg|exact Ho|]. intros w2 Ho2.
  apply spec_bind, (owned_free _ _ _ _ _ _ Ho2). intros w3 Ho3.
  apply set_state_spec. split; [done|]. rewrite (rg_size _ _ _ _ Rg). by apply holds_rep, fresh_holds.
Qed.

Lemma chunk_to_front (l : list chunk) x y c cs : l ++ x :: y :: c :: cs ≡ₚ c :: l ++ x :: y :: cs.
Proof.
  pose proof (Permutation_middle (l ++ [x; y]) cs c) as P. rewrite <- !app_assoc in P. by symmetry.
Qed.

(** The last error changed, if there is one. *)
Definition update_last (f : entry -> entry) (q : list entry) : list entry :=
  match reverse q with [] => [] | e :: r => reverse (f e :: r) end.
Lemma update_last_snoc f q e : update_last f (q ++ [e]) = q ++ [f e].
Proof. unfold update_last. by rewrite reverse_snoc, reverse_cons, reverse_involutive. Qed.
Definition set_text (s : bytes) (e : entry) : entry :=
  Entry (en_file e) (Some s) (en_packed e) (en_line e) (en_mark e).
Definition set_en_mark (b : bool) (e : entry) : entry :=
  Entry (en_file e) (en_text e) (en_packed e) (en_line e) b.

Lemma set_data_spec base cs t w q a n s :
  rep base (Chunk a n (Some s) :: cs) t w q ->
  spec False False (err_set_error_data set_thread_local_ok a) (fun _ t' w' =>
    same_env t t' /\ rep base cs t' w' (update_last (set_text s) q)) t w.
Proof.
  intros R. unfold err_set_error_data. apply spec_bind. eapply spec_mono; [by apply get_state_spec|].
  intros o t1 w1 (Et & Hs & R1 & Hq). destruct o as [st|].
  2: { destruct (Hq eq_refl) as [-> Hu]. unfold rep in *. rewrite Et in *. destruct R1 as [_ Ho].
       apply (owned_free base (Chunk a n (Some s)) cs); [done|].
       intros w2 Ho2. rewrite Et. split; [done|]. by split. }
  apply rep_holds with (st := st) in R1 as (zs & tf & Ee & Rg & Hf & Ht & Ho); [|done].
  assert (forall zs', state_chunks zs' tf (es_addr st) (Chunk a n (Some s) :: cs) ≡ₚ
            Chunk a n (Some s) :: state_chunks zs' tf (es_addr st) cs) as Hp.
  { intros zs'. apply chunk_to_front. }
  rewrite Z.eqb_sym, (ring_empty_iff _ _ _ _ Rg). case_bool_decide as Eq.
  { subst q. apply (owned_perm_chunks _ _ _ _ (Hp zs)) in Ho.
    apply (owned_free base (Chunk a n (Some s)) _ _ _ _ Ho). intros w2 Ho2. split; [done|].
    unfold rep. rewrite Et. exists zs, tf. done. }
  destruct q as [|e q _] using rev_ind; [done|].
  destruct (ring_last _ _ _ _ _ Rg) as (z & Hz & Hez & Hzo & Rset & _).
  destruct (slots_take _ _ _ _ _ _ Hz Ho) as [Ho1 Hback].
  apply spec_bind. eapply get_slot_spec; [exact Ee|exact Hz|].
  rewrite (proj1 Hzo). apply spec_bind, (owned_free _ _ _ _ _ _ Ho1). intros w2 Ho2.
  apply set_state_spec. split; [eapply same_env_trans; [exact Hs|apply same_env_state]|]. apply holds_rep.
  set (z' := (with_data a z.1, Chunk a n (Some s))). unfold set_slot. rewrite Hf.
  apply (holds_put base cs st zs tf (es_top st) z'); [done| |done|].
  - rewrite update_last_snoc. subst e. by apply (Rset z').
  - apply Hback. eapply owned_perm_chunks; [|exact Ho2]. apply chunk_to_front.
Qed.

Lemma set_mark_spec base cs t w q :
  rep base cs t w q ->
  spec False False (ERR_set_mark set_thread_local_ok) (fun b t' w' =>
    same_env t t' /\ b = negb (bool_decide (q = [])) /\ rep base cs t' w' (update_last (set_en_mark true) q)) t w.
Proof.
  intros R. unfold ERR_set_mark. apply spec_bind. eapply spec_mono; [by apply get_state_spec|].
  intros o t1 w1 (Et & Hs & R1 & Hq). destruct o as [st|].
  2: { destruct (Hq eq_refl) as [-> Hu]. by apply spec_ret. }
  pose proof R1 as R2. apply rep_holds with (st := st) in R1 as (zs & tf & Ee & Rg & Hf & Ht & Ho); [|done].
  rewrite (ring_empty_iff _ _ _ _ Rg). case_bool_decide as Eq.
  { subst q. by apply spec_ret. }
  destruct q as [|e q _] using rev_ind; [done|].
  destruct (ring_last _ _ _ _ _ Rg) as (z & Hz & Hez & Hzo & Rset & _).
  destruct (slots_take _ _ _ _ _ _ Hz Ho) as [Ho1 Hback].
  apply spec_bind. eapply get_slot_spec; [exact Ee|exact Hz|].
  apply spec_bind, set_state_spec, spec_ret. split; [done|]. split; [done|]. apply holds_rep.
  set (z' := (with_mark true z.1, z.2)). unfold set_slot. rewrite Hf.
  apply (holds_put base cs st zs tf (es_top st) z'); [done| |done|by apply (Hback z')].
  rewrite update_last_snoc. subst e. by apply (Rset z').
Qed.

(** What is behind the last mark is removed, and the mark; from the end. *)
Fixpoint pop_marked (r : list entry) : bool * list entry :=
  match r with
  | [] => (false, [])
  | e :: r => if en_mark e then (true, set_en_mark false e :: r) else pop_marked r
  end.
Definition pop_to_mark (q : list entry) : bool * list entry :=
  let r := pop_marked (reverse q) in (r.1, reverse r.2).
Lemma pop_to_mark_snoc q e :
  pop_to_mark (q ++ [e]) = if en_mark e then (true, q ++ [set_en_mark false e]) else pop_to_mark q.
Proof.
  unfold pop_to_mark. rewrite reverse_snoc. cbn [pop_marked]. destruct (en_mark e); [|done].
  cbn [fst snd]. by rewrite reverse_cons, reverse_involutive.
Qed.

Lemma pop_loop_spec base cs fuel st t w q :
  (length q <= fuel)%nat -> th_state t = Some st -> holds base cs st w q ->
  spec False False (pop_loop fuel st) (fun b t' w' =>
    same_env t t' /\ b = (pop_to_mark q).1 /\ rep base cs t' w' (pop_to_mark q).2) t w.
Proof.
  revert st t w q. induction fuel as [|fuel IH]; intros st t w q Hlen Et HH.
  - destruct q; [|cbn in Hlen; lia]. pose proof HH as (zs & tf & _ & Rg & _). cbn [pop_loop].
    rewrite (ring_empty_iff _ _ _ _ Rg), bool_decide_true by done. apply spec_ret. split; [done|]. split; [done|].
    unfold rep. by rewrite Et.
  - pose proof HH as (zs & tf & Ee & Rg & Hf & Ht & Ho). cbn [pop_loop].
    rewrite (ring_empty_iff _ _ _ _ Rg). case_bool_decide as Eq.
    { subst q. apply spec_ret. split; [done|]. split; [done|]. unfold rep. by rewrite Et. }
    destruct q as [|e q _] using rev_ind; [done|].
    destruct (ring_last _ _ _ _ _ Rg) as (z & Hz & Hez & Hzo & Rset & Rpop).
    destruct (slots_take _ _ _ _ _ _ Hz Ho) as [Ho1 Hback].
    apply spec_bind. eapply get_slot_spec; [exact Ee|exact Hz|].
    rewrite pop_to_mark_snoc. replace (en_mark e) with (er_mark z.1) by by subst e. destruct (er_mark z.1) eqn:Em.
    + apply spec_bind, set_state_spec, spec_ret. split; [apply same_env_state|]. split; [done|]. apply holds_rep.
      set (z' := (with_mark false z.1, z.2)). unfold set_slot. rewrite Hf.
      apply (holds_put base cs st zs tf (es_top st) z'); [done| |done|by apply (Hback z')].
      subst e. by apply (Rset z').
    + apply spec_bind. eapply clear_spec; [apply Hzo|exact Ho1|]. intros w2 Ho2. cbv zeta.
      apply spec_bind, set_state_spec. unfold set_top, set_slot. cbn [es_errors es_bottom es_top es_to_free es_addr].
      set (top := if es_top st =? 0 then _ else _). eapply spec_mono; [apply IH|].
      * rewrite length_app in Hlen. cbn in Hlen. instantiate (1 := q). lia.
      * done.
      * set (z' := (no_error, Nothing)). rewrite Hf. apply (holds_put base cs st zs tf (es_top st) z'); [done| |done|].
        -- pose proof (rg_top _ _ _ _ Rg). replace top with (if es_top st =? 0 then 15 else es_top st - 1).
           { by apply Rpop. }
           unfold top, ERR_NUM_ERRORS. destruct (Z.eqb_spec (es_top st) 0); [done|wrap_lia].
        -- by apply Hback, owned_nothing.
      * intros b t' w' (H1 & H2 & H3). split; [|done]. eapply same_env_trans; [apply same_env_state|exact H1].
Qed.
Lemma pop_to_mark_spec base cs t w q :
  rep base cs t w q ->
  spec False False (ERR_pop_to_mark set_thread_local_ok) (fun b t' w' =>
    same_env t t' /\ b = (pop_to_mark q).1 /\ rep base cs t' w' (pop_to_mark q).2) t w.
Proof.
  intros R. unfold ERR_pop_to_mark. apply spec_bind. eapply spec_mono; [by apply get_state_spec|].
  intros o t1 w1 (Et & Hs & R1 & Hq). destruct o as [st|].
  2: { destruct (Hq eq_refl) as [-> Hu]. by apply spec_ret. }
  apply (rep_holds _ _ _ _ _ _ Et) in R1. pose proof R1 as (zs & tf & _ & Rg & _).
  eapply spec_mono; [apply (pop_loop_spec base cs _ st t1 w1 q); [|done|done]|].
  - pose proof (ring_short _ _ _ _ Rg). change (Z.to_nat ERR_NUM_ERRORS) with 16%nat. lia.
  - intros b t' w' (H1 & H2). split; [|done]. by eapply same_env_trans.
Qed.
End state.

(** ** Saving, restoring and annotating the error queue

    [ERR_save_state] makes a copy that owns its own texts, [ERR_restore_state] replaces
    a queue by such a copy, and [ERR_add_error_data] and [ERR_set_error_data] give the
    last error a text.  All of them copy strings, so that a lack of memory shows. *)

Section save.
Context `{Allocator} (set_thread_local_ok : world -> bool).

(** ** Copies *)

Lemma state_chunks_app zs tf a cs ds : state_chunks zs tf a (cs ++ ds) ≡ₚ cs ++ state_chunks zs tf a ds.
Proof.
  pose proof (Permutation_app_swap_app cs (zs.*2 ++ [tf; Chunk a sizeof_ERR_STATE None]) ds) as P.
  rewrite <- !(app_assoc zs.*2) in P. by symmetry.
Qed.

(** What a queue owns besides [cs]. *)
Lemma rep_chunks base cs t w q :
  rep base cs t w q -> exists X, owned base (cs ++ X) w /\
    forall ds w', owned base (ds ++ X) w' -> rep base ds t w' q.
Proof.
  unfold rep. destruct (th_state t) as [st|].
  - intros (zs & tf & Ee & Rg & Hf & Ht & Ho). exists (state_chunks zs tf (es_addr st) []).
    assert (forall ds, state_chunks zs tf (es_addr st) ds ≡ₚ ds ++ state_chunks zs tf (es_addr st) []) as Hp.
    { intros ds. rewrite <- state_chunks_app. by rewrite app_nil_r. }
    split; [eapply owned_perm_chunks; [apply Hp|exact Ho]|]. intros ds w' Ho'. exists zs, tf. split_and!; try done.
    eapply owned_perm_chunks; [|exact Ho']. by rewrite Hp.
  - intros [-> Ho]. exists []. split; [by rewrite app_nil_r|]. intros ds w' Ho'. by rewrite app_nil_r in Ho'.
Qed.

Lemma strdup_spec {S} base cs (st : S) w p xs (Q : Z -> S -> world -> Prop) :
  owned base cs w -> stays base cs p xs ->
  (choose w (Z.of_nat (length xs) + 1) = None -> Q 0 st w) ->
  (forall a w', 0 < a -> within (Z.of_nat (length xs) + 1) w w' ->
     owned base (Chunk a (Z.of_nat (length xs) + 1) (Some xs) :: cs) w' -> Q a st w') ->
  spec False False (c_strdup p) Q st w.
Proof.
  intros Ho Hp H0 H1. unfold c_strdup.
  assert (string_at (w_mem w) p xs) as Hs by (by apply (Hp Nothing w), owned_nothing).
  apply spec_bind. unfold spec at 1. rewrite (c_strlen_run _ _ _ _ Hs).
  apply spec_bind. eapply owned_malloc; [|exact Ho|intros E|intros a w1 Ha Hw1 Ho1]; [lia| |].
  { by apply spec_ret, H0. }
  rewrite (proj2 (Z.eqb_neq a 0)) by lia. pose proof (Hp _ _ Ho1) as Hs1.
  assert (length (xs ++ [0]) = Z.to_nat (Z.of_nat (length xs) + 1)) as Hl by (rewrite length_app; cbn [length]; lia).
  destruct (store_total (w_mem w1) a (xs ++ [0])) as [m2 Hm2].
  { rewrite Hl, Z2Nat.id by lia. by apply owned_accessible in Ho1. }
  apply spec_bind. unfold c_memcpy. apply spec_bind. unfold spec at 1.
  rewrite (load_bytes_run _ _ (xs ++ [0])) by (rewrite <- Hl; apply Hs1).
  unfold spec at 1. rewrite (store_bytes_run _ _ _ _ _ Hm2). apply spec_ret, H1; [done| |].
  { eapply within_le; [eapply within_trans; [exact Hw1|by eapply within_store]|lia]. }
  eapply owned_store; [exact Ho1|exact Hm2|lia|lia|]. intros ys [= <-]. split; [|lia].
  split; [by eapply load_store_eq|]. apply Hs1.
Qed.

(** The memory that copies of the texts take. *)
Definition text_room (e : entry) : Z :=
  match en_text e with Some xs => Z.of_nat (length xs) + 1 | None => 0 end.
Definition texts_room (q : list entry) : Z := foldr (fun e n => text_room e + n) 0 q.
Lemma text_room_nonneg e : 0 <= text_room e.
Proof. unfold text_room. destruct (en_text e); lia. Qed.
Lemma texts_room_nonneg q : 0 <= texts_room q.
Proof.
  induction q as [|e q IH]; [done|]. pose proof (text_room_nonneg e).
  change (0 <= text_room e + texts_room q). lia.
Qed.

(** A copy has no mark, and no text in the case of [lost]. *)
Definition copy_of (lost : Prop) (e e' : entry) : Prop :=
  en_file e' = en_file e /\ en_packed e' = en_packed e /\ en_line e' = en_line e /\ en_mark e' = false /\
  (en_text e' = en_text e \/ en_text e' = None /\ lost).
Lemma copy_of_mono (P Q : Prop) e e' : (P -> Q) -> copy_of P e e' -> copy_of Q e e'.
Proof. intros HPQ (H1 & H2 & H3 & H4 & H5). split_and!; try done. tauto. Qed.
Lemma copies_mono (P Q : Prop) q q' : (P -> Q) -> Forall2 (copy_of P) q q' -> Forall2 (copy_of Q) q q'.
Proof. intros HPQ. apply Forall2_impl. intros e e'. by apply copy_of_mono. Qed.

Lemma copy_spec base cs dst d src t w :
  er_data dst = chunk_ptr d -> owned base (d :: cs) w -> slot_ok src -> src.2 ∈ Nothing :: cs ->
  spec False False (err_copy dst src.1) (fun e t' w' => t' = t /\ exists c,
    slot_ok (e, c) /\ copy_of (refused (text_room (entry_of src)) w) (entry_of src) (entry_of (e, c)) /\
    within (text_room (entry_of src)) w w' /\ owned base (c :: cs) w') t w.
Proof.
  intros Hd Ho [Hs Ht] Hin. unfold err_copy. apply spec_bind. eapply clear_within; [exact Hd|exact Ho|].
  intros w1 Hw1 Ho1. apply spec_bind. destruct src as [e c]. cbn [fst snd] in *.
  assert (c = Nothing \/ exists a n xs, c = Chunk a n (Some xs) /\ 0 < a) as [->|(a & n & xs & -> & Ha)].
  { destruct c as [|a n [xs|]]; [by left| |done]. right. exists a, n, xs. split; [done|].
    apply elem_of_cons in Hin as [|Hin]; [done|]. apply list_elem_of_split in Hin as (l1 & l2 & ->).
    assert (owned base (Chunk a n (Some xs) :: l1 ++ l2) w1) as [(Ha & _) _]; [|done].
    eapply owned_perm_chunks; [|exact Ho1]. symmetry. apply Permutation_middle. }
  - rewrite Hs. cbn [chunk_ptr Z.eqb negb]. apply spec_ret, spec_ret. split; [done|]. exists Nothing.
    split; [done|]. split; [|split; [done|by apply owned_nothing]]. split_and!; try done. by left.
  - rewrite Hs. cbn [chunk_ptr]. rewrite (proj2 (Z.eqb_neq a 0)) by lia. cbn [negb].
    apply elem_of_cons in Hin as [|Hin]; [done|]. unfold text_room, entry_of. cbn [fst snd en_text chunk_text].
    set (room := Z.of_nat (length xs) + 1). assert (0 < room) by (unfold room; lia).
    eapply strdup_spec; [exact Ho1|by eapply chunk_stays|intros E|intros b w2 Hb Hw2 Ho2]; apply spec_ret; (split; [done|]).
    + exists Nothing. split; [done|]. split; [|split; [eapply within_le; [exact Hw1|lia]|by apply owned_nothing]].
      split_and!; try done. right. split; [done|]. eapply refused_le; [eapply refused_within; [exact Hw1|]|].
      * apply (refused_now room); [done|exact E].
      * lia.
    + eexists. split; [|split; [|split; [|exact Ho2]]]; [done| |].
      * split_and!; try done. by left.
      * exact (within_trans _ _ _ _ _ Hw1 Hw2).
Qed.

(** ** Saving *)

Definition save_chunks (zs : list slot) (sv : ERR_SAVE_STATE) : list chunk :=
  zs.*2 ++ [Chunk (sv_array sv) (Z.of_nat (length zs) * sizeof_err_error) None;
            Chunk (sv_addr sv) sizeof_ERR_SAVE_STATE None].
(** [sv] is a saved queue [q], which owns [cs]. *)
Definition saved (sv : ERR_SAVE_STATE) (cs : list chunk) (q : list entry) : Prop :=
  exists zs, sv_errors sv = zs.*1 /\ Forall slot_ok zs /\ entry_of <$> zs = q /\ cs = save_chunks zs sv.

Lemma save_loop_spec base (zs : list slot) st q k i cs t w :
  es_errors st = zs.*1 -> ring zs (es_bottom st) (es_top st) q -> (forall z, z ∈ zs -> z.2 ∈ cs) ->
  (i + k = length q)%nat -> owned base cs w ->
  spec False False (save_loop k st (Z.of_nat i)) (fun es t' w' => t' = t /\ exists zs',
    es = zs'.*1 /\ Forall slot_ok zs' /\
    Forall2 (copy_of (refused (texts_room (drop i q)) w)) (drop i q) (entry_of <$> zs') /\
    owned base (zs'.*2 ++ cs) w') t w.
Proof.
  intros He Rg. revert i cs w. induction k as [|k IH]; intros i cs w Hin Hlen Ho; cbn [save_loop].
  - apply spec_ret. split; [done|]. exists []. split_and!; try done. by rewrite drop_ge by lia.
  - destruct (lookup_lt_is_Some_2 q i) as [e Hi]; [lia|].
    destruct (rg_entries _ _ _ _ Rg i e Hi) as (z & Hz & Ez). pose proof (rg_bottom _ _ _ _ Rg).
    pose proof (ring_short _ _ _ _ Rg).
    replace (u64 (es_bottom st + Z.of_nat i + 1)) with (es_bottom st + 1 + Z.of_nat i) by wrap_lia.
    apply spec_bind. eapply get_slot_spec; [exact He|exact Hz|].
    apply list_elem_of_lookup_2 in Hz as Hel.
    apply spec_bind. eapply spec_mono; [eapply (copy_spec base cs no_error Nothing z)|].
    + done.
    + by apply owned_nothing.
    + exact (Forall_lookup_1 _ _ _ _ (rg_ok _ _ _ _ Rg) Hz).
    + apply elem_of_cons. right. by apply Hin.
    + intros e' t1 w1 (-> & c & Hok & Hcopy & Hw1 & Ho1). apply spec_bind.
      replace (Z.of_nat i + 1) with (Z.of_nat (S i)) by lia.
      eapply spec_mono; [apply (IH (S i) (c :: cs) w1); [|lia|done]|].
      { intros z' Hz'. apply elem_of_cons. right. by apply Hin. }
      intros es t2 w2 (-> & zs' & -> & Hoks & Hcopies & Ho2). apply spec_ret. split; [done|].
      exists ((e', c) :: zs'). split; [done|]. split; [by constructor|]. rewrite (drop_S _ e i) by done.
      change (texts_room (e :: drop (S i) q)) with (text_room e + texts_room (drop (S i) q)).
      split; [rewrite Ez in *; cbn; constructor|].
      { eapply copy_of_mono; [|exact Hcopy]. intros Hr. eapply refused_le; [exact Hr|].
        pose proof (texts_room_nonneg (drop (S i) q)). lia. }
      { eapply copies_mono; [|exact Hcopies]. intros Hr. by eapply refused_within. }
      eapply owned_perm_chunks; [|exact Ho2].
      symmetry. cbn. apply Permutation_middle.
Qed.

(** The memory that a saved queue takes. *)
Definition save_room (q : list entry) : Z :=
  sizeof_ERR_SAVE_STATE + Z.of_nat (length q) * sizeof_err_error + texts_room q.

Lemma save_spec base cs t w q :
  rep base cs t w q ->
  spec False False (ERR_save_state set_thread_local_ok) (fun o t' w' => same_env t t' /\
    match o with
    | None => (q = [] \/ refused (save_room q) w) /\ rep base cs t' w' q
    | Some sv => exists cs' q', q <> [] /\ saved sv cs' q' /\
        Forall2 (copy_of (refused (save_room q) w)) q q' /\ rep base (cs' ++ cs) t' w' q
    end) t w.
Proof.
  intros R. unfold ERR_save_state. apply spec_bind. eapply spec_mono; [by apply get_state_within|].
  intros o t1 w1 (Et & Hs & R1 & Hq). destruct o as [st|].
  2: { destruct Hq as [-> Hu]. apply spec_ret. auto. }
  pose proof R1 as R2. apply (rep_holds _ _ _ _ _ _ Et) in R1 as (zs & tf & Ee & Rg & Hf & Ht & Ho).
  rewrite Z.eqb_sym, (ring_empty_iff _ _ _ _ Rg). case_bool_decide as Eq.
  { apply spec_ret. auto. }
  assert (w1 = w) as ->.
  { unfold rep in R. destruct (th_state t); [done|]. by destruct R. }
  pose proof (texts_room_nonneg q) as Hroom.
  pose proof (rg_length _ _ _ _ Rg) as Hlen. pose proof (rg_bottom _ _ _ _ Rg). pose proof (rg_top _ _ _ _ Rg).
  assert (length q <> 0%nat) by by destruct q.
  assert (0 < Z.of_nat (length q) * sizeof_err_error) as Hsz by (unfold sizeof_err_error; lia).
  apply spec_bind. eapply owned_malloc; [|exact Ho|intros E|intros p w2 Hp Hw2 Ho2]; [done| |].
  { apply spec_ret. split; [done|]. split; [|done]. right.
    eapply refused_le; [apply refused_now; [|exact E]; done|unfold save_room; lia]. }
  rewrite (proj2 (Z.eqb_neq p 0)) by lia. cbv zeta.
  replace (if es_bottom st <=? es_top st then _ else _) with (Z.of_nat (length q))
    by (unfold ERR_NUM_ERRORS; destruct (Z.leb_spec (es_bottom st) (es_top st)); wrap_lia).
  unfold ERR_NUM_ERRORS. rewrite (proj2 (Z.ltb_lt _ 16)) by lia. apply spec_bind, spec_ret.
  apply spec_bind. eapply owned_malloc; [done|exact Ho2|intros E|intros a w3 Ha Hw3 Ho3].
  { apply spec_bind, (owned_free base (Chunk p sizeof_ERR_SAVE_STATE None) _ _ _ _ Ho2). intros w3 Ho3.
    apply spec_ret. split; [done|]. split.
    { right. eapply refused_le; [eapply refused_within; [exact Hw2|apply refused_now; [|exact E]; done]|unfold save_room; lia]. }
    unfold rep. rewrite Et. by exists zs, tf. }
  rewrite (proj2 (Z.eqb_neq a 0)) by lia.
  set (zeros := replicate (Z.to_nat (Z.of_nat (length q) * sizeof_err_error)) 0).
  assert (Z.of_nat (length zeros) = Z.of_nat (length q) * sizeof_err_error) as Hlz
    by (unfold zeros; rewrite length_replicate; lia).
  destruct (store_total (w_mem w3) a zeros) as [m4 Hm4].
  { rewrite Hlz. by apply owned_accessible in Ho3. }
  pose proof (within_store _ _ _ _ Hm4) as Hw4.
  apply spec_bind. unfold c_memset, spec at 1. rewrite (store_bytes_run _ _ _ _ _ Hm4).
  apply (owned_store _ _ _ _ _ _ _ _ _ None) with (2 := Hm4) in Ho3; [|lia|lia|done].
  rewrite Nat2Z.id. apply spec_bind.
  eapply spec_mono; [eapply (save_loop_spec base zs st q (length q) 0); [done|done| |done|exact Ho3]|].
  { intros z Hz. do 2 (apply elem_of_cons; right). apply elem_of_app. left. by apply list_elem_of_fmap_2. }
  intros es t5 w5 (-> & zs' & -> & Hoks & Hcopies & Ho5). apply spec_ret. split; [done|].
  set (sv := ErrSave p a zs'.*1). exists (save_chunks zs' sv), (entry_of <$> zs'). split; [done|].
  split; [by exists zs'|]. rewrite drop_0 in Hcopies. split.
  { eapply copies_mono; [|exact Hcopies]. intros Hr.
    eapply refused_le; [eapply refused_within; [exact (within_trans _ _ _ _ _ Hw2 (within_trans _ _ _ _ _ Hw3 Hw4))|exact Hr]|].
    unfold save_room. lia. }
  unfold rep. rewrite Et.
  exists zs, tf. split_and!; try done. eapply owned_perm_chunks; [|exact Ho5].
  apply Forall2_length in Hcopies. rewrite length_fmap in Hcopies. unfold save_chunks.
  by rewrite <- Hcopies, state_chunks_app, <- app_assoc.
Qed.

(** ** Restoring *)

(** The errors of [es] are copied over the slots from [i] on. *)
Lemma restore_loop_spec base es dst (zs : list slot) tf i cs t w :
  es_errors dst = zs.*1 -> length zs = 16%nat -> Forall slot_ok zs ->
  Forall slot_ok es -> (forall z, z ∈ es -> z.2 ∈ Nothing :: cs) -> (i + length es <= 16)%nat ->
  th_state t = Some dst -> es_to_free dst = chunk_ptr tf ->
  owned base (state_chunks zs tf (es_addr dst) cs) w ->
  spec False False (restore_loop es.*1 (Z.of_nat i) dst) (fun dst' t' w' => same_env t t' /\ exists zs',
    dst' = ErrState (es_addr dst) zs'.*1 (es_top dst) (es_bottom dst) (chunk_ptr tf) /\
    length zs' = 16%nat /\ Forall slot_ok zs' /\ take i zs' = take i zs /\
    Forall2 (copy_of (refused (texts_room (entry_of <$> es)) w)) (entry_of <$> es)
      (entry_of <$> take (length es) (drop i zs')) /\
    owned base (state_chunks zs' tf (es_addr dst) cs) w') t w.
Proof.
  revert dst zs i t w. induction es as [|src es IH]; intros dst zs i t w He Hl Hz Hes Hin Hi Et Hf Ho.
  - apply spec_ret. split; [done|]. exists zs. split_and!; try done.
    rewrite <- He, <- Hf. by destruct dst.
  - cbn [length] in Hi. apply Forall_cons_1 in Hes as [Hsrc Hes]. cbn [fmap list_fmap restore_loop].
    destruct (lookup_lt_is_Some_2 zs i) as [z Hzi]; [lia|].
    pose proof (Forall_lookup_1 _ _ _ _ Hz Hzi) as Hzo.
    destruct (slots_take _ _ _ _ _ _ Hzi Ho) as [Ho1 Hback].
    apply spec_bind. eapply (get_slot_spec _ zs _ z); [done|by rewrite Nat2Z.id|].
    apply spec_bind. eapply spec_mono; [apply (copy_spec base _ z.1 z.2 src t w (proj1 Hzo) Ho1 Hsrc)|].
    { specialize (Hin src (list_elem_of_here _ _)). rewrite !elem_of_cons, !elem_of_app, !elem_of_cons in *. tauto. }
    intros e t1 w1 (-> & c & Hok & Hcopy & Hw1 & Ho2). cbv zeta. apply spec_bind, set_state_spec.
    set (z' := (e, c)) in *. apply (Hback z') in Ho2.
    replace (Z.of_nat i + 1) with (Z.of_nat (S i)) by lia.
    eapply spec_mono; [apply (IH (set_slot (Z.of_nat i) e dst) (<[i := z']> zs) (S i) _ w1)|].
    + cbn. rewrite Nat2Z.id, He. by rewrite list_fmap_insert.
    + by rewrite length_insert.
    + by apply Forall_insert.
    + done.
    + intros z0 Hz0. apply Hin. by apply list_elem_of_further.
    + lia.
    + done.
    + done.
    + exact Ho2.
    + intros dst' t2 w2 (Hs & zs' & -> & Hl' & Hz' & Htake & Hcs & Ho3).
      split; [eapply same_env_trans; [apply same_env_state|exact Hs]|]. exists zs'. split_and!; try done.
      * apply (f_equal (take i)) in Htake. rewrite !take_take, Nat.min_l in Htake by lia.
        by rewrite Htake, take_insert_ge.
      * assert (zs' !! i = Some z') as Hi'.
        { rewrite <- (lookup_take_lt zs' (S i)), Htake, lookup_take_lt by lia. by apply list_lookup_insert_eq; lia. }
        rewrite (drop_S _ _ _ Hi'). cbn [length take fmap list_fmap].
        change (texts_room (?e :: ?q)) with (text_room e + texts_room q). constructor.
        -- eapply copy_of_mono; [|exact Hcopy]. intros Hr. eapply refused_le; [exact Hr|].
           pose proof (texts_room_nonneg (entry_of <$> es)). lia.
        -- eapply copies_mono; [|exact Hcs]. intros Hr. by eapply refused_within.
Qed.

(** The memory it takes to restore [qs], for a thread that has no [ERR_STATE] yet. *)
Definition restore_room (qs : list entry) : Z := sizeof_ERR_STATE + texts_room qs.

(** The queue becomes a copy of the saved one, which stays. *)
Lemma restore_spec base sv cs' cs t w q qs :
  rep base (cs' ++ cs) t w q -> saved sv cs' qs -> qs <> [] -> (length qs <= 15)%nat ->
  spec False False (ERR_restore_state set_thread_local_ok (Some sv)) (fun _ t' w' => same_env t t' /\
    exists q', rep base (cs' ++ cs) t' w' q' /\
      (Forall2 (copy_of (refused (restore_room qs) w)) qs q' \/
       q' = [] /\ th_state t = None /\ state_refused set_thread_local_ok w)) t w.
Proof.
  intros R (es & Hes & Hok & Hqs & Hcs) Hne Hlen. unfold ERR_restore_state. rewrite Hes, length_fmap.
  assert (length es = length qs) as El by (by rewrite <- Hqs, length_fmap).
  assert (length qs <> 0%nat) by by destruct qs.
  rewrite (proj2 (Z.eqb_neq _ 0)) by lia. unfold ERR_NUM_ERRORS. rewrite (proj2 (Z.leb_gt 16 _)) by lia.
  apply spec_bind. eapply spec_mono; [by apply get_state_within|].
  intros o t1 w1 (Et & Hs & R1 & Hq). destruct o as [st|].
  2: { destruct Hq as [-> Hu]. apply spec_ret. split; [done|]. exists []. auto. }
  apply (rep_holds _ _ _ _ _ _ Et) in R1 as (zs & tf & Ee & Rg & Hf & Ht & Ho).
  apply spec_bind. eapply spec_mono; [apply (restore_loop_spec base es st zs tf 0 (cs' ++ cs) t1 w1); try done|].
  - apply Rg.
  - apply Rg.
  - intros z Hz. subst cs'. unfold save_chunks. rewrite elem_of_cons, !elem_of_app. right. left. left.
    by apply list_elem_of_fmap_2.
  - lia.
  - intros dst t2 w2 (Hs2 & zs' & -> & Hl & Hz' & _ & Hcopies & Ho2). rewrite drop_0 in Hcopies.
    apply set_state_spec. split; [eapply same_env_trans; [exact Hs|]; eapply same_env_trans; [exact Hs2|apply same_env_state]|].
    exists (entry_of <$> take (length es) zs'). split.
    2: { left. rewrite <- Hqs. eapply copies_mono; [|exact Hcopies]. unfold restore_room. intros Hr.
         destruct (th_state t); [subst w1|by eapply refused_within].
         eapply refused_le; [exact Hr|]. unfold sizeof_ERR_STATE, sizeof_err_error. lia. }
    apply holds_rep. exists zs', tf. unfold set_bottom, set_top. cbn [es_errors es_bottom es_top es_to_free es_addr].
    split; [done|]. split; [|done]. split; try done; try lia.
    + rewrite length_fmap, length_take. lia.
    + intros k e Hk. apply list_lookup_fmap_Some in Hk as (z & -> & Hz). exists z. split; [|done].
      pose proof (lookup_lt_Some _ _ _ Hz) as Hlt. rewrite length_take in Hlt.
      rewrite lookup_take_lt in Hz by lia. rewrite <- Hz. f_equal. lia.
Qed.

(** A saved queue is given back. *)
Lemma save_free_spec base sv cs' cs t w q qs :
  rep base (cs' ++ cs) t w q -> saved sv cs' qs ->
  spec False False (ERR_SAVE_STATE_free (Some sv)) (fun _ t' w' => t' = t /\ rep base cs t' w' q) t w.
Proof.
  intros R (es & Hes & Hok & Hqs & ->). unfold ERR_SAVE_STATE_free. rewrite Hes.
  apply rep_chunks in R as (X & Ho & HX). unfold save_chunks in Ho. rewrite <- !app_assoc in Ho.
  apply spec_bind.
  eapply clear_errors_spec; [done|exact Ho|]. intros w1 Ho1.
  apply spec_bind, (owned_free _ (Chunk (sv_array sv) _ _) _ _ _ _ Ho1). intros w2 Ho2.
  apply (owned_free _ (Chunk (sv_addr sv) _ _) _ _ _ _ Ho2). intros w3 Ho3. split; [done|]. by apply HX.
Qed.

(** ** Texts *)

(** [ERR_set_error_data] with a string that is not the queue's to free, and with one
    that is. *)
Lemma set_error_data_spec base cs t w q p xs flags :
  Z.land flags ERR_FLAG_STRING <> 0 ->
  (if Z.land flags ERR_FLAG_MALLOCED =? 0 then rep base cs t w q /\ string_at (w_mem base) p xs
   else exists n, rep base (Chunk p n (Some xs) :: cs) t w q) ->
  spec False False (ERR_set_error_data set_thread_local_ok p flags) (fun _ t' w' => same_env t t' /\
    exists q', rep base cs t' w' q' /\ (q' = update_last (set_text xs) q \/ q' = q /\ choose w (Z.of_nat (length xs) + 1) = None)) t w.
Proof.
  intros Hf HR. unfold ERR_set_error_data. rewrite (proj2 (Z.eqb_neq _ 0)) by done.
  assert (forall cs', rep base cs' t w q -> (forall X, stays base (cs' ++ X) p xs) ->
    (forall t' w' q', rep base cs' t' w' q' ->
       spec False False (if negb (Z.land flags ERR_FLAG_MALLOCED =? 0) then m_free p else ret tt)
         (fun _ t2 w2 => t2 = t' /\ rep base cs t2 w2 q') t' w') ->
    spec False False (copy <- c_strdup p ;;
      (if negb (copy =? 0) then err_set_error_data set_thread_local_ok copy else ret tt) ;;
      (if negb (Z.land flags ERR_FLAG_MALLOCED =? 0) then m_free p else ret tt)) (fun _ t' w' => same_env t t' /\
    exists q', rep base cs t' w' q' /\ (q' = update_last (set_text xs) q \/ q' = q /\ choose w (Z.of_nat (length xs) + 1) = None)) t w) as Hall.
  { intros cs' R Hp Hfree. apply rep_chunks in R as (X & Ho & HX). apply spec_bind.
    eapply strdup_spec; [exact Ho|by apply Hp|intros Hm|intros a w1 Ha _ Ho1].
    - apply spec_bind, spec_ret. eapply spec_mono; [apply Hfree; by apply HX|].
      intros _ t2 w2 [-> R2]. split; [done|]. exists q. auto.
    - rewrite (proj2 (Z.eqb_neq a 0)) by lia. cbn [negb]. apply spec_bind.
      eapply spec_mono; [eapply (set_data_spec _ base cs' t w1 q a); by apply HX|].
      intros _ t' w' [Hs R]. eapply spec_mono; [by apply Hfree|].
      intros _ t2 w2 [-> R2]. split; [done|]. eexists. split; [exact R2|]. by left. }
  destruct (Z.eqb_spec (Z.land flags ERR_FLAG_MALLOCED) 0) as [E|E]; cbn [negb] in *.
  - destruct HR as [R Hstr]. apply (Hall cs); [done|intros X; by apply base_stays|].
    intros t' w' q' R'. by apply spec_ret.
  - destruct HR as [n R]. apply (Hall _ R).
    + intros X. apply (chunk_stays _ _ _ n). by left.
    + intros t' w' q' R'. apply rep_chunks in R' as (X & Ho & HX).
      apply (owned_free base (Chunk p n (Some xs)) (cs ++ X) _ _ _ Ho). intros w2 Ho2. split; [done|]. by apply HX.
Qed.

(** The pieces of a text: null pointers and strings. *)
Definition piece (base : world) (cs : list chunk) (p : Z) (xs : bytes) : Prop :=
  (p = 0 /\ xs = []) \/ (p <> 0 /\ forall X, stays base (cs ++ X) p xs).

Lemma strlcat_loop_run {S} n dst size l xs (st : S) w :
  string_at (w_mem w) dst xs -> Z.of_nat (length xs) < size -> size <= Z.of_nat n ->
  strlcat_loop n dst size l st w =
    Ret ((dst + Z.of_nat (length xs), size - Z.of_nat (length xs), l + Z.of_nat (length xs)), st, w).
Proof.
  revert dst size l xs. induction n as [|n IH]; intros dst size l xs Hs Hlt Hn; [lia|]. cbn [strlcat_loop].
  rewrite (proj2 (Z.ltb_lt 0 size)) by lia. destruct xs as [|x xs].
  - rewrite (bind_ret_run _ _ _ _ _ _ _ (load_byte_run _ _ _ _ _ eq_refl (string_nil _ _ Hs))).
    cbn. by rewrite Z.sub_0_r, !Z.add_0_r.
  - apply string_cons in Hs as (Hx & _ & Hne & Hs). cbn [length] in *.
    rewrite (bind_ret_run _ _ _ _ _ _ _ (load_byte_run _ _ _ _ _ eq_refl Hx)).
    rewrite (proj2 (Z.eqb_neq x 0)) by done. cbn [negb]. rewrite (IH _ _ _ xs) by (done || lia).
    by rewrite Nat2Z.inj_succ, <- Z.add_1_l, !Z.add_assoc, Z.sub_add_distr.
Qed.

(** A string that stays is apart from a chunk. *)
Lemma stays_apart base cs a n s w p xs k :
  owned base (Chunk a n s :: cs) w -> stays base cs p xs -> 0 < k -> k <= n ->
  apart (a + n - k) k p (Z.of_nat (length xs) + 1).
Proof.
  intros Ho Hp Hk Hkn. destruct Ho as [(_ & Hn & _) Ho]. cbn [drop_chunk] in Ho.
  assert (string_at (w_mem (drop_block a n w)) p xs) as Hs by (by apply (Hp Nothing), owned_nothing).
  set (x := Z.max (a + n - k) p). unfold apart.
  destruct (decide (x < a + n /\ x < p + (Z.of_nat (length xs) + 1))) as [[H1 H2]|]; [|lia].
  destruct (load_accessible _ _ _ _ (proj1 Hs) x) as [v Hv]; [rewrite length_app; cbn [length]; lia|].
  rewrite drop_lookup, decide_True in Hv by lia. done.
Qed.

Lemma strlcat_spec {S} base cs a n ys p xs (st : S) w (Q : Z -> S -> world -> Prop) :
  owned base (Chunk a n (Some ys) :: cs) w -> stays base cs p xs ->
  Z.of_nat (length ys) + Z.of_nat (length xs) < n ->
  (forall w', owned base (Chunk a n (Some (ys ++ xs)) :: cs) w' -> Q (Z.of_nat (length (ys ++ xs))) st w') ->
  spec False False (OPENSSL_strlcat a p n) Q st w.
Proof.
  intros Ho Hp Hlen HQ. pose proof Ho as [(Ha & Hn & Hend & _ & Hacc & Hys) _].
  destruct (Hys ys eq_refl) as [Hsy Hly].
  pose proof (stays_apart base cs a n _ w p xs (n - Z.of_nat (length ys)) Ho Hp ltac:(lia) ltac:(lia)) as Hap.
  replace (a + n - (n - Z.of_nat (length ys))) with (a + Z.of_nat (length ys)) in Hap by lia.
  unfold OPENSSL_strlcat. apply spec_bind. unfold spec at 1.
  rewrite (strlcat_loop_run _ _ _ _ ys _ _ Hsy) by lia. apply spec_bind.
  destruct (strlcpy_in_bounds (a + Z.of_nat (length ys)) p (n - Z.of_nat (length ys)) xs st w)
    as (m' & E & Hst); [by apply (Hp (Chunk a n (Some ys)))|lia|lia| |done|].
  { eapply accessible_sub; [exact Hacc|lia|lia]. }
  unfold spec at 1. rewrite E. rewrite (proj2 (Z.eqb_neq _ 0)), take_ge in Hst by lia.
  apply spec_ret. replace (u64 _) with (Z.of_nat (length (ys ++ xs))) by (rewrite length_app; unfold u64; rewrite wrap_small; lia).
  apply HQ. eapply owned_store; [exact Ho|exact Hst|lia| |].
  - rewrite length_app. cbn [length]. lia.
  - intros zs [= <-]. split; [|rewrite length_app; lia].
    assert (string_at (w_mem w) p xs) as (_ & Hbx & Hzx) by (by apply (Hp (Chunk a n (Some ys)))).
    destruct Hsy as (Hl & Hb & Hz). split; [|by split; apply Forall_app].
    rewrite <- app_assoc. apply load_store_append with (2 := Hst).
    rewrite length_app in Hl. rewrite <- (take_app_length ys [0]) at 2.
    eapply load_take in Hl; [|instantiate (1 := length ys); lia]. done.
Qed.

Lemma total_size_spec base cs args xss total X t w :
  owned base (cs ++ X) w -> Forall2 (piece base cs) args xss -> 0 <= total < 2 ^ 64 ->
  let sum := total + Z.of_nat (length (concat xss)) in
  total_size_loop args total t w = Ret (if sum <? 2 ^ 64 then Some sum else None, t, w).
Proof.
  intros Ho Hps. revert total. induction Hps as [|p xs args xss Hp Hps IH]; intros total Ht sum; cbn [total_size_loop].
  - unfold sum. cbn [concat length]. rewrite Z.add_0_r, (proj2 (Z.ltb_lt _ _)) by lia. done.
  - unfold sum. cbn [concat]. rewrite length_app. destruct Hp as [[-> ->]|[Hp0 Hp]].
    { cbn [Z.eqb length Nat.add]. by apply IH. }
    rewrite (proj2 (Z.eqb_neq p 0)) by done.
    assert (string_at (w_mem w) p xs) as Hs by (by apply (Hp X Nothing), owned_nothing).
    rewrite (bind_ret_run _ _ _ _ _ _ _ (c_strlen_run _ _ _ _ Hs)).
    destruct (Z.ltb_spec (2 ^ 64 - 1 - total) (Z.of_nat (length xs))) as [Hov|Hov].
    + rewrite (proj2 (Z.ltb_ge _ _)) by lia. done.
    + unfold u64. rewrite wrap_small, IH by lia. by rewrite Nat2Z.inj_add, Z.add_assoc.
Qed.

Lemma strlcat_args_spec base cs args xss a n ys X t w :
  Forall2 (piece base cs) args xss -> owned base (Chunk a n (Some ys) :: cs ++ X) w ->
  Z.of_nat (length ys) + Z.of_nat (length (concat xss)) < n ->
  spec False False (strlcat_args args a n) (fun _ t' w' => t' = t /\
    owned base (Chunk a n (Some (ys ++ concat xss)) :: cs ++ X) w') t w.
Proof.
  intros Hps. revert ys w. induction Hps as [|p xs args xss Hp Hps IH]; intros ys w Ho Hlen; cbn [strlcat_args concat].
  - apply spec_ret. by rewrite app_nil_r.
  - cbn [concat] in Hlen. rewrite length_app in Hlen. apply spec_bind. destruct Hp as [[-> ->]|[Hp0 Hp]].
    { cbn [Z.eqb app]. apply spec_ret, IH; [done|]. cbn [length] in Hlen. lia. }
    rewrite (proj2 (Z.eqb_neq p 0)) by done. apply spec_bind.
    eapply strlcat_spec; [exact Ho|by apply Hp|lia|]. intros w2 Ho2.
    rewrite (proj2 (Z.ltb_lt _ n)) by (rewrite length_app; lia). apply spec_ret.
    rewrite app_assoc. apply IH; [done|]. rewrite length_app. lia.
Qed.

(** The last error gets the pieces, one behind the other. *)
Lemma add_data_spec base cs t w q args xss :
  rep base cs t w q -> Forall2 (piece base cs) args xss ->
  spec False False (ERR_add_error_data set_thread_local_ok args) (fun _ t' w' => same_env t t' /\
    exists q', rep base cs t' w' q' /\
      (q' = update_last (set_text (concat xss)) q /\ Z.of_nat (length (concat xss)) < 2 ^ 64 - 1 \/
       q' = q /\ (choose w (Z.of_nat (length (concat xss)) + 1) = None \/
                  2 ^ 64 - 1 <= Z.of_nat (length (concat xss))))) t w.
Proof.
  intros R Hps. apply rep_chunks in R as (X & Ho & HX). unfold ERR_add_error_data, err_add_error_vdata.
  apply spec_bind. unfold spec at 1. rewrite (total_size_spec base cs args xss 0 X t w Ho Hps ltac:(lia)).
  rewrite Z.add_0_l. set (s := concat xss) in *. destruct (Z.ltb_spec (Z.of_nat (length s)) (2 ^ 64)) as [Hlt|Hge]; cycle 1.
  { apply spec_ret. split; [done|]. exists q. split; [by apply HX|]. right. split; [done|]. right. lia. }
  destruct (Z.eqb_spec (Z.of_nat (length s)) (2 ^ 64 - 1)) as [E|Hne].
  { apply spec_ret. split; [done|]. exists q. split; [by apply HX|]. right. split; [done|]. right. lia. }
  apply spec_bind. eapply owned_malloc; [lia|exact Ho|intros E|intros a w1 Ha _ Ho1].
  { apply spec_ret. split; [done|]. exists q. split; [by apply HX|]. right. split; [done|]. by left. }
  rewrite (proj2 (Z.eqb_neq a 0)) by lia. destruct (store_total (w_mem w1) a [0]) as [m2 Hm2].
  { eapply accessible_sub; [by eapply owned_accessible|lia|cbn [length]; lia]. }
  apply spec_bind. unfold spec at 1. pose proof Hm2 as Hm2'. rewrite store_one in Hm2'.
  rewrite (store_byte_run a 0 t w1 m2 ltac:(unfold is_byte; lia) Hm2').
  apply (owned_store _ _ _ _ _ _ _ _ _ (Some [])) with (2 := Hm2) in Ho1; [|lia|cbn [length]; lia|].
  2: { intros ys [= <-]. split; [|cbn [length]; lia]. split; [by eapply load_store_eq|]. by split; constructor. }
  apply spec_bind. eapply spec_mono; [eapply strlcat_args_spec; [exact Hps|exact Ho1|cbn [length]; unfold s; lia]|].
  intros _ t2 w2 [-> Ho2]. eapply spec_mono; [eapply (set_data_spec _ base cs t w2 q a); by apply HX|].
  intros _ t3 w3 [Hs R3]. split; [done|]. eexists. split; [exact R3|]. left. split; [done|lia].
Qed.

(** ** Formatted texts *)

Lemma vsnprintf_spec {S} base cs a n s text (st : S) w (Q : Z -> S -> world -> Prop) :
  owned base (Chunk a n s :: cs) w -> 0 < n -> bytes_ok text -> Forall (fun c => c <> 0) text ->
  (2 ^ 31 <= Z.of_nat (length text) -> Q (-1) st w) ->
  (forall w', Z.of_nat (length text) < 2 ^ 31 ->
     owned base (Chunk a n (Some (take (Z.to_nat (n - 1)) text)) :: cs) w' -> Q (Z.of_nat (length text)) st w') ->
  spec False False (c_vsnprintf a n text) Q st w.
Proof.
  intros Ho Hn Hb Hz Hlong Hshort. unfold c_vsnprintf. destruct (Z.leb_spec (2 ^ 31) (Z.of_nat (length text))).
  { by apply spec_ret, Hlong. }
  rewrite (proj2 (Z.ltb_lt 0 n)) by done. set (xs := take _ text).
  assert (Z.of_nat (length (xs ++ [0])) <= n) as Hl.
  { unfold xs. rewrite length_app, length_take. cbn [length]. lia. }
  destruct (store_total (w_mem w) a (xs ++ [0])) as [m' Hm'].
  { eapply accessible_sub; [by eapply owned_accessible|lia|lia]. }
  apply spec_bind. unfold spec at 1. rewrite (store_bytes_run _ _ _ _ _ Hm'). apply spec_ret, Hshort; [done|].
  eapply owned_store; [exact Ho|exact Hm'|lia|lia|]. intros ys [= <-]. rewrite length_app in Hl. cbn [length] in Hl.
  fold xs. split; [|lia]. split; [by eapply load_store_eq|]. by split; apply Forall_take.
Qed.

(** No string is made for [text]: there is no memory for a first buffer of 64 bytes, or
    for one that the text fits, or the length is more than an [int]. *)
Definition format_refused (w : world) (text : bytes) : Prop :=
  choose w 64 = None \/
  64 <= Z.of_nat (length text) /\ choose w (Z.of_nat (length text) + 1) = None \/
  2 ^ 31 <= Z.of_nat (length text).

Lemma vasprintf_spec text t w (Q : Z * Z -> err_thread -> world -> Prop) :
  bytes_ok text -> Forall (fun c => c <> 0) text ->
  (format_refused w text -> Q (0, -1) (ErrThread (th_state t) ENOMEM (global_next_library t)) w) ->
  (forall a n w', owned w [Chunk a n (Some text)] w' -> Q (a, Z.of_nat (length text)) t w') ->
  spec False False (OPENSSL_vasprintf_internal text) Q t w.
Proof.
  intros Hb Hz Hbad Hgood. unfold OPENSSL_vasprintf_internal. cbv zeta.
  assert (forall c w', format_refused w text -> owned w [c] w' ->
    spec False False (m_free (chunk_ptr c) ;; t <- get_stream ;;
      put_stream (ErrThread (th_state t) ENOMEM (global_next_library t)) ;; ret (0, -1)) Q t w') as Herr.
  { intros c w' Hc Ho'. apply spec_bind, (owned_free _ _ _ _ _ _ Ho'). intros w2 ->.
    apply spec_bind, spec_get_stream, spec_bind, spec_put_stream, spec_ret. by apply Hbad. }
  assert (owned w [] w) as Ho by done.
  apply spec_bind. eapply owned_malloc; [done|exact Ho|intros E|intros a w1 Ha _ Ho1].
  { by apply (Herr Nothing); [left|]. }
  rewrite (proj2 (Z.eqb_neq a 0)) by lia.
  apply spec_bind. eapply vsnprintf_spec; [exact Ho1|done|done|done|intros Hl|intros w2 Hl Ho2].
  { apply (Herr (Chunk a 64 None)); [by right; right|done]. }
  rewrite (proj2 (Z.ltb_ge _ 0)) by lia. destruct (Z.leb_spec 64 (Z.of_nat (length text))) as [Hbig|Hfits].
  2: { apply spec_ret. rewrite take_ge in Ho2 by lia. by eapply Hgood. }
  apply spec_bind. eapply owned_realloc; [|exact Ho2|intros E|intros b w3 Hb3 Ho3]; [lia| |].
  { refine (Herr (Chunk a 64 _) _ _ Ho2). right. left. split; [done|].
    destruct Ho2 as [_ Ho2]. cbn [drop_chunk owned] in Ho2. by rewrite Ho2 in E. }
  rewrite (proj2 (Z.eqb_neq b 0)) by lia.
  apply spec_bind. eapply vsnprintf_spec; [exact Ho3|lia|done|done|lia|intros w4 _ Ho4].
  rewrite (proj2 (Z.ltb_ge _ 0)), (proj2 (Z.leb_gt _ _)) by lia. cbn [orb]. apply spec_ret.
  rewrite take_ge in Ho4 by lia. by eapply Hgood.
Qed.

Lemma add_dataf_spec base cs t w q text :
  rep base cs t w q -> bytes_ok text -> Forall (fun c => c <> 0) text ->
  spec False False (ERR_add_error_dataf set_thread_local_ok text) (fun _ t' w' =>
    global_next_library t' = global_next_library t /\ exists q', rep base cs t' w' q' /\
      (same_env t t' /\ q' = update_last (set_text text) q \/
       th_errno t' = ENOMEM /\ q' = q /\ format_refused w text)) t w.
Proof.
  intros R Hb Hz. apply rep_chunks in R as (X & Ho & HX). unfold ERR_add_error_dataf. apply spec_bind.
  eapply vasprintf_spec; [done|done|intros Hbad|intros a n w1 Ho1].
  - apply spec_ret. split; [done|]. exists q. split; [|by right]. apply (HX cs) in Ho. exact Ho.
  - rewrite (proj2 (Z.eqb_neq _ (-1))) by lia. pose proof (owned_next _ _ _ _ _ Ho Ho1) as Ho2.
    eapply spec_mono; [eapply (set_data_spec _ base cs t w1 q a); by apply HX|].
    intros _ t' w' [Hs R]. split; [apply Hs|]. eexists. split; [exact R|]. by left.
Qed.
End save.
