(* ===== verification/ErrQueueSpec.v ===== *)
(** * The error queue of a thread, from its first error to its end

    The public functions of err.c as operations with replies, the abstract queue they
    are operations on, and the theorems: every operation does what it should, a
    sequence of them leaves no block behind, and a queue can be saved and restored. *)
From Stdlib Require Import ZArith Lia String.
From stdpp Require Import prelude gmap list numbers.
From S2P Require Import Prelude CMem PbConcrete Buf BufSpec Owned Err ErrSpec.
Local Open Scope Z_scope.
Local Open Scope c_scope.

(** How much a reader asks for: the code, the place as well, or the text as well. *)
Inductive detail := JustCode | AndPlace | AndText.
Definition wants_place (d : detail) : bool := match d with JustCode => false | _ => true end.
Definition wants_text (d : detail) : bool := match d with AndText => true | _ => false end.

Inductive err_op :=
| OpPut (library reason file line : Z)
| OpGet (d : detail)
| OpPeek (latest : bool) (d : detail)
| OpClear
| OpMark
| OpPop
| OpText (args : list Z)
| OpFormat (text : bytes)
| OpSetText (data : Z)
| OpSystem.
Inductive reply := NoReply | Flag (b : bool) | Told (r : Z * place * place).

Section queue.
Context `{Allocator} (set_thread_local_ok : world -> bool).

Definition err_run (o : err_op) : err_m reply :=
  match o with
  | OpPut library reason file line => ERR_put_error set_thread_local_ok library 0 reason file line ;; ret NoReply
  | OpGet JustCode => r <- ERR_get_error set_thread_local_ok ;; ret (Told r)
  | OpGet AndPlace => r <- ERR_get_error_line set_thread_local_ok ;; ret (Told r)
  | OpGet AndText => r <- ERR_get_error_line_data set_thread_local_ok ;; ret (Told r)
  | OpPeek false JustCode => r <- ERR_peek_error set_thread_local_ok ;; ret (Told r)
  | OpPeek false AndPlace => r <- ERR_peek_error_line set_thread_local_ok ;; ret (Told r)
  | OpPeek false AndText => r <- ERR_peek_error_line_data set_thread_local_ok ;; ret (Told r)
  | OpPeek true JustCode => r <- ERR_peek_last_error set_thread_local_ok ;; ret (Told r)
  | OpPeek true AndPlace => r <- ERR_peek_last_error_line set_thread_local_ok ;; ret (Told r)
  | OpPeek true AndText => r <- ERR_peek_last_error_line_data set_thread_local_ok ;; ret (Told r)
  | OpClear => ERR_clear_error set_thread_local_ok ;; ret NoReply
  | OpMark => b <- ERR_set_mark set_thread_local_ok ;; ret (Flag b)
  | OpPop => b <- ERR_pop_to_mark set_thread_local_ok ;; ret (Flag b)
  | OpText args => ERR_add_error_data set_thread_local_ok args ;; ret NoReply
  | OpFormat text => ERR_add_error_dataf set_thread_local_ok text ;; ret NoReply
  | OpSetText data => ERR_set_error_data set_thread_local_ok data ERR_FLAG_STRING ;; ret NoReply
  | OpSystem => ERR_clear_system_error ;; ret NoReply
  end.
Fixpoint err_runs (os : list err_op) : err_m (list reply) :=
  match os with
  | [] => ret []
  | o :: os => r <- err_run o ;; rs <- err_runs os ;; ret (r :: rs)
  end.

(** The strings of the caller are strings. *)
Definition c_text (base : world) (p : Z) (xs : bytes) : Prop :=
  (p = 0 /\ xs = []) \/ (p <> 0 /\ string_at (w_mem base) p xs).
Definition op_ok (base : world) (o : err_op) : Prop :=
  match o with
  | OpText args => exists xss, Forall2 (c_text base) args xss
  | OpFormat text => bytes_ok text /\ Forall (fun c => c <> 0) text
  | OpSetText data => exists xs, string_at (w_mem base) data xs
  | _ => True
  end.

(** What an operation of the thread [t] in the world [w] does to its queue and to
    [errno]; [w'] is the world after it, in which the reader finds the text.  Something
    is lost only if the allocator refuses, in [w], the request that the operation makes
    there: the [ERR_STATE] of a thread that has none, or the copy of the text. *)
Inductive effect (base : world) (t : err_thread) (w w' : world) :
    err_op -> list entry -> reply -> list entry -> Z -> Prop :=
| eff_put library reason file line q :
    effect base t w w' (OpPut library reason file line) q NoReply
      (push (Entry file None
               (ERR_PACK library (if (library =? ERR_LIB_SYS) && (reason =? 0) then th_errno t else reason))
               (u16 line) false) q) (th_errno t)
| eff_put_lost library reason file line :
    th_state t = None -> state_refused set_thread_local_ok w ->
    effect base t w w' (OpPut library reason file line) [] NoReply [] (th_errno t)
| eff_get d e q r :
    reads (wants_place d) (wants_text d) e r w' -> effect base t w w' (OpGet d) (e :: q) (Told r) q (th_errno t)
| eff_get_none d : effect base t w w' (OpGet d) [] (Told (0, None, None)) [] (th_errno t)
| eff_peek (latest : bool) d e q r :
    (if latest then list.last q else list.head q) = Some e -> reads (wants_place d) (wants_text d) e r w' ->
    effect base t w w' (OpPeek latest d) q (Told r) q (th_errno t)
| eff_peek_none latest d : effect base t w w' (OpPeek latest d) [] (Told (0, None, None)) [] (th_errno t)
| eff_clear q : effect base t w w' OpClear q NoReply [] (th_errno t)
| eff_mark q :
    effect base t w w' OpMark q (Flag (negb (bool_decide (q = [])))) (update_last (set_en_mark true) q) (th_errno t)
| eff_pop q : effect base t w w' OpPop q (Flag (pop_to_mark q).1) (pop_to_mark q).2 (th_errno t)
| eff_text args xss q :
    Forall2 (c_text base) args xss ->
    effect base t w w' (OpText args) q NoReply (update_last (set_text (concat xss)) q) (th_errno t)
| eff_text_lost args xss q :
    Forall2 (c_text base) args xss ->
    choose w (Z.of_nat (length (concat xss)) + 1) = None \/ 2 ^ 64 - 1 <= Z.of_nat (length (concat xss)) ->
    effect base t w w' (OpText args) q NoReply q (th_errno t)
| eff_format text q :
    effect base t w w' (OpFormat text) q NoReply (update_last (set_text text) q) (th_errno t)
| eff_format_lost text q :
    format_refused w text -> effect base t w w' (OpFormat text) q NoReply q ENOMEM
| eff_set_text data xs q :
    string_at (w_mem base) data xs ->
    effect base t w w' (OpSetText data) q NoReply (update_last (set_text xs) q) (th_errno t)
| eff_set_text_lost data xs q :
    string_at (w_mem base) data xs -> choose w (Z.of_nat (length xs) + 1) = None ->
    effect base t w w' (OpSetText data) q NoReply q (th_errno t)
| eff_system q : effect base t w w' OpSystem q NoReply q 0.

(** ** One operation *)

Lemma run_put base cs t w q library reason file line :
  rep base cs t w q -> spec False False (err_run (OpPut library reason file line)) (fun r t' w' => exists q',
    effect base t w w' (OpPut library reason file line) q r q' (th_errno t') /\ rep base cs t' w' q') t w.
Proof.
  intros R. apply spec_bind. eapply spec_mono; [by apply put_spec|].
  intros _ t' w' [[Hn _] Hq]. apply spec_ret. rewrite Hn. destruct Hq as [(Et & Hu & -> & R')|R'].
  - exists []. split; [by apply eff_put_lost|done].
  - eexists. split; [apply eff_put|exact R'].
Qed.
Lemma run_get base cs t w q d :
  rep base cs t w q -> spec False False (err_run (OpGet d)) (fun r t' w' => exists q',
    effect base t w w' (OpGet d) q r q' (th_errno t') /\ rep base cs t' w' q') t w.
Proof.
  intros R. assert (err_run (OpGet d) =
    (r <- get_error_values set_thread_local_ok true false (wants_place d) (wants_text d) ;; ret (Told r))) as ->
    by by destruct d.
  apply spec_bind. eapply spec_mono; [by apply get_spec|].
  intros r t' w' [[Hn _] Hq]. apply spec_ret. rewrite Hn. destruct q as [|e q].
  - destruct Hq as [-> R']. exists []. split; [apply eff_get_none|done].
  - destruct Hq as [Hr R']. exists q. split; [by apply eff_get|done].
Qed.
Lemma run_peek base cs t w q latest d :
  rep base cs t w q -> spec False False (err_run (OpPeek latest d)) (fun r t' w' => exists q',
    effect base t w w' (OpPeek latest d) q r q' (th_errno t') /\ rep base cs t' w' q') t w.
Proof.
  intros R. assert (err_run (OpPeek latest d) =
    (r <- get_error_values set_thread_local_ok false latest (wants_place d) (wants_text d) ;; ret (Told r))) as ->
    by by destruct latest, d.
  apply spec_bind. eapply spec_mono; [by apply peek_spec|].
  intros r t' w' ([Hn _] & R' & Hr). apply spec_ret. rewrite Hn. exists q. split; [|done].
  destruct (if latest then _ else _) as [e|] eqn:E; [by eapply eff_peek|]. subst r.
  assert (q = []) as ->; [|apply eff_peek_none].
  destruct latest; [by apply last_None|by destruct q].
Qed.
Lemma c_text_piece base cs args xss : Forall2 (c_text base) args xss -> Forall2 (piece base cs) args xss.
Proof.
  apply Forall2_impl. intros p xs [?|[Hp Hs]]; [by left|]. right. split; [done|]. intros X. by apply base_stays.
Qed.
Lemma run_text base cs t w q args :
  rep base cs t w q -> op_ok base (OpText args) -> spec False False (err_run (OpText args)) (fun r t' w' => exists q',
    effect base t w w' (OpText args) q r q' (th_errno t') /\ rep base cs t' w' q') t w.
Proof.
  intros R [xss Hps]. apply spec_bind.
  eapply spec_mono; [apply (add_data_spec _ base cs t w q args xss R); by apply c_text_piece|].
  intros _ t' w' ([Hn _] & q' & R' & Hq). apply spec_ret. rewrite Hn. exists q'. split; [|done].
  destruct Hq as [[-> _]|[-> Hl]]; [by apply eff_text|by eapply eff_text_lost].
Qed.
Lemma run_format base cs t w q text :
  rep base cs t w q -> op_ok base (OpFormat text) -> spec False False (err_run (OpFormat text)) (fun r t' w' => exists q',
    effect base t w w' (OpFormat text) q r q' (th_errno t') /\ rep base cs t' w' q') t w.
Proof.
  intros R [Hb Hz]. apply spec_bind. eapply spec_mono; [by apply (add_dataf_spec _ base cs t w q text R)|].
  intros _ t' w' (_ & q' & R' & Hq). apply spec_ret. exists q'. split; [|done].
  destruct Hq as [[[-> _] ->]|(-> & -> & Hl)]; [apply eff_format|by apply eff_format_lost].
Qed.
Lemma run_set_text base cs t w q data :
  rep base cs t w q -> op_ok base (OpSetText data) -> spec False False (err_run (OpSetText data)) (fun r t' w' => exists q',
    effect base t w w' (OpSetText data) q r q' (th_errno t') /\ rep base cs t' w' q') t w.
Proof.
  intros R [xs Hs]. apply spec_bind.
  eapply spec_mono; [by apply (set_error_data_spec _ base cs t w q data xs ERR_FLAG_STRING)|].
  intros _ t' w' ([Hn _] & q' & R' & Hq). apply spec_ret. rewrite Hn. exists q'. split; [|done].
  destruct Hq as [->|[-> Hm]]; [by eapply eff_set_text|by eapply eff_set_text_lost].
Qed.

Lemma err_run_spec base cs t w q o :
  rep base cs t w q -> op_ok base o -> spec False False (err_run o) (fun r t' w' => exists q',
    effect base t w w' o q r q' (th_errno t') /\ rep base cs t' w' q') t w.
Proof.
  intros R Hok. destruct o.
  - by apply run_put.
  - by apply run_get.
  - by apply run_peek.
  - apply spec_bind. eapply spec_mono; [by apply (clear_error_spec _ base cs t w q)|]. intros _ t' w' [[Hn _] R'].
    apply spec_ret. rewrite Hn. eexists. split; [apply eff_clear|exact R'].
  - apply spec_bind. eapply spec_mono; [by apply set_mark_spec|]. intros b t' w' ([Hn _] & -> & R').
    apply spec_ret. rewrite Hn. eexists. split; [apply eff_mark|exact R'].
  - apply spec_bind. eapply spec_mono; [by apply pop_to_mark_spec|]. intros b t' w' ([Hn _] & -> & R').
    apply spec_ret. rewrite Hn. eexists. split; [apply eff_pop|exact R'].
  - by apply run_text.
  - by apply run_format.
  - by apply run_set_text.
  - apply spec_bind, spec_bind, spec_get_stream, spec_put_stream, spec_ret. exists q. split; [apply eff_system|].
    exact R.
Qed.

(** ** Sequences of operations *)

(** The effects of the operations of a run, one after the other. *)
Inductive effects (base : world) :
    err_thread -> world -> list err_op -> list entry -> list reply -> list entry -> err_thread -> world -> Prop :=
| effects_nil t w q : effects base t w [] q [] q t w
| effects_cons o os t w q r q1 t1 w1 rs q2 t2 w2 :
    err_run o t w = Ret (r, t1, w1) -> effect base t w w1 o q r q1 (th_errno t1) ->
    effects base t1 w1 os q1 rs q2 t2 w2 ->
    effects base t w (o :: os) q (r :: rs) q2 t2 w2.

Lemma err_runs_spec base cs t w q os :
  rep base cs t w q -> Forall (op_ok base) os -> spec False False (err_runs os) (fun rs t' w' => exists q',
    effects base t w os q rs q' t' w' /\ rep base cs t' w' q') t w.
Proof.
  intros R Hok. revert t w q R. induction Hok as [|o os Ho Hos IH]; intros t w q R; cbn [err_runs].
  - apply spec_ret. exists q. split; [constructor|done].
  - pose proof (err_run_spec base cs t w q o R Ho) as Hrun. apply spec_bind. unfold spec in Hrun |- *.
    destruct (err_run o t w) as [[[r t1] w1]| |] eqn:E; [|done..]. destruct Hrun as (q1 & He & R1).
    apply spec_bind. eapply spec_mono; [by apply IH|]. intros rs t2 w2 (q2 & Hes & R2).
    apply spec_ret. exists q2. split; [by econstructor|done].
Qed.

Lemma rep_start t w : th_state t = None -> rep w [] t w [].
Proof. intros E. unfold rep. by rewrite E. Qed.
Lemma state_free_spec base t w q :
  rep base [] t w q -> spec False False (err_state_free (th_state t)) (fun _ t' w' => t' = t /\ w' = base) t w.
Proof.
  unfold rep. destruct (th_state t) as [st|] eqn:Et.
  - intros (zs & tf & Ee & Rg & Hf & Ht & Ho). unfold err_state_free. rewrite Ee, Hf.
    apply spec_bind. eapply clear_errors_spec; [apply Rg|exact Ho|]. intros w2 Ho2.
    apply spec_bind, (owned_free _ _ _ _ _ _ Ho2). intros w3 Ho3.
    apply (owned_free _ (Chunk (es_addr st) sizeof_ERR_STATE None) _ _ _ _ Ho3). intros w4 Ho4. by split.
  - intros [-> Ho]. apply spec_ret. by split.
Qed.

Lemma length_update_last f q : length (update_last f q) = length q.
Proof. destruct q as [|e q _] using rev_ind; [done|]. rewrite update_last_snoc, !length_app. done. Qed.
Lemma rep_short base cs t w q : rep base cs t w q -> (length q <= 15)%nat.
Proof.
  unfold rep. destruct (th_state t); [|intros [-> _]; cbn; lia]. intros (zs & tf & _ & Rg & _). by eapply ring_short.
Qed.

(** No mark in a copy, so that nothing stops [ERR_pop_to_mark]. *)
Lemma copies_unmarked P q q' : Forall2 (copy_of P) q q' -> pop_to_mark q' = (false, []).
Proof.
  intros Hc. assert (Forall (fun e => en_mark e = false) q') as Hu.
  { induction Hc as [|e e' q q' (_ & _ & _ & Hm & _)]; by constructor. }
  clear Hc. induction q' as [|e q' IH] using rev_ind; [done|]. apply Forall_app in Hu as [Hu He].
  apply Forall_cons_1 in He as [He _]. by rewrite pop_to_mark_snoc, He, IH.
Qed.

(** ** The properties *)

(** C10: The error queue is a queue of at most fifteen errors.  In a state that
    represents a queue every public function of err.c that reads, adds, annotates,
    marks or removes errors runs without undefined behaviour, replies as the queue
    says, with texts that are there to be read, and leaves a state that represents the
    queue after it.  The least recent error is dropped for a sixteenth; the first error
    of a thread is lost only if the allocator or the thread-local storage refuses its
    [ERR_STATE], and a text only if the allocator refuses its copy in the world the call
    started in, or its length is too much for the type that counts it. *)
Theorem err_queue_correct base cs t w q o :
  rep base cs t w q -> op_ok base o ->
  spec False False (err_run o) (fun r t' w' => exists q',
    effect base t w w' o q r q' (th_errno t') /\ (length q' <= 15)%nat /\ rep base cs t' w' q') t w.
Proof.
  intros R Hok. eapply spec_mono; [by apply err_run_spec|]. intros r t' w' (q' & He & R').
  exists q'. split; [done|]. split; [|done]. by eapply rep_short.
Qed.

(** C11: A thread's error queue leaves nothing behind.  From a thread without an
    [ERR_STATE], any sequence of operations and then the destructor that the end of
    the thread calls run without undefined behaviour, no block being freed twice, each
    operation having its effect on the queue, and leave exactly the memory there was,
    whichever allocations fail. *)
Theorem err_thread_leaves_nothing t w os :
  th_state t = None -> Forall (op_ok w) os ->
  spec False False (rs <- err_runs os ;; t <- get_stream ;; err_state_free (th_state t) ;; ret rs)
    (fun rs t' w' => w' = w /\ exists q w1, effects w t w os [] rs q t' w1) t w.
Proof.
  intros Et Hok. apply spec_bind. eapply spec_mono; [apply err_runs_spec; [by apply rep_start|done]|].
  intros rs t1 w1 (q & He & R). apply spec_bind, spec_get_stream, spec_bind.
  eapply spec_mono; [by eapply state_free_spec|]. intros _ t2 w2 [-> ->]. apply spec_ret. split; [done|]. by exists q, w1.
Qed.

(** C34: A saved queue comes back.  [ERR_save_state] leaves the queue and returns copies of
    its errors, or null if the queue is empty or a request of the call was refused.
    Whatever happens to the queue then, [ERR_restore_state] and [ERR_SAVE_STATE_free]
    leave a queue of copies of these, give back every block, and need an [ERR_STATE] if
    the thread has none.  A copy differs from its error in the mark, which is not saved,
    so that [ERR_pop_to_mark] then finds none and removes everything; and it lacks the
    text only if a request was refused on a way from the world of the call on which no
    more memory is asked for than the call needs. *)
Theorem err_save_restore base cs t w q :
  rep base cs t w q ->
  spec False False (ERR_save_state set_thread_local_ok) (fun o t1 w1 => exists cs' qs,
    rep base (cs' ++ cs) t1 w1 q /\
    match o with
    | None => cs' = [] /\ qs = [] /\ (q = [] \/ refused (save_room q) w)
    | Some _ => q <> [] /\ Forall2 (copy_of (refused (save_room q) w)) q qs
    end /\
    forall t2 w2 q2, rep base (cs' ++ cs) t2 w2 q2 ->
      spec False False (ERR_restore_state set_thread_local_ok o ;; ERR_SAVE_STATE_free o)
        (fun _ t3 w3 => exists q3, rep base cs t3 w3 q3 /\
           (Forall2 (copy_of (refused (restore_room qs) w2)) qs q3 \/
            q3 = [] /\ th_state t2 = None /\ state_refused set_thread_local_ok w2) /\
           pop_to_mark q3 = (false, [])) t2 w2) t w.
Proof.
  intros R. pose proof (rep_short _ _ _ _ _ R) as Hlen.
  eapply spec_mono; [by apply save_spec|]. intros [sv|] t1 w1 (_ & Hsv).
  - destruct Hsv as (cs' & qs & Hne & Hsv & Hc & R1). apply Forall2_length in Hc as El.
    exists cs', qs. split; [done|]. split; [done|]. intros t2 w2 q2 R2.
    apply spec_bind. eapply spec_mono; [eapply restore_spec; [exact R2|exact Hsv| |lia]|].
    { intros ->. by destruct q. }
    intros _ t3 w3 (_ & q3 & R3 & Hq3). eapply spec_mono; [by eapply save_free_spec|].
    intros _ t4 w4 [_ R4]. exists q3. split; [done|]. split; [done|].
    destruct Hq3 as [Hq3|[-> _]]; [by eapply copies_unmarked|done].
  - destruct Hsv as [Hwhy R1]. exists [], []. split; [done|]. split; [done|]. intros t2 w2 q2 R2.
    apply spec_bind. eapply spec_mono; [by apply (clear_error_spec _ base cs t2 w2 q2)|].
    intros _ t3 w3 [_ R3]. apply spec_ret. exists []. split; [done|]. split; [left; constructor|done].
Qed.
End queue.

(** ** On a concrete thread *)

#[local] Existing Instance bump_allocator.
Definition sample_world : world := World (alloc_range ∅ 5000 (Some <$> [104; 105; 0])) ∅.
Definition sample_thread : err_thread := ErrThread None 2 34.
Lemma hi_text : string_at (w_mem sample_world) 5000 [104; 105].
Proof. split; [by vm_compute|]. unfold bytes_ok, is_byte.
  split; repeat first [apply List.Forall_nil | apply List.Forall_cons; [lia|]].
Qed.
Lemma sample_ops_ok : Forall (op_ok sample_world)
  [OpPut 2 0 0 70000; OpText [5000; 0; 5000]; OpMark; OpPut 16 100 0 7; OpPop; OpGet AndText].
Proof.
  repeat apply List.Forall_cons; try apply List.Forall_nil; try done.
  exists [[104; 105]; []; [104; 105]].
  do 3 (apply List.Forall2_cons; [first [by left | right; split; [done|apply hi_text]]|]). constructor.
Qed.

(** A thread with one error, of the file whose name is at 5000. *)
Definition one_error : err_error_st := ErrError 5000 0 0x1000064 7 false.
Definition one_state : ERR_STATE := ErrState 4096 (<[1%nat := one_error]> (replicate 16 no_error)) 1 0 0.
Definition one_thread : err_thread := ErrThread (Some one_state) 2 34.
Definition one_world : world :=
  add_block 4096 sizeof_ERR_STATE (replicate (Z.to_nat sizeof_ERR_STATE) None) sample_world.
Definition one_queue : list entry := [Entry 5000 None 0x1000064 7 false].
Lemma sample_world_low x : 4096 <= x < 4096 + sizeof_ERR_STATE -> w_mem sample_world !! x = None.
Proof.
  intros Hx. unfold sizeof_ERR_STATE, sizeof_err_error in Hx. cbn. rewrite !lookup_insert_ne by lia. apply lookup_empty.
Qed.
Lemma one_rep : rep sample_world [] one_thread one_world one_queue.
Proof.
  pose (zs := replicate 16 (no_error, Nothing)). pose (z := (one_error, Nothing)).
  pose proof (ring_push zs 0 0 [] z (ring_start zs eq_refl (empty_slots_ok 16)) (conj eq_refl I)) as Rg.
  exists (<[1%nat := z]> zs), Nothing. split; [done|]. split; [exact Rg|]. split; [done|]. split; [done|].
  cbn [state_chunks zs z replicate insert list_insert fmap list_fmap snd app es_addr one_state].
  do 17 (apply owned_nothing). cbn [owned drop_chunk]. split.
  - cbn. split_and!; try done. intros i Hi. cbn [one_world add_block w_mem].
    rewrite alloc_range_lookup, length_replicate, decide_True by (rewrite Z2Nat.id by done; done).
    apply lookup_lt_is_Some_2. rewrite length_replicate. unfold sizeof_ERR_STATE, sizeof_err_error in *. lia.
  - apply drop_add; [done|by rewrite length_replicate|apply sample_world_low|done].
Qed.

(** The concrete allocator puts a block above all others, and refuses a request only if
    the addresses end there. *)
Definition all_below (T : Z) (w : world) : Prop :=
  (forall x, is_Some (w_mem w !! x) -> x < T) /\ (forall p, is_Some (w_blocks w !! p) -> p < T).
Lemma key_top_le {A} base T (m : gmap Z A) :
  base <= T -> (forall k, is_Some (m !! k) -> k < T) -> key_top base m <= T.
Proof.
  intros Hb. unfold key_top.
  apply (map_fold_weak_ind (fun top (m : gmap Z A) => (forall k, is_Some (m !! k) -> k < T) -> top <= T)); [done|].
  intros k x m' top Hk IH Hm. pose proof (Hm k ltac:(rewrite lookup_insert_eq; by eexists)).
  assert (top <= T); [|lia]. apply IH. intros k' [y Hy]. apply Hm.
  destruct (decide (k' = k)) as [->|Hne]; [by rewrite Hk in Hy|]. rewrite lookup_insert_ne by done. by eexists.
Qed.
Lemma bump_choose_below T w n :
  4096 <= T -> all_below T w -> T + n <= 2 ^ 64 -> exists a, bump_choose w n = Some a /\ a <= T.
Proof.
  intros HT [Hm Hb] Hn. unfold bump_choose.
  pose proof (key_top_le (key_top 4096 (w_mem w)) T (w_blocks w) (key_top_le 4096 T (w_mem w) HT Hm) Hb) as Hk.
  rewrite (proj2 (Z.leb_le _ _)) by lia. by eexists.
Qed.
Lemma bump_path T w n w' : 4096 <= T -> T + n <= 2 ^ 64 -> all_below T w -> heap_path w n w' -> all_below (T + n) w'.
Proof.
  intros HT Hn Hw. induction 1 as [|n w' m' P IH Hd|n w1 p w2 P IH E|n w1 k a w2 P IH Hk E ->].
  - by rewrite Z.add_0_r.
  - destruct (IH Hn) as [H1 H2]. split; [|done]. intros x Hx. apply H1. cbn in Hx.
    apply elem_of_dom in Hx. rewrite Hd in Hx. by apply elem_of_dom.
  - destruct (IH Hn) as [H1 H2]. unfold c_free in E. destruct (p =? 0); [by injection E as <-|].
    destruct (w_blocks w1 !! p) as [size|]; [|done]. injection E as <-. split; cbn.
    + intros x Hx. rewrite free_range_lookup in Hx. case_decide; [by destruct Hx|by apply H1].
    + intros q [v Hq]. apply lookup_delete_Some in Hq as [_ Hq]. apply H2. by eexists.
  - pose proof (heap_path_nonneg _ _ _ P). destruct (IH ltac:(lia)) as [H1 H2].
    destruct (bump_choose_below (T + n) w1 k) as (a' & E' & Ha); [lia|done|lia|].
    change (choose w1 k) with (bump_choose w1 k) in E. rewrite E' in E. injection E as ->. split; cbn.
    + intros x Hx. rewrite alloc_range_lookup, length_replicate in Hx. case_decide; [lia|].
      specialize (H1 x Hx). lia.
    + intros q Hq. destruct (decide (q = a)) as [->|Hne]; [lia|]. rewrite lookup_insert_ne in Hq by done.
      specialize (H2 q Hq). lia.
Qed.
Lemma bump_not_refused T lim w : 4096 <= T -> T + lim <= 2 ^ 64 -> all_below T w -> ~ refused lim w.
Proof.
  intros HT Hl Hw (n & w' & k & P & Hk & Hn & E).
  destruct (bump_choose_below (T + n) w' k) as (a & E' & _); [pose proof (heap_path_nonneg _ _ _ P); lia| |lia|].
  - apply (bump_path T w n w'); [done|lia|done|done].
  - change (choose w' k) with (bump_choose w' k) in E. congruence.
Qed.
Lemma one_world_below : all_below 6000 one_world.
Proof.
  split; cbn [one_world add_block w_mem w_blocks].
  - intros x Hx. rewrite alloc_range_lookup, length_replicate in Hx. unfold sizeof_ERR_STATE, sizeof_err_error in Hx.
    case_decide as Hd; [lia|]. cbn [sample_world w_mem] in Hx. rewrite alloc_range_lookup in Hx.
    case_decide as Hd'; [cbn in Hd'; lia|]. rewrite lookup_empty in Hx. by destruct Hx.
  - intros p Hp. destruct (decide (p = 4096)) as [->|Hne]; [lia|]. cbn in Hp.
    rewrite lookup_insert_ne, lookup_empty in Hp by done. by destruct Hp.
Qed.

(** There is memory for this text, so that it is not lost. *)
Lemma err_queue_correct_witness :
  spec False False (err_run (fun _ => true) (OpFormat [104; 105])) (fun r t' w' =>
    r = NoReply /\ rep sample_world [] t' w' [Entry 5000 (Some [104; 105]) 0x1000064 7 false]) one_thread one_world.
Proof.
  eapply spec_mono.
  { apply (err_queue_correct (fun _ => true) sample_world [] one_thread one_world one_queue (OpFormat [104; 105])).
    - exact one_rep.
    - split; repeat first [apply List.Forall_nil | apply List.Forall_cons; [unfold is_byte; lia|]]. }
  intros r t' w' (q' & He & _ & R'). inversion He as [| | | | | | | | | | |text q|text q Hr| | |]; subst; [by split|].
  exfalso. destruct Hr as [Hr|[[Hr _]|Hr]]; [vm_compute in Hr; discriminate|cbn in Hr; lia|cbn in Hr; lia].
Defined.
Lemma err_thread_leaves_nothing_witness :
  let os := [OpPut 2 0 0 70000; OpText [5000; 0; 5000]; OpMark; OpPut 16 100 0 7; OpPop; OpGet AndText] in
  spec False False (rs <- err_runs (fun _ => true) os ;; t <- get_stream ;; err_state_free (th_state t) ;; ret rs)
    (fun rs t' w' => w' = sample_world /\
       exists q w1, effects (fun _ => true) sample_world sample_thread sample_world os [] rs q t' w1)
    sample_thread sample_world.
Proof.
  intros os. apply (err_thread_leaves_nothing (fun _ => true) sample_thread sample_world os); [done|].
  exact sample_ops_ok.
Defined.
(** There is memory for the copies. *)
Lemma err_save_restore_witness :
  spec False False (ERR_save_state (fun _ => true)) (fun o t1 w1 => exists cs' qs,
    is_Some o /\ rep sample_world (cs' ++ []) t1 w1 one_queue /\ Forall2 (copy_of False) one_queue qs /\
    forall t2 w2 q2, rep sample_world (cs' ++ []) t2 w2 q2 ->
      spec False False (ERR_restore_state (fun _ => true) o ;; ERR_SAVE_STATE_free o)
        (fun _ t3 w3 => exists q3, rep sample_world [] t3 w3 q3 /\ pop_to_mark q3 = (false, [])) t2 w2)
    one_thread one_world.
Proof.
  assert (~ refused (save_room one_queue) one_world) as Hroom.
  { apply (bump_not_refused 6000); [lia|vm_compute; discriminate|exact one_world_below]. }
  eapply spec_mono; [apply (err_save_restore (fun _ => true) sample_world [] one_thread one_world one_queue one_rep)|].
  intros o t1 w1 (cs' & qs & R1 & Ho & Hback). exists cs', qs. destruct o as [sv|].
  2: { exfalso. destruct Ho as (_ & _ & [Hq|Hr]); [discriminate Hq|by apply Hroom]. }
  split; [by eexists|]. split; [exact R1|]. split; [eapply copies_mono; [exact Hroom|apply Ho]|].
  intros t2 w2 q2 R2. eapply spec_mono; [by apply (Hback t2 w2 q2)|].
  intros _ t3 w3 (q3 & R3 & _ & Hp). by exists q3.
Defined.

(** What the readers are told: the system's error of the first line with its text, and
    then nothing. *)
Example sample_run :
  match (err_runs (fun _ => true)
    [OpPut 2 0 0 70000; OpText [5000; 0; 5000]; OpMark; OpPut 16 100 0 7; OpPop; OpGet AndText; OpGet JustCode])
    sample_thread sample_world with
  | Ret (rs, _, w') =>
      exists a, rs = [NoReply; NoReply; Flag true; NoReply; Flag true;
                      Told (0x2000002, Some (Literal (str "NA"), 0), Some (Pointer a, 3)); Told (0, None, None)] /\
        load (w_mem w') a 5 = Some [104; 105; 104; 105; 0]
  | _ => False
  end.
Proof. vm_compute. eexists. split; reflexivity. Qed.
