(* ===== verification/ErrTextSpec.v ===== *)
(** * What error messages look like

    A message fits its buffer, is terminated and has five fields, however short the
    buffer; the reasons are those of the table; and printing the error queue prints
    every error in it, with a place and a text that are there to be read. *)
From Stdlib Require Import ZArith Lia Ascii String.
From stdpp Require Import prelude gmap list numbers.
From S2P Require Import Prelude CMem PbConcrete Buf BufSpec Owned Err ErrSpec ErrQueueSpec.
Local Open Scope Z_scope.
Local Open Scope c_scope.

(** ** Colons *)

Fixpoint colons (bs : bytes) : nat :=
  match bs with [] => 0 | c :: r => (if c =? 58 then 1 else 0) + colons r end.
Definition nul_free (bs : bytes) : Prop := Forall (fun c => c <> 0) bs.

Lemma colons_app xs ys : colons (xs ++ ys) = (colons xs + colons ys)%nat.
Proof. induction xs as [|x xs IH]; [done|]. cbn [app colons]. rewrite IH. lia. Qed.
Lemma colons_replicate n : colons (replicate n 58) = n.
Proof. induction n as [|n IH]; [done|]. cbn [replicate colons Z.eqb Pos.eqb]. by rewrite IH. Qed.
Lemma colons_take n m xs : (n <= m)%nat -> (colons (take n xs) <= colons (take m xs))%nat.
Proof. intros Hn. rewrite <- (take_drop n (take m xs)), colons_app, take_take, Nat.min_l by done. lia. Qed.

(** [strchr] finds the first colon before the terminator. *)
Lemma strchr_spec xs ys i :
  nul_free xs ->
  match c_strchr (xs ++ 0 :: ys) i 58 with
  | None => colons xs = 0%nat
  | Some j => exists n, j = i + Z.of_nat n /\ (n < length xs)%nat /\ xs !! n = Some 58 /\ colons (take n xs) = 0%nat
  end.
Proof.
  intros Hz. revert i. induction Hz as [|x xs Hx Hz IH]; intros i; [done|]. cbn [app c_strchr].
  destruct (Z.eqb_spec x 58) as [->|Hne].
  { exists 0%nat. cbn [length lookup list_lookup]. split; [lia|]. split; [lia|done]. }
  rewrite (proj2 (Z.eqb_neq x 0)) by done. specialize (IH (i + 1)).
  destruct (c_strchr _ _ _) as [j|].
  - destruct IH as (n & -> & Hn & Hc & Ht). exists (S n). cbn [length lookup list_lookup take].
    split; [lia|]. split; [lia|]. split; [done|]. cbn [colons]. by rewrite (proj2 (Z.eqb_neq x 58)).
  - cbn [colons]. by rewrite (proj2 (Z.eqb_neq x 58)).
Qed.

(** The loop on a message of [len - 1] bytes of which [s] are behind it. *)
Lemma colon_loop_spec todo s xs len :
  nul_free xs -> len = Z.of_nat (length xs) + 1 -> (todo <= length xs)%nat -> (s + todo <= length xs)%nat \/ todo = 0%nat ->
  exists ys, colon_loop todo (Z.of_nat s) len (xs ++ [0]) = ys ++ [0] /\ length ys = length xs /\ nul_free ys /\
    (colons (take s xs) + todo <= colons ys)%nat /\
    (ys = xs \/ colons ys = (colons (take s xs) + todo)%nat) /\
    take (length xs - todo) ys = take (length xs - todo) xs.
Proof.
  intros Hz Hlen Htodo. revert s. induction todo as [|todo IH]; intros s Hs; cbn [colon_loop].
  { exists xs. split; [done|]. split; [done|]. split; [done|]. split; [|by split; [left|]].
    rewrite <- (take_drop s xs) at 2. rewrite colons_app. lia. }
  destruct Hs as [Hs|]; [|done]. rewrite Nat2Z.id, drop_app_le by lia.
  set (last := len - 1 - Z.of_nat (S todo)). assert (Z.to_nat last = length xs - S todo)%nat as El by lia.
  assert (exists ys, take (Z.to_nat last) (xs ++ [0]) ++ replicate (S todo) 58 ++
            drop (Z.to_nat last + S todo) (xs ++ [0]) = ys ++ [0] /\ length ys = length xs /\ nul_free ys /\
            ys = take (length xs - S todo) xs ++ replicate (S todo) 58) as (ys & Eys & Hly & Hzy & Hys).
  { exists (take (length xs - S todo) xs ++ replicate (S todo) 58). rewrite El, take_app_le by lia.
    replace (length xs - S todo + S todo)%nat with (length xs) by lia. rewrite drop_app_length, app_assoc.
    split; [done|]. split; [rewrite length_app, length_take, length_replicate; lia|]. split; [|done].
    apply Forall_app. split; [by apply Forall_take|]. by apply Forall_replicate. }
  (* no colon between s and the last place *)
  assert (colons (take (length xs - S todo - s) (drop s xs)) = 0%nat -> exists ys0,
    take (Z.to_nat last) (xs ++ [0]) ++ replicate (S todo) 58 ++ drop (Z.to_nat last + S todo) (xs ++ [0]) = ys0 ++ [0] /\
    length ys0 = length xs /\ nul_free ys0 /\ (colons (take s xs) + S todo <= colons ys0)%nat /\
    (ys0 = xs \/ colons ys0 = (colons (take s xs) + S todo)%nat) /\
    take (length xs - S todo) ys0 = take (length xs - S todo) xs) as Hput.
  { intros H0. exists ys. assert (colons ys = colons (take s xs) + S todo)%nat as Ec.
    { rewrite Hys, colons_app, colons_replicate.
      replace (take (length xs - S todo) xs) with (take s xs ++ take (length xs - S todo - s) (drop s xs))
        by (rewrite take_take_drop; f_equal; lia).
      rewrite colons_app. lia. }
    split_and!; try done; [lia|by right|].
    rewrite Hys, take_app_le by (rewrite length_take; lia). rewrite take_take. f_equal. lia. }
  pose proof (strchr_spec (drop s xs) [] (Z.of_nat s) (Forall_drop _ _ _ Hz)) as Hc.
  destruct (c_strchr _ _ _) as [j|].
  - destruct Hc as (n & -> & Hn & Hat & H0). rewrite length_drop in Hn. destruct (Z.ltb_spec last (Z.of_nat s + Z.of_nat n)) as [Hl|Hl].
    + apply Hput. pose proof (colons_take (length xs - S todo - s) n (drop s xs) ltac:(lia)). lia.
    + replace (Z.of_nat s + Z.of_nat n + 1) with (Z.of_nat (s + n + 1)) by lia.
      destruct (IH ltac:(lia) (s + n + 1)%nat) as (zs & E & Hlz & Hzz & Hcz & Hor & Htk); [left; lia|].
      assert (colons (take (s + n + 1) xs) = S (colons (take s xs))) as Ec.
      { replace (take (s + n + 1) xs) with (take s xs ++ take n (drop s xs) ++ [58]); [rewrite !colons_app, H0; cbn; lia|].
        rewrite <- (take_S_r _ _ _ Hat), take_take_drop. f_equal. lia. }
      exists zs. split; [done|]. split; [done|]. split; [done|]. split; [lia|]. split; [destruct Hor; [by left|right; lia]|].
      apply (f_equal (take (length xs - S todo))) in Htk. by rewrite !take_take, !Nat.min_l in Htk by lia.
  - apply Hput. rewrite <- (take_drop (length xs - S todo - s) (drop s xs)), colons_app in Hc. lia.
Qed.

(** ** The table of reasons *)

(** A row: library, key and the place of the string, as the generator packs them. *)
Record reason_row := Row { rw_lib : Z; rw_key : Z; rw_offset : Z }.
Definition row_ok (r : reason_row) : Prop :=
  0 <= rw_lib r < 2 ^ 6 /\ 0 <= rw_key r < 2 ^ 11 /\ 0 <= rw_offset r < 2 ^ 15.
Definition pack_row (r : reason_row) : Z := rw_lib r * 2 ^ 26 + rw_key r * 2 ^ 15 + rw_offset r.

Lemma row_cmp lib key r :
  0 <= lib < 2 ^ 6 -> 0 <= key < 2 ^ 11 -> row_ok r ->
  err_string_cmp (Z.lor (u32 (Z.shiftl lib 26)) (u32 (Z.shiftl key 15))) (pack_row r) = 0 <->
  rw_lib r = lib /\ rw_key r = key.
Proof.
  intros Hl Hk (Hrl & Hrk & Hro). rewrite !Z.shiftl_mul_pow2 by lia.
  unfold u32. rewrite !wrap_small by lia. unfold err_string_cmp.
  rewrite (lor_low_add _ _ 26) by (lia || apply Z.mod_mul; lia). rewrite !Z.shiftr_div_pow2 by lia. unfold pack_row.
  replace ((rw_lib r * 2 ^ 26 + rw_key r * 2 ^ 15 + rw_offset r) / 2 ^ 15) with (rw_lib r * 2 ^ 11 + rw_key r)
    by (Z.div_mod_to_equations; lia).
  replace ((lib * 2 ^ 26 + key * 2 ^ 15) / 2 ^ 15) with (lib * 2 ^ 11 + key) by (Z.div_mod_to_equations; lia).
  destruct (Z.ltb_spec (lib * 2 ^ 11 + key) (rw_lib r * 2 ^ 11 + rw_key r)); [lia|].
  destruct (Z.ltb_spec (rw_lib r * 2 ^ 11 + rw_key r) (lib * 2 ^ 11 + key)); lia.
Qed.

(** The table of reasons is searched by library and reason.  In a table of packed
    rows, [err_string_lookup] returns the string at the offset of the row for a library
    and a reason, and nothing where there is no such row, in particular for numbers that
    do not fit into a row. *)
Theorem reason_lookup rows data lib key :
  Forall row_ok rows -> NoDup ((fun r => (rw_lib r, rw_key r)) <$> rows) -> 0 <= lib -> 0 <= key ->
  (forall r, r ∈ rows -> rw_lib r = lib -> rw_key r = key ->
     err_string_lookup lib key (pack_row <$> rows) data = Some (until_nul (drop (Z.to_nat (rw_offset r)) data))) /\
  ((forall r, r ∈ rows -> ~ (rw_lib r = lib /\ rw_key r = key)) ->
     err_string_lookup lib key (pack_row <$> rows) data = None).
Proof.
  intros Hok Hnd Hl Hk. unfold err_string_lookup. change (Z.shiftl 1 6) with (2 ^ 6). change (Z.shiftl 1 11) with (2 ^ 11).
  destruct ((2 ^ 6 <=? lib) || (2 ^ 11 <=? key)) eqn:Eb.
  { split; [|done]. intros r Hr <- <-. assert (row_ok r) as (? & ? & _) by by eapply List.Forall_forall in Hok; [|apply list_elem_of_In].
    apply orb_true_iff in Eb as [Eb|Eb]; apply Z.leb_le in Eb; lia. }
  apply orb_false_iff in Eb as [El Ek]. apply Z.leb_gt in El, Ek. unfold c_bsearch.
  assert (forall r, row_ok r -> (err_string_cmp (Z.lor (u32 (Z.shiftl lib 26)) (u32 (Z.shiftl key 15))) (pack_row r) =? 0) =
            bool_decide (rw_lib r = lib /\ rw_key r = key)) as Hcmp.
  { intros r Hr. apply eq_bool_prop_intro. rewrite bool_decide_spec, Is_true_true, Z.eqb_eq. apply row_cmp; [lia|lia|done]. }
  induction Hok as [|r rows Hr Hok IH]; [split; [by intros r Hr%not_elem_of_nil|done]|].
  cbn [fmap list_fmap] in *. apply list.NoDup_cons in Hnd as [Hnin Hnd]. specialize (IH Hnd).
  cbn [List.find]. rewrite Hcmp by done. case_bool_decide as E.
  - split; [|intros Hno; by destruct (Hno r (list_elem_of_here _ _))]. intros r' Hr' El' Ek'.
    apply elem_of_cons in Hr' as [->|Hr'].
    + f_equal. f_equal. f_equal. f_equal. unfold pack_row. destruct Hr as (Hrl & Hrk & Hro).
      rewrite (land_mask _ 15) by lia. Z.div_mod_to_equations; lia.
    + destruct Hnin. apply list_elem_of_fmap. exists r'. split; [|done]. destruct E as [-> ->]. by rewrite El', Ek'.
  - destruct IH as [IH1 IH2]. split.
    + intros r' Hr' El' Ek'. apply elem_of_cons in Hr' as [->|Hr']; [tauto|by apply IH1].
    + intros Hno. apply IH2. intros r' Hr'. apply Hno. by apply list_elem_of_further.
Qed.

(** ** Messages *)

Lemma until_nul_free bs : nul_free (until_nul bs).
Proof.
  induction bs as [|c bs IH]; [constructor|]. cbn. destruct (Z.eqb_spec c 0); [constructor|]. by constructor.
Qed.
Lemma until_nul_app xs ys : nul_free xs -> until_nul (xs ++ 0 :: ys) = xs.
Proof.
  induction 1 as [|x xs Hx _ IH]; [done|]. cbn. by rewrite (proj2 (Z.eqb_neq x 0)), IH.
Qed.
Lemma print_hex_free digits n : 0 <= n -> nul_free (print_hex digits n).
Proof.
  revert n. induction digits as [|k IH]; intros n Hn; [constructor|]. cbn [print_hex]. apply Forall_app.
  split; [apply IH; by apply Z.div_pos|]. constructor; [|constructor]. unfold hex_digit.
  pose proof (Z.mod_pos_bound n 16). destruct (_ <? _) eqn:E; lia.
Qed.
Lemma library_names_free i s : kLibraryNames !! i = Some s -> nul_free s.
Proof.
  intros Hs. assert (Forall nul_free kLibraryNames) as Hall; [|by eapply Forall_lookup_1].
  apply (bool_decide_unpack (Forall (Forall (fun c => c <> 0)) kLibraryNames)). by vm_compute.
Qed.

Section text.
Context `{Allocator} (set_thread_local_ok : world -> bool).
(** [strerror] returns strings. *)
Context (strerror : Z -> bytes) (strerror_string : forall n, nul_free (strerror n)).
Context (kOpenSSLReasonValues : list Z) (kOpenSSLReasonStringData : bytes).
Local Abbreviation message := (error_message strerror kOpenSSLReasonValues kOpenSSLReasonStringData).
Local Abbreviation reason_string := (err_reason_error_string strerror kOpenSSLReasonValues kOpenSSLReasonStringData).

Lemma lookup_free lib key s values data : err_string_lookup lib key values data = Some s -> nul_free s.
Proof.
  unfold err_string_lookup. destruct (_ || _); [done|]. destruct (c_bsearch _ _ _); [|done].
  intros [= <-]. apply until_nul_free.
Qed.
Lemma literal_free (s : string) : forallb (fun c => negb (c =? 0)) (str s) = true -> nul_free (str s).
Proof.
  rewrite List.forallb_forall. intros E. apply List.Forall_forall. intros c Hc. apply E in Hc.
  by destruct (Z.eqb_spec c 0).
Qed.
Lemma reason_free p s : reason_string p = Some s -> nul_free s.
Proof.
  unfold err_reason_error_string. destruct (_ =? ERR_LIB_SYS).
  { destruct (_ <? 127); [|done]. intros [= <-]. apply strerror_string. }
  destruct (_ <? ERR_NUM_LIBS); [apply library_names_free|].
  destruct (_ <? 100); [|apply lookup_free].
  repeat (destruct (_ =? _); [intros [= <-]; by apply literal_free|]). done.
Qed.
Lemma message_free p : 0 <= p -> nul_free (message p).
Proof.
  intros Hp. unfold error_message, nul_free. rewrite !Forall_app. fold nul_free.
  split; [by apply literal_free|]. split; [by apply print_hex_free|]. split; [by apply literal_free|].
  split; [|split; [by apply literal_free|]].
  - unfold err_lib_error_string. destruct (_ <=? _); [apply until_nul_free|].
    destruct (_ !! _) eqn:E; [by eapply library_names_free|apply until_nul_free].
  - destruct (reason_string p) eqn:E; [by eapply reason_free|apply until_nul_free].
Qed.
Lemma message_colons p : (4 <= colons (message p))%nat.
Proof.
  unfold error_message. rewrite !colons_app.
  assert (colons (str "error:") = 1%nat) as -> by done. assert (colons (str ":") = 1%nat) as -> by done.
  assert (colons (str ":OPENSSL_internal:") = 2%nat) as -> by done. lia.
Qed.

(** C33: A message fits and has its fields.  For every code and every buffer longer than
    four bytes [ERR_error_string_n] leaves a terminated string in the buffer that has
    at least four colons: the message of the code where it fits, and else as much of
    the message as fits, of which only the last four bytes may be replaced by colons;
    it has four colons exactly if the message has.  Shorter buffers get a terminated
    prefix, and an empty one nothing. *)
Theorem error_string_fields packed_error len :
  0 <= packed_error -> 0 <= len ->
  match ERR_error_string_n strerror kOpenSSLReasonValues kOpenSSLReasonStringData packed_error len with
  | None => len = 0
  | Some buf => exists s, buf = s ++ [0] /\ nul_free s /\ Z.of_nat (length buf) <= len /\
      (Z.of_nat (length (message packed_error)) < len -> s = message packed_error) /\
      (len <= Z.of_nat (length (message packed_error)) -> Z.of_nat (length buf) = len /\
         take (length s - 4) s = take (length s - 4) (message packed_error)) /\
      (4 < len -> (4 <= colons s)%nat /\
         (colons (message packed_error) = 4%nat -> colons s = 4%nat))
  end.
Proof.
  intros Hp Hl. unfold ERR_error_string_n, c_snprintf. set (text := message packed_error).
  assert (nul_free text) as Hz by (by apply message_free).
  pose proof (message_colons packed_error) as Hc. fold text in Hc.
  destruct (Z.eqb_spec len 0) as [->|Hne]; [done|]. set (xs := take (Z.to_nat (len - 1)) text).
  assert (nul_free xs) as Hzx by (by apply Forall_take).
  destruct (Z.leb_spec len (Z.of_nat (length text))) as [Hlong|Hshort].
  - assert (length xs = Z.to_nat (len - 1)) as Hlx by (unfold xs; rewrite length_take; lia).
    assert (take (length xs - 4) xs = take (length xs - 4) text) as Hpre.
    { unfold xs at 2. rewrite take_take. f_equal. lia. }
    destruct (Z.leb_spec len 4) as [H4|H4].
    + exists xs. rewrite length_app. cbn [length]. split_and!; [done|done|lia|lia| |lia].
      intros _. split; [lia|done].
    + assert (len = Z.of_nat (length xs) + 1) as Hlen by lia.
      assert (4 <= length xs)%nat as H4x by lia.
      destruct (colon_loop_spec 4 0 xs len Hzx Hlen H4x (or_introl H4x)) as (ys & E & Hly & Hzy & Hcy & Hor & Htk).
      rewrite take_0 in Hcy, Hor. cbn [colons] in Hcy, Hor. change (Z.of_nat 0) with 0 in E. exists ys.
      rewrite E, length_app, Hly. cbn [length]. split_and!; [done|done|lia|lia| |].
      * intros _. split; [lia|]. by rewrite <- Hpre, <- Htk.
      * intros _. split; [lia|]. intros H4c. destruct Hor as [->|Hor]; [|lia].
        pose proof (colons_take (Z.to_nat (len - 1)) (length text) text ltac:(lia)) as Hle.
        rewrite (take_ge text (length text)) in Hle by lia. fold xs in Hle. lia.
  - assert (xs = text) as -> by (unfold xs; rewrite take_ge by lia; done). exists text.
    rewrite length_app. cbn [length]. split_and!; [done|done|lia|done|lia|]. intros _. by split.
Qed.

(** ** Printing *)

Context {C : Type} (callback : bytes -> C -> Z * C).
(** The names of files are strings of the caller. *)
Context (file_name : Z -> bytes).

Definition file_text (e : entry) : bytes := if en_file e =? 0 then str "NA" else file_name (en_file e).
Definition entry_line (thread_hash : Z) (e : entry) : bytes :=
  print_line thread_hash
    (until_nul (default [] (ERR_error_string_n strerror kOpenSSLReasonValues kOpenSSLReasonStringData
       (en_packed e) ERR_ERROR_STRING_BUF_LEN)))
    (file_text e) (if en_file e =? 0 then 0 else en_line e) (default [] (en_text e)).
(** The queue is printed from its head; an error without a code ends it, and so does
    the callback. *)
Fixpoint print_queue (thread_hash : Z) (q : list entry) (ctx : C) : C * list entry :=
  match q with
  | [] => (ctx, [])
  | e :: q =>
      if en_packed e =? 0 then (ctx, q)
      else
        let r := callback (entry_line thread_hash e) ctx in
        if r.1 <=? 0 then (r.2, q) else print_queue thread_hash q r.2
  end.
Definition files_named (base : world) (q : list entry) : Prop :=
  Forall (fun e => en_file e <> 0 -> string_at (w_mem base) (en_file e) (file_name (en_file e))) q.

Lemma read_pointer_spec a xs t w (Q : bytes -> err_thread -> world -> Prop) :
  string_at (w_mem w) a xs -> Q xs t w -> spec False False (read_text (Pointer a)) Q t w.
Proof.
  intros Hs HQ. unfold read_text. apply spec_bind. unfold spec at 1. rewrite (c_strlen_run _ _ _ _ Hs).
  unfold spec. rewrite (load_bytes_run _ _ xs); [done|]. rewrite Nat2Z.id.
  destruct Hs as [Hl _]. rewrite length_app in Hl. rewrite <- (take_app_length xs [0]) at 2.
  eapply load_take; [exact Hl|lia].
Qed.

Lemma print_loop_spec base cs fuel thread_hash ctx t w q :
  (length q <= fuel)%nat -> rep base cs t w q -> files_named base q ->
  spec False False (print_loop set_thread_local_ok strerror kOpenSSLReasonValues kOpenSSLReasonStringData
      callback fuel thread_hash ctx) (fun ctx' t' w' => same_env t t' /\
    ctx' = (print_queue thread_hash q ctx).1 /\ rep base cs t' w' (print_queue thread_hash q ctx).2) t w.
Proof.
  revert ctx t w q. induction fuel as [|fuel IH]; intros ctx t w q Hlen R Hf; cbn [print_loop]; apply spec_bind;
    (eapply spec_mono; [by apply (get_spec set_thread_local_ok base cs t w q true true)|]);
    intros [[code place] text] t1 w1 [Hs Hq]; (destruct q as [|e q];
      [destruct Hq as [[= -> -> ->] R1]; by apply spec_ret|]).
  { cbn in Hlen. lia. }
  destruct Hq as [[Hr Hx] R1]. cbn [fst snd] in Hr, Hx. injection Hr as -> ->. destruct Hx as (p & -> & Hsh).
  apply Forall_cons_1 in Hf as [Hfe Hf]. cbn [print_queue]. destruct (en_packed e =? 0) eqn:Ep; [by apply spec_ret|].
  destruct (location e) as [file line] eqn:El. destruct p as [data flags].
  apply spec_bind. eapply (spec_mono _ _ _ (fun f t' w' => t' = t1 /\ w' = w1 /\ f = file_text e /\
    line = if en_file e =? 0 then 0 else en_line e)).
  { unfold location in El. unfold file_text. destruct (Z.eqb_spec (en_file e) 0) as [E0|E0]; injection El as <- <-.
    - by apply spec_ret.
    - eapply read_pointer_spec; [|done]. pose proof R1 as R2. apply rep_chunks in R2 as (X & Ho & _).
      eapply owned_string; [exact Ho|by apply Hfe]. }
  intros f t2 w2 (-> & -> & -> & ->).
  apply spec_bind. eapply (spec_mono _ _ _ (fun d t' w' => t' = t1 /\ w' = w1 /\ d = default [] (en_text e))).
  { unfold shows in Hsh. destruct (en_text e) as [s|].
    - destruct Hsh as (a & [= -> ->] & Hstr). by eapply read_pointer_spec.
    - injection Hsh as -> ->. by apply spec_ret. }
  intros d t2 w2 (-> & -> & ->). cbv zeta. fold (entry_line thread_hash e).
  destruct (callback (entry_line thread_hash e) ctx) as [go_on ctx1] eqn:Ec. cbn [fst snd].
  destruct (go_on <=? 0); [by apply spec_ret|].
  eapply spec_mono; [apply (IH ctx1 t1 w1 q); [cbn in Hlen; lia|done|done]|].
  intros ctx2 t2 w2 (Hs2 & -> & R2). split; [by eapply same_env_trans|]. by split.
Qed.

(** Printing empties the queue in order.  [ERR_print_errors_cb] calls the callback
    with a line for every error from the least recent on, made of the thread, the
    message, the file and line and the text, all of which are there to be read, and
    removes the errors it printed; it stops early only for the callback or an error
    without a code. *)
Theorem print_errors_correct base cs t w q ctx :
  rep base cs t w q -> files_named base q ->
  spec False False (ERR_print_errors_cb set_thread_local_ok strerror kOpenSSLReasonValues kOpenSSLReasonStringData
      callback ctx) (fun ctx' t' w' => same_env t t' /\ exists thread_hash,
    ctx' = (print_queue thread_hash q ctx).1 /\ rep base cs t' w' (print_queue thread_hash q ctx).2) t w.
Proof.
  intros R Hf. unfold ERR_print_errors_cb. apply spec_bind. eapply spec_mono; [by apply get_state_spec|].
  intros o t1 w1 (_ & Hs & R1 & _). eapply spec_mono; [eapply print_loop_spec; [|exact R1|exact Hf]|].
  - pose proof (rep_short _ _ _ _ _ R1). change (Z.to_nat ERR_NUM_ERRORS) with 16%nat. lia.
  - intros ctx' t2 w2 (Hs2 & -> & R2). split; [by eapply same_env_trans|]. eexists. by split.
Qed.
End text.

(** ** On concrete codes *)

#[local] Existing Instance bump_allocator.
Definition no_strerror (n : Z) : bytes := str "Interrupted system call".
Lemma no_strerror_string n : nul_free (no_strerror n).
Proof. by apply literal_free. Qed.

Example short_messages :
  (fun len => ERR_error_string_n no_strerror [] [] 0x2000004 len) <$> [0; 1; 5; 12; 40; 71] =
  [None; Some [0]; Some (str "::::" ++ [0]); Some (str "error:02:::" ++ [0]);
   Some (str "error:02000004:system library:OPENSSL_:" ++ [0]);
   Some (str "error:02000004:system library:OPENSSL_internal:Interrupted system call" ++ [0])].
Proof. vm_compute. reflexivity. Qed.

Lemma error_string_fields_witness :
  match ERR_error_string_n no_strerror [] [] 0x2000004 12 with
  | None => 12 = 0
  | Some buf => exists s, buf = s ++ [0] /\ nul_free s /\ Z.of_nat (length buf) <= 12 /\
      (Z.of_nat (length (error_message no_strerror [] [] 0x2000004)) < 12 -> s = error_message no_strerror [] [] 0x2000004) /\
      (12 <= Z.of_nat (length (error_message no_strerror [] [] 0x2000004)) -> Z.of_nat (length buf) = 12 /\
         take (length s - 4) s = take (length s - 4) (error_message no_strerror [] [] 0x2000004)) /\
      (4 < 12 -> (4 <= colons s)%nat /\
         (colons (error_message no_strerror [] [] 0x2000004) = 4%nat -> colons s = 4%nat))
  end.
Proof. apply (error_string_fields no_strerror no_strerror_string [] [] 0x2000004 12); lia. Defined.

Definition sample_rows : list reason_row := [Row 16 100 0; Row 16 101 4; Row 20 100 0].
Definition sample_data : bytes := str "abc" ++ [0] ++ str "def" ++ [0].
Lemma reason_lookup_witness :
  (forall r, r ∈ sample_rows -> rw_lib r = 16 -> rw_key r = 101 ->
     err_string_lookup 16 101 (pack_row <$> sample_rows) sample_data =
       Some (until_nul (drop (Z.to_nat (rw_offset r)) sample_data))) /\
  ((forall r, r ∈ sample_rows -> ~ (rw_lib r = 16 /\ rw_key r = 101)) ->
     err_string_lookup 16 101 (pack_row <$> sample_rows) sample_data = None).
Proof.
  apply (reason_lookup sample_rows sample_data 16 101); [|apply (bool_decide_unpack _); by vm_compute|lia|lia].
  repeat first [apply List.Forall_nil | apply List.Forall_cons; [unfold row_ok; cbn; lia|]].
Defined.

(** A file that takes what is printed. *)
Lemma print_errors_correct_witness :
  spec False False (ERR_print_errors_cb (fun _ => true) no_strerror [] [] (print_errors_to_file (fun _ => true)) [])
    (fun ctx' t' w' => same_env one_thread t' /\ exists thread_hash,
      ctx' = (print_queue no_strerror [] [] (print_errors_to_file (fun _ => true)) (fun _ => [104; 105]) thread_hash one_queue []).1 /\
      rep sample_world [] t' w'
        (print_queue no_strerror [] [] (print_errors_to_file (fun _ => true)) (fun _ => [104; 105]) thread_hash one_queue []).2)
    one_thread one_world.
Proof.
  apply (print_errors_correct (fun _ => true) no_strerror [] [] (print_errors_to_file (fun _ => true))
           (fun _ => [104; 105]) sample_world [] one_thread one_world one_queue []).
  - exact one_rep.
  - apply List.Forall_cons; [intros _; exact hi_text|apply List.Forall_nil].
Defined.
Example printed_line :
  match ERR_print_errors_cb (fun _ => true) no_strerror [] [] (print_errors_to_file (fun _ => true)) [] one_thread one_world with
  | Ret (file, _, _) =>
      file = str "4096:error:01000064:unknown library:OPENSSL_internal:reason(100):hi:7:" ++ [10]
  | _ => False
  end.
Proof. vm_compute. reflexivity. Qed.
